(* ===== verification/_CoqProject ===== *)
-Q . S2P
Prelude.v
SortedAssoc.v
ExpanseApi.v
HostLock.v
Sync32.v
MemTable.v
BleTracker.v
BleTrackerProofs.v
BleTheorems.v
Alts.v
SortedArray.v
OpenHash.v
OpenHashProofs.v
OpenHashTheorems.v
TSearch.v
AltFixtures.v
Lanes.v
XorShift.v
LanesProofs.v
LaneFill.v
LaneIsr.v
LaneTheorems.v
Fonts.v
Gfx.v
RocksKeys.v
RocksArena.v
HarnessOut.v
DualCore.v
HarnessArms.v
DemoScreen.v
DemoLayout.v
DemoBeat.v
LaneFrame.v
DemoMain.v
BoardConfig.v
DemoProgram.v
DemoRun.v
Probing.v
Twins.v
TwinHash.v
TwinHashProofs.v
TwinSorted.v
TwinRing.v
TwinTheorems.v
TwinBle.v
TwinBleProofs.v
TwinBleTheorems.v
EngineViews.v
QemuSmoke.v
QemuChecks.v
QemuGate.v
Startup.v
Bench.v
BenchKeys.v
BenchLog.v
BenchBle.v
BenchTheorems.v
Esp32.v
CrossCore.v
IsrArms.v
HarnessBoard.v
HarnessRun.v
HarnessLog.v
M4Text.v
RocksTable.v
RocksIter.v
RocksChain.v
RocksEntries.v
RocksLookup.v
RocksCursor.v
RocksBatch.v
RocksSeqlock.v
RocksRaces.v
RocksLocate.v
RocksHandles.v
RocksLife.v
