(* ===== verification/Prelude.v ===== *)
(** * Expanse on microcontrollers: a verification development

    The repository's core is an ordered word map (a digital trie, in Rust) behind
    a C ABI, [src/include/expanse.h].  This development is about the C code built
    on that ABI: two components shipped for firmware, the harness and the LCD demo
    that measure the engine on an STM32H747 against other structures, the programs
    that run the components under QEMU and on an ESP32, and the RocksDB memtable
    (C++) that keeps its index in the engine.

    ** Parts and files

    - [Prelude]: w-bit integers as [Z] with their wrap-around ([u32], [+w], [-w],
      [*w], [<<w]), C arrays as lists whose out-of-range access is [None]
      ([arr_get], [arr_set]), tactics, shared lemmas.
    - [SortedAssoc]: ascending association lists, what an ordered map denotes.
    - [ExpanseApi], [Sync32]: the engine's entry points as classes of operations
      with the laws the header documents ([expanse_map_t]; the single-writer
      concurrent map [expanse_sync32_map_t]), each with an instance.  Every
      client is proved against the class.
    - [HostLock], [MemTable]: [components/expanse/src/expanse_memtable.c], the
      telemetry table, in its 64-bit and 32-bit builds, with the mutex.
    - [BleTracker], [BleTrackerProofs], [BleTheorems]:
      [components/expanse/src/expanse_ble_tracker.c], the asset tracker: slab,
      MAC and time indices, clock unwrapping, epoch rebasing, expiry, lifecycle.
    - [Probing], [Twins], [TwinHash], [TwinHashProofs], [TwinSorted], [TwinRing],
      [TwinTheorems], [TwinBle], [TwinBleProofs], [TwinBleTheorems]:
      [components/expanse/test/twin_containers.c], the containers the two
      components are benchmarked against: linear probing with backward shift, a
      sorted array and a ring, each in a direct and a function-pointer arm.
      [Probing] is the theory of a probe run, shared by both hash twins; class
      [TwinOps] with its laws is what an arm promises its benchmark.
    - [Alts], [SortedArray], [OpenHash], [OpenHashProofs], [OpenHashTheorems],
      [TSearch]: [integrations/stm32h747/alts.c], the structures the engine is
      compared with, behind one vtable (class [AltOps] with its laws).
    - [AltFixtures], [HarnessOut], [HarnessArms], [DualCore]:
      [integrations/stm32h747/main.c] and [dual.h]: the fixtures; printing, the
      text relay, heap, profile, pacing; the interrupt arm, the writer and the
      M4's reader; the mailbox between the two cores as steps in any schedule,
      its time-outs included.
    - [CrossCore], [IsrArms], [HarnessBoard], [HarnessRun], [HarnessLog], [M4Text]:
      the rest of [integrations/stm32h747/main.c]: the shared map under the
      hardware semaphore, both interrupt arms as programs an interrupt enters,
      clock, power, cache and UART registers, [main] and its fixture runs as a log
      of lines (also in the layout-sweep build), and the M4's turn.
    - [Lanes], [XorShift], [LanesProofs], [LaneFill], [LaneIsr], [LaneTheorems]:
      [integrations/stm32h747/demo/CM7/Core/Src/lanes.c], the demo's two lanes,
      one workload on two structures under a 1 kHz interrupt.
    - [Fonts], [Gfx]: [Inc/fonts.h] byte for byte and [Src/gfx.c], drawing.
    - [DemoScreen], [DemoLayout], [DemoBeat]: the drawing half of the demo's
      [Src/main.c]: the step table, the layout, the panels, the heartbeat band.
    - [LaneFrame], [DemoMain], [DemoProgram], [DemoRun], [BoardConfig]: the rest of
      [Src/main.c]: steps, ledger, main loop, timers and interrupts as a
      transition system over both lanes and the screen, heap, MPU and clocks.
    - [EngineViews], [QemuSmoke], [QemuChecks], [QemuGate]:
      [integrations/qemu-cortex-m3/smoke.c], the emulated gate, over class views of
      the engine's set, last-key and concurrent-map entry points; [Startup]: the
      reset handlers and vector tables of both [startup.c] files.
    - [Bench], [BenchKeys], [BenchLog], [BenchBle], [BenchTheorems]:
      [components/expanse/test/bench_esp32_memtable.c], the benchmark runner over
      both components and the twins, as a log of its printed lines; [Esp32]:
      [components/expanse/src/expanse_esp_idf.c], the allocation hooks, and
      [integrations/esp32/main/main.c], the boot check.
    - [RocksKeys], [RocksArena]:
      [integrations/rocksdb/include/expanse_memtable.h]: varints, internal keys,
      trie prefixes, the bump arena.
    - [RocksTable], [RocksIter], [RocksChain], [RocksEntries], [RocksLookup],
      [RocksCursor], [RocksBatch], [RocksSeqlock], [RocksRaces], [RocksLocate],
      [RocksHandles], [RocksLife]:
      [integrations/rocksdb/src/expanse_memtable.cc], the memtable itself: blocks
      in a doubly linked chain under a trie of prefixes, [Insert] and
      [SplitLeafBlock], [Contains] and [Get], the cursor and its batches, operation
      by operation ([RocksTable], [RocksIter]); the chain's invariant
      ([RocksChain]) and the theorems over class [KeyComparatorLaws], which
      [RocksEntries] discharges for RocksDB's entry layout; one block's version
      bracket store by store ([RocksSeqlock]); a step across blocks cut in two by
      insertions ([RocksRaces]); the locate phases of the lock scopes with
      insertions between their loads ([RocksLocate]); the optimistic scope's reader
      handles, as a process of threads and representations ([RocksHandles]); the
      destructor ([RocksLife]).

    ** How code becomes definitions

    A struct is a record, an enum or a program point an inductive type; a
    function keeps its name.  State is passed explicitly; the lanes use a
    state-and-error monad [ST] whose state also lists the points at which the
    interrupt can be taken, the demo's drawing a monad [DR] over the screen, and
    its main loop a monad [DM] that runs both; the harness's [main] uses a monad
    [HM] over its instruments, registers and log.  [None] stands for what C leaves undefined or never
    reaches: an access outside an array, a null dereference, a signed overflow, a
    loop that outran its fuel.  Results that C returns as codes stay codes.
    Cycle counters, [malloc] outcomes and addresses, newlib's tree and the
    interrupt's arrival are arguments.

    ** What the theorems show

    - Refinement: any call sequence on the memtable, the hash table and the
      vtable structures behaves as an abstract map; both builds agree.  The RocksDB
      memtable is a sorted table wherever its trie points, and its cursor keeps its
      entry while insertions shift and split the blocks under it; a lookup that
      holds no lock while it locates its block answers the same.
    - Equivalence: any workload that fits gives the same answers on every arm of
      the component benchmark; the
      benchmark's arms report the same operations and the same aggregates; a batch
      of the RocksDB cursor is the steps it stands for.
    - Function: what each tracker operation, a lane's sweep, a tick of the
      interrupt, a turn of the demo's main loop, the heartbeat band and the text
      relay do, on every branch; the lines the benchmark prints, the verdicts of
      the QEMU gate and of the ESP32 boot check, memory after the reset handler;
      the harness's lines name the clock and the cache they were measured under.
    - Invariants: in every interleaving of the demo's turns and interrupts its
      step, ledger and lane configuration belong together; a scan of the RocksDB
      memtable among insertions loses and repeats nothing; a thread reads through
      its own live handle whatever was built and destroyed before.
    - Safety: array bounds (the tracker's, for sightings not before its epoch
      base), balanced locks and memory on every path; in the masked hash lane, at
      every point of any main-loop sequence that fits its table the interrupt reads
      the tracked devices in their slots; in the mailbox, the M4 holds only live
      maps in every schedule, with time-outs at any moment, in which half a second
      of mutations overlaps ten of its accesses; under the semaphore the cores
      exclude each other, whatever a read answers;
      no interrupt arm reports a wrong reading; a validated bracket has read a
      RocksDB block between two writes.
    - Bounds, order, round trips: exact sums and clocks, drawing inside the
      framebuffer, the font tables and each panel's box, disjoint aligned arena regions, varints
      and printed numbers read back, the M4's text inside its buffer unless hundreds of pre-fills are refused, internal keys totally ordered and their
      64-bit prefixes order-preserving.
    - Termination and liveness: probe loops end, retry loops need one reclaim,
      the lane's id generator draws at most three times, mailbox waits are
      answered within ten accesses, waits for the semaphore within a bound that
      counts the writer's refusals,
      the interrupt arms and the fixture runs end, the turns of the demo's masked
      steps complete.
    - Error behaviour: where the code falls short (an older sighting after a
      newer one, a cutoff before the clock wraps, tombstones that never become
      empty, a fill that enables its interrupt, a leaked slot, text left of the
      screen, the mailbox with eight accesses in place of ten, expiry that cuts a probe run, an
      insertion into a full table, a RocksDB seek by an internal key alone, a split
      between a cursor's validation and its link), each as a theorem.

    ** Fuel and bounds

    Fuel is always the bound the theorems prove enough: the table size for a
    probe (one lap), 64 for the doublings of a twin's capacity, 2 for a retried mutation ([RETRIES]), 3 for an id draw ([ID_DRAWS]),
    256 for an ingest (the loop's own bound), 10 digits for a [uint32_t], the
    clock for the heartbeat's columns (each is at least a millisecond), the
    string or list length elsewhere.  A walk along the RocksDB blocks has as many
    rounds as there are blocks, a search in one as many as it has entries, a batch
    as many as the entries asked for.  A reset handler's copy loops run on the
    section's words, the QEMU gate's churn on its own cap [MUTATIONS_CAP] and its
    walk on the map's length.  Status bits of the board are polled [delay] times and a calibration [spin]
    times, the bounds in which class [BoardLaws] and [HarnessLog.paced] say they
    answer.  [DualCore.explore] visits a finite
    abstraction of the mailbox's configurations exhaustively ([DualCore.abs_step]:
    every step is one of the abstraction's); that the table it leaves is closed
    under steps is checked, not assumed.

    ** Not modelled

    The engine is Rust and enters as a contract.  Bindings and the other database
    plug-ins are other languages, and the C ABI smoke
    programs and unit tests are tests.  Of the RocksDB memtable: the sync
    map of its optimistic scope (it answers as the map does), memory accounting,
    prefetches and test hooks; its operations run whole but for the bracket, the
    steps and the locate phases named above.  Vendor drivers (HAL, BSP, CMSIS) are left
    out; of the harness its last two lines and the [destroy] calls (its structures
    get the memory they ask for), of the demo the vendor initialisation calls, the system call stubs and the interrupt table, of the
    benchmark the [destroy] calls.  The demo's turns are proved to complete in
    the steps whose hash reader is masked: what an unmasked reader finds in a
    half-moved table is left open, and they need an arena that refuses no insertion
    below a stated size ([arena_holds], which [expanse.h] does not promise).  The
    Expanse lane's sweep is described for the records its time map lists only.
    The mailbox's header is sequentially consistent, as the barriers and the
    non-cacheable region make it, and so is memory between a program and an
    interrupt on its core.  Of a map read from the other core, which [expanse.h] does
    not support, nothing is assumed and no value is claimed; caches are not
    modelled. *)
From stdpp Require Import base numbers list sorting gmap.
From Stdlib Require Import Lia ZArith Sorted.
#[export] Set Default Goal Selector "!".
#[export] Set Warnings "-clear-no-such-hyp".
Open Scope Z_scope.

(** ** Notations *)
Declare Scope word_scope.
Delimit Scope word_scope with word.

(** ** Machine words: a w-bit unsigned integer is the [Z] in [0, 2^w) *)
Definition u8 (z : Z) : Z := z mod 2 ^ 8.
Definition u16 (z : Z) : Z := z mod 2 ^ 16.
Definition u32 (z : Z) : Z := z mod 2 ^ 32.
Definition u64 (z : Z) : Z := z mod 2 ^ 64.

Definition UINT32_MAX : Z := 4294967295.

(** Wrap-around arithmetic of [uint32_t]. *)
Notation "a +w b" := (u32 (a + b)) (at level 50, left associativity) : word_scope.
Notation "a -w b" := (u32 (a - b)) (at level 50, left associativity) : word_scope.
Notation "a *w b" := (u32 (a * b)) (at level 40, left associativity) : word_scope.
Notation "a <<w n" := (u32 (Z.shiftl a n)) (at level 35) : word_scope.
Open Scope word_scope.

Definition is_u8 (z : Z) : Prop := 0 <= z < 2 ^ 8.
Definition is_u16 (z : Z) : Prop := 0 <= z < 2 ^ 16.
Definition is_u32 (z : Z) : Prop := 0 <= z < 2 ^ 32.
Definition is_u64 (z : Z) : Prop := 0 <= z < 2 ^ 64.

Lemma u32_range z : is_u32 (u32 z).
Proof. unfold is_u32, u32. apply Z.mod_pos_bound. lia. Qed.
Lemma u64_range z : is_u64 (u64 z).
Proof. unfold is_u64, u64. apply Z.mod_pos_bound. lia. Qed.
Lemma u8_range z : is_u8 (u8 z).
Proof. unfold is_u8, u8. apply Z.mod_pos_bound. lia. Qed.
Lemma u32_small z : is_u32 z → u32 z = z.
Proof. intros H. apply Z.mod_small. exact H. Qed.
Lemma u64_small z : is_u64 z → u64 z = z.
Proof. intros H. apply Z.mod_small. exact H. Qed.
Lemma u16_small z : is_u16 z → u16 z = z.
Proof. intros H. apply Z.mod_small. exact H. Qed.
Lemma u32_idem z : u32 (u32 z) = u32 z.
Proof. apply u32_small, u32_range. Qed.

Create HintDb words.
#[export] Hint Resolve u8_range u32_range u64_range : words.

(** Decides closed word facts: unfolds the widths, then linear arithmetic. *)
Ltac word_lia :=
  unfold is_u8, is_u16, is_u32, is_u64, UINT32_MAX in *; simpl Z.pow in *; lia.

(** Splits the boolean tests of [if] conditions into facts [lia] reads. *)
Ltac bool_cases :=
  repeat match goal with
  | |- context [if ?b then _ else _] =>
      match type of b with bool => destruct b eqn:? end
  end.
Ltac bool_facts :=
  repeat match goal with
  | H : (_ && _) = true |- _ => apply andb_prop in H as [? ?]
  | H : (_ || _) = false |- _ => apply orb_false_elim in H as [? ?]
  | H : negb _ = true |- _ => apply negb_true_iff in H
  | H : negb _ = false |- _ => apply negb_false_iff in H
  | H : (_ =? _) = true |- _ => apply Z.eqb_eq in H
  | H : (_ =? _) = false |- _ => apply Z.eqb_neq in H
  | H : (_ <? _) = true |- _ => apply Z.ltb_lt in H
  | H : (_ <? _) = false |- _ => apply Z.ltb_ge in H
  | H : (_ <=? _) = true |- _ => apply Z.leb_le in H
  | H : (_ <=? _) = false |- _ => apply Z.leb_gt in H
  | H : (_ >? _) = true |- _ => rewrite Z.gtb_ltb in H; apply Z.ltb_lt in H
  | H : (_ >? _) = false |- _ => rewrite Z.gtb_ltb in H; apply Z.ltb_ge in H
  | H : (_ >=? _) = true |- _ => rewrite Z.geb_leb in H; apply Z.leb_le in H
  | H : (_ >=? _) = false |- _ => rewrite Z.geb_leb in H; apply Z.leb_gt in H
  end.

(** ** Bit tests *)
Lemma land_pow2_testbit a n :
  0 <= n → negb (Z.land a (Z.shiftl 1 n) =? 0) = Z.testbit a n.
Proof.
  intros Hn. rewrite Z.shiftl_1_l.
  destruct (Z.testbit a n) eqn:Hb.
  - apply negb_true_iff, Z.eqb_neq. intros H0.
    assert (Z.testbit (Z.land a (2 ^ n)) n = true) as Ht.
    { by rewrite Z.land_spec, Hb, Z.pow2_bits_true by lia. }
    by rewrite H0, Z.bits_0 in Ht.
  - apply negb_false_iff, Z.eqb_eq, Z.bits_inj. intros m.
    rewrite Z.land_spec, Z.bits_0.
    destruct (decide (m = n)) as [->|Hne]; [by rewrite Hb|].
    rewrite Z.pow2_bits_false by lia. apply andb_false_r.
Qed.

Lemma testbit_above b n m : 0 <= b < 2 ^ n → n <= m → Z.testbit b m = false.
Proof.
  intros Hb Hm. destruct (decide (b = 0)) as [->|]; [apply Z.bits_0|].
  apply Z.bits_above_log2; [lia|].
  eapply Z.lt_le_trans; [|exact Hm]. apply Z.log2_lt_pow2; lia.
Qed.

(** A field below bit [n] or-ed or xor-ed into a value shifted by [n] is their sum. *)
Lemma land_low a b n : 0 <= n → 0 <= b < 2 ^ n → Z.land (a * 2 ^ n) b = 0.
Proof.
  intros Hn Hb. apply Z.bits_inj. intros m. rewrite Z.land_spec, Z.bits_0.
  destruct (Z.ltb_spec m 0); [by rewrite Z.testbit_neg_r by lia|].
  destruct (Z.ltb_spec m n); [by rewrite Z.mul_pow2_bits_low by lia|].
  rewrite (testbit_above b n m) by lia. apply andb_false_r.
Qed.
Lemma lxor_low a b n : 0 <= n → 0 <= b < 2 ^ n → Z.lxor (a * 2 ^ n) b = a * 2 ^ n + b.
Proof. intros Hn Hb. symmetry. by apply Z.add_nocarry_lxor, land_low. Qed.
Lemma lor_low a b n : 0 <= n → 0 <= b < 2 ^ n → Z.lor (a * 2 ^ n) b = a * 2 ^ n + b.
Proof. intros Hn Hb. rewrite <- Z.lxor_lor by (by apply land_low). by apply lxor_low. Qed.
Lemma lor_shiftl_add a b n :
  0 <= n → 0 <= b < 2 ^ n → Z.lor (Z.shiftl a n) b = a * 2 ^ n + b.
Proof. intros Hn Hb. rewrite Z.shiftl_mul_pow2 by lia. by apply lor_low. Qed.

(** ** C arrays: a list indexed by [Z]; an access outside the array is [None] *)
Definition arr_get {A} (l : list A) (i : Z) : option A :=
  if 0 <=? i then l !! Z.to_nat i else None.
Definition arr_set {A} (l : list A) (i : Z) (x : A) : option (list A) :=
  if (0 <=? i) && (i <? Z.of_nat (length l)) then Some (<[Z.to_nat i := x]> l) else None.

Section Arrays.
Context {A : Type}.
Implicit Types (l : list A) (i j : Z) (x y : A).

Lemma arr_get_Some_range l i x : arr_get l i = Some x → 0 <= i < Z.of_nat (length l).
Proof.
  unfold arr_get. destruct (Z.leb_spec 0 i); [|done].
  intros Hl%lookup_lt_Some. lia.
Qed.
Lemma arr_get_is_Some l i : 0 <= i < Z.of_nat (length l) → is_Some (arr_get l i).
Proof.
  intros Hi. unfold arr_get. rewrite (proj2 (Z.leb_le 0 i)) by lia.
  apply lookup_lt_is_Some_2. lia.
Qed.
Lemma arr_set_Some l i x :
  0 <= i < Z.of_nat (length l) → arr_set l i x = Some (<[Z.to_nat i := x]> l).
Proof.
  intros Hi. unfold arr_set.
  rewrite (proj2 (Z.leb_le 0 i)), (proj2 (Z.ltb_lt i _)) by lia. done.
Qed.
Lemma arr_set_inv l i x l' :
  arr_set l i x = Some l' → 0 <= i < Z.of_nat (length l) ∧ l' = <[Z.to_nat i := x]> l.
Proof.
  unfold arr_set. destruct (0 <=? i) eqn:?, (i <? _) eqn:?; simpl; try done.
  intros [= <-]. bool_facts. split; [lia|done].
Qed.
Lemma arr_set_length l i x l' : arr_set l i x = Some l' → length l' = length l.
Proof. intros [_ ->]%arr_set_inv. apply length_insert. Qed.
Lemma arr_get_set_eq l i x l' : arr_set l i x = Some l' → arr_get l' i = Some x.
Proof.
  intros [Hi ->]%arr_set_inv. unfold arr_get.
  rewrite (proj2 (Z.leb_le 0 i)) by lia. apply list_lookup_insert_eq. lia.
Qed.
Lemma arr_get_set_ne l i j x l' :
  arr_set l i x = Some l' → i ≠ j → arr_get l' j = arr_get l j.
Proof.
  intros [Hi ->]%arr_set_inv Hne. unfold arr_get.
  destruct (Z.leb_spec 0 j); [|done]. apply list_lookup_insert_ne. lia.
Qed.
Lemma arr_get_set l i j x l' :
  arr_set l i x = Some l' →
  arr_get l' j = if decide (i = j) then Some x else arr_get l j.
Proof.
  intros Hs. case_decide; subst.
  - by eapply arr_get_set_eq.
  - by eapply arr_get_set_ne.
Qed.
Lemma arr_get_elem_of l i x : arr_get l i = Some x → x ∈ l.
Proof. unfold arr_get. destruct (0 <=? i); [apply list_elem_of_lookup_2|done]. Qed.
Lemma arr_get_nat l (n : nat) : arr_get l (Z.of_nat n) = l !! n.
Proof.
  unfold arr_get. rewrite (proj2 (Z.leb_le 0 _)) by lia. by rewrite Nat2Z.id.
Qed.
End Arrays.

(** [memmove] inside one array, in elements: [n] of them from [src] to [dst]. *)
Definition arr_move {A} (l : list A) (dst src n : Z) : option (list A) :=
  if (0 <=? dst) && (0 <=? src) && (0 <=? n)
     && (dst + n <=? Z.of_nat (length l)) && (src + n <=? Z.of_nat (length l))
  then Some (take (Z.to_nat dst) l ++ take (Z.to_nat n) (drop (Z.to_nat src) l)
             ++ drop (Z.to_nat (dst + n)) l)
  else None.

Section Moves.
Context {A : Type}.
Implicit Types (l a b d j : list A) (x : A).

Lemma arr_move_Some l dst src n :
  0 <= dst → 0 <= src → 0 <= n → dst + n <= Z.of_nat (length l) → src + n <= Z.of_nat (length l) →
  arr_move l dst src n = Some (take (Z.to_nat dst) l ++ take (Z.to_nat n) (drop (Z.to_nat src) l)
                               ++ drop (Z.to_nat (dst + n)) l).
Proof.
  intros. unfold arr_move.
  by rewrite (proj2 (Z.leb_le 0 dst)), (proj2 (Z.leb_le 0 src)), (proj2 (Z.leb_le 0 n)),
    (proj2 (Z.leb_le (dst + n) _)), (proj2 (Z.leb_le (src + n) _)) by lia.
Qed.

(** Opening a hole at [i = length a] and filling it. *)
Lemma arr_open a b y j x i n :
  i = Z.of_nat (length a) → n = Z.of_nat (length b) →
  (l ← arr_move (a ++ b ++ y :: j) (i + 1) i n; arr_set l i x) = Some (a ++ x :: b ++ j).
Proof.
  intros -> ->. rewrite arr_move_Some by (rewrite ?length_app; simpl; lia).
  cbn [mbind option_bind].
  replace (Z.to_nat (Z.of_nat (length a) + 1)) with (length a + 1)%nat by lia.
  replace (Z.to_nat (Z.of_nat (length a) + 1 + Z.of_nat (length b))) with (length a + (length b + 1))%nat by lia.
  rewrite !Nat2Z.id, drop_app_length, take_app_length, take_app_add, drop_app_add.
  replace (drop (length b + 1) (b ++ y :: j)) with j by (by rewrite drop_app_add).
  assert (∃ z, take 1 (b ++ y :: j) = [z]) as [z ->] by (destruct b; eexists; done).
  rewrite <- !(assoc_L (++)). simpl.
  rewrite arr_set_Some by (rewrite ?length_app; simpl; lia). f_equal.
  rewrite Nat2Z.id. rewrite <- (Nat.add_0_r (length a)). by rewrite insert_app_r.
Qed.

(** Closing the gap [d] between [a] and [b]. *)
Lemma arr_close a d b j i n :
  i = Z.of_nat (length a) → n = Z.of_nat (length d) →
  ∃ j', arr_move (a ++ d ++ b ++ j) i (i + n) (Z.of_nat (length b)) = Some (a ++ b ++ j')
      ∧ length j' = (length d + length j)%nat.
Proof.
  intros -> ->. rewrite arr_move_Some by (rewrite ?length_app; lia).
  exists (drop (length b) (d ++ b ++ j)).
  replace (Z.to_nat (Z.of_nat (length a) + Z.of_nat (length d))) with (length a + length d)%nat by lia.
  replace (Z.to_nat (Z.of_nat (length a) + Z.of_nat (length b))) with (length a + length b)%nat by lia.
  rewrite !Nat2Z.id, take_app_length, !drop_app_add, drop_app_length, take_app_length.
  split; [done|]. rewrite length_drop, !length_app. lia.
Qed.
End Moves.

(** ** Visiting entries: a walk that the callback can stop, and one it cannot *)
Fixpoint walk {K V S} (cb : K → V → S → bool * S) (l : list (K * V)) (s : S) : bool * S :=
  match l with
  | [] => (true, s)
  | (k, v) :: r => let '(go, s') := cb k v s in if go then walk cb r s' else (false, s')
  end.
Fixpoint visit {K V S} (cb : K → V → S → S) (l : list (K * V)) (s : S) : S :=
  match l with
  | [] => s
  | (k, v) :: r => visit cb r (cb k v s)
  end.

Lemma visit_app {K V S} (cb : K → V → S → S) l1 l2 s :
  visit cb (l1 ++ l2) s = visit cb l2 (visit cb l1 s).
Proof. revert s. induction l1 as [|[k v] l1 IH]; intros s; simpl; [done|apply IH]. Qed.

(** ** The first index that satisfies a test *)
Lemma first_below (P : Z → Prop) `{!∀ x, Decision (P x)} n d :
  0 <= d < n → P d → ∃ e, 0 <= e <= d ∧ P e ∧ ∀ x, 0 <= x < e → ¬ P x.
Proof.
  intros Hd HP. revert HP. assert (0 <= d) as H0 by lia. revert d H0 Hd.
  apply (Zlt_0_ind (λ d, 0 <= d < n → P d → _)). intros d IH H0 Hd HP.
  destruct (decide (Exists P (seqZ 0 d))) as [He|He].
  - apply Exists_exists in He as (x & Hx%elem_of_seqZ & HPx).
    destruct (IH x) as (e & ? & ? & ?); [lia|lia|done|]. exists e. split_and!; try done; lia.
  - exists d. split_and!; try done; try lia. intros x Hx HPx. apply He, Exists_exists.
    exists x. split; [apply elem_of_seqZ; lia|done].
Qed.
