(* ===== verification/SortedAssoc.v ===== *)
(** * Association lists kept in strictly ascending key order

    The value an ordered word map denotes.  Two sorted lists with the same
    entries are equal ([sorted_ext]), so a refinement stated on them fixes the
    content and the order in which a walk visits it. *)
From stdpp Require Import base numbers list sorting gmap.
From S2P Require Import Prelude.
Open Scope Z_scope.

Abbreviation assoc := (list (Z * Z)).

Definition key_lt (a b : Z * Z) : Prop := a.1 < b.1.
Definition sorted (l : assoc) : Prop := StronglySorted key_lt l.

Fixpoint sl_lookup (k : Z) (l : assoc) : option Z :=
  match l with
  | [] => None
  | (k', v) :: r => if k =? k' then Some v else sl_lookup k r
  end.
Fixpoint sl_insert (k v : Z) (l : assoc) : assoc :=
  match l with
  | [] => [(k, v)]
  | (k', v') :: r =>
      if k <? k' then (k, v) :: (k', v') :: r
      else if k =? k' then (k, v) :: r
      else (k', v') :: sl_insert k v r
  end.
Definition sl_delete (k : Z) (l : assoc) : assoc := filter (λ e, e.1 ≠ k) l.
(** Entries at or above [lo]; entries in the closed range; the rest. *)
Definition sl_from (lo : Z) (l : assoc) : assoc := filter (λ e, lo <= e.1) l.
Definition sl_range (lo hi : Z) (l : assoc) : assoc := filter (λ e, lo <= e.1 ∧ e.1 <= hi) l.
Definition sl_outside (lo hi : Z) (l : assoc) : assoc := filter (λ e, ¬ (lo <= e.1 ∧ e.1 <= hi)) l.

Lemma sorted_nil : sorted [].
Proof. constructor. Qed.
Lemma sorted_cons_inv e l : sorted (e :: l) → sorted l ∧ ∀ e', e' ∈ l → e.1 < e'.1.
Proof.
  intros H. apply StronglySorted_inv in H as [Hs Hf]. split; [done|].
  intros e' He. rewrite Forall_forall in Hf. by apply Hf.
Qed.
Lemma sorted_cons e l : sorted l → (∀ e', e' ∈ l → e.1 < e'.1) → sorted (e :: l).
Proof. intros Hs Hf. constructor; [done|]. by apply Forall_forall. Qed.

Lemma sorted_filter (P : Z * Z → Prop) `{!∀ e, Decision (P e)} l : sorted l → sorted (filter P l).
Proof.
  induction l as [|e l IH]; [done|]. intros [Hs Hlt]%sorted_cons_inv.
  rewrite filter_cons. case_decide; [|by apply IH].
  apply sorted_cons; [by apply IH|]. intros e' [_ He]%list_elem_of_filter. by apply Hlt.
Qed.

Lemma sorted_ext l1 l2 :
  sorted l1 → sorted l2 → (∀ e, e ∈ l1 ↔ e ∈ l2) → l1 = l2.
Proof.
  revert l2. induction l1 as [|e l1 IH]; intros [|f l2] H1 H2 Hext; [done|..].
  - pose proof (proj2 (Hext f) (list_elem_of_here _ _)) as ?%elem_of_nil. done.
  - pose proof (proj1 (Hext e) (list_elem_of_here _ _)) as ?%elem_of_nil. done.
  - apply sorted_cons_inv in H1 as [Hs1 Hlt1]. apply sorted_cons_inv in H2 as [Hs2 Hlt2].
    assert (e = f) as ->.
    { pose proof (proj1 (Hext e) (list_elem_of_here _ _)) as He.
      pose proof (proj2 (Hext f) (list_elem_of_here _ _)) as Hf.
      apply elem_of_cons in He as [->|He]; [done|].
      apply elem_of_cons in Hf as [->|Hf]; [done|].
      specialize (Hlt1 _ Hf). specialize (Hlt2 _ He). lia. }
    f_equal. apply IH; [done..|]. intros e. split; intros He.
    + pose proof (proj1 (Hext e) (list_elem_of_further _ _ _ He)) as [->|?]%elem_of_cons; [|done].
      specialize (Hlt1 _ He). lia.
    + pose proof (proj2 (Hext e) (list_elem_of_further _ _ _ He)) as [->|?]%elem_of_cons; [|done].
      specialize (Hlt2 _ He). lia.
Qed.

(** *** Lookup *)
Lemma sl_lookup_elem k v l : sl_lookup k l = Some v → (k, v) ∈ l.
Proof.
  induction l as [|[k' v'] l IH]; simpl; [done|].
  destruct (Z.eqb_spec k k') as [->|]; [intros [= ->]; constructor|].
  intros H. constructor. by apply IH.
Qed.
Lemma sl_lookup_spec k v l : sorted l → sl_lookup k l = Some v ↔ (k, v) ∈ l.
Proof.
  intros Hs. split; [apply sl_lookup_elem|].
  induction l as [|[k' v'] l IH]; simpl; [by intros ?%elem_of_nil|].
  apply sorted_cons_inv in Hs as [Hs Hlt].
  intros [[= -> ->]|He]%elem_of_cons; [by rewrite Z.eqb_refl|].
  specialize (Hlt _ He). simpl in Hlt.
  destruct (Z.eqb_spec k k'); [lia|]. by apply IH.
Qed.
Lemma sl_lookup_None k l : sl_lookup k l = None ↔ ∀ v, (k, v) ∉ l.
Proof.
  induction l as [|[k' v'] l IH]; simpl.
  - split; [|done]. by intros _ v ?%elem_of_nil.
  - destruct (Z.eqb_spec k k') as [->|Hne].
    + split; [done|]. intros H. destruct (H v'). constructor.
    + rewrite IH. split; intros H v.
      * intros [[= -> ->]|He]%elem_of_cons; [done|]. by apply (H v).
      * intros He. apply (H v). by constructor.
Qed.
Lemma sorted_unique k v1 v2 l : sorted l → (k, v1) ∈ l → (k, v2) ∈ l → v1 = v2.
Proof.
  intros Hs H1 H2. apply sl_lookup_spec in H1; [|done]. apply sl_lookup_spec in H2; [|done].
  congruence.
Qed.

(** *** Insertion *)
Lemma elem_of_sl_insert k v l e :
  sorted l → e ∈ sl_insert k v l ↔ e = (k, v) ∨ (e.1 ≠ k ∧ e ∈ l).
Proof.
  induction l as [|[k' v'] l IH]; simpl; intros Hs.
  - rewrite list_elem_of_singleton. set_solver.
  - apply sorted_cons_inv in Hs as [Hs Hlt].
    assert (∀ e', e' ∈ l → k' < e'.1) as Hlt' by (intros; by apply Hlt). clear Hlt.
    destruct (Z.ltb_spec k k'); [|destruct (Z.eqb_spec k k') as [->|]].
    + rewrite !elem_of_cons. split; [|naive_solver].
      intros [->|[->|He]]; [by left| |]; right; simpl; [split; [lia|by left]|].
      specialize (Hlt' _ He). split; [lia|by right].
    + rewrite !elem_of_cons. split; [|destruct e; naive_solver].
      intros [->|He]; [by left|]. right. specialize (Hlt' _ He). split; [lia|by right].
    + rewrite !elem_of_cons, IH by done. split; [|naive_solver].
      intros [->|[->|[? ?]]]; [right; simpl; split; [lia|by left]|by left|right; eauto].
Qed.
Lemma sorted_sl_insert k v l : sorted l → sorted (sl_insert k v l).
Proof.
  induction l as [|[k' v'] l IH]; simpl; intros Hs.
  - apply sorted_cons; [done|]. by intros ? ?%elem_of_nil.
  - pose proof Hs as Hs0. apply sorted_cons_inv in Hs as [Hs Hlt].
    destruct (Z.ltb_spec k k'); [|destruct (Z.eqb_spec k k') as [->|]].
    + apply sorted_cons; [done|]. intros e [->|He]%elem_of_cons; simpl; [done|].
      specialize (Hlt _ He). simpl in Hlt. lia.
    + by apply sorted_cons.
    + apply sorted_cons; [by apply IH|].
      intros e [->|[_ He]]%elem_of_sl_insert; simpl; [lia|by apply Hlt|done].
Qed.
Lemma sl_lookup_insert k k' v l :
  sorted l → sl_lookup k' (sl_insert k v l) = if decide (k = k') then Some v else sl_lookup k' l.
Proof.
  intros Hs. apply option_eq. intros w.
  rewrite sl_lookup_spec by (by apply sorted_sl_insert).
  rewrite elem_of_sl_insert by done. case_decide; subst.
  - split; [intros [[= ->]|[? _]]; [done|by simpl in *]|intros [= ->]; by left].
  - rewrite sl_lookup_spec by done. split; [by intros [[=]|[_ ?]]|].
    intros He. right. split; [simpl; congruence|done].
Qed.
Lemma length_sl_insert k v l :
  sorted l →
  length (sl_insert k v l) = match sl_lookup k l with Some _ => length l | None => S (length l) end.
Proof.
  induction l as [|[k' v'] l IH]; simpl; intros Hs; [done|].
  apply sorted_cons_inv in Hs as [Hs Hlt].
  destruct (Z.ltb_spec k k'), (Z.eqb_spec k k'); try lia; simpl; try done.
  - destruct (sl_lookup k l) eqn:Hl; [|done].
    apply sl_lookup_elem in Hl. specialize (Hlt _ Hl). simpl in Hlt. lia.
  - rewrite IH by done. by destruct (sl_lookup k l).
Qed.

Lemma length_sl_insert_le k v l : (length (sl_insert k v l) <= S (length l))%nat.
Proof.
  induction l as [|[k' v'] l IH]; simpl; [done|].
  destruct (k <? k'); [done|]. destruct (k =? k'); simpl; lia.
Qed.

(** *** Deletion and ranges *)
Lemma elem_of_sl_delete k l e : e ∈ sl_delete k l ↔ e.1 ≠ k ∧ e ∈ l.
Proof. unfold sl_delete. by rewrite list_elem_of_filter. Qed.
Lemma elem_of_sl_range lo hi l e : e ∈ sl_range lo hi l ↔ (lo <= e.1 <= hi) ∧ e ∈ l.
Proof. unfold sl_range. rewrite list_elem_of_filter. done. Qed.
Lemma elem_of_sl_outside lo hi l e : e ∈ sl_outside lo hi l ↔ ¬ (lo <= e.1 <= hi) ∧ e ∈ l.
Proof. unfold sl_outside. rewrite list_elem_of_filter. done. Qed.
Lemma sorted_sl_delete k l : sorted l → sorted (sl_delete k l).
Proof. apply sorted_filter. Qed.
Lemma sorted_sl_range lo hi l : sorted l → sorted (sl_range lo hi l).
Proof. apply sorted_filter. Qed.
Lemma sorted_sl_outside lo hi l : sorted l → sorted (sl_outside lo hi l).
Proof. apply sorted_filter. Qed.
Lemma sorted_sl_from lo l : sorted l → sorted (sl_from lo l).
Proof. apply sorted_filter. Qed.
Lemma sl_lookup_delete k k' l :
  sorted l → sl_lookup k' (sl_delete k l) = if decide (k = k') then None else sl_lookup k' l.
Proof.
  intros Hs. apply option_eq. intros w.
  rewrite sl_lookup_spec by (by apply sorted_sl_delete).
  rewrite elem_of_sl_delete. case_decide; simpl.
  - split; [intros [? _]; congruence|done].
  - rewrite sl_lookup_spec by done. naive_solver.
Qed.
Lemma sl_delete_absent k l : (∀ v, (k, v) ∉ l) → sl_delete k l = l.
Proof.
  unfold sl_delete. induction l as [|[k' v'] l IH]; intros H; [done|].
  rewrite filter_cons. case_decide as Hk.
  - f_equal. apply IH. intros v Hv. apply (H v). by constructor.
  - simpl in Hk. subst. destruct (H v'). constructor.
Qed.
Lemma sl_outside_range_length lo hi l :
  length l = (length (sl_outside lo hi l) + length (sl_range lo hi l))%nat.
Proof.
  induction l as [|e l IH]; [done|]. unfold sl_outside, sl_range in *.
  rewrite !filter_cons. repeat case_decide; simpl; try lia; tauto.
Qed.

(** A strictly sorted list of keys in [lo, hi) has at most [hi - lo] entries. *)
Lemma sorted_length_bound lo hi l :
  sorted l → (∀ e, e ∈ l → lo <= e.1 < hi) → Z.of_nat (length l) <= Z.max 0 (hi - lo).
Proof.
  revert lo. induction l as [|e l IH]; intros lo Hs Hb; [simpl; lia|].
  apply sorted_cons_inv in Hs as [Hs Hlt].
  pose proof (Hb e (list_elem_of_here _ _)) as He.
  specialize (IH (lo + 1) Hs). simpl length.
  assert (Z.of_nat (length l) <= Z.max 0 (hi - (lo + 1))).
  { apply IH. intros e' He'. specialize (Hlt _ He'). specialize (Hb e' (list_elem_of_further _ _ _ He')). lia. }
  lia.
Qed.

Create HintDb assoc.
#[export] Hint Resolve sorted_nil sorted_sl_insert sorted_sl_delete sorted_sl_range
  sorted_sl_outside sorted_sl_from sorted_filter : assoc.

(** *** Seeking: the first entry at or above a key, and the range behind it *)
Lemma head_from_Some lo l k v :
  sorted l → head (sl_from lo l) = Some (k, v) →
  (k, v) ∈ l ∧ lo <= k ∧ ∀ e, e ∈ l → lo <= e.1 → k <= e.1.
Proof.
  intros Hs Hh. pose proof (sorted_sl_from lo l Hs) as Hs'.
  destruct (sl_from lo l) as [|[k' v'] r] eqn:Hf; [done|]. injection Hh as -> ->.
  assert (∀ e, e ∈ sl_from lo l ↔ lo <= e.1 ∧ e ∈ l) as He
    by (intros e; unfold sl_from; by rewrite list_elem_of_filter).
  rewrite Hf in He. apply sorted_cons_inv in Hs' as [_ Hlt].
  destruct (proj1 (He (k, v)) (list_elem_of_here _ _)) as [? ?].
  split_and!; [done..|]. intros e Hel Hlo.
  pose proof (proj2 (He e) (conj Hlo Hel)) as [->|Hin]%elem_of_cons; [done|].
  by apply Z.lt_le_incl, (Hlt e).
Qed.
Lemma head_from_None lo l : head (sl_from lo l) = None → ∀ e, e ∈ l → e.1 < lo.
Proof.
  intros Hh e He. destruct (Z.ltb_spec e.1 lo); [done|].
  assert (e ∈ sl_from lo l) as Hin by (unfold sl_from; by rewrite list_elem_of_filter).
  destruct (sl_from lo l); [by apply elem_of_nil in Hin|done].
Qed.
Lemma range_empty lo hi l : (∀ e, e ∈ l → lo <= e.1 → hi < e.1) → sl_range lo hi l = [].
Proof.
  intros H. destruct (sl_range lo hi l) as [|e r] eqn:Hr; [done|].
  assert (e ∈ sl_range lo hi l) as He by (rewrite Hr; constructor).
  apply elem_of_sl_range in He as [? Hel]. specialize (H e Hel). lia.
Qed.
Lemma range_head_delete lo hi l k v :
  sorted l → head (sl_from lo l) = Some (k, v) → k <= hi →
  sl_range lo hi l = (k, v) :: sl_range lo hi (sl_delete k l).
Proof.
  intros Hs Hh Hk. apply head_from_Some in Hh as (Hin & Hlo & Hmin); [|done].
  apply sorted_ext; [auto with assoc| |].
  - apply sorted_cons; [auto with assoc|]. intros e [? [? He]%elem_of_sl_delete]%elem_of_sl_range.
    simpl. specialize (Hmin e He). lia.
  - intros e. rewrite elem_of_cons, !elem_of_sl_range, elem_of_sl_delete. split.
    + intros [? ?]. destruct (decide (e = (k, v))); [by left|right]. split_and!; [lia..| |done].
      intros Hek. destruct e as [k' v']. simpl in *. subst. by rewrite (sorted_unique k v v' l) in * by done.
    + intros [->|(?&_&?)]; simpl; [split; [lia|done]|done].
Qed.
Lemma range_head_next lo hi l k v :
  sorted l → head (sl_from lo l) = Some (k, v) → k <= hi →
  sl_range lo hi l = (k, v) :: sl_range (k + 1) hi l.
Proof.
  intros Hs Hh Hk. rewrite (range_head_delete lo hi l k v) by done. f_equal.
  apply head_from_Some in Hh as (Hin & Hlo & Hmin); [|done].
  apply sorted_ext; [auto with assoc..|]. intros e.
  rewrite !elem_of_sl_range, elem_of_sl_delete. split.
  - intros (?&?&He). specialize (Hmin e He). split; [lia|done].
  - intros (?&?). split_and!; [lia..|done].
Qed.

(** In a sorted list cut in two, the keys up to the last of the first part
    are the first part. *)
Lemma sorted_app_split pre rest e k v :
  sorted (pre ++ (k, v) :: rest) → e ∈ pre ++ (k, v) :: rest →
  e.1 <= k ↔ e ∈ pre ++ [(k, v)].
Proof.
  revert e. induction pre as [|p pre IH]; simpl; intros e Hs He.
  - apply sorted_cons_inv in Hs as [_ Hlt]. rewrite list_elem_of_singleton.
    apply elem_of_cons in He as [->|He]; [split; [done|simpl; lia]|].
    specialize (Hlt e He). simpl in Hlt. split; [lia|intros ->; simpl; lia].
  - apply sorted_cons_inv in Hs as [Hs Hlt].
    apply elem_of_cons in He as [->|He].
    + split; [intros; constructor|intros _].
      apply Z.lt_le_incl, (Hlt (k, v)). apply elem_of_app. right. constructor.
    + rewrite (IH e Hs He). rewrite elem_of_cons. split; [tauto|].
      intros [->|?]; [|done]. specialize (Hlt p He). lia.
Qed.

(** *** Cutting a sorted list at a key *)
Lemma sorted_app l1 l2 : sorted (l1 ++ l2) → sorted l1 ∧ sorted l2 ∧ ∀ e f, e ∈ l1 → f ∈ l2 → e.1 < f.1.
Proof.
  induction l1 as [|x l1 IH]; simpl; intros Hs;
    [split_and!; [constructor|done|by intros e f ?%elem_of_nil]|].
  apply sorted_cons_inv in Hs as [Hs Hlt]. destruct (IH Hs) as (H1 & H2 & H12). split_and!; [|done|].
  - apply sorted_cons; [done|]. intros e He. apply Hlt, elem_of_app. by left.
  - intros e f [->|He]%elem_of_cons Hf; [apply Hlt, elem_of_app; by right|by apply H12].
Qed.
Lemma sorted_app_intro l1 l2 :
  sorted l1 → sorted l2 → (∀ e f, e ∈ l1 → f ∈ l2 → e.1 < f.1) → sorted (l1 ++ l2).
Proof.
  induction l1 as [|x l1 IH]; simpl; intros H1 H2 H12; [done|]. apply sorted_cons_inv in H1 as [H1 Hlt].
  apply sorted_cons.
  - apply IH; try done. intros e f He. apply H12. by constructor.
  - intros e [He|He]%elem_of_app; [by apply Hlt|]. apply H12; [constructor|done].
Qed.
Lemma sorted_drop_middle l1 l2 l3 : sorted (l1 ++ l2 ++ l3) → sorted (l1 ++ l3).
Proof.
  intros (H1 & H23 & H12)%sorted_app. apply sorted_app in H23 as (_ & H3 & _).
  apply sorted_app_intro; try done. intros e f He Hf. apply H12; [done|]. apply elem_of_app. by right.
Qed.
Lemma sorted_cut k l :
  sorted l → ∃ l1 l2, l = l1 ++ l2 ∧ (∀ e, e ∈ l1 → e.1 < k) ∧ (∀ e, e ∈ l2 → k <= e.1).
Proof.
  induction l as [|x l IH]; intros Hs.
  { exists [], []. split_and!; [done|by intros ? ?%elem_of_nil..]. }
  apply sorted_cons_inv in Hs as [Hs Hlt]. destruct (Z.ltb_spec x.1 k).
  - destruct (IH Hs) as (l1 & l2 & -> & H1 & H2). exists (x :: l1), l2. split_and!; [done| |done].
    intros e [->|He]%elem_of_cons; [done|by apply H1].
  - exists [], (x :: l). split_and!; [done|by intros ? ?%elem_of_nil|].
    intros e [->|He]%elem_of_cons; [done|]. specialize (Hlt e He). lia.
Qed.

Lemma list_filter_all {A} (P : A → Prop) `{!∀ x, Decision (P x)} (l : list A) :
  (∀ x, x ∈ l → P x) → filter P l = l.
Proof.
  induction l as [|x l IH]; intros Hl; [done|]. rewrite filter_cons, decide_True by (apply Hl; constructor).
  f_equal. apply IH. intros y Hy. apply Hl. by constructor.
Qed.
Lemma list_filter_none {A} (P : A → Prop) `{!∀ x, Decision (P x)} (l : list A) :
  (∀ x, x ∈ l → ¬ P x) → filter P l = [].
Proof.
  induction l as [|x l IH]; intros Hl; [done|]. rewrite filter_cons, decide_False by (apply Hl; constructor).
  apply IH. intros y Hy. apply Hl. by constructor.
Qed.

(** At a cut, the operations touch only the second part's head. *)
Section Cut.
Context (l1 l2 : assoc) (k : Z).
Hypothesis (Hs : sorted (l1 ++ l2)) (Hlo : ∀ e, e ∈ l1 → e.1 < k) (Hhi : ∀ e, e ∈ l2 → k <= e.1).

Lemma sl_lookup_cut :
  sl_lookup k (l1 ++ l2) = match l2 with (k', v) :: _ => if k' =? k then Some v else None | [] => None end.
Proof using Hs Hlo Hhi.
  apply option_eq. intros v. rewrite sl_lookup_spec by done. rewrite elem_of_app.
  assert ((k, v) ∉ l1) as Hn by (intros He; specialize (Hlo _ He); simpl in Hlo; lia).
  destruct (sorted_app _ _ Hs) as (_ & Hs2 & _). destruct l2 as [|[k' v'] r].
  { split; [intros [?|?%elem_of_nil]; done|done]. }
  apply sorted_cons_inv in Hs2 as [_ Hlt]. rewrite elem_of_cons. destruct (Z.eqb_spec k' k) as [->|Hne].
  - split; [|intros [= ->]; by right; left]. intros [?|[[= ->]|Hin]]; [done..|].
    specialize (Hlt _ Hin). simpl in Hlt. lia.
  - split; [|done]. intros [?|[[= -> ->]|Hin]]; [done..|].
    specialize (Hlt _ Hin). specialize (Hhi _ (list_elem_of_here _ _)). simpl in *. lia.
Qed.
Lemma sl_insert_cut v :
  sl_insert k v (l1 ++ l2)
  = l1 ++ (k, v) :: match l2 with (k', _) :: r => if k' =? k then r else l2 | [] => [] end.
Proof using Hlo Hhi.
  clear Hs. induction l1 as [|[k1 v1] l IH]; simpl.
  - destruct l2 as [|[k' v'] r]; simpl; [done|]. specialize (Hhi _ (list_elem_of_here _ _)). simpl in Hhi.
    rewrite Z.eqb_sym. destruct (Z.ltb_spec k k'), (Z.eqb_spec k' k); (done || lia).
  - pose proof (Hlo (k1, v1) (list_elem_of_here _ _)) as Hk. simpl in Hk.
    rewrite (proj2 (Z.ltb_ge k k1)), (proj2 (Z.eqb_neq k k1)) by lia. f_equal. apply IH.
    intros e He. apply Hlo. by constructor.
Qed.
Lemma sl_delete_cut :
  sl_delete k (l1 ++ l2) = l1 ++ match l2 with (k', _) :: r => if k' =? k then r else l2 | [] => [] end.
Proof using Hs Hlo Hhi.
  unfold sl_delete. rewrite filter_app. f_equal.
  - apply list_filter_all. intros e He Hk. specialize (Hlo _ He). lia.
  - destruct (sorted_app _ _ Hs) as (_ & Hs2 & _). destruct l2 as [|[k' v'] r]; [done|].
    apply sorted_cons_inv in Hs2 as [_ Hlt]. pose proof (Hhi _ (list_elem_of_here _ _)) as Hk. simpl in *.
    rewrite filter_cons. simpl.
    destruct (Z.eqb_spec k' k) as [->|Hne]; [rewrite decide_False by tauto|rewrite decide_True by done; f_equal];
      apply list_filter_all; intros e He ?; specialize (Hlt _ He); lia.
Qed.
End Cut.

Lemma sl_range_cut l1 l2 l3 lo hi :
  (∀ e, e ∈ l1 → e.1 < lo) → (∀ e, e ∈ l2 → lo <= e.1 <= hi) → (∀ e, e ∈ l3 → hi < e.1) →
  lo <= hi → sl_range lo hi (l1 ++ l2 ++ l3) = l2 ∧ sl_outside lo hi (l1 ++ l2 ++ l3) = l1 ++ l3.
Proof.
  intros H1 H2 H3 Hle. unfold sl_range, sl_outside. rewrite !filter_app. split.
  - rewrite (list_filter_none _ l1), (list_filter_all _ l2), (list_filter_none _ l3).
    + by rewrite app_nil_r.
    + intros e He. specialize (H3 e He). lia.
    + intros e He. specialize (H2 e He). lia.
    + intros e He. specialize (H1 e He). lia.
  - rewrite (list_filter_all _ l1), (list_filter_none _ l2), (list_filter_all _ l3).
    + done.
    + intros e He. specialize (H3 e He). lia.
    + intros e He Hn. specialize (H2 e He). lia.
    + intros e He. specialize (H1 e He). lia.
Qed.

(** Entries that are distinct by key and by value. *)
Lemma NoDup_snd (l : assoc) :
  sorted l → (∀ k k' i, (k, i) ∈ l → (k', i) ∈ l → k = k') → NoDup l.*2.
Proof.
  induction l as [|[k i] l IH]; intros Hs Hu; csimpl; [constructor|].
  apply sorted_cons_inv in Hs as [Hs Hlt]. constructor.
  - intros ([k' i'] & -> & Hin)%list_elem_of_fmap. simpl in *.
    specialize (Hlt _ Hin). simpl in Hlt. rewrite (Hu k k' i') in Hlt; [lia|constructor|by constructor].
  - apply IH; [done|]. intros k1 k2 j H1 H2. by apply (Hu k1 k2 j); constructor.
Qed.
Lemma sorted_NoDup (es : assoc) : sorted es → NoDup es.*1.
Proof.
  induction es as [|e es IH]; [constructor|]. intros [Hs Hlt]%sorted_cons_inv. cbn [fmap list_fmap].
  constructor; [|by apply IH]. intros (e' & Heq & Hin)%list_elem_of_fmap. pose proof (Hlt e' Hin). lia.
Qed.
