(* ===== verification/ExpanseApi.v ===== *)
(** * The ordered word map of libexpanse, as its C header promises it

    [ExpanseMap] lists the entry points of [expanse_map_t] that the C
    components call ([src/include/expanse.h], the [expanse_map_t] block and the
    32-bit-only block after it); [ExpanseMapLaws] states what the header's
    comments say about them, on the ascending list of entries a map denotes.
    The components are proved against these two classes.  [gmap_expanse] is an
    instance: the laws can hold, and the witnesses of the components run on it.

    A [bool] result with an out-parameter is an [option] here: [None] is the
    answer in which the out-parameter is not written.  Callbacks carry their
    [void *user_ctx] as an explicit state. *)
From stdpp Require Import base numbers list sorting gmap.
From S2P Require Import Prelude SortedAssoc.
Open Scope Z_scope.

Class ExpanseMap (M : Type) := {
  expanse_map_new : M;
  (** The replaced value, [None] when the key is new. *)
  expanse_map_insert : M → Z → Z → M * option Z;
  expanse_map_get : M → Z → option Z;
  expanse_map_remove : M → Z → M * option Z;
  expanse_map_len : M → Z;
  expanse_map_mem_used : M → Z;
  expanse_map_clear : M → M;
  expanse_map_first : M → option (Z * Z);
  expanse_map_next_at_or_after : M → Z → option (Z * Z);
  expanse_map_next_after : M → Z → option (Z * Z);
  (** 32-bit surface only. *)
  expanse_map_remove_range : ∀ {S}, M → Z → Z → (Z → Z → S → S) → S → M * S * Z;
  expanse_map_for_each_range : ∀ {S}, M → Z → Z → (Z → Z → S → bool * S) → S → bool * S;
}.

Class ExpanseMapLaws (M : Type) `{!ExpanseMap M} := {
  entries : M → assoc;
  entries_sorted m : sorted (entries m);
  entries_new : entries expanse_map_new = [];
  entries_insert m k v : entries (expanse_map_insert m k v).1 = sl_insert k v (entries m);
  insert_old m k v : (expanse_map_insert m k v).2 = sl_lookup k (entries m);
  get_spec m k : expanse_map_get m k = sl_lookup k (entries m);
  entries_remove m k : entries (expanse_map_remove m k).1 = sl_delete k (entries m);
  remove_old m k : (expanse_map_remove m k).2 = sl_lookup k (entries m);
  len_spec m : expanse_map_len m = Z.of_nat (length (entries m));
  entries_clear m : entries (expanse_map_clear m) = [];
  first_spec m : expanse_map_first m = head (entries m);
  next_at_or_after_spec m k : expanse_map_next_at_or_after m k = head (sl_from k (entries m));
  next_after_spec m k : expanse_map_next_after m k = head (sl_from (k + 1) (entries m));
  entries_remove_range S m lo hi cb (s : S) :
    entries (expanse_map_remove_range m lo hi cb s).1.1 = sl_outside lo hi (entries m);
  remove_range_visits S m lo hi cb (s : S) :
    (expanse_map_remove_range m lo hi cb s).1.2 = visit cb (sl_range lo hi (entries m)) s;
  remove_range_count S m lo hi cb (s : S) :
    (expanse_map_remove_range m lo hi cb s).2 = Z.of_nat (length (sl_range lo hi (entries m)));
  for_each_range_walks S m lo hi cb (s : S) :
    expanse_map_for_each_range m lo hi cb s = walk cb (sl_range lo hi (entries m)) s;
}.

#[export] Hint Resolve entries_sorted : assoc.
Create Rewrite HintDb entries.
#[export] Hint Rewrite @entries_new @entries_insert @insert_old @get_spec @entries_remove
  @remove_old @len_spec @entries_clear @first_spec @next_at_or_after_spec @next_after_spec
  @entries_remove_range @remove_range_visits @remove_range_count @for_each_range_walks
  using typeclasses eauto : entries.

(** ** Consequences every client uses *)
Section Facts.
Context {M : Type} `{ExpanseMapLaws M}.

Lemma get_insert (m : M) k v k' :
  expanse_map_get (expanse_map_insert m k v).1 k'
  = if decide (k = k') then Some v else expanse_map_get m k'.
Proof.
  rewrite !get_spec, entries_insert. apply sl_lookup_insert, entries_sorted.
Qed.
Lemma get_remove (m : M) k k' :
  expanse_map_get (expanse_map_remove m k).1 k'
  = if decide (k = k') then None else expanse_map_get m k'.
Proof.
  rewrite !get_spec, entries_remove. apply sl_lookup_delete, entries_sorted.
Qed.
Lemma get_elem (m : M) k v : expanse_map_get m k = Some v ↔ (k, v) ∈ entries m.
Proof. rewrite get_spec. apply sl_lookup_spec, entries_sorted. Qed.
Lemma get_absent (m : M) k : expanse_map_get m k = None ↔ ∀ v, (k, v) ∉ entries m.
Proof. rewrite get_spec. apply sl_lookup_None. Qed.
Lemma elem_of_insert (m : M) k v e :
  e ∈ entries (expanse_map_insert m k v).1 ↔ e = (k, v) ∨ (e.1 ≠ k ∧ e ∈ entries m).
Proof. rewrite entries_insert. apply elem_of_sl_insert, entries_sorted. Qed.
Lemma elem_of_remove (m : M) k e :
  e ∈ entries (expanse_map_remove m k).1 ↔ e.1 ≠ k ∧ e ∈ entries m.
Proof. rewrite entries_remove. apply elem_of_sl_delete. Qed.
End Facts.

(** ** An instance on stdpp's finite maps *)
Definition gmap_entries (m : gmap Z Z) : assoc := map_fold sl_insert [] m.

Lemma gmap_entries_spec (m : gmap Z Z) :
  sorted (gmap_entries m) ∧ ∀ e, e ∈ gmap_entries m ↔ m !! e.1 = Some e.2.
Proof.
  unfold gmap_entries. apply (map_fold_weak_ind
    (λ acc m, sorted acc ∧ ∀ e, e ∈ acc ↔ m !! e.1 = Some e.2)).
  - split; [apply sorted_nil|]. intros [k v]. rewrite elem_of_nil, lookup_empty. done.
  - intros k v m' acc Hk [Hs He]. split; [by apply sorted_sl_insert|].
    intros [k' v']. rewrite elem_of_sl_insert by done. rewrite He. simpl.
    rewrite lookup_insert. case_decide; subst.
    + split; [intros [[= ->]|[? _]]; done|intros [= ->]; by left].
    + split; [intros [[= -> ->]|[_ ?]]; done|]. intros; right; split; [congruence|done].
Qed.
Lemma gmap_entries_ext (m : gmap Z Z) l :
  sorted l → (∀ k v, (k, v) ∈ l ↔ m !! k = Some v) → gmap_entries m = l.
Proof.
  intros Hs Hl. destruct (gmap_entries_spec m) as [Hs' He].
  apply sorted_ext; [done..|]. intros [k v]. by rewrite He, Hl.
Qed.
Lemma gmap_entries_lookup (m : gmap Z Z) k : sl_lookup k (gmap_entries m) = m !! k.
Proof.
  destruct (gmap_entries_spec m) as [Hs He]. apply option_eq. intros v.
  by rewrite sl_lookup_spec, He by done.
Qed.
Lemma gmap_entries_elem (m : gmap Z Z) k v : (k, v) ∈ gmap_entries m ↔ m !! k = Some v.
Proof. destruct (gmap_entries_spec m) as [_ He]. apply (He (k, v)). Qed.
Lemma gmap_entries_sorted (m : gmap Z Z) : sorted (gmap_entries m).
Proof. apply gmap_entries_spec. Qed.

#[export] Instance gmap_expanse : ExpanseMap (gmap Z Z) := {
  expanse_map_new := ∅;
  expanse_map_insert m k v := (<[k := v]> m, m !! k);
  expanse_map_get m k := m !! k;
  expanse_map_remove m k := (delete k m, m !! k);
  expanse_map_len m := Z.of_nat (length (gmap_entries m));
  expanse_map_mem_used m := 16 * Z.of_nat (size m);
  expanse_map_clear _ := ∅;
  expanse_map_first m := head (gmap_entries m);
  expanse_map_next_at_or_after m k := head (sl_from k (gmap_entries m));
  expanse_map_next_after m k := head (sl_from (k + 1) (gmap_entries m));
  expanse_map_remove_range S m lo hi cb s :=
    (filter (λ e, ¬ (lo <= e.1 ∧ e.1 <= hi)) m,
     visit cb (sl_range lo hi (gmap_entries m)) s,
     Z.of_nat (length (sl_range lo hi (gmap_entries m))));
  expanse_map_for_each_range S m lo hi cb s := walk cb (sl_range lo hi (gmap_entries m)) s;
}.

#[export] Instance gmap_expanse_laws : ExpanseMapLaws (gmap Z Z).
Proof.
  refine {| entries := gmap_entries |}; simpl; intros;
    try done; try (symmetry; apply gmap_entries_lookup).
  - apply gmap_entries_sorted.
  - apply gmap_entries_ext; [apply sorted_sl_insert, gmap_entries_sorted|].
    intros k' v'. rewrite elem_of_sl_insert by apply gmap_entries_sorted.
    rewrite gmap_entries_elem, lookup_insert. simpl. case_decide; subst.
    + split; [intros [[= ->]|[? _]]; done|intros [= ->]; by left].
    + split; [intros [[= -> ->]|[_ ?]]; done|]. intros; right; split; [congruence|done].
  - apply gmap_entries_ext; [apply sorted_sl_delete, gmap_entries_sorted|].
    intros k' v'. rewrite elem_of_sl_delete, gmap_entries_elem, lookup_delete. simpl.
    case_decide; [split; [intros [? _]; congruence|done]|]. split; [by intros [_ ?]|]. intros; by split.
  - apply gmap_entries_ext; [apply sorted_sl_outside, gmap_entries_sorted|].
    intros k' v'. rewrite elem_of_sl_outside, gmap_entries_elem, map_lookup_filter_Some. simpl. tauto.
Defined.
