(* ===== verification/HostLock.v ===== *)
(** * The recursive mutex and the object ledger shared by the ESP-IDF components

    [src/components/expanse/src/expanse_memtable.c] and
    [src/components/expanse/src/expanse_ble_tracker.c] open with the same lock
    macros; this file models the FreeRTOS arm, in which a failed
    [xSemaphoreCreateRecursiveMutex] leaves a [NULL] handle and the macros do
    nothing (the pthread and Windows arms are the case of a live handle).  The
    ledger counts the objects a component holds on the heap. *)
From stdpp Require Import base numbers.
From S2P Require Import Prelude.
Open Scope Z_scope.

(** [expanse_lock_t]: whether the handle exists, and how often it is held. *)
Record lock := Lock { lk_live : bool; lk_depth : Z }.
Definition LOCK_INIT (ok : bool) : lock := Lock ok 0.
Definition LOCK_TAKE (l : lock) : lock :=
  if lk_live l then Lock true (lk_depth l + 1) else l.
Definition LOCK_GIVE (l : lock) : lock :=
  if lk_live l then Lock true (lk_depth l - 1) else l.

(** Live heap blocks, maps and mutexes. *)
Record ledger := Ledger { n_blocks : Z; n_maps : Z; n_locks : Z }.
Definition LOCK_FREE (l : lock) (h : ledger) : ledger :=
  if lk_live l then Ledger (n_blocks h) (n_maps h) (n_locks h - 1) else h.

Lemma LOCK_balance l : LOCK_GIVE (LOCK_TAKE l) = l.
Proof. destruct l as [[] d]; unfold LOCK_GIVE, LOCK_TAKE; simpl; [f_equal; lia|done]. Qed.

