(* ===== verification/Sync32.v ===== *)
(** * The 32-bit concurrent map of libexpanse, as its C header promises it

    [Sync32] lists the entry points of [expanse_sync32_map_t] that the LCD demo
    and the on-target harness call ([src/include/expanse.h], the
    [expanse_sync32_*] block); [Sync32Laws] states what the header's comments
    say about them.  One writer, single-attempt readers: a reader that runs
    while the writer is inside a mutation ([overlap = true]) answers [BUSY] and
    nothing else; a refused mutation leaves the contents alone; a backlog is
    drained by a reclaim, since on one hart no reader is inside a walk while the
    writer runs.  The handles [w], [r], [rb] are accessors of the map (the
    header: "the same pointer every call"), so the map stands for them.
    [toy_sync32] is an instance with a bounded arena and a backlog. *)
From stdpp Require Import base numbers list gmap.
From S2P Require Import Prelude.
Open Scope Z_scope.

Definition EXPANSE_SYNC32_OK : Z := 0.
Definition EXPANSE_SYNC32_NOT_FOUND : Z := 1.
Definition EXPANSE_SYNC32_BUSY : Z := 2.
Definition EXPANSE_SYNC32_ARENA_FULL : Z := 16.
Definition EXPANSE_SYNC32_RECLAIM_BACKLOG : Z := 17.
Definition EXPANSE_SYNC32_NULL_HANDLE : Z := 32.

Class Sync32 (S : Type) := {
  sync32_map_new : Z → Z → option S;  (** [node_cap], [max_readers]; [None] is [NULL] *)
  sync32_try_insert : S → Z → Z → Z * S;
  sync32_try_remove : S → Z → Z * S;
  sync32_try_reclaim : S → Z * S;
  (** [mem_used] of [expanse_sync32_map_writer_stats]; [None] is a status other than [OK] *)
  sync32_mem_used : S → option Z;
  sync32_try_get : S → bool → Z → Z * option Z;  (** map, overlap, key *)
}.

Class Sync32Laws (S : Type) `{!Sync32 S} := {
  contents : S → gmap Z Z;
  new_contents cap n s : sync32_map_new cap n = Some s → contents s = ∅;
  insert_status s k v :
    (sync32_try_insert s k v).1
      ∈ [EXPANSE_SYNC32_OK; EXPANSE_SYNC32_ARENA_FULL; EXPANSE_SYNC32_RECLAIM_BACKLOG];
  insert_contents s k v :
    contents (sync32_try_insert s k v).2
    = if (sync32_try_insert s k v).1 =? EXPANSE_SYNC32_OK then <[k := v]> (contents s) else contents s;
  remove_status s k :
    (sync32_try_remove s k).1
      ∈ [EXPANSE_SYNC32_OK; EXPANSE_SYNC32_NOT_FOUND; EXPANSE_SYNC32_ARENA_FULL;
         EXPANSE_SYNC32_RECLAIM_BACKLOG];
  remove_contents s k :
    contents (sync32_try_remove s k).2
    = if (sync32_try_remove s k).1 =? EXPANSE_SYNC32_OK then delete k (contents s) else contents s;
  remove_found s k :
    (sync32_try_remove s k).1 = EXPANSE_SYNC32_NOT_FOUND → contents s !! k = None;
  reclaim_contents s : contents (sync32_try_reclaim s).2 = contents s;
  insert_after_reclaim s k v :
    (sync32_try_insert s k v).1 = EXPANSE_SYNC32_RECLAIM_BACKLOG →
    (sync32_try_insert (sync32_try_reclaim (sync32_try_insert s k v).2).2 k v).1
      ≠ EXPANSE_SYNC32_RECLAIM_BACKLOG;
  remove_after_reclaim s k :
    (sync32_try_remove s k).1 = EXPANSE_SYNC32_RECLAIM_BACKLOG →
    (sync32_try_remove (sync32_try_reclaim (sync32_try_remove s k).2).2 k).1
      ≠ EXPANSE_SYNC32_RECLAIM_BACKLOG;
  get_overlap s k : sync32_try_get s true k = (EXPANSE_SYNC32_BUSY, None);
  get_quiet s k :
    sync32_try_get s false k
    = match contents s !! k with
      | Some v => (EXPANSE_SYNC32_OK, Some v)
      | None => (EXPANSE_SYNC32_NOT_FOUND, None)
      end;
}.

(** ** A bounded instance: [TOY_CAP] entries, and every fourth removal leaves a
    backlog that the next mutation refuses until it is reclaimed *)
Record toy := Toy { toy_map : gmap Z Z; toy_parked : Z }.
Definition TOY_CAP : Z := 65536.
#[export] Instance toy_sync32 : Sync32 toy := {
  sync32_map_new cap n := if 0 <? cap then Some (Toy ∅ 0) else None;
  sync32_try_insert s k v :=
    if 4 <=? toy_parked s then (EXPANSE_SYNC32_RECLAIM_BACKLOG, s)
    else if TOY_CAP <=? Z.of_nat (size (toy_map s)) then (EXPANSE_SYNC32_ARENA_FULL, s)
    else (EXPANSE_SYNC32_OK, Toy (<[k := v]> (toy_map s)) (toy_parked s));
  sync32_try_remove s k :=
    if 4 <=? toy_parked s then (EXPANSE_SYNC32_RECLAIM_BACKLOG, s)
    else match toy_map s !! k with
         | None => (EXPANSE_SYNC32_NOT_FOUND, s)
         | Some _ => (EXPANSE_SYNC32_OK, Toy (delete k (toy_map s)) (toy_parked s + 1))
         end;
  sync32_try_reclaim s := (EXPANSE_SYNC32_OK, Toy (toy_map s) 0);
  sync32_mem_used s := Some (16 * Z.of_nat (size (toy_map s)));
  sync32_try_get s overlap k :=
    if overlap then (EXPANSE_SYNC32_BUSY, None)
    else match toy_map s !! k with
         | Some v => (EXPANSE_SYNC32_OK, Some v)
         | None => (EXPANSE_SYNC32_NOT_FOUND, None)
         end;
}.
#[export] Instance toy_sync32_laws : Sync32Laws toy.
Proof.
  refine {| contents := toy_map |}; simpl; intros;
    repeat match goal with
    | |- context [if ?b then _ else _] => destruct b eqn:?
    | H : context [if ?b then _ else _] |- _ => destruct b eqn:?
    | |- context [match ?o with Some _ => _ | None => _ end] => destruct o eqn:?
    | H : context [match ?o with Some _ => _ | None => _ end] |- _ => destruct o eqn:?
    end; simplify_eq; simpl in *; try done; try set_solver.
Defined.
