(* ===== verification/MemTable.v ===== *)
(** * The telemetry memtable of the ESP-IDF component

    Model of [src/components/expanse/src/expanse_memtable.c] over any map that
    satisfies the contract of [ExpanseApi].  A [NULL] table, map or out-pointer
    is [None]; the recursive mutex is its nesting depth (and, as on FreeRTOS, a
    handle that may be missing); the heap is the count of live objects.  Both
    builds of the component are here: [wide = true] is the 64-bit host build
    ([EXPANSE_WIDE_SURFACE]), which loops over [next_at_or_after]/[next_after],
    [wide = false] the 32-bit build, which streams.  The loops of the wide build
    run on fuel [1 + expanse_map_len], and never exhaust it
    ([aggregate_range_value], [flush_range_value]). *)
From stdpp Require Import base numbers list sorting gmap.
From S2P Require Import Prelude SortedAssoc ExpanseApi HostLock.
Open Scope Z_scope.

(** ** The running aggregate *)
Record agg := Agg { min_val : Z; max_val : Z; sum_val : Z; count : Z }.

(** [size_t] is 64 bits wide on the wide surface and 32 on the narrow one. *)
Definition size_wrap (wide : bool) (z : Z) : Z := z mod 2 ^ (if wide then 64 else 32).

Definition agg_init : agg := Agg UINT32_MAX 0 0 0.
Definition aggregate_fold (wide : bool) (a : agg) (v : Z) : agg :=
  Agg (if v <? min_val a then v else min_val a)
      (if max_val a <? v then v else max_val a)
      (u64 (sum_val a + v))
      (size_wrap wide (count a + 1)).
Definition aggregate_visit (key value : Z) (a : agg) : bool * agg :=
  (true, aggregate_fold false a (u32 value)).

Section MemTable.
  Context {M : Type} `{!ExpanseMap M}.

Record memtable := Memtable { mt_map : option M; mt_lock : lock }.

Definition with_lock (f : lock → lock) (t : memtable) : memtable :=
  Memtable (mt_map t) (f (mt_lock t)).
Definition with_map (m : M) (t : memtable) : memtable := Memtable (Some m) (mt_lock t).

(** [calloc_ok], [map_ok] and [lock_ok] are the outcomes of the three
    allocations; on FreeRTOS a failed mutex leaves a [NULL] handle. *)
Definition expanse_memtable_create (calloc_ok map_ok lock_ok : bool) (h : ledger)
  : option memtable * ledger :=
  if negb calloc_ok then (None, h)
  else
    let h := Ledger (n_blocks h + 1) (n_maps h) (n_locks h) in
    if negb map_ok then (None, Ledger (n_blocks h - 1) (n_maps h) (n_locks h))
    else
      let h := Ledger (n_blocks h) (n_maps h + 1) (n_locks h) in
      (Some (Memtable (Some expanse_map_new) (LOCK_INIT lock_ok)),
       if lock_ok then Ledger (n_blocks h) (n_maps h) (n_locks h + 1) else h).

Definition expanse_memtable_destroy (mt : option memtable) (h : ledger) : ledger :=
  match mt with
  | None => h
  | Some t =>
      let t := with_lock LOCK_TAKE t in
      let '(t, h) :=
        match mt_map t with
        | Some _ => (Memtable None (mt_lock t), Ledger (n_blocks h) (n_maps h - 1) (n_locks h))
        | None => (t, h)
        end in
      let t := with_lock LOCK_GIVE t in
      let h := LOCK_FREE (mt_lock t) h in
      Ledger (n_blocks h - 1) (n_maps h) (n_locks h)
  end.

(** The out-pointer [old_value] is [None] when [NULL], else the cell's content. *)
Definition expanse_memtable_insert (mt : option memtable) (key value : Z) (old_value : option Z)
  : bool * option memtable * option Z :=
  match mt with
  | None => (false, None, old_value)
  | Some t =>
      let t := with_lock LOCK_TAKE t in
      match mt_map t with
      | None => (false, Some (with_lock LOCK_GIVE t), old_value)
      | Some m =>
          let '(m', old) := expanse_map_insert m key value in
          let is_new := match old with None => true | Some _ => false end in
          let old_word := match old_value, old with Some _, Some o => o | _, _ => 0 end in
          let old_value :=
            match old_value with
            | Some c => Some (if negb is_new then u32 old_word else c)
            | None => None
            end in
          (is_new, Some (with_lock LOCK_GIVE (with_map m' t)), old_value)
      end
  end.

Definition expanse_memtable_get (mt : option memtable) (key : Z) (out_value : option Z)
  : bool * option memtable * option Z :=
  match mt with
  | None => (false, None, out_value)
  | Some t =>
      let t := with_lock LOCK_TAKE t in
      match mt_map t with
      | None => (false, Some (with_lock LOCK_GIVE t), out_value)
      | Some m =>
          let res := expanse_map_get m key in
          let found := match res with Some _ => true | None => false end in
          let val_word := match out_value, res with Some _, Some v => v | _, _ => 0 end in
          let out_value :=
            match out_value with
            | Some c => Some (if found then u32 val_word else c)
            | None => None
            end in
          (found, Some (with_lock LOCK_GIVE t), out_value)
      end
  end.

Definition expanse_memtable_remove (mt : option memtable) (key : Z) (old_value : option Z)
  : bool * option memtable * option Z :=
  match mt with
  | None => (false, None, old_value)
  | Some t =>
      let t := with_lock LOCK_TAKE t in
      match mt_map t with
      | None => (false, Some (with_lock LOCK_GIVE t), old_value)
      | Some m =>
          let '(m', old) := expanse_map_remove m key in
          let removed := match old with Some _ => true | None => false end in
          let old_word := match old_value, old with Some _, Some o => o | _, _ => 0 end in
          let old_value :=
            match old_value with
            | Some c => Some (if removed then u32 old_word else c)
            | None => None
            end in
          (removed, Some (with_lock LOCK_GIVE (with_map m' t)), old_value)
      end
  end.

(** The wide build's [while (curr_key <= end_key)]; [None] is out of fuel. *)
Fixpoint aggregate_loop (fuel : nat) (m : M) (end_key curr_key curr_val : Z) (a : agg) : option agg :=
  match fuel with
  | O => None
  | S fuel =>
      if curr_key <=? end_key then
        let a := aggregate_fold true a (u32 curr_val) in
        if curr_key =? UINT32_MAX then Some a
        else match expanse_map_next_after m curr_key with
             | None => Some a
             | Some (k, v) => aggregate_loop fuel m end_key k v a
             end
      else Some a
  end.

Definition map_fuel (m : M) : nat := S (Z.to_nat (expanse_map_len m)).

Definition expanse_memtable_aggregate_range (wide : bool) (mt : option memtable)
    (start_key end_key : Z) (out_agg : option agg)
  : option (bool * option memtable * option agg) :=
  match mt, out_agg with
  | Some t, Some _ =>
      if start_key >? end_key then Some (false, mt, out_agg)
      else
        let t := with_lock LOCK_TAKE t in
        match mt_map t with
        | None => Some (false, Some (with_lock LOCK_GIVE t), out_agg)
        | Some m =>
            let res :=
              if wide then
                match expanse_map_next_at_or_after m start_key with
                | None => Some agg_init
                | Some (k, v) => aggregate_loop (map_fuel m) m end_key k v agg_init
                end
              else Some (expanse_map_for_each_range m start_key end_key aggregate_visit agg_init).2 in
            match res with
            | None => None
            | Some a => Some (0 <? count a, Some (with_lock LOCK_GIVE t), Some a)
            end
        end
  | _, _ => Some (false, mt, out_agg)
  end.

(** [flush_cb]: the callback and, in [U], the user data it may update. *)
Section Flush.
  Context {U : Type}.

(** [struct flush_walk]: the user data, the last accepted key, the count. *)
Record flush_walk := FlushWalk { user_data : U; last_key : Z; w_count : Z }.

Definition flush_visit (cb : option (Z → Z → U → bool * U)) (key value : Z) (w : flush_walk)
  : bool * flush_walk :=
  let '(go, u) := match cb with
                  | None => (true, user_data w)
                  | Some f => f (u32 key) (u32 value) (user_data w)
                  end in
  if negb go then (false, FlushWalk u (last_key w) (w_count w))
  else (true, FlushWalk u key (size_wrap false (w_count w + 1))).

(** The wide build's [while (true)]; [None] is out of fuel. *)
Fixpoint flush_loop (fuel : nat) (m : M) (start_key end_key : Z)
    (cb : option (Z → Z → U → bool * U)) (u : U) (flushed : Z) : option (M * U * Z) :=
  match fuel with
  | O => None
  | S fuel =>
      match expanse_map_next_at_or_after m start_key with
      | None => Some (m, u, flushed)
      | Some (curr_key, curr_val) =>
          if curr_key >? end_key then Some (m, u, flushed)
          else
            let '(go, u) := match cb with
                            | None => (true, u)
                            | Some f => f (u32 curr_key) (u32 curr_val) u
                            end in
            if negb go then Some (m, u, flushed)
            else flush_loop fuel (expanse_map_remove m curr_key).1 start_key end_key cb u
                            (size_wrap true (flushed + 1))
      end
  end.

Definition expanse_memtable_flush_range (wide : bool) (mt : option memtable)
    (start_key end_key : Z) (cb : option (Z → Z → U → bool * U)) (u : U)
  : option (Z * option memtable * U) :=
  match mt with
  | None => Some (0, mt, u)
  | Some t =>
      if start_key >? end_key then Some (0, mt, u)
      else
        let t := with_lock LOCK_TAKE t in
        match mt_map t with
        | None => Some (0, Some (with_lock LOCK_GIVE t), u)
        | Some m =>
            if wide then
              match flush_loop (map_fuel m) m start_key end_key cb u 0 with
              | None => None
              | Some (m', u', flushed) =>
                  Some (flushed, Some (with_lock LOCK_GIVE (with_map m' t)), u')
              end
            else
              let w := (expanse_map_for_each_range m start_key end_key (flush_visit cb)
                          (FlushWalk u 0 0)).2 in
              let m' := if 0 <? w_count w
                        then (expanse_map_remove_range m start_key (last_key w) (λ _ _ s, s) tt).1.1
                        else m in
              Some (w_count w, Some (with_lock LOCK_GIVE (with_map m' t)), user_data w)
        end
  end.
End Flush.

Definition expanse_memtable_len (wide : bool) (mt : option memtable) : Z * option memtable :=
  match mt with
  | None => (0, None)
  | Some t =>
      let t := with_lock LOCK_TAKE t in
      let len := match mt_map t with
                 | Some m => size_wrap wide (expanse_map_len m) | None => 0 end in
      (len, Some (with_lock LOCK_GIVE t))
  end.

Definition expanse_memtable_mem_used (mt : option memtable) : Z * option memtable :=
  match mt with
  | None => (0, None)
  | Some t =>
      let t := with_lock LOCK_TAKE t in
      let used := match mt_map t with Some m => expanse_map_mem_used m | None => 0 end in
      (used, Some (with_lock LOCK_GIVE t))
  end.

Definition expanse_memtable_clear (mt : option memtable) : option memtable :=
  match mt with
  | None => None
  | Some t =>
      let t := with_lock LOCK_TAKE t in
      let t := match mt_map t with Some m => with_map (expanse_map_clear m) t | None => t end in
      Some (with_lock LOCK_GIVE t)
  end.
End MemTable.

Arguments memtable : clear implicits.
Arguments flush_walk : clear implicits.

(** ** What the aggregate of a list of values is *)
Definition agg_of (wide : bool) (vs : list Z) : agg :=
  Agg (foldr Z.min UINT32_MAX vs) (foldr Z.max 0 vs)
      (u64 (foldr Z.add 0 vs)) (size_wrap wide (Z.of_nat (length vs))).

Lemma aggregate_fold_snoc wide vs v :
  aggregate_fold wide (agg_of wide vs) v = agg_of wide (vs ++ [v]).
Proof.
  unfold aggregate_fold, agg_of. simpl. rewrite !foldr_app, length_app. simpl.
  assert (∀ b, foldr Z.min b vs = Z.min b (foldr Z.min b vs)) as Hmin0
    by (intros b; induction vs as [|w vs IH]; simpl; lia).
  assert (foldr Z.min (Z.min v UINT32_MAX) vs = Z.min v (foldr Z.min UINT32_MAX vs)) as Hmin
    by (clear; induction vs as [|w vs IH]; simpl; lia).
  assert (foldr Z.max (Z.max v 0) vs = Z.max v (foldr Z.max 0 vs)) as Hmax
    by (clear; induction vs as [|w vs IH]; simpl; lia).
  assert (foldr Z.add (v + 0) vs = foldr Z.add 0 vs + v) as Hsum
    by (clear; induction vs as [|w vs IH]; simpl; lia).
  rewrite Hmin, Hmax, Hsum. f_equal.
  - destruct (Z.ltb_spec v (foldr Z.min UINT32_MAX vs)); lia.
  - destruct (Z.ltb_spec (foldr Z.max 0 vs) v); lia.
  - unfold u64. by rewrite Zplus_mod_idemp_l.
  - unfold size_wrap. rewrite Zplus_mod_idemp_l. f_equal. lia.
Qed.

Lemma agg_visit wide (l : assoc) vs :
  visit (λ _ v a, aggregate_fold wide a (u32 v)) l (agg_of wide vs)
  = agg_of wide (vs ++ (u32 <$> l.*2)).
Proof.
  revert vs. induction l as [|[k v] l IH]; intros vs; simpl; [by rewrite app_nil_r|].
  rewrite aggregate_fold_snoc, IH, <- app_assoc. done.
Qed.
Lemma walk_aggregate (l : assoc) a :
  walk aggregate_visit l a = (true, visit (λ _ v a, aggregate_fold false a (u32 v)) l a).
Proof. revert a. induction l as [|[k v] l IH]; intros a; simpl; [done|apply IH]. Qed.
Lemma agg_init_nil wide : agg_init = agg_of wide [].
Proof. destruct wide; reflexivity. Qed.

(** ** The table against its contents *)
Section Theorems.
  Context {M : Type} `{ExpanseMapLaws M}.
  Implicit Types (t : memtable M) (m : M).

(** The entries a table holds, in key order; none for [NULL] or a table
    whose map is gone. *)
Definition contents (mt : option (memtable M)) : assoc :=
  match mt with
  | Some t => match mt_map t with Some m => entries m | None => [] end
  | None => []
  end.

(** The part of a list of entries a flush callback accepts, and the user data
    after the last call. *)
Fixpoint accepted {U} (cb : option (Z → Z → U → bool * U)) (l : assoc) (u : U) : assoc * U :=
  match l with
  | [] => ([], u)
  | (k, v) :: r =>
      let '(go, u') := match cb with None => (true, u) | Some f => f (u32 k) (u32 v) u end in
      if go then let '(pre, u'') := accepted cb r u' in ((k, v) :: pre, u'') else ([], u')
  end.

Lemma accepted_prefix {U} cb l (u : U) : ∃ rest, l = (accepted cb l u).1 ++ rest.
Proof.
  revert u. induction l as [|[k v] l IH]; intros u; simpl; [by exists []|].
  destruct (match cb with None => _ | Some _ => _ end) as [[] u'].
  - destruct (IH u') as [rest Hr]. destruct (accepted cb l u') as [pre u'']. simpl in *.
    exists rest. by f_equal.
  - by exists ((k, v) :: l).
Qed.

Lemma contents_sorted mt : sorted (contents mt).
Proof. destruct mt as [[[m|] l]|]; simpl; auto with assoc. Qed.

Lemma with_lock_balance t : with_lock LOCK_GIVE (with_lock LOCK_TAKE t) = t.
Proof. destruct t. unfold with_lock. simpl. by rewrite LOCK_balance. Qed.
Lemma with_map_balance m t :
  with_lock LOCK_GIVE (with_map m (with_lock LOCK_TAKE t)) = with_map m t.
Proof. unfold with_lock, with_map. simpl. by rewrite LOCK_balance. Qed.

Lemma aggregate_loop_spec fuel m lo hi k v vs :
  head (sl_from lo (entries m)) = Some (k, v) → hi <= UINT32_MAX →
  (length (sl_range lo hi (entries m)) < fuel)%nat →
  aggregate_loop fuel m hi k v (agg_of true vs)
  = Some (agg_of true (vs ++ (u32 <$> (sl_range lo hi (entries m)).*2))).
Proof.
  revert lo k v vs. induction fuel as [|fuel IH]; intros lo k v vs Hh Hhi Hlen; [lia|].
  simpl. destruct (Z.leb_spec k hi) as [Hk|Hk].
  - rewrite (range_head_next lo hi _ k v) in * by auto with assoc. simpl in Hlen |- *.
    rewrite aggregate_fold_snoc. rewrite next_after_spec.
    destruct (Z.eqb_spec k UINT32_MAX) as [->|].
    { rewrite range_empty; [done|]. intros e _ ?. lia. }
    destruct (head (sl_from (k + 1) (entries m))) as [[k' v']|] eqn:Hn.
    + rewrite (IH (k + 1)) by (done || lia). by rewrite <- app_assoc.
    + rewrite range_empty; [done|]. intros e He ?. pose proof (head_from_None _ _ Hn e He). lia.
  - rewrite range_empty; [by rewrite app_nil_r|]. intros e He Hlo.
    apply head_from_Some in Hh as (_ & _ & Hmin); [|auto with assoc]. specialize (Hmin e He Hlo). lia.
Qed.

Lemma range_length_fuel m lo hi : (length (sl_range lo hi (entries m)) < map_fuel m)%nat.
Proof.
  unfold map_fuel. rewrite len_spec, Nat2Z.id.
  pose proof (sl_outside_range_length lo hi (entries m)). lia.
Qed.

(** Both builds compute the aggregate of the values in the range. *)
Lemma aggregate_range_value wide t m lo hi a0 :
  mt_map t = Some m → lo <= hi <= UINT32_MAX →
  expanse_memtable_aggregate_range wide (Some t) lo hi (Some a0)
  = (let a := agg_of wide (u32 <$> (sl_range lo hi (entries m)).*2) in
     Some (0 <? count a, Some t, Some a)).
Proof.
  intros Hm Hhi. unfold expanse_memtable_aggregate_range.
  rewrite Z.gtb_ltb, (proj2 (Z.ltb_ge hi lo)) by lia. cbv zeta iota.
  change (mt_map (with_lock LOCK_TAKE t)) with (mt_map t). rewrite Hm.
  pose proof (with_lock_balance t) as Ht.
  destruct wide; cbv iota.
  - rewrite next_at_or_after_spec.
    destruct (head (sl_from lo (entries m))) as [[k v]|] eqn:Hh.
    + rewrite (agg_init_nil true), (aggregate_loop_spec _ _ lo) by
        (done || lia || apply range_length_fuel). simpl. by rewrite Ht.
    + rewrite Ht, range_empty; [done|].
      intros e He ?. pose proof (head_from_None _ _ Hh e He). lia.
  - rewrite for_each_range_walks, walk_aggregate. simpl.
    by rewrite (agg_init_nil false), agg_visit, Ht.
Qed.

(** *** Flushing *)
Lemma size_wrap_shift wide a b : size_wrap wide (size_wrap wide a + b) = size_wrap wide (a + b).
Proof. unfold size_wrap. by rewrite Zplus_mod_idemp_l. Qed.
Lemma size_wrap_small wide a : 0 <= a < 2 ^ 32 → size_wrap wide a = a.
Proof. intros. unfold size_wrap. apply Z.mod_small. destruct wide; lia. Qed.

Lemma flush_walk_spec {U} cb (l : assoc) (u : U) k c :
  let '(pre, u') := accepted cb l u in
  let w := (walk (flush_visit cb) l (FlushWalk u k (size_wrap false c))).2 in
  user_data w = u' ∧ w_count w = size_wrap false (c + Z.of_nat (length pre)) ∧
  last_key w = match last pre with Some (k', _) => k' | None => k end.
Proof.
  revert u k c. induction l as [|[k0 v0] l IH]; intros u k c; simpl.
  { by rewrite Z.add_0_r. }
  destruct (flush_visit cb k0 v0 _) as [go w'] eqn:Hv. unfold flush_visit in Hv. simpl in Hv.
  destruct (match cb with None => _ | Some _ => _ end) as [[] u']; simplify_eq/=;
    [|by rewrite Z.add_0_r].
  rewrite size_wrap_shift. specialize (IH u' k0 (c + 1)).
  destruct (accepted cb l u') as [pre u'']. simpl in IH |- *.
  destruct IH as (-> & -> & ->). split_and!; [done|f_equal; lia|].
  rewrite last_cons. by destruct (last pre) as [[? ?]|].
Qed.

(** The wide loop and the narrow walk-then-remove retire the accepted prefix. *)
Lemma flush_loop_spec {U} fuel m lo hi cb (u : U) n :
  (length (sl_range lo hi (entries m)) < fuel)%nat →
  ∃ m', flush_loop fuel m lo hi cb u (size_wrap true n)
        = Some (m', (accepted cb (sl_range lo hi (entries m)) u).2,
                size_wrap true (n + Z.of_nat (length (accepted cb (sl_range lo hi (entries m)) u).1)))
      ∧ ∀ e, e ∈ entries m' ↔ e ∈ entries m ∧ e ∉ (accepted cb (sl_range lo hi (entries m)) u).1.
Proof.
  revert m u n. induction fuel as [|fuel IH]; intros m u n Hlen; [lia|].
  assert (∀ u' : U, ∃ m', Some (m, u', size_wrap true n) = Some (m', u', size_wrap true (n + Z.of_nat 0))
            ∧ ∀ e, e ∈ entries m' ↔ e ∈ entries m ∧ e ∉ ([] : assoc)) as Hstop.
  { intros u'. exists m. rewrite Z.add_0_r. split; [done|]. intros e.
    rewrite elem_of_nil. tauto. }
  simpl. rewrite next_at_or_after_spec.
  destruct (head (sl_from lo (entries m))) as [[k v]|] eqn:Hh.
  2:{ rewrite (range_empty lo hi); [apply Hstop|].
      intros e He ?. pose proof (head_from_None _ _ Hh e He). lia. }
  rewrite Z.gtb_ltb. destruct (Z.ltb_spec hi k) as [Hk|Hk].
  { rewrite (range_empty lo hi); [apply Hstop|]. intros e He Hlo.
    apply head_from_Some in Hh as (_ & _ & Hmin); [|auto with assoc]. specialize (Hmin e He Hlo). lia. }
  assert (sl_range lo hi (entries m)
          = (k, v) :: sl_range lo hi (entries (expanse_map_remove m k).1)) as Hr.
  { rewrite entries_remove. apply range_head_delete; auto with assoc. }
  rewrite Hr in Hlen |- *. simpl in Hlen |- *.
  destruct (match cb with None => _ | Some _ => _ end) as [[] u']; simpl; [|apply Hstop].
  destruct (IH (expanse_map_remove m k).1 u' (n + 1)) as (m' & Heq & Hel); [lia|].
  rewrite size_wrap_shift, Heq.
  pose proof (accepted_prefix cb (sl_range lo hi (entries (expanse_map_remove m k).1)) u') as [rest Hrest].
  destruct (accepted cb _ u') as [pre u'']. simpl in *.
  exists m'. split; [do 3 f_equal; lia|]. intros e. rewrite Hel, elem_of_remove, elem_of_cons.
  apply head_from_Some in Hh as (Hin & _ & _); [|auto with assoc].
  split; [intros ((Hne & He) & Hpre); split; [done|]; by intros [->|]|].
  intros (He & Hn). split_and!; [|done|auto]. intros Hk'. apply Hn. left.
  destruct e as [ek ev]. simpl in Hk'. subst ek.
  by rewrite (sorted_unique k ev v (entries m)) by auto with assoc.
Qed.

Lemma flush_narrow_removed {U} m lo hi cb (u : U) k v :
  last (accepted cb (sl_range lo hi (entries m)) u).1 = Some (k, v) →
  ∀ e, e ∈ sl_outside lo k (entries m)
       ↔ e ∈ entries m ∧ e ∉ (accepted cb (sl_range lo hi (entries m)) u).1.
Proof.
  intros [pre Hpre]%last_Some e. destruct (accepted_prefix cb (sl_range lo hi (entries m)) u) as [rest Hr].
  rewrite Hpre, <- app_assoc in Hr. simpl in Hr. rewrite Hpre.
  assert (sorted (pre ++ (k, v) :: rest)) as Hs by (rewrite <- Hr; auto with assoc).
  assert (∀ e, e ∈ pre ++ (k, v) :: rest ↔ lo <= e.1 <= hi ∧ e ∈ entries m) as Hel.
  { intros e'. rewrite <- Hr. apply elem_of_sl_range. }
  rewrite elem_of_sl_outside. split.
  - intros [Hout He]. split; [done|]. intros Hp. apply Hout.
    assert (e ∈ pre ++ (k, v) :: rest) as Hp'.
    { apply elem_of_app in Hp as [?| ->%list_elem_of_singleton]; apply elem_of_app; [by left|].
      right. constructor. }
    pose proof (proj2 (sorted_app_split pre rest e k v Hs Hp') Hp). apply Hel in Hp'. lia.
  - intros [He Hnot]. split; [|done]. intros Hin. apply Hnot.
    assert (e ∈ pre ++ (k, v) :: rest) as Hp'.
    { apply Hel. split; [|done].
      assert (lo <= k <= hi) by (apply (Hel (k, v)); apply elem_of_app; right; constructor). lia. }
    apply (sorted_app_split pre rest e k v Hs Hp'). lia.
Qed.

(** What a flush returns and leaves, in both builds. *)
Lemma flush_range_value {U} wide t m lo hi cb (u : U) :
  mt_map t = Some m → lo <= hi → Z.of_nat (length (entries m)) < 2 ^ 32 →
  ∃ m', expanse_memtable_flush_range wide (Some t) lo hi cb u
        = Some (Z.of_nat (length (accepted cb (sl_range lo hi (entries m)) u).1),
                Some (with_map m' t), (accepted cb (sl_range lo hi (entries m)) u).2)
      ∧ entries m' = filter (λ e, e ∉ (accepted cb (sl_range lo hi (entries m)) u).1) (entries m).
Proof.
  intros Hm Hlo Hlen. unfold expanse_memtable_flush_range.
  rewrite Z.gtb_ltb, (proj2 (Z.ltb_ge hi lo)) by lia. cbv zeta iota.
  change (mt_map (with_lock LOCK_TAKE t)) with (mt_map t). rewrite Hm.
  assert (Z.of_nat (length (accepted cb (sl_range lo hi (entries m)) u).1) < 2 ^ 32) as Hpre.
  { destruct (accepted_prefix cb (sl_range lo hi (entries m)) u) as [rest Hr].
    apply (f_equal length) in Hr. rewrite length_app in Hr.
    pose proof (sl_outside_range_length lo hi (entries m)). lia. }
  assert (∀ m', (∀ e, e ∈ entries m' ↔ e ∈ entries m ∧ e ∉ (accepted cb (sl_range lo hi (entries m)) u).1) →
                entries m' = filter (λ e, e ∉ (accepted cb (sl_range lo hi (entries m)) u).1) (entries m)) as Hext.
  { intros m' Hel. apply sorted_ext; [auto with assoc..|]. intros e. rewrite Hel, list_elem_of_filter. tauto. }
  destruct wide; cbv iota.
  - destruct (flush_loop_spec (map_fuel m) m lo hi cb u 0) as (m' & Heq & Hel); [apply range_length_fuel|].
    change (size_wrap true 0) with 0 in Heq. rewrite Heq.
    exists m'. rewrite with_map_balance, size_wrap_small by lia. auto.
  - rewrite for_each_range_walks.
    pose proof (flush_walk_spec cb (sl_range lo hi (entries m)) u 0 0) as Hw.
    change (size_wrap false 0) with 0 in Hw.
    pose proof (flush_narrow_removed m lo hi cb u) as Hrm.
    destruct (accepted cb _ u) as [pre u'] eqn:Ha. simpl in *.
    destruct Hw as (-> & -> & ->). rewrite size_wrap_small by lia. rewrite with_map_balance.
    eexists. split; [done|]. apply Hext. intros e.
    destruct (last pre) as [[k v]|] eqn:Hl.
    + assert (pre ≠ []) by (intros ->; done).
      rewrite (proj2 (Z.ltb_lt _ _)) by (destruct pre; [done|simpl; lia]).
      rewrite entries_remove_range. by apply Hrm with v.
    + apply last_None in Hl as ->. simpl. rewrite elem_of_nil. tauto.
Qed.

(** ** The abstract table: operations on the list of entries *)
Inductive mt_op :=
  | OpInsert (k v : Z)
  | OpGet (k : Z)
  | OpRemove (k : Z)
  | OpAggregate (lo hi : Z)
  | OpFlush (lo hi : Z) (accept : Z → Z → bool)
  | OpLen
  | OpClear.
Inductive mt_res :=
  | RFound (b : bool) (cell : Z)
  | RAgg (b : bool) (a : agg)
  | RCount (n : Z)
  | RUnit.

Definition flush_pred (accept : Z → Z → bool) : option (Z → Z → unit → bool * unit) :=
  Some (λ k v u, (accept k v, u)).
Definition is_none {A} (o : option A) : bool := match o with None => true | Some _ => false end.

Definition spec_op (wide : bool) (l : assoc) (op : mt_op) : assoc * mt_res :=
  match op with
  | OpInsert k v => (sl_insert k v l, RFound (is_none (sl_lookup k l)) (default 0 (sl_lookup k l)))
  | OpGet k => (l, RFound (negb (is_none (sl_lookup k l))) (default 0 (sl_lookup k l)))
  | OpRemove k =>
      (sl_delete k l, RFound (negb (is_none (sl_lookup k l))) (default 0 (sl_lookup k l)))
  | OpAggregate lo hi =>
      if lo >? hi then (l, RAgg false agg_init)
      else let a := agg_of wide (sl_range lo hi l).*2 in (l, RAgg (0 <? count a) a)
  | OpFlush lo hi accept =>
      if lo >? hi then (l, RCount 0)
      else let pre := (accepted (flush_pred accept) (sl_range lo hi l) tt).1 in
           (filter (λ e, e ∉ pre) l, RCount (Z.of_nat (length pre)))
  | OpLen => (l, RCount (Z.of_nat (length l)))
  | OpClear => ([], RUnit)
  end.

(** One call on the concrete table; the cells behind the out-pointers hold 0, or
    the empty aggregate, before the call.  An inverted range leaves the caller's
    cell as it was, so it is that empty aggregate that comes back. *)
Definition exec_op (wide : bool) (mt : option (memtable M)) (op : mt_op)
  : option (option (memtable M) * mt_res) :=
  match op with
  | OpInsert k v =>
      let '(b, mt, c) := expanse_memtable_insert mt k v (Some 0) in Some (mt, RFound b (default 0 c))
  | OpGet k =>
      let '(b, mt, c) := expanse_memtable_get mt k (Some 0) in Some (mt, RFound b (default 0 c))
  | OpRemove k =>
      let '(b, mt, c) := expanse_memtable_remove mt k (Some 0) in Some (mt, RFound b (default 0 c))
  | OpAggregate lo hi =>
      '(b, mt, a) ← expanse_memtable_aggregate_range wide mt lo hi (Some agg_init);
      Some (mt, RAgg b (default agg_init a))
  | OpFlush lo hi accept =>
      '(n, mt, _) ← expanse_memtable_flush_range wide mt lo hi (flush_pred accept) tt;
      Some (mt, RCount n)
  | OpLen => let '(n, mt) := expanse_memtable_len wide mt in Some (mt, RCount n)
  | OpClear => Some (expanse_memtable_clear mt, RUnit)
  end.

Fixpoint spec_ops (wide : bool) (l : assoc) (ops : list mt_op) : assoc * list mt_res :=
  match ops with
  | [] => (l, [])
  | op :: ops => let '(l, r) := spec_op wide l op in
                 let '(l, rs) := spec_ops wide l ops in (l, r :: rs)
  end.
Fixpoint exec_ops (wide : bool) (mt : option (memtable M)) (ops : list mt_op)
  : option (option (memtable M) * list mt_res) :=
  match ops with
  | [] => Some (mt, [])
  | op :: ops => '(mt, r) ← exec_op wide mt op; '(mt, rs) ← exec_ops wide mt ops; Some (mt, r :: rs)
  end.

(** The C types of the arguments. *)
Definition op_ok (op : mt_op) : Prop :=
  match op with
  | OpInsert k v => is_u32 k ∧ is_u32 v
  | OpGet k | OpRemove k => is_u32 k
  | OpAggregate lo hi | OpFlush lo hi _ => is_u32 lo ∧ is_u32 hi
  | OpLen | OpClear => True
  end.
Definition entry_ok (e : Z * Z) : Prop := is_u32 e.1 ∧ is_u32 e.2.
(** A live table: it has its map, and every entry is a pair of words. *)
Definition table_ok (mt : option (memtable M)) : Prop :=
  (∃ t m, mt = Some t ∧ mt_map t = Some m) ∧ Forall entry_ok (contents mt).

Lemma u32_values l : Forall entry_ok l → u32 <$> l.*2 = l.*2.
Proof.
  induction 1 as [|e l [_ He] _ IH]; [done|]. csimpl. rewrite IH. f_equal. by apply u32_small.
Qed.
Lemma entry_ok_filter (P : Z * Z → Prop) `{!∀ e, Decision (P e)} l :
  Forall entry_ok l → Forall entry_ok (filter P l).
Proof.
  rewrite !Forall_forall. intros Hf e [_ He]%list_elem_of_filter. by apply Hf.
Qed.
Lemma entry_ok_lookup l k v : Forall entry_ok l → sl_lookup k l = Some v → is_u32 v.
Proof. rewrite Forall_forall. intros Hf He%sl_lookup_elem. by apply (Hf (k, v)). Qed.

Lemma spec_op_length wide l op :
  sorted l → (length (spec_op wide l op).1 <= S (length l))%nat.
Proof.
  destruct op as [k v|k|k|lo hi|lo hi f| |]; simpl; intros Hs; repeat case_match; simpl; try lia.
  - rewrite length_sl_insert by done. destruct (sl_lookup k l); lia.
  - unfold sl_delete. pose proof (length_filter (λ e : Z * Z, e.1 ≠ k) l). lia.
  - etrans; [apply length_filter|lia].
Qed.

Lemma live_map t m : mt_map t = Some m → mt_map (with_lock LOCK_TAKE t) = Some m.
Proof. done. Qed.

(** One call on a live table, in terms of the map it holds. *)
Lemma insert_value t m k v c :
  mt_map t = Some m →
  expanse_memtable_insert (Some t) k v (Some c)
  = (is_none (sl_lookup k (entries m)), Some (with_map (expanse_map_insert m k v).1 t),
     Some (match sl_lookup k (entries m) with Some o => u32 o | None => c end)).
Proof.
  intros Hm%live_map. unfold expanse_memtable_insert. rewrite Hm, <- (insert_old m k v).
  destruct (expanse_map_insert m k v) as [m' [o|]]; rewrite with_map_balance; done.
Qed.
Lemma get_value t m k c :
  mt_map t = Some m →
  expanse_memtable_get (Some t) k (Some c)
  = (negb (is_none (sl_lookup k (entries m))), Some t,
     Some (match sl_lookup k (entries m) with Some o => u32 o | None => c end)).
Proof.
  intros Hm%live_map. unfold expanse_memtable_get. rewrite Hm, with_lock_balance, get_spec.
  by destruct (sl_lookup k (entries m)).
Qed.
Lemma remove_value t m k c :
  mt_map t = Some m →
  expanse_memtable_remove (Some t) k (Some c)
  = (negb (is_none (sl_lookup k (entries m))), Some (with_map (expanse_map_remove m k).1 t),
     Some (match sl_lookup k (entries m) with Some o => u32 o | None => c end)).
Proof.
  intros Hm%live_map. unfold expanse_memtable_remove. rewrite Hm, <- (remove_old m k).
  destruct (expanse_map_remove m k) as [m' [o|]]; rewrite with_map_balance; done.
Qed.
Lemma cell_value l k :
  Forall entry_ok l →
  match sl_lookup k l with Some o => u32 o | None => 0 end = default 0 (sl_lookup k l).
Proof.
  intros Hok. destruct (sl_lookup k l) eqn:Hl; [|done]. by apply u32_small, (entry_ok_lookup l k).
Qed.
Lemma table_ok_with_map t m : Forall entry_ok (entries m) → table_ok (Some (with_map m t)).
Proof. intros Hf. split; [by eexists _, _|done]. Qed.
Lemma entry_ok_insert l k v :
  sorted l → is_u32 k → is_u32 v → Forall entry_ok l → Forall entry_ok (sl_insert k v l).
Proof.
  rewrite !Forall_forall. intros Hs Hk Hv Hf e [->|[_ ?]]%elem_of_sl_insert; [done|auto|done].
Qed.

Lemma exec_op_refines wide mt op :
  table_ok mt → op_ok op → Z.of_nat (length (contents mt)) < 2 ^ 32 →
  ∃ mt', exec_op wide mt op = Some (mt', (spec_op wide (contents mt) op).2)
       ∧ contents mt' = (spec_op wide (contents mt) op).1 ∧ table_ok mt'.
Proof.
  intros [(t & m & -> & Hm) Hok] Hop Hlen.
  assert (contents (Some t) = entries m) as Hc by (simpl; by rewrite Hm).
  assert (table_ok (Some t)) as Ht by (split; [by eexists _, _|done]).
  rewrite Hc in *.
  destruct op as [k v|k|k|lo hi|lo hi f| |]; simpl in Hop; unfold exec_op, spec_op.
  - rewrite (insert_value t m), cell_value by done. eexists. split_and!; [done|apply entries_insert|].
    apply table_ok_with_map. rewrite entries_insert. apply entry_ok_insert; auto with assoc; tauto.
  - rewrite (get_value t m), cell_value by done. by eexists.
  - rewrite (remove_value t m), cell_value by done. eexists. split_and!; [done|apply entries_remove|].
    apply table_ok_with_map. rewrite entries_remove. by apply entry_ok_filter.
  - unfold mbind, option_bind. destruct (lo >? hi) eqn:Hgt.
    { unfold expanse_memtable_aggregate_range. rewrite Hgt. by eexists. }
    bool_facts. rewrite (aggregate_range_value wide t m lo hi), u32_values by
      (done || word_lia || by apply entry_ok_filter). by eexists.
  - unfold mbind, option_bind. destruct (lo >? hi) eqn:Hgt.
    { unfold expanse_memtable_flush_range. rewrite Hgt. by eexists. }
    bool_facts. destruct (flush_range_value wide t m lo hi (flush_pred f) tt) as (m' & -> & He); [done..|].
    eexists. split_and!; [done|done|]. apply table_ok_with_map. rewrite He. by apply entry_ok_filter.
  - unfold expanse_memtable_len. rewrite (live_map t m Hm), len_spec, with_lock_balance,
      size_wrap_small by lia. by eexists.
  - unfold expanse_memtable_clear. rewrite (live_map t m Hm), with_map_balance. eexists.
    split_and!; [done|apply entries_clear|]. apply table_ok_with_map. by rewrite entries_clear.
Qed.

Lemma exec_ops_refines wide mt ops :
  table_ok mt → Forall op_ok ops →
  Z.of_nat (length (contents mt) + length ops) <= 2 ^ 32 →
  ∃ mt', exec_ops wide mt ops = Some (mt', (spec_ops wide (contents mt) ops).2)
       ∧ contents mt' = (spec_ops wide (contents mt) ops).1 ∧ table_ok mt'.
Proof.
  intros Hok Hops. revert mt Hok. induction Hops as [|op ops Hop _ IH]; intros mt Hok Hlen.
  { by exists mt. }
  simpl in Hlen. destruct (exec_op_refines wide mt op) as (mt1 & He1 & Hc1 & Hok1); [done..|lia|].
  pose proof (spec_op_length wide (contents mt) op (contents_sorted mt)) as Hgrow.
  destruct (IH mt1 Hok1) as (mt2 & He2 & Hc2 & Hok2); [rewrite Hc1; lia|].
  exists mt2. simpl. unfold mbind, option_bind. rewrite He1, He2. rewrite Hc1 in *.
  destruct (spec_op wide (contents mt) op) as [l1 r1]. simpl in *.
  destruct (spec_ops wide l1 ops) as [l2 rs]. done.
Qed.
End Theorems.

(** ** Properties *)
Section Claims.
  Context {M : Type} `{ExpanseMapLaws M}.

Definition fresh_table (lock_ok : bool) : option (memtable M) :=
  (expanse_memtable_create true true lock_ok (Ledger 0 0 0)).1.

Lemma fresh_table_ok lock_ok : table_ok (fresh_table lock_ok) ∧ contents (fresh_table lock_ok) = [].
Proof.
  unfold fresh_table, table_ok. simpl. rewrite entries_new. split; [split; [by eexists _, _|]|]; done.
Qed.

Lemma spec_op_width l op :
  Z.of_nat (length l) < 2 ^ 32 → spec_op true l op = spec_op false l op.
Proof.
  intros Hl. destruct op as [k v|k|k|lo hi|lo hi f| |]; try done. simpl.
  pose proof (sl_outside_range_length lo hi l).
  destruct (lo >? hi); [done|]. unfold agg_of.
  by rewrite !size_wrap_small by (rewrite length_fmap; lia).
Qed.
Lemma sorted_spec_op wide l op : sorted l → sorted (spec_op wide l op).1.
Proof. intros Hs. destruct op; simpl; repeat case_match; simpl; auto with assoc. Qed.
Lemma spec_ops_width l ops :
  sorted l → Z.of_nat (length l + length ops) < 2 ^ 32 → spec_ops true l ops = spec_ops false l ops.
Proof.
  revert l. induction ops as [|op ops IH]; intros l Hs Hlen; [done|]. simpl in *.
  rewrite spec_op_width by lia. pose proof (spec_op_length false l op Hs).
  pose proof (sorted_spec_op false l op Hs).
  destruct (spec_op false l op) as [l1 r]. simpl in *. rewrite IH by (done || lia). done.
Qed.

(** C1: from a freshly created table, any sequence of calls returns exactly
    what the abstract table of sorted entries returns and leaves exactly its
    entries, in both builds; in particular the loops of the wide build always
    end. *)
Theorem memtable_refines (wide lock_ok : bool) (ops : list mt_op) :
  Forall op_ok ops → Z.of_nat (length ops) <= 2 ^ 32 →
  ∃ mt', exec_ops wide (fresh_table lock_ok) ops = Some (mt', (spec_ops wide [] ops).2)
       ∧ contents mt' = (spec_ops wide [] ops).1.
Proof.
  intros Hops Hlen. destruct (fresh_table_ok lock_ok) as [Hok Hc].
  destruct (exec_ops_refines wide _ ops Hok Hops) as (mt' & He & Hc' & _); [rewrite Hc; simpl; lia|].
  rewrite Hc in *. by exists mt'.
Qed.
End Claims.

(** C2: the 64-bit build (a seek per key) and the 32-bit build (a streaming
    walk and one batched removal) answer every sequence of calls alike and end
    with the same entries, whatever two engines they run on. *)
Theorem memtable_wide_narrow {M1 M2 : Type} `{ExpanseMapLaws M1} `{ExpanseMapLaws M2}
    (ops : list mt_op) :
  Forall op_ok ops → Z.of_nat (length ops) < 2 ^ 32 →
  ∃ (mt1 : option (memtable M1)) (mt2 : option (memtable M2)) rs,
    exec_ops true (fresh_table true) ops = Some (mt1, rs) ∧
    exec_ops false (fresh_table true) ops = Some (mt2, rs) ∧ contents mt1 = contents mt2.
Proof.
  intros Hops Hlen.
  destruct (fresh_table_ok (M := M1) true) as [Hok1 Hc1].
  destruct (fresh_table_ok (M := M2) true) as [Hok2 Hc2].
  destruct (exec_ops_refines true _ ops Hok1 Hops) as (mt1 & He1 & Hx1 & _); [rewrite Hc1; simpl; lia|].
  destruct (exec_ops_refines false _ ops Hok2 Hops) as (mt2 & He2 & Hx2 & _); [rewrite Hc2; simpl; lia|].
  rewrite Hc1, spec_ops_width in * by (simpl; auto with assoc; lia). rewrite Hc2 in *.
  exists mt1, mt2, (spec_ops false [] ops).2. split_and!; [done..|congruence].
Qed.

Section Claims2.
  Context {M : Type} `{ExpanseMapLaws M}.

Lemma foldr_add_bound vs : Forall is_u32 vs →
  0 <= foldr Z.add 0 vs <= Z.of_nat (length vs) * UINT32_MAX.
Proof.
  induction 1 as [|v vs Hv _ IH]; cbn [foldr length]; [word_lia|]. rewrite Nat2Z.inj_succ. word_lia.
Qed.
Lemma foldr_min_spec vs : Forall is_u32 vs → vs ≠ [] →
  foldr Z.min UINT32_MAX vs ∈ vs ∧ ∀ v, v ∈ vs → foldr Z.min UINT32_MAX vs <= v.
Proof.
  induction 1 as [|v vs Hv Hvs IH]; [done|]. intros _. simpl.
  destruct (decide (vs = [])) as [->|Hne]; simpl.
  - rewrite Z.min_l by word_lia. split; [constructor|].
    intros w Hw%list_elem_of_singleton. by rewrite Hw.
  - destruct (IH Hne) as [Hin Hle]. split.
    + destruct (Z.min_spec v (foldr Z.min UINT32_MAX vs)) as [[_ ->]|[_ ->]]; set_solver.
    + intros w [->|Hw]%elem_of_cons; [lia|]. specialize (Hle w Hw). lia.
Qed.
Lemma foldr_max_spec vs : Forall is_u32 vs → vs ≠ [] →
  foldr Z.max 0 vs ∈ vs ∧ ∀ v, v ∈ vs → v <= foldr Z.max 0 vs.
Proof.
  induction 1 as [|v vs Hv Hvs IH]; [done|]. intros _. simpl.
  destruct (decide (vs = [])) as [->|Hne]; simpl.
  - rewrite Z.max_l by word_lia. split; [constructor|].
    intros w Hw%list_elem_of_singleton. by rewrite Hw.
  - destruct (IH Hne) as [Hin Hle]. split.
    + destruct (Z.max_spec v (foldr Z.max 0 vs)) as [[_ ->]|[_ ->]]; set_solver.
    + intros w [->|Hw]%elem_of_cons; [lia|]. specialize (Hle w Hw). lia.
Qed.
Lemma entry_ok_values l : Forall entry_ok l → Forall is_u32 l.*2.
Proof. induction 1 as [|e l [_ He] _ IH]; csimpl; by constructor. Qed.

(** C3: the aggregate of a range is exact.  Neither the 64-bit sum nor the
    count overflows, the count is the number of entries in the range, the
    minimum and maximum are attained and bound every value, and the result is
    [true] exactly when the range holds an entry. *)
Theorem aggregate_exact (wide : bool) (t : memtable M) (m : M) (lo hi : Z) (a0 : agg) :
  mt_map t = Some m → table_ok (Some t) → is_u32 lo → is_u32 hi → lo <= hi →
  Z.of_nat (length (entries m)) < 2 ^ 32 →
  let vs := (sl_range lo hi (entries m)).*2 in
  ∃ a b, expanse_memtable_aggregate_range wide (Some t) lo hi (Some a0) = Some (b, Some t, Some a)
    ∧ sum_val a = foldr Z.add 0 vs ∧ count a = Z.of_nat (length vs)
    ∧ (b = true ↔ vs ≠ [])
    ∧ (vs ≠ [] → min_val a ∈ vs ∧ max_val a ∈ vs)
    ∧ (∀ v, v ∈ vs → min_val a <= v <= max_val a).
Proof.
  intros Hm [_ Hok] Hlo Hhi Hle Hlen vs. simpl in Hok. rewrite Hm in Hok.
  rewrite (aggregate_range_value wide t m lo hi a0) by (done || word_lia).
  rewrite u32_values by (by apply entry_ok_filter). fold vs.
  assert (Forall is_u32 vs) as Hvs by (by apply entry_ok_values, entry_ok_filter).
  assert (Z.of_nat (length vs) < 2 ^ 32) as Hl.
  { unfold vs. rewrite length_fmap. pose proof (sl_outside_range_length lo hi (entries m)). lia. }
  eexists _, _. split; [done|]. unfold agg_of. cbn [sum_val count min_val max_val].
  pose proof (foldr_add_bound vs Hvs). rewrite u64_small by word_lia.
  rewrite size_wrap_small by lia. split_and!; [done|done| | |].
  - rewrite Z.ltb_lt. destruct vs; simpl; [split; [lia|done]|split; [done|lia]].
  - intros Hne. split; [by apply foldr_min_spec|by apply foldr_max_spec].
  - intros v Hv. assert (vs ≠ []) as Hne by (intros Hn; rewrite Hn in Hv; by apply elem_of_nil in Hv).
    split; [by apply foldr_min_spec|by apply foldr_max_spec].
Qed.

(** A flush hands the entries of the range to the callback in ascending
    order, stops at the first one it rejects, removes exactly the accepted
    ones and returns their number; the callback's user data are those after
    its last call.  Both builds do this for any callback. *)
Theorem flush_range_prefix {U : Type} (wide : bool) (t : memtable M) (m : M) (lo hi : Z)
    (cb : option (Z → Z → U → bool * U)) (u : U) :
  mt_map t = Some m → lo <= hi → Z.of_nat (length (entries m)) < 2 ^ 32 →
  let '(pre, u') := accepted cb (sl_range lo hi (entries m)) u in
  ∃ m', expanse_memtable_flush_range wide (Some t) lo hi cb u
          = Some (Z.of_nat (length pre), Some (with_map m' t), u')
      ∧ (∃ rest, sl_range lo hi (entries m) = pre ++ rest)
      ∧ ∀ e, e ∈ entries m' ↔ e ∈ entries m ∧ e ∉ pre.
Proof.
  intros Hm Hle Hlen. destruct (flush_range_value wide t m lo hi cb u Hm Hle Hlen) as (m' & He & Hc).
  pose proof (accepted_prefix cb (sl_range lo hi (entries m)) u) as Hr.
  destruct (accepted cb (sl_range lo hi (entries m)) u) as [pre u']. simpl in *.
  exists m'. split_and!; [done..|]. intros e. rewrite Hc, list_elem_of_filter. tauto.
Qed.

(** The mutex of the table, if there is one, is as it was. *)
Definition keeps_lock (mt mt' : option (memtable M)) : Prop := mt_lock <$> mt' = mt_lock <$> mt.
Ltac keeps_lock :=
  unfold keeps_lock; repeat case_match; simplify_eq/=; rewrite ?LOCK_balance; done.
Lemma aggregate_keeps wide mt lo hi out :
  hi <= UINT32_MAX →
  ∃ b mt' out', expanse_memtable_aggregate_range wide mt lo hi out = Some (b, mt', out') ∧ keeps_lock mt mt'.
Proof.
  intros Hhi. unfold expanse_memtable_aggregate_range. cbv zeta.
  destruct mt as [[[m|] l]|]; cbn [with_lock mt_map mt_lock]; [|repeat case_match; (do 3 eexists); (split; [done|]; keeps_lock)..].
  destruct out as [a0|]; [|by do 3 eexists]. destruct (lo >? hi); [by do 3 eexists|]. destruct wide.
  - rewrite next_at_or_after_spec. destruct (head (sl_from lo (entries m))) as [[k v]|] eqn:Hh.
    + rewrite (agg_init_nil true), (aggregate_loop_spec _ m lo hi k v []) by (done || apply range_length_fuel).
      do 3 eexists. split; [done|]. keeps_lock.
    + do 3 eexists. split; [done|]. keeps_lock.
  - do 3 eexists. split; [done|]. keeps_lock.
Qed.
Lemma flush_keeps {U : Type} wide mt lo hi cb (u : U) :
  ∃ n mt' u', expanse_memtable_flush_range wide mt lo hi cb u = Some (n, mt', u') ∧ keeps_lock mt mt'.
Proof.
  unfold expanse_memtable_flush_range. cbv zeta.
  destruct mt as [[[m|] l]|]; cbn [with_lock mt_map mt_lock]; [|repeat case_match; (do 3 eexists); (split; [done|]; keeps_lock)..].
  destruct (lo >? hi); [by do 3 eexists|]. destruct wide.
  - destruct (flush_loop_spec (map_fuel m) m lo hi cb u 0) as (m' & He & _); [apply range_length_fuel|].
    change (size_wrap true 0) with 0 in He. rewrite He. do 3 eexists. split; [done|]. keeps_lock.
  - do 3 eexists. split; [done|]. keeps_lock.
Qed.

(** C4: every entry point, in both builds, leaves the mutex as it found it on
    every path: a [NULL] table, a table without its map, [NULL] out-pointers, a
    [NULL] callback or one of any kind, inverted ranges.  (The two range calls
    also return: their loops end.)  And a failed or completed life of a table
    leaves no heap block, map or mutex behind, whatever its map is. *)
Theorem memtable_balanced wide (mt : option (memtable M)) :
  (∀ k v out, keeps_lock mt (expanse_memtable_insert mt k v out).1.2) ∧
  (∀ k out, keeps_lock mt (expanse_memtable_get mt k out).1.2) ∧
  (∀ k out, keeps_lock mt (expanse_memtable_remove mt k out).1.2) ∧
  (∀ lo hi out, hi <= UINT32_MAX →
     ∃ b mt' out', expanse_memtable_aggregate_range wide mt lo hi out = Some (b, mt', out') ∧ keeps_lock mt mt') ∧
  (∀ (U : Type) lo hi cb (u : U),
     ∃ n mt' u', expanse_memtable_flush_range wide mt lo hi cb u = Some (n, mt', u') ∧ keeps_lock mt mt') ∧
  keeps_lock mt (expanse_memtable_len wide mt).2 ∧
  keeps_lock mt (expanse_memtable_mem_used mt).2 ∧
  keeps_lock mt (expanse_memtable_clear mt) ∧
  (∀ calloc_ok map_ok lock_ok h,
     let '(t, h') := expanse_memtable_create (M := M) calloc_ok map_ok lock_ok h in
     expanse_memtable_destroy t h' = h ∧
     ∀ t' m, t = Some t' → expanse_memtable_destroy (Some (with_map m t')) h' = h).
Proof.
  split_and!;
    [unfold expanse_memtable_insert|unfold expanse_memtable_get|unfold expanse_memtable_remove
    |intros; by apply aggregate_keeps|intros; apply flush_keeps|unfold expanse_memtable_len
    |unfold expanse_memtable_mem_used|unfold expanse_memtable_clear|]; cbv zeta; try (intros; keeps_lock).
  intros [] [] [] [b mm l]; simpl; (split; [|intros t' m' [= <-]]); simpl; unfold LOCK_FREE; simpl; f_equal; lia.
Qed.
End Claims2.

(** ** Witnesses, on the finite-map engine *)
Definition demo_ops : list mt_op :=
  [OpInsert 100 7; OpInsert 105 3; OpInsert 4294967295 9; OpInsert 100 8;
   OpAggregate 0 4294967295; OpFlush 0 200 (λ _ v, v <? 8); OpFlush 101 200 (λ _ _, true); OpLen].

Lemma demo_ops_ok : Forall op_ok demo_ops.
Proof. unfold demo_ops. repeat constructor; simpl; word_lia. Qed.

Lemma memtable_refines_witness :
  ∃ mt' : option (memtable (gmap Z Z)),
    exec_ops true (fresh_table true) demo_ops
    = Some (mt', [RFound true 0; RFound true 0; RFound true 0; RFound false 7;
                  RAgg true (Agg 3 9 20 3); RCount 0; RCount 1; RCount 2])
    ∧ contents mt' = [(100, 8); (4294967295, 9)].
Proof.
  destruct (memtable_refines (M := gmap Z Z) true true demo_ops) as (mt' & He & Hc);
    [exact demo_ops_ok|vm_compute; discriminate|].
  exists mt'. split; [rewrite He|rewrite Hc]; vm_compute; reflexivity.
Defined.

Lemma memtable_wide_narrow_witness :
  ∃ (mt1 mt2 : option (memtable (gmap Z Z))) rs,
    exec_ops true (fresh_table true) demo_ops = Some (mt1, rs) ∧
    exec_ops false (fresh_table true) demo_ops = Some (mt2, rs) ∧ contents mt1 = contents mt2.
Proof.
  apply (memtable_wide_narrow (M1 := gmap Z Z) (M2 := gmap Z Z) demo_ops);
    [exact demo_ops_ok|vm_compute; reflexivity].
Defined.

Definition demo_map : gmap Z Z := <[5 := 30]> (<[3 := 20]> (<[1 := 10]> ∅)).
Definition demo_table : memtable (gmap Z Z) := Memtable (Some demo_map) (Lock true 0).
Lemma demo_table_ok : table_ok (Some demo_table).
Proof.
  split; [by eexists _, _|].
  assert (contents (Some demo_table) = [(1, 10); (3, 20); (5, 30)]) as -> by (vm_compute; reflexivity).
  repeat constructor; simpl; word_lia.
Qed.

Lemma aggregate_exact_witness :
  ∃ a b, expanse_memtable_aggregate_range false (Some demo_table) 2 9 (Some agg_init)
         = Some (b, Some demo_table, Some a)
    ∧ sum_val a = 50 ∧ count a = 2.
Proof.
  destruct (aggregate_exact false demo_table demo_map 2 9 agg_init) as (a & b & He & Hs & Hc & _);
    [reflexivity|exact demo_table_ok|split; reflexivity || discriminate
    |split; reflexivity || discriminate|discriminate|reflexivity|].
  exists a, b. split; [exact He|]. rewrite Hs, Hc. split; vm_compute; reflexivity.
Defined.

Lemma memtable_balanced_witness :
  ∃ b mt' out', expanse_memtable_aggregate_range true (Some demo_table) 0 9 None = Some (b, mt', out')
              ∧ keeps_lock (Some demo_table) mt'.
Proof. apply (memtable_balanced true (Some demo_table)). discriminate. Defined.

Lemma flush_range_prefix_witness :
  ∃ m', expanse_memtable_flush_range true (Some demo_table) 0 9
          (Some (λ k v (n : Z), (v <? 20, n + 1))) 0
        = Some (1, Some (with_map m' demo_table), 2)
      ∧ (5, 30) ∈ entries m'.
Proof.
  destruct (flush_range_prefix true demo_table demo_map 0 9
              (Some (λ k v (n : Z), (v <? 20, n + 1))) 0) as (m' & He & _ & Hel);
    [reflexivity|discriminate|reflexivity|].
  exists m'. split; [exact He|]. apply Hel.
  split; [apply gmap_entries_elem; reflexivity|]. vm_compute. intros Hin.
  apply list_elem_of_singleton in Hin. discriminate.
Defined.
