(* ===== verification/BleTracker.v ===== *)
(** * The BLE asset tracker of the ESP-IDF component

    Model of [src/components/expanse/src/expanse_ble_tracker.c]: a slab of
    records indexed by a hash of the MAC address ([by_mac]) and by a composite
    time key ([by_time]), with a free-index stack and a liveness bitmap.  Arrays
    are lists and an access outside one is [None] (undefined behaviour in C), so
    that a result [Some _] says that every access of the call was in bounds.
    A [NULL] tracker, record or out-pointer is an inner [None].  The pointers
    inside a live tracker are never [NULL] ([expanse_ble_tracker_create] returns
    [NULL] otherwise), so the fields hold the objects themselves. *)
From stdpp Require Import base numbers list sorting gmap.
From S2P Require Import Prelude SortedAssoc ExpanseApi HostLock.
Open Scope Z_scope.

(** [expanse_ble_record_t]; byte arrays are lists of bytes. *)
Record ble_record := BleRecord {
  mac : list Z;
  rssi : Z;
  flags : Z;
  last_seen_ms : Z;
  distance_cm : Z;
  name : list Z;
}.
#[export] Instance ble_record_eq_dec : EqDecision ble_record.
Proof. solve_decision. Defined.

Definition zero_record : ble_record := BleRecord (replicate 6 0) 0 0 0 0 (replicate 14 0).

Definition EXPANSE_BLE_OK : Z := 0.
Definition EXPANSE_BLE_ERR_NOMEM : Z := -1.
Definition EXPANSE_BLE_ERR_COLLISION : Z := -2.
Definition EXPANSE_BLE_ERR_INVAL : Z := -3.
Definition EXPANSE_BLE_MAX_CAPACITY : Z := 8192.
Definition TIME_KEY_SHIFT : Z := 13.
Definition SLAB_IDX_MASK : Z := 8191.

(** [fnv1a_32(data, len)]: the first [len] bytes, xor then multiply. *)
Definition fnv1a_32 (data : list Z) (len : nat) : Z :=
  foldl (λ hash b, u32 (Z.lxor hash b * 16777619)) 2166136261 (take len data).

Definition make_time_key (mono_sec base_epoch_sec slab_idx : Z) : Z :=
  let rel_sec :=
    if mono_sec >=? base_epoch_sec then
      let diff := mono_sec -w base_epoch_sec in
      if diff >? 524287 then 524287 else diff
    else 0 in
  Z.lor (rel_sec <<w TIME_KEY_SHIFT) (Z.land slab_idx SLAB_IDX_MASK).

Section Tracker.
  Context {M : Type} `{!ExpanseMap M}.

Record tracker := Tracker {
  by_mac : M;  (** mac_hash -> slab_idx *)
  by_time : M;  (** (rel_sec << 13) | slab_idx -> slab_idx *)
  t_entries : list ble_record;  (** contiguous slab ([entries] in C) *)
  mono_last_seen_sec : list Z;  (** monotonic seconds per slot *)
  free_indices : list Z;  (** freelist stack *)
  active_bitmap : list Z;  (** 1 bit per slot liveness *)
  free_count : Z;
  max_capacity : Z;
  count : Z;
  last_raw_ms : Z;
  mono_offset_ms : Z;
  base_epoch_sec : Z;
  t_lock : lock;
}.

Definition set_by_mac (x : M) (t : tracker) : tracker :=
    Tracker x (by_time t) (t_entries t) (mono_last_seen_sec t) (free_indices t) (active_bitmap t)
    (free_count t) (max_capacity t) (count t) (last_raw_ms t) (mono_offset_ms t) (base_epoch_sec
    t) (t_lock t).
Definition set_by_time (x : M) (t : tracker) : tracker :=
    Tracker (by_mac t) x (t_entries t) (mono_last_seen_sec t) (free_indices t) (active_bitmap t)
    (free_count t) (max_capacity t) (count t) (last_raw_ms t) (mono_offset_ms t) (base_epoch_sec
    t) (t_lock t).
Definition set_t_entries (x : list ble_record) (t : tracker) : tracker :=
    Tracker (by_mac t) (by_time t) x (mono_last_seen_sec t) (free_indices t) (active_bitmap t)
    (free_count t) (max_capacity t) (count t) (last_raw_ms t) (mono_offset_ms t) (base_epoch_sec
    t) (t_lock t).
Definition set_mono_last_seen_sec (x : list Z) (t : tracker) : tracker :=
    Tracker (by_mac t) (by_time t) (t_entries t) x (free_indices t) (active_bitmap t) (free_count
    t) (max_capacity t) (count t) (last_raw_ms t) (mono_offset_ms t) (base_epoch_sec t) (t_lock
    t).
Definition set_free_indices (x : list Z) (t : tracker) : tracker :=
    Tracker (by_mac t) (by_time t) (t_entries t) (mono_last_seen_sec t) x (active_bitmap t)
    (free_count t) (max_capacity t) (count t) (last_raw_ms t) (mono_offset_ms t) (base_epoch_sec
    t) (t_lock t).
Definition set_active_bitmap (x : list Z) (t : tracker) : tracker :=
    Tracker (by_mac t) (by_time t) (t_entries t) (mono_last_seen_sec t) (free_indices t) x
    (free_count t) (max_capacity t) (count t) (last_raw_ms t) (mono_offset_ms t) (base_epoch_sec
    t) (t_lock t).
Definition set_free_count (x : Z) (t : tracker) : tracker :=
    Tracker (by_mac t) (by_time t) (t_entries t) (mono_last_seen_sec t) (free_indices t)
    (active_bitmap t) x (max_capacity t) (count t) (last_raw_ms t) (mono_offset_ms t)
    (base_epoch_sec t) (t_lock t).
Definition set_count (x : Z) (t : tracker) : tracker :=
    Tracker (by_mac t) (by_time t) (t_entries t) (mono_last_seen_sec t) (free_indices t)
    (active_bitmap t) (free_count t) (max_capacity t) x (last_raw_ms t) (mono_offset_ms t)
    (base_epoch_sec t) (t_lock t).
Definition set_last_raw_ms (x : Z) (t : tracker) : tracker :=
    Tracker (by_mac t) (by_time t) (t_entries t) (mono_last_seen_sec t) (free_indices t)
    (active_bitmap t) (free_count t) (max_capacity t) (count t) x (mono_offset_ms t)
    (base_epoch_sec t) (t_lock t).
Definition set_mono_offset_ms (x : Z) (t : tracker) : tracker :=
    Tracker (by_mac t) (by_time t) (t_entries t) (mono_last_seen_sec t) (free_indices t)
    (active_bitmap t) (free_count t) (max_capacity t) (count t) (last_raw_ms t) x (base_epoch_sec
    t) (t_lock t).
Definition set_base_epoch_sec (x : Z) (t : tracker) : tracker :=
    Tracker (by_mac t) (by_time t) (t_entries t) (mono_last_seen_sec t) (free_indices t)
    (active_bitmap t) (free_count t) (max_capacity t) (count t) (last_raw_ms t) (mono_offset_ms t)
    x (t_lock t).
Definition set_t_lock (x : lock) (t : tracker) : tracker :=
    Tracker (by_mac t) (by_time t) (t_entries t) (mono_last_seen_sec t) (free_indices t)
    (active_bitmap t) (free_count t) (max_capacity t) (count t) (last_raw_ms t) (mono_offset_ms t)
    (base_epoch_sec t) x.

Definition is_slot_active (t : tracker) (idx : Z) : option bool :=
  w ← arr_get (active_bitmap t) (Z.shiftr idx 5);
  Some (negb (Z.land w (Z.shiftl 1 (Z.land idx 31)) =? 0)).

Definition set_slot_active (t : tracker) (idx : Z) : option tracker :=
  w ← arr_get (active_bitmap t) (Z.shiftr idx 5);
  bm ← arr_set (active_bitmap t) (Z.shiftr idx 5) (Z.lor w (Z.shiftl 1 (Z.land idx 31)));
  Some (set_active_bitmap bm t).

Definition clear_slot_active (t : tracker) (idx : Z) : option tracker :=
  w ← arr_get (active_bitmap t) (Z.shiftr idx 5);
  bm ← arr_set (active_bitmap t) (Z.shiftr idx 5)
         (Z.land w (u32 (Z.lnot (Z.shiftl 1 (Z.land idx 31)))));
  Some (set_active_bitmap bm t).

Definition unwrap_mono_ms (t : tracker) (raw_ms : Z) : tracker * Z :=
  let t :=
    if (count t >? 0) || (last_raw_ms t >? 0) then
      if (raw_ms <? last_raw_ms t) && (last_raw_ms t -w raw_ms >? 2147483648)
      then set_mono_offset_ms (u64 (mono_offset_ms t + 4294967296)) t
      else t
    else t in
  let t := set_last_raw_ms raw_ms t in
  (t, u64 (mono_offset_ms t + raw_ms)).

(** The body of the rebuild loop of [rebase_epoch_if_needed], [n] slots from [i]. *)
Fixpoint rebuild_by_time (n : nat) (i : Z) (t : tracker) : option tracker :=
  match n with
  | O => Some t
  | S n =>
      b ← is_slot_active t i;
      t ← (if negb b then Some t
           else sec ← arr_get (mono_last_seen_sec t) i;
                let tk := make_time_key sec (base_epoch_sec t) (u16 i) in
                Some (set_by_time (expanse_map_insert (by_time t) tk i).1 t));
      rebuild_by_time n (i + 1) t
  end.

Definition rebase_epoch_if_needed (t : tracker) (current_mono_sec : Z) : option tracker :=
  let t := if current_mono_sec <? base_epoch_sec t
           then set_base_epoch_sec current_mono_sec t else t in
  let span := current_mono_sec -w base_epoch_sec t in
  if span <? 400000 then Some t
  else
    let shift_delta := span -w 100000 in
    let t := set_base_epoch_sec (base_epoch_sec t +w shift_delta) t in
    let t := set_by_time (expanse_map_clear (by_time t)) t in
    rebuild_by_time (Z.to_nat (max_capacity t)) 0 t.

(** Outcomes of the allocations of [expanse_ble_tracker_create], in order. *)
Record alloc_oks := AllocOks {
  ok_tracker : bool; ok_by_mac : bool; ok_by_time : bool; ok_entries : bool;
  ok_mono : bool; ok_bitmap : bool; ok_free : bool; ok_lock : bool;
}.
Definition b2z (b : bool) : Z := if b then 1 else 0.

Definition expanse_ble_tracker_create (cap : Z) (oks : alloc_oks) (h : ledger)
  : option tracker * ledger :=
  if (cap =? 0) || (cap >? EXPANSE_BLE_MAX_CAPACITY) then (None, h)
  else if negb (ok_tracker oks) then (None, h)
  else
    let h := Ledger (n_blocks h + 1) (n_maps h) (n_locks h) in
    let bitmap_words := (cap + 31) / 32 in
    let maps := b2z (ok_by_mac oks) + b2z (ok_by_time oks) in
    let blocks := b2z (ok_entries oks) + b2z (ok_mono oks) + b2z (ok_bitmap oks) + b2z (ok_free oks) in
    let h := Ledger (n_blocks h + blocks) (n_maps h + maps) (n_locks h) in
    if negb (ok_by_mac oks) || negb (ok_by_time oks) || negb (ok_entries oks)
       || negb (ok_mono oks) || negb (ok_bitmap oks) || negb (ok_free oks)
    then (None, Ledger (n_blocks h - blocks - 1) (n_maps h - maps) (n_locks h))
    else
      (Some (Tracker expanse_map_new expanse_map_new
               (replicate (Z.to_nat cap) zero_record) (replicate (Z.to_nat cap) 0)
               ((λ i, u16 (cap - 1 - Z.of_nat i)) <$> seq 0 (Z.to_nat cap))
               (replicate (Z.to_nat bitmap_words) 0)
               cap cap 0 0 0 0 (LOCK_INIT (ok_lock oks))),
       if ok_lock oks then Ledger (n_blocks h) (n_maps h) (n_locks h + 1) else h).

Definition expanse_ble_tracker_destroy (tr : option tracker) (h : ledger) : ledger :=
  match tr with
  | None => h
  | Some t =>
      let t := set_t_lock (LOCK_TAKE (t_lock t)) t in
      let h := Ledger (n_blocks h - 4) (n_maps h - 2) (n_locks h) in
      let t := set_t_lock (LOCK_GIVE (t_lock t)) t in
      let h := LOCK_FREE (t_lock t) h in
      Ledger (n_blocks h - 1) (n_maps h) (n_locks h)
  end.

(** [size_t] is 64 bits wide on the wide surface and 32 on the narrow one. *)
Definition size_t_of (wide : bool) (z : Z) : Z := z mod 2 ^ (if wide then 64 else 32).
Definition count_up (wide : bool) (t : tracker) : tracker := set_count (size_t_of wide (count t + 1)) t.
Definition count_down (wide : bool) (t : tracker) : tracker := set_count (size_t_of wide (count t - 1)) t.

Definition unlock (t : tracker) : tracker := set_t_lock (LOCK_GIVE (t_lock t)) t.
Definition take_lock (t : tracker) : tracker := set_t_lock (LOCK_TAKE (t_lock t)) t.

(** The re-sighting branch: drop the old time key, store the record, add the new one. *)
Definition record_resighting (t : tracker) (idx : Z) (r : ble_record) (mono_sec : Z) : option tracker :=
  sec ← arr_get (mono_last_seen_sec t) idx;
  let old_tk := make_time_key sec (base_epoch_sec t) idx in
  let t := set_by_time (expanse_map_remove (by_time t) old_tk).1 t in
  es ← arr_set (t_entries t) idx r;
  ms ← arr_set (mono_last_seen_sec t) idx mono_sec;
  let t := set_mono_last_seen_sec ms (set_t_entries es t) in
  let new_tk := make_time_key mono_sec (base_epoch_sec t) idx in
  Some (set_by_time (expanse_map_insert (by_time t) new_tk idx).1 t).

(** The new-sighting branch, after the free-slot test. *)
Definition record_new_sighting (wide : bool) (t : tracker) (mac_hash : Z) (r : ble_record) (mono_sec : Z)
  : option tracker :=
  let t := set_free_count (free_count t - 1) t in
  idx ← arr_get (free_indices t) (free_count t);
  es ← arr_set (t_entries t) idx r;
  ms ← arr_set (mono_last_seen_sec t) idx mono_sec;
  let t := set_mono_last_seen_sec ms (set_t_entries es t) in
  t ← set_slot_active t idx;
  let tk := make_time_key mono_sec (base_epoch_sec t) idx in
  let t := set_by_mac (expanse_map_insert (by_mac t) mac_hash idx).1 t in
  let t := set_by_time (expanse_map_insert (by_time t) tk idx).1 t in
  Some (count_up wide t).

Definition expanse_ble_tracker_record (wide : bool) (tr : option tracker) (rec : option ble_record)
  : option (option tracker * Z) :=
  match tr, rec with
  | Some t, Some r =>
      let t := take_lock t in
      let '(t, mono_ms) := unwrap_mono_ms t (last_seen_ms r) in
      let mono_sec := u32 (mono_ms / 1000) in
      t ← rebase_epoch_if_needed t mono_sec;
      let mac_hash := fnv1a_32 (mac r) 6 in
      match expanse_map_get (by_mac t) mac_hash with
      | Some existing_idx =>
          let idx := u16 existing_idx in
          e ← arr_get (t_entries t) idx;
          if negb (bool_decide (mac e = mac r))
          then Some (Some (unlock t), EXPANSE_BLE_ERR_COLLISION)
          else
            t ← record_resighting t idx r mono_sec;
            Some (Some (unlock t), EXPANSE_BLE_OK)
      | None =>
          if free_count t =? 0 then Some (Some (unlock t), EXPANSE_BLE_ERR_NOMEM)
          else
            t ← record_new_sighting wide t mac_hash r mono_sec;
            Some (Some (unlock t), EXPANSE_BLE_OK)
      end
  | _, _ => Some (tr, EXPANSE_BLE_ERR_INVAL)
  end.

(** [out_record] is [None] when [NULL], else the cell's content. *)
Definition expanse_ble_tracker_get (tr : option tracker) (m : option (list Z)) (out : option ble_record)
  : option (bool * option tracker * option ble_record) :=
  match tr, m with
  | Some t, Some m =>
      let t := take_lock t in
      match expanse_map_get (by_mac t) (fnv1a_32 m 6) with
      | None => Some (false, Some (unlock t), out)
      | Some idx_word =>
          let idx := u16 idx_word in
          b ← is_slot_active t idx;
          if negb b then Some (false, Some (unlock t), out)
          else
            e ← arr_get (t_entries t) idx;
            if negb (bool_decide (mac e = m)) then Some (false, Some (unlock t), out)
            else Some (true, Some (unlock t), match out with Some _ => Some e | None => None end)
      end
  | _, _ => Some (false, tr, out)
  end.

Definition push_free (t : tracker) (idx : Z) : option tracker :=
  fi ← arr_set (free_indices t) (free_count t) idx;
  Some (set_free_count (free_count t + 1) (set_free_indices fi t)).

Definition expanse_ble_tracker_remove (wide : bool) (tr : option tracker) (m : option (list Z))
    (out : option ble_record) : option (bool * option tracker * option ble_record) :=
  match tr, m with
  | Some t, Some m =>
      let t := take_lock t in
      let mac_hash := fnv1a_32 m 6 in
      match expanse_map_get (by_mac t) mac_hash with
      | None => Some (false, Some (unlock t), out)
      | Some idx_word =>
          let idx := u16 idx_word in
          b ← is_slot_active t idx;
          if negb b then Some (false, Some (unlock t), out)
          else
            e ← arr_get (t_entries t) idx;
            if negb (bool_decide (mac e = m)) then Some (false, Some (unlock t), out)
            else
              let out := match out with Some _ => Some e | None => None end in
              sec ← arr_get (mono_last_seen_sec t) idx;
              let tk := make_time_key sec (base_epoch_sec t) idx in
              let t := set_by_mac (expanse_map_remove (by_mac t) mac_hash).1 t in
              let t := set_by_time (expanse_map_remove (by_time t) tk).1 t in
              t ← clear_slot_active t idx;
              t ← push_free t idx;
              Some (true, Some (unlock (count_down wide t)), out)
      end
  | _, _ => Some (false, tr, out)
  end.

Definition expire_slot (wide : bool) (t : tracker) (idx : Z) : option tracker :=
  e ← arr_get (t_entries t) idx;
  let mac_hash := fnv1a_32 (mac e) 6 in
  let t := set_by_mac (expanse_map_remove (by_mac t) mac_hash).1 t in
  t ← clear_slot_active t idx;
  t ← push_free t idx;
  Some (count_down wide t).

(** [expire_one]: the callback of [remove_range]; its context is the tracker. *)
Definition expire_one (time_key idx_word : Z) (ctx : option tracker) : option tracker :=
  t ← ctx; expire_slot false t (u16 idx_word).

(** The per-record loop of the 64-bit build; [fuel] bounds the records. *)
Fixpoint expire_loop (fuel : nat) (t : tracker) (max_time_key expired_count : Z)
  : option (tracker * Z) :=
  match fuel with
  | O => None
  | S fuel =>
      match expanse_map_first (by_time t) with
      | None => Some (t, expired_count)
      | Some (time_key, idx_word) =>
          if time_key >? max_time_key then Some (t, expired_count)
          else
            let t := set_by_time (expanse_map_remove (by_time t) time_key).1 t in
            t ← expire_slot true t (u16 idx_word);
            expire_loop fuel t max_time_key (expired_count + 1)
      end
  end.

Definition max_time_key_of (t : tracker) (cutoff_sec : Z) : Z :=
  let rel_cutoff_sec :=
    if cutoff_sec >=? base_epoch_sec t then
      let diff := cutoff_sec -w base_epoch_sec t in
      if diff >? 524287 then 524287 else diff
    else 0 in
  Z.lor (rel_cutoff_sec <<w TIME_KEY_SHIFT) SLAB_IDX_MASK.

Definition expanse_ble_tracker_expire_stale (wide : bool) (tr : option tracker) (cutoff_ms : Z)
  : option (Z * option tracker) :=
  match tr with
  | None => Some (0, None)
  | Some t =>
      let t := take_lock t in
      if count t =? 0 then Some (0, Some (unlock t))
      else
        let '(t, cutoff_mono_ms) := unwrap_mono_ms t cutoff_ms in
        let cutoff_sec := u32 (cutoff_mono_ms / 1000) in
        let max_time_key := max_time_key_of t cutoff_sec in
        if wide then
          '(t, n) ← expire_loop (S (Z.to_nat (expanse_map_len (by_time t)))) t max_time_key 0;
          Some (n, Some (unlock t))
        else
          let '(bt, ctx, n) :=
            expanse_map_remove_range (by_time t) 0 max_time_key expire_one (Some t) in
          t ← ctx;
          Some (n, Some (unlock (set_by_time bt t)))
  end.

Definition expanse_ble_tracker_count (tr : option tracker) : Z * option tracker :=
  match tr with
  | None => (0, None)
  | Some t => let t := take_lock t in (count t, Some (unlock t))
  end.

(** [sizeof (expanse_ble_record_t)] is 28. *)
Definition expanse_ble_tracker_mem_used (tr : option tracker) : Z * option tracker :=
  match tr with
  | None => (0, None)
  | Some t =>
      let t := take_lock t in
      let trie_mem := expanse_map_mem_used (by_mac t) + expanse_map_mem_used (by_time t) in
      let slab_mem := max_capacity t * 28 + max_capacity t * 4 + max_capacity t * 2
                      + ((max_capacity t + 31) / 32) * 4 in
      (trie_mem + slab_mem, Some (unlock t))
  end.
End Tracker.

Arguments tracker : clear implicits.
