(* ===== verification/BleTrackerProofs.v ===== *)
(** * The BLE tracker: its invariant, what each call does, and where it breaks

    The invariant [inv] ties the two indices, the free stack and the liveness
    bitmap to the slab: [slot] is the view of the slab through the bitmap, the
    MAC index holds exactly the hashes of the live slots, the time index exactly
    their time keys, and the free stack exactly the other slots.  Every call
    keeps it and stays in bounds as long as no sighting lies before the epoch
    base; one that does breaks the time index ([time_regression_breaks]). *)
From stdpp Require Import base numbers list sorting gmap.
From S2P Require Import Prelude SortedAssoc ExpanseApi HostLock BleTracker.
Open Scope Z_scope.

(** ** Time keys *)
Definition rel_sec (mono_sec base : Z) : Z :=
  if base <=? mono_sec then Z.min (mono_sec - base) 524287 else 0.

Lemma rel_sec_range s b : 0 <= rel_sec s b <= 524287.
Proof. unfold rel_sec. destruct (Z.leb_spec b s); lia. Qed.

Lemma rel_clamp s b :
  is_u32 s → is_u32 b →
  (if s >=? b then (if s -w b >? 524287 then 524287 else s -w b) else 0) = rel_sec s b.
Proof.
  intros Hs Hb. unfold rel_sec. rewrite Z.geb_leb. destruct (Z.leb_spec b s); [|done].
  rewrite u32_small by word_lia. rewrite Z.gtb_ltb. destruct (Z.ltb_spec 524287 (s - b)); lia.
Qed.

Lemma make_time_key_spec s b i :
  is_u32 s → is_u32 b → 0 <= i < 8192 → make_time_key s b i = rel_sec s b * 8192 + i.
Proof.
  intros Hs Hb Hi. unfold make_time_key. rewrite rel_clamp by done.
  pose proof (rel_sec_range s b). unfold TIME_KEY_SHIFT, SLAB_IDX_MASK.
  change 8191 with (Z.ones 13). rewrite Z.land_ones, Z.mod_small by lia.
  rewrite u32_small by (rewrite Z.shiftl_mul_pow2 by lia; word_lia).
  rewrite lor_shiftl_add by lia. done.
Qed.

Lemma max_time_key_spec {M} (t : tracker M) c :
  is_u32 c → is_u32 (base_epoch_sec t) →
  max_time_key_of t c = rel_sec c (base_epoch_sec t) * 8192 + 8191.
Proof.
  intros Hc Hb. unfold max_time_key_of. rewrite rel_clamp by done.
  pose proof (rel_sec_range c (base_epoch_sec t)). unfold TIME_KEY_SHIFT, SLAB_IDX_MASK.
  rewrite u32_small by (rewrite Z.shiftl_mul_pow2 by lia; word_lia).
  rewrite lor_shiftl_add by lia. done.
Qed.

(** ** The liveness bitmap *)
Definition bitmap_bit (bm : list Z) (i : Z) : bool :=
  match arr_get bm (Z.shiftr i 5) with Some w => Z.testbit w (Z.land i 31) | None => false end.

Lemma idx_split i : 0 <= i → i = 32 * Z.shiftr i 5 + Z.land i 31 ∧ 0 <= Z.shiftr i 5 ∧ 0 <= Z.land i 31 < 32.
Proof.
  intros Hi. change 31 with (Z.ones 5). rewrite Z.land_ones, Z.shiftr_div_pow2 by lia.
  pose proof (Z.div_mod i (2 ^ 5)). pose proof (Z.mod_pos_bound i (2 ^ 5)).
  pose proof (Z.div_pos i (2 ^ 5)). lia.
Qed.
Lemma bitmap_word_range cap i n :
  0 <= i < cap → n = Z.to_nat ((cap + 31) / 32) → 0 <= Z.shiftr i 5 < Z.of_nat n.
Proof.
  intros Hi ->. rewrite Z.shiftr_div_pow2 by lia. change (2 ^ 5) with 32.
  pose proof (Z.div_pos i 32). pose proof (Z.div_pos (cap + 31) 32).
  assert (i / 32 < (cap + 31) / 32); [|lia].
  apply Z.lt_le_trans with ((i + 32) / 32); [|apply Z.div_le_mono; lia].
  replace (i + 32) with (i + 1 * 32) by lia. rewrite Z.div_add by lia. lia.
Qed.

Lemma bitmap_update bm bm' i w w' (b : bool) :
  0 <= i → arr_get bm (Z.shiftr i 5) = Some w → arr_set bm (Z.shiftr i 5) w' = Some bm' →
  (∀ m, 0 <= m < 32 → Z.testbit w' m = if decide (m = Z.land i 31) then b else Z.testbit w m) →
  ∀ j, 0 <= j → bitmap_bit bm' j = if decide (j = i) then b else bitmap_bit bm j.
Proof.
  intros Hi Hg Hs Hbits j Hj. destruct (idx_split i Hi) as (Ei & ? & ?).
  destruct (idx_split j Hj) as (Ej & ? & ?). unfold bitmap_bit.
  rewrite (arr_get_set _ _ _ _ _ Hs). destruct (decide (Z.shiftr i 5 = Z.shiftr j 5)) as [Heq|Hne].
  - rewrite Hbits by done. rewrite <- Heq, Hg. destruct (decide (j = i)) as [->|]; [by rewrite decide_True|].
    rewrite decide_False; [done|lia].
  - rewrite decide_False; [done|]. intros ->. done.
Qed.

Lemma testbit_lor_pow2 w n m :
  0 <= n → Z.testbit (Z.lor w (Z.shiftl 1 n)) m = if decide (m = n) then true else Z.testbit w m.
Proof.
  intros Hn. rewrite Z.lor_spec, Z.shiftl_1_l. case_decide; subst.
  - rewrite Z.pow2_bits_true by lia. apply orb_true_r.
  - rewrite Z.pow2_bits_false by lia. apply orb_false_r.
Qed.
Lemma testbit_clear_pow2 w n m :
  0 <= n < 32 → 0 <= m < 32 →
  Z.testbit (Z.land w (u32 (Z.lnot (Z.shiftl 1 n)))) m = if decide (m = n) then false else Z.testbit w m.
Proof.
  intros Hn Hm. rewrite Z.land_spec. unfold u32. rewrite Z.mod_pow2_bits_low by lia.
  rewrite Z.lnot_spec, Z.shiftl_1_l by lia. case_decide; subst.
  - rewrite Z.pow2_bits_true by lia. apply andb_false_r.
  - rewrite Z.pow2_bits_false by lia. apply andb_true_r.
Qed.

(** ** Counting slots *)
Lemma NoDup_bounded_length (l : list Z) n :
  NoDup l → (∀ x, x ∈ l → 0 <= x < n) → Z.of_nat (length l) <= Z.max 0 n.
Proof.
  intros Hnd Hin. assert (l ⊆+ seqZ 0 n) as Hsub.
  { apply NoDup_submseteq; [done|]. intros x Hx. apply elem_of_seqZ. specialize (Hin x Hx). lia. }
  apply submseteq_length in Hsub. rewrite length_seqZ in Hsub. lia.
Qed.

(** ** The slab seen through the bitmap *)
Definition slot_of (bmp : list Z) (es : list ble_record) (ms : list Z) (i : Z)
  : option (ble_record * Z) :=
  if (0 <=? i) && bitmap_bit bmp i then
    match arr_get es i, arr_get ms i with Some r, Some s => Some (r, s) | _, _ => None end
  else None.

Section Inv.
  Context {M : Type} `{ExpanseMapLaws M}.
  Implicit Types (t : tracker M) (bt : M).

Definition slot t (i : Z) : option (ble_record * Z) :=
  slot_of (active_bitmap t) (t_entries t) (mono_last_seen_sec t) i.

(** Array lengths. *)
Record shape t : Prop := {
  sh_cap : 1 <= max_capacity t <= 8192;
  sh_entries : length (t_entries t) = Z.to_nat (max_capacity t);
  sh_mono : length (mono_last_seen_sec t) = Z.to_nat (max_capacity t);
  sh_free : length (free_indices t) = Z.to_nat (max_capacity t);
  sh_bitmap : length (active_bitmap t) = Z.to_nat ((max_capacity t + 31) / 32);
  sh_secs : Forall is_u32 (mono_last_seen_sec t);
  sh_base : is_u32 (base_epoch_sec t);
}.
(** The free stack holds exactly the slots that are not live, once each. *)
Record free_ok t : Prop := {
  fo_range : 0 <= free_count t <= max_capacity t;
  fo_count : count t = max_capacity t - free_count t;
  fo_nodup : NoDup (take (Z.to_nat (free_count t)) (free_indices t));
  fo_free i : i ∈ take (Z.to_nat (free_count t)) (free_indices t)
              ↔ 0 <= i < max_capacity t ∧ slot t i = None;
}.
(** The MAC index holds exactly the hashes of the live records. *)
Definition mac_ok t : Prop :=
  ∀ h i, (h, i) ∈ entries (by_mac t) ↔ ∃ r s, slot t i = Some (r, s) ∧ h = fnv1a_32 (mac r) 6.
(** The time index holds exactly the time keys of the live records. *)
Definition time_ok t : Prop :=
  ∀ k i, (k, i) ∈ entries (by_time t)
         ↔ ∃ r s, slot t i = Some (r, s) ∧ k = make_time_key s (base_epoch_sec t) i.
Definition clock_ok t : Prop := is_u32 (last_raw_ms t) ∧ is_u64 (mono_offset_ms t).

(** Everything but the time index. *)
Record core t : Prop := {
  co_shape : shape t; co_free : free_ok t; co_mac : mac_ok t; co_clock : clock_ok t;
}.
Record inv t : Prop := { in_core : core t; in_time : time_ok t }.

(** *** Reading a slot *)
Lemma slot_range t i r s : shape t → slot t i = Some (r, s) → 0 <= i < max_capacity t.
Proof.
  intros Hs. unfold slot, slot_of. destruct ((0 <=? i) && _); [|done].
  destruct (arr_get (t_entries t) i) eqn:He; [|done]. intros _.
  apply arr_get_Some_range in He. rewrite (sh_entries t Hs) in He. pose proof (sh_cap t Hs). lia.
Qed.
Lemma slot_secs t i r s : shape t → slot t i = Some (r, s) → is_u32 s.
Proof.
  intros Hs. unfold slot, slot_of. destruct ((0 <=? i) && _); [|done].
  destruct (arr_get (t_entries t) i); [|done]. destruct (arr_get (mono_last_seen_sec t) i) eqn:Hm; [|done].
  intros [= -> ->]. apply arr_get_elem_of in Hm.
  pose proof (sh_secs t Hs) as Hf. rewrite Forall_forall in Hf. by apply Hf.
Qed.
Lemma slab_reads t i :
  shape t → 0 <= i < max_capacity t →
  ∃ r s, arr_get (t_entries t) i = Some r ∧ arr_get (mono_last_seen_sec t) i = Some s
       ∧ slot t i = if bitmap_bit (active_bitmap t) i then Some (r, s) else None.
Proof.
  intros Hs Hi. pose proof (sh_entries t Hs). pose proof (sh_mono t Hs).
  destruct (arr_get_is_Some (t_entries t) i) as [r Hr]; [lia|].
  destruct (arr_get_is_Some (mono_last_seen_sec t) i) as [s Hm]; [lia|].
  exists r, s. split_and!; [done..|]. unfold slot, slot_of. rewrite Hr, Hm.
  by rewrite (proj2 (Z.leb_le 0 i)) by lia.
Qed.
Lemma is_slot_active_value t i :
  shape t → 0 <= i < max_capacity t →
  is_slot_active t i = Some (bitmap_bit (active_bitmap t) i).
Proof.
  intros Hs Hi. unfold is_slot_active, bitmap_bit.
  destruct (arr_get_is_Some (active_bitmap t) (Z.shiftr i 5)) as [w Hw].
  { eapply bitmap_word_range; [done|]. apply (sh_bitmap t Hs). }
  rewrite Hw. simpl. rewrite land_pow2_testbit; [done|]. destruct (idx_split i); lia.
Qed.
Lemma set_slot_active_value t i :
  shape t → 0 <= i < max_capacity t →
  ∃ bm, set_slot_active t i = Some (set_active_bitmap bm t) ∧ length bm = length (active_bitmap t)
      ∧ ∀ j, 0 <= j → bitmap_bit bm j = if decide (j = i) then true else bitmap_bit (active_bitmap t) j.
Proof.
  intros Hs Hi. pose proof (bitmap_word_range _ i _ Hi (sh_bitmap t Hs)) as Hw.
  unfold set_slot_active. destruct (arr_get_is_Some _ _ Hw) as [w Hg]. rewrite Hg. simpl.
  rewrite arr_set_Some by done. simpl. eexists. split; [done|]. split; [apply length_insert|].
  eapply bitmap_update; [lia|exact Hg|by apply arr_set_Some|].
  intros m Hm. apply testbit_lor_pow2. destruct (idx_split i); lia.
Qed.
Lemma clear_slot_active_value t i :
  shape t → 0 <= i < max_capacity t →
  ∃ bm, clear_slot_active t i = Some (set_active_bitmap bm t) ∧ length bm = length (active_bitmap t)
      ∧ ∀ j, 0 <= j → bitmap_bit bm j = if decide (j = i) then false else bitmap_bit (active_bitmap t) j.
Proof.
  intros Hs Hi. pose proof (bitmap_word_range _ i _ Hi (sh_bitmap t Hs)) as Hw.
  unfold clear_slot_active. destruct (arr_get_is_Some _ _ Hw) as [w Hg]. rewrite Hg. simpl.
  rewrite arr_set_Some by done. simpl. eexists. split; [done|]. split; [apply length_insert|].
  eapply bitmap_update; [lia|exact Hg|by apply arr_set_Some|].
  intros m Hm. apply testbit_clear_pow2; [|done]. destruct (idx_split i); lia.
Qed.

(** *** Hashes and time keys name slots *)
Lemma mac_index_slot t h i : core t → expanse_map_get (by_mac t) h = Some i ↔
  ∃ r s, slot t i = Some (r, s) ∧ h = fnv1a_32 (mac r) 6.
Proof. intros Hc. rewrite get_elem. apply (co_mac t Hc). Qed.
Lemma hash_unique t i j r s r' s' :
  mac_ok t → slot t i = Some (r, s) → slot t j = Some (r', s') →
  fnv1a_32 (mac r) 6 = fnv1a_32 (mac r') 6 → i = j.
Proof.
  intros Hm Hi Hj Heq.
  assert (expanse_map_get (by_mac t) (fnv1a_32 (mac r) 6) = Some i) as Ha by (apply get_elem, Hm; eauto).
  assert (expanse_map_get (by_mac t) (fnv1a_32 (mac r) 6) = Some j) as Hb
    by (rewrite Heq; apply get_elem, Hm; eauto).
  congruence.
Qed.
Lemma live_count_pos t i r s : core t → slot t i = Some (r, s) → 0 < count t.
Proof.
  intros Hc Hi. pose proof (slot_range t i r s (co_shape t Hc) Hi).
  destruct (co_free t Hc) as [Hr Hcnt Hnd Hfree].
  assert (Z.of_nat (length (i :: take (Z.to_nat (free_count t)) (free_indices t))) <= max_capacity t).
  { rewrite <- (Z.max_r 0 (max_capacity t)) by lia. apply NoDup_bounded_length.
    - constructor; [|done]. rewrite Hfree, Hi. intros [_ ?]. done.
    - intros x [->|Hx]%elem_of_cons; [done|]. by apply Hfree in Hx as [? _]. }
  pose proof (sh_free t (co_shape t Hc)). simpl in *. rewrite length_take in *. lia.
Qed.

(** *** Releasing, claiming and refreshing a slot *)
(** What the slab operations leave alone. *)
Definition frame t t' : Prop :=
  by_time t' = by_time t ∧ base_epoch_sec t' = base_epoch_sec t ∧ t_lock t' = t_lock t
  ∧ max_capacity t' = max_capacity t ∧ last_raw_ms t' = last_raw_ms t
  ∧ mono_offset_ms t' = mono_offset_ms t.

Lemma slot_bitmap t t' i b :
  t_entries t' = t_entries t → mono_last_seen_sec t' = mono_last_seen_sec t → b = false →
  (∀ j, 0 <= j → bitmap_bit (active_bitmap t') j
                 = if decide (j = i) then b else bitmap_bit (active_bitmap t) j) →
  ∀ j, slot t' j = if decide (j = i) then None else slot t j.
Proof.
  intros He Hm -> Hb j. unfold slot, slot_of. rewrite He, Hm.
  destruct (Z.leb_spec 0 j); simpl; [|by case_decide]. rewrite Hb by done. by case_decide.
Qed.

Lemma size_t_small wide z : 0 <= z < 2 ^ 32 → size_t_of wide z = z.
Proof. intros. unfold size_t_of. apply Z.mod_small. destruct wide; lia. Qed.

Lemma take_push (l : list Z) n x : (n < length l)%nat → take (S n) (<[n := x]> l) = take n l ++ [x].
Proof.
  intros Hn. rewrite (take_S_r _ n x) by (by apply list_lookup_insert_eq).
  by rewrite take_insert_ge by lia.
Qed.

Lemma release_slot wide t i r s :
  core t → slot t i = Some (r, s) →
  ∃ t', (t1 ← clear_slot_active (set_by_mac (expanse_map_remove (by_mac t) (fnv1a_32 (mac r) 6)).1 t) i;
         t2 ← push_free t1 i; Some (count_down wide t2)) = Some t'
      ∧ core t' ∧ frame t t' ∧ count t' = count t - 1
      ∧ ∀ j, slot t' j = if decide (j = i) then None else slot t j.
Proof.
  intros Hc Hi. pose proof (live_count_pos t i r s Hc Hi) as Hpos.
  destruct Hc as [Hs Hf Hmac Hclk]. pose proof (slot_range t i r s Hs Hi) as Hr.
  set (t0 := set_by_mac _ t).
  destruct (clear_slot_active_value t0 i) as (bm & -> & Hlen & Hbit); [by destruct Hs; constructor|done|].
  simpl. unfold push_free. simpl. destruct Hf as [Hfr Hcnt Hnd Hfree].
  pose proof (sh_free t Hs) as Hlf. pose proof (sh_cap t Hs).
  rewrite arr_set_Some by (rewrite Hlf; lia). simpl. eexists. split; [done|].
  match goal with |- core ?x ∧ _ => set (t' := x) end.
  assert (∀ j, slot t' j = if decide (j = i) then None else slot t j) as Hslot
    by (by apply (slot_bitmap t t' i false)).
  split; [|split; [done|split; [|done]]].
  - constructor.
    + destruct Hs; constructor; try done; simpl; [by rewrite length_insert|by rewrite Hlen].
    + constructor; simpl.
      * lia.
      * rewrite size_t_small by lia. lia.
      * replace (Z.to_nat (free_count t + 1)) with (S (Z.to_nat (free_count t))) by lia.
        rewrite take_push by lia. apply NoDup_app. split_and!; [done| |apply NoDup_singleton].
        intros x Hx ->%list_elem_of_singleton. apply Hfree in Hx as [_ Hx]. congruence.
      * intros j. rewrite Hslot.
        replace (Z.to_nat (free_count t + 1)) with (S (Z.to_nat (free_count t))) by lia.
        rewrite take_push by lia. rewrite elem_of_app, Hfree, list_elem_of_singleton.
        case_decide; subst; tauto.
    + intros h j. simpl. rewrite elem_of_remove. simpl. rewrite (Hmac h j). setoid_rewrite Hslot.
      split.
      * intros (Hne & r' & s' & Hj & ->). exists r', s'. rewrite decide_False; [done|].
        intros ->. rewrite Hi in Hj. injection Hj as <- <-. done.
      * intros (r' & s' & Hj & ->). case_decide; [done|]. split; [|by eauto].
        intros Heq. by pose proof (hash_unique t j i r' s' r s Hmac Hj Hi Heq).
    + done.
  - simpl. rewrite size_t_small; lia.
Qed.

Lemma slot_write t t' i r s :
  arr_set (t_entries t) i r = Some (t_entries t') →
  arr_set (mono_last_seen_sec t) i s = Some (mono_last_seen_sec t') →
  bitmap_bit (active_bitmap t') i = true → 0 <= i →
  (∀ j, 0 <= j → j ≠ i → bitmap_bit (active_bitmap t') j = bitmap_bit (active_bitmap t) j) →
  ∀ j, slot t' j = if decide (j = i) then Some (r, s) else slot t j.
Proof.
  intros He Hm Hb Hi Hother j. unfold slot, slot_of.
  rewrite (arr_get_set _ _ _ _ _ He), (arr_get_set _ _ _ _ _ Hm).
  destruct (decide (j = i)) as [->|Hne].
  - rewrite (proj2 (Z.leb_le 0 i)), Hb, !decide_True by done. done.
  - destruct (Z.leb_spec 0 j); simpl; [|done]. rewrite Hother by done. by rewrite !decide_False by done.
Qed.

Lemma time_key_unique t i j r s r' s' :
  shape t → slot t i = Some (r, s) → slot t j = Some (r', s') →
  make_time_key s (base_epoch_sec t) i = make_time_key s' (base_epoch_sec t) j → i = j.
Proof.
  intros Hs Hi Hj. pose proof (slot_range _ _ _ _ Hs Hi). pose proof (slot_range _ _ _ _ Hs Hj).
  pose proof (sh_cap t Hs).
  rewrite !make_time_key_spec by
    (eauto using slot_secs || apply (sh_base t Hs) || lia).
  pose proof (rel_sec_range s (base_epoch_sec t)). pose proof (rel_sec_range s' (base_epoch_sec t)). lia.
Qed.

(** The time index after the entry of slot [i] (if it had one) is replaced. *)
Lemma time_ok_replace t t' bt i r s :
  shape t' → base_epoch_sec t' = base_epoch_sec t → slot t' i = Some (r, s) →
  (∀ j, j ≠ i → slot t' j = slot t j) →
  (∀ k j, (k, j) ∈ entries bt ↔ j ≠ i ∧ (k, j) ∈ entries (by_time t)) → time_ok t →
  by_time t' = (expanse_map_insert bt (make_time_key s (base_epoch_sec t) i) i).1 → time_ok t'.
Proof.
  intros Hs Hb Hi Hother Hbt Ht Hby k j. rewrite Hby, Hb, elem_of_insert, Hbt, (Ht k j). simpl. split.
  - intros [[= -> ->]|(_ & Hne & r' & s' & Hj & ->)]; [by eauto|].
    exists r', s'. by rewrite Hother.
  - intros (r' & s' & Hj & ->). destruct (decide (j = i)) as [->|Hne].
    + left. rewrite Hi in Hj. by injection Hj as <- <-.
    + right. split_and!; [|done|]; [|by rewrite <- Hother by done; eauto].
      intros Heq. rewrite <- Hb in Heq. by pose proof (time_key_unique t' j i r' s' r s Hs Hj Hi Heq).
Qed.

Lemma resighting_spec t i r0 s0 r s :
  inv t → slot t i = Some (r0, s0) → mac r0 = mac r → is_u32 s →
  ∃ t', record_resighting t i r s = Some t' ∧ inv t' ∧ count t' = count t ∧ t_lock t' = t_lock t
      ∧ base_epoch_sec t' = base_epoch_sec t ∧ max_capacity t' = max_capacity t
      ∧ ∀ j, slot t' j = if decide (j = i) then Some (r, s) else slot t j.
Proof.
  intros [[Hs Hf Hm Hclk] Ht] Hi Hmac Hsec. pose proof (slot_range t i r0 s0 Hs Hi) as Hr.
  destruct (slab_reads t i Hs Hr) as (r1 & s1 & He & Hms & Hsl). rewrite Hi in Hsl.
  destruct (bitmap_bit (active_bitmap t) i) eqn:Hbit; [|done]. injection Hsl as <- <-.
  unfold record_resighting. rewrite Hms. cbn [mbind option_bind].
  rewrite !arr_set_Some by (simpl; rewrite ?(sh_entries t Hs), ?(sh_mono t Hs); lia).
  cbn [mbind option_bind].
  eexists. split; [done|]. match goal with |- inv ?x ∧ _ => set (t' := x) end.
  assert (∀ j, slot t' j = if decide (j = i) then Some (r, s) else slot t j) as Hslot.
  { apply slot_write; simpl; try done; try lia; apply arr_set_Some;
      [rewrite (sh_entries t Hs)|rewrite (sh_mono t Hs)]; lia. }
  assert (shape t') as Hs'.
  { destruct Hs; constructor; try done; simpl; try (by rewrite length_insert). by apply Forall_insert. }
  split; [|done]. constructor; [constructor|].
  - done.
  - destruct Hf as [? ? ? Hfree]. constructor; [done..|]. intros j. simpl. rewrite Hfree, Hslot.
    case_decide; [subst; rewrite Hi; split; intros [_ ?]; done|done].
  - intros h j. simpl. rewrite (Hm h j). setoid_rewrite Hslot. case_decide; [subst|done].
    rewrite Hi. split; intros (r' & s' & [= <- <-] & ->); eexists _, _; (split; [done|congruence]).
  - done.
  - eapply (time_ok_replace t t'); [done|done| | | |exact Ht|].
    + by rewrite Hslot, decide_True.
    + intros j Hne. by rewrite Hslot, decide_False.
    + intros k j. rewrite elem_of_remove. simpl. rewrite (Ht k j). split.
      * intros (Hne & r' & s' & Hj & ->). split; [|by eauto]. intros ->. rewrite Hi in Hj. by injection Hj as <- <-.
      * intros (Hne & r' & s' & Hj & ->). split; [|by eauto]. intros Heq.
        by pose proof (time_key_unique t j i r' s' r0 s0 Hs Hj Hi Heq).
    + done.
Qed.

Lemma new_sighting_spec wide t r s :
  inv t → expanse_map_get (by_mac t) (fnv1a_32 (mac r) 6) = None → free_count t ≠ 0 → is_u32 s →
  ∃ t' i, record_new_sighting wide t (fnv1a_32 (mac r) 6) r s = Some t' ∧ inv t'
      ∧ slot t i = None ∧ 0 <= i < max_capacity t
      ∧ count t' = count t + 1 ∧ t_lock t' = t_lock t ∧ base_epoch_sec t' = base_epoch_sec t
      ∧ max_capacity t' = max_capacity t
      ∧ ∀ j, slot t' j = if decide (j = i) then Some (r, s) else slot t j.
Proof.
  intros [[Hs Hf Hm Hclk] Ht] Hnew Hfc Hsec. destruct Hf as [Hfr Hcnt Hnd Hfree].
  pose proof (sh_cap t Hs). pose proof (sh_free t Hs).
  destruct (arr_get_is_Some (free_indices t) (free_count t - 1)) as [i Hi]; [lia|].
  assert (free_indices t !! Z.to_nat (free_count t - 1) = Some i) as Hi'.
  { unfold arr_get in Hi. by rewrite (proj2 (Z.leb_le 0 _)) in Hi by lia. }
  assert (take (Z.to_nat (free_count t)) (free_indices t)
          = take (Z.to_nat (free_count t - 1)) (free_indices t) ++ [i]) as Htake.
  { replace (Z.to_nat (free_count t)) with (S (Z.to_nat (free_count t - 1))) by lia. by apply take_S_r. }
  rewrite Htake in Hnd, Hfree. apply NoDup_app in Hnd as (Hnd & Hnotin & _).
  assert (0 <= i < max_capacity t ∧ slot t i = None) as [Hr Hnone].
  { apply Hfree, elem_of_app. right. constructor. }
  unfold record_new_sighting. cbv zeta. simpl free_indices. simpl free_count. rewrite Hi. cbn [mbind option_bind].
  rewrite !arr_set_Some by (simpl; rewrite ?(sh_entries t Hs), ?(sh_mono t Hs); lia).
  cbn [mbind option_bind].
  match goal with |- context [set_slot_active ?x i] => set (t0 := x) end.
  assert (shape t0) as Hs0.
  { destruct Hs; constructor; try done; simpl; try (by rewrite length_insert). by apply Forall_insert. }
  destruct (set_slot_active_value t0 i Hs0) as (bm & -> & Hlen & Hbit); [done|]. cbn [mbind option_bind].
  eexists _, i. split; [done|]. match goal with |- inv ?x ∧ _ => set (t' := x) end.
  assert (∀ j, slot t' j = if decide (j = i) then Some (r, s) else slot t j) as Hslot.
  { apply slot_write; simpl; try lia.
    - apply arr_set_Some. rewrite (sh_entries t Hs). lia.
    - apply arr_set_Some. rewrite (sh_mono t Hs). lia.
    - rewrite Hbit by lia. by rewrite decide_True.
    - intros j ? ?. rewrite Hbit by lia. by rewrite decide_False. }
  assert (shape t') as Hs' by (destruct Hs0; constructor; try done; simpl; by rewrite Hlen).
  assert (size_t_of wide (count t + 1) = count t + 1) as Hsz by (apply size_t_small; lia).
  split; [|split_and!; try done; lia]. constructor; [constructor|].
  - done.
  - constructor; simpl; [lia|rewrite Hsz; lia|done|]. intros j. rewrite Hslot.
    specialize (Hfree j). rewrite elem_of_app, list_elem_of_singleton in Hfree. case_decide as Hj.
    + subst. split; [|by intros [_ ?]]. intros Hin. destruct (Hnotin i Hin). constructor.
    + rewrite <- Hfree. tauto.
  - intros h j. simpl. rewrite elem_of_insert, (Hm h j). simpl. setoid_rewrite Hslot. split.
    + intros [[= -> ->]|(Hne & r' & s' & Hj & ->)].
      * exists r, s. by rewrite decide_True.
      * exists r', s'. rewrite decide_False; [done|]. intros ->. congruence.
    + intros (r' & s' & Hj & ->). case_decide as Hd; [subst; left; by injection Hj as <- <-|].
      right. split; [|by eauto]. intros Heq.
      apply get_absent with (v := j) in Hnew. apply Hnew. apply Hm. rewrite <- Heq. by eauto.
  - done.
  - eapply (time_ok_replace t t' (by_time t) i r s); [done|done| | | |exact Ht|done].
    + by rewrite Hslot, decide_True.
    + intros j Hne. by rewrite Hslot, decide_False.
    + intros k j. split; [|by intros [_ ?]]. intros Hk. split; [|done]. intros ->.
      apply Ht in Hk as (r' & s' & Hj & _). congruence.
Qed.

(** *** The clock and the epoch base *)
Lemma unwrap_spec t raw :
  inv t → is_u32 raw →
  let '(t', ms) := unwrap_mono_ms t raw in
  inv t' ∧ is_u64 ms ∧ last_raw_ms t' = raw ∧ t_lock t' = t_lock t ∧ count t' = count t
  ∧ base_epoch_sec t' = base_epoch_sec t ∧ max_capacity t' = max_capacity t
  ∧ free_count t' = free_count t ∧ by_time t' = by_time t ∧ ∀ j, slot t' j = slot t j.
Proof.
  intros [[Hs Hf Hm [Hr Ho]] Ht] Hraw. unfold unwrap_mono_ms.
  repeat case_match; (split; [|split_and!; try done; apply u64_range]);
    (constructor; [constructor|]; [by destruct Hs|by destruct Hf| |split; simpl; auto with words|]);
    first [exact Hm|exact Ht].
Qed.

Lemma rebuild_spec n t i :
  core t → 0 <= i → i + Z.of_nat n = max_capacity t →
  (∀ k j, (k, j) ∈ entries (by_time t)
     ↔ j < i ∧ ∃ r s, slot t j = Some (r, s) ∧ k = make_time_key s (base_epoch_sec t) j) →
  ∃ bt, rebuild_by_time n i t = Some (set_by_time bt t)
      ∧ ∀ k j, (k, j) ∈ entries bt
          ↔ ∃ r s, slot t j = Some (r, s) ∧ k = make_time_key s (base_epoch_sec t) j.
Proof.
  revert t i. induction n as [|n IH]; intros t i Hc Hi Hn Hbt; simpl.
  - exists (by_time t). split; [by destruct t|]. intros k j. rewrite Hbt. split; [tauto|].
    intros (r & s & Hj & ->). split; [|by eauto].
    pose proof (slot_range t j r s (co_shape t Hc) Hj). lia.
  - assert (0 <= i < max_capacity t) as Hr by lia. pose proof (sh_cap t (co_shape t Hc)).
    rewrite (is_slot_active_value t i (co_shape t Hc) Hr). cbn [mbind option_bind].
    destruct (slab_reads t i (co_shape t Hc) Hr) as (r & s & _ & Hs & Hsl).
    destruct (bitmap_bit (active_bitmap t) i); cbn [negb].
    + rewrite Hs. cbn [mbind option_bind]. rewrite (u16_small i) by word_lia.
      set (bt := (expanse_map_insert _ _ _).1).
      destruct (IH (set_by_time bt t) (i + 1)) as (bt' & -> & Hbt').
      * by destruct Hc as [[] [] ? ?].
      * lia.
      * simpl. lia.
      * intros k j. change (slot (set_by_time bt t) j) with (slot t j). simpl.
        unfold bt. rewrite elem_of_insert, Hbt. simpl. split.
        -- intros [[= -> ->]|(Hne & Hlt & Hex)]; [split; [lia|by eauto]|split; [lia|done]].
        -- intros (Hlt & r' & s' & Hj & ->). destruct (decide (j = i)) as [->|Hne].
           ++ left. rewrite Hsl in Hj. by injection Hj as <- <-.
           ++ right. split; [|split; [lia|by eauto]]. intros Heq.
              by pose proof (time_key_unique t j i r' s' r s (co_shape t Hc) Hj Hsl Heq).
      * exists bt'. split; [done|]. exact Hbt'.
    + cbn [mbind option_bind]. apply IH; [done|lia..|]. intros k j. rewrite Hbt. split.
      * intros (Hlt & Hex). split; [lia|done].
      * intros (Hlt & r' & s' & Hj & ->). split; [|by eauto].
        destruct (decide (j = i)) as [->|]; [congruence|lia].
Qed.

Lemma rebase_spec t cur :
  inv t → is_u32 cur → base_epoch_sec t <= cur →
  ∃ t', rebase_epoch_if_needed t cur = Some t' ∧ inv t' ∧ base_epoch_sec t' <= cur < base_epoch_sec t' + 400000
      ∧ t_lock t' = t_lock t ∧ count t' = count t ∧ max_capacity t' = max_capacity t
      ∧ free_count t' = free_count t ∧ by_mac t' = by_mac t ∧ t_entries t' = t_entries t
      ∧ ∀ j, slot t' j = slot t j.
Proof.
  intros [Hc Ht] Hcur Hle. unfold rebase_epoch_if_needed.
  rewrite (proj2 (Z.ltb_ge cur _)) by done. cbv zeta.
  pose proof (sh_base t (co_shape t Hc)) as Hb.
  rewrite u32_small by word_lia. destruct (Z.ltb_spec (cur - base_epoch_sec t) 400000) as [Hlt|Hge].
  { exists t. split_and!; try done; lia. }
  rewrite (u32_small (cur - base_epoch_sec t - 100000)) by word_lia.
  rewrite u32_small by word_lia.
  match goal with |- context [rebuild_by_time _ _ ?x] => set (t0 := x) end.
  assert (core t0) as Hc0.
  { destruct Hc as [[] [] ? ?]. constructor; try done; constructor; try done. simpl. word_lia. }
  pose proof (sh_cap t (co_shape t Hc)).
  destruct (rebuild_spec (Z.to_nat (max_capacity t0)) t0 0 Hc0) as (bt & -> & Hbt); [lia|simpl; lia| |].
  { intros k j. simpl. rewrite entries_clear, elem_of_nil. split; [done|].
    intros (Hj & r & s & Hsl & _). pose proof (slot_range t j r s (co_shape t Hc) Hsl). lia. }
  eexists. split; [done|]. split; [|simpl; split_and!; try done; lia].
  constructor; [by destruct Hc0 as [[] [] ? ?]|exact Hbt].
Qed.

(** *** Expiry *)
Lemma expire_slot_spec wide t i r s :
  core t → slot t i = Some (r, s) →
  ∃ t', expire_slot wide t i = Some t' ∧ core t' ∧ frame t t' ∧ count t' = count t - 1
      ∧ ∀ j, slot t' j = if decide (j = i) then None else slot t j.
Proof.
  intros Hc Hi. pose proof (slot_range t i r s (co_shape t Hc) Hi) as Hr.
  destruct (slab_reads t i (co_shape t Hc) Hr) as (r1 & s1 & He & _ & Hsl).
  rewrite Hi in Hsl. destruct (bitmap_bit (active_bitmap t) i); [|done]. injection Hsl as <- <-.
  unfold expire_slot. rewrite He. cbn [mbind option_bind].
  exact (release_slot wide t i r s Hc Hi).
Qed.

Lemma frame_trans t1 t2 t3 : frame t1 t2 → frame t2 t3 → frame t1 t3.
Proof. unfold frame. intros (?&?&?&?&?&?) (?&?&?&?&?&?). split_and!; congruence. Qed.

Lemma expire_visit (l : assoc) t :
  core t → NoDup l.*2 → (∀ k i, (k, i) ∈ l → ∃ r s, slot t i = Some (r, s)) →
  ∃ t', visit expire_one l (Some t) = Some t' ∧ core t' ∧ frame t t'
      ∧ count t' = count t - Z.of_nat (length l)
      ∧ ∀ j, slot t' j = if decide (j ∈ l.*2) then None else slot t j.
Proof.
  revert t. induction l as [|[k i] l IH]; intros t Hc Hnd Hl; cbn [visit].
  - exists t. split; [done|]. split; [done|]. split; [done|]. split; [simpl; lia|].
    intros j. rewrite decide_False; [done|apply not_elem_of_nil].
  - change (((k, i) :: l).*2) with (i :: l.*2) in *. apply NoDup_cons in Hnd as [Hi Hnd].
    destruct (Hl k i (list_elem_of_here _ _)) as (r & s & Hsl).
    pose proof (slot_range t i r s (co_shape t Hc) Hsl). pose proof (sh_cap t (co_shape t Hc)).
    unfold expire_one at 2. cbn [mbind option_bind]. rewrite (u16_small i) by word_lia.
    destruct (expire_slot_spec false t i r s Hc Hsl) as (t1 & -> & Hc1 & Hf1 & Hn1 & Hs1).
    destruct (IH t1 Hc1 Hnd) as (t2 & He2 & Hc2 & Hf2 & Hn2 & Hs2).
    { intros k' i' Hin. rewrite Hs1, decide_False; [apply (Hl k'); by constructor|].
      intros ->. apply Hi. by apply (list_elem_of_fmap_2 snd) in Hin. }
    exists t2. split_and!; [done|done|by eapply frame_trans|cbn [length]; lia|].
    intros j. rewrite Hs2, Hs1. rewrite (decide_ext (j ∈ i :: l.*2) (j = i ∨ j ∈ l.*2) None (slot t j))
      by apply elem_of_cons.
    destruct (decide (j ∈ l.*2)), (decide (j = i)), (decide (j = i ∨ j ∈ l.*2)); tauto.
Qed.

(** A record is stale for a cutoff when its whole second is. *)
Definition stale (base cutoff_sec s : Z) : Prop := rel_sec s base <= rel_sec cutoff_sec base.
#[local] Instance stale_dec base c s : Decision (stale base c s).
Proof. unfold stale. apply _. Defined.

Lemma time_range t c k i :
  inv t → is_u32 c →
  (k, i) ∈ sl_range 0 (max_time_key_of t c) (entries (by_time t))
  ↔ ∃ r s, slot t i = Some (r, s) ∧ k = make_time_key s (base_epoch_sec t) i ∧ stale (base_epoch_sec t) c s.
Proof.
  intros [Hc Ht] Hcut. pose proof (co_shape t Hc) as Hs. pose proof (sh_base t Hs) as Hb.
  pose proof (sh_cap t Hs). rewrite elem_of_sl_range, (Ht k i), max_time_key_spec by done. simpl.
  unfold stale. pose proof (rel_sec_range c (base_epoch_sec t)). split.
  - intros (Hk & r & s & Hi & ->). exists r, s. split_and!; [done..|].
    pose proof (slot_range t i r s Hs Hi). rewrite make_time_key_spec in Hk by eauto using slot_secs with lia.
    pose proof (rel_sec_range s (base_epoch_sec t)). lia.
  - intros (r & s & Hi & -> & Hst). split; [|by eauto]. pose proof (slot_range t i r s Hs Hi).
    rewrite make_time_key_spec by eauto using slot_secs with lia.
    pose proof (rel_sec_range s (base_epoch_sec t)). lia.
Qed.

(** The slots after an expiry: the stale ones are gone. *)
Definition expired_slots t t' c : Prop :=
  ∀ j, slot t' j = match slot t j with
                   | Some (r, s) => if decide (stale (base_epoch_sec t) c s) then None else Some (r, s)
                   | None => None
                   end.

(** The fields an expiry does not touch. *)
Definition kept t t' : Prop :=
  t_lock t' = t_lock t ∧ max_capacity t' = max_capacity t ∧ base_epoch_sec t' = base_epoch_sec t.

Lemma expire_narrow t c :
  inv t → is_u32 c →
  let '(bt, ctx, n) :=
    expanse_map_remove_range (by_time t) 0 (max_time_key_of t c) expire_one (Some t) in
  ∃ t1, ctx = Some t1 ∧ inv (set_by_time bt t1) ∧ n = count t - count t1
      ∧ kept t t1 ∧ expired_slots t t1 c.
Proof.
  intros Hinv Hcut. pose proof (time_range t c) as Hrange. destruct Hinv as [Hc Ht].
  set (l := sl_range 0 (max_time_key_of t c) (entries (by_time t))).
  assert (sorted l) as Hsl by (unfold l; auto with assoc).
  assert (∀ k i, (k, i) ∈ l ↔ ∃ r s, slot t i = Some (r, s) ∧
            k = make_time_key s (base_epoch_sec t) i ∧ stale (base_epoch_sec t) c s) as Hl by (intros; by apply Hrange).
  destruct (expire_visit l t Hc) as (t1 & Hv & Hc1 & Hf1 & Hn1 & Hs1).
  { apply NoDup_snd; [done|]. intros k k' i (r & s & Hi & -> & _)%Hl (r' & s' & Hi' & -> & _)%Hl. congruence. }
  { intros k i (r & s & Hi & _)%Hl. by eauto. }
  pose proof (remove_range_visits _ (by_time t) 0 (max_time_key_of t c) expire_one (Some t)) as Hctx.
  pose proof (entries_remove_range _ (by_time t) 0 (max_time_key_of t c) expire_one (Some t)) as Hbt.
  pose proof (remove_range_count _ (by_time t) 0 (max_time_key_of t c) expire_one (Some t)) as Hn.
  destruct (expanse_map_remove_range _ _ _ _ _) as [[bt ctx] n]. simpl in *. fold l in Hctx, Hn.
  rewrite Hv in Hctx. exists t1. split; [done|].
  assert (expired_slots t t1 c) as Hexp.
  { intros j. rewrite Hs1. destruct (slot t j) as [[r s]|] eqn:Hj.
    - destruct (decide (stale (base_epoch_sec t) c s)) as [Hst|Hst].
      + rewrite decide_True; [done|]. apply list_elem_of_fmap.
        exists (make_time_key s (base_epoch_sec t) j, j). split; [done|]. apply Hl. by eauto.
      + rewrite decide_False; [done|]. intros ([k i] & -> & (r' & s' & Hi & _ & Hst')%Hl)%list_elem_of_fmap.
        simpl in *. rewrite Hi in Hj. by injection Hj as -> ->.
    - by case_decide. }
  destruct Hf1 as (_ & Hbase & Hlock & Hmax & _). split_and!; [|lia|done..]. constructor.
  - by destruct Hc1 as [[] [] ? ?].
  - intros k j. change (slot (set_by_time bt t1) j) with (slot t1 j). simpl.
    rewrite Hbt, elem_of_sl_outside, Hbase, Hexp. rewrite (Ht k j). split.
    + intros (Hout & r & s & Hj & ->). rewrite Hj. rewrite decide_False; [by eauto|]. intros Hst.
      assert ((make_time_key s (base_epoch_sec t) j, j) ∈ l) as [Hin _]%elem_of_sl_range by (apply Hl; by eauto).
      simpl in *. tauto.
    + intros (r & s & Hj & ->). destruct (slot t j) as [[r' s']|] eqn:Hj'; [|done].
      destruct (decide (stale (base_epoch_sec t) c s')) as [|Hst]; [done|]. injection Hj as -> ->. split; [|by eauto].
      intros Hin. assert ((make_time_key s (base_epoch_sec t) j, j) ∈ l) as (r2 & s2 & Hi2 & _ & Hst2)%Hl.
      { apply elem_of_sl_range. split; [done|]. apply Ht. by eauto. }
      rewrite Hi2 in Hj'. by injection Hj' as -> ->.
Qed.

Lemma time_keys_nonneg t e : inv t → e ∈ entries (by_time t) → 0 <= e.1.
Proof.
  intros [Hc Ht]. destruct e as [k i]. intros (r & s & Hi & ->)%Ht. simpl.
  pose proof (co_shape t Hc) as Hs. pose proof (slot_range t i r s Hs Hi). pose proof (sh_cap t Hs).
  rewrite make_time_key_spec by (eauto using slot_secs || apply (sh_base t Hs) || lia).
  pose proof (rel_sec_range s (base_epoch_sec t)). lia.
Qed.

(** One round of the 64-bit loop: the oldest entry leaves both indices. *)
Lemma expire_round t k i :
  inv t → (k, i) ∈ entries (by_time t) →
  ∃ r s t', slot t i = Some (r, s) ∧ k = make_time_key s (base_epoch_sec t) i
      ∧ expire_slot true (set_by_time (expanse_map_remove (by_time t) k).1 t) (u16 i) = Some t'
      ∧ inv t' ∧ count t' = count t - 1 ∧ kept t t'
      ∧ by_time t' = (expanse_map_remove (by_time t) k).1
      ∧ ∀ j, slot t' j = if decide (j = i) then None else slot t j.
Proof.
  intros [Hc Ht] Hki. pose proof (proj1 (Ht k i) Hki) as (r & s & Hi & Hk).
  pose proof (co_shape t Hc) as Hs. pose proof (slot_range t i r s Hs Hi). pose proof (sh_cap t Hs).
  set (t0 := set_by_time _ t).
  destruct (expire_slot_spec true t0 i r s) as (t1 & He & Hc1 & (Hby & Hbase & Hlock & Hmax & _) & Hn & Hsl).
  { by destruct Hc as [[] [] ? ?]. } { done. }
  rewrite u16_small by word_lia. exists r, s, t1. split_and!; try done. constructor; [done|].
  intros k' j. rewrite Hby, Hbase, Hsl. simpl. rewrite elem_of_remove. simpl. rewrite (Ht k' j).
  change (slot t0 j) with (slot t j). split.
  - intros (Hne & r' & s' & Hj & ->). rewrite decide_False; [by eauto|]. intros ->.
    rewrite Hi in Hj. by injection Hj as <- <-.
  - intros (r' & s' & Hj & ->). case_decide as Hd; [done|]. split; [|by eauto]. intros Heq. subst k.
    by pose proof (time_key_unique t j i r' s' r s Hs Hj Hi Heq).
Qed.

Lemma expire_wide fuel t c n :
  inv t → is_u32 c →
  (length (sl_range 0 (max_time_key_of t c) (entries (by_time t))) < fuel)%nat →
  ∃ t', expire_loop fuel t (max_time_key_of t c) n = Some (t', n + (count t - count t'))
      ∧ inv t' ∧ kept t t' ∧ expired_slots t t' c.
Proof.
  revert t n. induction fuel as [|fuel IH]; intros t n Hinv Hcut Hlen; [lia|].
  assert (∀ mx, mx = max_time_key_of t c →
    (∀ e, e ∈ entries (by_time t) → mx < e.1) →
    ∃ t', Some (t, n) = Some (t', n + (count t - count t'))
      ∧ inv t' ∧ kept t t' ∧ expired_slots t t' c) as Hstop.
  { intros mx -> Hgt. exists t. split_and!; [do 2 f_equal; lia|done|done|]. intros j.
    destruct (slot t j) as [[r s]|] eqn:Hj; [|done]. rewrite decide_False; [done|]. intros Hst.
    assert ((make_time_key s (base_epoch_sec t) j, j)
            ∈ sl_range 0 (max_time_key_of t c) (entries (by_time t))) as [Hr He]%elem_of_sl_range
      by (apply time_range; [done..|by eauto]).
    specialize (Hgt _ He). lia. }
  assert (sl_from 0 (entries (by_time t)) = entries (by_time t)) as Hfrom
    by (apply list_filter_all; intros e; by apply time_keys_nonneg).
  simpl. rewrite first_spec, <- Hfrom.
  destruct (head (sl_from 0 (entries (by_time t)))) as [[k i]|] eqn:Hh.
  2:{ eapply Hstop; [done|]. intros e He. pose proof (head_from_None _ _ Hh e He).
      pose proof (time_keys_nonneg t e Hinv He). lia. }
  pose proof Hh as (Hki & _ & Hmin)%head_from_Some; [|auto with assoc].
  rewrite Z.gtb_ltb. destruct (Z.ltb_spec (max_time_key_of t c) k) as [Hk|Hk].
  { eapply Hstop; [done|]. intros e He. specialize (Hmin e He (time_keys_nonneg t e Hinv He)). lia. }
  rewrite (range_head_delete _ _ _ k i) in Hlen by auto with assoc. simpl in Hlen.
  destruct (expire_round t k i Hinv Hki) as (r & s & t1 & Hi & Hkey & -> & Hinv1 & Hn1 & (Hl1 & Hm1 & Hb1) & Hbt1 & Hs1).
  cbn [mbind option_bind].
  assert (max_time_key_of t1 c = max_time_key_of t c) as Hmx by (unfold max_time_key_of; by rewrite Hb1).
  destruct (IH t1 (n + 1) Hinv1 Hcut) as (t' & He' & Hinv' & (Hl' & Hm' & Hb') & Hexp).
  { rewrite Hmx, Hbt1, entries_remove. lia. }
  rewrite Hmx in He'. exists t'. split_and!; [|done|split_and!; congruence|].
  - rewrite He'. do 2 f_equal. lia.
  - intros j. rewrite Hexp, Hs1, Hb1. destruct (decide (j = i)) as [->|]; [|done].
    rewrite Hi. rewrite decide_True; [done|].
    assert ((k, i) ∈ sl_range 0 (max_time_key_of t c) (entries (by_time t))) as Hin.
    { apply elem_of_sl_range. split; [|done]. pose proof (time_keys_nonneg t (k, i) Hinv Hki). simpl in *. lia. }
    apply (time_range t c k i Hinv Hcut) in Hin as (r' & s' & Hi' & _ & Hst). rewrite Hi in Hi'.
    by injection Hi' as <- <-.
Qed.

(** *** The public calls *)
(** The monotonic second a call stamped [raw] ms works at. *)
Definition mono_now t (raw : Z) : Z := u32 ((unwrap_mono_ms t raw).2 / 1000).

(** A record is tracked with the second of its last sighting. *)
Definition tracks t (r : ble_record) (s : Z) : Prop := ∃ i, slot t i = Some (r, s).

Lemma mono_now_lock l t raw : mono_now (set_t_lock l t) raw = mono_now t raw.
Proof. unfold mono_now, unwrap_mono_ms. simpl. by repeat case_match. Qed.
Lemma mono_now_range t raw : is_u32 (mono_now t raw).
Proof. apply u32_range. Qed.
Lemma core_lock l t : core t → core (set_t_lock l t).
Proof. by intros [[] [] ? ?]. Qed.
Lemma inv_lock l t : inv t → inv (set_t_lock l t).
Proof. intros [? Ht]. constructor; [by apply core_lock|exact Ht]. Qed.
Lemma unlock_balance t t' : t_lock t' = LOCK_TAKE (t_lock t) → t_lock (unlock t') = t_lock t.
Proof. intros Hl. simpl. by rewrite Hl, LOCK_balance. Qed.

Lemma tracks_same t t' : (∀ j, slot t' j = slot t j) → ∀ r s, tracks t' r s ↔ tracks t r s.
Proof. intros Hs r s. unfold tracks. by setoid_rewrite Hs. Qed.
Lemma tracks_hash t i r s r' s' :
  core t → slot t i = Some (r, s) → tracks t r' s' → fnv1a_32 (mac r') 6 = fnv1a_32 (mac r) 6 →
  r' = r ∧ s' = s.
Proof.
  intros Hc Hi [j Hj] Heq. rewrite (hash_unique t j i r' s' r s (co_mac t Hc) Hj Hi Heq), Hi in Hj.
  by injection Hj as <- <-.
Qed.
Lemma hash_absent t h :
  core t → expanse_map_get (by_mac t) h = None → ∀ r s, tracks t r s → fnv1a_32 (mac r) 6 ≠ h.
Proof.
  intros Hc Hg r s [i Hi] Heq. apply get_absent with (v := i) in Hg. apply Hg, (co_mac t Hc). by eauto.
Qed.
Lemma not_full t : core t → free_count t = 0 ↔ count t = max_capacity t.
Proof. intros Hc. destruct (co_free t Hc). lia. Qed.

(** Writing [(r, s)] into slot [i], whose other content (if any) has the same MAC. *)
Lemma tracks_write t t' i r s :
  core t → (∀ j, slot t' j = if decide (j = i) then Some (r, s) else slot t j) →
  (∀ r' s', tracks t r' s' → mac r' = mac r → slot t i = Some (r', s')) →
  (∀ r' s', slot t i = Some (r', s') → mac r' = mac r) →
  ∀ r' s', tracks t' r' s' ↔ (r' = r ∧ s' = s) ∨ (tracks t r' s' ∧ mac r' ≠ mac r).
Proof.
  intros Hc Hs Hu Hm r' s'. unfold tracks at 1. setoid_rewrite Hs. split.
  - intros [j Hj]. case_decide as Hd; [left; by injection Hj as <- <-|]. right. split; [by exists j|].
    intros Hmac. pose proof (Hu r' s' (ex_intro _ j Hj) Hmac) as Hi.
    by destruct Hd; apply (hash_unique t j i r' s' r' s' (co_mac t Hc)).
  - intros [[-> ->]|[[j Hj] Hne]]; [exists i; by rewrite decide_True|].
    exists j. rewrite decide_False; [done|]. intros ->. by apply Hne, (Hm r' s').
Qed.

Lemma record_prologue t raw :
  inv t → is_u32 raw → base_epoch_sec t <= mono_now t raw →
  ∃ t1 t2, unwrap_mono_ms (take_lock t) raw = (t1, (unwrap_mono_ms t raw).2)
      ∧ rebase_epoch_if_needed t1 (mono_now t raw) = Some t2 ∧ inv t2
      ∧ t_lock t2 = LOCK_TAKE (t_lock t) ∧ count t2 = count t ∧ max_capacity t2 = max_capacity t
      ∧ base_epoch_sec t2 <= mono_now t raw ∧ (∀ j, slot t2 j = slot t j).
Proof.
  intros Hinv Hraw Hle. pose proof (unwrap_spec (take_lock t) raw (inv_lock _ t Hinv) Hraw) as Hu.
  pose proof (mono_now_lock (LOCK_TAKE (t_lock t)) t raw) as Hnow.
  assert ((unwrap_mono_ms (take_lock t) raw).2 = (unwrap_mono_ms t raw).2) as Hms
    by (unfold unwrap_mono_ms; simpl; by repeat case_match).
  destruct (unwrap_mono_ms (take_lock t) raw) as [t1 ms]. simpl in Hms. subst ms.
  destruct Hu as (Hinv1 & _ & _ & Hl1 & Hc1 & Hb1 & Hm1 & _ & _ & Hs1).
  destruct (rebase_spec t1 (mono_now t raw)) as (t2 & Hr2 & Hinv2 & Hb2 & Hl2 & Hc2 & Hm2 & _ & _ & _ & Hs2);
    [done|apply mono_now_range|rewrite Hb1; exact Hle|].
  exists t1, t2. split_and!; try done.
  - rewrite Hl2, Hl1. done.
  - rewrite Hc2, Hc1. done.
  - rewrite Hm2, Hm1. done.
  - lia.
  - intros j. rewrite Hs2, Hs1. done.
Qed.

Abbreviation hash r := (fnv1a_32 (mac r) 6).

(** What a sighting [r] at second [s] does, by return code. *)
Definition record_post t (r : ble_record) (s : Z) t' (rc : Z) : Prop :=
  let same := count t' = count t ∧ ∀ r' s', tracks t' r' s' ↔ tracks t r' s' in
  let fresh := ∀ r0 s0, tracks t r0 s0 → hash r0 ≠ hash r in
  (rc = EXPANSE_BLE_OK
   ∧ (∀ r' s', tracks t' r' s' ↔ (r' = r ∧ s' = s) ∨ (tracks t r' s' ∧ mac r' ≠ mac r))
   ∧ ((∃ r0 s0, tracks t r0 s0 ∧ mac r0 = mac r) ∧ count t' = count t
      ∨ fresh ∧ count t < max_capacity t ∧ count t' = count t + 1))
  ∨ (rc = EXPANSE_BLE_ERR_COLLISION
     ∧ (∃ r0 s0, tracks t r0 s0 ∧ mac r0 ≠ mac r ∧ hash r0 = hash r) ∧ same)
  ∨ (rc = EXPANSE_BLE_ERR_NOMEM ∧ fresh ∧ count t = max_capacity t ∧ same).

(** The branches of a sighting, from the state after the clock and epoch update. *)
Definition record_body (wide : bool) t (r : ble_record) (s : Z) : option (option (tracker M) * Z) :=
  match expanse_map_get (by_mac t) (hash r) with
  | Some existing_idx =>
      e ← arr_get (t_entries t) (u16 existing_idx);
      if negb (bool_decide (mac e = mac r)) then Some (Some (unlock t), EXPANSE_BLE_ERR_COLLISION)
      else t ← record_resighting t (u16 existing_idx) r s; Some (Some (unlock t), EXPANSE_BLE_OK)
  | None =>
      if free_count t =? 0 then Some (Some (unlock t), EXPANSE_BLE_ERR_NOMEM)
      else t ← record_new_sighting wide t (hash r) r s; Some (Some (unlock t), EXPANSE_BLE_OK)
  end.

Lemma live_slot_reads t i r s :
  shape t → slot t i = Some (r, s) →
  0 <= i < max_capacity t ∧ u16 i = i ∧ arr_get (t_entries t) i = Some r
  ∧ arr_get (mono_last_seen_sec t) i = Some s ∧ is_slot_active t i = Some true.
Proof.
  intros Hs Hi. pose proof (slot_range t i r s Hs Hi) as Hr. pose proof (sh_cap t Hs).
  destruct (slab_reads t i Hs Hr) as (r1 & s1 & He & Hm & Hsl).
  rewrite (is_slot_active_value t i Hs Hr). rewrite Hi in Hsl.
  destruct (bitmap_bit (active_bitmap t) i); [|done]. injection Hsl as <- <-.
  split_and!; try done; try lia. apply u16_small. word_lia.
Qed.

Lemma record_body_spec wide t r s :
  inv t → is_u32 s →
  ∃ t' rc, record_body wide t r s = Some (Some t', rc) ∧ inv t' ∧ max_capacity t' = max_capacity t
      ∧ base_epoch_sec t' = base_epoch_sec t
      ∧ t_lock t' = LOCK_GIVE (t_lock t) ∧ record_post t r s t' rc.
Proof.
  intros Hinv Hs. pose proof (in_core t Hinv) as Hc. pose proof (co_shape t Hc) as Hsh.
  unfold record_body, record_post. destruct (expanse_map_get _ _) as [i|] eqn:Hg.
  - apply (mac_index_slot t _ _ Hc) in Hg as (r0 & s0 & Hi & Hh).
    destruct (live_slot_reads t i r0 s0 Hsh Hi) as (Hr & -> & -> & _). cbn [mbind option_bind].
    case_bool_decide as Hmac; cbn [negb].
    + destruct (resighting_spec t i r0 s0 r s Hinv Hi Hmac Hs) as (t' & -> & Hinv' & Hn & Hl & Hb & Hm & Hsl).
      eexists (unlock t'), _. split; [done|]. split; [by apply inv_lock|].
      split; [done|split; [done|split; [by rewrite <- Hl|left]]].
      split; [done|]. split; [|left; split; [exists r0, s0; split; [by exists i|done]|done]].
      apply (tracks_write t t' i r s Hc Hsl).
      * intros r' s' Ht Hm'. destruct (tracks_hash t i r0 s0 r' s' Hc Hi Ht) as [-> ->]; [congruence|done].
      * intros r' s'. rewrite Hi. by intros [= <- <-].
    + eexists (unlock t), _. split; [done|]. split; [by apply inv_lock|]. split_and!; try done.
      right; left. split; [done|]. split; [|done]. exists r0, s0. split; [by exists i|]. done.
  - pose proof (hash_absent t _ Hc Hg) as Hfresh. destruct (Z.eqb_spec (free_count t) 0) as [Hz|Hnz].
    + eexists (unlock t), _. split; [done|]. split; [by apply inv_lock|]. split_and!; try done.
      right; right. split_and!; try done. by apply not_full.
    + destruct (new_sighting_spec wide t r s Hinv Hg Hnz Hs)
        as (t' & i & -> & Hinv' & Hnone & Hr & Hn & Hl & Hb & Hm & Hsl).
      eexists (unlock t'), _. split; [done|]. split; [by apply inv_lock|].
      split; [done|split; [done|split; [by rewrite <- Hl|left]]].
      split; [done|]. split; [|right; split_and!; [done| |done]].
      * apply (tracks_write t t' i r s Hc Hsl).
        -- intros r' s' Ht Hm'. destruct (Hfresh r' s' Ht). congruence.
        -- intros r' s'. congruence.
      * pose proof (not_full t Hc). destruct (co_free t Hc). lia.
Qed.

Lemma record_post_ext t0 t r s t' rc :
  (∀ j, slot t j = slot t0 j) → count t = count t0 → max_capacity t = max_capacity t0 →
  record_post t r s t' rc → record_post t0 r s t' rc.
Proof.
  intros Hs Hn Hm. assert (∀ r s, tracks t r s ↔ tracks t0 r s) as Ht by (by apply tracks_same).
  unfold record_post. rewrite Hn, Hm. setoid_rewrite Ht. done.
Qed.

Lemma record_step wide t r :
  inv t → is_u32 (last_seen_ms r) → base_epoch_sec t <= mono_now t (last_seen_ms r) →
  ∃ t' rc, expanse_ble_tracker_record wide (Some t) (Some r) = Some (Some t', rc)
      ∧ inv t' ∧ t_lock t' = t_lock t ∧ max_capacity t' = max_capacity t
      ∧ base_epoch_sec t' <= mono_now t (last_seen_ms r)
      ∧ record_post t r (mono_now t (last_seen_ms r)) t' rc.
Proof.
  intros Hinv Hraw Hle.
  destruct (record_prologue t _ Hinv Hraw Hle) as (t1 & t2 & Hu & Hr & Hinv2 & Hl & Hn & Hm & Hb & Hs).
  destruct (record_body_spec wide t2 r (mono_now t (last_seen_ms r)) Hinv2 (mono_now_range _ _))
    as (t' & rc & He & Hinv' & Hm' & Hb' & Hl' & Hp).
  exists t', rc. split.
  - unfold expanse_ble_tracker_record. rewrite Hu. fold (mono_now t (last_seen_ms r)). rewrite Hr. exact He.
  - split_and!; [done|by rewrite Hl', Hl, LOCK_balance|congruence|lia|].
    by apply (record_post_ext t t2).
Qed.

Lemma take_unlock t : unlock (take_lock t) = t.
Proof. destruct t. unfold unlock, take_lock, set_t_lock. simpl. by rewrite LOCK_balance. Qed.

(** What a lookup of [m] answers. *)
Lemma get_step t m out :
  inv t →
  ∃ b out', expanse_ble_tracker_get (Some t) (Some m) out = Some (b, Some t, out')
    ∧ ((b = true ∧ ∃ r s, tracks t r s ∧ mac r = m ∧ out' = (λ _, r) <$> out)
       ∨ (b = false ∧ (∀ r s, tracks t r s → mac r ≠ m) ∧ out' = out)).
Proof.
  intros Hinv. pose proof (in_core t Hinv) as Hc. pose proof (co_shape t Hc) as Hsh.
  unfold expanse_ble_tracker_get. change (by_mac (take_lock t)) with (by_mac t).
  change (t_entries (take_lock t)) with (t_entries t). rewrite take_unlock.
  destruct (expanse_map_get (by_mac t) (fnv1a_32 m 6)) as [i|] eqn:Hg.
  - apply (mac_index_slot t _ _ Hc) in Hg as (r0 & s0 & Hi & Hh).
    destruct (live_slot_reads t i r0 s0 Hsh Hi) as (Hr & -> & He & _ & Ha).
    change (is_slot_active (take_lock t) i) with (is_slot_active t i). rewrite Ha. cbn [mbind option_bind negb].
    rewrite He. cbn [mbind option_bind]. case_bool_decide as Hmac; cbn [negb].
    + eexists true, _. split; [done|]. left. split; [done|]. exists r0, s0. split; [by exists i|].
      split; [done|by destruct out].
    + eexists false, _. split; [done|]. right. split; [done|]. split; [|done]. intros r s Ht Heq.
      apply Hmac. destruct (tracks_hash t i r0 s0 r s Hc Hi Ht) as [-> _]; [congruence|done].
  - eexists false, _. split; [done|]. right. split; [done|]. split; [|done]. intros r s Ht <-.
    by apply (hash_absent t _ Hc Hg r s Ht).
Qed.

(** Dropping slot [i] from the slab, the MAC index and the time index. *)
Lemma remove_slot wide t i r s :
  inv t → slot t i = Some (r, s) →
  ∃ t', (t1 ← clear_slot_active
               (set_by_time (expanse_map_remove (by_time t) (make_time_key s (base_epoch_sec t) i)).1
                  (set_by_mac (expanse_map_remove (by_mac t) (hash r)).1 t)) i;
         t2 ← push_free t1 i; Some (count_down wide t2)) = Some t'
      ∧ inv t' ∧ count t' = count t - 1 ∧ t_lock t' = t_lock t ∧ max_capacity t' = max_capacity t
      ∧ base_epoch_sec t' = base_epoch_sec t
      ∧ ∀ j, slot t' j = if decide (j = i) then None else slot t j.
Proof.
  intros [Hc Ht] Hi. pose proof (co_shape t Hc) as Hs.
  set (t0 := set_by_time (expanse_map_remove (by_time t) (make_time_key s (base_epoch_sec t) i)).1 t).
  destruct (release_slot wide t0 i r s) as (t' & He & Hc' & (Hby & Hb & Hl & Hm & _) & Hn & Hsl).
  { by destruct Hc as [[] [] ? ?]. } { done. }
  exists t'. split; [exact He|]. split_and!; try done. constructor; [done|].
  intros k j. rewrite Hby, Hb, Hsl. simpl. rewrite elem_of_remove. simpl. rewrite (Ht k j).
  change (slot t0 j) with (slot t j). split.
  - intros (Hne & r' & s' & Hj & ->). rewrite decide_False; [by eauto|]. intros ->.
    rewrite Hi in Hj. by injection Hj as <- <-.
  - intros (r' & s' & Hj & ->). case_decide as Hd; [done|]. split; [|by eauto]. intros Heq.
    by pose proof (time_key_unique t j i r' s' r s Hs Hj Hi Heq).
Qed.

Lemma tracks_drop t t' i r s :
  core t → slot t i = Some (r, s) → (∀ j, slot t' j = if decide (j = i) then None else slot t j) →
  ∀ r' s', tracks t' r' s' ↔ tracks t r' s' ∧ mac r' ≠ mac r.
Proof.
  intros Hc Hi Hs r' s'. unfold tracks at 1. setoid_rewrite Hs. split.
  - intros [j Hj]. case_decide as Hd; [done|]. split; [by exists j|]. intros Heq. apply Hd.
    apply (hash_unique t j i r' s' r s (co_mac t Hc) Hj Hi). by rewrite Heq.
  - intros [[j Hj] Hne]. exists j. rewrite decide_False; [done|]. intros ->. rewrite Hi in Hj.
    by injection Hj as <- <-.
Qed.

(** What a removal of [m] does. *)
Definition remove_post t (m : list Z) (out : option ble_record) (b : bool) t' (out' : option ble_record) : Prop :=
  inv t' ∧ t_lock t' = t_lock t ∧ max_capacity t' = max_capacity t
    ∧ base_epoch_sec t' = base_epoch_sec t
    ∧ (∀ r s, tracks t' r s ↔ tracks t r s ∧ mac r ≠ m)
    ∧ ((b = true ∧ (∃ r s, tracks t r s ∧ mac r = m ∧ out' = (λ _, r) <$> out) ∧ count t' = count t - 1)
       ∨ (b = false ∧ (∀ r s, tracks t r s → mac r ≠ m) ∧ out' = out ∧ t' = t)).

Lemma remove_step wide t m out :
  inv t →
  ∃ b t' out', expanse_ble_tracker_remove wide (Some t) (Some m) out = Some (b, Some t', out')
    ∧ remove_post t m out b t' out'.
Proof.
  intros Hinv. pose proof (in_core t Hinv) as Hc. pose proof (co_shape t Hc) as Hsh.
  unfold expanse_ble_tracker_remove. change (by_mac (take_lock t)) with (by_mac t).
  change (t_entries (take_lock t)) with (t_entries t). rewrite take_unlock.
  assert ((∀ r s, tracks t r s → mac r ≠ m) →
    ∃ b t' out', Some (false, Some t, out) = Some (b, Some t', out')
    ∧ remove_post t m out b t' out') as Hmiss.
  { intros Hno. exists false, t, out. unfold remove_post. split_and!; try done; [|by right].
    intros r s. split; [|by intros [? _]]. intros Ht. split; [done|by apply (Hno r s)]. }
  destruct (expanse_map_get (by_mac t) (fnv1a_32 m 6)) as [i|] eqn:Hg.
  - apply (mac_index_slot t _ _ Hc) in Hg as (r0 & s0 & Hi & Hh).
    destruct (live_slot_reads t i r0 s0 Hsh Hi) as (Hr & -> & He & Hsec & Ha).
    change (is_slot_active (take_lock t) i) with (is_slot_active t i). rewrite Ha. cbn [mbind option_bind negb].
    rewrite He. cbn [mbind option_bind]. case_bool_decide as Hmac; cbn [negb].
    + subst m. change (mono_last_seen_sec (take_lock t)) with (mono_last_seen_sec t). rewrite Hsec.
      cbn [mbind option_bind].
      destruct (remove_slot wide (take_lock t) i r0 s0 (inv_lock _ _ Hinv) Hi)
        as (t' & Heq & Hinv' & Hn & Hl & Hm & Hb & Hsl).
      cbn [mbind option_bind] in Heq.
      change (base_epoch_sec (take_lock t)) with (base_epoch_sec t) in *.
      destruct (clear_slot_active _ i) as [t1|]; [|done]. cbn [mbind option_bind] in *.
      destruct (push_free t1 i) as [t2|]; [|done]. apply (inj Some) in Heq. cbn [mbind option_bind]. rewrite Heq.
      eexists true, (unlock t'), _. split; [done|]. split; [by apply inv_lock|].
      split; [by apply unlock_balance|]. split_and!; try done.
      * exact (tracks_drop t t' i r0 s0 Hc Hi Hsl).
      * left. split; [done|]. split; [|done]. exists r0, s0. split; [by exists i|]. split; [done|by destruct out].
    + apply Hmiss. intros r s Ht Heq. apply Hmac.
      destruct (tracks_hash t i r0 s0 r s Hc Hi Ht) as [-> _]; [congruence|done].
  - apply Hmiss. intros r s Ht <-. by apply (hash_absent t _ Hc Hg r s Ht).
Qed.

Lemma max_time_key_lock t t1 c : base_epoch_sec t1 = base_epoch_sec t → max_time_key_of t1 c = max_time_key_of t c.
Proof. intros Hb. unfold max_time_key_of. by rewrite Hb. Qed.

Lemma expired_tracks t t' c :
  expired_slots t t' c →
  ∀ r s, tracks t' r s ↔ tracks t r s ∧ ¬ stale (base_epoch_sec t) c s.
Proof.
  intros He r s. unfold tracks. setoid_rewrite He. split.
  - intros [j Hj]. destruct (slot t j) as [[r' s']|] eqn:Hs; [|done]. case_decide; [done|].
    injection Hj as -> ->. by eauto.
  - intros [[j Hj] Hst]. exists j. rewrite Hj. by rewrite decide_False.
Qed.

Lemma len_fuel t c :
  (length (sl_range 0 (max_time_key_of t c) (entries (by_time t)))
   < S (Z.to_nat (expanse_map_len (by_time t))))%nat.
Proof.
  rewrite len_spec. unfold sl_range. pose proof (length_filter (λ e, 0 <= e.1 <= max_time_key_of t c) (entries (by_time t))).
  lia.
Qed.

(** What an expiry at second [c] does; [n] is the count it returns. *)
Definition expire_post t (c n : Z) t' : Prop :=
  inv t' ∧ t_lock t' = t_lock t ∧ max_capacity t' = max_capacity t
  ∧ base_epoch_sec t' = base_epoch_sec t ∧ n = count t - count t'
  ∧ expired_slots t t' c.

Lemma expire_step wide t cutoff :
  inv t → is_u32 cutoff →
  ∃ t' n, expanse_ble_tracker_expire_stale wide (Some t) cutoff = Some (n, Some t')
      ∧ expire_post t (mono_now t cutoff) n t'.
Proof.
  intros Hinv Hcut. unfold expanse_ble_tracker_expire_stale.
  change (count (take_lock t)) with (count t). destruct (Z.eqb_spec (count t) 0) as [Hz|Hnz].
  { rewrite take_unlock. exists t, 0. split; [done|]. split_and!; try done; [lia|]. intros i.
    destruct (slot t i) as [[r s]|] eqn:Hi; [|done].
    pose proof (live_count_pos t i r s (in_core t Hinv) Hi). lia. }
  pose proof (unwrap_spec (take_lock t) cutoff (inv_lock _ t Hinv) Hcut) as Hu.
  pose proof (mono_now_lock (LOCK_TAKE (t_lock t)) t cutoff) as Hnow. unfold mono_now at 1 in Hnow.
  fold (take_lock t) in Hnow.
  destruct (unwrap_mono_ms (take_lock t) cutoff) as [t1 ms]. simpl in Hnow. rewrite Hnow.
  destruct Hu as (Hinv1 & _ & _ & Hl1 & Hc1 & Hb1 & Hm1 & _ & _ & Hs1).
  set (c := mono_now t cutoff) in *. assert (is_u32 c) as Hc by apply mono_now_range.
  assert (∀ t' n, inv t' → kept t1 t' → n = count t1 - count t' → expired_slots t1 t' c →
    expire_post t c n (unlock t')) as Hpost.
  { intros t' n Hi (Hl & Hm & Hb) -> He. split; [by apply inv_lock|].
    split; [apply unlock_balance; by rewrite Hl, Hl1|]. split_and!.
    - simpl. rewrite Hm, Hm1. done.
    - simpl. rewrite Hb, Hb1. done.
    - simpl. rewrite Hc1. done.
    - intros j. pose proof (He j) as Hj. rewrite Hs1, Hb1 in Hj. exact Hj. }
  destruct wide.
  - destruct (expire_wide _ t1 c 0 Hinv1 Hc (len_fuel t1 c)) as (t' & -> & Hi & Hl & He).
    cbn [mbind option_bind]. eexists (unlock t'), _. split; [done|]. by apply Hpost; [..|lia|].
  - pose proof (expire_narrow t1 c Hinv1 Hc) as Hn.
    destruct (expanse_map_remove_range _ _ _ _ _) as [[bt ctx] n].
    destruct Hn as (t' & -> & Hi & -> & Hl & He). cbn [mbind option_bind].
    eexists (unlock (set_by_time bt t')), _. split; [done|]. by apply Hpost.
Qed.
End Inv.
