(* ===== verification/BleTheorems.v ===== *)
(** * What the BLE tracker promises

    Claims about [src/components/expanse/src/expanse_ble_tracker.c] on the model
    of [BleTracker]: what a sighting, a lookup, a removal and an expiry do in
    both builds, the memory safety of every reachable state, the clock, the
    balance of locks and heap objects, and three behaviours the header's
    comments do not describe. *)
From stdpp Require Import base numbers list sorting gmap.
From S2P Require Import Prelude SortedAssoc ExpanseApi HostLock BleTracker BleTrackerProofs.
Open Scope Z_scope.

(** ** A fresh tracker *)
Definition all_ok (lock_ok : bool) : alloc_oks := AllocOks true true true true true true true lock_ok.

Section Fresh.
  Context {M : Type} `{ExpanseMapLaws M}.
  Implicit Types t : tracker M.

(** The tracker [expanse_ble_tracker_create] returns when nothing fails. *)
Definition fresh_tracker (cap : Z) (lock_ok : bool) : tracker M :=
  default (Tracker expanse_map_new expanse_map_new [] [] [] [] 0 0 0 0 0 0 (LOCK_INIT lock_ok))
    (expanse_ble_tracker_create cap (all_ok lock_ok) (Ledger 0 0 0)).1.

Lemma bitmap_bit_zeros n i : bitmap_bit (replicate n 0) i = false.
Proof.
  unfold bitmap_bit. destruct (arr_get _ _) as [w|] eqn:Hw; [|done].
  apply arr_get_elem_of, elem_of_replicate in Hw as [-> _]. apply Z.bits_0.
Qed.

Lemma elem_of_countdown cap i :
  0 <= cap <= 8192 →
  i ∈ (λ j, u16 (cap - 1 - Z.of_nat j)) <$> seq 0 (Z.to_nat cap) ↔ 0 <= i < cap.
Proof.
  intros Hcap. rewrite list_elem_of_fmap. split.
  - intros (j & -> & Hj%elem_of_seq). rewrite u16_small by word_lia. lia.
  - intros Hi. exists (Z.to_nat (cap - 1 - i)). rewrite elem_of_seq, u16_small by word_lia. lia.
Qed.

Lemma NoDup_countdown cap :
  0 <= cap <= 8192 → NoDup ((λ j, u16 (cap - 1 - Z.of_nat j)) <$> seq 0 (Z.to_nat cap)).
Proof.
  intros Hcap. apply NoDup_fmap_2_strong; [|apply NoDup_seq].
  intros x y Hx%elem_of_seq Hy%elem_of_seq. rewrite !u16_small by word_lia. lia.
Qed.

Lemma fresh_inv cap lock_ok :
  1 <= cap <= 8192 →
  let t := fresh_tracker cap lock_ok in
  inv t ∧ count t = 0 ∧ max_capacity t = cap ∧ base_epoch_sec t = 0 ∧ last_raw_ms t = 0
  ∧ mono_offset_ms t = 0 ∧ t_lock t = LOCK_INIT lock_ok
  ∧ ∀ r s, ¬ tracks t r s.
Proof.
  intros Hcap. unfold fresh_tracker, expanse_ble_tracker_create, EXPANSE_BLE_MAX_CAPACITY.
  rewrite (proj2 (Z.eqb_neq cap 0)), Z.gtb_ltb, (proj2 (Z.ltb_ge 8192 cap)) by lia.
  cbv zeta. cbn [orb negb all_ok ok_tracker ok_by_mac ok_by_time ok_entries ok_mono ok_bitmap ok_free ok_lock fst default].
  match goal with |- inv ?x ∧ _ => set (t := x) end.
  assert (∀ i, slot t i = None) as Hslot.
  { intros i. unfold slot, slot_of. simpl. rewrite bitmap_bit_zeros. by rewrite andb_false_r. }
  split; [|split_and!; try done; intros r s [i Hi]; by rewrite Hslot in Hi].
  constructor; [constructor|].
  - constructor; simpl; rewrite ?length_replicate, ?length_fmap, ?length_seq; try done.
    apply Forall_replicate. word_lia.
  - constructor; simpl.
    + lia.
    + lia.
    + rewrite take_ge by (rewrite length_fmap, length_seq; lia). apply NoDup_countdown. lia.
    + intros i. rewrite take_ge by (rewrite length_fmap, length_seq; lia).
      rewrite elem_of_countdown, Hslot by lia. tauto.
  - intros h i. simpl. rewrite entries_new, elem_of_nil. split; [done|].
    intros (r & s & Hi & _). by rewrite Hslot in Hi.
  - split; simpl; word_lia.
  - intros k i. simpl. rewrite entries_new, elem_of_nil. split; [done|].
    intros (r & s & Hi & _). by rewrite Hslot in Hi.
Qed.
End Fresh.

(** ** Reachable trackers *)
Inductive ble_op :=
  | BRecord (r : ble_record)
  | BGet (m : list Z) (out : option ble_record)
  | BRemove (m : list Z) (out : option ble_record)
  | BExpire (cutoff_ms : Z)
  | BCount
  | BMemUsed.

Section Reach.
  Context {M : Type} `{ExpanseMapLaws M}.
  Implicit Types t : tracker M.

(** One call, the out-record [NULL] or not; the outer [None] is an access
    outside an array. *)
Definition exec_ble (wide : bool) t (op : ble_op) : option (option (tracker M)) :=
  match op with
  | BRecord r => '(tr, _) ← expanse_ble_tracker_record wide (Some t) (Some r); Some tr
  | BGet m out => '(_, tr, _) ← expanse_ble_tracker_get (Some t) (Some m) out; Some tr
  | BRemove m out => '(_, tr, _) ← expanse_ble_tracker_remove wide (Some t) (Some m) out; Some tr
  | BExpire c => '(_, tr) ← expanse_ble_tracker_expire_stale wide (Some t) c; Some tr
  | BCount => Some (expanse_ble_tracker_count (Some t)).2
  | BMemUsed => Some (expanse_ble_tracker_mem_used (Some t)).2
  end.

(** Arguments of their machine width, and no sighting stamped before the epoch
    base.  The code accepts such a sighting and what follows is not safe
    ([ble_time_regression_breaks] below): the condition is the caller's to meet,
    for instance with sightings in time order. *)
Definition admissible t (op : ble_op) : Prop :=
  match op with
  | BRecord r => is_u32 (last_seen_ms r) ∧ base_epoch_sec t <= mono_now t (last_seen_ms r)
  | BExpire c => is_u32 c
  | _ => True
  end.

Inductive reachable (wide : bool) (cap : Z) (lock_ok : bool) : tracker M → Prop :=
  | reach_create : reachable wide cap lock_ok (fresh_tracker cap lock_ok)
  | reach_call t op t' :
      reachable wide cap lock_ok t → admissible t op →
      exec_ble wide t op = Some (Some t') → reachable wide cap lock_ok t'.

Lemma exec_ble_step wide t op :
  inv t → admissible t op →
  ∃ t', exec_ble wide t op = Some (Some t') ∧ inv t' ∧ t_lock t' = t_lock t
      ∧ max_capacity t' = max_capacity t.
Proof.
  intros Hinv Hop. destruct op as [r|m out|m out|c| |]; cbn [exec_ble].
  - destruct Hop as [Hr Hle].
    destruct (record_step wide t r Hinv Hr Hle) as (t' & rc & -> & ? & ? & ? & _). by exists t'.
  - destruct (get_step t m out Hinv) as (b & o & -> & _). by exists t.
  - destruct (remove_step wide t m out Hinv) as (b & t' & o & -> & ? & ? & ? & _). by exists t'.
  - destruct (expire_step wide t c Hinv Hop) as (t' & n & -> & ? & ? & ? & _). by exists t'.
  - exists t. unfold expanse_ble_tracker_count. simpl snd. by rewrite take_unlock.
  - exists t. unfold expanse_ble_tracker_mem_used. cbv zeta. simpl snd. by rewrite take_unlock.
Qed.

Lemma reachable_inv wide cap lock_ok t :
  1 <= cap <= 8192 → reachable wide cap lock_ok t →
  inv t ∧ t_lock t = LOCK_INIT lock_ok ∧ max_capacity t = cap.
Proof.
  intros Hcap Hr. induction Hr as [|t op t' Hr (Hinv & Hl & Hm) Hop He].
  - destruct (fresh_inv cap lock_ok Hcap) as (? & _ & ? & _ & _ & _ & ? & _). done.
  - destruct (exec_ble_step wide t op Hinv Hop) as (t1 & He1 & Hinv1 & Hl1 & Hm1).
    rewrite He in He1. injection He1 as ->. split_and!; [done|congruence..].
Qed.

(** The number of live slots. *)
Definition live_slots t : list Z := filter (λ i, is_Some (slot t i)) (seqZ 0 (max_capacity t)).

Lemma live_slots_count t : core t → Z.of_nat (length (live_slots t)) = count t.
Proof.
  intros Hc. pose proof (co_shape t Hc) as Hs. pose proof (sh_cap t Hs). pose proof (sh_free t Hs).
  destruct (co_free t Hc) as [Hr Hn Hnd Hfree].
  assert (seqZ 0 (max_capacity t)
          ≡ₚ live_slots t ++ take (Z.to_nat (free_count t)) (free_indices t)) as Hp.
  { apply NoDup_Permutation; [apply NoDup_seqZ| |].
    - apply NoDup_app. split_and!; [apply NoDup_filter, NoDup_seqZ| |done].
      intros i [Hi _]%list_elem_of_filter [_ Hx]%Hfree. rewrite Hx in Hi. by destruct Hi.
    - intros i. rewrite elem_of_app, Hfree. unfold live_slots. rewrite list_elem_of_filter, elem_of_seqZ.
      destruct (slot t i) eqn:Hi; [|split; [right|intros [[[? ?] ?]|]]; naive_solver lia].
      split; [left; split; [by eexists|done]|]. intros [[_ ?]|[_ ?]]; [lia|done]. }
  apply Permutation_length in Hp. rewrite length_app, length_seqZ, length_take in Hp. lia.
Qed.
End Reach.

(** ** Claims *)
Section Claims.
  Context {M : Type} `{ExpanseMapLaws M}.
  Implicit Types t : tracker M.

(** C5: take a tracker built by any calls of its API, none of which recorded a
    sighting stamped before the epoch base in force at that call ([admissible]).
    Then the next such call touches no memory outside the arrays and returns a
    tracker, [count] is the number of live slots and never exceeds the capacity,
    and no mutex is left held.  The condition on the sightings is needed: the
    code does not check it, and [ble_time_regression_breaks] is a run that
    breaks it. *)
Theorem ble_safe wide cap lock_ok t op :
  1 <= cap <= 8192 → reachable wide cap lock_ok t → admissible t op →
  (∃ t', exec_ble wide t op = Some (Some t') ∧ t_lock t' = LOCK_INIT lock_ok) ∧
  Z.of_nat (length (live_slots t)) = count t ∧ 0 <= count t <= cap ∧ t_lock t = LOCK_INIT lock_ok.
Proof.
  intros Hcap Hr Hop. destruct (reachable_inv _ _ _ _ Hcap Hr) as (Hinv & Hl & Hm).
  destruct (exec_ble_step wide t op Hinv Hop) as (t' & He & _ & Hl' & _).
  split; [exists t'; split; [done|congruence]|].
  pose proof (live_slots_count t (in_core t Hinv)). destruct (co_free t (in_core t Hinv)).
  split_and!; try done; lia.
Qed.

(** C6: a sighting on any reachable tracker ends in one of three ways.  [OK]:
    the tracker holds the sighting at the current second and every other device
    unchanged, with the count up by one exactly when the MAC was unknown.
    [COLLISION]: another device with the same hash is tracked and nothing
    changed.  [NOMEM]: the device is unknown, the slab is full and nothing
    changed. *)
Theorem ble_record_correct wide cap lock_ok t r :
  1 <= cap <= 8192 → reachable wide cap lock_ok t → admissible t (BRecord r) →
  ∃ t' rc, expanse_ble_tracker_record wide (Some t) (Some r) = Some (Some t', rc)
         ∧ reachable wide cap lock_ok t'
         ∧ record_post t r (mono_now t (last_seen_ms r)) t' rc.
Proof.
  intros Hcap Hr Hop. destruct (reachable_inv _ _ _ _ Hcap Hr) as (Hinv & _).
  destruct Hop as [Hraw Hle]. destruct (record_step wide t r Hinv Hraw Hle) as (t' & rc & He & _ & _ & _ & _ & Hp).
  exists t', rc. split_and!; try done. eapply (reach_call _ _ _ t (BRecord r)); [done..|].
  cbn [exec_ble]. by rewrite He.
Qed.

(** C25: a sighting that returns [OK] (on a tracker and with a stamp as [admissible]
    says) is what the next lookup of its MAC copies
    out, and after a removal of that MAC the lookup fails. *)
Theorem ble_roundtrip wide cap lock_ok t r t' out :
  1 <= cap <= 8192 → reachable wide cap lock_ok t → admissible t (BRecord r) →
  expanse_ble_tracker_record wide (Some t) (Some r) = Some (Some t', EXPANSE_BLE_OK) →
  expanse_ble_tracker_get (Some t') (Some (mac r)) (Some out) = Some (true, Some t', Some r) ∧
  ∃ t'', expanse_ble_tracker_remove wide (Some t') (Some (mac r)) (Some out) = Some (true, Some t'', Some r)
       ∧ count t'' = count t' - 1
       ∧ expanse_ble_tracker_get (Some t'') (Some (mac r)) (Some out) = Some (false, Some t'', Some out).
Proof.
  intros Hcap Hr [Hraw Hle] He. destruct (reachable_inv _ _ _ _ Hcap Hr) as (Hinv & _).
  destruct (record_step wide t r Hinv Hraw Hle) as (t1 & rc & He1 & Hinv1 & _ & _ & _ & Hp).
  rewrite He in He1. injection He1 as <- <-.
  assert (∀ r' s', tracks t' r' s' → mac r' = mac r → r' = r) as Huniq.
  { destruct Hp as [(_ & Ht & _)|[(? & _)|(? & _)]]; [|done..]. intros r' s' [[-> _]|[_ ?]]%Ht; done. }
  assert (tracks t' r (mono_now t (last_seen_ms r))) as Htr.
  { destruct Hp as [(_ & Ht & _)|[(? & _)|(? & _)]]; [|done..]. apply Ht. by left. }
  split.
  - destruct (get_step t' (mac r) (Some out) Hinv1)
      as (b & o & -> & [(-> & r' & s' & Hr' & Hm & ->)|(_ & Hno & _)]); [|by destruct (Hno _ _ Htr)].
    simpl. by rewrite (Huniq r' s').
  - destruct (remove_step wide t' (mac r) (Some out) Hinv1)
      as (b & t'' & o & -> & Hinv2 & _ & _ & _ & Ht2 & [(-> & (r' & s' & Hr' & Hm & ->) & Hn)|(_ & Hno & _)]);
      [|by destruct (Hno _ _ Htr)].
    exists t''. cbn [fmap option_fmap option_map]. rewrite (Huniq r' s') by done. split_and!; try done.
    destruct (get_step t'' (mac r) (Some out) Hinv2)
      as (b & o & -> & [(-> & r2 & s2 & [_ ?]%Ht2 & ? & ->)|(-> & _ & ->)]); done.
Qed.

(** A lookup or a removal reports a device exactly when a record with its
    MAC is tracked, copies out that record, and a removal drops it and no other. *)
Theorem ble_get_remove_correct wide cap lock_ok t m out :
  1 <= cap <= 8192 → reachable wide cap lock_ok t →
  (∃ b out', expanse_ble_tracker_get (Some t) (Some m) out = Some (b, Some t, out')
     ∧ (b = true ↔ ∃ r s, tracks t r s ∧ mac r = m)
     ∧ (b = true → ∃ r s, tracks t r s ∧ mac r = m ∧ out' = (λ _, r) <$> out)) ∧
  (∃ b t' out', expanse_ble_tracker_remove wide (Some t) (Some m) out = Some (b, Some t', out')
     ∧ remove_post t m out b t' out').
Proof.
  intros Hcap Hr. destruct (reachable_inv _ _ _ _ Hcap Hr) as (Hinv & _). split.
  - destruct (get_step t m out Hinv) as (b & o & He & Hb). exists b, o. split; [done|].
    destruct Hb as [(-> & r & s & Ht & Hm & ->)|(-> & Hno & ->)]; [split; [split|]; by eauto 10|].
    split; [|done]. split; [done|]. intros (r & s & Ht & Hm). by destruct (Hno r s Ht).
  - destruct (remove_step wide t m out Hinv) as (b & t' & o & He & Hp). by exists b, t', o.
Qed.

Lemma expired_count t t' c n :
  inv t → inv t' → max_capacity t' = max_capacity t → n = count t - count t' →
  expired_slots t t' c → 0 <= n.
Proof.
  intros Hinv Hinv' Hm Hn Hexp. rewrite Hn, <- !live_slots_count by apply in_core, Hinv || apply in_core, Hinv'.
  assert (length (live_slots t') <= length (live_slots t))%nat; [|lia].
  apply submseteq_length. unfold live_slots. rewrite Hm.
  apply NoDup_submseteq; [apply NoDup_filter, NoDup_seqZ|].
  intros j [Hj Hin]%list_elem_of_filter. apply list_elem_of_filter. split; [|done].
  rewrite Hexp in Hj. destruct (slot t j) as [[]|]; [done|by destruct Hj].
Qed.
Lemma stale_in_window base c s :
  base <= c < base + 524287 → stale base c s ↔ s <= c.
Proof.
  intros Hc. unfold stale, rel_sec. rewrite (proj2 (Z.leb_le base c)) by lia.
  destruct (Z.leb_spec base s); lia.
Qed.

Lemma rel_sec_before base c : c < base → rel_sec c base = 0.
Proof. intros Hc. unfold rel_sec. by rewrite (proj2 (Z.leb_gt base c)). Qed.

(** C7: an expiry, in either build and for any cutoff, removes exactly the
    devices whose time key is not after the cutoff's, keeps the others, and
    returns how many it removed.  A time key is the whole second since the epoch
    base, 0 before the base and at most 524,287: so for a cutoff whose second is
    in the window [base, base + 524287) these are the devices last seen at or
    before that second; a cutoff before the base also removes every device of the
    base's own second and before, and one at or past the window's end removes
    every device.  The sightings that built the tracker are [admissible]: none is
    stamped before the epoch base. *)
Theorem ble_expire_correct wide cap lock_ok t cutoff :
  1 <= cap <= 8192 → reachable wide cap lock_ok t → is_u32 cutoff →
  let base := base_epoch_sec t in let c := mono_now t cutoff in
  ∃ t' n, expanse_ble_tracker_expire_stale wide (Some t) cutoff = Some (n, Some t')
        ∧ reachable wide cap lock_ok t' ∧ n = count t - count t' ∧ 0 <= n
        ∧ (∀ r s, tracks t' r s ↔ tracks t r s ∧ rel_sec c base < rel_sec s base)
        ∧ (base <= c < base + 524287 → ∀ r s, tracks t' r s ↔ tracks t r s ∧ c < s)
        ∧ (c < base → ∀ r s, tracks t' r s ↔ tracks t r s ∧ base < s)
        ∧ (base + 524287 <= c → count t' = 0).
Proof.
  intros Hcap Hr Hcut base c. destruct (reachable_inv _ _ _ _ Hcap Hr) as (Hinv & _).
  destruct (expire_step wide t cutoff Hinv Hcut) as (t' & n & He & Hinv' & _ & Hm & Hb & Hn & Hexp).
  assert (∀ r s, tracks t' r s ↔ tracks t r s ∧ rel_sec c base < rel_sec s base) as Ht.
  { intros r s. rewrite (expired_tracks t t' _ Hexp). unfold stale. by rewrite Z.nle_gt. }
  exists t', n. split; [done|]. split.
  { eapply (reach_call _ _ _ t (BExpire cutoff)); [done..|]. cbn [exec_ble]. by rewrite He. }
  split; [done|]. split; [exact (expired_count t t' _ n Hinv Hinv' Hm Hn Hexp)|]. split; [done|]. clearbody base c. split; [|split].
  - intros Hwin r s. rewrite Ht. pose proof (stale_in_window base c s Hwin) as Hs. unfold stale in Hs.
    split; intros []; split; (done || lia).
  - intros Hlt r s. rewrite Ht. pose proof (rel_sec_before base c Hlt) as Hz. rewrite Hz. unfold rel_sec.
    split; (intros [? Hs]; split; [done|]); destruct (Z.leb_spec base s); lia.
  - intros Hge. rewrite <- live_slots_count by apply in_core, Hinv'.
    destruct (live_slots t') as [|j l] eqn:Hl; [done|exfalso].
    assert (j ∈ live_slots t') as [[[r s] Hj] _]%list_elem_of_filter by (rewrite Hl; left).
    assert (tracks t' r s) as [_ Hs]%Ht by (by exists j).
    pose proof (rel_sec_range s base). unfold rel_sec at 1 in Hs. destruct (Z.leb_spec base c); lia.
Qed.

(** The 64-bit build's per-record loop and the 32-bit build's
    [remove_range] walk are the same expiry: same count returned, same slots
    live afterwards. *)
Theorem ble_expire_builds cap lock_ok wide t cutoff :
  1 <= cap <= 8192 → reachable wide cap lock_ok t → is_u32 cutoff →
  ∃ t1 t2 n, expanse_ble_tracker_expire_stale true (Some t) cutoff = Some (n, Some t1)
           ∧ expanse_ble_tracker_expire_stale false (Some t) cutoff = Some (n, Some t2)
           ∧ count t1 = count t2 ∧ ∀ j, slot t1 j = slot t2 j.
Proof.
  intros Hcap Hr Hcut. destruct (reachable_inv _ _ _ _ Hcap Hr) as (Hinv & _).
  destruct (expire_step true t cutoff Hinv Hcut) as (t1 & n1 & He1 & Hi1 & _ & Hm1 & _ & Hn1 & Hx1).
  destruct (expire_step false t cutoff Hinv Hcut) as (t2 & n2 & He2 & Hi2 & _ & Hm2 & _ & Hn2 & Hx2).
  assert (∀ j, slot t1 j = slot t2 j) as Hs by (intros j; by rewrite Hx1, Hx2).
  assert (count t1 = count t2) as Hc.
  { rewrite <- (live_slots_count t1), <- (live_slots_count t2) by (apply in_core; done).
    do 2 f_equal. unfold live_slots. rewrite Hm1, Hm2. apply list_filter_iff. intros j. by rewrite Hs. }
  exists t1, t2, n1. split_and!; try done. rewrite He2. do 3 f_equal. lia.
Qed.

(** The 32-bit millisecond clock is unwrapped exactly: a call stamped
    [d < 2^31] ms after the previous one works at the previous instant plus
    [d], across the wrap; and one stamped [d <= 2^31] ms before it, without
    crossing the wrap, at the previous instant minus [d]. *)
Theorem ble_clock_exact t d :
  clock_ok t → mono_offset_ms t + last_raw_ms t + d < 2 ^ 64 - 2 ^ 32 →
  (0 <= d < 2 ^ 31 →
     (unwrap_mono_ms t (u32 (last_raw_ms t + d))).2 = mono_offset_ms t + last_raw_ms t + d) ∧
  (0 <= d <= 2 ^ 31 → d <= last_raw_ms t →
     (unwrap_mono_ms t (last_raw_ms t - d)).2 = mono_offset_ms t + last_raw_ms t - d).
Proof.
  intros [Hraw Hoff] Hbig. unfold unwrap_mono_ms. split.
  - intros Hd. destruct (Z.ltb_spec (last_raw_ms t + d) (2 ^ 32)) as [Hlt|Hge].
    + rewrite (u32_small (last_raw_ms t + d)) by word_lia.
      rewrite (proj2 (Z.ltb_ge (last_raw_ms t + d) _)) by lia. simpl.
      repeat case_match; simpl; rewrite u64_small by word_lia; lia.
    + replace (u32 (last_raw_ms t + d)) with (last_raw_ms t + d - 2 ^ 32)
        by (unfold u32; apply Z.mod_unique with 1; word_lia).
      rewrite (proj2 (Z.ltb_lt _ (last_raw_ms t))) by lia. simpl.
      rewrite (u32_small (last_raw_ms t - _)) by word_lia.
      rewrite !Z.gtb_ltb, (proj2 (Z.ltb_lt 2147483648 _)), (proj2 (Z.ltb_lt 0 (last_raw_ms t))), orb_true_r by word_lia.
      simpl. rewrite (u64_small (mono_offset_ms t + _)) by word_lia. rewrite u64_small by word_lia. lia.
  - intros Hd Hle. rewrite (u32_small (last_raw_ms t - _)) by word_lia.
    rewrite !Z.gtb_ltb, (proj2 (Z.ltb_ge 2147483648 _)), andb_false_r by word_lia.
    repeat case_match; simpl; rewrite u64_small by word_lia; lia.
Qed.

(** A tracker's life leaves nothing behind: whichever allocation fails,
    creation frees what it got; and after any calls, destruction returns every
    block, both maps and the mutex. *)
Theorem ble_lifecycle wide cap :
  (∀ oks h, (expanse_ble_tracker_create (M := M) cap oks h).1 = None →
     (expanse_ble_tracker_create (M := M) cap oks h).2 = h) ∧
  (∀ lock_ok h t, 1 <= cap <= 8192 → reachable wide cap lock_ok t →
     expanse_ble_tracker_destroy (Some t) (expanse_ble_tracker_create (M := M) cap (all_ok lock_ok) h).2 = h).
Proof.
  split.
  - intros [o1 o2 o3 o4 o5 o6 o7 o8] [b mm l]. unfold expanse_ble_tracker_create. cbv zeta.
    repeat case_match; intros; simplify_eq/=; try done; f_equal; lia.
  - intros lock_ok [b mm l] t Hcap Hr. destruct (reachable_inv _ _ _ _ Hcap Hr) as (_ & Hl & _).
    unfold expanse_ble_tracker_destroy, expanse_ble_tracker_create, EXPANSE_BLE_MAX_CAPACITY. simpl t_lock.
    rewrite LOCK_balance, Hl.
    rewrite (proj2 (Z.eqb_neq cap 0)), Z.gtb_ltb, (proj2 (Z.ltb_ge 8192 cap)) by lia.
    destruct lock_ok; simpl; f_equal; lia.
Qed.
End Claims.

(** ** Concrete runs, on the finite-map engine *)
Definition sighting (last_byte ms : Z) : ble_record :=
  BleRecord [170; 187; 204; 0; 0; last_byte] (-50) 1 ms 120 (replicate 14 0).

Fixpoint run_ble (wide : bool) (t : tracker (gmap Z Z)) (ops : list ble_op) : option (tracker (gmap Z Z)) :=
  match ops with
  | [] => Some t
  | op :: ops => tr ← exec_ble wide t op; t ← tr; run_ble wide t ops
  end.

(** The devices a run leaves, by the last byte of their MAC, and their count. *)
Definition run_view (wide : bool) (cap : Z) (ops : list ble_op) : option (list Z * Z) :=
  t ← run_ble wide (fresh_tracker cap true) ops;
  Some (omap (λ i, r ← fst <$> slot t i; mac r !! 5%nat) (seqZ 0 (max_capacity t)), count t).

(** A sighting stamped before the epoch base lowers the base without
    rebuilding the time index; a re-sighting then leaves the old time key
    behind, and the next expiry frees one slot twice, so the free stack is
    written past its end.  Each call before the last one succeeds. *)
Theorem ble_time_regression_breaks wide :
  run_view wide 4 [BRecord (sighting 1 400000000); BRecord (sighting 2 100000000);
                   BRecord (sighting 1 100001000)] = Some ([1; 2], 2) ∧
  run_view wide 4 [BRecord (sighting 1 400000000); BRecord (sighting 2 100000000);
                   BRecord (sighting 1 100001000); BExpire 400000000] = None.
Proof. destruct wide; split; vm_compute; reflexivity. Qed.

(** A cutoff stamped just before the 32-bit clock wrapped, applied just
    after it, is taken 49.7 days into the future: devices seen after the cutoff
    are evicted, here all of them, while before the wrap the same spacing
    evicts none. *)
Theorem ble_cutoff_before_wrap wide :
  run_view wide 4 [BRecord (sighting 1 4294966000); BRecord (sighting 2 1000); BExpire 4294960000]
    = Some ([], 0) ∧
  run_view wide 4 [BRecord (sighting 1 1006000); BRecord (sighting 2 1009000); BExpire 1000000]
    = Some ([1; 2], 2).
Proof. destruct wide; split; vm_compute; reflexivity. Qed.

(** Expiry works on whole seconds and clamps times before the epoch base:
    a device last seen 999 ms after the cutoff is evicted, and so is one seen
    999 s after it once the base has moved past both. *)
Theorem ble_expire_granularity wide :
  run_view wide 4 [BRecord (sighting 1 5999); BExpire 5000] = Some ([], 0) ∧
  run_view wide 4 [BRecord (sighting 1 1000000); BRecord (sighting 2 401000000); BExpire 1000]
    = Some ([2], 1).
Proof. destruct wide; split; vm_compute; reflexivity. Qed.

(** ** Witnesses *)
Definition demo_tracker : tracker (gmap Z Z) :=
  default (fresh_tracker 4 true)
    (run_ble true (fresh_tracker 4 true) [BRecord (sighting 1 1000); BRecord (sighting 2 8000)]).

Lemma demo_reachable : reachable true 4 true demo_tracker.
Proof.
  eapply (reach_call _ _ _ (default (fresh_tracker 4 true)
            (run_ble true (fresh_tracker 4 true) [BRecord (sighting 1 1000)])) (BRecord (sighting 2 8000))).
  - eapply (reach_call _ _ _ (fresh_tracker 4 true) (BRecord (sighting 1 1000))); [constructor| |].
    + split; [simpl; word_lia|vm_compute; discriminate].
    + vm_compute. reflexivity.
  - split; [simpl; word_lia|vm_compute; discriminate].
  - vm_compute. reflexivity.
Qed.

Lemma ble_safe_witness :
  ∃ t', exec_ble true demo_tracker (BExpire 2000) = Some (Some t') ∧ t_lock t' = LOCK_INIT true.
Proof.
  apply (ble_safe true 4 true demo_tracker (BExpire 2000)); [lia|exact demo_reachable|simpl; word_lia].
Defined.

Lemma demo_admissible : admissible demo_tracker (BRecord (sighting 3 9000)).
Proof. split; [simpl; word_lia|vm_compute; discriminate]. Qed.

Lemma ble_record_correct_witness :
  ∃ t' rc, expanse_ble_tracker_record true (Some demo_tracker) (Some (sighting 3 9000)) = Some (Some t', rc)
         ∧ record_post demo_tracker (sighting 3 9000) 9 t' rc.
Proof.
  destruct (ble_record_correct true 4 true demo_tracker (sighting 3 9000)) as (t' & rc & He & _ & Hp);
    [lia|exact demo_reachable|exact demo_admissible|].
  exists t', rc. split; [exact He|].
  assert (mono_now demo_tracker (last_seen_ms (sighting 3 9000)) = 9) as Hs by (vm_compute; reflexivity).
  rewrite Hs in Hp. exact Hp.
Defined.

Definition demo_recorded : tracker (gmap Z Z) :=
  default demo_tracker (run_ble true demo_tracker [BRecord (sighting 3 9000)]).
Lemma ble_roundtrip_witness :
  expanse_ble_tracker_get (Some demo_recorded) (Some (mac (sighting 3 9000))) (Some zero_record)
  = Some (true, Some demo_recorded, Some (sighting 3 9000)).
Proof.
  apply (ble_roundtrip true 4 true demo_tracker (sighting 3 9000) demo_recorded zero_record);
    [lia|exact demo_reachable|exact demo_admissible|vm_compute; reflexivity].
Defined.

Lemma ble_get_remove_correct_witness :
  ∃ b t' out', expanse_ble_tracker_remove true (Some demo_tracker) (Some (mac (sighting 2 0))) (Some zero_record)
               = Some (b, Some t', out')
             ∧ remove_post demo_tracker (mac (sighting 2 0)) (Some zero_record) b t' out'.
Proof. apply (ble_get_remove_correct true 4 true demo_tracker); [lia|exact demo_reachable]. Defined.

Lemma ble_expire_correct_witness :
  ∃ t' n, expanse_ble_tracker_expire_stale true (Some demo_tracker) 5500 = Some (n, Some t')
        ∧ ∀ r s, tracks t' r s ↔ tracks demo_tracker r s ∧ 5 < s.
Proof.
  assert (mono_now demo_tracker 5500 = 5) as Hs by (vm_compute; reflexivity).
  destruct (ble_expire_correct true 4 true demo_tracker 5500) as (t' & n & He & _ & _ & _ & _ & Ht & _);
    [lia|exact demo_reachable|word_lia|].
  rewrite Hs in Ht. exists t', n. split; [exact He|apply Ht; split; vm_compute; congruence].
Defined.

Lemma ble_expire_builds_witness :
  ∃ t1 t2 n, expanse_ble_tracker_expire_stale true (Some demo_tracker) 5500 = Some (n, Some t1)
           ∧ expanse_ble_tracker_expire_stale false (Some demo_tracker) 5500 = Some (n, Some t2)
           ∧ count t1 = count t2 ∧ ∀ j, slot t1 j = slot t2 j.
Proof. apply (ble_expire_builds 4 true true demo_tracker 5500); [lia|exact demo_reachable|word_lia]. Defined.

Definition near_wrap : tracker (gmap Z Z) := set_last_raw_ms 4294967290 (fresh_tracker 4 true).
Lemma ble_clock_exact_witness :
  (unwrap_mono_ms near_wrap 4).2 = 4294967300.
Proof.
  apply (ble_clock_exact near_wrap 10); [split; split; vm_compute; congruence|vm_compute; reflexivity|lia].
Defined.

Lemma ble_lifecycle_witness :
  expanse_ble_tracker_destroy (Some demo_tracker)
    (expanse_ble_tracker_create (M := gmap Z Z) 4 (all_ok true) (Ledger 3 1 1)).2 = Ledger 3 1 1.
Proof. apply (ble_lifecycle true 4); [lia|exact demo_reachable]. Defined.
