(* ===== verification/Alts.v ===== *)
(** * The comparison harness: byte accounting and the vtable of alternatives

    Model of the accounting part of [src/integrations/stm32h747/alts.c] and of
    the vtable [alt_ops] of [src/integrations/stm32h747/alts.h].  Every map the
    on-target suite compares is an instance of [AltOps]; [OrderedAlt] states
    what the fixtures rely on, so that they are proved once for all of them. *)
From stdpp Require Import base numbers list sorting gmap.
From S2P Require Import Prelude SortedAssoc ExpanseApi.
Open Scope Z_scope.

(** ** Accounting: [live_bytes] and [peak_bytes] *)
Record acct := Acct { live_bytes : Z; peak_bytes : Z }.

(** [malloc_ok] is the outcome of [malloc]; [size_t] is 32 bits on the target. *)
Definition acct_malloc (malloc_ok : bool) (n : Z) (a : acct) : bool * acct :=
  if malloc_ok then
    let live := live_bytes a +w n in
    (true, Acct live (if live >? peak_bytes a then live else peak_bytes a))
  else (false, a).

(** [usable] is [malloc_usable_size(p)], [None] for a [NULL] pointer. *)
Definition acct_free (usable : option Z) (a : acct) : acct :=
  match usable with
  | None => a
  | Some n => Acct (if live_bytes a >? n then live_bytes a -w n else 0) (peak_bytes a)
  end.
Definition acct_live (a : acct) : Z := live_bytes a.
Definition acct_peak (a : acct) : Z := peak_bytes a.
Definition acct_reset_peak (a : acct) : acct := Acct (live_bytes a) (live_bytes a).

(** *** A heap that tracks the requested size of every live block *)
Record heap := Heap {
  hp_acct : acct;
  hp_blocks : gmap positive Z;  (** requested size of each live block *)
  hp_frees : Z;  (** frees so far *)
}.
Inductive heap_step : heap → heap → Prop :=
  | heap_malloc h p n ok :
      hp_blocks h !! p = None → 0 <= n →
      map_fold (λ _ s t, s + t) 0 (hp_blocks h) + n < 2 ^ 32 →
      heap_step h (Heap (acct_malloc ok n (hp_acct h)).2
                     (if ok then <[p := n]> (hp_blocks h) else hp_blocks h) (hp_frees h))
  | heap_free h p n usable :
      hp_blocks h !! p = Some n → n <= usable < n + 8 →
      heap_step h (Heap (acct_free (Some usable) (hp_acct h)) (delete p (hp_blocks h)) (hp_frees h + 1))
  | heap_free_null h : heap_step h (Heap (acct_free None (hp_acct h)) (hp_blocks h) (hp_frees h))
  | heap_reset h : heap_step h (Heap (acct_reset_peak (hp_acct h)) (hp_blocks h) (hp_frees h)).

Definition requested (h : heap) : Z := map_fold (λ _ s t, s + t) 0 (hp_blocks h).
Definition empty_heap : heap := Heap (Acct 0 0) ∅ 0.

Record acct_inv (h : heap) : Prop := {
  ai_nonneg : ∀ p n, hp_blocks h !! p = Some n → 0 <= n;
  ai_frees : 0 <= hp_frees h;
  ai_low : requested h - 7 * hp_frees h <= live_bytes (hp_acct h);
  ai_high : 0 <= live_bytes (hp_acct h) <= requested h;
  ai_total : requested h < 2 ^ 32;
  ai_peak : live_bytes (hp_acct h) <= peak_bytes (hp_acct h);
}.

Lemma sum_insert (m : gmap positive Z) p n :
  m !! p = None → map_fold (λ _ s t, s + t) 0 (<[p := n]> m) = n + map_fold (λ _ s t, s + t) 0 m.
Proof. intros Hp. apply (map_fold_insert_L (λ _ s t, s + t)); [|done]. intros. lia. Qed.
Lemma sum_delete (m : gmap positive Z) p n :
  m !! p = Some n → map_fold (λ _ s t, s + t) 0 m = n + map_fold (λ _ s t, s + t) 0 (delete p m).
Proof. intros Hp. apply (map_fold_delete_L (λ _ s t, s + t)); [|done]. intros. lia. Qed.
Lemma sum_nonneg (m : gmap positive Z) :
  (∀ p n, m !! p = Some n → 0 <= n) → 0 <= map_fold (λ _ s t, s + t) 0 m.
Proof.
  induction m as [|p n m Hp IH] using map_ind; intros Hm; [by rewrite map_fold_empty|].
  rewrite sum_insert by done. pose proof (Hm p n (lookup_insert_eq _ _ _)).
  assert (0 <= map_fold (λ _ s t, s + t) 0 m); [|lia]. apply IH. intros q x Hq. apply (Hm q).
  rewrite lookup_insert_ne; [done|]. congruence.
Qed.

Lemma acct_malloc_inv h p n ok :
  acct_inv h → hp_blocks h !! p = None → 0 <= n → requested h + n < 2 ^ 32 →
  acct_inv (Heap (acct_malloc ok n (hp_acct h)).2
              (if ok then <[p := n]> (hp_blocks h) else hp_blocks h) (hp_frees h)).
Proof.
  intros [Hn Hf Hl Hh Ht Hp] Hfresh Hpos Hsum. unfold requested in *. destruct ok; [|by constructor].
  constructor; unfold requested; simpl; rewrite ?sum_insert, ?u32_small by (done || word_lia); try lia.
  - intros q x [[<- <-]|[_ Hq]]%lookup_insert_Some; [done|by apply (Hn q)].
  - rewrite Z.gtb_ltb. bool_cases; bool_facts; lia.
Qed.
Lemma acct_free_inv h p n usable :
  acct_inv h → hp_blocks h !! p = Some n → n <= usable < n + 8 →
  acct_inv (Heap (acct_free (Some usable) (hp_acct h)) (delete p (hp_blocks h)) (hp_frees h + 1)).
Proof.
  intros [Hn Hf Hl Hh Ht Hp] Hb Hu. pose proof (Hn p n Hb) as Hpos.
  assert (∀ q x, delete p (hp_blocks h) !! q = Some x → 0 <= x) as Hn'
    by (intros q x [_ Hq]%lookup_delete_Some; by apply (Hn q)).
  pose proof (sum_nonneg _ Hn') as Hsum. pose proof (sum_delete _ p n Hb) as Hd. unfold requested in *.
  assert (live_bytes (acct_free (Some usable) (hp_acct h)) = Z.max 0 (live_bytes (hp_acct h) - usable)) as Hv.
  { simpl. rewrite Z.gtb_ltb. bool_cases; bool_facts; [rewrite u32_small by word_lia|]; lia. }
  constructor; unfold requested; cbn [hp_acct hp_blocks hp_frees]; rewrite ?Hv; try lia; try done.
  simpl. lia.
Qed.

Lemma heap_step_inv h h' : acct_inv h → heap_step h h' → acct_inv h'.
Proof.
  intros Hi Hs. destruct Hs as [h p n ok Hf Hn Hsum|h p n us Hb Hu|h|h].
  - by apply acct_malloc_inv.
  - by eapply acct_free_inv.
  - by destruct Hi.
  - destruct Hi. constructor; try done.
Qed.

(** Whatever blocks are allocated and freed, the reported live bytes
    never exceed the bytes requested and are short of them by at most 7 per
    free, the peak is never below them, and the counter never wraps. *)
Theorem acct_sound h :
  rtc heap_step empty_heap h →
  requested h - 7 * hp_frees h <= acct_live (hp_acct h) <= requested h ∧
  0 <= acct_live (hp_acct h) <= acct_peak (hp_acct h).
Proof.
  intros Hr. assert (acct_inv h) as [].
  { revert h Hr. apply rtc_ind_r; [|intros y z _ Hs Hi; by eapply heap_step_inv].
    constructor; unfold requested; simpl; rewrite ?map_fold_empty; try lia. by intros ? ? ?%lookup_empty_Some. }
  unfold acct_live, acct_peak. lia.
Qed.

Lemma acct_sound_witness :
  let h := Heap (Acct 0 40) (<[2%positive := 4]> ∅) 1 in
  requested h - 7 <= 0 <= requested h.
Proof.
  set (h1 := Heap (Acct 4 4) (<[2%positive := 4]> ∅) 0).
  set (h2 := Heap (Acct 40 40) (<[1%positive := 36]> (<[2%positive := 4]> ∅)) 0).
  apply (acct_sound (Heap (Acct 0 40) (<[2%positive := 4]> ∅) 1)).
  apply rtc_l with h1; [|apply rtc_l with h2; [|apply rtc_once]].
  - apply (heap_malloc empty_heap 2 4 true); [reflexivity|lia|vm_compute; reflexivity].
  - apply (heap_malloc h1 1 36 true); [reflexivity|lia|vm_compute; reflexivity].
  - apply (heap_free h2 1 36 40); [reflexivity|lia].
Defined.

(** ** The vtable [alt_ops]

    An outer [None] is a call that does not return normally: an access outside
    an array, or a probe loop that never ends. *)
Class AltOps (A : Type) := {
  alt_create : Z → option A;
  alt_insert : A → Z → Z → option A;
  alt_get : A → Z → option (option Z);
  alt_remove : A → Z → option A;
}.
(** The part only ordered structures fill in ([first], [remove_range]). *)
Class AltOrdered (A : Type) := {
  alt_first : A → option (option (Z * Z));
  alt_remove_range : ∀ {S}, A → Z → Z → (Z → Z → S → S) → S → option (A * S * Z);
}.

(** Every structure of capacity [cap] denotes a finite map while it holds at
    most [cap] keys that it can store. *)
Class AltMapLaws (A : Type) `{!AltOps A} := {
  alt_rep : A → assoc → Prop;
  alt_cap : A → Z;
  alt_key : Z → Prop;
  alt_create_spec cap : 1 <= cap < 2 ^ 20 →
    ∃ a, alt_create cap = Some a ∧ alt_rep a [] ∧ alt_cap a = cap;
  alt_get_spec a l k : alt_rep a l → alt_key k → alt_get a k = Some (sl_lookup k l);
}.

(** What the fixtures need of an ordered structure. *)
Class OrderedAlt (A : Type) `{!AltOps A, !AltOrdered A, !AltMapLaws A} := {
  oa_sorted a l : alt_rep a l → sorted l;
  oa_key k : is_u32 k → alt_key k;
  oa_insert a l k v : alt_rep a l → alt_key k →
    is_Some (sl_lookup k l) ∨ Z.of_nat (length l) < alt_cap a →
    ∃ a', alt_insert a k v = Some a' ∧ alt_rep a' (sl_insert k v l) ∧ alt_cap a' = alt_cap a;
  oa_remove a l k : alt_rep a l → alt_key k →
    ∃ a', alt_remove a k = Some a' ∧ alt_rep a' (sl_delete k l) ∧ alt_cap a' = alt_cap a;
  oa_first a l : alt_rep a l → alt_first a = Some (head l);
  (** From the least key up: the one way the fixtures use it. *)
  oa_remove_range S a l hi (cb : Z → Z → S → S) s : alt_rep a l → is_u32 hi → (∀ e, e ∈ l → 0 <= e.1) →
    ∃ a', alt_remove_range a 0 hi cb s
          = Some (a', visit cb (sl_range 0 hi l) s, Z.of_nat (length (sl_range 0 hi l)))
        ∧ alt_rep a' (sl_outside 0 hi l) ∧ alt_cap a' = alt_cap a;
}.

(** ** [alt_expanse]: the engine behind the vtable *)
Section Expanse.
  Context {M : Type} `{ExpanseMapLaws M}.

(** The map with the capacity hint [ex_create] ignores. *)
Record ex_map := ExMap { ex_m : M; ex_cap : Z }.
Definition ex_create (cap : Z) : option ex_map := Some (ExMap expanse_map_new cap).
Definition ex_insert (m : ex_map) (k v : Z) : option ex_map :=
  Some (ExMap (expanse_map_insert (ex_m m) k v).1 (ex_cap m)).
Definition ex_get (m : ex_map) (k : Z) : option (option Z) := Some (expanse_map_get (ex_m m) k).
Definition ex_first (m : ex_map) : option (option (Z * Z)) := Some (expanse_map_first (ex_m m)).
Definition ex_remove (m : ex_map) (k : Z) : option ex_map :=
  Some (ExMap (expanse_map_remove (ex_m m) k).1 (ex_cap m)).
Definition ex_remove_range {S} (m : ex_map) (lo hi : Z) (cb : Z → Z → S → S) (ctx : S)
  : option (ex_map * S * Z) :=
  let '(m', s, n) := expanse_map_remove_range (ex_m m) lo hi cb ctx in Some (ExMap m' (ex_cap m), s, n).

#[export] Instance ex_ops : AltOps ex_map := {
  alt_create := ex_create; alt_insert := ex_insert; alt_get := ex_get; alt_remove := ex_remove }.
#[export] Instance ex_ordered : AltOrdered ex_map := {
  alt_first := ex_first; alt_remove_range := @ex_remove_range }.
#[export, refine] Instance ex_laws : AltMapLaws ex_map := {
  alt_rep m l := entries (ex_m m) = l; alt_cap := ex_cap; alt_key := is_u32 }.
Proof.
  - intros cap _. eexists. split; [done|]. split; [apply entries_new|done].
  - intros a l k <- _. unfold alt_get. simpl. unfold ex_get. by rewrite get_spec.
Defined.
#[export, refine] Instance ex_ordered_laws : OrderedAlt ex_map := {}.
Proof.
  - intros a l Hr. change (entries (ex_m a) = l) in Hr. subst l. apply entries_sorted.
  - done.
  - intros a l k v Hr _ _. change (entries (ex_m a) = l) in Hr. subst l. eexists. split; [done|]. split; [exact (entries_insert (ex_m a) k v)|done].
  - intros a l k Hr _. change (entries (ex_m a) = l) in Hr. subst l. eexists. split; [done|]. split; [exact (entries_remove (ex_m a) k)|done].
  - intros a l Hr. change (entries (ex_m a) = l) in Hr. subst l. simpl. unfold ex_first. by rewrite first_spec.
  - intros S a l hi cb s Hr _ _. change (entries (ex_m a) = l) in Hr. subst l. simpl. unfold ex_remove_range.
    pose proof (entries_remove_range _ (ex_m a) 0 hi cb s) as He.
    pose proof (remove_range_visits _ (ex_m a) 0 hi cb s) as Hv.
    pose proof (remove_range_count _ (ex_m a) 0 hi cb s) as Hn.
    destruct (expanse_map_remove_range _ _ _ _ _) as [[m' s'] n]. simpl in *. subst.
    eexists. split; [done|]. done.
Defined.
End Expanse.
Arguments ex_map : clear implicits.
