(* ===== verification/SortedArray.v ===== *)
(** * The sorted-array alternative

    Model of the [sarr] part of [src/integrations/stm32h747/alts.c]: parallel
    key and value arrays with binary search and [memmove].  A [NULL] array is
    an empty one, [None] an access outside an array.  The structure refines the
    ascending association list, so it is an [OrderedAlt]. *)
From stdpp Require Import base numbers list sorting gmap.
From S2P Require Import Prelude SortedAssoc Alts.
Open Scope Z_scope.

Record sarr := Sarr { keys : list Z; vals : list Z; len : Z; cap : Z }.

(** The binary search of [sa_lower]; [fuel] bounds the halvings. *)
Fixpoint sa_lower_loop (fuel : nat) (ks : list Z) (k lo hi : Z) : option Z :=
  match fuel with
  | O => None
  | S fuel =>
      if lo <? hi then
        let mid := (lo +w hi) / 2 in
        x ← arr_get ks mid;
        if x <? k then sa_lower_loop fuel ks k (mid + 1) hi
        else sa_lower_loop fuel ks k lo mid
      else Some lo
  end.
Definition sa_lower (s : sarr) (k : Z) : option Z :=
  sa_lower_loop (S (Z.to_nat (len s))) (keys s) k 0 (len s).

(** [oks] are the outcomes of the three allocations; [sizeof (sarr)] is 16. *)
Definition sa_create (oks : bool * bool * bool) (c : Z) (a : acct) : option sarr * acct :=
  let '(ok_s, ok_k, ok_v) := oks in
  let '(p, a) := acct_malloc ok_s 16 a in
  if p then
    let '(pk, a) := acct_malloc ok_k (c *w 4) a in
    let '(pv, a) := acct_malloc ok_v (c *w 4) a in
    (Some (Sarr (if pk then replicate (Z.to_nat c) 0 else [])
                (if pv then replicate (Z.to_nat c) 0 else []) 0 c), a)
  else (None, a).
(** [us] are the usable sizes of the three blocks. *)
Definition sa_destroy (us : option Z * option Z * option Z) (a : acct) : acct :=
  let '(uk, uv, u) := us in acct_free u (acct_free uv (acct_free uk a)).

Definition sa_insert (s : sarr) (k v : Z) : option sarr :=
  i ← sa_lower s k;
  hit ← (if i <? len s then x ← arr_get (keys s) i; Some (x =? k) else Some false);
  if (hit : bool) then
    vs ← arr_set (vals s) i v;
    Some (Sarr (keys s) vs (len s) (cap s))
  else
    ks ← arr_move (keys s) (i + 1) i (len s - i);
    vs ← arr_move (vals s) (i + 1) i (len s - i);
    ks ← arr_set ks i k;
    vs ← arr_set vs i v;
    Some (Sarr ks vs (len s +w 1) (cap s)).

Definition sa_get (s : sarr) (k : Z) : option (option Z) :=
  i ← sa_lower s k;
  hit ← (if i <? len s then x ← arr_get (keys s) i; Some (x =? k) else Some false);
  if (hit : bool) then v ← arr_get (vals s) i; Some (Some v) else Some None.

Definition sa_first (s : sarr) : option (option (Z * Z)) :=
  if len s =? 0 then Some None
  else k ← arr_get (keys s) 0; v ← arr_get (vals s) 0; Some (Some (k, v)).

Definition sa_erase (s : sarr) (i n : Z) : option sarr :=
  ks ← arr_move (keys s) i (i +w n) (len s - i -w n);
  vs ← arr_move (vals s) i (i +w n) (len s - i -w n);
  Some (Sarr ks vs (len s -w n) (cap s)).

Definition sa_remove (s : sarr) (k : Z) : option sarr :=
  i ← sa_lower s k;
  hit ← (if i <? len s then x ← arr_get (keys s) i; Some (x =? k) else Some false);
  if (hit : bool) then sa_erase s i 1 else Some s.

(** The callback loop of [sa_remove_range] over indices [i .. i + n). *)
Fixpoint sa_visit {S} (n : nat) (s : sarr) (i : Z) (cb : Z → Z → S → S) (ctx : S) : option S :=
  match n with
  | O => Some ctx
  | Datatypes.S n =>
      k ← arr_get (keys s) i; v ← arr_get (vals s) i; sa_visit n s (i + 1) cb (cb k v ctx)
  end.
Definition sa_remove_range {S} (s : sarr) (lo hi : Z) (cb : Z → Z → S → S) (ctx : S)
  : option (sarr * S * Z) :=
  a ← sa_lower s lo;
  b ← (if hi =? UINT32_MAX then Some (len s) else sa_lower s (hi +w 1));
  ctx ← sa_visit (Z.to_nat (b - a)) s a cb ctx;
  s ← sa_erase s a (b -w a);
  Some (s, ctx, b -w a).

(** ** The list a sorted array denotes *)
Record sa_rep (s : sarr) (l : assoc) : Prop := {
  sr_keys : ∃ j, keys s = l.*1 ++ j;
  sr_vals : ∃ j, vals s = l.*2 ++ j;
  sr_len : len s = Z.of_nat (length l);
  sr_klen : Z.of_nat (length (keys s)) = cap s;
  sr_vlen : Z.of_nat (length (vals s)) = cap s;
  sr_cap : 0 <= cap s < 2 ^ 20;
  sr_sorted : sorted l;
  sr_u32 : Forall is_u32 l.*1;
}.

Lemma sa_rep_room s l : sa_rep s l → 0 <= len s <= cap s.
Proof.
  intros [[j Hk] _ Hl Hkl _ _ _ _]. rewrite Hk, length_app, length_fmap in Hkl. lia.
Qed.
Lemma sr_key s l i : sa_rep s l → 0 <= i < len s → arr_get (keys s) i = l.*1 !! Z.to_nat i.
Proof.
  intros [[j ->] _ -> _ _ _ _ _] Hi. unfold arr_get. rewrite (proj2 (Z.leb_le 0 i)) by lia.
  apply lookup_app_l. rewrite length_fmap. lia.
Qed.
Lemma sr_val s l i : sa_rep s l → 0 <= i < len s → arr_get (vals s) i = l.*2 !! Z.to_nat i.
Proof.
  intros [_ [j ->] -> _ _ _ _ _] Hi. unfold arr_get. rewrite (proj2 (Z.leb_le 0 i)) by lia.
  apply lookup_app_l. rewrite length_fmap. lia.
Qed.

(** The search ends within its fuel, at the cut of the list at [k]. *)
Lemma sa_lower_loop_spec fuel s l1 l2 k lo hi :
  sa_rep s (l1 ++ l2) → (∀ e, e ∈ l1 → e.1 < k) → (∀ e, e ∈ l2 → k <= e.1) →
  0 <= lo <= Z.of_nat (length l1) → Z.of_nat (length l1) <= hi <= len s → hi - lo < Z.of_nat fuel →
  sa_lower_loop fuel (keys s) k lo hi = Some (Z.of_nat (length l1)).
Proof.
  intros Hr H1 H2. revert lo hi. induction fuel as [|fuel IH]; intros lo hi Hlo Hhi Hf; [lia|].
  cbn [sa_lower_loop]. destruct (Z.ltb_spec lo hi) as [Hlt|]; [|f_equal; lia].
  pose proof (sa_rep_room _ _ Hr). pose proof (sr_cap _ _ Hr). pose proof (sr_len _ _ Hr) as Hlen.
  rewrite length_app in Hlen. rewrite u32_small by word_lia. set (mid := (lo + hi) / 2).
  assert (lo <= mid < hi) as Hm
    by (unfold mid; split; [apply Z.div_le_lower_bound|apply Z.div_lt_upper_bound]; lia).
  rewrite (sr_key _ _ mid Hr) by lia. rewrite list_lookup_fmap.
  destruct (decide (mid < Z.of_nat (length l1))) as [Hd|Hd].
  - rewrite lookup_app_l by lia. destruct (lookup_lt_is_Some_2 l1 (Z.to_nat mid)) as [e He]; [lia|].
    rewrite He. cbn. rewrite (proj2 (Z.ltb_lt e.1 k)) by (by apply H1, (list_elem_of_lookup_2 _ (Z.to_nat mid))).
    apply IH; lia.
  - rewrite lookup_app_r by lia.
    destruct (lookup_lt_is_Some_2 l2 (Z.to_nat mid - length l1)) as [e He]; [lia|].
    rewrite He. cbn. rewrite (proj2 (Z.ltb_ge e.1 k)) by (by apply H2, (list_elem_of_lookup_2 _ (Z.to_nat mid - length l1))).
    apply IH; lia.
Qed.

Lemma sa_lower_spec s l k :
  sa_rep s l →
  ∃ l1 l2, l = l1 ++ l2 ∧ (∀ e, e ∈ l1 → e.1 < k) ∧ (∀ e, e ∈ l2 → k <= e.1)
         ∧ sa_lower s k = Some (Z.of_nat (length l1)).
Proof.
  intros Hr. destruct (sorted_cut k l (sr_sorted _ _ Hr)) as (l1 & l2 & -> & H1 & H2).
  exists l1, l2. split_and!; try done. pose proof (sa_rep_room _ _ Hr). pose proof (sr_len _ _ Hr) as Hl.
  rewrite length_app in Hl. unfold sa_lower. eapply sa_lower_loop_spec; try done; lia.
Qed.

(** The equality test after the search. *)
Lemma sa_hit s l1 l2 k :
  sa_rep s (l1 ++ l2) →
  (if Z.of_nat (length l1) <? len s
   then x ← arr_get (keys s) (Z.of_nat (length l1)); Some (x =? k) else Some false)
  = Some (match l2 with (k', _) :: _ => k' =? k | [] => false end).
Proof.
  intros Hr. pose proof (sr_len _ _ Hr) as Hl. rewrite length_app in Hl. destruct l2 as [|[k' v'] l2].
  - rewrite (proj2 (Z.ltb_ge _ _)) by (simpl in *; lia). done.
  - rewrite (proj2 (Z.ltb_lt _ _)) by (simpl in *; lia).
    rewrite (sr_key _ _ _ Hr) by (simpl in *; lia).
    rewrite Nat2Z.id, fmap_app. simpl. rewrite lookup_app_r by (by rewrite length_fmap).
    by rewrite length_fmap, Nat.sub_diag.
Qed.

Lemma sa_get_spec s l k : sa_rep s l → sa_get s k = Some (sl_lookup k l).
Proof.
  intros Hr. destruct (sa_lower_spec s l k Hr) as (l1 & l2 & -> & H1 & H2 & Hlow).
  unfold sa_get. rewrite Hlow. cbn [mbind option_bind]. rewrite (sa_hit s l1 l2 k Hr). cbn [mbind option_bind].
  rewrite (sl_lookup_cut l1 l2 k (sr_sorted _ _ Hr) H1 H2).
  destruct l2 as [|[k' v'] l2]; [done|]. destruct (k' =? k); [|done].
  pose proof (sr_len _ _ Hr) as Hl. rewrite length_app in Hl. simpl in Hl.
  rewrite (sr_val _ _ _ Hr) by lia. rewrite Nat2Z.id, fmap_app. simpl.
  rewrite lookup_app_r by (by rewrite length_fmap). by rewrite length_fmap, Nat.sub_diag.
Qed.

Lemma Forall_keys_insert (l1 l2 : assoc) k v :
  is_u32 k → Forall is_u32 (l1 ++ l2).*1 → Forall is_u32 (l1 ++ (k, v) :: l2).*1.
Proof. intros Hk. rewrite !fmap_app, !Forall_app. simpl. intros [? ?]. split; [done|]. by constructor. Qed.

Lemma sa_insert_spec s l k v :
  sa_rep s l → is_u32 k → is_Some (sl_lookup k l) ∨ Z.of_nat (length l) < cap s →
  ∃ s', sa_insert s k v = Some s' ∧ sa_rep s' (sl_insert k v l) ∧ cap s' = cap s.
Proof.
  intros Hr Hk Hroom. destruct (sa_lower_spec s l k Hr) as (l1 & l2 & -> & H1 & H2 & Hlow).
  pose proof (sr_sorted _ _ Hr) as Hs. rewrite (sl_lookup_cut l1 l2 k Hs H1 H2) in Hroom.
  pose proof (sorted_sl_insert k v _ Hs) as Hs'. rewrite (sl_insert_cut l1 l2 k H1 H2 v) in Hs' |- *.
  unfold sa_insert. rewrite Hlow. cbn [mbind option_bind]. rewrite (sa_hit s l1 l2 k Hr). cbn [mbind option_bind].
  pose proof (sr_len _ _ Hr) as Hl. pose proof (sa_rep_room _ _ Hr) as Hrm.
  destruct Hr as [[jk Hkeys] [jv Hvals] _ Hkl Hvl Hc _ Hu]. rewrite length_app in Hl.
  rewrite fmap_app in Hkeys, Hvals.
  assert ((∃ k' v' r, l2 = (k', v') :: r ∧ k' = k) ∨
          (match l2 with (k', _) :: _ => k' =? k | [] => false end = false
           ∧ match l2 with (k', _) :: r => if k' =? k then r else l2 | [] => [] end = l2
           ∧ Z.of_nat (length (l1 ++ l2)) < cap s)) as [(k' & v' & r & -> & ->)|(Hmiss & Hl2 & Hlt)].
  { destruct l2 as [|[k' v'] r]; [right; split_and!; try done; by destruct Hroom as [[? [=]]|?]|].
    destruct (Z.eqb_spec k' k) as [->|Hne]; [left; by eauto 10|].
    right. split_and!; try done. by destruct Hroom as [[? [=]]|?]. }
  - rewrite Z.eqb_refl in *. simpl in Hl. rewrite arr_set_Some by lia. cbn [mbind option_bind].
    eexists. split; [done|]. split; [|done]. constructor; simpl.
    + exists jk. rewrite Hkeys, fmap_app. done.
    + exists jv. rewrite Hvals, fmap_app, <- !(assoc_L (++)). rewrite Nat2Z.id.
      rewrite <- (length_fmap snd), <- (Nat.add_0_r (length l1.*2)). by rewrite insert_app_r.
    + rewrite Hl, length_app. simpl. lia.
    + done.
    + by rewrite length_insert.
    + done.
    + done.
    + rewrite fmap_app in Hu |- *. done.
  - rewrite Hmiss, Hl2. rewrite length_app in Hlt.
    destruct jk as [|yk jk].
    { rewrite Hkeys in Hkl. rewrite !length_app, !length_fmap in Hkl. simpl in *. lia. }
    destruct jv as [|yv jv].
    { rewrite Hvals in Hvl. rewrite !length_app, !length_fmap in Hvl. simpl in *. lia. }
    pose proof (arr_open l1.*1 l2.*1 yk jk k (Z.of_nat (length l1)) (len s - Z.of_nat (length l1))) as Ok.
    pose proof (arr_open l1.*2 l2.*2 yv jv v (Z.of_nat (length l1)) (len s - Z.of_nat (length l1))) as Ov.
    rewrite <- (assoc_L (++)) in Hkeys, Hvals. rewrite <- Hkeys in Ok. rewrite <- Hvals in Ov.
    rewrite !length_fmap in Ok, Ov. specialize (Ok eq_refl ltac:(lia)). specialize (Ov eq_refl ltac:(lia)).
    destruct (arr_move (keys s) _ _ _) as [ks|]; [|done]. destruct (arr_move (vals s) _ _ _) as [vs|]; [|done].
    cbn [mbind option_bind] in *. rewrite Ok, Ov. cbn [mbind option_bind]. eexists. split; [done|]. split; [|done].
    constructor; simpl.
    + exists jk. by rewrite fmap_app, <- (assoc_L (++)).
    + exists jv. by rewrite fmap_app, <- (assoc_L (++)).
    + rewrite u32_small by word_lia. rewrite length_app. simpl. lia.
    + rewrite <- Hkl, Hkeys, !length_app. simpl. rewrite !length_app. simpl. lia.
    + rewrite <- Hvl, Hvals, !length_app. simpl. rewrite !length_app. simpl. lia.
    + done.
    + by rewrite Hl2 in Hs'.
    + by apply Forall_keys_insert.
Qed.

(** Erasing the middle of a three-way cut. *)
Lemma sa_erase_spec s l1 l2 l3 :
  sa_rep s (l1 ++ l2 ++ l3) →
  ∃ s', sa_erase s (Z.of_nat (length l1)) (Z.of_nat (length l2)) = Some s' ∧ sa_rep s' (l1 ++ l3) ∧ cap s' = cap s.
Proof.
  intros Hr. pose proof (sa_rep_room _ _ Hr) as Hrm. pose proof (sr_len _ _ Hr) as Hl.
  destruct Hr as [[jk Hkeys] [jv Hvals] _ Hkl Hvl Hc Hs Hu]. rewrite !length_app in Hl.
  rewrite !fmap_app, <- !(assoc_L (++)) in Hkeys, Hvals.
  unfold sa_erase. rewrite (u32_small (_ + _)) by word_lia. rewrite (u32_small (len s - _ - _)) by word_lia.
  replace (len s - Z.of_nat (length l1) - Z.of_nat (length l2)) with (Z.of_nat (length l3)) by lia.
  destruct (arr_close l1.*1 l2.*1 l3.*1 jk (Z.of_nat (length l1)) (Z.of_nat (length l2))) as (jk' & Ek & Lk);
    [by rewrite length_fmap..|].
  destruct (arr_close l1.*2 l2.*2 l3.*2 jv (Z.of_nat (length l1)) (Z.of_nat (length l2))) as (jv' & Ev & Lv);
    [by rewrite length_fmap..|].
  rewrite length_fmap in Ek, Ev. rewrite Hkeys, Ek, Hvals, Ev. cbn [mbind option_bind].
  eexists. split; [done|]. split; [|done]. constructor; simpl.
  - exists jk'. by rewrite fmap_app, <- (assoc_L (++)).
  - exists jv'. by rewrite fmap_app, <- (assoc_L (++)).
  - rewrite u32_small by word_lia. rewrite length_app. lia.
  - rewrite <- Hkl, Hkeys, !length_app, Lk, !length_fmap. lia.
  - rewrite <- Hvl, Hvals, !length_app, Lv, !length_fmap. lia.
  - done.
  - by apply sorted_drop_middle in Hs.
  - rewrite !fmap_app, Forall_app in Hu. rewrite fmap_app, Forall_app.
    destruct Hu as [? [_ ?]%Forall_app]. done.
Qed.

Lemma sa_remove_spec s l k :
  sa_rep s l → ∃ s', sa_remove s k = Some s' ∧ sa_rep s' (sl_delete k l) ∧ cap s' = cap s.
Proof.
  intros Hr. destruct (sa_lower_spec s l k Hr) as (l1 & l2 & -> & H1 & H2 & Hlow).
  unfold sa_remove. rewrite Hlow. cbn [mbind option_bind]. rewrite (sa_hit s l1 l2 k Hr). cbn [mbind option_bind].
  rewrite (sl_delete_cut l1 l2 k (sr_sorted _ _ Hr) H1 H2).
  destruct l2 as [|[k' v'] l2]; [by exists s|]. destruct (k' =? k); [|by exists s].
  exact (sa_erase_spec s l1 [(k', v')] l2 Hr).
Qed.

Lemma sa_first_spec s l : sa_rep s l → sa_first s = Some (head l).
Proof.
  intros Hr. pose proof (sr_len _ _ Hr) as Hl. unfold sa_first. destruct l as [|[k v] l].
  - by rewrite Hl.
  - rewrite (proj2 (Z.eqb_neq _ _)) by (simpl in *; lia).
    rewrite (sr_key _ _ 0 Hr), (sr_val _ _ 0 Hr) by (simpl in *; lia). done.
Qed.

Lemma sa_visit_spec {S} s l1 l2 l3 (cb : Z → Z → S → S) ctx :
  sa_rep s (l1 ++ l2 ++ l3) →
  sa_visit (length l2) s (Z.of_nat (length l1)) cb ctx = Some (visit cb l2 ctx).
Proof.
  revert l1 ctx. induction l2 as [|[k v] l2 IH]; intros l1 ctx Hr; [done|].
  pose proof (sr_len _ _ Hr) as Hl. rewrite !length_app in Hl. simpl in Hl. cbn [sa_visit length visit].
  rewrite (sr_key _ _ _ Hr), (sr_val _ _ _ Hr) by lia. rewrite Nat2Z.id, !fmap_app.
  rewrite (lookup_app_r l1.*1), (lookup_app_r l1.*2) by (by rewrite length_fmap).
  rewrite !length_fmap, Nat.sub_diag. cbn.
  replace (Z.of_nat (length l1) + 1) with (Z.of_nat (length (l1 ++ [(k, v)]))) by (rewrite length_app; simpl; lia).
  apply IH. by rewrite <- (assoc_L (++)).
Qed.

(** The cut of a range: below [lo], inside, above [hi]. *)
Lemma sa_range_cut s l lo hi :
  sa_rep s l → is_u32 lo → is_u32 hi → lo <= hi →
  ∃ l1 l2 l3, l = l1 ++ l2 ++ l3 ∧ sl_range lo hi l = l2 ∧ sl_outside lo hi l = l1 ++ l3
    ∧ sa_lower s lo = Some (Z.of_nat (length l1))
    ∧ (if hi =? UINT32_MAX then Some (len s) else sa_lower s (hi +w 1))
      = Some (Z.of_nat (length l1) + Z.of_nat (length l2)).
Proof.
  intros Hr Hlo Hhi Hle. destruct (sa_lower_spec s l lo Hr) as (l1 & r & -> & H1 & H2 & Hlow).
  pose proof (sr_sorted _ _ Hr) as Hs. destruct (sorted_app _ _ Hs) as (_ & Hsr & _).
  destruct (sorted_cut (hi + 1) r Hsr) as (l2 & l3 & -> & H3 & H4).
  exists l1, l2, l3. destruct (sl_range_cut l1 l2 l3 lo hi) as [-> ->].
  - done.
  - intros e He. specialize (H3 e He). specialize (H2 e (proj2 (elem_of_app _ _ _) (or_introl He))). lia.
  - intros e He. specialize (H4 e He). lia.
  - done.
  - split_and!; try done. destruct (Z.eqb_spec hi UINT32_MAX) as [->|Hne].
    + assert (l3 = []) as ->.
      { destruct l3 as [|e l3]; [done|]. specialize (H4 e (list_elem_of_here _ _)).
        pose proof (sr_u32 _ _ Hr) as Hu. rewrite !fmap_app, Forall_app in Hu. destruct Hu as [_ [_ Hu]%Forall_app].
        simpl in Hu. apply Forall_cons in Hu as [Hu _]. word_lia. }
      rewrite (sr_len _ _ Hr), !length_app. simpl. f_equal. lia.
    + rewrite u32_small by word_lia. unfold sa_lower.
      rewrite (assoc_L (++)) in Hr. pose proof (sr_len _ _ Hr) as Hl. rewrite !length_app in Hl.
      rewrite (sa_lower_loop_spec _ s (l1 ++ l2) l3 (hi + 1) 0 (len s)); try done; rewrite ?length_app; try lia.
      * f_equal. lia.
      * intros e [He|He]%elem_of_app; [specialize (H1 e He); lia|by apply H3].
Qed.

Lemma sa_remove_range_spec {S} s l lo hi (cb : Z → Z → S → S) ctx :
  sa_rep s l → is_u32 lo → is_u32 hi → lo <= hi →
  ∃ s', sa_remove_range s lo hi cb ctx
        = Some (s', visit cb (sl_range lo hi l) ctx, Z.of_nat (length (sl_range lo hi l)))
      ∧ sa_rep s' (sl_outside lo hi l) ∧ cap s' = cap s.
Proof.
  intros Hr Hlo Hhi Hle.
  destruct (sa_range_cut s l lo hi Hr Hlo Hhi Hle) as (l1 & l2 & l3 & -> & -> & -> & Ha & Hb).
  unfold sa_remove_range. rewrite Ha, Hb. cbn [mbind option_bind].
  pose proof (sa_rep_room _ _ Hr). pose proof (sr_cap _ _ Hr). pose proof (sr_len _ _ Hr) as Hl.
  rewrite !length_app in Hl.
  replace (Z.of_nat (length l1) + Z.of_nat (length l2) - Z.of_nat (length l1)) with (Z.of_nat (length l2)) by lia.
  rewrite Nat2Z.id, (sa_visit_spec s l1 l2 l3 cb ctx Hr). cbn [mbind option_bind].
  rewrite u32_small by word_lia. destruct (sa_erase_spec s l1 l2 l3 Hr) as (s' & -> & Hr' & Hc).
  exists s'. done.
Qed.

Lemma sa_create_spec c a :
  1 <= c < 2 ^ 20 → ∃ s, (sa_create (true, true, true) c a).1 = Some s ∧ sa_rep s [] ∧ cap s = c.
Proof.
  intros Hc. eexists. split; [done|]. split; [|done].
  constructor; simpl; rewrite ?length_replicate; try lia; try (by eexists); constructor.
Qed.

#[export] Instance sa_ops : AltOps sarr := {
  alt_create c := (sa_create (true, true, true) c (Acct 0 0)).1;
  alt_insert := sa_insert; alt_get := sa_get; alt_remove := sa_remove }.
#[export] Instance sa_ordered : AltOrdered sarr := {
  alt_first := sa_first; alt_remove_range := @sa_remove_range }.
#[export, refine] Instance sa_laws : AltMapLaws sarr := {
  alt_rep := sa_rep; alt_cap := cap; alt_key := is_u32 }.
Proof.
  - intros c Hc. by apply sa_create_spec.
  - intros a l k Hr _. by apply sa_get_spec.
Defined.
#[export, refine] Instance sa_ordered_laws : OrderedAlt sarr := {}.
Proof.
  - intros a l Hr. exact (sr_sorted a l Hr).
  - done.
  - intros a l k v Hr Hk Hroom. by apply sa_insert_spec.
  - intros a l k Hr _. by apply sa_remove_spec.
  - intros a l Hr. by apply sa_first_spec.
  - intros S a l hi cb s Hr Hhi _. apply sa_remove_range_spec; try done; word_lia.
Defined.

(** ** Claims *)
(** The binary search ends within [len + 1] rounds, reads inside the
    array, and returns the number of keys below [k]: the first index whose key
    is not below it. *)
Theorem sa_lower_correct s l k :
  sa_rep s l →
  ∃ i, sa_lower s k = Some i ∧ 0 <= i <= len s ∧
    ∀ j x, 0 <= j < len s → arr_get (keys s) j = Some x → (j < i ↔ x < k).
Proof.
  intros Hr. destruct (sa_lower_spec s l k Hr) as (l1 & l2 & -> & H1 & H2 & Hlow).
  pose proof (sr_len _ _ Hr) as Hl. rewrite length_app in Hl.
  exists (Z.of_nat (length l1)). split; [done|]. split; [lia|]. intros j x Hj.
  rewrite (sr_key _ _ j Hr Hj), list_lookup_fmap. intros ([k' v'] & He & ->)%fmap_Some. cbn [fst].
  destruct (decide (j < Z.of_nat (length l1))) as [Hlt|Hge].
  - rewrite lookup_app_l in He by lia. pose proof (H1 _ (list_elem_of_lookup_2 _ _ _ He)) as Hk. cbn [fst] in Hk. lia.
  - rewrite lookup_app_r in He by lia. pose proof (H2 _ (list_elem_of_lookup_2 _ _ _ He)) as Hk. cbn [fst] in Hk. lia.
Qed.


(** ** Witnesses and an inverted range *)
Definition demo_sarr : sarr := Sarr [1; 4; 9; 0; 0; 0] [10; 40; 90; 0; 0; 0] 3 6.
Lemma demo_sa_rep : sa_rep demo_sarr [(1, 10); (4, 40); (9, 90)].
Proof.
  constructor; simpl; try lia; [by exists [0; 0; 0]|by exists [0; 0; 0]| |].
  - repeat constructor; simpl; unfold key_lt; simpl; lia.
  - repeat constructor; word_lia.
Qed.
Lemma sa_lower_correct_witness : ∃ i, sa_lower demo_sarr 5 = Some i ∧ 0 <= i <= 3.
Proof.
  destruct (sa_lower_correct demo_sarr [(1, 10); (4, 40); (9, 90)] 5) as (i & He & Hi & _); [exact demo_sa_rep|].
  exists i. split; [exact He|exact Hi].
Defined.

(** A range whose bounds are swapped is not empty for [sa_remove_range]: the
    length wraps, the tail is copied up and entries appear twice. *)
Example sarr_inverted_range :
  sa_remove_range demo_sarr 9 1 (λ _ _ (n : Z), n + 1) 0
  = Some (Sarr [1; 4; 4; 9; 0; 0] [10; 40; 40; 90; 0; 0] 4 6, 0, 4294967295).
Proof. vm_compute. reflexivity. Qed.
