(* ===== verification/OpenHash.v ===== *)
(** * The open-addressing hash alternative

    Model of the [ohash] part of [src/integrations/stm32h747/alts.c]: linear
    probing with tombstones over a power-of-two table, fixed or doubling.  A
    probe loop takes fuel; [None] is a loop that did not end within it or an
    access outside an array. *)
From stdpp Require Import base numbers list sorting gmap.
From S2P Require Import Prelude Alts.
Open Scope Z_scope.

Definition OH_EMPTY : Z := 4294967295.
Definition OH_TOMB : Z := 4294967294.

Record ohash := Ohash { okeys : list Z; ovals : list Z; mask : Z; olen : Z; used : Z }.

(** FNV-1a over the four key bytes, least significant first. *)
Definition oh_mix (k : Z) : Z :=
  foldl (λ h i, u32 (Z.lxor h (Z.land (Z.shiftr k (8 * i)) 255) * 16777619)) 2166136261 [0; 1; 2; 3].

(** [while (n < cap * 2) n <<= 1], at most 32 doublings of a 32-bit word. *)
Fixpoint oh_size (fuel : nat) (n want : Z) : option Z :=
  match fuel with
  | O => None
  | S fuel => if n <? want then oh_size fuel (n <<w 1) want else Some n
  end.

(** [oks] are the outcomes of the three allocations; [sizeof (ohash)] is 20.
    A [NULL] header or key array is dereferenced at once. *)
Definition oh_create (oks : bool * bool * bool) (cap : Z) (a : acct) : option ohash * acct :=
  let '(ok_h, ok_k, ok_v) := oks in
  match oh_size 32 16 (cap *w 2) with
  | None => (None, a)
  | Some n =>
      let '(p, a) := acct_malloc ok_h 20 a in
      if negb p then (None, a)
      else
        let '(pk, a) := acct_malloc ok_k (n *w 4) a in
        let '(pv, a) := acct_malloc ok_v (n *w 4) a in
        if negb pk then (None, a)
        else (Some (Ohash (replicate (Z.to_nat n) OH_EMPTY)
                      (if pv then replicate (Z.to_nat n) 0 else []) (n - 1) 0 0), a)
  end.
Definition oh_destroy (us : option Z * option Z * option Z) (a : acct) : acct :=
  let '(uk, uv, u) := us in acct_free u (acct_free uv (acct_free uk a)).

(** Writing the new entry, into the remembered tombstone if there is one. *)
Definition oh_place (h : ohash) (k v i : Z) (tomb : option Z) : option ohash :=
  let '(i, us) := match tomb with Some t => (t, used h) | None => (i, used h +w 1) end in
  ks ← arr_set (okeys h) i k;
  vs ← arr_set (ovals h) i v;
  Some (Ohash ks vs (mask h) (olen h +w 1) us).
Fixpoint oh_insert_loop (fuel : nat) (h : ohash) (k v i : Z) (tomb : option Z) : option ohash :=
  match fuel with
  | O => None
  | S fuel =>
      c ← arr_get (okeys h) i;
      if c =? k then vs ← arr_set (ovals h) i v; Some (Ohash (okeys h) vs (mask h) (olen h) (used h))
      else
        let tomb := match tomb with None => if c =? OH_TOMB then Some i else None | t => t end in
        if c =? OH_EMPTY then oh_place h k v i tomb
        else oh_insert_loop fuel h k v (Z.land (i + 1) (mask h)) tomb
  end.
(** One lap of the table and the slot it ends on. *)
Definition oh_fuel (h : ohash) : nat := S (Z.to_nat (mask h)).
Definition oh_insert (h : ohash) (k v : Z) : option ohash :=
  oh_insert_loop (oh_fuel h) h k v (Z.land (oh_mix k) (mask h)) None.

Fixpoint oh_get_loop (fuel : nat) (h : ohash) (k i : Z) : option (option Z) :=
  match fuel with
  | O => None
  | S fuel =>
      c ← arr_get (okeys h) i;
      if c =? k then v ← arr_get (ovals h) i; Some (Some v)
      else if c =? OH_EMPTY then Some None
      else oh_get_loop fuel h k (Z.land (i + 1) (mask h))
  end.
Definition oh_get (h : ohash) (k : Z) : option (option Z) :=
  oh_get_loop (oh_fuel h) h k (Z.land (oh_mix k) (mask h)).

Fixpoint oh_remove_loop (fuel : nat) (h : ohash) (k i : Z) : option ohash :=
  match fuel with
  | O => None
  | S fuel =>
      c ← arr_get (okeys h) i;
      if c =? k then
        ks ← arr_set (okeys h) i OH_TOMB; Some (Ohash ks (ovals h) (mask h) (olen h -w 1) (used h))
      else if c =? OH_EMPTY then Some h
      else oh_remove_loop fuel h k (Z.land (i + 1) (mask h))
  end.
Definition oh_remove (h : ohash) (k : Z) : option ohash :=
  oh_remove_loop (oh_fuel h) h k (Z.land (oh_mix k) (mask h)).

(** The scan over all slots; [n] slots from [i], [cnt] evicted so far. *)
Fixpoint oh_evict_loop (n : nat) (h : ohash) (expired : Z → Z → bool) (i cnt : Z) : option (ohash * Z) :=
  match n with
  | O => Some (h, cnt)
  | S n =>
      c ← arr_get (okeys h) i;
      hit ← (if negb (c =? OH_EMPTY) && negb (c =? OH_TOMB)
             then v ← arr_get (ovals h) i; Some (expired c v) else Some false);
      if (hit : bool) then
        ks ← arr_set (okeys h) i OH_TOMB;
        oh_evict_loop n (Ohash ks (ovals h) (mask h) (olen h -w 1) (used h)) expired (i + 1) (cnt + 1)
      else oh_evict_loop n h expired (i + 1) cnt
  end.
Definition oh_evict_scan (h : ohash) (expired : Z → Z → bool) : option (ohash * Z) :=
  oh_evict_loop (S (Z.to_nat (mask h))) h expired 0 0.

Definition alt_open_hash_bytes (h : ohash) : Z := 20 + (mask h + 1) * 8.
Definition alt_open_hash_shape (h : ohash) : Z * Z := (olen h, mask h + 1).

(** The rehash of [alt_open_hash_insert_grow]: the first empty slot from [j]. *)
Fixpoint oh_free_slot (fuel : nat) (nk : list Z) (m j : Z) : option Z :=
  match fuel with
  | O => None
  | S fuel => c ← arr_get nk j; if c =? OH_EMPTY then Some j else oh_free_slot fuel nk m (Z.land (j + 1) m)
  end.
Fixpoint oh_rehash (n : nat) (h : ohash) (nk nv : list Z) (m i : Z) : option (list Z * list Z) :=
  match n with
  | O => Some (nk, nv)
  | S n =>
      key ← arr_get (okeys h) i;
      if (key =? OH_EMPTY) || (key =? OH_TOMB) then oh_rehash n h nk nv m (i + 1)
      else
        j ← oh_free_slot (S (Z.to_nat m)) nk m (Z.land (oh_mix key) m);
        nk ← arr_set nk j key;
        v ← arr_get (ovals h) i;
        nv ← arr_set nv j v;
        oh_rehash n h nk nv m (i + 1)
  end.
Definition oh_double (h : ohash) : option ohash :=
  let n := (mask h +w 1) *w 2 in
  '(nk, nv) ← oh_rehash (S (Z.to_nat (mask h))) h (replicate (Z.to_nat n) OH_EMPTY)
                (replicate (Z.to_nat n) 0) (n - 1) 0;
  Some (Ohash nk nv (n - 1) (olen h) (olen h)).
(** [us] are the usable sizes of the two old arrays, [t0] and [t1] the cycle
    counter around the doubling; the third result is [*grow_cycles]. *)
Definition alt_open_hash_insert_grow (us : Z * Z) (t0 t1 : Z) (h : ohash) (k v : Z) (a : acct)
  : option (ohash * acct * Z) :=
  if (used h +w 1) *w 2 >? mask h +w 1 then
    let n := (mask h +w 1) *w 2 in
    let '(_, a) := acct_malloc true (n *w 4) a in
    let '(_, a) := acct_malloc true (n *w 4) a in
    h ← oh_double h;
    let a := acct_free (Some us.2) (acct_free (Some us.1) a) in
    h ← oh_insert h k v;
    Some (h, a, t1 -w t0)
  else h ← oh_insert h k v; Some (h, a, 0).

(** ** Concrete runs *)
Definition oh_new (cap : Z) : ohash :=
  default (Ohash [] [] 0 0 0) (oh_create (true, true, true) cap (Acct 0 0)).1.
Example oh_run :
  (h ← oh_insert (oh_new 4) 7 70; h ← oh_insert h 9 90; h ← oh_remove h 7; h ← oh_insert h 7 71;
   a ← oh_get h 7; b ← oh_get h 8; Some (a, b, olen h, used h)) = Some (Some 71, None, 2, 2).
Proof. vm_compute. reflexivity. Qed.
