(* ===== verification/OpenHashProofs.v ===== *)
(** * The open-addressing hash: invariant, refinement and termination

    [oh_inv] is the probing invariant: from a key's home slot to the slot that
    holds it there is no empty slot.  On it the probe loops end within one lap
    as long as one slot is empty, and find, place and drop the key they look
    for.  A table that may grow always keeps an empty slot; one that may not
    loses them to tombstones and its loops stop ending ([oh_churn_diverges]). *)
From stdpp Require Import base numbers list sorting gmap.
From S2P Require Import Prelude Alts OpenHash.
Open Scope Z_scope.

(** ** Generic: counting a list update *)
Lemma count_insert {A} (P : A → Prop) `{!∀ x, Decision (P x)} (l : list A) i x y :
  l !! i = Some y →
  (length (filter P (<[i := x]> l)) + (if decide (P y) then 1 else 0)
   = length (filter P l) + (if decide (P x) then 1 else 0))%nat.
Proof.
  revert i. induction l as [|z l IH]; intros [|i] Hi; simplify_eq/=.
  - rewrite !filter_cons. repeat case_decide; simpl; lia.
  - specialize (IH i Hi). rewrite !filter_cons. destruct (decide (P z)); simpl; lia.
Qed.
Lemma count_lt {A} (P : A → Prop) `{!∀ x, Decision (P x)} (l : list A) :
  (length (filter P l) < length l)%nat → ∃ i x, l !! i = Some x ∧ ¬ P x.
Proof.
  induction l as [|z l IH]; simpl; [lia|]. rewrite filter_cons. case_decide.
  - simpl. intros Hl. destruct IH as (i & x & ? & ?); [lia|]. exists (S i), x. done.
  - intros _. exists 0%nat, z. done.
Qed.

(** ** Slots on a probe path *)
Definition real (k : Z) : Prop := is_u32 k ∧ k ≠ OH_EMPTY ∧ k ≠ OH_TOMB.
#[export] Instance real_dec k : Decision (real k).
Proof. unfold real, is_u32. apply _. Defined.

Definition key_at (ks : list Z) (i : Z) : Z := default OH_EMPTY (arr_get ks i).
(** Slot [e] of the probe path that starts at [i0] in a table of [n] slots. *)
Definition pos (n i0 e : Z) : Z := (i0 + e) mod n.

Record table_shape (ks vs : list Z) (n : Z) : Prop := {
  ts_pow : ∃ p, 0 <= p < 31 ∧ n = 2 ^ p;
  ts_keys : Z.of_nat (length ks) = n;
  ts_vals : Z.of_nat (length vs) = n;
}.
Definition home (n k : Z) : Z := oh_mix k mod n.

(** The probing invariant on the arrays. *)
Record probe_inv (ks : list Z) (n : Z) : Prop := {
  pi_kind i : 0 <= i < n → key_at ks i = OH_EMPTY ∨ key_at ks i = OH_TOMB ∨ real (key_at ks i);
  pi_unique i j : 0 <= i < n → 0 <= j < n → real (key_at ks i) → key_at ks i = key_at ks j → i = j;
  pi_path i : 0 <= i < n → real (key_at ks i) →
    ∃ d, 0 <= d < n ∧ i = pos n (home n (key_at ks i)) d
       ∧ ∀ e, 0 <= e < d → key_at ks (pos n (home n (key_at ks i)) e) ≠ OH_EMPTY;
}.

Section Probe.
Context (ks vs : list Z) (n : Z).
Hypothesis (Hsh : table_shape ks vs n).

Lemma n_pos : 1 <= n < 2 ^ 31.
Proof using Hsh.
  destruct (ts_pow _ _ _ Hsh) as (p & Hp & ->). pose proof (Z.pow_pos_nonneg 2 p).
  pose proof (Z.pow_lt_mono_r 2 p 31). lia.
Qed.
Lemma land_mask x : Z.land x (n - 1) = x mod n.
Proof using Hsh.
  destruct (ts_pow _ _ _ Hsh) as (p & Hp & ->). rewrite <- Z.land_ones by lia.
  by rewrite Z.ones_equiv, Z.sub_1_r.
Qed.
Lemma pos_range i0 e : 0 <= pos n i0 e < n.
Proof using Hsh. unfold pos. apply Z.mod_pos_bound. pose proof n_pos. lia. Qed.
Lemma pos_step i0 e : Z.land (pos n i0 e + 1) (n - 1) = pos n i0 (e + 1).
Proof using Hsh.
  pose proof n_pos. rewrite land_mask. unfold pos. rewrite Zplus_mod_idemp_l. f_equal. lia.
Qed.
Lemma pos_start x : Z.land x (n - 1) = pos n (x mod n) 0.
Proof using Hsh. rewrite land_mask. unfold pos. by rewrite Z.add_0_r, Zmod_mod. Qed.
Lemma pos_surj i0 i : 0 <= i < n → ∃ d, 0 <= d < n ∧ pos n i0 d = i.
Proof using Hsh.
  intros Hi. pose proof n_pos. exists ((i - i0) mod n).
  split; [apply Z.mod_pos_bound; lia|]. unfold pos. rewrite Zplus_mod_idemp_r.
  replace (i0 + (i - i0)) with i by lia. by apply Z.mod_small.
Qed.
Lemma pos_inj i0 d e : 0 <= d < n → 0 <= e < n → pos n i0 d = pos n i0 e → d = e.
Proof using Hsh.
  intros Hd He Heq. unfold pos in Heq. apply (f_equal (λ z, (z - i0) mod n)) in Heq.
  rewrite !Zminus_mod_idemp_l in Heq. rewrite !Z.add_simpl_l in Heq. by rewrite !Z.mod_small in Heq by lia.
Qed.
Lemma key_at_get i : 0 <= i < n → arr_get ks i = Some (key_at ks i).
Proof using Hsh.
  intros Hi. unfold key_at. rewrite <- (ts_keys _ _ _ Hsh) in Hi.
  by destruct (arr_get_is_Some ks i Hi) as [x ->].
Qed.
End Probe.

Lemma key_at_set ks i j x ks' :
  arr_set ks i x = Some ks' → key_at ks' j = if decide (i = j) then x else key_at ks j.
Proof. intros Hs. unfold key_at. rewrite (arr_get_set _ _ _ _ _ Hs). by case_decide. Qed.

(** ** The three loops share one search: where it stops, and the first tombstone *)
Fixpoint oh_stop (fuel : nat) (ks : list Z) (k m i : Z) (tomb : option Z) : option (Z * option Z) :=
  match fuel with
  | O => None
  | S fuel =>
      c ← arr_get ks i;
      if c =? k then Some (i, tomb)
      else
        let tomb := match tomb with None => if c =? OH_TOMB then Some i else None | t => t end in
        if c =? OH_EMPTY then Some (i, tomb) else oh_stop fuel ks k m (Z.land (i + 1) m) tomb
  end.

Lemma get_loop_stop fuel h k i tomb :
  oh_get_loop fuel h k i
  = '(j, _) ← oh_stop fuel (okeys h) k (mask h) i tomb;
    c ← arr_get (okeys h) j;
    if c =? k then v ← arr_get (ovals h) j; Some (Some v) else Some None.
Proof.
  revert i tomb. induction fuel as [|fuel IH]; intros i tomb; [done|]. cbn [oh_get_loop oh_stop].
  destruct (arr_get (okeys h) i) as [c|] eqn:Hc; [|done]. cbn [mbind option_bind].
  destruct (c =? k) eqn:Hk; cbn [mbind option_bind]; [by rewrite Hc; cbn [mbind option_bind]; rewrite Hk|].
  destruct (c =? OH_EMPTY) eqn:He; cbn [mbind option_bind]; [by rewrite Hc; cbn [mbind option_bind]; rewrite Hk|].
  apply IH.
Qed.
Lemma remove_loop_stop fuel h k i tomb :
  oh_remove_loop fuel h k i
  = '(j, _) ← oh_stop fuel (okeys h) k (mask h) i tomb;
    c ← arr_get (okeys h) j;
    if c =? k then
      ks ← arr_set (okeys h) j OH_TOMB; Some (Ohash ks (ovals h) (mask h) (olen h -w 1) (used h))
    else Some h.
Proof.
  revert i tomb. induction fuel as [|fuel IH]; intros i tomb; [done|]. cbn [oh_remove_loop oh_stop].
  destruct (arr_get (okeys h) i) as [c|] eqn:Hc; [|done]. cbn [mbind option_bind].
  destruct (c =? k) eqn:Hk; cbn [mbind option_bind]; [by rewrite Hc; cbn [mbind option_bind]; rewrite Hk|].
  destruct (c =? OH_EMPTY) eqn:He; cbn [mbind option_bind]; [by rewrite Hc; cbn [mbind option_bind]; rewrite Hk|].
  apply IH.
Qed.
Lemma insert_loop_stop fuel h k v i tomb :
  oh_insert_loop fuel h k v i tomb
  = '(j, tomb) ← oh_stop fuel (okeys h) k (mask h) i tomb;
    c ← arr_get (okeys h) j;
    if c =? k then vs ← arr_set (ovals h) j v; Some (Ohash (okeys h) vs (mask h) (olen h) (used h))
    else oh_place h k v j tomb.
Proof.
  revert i tomb. induction fuel as [|fuel IH]; intros i tomb; [done|]. cbn [oh_insert_loop oh_stop].
  destruct (arr_get (okeys h) i) as [c|] eqn:Hc; [|done]. cbn [mbind option_bind].
  destruct (c =? k) eqn:Hk; cbn [mbind option_bind]; [by rewrite Hc; cbn [mbind option_bind]; rewrite Hk|].
  destruct (c =? OH_EMPTY) eqn:He; cbn [mbind option_bind]; [by rewrite Hc; cbn [mbind option_bind]; rewrite Hk|].
  apply IH.
Qed.

Section Stop.
Context (ks vs : list Z) (n : Z).
Hypothesis (Hsh : table_shape ks vs n).
Hypothesis (Hpi : probe_inv ks n).

(** A tombstone remembered on the way to distance [d]. *)
Definition tomb_ok (i0 d : Z) (tomb : option Z) : Prop :=
  match tomb with None => True | Some t => ∃ e, 0 <= e < d ∧ t = pos n i0 e ∧ key_at ks t = OH_TOMB end.

Lemma stop_runs k i0 d :
  (∀ e, 0 <= e < d → key_at ks (pos n i0 e) ≠ k ∧ key_at ks (pos n i0 e) ≠ OH_EMPTY) →
  key_at ks (pos n i0 d) = k ∨ key_at ks (pos n i0 d) = OH_EMPTY →
  ∀ (fuel : nat) e tomb, 0 <= e <= d → d - e < Z.of_nat fuel → tomb_ok i0 e tomb →
  ∃ tomb', oh_stop fuel ks k (n - 1) (pos n i0 e) tomb = Some (pos n i0 d, tomb') ∧ tomb_ok i0 d tomb'.
Proof using Hsh.
  intros Hpre Hend fuel. induction fuel as [|fuel IH]; intros e tomb He Hf Ht; [lia|].
  cbn [oh_stop]. rewrite (key_at_get _ _ _ Hsh) by (eapply pos_range; exact Hsh). cbn [mbind option_bind].
  assert (∀ e', e < e' → tomb_ok i0 e' (match tomb with
            | Some _ => tomb
            | None => if key_at ks (pos n i0 e) =? OH_TOMB then Some (pos n i0 e) else None end)) as Ht'.
  { intros e' He'. destruct tomb as [t|]; simpl in *.
    - destruct Ht as (x & ? & ? & ?). exists x. split_and!; try done; lia.
    - destruct (Z.eqb_spec (key_at ks (pos n i0 e)) OH_TOMB); [|done]. exists e. split_and!; try done; lia. }
  destruct (decide (e = d)) as [->|Hne].
  - destruct (Z.eqb_spec (key_at ks (pos n i0 d)) k); [by exists tomb|]. destruct Hend as [|Hend]; [done|].
    rewrite Hend. cbn. eexists. split; [done|]. rewrite Hend in Ht'. destruct tomb; [done|]. done.
  - destruct (Hpre e) as [H1 H2]; [lia|]. rewrite (proj2 (Z.eqb_neq _ k) H1), (proj2 (Z.eqb_neq _ OH_EMPTY) H2).
    rewrite (pos_step _ _ _ Hsh). apply IH; [lia|lia|]. apply Ht'. lia.
Qed.

(** With an empty slot, or the key in the table, the search stops within one lap. *)
Lemma stop_exists k :
  real k → (∃ i, 0 <= i < n ∧ (key_at ks i = OH_EMPTY ∨ key_at ks i = k)) →
  ∃ d tomb, 0 <= d < n
    ∧ oh_stop (Z.to_nat n) ks k (n - 1) (Z.land (oh_mix k) (n - 1)) None = Some (pos n (home n k) d, tomb)
    ∧ tomb_ok (home n k) d tomb
    ∧ (∀ e, 0 <= e < d → key_at ks (pos n (home n k) e) ≠ k ∧ key_at ks (pos n (home n k) e) ≠ OH_EMPTY)
    ∧ (key_at ks (pos n (home n k) d) = k
       ∨ (key_at ks (pos n (home n k) d) = OH_EMPTY ∧ ∀ i, 0 <= i < n → key_at ks i ≠ k)).
Proof using Hsh Hpi.
  intros Hk (i & Hi & Hki). destruct (pos_surj _ _ _ Hsh (home n k) i Hi) as (d0 & Hd0 & Hp0).
  destruct (first_below (λ e, key_at ks (pos n (home n k) e) = k ∨ key_at ks (pos n (home n k) e) = OH_EMPTY)
              n d0 Hd0) as (d & Hd & Hend & Hmin); [rewrite Hp0; tauto|].
  assert (∀ e, 0 <= e < d → key_at ks (pos n (home n k) e) ≠ k ∧ key_at ks (pos n (home n k) e) ≠ OH_EMPTY) as Hpre
    by (intros e He; specialize (Hmin e He); tauto).
  destruct (stop_runs k (home n k) d Hpre Hend (Z.to_nat n) 0 None) as (tomb & Hs & Ht); [lia|lia|done|].
  exists d, tomb. split; [lia|]. rewrite (pos_start _ _ _ Hsh). split_and!; try done.
  destruct Hend as [|Hend]; [by left|]. right. split; [done|]. intros j Hj Hkj.
  destruct (pi_path _ _ Hpi j Hj) as (dj & Hdj & Hpj & Hne); [by rewrite Hkj|]. rewrite Hkj in *.
  destruct (Z.lt_trichotomy d dj) as [Hlt|[<-|Hgt]].
  - by apply (Hne d); [lia|].
  - rewrite <- Hpj, Hkj in Hend. by destruct Hk as (_ & ? & _).
  - destruct (Hpre dj) as [Hx _]; [lia|]. by rewrite <- Hpj in Hx.
Qed.
End Stop.

(** ** The table invariant and the map it denotes *)
Abbreviation slots h := (mask h + 1).
Record oh_inv (h : ohash) : Prop := {
  oi_shape : table_shape (okeys h) (ovals h) (slots h);
  oi_probe : probe_inv (okeys h) (slots h);
  oi_used : used h = Z.of_nat (length (filter (λ k, k ≠ OH_EMPTY) (okeys h)));
  oi_len : olen h = Z.of_nat (length (filter real (okeys h)));
}.
Definition holds (h : ohash) (k v : Z) : Prop :=
  real k ∧ ∃ i, 0 <= i < slots h ∧ key_at (okeys h) i = k ∧ arr_get (ovals h) i = Some v.
Definition oh_rep (h : ohash) (m : gmap Z Z) : Prop := ∀ k v, m !! k = Some v ↔ holds h k v.

Lemma not_real_empty : ¬ real OH_EMPTY.
Proof. intros (_ & ? & _). done. Qed.
Lemma not_real_tomb : ¬ real OH_TOMB.
Proof. intros (_ & _ & ?). done. Qed.

Lemma real_not_empty k : real k → (OH_EMPTY =? k) = false.
Proof. intros (_ & ? & _). apply Z.eqb_neq. congruence. Qed.

Lemma used_bounds h : oh_inv h → 0 <= olen h <= used h ∧ used h <= slots h.
Proof.
  intros [Hsh _ Hu Hl]. rewrite Hu, Hl.
  pose proof (length_filter (λ k, k ≠ OH_EMPTY) (okeys h)). pose proof (ts_keys _ _ _ Hsh).
  assert (length (filter real (okeys h)) <= length (filter (λ k, k ≠ OH_EMPTY) (okeys h)))%nat; [|lia].
  clear. induction (okeys h) as [|k ks IH]; [done|]. rewrite !filter_cons.
  destruct (decide (real k)) as [(_ & ? & _)|]; [rewrite decide_True by done; simpl; lia|].
  case_decide; simpl; lia.
Qed.
Lemma empty_slot h : oh_inv h → used h < slots h → ∃ i, 0 <= i < slots h ∧ key_at (okeys h) i = OH_EMPTY.
Proof.
  intros [Hsh _ Hu _] Hlt. pose proof (ts_keys _ _ _ Hsh) as Hlen.
  destruct (count_lt (λ k, k ≠ OH_EMPTY) (okeys h)) as (i & x & Hi & Hx); [lia|].
  exists (Z.of_nat i). pose proof (lookup_lt_Some _ _ _ Hi). split; [lia|].
  unfold key_at. rewrite arr_get_nat, Hi. simpl. destruct (decide (x = OH_EMPTY)); [done|tauto].
Qed.

(** Updating one slot of the keys. *)
Lemma slot_update h i x ks' :
  oh_inv h → arr_set (okeys h) i x = Some ks' →
  let old := key_at (okeys h) i in
  table_shape ks' (ovals h) (slots h)
  ∧ Z.of_nat (length (filter (λ k, k ≠ OH_EMPTY) ks'))
    = used h - (if decide (old ≠ OH_EMPTY) then 1 else 0) + (if decide (x ≠ OH_EMPTY) then 1 else 0)
  ∧ Z.of_nat (length (filter real ks'))
    = olen h - (if decide (real old) then 1 else 0) + (if decide (real x) then 1 else 0).
Proof.
  intros [Hsh _ Hu Hl] Hs. pose proof (arr_set_inv _ _ _ _ Hs) as [Hi ->]. simpl.
  assert (okeys h !! Z.to_nat i = Some (key_at (okeys h) i)) as Hlk.
  { rewrite <- (key_at_get _ _ _ Hsh i) by (rewrite <- (ts_keys _ _ _ Hsh); lia).
    unfold arr_get. by rewrite (proj2 (Z.leb_le 0 i)) by lia. }
  split_and!.
  - destruct Hsh as [? Hk ?]. constructor; [done| |done]. by rewrite length_insert.
  - pose proof (count_insert (λ k, k ≠ OH_EMPTY) _ _ x _ Hlk). rewrite Hu. repeat case_decide; lia.
  - pose proof (count_insert real _ _ x _ Hlk). rewrite Hl. repeat case_decide; lia.
Qed.

Lemma probe_place ks vs n k d ks' :
  table_shape ks vs n → probe_inv ks n → real k → (∀ i, 0 <= i < n → key_at ks i ≠ k) → 0 <= d < n →
  (∀ e, 0 <= e < d → key_at ks (pos n (home n k) e) ≠ OH_EMPTY) →
  ¬ real (key_at ks (pos n (home n k) d)) →
  arr_set ks (pos n (home n k) d) k = Some ks' → probe_inv ks' n.
Proof.
  intros Hsh [Hkind Huniq Hpath] Hk Habs Hd Hpre Hslot Hs.
  pose proof (λ j, key_at_set _ _ j _ _ Hs) as Hset. constructor.
  - intros i Hi. rewrite Hset. case_decide; [by right; right|by apply Hkind].
  - intros i j Hi Hj. rewrite !Hset. case_decide as H1; case_decide as H2; subst; try done.
    + intros _ Heq. by destruct (Habs j Hj).
    + intros _ Heq. by destruct (Habs i Hi).
    + by apply Huniq.
  - intros i Hi. rewrite !Hset. destruct (decide (pos n (home n k) d = i)) as [<-|Hne].
    + intros _. exists d. split_and!; try done; [lia|lia|]. intros e He. rewrite Hset. case_decide; [|by apply Hpre].
      destruct Hk as (_ & ? & _). done.
    + intros Hr. destruct (Hpath i Hi Hr) as (di & Hdi & Hp & Hne'). exists di. split_and!; try done; try lia.
      intros e He. rewrite Hset. case_decide; [by destruct Hk as (_ & ? & _)|by apply Hne'].
Qed.
Lemma probe_drop ks vs n i ks' :
  table_shape ks vs n → probe_inv ks n → arr_set ks i OH_TOMB = Some ks' → probe_inv ks' n.
Proof.
  intros Hsh [Hkind Huniq Hpath] Hs. pose proof (λ j, key_at_set _ _ j _ _ Hs) as Hset. constructor.
  - intros j Hj. rewrite Hset. case_decide; [by right; left|by apply Hkind].
  - intros j j' Hj Hj'. rewrite !Hset. case_decide; [by intros ?%not_real_tomb|]. case_decide; [|by apply Huniq].
    intros Hr Heq. rewrite Heq in Hr. by apply not_real_tomb in Hr.
  - intros j Hj. rewrite !Hset. case_decide as Hne; [by intros ?%not_real_tomb|]. intros Hr.
    destruct (Hpath j Hj Hr) as (d & Hd & Hp & Hpre). exists d. split_and!; try done; try lia.
    intros e He. rewrite Hset. case_decide; [done|by apply Hpre].
Qed.

(** *** Lookup *)
Lemma fuel_slots h : oh_inv h → oh_fuel h = Z.to_nat (slots h) ∧ mask h = slots h - 1.
Proof.
  intros [Hsh _ _ _]. pose proof (n_pos _ _ _ Hsh). unfold oh_fuel. split; lia.
Qed.
(** Where the search for [k] stops in a table with an empty slot: at slot [j],
    [d] steps from home. *)
Record stops_at (h : ohash) (k d j : Z) (tomb : option Z) : Prop := {
  st_dist : 0 <= d < slots h;
  st_pos : j = pos (slots h) (home (slots h) k) d;
  st_range : 0 <= j < slots h;
  st_stop : oh_stop (oh_fuel h) (okeys h) k (mask h) (Z.land (oh_mix k) (mask h)) None = Some (j, tomb);
  st_tomb : tomb_ok (okeys h) (slots h) (home (slots h) k) d tomb;
  st_pre : ∀ e, 0 <= e < d → key_at (okeys h) (pos (slots h) (home (slots h) k) e) ≠ OH_EMPTY;
  st_get : arr_get (okeys h) j = Some (key_at (okeys h) j);
  st_end : key_at (okeys h) j = k
           ∨ (key_at (okeys h) j = OH_EMPTY ∧ ∀ i, 0 <= i < slots h → key_at (okeys h) i ≠ k);
}.
Lemma stops h k : oh_inv h → real k → used h < slots h → ∃ d j tomb, stops_at h k d j tomb.
Proof.
  intros Hinv Hk Hu. destruct (empty_slot h Hinv Hu) as (i & Hi & Hie).
  destruct (fuel_slots h Hinv) as [Hf Hmask]. pose proof (oi_shape h Hinv) as Hsh.
  destruct (stop_exists _ _ _ Hsh (oi_probe h Hinv) k Hk) as (d & tomb & Hd & Hstop & Ht & Hpre & Hend); [by eauto|].
  exists d, (pos (slots h) (home (slots h) k) d), tomb.
  pose proof (pos_range _ _ _ Hsh (home (slots h) k) d) as Hp.
  rewrite <- Hmask, <- Hf in Hstop. constructor; try done.
  - intros e He. apply (Hpre e He).
  - by apply (key_at_get _ _ _ Hsh).
Qed.
Lemma val_at h i : oh_inv h → 0 <= i < slots h → is_Some (arr_get (ovals h) i).
Proof. intros [Hsh _ _ _] Hi. apply arr_get_is_Some. by rewrite (ts_vals _ _ _ Hsh). Qed.

Lemma oh_get_at h k d j tomb :
  stops_at h k d j tomb →
  oh_get h k = if key_at (okeys h) j =? k then v ← arr_get (ovals h) j; Some (Some v) else Some None.
Proof.
  intros []. etrans; [exact (get_loop_stop (oh_fuel h) h k (Z.land (oh_mix k) (mask h)) None)|].
  rewrite st_stop0. cbn [mbind option_bind]. by rewrite st_get0.
Qed.
Lemma oh_remove_at h k d j tomb :
  stops_at h k d j tomb →
  oh_remove h k
  = if key_at (okeys h) j =? k then
      ks ← arr_set (okeys h) j OH_TOMB; Some (Ohash ks (ovals h) (mask h) (olen h -w 1) (used h))
    else Some h.
Proof.
  intros []. etrans; [exact (remove_loop_stop (oh_fuel h) h k (Z.land (oh_mix k) (mask h)) None)|].
  rewrite st_stop0. cbn [mbind option_bind]. by rewrite st_get0.
Qed.
Lemma oh_insert_at h k v d j tomb :
  stops_at h k d j tomb →
  oh_insert h k v
  = if key_at (okeys h) j =? k
    then vs ← arr_set (ovals h) j v; Some (Ohash (okeys h) vs (mask h) (olen h) (used h))
    else oh_place h k v j tomb.
Proof.
  intros []. etrans; [exact (insert_loop_stop (oh_fuel h) h k v (Z.land (oh_mix k) (mask h)) None)|].
  rewrite st_stop0. cbn [mbind option_bind]. by rewrite st_get0.
Qed.

Lemma oh_get_spec h m k :
  oh_inv h → oh_rep h m → real k → used h < slots h → oh_get h k = Some (m !! k).
Proof.
  intros Hinv Hm Hk Hu. destruct (stops h k Hinv Hk Hu) as (d & j & tomb & Hst).
  rewrite (oh_get_at _ _ _ _ _ Hst). destruct Hst as [Hd _ Hp _ _ _ _ Hend].
  destruct Hend as [Hhit|[Hmiss Habs]].
  - rewrite Hhit, Z.eqb_refl. destruct (val_at h j Hinv Hp) as [v Hv].
    rewrite Hv. cbn. f_equal. symmetry. apply Hm. split; [done|]. by eauto.
  - rewrite Hmiss. rewrite (real_not_empty k Hk).
    f_equal. symmetry. apply eq_None_not_Some. intros [v (_ & x & Hx & Hkx & _)%Hm]. by destruct (Habs x Hx).
Qed.

(** *** Removal *)
Lemma holds_unique h i k v :
  oh_inv h → 0 <= i < slots h → key_at (okeys h) i = k → holds h k v → arr_get (ovals h) i = Some v.
Proof.
  intros Hinv Hi Hk (Hr & j & Hj & Hkj & Hv).
  rewrite (pi_unique _ _ (oi_probe h Hinv) i j); [done|done|done|by rewrite Hk|congruence].
Qed.

Lemma real_len h i ks' :
  oh_inv h → real (key_at (okeys h) i) → arr_set (okeys h) i OH_TOMB = Some ks' → 0 < olen h.
Proof.
  intros Hinv Hr Hs. destruct (slot_update h i _ _ Hinv Hs) as (_ & _ & Hl).
  rewrite (decide_True (P := real (key_at _ _))), (decide_False (P := real OH_TOMB)) in Hl
    by (done || exact not_real_tomb). lia.
Qed.

Lemma drop_slot h m i ks' :
  oh_inv h → oh_rep h m → 0 <= i < slots h → real (key_at (okeys h) i) →
  arr_set (okeys h) i OH_TOMB = Some ks' →
  let h' := Ohash ks' (ovals h) (mask h) (olen h -w 1) (used h) in
  oh_inv h' ∧ oh_rep h' (delete (key_at (okeys h) i) m).
Proof.
  intros Hinv Hm Hi Hr Hs. destruct (slot_update h i _ ks' Hinv Hs) as (Hsh' & Hu' & Hl').
  pose proof (used_bounds h Hinv) as Hb. pose proof (n_pos _ _ _ (oi_shape h Hinv)) as Hn.
  rewrite (decide_False (P := real OH_TOMB)) in Hl' by exact not_real_tomb.
  rewrite (decide_True (P := real _)) in Hl' by done.
  rewrite (decide_True (P := OH_TOMB ≠ OH_EMPTY)) in Hu' by done.
  rewrite (decide_True (P := key_at _ _ ≠ OH_EMPTY)) in Hu' by (by destruct Hr as (_ & ? & _)).
  split.
  - constructor; simpl; [done| |lia|].
    + exact (probe_drop _ _ _ _ _ (oi_shape h Hinv) (oi_probe h Hinv) Hs).
    + rewrite u32_small; [lia|]. split; [lia|word_lia].
  - intros k v. rewrite lookup_delete_Some, (Hm k v). unfold holds. simpl. setoid_rewrite (key_at_set _ _ _ _ _ Hs).
    split.
    + intros (Hne & Hk & j & Hj & Hkj & Hv). split; [done|]. exists j. split; [done|].
      rewrite decide_False; [done|]. intros ->. congruence.
    + intros (Hk & j & Hj & Hkj & Hv). case_decide as Hd; [subst; by apply not_real_tomb in Hk|].
      split; [|by eauto 10]. intros Heq. apply Hd. apply (pi_unique _ _ (oi_probe h Hinv)); try done. congruence.
Qed.

Lemma oh_remove_spec h m k :
  oh_inv h → oh_rep h m → real k → used h < slots h →
  ∃ h', oh_remove h k = Some h' ∧ oh_inv h' ∧ oh_rep h' (delete k m) ∧ mask h' = mask h ∧ used h' = used h.
Proof.
  intros Hinv Hm Hk Hu. destruct (stops h k Hinv Hk Hu) as (d & j & tomb & Hst).
  pose proof (oi_shape h Hinv) as Hsh.
  rewrite (oh_remove_at _ _ _ _ _ Hst). destruct Hst as [Hd _ Hp _ _ _ _ Hend].
  destruct Hend as [Hhit|[Hmiss Habs]].
  - rewrite Hhit, Z.eqb_refl.
    pose proof (arr_set_Some (okeys h) j OH_TOMB) as Hs.
    rewrite (ts_keys _ _ _ Hsh) in Hs. specialize (Hs Hp). rewrite Hs. cbn [mbind option_bind].
    assert (real (key_at (okeys h) j)) as Hr by (by rewrite Hhit).
    destruct (drop_slot h m _ _ Hinv Hm Hp Hr Hs) as [Hinv' Hm'].
    rewrite Hhit in Hm'. eexists. split; [done|]. done.
  - rewrite Hmiss. rewrite (real_not_empty k Hk).
    exists h. split_and!; try done. rewrite delete_id; [done|].
    apply eq_None_not_Some. intros [v (_ & x & Hx & Hkx & _)%Hm]. by destruct (Habs x Hx).
Qed.

(** *** Insertion *)
Lemma update_value h m k v i vs' :
  oh_inv h → oh_rep h m → real k → 0 <= i < slots h → key_at (okeys h) i = k →
  arr_set (ovals h) i v = Some vs' →
  let h' := Ohash (okeys h) vs' (mask h) (olen h) (used h) in oh_inv h' ∧ oh_rep h' (<[k := v]> m).
Proof.
  intros Hinv Hm Hk Hi Hki Hs. split.
  - destruct Hinv as [[? ? Hv] ? ? ?]. constructor; simpl; try done. constructor; try done.
    by rewrite (arr_set_length _ _ _ _ Hs).
  - intros k' v'. unfold holds. simpl. setoid_rewrite (arr_get_set _ _ _ _ _ Hs). rewrite lookup_insert_Some, (Hm k' v'). split.
    + intros [[<- <-]|[Hne (Hk' & j & Hj & Hkj & Hv)]].
      * split; [done|]. exists i. by rewrite decide_True.
      * split; [done|]. exists j. rewrite decide_False; [done|]. congruence.
    + intros (Hk' & j & Hj & Hkj & Hv). case_decide as Hd; subst.
      * left. by simplify_eq.
      * right. split; [|split; by eauto]. intros Heq. apply Hd. by apply (pi_unique _ _ (oi_probe h Hinv)); try done.
Qed.

Lemma place_slot h m k v d ks' vs' len' used' :
  oh_inv h → oh_rep h m → real k → 0 <= d < slots h →
  (∀ e, 0 <= e < d → key_at (okeys h) (pos (slots h) (home (slots h) k) e) ≠ OH_EMPTY) →
  let i := pos (slots h) (home (slots h) k) d in
  ¬ real (key_at (okeys h) i) → (∀ j, 0 <= j < slots h → key_at (okeys h) j ≠ k) →
  arr_set (okeys h) i k = Some ks' → arr_set (ovals h) i v = Some vs' →
  len' = olen h + 1 → used' = used h + (if decide (key_at (okeys h) i = OH_EMPTY) then 1 else 0) →
  let h' := Ohash ks' vs' (mask h) len' used' in oh_inv h' ∧ oh_rep h' (<[k := v]> m).
Proof.
  intros Hinv Hm Hk Hd Hpre i Hni Habs Hs Hsv -> ->.
  destruct (slot_update h i _ ks' Hinv Hs) as (Hsh' & Hu' & Hl'). split.
  - constructor; simpl.
    + destruct Hsh'. constructor; try done. by rewrite (arr_set_length _ _ _ _ Hsv).
    + by apply (probe_place _ _ _ k d ks' (oi_shape h Hinv) (oi_probe h Hinv)).
    + rewrite Hu'. destruct Hk as (_ & He & _). rewrite (decide_True (P := k ≠ OH_EMPTY)) by done.
      repeat case_decide; lia.
    + rewrite Hl'. rewrite (decide_False (P := real (key_at _ _))), (decide_True (P := real k)) by done. lia.
  - intros k' v'. unfold holds. simpl. setoid_rewrite (arr_get_set _ _ _ _ _ Hsv).
    setoid_rewrite (key_at_set _ _ _ _ _ Hs). rewrite lookup_insert_Some, (Hm k' v').
    assert (0 <= i < slots h) as Hi by apply (pos_range _ _ _ (oi_shape h Hinv)). split.
    + intros [[<- <-]|[Hne (Hk' & j & Hj & Hkj & Hv)]].
      * split; [done|]. exists i. by rewrite !decide_True.
      * split; [done|]. exists j. destruct (decide (i = j)) as [->|]; [|done]. by rewrite Hkj in Hni.
    + intros (Hk' & j & Hj & Hkj & Hv). case_decide as Hdj; simplify_eq; [by left|].
      right. split; [|split; by eauto]. intros ->. by destruct (Habs j Hj).
Qed.

Lemma oh_insert_spec h m k v :
  oh_inv h → oh_rep h m → real k → used h < slots h →
  ∃ h', oh_insert h k v = Some h' ∧ oh_inv h' ∧ oh_rep h' (<[k := v]> m) ∧ mask h' = mask h
      ∧ used h <= used h' <= used h + (if decide (is_Some (m !! k)) then 0 else 1).
Proof.
  intros Hinv Hm Hk Hu. destruct (stops h k Hinv Hk Hu) as (d & p & tomb & Hst).
  pose proof (oi_shape h Hinv) as Hsh.
  rewrite (oh_insert_at _ _ _ _ _ _ Hst). destruct Hst as [Hd Hpos Hp _ Htomb Hpre _ Hend].
  pose proof (used_bounds h Hinv) as Hb. pose proof (n_pos _ _ _ Hsh) as Hn.
  assert (∀ j x, 0 <= j < slots h → arr_set (okeys h) j x = Some (<[Z.to_nat j := x]> (okeys h))) as Hsk
    by (intros; apply arr_set_Some; by rewrite (ts_keys _ _ _ Hsh)).
  assert (∀ j x, 0 <= j < slots h → arr_set (ovals h) j x = Some (<[Z.to_nat j := x]> (ovals h))) as Hsv
    by (intros; apply arr_set_Some; by rewrite (ts_vals _ _ _ Hsh)).
  destruct Hend as [Hhit|[Hmiss Habs]].
  - rewrite Hhit, Z.eqb_refl, Hsv by done. cbn [mbind option_bind].
    destruct (update_value h m k v p _ Hinv Hm Hk Hp Hhit (Hsv p v Hp)) as [Hinv' Hm'].
    eexists. split; [reflexivity|]. split; [exact Hinv'|]. split; [exact Hm'|]. split; [reflexivity|].
    cbn [used]. case_decide; lia.
  - rewrite Hmiss. rewrite (real_not_empty k Hk).
    assert (m !! k = None) as Hfresh.
    { apply eq_None_not_Some. intros [w (_ & j & Hj & Hkj & _)%Hm]. by destruct (Habs j Hj). }
    rewrite Hfresh. rewrite (decide_False (P := is_Some None)) by (by intros [? ?]).
    unfold oh_place. destruct tomb as [t|]; cbn [mbind option_bind].
    + destruct Htomb as (e & He & -> & Hte). set (q := pos (slots h) (home (slots h) k) e) in *.
      assert (0 <= q < slots h) as Hq by apply (pos_range _ _ _ Hsh).
      rewrite Hsk, Hsv by done. cbn [mbind option_bind].
      assert (¬ real (key_at (okeys h) q)) as Hnr by (rewrite Hte; exact not_real_tomb).
      destruct (place_slot h m k v e _ _ _ _ Hinv Hm Hk ltac:(lia)
                  (λ x Hx, Hpre x ltac:(lia)) Hnr Habs (Hsk q k Hq) (Hsv q v Hq) eq_refl eq_refl) as [Hinv' Hm'].
      eexists. split; [reflexivity|]. fold q in Hinv', Hm'. rewrite Hte in Hinv', Hm'.
      rewrite decide_False, Z.add_0_r in Hinv', Hm' by done. rewrite u32_small by word_lia.
      split; [exact Hinv'|]. split; [exact Hm'|]. split; [reflexivity|]. cbn [used]. lia.
    + rewrite Hsk, Hsv by done. cbn [mbind option_bind].
      assert (¬ real (key_at (okeys h) p)) as Hnr by (rewrite Hmiss; exact not_real_empty).
      subst p. destruct (place_slot h m k v d _ _ _ _ Hinv Hm Hk Hd Hpre Hnr Habs (Hsk _ k Hp) (Hsv _ v Hp) eq_refl eq_refl) as [Hinv' Hm'].
      eexists. split; [reflexivity|]. rewrite Hmiss in Hinv', Hm'.
      rewrite decide_True in Hinv', Hm' by done. rewrite !u32_small by word_lia.
      split; [exact Hinv'|]. split; [exact Hm'|]. split; [reflexivity|]. cbn [used]. lia.
Qed.

(** *** Creation *)
Lemma oh_size_spec (fuel : nat) a top want :
  0 <= a <= top → top <= 30 → want <= 2 ^ top → top - a < Z.of_nat fuel →
  ∃ b, a <= b <= top ∧ oh_size fuel (2 ^ a) want = Some (2 ^ b) ∧ want <= 2 ^ b.
Proof.
  revert a. induction fuel as [|fuel IH]; intros a Ha Htop Hw Hf; [lia|]. cbn [oh_size].
  destruct (Z.ltb_spec (2 ^ a) want) as [Hlt|Hge]; [|exists a; split_and!; (done || lia)].
  assert (a < top) by (apply (Z.pow_lt_mono_r_iff 2); lia).
  replace (Z.shiftl (2 ^ a) 1) with (2 ^ (a + 1)) by (rewrite Z.shiftl_mul_pow2, Z.pow_add_r by lia; lia).
  pose proof (Z.pow_lt_mono_r 2 (a + 1) 32). pose proof (Z.pow_pos_nonneg 2 (a + 1)).
  rewrite u32_small by (split; lia).
  destruct (IH (a + 1)) as (b & Hb & He & Hwb); [lia..|]. exists b. split_and!; try done; lia.
Qed.

Lemma key_at_replicate n i : key_at (replicate n OH_EMPTY) i = OH_EMPTY.
Proof.
  unfold key_at. destruct (arr_get _ i) as [x|] eqn:Hx; [|done].
  by apply arr_get_elem_of, elem_of_replicate in Hx as [-> _].
Qed.
Lemma filter_replicate_empty (P : Z → Prop) `{!∀ x, Decision (P x)} n :
  ¬ P OH_EMPTY → filter P (replicate n OH_EMPTY) = [].
Proof. intros HP. induction n as [|n IH]; [done|]. simpl. by rewrite filter_cons, decide_False by done. Qed.

(** A table of empty slots. *)
Lemma empty_table p :
  0 <= p < 31 →
  let h := Ohash (replicate (Z.to_nat (2 ^ p)) OH_EMPTY) (replicate (Z.to_nat (2 ^ p)) 0) (2 ^ p - 1) 0 0 in
  oh_inv h ∧ oh_rep h ∅.
Proof.
  intros Hp. pose proof (Z.pow_pos_nonneg 2 p). split.
  - constructor; cbn [okeys ovals mask olen used].
    + replace (2 ^ p - 1 + 1) with (2 ^ p) by lia.
      constructor; [by exists p| |]; rewrite length_replicate; lia.
    + constructor.
      * intros i _. left. apply key_at_replicate.
      * intros i j _ _ Hr. rewrite key_at_replicate in Hr. by apply not_real_empty in Hr.
      * intros i _ Hr. rewrite key_at_replicate in Hr. by apply not_real_empty in Hr.
    + rewrite filter_replicate_empty; [done|tauto].
    + rewrite filter_replicate_empty; [done|exact not_real_empty].
  - intros k v. rewrite lookup_empty. split; [done|]. intros (Hr & i & _ & Hk & _).
    cbn [okeys] in Hk. rewrite key_at_replicate in Hk. subst. by apply not_real_empty in Hr.
Qed.

Lemma oh_create_spec cap a :
  1 <= cap <= 2 ^ 28 →
  ∃ h, (oh_create (true, true, true) cap a).1 = Some h ∧ oh_inv h ∧ oh_rep h ∅ ∧ used h = 0
     ∧ 2 * cap <= slots h <= 2 ^ 29 ∧ 16 <= slots h.
Proof.
  intros Hc. destruct (oh_size_spec 32 4 29 (cap * 2)) as (b & Hb & He & Hw); [lia..|].
  pose proof (Z.pow_le_mono_r 2 b 29). pose proof (Z.pow_le_mono_r 2 4 b). unfold oh_create. rewrite (u32_small (cap * 2)) by word_lia. change 16 with (2 ^ 4). rewrite He.
  eexists. split; [done|]. destruct (empty_table b) as [Hi Hr]; [lia|].
  split; [exact Hi|]. split; [exact Hr|]. split; [done|]. cbn [mask]. lia.
Qed.

(** *** Doubling *)
Lemma free_slot_stop fuel ks m j tomb : oh_free_slot fuel ks m j = fst <$> oh_stop fuel ks OH_EMPTY m j tomb.
Proof.
  revert j tomb. induction fuel as [|fuel IH]; intros j tomb; [done|]. cbn [oh_free_slot oh_stop].
  destruct (arr_get ks j) as [c|]; [|done]. cbn [mbind option_bind].
  destruct (c =? OH_EMPTY); [done|]. apply IH.
Qed.
Lemma free_slot_spec h k :
  oh_inv h → used h < slots h →
  ∃ d j, 0 <= d < slots h ∧ j = pos (slots h) (home (slots h) k) d ∧ 0 <= j < slots h
    ∧ oh_free_slot (S (Z.to_nat (mask h))) (okeys h) (mask h) (Z.land (oh_mix k) (mask h)) = Some j
    ∧ (∀ e, 0 <= e < d → key_at (okeys h) (pos (slots h) (home (slots h) k) e) ≠ OH_EMPTY)
    ∧ key_at (okeys h) j = OH_EMPTY.
Proof.
  intros Hinv Hu. destruct (empty_slot h Hinv Hu) as (i & Hi & Hie). pose proof (oi_shape h Hinv) as Hsh.
  destruct (pos_surj _ _ _ Hsh (home (slots h) k) i Hi) as (d0 & Hd0 & Hp0).
  destruct (first_below (λ e, key_at (okeys h) (pos (slots h) (home (slots h) k) e) = OH_EMPTY) (slots h) d0 Hd0)
    as (d & Hd & Hend & Hmin); [by rewrite Hp0|].
  exists d, (pos (slots h) (home (slots h) k) d). pose proof (pos_range _ _ _ Hsh (home (slots h) k) d).
  assert (∀ e, 0 <= e < d → key_at (okeys h) (pos (slots h) (home (slots h) k) e) ≠ OH_EMPTY
                          ∧ key_at (okeys h) (pos (slots h) (home (slots h) k) e) ≠ OH_EMPTY) as Hpre
    by (intros e He; split; by apply Hmin).
  destruct (fuel_slots h Hinv) as [Hf Hmask]. unfold oh_fuel in Hf.
  destruct (stop_runs _ _ _ Hsh OH_EMPTY (home (slots h) k) d Hpre (or_introl Hend)
              (S (Z.to_nat (mask h))) 0 None) as (tomb & Hs & _); [lia|lia|done|].
  pose proof (pos_start _ _ _ Hsh (oh_mix k)) as Hst. fold (home (slots h) k) in Hst.
  rewrite <- Hst, <- Hmask in Hs. rewrite (free_slot_stop _ _ _ _ None), Hs.
  split_and!; try done; lia.
Qed.

(** The entries of the first [i] slots. *)
Definition holds_below (h : ohash) (i k v : Z) : Prop :=
  real k ∧ ∃ j, 0 <= j < i ∧ key_at (okeys h) j = k ∧ arr_get (ovals h) j = Some v.

(** One entry moved into the new table. *)
Lemma rehash_place nk nv m c mm k v :
  let h' := Ohash nk nv m c c in
  oh_inv h' → oh_rep h' mm → real k → (∀ w, mm !! k ≠ Some w) → c < m + 1 →
  ∃ j nk' nv', oh_free_slot (S (Z.to_nat m)) nk m (Z.land (oh_mix k) m) = Some j
    ∧ arr_set nk j k = Some nk' ∧ arr_set nv j v = Some nv'
    ∧ oh_inv (Ohash nk' nv' m (c + 1) (c + 1)) ∧ oh_rep (Ohash nk' nv' m (c + 1) (c + 1)) (<[k := v]> mm).
Proof.
  intros h' Hinv Hrep Hk Hnew Hc. pose proof (oi_shape h' Hinv) as Hsh.
  destruct (free_slot_spec h' k Hinv Hc) as (d & j & Hd & Hj & Hjr & Hfs & Hpre & Hje).
  assert (∀ x, 0 <= x < slots h' → key_at (okeys h') x ≠ k) as Habs.
  { intros x Hx Hkx. destruct (val_at h' x Hinv Hx) as [w Hw].
    apply (Hnew w), Hrep. split; [done|by eauto]. }
  pose proof (arr_set_Some (okeys h') j k) as Hsk. pose proof (arr_set_Some (ovals h') j v) as Hsv.
  rewrite (ts_keys _ _ _ Hsh) in Hsk. rewrite (ts_vals _ _ _ Hsh) in Hsv.
  specialize (Hsk Hjr). specialize (Hsv Hjr). eexists j, _, _. split; [exact Hfs|].
  split; [exact Hsk|]. split; [exact Hsv|]. subst j.
  apply (place_slot h' mm k v d); try done; [rewrite Hje; exact not_real_empty|].
  rewrite Hje. by rewrite decide_True.
Qed.

Lemma rehash_spec (n : nat) h i m nk nv c mm :
  oh_inv h → 0 <= i → i + Z.of_nat n = slots h →
  let h' := Ohash nk nv m c c in
  oh_inv h' → oh_rep h' mm → (∀ k v, mm !! k = Some v ↔ holds_below h i k v) → c <= i →
  slots h < m + 1 →
  ∃ nk' nv' c', oh_rehash n h nk nv m i = Some (nk', nv')
    ∧ oh_inv (Ohash nk' nv' m c' c') ∧ c' = c + Z.of_nat (length (filter real (drop (Z.to_nat i) (okeys h))))
    ∧ ∃ mm', oh_rep (Ohash nk' nv' m c' c') mm' ∧ ∀ k v, mm' !! k = Some v ↔ holds_below h (slots h) k v.
Proof.
  intros Hinv. revert i nk nv c mm. induction n as [|n IH]; intros i nk nv c mm Hi Hn h' Hinv' Hrep Hmm Hc Hsl.
  - exists nk, nv, c. pose proof (ts_keys _ _ _ (oi_shape h Hinv)).
    rewrite drop_ge by lia. split_and!; try done; [simpl; lia|]. exists mm. split; [done|].
    by replace (slots h) with i by lia.
  - pose proof (oi_shape h Hinv) as Hsh. cbn [oh_rehash].
    rewrite (key_at_get _ _ _ Hsh) by lia. cbn [mbind option_bind].
    assert (okeys h !! Z.to_nat i = Some (key_at (okeys h) i)) as Hlk.
    { rewrite <- (key_at_get _ _ _ Hsh i) by lia. unfold arr_get. by rewrite (proj2 (Z.leb_le 0 i)) by lia. }
    rewrite (drop_S _ _ _ Hlk), filter_cons. replace (S (Z.to_nat i)) with (Z.to_nat (i + 1)) by lia.
    destruct (decide (real (key_at (okeys h) i))) as [Hr|Hr].
    + pose proof Hr as (_ & He & Ht).
      rewrite (proj2 (Z.eqb_neq _ _) He), (proj2 (Z.eqb_neq _ _) Ht). cbn [orb].
      set (k := key_at (okeys h) i) in *.
      assert (∀ w, mm !! k ≠ Some w) as Habs.
      { intros w Hw. apply Hmm in Hw as (_ & y & Hy & Hky & _).
        assert (y = i); [|lia]. apply (pi_unique _ _ (oi_probe h Hinv)); [lia|lia|by rewrite Hky|exact Hky]. }
      destruct (val_at h i Hinv) as [v Hv]; [lia|].
      destruct (rehash_place nk nv m c mm k v Hinv' Hrep Hr Habs) as (j & nk2 & nv2 & -> & Hk2 & Hv2 & Hinv2 & Hrep2); [lia|].
      cbn [mbind option_bind]. rewrite Hk2. cbn [mbind option_bind]. rewrite Hv. cbn [mbind option_bind].
      rewrite Hv2. cbn [mbind option_bind].
      destruct (IH (i + 1) _ _ (c + 1) (<[k := v]> mm) ltac:(lia) ltac:(lia) Hinv2 Hrep2) as (nk' & nv' & c' & -> & Hi' & -> & Hmm');
        [|lia|lia|].
      * intros k' v'. rewrite lookup_insert_Some, (Hmm k' v'). unfold holds_below. split.
        -- intros [[<- <-]|(Hne & Hk' & y & Hy & Hrest)]; (split; [done|]); [exists i|exists y]; split; (done || lia).
        -- intros (Hk' & y & Hy & Hky & Hvy). destruct (decide (y = i)) as [->|Hne].
           ++ left. unfold k. rewrite <- Hky. split; congruence.
           ++ right. split; [|split; [done|exists y; split; [lia|done]]]. intros Heq. apply Hne.
              apply (pi_unique _ _ (oi_probe h Hinv)); [lia|lia|by rewrite Hky|by rewrite Hky].
      * eexists nk', nv', _. split; [done|]. split; [exact Hi'|]. split; [cbn [length]; lia|done].
    + assert ((key_at (okeys h) i =? OH_EMPTY) || (key_at (okeys h) i =? OH_TOMB) = true) as ->.
      { destruct (pi_kind _ _ (oi_probe h Hinv) i) as [->|[->|]]; [lia|by rewrite Z.eqb_refl|..|done].
        rewrite Z.eqb_refl. apply orb_true_r. }
      apply (IH (i + 1) nk nv c mm); try done; try lia. intros k v. rewrite (Hmm k v). unfold holds_below. split.
      * intros (Hk & y & Hy & Hrest). split; [done|]. exists y. split; [lia|done].
      * intros (Hk & y & Hy & Hky & Hvy). split; [done|]. exists y. split; [|done].
        destruct (decide (y = i)) as [->|]; [by rewrite Hky in Hr|lia].
Qed.

Lemma oh_double_spec h m :
  oh_inv h → oh_rep h m → slots h <= 2 ^ 29 →
  ∃ h', oh_double h = Some h' ∧ oh_inv h' ∧ oh_rep h' m ∧ slots h' = 2 * slots h ∧ used h' = olen h.
Proof.
  intros Hinv Hrep Hsl. pose proof (n_pos _ _ _ (oi_shape h Hinv)) as Hn.
  destruct (ts_pow _ _ _ (oi_shape h Hinv)) as (p & Hp & Hpow).
  assert (2 ^ (p + 1) = 2 * slots h) as Hpow' by (rewrite Hpow, Z.pow_add_r by lia; lia).
  assert (p <= 29) by (apply (Z.pow_le_mono_r_iff 2); lia).
  destruct (empty_table (p + 1)) as [Hi0 Hr0]; [lia|]. rewrite Hpow' in Hi0, Hr0.
  destruct (rehash_spec (S (Z.to_nat (mask h))) h 0 _ _ _ _ ∅ Hinv ltac:(lia) ltac:(lia) Hi0 Hr0)
    as (nk & nv & c & Hre & Hi1 & Hc & mm & Hr1 & Hmm).
  { intros k v. rewrite lookup_empty. split; [done|]. intros (_ & j & Hj & _). lia. }
  { lia. } { lia. }
  rewrite drop_0, <- (oi_len h Hinv), Z.add_0_l in Hc. subst c.
  unfold oh_double. rewrite (u32_small (mask h + 1)) by word_lia. rewrite u32_small by word_lia.
  rewrite (Z.mul_comm (slots h) 2), Hre. cbn [mbind option_bind]. eexists. split; [reflexivity|].
  assert (mm = m) as ->.
  { apply map_eq. intros k. apply option_eq. intros v. rewrite (Hmm k v), (Hrep k v). done. }
  split; [exact Hi1|]. split; [exact Hr1|]. cbn [mask used]. split; [lia|done].
Qed.

(** *** Eviction by scanning *)
Definition evicted (h : ohash) (expired : Z → Z → bool) (i j : Z) : Prop :=
  i <= j < slots h ∧ real (key_at (okeys h) j)
  ∧ expired (key_at (okeys h) j) (default 0 (arr_get (ovals h) j)) = true.
#[local] Instance evicted_dec h expired i j : Decision (evicted h expired i j).
Proof. unfold evicted. apply _. Defined.

Lemma evict_test h expired i v :
  oh_inv h → 0 <= i < slots h → arr_get (ovals h) i = Some v →
  (if negb (key_at (okeys h) i =? OH_EMPTY) && negb (key_at (okeys h) i =? OH_TOMB)
   then v ← arr_get (ovals h) i; Some (expired (key_at (okeys h) i) v) else Some false)
  = Some (bool_decide (evicted h expired i i)).
Proof.
  intros Hinv Hi Hv.
  assert (evicted h expired i i ↔ real (key_at (okeys h) i) ∧ expired (key_at (okeys h) i) v = true) as Hiff.
  { unfold evicted. rewrite Hv. cbn [default]. split; [by intros (_ & ? & ?)|]. intros [? ?]. split_and!; (done || lia). }
  rewrite (bool_decide_ext _ _ Hiff), Hv. cbn [mbind option_bind].
  destruct (pi_kind _ _ (oi_probe h Hinv) i Hi) as [Hk|[Hk|Hk]].
  - rewrite Hk. cbn. rewrite bool_decide_eq_false_2; [done|]. by intros [?%not_real_empty _].
  - rewrite Hk. cbn. rewrite bool_decide_eq_false_2; [done|]. by intros [?%not_real_tomb _].
  - pose proof Hk as (_ & He & Ht). rewrite (proj2 (Z.eqb_neq _ _) He), (proj2 (Z.eqb_neq _ _) Ht). cbn. f_equal.
    destruct (expired _ v); [by rewrite bool_decide_eq_true_2|]. rewrite bool_decide_eq_false_2; [done|].
    by intros [_ ?].
Qed.
Lemma evicted_later h expired i j : i ≠ j → evicted h expired i j ↔ evicted h expired (i + 1) j.
Proof. intros Hne. unfold evicted. split; intros (? & ? & ?); split_and!; (done || lia). Qed.
Lemma evicted_drop h expired i j ks' n' :
  arr_set (okeys h) i OH_TOMB = Some ks' → i ≠ j →
  evicted (Ohash ks' (ovals h) (mask h) n' (used h)) expired (i + 1) j ↔ evicted h expired i j.
Proof.
  intros Hs Hne. rewrite (evicted_later _ _ i j Hne). unfold evicted. cbn [mask okeys ovals].
  by rewrite (key_at_set _ _ _ _ _ Hs), decide_False by done.
Qed.

Lemma evict_loop_spec (n : nat) expired h m i cnt :
  oh_inv h → oh_rep h m → 0 <= i → i + Z.of_nat n = slots h →
  ∃ h' m', oh_evict_loop n h expired i cnt = Some (h', cnt + (olen h - olen h'))
    ∧ oh_inv h' ∧ oh_rep h' m' ∧ mask h' = mask h ∧ used h' = used h ∧ ovals h' = ovals h
    ∧ ∀ j, key_at (okeys h') j = if decide (evicted h expired i j) then OH_TOMB else key_at (okeys h) j.
Proof.
  revert h m i cnt. induction n as [|n IH]; intros h m i cnt Hinv Hrep Hi Hn; cbn [oh_evict_loop].
  - exists h, m. split_and!; try done; [do 2 f_equal; lia|]. intros j. rewrite decide_False; [done|].
    intros (Hj & _). lia.
  - pose proof (oi_shape h Hinv) as Hsh. rewrite (key_at_get _ _ _ Hsh) by lia. cbn [mbind option_bind].
    destruct (val_at h i Hinv) as [v Hv]; [lia|]. rewrite (evict_test h expired i v Hinv ltac:(lia) Hv).
    cbn [mbind option_bind]. case_bool_decide as Hev.
    + pose proof Hev as (_ & Hr & _). pose proof (arr_set_Some (okeys h) i OH_TOMB) as Hs.
      rewrite (ts_keys _ _ _ Hsh) in Hs. specialize (Hs ltac:(lia)). rewrite Hs. cbn [mbind option_bind].
      destruct (drop_slot h m i _ Hinv Hrep ltac:(lia) Hr Hs) as [Hi2 Hr2].
      destruct (IH _ _ (i + 1) (cnt + 1) Hi2 Hr2) as (h' & m' & He & Hi' & Hr' & Hm & Hu & Hvs & Hk');
        [lia|cbn [mask]; lia|].
      exists h', m'. cbn [mask used ovals olen okeys] in *. split_and!; try done.
      * rewrite He. do 2 f_equal. pose proof (real_len h i _ Hinv Hr Hs).
        pose proof (used_bounds h Hinv). pose proof (n_pos _ _ _ Hsh). rewrite u32_small by word_lia. lia.
      * intros j. rewrite Hk', (key_at_set _ _ _ _ _ Hs). destruct (decide (i = j)) as [<-|Hne].
        -- rewrite decide_False by (intros (? & _); lia). by rewrite decide_True.
        -- apply decide_ext. by rewrite (evicted_drop _ _ _ _ _ _ Hs Hne).
    + destruct (IH h m (i + 1) cnt Hinv Hrep) as (h' & m' & He & Hi' & Hr' & Hm & Hu & Hvs & Hk'); [lia..|].
      exists h', m'. split_and!; try done. intros j. rewrite Hk'. destruct (decide (i = j)) as [<-|Hne].
      * rewrite !decide_False; [done|done|]. intros (? & _). lia.
      * apply decide_ext. by rewrite (evicted_later _ _ _ _ Hne).
Qed.
