(* ===== verification/OpenHashTheorems.v ===== *)
(** * What the open-addressing hash promises, and where it stops ending

    Claims about the [ohash] part of [src/integrations/stm32h747/alts.c]. *)
From stdpp Require Import base numbers list sorting gmap.
From S2P Require Import Prelude Alts OpenHash OpenHashProofs.
Open Scope Z_scope.

(** ** A growing table refines a finite map *)
Inductive oh_op :=
  | OhInsert (k v : Z)
  | OhGet (k : Z)
  | OhRemove (k : Z)
  | OhEvict (expired : Z → Z → bool).
Definition op_key (op : oh_op) : Prop :=
  match op with OhInsert k _ | OhGet k | OhRemove k => real k | OhEvict _ => True end.

(** The table, the byte accounting, and what the call returned. *)
Definition exec_oh (h : ohash) (a : acct) (op : oh_op) : option (ohash * acct * option Z) :=
  match op with
  | OhInsert k v => '(h, a, _) ← alt_open_hash_insert_grow (0, 0) 0 0 h k v a; Some (h, a, None)
  | OhGet k => r ← oh_get h k; Some (h, a, r)
  | OhRemove k => h ← oh_remove h k; Some (h, a, None)
  | OhEvict expired => '(h, n) ← oh_evict_scan h expired; Some (h, a, Some n)
  end.
Definition spec_oh (m : gmap Z Z) (op : oh_op) : gmap Z Z * option Z :=
  match op with
  | OhInsert k v => (<[k := v]> m, None)
  | OhGet k => (m, m !! k)
  | OhRemove k => (delete k m, None)
  | OhEvict expired =>
      let m' := filter (λ e, expired e.1 e.2 = false) m in (m', Some (Z.of_nat (size m) - Z.of_nat (size m')))
  end.
Fixpoint exec_ohs (h : ohash) (a : acct) (ops : list oh_op) : option (ohash * list (option Z)) :=
  match ops with
  | [] => Some (h, [])
  | op :: ops => '(h, a, r) ← exec_oh h a op; '(h, rs) ← exec_ohs h a ops; Some (h, r :: rs)
  end.
Fixpoint spec_ohs (m : gmap Z Z) (ops : list oh_op) : gmap Z Z * list (option Z) :=
  match ops with
  | [] => (m, [])
  | op :: ops => let '(m, r) := spec_oh m op in let '(m, rs) := spec_ohs m ops in (m, r :: rs)
  end.

(** The state between calls: at most half the slots are not empty. *)
Definition half_full (h : ohash) (m : gmap Z Z) : Prop :=
  oh_inv h ∧ oh_rep h m ∧ 2 * used h <= slots h ∧ 2 <= slots h.

Lemma insert_grow_spec us t0 t1 h m k v a :
  half_full h m → real k → slots h <= 2 ^ 29 →
  ∃ h' a' c, alt_open_hash_insert_grow us t0 t1 h k v a = Some (h', a', c)
    ∧ half_full h' (<[k := v]> m) ∧ used h' <= used h + 1
    ∧ (slots h' = slots h ∨ (slots h' = 2 * slots h ∧ slots h < (used h + 1) * 2)).
Proof.
  intros (Hi & Hr & Hu & H2) Hk Hs. unfold alt_open_hash_insert_grow.
  pose proof (used_bounds h Hi). rewrite !u32_small by (rewrite ?u32_small by word_lia; word_lia).
  rewrite Z.gtb_ltb. destruct (Z.ltb_spec (slots h) ((used h + 1) * 2)) as [Hg|Hg].
  - destruct (oh_double_spec h m Hi Hr Hs) as (h1 & -> & Hi1 & Hr1 & Hs1 & Hu1). simpl.
    destruct (oh_insert_spec h1 m k v Hi1 Hr1 Hk) as (h2 & -> & Hi2 & Hr2 & Hm2 & Hu2); [lia|]. simpl.
    eexists h2, _, _. split; [done|]. case_decide; (split; [split_and!; (done || lia)|lia]).
  - destruct (oh_insert_spec h m k v Hi Hr Hk) as (h2 & -> & Hi2 & Hr2 & Hm2 & Hu2); [lia|]. simpl.
    eexists h2, _, _. split; [done|]. case_decide; (split; [split_and!; (done || lia)|lia]).
Qed.

Lemma NoDup_filter_lookup {A} (P : A → Prop) `{!∀ x, Decision (P x)} (l : list A) :
  (∀ i j x, P x → l !! i = Some x → l !! j = Some x → i = j) → NoDup (filter P l).
Proof.
  induction l as [|x l IH]; intros Hu; [constructor|].
  assert (NoDup (filter P l)) as Hl.
  { apply IH. intros i j y Hy Hi Hj. assert (S i = S j) by (by apply (Hu _ _ y)). lia. }
  rewrite filter_cons. case_decide as HP; [|done]. constructor; [|done].
  intros [_ [j Hj]%list_elem_of_lookup_1]%list_elem_of_filter. by pose proof (Hu 0%nat (S j) x HP eq_refl Hj).
Qed.
Lemma key_at_lookup ks i x : ks !! i = Some x → key_at ks (Z.of_nat i) = x.
Proof. intros Hi. unfold key_at. by rewrite arr_get_nat, Hi. Qed.

Lemma rep_size h m : oh_inv h → oh_rep h m → Z.of_nat (size m) = olen h.
Proof.
  intros Hi Hr. rewrite (oi_len h Hi). f_equal.
  assert ((map_to_list m).*1 ≡ₚ filter real (okeys h)) as Hp.
  { apply NoDup_Permutation; [apply NoDup_fst_map_to_list| |].
    - apply NoDup_filter_lookup. intros i j x Hx Hi' Hj.
      pose proof (lookup_lt_Some _ _ _ Hi'). pose proof (lookup_lt_Some _ _ _ Hj).
      pose proof (ts_keys _ _ _ (oi_shape h Hi)). apply key_at_lookup in Hi', Hj.
      apply Nat2Z.inj, (pi_unique _ _ (oi_probe h Hi)); [lia|lia|by rewrite Hi'|congruence].
    - intros k. rewrite list_elem_of_fmap, list_elem_of_filter. split.
      + intros ([k' v] & -> & Hkv). apply elem_of_map_to_list, Hr in Hkv as (Hk & i & Hi' & Hki & _).
        split; [done|]. simpl in *. rewrite <- Hki. eapply arr_get_elem_of, (key_at_get _ _ _ (oi_shape h Hi) i Hi').
      + intros [Hk [i Hi']%list_elem_of_lookup_1]. pose proof (lookup_lt_Some _ _ _ Hi').
        pose proof (ts_keys _ _ _ (oi_shape h Hi)). destruct (val_at h (Z.of_nat i) Hi) as [v Hv]; [lia|].
        exists (k, v). split; [done|]. apply elem_of_map_to_list, Hr. split; [done|]. exists (Z.of_nat i).
        split; [lia|]. split; [by apply key_at_lookup|done]. }
  apply Permutation_length in Hp. rewrite length_fmap, length_map_to_list in Hp. done.
Qed.

Lemma evict_scan_spec h m expired :
  half_full h m →
  ∃ h', oh_evict_scan h expired = Some (h', olen h - olen h')
      ∧ half_full h' (filter (λ e, expired e.1 e.2 = false) m) ∧ slots h' = slots h ∧ used h' = used h.
Proof.
  intros (Hi & Hr & Hu & H2). pose proof (used_bounds h Hi).
  destruct (evict_loop_spec (S (Z.to_nat (mask h))) expired h m 0 0 Hi Hr)
    as (h' & m' & He & Hi' & Hr' & Hm & Hus & Hvs & Hk); [lia..|].
  exists h'. unfold oh_evict_scan. rewrite He, Z.add_0_l. split; [done|]. split; [|lia].
  split; [done|]. split; [|lia]. intros k v.
  rewrite map_lookup_filter_Some, (Hr k v). simpl. unfold holds. rewrite Hm, Hvs. setoid_rewrite Hk.
  split.
  - intros ((Hk' & i & Hi2 & Hki & Hv) & Hex). split; [done|]. exists i. rewrite decide_False; [done|].
    intros (_ & _ & Hx). rewrite Hki, Hv in Hx. simpl in Hx. congruence.
  - intros (Hk' & i & Hi2 & Hki & Hv). case_decide as Hev; [subst; by apply not_real_tomb in Hk'|].
    split; [by eauto|]. destruct (expired k v) eqn:Hx; [|done]. destruct Hev. split; [lia|].
    rewrite Hki, Hv. done.
Qed.

(** One call on a table that has taken [n] insertions. *)
Lemma exec_oh_step b h m a op (n : Z) :
  half_full h m → used h <= n → slots h <= Z.max b (4 * (n + 1)) →
  b <= 2 ^ 29 → 0 <= n < 2 ^ 26 → op_key op →
  ∃ h' a', exec_oh h a op = Some (h', a', (spec_oh m op).2) ∧ half_full h' (spec_oh m op).1
    ∧ used h' <= n + 1 ∧ slots h' <= Z.max b (4 * (n + 2)).
Proof.
  intros Hh Hun Hsn Hb Hn Hk. pose proof Hh as (Hi & Hr & Hu & H2). pose proof (used_bounds h Hi).
  destruct op as [k v|k|k|expired]; cbn [exec_oh spec_oh op_key fst snd] in *.
  - destruct (insert_grow_spec (0, 0) 0 0 h m k v a Hh Hk) as (h' & a' & c & -> & Hh' & Hu' & Hs'); [lia|].
    cbn. exists h', a'. split; [done|]. split; [done|]. lia.
  - rewrite (oh_get_spec h m k Hi Hr Hk) by lia. cbn. exists h, a. split; [done|]. split; [done|]. lia.
  - destruct (oh_remove_spec h m k Hi Hr Hk) as (h' & -> & Hi' & Hr' & Hm' & Hu'); [lia|]. cbn.
    exists h', a. split; [done|]. split; [|lia]. split_and!; try done; lia.
  - destruct (evict_scan_spec h m expired Hh) as (h' & -> & Hh' & Hs' & Hu'). cbn. exists h', a.
    split; [|split; [done|lia]]. rewrite (rep_size h m Hi Hr).
    destruct Hh' as (Hi' & Hr' & _). by rewrite (rep_size h' _ Hi' Hr').
Qed.

Lemma exec_ohs_refines b ops h m a n :
  half_full h m → used h <= n → slots h <= Z.max b (4 * (n + 1)) → b <= 2 ^ 29 → 0 <= n →
  n + Z.of_nat (length ops) <= 2 ^ 26 → Forall op_key ops →
  ∃ h', exec_ohs h a ops = Some (h', (spec_ohs m ops).2) ∧ half_full h' (spec_ohs m ops).1.
Proof.
  revert h m a n. induction ops as [|op ops IH]; intros h m a n Hh Hu Hs Hb Hn Hlen Hk; [by exists h|].
  apply Forall_cons in Hk as [Hk Hks]. cbn [length] in Hlen.
  destruct (exec_oh_step b h m a op n Hh Hu Hs Hb) as (h1 & a1 & He & Hh1 & Hu1 & Hs1); [lia|done|].
  cbn [exec_ohs spec_ohs]. rewrite He. cbn [mbind option_bind]. destruct (spec_oh m op) as [m1 r]. cbn [fst snd] in *.
  destruct (IH h1 m1 a1 (n + 1) Hh1) as (h2 & He2 & Hh2); [lia|lia|lia|lia|lia|done|].
  rewrite He2. cbn [mbind option_bind]. destruct (spec_ohs m1 ops) as [m2 rs]. by exists h2.
Qed.

Lemma new_half_full cap :
  1 <= cap <= 2 ^ 28 → half_full (oh_new cap) ∅ ∧ used (oh_new cap) = 0 ∧ 2 * cap <= slots (oh_new cap) <= 2 ^ 29.
Proof.
  intros Hc. destruct (oh_create_spec cap (Acct 0 0) Hc) as (h & He & Hi & Hr & Hu & Hs & H16).
  unfold oh_new. rewrite He. cbn [from_option id]. split; [|lia]. split_and!; try done; lia.
Qed.

(** C8: a table that grows answers like a finite map: any sequence of up to
    2^26 insertions, lookups, removals and scans on a fresh table returns,
    every probe loop ends, and the answers are the map's. *)
Theorem oh_refines cap a ops :
  1 <= cap <= 2 ^ 28 → Z.of_nat (length ops) <= 2 ^ 26 → Forall op_key ops →
  ∃ h', exec_ohs (oh_new cap) a ops = Some (h', (spec_ohs ∅ ops).2)
      ∧ ∀ k v, (spec_ohs ∅ ops).1 !! k = Some v ↔ holds h' k v.
Proof.
  intros Hc Hlen Hk. destruct (new_half_full cap Hc) as (Hh & Hu & Hs).
  destruct (exec_ohs_refines (2 ^ 29) ops (oh_new cap) ∅ a 0 Hh) as (h' & He & _ & Hr & _); [lia..|done|].
  by exists h'.
Qed.

(** A table of fixed size that still has an empty slot: lookup, removal
    and insertion end within one lap and do what a finite map does; only an
    insertion of a new key can use up an empty slot. *)
Theorem oh_probe_total h m k v :
  oh_inv h → oh_rep h m → real k → used h < slots h →
  oh_get h k = Some (m !! k) ∧
  (∃ h', oh_remove h k = Some h' ∧ oh_inv h' ∧ oh_rep h' (delete k m) ∧ used h' = used h) ∧
  (∃ h', oh_insert h k v = Some h' ∧ oh_inv h' ∧ oh_rep h' (<[k := v]> m)
       ∧ used h' <= used h + (if decide (is_Some (m !! k)) then 0 else 1)).
Proof.
  intros Hi Hr Hk Hu. split; [by apply oh_get_spec|]. split.
  - destruct (oh_remove_spec h m k Hi Hr Hk Hu) as (h' & ? & ? & ? & _ & ?). by exists h'.
  - destruct (oh_insert_spec h m k v Hi Hr Hk Hu) as (h' & ? & ? & ? & _ & ?). exists h'. split_and!; (done || lia).
Qed.

(** ** Where it goes wrong *)
(** Without an empty slot, the search for an absent key never ends. *)
Lemma get_full_diverges h k fuel i :
  table_shape (okeys h) (ovals h) (slots h) → 0 <= i < slots h →
  Forall (λ c, c ≠ k ∧ c ≠ OH_EMPTY) (okeys h) → oh_get_loop fuel h k i = None.
Proof.
  intros Hsh Hi Hf. revert i Hi. induction fuel as [|fuel IH]; intros i Hi; [done|]. cbn [oh_get_loop].
  destruct (arr_get_is_Some (okeys h) i) as [c Hc]; [by rewrite (ts_keys _ _ _ Hsh)|]. rewrite Hc.
  cbn [mbind option_bind]. rewrite Forall_forall in Hf. destruct (Hf c (arr_get_elem_of _ _ _ Hc)) as [H1 H2].
  rewrite (proj2 (Z.eqb_neq _ _) H1), (proj2 (Z.eqb_neq _ _) H2). apply IH.
  replace (mask h) with (slots h - 1) at 1 2 by lia. rewrite (land_mask _ _ _ Hsh).
  apply Z.mod_pos_bound. pose proof (n_pos _ _ _ Hsh). lia.
Qed.

(** [n] insert-then-remove pairs of the keys [k, k + 1, ...]. *)
Fixpoint churn (n : nat) (k : Z) (h : ohash) : option ohash :=
  match n with
  | O => Some h
  | S n => h ← oh_insert h k 0; h ← oh_remove h k; churn n (k + 1) h
  end.

(** A fixed table never takes tombstones back: 16 slots created for 8 keys
    hold nothing after 16 insert/remove pairs, one key at a time, and yet no
    slot is empty, so that looking up an absent key never returns, whatever the
    number of probes. *)
Theorem oh_churn_diverges :
  ∃ h, churn 16 0 (oh_new 8) = Some h ∧ olen h = 0 ∧ used h = slots h ∧
    ∀ fuel, oh_get_loop fuel h 1000 (Z.land (oh_mix 1000) (mask h)) = None.
Proof.
  destruct (churn 16 0 (oh_new 8)) as [h|] eqn:He; [|vm_compute in He; discriminate].
  vm_compute in He. injection He as <-. eexists. split; [reflexivity|]. split; [reflexivity|]. split; [reflexivity|].
  intros fuel. apply get_full_diverges.
  - constructor; [exists 4; split; [lia|reflexivity]|reflexivity..].
  - vm_compute. split; congruence.
  - repeat (constructor; [split; vm_compute; discriminate|]). constructor.
Qed.

(** The two sentinel words are keys of the API but not of the table: a
    lookup of [0xFFFFFFFF] in an empty table reports a hit, and an insertion of
    it returns without storing anything. *)
Theorem oh_sentinel_keys :
  oh_get (oh_new 8) OH_EMPTY = Some (Some 0) ∧
  ∃ h, oh_insert (oh_new 8) OH_EMPTY 7 = Some h ∧ okeys h = okeys (oh_new 8) ∧ olen h = 0.
Proof. split; [vm_compute; reflexivity|]. eexists. split; [vm_compute; reflexivity|]. split; vm_compute; reflexivity. Qed.

(** ** Witnesses *)
Definition demo_oh_ops : list oh_op :=
  [OhInsert 1 10; OhInsert 2 20; OhGet 1; OhRemove 1; OhGet 1; OhInsert 3 30; OhEvict (λ _ v, v <? 25); OhGet 3].
Lemma real_small k : 0 <= k < 1000 → real k.
Proof. intros Hk. unfold real, OH_EMPTY, OH_TOMB. split; [word_lia|lia]. Qed.

Lemma oh_refines_witness :
  ∃ h', exec_ohs (oh_new 1) (Acct 0 0) demo_oh_ops
        = Some (h', [None; None; Some 10; None; None; None; Some 1; Some 30]).
Proof.
  destruct (oh_refines 1 (Acct 0 0) demo_oh_ops) as (h' & He & _).
  - split; [reflexivity|vm_compute; discriminate].
  - vm_compute. discriminate.
  - unfold demo_oh_ops. repeat (constructor; [simpl; first [exact I|apply real_small; lia]|]). constructor.
  - exists h'. rewrite He. vm_compute. reflexivity.
Defined.

Lemma oh_probe_total_witness :
  oh_get (oh_new 8) 5 = Some None.
Proof.
  destruct (new_half_full 8) as ((Hi & Hr & _) & Hu & Hs); [lia|].
  destruct (oh_probe_total (oh_new 8) ∅ 5 50) as [Hget _]; [exact Hi|exact Hr|apply real_small; lia|rewrite Hu; lia|].
  rewrite Hget. reflexivity.
Defined.
