(* ===== verification/TSearch.v ===== *)
(** * The [tsearch] alternative

    Model of the [tmap] part of [src/integrations/stm32h747/alts.c].  The tree
    operations themselves are newlib's [<search.h>]: parameters ([TSearch]) with
    the laws its documentation gives ([TSearchLaws]) on the in-order list of a
    tree.  The node layout is the one the source assumes in [tnode_s]. *)
From stdpp Require Import base numbers list sorting gmap.
From S2P Require Import Prelude SortedAssoc Alts.
Open Scope Z_scope.

(** [tnode_s] with its [tnode] key: left subtree, key and value, right subtree. *)
Inductive tree :=
  | Leaf
  | Node (left : tree) (k v : Z) (right : tree).
Fixpoint inorder (t : tree) : assoc :=
  match t with Leaf => [] | Node l k v r => inorder l ++ (k, v) :: inorder r end.

(** newlib: insert a key that is absent, find, delete. *)
Class TSearch := {
  tsearch : Z → Z → tree → tree;
  tfind : Z → tree → option Z;
  tdelete : Z → tree → tree;
}.
Class TSearchLaws `{!TSearch} := {
  tsearch_inorder k v t : sorted (inorder t) → (∀ w, (k, w) ∉ inorder t) →
    inorder (tsearch k v t) = sl_insert k v (inorder t);
  tfind_inorder k t : sorted (inorder t) → tfind k t = sl_lookup k (inorder t);
  tdelete_inorder k t : sorted (inorder t) → inorder (tdelete k t) = sl_delete k (inorder t);
}.

Section Map.
  Context `{!TSearch}.

Record tmap := Tmap { root : tree; t_len : Z; scap : Z }.

Definition t_cmp (x y : Z) : Z := if x <? y then -1 else if x >? y then 1 else 0.

(** [sizeof (tmap)] is 16. *)
Definition t_create (oks : bool * bool) (cap : Z) (a : acct) : option tmap * acct :=
  let '(ok_t, ok_s) := oks in
  let '(p, a) := acct_malloc ok_t 16 a in
  if p then let '(_, a) := acct_malloc ok_s (cap *w 4) a in (Some (Tmap Leaf 0 cap), a) else (None, a).
Definition t_free_node (usable : Z) (a : acct) : acct := acct_free (Some usable) a.
(** Deleting the root until the tree is empty; [us] is the usable size of a node. *)
Fixpoint t_destroy_loop (fuel : nat) (t : tree) (us : Z) (a : acct) : option acct :=
  match fuel with
  | O => None
  | S fuel =>
      match t with
      | Leaf => Some a
      | Node _ k _ _ => t_destroy_loop fuel (tdelete k t) us (t_free_node us a)
      end
  end.
Definition t_destroy (fuel : nat) (m : tmap) (us us_scratch us_map : Z) (a : acct) : option acct :=
  a ← t_destroy_loop fuel (root m) us a;
  Some (acct_free (Some us_map) (acct_free (Some us_scratch) a)).

(** The store through the slot [tsearch] returned: the node of [k] gets [v]. *)
Fixpoint t_store (k v : Z) (t : tree) : tree :=
  match t with
  | Leaf => Leaf
  | Node l k' v' r => Node (t_store k v l) k' (if t_cmp k k' =? 0 then v else v') (t_store k v r)
  end.
Definition t_insert (m : tmap) (k v : Z) : tmap :=
  match tfind k (root m) with
  | None => Tmap (tsearch k v (root m)) (t_len m +w 1) (scap m)
  | Some _ => Tmap (t_store k v (root m)) (t_len m) (scap m)
  end.
Definition t_get (m : tmap) (k : Z) : option Z := tfind k (root m).
Definition t_remove (m : tmap) (k : Z) : tmap :=
  match tfind k (root m) with
  | None => m
  | Some _ => Tmap (tdelete k (root m)) (t_len m -w 1) (scap m)
  end.
(** The leftmost spine. *)
Fixpoint t_leftmost (t : tree) : option (Z * Z) :=
  match t with
  | Leaf => None
  | Node Leaf k v _ => Some (k, v)
  | Node l _ _ _ => t_leftmost l
  end.
Definition t_first (m : tmap) : option (Z * Z) := t_leftmost (root m).
Fixpoint t_remove_range_loop {S} (fuel : nat) (m : tmap) (lo hi : Z) (cb : Z → Z → S → S) (ctx : S) (n : Z)
  : option (tmap * S * Z) :=
  match fuel with
  | O => None
  | Datatypes.S fuel =>
      match t_first m with
      | Some (k, v) =>
          if (k >=? lo) && (k <=? hi)
          then t_remove_range_loop fuel (t_remove m k) lo hi cb (cb k v ctx) (n + 1)
          else Some (m, ctx, n)
      | None => Some (m, ctx, n)
      end
  end.
Definition t_remove_range {S} (m : tmap) (lo hi : Z) (cb : Z → Z → S → S) (ctx : S) : option (tmap * S * Z) :=
  t_remove_range_loop (Datatypes.S (length (inorder (root m)))) m lo hi cb ctx 0.

(** ** The list a tree map denotes *)
Context `{!TSearchLaws}.

Definition t_rep (m : tmap) (l : assoc) : Prop := inorder (root m) = l ∧ sorted l.

Lemma t_leftmost_head t : t_leftmost t = head (inorder t).
Proof.
  induction t as [|l IHl k v r _]; [done|]. cbn [t_leftmost inorder].
  destruct l as [|ll lk lv lr]; [done|]. rewrite IHl. cbn [inorder]. by destruct (inorder ll).
Qed.
Lemma t_store_inorder k v t :
  inorder (t_store k v t) = (λ e, if e.1 =? k then (e.1, v) else e) <$> inorder t.
Proof.
  induction t as [|l IHl k' v' r IHr]; [done|]. cbn [t_store inorder]. rewrite IHl, IHr, fmap_app. f_equal.
  cbn [fmap list_fmap fst]. f_equal. unfold t_cmp. rewrite Z.gtb_ltb.
  destruct (Z.ltb_spec k k'), (Z.ltb_spec k' k), (Z.eqb_spec k' k); (done || lia).
Qed.
Lemma store_insert k v l : sorted l → is_Some (sl_lookup k l) →
  (λ e : Z * Z, if e.1 =? k then (e.1, v) else e) <$> l = sl_insert k v l.
Proof.
  intros Hs Hin. induction l as [|[k' v'] l IH]; [by destruct Hin|].
  apply sorted_cons_inv in Hs as [Hs Hlt]. cbn [fmap list_fmap sl_insert sl_lookup fst] in *.
  rewrite Z.eqb_sym in Hin. destruct (Z.eqb_spec k' k) as [->|Hne].
  - rewrite Z.ltb_irrefl, Z.eqb_refl. f_equal.
    rewrite <- (list_fmap_id l) at 2. apply list_fmap_ext. intros i [kx vx] Hx. cbn [fst].
    apply list_elem_of_lookup_2 in Hx. specialize (Hlt _ Hx). cbn [fst] in Hlt.
    by rewrite (proj2 (Z.eqb_neq kx k)) by lia.
  - destruct Hin as [w Hw]. pose proof (Hlt _ (sl_lookup_elem _ _ _ Hw)) as Hk. cbn [fst] in Hk.
    rewrite (proj2 (Z.ltb_ge k k')), (proj2 (Z.eqb_neq k k')) by lia. f_equal. by apply IH.
Qed.

Lemma t_insert_spec m l k v : t_rep m l → t_rep (t_insert m k v) (sl_insert k v l).
Proof.
  intros [Hm Hs]. split; [|auto with assoc]. unfold t_insert. rewrite tfind_inorder, Hm by (by rewrite Hm).
  destruct (sl_lookup k l) as [w|] eqn:Hl; cbn [root].
  - rewrite t_store_inorder, Hm. apply store_insert; [done|]. by rewrite Hl.
  - rewrite tsearch_inorder, Hm by (rewrite Hm; try done; by apply sl_lookup_None). done.
Qed.
Lemma t_remove_spec m l k : t_rep m l → t_rep (t_remove m k) (sl_delete k l).
Proof.
  intros [Hm Hs]. split; [|auto with assoc]. unfold t_remove. rewrite tfind_inorder, Hm by (by rewrite Hm).
  destruct (sl_lookup k l) as [w|] eqn:Hl; cbn [root].
  - by rewrite tdelete_inorder, Hm by (by rewrite Hm).
  - rewrite sl_delete_absent; [done|]. by apply sl_lookup_None.
Qed.
Lemma t_get_spec m l k : t_rep m l → t_get m k = sl_lookup k l.
Proof. intros [Hm Hs]. unfold t_get. by rewrite tfind_inorder, Hm by (by rewrite Hm). Qed.
Lemma t_first_spec m l : t_rep m l → t_first m = head l.
Proof. intros [Hm _]. unfold t_first. by rewrite t_leftmost_head, Hm. Qed.

Lemma t_remove_scap m k : scap (t_remove m k) = scap m.
Proof. unfold t_remove. by destruct (tfind _ _). Qed.

(** When the least key is in the range, or above it, the loop clears the range. *)
Lemma t_range_loop_spec {S} fuel m l lo hi (cb : Z → Z → S → S) ctx n :
  t_rep m l → (∀ e, e ∈ l → lo <= e.1) → (length (sl_range lo hi l) < fuel)%nat →
  ∃ m', t_remove_range_loop fuel m lo hi cb ctx n
        = Some (m', visit cb (sl_range lo hi l) ctx, n + Z.of_nat (length (sl_range lo hi l)))
      ∧ t_rep m' (sl_outside lo hi l) ∧ scap m' = scap m.
Proof.
  revert m l ctx n. induction fuel as [|fuel IH]; intros m l ctx n Hm Hlo Hf; [lia|]. cbn [t_remove_range_loop].
  rewrite (t_first_spec m l Hm). pose proof Hm as [_ Hs].
  assert (sl_from lo l = l) as Hfrom by (by apply list_filter_all).
  destruct l as [|[k v] r] eqn:Hl; [exists m; split_and!; try done; do 2 f_equal; simpl; lia|]. cbn [head].
  rewrite <- Hl in *. assert (head (sl_from lo l) = Some (k, v)) as Hh by (by rewrite Hfrom, Hl).
  pose proof (Hlo (k, v)) as Hk. rewrite Hl in Hk at 1. specialize (Hk (list_elem_of_here _ _)). cbn [fst] in Hk.
  rewrite Z.geb_leb, (proj2 (Z.leb_le lo k)) by done. cbn [andb]. destruct (Z.leb_spec k hi) as [Hkh|Hkh].
  - rewrite (range_head_delete lo hi l k v Hs Hh Hkh) in Hf |- *. cbn [length visit] in *.
    destruct (IH (t_remove m k) (sl_delete k l) (cb k v ctx) (n + 1)) as (m' & -> & Hm' & Hc).
    + by apply t_remove_spec.
    + intros e [_ He]%elem_of_sl_delete. by apply Hlo.
    + lia.
    + exists m'. split; [do 2 f_equal; lia|]. rewrite t_remove_scap in Hc. split; [|done].
      replace (sl_outside lo hi l) with (sl_outside lo hi (sl_delete k l)); [done|].
      apply sorted_ext; [auto with assoc..|]. intros e. rewrite !elem_of_sl_outside, elem_of_sl_delete.
      split; [tauto|]. intros [Ho He]. split_and!; try done. intros ?. lia.
  - assert (∀ e, e ∈ l → hi < e.1) as Hgt.
    { intros e He. rewrite Hl in He, Hs. apply sorted_cons_inv in Hs as [_ Hlt].
      apply elem_of_cons in He as [->|He]; [done|]. specialize (Hlt e He). cbn [fst] in Hlt. lia. }
    rewrite range_empty by (intros e He _; by apply Hgt). exists m. split; [do 2 f_equal; simpl; lia|].
    split; [|done]. replace (sl_outside lo hi l) with l; [done|]. symmetry. apply list_filter_all.
    intros e He. specialize (Hgt e He). lia.
Qed.

Lemma t_remove_range_spec {S} m l lo hi (cb : Z → Z → S → S) ctx :
  t_rep m l → (∀ e, e ∈ l → lo <= e.1) →
  ∃ m', t_remove_range m lo hi cb ctx
        = Some (m', visit cb (sl_range lo hi l) ctx, Z.of_nat (length (sl_range lo hi l)))
      ∧ t_rep m' (sl_outside lo hi l) ∧ scap m' = scap m.
Proof.
  intros Hm Hlo. unfold t_remove_range. apply t_range_loop_spec; try done.
  destruct Hm as [-> _]. pose proof (sl_outside_range_length lo hi l). lia.
Qed.

Definition t_ops_create (cap : Z) : option tmap := (t_create (true, true) cap (Acct 0 0)).1.
#[export] Instance t_ops : AltOps tmap := {
  alt_create := t_ops_create; alt_insert m k v := Some (t_insert m k v);
  alt_get m k := Some (t_get m k); alt_remove m k := Some (t_remove m k) }.
#[export] Instance t_ordered : AltOrdered tmap := {
  alt_first m := Some (t_first m); alt_remove_range := @t_remove_range }.
#[export, refine] Instance t_laws : AltMapLaws tmap := { alt_rep := t_rep; alt_cap := scap; alt_key := is_u32 }.
Proof.
  - intros cap _. eexists. split; [done|]. split; [|done]. split; [done|]. constructor.
  - intros m l k Hm _. simpl. by rewrite (t_get_spec m l).
Defined.
#[export, refine] Instance t_ordered_laws : OrderedAlt tmap := {}.
Proof.
  - intros m l [_ Hs]. exact Hs.
  - done.
  - intros m l k v Hm _ _. eexists. split; [done|]. split; [by apply t_insert_spec|].
    simpl. unfold t_insert. by destruct (tfind _ _).
  - intros m l k Hm _. eexists. split; [done|]. split; [by apply t_remove_spec|]. apply t_remove_scap.
  - intros m l Hm. simpl. by rewrite (t_first_spec m l).
  - intros S m l hi cb s Hm _ Hlo. by apply t_remove_range_spec.
Defined.

(** C22: [t_remove_range] clears a range only when no key lies below it: with
    one, it removes nothing and calls nothing, where the other ordered
    structures clear the range. *)
Theorem t_remove_range_gap {S} m l lo hi (cb : Z → Z → S → S) ctx e :
  t_rep m l → head l = Some e → e.1 < lo → t_remove_range m lo hi cb ctx = Some (m, ctx, 0).
Proof.
  intros Hm Hh Hlt. unfold t_remove_range. cbn [t_remove_range_loop].
  rewrite (t_first_spec m l Hm), Hh. destruct e as [k v]. cbn [fst] in Hlt.
  by rewrite Z.geb_leb, (proj2 (Z.leb_gt lo k)).
Qed.

(** Each round of [t_destroy] shrinks the tree. *)
Lemma t_destroy_loop_ends (fuel : nat) t us a :
  sorted (inorder t) → (length (inorder t) < fuel)%nat → ∃ a', t_destroy_loop fuel t us a = Some a'.
Proof.
  revert t a. induction fuel as [|fuel IH]; intros t a Hs Hf; [lia|]. cbn [t_destroy_loop].
  destruct t as [|l k v r]; [by eexists|]. apply IH; rewrite tdelete_inorder by done; [auto with assoc|].
  unfold sl_delete. assert (length (filter (λ e, e.1 ≠ k) (inorder (Node l k v r))) < length (inorder (Node l k v r)))%nat; [|lia].
  apply length_filter_lt with (k, v); [|simpl; tauto]. cbn [inorder]. apply elem_of_app. right. constructor.
Qed.

(** Destroying a tree map ends, whatever its size: one round per record. *)
Theorem t_destroy_ends m l us us_scratch us_map a :
  t_rep m l → ∃ a', t_destroy (S (length l)) m us us_scratch us_map a = Some a'.
Proof.
  intros [Hm Hs]. destruct (t_destroy_loop_ends (S (length l)) (root m) us a) as [a' Ha]; [by rewrite Hm|rewrite Hm; lia|].
  unfold t_destroy. rewrite Ha. cbn. by eexists.
Qed.
End Map.

(** ** An instance of the library: right spines *)
Fixpoint spine (l : assoc) : tree := match l with [] => Leaf | (k, v) :: l => Node Leaf k v (spine l) end.
Lemma inorder_spine l : inorder (spine l) = l.
Proof. induction l as [|[k v] l IH]; [done|]. simpl. by rewrite IH. Qed.
#[export] Instance spine_tsearch : TSearch := {
  tsearch k v t := spine (sl_insert k v (inorder t));
  tfind k t := sl_lookup k (inorder t);
  tdelete k t := spine (sl_delete k (inorder t)) }.
#[export, refine] Instance spine_laws : TSearchLaws := {}.
Proof.
  - intros k v t _ _. apply inorder_spine.
  - done.
  - intros k t _. apply inorder_spine.
Defined.

(** ** Witnesses *)
Definition demo_tmap : tmap := t_insert (t_insert (Tmap Leaf 0 8) 1 10) 5 50.
Lemma demo_t_rep : t_rep demo_tmap [(1, 10); (5, 50)].
Proof. apply (t_insert_spec _ [(1, 10)] 5 50), (t_insert_spec _ [] 1 10). split; [done|constructor]. Qed.
Lemma t_remove_range_gap_witness :
  t_remove_range demo_tmap 4 9 (λ k v (n : Z), n + v) 0 = Some (demo_tmap, 0, 0).
Proof. apply (t_remove_range_gap demo_tmap [(1, 10); (5, 50)] 4 9 _ 0 (1, 10)); [exact demo_t_rep|reflexivity|reflexivity]. Defined.
Lemma t_destroy_ends_witness : ∃ a', t_destroy 3 demo_tmap 12 36 20 (Acct 100 100) = Some a'.
Proof. apply (t_destroy_ends demo_tmap [(1, 10); (5, 50)] 12 36 20 (Acct 100 100)). exact demo_t_rep. Defined.
