(* ===== verification/AltFixtures.v ===== *)
(** * The fixtures of the on-target comparison

    Model of the fixture part of [src/integrations/stm32h747/main.c]: the loops
    that fill, query and evict through the vtable, and the [CHECK] lines they
    print when an answer is wrong.  They are proved for every [OrderedAlt], so
    for the engine, the sorted array and the tree alike: no [CHECK] fires, and
    both eviction modes do the same.  Cycle readings are arguments. *)
From stdpp Require Import base numbers list sorting gmap.
From S2P Require Import Prelude SortedAssoc ExpanseApi Alts.
Open Scope Z_scope.

Definition N_INGEST : nat := 2000.
Definition N_CAN : nat := 500.
Definition N_BLE : nat := 2000.

Definition fnv1a (d : list Z) : Z :=
  foldl (λ h b, u32 (Z.lxor h b * 16777619)) 2166136261 d.
Definition mac_of (i : Z) : list Z := [0; 26; 43; u8 (Z.shiftr i 16); u8 (Z.shiftr i 8); u8 i].
Definition can_key (i : Z) : Z := Z.land (u32 (i * 100007)) 536870911.
Definition seen_bulk (i : Z) : Z := i *w 10.
Definition seen_steady (i : Z) : Z := if i <? 25 then i *w 10 else 10000 +w i.
Definition mac_key (i : Z) : Z := fnv1a (mac_of i).
Definition time_key (seen : Z → Z) (i : Z) : Z := Z.lor ((seen i / 1000) <<w 13) (Z.land i 8191).
Definition max_tk : Z := Z.lor (Z.shiftl 5 13) 8191.

Section Fixtures.
  Context {A : Type} `{!AltOps A, !AltOrdered A}.

(** [n] insertions of [(key i, val i)] from index [i]. *)
Fixpoint fill (n : nat) (i : Z) (key val : Z → Z) (m : A) : option A :=
  match n with
  | O => Some m
  | S n => m ← alt_insert m (key i) (val i); fill n (i + 1) key val m
  end.

(** The cycle count and whether [CHECK ingest] was printed. *)
Definition fx_ingest (t0 t1 : Z) : option (Z * bool) :=
  m ← alt_create (Z.of_nat N_INGEST);
  m ← fill N_INGEST 0 (λ i, 1700000000 +w i) (λ _, 42) m;
  last ← alt_get m (1700000000 + Z.of_nat N_INGEST - 1);
  first ← alt_get m 1700000000;
  Some (t1 -w t0, match last with Some v => negb (v =? 42) | None => true end
                  || match first with Some _ => false | None => true end).

(** The sum over the hits; [n] lookups from index [i]. *)
Fixpoint can_loop (n : nat) (i sum : Z) (m : A) : option Z :=
  match n with
  | O => Some sum
  | S n => r ← alt_get m (can_key i);
           can_loop n (i + 1) (match r with Some v => sum +w v | None => sum end) m
  end.
Definition fx_can (m : A) (t0 t1 : Z) : option (Z * bool) :=
  sum ← can_loop N_CAN 0 0 m;
  Some (t1 -w t0, negb (sum =? Z.of_nat N_CAN * (Z.of_nat N_CAN - 1) / 2)).
(** [run_fixtures] fills the table [fx_can] queries. *)
Definition can_table : option A :=
  m ← alt_create (Z.of_nat N_CAN); fill N_CAN 0 can_key (λ i, i) m.

(** [ble_build] on an ordered structure: both indices, filled in one loop. *)
Fixpoint ble_loop (n : nat) (i : Z) (seen : Z → Z) (by_mac by_time : A) : option (A * A) :=
  match n with
  | O => Some (by_mac, by_time)
  | S n =>
      by_mac ← alt_insert by_mac (mac_key i) i;
      by_time ← alt_insert by_time (time_key seen i) i;
      ble_loop n (i + 1) seen by_mac by_time
  end.
Definition ble_build (seen : Z → Z) : option (A * A) :=
  by_mac ← alt_create (Z.of_nat N_BLE);
  by_time ← alt_create (Z.of_nat N_BLE);
  ble_loop N_BLE 0 seen by_mac by_time.

Definition evict_cb (tk idx : Z) (by_mac : option A) : option A :=
  m ← by_mac; alt_remove m (mac_key idx).
(** [EV_LOOP]: first and remove until the cutoff. *)
Fixpoint evict_loop (fuel : nat) (by_mac by_time : A) (evicted : Z) : option (A * A * Z) :=
  match fuel with
  | O => None
  | S fuel =>
      f ← alt_first by_time;
      match f with
      | None => Some (by_mac, by_time, evicted)
      | Some (tk, idx) =>
          if tk >? max_tk then Some (by_mac, by_time, evicted)
          else
            by_time ← alt_remove by_time tk;
            by_mac ← alt_remove by_mac (mac_key idx);
            evict_loop fuel by_mac by_time (evicted +w 1)
      end
  end.
(** [EV_RANGE]: one [remove_range] with a callback. *)
Definition evict_range (by_mac by_time : A) : option (A * A * Z) :=
  '(by_time, by_mac, n) ← alt_remove_range by_time 0 max_tk evict_cb (Some by_mac);
  m ← by_mac; Some (m, by_time, u32 n).
(** Whether one of the two [CHECK] lines at the end of [fx_evict] is printed. *)
Definition evict_checks (by_mac : A) : option bool :=
  last ← alt_get by_mac (mac_key (Z.of_nat N_BLE - 1));
  first ← alt_get by_mac (mac_key 0);
  Some (match last with Some v => negb (v =? Z.of_nat N_BLE - 1) | None => true end
        || match first with Some _ => true | None => false end).
Definition fx_evict (seen : Z → Z) (range_mode : bool) (t0 t1 : Z) : option (Z * Z * bool) :=
  '(by_mac, by_time) ← ble_build seen;
  '(by_mac, by_time, evicted) ← (if range_mode then evict_range by_mac by_time
                                 else evict_loop (S N_BLE) by_mac by_time 0);
  bad ← evict_checks by_mac;
  Some (t1 -w t0, evicted, bad).
End Fixtures.

(** ** What the loops leave, as lists *)
Definition filled (n : nat) (key val : Z → Z) : assoc :=
  foldl (λ l i, sl_insert (key i) (val i) l) [] (seqZ 0 (Z.of_nat n)).

Section Proofs.
  Context {A : Type} `{OrderedAlt A}.
  Implicit Types (m : A) (l : assoc).

(** Filling with keys that are pairwise distinct never runs out of room. *)
Lemma fill_spec n i key val m l :
  alt_rep m l → 0 <= i → (∀ j, i <= j < i + Z.of_nat n → is_u32 (key j)) →
  Z.of_nat (length l) + Z.of_nat n <= alt_cap m →
  ∃ m', fill n i key val m = Some m'
      ∧ alt_rep m' (foldl (λ l i, sl_insert (key i) (val i) l) l (seqZ i (Z.of_nat n)))
      ∧ alt_cap m' = alt_cap m.
Proof.
  revert i m l. induction n as [|n IH]; intros i m l Hr Hi Hk Hc; [by exists m|]. cbn [fill].
  destruct (oa_insert m l (key i) (val i) Hr) as (m1 & -> & Hr1 & Hc1);
    [apply oa_key, Hk; lia|right; lia|]. cbn [mbind option_bind].
  destruct (IH (i + 1) m1 (sl_insert (key i) (val i) l) Hr1) as (m2 & -> & Hr2 & Hc2); [lia| | |].
  - intros j Hj. apply Hk. lia.
  - pose proof (length_sl_insert_le (key i) (val i) l). lia.
  - exists m2. split; [done|]. rewrite seqZ_cons by lia. cbn [foldl]. replace (Z.pred (Z.of_nat (S n))) with (Z.of_nat n) by lia.
    replace (Z.succ i) with (i + 1) by lia. split; [done|congruence].
Qed.

Lemma create_fill n key val :
  (∀ j, 0 <= j < Z.of_nat n → is_u32 (key j)) → 1 <= Z.of_nat n < 2 ^ 20 →
  ∃ m m', alt_create (Z.of_nat n) = Some m ∧ fill n 0 key val m = Some m' ∧ alt_rep m' (filled n key val).
Proof.
  intros Hk Hn. destruct (alt_create_spec (Z.of_nat n) Hn) as (m & Hm & Hr & Hc).
  destruct (fill_spec n 0 key val m [] Hr) as (m' & Hf & Hr' & _); [lia|done|simpl; lia|]. by exists m, m'.
Qed.

(** Both indices, filled side by side. *)
Lemma ble_loop_spec n i seen by_mac by_time lm lt :
  alt_rep by_mac lm → alt_rep by_time lt → 0 <= i →
  (∀ j, i <= j < i + Z.of_nat n → is_u32 (mac_key j) ∧ is_u32 (time_key seen j)) →
  Z.of_nat (length lm) + Z.of_nat n <= alt_cap by_mac → Z.of_nat (length lt) + Z.of_nat n <= alt_cap by_time →
  ∃ m t, ble_loop n i seen by_mac by_time = Some (m, t)
       ∧ alt_rep m (foldl (λ l i, sl_insert (mac_key i) i l) lm (seqZ i (Z.of_nat n)))
       ∧ alt_rep t (foldl (λ l i, sl_insert (time_key seen i) i l) lt (seqZ i (Z.of_nat n))).
Proof.
  revert i by_mac by_time lm lt. induction n as [|n IH]; intros i by_mac by_time lm lt Hm Ht Hi Hk Hcm Hct;
    [by exists by_mac, by_time|]. cbn [ble_loop]. destruct (Hk i) as [Hk1 Hk2]; [lia|].
  destruct (oa_insert by_mac lm (mac_key i) i Hm (oa_key _ Hk1)) as (m1 & -> & Hm1 & Hc1); [right; lia|].
  destruct (oa_insert by_time lt (time_key seen i) i Ht (oa_key _ Hk2)) as (t1 & He & Ht1 & Hc2); [right; lia|].
  cbn [mbind option_bind]. rewrite He. cbn [mbind option_bind].
  pose proof (length_sl_insert_le (mac_key i) i lm) as Hlm.
  pose proof (length_sl_insert_le (time_key seen i) i lt) as Hlt.
  destruct (IH (i + 1) m1 t1 _ _ Hm1 Ht1) as (m2 & t2 & -> & Hm2 & Ht2); [lia| | | |].
  - intros j Hj. apply Hk. lia.
  - lia.
  - lia.
  - exists m2, t2. split; [done|]. rewrite seqZ_cons by lia. cbn [foldl].
    replace (Z.pred (Z.of_nat (S n))) with (Z.of_nat n) by lia. by replace (Z.succ i) with (i + 1) by lia.
Qed.

(** The MAC index after the records of [l] are dropped from it. *)
Definition drop_macs (l lm : assoc) : assoc := foldl (λ (acc : assoc) (e : Z * Z), sl_delete (mac_key e.2) acc) lm l.

Lemma visit_evict l by_mac lm :
  alt_rep by_mac lm → (∀ e, e ∈ l → is_u32 (mac_key e.2)) →
  ∃ m, visit evict_cb l (Some by_mac) = Some m ∧ alt_rep m (drop_macs l lm).
Proof.
  revert by_mac lm. induction l as [|[tk idx] l IH]; intros by_mac lm Hm Hk; [by exists by_mac|].
  cbn [visit]. unfold evict_cb at 2. cbn [mbind option_bind].
  destruct (oa_remove by_mac lm (mac_key idx) Hm) as (m1 & -> & Hm1 & _).
  { apply oa_key, (Hk (tk, idx)). constructor. }
  apply IH; [done|]. intros e He. apply Hk. by constructor.
Qed.

Lemma max_tk_value : max_tk = 49151.
Proof. reflexivity. Qed.

Lemma fx_evict_loop_spec fuel by_mac by_time lm lt n :
  alt_rep by_mac lm → alt_rep by_time lt → (∀ e, e ∈ lt → is_u32 e.1 ∧ is_u32 (mac_key e.2)) →
  (length (sl_range 0 max_tk lt) < fuel)%nat → 0 <= n → n + Z.of_nat (length lt) < 2 ^ 32 →
  ∃ m t, evict_loop fuel by_mac by_time n = Some (m, t, n + Z.of_nat (length (sl_range 0 max_tk lt)))
       ∧ alt_rep m (drop_macs (sl_range 0 max_tk lt) lm) ∧ alt_rep t (sl_outside 0 max_tk lt).
Proof.
  revert by_mac by_time lm lt n. induction fuel as [|fuel IH]; intros by_mac by_time lm lt n Hm Ht Hk Hf Hn Hlen; [lia|].
  cbn [evict_loop]. rewrite (oa_first by_time lt Ht). cbn [mbind option_bind]. pose proof (oa_sorted _ _ Ht) as Hs.
  assert (sl_from 0 lt = lt) as Hfrom by (apply list_filter_all; intros e He; destruct (Hk e He); word_lia).
  destruct lt as [|[tk idx] r] eqn:Hl; [exists by_mac, by_time; split_and!; try done; do 2 f_equal; simpl; lia|].
  rewrite <- Hl in *. replace (head lt) with (Some (tk, idx)) by (by rewrite Hl).
  assert (head (sl_from 0 lt) = Some (tk, idx)) as Hh by (by rewrite Hfrom, Hl).
  assert ((tk, idx) ∈ lt) as Hin by (rewrite Hl; constructor). destruct (Hk _ Hin) as [Htk Hmk]. cbn [fst snd] in *.
  rewrite Z.gtb_ltb. destruct (Z.ltb_spec max_tk tk) as [Hgt|Hle].
  - rewrite range_empty.
    2:{ intros e He _. apply head_from_Some in Hh as (_ & _ & Hmin); [|done].
        specialize (Hmin e He). destruct (Hk e He). word_lia. }
    exists by_mac, by_time. split; [do 2 f_equal; simpl; lia|]. split; [done|].
    replace (sl_outside 0 max_tk lt) with lt; [done|]. symmetry. apply list_filter_all.
    intros e He. apply head_from_Some in Hh as (_ & _ & Hmin); [|done]. specialize (Hmin e He).
    destruct (Hk e He). word_lia.
  - destruct (oa_remove by_time lt tk Ht (oa_key _ Htk)) as (t1 & -> & Ht1 & _). cbn [mbind option_bind].
    destruct (oa_remove by_mac lm (mac_key idx) Hm (oa_key _ Hmk)) as (m1 & -> & Hm1 & _). cbn [mbind option_bind].
    rewrite (range_head_delete 0 max_tk lt tk idx Hs Hh Hle) in Hf |- *. cbn [length] in *.
    assert (length (sl_delete tk lt) < length lt)%nat.
    { apply length_filter_lt with (tk, idx); [done|simpl; tauto]. }
    rewrite u32_small by word_lia.
    destruct (IH m1 t1 _ (sl_delete tk lt) (n + 1) Hm1 Ht1) as (m2 & t2 & -> & Hm2 & Ht2); [|lia..|].
    + intros e [_ He]%elem_of_sl_delete. by apply Hk.
    + exists m2, t2. split; [do 2 f_equal; lia|]. split; [done|].
      replace (sl_outside 0 max_tk lt) with (sl_outside 0 max_tk (sl_delete tk lt)); [done|].
      apply sorted_ext; [auto with assoc..|]. intros e. rewrite !elem_of_sl_outside, elem_of_sl_delete.
      split; [tauto|]. intros [Ho He]. split_and!; try done. intros ?. word_lia.
Qed.

Lemma evict_range_spec by_mac by_time lm lt :
  alt_rep by_mac lm → alt_rep by_time lt → (∀ e, e ∈ lt → is_u32 e.1 ∧ is_u32 (mac_key e.2)) →
  Z.of_nat (length lt) < 2 ^ 32 →
  ∃ m t, evict_range by_mac by_time = Some (m, t, Z.of_nat (length (sl_range 0 max_tk lt)))
       ∧ alt_rep m (drop_macs (sl_range 0 max_tk lt) lm) ∧ alt_rep t (sl_outside 0 max_tk lt).
Proof.
  intros Hm Ht Hk Hlen. unfold evict_range.
  destruct (oa_remove_range _ by_time lt max_tk evict_cb (Some by_mac) Ht) as (t1 & -> & Ht1 & _);
    [rewrite max_tk_value; word_lia|intros e He; destruct (Hk e He); word_lia|]. cbn [mbind option_bind].
  destruct (visit_evict (sl_range 0 max_tk lt) by_mac lm Hm) as (m1 & -> & Hm1).
  { intros e [_ He]%elem_of_sl_range. by apply Hk. }
  cbn [mbind option_bind]. exists m1, t1. pose proof (sl_outside_range_length 0 max_tk lt).
  by rewrite u32_small by word_lia.
Qed.
End Proofs.

(** ** The fixtures' keys, checked by computation *)
Lemma fnv1a_range d : is_u32 (fnv1a d).
Proof.
  unfold fnv1a. assert (∀ h, is_u32 h → is_u32 (foldl (λ h b, u32 (Z.lxor h b * 16777619)) h d)) as Hf.
  { induction d as [|b d IH]; intros h Hh; [done|]. simpl. apply IH, u32_range. }
  apply Hf. word_lia.
Qed.
Lemma time_key_range seen i : is_u32 (time_key seen i).
Proof.
  unfold time_key, is_u32. pose proof (u32_range (Z.shiftl (seen i / 1000) 13)) as [H0 H1].
  assert (0 <= Z.land i 8191 < 2 ^ 32) as [H2 H3].
  { change 8191 with (Z.ones 13). rewrite Z.land_ones by lia. pose proof (Z.mod_pos_bound i (2 ^ 13)). lia. }
  split; [by apply Z.lor_nonneg|]. destruct (decide (Z.lor ((seen i / 1000) <<w 13) (Z.land i 8191) = 0)) as [->|]; [lia|].
  apply Z.log2_lt_pow2; [pose proof (proj2 (Z.lor_nonneg ((seen i / 1000) <<w 13) (Z.land i 8191)) (conj H0 H2)); lia|].
  rewrite Z.log2_lor by done. apply Z.max_lub_lt.
  - destruct (decide ((seen i / 1000) <<w 13 = 0)) as [->|]; [done|]. apply Z.log2_lt_pow2; lia.
  - destruct (decide (Z.land i 8191 = 0)) as [->|]; [done|]. apply Z.log2_lt_pow2; lia.
Qed.

Definition mac_list : assoc := filled N_BLE mac_key (λ i, i).

(** With distinct keys, a filled list holds exactly what was put in. *)
Lemma filled_spec n key val :
  (∀ i j, 0 <= i < Z.of_nat n → 0 <= j < Z.of_nat n → key i = key j → i = j) →
  sorted (filled n key val) ∧
  ∀ e, e ∈ filled n key val ↔ ∃ i, 0 <= i < Z.of_nat n ∧ e = (key i, val i).
Proof.
  intros Hinj. unfold filled. induction n as [|n IH].
  { split; [constructor|]. intros e. rewrite elem_of_nil. split; [done|]. intros (i & ? & _). lia. }
  destruct IH as [Hs IH]; [intros i j ? ? ?; apply Hinj; (done || lia)|].
  replace (Z.of_nat (S n)) with (Z.of_nat n + 1) by lia. rewrite seqZ_app, foldl_app by lia.
  rewrite (seqZ_cons (0 + Z.of_nat n)) by lia. change (Z.pred 1) with 0. rewrite (seqZ_nil _ 0), Z.add_0_l by lia.
  cbn [foldl].
  split; [auto with assoc|]. intros e. rewrite elem_of_sl_insert by done. rewrite IH. split.
  - intros [->|(Hne & i & Hi & ->)]; [exists (Z.of_nat n)|exists i]; split; (done || lia).
  - intros (i & Hi & ->). destruct (decide (i = Z.of_nat n)) as [->|Hne]; [by left|]. right.
    split; [|exists i; split; [lia|done]]. cbn [fst]. intros Heq. apply Hne, (Hinj i (Z.of_nat n)); (done || lia).
Qed.
Lemma filled_lookup n key val i :
  (∀ i j, 0 <= i < Z.of_nat n → 0 <= j < Z.of_nat n → key i = key j → i = j) →
  0 <= i < Z.of_nat n → sl_lookup (key i) (filled n key val) = Some (val i).
Proof.
  intros Hinj Hi. destruct (filled_spec n key val Hinj) as [Hs He]. apply sl_lookup_spec; [done|].
  apply He. by exists i.
Qed.

Lemma time_key_value seen i :
  0 <= seen i < 524288000 → 0 <= i < 8192 → time_key seen i = seen i / 1000 * 8192 + i.
Proof.
  intros Hs Hi. assert (0 <= seen i / 1000 < 524288).
  { split; [apply Z.div_pos; lia|apply Z.div_lt_upper_bound; lia]. }
  unfold time_key. change 8191 with (Z.ones 13). rewrite Z.land_ones, (Z.mod_small i) by lia.
  rewrite u32_small by (rewrite Z.shiftl_mul_pow2 by lia; word_lia). by rewrite lor_shiftl_add by lia.
Qed.

(** The schedules of the two fixtures: times in range. *)
Definition schedule (seen : Z → Z) : Prop := ∀ i, 0 <= i < Z.of_nat N_BLE → 0 <= seen i < 524288000.
Lemma schedule_bulk : schedule seen_bulk.
Proof. intros i Hi. unfold seen_bulk, N_BLE in *. rewrite u32_small by word_lia. lia. Qed.
Lemma schedule_steady : schedule seen_steady.
Proof.
  intros i Hi. unfold seen_steady, N_BLE in *. destruct (i <? 25); rewrite u32_small by word_lia; lia.
Qed.

Section Schedule.
Context (seen : Z → Z) (Hseen : schedule seen).
Definition time_list : assoc := filled N_BLE (time_key seen) (λ i, i).

Lemma ble_index i : 0 <= i < Z.of_nat N_BLE → 0 <= i < 8192.
Proof. unfold N_BLE. lia. Qed.
Lemma time_key_inj i j :
  0 <= i < Z.of_nat N_BLE → 0 <= j < Z.of_nat N_BLE → time_key seen i = time_key seen j → i = j.
Proof using Hseen.
  intros Hi Hj. pose proof (ble_index i Hi). pose proof (ble_index j Hj).
  rewrite !time_key_value by (done || by apply Hseen). lia.
Qed.
Lemma time_list_spec :
  sorted time_list ∧ ∀ e, e ∈ time_list ↔ ∃ i, 0 <= i < Z.of_nat N_BLE ∧ e = (time_key seen i, i).
Proof using Hseen. apply (filled_spec N_BLE (time_key seen) (λ i, i)), time_key_inj. Qed.
Lemma time_list_keys e : e ∈ time_list → is_u32 e.1 ∧ is_u32 (mac_key e.2).
Proof using Hseen.
  intros (i & _ & ->)%time_list_spec. split; [apply time_key_range|apply fnv1a_range].
Qed.
(** The evicted indices: those whose second is not after the fifth. *)
Lemma time_range_spec i : i ∈ (sl_range 0 max_tk time_list).*2 ↔ 0 <= i < Z.of_nat N_BLE ∧ seen i / 1000 <= 5.
Proof using Hseen.
  rewrite list_elem_of_fmap. split.
  - intros ([k j] & -> & [Hk (x & Hx & [= -> ->])%time_list_spec]%elem_of_sl_range). cbn [fst snd] in *.
    split; [done|]. rewrite time_key_value, max_tk_value in Hk by (by apply Hseen || by apply ble_index).
    pose proof (ble_index x Hx). lia.
  - intros [Hi Hs]. exists (time_key seen i, i). split; [done|]. apply elem_of_sl_range. cbn [fst].
    split; [|apply time_list_spec; by exists i].
    rewrite time_key_value, max_tk_value by (by apply Hseen || by apply ble_index).
    pose proof (ble_index i Hi). specialize (Hseen i Hi). pose proof (Z.div_pos (seen i) 1000). lia.
Qed.
Lemma time_range_count :
  length (sl_range 0 max_tk time_list) = length (filter (λ i, seen i / 1000 <= 5) (seqZ 0 (Z.of_nat N_BLE))).
Proof using Hseen.
  rewrite <- (length_fmap snd). apply Permutation_length, NoDup_Permutation.
  - apply NoDup_snd; [apply sorted_sl_range, time_list_spec|].
    intros k k' i [_ (x & _ & [= -> ->])%time_list_spec]%elem_of_sl_range.
    by intros [_ (y & _ & [= -> ->])%time_list_spec]%elem_of_sl_range.
  - apply NoDup_filter, NoDup_seqZ.
  - intros i. rewrite time_range_spec, list_elem_of_filter, elem_of_seqZ. lia.
Qed.
End Schedule.

(** ** What survives in the MAC index *)
Lemma drop_macs_lookup l lm k :
  sorted lm →
  sl_lookup k (drop_macs l lm) = if decide (k ∈ mac_key <$> l.*2) then None else sl_lookup k lm.
Proof.
  revert lm. induction l as [|[tk i] l IH]; intros lm Hs; [done|].
  unfold drop_macs. cbn [foldl snd]. fold (drop_macs l (sl_delete (mac_key i) lm)).
  rewrite IH, sl_lookup_delete by auto with assoc.
  change (mac_key <$> ((tk, i) :: l).*2) with (mac_key i :: (mac_key <$> l.*2)).
  destruct (decide (k ∈ mac_key <$> l.*2)) as [Hin|Hin], (decide (mac_key i = k)) as [Heq|Hne].
  - rewrite decide_True; [done|]. by constructor.
  - rewrite decide_True; [done|]. by constructor.
  - rewrite decide_True; [done|]. subst. constructor.
  - rewrite decide_False; [done|]. by intros [->|?]%elem_of_cons.
Qed.

(** No device that can be evicted shares its hash with the last one: checked
    for all of them. *)
Definition no_clash (seen : Z → Z) : bool :=
  let last := mac_key (Z.of_nat N_BLE - 1) in
  forallb (λ i, if 5 <? seen i / 1000 then true else negb (mac_key i =? last)) (seqZ 0 (Z.of_nat N_BLE)).
Lemma no_clash_bulk : no_clash seen_bulk = true.
Proof. vm_compute. reflexivity. Qed.
Lemma no_clash_steady : no_clash seen_steady = true.
Proof. vm_compute. reflexivity. Qed.

Lemma no_clash_spec seen i :
  no_clash seen = true → 0 <= i < Z.of_nat N_BLE → seen i / 1000 <= 5 → mac_key i ≠ mac_key (Z.of_nat N_BLE - 1).
Proof.
  unfold no_clash. rewrite forallb_forall. intros Hall Hi Hs Heq. specialize (Hall i).
  rewrite (proj2 (Z.ltb_ge 5 _)), Heq, Z.eqb_refl in Hall by done. assert (false = true); [|done].
  apply Hall, list_elem_of_In, elem_of_seqZ. lia.
Qed.

(** The last insertion of a fill decides its key. *)
Lemma foldl_insert_sorted (key val : Z → Z) js l :
  sorted l → sorted (foldl (λ (l : assoc) i, sl_insert (key i) (val i) l) l js).
Proof. revert l. induction js as [|j js IH]; intros l Hl; [done|]. simpl. apply IH. auto with assoc. Qed.
Lemma foldl_insert_length (key val : Z → Z) js l :
  (length (foldl (λ (l : assoc) i, sl_insert (key i) (val i) l) l js) <= length l + length js)%nat.
Proof.
  revert l. induction js as [|j js IH]; intros l; simpl; [lia|]. etrans; [apply IH|].
  pose proof (length_sl_insert_le (key j) (val j) l). lia.
Qed.
Lemma filled_last n key val :
  sl_lookup (key (Z.of_nat n)) (filled (S n) key val) = Some (val (Z.of_nat n)).
Proof.
  unfold filled. replace (Z.of_nat (S n)) with (Z.of_nat n + 1) by lia. rewrite seqZ_app, foldl_app by lia.
  rewrite (seqZ_cons (0 + Z.of_nat n)) by lia. change (Z.pred 1) with 0. rewrite (seqZ_nil _ 0), Z.add_0_l by lia.
  cbn [foldl]. rewrite sl_lookup_insert, decide_True; [done|done|]. apply foldl_insert_sorted, sorted_nil.
Qed.
Lemma filled_length n key val : (length (filled n key val) <= n)%nat.
Proof.
  unfold filled. etrans; [apply foldl_insert_length|]. rewrite length_seqZ. simpl. lia.
Qed.

(** ** Claims *)
Section Claims.
  Context {A : Type} `{OrderedAlt A}.

Lemma ble_build_spec seen :
  schedule seen →
  ∃ by_mac by_time : A, ble_build seen = Some (by_mac, by_time)
    ∧ alt_rep by_mac mac_list ∧ alt_rep by_time (time_list seen).
Proof.
  intros Hsc. unfold ble_build. change (Z.of_nat N_BLE) with 2000.
  destruct (alt_create_spec (A := A) 2000) as (m & Hm & Hrm & Hcm); [lia|]. rewrite Hm. cbn [mbind option_bind].
  destruct (ble_loop_spec N_BLE 0 seen m m [] [] Hrm Hrm) as (m' & t' & He & Hm' & Ht'); [lia| | | |].
  - intros j _. split; [apply fnv1a_range|apply time_key_range].
  - rewrite Hcm. unfold N_BLE. simpl. lia.
  - rewrite Hcm. unfold N_BLE. simpl. lia.
  - exists m', t'. unfold mac_list, time_list, filled. split; [exact He|]. split; [exact Hm'|exact Ht'].
Qed.

(** The two eviction modes of [fx_evict] agree on every ordered structure
    and every schedule in range: both evict the same number of devices (those
    last seen in the first six seconds) and leave the same MAC index. *)
Theorem fx_evict_modes seen :
  schedule seen →
  ∃ m1 t1 m2 t2 (by_mac by_time : A) n l,
    ble_build seen = Some (by_mac, by_time)
    ∧ evict_loop (S N_BLE) by_mac by_time 0 = Some (m1, t1, n)
    ∧ evict_range by_mac by_time = Some (m2, t2, n)
    ∧ n = Z.of_nat (length (filter (λ i, seen i / 1000 <= 5) (seqZ 0 (Z.of_nat N_BLE))))
    ∧ alt_rep m1 l ∧ alt_rep m2 l.
Proof.
  intros Hsc. destruct (ble_build_spec seen Hsc) as (by_mac & by_time & Hb & Hm & Ht).
  pose proof (time_list_keys seen Hsc) as Hk. pose proof (time_range_count seen Hsc) as Hn.
  pose proof (length_filter (λ i, seen i / 1000 <= 5) (seqZ 0 (Z.of_nat N_BLE))) as Hle. rewrite length_seqZ in Hle.
  pose proof (filled_length N_BLE (time_key seen) (λ i, i)) as Hlen. fold (time_list seen) in Hlen.
  assert (N_BLE = 2000%nat) as HN by done.
  destruct (fx_evict_loop_spec (S N_BLE) by_mac by_time mac_list (time_list seen) 0 Hm Ht Hk)
    as (m1 & t1 & He1 & Hm1 & _).
  { rewrite Hn. lia. } { lia. } { lia. }
  destruct (evict_range_spec by_mac by_time mac_list (time_list seen) Hm Ht Hk) as (m2 & t2 & He2 & Hm2 & _).
  { lia. }
  rewrite Z.add_0_l in He1. rewrite Hn in He1, He2. eexists m1, t1, m2, t2, by_mac, by_time, _, _. split_and!; done.
Qed.

Lemma evict_checks_value (m : A) gone lm :
  alt_rep m (drop_macs gone lm) → sorted lm → mac_key 0 ∈ mac_key <$> gone.*2 →
  mac_key (Z.of_nat N_BLE - 1) ∉ mac_key <$> gone.*2 →
  sl_lookup (mac_key (Z.of_nat N_BLE - 1)) lm = Some (Z.of_nat N_BLE - 1) → evict_checks m = Some false.
Proof.
  intros Hm Hs Hin Hout Hl. unfold evict_checks.
  rewrite !(alt_get_spec m _ _ Hm) by apply oa_key, fnv1a_range. cbn [mbind option_bind].
  rewrite !drop_macs_lookup by exact Hs. rewrite (decide_False (P := mac_key (Z.of_nat N_BLE - 1) ∈ _)) by exact Hout.
  rewrite (decide_True (P := mac_key 0 ∈ _)) by exact Hin. rewrite Hl, Z.eqb_refl. reflexivity.
Qed.
Lemma mac_list_last : sl_lookup (mac_key (Z.of_nat N_BLE - 1)) mac_list = Some (Z.of_nat N_BLE - 1).
Proof. exact (filled_last 1999 mac_key (λ i, i)). Qed.
Lemma evict_checks_pass seen (m : A) :
  schedule seen → no_clash seen = true → seen 0 / 1000 <= 5 → 5 < seen (Z.of_nat N_BLE - 1) / 1000 →
  alt_rep m (drop_macs (sl_range 0 max_tk (time_list seen)) mac_list) → evict_checks m = Some false.
Proof.
  intros Hsc Hnc H0 Hlast Hm. eapply evict_checks_value; [exact Hm|apply foldl_insert_sorted, sorted_nil| | |exact mac_list_last].
  - apply list_elem_of_fmap. exists 0. split; [reflexivity|]. apply (time_range_spec seen Hsc). split; [|exact H0].
    unfold N_BLE. lia.
  - intros (i & Heq & Hi)%list_elem_of_fmap. apply (time_range_spec seen Hsc) in Hi as [Hr Hi].
    exact (no_clash_spec seen i Hnc Hr Hi (eq_sym Heq)).
Qed.

Lemma fx_evict_value seen range_mode t0 t1 :
  schedule seen → no_clash seen = true → seen 0 / 1000 <= 5 → 5 < seen (Z.of_nat N_BLE - 1) / 1000 →
  fx_evict (A := A) seen range_mode t0 t1
  = Some (t1 -w t0, Z.of_nat (length (filter (λ i, seen i / 1000 <= 5) (seqZ 0 (Z.of_nat N_BLE)))), false).
Proof.
  intros Hsc Hnc H0 Hlast. destruct (ble_build_spec seen Hsc) as (by_mac & by_time & Hb & Hm & Ht).
  pose proof (time_list_keys seen Hsc) as Hk. pose proof (time_range_count seen Hsc) as Hn.
  pose proof (length_filter (λ i, seen i / 1000 <= 5) (seqZ 0 (Z.of_nat N_BLE))) as Hle. rewrite length_seqZ in Hle.
  pose proof (filled_length N_BLE (time_key seen) (λ i, i)) as Hlen. fold (time_list seen) in Hlen.
  assert (N_BLE = 2000%nat) as HN by done. unfold fx_evict. rewrite Hb. cbn [mbind option_bind]. destruct range_mode.
  - destruct (evict_range_spec by_mac by_time mac_list (time_list seen) Hm Ht Hk) as (m & t & -> & Hm' & _); [lia|].
    cbn [mbind option_bind]. rewrite (evict_checks_pass seen m Hsc Hnc H0 Hlast Hm'). cbn [mbind option_bind]. by rewrite Hn.
  - destruct (fx_evict_loop_spec (S N_BLE) by_mac by_time mac_list (time_list seen) 0 Hm Ht Hk)
      as (m & t & -> & Hm' & _); [rewrite Hn; lia|lia|lia|].
    cbn [mbind option_bind]. rewrite (evict_checks_pass seen m Hsc Hnc H0 Hlast Hm'). cbn [mbind option_bind].
    by rewrite Hn, Z.add_0_l.
Qed.

Lemma evicted_bulk : length (filter (λ i, seen_bulk i / 1000 <= 5) (seqZ 0 (Z.of_nat N_BLE))) = 600%nat.
Proof. vm_compute. reflexivity. Qed.
Lemma evicted_steady : length (filter (λ i, seen_steady i / 1000 <= 5) (seqZ 0 (Z.of_nat N_BLE))) = 25%nat.
Proof. vm_compute. reflexivity. Qed.

(** On every ordered structure the eviction fixtures evict 600 devices of
    the bulk schedule and 25 of the steady one, in both modes, and neither
    [CHECK] line of [fx_evict] is printed. *)
Theorem fx_evict_counts range_mode t0 t1 :
  fx_evict (A := A) seen_bulk range_mode t0 t1 = Some (t1 -w t0, 600, false) ∧
  fx_evict (A := A) seen_steady range_mode t0 t1 = Some (t1 -w t0, 25, false).
Proof.
  assert (seen_bulk 0 / 1000 <= 5 ∧ 5 < seen_bulk (Z.of_nat N_BLE - 1) / 1000) as [Hb0 Hb1]
    by (split; vm_compute; congruence).
  assert (seen_steady 0 / 1000 <= 5 ∧ 5 < seen_steady (Z.of_nat N_BLE - 1) / 1000) as [Hs0 Hs1]
    by (split; vm_compute; congruence).
  rewrite (fx_evict_value seen_bulk range_mode t0 t1 schedule_bulk no_clash_bulk Hb0 Hb1).
  rewrite (fx_evict_value seen_steady range_mode t0 t1 schedule_steady no_clash_steady Hs0 Hs1).
  rewrite evicted_bulk, evicted_steady. split; reflexivity.
Qed.

Lemma can_key_value i : 0 <= i < 500 → can_key i = i * 100007.
Proof.
  intros Hi. unfold can_key. rewrite u32_small by word_lia. change 536870911 with (Z.ones 29).
  rewrite Z.land_ones by lia. apply Z.mod_small. lia.
Qed.
Lemma can_loop_spec (n : nat) i sum (m : A) :
  alt_rep m (filled N_CAN can_key (λ i, i)) → 0 <= i → i + Z.of_nat n <= 500 → 0 <= sum <= i * 500 →
  ∃ s, can_loop n i sum m = Some s ∧ 2 * s = 2 * sum + Z.of_nat n * (2 * i + Z.of_nat n - 1).
Proof.
  intros Hm. revert i sum. induction n as [|n IH]; intros i sum Hi Hn Hs; [exists sum; split; [done|lia]|].
  cbn [can_loop]. rewrite (alt_get_spec m _ _ Hm) by (apply oa_key; rewrite can_key_value by lia; word_lia).
  cbn [mbind option_bind]. rewrite filled_lookup.
  - rewrite u32_small by word_lia. destruct (IH (i + 1) (sum + i)) as (s & -> & Hv); [lia..|].
    exists s. split; [done|]. nia.
  - intros x y Hx Hy. unfold N_CAN in Hx, Hy. rewrite !can_key_value by lia. lia.
  - unfold N_CAN. lia.
Qed.

Lemma ingest_key j : 0 <= j < 2000 → 1700000000 +w j = 1700000000 + j.
Proof. intros Hj. apply u32_small. word_lia. Qed.
Lemma ingest_lookup i :
  0 <= i < 2000 → sl_lookup (1700000000 + i) (filled N_INGEST (λ i, 1700000000 +w i) (λ _, 42)) = Some 42.
Proof.
  intros Hi. rewrite <- (ingest_key i Hi).
  apply (filled_lookup N_INGEST (λ i, 1700000000 +w i) (λ _, 42) i); [|exact Hi].
  intros x y Hx Hy. change (Z.of_nat N_INGEST) with 2000 in Hx, Hy. rewrite !ingest_key by assumption. lia.
Qed.

Lemma ingest_value (m : A) l (t : Z) :
  alt_rep m l → sl_lookup (1700000000 + 1999) l = Some 42 → sl_lookup (1700000000 + 0) l = Some 42 →
  (last ← alt_get m (1700000000 + Z.of_nat N_INGEST - 1);
   first ← alt_get m 1700000000;
   Some (t, match last with Some v => negb (v =? 42) | None => true end
            || match first with Some _ => false | None => true end)) = Some (t, false).
Proof.
  intros Hm H1 H0. change (1700000000 + Z.of_nat N_INGEST - 1) with (1700000000 + 1999).
  rewrite (alt_get_spec m l (1700000000 + 1999) Hm) by (apply oa_key; word_lia). cbn [mbind option_bind]. rewrite H1.
  rewrite (alt_get_spec m l 1700000000 Hm) by (apply oa_key; word_lia). cbn [mbind option_bind].
  change 1700000000 with (1700000000 + 0). by rewrite H0.
Qed.

(** On every ordered structure the CAN dispatch fixture sums every handler
    once, and the ingest fixture finds its first and last key: their [CHECK]
    lines are not printed. *)
Theorem fx_checks_pass t0 t1 :
  (∃ m : A, can_table = Some m ∧ fx_can m t0 t1 = Some (t1 -w t0, false)) ∧
  fx_ingest (A := A) t0 t1 = Some (t1 -w t0, false).
Proof.
  split.
  - destruct (create_fill (A := A) N_CAN can_key (λ i, i)) as (m0 & m & Hc & Hf & Hm).
    + intros j Hj. unfold N_CAN in Hj. rewrite can_key_value by lia. word_lia.
    + unfold N_CAN. lia.
    + exists m. unfold can_table. rewrite Hc. cbn [mbind option_bind]. split; [exact Hf|].
      destruct (can_loop_spec N_CAN 0 0 m Hm) as (s & Hl & Hs); [lia|unfold N_CAN; lia|lia|].
      unfold fx_can. rewrite Hl. cbn [mbind option_bind]. unfold N_CAN in *.
      assert (s = 124750) as -> by lia. reflexivity.
  - destruct (create_fill (A := A) N_INGEST (λ i, 1700000000 +w i) (λ _, 42)) as (m0 & m & Hc & Hf & Hm).
    + intros j _. apply u32_range.
    + unfold N_INGEST. lia.
    + unfold fx_ingest. rewrite Hc. cbn [mbind option_bind]. rewrite Hf. cbn [mbind option_bind].
      exact (ingest_value m _ _ Hm (ingest_lookup 1999 ltac:(lia)) (ingest_lookup 0 ltac:(lia))).
Qed.
End Claims.

(** ** Witness *)
Lemma fx_evict_modes_witness :
  ∃ m1 t1 m2 t2 (by_mac by_time : ex_map (gmap Z Z)) n l,
    ble_build seen_bulk = Some (by_mac, by_time)
    ∧ evict_loop (S N_BLE) by_mac by_time 0 = Some (m1, t1, n)
    ∧ evict_range by_mac by_time = Some (m2, t2, n)
    ∧ n = Z.of_nat (length (filter (λ i, seen_bulk i / 1000 <= 5) (seqZ 0 (Z.of_nat N_BLE))))
    ∧ alt_rep m1 l ∧ alt_rep m2 l.
Proof. apply (fx_evict_modes (A := ex_map (gmap Z Z)) seen_bulk). exact schedule_bulk. Defined.
Lemma fx_evict_counts_witness :
  fx_evict (A := ex_map (gmap Z Z)) seen_bulk true 5 9 = Some (9 -w 5, 600, false).
Proof. exact (proj1 (fx_evict_counts (A := ex_map (gmap Z Z)) true 5 9)). Defined.
Lemma fx_checks_pass_witness : fx_ingest (A := ex_map (gmap Z Z)) 5 9 = Some (9 -w 5, false).
Proof. exact (proj2 (fx_checks_pass (A := ex_map (gmap Z Z)) 5 9)). Defined.
