(* ===== verification/Lanes.v ===== *)
(** * The two lanes of the LCD demo: one workload on two data structures

    Model of [src/integrations/stm32h747/demo/CM7/Core/Src/lanes.c] and
    [Inc/lanes.h].  A lane is a slab of records with a free-slot stack, a by-id
    table (the sync32 map of [Sync32] in the Expanse lane, the open-addressing
    hash of [OpenHash] in the other), a by-time index in the Expanse lane, and
    four tracked devices that its 1 kHz interrupt looks up.

    The main-loop operations are written in a state-and-error monad [ST] over a
    [world]: the lane, whether the lane's timer interrupt is enabled in the
    NVIC, and the list of [points], the lane states at which the interrupt could
    be taken.  Every store of the main loop ([upd]) adds the state after it when
    the interrupt is not masked, and every mutation of a table adds one state in
    which the writer is inside it (flag [true]): there a sync32 reader answers
    [BUSY], and what a reader of the hash table would find is left open.  [None] is an access
    outside an array, a [NULL] dereference, or a loop that outran its fuel.
    [printf] lines are left out. *)
From stdpp Require Import base numbers list sorting gmap.
From S2P Require Import Prelude SortedAssoc ExpanseApi Sync32 Alts OpenHash.
Open Scope Z_scope.

Definition N_TRACKED : nat := 4.
Definition TTL_MS : Z := 60000.
Definition TICKS_PER_MS : Z := 20000.
Definition RETIRE_MAX : Z := 256.
Definition RING_LEN : Z := 8192.
Definition REHASH_MAX : Z := 24.
Definition SLOT_NONE : Z := 0.
Definition SLOT_VALUE : Z := 1.
Definition SLOT_BUSY : Z := 2.
Definition SLOT_WRONG : Z := 3.
Definition SLOT_HELD : Z := 255.
Definition HASH_MASK_WHOLE : Z := 0.
Definition HASH_MASK_PER_WRITE : Z := 1.
Definition HASH_UNMASKED : Z := 2.
Definition SLAB_CAP : Z := 100000 + 100000 / 8 + 1024.

Record rec_t := Rec { r_id : Z; r_born_ms : Z; r_used : Z }.

Definition xorshift (s : Z) : Z :=
  let s := Z.lxor s (s <<w 13) in
  let s := Z.lxor s (Z.shiftr s 17) in
  Z.lxor s (s <<w 5).
Definition tk_of (born_ms seq : Z) : Z := Z.lor (born_ms <<w 8) (Z.land seq 255).

(** The interrupt's instruments and the main loop's, as in [lane_t]. *)
Record isr_stats := IsrStats {
  expected_cnt : Z;
  isr_served : Z;
  blocked_ms : Z;
  lat_max_ticks : Z;
  isr_ok : Z;
  isr_nf : Z;
  isr_busy : Z;
  isr_bad : Z;
  no_value_ms : Z;
  stale_run : Z;
  stale_max : Z;
  body_max_cyc : Z;
  body_total_cyc : Z;
  ring : list Z;
}.
Definition set_expected_cnt (x : Z) (r : isr_stats) : isr_stats :=
  IsrStats x (isr_served r) (blocked_ms r) (lat_max_ticks r) (isr_ok r) (isr_nf r) (isr_busy r)
    (isr_bad r) (no_value_ms r) (stale_run r) (stale_max r) (body_max_cyc r) (body_total_cyc r)
    (ring r).
Definition set_isr_served (x : Z) (r : isr_stats) : isr_stats :=
  IsrStats (expected_cnt r) x (blocked_ms r) (lat_max_ticks r) (isr_ok r) (isr_nf r) (isr_busy
    r) (isr_bad r) (no_value_ms r) (stale_run r) (stale_max r) (body_max_cyc r) (body_total_cyc
    r) (ring r).
Definition set_blocked_ms (x : Z) (r : isr_stats) : isr_stats :=
  IsrStats (expected_cnt r) (isr_served r) x (lat_max_ticks r) (isr_ok r) (isr_nf r) (isr_busy
    r) (isr_bad r) (no_value_ms r) (stale_run r) (stale_max r) (body_max_cyc r) (body_total_cyc
    r) (ring r).
Definition set_lat_max_ticks (x : Z) (r : isr_stats) : isr_stats :=
  IsrStats (expected_cnt r) (isr_served r) (blocked_ms r) x (isr_ok r) (isr_nf r) (isr_busy r)
    (isr_bad r) (no_value_ms r) (stale_run r) (stale_max r) (body_max_cyc r) (body_total_cyc r)
    (ring r).
Definition set_isr_ok (x : Z) (r : isr_stats) : isr_stats :=
  IsrStats (expected_cnt r) (isr_served r) (blocked_ms r) (lat_max_ticks r) x (isr_nf r)
    (isr_busy r) (isr_bad r) (no_value_ms r) (stale_run r) (stale_max r) (body_max_cyc r)
    (body_total_cyc r) (ring r).
Definition set_isr_nf (x : Z) (r : isr_stats) : isr_stats :=
  IsrStats (expected_cnt r) (isr_served r) (blocked_ms r) (lat_max_ticks r) (isr_ok r) x
    (isr_busy r) (isr_bad r) (no_value_ms r) (stale_run r) (stale_max r) (body_max_cyc r)
    (body_total_cyc r) (ring r).
Definition set_isr_busy (x : Z) (r : isr_stats) : isr_stats :=
  IsrStats (expected_cnt r) (isr_served r) (blocked_ms r) (lat_max_ticks r) (isr_ok r) (isr_nf
    r) x (isr_bad r) (no_value_ms r) (stale_run r) (stale_max r) (body_max_cyc r)
    (body_total_cyc r) (ring r).
Definition set_isr_bad (x : Z) (r : isr_stats) : isr_stats :=
  IsrStats (expected_cnt r) (isr_served r) (blocked_ms r) (lat_max_ticks r) (isr_ok r) (isr_nf
    r) (isr_busy r) x (no_value_ms r) (stale_run r) (stale_max r) (body_max_cyc r)
    (body_total_cyc r) (ring r).
Definition set_no_value_ms (x : Z) (r : isr_stats) : isr_stats :=
  IsrStats (expected_cnt r) (isr_served r) (blocked_ms r) (lat_max_ticks r) (isr_ok r) (isr_nf
    r) (isr_busy r) (isr_bad r) x (stale_run r) (stale_max r) (body_max_cyc r) (body_total_cyc
    r) (ring r).
Definition set_stale_run (x : Z) (r : isr_stats) : isr_stats :=
  IsrStats (expected_cnt r) (isr_served r) (blocked_ms r) (lat_max_ticks r) (isr_ok r) (isr_nf
    r) (isr_busy r) (isr_bad r) (no_value_ms r) x (stale_max r) (body_max_cyc r) (body_total_cyc
    r) (ring r).
Definition set_stale_max (x : Z) (r : isr_stats) : isr_stats :=
  IsrStats (expected_cnt r) (isr_served r) (blocked_ms r) (lat_max_ticks r) (isr_ok r) (isr_nf
    r) (isr_busy r) (isr_bad r) (no_value_ms r) (stale_run r) x (body_max_cyc r) (body_total_cyc
    r) (ring r).
Definition set_body_max_cyc (x : Z) (r : isr_stats) : isr_stats :=
  IsrStats (expected_cnt r) (isr_served r) (blocked_ms r) (lat_max_ticks r) (isr_ok r) (isr_nf
    r) (isr_busy r) (isr_bad r) (no_value_ms r) (stale_run r) (stale_max r) x (body_total_cyc r)
    (ring r).
Definition set_body_total_cyc (x : Z) (r : isr_stats) : isr_stats :=
  IsrStats (expected_cnt r) (isr_served r) (blocked_ms r) (lat_max_ticks r) (isr_ok r) (isr_nf
    r) (isr_busy r) (isr_bad r) (no_value_ms r) (stale_run r) (stale_max r) (body_max_cyc r) x
    (ring r).
Definition set_ring (x : list Z) (r : isr_stats) : isr_stats :=
  IsrStats (expected_cnt r) (isr_served r) (blocked_ms r) (lat_max_ticks r) (isr_ok r) (isr_nf
    r) (isr_busy r) (isr_bad r) (no_value_ms r) (stale_run r) (stale_max r) (body_max_cyc r)
    (body_total_cyc r) x.

Record loop_stats := LoopStats {
  sweep_us : Z;
  sweep_net_us : Z;
  sweep_removed : Z;
  mask_max_cyc : Z;
  mask_t0 : Z;
  irq_masked : Z;
  rehash_ms : list Z;
  rehash_n : Z;
  rehash_moved : list Z;
  index_bytes : Z;
  lookup_ns : Z;
}.
Definition set_sweep_us (x : Z) (r : loop_stats) : loop_stats :=
  LoopStats x (sweep_net_us r) (sweep_removed r) (mask_max_cyc r) (mask_t0 r) (irq_masked r)
    (rehash_ms r) (rehash_n r) (rehash_moved r) (index_bytes r) (lookup_ns r).
Definition set_sweep_net_us (x : Z) (r : loop_stats) : loop_stats :=
  LoopStats (sweep_us r) x (sweep_removed r) (mask_max_cyc r) (mask_t0 r) (irq_masked r)
    (rehash_ms r) (rehash_n r) (rehash_moved r) (index_bytes r) (lookup_ns r).
Definition set_sweep_removed (x : Z) (r : loop_stats) : loop_stats :=
  LoopStats (sweep_us r) (sweep_net_us r) x (mask_max_cyc r) (mask_t0 r) (irq_masked r)
    (rehash_ms r) (rehash_n r) (rehash_moved r) (index_bytes r) (lookup_ns r).
Definition set_mask_max_cyc (x : Z) (r : loop_stats) : loop_stats :=
  LoopStats (sweep_us r) (sweep_net_us r) (sweep_removed r) x (mask_t0 r) (irq_masked r)
    (rehash_ms r) (rehash_n r) (rehash_moved r) (index_bytes r) (lookup_ns r).
Definition set_mask_t0 (x : Z) (r : loop_stats) : loop_stats :=
  LoopStats (sweep_us r) (sweep_net_us r) (sweep_removed r) (mask_max_cyc r) x (irq_masked r)
    (rehash_ms r) (rehash_n r) (rehash_moved r) (index_bytes r) (lookup_ns r).
Definition set_irq_masked (x : Z) (r : loop_stats) : loop_stats :=
  LoopStats (sweep_us r) (sweep_net_us r) (sweep_removed r) (mask_max_cyc r) (mask_t0 r) x
    (rehash_ms r) (rehash_n r) (rehash_moved r) (index_bytes r) (lookup_ns r).
Definition set_rehash_ms (x : list Z) (r : loop_stats) : loop_stats :=
  LoopStats (sweep_us r) (sweep_net_us r) (sweep_removed r) (mask_max_cyc r) (mask_t0 r)
    (irq_masked r) x (rehash_n r) (rehash_moved r) (index_bytes r) (lookup_ns r).
Definition set_rehash_n (x : Z) (r : loop_stats) : loop_stats :=
  LoopStats (sweep_us r) (sweep_net_us r) (sweep_removed r) (mask_max_cyc r) (mask_t0 r)
    (irq_masked r) (rehash_ms r) x (rehash_moved r) (index_bytes r) (lookup_ns r).
Definition set_rehash_moved (x : list Z) (r : loop_stats) : loop_stats :=
  LoopStats (sweep_us r) (sweep_net_us r) (sweep_removed r) (mask_max_cyc r) (mask_t0 r)
    (irq_masked r) (rehash_ms r) (rehash_n r) x (index_bytes r) (lookup_ns r).
Definition set_index_bytes (x : Z) (r : loop_stats) : loop_stats :=
  LoopStats (sweep_us r) (sweep_net_us r) (sweep_removed r) (mask_max_cyc r) (mask_t0 r)
    (irq_masked r) (rehash_ms r) (rehash_n r) (rehash_moved r) x (lookup_ns r).
Definition set_lookup_ns (x : Z) (r : loop_stats) : loop_stats :=
  LoopStats (sweep_us r) (sweep_net_us r) (sweep_removed r) (mask_max_cyc r) (mask_t0 r)
    (irq_masked r) (rehash_ms r) (rehash_n r) (rehash_moved r) (index_bytes r) x.

Section Lanes.
  Context {S M : Type} `{!Sync32 S} `{!ExpanseMap M}.
  (** Successive readings of [DWT->CYCCNT] and the usable sizes of a table's blocks. *)
  Context (cyc : nat → Z) (us : Z * Z).

Record lane := Lane {
  is_expanse : bool;
  mode : Z;
  growable : bool;
  slab : list rec_t;
  cap : Z;
  free_stack : list Z;
  free_top : Z;
  sync : option S;  (** the by-id map of the Expanse lane *)
  by_time : option M;  (** time key -> slot *)
  hash : option ohash;  (** the by-id table of the hash lane *)
  tracked_idx : list Z;
  tracked_id : list Z;
  retire : list Z;
  retire_n : Z;
  churn_cursor : Z;
  last_churn_ms : Z;
  count : Z;
  seq_no : Z;  (** [seq] in C *)
  rng : Z;
  ingest_acc : Z;
  ingest_last_ms : Z;
  drops : Z;
  isr : isr_stats;
  loop : loop_stats;
}.
Definition set_is_expanse (x : bool) (r : lane) : lane :=
  Lane x (mode r) (growable r) (slab r) (cap r) (free_stack r) (free_top r) (sync r) (by_time r)
    (hash r) (tracked_idx r) (tracked_id r) (retire r) (retire_n r) (churn_cursor r)
    (last_churn_ms r) (count r) (seq_no r) (rng r) (ingest_acc r) (ingest_last_ms r) (drops r)
    (isr r) (loop r).
Definition set_mode (x : Z) (r : lane) : lane :=
  Lane (is_expanse r) x (growable r) (slab r) (cap r) (free_stack r) (free_top r) (sync r)
    (by_time r) (hash r) (tracked_idx r) (tracked_id r) (retire r) (retire_n r) (churn_cursor r)
    (last_churn_ms r) (count r) (seq_no r) (rng r) (ingest_acc r) (ingest_last_ms r) (drops r)
    (isr r) (loop r).
Definition set_growable (x : bool) (r : lane) : lane :=
  Lane (is_expanse r) (mode r) x (slab r) (cap r) (free_stack r) (free_top r) (sync r) (by_time
    r) (hash r) (tracked_idx r) (tracked_id r) (retire r) (retire_n r) (churn_cursor r)
    (last_churn_ms r) (count r) (seq_no r) (rng r) (ingest_acc r) (ingest_last_ms r) (drops r)
    (isr r) (loop r).
Definition set_slab (x : list rec_t) (r : lane) : lane :=
  Lane (is_expanse r) (mode r) (growable r) x (cap r) (free_stack r) (free_top r) (sync r)
    (by_time r) (hash r) (tracked_idx r) (tracked_id r) (retire r) (retire_n r) (churn_cursor r)
    (last_churn_ms r) (count r) (seq_no r) (rng r) (ingest_acc r) (ingest_last_ms r) (drops r)
    (isr r) (loop r).
Definition set_cap (x : Z) (r : lane) : lane :=
  Lane (is_expanse r) (mode r) (growable r) (slab r) x (free_stack r) (free_top r) (sync r)
    (by_time r) (hash r) (tracked_idx r) (tracked_id r) (retire r) (retire_n r) (churn_cursor r)
    (last_churn_ms r) (count r) (seq_no r) (rng r) (ingest_acc r) (ingest_last_ms r) (drops r)
    (isr r) (loop r).
Definition set_free_stack (x : list Z) (r : lane) : lane :=
  Lane (is_expanse r) (mode r) (growable r) (slab r) (cap r) x (free_top r) (sync r) (by_time r)
    (hash r) (tracked_idx r) (tracked_id r) (retire r) (retire_n r) (churn_cursor r)
    (last_churn_ms r) (count r) (seq_no r) (rng r) (ingest_acc r) (ingest_last_ms r) (drops r)
    (isr r) (loop r).
Definition set_free_top (x : Z) (r : lane) : lane :=
  Lane (is_expanse r) (mode r) (growable r) (slab r) (cap r) (free_stack r) x (sync r) (by_time
    r) (hash r) (tracked_idx r) (tracked_id r) (retire r) (retire_n r) (churn_cursor r)
    (last_churn_ms r) (count r) (seq_no r) (rng r) (ingest_acc r) (ingest_last_ms r) (drops r)
    (isr r) (loop r).
Definition set_sync (x : option S) (r : lane) : lane :=
  Lane (is_expanse r) (mode r) (growable r) (slab r) (cap r) (free_stack r) (free_top r) x
    (by_time r) (hash r) (tracked_idx r) (tracked_id r) (retire r) (retire_n r) (churn_cursor r)
    (last_churn_ms r) (count r) (seq_no r) (rng r) (ingest_acc r) (ingest_last_ms r) (drops r)
    (isr r) (loop r).
Definition set_by_time (x : option M) (r : lane) : lane :=
  Lane (is_expanse r) (mode r) (growable r) (slab r) (cap r) (free_stack r) (free_top r) (sync
    r) x (hash r) (tracked_idx r) (tracked_id r) (retire r) (retire_n r) (churn_cursor r)
    (last_churn_ms r) (count r) (seq_no r) (rng r) (ingest_acc r) (ingest_last_ms r) (drops r)
    (isr r) (loop r).
Definition set_hash (x : option ohash) (r : lane) : lane :=
  Lane (is_expanse r) (mode r) (growable r) (slab r) (cap r) (free_stack r) (free_top r) (sync
    r) (by_time r) x (tracked_idx r) (tracked_id r) (retire r) (retire_n r) (churn_cursor r)
    (last_churn_ms r) (count r) (seq_no r) (rng r) (ingest_acc r) (ingest_last_ms r) (drops r)
    (isr r) (loop r).
Definition set_tracked_idx (x : list Z) (r : lane) : lane :=
  Lane (is_expanse r) (mode r) (growable r) (slab r) (cap r) (free_stack r) (free_top r) (sync
    r) (by_time r) (hash r) x (tracked_id r) (retire r) (retire_n r) (churn_cursor r)
    (last_churn_ms r) (count r) (seq_no r) (rng r) (ingest_acc r) (ingest_last_ms r) (drops r)
    (isr r) (loop r).
Definition set_tracked_id (x : list Z) (r : lane) : lane :=
  Lane (is_expanse r) (mode r) (growable r) (slab r) (cap r) (free_stack r) (free_top r) (sync
    r) (by_time r) (hash r) (tracked_idx r) x (retire r) (retire_n r) (churn_cursor r)
    (last_churn_ms r) (count r) (seq_no r) (rng r) (ingest_acc r) (ingest_last_ms r) (drops r)
    (isr r) (loop r).
Definition set_retire (x : list Z) (r : lane) : lane :=
  Lane (is_expanse r) (mode r) (growable r) (slab r) (cap r) (free_stack r) (free_top r) (sync
    r) (by_time r) (hash r) (tracked_idx r) (tracked_id r) x (retire_n r) (churn_cursor r)
    (last_churn_ms r) (count r) (seq_no r) (rng r) (ingest_acc r) (ingest_last_ms r) (drops r)
    (isr r) (loop r).
Definition set_retire_n (x : Z) (r : lane) : lane :=
  Lane (is_expanse r) (mode r) (growable r) (slab r) (cap r) (free_stack r) (free_top r) (sync
    r) (by_time r) (hash r) (tracked_idx r) (tracked_id r) (retire r) x (churn_cursor r)
    (last_churn_ms r) (count r) (seq_no r) (rng r) (ingest_acc r) (ingest_last_ms r) (drops r)
    (isr r) (loop r).
Definition set_churn_cursor (x : Z) (r : lane) : lane :=
  Lane (is_expanse r) (mode r) (growable r) (slab r) (cap r) (free_stack r) (free_top r) (sync
    r) (by_time r) (hash r) (tracked_idx r) (tracked_id r) (retire r) (retire_n r) x
    (last_churn_ms r) (count r) (seq_no r) (rng r) (ingest_acc r) (ingest_last_ms r) (drops r)
    (isr r) (loop r).
Definition set_last_churn_ms (x : Z) (r : lane) : lane :=
  Lane (is_expanse r) (mode r) (growable r) (slab r) (cap r) (free_stack r) (free_top r) (sync
    r) (by_time r) (hash r) (tracked_idx r) (tracked_id r) (retire r) (retire_n r) (churn_cursor
    r) x (count r) (seq_no r) (rng r) (ingest_acc r) (ingest_last_ms r) (drops r) (isr r) (loop
    r).
Definition set_count (x : Z) (r : lane) : lane :=
  Lane (is_expanse r) (mode r) (growable r) (slab r) (cap r) (free_stack r) (free_top r) (sync
    r) (by_time r) (hash r) (tracked_idx r) (tracked_id r) (retire r) (retire_n r) (churn_cursor
    r) (last_churn_ms r) x (seq_no r) (rng r) (ingest_acc r) (ingest_last_ms r) (drops r) (isr
    r) (loop r).
Definition set_seq_no (x : Z) (r : lane) : lane :=
  Lane (is_expanse r) (mode r) (growable r) (slab r) (cap r) (free_stack r) (free_top r) (sync
    r) (by_time r) (hash r) (tracked_idx r) (tracked_id r) (retire r) (retire_n r) (churn_cursor
    r) (last_churn_ms r) (count r) x (rng r) (ingest_acc r) (ingest_last_ms r) (drops r) (isr r)
    (loop r).
Definition set_rng (x : Z) (r : lane) : lane :=
  Lane (is_expanse r) (mode r) (growable r) (slab r) (cap r) (free_stack r) (free_top r) (sync
    r) (by_time r) (hash r) (tracked_idx r) (tracked_id r) (retire r) (retire_n r) (churn_cursor
    r) (last_churn_ms r) (count r) (seq_no r) x (ingest_acc r) (ingest_last_ms r) (drops r) (isr
    r) (loop r).
Definition set_ingest_acc (x : Z) (r : lane) : lane :=
  Lane (is_expanse r) (mode r) (growable r) (slab r) (cap r) (free_stack r) (free_top r) (sync
    r) (by_time r) (hash r) (tracked_idx r) (tracked_id r) (retire r) (retire_n r) (churn_cursor
    r) (last_churn_ms r) (count r) (seq_no r) (rng r) x (ingest_last_ms r) (drops r) (isr r)
    (loop r).
Definition set_ingest_last_ms (x : Z) (r : lane) : lane :=
  Lane (is_expanse r) (mode r) (growable r) (slab r) (cap r) (free_stack r) (free_top r) (sync
    r) (by_time r) (hash r) (tracked_idx r) (tracked_id r) (retire r) (retire_n r) (churn_cursor
    r) (last_churn_ms r) (count r) (seq_no r) (rng r) (ingest_acc r) x (drops r) (isr r) (loop
    r).
Definition set_drops (x : Z) (r : lane) : lane :=
  Lane (is_expanse r) (mode r) (growable r) (slab r) (cap r) (free_stack r) (free_top r) (sync
    r) (by_time r) (hash r) (tracked_idx r) (tracked_id r) (retire r) (retire_n r) (churn_cursor
    r) (last_churn_ms r) (count r) (seq_no r) (rng r) (ingest_acc r) (ingest_last_ms r) x (isr
    r) (loop r).
Definition set_isr (x : isr_stats) (r : lane) : lane :=
  Lane (is_expanse r) (mode r) (growable r) (slab r) (cap r) (free_stack r) (free_top r) (sync
    r) (by_time r) (hash r) (tracked_idx r) (tracked_id r) (retire r) (retire_n r) (churn_cursor
    r) (last_churn_ms r) (count r) (seq_no r) (rng r) (ingest_acc r) (ingest_last_ms r) (drops
    r) x (loop r).
Definition set_loop (x : loop_stats) (r : lane) : lane :=
  Lane (is_expanse r) (mode r) (growable r) (slab r) (cap r) (free_stack r) (free_top r) (sync
    r) (by_time r) (hash r) (tracked_idx r) (tracked_id r) (retire r) (retire_n r) (churn_cursor
    r) (last_churn_ms r) (count r) (seq_no r) (rng r) (ingest_acc r) (ingest_last_ms r) (drops
    r) (isr r) x.

Definition on_isr (f : isr_stats → isr_stats) (l : lane) : lane := set_isr (f (isr l)) l.
Definition on_loop (f : loop_stats → loop_stats) (l : lane) : lane := set_loop (f (loop l)) l.

(** ** The monad of the main loop *)
Record world := World {
  lane_of : lane;
  irq_on : bool;  (** the NVIC enable bit of the lane's timer interrupt *)
  reads : nat;  (** cycle-counter readings so far *)
  heap_acct : acct;
  points : list (bool * lane);  (** where the interrupt could be taken, newest first *)
}.
Definition ST (A : Type) : Type := world → option (A * world).
#[global] Instance st_ret : MRet ST := λ A x w, Some (x, w).
#[global] Instance st_bind : MBind ST := λ A B f m w,
  match m w with Some (x, w') => f x w' | None => None end.

Definition log (overlap : bool) (w : world) : world :=
  if irq_on w
  then World (lane_of w) (irq_on w) (reads w) (heap_acct w) ((overlap, lane_of w) :: points w)
  else w.
Definition the_lane : ST lane := λ w, Some (lane_of w, w).
Definition upd (f : lane → lane) : ST unit := λ w,
  Some (tt, log false (World (f (lane_of w)) (irq_on w) (reads w) (heap_acct w) (points w))).
Definition bracket : ST unit := λ w, Some (tt, log true w).
Definition lift {A} (o : option A) : ST A := λ w, x ← o; Some (x, w).
Definition cyccnt : ST Z := λ w,
  Some (u32 (cyc (reads w)),
        World (lane_of w) (irq_on w) (Datatypes.S (reads w)) (heap_acct w) (points w)).
Definition nvic_irq (on : bool) : ST unit := λ w,
  Some (tt, World (lane_of w) on (reads w) (heap_acct w) (points w)).
Definition the_acct : ST acct := λ w, Some (heap_acct w, w).
Definition put_acct (a : acct) : ST unit := λ w,
  Some (tt, World (lane_of w) (irq_on w) (reads w) a (points w)).

(** ** Masking: the hash lane's critical section, measured *)
Definition lane_mask : ST unit :=
  l ← the_lane;
  let n := irq_masked (loop l) in
  upd (on_loop (set_irq_masked (n +w 1)));;
  if n =? 0 then
    nvic_irq false;;
    t ← cyccnt;
    upd (on_loop (set_mask_t0 t))
  else mret tt.
Definition lane_unmask : ST unit :=
  l ← the_lane;
  let n := irq_masked (loop l) -w 1 in
  upd (on_loop (set_irq_masked n));;
  if n =? 0 then
    t ← cyccnt;
    let w := t -w mask_t0 (loop l) in
    (if w >? mask_max_cyc (loop l) then upd (on_loop (set_mask_max_cyc w)) else mret tt);;
    nvic_irq true
  else mret tt.
Definition write_begin : ST unit :=
  l ← the_lane;
  if negb (is_expanse l) && negb (mode l =? HASH_UNMASKED) then lane_mask else mret tt.
Definition write_end : ST unit :=
  l ← the_lane;
  if negb (is_expanse l) && negb (mode l =? HASH_UNMASKED) then lane_unmask else mret tt.

(** ** Slab *)
Definition slot_alloc : ST Z :=
  l ← the_lane;
  if free_top l =? 0 then mret UINT32_MAX
  else
    let top := free_top l - 1 in
    upd (set_free_top top);;
    lift (arr_get (free_stack l) top).
Definition slot_free (idx : Z) : ST unit :=
  l ← the_lane;
  r ← lift (arr_get (slab l) idx);
  sl ← lift (arr_set (slab l) idx (Rec 0 (r_born_ms r) 0));
  upd (set_slab sl);;
  fs ← lift (arr_set (free_stack l) (free_top l) idx);
  upd (λ l, set_free_top (free_top l +w 1) (set_free_stack fs l)).

(** ** Table operations, per lane *)
(** The retry loops of the sync32 writer; [fuel] attempts. *)
Fixpoint sync_insert_loop (fuel : nat) (s : S) (id idx : Z) : option (Z * S) :=
  match fuel with
  | O => None
  | Datatypes.S fuel =>
      let '(st, s) := sync32_try_insert s id idx in
      if st =? EXPANSE_SYNC32_RECLAIM_BACKLOG
      then sync_insert_loop fuel (sync32_try_reclaim s).2 id idx
      else Some (st, s)
  end.
Fixpoint sync_remove_loop (fuel : nat) (s : S) (id : Z) : option S :=
  match fuel with
  | O => None
  | Datatypes.S fuel =>
      let '(st, s) := sync32_try_remove s id in
      if st =? EXPANSE_SYNC32_RECLAIM_BACKLOG
      then sync_remove_loop fuel (sync32_try_reclaim s).2 id
      else Some s
  end.
(** One attempt, a reclaim, and a second attempt. *)
Definition RETRIES : nat := 2.

(** A doubling of at least 2 ms is listed on the screen. *)
Definition log_rehash (grow : Z) (h : ohash) : ST unit :=
  let ms := (grow +w 200000) / 400000 in
  l ← the_lane;
  let n := rehash_n (loop l) in
  if (ms >=? 2) && (n <? REHASH_MAX) then
    a ← lift (arr_set (rehash_ms (loop l)) n ms);
    b ← lift (arr_set (rehash_moved (loop l)) n (alt_open_hash_shape h).1);
    upd (on_loop (λ p, set_rehash_n (n + 1) (set_rehash_moved b (set_rehash_ms a p))))
  else mret tt.

Definition tbl_insert (id idx : Z) : ST bool :=
  l ← the_lane;
  if is_expanse l then
    s ← lift (sync l);
    bracket;;
    '(st, s) ← lift (sync_insert_loop RETRIES s id idx);
    upd (set_sync (Some s));;
    mret (st =? EXPANSE_SYNC32_OK)
  else
    write_begin;;
    h ← lift (hash l);
    (if growable l then
       t0 ← cyccnt; t1 ← cyccnt;
       a ← the_acct;
       '(h, a, grow) ← lift (alt_open_hash_insert_grow us t0 t1 h id idx a);
       put_acct a;;
       bracket;;
       upd (set_hash (Some h));;
       if negb (grow =? 0) then log_rehash grow h else mret tt
     else
       h ← lift (oh_insert h id idx);
       bracket;;
       upd (set_hash (Some h)));;
    write_end;;
    mret true.
Definition tbl_remove (id : Z) : ST unit :=
  l ← the_lane;
  if is_expanse l then
    s ← lift (sync l);
    bracket;;
    s ← lift (sync_remove_loop RETRIES s id);
    upd (set_sync (Some s))
  else
    write_begin;;
    h ← lift (hash l);
    h ← lift (oh_remove h id);
    bracket;;
    upd (set_hash (Some h));;
    write_end.

(** ** Set-up *)
(** [do id = xorshift(&l->rng) while ...]: the id and the generator after it. *)
Fixpoint fresh_id (fuel : nat) (rng : Z) : option Z :=
  match fuel with
  | O => None
  | Datatypes.S fuel =>
      let id := xorshift rng in
      if (Z.land id 4294901760 =? 3235774464) || (id =? 0) then fresh_id fuel id else Some id
  end.
Definition ID_DRAWS : nat := 3.

Definition add_record (born_ms : Z) : ST bool :=
  idx ← slot_alloc;
  if idx =? UINT32_MAX then mret false
  else
    l ← the_lane;
    id ← lift (fresh_id ID_DRAWS (rng l));
    upd (set_rng id);;
    sl ← lift (arr_set (slab l) idx (Rec id born_ms 1));
    upd (set_slab sl);;
    ok ← tbl_insert id idx;
    if negb ok then slot_free idx;; mret false
    else
      l ← the_lane;
      (if is_expanse l then
         bt ← lift (by_time l);
         upd (set_by_time (Some (expanse_map_insert bt (tk_of born_ms (seq_no l)) idx).1))
       else mret tt);;
      upd (set_seq_no (seq_no l +w 1));;
      upd (set_count (count l +w 1));;
      mret true.

(** [lanes_init], for one lane: [junk] is the content of the fresh stack. *)
Definition lane_init (ok_slab ok_stack : bool) (junk : list Z) (l : lane) : option lane :=
  if ok_slab && ok_stack
  then Some (set_free_stack junk (set_slab (replicate (Z.to_nat SLAB_CAP) (Rec 0 0 0)) (set_cap SLAB_CAP l)))
  else None.
Definition lanes_init (oks : bool * bool * bool * bool) (junk_a junk_b : list Z) (a b : lane)
  : option (lane * lane) :=
  let '(sa, fa, sb, fb) := oks in
  a ← lane_init sa fa junk_a a; b ← lane_init sb fb junk_b b; Some (a, b).

(** The structures freed: the maps of the Expanse lane, or the hash's blocks
    ([freed] are their usable sizes). *)
Definition structures_free (freed : option Z * option Z * option Z) (a : acct) (l : lane) : lane * acct :=
  if is_expanse l then (set_by_time None (set_sync None l), a)
  else match hash l with
       | Some _ => (set_hash None l, oh_destroy freed a)
       | None => (l, a)
       end.
(** The loop [node_cap = 65536; node_cap >= 8192 && !l->sync; node_cap /= 2]. *)
Fixpoint sync_new_loop (caps : list Z) : option S :=
  match caps with
  | [] => None
  | c :: caps => match sync32_map_new c 2 with Some s => Some s | None => sync_new_loop caps end
  end.
Definition NODE_CAPS : list Z := [65536; 32768; 16384; 8192].

(** The reset at the top of [lane_fill]: every slot free, lowest on top. *)
Definition slab_reset (l : lane) : lane :=
  let l := set_free_stack ((λ i, cap l - 1 - Z.of_nat i) <$> seq 0 (Z.to_nat (cap l))) l in
  let l := set_slab ((λ r, Rec 0 (r_born_ms r) 0) <$> slab l) l in
  let l := set_free_top (cap l) l in
  let l := set_count 0 (set_seq_no 0 (set_retire_n 0 (set_ingest_acc 0 (set_ingest_last_ms 0 (set_drops 0 l))))) in
  let l := on_loop (set_rehash_n 0) l in
  set_rng (if is_expanse l then 2654435769 else 625341585) l.

(** Creating the structures; [bt_ok] and [oks] are the allocations' outcomes. *)
Definition structures_new (bt_ok : bool) (oks : bool * bool * bool) (records : Z) : ST bool :=
  l ← the_lane;
  if is_expanse l then
    match sync_new_loop NODE_CAPS with
    | None => mret false
    | Some s =>
        upd (set_sync (Some s));;
        if bt_ok then upd (set_by_time (Some expanse_map_new));; mret true else mret false
    end
  else
    a ← the_acct;
    let '(h, a) := oh_create oks (if records =? 0 then 8 else records) a in
    put_acct a;;
    match h with None => mret false | Some h => upd (set_hash (Some h));; mret true end.

(** [for (int t = 0; t < N_TRACKED; t++)], from [t]. *)
Fixpoint fill_tracked (n : nat) (t : Z) : ST bool :=
  match n with
  | O => mret true
  | Datatypes.S n =>
      idx ← slot_alloc;
      l ← the_lane;
      let id := 3235774464 + t in
      sl ← lift (arr_set (slab l) idx (Rec id 4294901760 1));
      ti ← lift (arr_set (tracked_idx l) t idx);
      td ← lift (arr_set (tracked_id l) t id);
      upd (λ l, set_tracked_id td (set_tracked_idx ti (set_slab sl l)));;
      ok ← tbl_insert id idx;
      if negb ok then mret false else fill_tracked n (t + 1)
  end.
Fixpoint fill_records (n : nat) (pretend_now seed : Z) : ST bool :=
  match n with
  | O => mret true
  | Datatypes.S n =>
      let seed := xorshift seed in
      ok ← add_record (pretend_now -w seed mod TTL_MS);
      if negb ok then mret false else fill_records n pretend_now seed
  end.
Definition lane_fill (freed : option Z * option Z * option Z) (bt_ok : bool) (oks : bool * bool * bool)
    (records now_ms : Z) : ST bool :=
  l ← the_lane;
  a ← the_acct;
  let '(l', a) := structures_free freed a l in
  put_acct a;;
  upd (λ _, slab_reset l');;
  ok ← structures_new bt_ok oks records;
  if negb ok then mret false
  else
    ok ← fill_tracked N_TRACKED 0;
    if negb ok then mret false
    else fill_records (Z.to_nat records) (now_ms +w TTL_MS +w 1000) 19088743.

(** ** Main-loop side *)
Fixpoint ingest_loop (n : nat) (now_ms cap_records : Z) : ST unit :=
  match n with
  | O => mret tt
  | Datatypes.S n =>
      l ← the_lane;
      if (ingest_acc l >=? 1000) && (count l <? cap_records) then
        ok ← add_record (now_ms +w TTL_MS +w 1000);
        (if negb ok then upd (λ l, set_drops (drops l +w 1) l) else mret tt);;
        upd (λ l, set_ingest_acc (ingest_acc l -w 1000) l);;
        ingest_loop n now_ms cap_records
      else mret tt
  end.
Definition lane_ingest (now_ms rate_per_s cap_records : Z) : ST unit :=
  l ← the_lane;
  (if ingest_last_ms l =? 0 then upd (set_ingest_last_ms now_ms) else mret tt);;
  upd (λ l, set_ingest_acc (ingest_acc l +w (now_ms -w ingest_last_ms l) *w rate_per_s) l);;
  upd (set_ingest_last_ms now_ms);;
  ingest_loop 256 now_ms cap_records;;
  l ← the_lane;
  let cap := rate_per_s *w 1000 in
  if ingest_acc l >? cap then
    (if count l <? cap_records
     then upd (set_drops (drops l +w (ingest_acc l -w cap) / 1000)) else mret tt);;
    upd (set_ingest_acc cap)
  else mret tt.

(** Re-registers one tracked device in a fresh slot. *)
Definition lane_churn (now_ms : Z) : ST unit :=
  l ← the_lane;
  if now_ms -w last_churn_ms l <? 50 then mret tt
  else
    upd (set_last_churn_ms now_ms);;
    let t := churn_cursor l mod Z.of_nat N_TRACKED in
    upd (set_churn_cursor (churn_cursor l +w 1));;
    old_idx ← lift (arr_get (tracked_idx l) t);
    new_idx ← slot_alloc;
    if (new_idx =? UINT32_MAX) || (retire_n l >=? RETIRE_MAX) then mret tt
    else
      l ← the_lane;
      r ← lift (arr_get (slab l) old_idx);
      sl ← lift (arr_set (slab l) new_idx r);
      upd (set_slab sl);;
      id ← lift (arr_get (tracked_id l) t);
      tbl_insert id new_idx;;
      l ← the_lane;
      ti ← lift (arr_set (tracked_idx l) t new_idx);
      upd (set_tracked_idx ti);;
      rt ← lift (arr_set (retire l) (retire_n l) old_idx);
      upd (λ l, set_retire_n (retire_n l + 1) (set_retire rt l)).

(** The callback of the Expanse lane's sweep; [removed] is [c->removed]. *)
Definition expanse_sweep_cb (tk idx : Z) (removed : Z) : ST Z :=
  l ← the_lane;
  r ← lift (arr_get (slab l) idx);
  tbl_remove (r_id r);;
  slot_free idx;;
  mret (removed +w 1).
(** [expanse_map_remove_range] calls it on each entry; the monad's state rides
    through the callback's context. *)
Definition expanse_sweep (bt : M) (hi : Z) : ST Z := λ w,
  let '(bt', r, _) :=
    expanse_map_remove_range bt 0 hi
      (λ tk idx ow, '(removed, w) ← ow; expanse_sweep_cb tk idx removed w) (Some (0, w)) in
  '(removed, w) ← r;
  (upd (set_by_time (Some bt'));; mret removed) w.

Definition hash_expired (id idx cutoff removed : Z) : ST (bool * Z) :=
  l ← the_lane;
  (if (mode l =? HASH_MASK_PER_WRITE) && negb (irq_masked (loop l) =? 0) then lane_unmask else mret tt);;
  r ← lift (arr_get (slab l) idx);
  if r_born_ms r +w TTL_MS >? cutoff then mret (false, removed)
  else
    slot_free idx;;
    (if mode l =? HASH_MASK_PER_WRITE then lane_mask else mret tt);;
    mret (true, removed +w 1).
(** [oh_evict_scan] with that callback: [n] slots from [i]. *)
Fixpoint hash_sweep_loop (n : nat) (i cutoff removed : Z) : ST Z :=
  match n with
  | O => mret removed
  | Datatypes.S n =>
      l ← the_lane;
      h ← lift (hash l);
      c ← lift (arr_get (okeys h) i);
      if negb (c =? OH_EMPTY) && negb (c =? OH_TOMB) then
        v ← lift (arr_get (ovals h) i);
        '(hit, removed) ← hash_expired c v cutoff removed;
        (if (hit : bool) then
           l ← the_lane;
           h ← lift (hash l);
           ks ← lift (arr_set (okeys h) i OH_TOMB);
           bracket;;
           upd (set_hash (Some (Ohash ks (ovals h) (mask h) (olen h -w 1) (used h))))
         else mret tt);;
        hash_sweep_loop n (i + 1) cutoff removed
      else hash_sweep_loop n (i + 1) cutoff removed
  end.
Definition hash_sweep (cutoff : Z) : ST Z :=
  l ← the_lane;
  h ← lift (hash l);
  hash_sweep_loop (Z.to_nat (mask h + 1)) 0 cutoff 0.

Fixpoint free_retired (n : nat) (i : Z) : ST unit :=
  match n with
  | O => mret tt
  | Datatypes.S n =>
      l ← the_lane;
      idx ← lift (arr_get (retire l) i);
      slot_free idx;;
      free_retired n (i + 1)
  end.
(** [isr0], [isr1]: the two interrupts' cycle totals read around the sweep. *)
Definition lane_sweep (now_ms isr0 isr1 : Z) : ST unit :=
  let pretend_now := now_ms +w TTL_MS +w 1000 in
  t0 ← cyccnt;
  l ← the_lane;
  removed ←
    (if is_expanse l then
       bt ← lift (by_time l);
       expanse_sweep bt (tk_of (pretend_now -w TTL_MS) 255)
     else if mode l =? HASH_MASK_WHOLE then
       lane_mask;;
       n ← hash_sweep pretend_now;
       lane_unmask;;
       mret n
     else
       n ← hash_sweep pretend_now;
       l ← the_lane;
       (if negb (irq_masked (loop l) =? 0) then lane_unmask else mret tt);;
       mret n);
  t1 ← cyccnt;
  let c := t1 -w t0 in
  let d := isr1 -w isr0 in
  upd (on_loop (λ p, set_sweep_removed removed (set_sweep_net_us ((if c >? d then c -w d else 0) / 400)
                       (set_sweep_us (c / 400) p))));;
  upd (λ l, set_count (count l -w removed) l);;
  l ← the_lane;
  free_retired (Z.to_nat (retire_n l)) 0;;
  upd (set_retire_n 0).

Definition lane_step_reset (l : lane) : lane :=
  let r := isr l in
  let l := set_isr (IsrStats (expected_cnt r) 0 0 0 0 0 0 0 0 0 0 0 (body_total_cyc r) (ring r)) l in
  let l := on_loop (λ p, set_rehash_n 0 (set_mask_max_cyc 0 p)) l in
  set_drops 0 l.

(** ** Scoreboard *)
Definition lane_index_bytes (l : lane) : option Z :=
  if is_expanse l then
    s ← sync l;
    bt ← by_time l;
    Some (match sync32_mem_used s with Some used => used +w expanse_map_mem_used bt | None => 0 end)
  else h ← hash l; Some (alt_open_hash_bytes h).
(** The sampling loop: up to 64 ids of used slots in 4096 probes. *)
Fixpoint sample_ids (tries : nat) (l : lane) (probe : Z) (ids : list Z) : option (list Z) :=
  match tries with
  | O => Some ids
  | Datatypes.S tries =>
      if Z.of_nat (length ids) <? 64 then
        let probe := probe *w 1664525 +w 1013904223 in
        r ← arr_get (slab l) (probe mod cap l);
        let ids := if negb (r_used r =? 0) && negb (r_id r =? 0) then ids ++ [r_id r] else ids in
        sample_ids tries l probe ids
      else Some ids
  end.
(** [batches]: the cycles of the three batches of lookups. *)
Definition lane_lookup_ns (l : lane) (batches : list Z) : option Z :=
  ids ← sample_ids 4096 l (Z.lxor (rng l) 2779096485) [];
  let k := Z.of_nat (length ids) in
  if k <? 8 then Some 0
  else Some (foldl Z.min UINT32_MAX batches *w 10 / (4 * k)).
Definition lane_measure_scoreboard (batches : list Z) (l : lane) : option lane :=
  b ← lane_index_bytes l;
  n ← lane_lookup_ns l batches;
  Some (on_loop (λ p, set_lookup_ns n (set_index_bytes b p)) l).

(** ** Interrupt side *)
(** [for (k = 1; k <= fill; k++) ring[(now_ms - k) & 8191] = SLOT_HELD]. *)
Fixpoint hold_slots (n : nat) (k now_ms : Z) (r : list Z) : option (list Z) :=
  match n with
  | O => Some r
  | Datatypes.S n =>
      r ← arr_set r (Z.land (now_ms -w k) (RING_LEN - 1)) SLOT_HELD;
      hold_slots n (k + 1) now_ms r
  end.
(** One tracked id through the lane's table: its status and the slot found.  A
    hash mutation is not atomic, and a read inside one is not defined here. *)
Definition isr_read (overlap : bool) (l : lane) (id : Z) : option (Z * option Z) :=
  if is_expanse l then s ← sync l; Some (sync32_try_get s overlap id)
  else if overlap then None
  else h ← hash l; v ← oh_get h id;
       Some (match v with Some x => (EXPANSE_SYNC32_OK, Some x) | None => (EXPANSE_SYNC32_NOT_FOUND, None) end).
(** The body of [for (int d = 0; d < N_TRACKED; d++)]; the new [slot]. *)
Definition isr_one (overlap : bool) (l : lane) (d slot : Z) : option (lane * Z) :=
  id ← arr_get (tracked_id l) d;
  '(st, idx) ← isr_read overlap l id;
  if is_expanse l && (st =? EXPANSE_SYNC32_BUSY) then
    Some (on_isr (λ i, set_isr_busy (isr_busy i +w 1) i) l, if slot =? SLOT_VALUE then SLOT_BUSY else slot)
  else if negb (st =? EXPANSE_SYNC32_OK) then
    Some (on_isr (λ i, set_isr_nf (isr_nf i +w 1) i) l, SLOT_WRONG)
  else
    idx ← idx;
    bad ← (if idx >=? cap l then Some true else r ← arr_get (slab l) idx; Some (negb (r_id r =? id)));
    if (bad : bool) then Some (on_isr (λ i, set_isr_bad (isr_bad i +w 1) i) l, SLOT_WRONG)
    else Some (on_isr (λ i, set_isr_ok (isr_ok i +w 1) i) l, slot).
Fixpoint isr_reads (n : nat) (overlap : bool) (l : lane) (d slot : Z) : option (lane * Z) :=
  match n with
  | O => Some (l, slot)
  | Datatypes.S n => '(l, slot) ← isr_one overlap l d slot; isr_reads n overlap l (d + 1) slot
  end.
(** How late the tick is, in timer ticks; early counts as on time. *)
Definition lateness (tim2_now expected : Z) : Z :=
  let lat := tim2_now -w expected in if lat >=? 2 ^ 31 then 0 else lat.
(** The bookkeeping of the milliseconds the tick could not run. *)
Definition isr_missed (missed now_ms : Z) (i : isr_stats) : option isr_stats :=
  if missed =? 0 then Some i
  else
    rg ← hold_slots (Z.to_nat (if missed >? 255 then 255 else missed)) 1 now_ms (ring i);
    let run := stale_run i +w missed in
    Some (set_blocked_ms (blocked_ms i +w missed) (set_ring rg
            (set_no_value_ms (no_value_ms i +w missed) (set_stale_run run
              (set_stale_max (if run >? stale_max i then run else stale_max i) i))))).
(** The end of the tick: the ring slot and the staleness run. *)
Definition isr_outcome (slot now_ms : Z) (i : isr_stats) : option isr_stats :=
  rg ← arr_set (ring i) (Z.land now_ms (RING_LEN - 1)) slot;
  let i := set_ring rg i in
  let i := if slot =? SLOT_VALUE then set_stale_run 0 i
           else set_stale_run (stale_run i +w 1) (set_no_value_ms (no_value_ms i +w 1) i) in
  Some (if stale_run i >? stale_max i then set_stale_max (stale_run i) i else i).
(** [body0], [body1]: the cycle counter at both ends. *)
Definition lane_isr (overlap : bool) (l : lane) (tim2_now now_ms body0 body1 : Z) : option lane :=
  let i := isr l in
  let lat := lateness tim2_now (expected_cnt i) in
  let missed := lat / TICKS_PER_MS in
  let i := set_expected_cnt (expected_cnt i +w TICKS_PER_MS *w (1 + missed)) i in
  i ← isr_missed missed now_ms i;
  let i := if lat >? lat_max_ticks i then set_lat_max_ticks lat i else i in
  let i := set_isr_served (isr_served i +w 1) i in
  '(l, slot) ← isr_reads N_TRACKED overlap (set_isr i l) 0 SLOT_VALUE;
  i ← isr_outcome slot now_ms (isr l);
  let body := body1 -w body0 in
  let i := set_body_total_cyc (body_total_cyc i +w body) i in
  Some (set_isr (if body >? body_max_cyc i then set_body_max_cyc body i else i) l).
End Lanes.
