(* ===== verification/XorShift.v ===== *)
(** * The lanes' id generator

    Facts about [xorshift] of [src/integrations/stm32h747/demo/CM7/Core/Src/lanes.c]:
    it is linear over bits, a nonzero word never becomes zero, and the loop that
    skips the tracked devices' ids ends after at most three draws. *)
From stdpp Require Import base numbers list.
From S2P Require Import Prelude Lanes.
Open Scope Z_scope.

Lemma u32_land z : u32 z = Z.land z (Z.ones 32).
Proof. unfold u32. by rewrite Z.land_ones by lia. Qed.
Lemma u32_lxor a b : u32 (Z.lxor a b) = Z.lxor (u32 a) (u32 b).
Proof.
  rewrite !u32_land. apply Z.bits_inj. intros n. rewrite !Z.land_spec, !Z.lxor_spec, !Z.land_spec.
  destruct (Z.testbit a n), (Z.testbit b n), (Z.testbit (Z.ones 32) n); done.
Qed.
Lemma shl_lxor a b n : Z.lxor a b <<w n = Z.lxor (a <<w n) (b <<w n).
Proof. by rewrite Z.shiftl_lxor, u32_lxor. Qed.
Lemma lxor_swap a b c d : Z.lxor (Z.lxor a b) (Z.lxor c d) = Z.lxor (Z.lxor a c) (Z.lxor b d).
Proof. rewrite !Z.lxor_assoc. f_equal. by rewrite <- !Z.lxor_assoc, (Z.lxor_comm b c). Qed.
Lemma xorshift_lxor a b : xorshift (Z.lxor a b) = Z.lxor (xorshift a) (xorshift b).
Proof.
  unfold xorshift. rewrite shl_lxor, lxor_swap. rewrite Z.shiftr_lxor, (lxor_swap (Z.lxor a _)).
  by rewrite shl_lxor, lxor_swap.
Qed.

Lemma is_u32_lxor a b : is_u32 a → is_u32 b → is_u32 (Z.lxor a b).
Proof.
  intros Ha Hb. rewrite <- (u32_small a), <- (u32_small b) by done. rewrite <- u32_lxor. apply u32_range.
Qed.
Lemma is_u32_shiftr a n : 0 <= n → is_u32 a → is_u32 (Z.shiftr a n).
Proof.
  intros Hn [Ha Ha']. rewrite Z.shiftr_div_pow2 by done. pose proof (Z.pow_pos_nonneg 2 n).
  split; [apply Z.div_pos; lia|]. eapply Z.le_lt_trans; [|exact Ha']. apply Z.div_le_upper_bound; nia.
Qed.
Lemma xorshift_u32 s : is_u32 s → is_u32 (xorshift s).
Proof. intros Hs. unfold xorshift. repeat (apply is_u32_lxor || apply is_u32_shiftr || apply u32_range || done || lia). Qed.

Lemma shl_fixed s p : 0 < p → is_u32 s → s = s <<w p → s = 0.
Proof.
  intros Hp Hs Heq. rewrite Z.shiftl_mul_pow2 in Heq by lia. unfold u32 in Heq.
  assert (∀ k : nat, s = (s * 2 ^ (p * Z.of_nat k)) mod 2 ^ 32) as Hk.
  { intros k. induction k as [|k IH]; [rewrite Z.mul_0_r, Z.mul_1_r; symmetry; by apply u32_small|].
    rewrite Heq at 1. rewrite IH at 1. rewrite Zmult_mod_idemp_l. f_equal.
    rewrite <- Z.mul_assoc, <- Z.pow_add_r by lia. do 2 f_equal. lia. }
  rewrite (Hk 32%nat). replace (p * Z.of_nat 32) with ((32 * p - 32) + 32) by lia.
  rewrite Z.pow_add_r, Z.mul_assoc by lia. apply Z_mod_mult.
Qed.
Lemma xorshift_nonzero s : is_u32 s → s ≠ 0 → xorshift s ≠ 0.
Proof.
  intros Hs Hne Hx. unfold xorshift in Hx.
  set (a := Z.lxor s (s <<w 13)) in *. set (b := Z.lxor a (Z.shiftr a 17)) in *.
  assert (is_u32 a) as Ha by (apply is_u32_lxor; [done|apply u32_range]).
  assert (is_u32 b) as Hb by (apply is_u32_lxor; [done|apply is_u32_shiftr; [lia|done]]).
  apply Z.lxor_eq, shl_fixed in Hx; [|lia|done].
  assert (a = 0) as Ha0.
  { apply Z.lxor_eq in Hx. rewrite Z.shiftr_div_pow2 in Hx by lia. unfold is_u32 in Ha.
    pose proof (Z.div_lt a (2 ^ 17)). lia. }
  apply Hne, (shl_fixed s 13); [lia|done|]. by apply Z.lxor_eq.
Qed.

(** ** A tracked id is followed by another one only at one word *)
Definition bad_id (id : Z) : bool := Z.land id 4294901760 =? 3235774464.
(** All 65536 of them, by the linearity of [xorshift]: a table per byte. *)
Definition row (n : nat) (f : Z → Z) : list Z := f ∘ Z.of_nat <$> seq 0 n.
Definition clash (hi lo : list (Z * Z)) : list (Z * Z) :=
  flat_map (λ p : Z * Z, flat_map (λ q : Z * Z, if Z.lxor p.2 q.2 =? 49374 then [(p.1, q.1)] else []) lo) hi.
Definition hi_part (h : Z) : Z := Z.lxor (Z.shiftr (xorshift 3235774464) 16) (Z.shiftr (xorshift (256 * h)) 16).
Definition lo_part (l : Z) : Z := Z.shiftr (xorshift l) 16.
Definition bad_pairs : list (Z * Z) :=
  clash (zip (row 256 id) (row 256 hi_part)) (zip (row 256 id) (row 256 lo_part)).
Lemma bad_pairs_eq : bad_pairs = [(241, 124)].
Proof. vm_compute. reflexivity. Qed.

Lemma row_elem (n : nat) f h : 0 <= h < Z.of_nat n → (h, f h) ∈ zip (row n id) (row n f).
Proof.
  intros Hh. apply (list_elem_of_lookup_2 _ (Z.to_nat h)). apply lookup_zip_Some.
  unfold row. rewrite !list_lookup_fmap, lookup_seq_lt by lia. simpl. by rewrite Z2Nat.id by lia.
Qed.
Lemma clash_elem hi lo h a l b :
  (h, a) ∈ hi → (l, b) ∈ lo → Z.lxor a b = 49374 → (h, l) ∈ clash hi lo.
Proof.
  intros Hh Hl Hab. unfold clash. rewrite list_elem_of_In. apply in_flat_map.
  exists (h, a). split; [by apply list_elem_of_In|]. apply in_flat_map.
  exists (l, b). split; [by apply list_elem_of_In|]. cbn [fst snd]. rewrite Hab. by left.
Qed.
Lemma bad_pairs_complete h l :
  0 <= h < 256 → 0 <= l < 256 → Z.lxor (hi_part h) (lo_part l) = 49374 → h = 241 ∧ l = 124.
Proof.
  intros Hh Hl Heq. pose proof (clash_elem _ _ h _ l _ (row_elem 256 hi_part h Hh) (row_elem 256 lo_part l Hl) Heq) as Hin.
  change ((h, l) ∈ bad_pairs) in Hin.
  rewrite bad_pairs_eq in Hin. apply list_elem_of_singleton in Hin. by simplify_eq.
Qed.

Lemma bad_id_high id : is_u32 id → bad_id id = true → Z.shiftr id 16 = 49374.
Proof.
  intros Hid Hb. apply Z.eqb_eq, (f_equal (λ z, Z.shiftr z 16)) in Hb.
  rewrite Z.shiftr_land in Hb. change (Z.shiftr 4294901760 16) with (Z.ones 16) in Hb.
  change (Z.shiftr 3235774464 16) with 49374 in Hb. rewrite Z.land_ones, Z.mod_small in Hb; [done| |lia].
  rewrite Z.shiftr_div_pow2 by lia. unfold is_u32 in Hid.
  split; [apply Z.div_pos; lia|apply Z.div_lt_upper_bound; lia].
Qed.
Lemma split_id id :
  is_u32 id → Z.shiftr id 16 = 49374 →
  ∃ h l, 0 <= h < 256 ∧ 0 <= l < 256 ∧ id = Z.lxor (Z.lxor 3235774464 (256 * h)) l ∧ id = 3235774464 + 256 * h + l.
Proof.
  intros Hid Hs. rewrite Z.shiftr_div_pow2 in Hs by lia.
  exists ((id / 256) mod 256), (id mod 256).
  assert (id = 3235774464 + 256 * ((id / 256) mod 256) + id mod 256) as Hsum.
  { pose proof (Z.div_mod id 256). pose proof (Z.div_mod (id / 256) 256).
    rewrite Z.div_div in * by lia. change (256 * 256) with (2 ^ 16) in *. lia. }
  pose proof (Z.mod_pos_bound (id / 256) 256). pose proof (Z.mod_pos_bound id 256).
  split; [lia|]. split; [lia|]. split; [|done]. set (h := (id / 256) mod 256) in *. set (l := id mod 256) in *.
  replace (Z.lxor 3235774464 (256 * h)) with ((12639744 + h) * 2 ^ 8).
  - rewrite lxor_low by lia. lia.
  - change 3235774464 with (49374 * 2 ^ 16). rewrite lxor_low by lia. lia.
Qed.
Lemma bad_next id :
  is_u32 id → bad_id id = true → bad_id (xorshift id) = true → id = 3235836284.
Proof.
  intros Hid Hb Hb'. apply bad_id_high in Hb'; [|by apply xorshift_u32].
  destruct (split_id id Hid (bad_id_high id Hid Hb)) as (h & l & Hh & Hl & Hx & Hsum).
  rewrite Hx, !xorshift_lxor, !Z.shiftr_lxor in Hb'. destruct (bad_pairs_complete h l Hh Hl Hb') as [-> ->]. lia.
Qed.

(** The draw ends, on an id that is neither zero nor a tracked device's. *)
Lemma fresh_id_spec rng :
  is_u32 rng → rng ≠ 0 →
  ∃ id, fresh_id ID_DRAWS rng = Some id ∧ is_u32 id ∧ id ≠ 0 ∧ bad_id id = false.
Proof.
  intros Hr Hn. unfold ID_DRAWS.
  assert (∀ s, is_u32 s → s ≠ 0 → ∀ fuel, fresh_id (S fuel) s
            = if bad_id (xorshift s) then fresh_id fuel (xorshift s) else Some (xorshift s)) as Hstep.
  { intros s Hs Hs0 fuel. cbn [fresh_id]. rewrite (proj2 (Z.eqb_neq _ _) (xorshift_nonzero s Hs Hs0)), orb_false_r. done. }
  rewrite Hstep by done. set (a := xorshift rng) in *. assert (is_u32 a) as Ha by (by apply xorshift_u32).
  assert (a ≠ 0) as Ha0 by (by apply xorshift_nonzero).
  destruct (bad_id a) eqn:Hba; [|by exists a].
  rewrite Hstep by done. set (b := xorshift a) in *. assert (is_u32 b) as Hb by (by apply xorshift_u32).
  assert (b ≠ 0) as Hb0 by (by apply xorshift_nonzero).
  destruct (bad_id b) eqn:Hbb; [|by exists b].
  rewrite Hstep by done. unfold b in *. rewrite (bad_next a) by done.
  exists (xorshift (xorshift 3235836284)). vm_compute. split_and!; (done || congruence).
Qed.
