(* ===== verification/LanesProofs.v ===== *)
(** * Proofs about the lanes: a small program logic and the slab invariant

    [tri l on m Q] runs [m] from a world whose lane is [l] and whose timer
    interrupt is enabled ([on]): it returns, every interrupt point it passes is
    [good], and [Q] holds of the result. *)
From stdpp Require Import base numbers list sorting gmap.
From S2P Require Import Prelude SortedAssoc ExpanseApi Sync32 Alts OpenHash OpenHashProofs OpenHashTheorems Lanes XorShift.
Open Scope Z_scope.

Definition TRACK (d : nat) : Z := 3235774464 + Z.of_nat d.
Definition TRACK_BORN : Z := 4294901760.
Definition untracked (id : Z) : Prop := Z.land id 4294901760 ≠ 3235774464.
#[export] Instance untracked_dec id : Decision (untracked id).
Proof. unfold untracked. apply _. Defined.

Lemma TRACK_bad d : (d < N_TRACKED)%nat → ¬ untracked (TRACK d).
Proof. unfold N_TRACKED, untracked. intros Hd Hu. apply Hu. do 4 (destruct d as [|d]; [reflexivity|]). lia. Qed.
Lemma TRACK_real d : (d < N_TRACKED)%nat → real (TRACK d).
Proof. unfold N_TRACKED, TRACK, real, OH_EMPTY, OH_TOMB. intros Hd. split; [word_lia|lia]. Qed.
Lemma TRACK_inj d d' : TRACK d = TRACK d' → d = d'.
Proof. unfold TRACK. lia. Qed.

(** ** Maps and ranges *)
Lemma size_insert_le (m : gmap Z Z) k v : (size (<[k := v]> m) <= Datatypes.S (size m))%nat.
Proof. rewrite map_size_insert. destruct (m !! k); simpl; lia. Qed.
Lemma NoDup_range_length (xs : list Z) c :
  NoDup xs → (∀ i, i ∈ xs → 0 <= i < c) → Z.of_nat (length xs) <= Z.max 0 c.
Proof.
  intros Hn Hr. assert (length xs <= length (seqZ 0 c))%nat as Hl; [|rewrite length_seqZ in Hl; lia].
  apply submseteq_length, NoDup_submseteq; [done|]. intros i Hi%Hr. apply elem_of_seqZ. lia.
Qed.
Lemma delete_fresh (own : gmap Z Z) k idx :
  (∀ k k' i, own !! k = Some i → own !! k' = Some i → k = k') → own !! k = Some idx →
  ∀ k', delete k own !! k' ≠ Some idx.
Proof. intros Hinj Hk k' [Hne Hk']%lookup_delete_Some. by apply Hne, (Hinj _ _ idx). Qed.

Section Proofs.
  Context {S M : Type} `{Sync32Laws S} `{ExpanseMapLaws M}.
  Context (cyc : nat → Z) (us : Z * Z).
  Abbreviation lane := (@lane S M).
  Abbreviation world := (@world S M).
  Abbreviation ST := (@ST S M).
Implicit Types (l : lane) (w : world) (on : bool).
  (** [nt] tracked devices are registered, and the interrupt relies on [np] of them. *)
  Context (np nt : nat).
  Hypothesis np_nt : (np <= nt)%nat.
  Hypothesis nt_max : (nt <= N_TRACKED)%nat.

(** ** What the interrupt needs *)
Definition table l (tbl : gmap Z Z) : Prop :=
  if is_expanse l then ∃ s, sync l = Some s ∧ contents s = tbl
  else ∃ h, hash l = Some h ∧ oh_inv h ∧ oh_rep h tbl ∧ used h < mask h + 1.
(** The first [n] tracked devices are readable. *)
Definition tracked_ok (n : nat) l (tbl : gmap Z Z) : Prop :=
  ∀ d, (d < n)%nat →
    tracked_id l !! d = Some (TRACK d) ∧
    ∃ idx r, tbl !! TRACK d = Some idx ∧ 0 <= idx < cap l
      ∧ arr_get (slab l) idx = Some r ∧ r_id r = TRACK d.
Definition good l : Prop := ∃ tbl, table l tbl ∧ tracked_ok np l tbl.
Definition good_point (p : bool * lane) : Prop :=
  (is_expanse p.2 = true ∨ p.1 = false) ∧ good p.2.

Definition at_ l on w : Prop :=
  lane_of w = l ∧ irq_on w = on ∧ Forall good_point (points w).

Definition tri {A} l on (m : ST A) (Q : A → lane → bool → Prop) : Prop :=
  ∀ w, at_ l on w → ∃ x w' l' on', m w = Some (x, w') ∧ at_ l' on' w' ∧ Q x l' on'.

Lemma tri_ret {A} l on (x : A) Q : Q x l on → tri l on (mret x) Q.
Proof. intros HQ w Hw. by exists x, w, l, on. Qed.
Lemma tri_bind {A B} l on (m : ST A) (f : A → ST B) Q :
  tri l on m (λ x l' on', tri l' on' (f x) Q) → tri l on (m ≫= f) Q.
Proof.
  intros Hm w Hw. destruct (Hm w Hw) as (x & w1 & l1 & on1 & He & Hw1 & Hf).
  destruct (Hf w1 Hw1) as (y & w2 & l2 & on2 & He2 & Hw2 & HQ).
  exists y, w2, l2, on2. split; [|done]. unfold mbind, st_bind. by rewrite He.
Qed.
Lemma tri_mono {A} l on (m : ST A) (Q Q' : A → lane → bool → Prop) :
  tri l on m Q → (∀ x l' on', Q x l' on' → Q' x l' on') → tri l on m Q'.
Proof.
  intros Hm HQ w Hw. destruct (Hm w Hw) as (x & w1 & l1 & on1 & He & Hw1 & Hx).
  exists x, w1, l1, on1. auto.
Qed.
Lemma tri_lane l on (Q : lane → lane → bool → Prop) : Q l l on → tri l on the_lane Q.
Proof. intros HQ w Hw. exists l, w, l, on. split; [|done]. unfold the_lane. by destruct Hw as [<- _]. Qed.
Lemma tri_upd l on f (Q : unit → lane → bool → Prop) :
  (on = true → good (f l)) → Q tt (f l) on → tri l on (upd f) Q.
Proof.
  intros Hg HQ w (<- & <- & Hp). eexists tt, _, (f (lane_of w)), (irq_on w).
  split; [reflexivity|]. split; [|done]. unfold log. cbn [lane_of irq_on].
  destruct (irq_on w) eqn:Hv; (split; [done|split; [done|]]).
  - cbn [points]. constructor; [|done]. split; [by right|by apply Hg].
  - done.
Qed.
Lemma tri_bracket l on (Q : unit → lane → bool → Prop) :
  (on = true → is_expanse l = true ∧ good l) → Q tt l on → tri l on bracket Q.
Proof.
  intros Hg HQ w (<- & <- & Hp). eexists tt, _, (lane_of w), (irq_on w).
  split; [reflexivity|]. split; [|done]. unfold log.
  destruct (irq_on w) eqn:Hv; (split; [done|split; [done|]]).
  - cbn [points]. destruct (Hg eq_refl). constructor; [|done]. split; [by left|done].
  - done.
Qed.
Lemma tri_lift {A} l on (o : option A) x (Q : A → lane → bool → Prop) :
  o = Some x → Q x l on → tri l on (lift o) Q.
Proof. intros -> HQ w Hw. by exists x, w, l, on. Qed.
Lemma tri_cyccnt l on (Q : Z → lane → bool → Prop) : (∀ t, Q t l on) → tri l on (cyccnt cyc) Q.
Proof. intros HQ w (<- & <- & Hp). eexists _, _, (lane_of w), (irq_on w). split; [reflexivity|]. by split. Qed.
Lemma tri_nvic l on on' (Q : unit → lane → bool → Prop) : Q tt l on' → tri l on (nvic_irq on') Q.
Proof. intros HQ w (<- & <- & Hp). eexists tt, _, (lane_of w), on'. split; [reflexivity|]. by split. Qed.
Lemma tri_acct l on (Q : acct → lane → bool → Prop) : (∀ a, Q a l on) → tri l on the_acct Q.
Proof. intros HQ w Hw. by exists (heap_acct w), w, l, on. Qed.
Lemma tri_put_acct l on a (Q : unit → lane → bool → Prop) : Q tt l on → tri l on (put_acct a) Q.
Proof. intros HQ w (<- & <- & Hp). eexists tt, _, (lane_of w), (irq_on w). split; [reflexivity|]. by split. Qed.

(** One step of symbolic execution. *)
Ltac st1 :=
  lazymatch goal with
  | |- tri _ _ (mbind _ _) _ => apply tri_bind
  | |- tri _ _ (mret _) _ => apply tri_ret
  | |- tri _ _ the_lane _ => apply tri_lane
  | |- tri _ _ (cyccnt _) _ => apply tri_cyccnt; intros ?
  | |- tri _ _ (nvic_irq _) _ => apply tri_nvic
  | |- tri _ _ the_acct _ => apply tri_acct; intros ?
  | |- tri _ _ (lift (Some _)) _ => eapply tri_lift; [reflexivity|]
  | |- tri _ _ (put_acct _) _ => apply tri_put_acct
  end; cbv beta iota.
Ltac st := repeat st1.

(** ** Masking *)
(** The main loop's instruments, with [k] nested masks. *)
Record loop_ok (k : Z) (p : loop_stats) : Prop := {
  lo_masked : irq_masked p = k;
  lo_ms : Z.of_nat (length (rehash_ms p)) = REHASH_MAX;
  lo_moved : Z.of_nat (length (rehash_moved p)) = REHASH_MAX;
  lo_n : 0 <= rehash_n p <= REHASH_MAX;
}.
(** [l] with other tables and instruments. *)
Definition retab l (s : option S) (h : option ohash) (p : loop_stats) : lane :=
  set_loop p (set_hash h (set_sync s l)).

Lemma tri_mask l on Q :
  is_expanse l = false → loop_ok 0 (loop l) → (on = true → good l) →
  (∀ p, loop_ok 1 p → Q tt (set_loop p l) false) → tri l on (lane_mask cyc) Q.
Proof.
  intros He [Hm H1 H2 H3] Hg HQ. unfold lane_mask. st. rewrite Hm. cbn [Z.eqb].
  apply tri_upd; [exact Hg|]. st. apply tri_upd; [done|].
  apply HQ. by constructor.
Qed.
Lemma tri_unmask l Q :
  is_expanse l = false → loop_ok 1 (loop l) →
  (∀ p, loop_ok 0 p → Q tt (set_loop p l) true) → tri l false (lane_unmask cyc) Q.
Proof.
  intros He [Hm H1 H2 H3] HQ. unfold lane_unmask. st. rewrite Hm.
  apply tri_upd; [done|]. change (1 -w 1 =? 0) with true. cbv iota. st.
  destruct (_ >? _).
  - apply tri_upd; [done|]. st. apply HQ. by constructor.
  - st. apply HQ. by constructor.
Qed.

(** ** Table operations *)
(** An arena sized for [B] entries refuses no insertion below them.  The header
    promises no such bound; the claims about the hash lane take [B] to be 0, where
    this holds of any arena. *)
Context (B : Z).
Hypothesis arena_holds : ∀ (s : S) k v,
  Z.of_nat (size (contents s)) < B → (sync32_try_insert s k v).1 ≠ EXPANSE_SYNC32_ARENA_FULL.

Lemma insert_cases (s : S) k v :
  Z.of_nat (size (contents s)) < B →
  ((sync32_try_insert s k v).1 = EXPANSE_SYNC32_OK
   ∧ contents (sync32_try_insert s k v).2 = <[k := v]> (contents s))
  ∨ ((sync32_try_insert s k v).1 = EXPANSE_SYNC32_RECLAIM_BACKLOG
     ∧ contents (sync32_try_insert s k v).2 = contents s).
Proof.
  intros Hs. pose proof (arena_holds s k v Hs). pose proof (insert_status s k v) as Hst.
  rewrite (insert_contents s k v).
  repeat (apply elem_of_cons in Hst as [Hst|Hst]); [left|done|right|by apply elem_of_nil in Hst]; by rewrite Hst.
Qed.
Lemma sync_insert_spec (s : S) k v :
  Z.of_nat (size (contents s)) < B →
  ∃ s', sync_insert_loop RETRIES s k v = Some (EXPANSE_SYNC32_OK, s') ∧ contents s' = <[k := v]> (contents s).
Proof.
  intros Hs. unfold RETRIES. cbn [sync_insert_loop].
  pose proof (insert_after_reclaim s k v) as Hre. destruct (insert_cases s k v Hs) as [[Hst Hc]|[Hst Hc]].
  - destruct (sync32_try_insert s k v) as [st s1]. cbn [fst snd] in *. subst st. by exists s1.
  - specialize (Hre Hst). destruct (sync32_try_insert s k v) as [st s1]. cbn [fst snd] in *. subst st.
    set (s2 := (sync32_try_reclaim s1).2) in *.
    assert (contents s2 = contents s) as H2 by (unfold s2; by rewrite reclaim_contents).
    rewrite Z.eqb_refl.
    destruct (insert_cases s2 k v) as [[Hst2 Hc2]|[Hst2 _]]; [by rewrite H2| |done].
    destruct (sync32_try_insert s2 k v) as [st s3]. cbn [fst snd] in *. subst st. exists s3. by rewrite Hc2, H2.
Qed.
Lemma remove_cases (s : S) k :
  contents (sync32_try_remove s k).2 = contents s ∨ contents (sync32_try_remove s k).2 = delete k (contents s).
Proof. rewrite remove_contents. destruct (_ =? _); [by right|by left]. Qed.
Lemma sync_remove_spec (s : S) k :
  ∃ s', sync_remove_loop RETRIES s k = Some s' ∧ (contents s' = contents s ∨ contents s' = delete k (contents s)).
Proof.
  unfold RETRIES. cbn [sync_remove_loop]. pose proof (remove_cases s k) as Hc.
  pose proof (remove_after_reclaim s k) as Hre. pose proof (remove_contents s k) as Hcon.
  destruct (sync32_try_remove s k) as [st s1]. cbn [fst snd] in *.
  destruct (st =? EXPANSE_SYNC32_RECLAIM_BACKLOG) eqn:Hst; [|by exists s1].
  apply Z.eqb_eq in Hst. specialize (Hre Hst). subst st. change (_ =? _) with false in Hcon. cbv iota in Hcon.
  set (s2 := (sync32_try_reclaim s1).2) in *.
  assert (contents s2 = contents s) as H2 by (unfold s2; by rewrite reclaim_contents).
  pose proof (remove_cases s2 k) as Hc2. destruct (sync32_try_remove s2 k) as [st s3]. cbn [fst snd] in *.
  rewrite (proj2 (Z.eqb_neq _ _) Hre). exists s3. by rewrite <- H2.
Qed.

(** Room for [n] more insertions. *)
Definition room (n : Z) l (tbl : gmap Z Z) : Prop :=
  if is_expanse l then Z.of_nat (size tbl) + n <= B
  else ∀ h, hash l = Some h →
    if growable l then 2 * used h <= mask h + 1 ∧ 2 <= mask h + 1 <= 2 ^ 29 ∧ used h + n <= 2 ^ 27
    else used h + n < mask h + 1.
(** The lanes the claims are about: the Expanse lane, and the hash lane with a mask. *)
Definition masks l : Prop :=
  is_expanse l = true ∨ mode l = HASH_MASK_WHOLE ∨ mode l = HASH_MASK_PER_WRITE.

Lemma good_table l tbl : table l tbl → tracked_ok nt l tbl → good l.
Proof. intros Ht Hok. exists tbl. split; [done|]. intros d Hd. apply Hok. lia. Qed.
Lemma log_rehash_tri l grow h Q :
  is_expanse l = false → loop_ok 1 (loop l) →
  (∀ p, loop_ok 1 p → Q tt (set_loop p l) false) →
  (Q tt l false) → tri l false (log_rehash grow h) Q.
Proof.
  intros He [Hm H1 H2 H3] HQ HQ0. unfold log_rehash. st. destruct (_ && _) eqn:Hb; [|by st].
  bool_facts. unfold REHASH_MAX in *.
  destruct (arr_set (rehash_ms (loop l)) _ ((grow +w 200000) / 400000)) as [a|] eqn:Ha;
    [|rewrite arr_set_Some in Ha by lia; done].
  destruct (arr_set (rehash_moved (loop l)) (rehash_n (loop l)) (alt_open_hash_shape h).1) as [b|] eqn:Hb;
    [|rewrite arr_set_Some in Hb by lia; done].
  st. apply tri_upd; [done|]. apply HQ. apply arr_set_length in Ha, Hb.
  constructor; cbn; unfold REHASH_MAX; (done || lia).
Qed.

(** Between mask and unmask: the table replaced, the mask dropped. *)
Lemma tri_write_end n l tbl h' Q :
  is_expanse l = false → mode l ≠ HASH_UNMASKED → loop_ok 1 (loop l) → hash l = Some h' →
  oh_inv h' → oh_rep h' tbl → used h' < mask h' + 1 → room n l tbl →
  (∀ s h p, let l' := retab l s h p in table l' tbl → room n l' tbl → loop_ok 0 p → Q tt l' true) →
  tri l false (write_end cyc) Q.
Proof.
  intros He Hm Hl Hh Hi Hrep Hu Hr HQ. unfold write_end. st. rewrite He, (proj2 (Z.eqb_neq _ _) Hm). cbn [negb andb].
  apply tri_unmask; [done..|]. intros p Hp. specialize (HQ (sync l) (hash l) p).
  replace (retab l (sync l) (hash l) p) with (set_loop p l) in HQ by done. apply HQ; [|exact Hr|done].
  unfold table. cbn. rewrite He. by exists h'.
Qed.
(** One insertion: the table afterwards, and room for one less. *)
Lemma tri_tbl_insert n l on tbl id idx Q :
  0 <= n → masks l → table l tbl → room (n + 1) l tbl → loop_ok 0 (loop l) →
  (is_expanse l = false → real id) → tracked_ok nt l tbl → tracked_ok nt l (<[id := idx]> tbl) →
  (∀ s h p, let l' := retab l s h p in
     table l' (<[id := idx]> tbl) → room n l' (<[id := idx]> tbl) → loop_ok 0 p →
     Q true l' (if is_expanse l then on else true)) →
  tri l on (tbl_insert cyc us id idx) Q.
Proof.
  intros Hn Hmk Ht Hr Hl Hid Hok Hok' HQ. pose proof (good_table _ _ Ht Hok) as Hg.
  unfold tbl_insert. st. unfold table, room in Ht, Hr. destruct (is_expanse l) eqn:He.
  - destruct Ht as (s & Hs & <-). rewrite Hs. st. apply tri_bracket; [done|]. st.
    destruct (sync_insert_spec s id idx) as (s' & -> & Hc); [lia|]. st.
    assert (table (set_sync (Some s') l) (<[id := idx]> (contents s))) as Ht'.
    { unfold table. cbn. rewrite He. by exists s'. }
    apply tri_upd; [intros _; exact (good_table _ _ Ht' Hok')|].
    st. change (_ =? _) with true. specialize (HQ (Some s') (hash l) (loop l)).
    replace (retab l (Some s') (hash l) (loop l)) with (set_sync (Some s') l) in HQ by done.
    apply HQ; [exact Ht'| |done]. unfold room. cbn. rewrite He. pose proof (size_insert_le (contents s) id idx). lia.
  - destruct Ht as (h & Hh & Hi & Hrep & Hu). specialize (Hr h Hh). specialize (Hid eq_refl).
    assert (mode l ≠ HASH_UNMASKED) as Hmode by (by destruct Hmk as [?|[-> | ->]]; [congruence|..]). unfold write_begin. st. rewrite He. cbn [negb andb].
    rewrite (proj2 (Z.eqb_neq _ _) Hmode). cbn [negb]. apply tri_mask; [done|done|by intros _|]. intros p Hp. st. rewrite Hh. st.
    destruct (growable l) eqn:Hgr.
    + st. destruct Hr as (Hr1 & Hr2 & Hr3).
      destruct (insert_grow_spec us t t0 h tbl id idx a) as (h' & a' & c & -> & (Hi' & Hrep' & Hu' & H2') & Hus & Hsl);
        [unfold half_full; split_and!; (done || lia)|done|lia|].
      st. apply tri_bracket; [done|]. st. apply tri_upd; [done|].
      assert (room n (set_hash (Some h') l) (<[id := idx]> tbl)) as Hroom.
      { unfold room. cbn. rewrite He, Hgr. intros ? [= <-]. lia. }
      assert (∀ p', loop_ok 1 p' → tri (set_loop p' (set_hash (Some h') l)) false
                (write_end cyc ≫= λ _, mret true) Q) as Hend.
      { intros p' Hp'. st. eapply tri_write_end; [done..|lia|exact Hroom|].
        intros s2 h2 p2 l' Ht2 Hr2' Hl2. st. exact (HQ s2 h2 p2 Ht2 Hr2' Hl2). }
      destruct (negb (c =? 0)).
      * apply log_rehash_tri; [done..|by intros p2 Hp2; apply (Hend p2)|by apply (Hend p)].
      * st1. by apply (Hend p).
    + st. destruct (oh_insert_spec h tbl id idx Hi Hrep Hid) as (h' & -> & Hi' & Hrep' & Hm' & Hu'); [lia|].
      assert (used h' <= used h + 1) by (case_decide; lia). st.
      apply tri_bracket; [done|]. st. apply tri_upd; [done|]. st.
      eapply tri_write_end; [done..|lia| |].
      * unfold room. cbn. rewrite He, Hgr. intros ? [= <-]. instantiate (1 := n). lia.
      * intros s2 h2 p2 l' Ht2 Hr2' Hl2. st. exact (HQ s2 h2 p2 Ht2 Hr2' Hl2).
Qed.

(** ** The slab: free, retired, tracked and owned slots never overlap *)
Definition free l : list Z := take (Z.to_nat (free_top l)) (free_stack l).
Definition retired l : list Z := take (Z.to_nat (retire_n l)) (retire l).
Definition busy l : list Z := free l ++ retired l ++ take nt (tracked_idx l).
(** [own]: the slot of each record, by time key (Expanse) or by id (hash). *)
Record slots_ok l (own : gmap Z Z) : Prop := {
  so_cap : 0 < cap l < UINT32_MAX;
  so_slab : Z.of_nat (length (slab l)) = cap l;
  so_stack : Z.of_nat (length (free_stack l)) = cap l;
  so_top : 0 <= free_top l <= cap l;
  so_retire : Z.of_nat (length (retire l)) = RETIRE_MAX;
  so_retire_n : 0 <= retire_n l <= RETIRE_MAX;
  so_tracked : length (tracked_idx l) = N_TRACKED;
  so_nodup : NoDup (busy l);
  so_range i : i ∈ busy l → 0 <= i < cap l;
  so_own k i : own !! k = Some i →
    0 <= i < cap l ∧ (i ∉ busy l) ∧ ∃ r, arr_get (slab l) i = Some r ∧ untracked (r_id r);
  so_inj k k' i : own !! k = Some i → own !! k' = Some i → k = k';
}.
(** Only these seven fields matter. *)
Lemma slots_ok_conv l l' own :
  cap l' = cap l → slab l' = slab l → free_stack l' = free_stack l → free_top l' = free_top l →
  retire l' = retire l → retire_n l' = retire_n l → tracked_idx l' = tracked_idx l →
  slots_ok l own → slots_ok l' own.
Proof.
  intros Hc Hsl Hfs Hft Hrt Hrn Hti Hs.
  assert (busy l' = busy l) as Hb by (unfold busy, free, retired; congruence).
  destruct Hs. constructor; rewrite ?Hb, ?Hc, ?Hsl, ?Hfs, ?Hft, ?Hrt, ?Hrn, ?Hti; done.
Qed.
Definition tracked_slots l (tbl : gmap Z Z) : Prop :=
  ∀ d, (d < nt)%nat →
    tracked_id l !! d = Some (TRACK d) ∧
    ∃ idx r, tracked_idx l !! d = Some idx ∧ tbl !! TRACK d = Some idx
      ∧ arr_get (slab l) idx = Some r ∧ r_id r = TRACK d ∧ r_born_ms r = TRACK_BORN.

Lemma tracked_slots_len l tbl :
  Z.of_nat (length (slab l)) = cap l → tracked_slots l tbl → tracked_ok nt l tbl.
Proof.
  intros Hs Ht d Hd. destruct (Ht d Hd) as (Hid & idx & r & Hi & Htb & Hr & Hrid & _). split; [done|].
  exists idx, r. split_and!; try done; pose proof (arr_get_Some_range _ _ _ Hr); lia.
Qed.
Lemma tracked_slots_ok l own tbl : slots_ok l own → tracked_slots l tbl → tracked_ok nt l tbl.
Proof. intros Hs. apply tracked_slots_len, (so_slab _ _ Hs). Qed.
Lemma tracked_busy l tbl d idx :
  tracked_slots l tbl → (d < nt)%nat → tbl !! TRACK d = Some idx → idx ∈ busy l.
Proof.
  intros Ht Hd Hi. destruct (Ht d Hd) as (_ & i & r & Hti & Htb & _). simplify_eq.
  unfold busy. rewrite !elem_of_app. right. right. apply (list_elem_of_lookup_2 _ d). by rewrite lookup_take_lt.
Qed.

Lemma length_free l own : slots_ok l own → Z.of_nat (length (free l)) = free_top l.
Proof. intros Hs. unfold free. rewrite length_take. pose proof (so_stack _ _ Hs). pose proof (so_top _ _ Hs). lia. Qed.
Lemma free_room l own idx : slots_ok l own → 0 <= idx < cap l → idx ∉ busy l → free_top l < cap l.
Proof.
  intros Hs Hi Hb. pose proof (so_nodup _ _ Hs) as Hn. unfold busy in *.
  apply NoDup_app in Hn as (Hn & _ & _). rewrite elem_of_app in Hb.
  pose proof (NoDup_range_length (idx :: free l) (cap l)) as Hl.
  cbn [length] in Hl. rewrite <- (length_free _ _ Hs). enough (Z.of_nat (Datatypes.S (length (free l))) <= Z.max 0 (cap l)) by lia.
  apply Hl; [constructor; [tauto|done]|]. intros i [->|Hi']%elem_of_cons; [done|].
  apply (so_range _ _ Hs). unfold busy. rewrite elem_of_app. by left.
Qed.

Lemma slots_ok_delete l own k : slots_ok l own → slots_ok l (delete k own).
Proof.
  intros []. constructor; try done.
  - intros k' i [_ Hk]%lookup_delete_Some. by apply (so_own0 k').
  - intros k1 k2 i [_ H1]%lookup_delete_Some [_ H2]%lookup_delete_Some. by apply (so_inj0 _ _ i).
Qed.
Lemma slots_ok_insert l own k idx r :
  slots_ok l own → 0 <= idx < cap l → idx ∉ busy l → (∀ k', own !! k' ≠ Some idx) →
  arr_get (slab l) idx = Some r → untracked (r_id r) → slots_ok l (<[k := idx]> own).
Proof.
  intros [] Hi Hb Hf Hr Hu. constructor; try done.
  - intros k' i [[_ <-]|[_ Hk]]%lookup_insert_Some; [by eauto|by apply (so_own0 k')].
  - intros k1 k2 i [[<- <-]|[_ H1]]%lookup_insert_Some [[<- Hx]|[_ H2]]%lookup_insert_Some; simplify_eq; try done.
    + by destruct (Hf k2).
    + by destruct (Hf k1).
    + by apply (so_inj0 _ _ i).
Qed.

(** Popping a slot. *)
Lemma free_pop l own idx :
  slots_ok l own → free_top l ≠ 0 → arr_get (free_stack l) (free_top l - 1) = Some idx →
  free l = free (set_free_top (free_top l - 1) l) ++ [idx].
Proof.
  intros Hs Ht Hg. pose proof (so_top _ _ Hs). unfold free, arr_get in *. cbn.
  replace (Z.to_nat (free_top l)) with (Datatypes.S (Z.to_nat (free_top l - 1))) by lia.
  rewrite (proj2 (Z.leb_le 0 (free_top l - 1))) in Hg by lia. by apply take_S_r.
Qed.
Lemma tri_slot_alloc l on own Q :
  slots_ok l own → good l →
  (free_top l = 0 → Q UINT32_MAX l on) →
  (∀ idx, let l' := set_free_top (free_top l - 1) l in
     slots_ok l' own → idx ≠ UINT32_MAX → 0 <= idx < cap l → idx ∉ busy l' → (∀ k, own !! k ≠ Some idx) →
     Q idx l' on) →
  tri l on slot_alloc Q.
Proof.
  intros Hs Hg HQ0 HQ. unfold slot_alloc. st. destruct (Z.eqb_spec (free_top l) 0) as [H0'|Ht].
  { st. by apply HQ0. }
  st. apply tri_upd; [by intros _|]. pose proof (so_top _ _ Hs). pose proof (so_stack _ _ Hs).
  destruct (arr_get_is_Some (free_stack l) (free_top l - 1)) as [idx Hg']; [lia|]. rewrite Hg'. st.
  pose proof (free_pop _ _ _ Hs Ht Hg') as Hf.
  assert (busy l ≡ₚ idx :: busy (set_free_top (free_top l - 1) l)) as Hp.
  { unfold busy. rewrite Hf. cbn [retired tracked_idx retire_n retire]. solve_Permutation. }
  pose proof (so_nodup _ _ Hs) as Hn. rewrite Hp in Hn. apply NoDup_cons in Hn as [Hni Hn].
  assert (0 <= idx < cap l) as Hi by (apply (so_range _ _ Hs); rewrite Hp; left).
  apply HQ; try done.
  - destruct Hs. constructor; try done; cbn; try lia.
    + intros i Hi'. apply so_range0. rewrite Hp. by right.
    + intros k i Hk. destruct (so_own0 k i Hk) as (Ha & Hb & Hc). split; [done|split; [|done]].
      rewrite Hp in Hb. intros Hi'. apply Hb. by right.
  - pose proof (so_cap _ _ Hs). lia.
  - intros k Hk. destruct (so_own _ _ Hs k idx Hk) as (_ & Hb & _). apply Hb. rewrite Hp. left.
Qed.

(** Rewriting a slot that is neither free, retired nor tracked. *)
Lemma slots_ok_write l own idx r sl :
  slots_ok l own → arr_set (slab l) idx r = Some sl →
  (untracked (r_id r) ∨ ∀ k, own !! k ≠ Some idx) → slots_ok (set_slab sl l) own.
Proof.
  intros Hs Hset Hu. pose proof (arr_set_length _ _ _ _ Hset) as Hlen. destruct Hs. constructor; try done.
  - change (slab (set_slab sl l)) with sl. rewrite Hlen. done.
  - intros k i Hk. destruct (so_own0 k i Hk) as (Ha & Hb & r' & Hr' & Hu'). split; [done|split; [done|]].
    change (slab (set_slab sl l)) with sl. rewrite (arr_get_set _ _ i _ _ Hset). case_decide as Hd; [|by eauto].
    subst i. exists r. split; [done|]. destruct Hu as [|Hu]; [done|]. by destruct (Hu k).
Qed.
Lemma tracked_ok_write l tbl idx r sl :
  tracked_ok nt l tbl → arr_set (slab l) idx r = Some sl → (∀ d, (d < nt)%nat → tbl !! TRACK d ≠ Some idx) →
  tracked_ok nt (set_slab sl l) tbl.
Proof.
  intros Ht Hset Hn d Hd. destruct (Ht d Hd) as (Hid & i & r' & Hi & Hc & Hr & Hrid). split; [done|].
  exists i, r'. split; [done|]. split; [done|]. split; [|done].
  change (slab (set_slab sl l)) with sl. rewrite (arr_get_set_ne _ _ i _ _ Hset); [done|].
  intros ->. by destruct (Hn d Hd).
Qed.
Lemma free_push l own idx fs :
  slots_ok l own → arr_set (free_stack l) (free_top l) idx = Some fs →
  free (set_free_top (free_top l + 1) (set_free_stack fs l)) = free l ++ [idx].
Proof.
  intros Hs Hset. pose proof (so_top _ _ Hs). unfold free. cbn.
  replace (Z.to_nat (free_top l + 1)) with (Datatypes.S (Z.to_nat (free_top l))) by lia.
  apply arr_set_inv in Hset as [Hr ->]. rewrite (take_S_r _ _ idx) by (apply list_lookup_insert_eq; lia).
  by rewrite take_insert_ge by lia.
Qed.

(** The retire list may be seen shortened ([rt], [rn]) while it is being freed. *)
Lemma tri_slot_free_view rt rn l on own tbl idx Q :
  let v := λ l, set_retire_n rn (set_retire rt l) in
  slots_ok (v l) own → table l tbl → tracked_ok nt l tbl →
  0 <= idx < cap l → idx ∉ busy (v l) → (∀ k, own !! k ≠ Some idx) →
  (∀ d, (d < nt)%nat → tbl !! TRACK d ≠ Some idx) →
  (∀ sl fs, let l' := set_free_top (free_top l + 1) (set_free_stack fs (set_slab sl l)) in
     slots_ok (v l') own → tracked_ok nt l' tbl → (∀ j, j ≠ idx → arr_get sl j = arr_get (slab l) j) →
     Q tt l' on) →
  tri l on (slot_free idx) Q.
Proof.
  intros v Hs Ht Hok Hi Hb Ho Htr HQ. unfold slot_free. st.
  pose proof (so_slab _ _ Hs) as Hsl. pose proof (so_stack _ _ Hs) as Hst. pose proof (so_top _ _ Hs) as Htop.
  pose proof (so_cap _ _ Hs) as Hcap. pose proof (free_room _ _ _ Hs Hi Hb) as Hroom.
  cbn in Hsl, Hst, Htop, Hcap, Hroom.
  destruct (arr_get_is_Some (slab l) idx) as [r Hr]; [lia|]. rewrite Hr. st.
  destruct (arr_set (slab l) idx (Rec 0 (r_born_ms r) 0)) as [sl|] eqn:Hset; [|rewrite arr_set_Some in Hset by lia; done].
  st. pose proof (tracked_ok_write _ _ _ _ _ Hok Hset Htr) as Hok'.
  apply tri_upd; [intros _; by eapply good_table|]. st.
  destruct (arr_set (free_stack l) (free_top l) idx) as [fs|] eqn:Hfs; [|rewrite arr_set_Some in Hfs by lia; done].
  st. apply tri_upd; [intros _; by eapply good_table|]. cbn [free_top set_slab].
  rewrite (u32_small (free_top l + 1)) by (unfold UINT32_MAX in *; word_lia).
  pose proof (slots_ok_write (v l) own _ _ _ Hs Hset (or_intror Ho)) as Hs1.
  set (l2 := set_free_top (free_top l + 1) (set_free_stack fs (set_slab sl (v l)))).
  assert (free l2 = free (v l) ++ [idx]) as Hfree by exact (free_push (set_slab sl (v l)) own idx fs Hs1 Hfs).
  apply HQ; [|done|intros j Hj; by apply (arr_get_set_ne _ _ _ _ _ Hset)].
  apply (slots_ok_conv l2); [done..|]. pose proof (arr_set_length _ _ _ _ Hfs).
  assert (busy l2 ≡ₚ idx :: busy (v l)) as Hp.
  { unfold busy. rewrite Hfree. change (retired l2) with (retired (v l)).
    change (tracked_idx l2) with (tracked_idx (v l)). solve_Permutation. }
  destruct Hs1. constructor; try done; try (cbn in *; lia).
  - rewrite Hp. by constructor.
  - intros i. rewrite Hp, elem_of_cons. intros [->|Hi']; [done|by apply so_range0].
  - intros k i Hk. destruct (so_own0 k i Hk) as (Ha & Hb' & Hc). split; [done|]. split; [|done].
    rewrite Hp, not_elem_of_cons. split; [|done]. intros ->. by destruct (Ho k).
Qed.
Lemma tri_slot_free l on own tbl idx Q :
  slots_ok l own → table l tbl → tracked_ok nt l tbl →
  0 <= idx < cap l → idx ∉ busy l → (∀ k, own !! k ≠ Some idx) →
  (∀ d, (d < nt)%nat → tbl !! TRACK d ≠ Some idx) →
  (∀ sl fs, let l' := set_free_top (free_top l + 1) (set_free_stack fs (set_slab sl l)) in
     slots_ok l' own → tracked_ok nt l' tbl → (∀ j, j ≠ idx → arr_get sl j = arr_get (slab l) j) →
     Q tt l' on) →
  tri l on (slot_free idx) Q.
Proof.
  intros Hs Ht Hok Hi Hb Ho Htr HQ. apply (tri_slot_free_view (retire l) (retire_n l) l on own tbl idx); try done.
  by apply (slots_ok_conv l).
Qed.

(** ** The invariant between main-loop operations *)
(** The next [n] ids drawn are not the hash table's markers. *)
Fixpoint draws_real (n : nat) (rng : Z) : Prop :=
  match n with
  | O => True
  | Datatypes.S n => ∀ id, fresh_id ID_DRAWS rng = Some id → real id ∧ draws_real n id
  end.
(** In the hash lane a record's key is its id; every other key is a tracked device's. *)
Definition hash_own (tbl own : gmap Z Z) : Prop :=
  (∀ k, own !! k = if decide (untracked k) then tbl !! k else None) ∧
  (∀ k i, tbl !! k = Some i → untracked k ∨ ∃ d, (d < nt)%nat ∧ k = TRACK d).
Definition owned_by l (tbl own : gmap Z Z) : Prop :=
  if is_expanse l then
    ∃ bt, by_time l = Some bt ∧ (∀ k, expanse_map_get bt k = own !! k) ∧
      ∀ k i r, own !! k = Some i → arr_get (slab l) i = Some r → ∃ q, k = tk_of (r_born_ms r) q
  else hash_own tbl own.
Record lane_inv (n : nat) l (tbl own : gmap Z Z) : Prop := {
  li_slots : slots_ok l own;
  li_tracked : tracked_slots l tbl;
  li_table : table l tbl;
  li_owned : owned_by l tbl own;
  li_room : room (Z.of_nat n) l tbl;
  li_loop : loop_ok 0 (loop l);
  li_masks : masks l;
  li_rng : is_u32 (rng l) ∧ rng l ≠ 0;
  li_draws : is_expanse l = false → draws_real n (rng l);
}.
(** The records a lane lists, by key: in the hash lane the table's devices without
    the tracked ones; in the Expanse lane those of the time map, so that a record
    whose time key a later one has taken is not among them. *)
Definition recs l (own : gmap Z Z) : gmap Z rec_t := omap (arr_get (slab l)) own.

Lemma li_good n l tbl own : lane_inv n l tbl own → good l.
Proof. intros [Hs Ht Htb]. eapply good_table; [done|by eapply tracked_slots_ok]. Qed.

Lemma tracked_slots_write l tbl idx r sl :
  tracked_slots l tbl → arr_set (slab l) idx r = Some sl → idx ∉ take nt (tracked_idx l) → tracked_slots (set_slab sl l) tbl.
Proof.
  intros Ht Hset Hn d Hd. destruct (Ht d Hd) as (Hid & i & r' & Hti & Hi & Hr & Hrid). split; [done|].
  exists i, r'. split; [done|]. split; [done|]. split; [|done].
  change (slab (set_slab sl l)) with sl. rewrite (arr_get_set_ne _ _ i _ _ Hset); [done|].
  intros ->. apply Hn, (list_elem_of_lookup_2 _ d). by rewrite lookup_take_lt.
Qed.
Lemma tracked_slots_insert l tbl id idx :
  tracked_slots l tbl → untracked id → tracked_slots l (<[id := idx]> tbl).
Proof.
  intros Ht Hu d Hd. destruct (Ht d Hd) as (Hid & i & r' & Hti & Hi & Hr). split; [done|].
  exists i, r'. rewrite lookup_insert_ne; [done|]. intros ->. apply (TRACK_bad d); [lia|done].
Qed.
Lemma busy_tracked l i : i ∈ take nt (tracked_idx l) → i ∈ busy l.
Proof. intros Hi. unfold busy. rewrite !elem_of_app. tauto. Qed.
Lemma recs_insert l own k idx r sl :
  arr_set (slab l) idx r = Some sl → (∀ k', own !! k' ≠ Some idx) →
  recs (set_slab sl l) (<[k := idx]> own) = <[k := r]> (recs l own).
Proof.
  intros Hset Hf. apply map_eq. intros k'. unfold recs. change (slab (set_slab sl l)) with sl.
  rewrite lookup_omap, !lookup_insert. case_decide; simpl.
  - by rewrite (arr_get_set_eq _ _ _ _ Hset).
  - rewrite lookup_omap. destruct (own !! k') as [i|] eqn:Hi; [|done]. simpl.
    rewrite (arr_get_set_ne _ _ i _ _ Hset); [done|]. intros ->. by destruct (Hf k').
Qed.

Lemma draws_real_S n r : draws_real (Datatypes.S n) r → draws_real n r.
Proof.
  revert r. induction n as [|n IH]; intros r Hd; [exact I|]. intros id Hid. destruct (Hd id Hid) as [Hr Hd'].
  split; [done|]. by apply IH.
Qed.
Lemma room_S n l tbl : room (n + 1) l tbl → room n l tbl.
Proof.
  unfold room. destruct (is_expanse l); [lia|]. intros Hr h Hh. specialize (Hr h Hh). destruct (growable l); lia.
Qed.
Lemma lane_inv_S n l tbl own : lane_inv (Datatypes.S n) l tbl own → lane_inv n l tbl own.
Proof.
  intros []. constructor; try done.
  - apply room_S. by replace (Z.of_nat n + 1) with (Z.of_nat (Datatypes.S n)) by lia.
  - intros He. by apply draws_real_S, li_draws0.
Qed.
Lemma bad_untracked id : bad_id id = false → untracked id.
Proof. unfold bad_id, untracked. intros Hb%Z.eqb_neq. done. Qed.
Lemma room_conv n l l' tbl :
  is_expanse l' = is_expanse l → hash l' = hash l → growable l' = growable l → room n l tbl → room n l' tbl.
Proof. unfold room. by intros -> -> ->. Qed.

Lemma hash_own_insert tbl own id idx :
  hash_own tbl own → untracked id → hash_own (<[id := idx]> tbl) (<[id := idx]> own).
Proof.
  intros [Ho Hk] Hu. split.
  - intros k. rewrite !lookup_insert, Ho. case_decide; [|done]. subst. by rewrite decide_True.
  - intros k i [[<- _]|[_ Hi]]%lookup_insert_Some; [by left|by eapply Hk].
Qed.
Lemma hash_own_track tbl own d idx :
  hash_own tbl own → (d < nt)%nat → hash_own (<[TRACK d := idx]> tbl) own.
Proof.
  intros [Ho Hk] Hd. split.
  - intros k. rewrite Ho. case_decide; [|done]. rewrite lookup_insert_ne; [done|]. intros <-. apply (TRACK_bad d); [lia|done].
  - intros k i [[<- _]|[_ Hi]]%lookup_insert_Some; [right; by exists d|by eapply Hk].
Qed.
Lemma hash_own_delete tbl own id : hash_own tbl own → hash_own (delete id tbl) (delete id own).
Proof.
  intros [Ho Hk]. split.
  - intros k. rewrite !lookup_delete, Ho. repeat case_decide; done.
  - intros k i [_ Hi]%lookup_delete_Some. by eapply Hk.
Qed.

(** [add_record]: with a free slot the record is added under a new key, without
    one nothing changes. *)
Lemma tri_add_record n l on tbl own born :
  lane_inv (Datatypes.S n) l tbl own →
  tri l on (add_record cyc us born) (λ ok l' on', (on = true → on' = true) ∧ is_expanse l' = is_expanse l ∧ ∃ tbl' own',
    lane_inv n l' tbl' own' ∧
    if ok then (∃ k id, recs l' own' = <[k := Rec id born 1]> (recs l own) ∧ untracked id)
               ∧ free_top l' = free_top l - 1 ∧ count l' = count l +w 1
          else free_top l = 0 ∧ l' = l ∧ recs l' own' = recs l own).
Proof.
  intros Hinv. pose proof (li_good _ _ _ _ Hinv) as Hg. pose proof Hinv as [Hs Ht Htb Ho Hr Hl Hm [Hu Hu0] Hd].
  unfold add_record. st. apply (tri_slot_alloc _ _ own); [done..| |].
  { intros H0'. st. rewrite Z.eqb_refl. st. split; [done|]. split; [done|]. exists tbl, own. split; [|done].
    by apply lane_inv_S. }
  intros idx l1 Hs1 Hmax Hi Hb Hf. st. rewrite (proj2 (Z.eqb_neq _ _) Hmax). st.
  destruct (fresh_id_spec (rng l)) as (id & Hid & Hidu & Hid0 & Hbad); [done..|].
  change (rng l1) with (rng l). rewrite Hid. st. apply tri_upd; [by intros _|]. st.
  pose proof (bad_untracked _ Hbad) as Hun. pose proof (so_slab _ _ Hs1).
  change (cap l1) with (cap l) in *.
  destruct (arr_set (slab l1) idx (Rec id born 1)) as [sl|] eqn:Hset; [|rewrite arr_set_Some in Hset by lia; done].
  st. assert (idx ∉ take nt (tracked_idx l)) as Hnt by (intros Hx; by apply Hb, busy_tracked).
  set (l2 := set_slab sl (set_rng id l1)).
  assert (slots_ok l2 own) as Hs2 by (apply (slots_ok_conv (set_slab sl l1)); [done..|]; exact (slots_ok_write _ own _ _ _ Hs1 Hset (or_intror Hf))).
  assert (tracked_slots l2 tbl) as Ht2 by exact (tracked_slots_write l1 _ _ _ _ Ht Hset Hnt).
  pose proof (tracked_slots_insert l2 tbl id idx Ht2 Hun) as Ht3.
  apply tri_upd; [intros _; exact (good_table l2 tbl Htb (tracked_slots_ok _ _ _ Hs2 Ht2))|]. st.
  apply (tri_tbl_insert (Z.of_nat n) l2 on tbl id idx);
    [lia|exact Hm|exact Htb| |exact Hl| |exact (tracked_slots_ok _ _ _ Hs2 Ht2)|exact (tracked_slots_ok _ _ _ Hs2 Ht3)|].
  { apply (room_conv _ l); [done..|]. by replace (Z.of_nat n + 1) with (Z.of_nat (Datatypes.S n)) by lia. }
  { intros He. by apply (Hd He). }
  intros s h p l3 Htb3 Hr3 Hl3. st. cbn [negb]. st.
  set (k := if is_expanse l then tk_of born (seq_no l) else id).
  assert (arr_get (slab l3) idx = Some (Rec id born 1)) as Hrec by exact (arr_get_set_eq _ _ _ _ Hset).
  assert (slots_ok l3 (<[k := idx]> own)) as Hs3
    by (apply (slots_ok_conv l2); [done..|]; exact (slots_ok_insert l2 own k idx _ Hs2 Hi Hb Hf Hrec Hun)).
  assert (recs l3 (<[k := idx]> own) = <[k := Rec id born 1]> (recs l own)) as Hrecs
    by exact (recs_insert l1 own k idx _ sl Hset Hf).
  assert (good l3) as Hg3 by exact (good_table l3 _ Htb3 (tracked_slots_ok _ _ _ Hs2 Ht3)).
  set (on1 := if is_expanse l2 then on else true).
  assert (on = true → on1 = true) as Hon by (unfold on1; by destruct (is_expanse l2)).
  assert (∀ l4, slots_ok l4 (<[k := idx]> own) → owned_by l4 (<[id := idx]> tbl) (<[k := idx]> own) →
            table l4 (<[id := idx]> tbl) → room (Z.of_nat n) l4 (<[id := idx]> tbl) → tracked_slots l4 (<[id := idx]> tbl) →
            loop l4 = p → masks l4 → rng l4 = id → is_expanse l4 = is_expanse l →
            lane_inv n l4 (<[id := idx]> tbl) (<[k := idx]> own)) as Hfin.
  { intros l4 H1' H2' H3' H4' H5' H6' H7' H8' H9'. constructor; try done; rewrite ?H6', ?H8'; try done.
    intros He. rewrite H9' in He. by apply (Hd He). }
  change (is_expanse l3) with (is_expanse l). change (by_time l3) with (by_time l). unfold owned_by in Ho.
  destruct (is_expanse l) eqn:He.
  - destruct Ho as (bt & Hbt & Hget & Hkey). rewrite Hbt. st. apply tri_upd; [intros _; exact Hg3|]. st.
    apply tri_upd; [intros _; exact Hg3|]. st. apply tri_upd; [intros _; exact Hg3|]. st.
    split; [exact Hon|]. split; [exact He|]. exists (<[id := idx]> tbl), (<[k := idx]> own).
    split; [|split; [by exists k, id|done]].
    apply Hfin; try done.
    + by apply (slots_ok_conv l3).
    + unfold owned_by. cbn -[slab]. rewrite He. eexists. split; [done|]. split.
      * intros k'. change (tk_of born (seq_no l)) with k. rewrite get_insert, lookup_insert.
        case_decide; [done|]. apply Hget.
      * intros k' i' r' [[<- <-]|[Hne Hk']]%lookup_insert_Some Hr'.
        -- change (arr_get (slab l3) idx = Some r') in Hr'. rewrite Hrec in Hr'. simplify_eq. by exists (seq_no l).
        -- apply (Hkey k' i'); [done|]. change (arr_get sl i' = Some r') in Hr'.
           rewrite (arr_get_set_ne _ _ i' _ _ Hset) in Hr'; [done|]. intros ->. by destruct (Hf k').
  - st. apply tri_upd; [intros _; exact Hg3|]. st. apply tri_upd; [intros _; exact Hg3|]. st.
    split; [exact Hon|]. split; [exact He|]. exists (<[id := idx]> tbl), (<[k := idx]> own).
    split; [|split; [by exists k, id|done]].
    apply Hfin; try done.
    + by apply (slots_ok_conv l3).
    + unfold owned_by. cbn. rewrite He. by apply hash_own_insert.
Qed.

Lemma lane_inv_conv n l l' tbl own :
  cap l' = cap l → slab l' = slab l → free_stack l' = free_stack l → free_top l' = free_top l →
  retire l' = retire l → retire_n l' = retire_n l → tracked_idx l' = tracked_idx l →
  tracked_id l' = tracked_id l → is_expanse l' = is_expanse l → mode l' = mode l → growable l' = growable l →
  sync l' = sync l → hash l' = hash l → by_time l' = by_time l → loop l' = loop l → rng l' = rng l →
  lane_inv n l tbl own → lane_inv n l' tbl own.
Proof.
  intros Hc Hsl Hfs Hft Hrt Hrn Hti Htd He Hm Hgr Hsy Hh Hbt Hl Hrng [Hs Ht Htb Ho Hr Hlo Hmk Hu Hd].
  constructor; unfold tracked_slots, table, owned_by, room, masks in *;
    rewrite ?Hc, ?Hsl, ?Htd, ?Hti, ?He, ?Hm, ?Hgr, ?Hsy, ?Hh, ?Hbt, ?Hl, ?Hrng; try done.
  by apply (slots_ok_conv l).
Qed.

(** What every main-loop operation leaves behind. *)
Definition inv_post {A} (n : nat) l : A → lane → bool → Prop := λ _ l' on',
  on' = true ∧ is_expanse l' = is_expanse l ∧ ∃ tbl' own', lane_inv n l' tbl' own'.

Lemma inv_seq {A C} n n1 l (m : ST A) (k : A → ST C) :
  tri l true m (inv_post n1 l) →
  (∀ x l1 tbl1 own1, lane_inv n1 l1 tbl1 own1 → is_expanse l1 = is_expanse l → tri l1 true (k x) (inv_post n l1)) →
  tri l true (m ≫= k) (inv_post n l).
Proof.
  intros Hm Hk. apply tri_bind. eapply tri_mono; [exact Hm|]. intros x l1 on1 (-> & He1 & tbl1 & own1 & Hinv1).
  eapply tri_mono; [by eapply Hk|]. intros y l2 on2 (Hon & He2 & Hx). split; [done|]. split; [by rewrite He2|done].
Qed.
Lemma inv_ret {A} n l tbl own (x : A) : lane_inv n l tbl own → tri l true (mret x) (inv_post n l).
Proof. intros Hi. st. split; [done|]. split; [done|]. by exists tbl, own. Qed.
(** An update outside the invariant's fields. *)
Lemma inv_upd n l tbl own f :
  lane_inv n (f l) tbl own → is_expanse (f l) = is_expanse l → tri l true (upd f) (inv_post n l).
Proof.
  intros Hi He. apply tri_upd; [intros _; by eapply li_good|]. split; [done|]. split; [done|]. by exists tbl, own.
Qed.
Lemma lane_inv_le m n l tbl own : lane_inv (m + n) l tbl own → lane_inv n l tbl own.
Proof. induction m as [|m IH]; [done|]. intros Hi. by apply IH, lane_inv_S. Qed.

Ltac inv_conv := eapply lane_inv_conv; [..|eassumption]; done.
(** The last step, and one step of a sequence. *)
Ltac inv_last := first [eapply inv_ret; eassumption | eapply inv_upd; [inv_conv|done]].
Ltac inv_step := eapply inv_seq; [inv_last|intros ? ? ? ? ? ?].

Lemma tri_ingest_loop m n l tbl own now capr :
  lane_inv (m + n) l tbl own → tri l true (ingest_loop cyc us m now capr) (inv_post n l).
Proof.
  revert l tbl own. induction m as [|m IH]; intros l tbl own Hinv; cbn [ingest_loop]; [inv_last|].
  st. destruct (_ && _); [|eapply inv_ret; by eapply (lane_inv_le (Datatypes.S m))].
  eapply inv_seq.
  { eapply tri_mono; [by eapply (tri_add_record (m + n))|]. cbv beta.
    intros ok l1 on1 (Hon & He1 & tbl1 & own1 & Hinv1 & _). split; [by apply Hon|]. split; [done|]. by exists tbl1, own1. }
  intros ok l1 tbl1 own1 Hinv1 He1. eapply (inv_seq _ (m + n)); [destruct (negb ok); inv_last|].
  intros [] l2 tbl2 own2 Hinv2 He2. inv_step. by eapply IH.
Qed.
Lemma tri_lane_ingest n l tbl own now rate capr :
  lane_inv (256 + n) l tbl own → tri l true (lane_ingest cyc us now rate capr) (inv_post n l).
Proof.
  intros Hinv. unfold lane_ingest. st1. st1. eapply (inv_seq _ (256 + n)); [destruct (_ =? 0); inv_last|].
  intros [] l1 tbl1 own1 Hinv1 He1. inv_step. inv_step. eapply inv_seq; [by eapply tri_ingest_loop|].
  intros [] l3 tbl3 own3 Hinv3 He3. st1. st1. destruct (_ >? _); [|inv_last].
  eapply (inv_seq _ n); [destruct (_ <? _); inv_last|]. intros [] l4 tbl4 own4 Hinv4 He4. inv_last.
Qed.

(** ** Re-registering a tracked device *)
Lemma cursor_range l : ∃ d, (d < N_TRACKED)%nat ∧ churn_cursor l mod Z.of_nat N_TRACKED = Z.of_nat d.
Proof.
  pose proof (Z.mod_pos_bound (churn_cursor l) (Z.of_nat N_TRACKED)) as Hm. unfold N_TRACKED in *.
  exists (Z.to_nat (churn_cursor l mod Z.of_nat 4)). lia.
Qed.
(** The busy slots after a re-registration: the new slot tracked, the old retired. *)
Lemma busy_churn l d old new ti rt :
  (length (tracked_idx l) <= nt)%nat →
  arr_set (tracked_idx l) (Z.of_nat d) new = Some ti → tracked_idx l !! d = Some old →
  0 <= retire_n l → arr_set (retire l) (retire_n l) old = Some rt →
  busy (set_retire_n (retire_n l + 1) (set_retire rt (set_tracked_idx ti l))) ≡ₚ new :: busy l.
Proof.
  intros Hlen [Hd ->]%arr_set_inv Hold Hn [Hr ->]%arr_set_inv. rewrite Nat2Z.id.
  unfold busy, retired. cbn [free retire retire_n tracked_idx set_retire_n set_retire set_tracked_idx].
  change (free _) with (free l). rewrite (take_ge (tracked_idx l)) by done.
  rewrite (take_ge (<[d := new]> (tracked_idx l))) by (by rewrite length_insert).
  replace (Z.to_nat (retire_n l + 1)) with (Datatypes.S (Z.to_nat (retire_n l))) by lia.
  rewrite (take_S_r _ _ old) by (apply list_lookup_insert_eq; lia). rewrite take_insert_ge by lia.
  rewrite insert_take_drop by lia. rewrite <- (take_drop_middle (tracked_idx l) d old Hold) at 3.
  solve_Permutation.
Qed.
Lemma tracked_slots_churn l tbl d new r sl ti :
  tracked_slots l tbl → (d < nt)%nat → arr_set (slab l) new r = Some sl → new ∉ take nt (tracked_idx l) →
  r_id r = TRACK d → r_born_ms r = TRACK_BORN → arr_set (tracked_idx l) (Z.of_nat d) new = Some ti →
  tracked_slots (set_tracked_idx ti (set_slab sl l)) (<[TRACK d := new]> tbl).
Proof.
  intros Ht Hd Hset Hnew Hrid Hborn [Hr ->]%arr_set_inv d' Hd'. rewrite Nat2Z.id in *.
  destruct (Ht d' Hd') as (Hid & i & r' & Hti & Hi & Hr' & Hrr). split; [done|].
  cbn [tracked_idx set_tracked_idx slab set_slab]. destruct (decide (d = d')) as [<-|Hne].
  - exists new, r. rewrite list_lookup_insert_eq, lookup_insert_eq by lia.
    split; [done|]. split; [done|]. split; [|done]. exact (arr_get_set_eq _ _ _ _ Hset).
  - exists i, r'. rewrite list_lookup_insert_ne, lookup_insert_ne by (done || intros ?%TRACK_inj; done).
    split; [done|]. split; [done|]. split; [|done]. change (arr_get sl i = Some r').
    rewrite (arr_get_set_ne _ _ i _ _ Hset); [done|]. intros ->. apply Hnew, (list_elem_of_lookup_2 _ d'). by rewrite lookup_take_lt.
Qed.

Lemma tri_lane_churn n l tbl own now :
  nt = N_TRACKED → lane_inv (Datatypes.S n) l tbl own → tri l true (lane_churn cyc us now) (inv_post n l).
Proof.
  intros Hnt Hinv. pose proof (li_good _ _ _ _ Hinv) as Hg. pose proof Hinv as [Hs Ht Htb Ho Hr Hl Hm Hu Hdr].
  unfold lane_churn. st1. st1. destruct (_ <? 50); [eapply inv_ret; by apply lane_inv_S|].
  destruct (cursor_range l) as (d & Hd & Hcur). rewrite Hcur. rewrite <- Hnt in Hd.
  destruct (Ht d Hd) as (Hid & old & r & Hti & Htd & Hold & Hrid & Hborn).
  st. apply tri_upd; [by intros _|]. st. apply tri_upd; [by intros _|]. st.
  rewrite arr_get_nat, Hti. st. set (l0 := set_churn_cursor _ _).
  apply (tri_slot_alloc l0 true own); [by apply (slots_ok_conv l)|exact Hg| |].
  { intros _. rewrite Z.eqb_refl. cbn [orb]. eapply tri_mono; [eapply (inv_ret n l0 tbl own)|done].
    apply (lane_inv_conv _ l); [done..|]. by apply lane_inv_S. }
  intros new l1 Hs1 Hmax Hi Hb Hf. rewrite (proj2 (Z.eqb_neq _ _) Hmax). cbn [orb].
  assert (lane_inv n l1 tbl own) as Hinv1.
  { apply lane_inv_S in Hinv. destruct Hinv. by constructor. }
  destruct (retire_n l >=? RETIRE_MAX) eqn:Hret.
  { eapply tri_mono; [by eapply (inv_ret n l1 tbl own)|done]. }
  bool_facts. st. change (slab l1) with (slab l). rewrite Hold. st.
  pose proof (so_slab _ _ Hs). change (cap l0) with (cap l) in *.
  destruct (arr_set (slab l) new r) as [sl|] eqn:Hset; [|rewrite arr_set_Some in Hset by lia; done]. st.
  assert (new ∉ take nt (tracked_idx l)) as Hnew by (intros Hx; by apply Hb, busy_tracked).
  set (l2 := set_slab sl l1).
  assert (slots_ok l2 own) as Hs2 by exact (slots_ok_write l1 own _ _ _ Hs1 Hset (or_intror Hf)).
  assert (tracked_slots l2 tbl) as Ht2 by exact (tracked_slots_write l1 _ _ _ _ Ht Hset Hnew).
  pose proof (tracked_slots_ok _ _ _ Hs2 Ht2) as Hok2.
  apply tri_upd; [intros _; exact (good_table l2 tbl Htb Hok2)|]. st.
  change (tracked_id l1) with (tracked_id l). rewrite arr_get_nat, Hid. st.
  assert (length (tracked_idx l) = N_TRACKED) as Hlen by apply (so_tracked _ _ Hs).
  destruct (arr_set (tracked_idx l) (Z.of_nat d) new) as [ti|] eqn:Hsti; [|rewrite arr_set_Some in Hsti by lia; done].
  pose proof (tracked_slots_churn l tbl d new r sl ti Ht Hd Hset Hnew Hrid Hborn Hsti) as Htc.
  assert (tracked_ok nt l2 (<[TRACK d := new]> tbl)) as Hok3.
  { apply (tracked_slots_len (set_tracked_idx ti (set_slab sl l))) in Htc; [exact Htc|exact (so_slab _ _ Hs2)]. }
  apply (tri_tbl_insert (Z.of_nat n) l2 true tbl (TRACK d) new); [lia|exact Hm|exact Htb| |exact Hl| |exact Hok2|exact Hok3|].
  { apply (room_conv _ l); [done..|]. by replace (Z.of_nat n + 1) with (Z.of_nat (Datatypes.S n)) by lia. }
  { intros _. apply TRACK_real. lia. }
  intros s h p l3 Htb3 Hr3 Hl3. replace (if is_expanse l2 then true else true) with true by (by destruct (is_expanse l2)).
  st. change (tracked_idx l3) with (tracked_idx l). rewrite Hsti. st.
  assert (good l3) as Hg3 by exact (good_table l3 _ Htb3 Hok3).
  apply tri_upd; [intros _; exact Hg3|]. st.
  change (retire l3) with (retire l). change (retire_n l3) with (retire_n l).
  pose proof (so_retire _ _ Hs). pose proof (so_retire_n _ _ Hs). unfold RETIRE_MAX in *.
  destruct (arr_set (retire l) (retire_n l) old) as [rt|] eqn:Hrt; [|rewrite arr_set_Some in Hrt by lia; done]. st.
  apply tri_upd; [intros _; exact Hg3|].
  split; [done|]. split; [done|]. exists (<[TRACK d := new]> tbl), own.
  pose proof (busy_churn l2 d old new ti rt ltac:(change (tracked_idx l2) with (tracked_idx l); lia) Hsti Hti (proj1 (so_retire_n _ _ Hs)) Hrt) as Hperm.
  assert (slots_ok (set_retire_n (retire_n l2 + 1) (set_retire rt (set_tracked_idx ti l2))) own) as Hs5.
  { pose proof (arr_set_length _ _ _ _ Hsti). pose proof (arr_set_length _ _ _ _ Hrt).
    destruct Hs2. constructor; unfold RETIRE_MAX in *; try done; try (cbn; lia).
    - rewrite Hperm. constructor; [exact Hb|done].
    - intros i. rewrite Hperm, elem_of_cons. intros [->|Hx]; [exact Hi|by apply so_range0].
    - intros k i Hk. destruct (so_own0 k i Hk) as (Ha & Hb' & Hc). split; [done|]. split; [|done].
      rewrite Hperm, not_elem_of_cons. split; [|done]. intros ->. by destruct (Hf k). }
  constructor; try done.
  - revert Hs5. apply slots_ok_conv; done.
  - unfold owned_by in *. cbn -[slab]. destruct (is_expanse l).
    + destruct Ho as (bt & Hbt & Hget & Hkey). exists bt. split; [done|]. split; [done|].
      intros k i r' Hk Hr'. apply (Hkey k i); [done|]. change (arr_get sl i = Some r') in Hr'.
      rewrite (arr_get_set_ne _ _ i _ _ Hset) in Hr'; [done|]. intros ->. by destruct (Hf k).
    + apply hash_own_track; [done|lia].
  - intros He. by apply draws_real_S, Hdr.
Qed.

(** ** The sweep *)
(** The lane with the first [i] retired slots taken off the list. *)
Definition unretire (i : Z) l : lane :=
  set_retire_n (retire_n l - i) (set_retire (drop (Z.to_nat i) (retire l) ++ take (Z.to_nat i) (retire l)) l).
Lemma retire_pop i l own :
  slots_ok (unretire i l) own → 0 <= i < retire_n l → retire_n l <= Z.of_nat (length (retire l)) →
  ∃ idx, arr_get (retire l) i = Some idx ∧ slots_ok (unretire (i + 1) l) own
    ∧ 0 <= idx < cap l ∧ (idx ∉ busy (unretire (i + 1) l)) ∧ (∀ k, own !! k ≠ Some idx).
Proof.
  intros Hs Hi Hlen. destruct (arr_get_is_Some (retire l) i) as [idx Hidx]; [lia|]. exists idx. split; [done|].
  unfold arr_get in Hidx. rewrite (proj2 (Z.leb_le 0 i)) in Hidx by lia.
  assert (retired (unretire i l) = idx :: retired (unretire (i + 1) l)) as Hr.
  { unfold retired, unretire. cbn [retire retire_n set_retire_n set_retire].
    rewrite !take_app_le by (rewrite length_drop; lia). rewrite (drop_S _ _ _ Hidx).
    replace (Z.to_nat (i + 1)) with (Datatypes.S (Z.to_nat i)) by lia.
    by replace (Z.to_nat (retire_n l - i)) with (Datatypes.S (Z.to_nat (retire_n l - (i + 1)))) by lia. }
  assert (busy (unretire i l) ≡ₚ idx :: busy (unretire (i + 1) l)) as Hp.
  { unfold busy. rewrite Hr. change (free (unretire i l)) with (free (unretire (i + 1) l)).
    change (tracked_idx (unretire i l)) with (tracked_idx (unretire (i + 1) l)). solve_Permutation. }
  pose proof (so_nodup _ _ Hs) as Hn. rewrite Hp in Hn. apply NoDup_cons in Hn as [Hni Hn].
  split; [|split; [|split; [done|]]].
  - destruct Hs. constructor; try done; try (cbn in *; lia).
    + revert so_retire0. cbn. rewrite !length_app, !length_drop, !length_take. lia.
    + intros j Hj. apply so_range0. rewrite Hp. by right.
    + intros k j Hk. destruct (so_own0 k j Hk) as (Ha & Hb & Hc). split; [done|]. split; [|done].
      rewrite Hp, not_elem_of_cons in Hb. by destruct Hb.
  - apply (so_range _ _ Hs). rewrite Hp. left.
  - intros k Hk. destruct (so_own _ _ Hs k idx Hk) as (_ & Hb & _). apply Hb. rewrite Hp. left.
Qed.
(** Freeing touches the slab, the stack and nothing else. *)
Definition freed_from l l' : Prop :=
  ∃ sl fs ft, l' = set_free_top ft (set_free_stack fs (set_slab sl l)).
Lemma recs_outside l own idx sl :
  (∀ j, j ≠ idx → arr_get sl j = arr_get (slab l) j) → (∀ k, own !! k ≠ Some idx) →
  ∀ l', slab l' = sl → recs l' own = recs l own.
Proof.
  intros Hsl Hf l' Hl'. apply map_eq. intros k. unfold recs. rewrite !lookup_omap, Hl'.
  destruct (own !! k) as [i|] eqn:Hi; [|done]. simpl. apply Hsl. intros ->. by destruct (Hf k).
Qed.
Lemma tracked_slots_outside l tbl idx sl :
  tracked_slots l tbl → (∀ j, j ≠ idx → arr_get sl j = arr_get (slab l) j) → idx ∉ take nt (tracked_idx l) →
  tracked_slots (set_slab sl l) tbl.
Proof.
  intros Ht Hsl Hn d Hd. destruct (Ht d Hd) as (Hid & i & r & Hti & Hi & Hr & Hrr). split; [done|].
  exists i, r. split; [done|]. split; [done|]. split; [|done]. change (arr_get sl i = Some r).
  rewrite Hsl; [done|]. intros ->. apply Hn, (list_elem_of_lookup_2 _ d). by rewrite lookup_take_lt.
Qed.
Lemma tri_free_retired m i l own tbl :
  slots_ok (unretire i l) own → table l tbl → tracked_slots l tbl → retire_n l = i + Z.of_nat m → 0 <= i →
  retire_n l <= Z.of_nat (length (retire l)) →
  tri l true (free_retired m i) (λ _ l' on', on' = true ∧ freed_from l l' ∧
    slots_ok (unretire (retire_n l) l') own ∧ tracked_slots l' tbl ∧ recs l' own = recs l own).
Proof.
  revert i l. induction m as [|m IH]; intros i l Hs Ht Htr Hn Hi Hlen; cbn [free_retired].
  { st. split; [done|]. split; [|split; [|done]].
    - exists (slab l), (free_stack l), (free_top l). by destruct l.
    - by replace (retire_n l) with i by lia. }
  st. destruct (retire_pop i l own Hs) as (idx & -> & Hs' & Hir & Hb & Hf); [lia..|]. st.
  assert (idx ∉ take nt (tracked_idx l)) as Hnt by (intros Hx; by apply Hb, busy_tracked).
  apply (tri_slot_free_view (retire (unretire (i + 1) l)) (retire_n l - (i + 1)) l true own tbl idx); try done.
  - exact (tracked_slots_len l tbl (so_slab _ _ Hs) Htr).
  - intros d Hd Hx. apply Hb. exact (tracked_busy (unretire (i + 1) l) tbl d idx Htr Hd Hx).
  - intros sl fs l1 Hs1 _ Hsl. eapply tri_mono.
    + apply (IH (i + 1)); [exact Hs1|exact Ht| |cbn; lia|lia|exact Hlen].
      exact (tracked_slots_outside l tbl idx sl Htr Hsl Hnt).
    + cbv beta. intros _ l2 on2 (-> & (sl2 & fs2 & ft2 & ->) & Hs2 & Ht2 & Hr2). split; [done|].
      split; [by exists sl2, fs2, ft2|]. split; [exact Hs2|]. split; [exact Ht2|].
      rewrite Hr2. by apply (recs_outside l own idx sl).
Qed.

(** What a sweep may change. *)
Definition swept_from l l' : Prop :=
  ∃ s h p sl fs ft, l' = set_free_top ft (set_free_stack fs (set_slab sl (retab l s h p))).
Lemma swept_refl l : swept_from l l.
Proof. exists (sync l), (hash l), (loop l), (slab l), (free_stack l), (free_top l). by destruct l. Qed.
Lemma swept_trans l1 l2 l3 : swept_from l1 l2 → swept_from l2 l3 → swept_from l1 l3.
Proof. intros (s & h & p & sl & fs & ft & ->) (s' & h' & p' & sl' & fs' & ft' & ->). by exists s', h', p', sl', fs', ft'. Qed.

(** The invariant inside a sweep: [own] runs ahead of the by-time index. *)
Record mid (n k : Z) l (tbl own : gmap Z Z) : Prop := {
  mi_slots : slots_ok l own;
  mi_tracked : tracked_slots l tbl;
  mi_table : table l tbl;
  mi_room : room n l tbl;
  mi_loop : loop_ok k (loop l);
}.
Lemma recs_delete l own k : recs l (delete k own) = delete k (recs l own).
Proof. unfold recs. by rewrite omap_delete. Qed.
Lemma tracked_slots_delete l tbl id :
  tracked_slots l tbl → untracked id → tracked_slots l (delete id tbl).
Proof.
  intros Ht Hu d Hd. destruct (Ht d Hd) as (Hid & i & r' & Hti & Hi & Hr). split; [done|].
  exists i, r'. rewrite lookup_delete_ne; [done|]. intros ->. apply (TRACK_bad d); [lia|done].
Qed.

(** *** The Expanse lane *)
Lemma tri_sweep_cb n l tbl own tk idx removed :
  is_expanse l = true → mid n 0 l tbl own → own !! tk = Some idx →
  tri l true (expanse_sweep_cb cyc tk idx removed) (λ x l' on', on' = true ∧ x = removed +w 1 ∧ swept_from l l' ∧
    ∃ tbl', mid n 0 l' tbl' (delete tk own) ∧ recs l' (delete tk own) = delete tk (recs l own)).
Proof.
  intros He [Hs Ht Htb Hr Hl] Hk. destruct (so_own _ _ Hs tk idx Hk) as (Hi & Hb & r & Hrec & Hun).
  unfold expanse_sweep_cb. st. rewrite Hrec. st. unfold tbl_remove. st. rewrite He.
  unfold table in Htb. rewrite He in Htb. destruct Htb as (s & Hsy & Hc). rewrite Hsy. st.
  assert (table l tbl) as Htb by (unfold table; rewrite He; by exists s).
  apply tri_bracket; [intros _; split; [done|]; eapply good_table; [done|by eapply tracked_slots_ok]|]. st.
  destruct (sync_remove_spec s (r_id r)) as (s' & -> & Hc'). st.
  set (l1 := set_sync (Some s') l).
  assert (∃ tbl', contents s' = tbl' ∧ tracked_slots l tbl' ∧ (size tbl' <= size tbl)%nat) as (tbl' & Hc1 & Ht1 & Hsz).
  { exists (contents s'). split; [done|]. destruct Hc' as [->| ->]; rewrite Hc; [done|]. split; [by apply tracked_slots_delete|].
    rewrite map_size_delete. destruct (tbl !! r_id r); simpl; lia. }
  assert (table l1 tbl') as Htb1 by (unfold table; cbn; rewrite He; by exists s').
  assert (slots_ok l1 (delete tk own)) as Hs1 by (apply (slots_ok_conv l); [done..|]; by apply slots_ok_delete).
  apply tri_upd; [intros _; eapply good_table; [exact Htb1|by eapply tracked_slots_ok]|]. st.
  pose proof (delete_fresh own tk idx (so_inj _ _ Hs) Hk) as Hf.
  apply (tri_slot_free l1 true (delete tk own) tbl' idx); [exact Hs1|exact Htb1|by eapply tracked_slots_ok|exact Hi|exact Hb|exact Hf| |].
  { intros d Hd Hx. apply Hb. exact (tracked_busy l tbl' d idx Ht1 Hd Hx). }
  intros sl fs l2 Hs2 _ Hsl. st. split; [done|]. split; [done|].
  split; [by exists (Some s'), (hash l), (loop l), sl, fs, (free_top l1 + 1)|].
  exists tbl'. split.
  - constructor; [exact Hs2| |exact Htb1| |exact Hl].
    + apply (tracked_slots_outside l tbl' idx sl Ht1 Hsl). intros Hx. by apply Hb, busy_tracked.
    + unfold room in *. cbn. rewrite He in *. lia.
  - rewrite <- recs_delete. by apply (recs_outside l _ idx sl).
Qed.

Definition drop_keys (es : list (Z * Z)) (own : gmap Z Z) : gmap Z Z := foldl (λ o e, delete e.1 o) own es.
Definition sweep_visit (tk idx : Z) (ow : option (Z * world)) : option (Z * world) :=
  '(removed, w) ← ow; expanse_sweep_cb cyc tk idx removed w.
Lemma foldl_delete_lookup {A} (es : list (Z * Z)) (m : gmap Z A) k :
  foldl (λ o e, delete e.1 o) m es !! k = if decide (k ∈ es.*1) then None else m !! k.
Proof.
  revert m. induction es as [|[k' i] es IH]; intros m; [by rewrite decide_False by apply not_elem_of_nil|].
  cbn [foldl fmap list_fmap fst]. rewrite IH.
  destruct (decide (k ∈ es.*1)) as [Hin|Hin]; [by rewrite decide_True by (by right)|].
  destruct (decide (k = k')) as [->|Hne]; [by rewrite lookup_delete_eq, decide_True by left|].
  rewrite lookup_delete_ne by done. rewrite decide_False; [done|]. by rewrite not_elem_of_cons.
Qed.
Lemma expanse_visit n es l tbl own removed w :
  at_ l true w → is_expanse l = true → mid n 0 l tbl own → NoDup es.*1 →
  (∀ k i, (k, i) ∈ es → own !! k = Some i) →
  ∃ w' l' tbl', visit sweep_visit es (Some (u32 removed, w)) = Some (u32 (removed + Z.of_nat (length es)), w')
    ∧ at_ l' true w' ∧ swept_from l l' ∧ mid n 0 l' tbl' (drop_keys es own)
    ∧ recs l' (drop_keys es own) = foldl (λ o e, delete e.1 o) (recs l own) es.
Proof.
  revert l tbl own removed w. induction es as [|[k i] es IH]; intros l tbl own removed w Hw He Hm Hn Hown.
  { exists w, l, tbl. rewrite Z.add_0_r. split; [done|]. split; [done|]. split; [apply swept_refl|done]. }
  cbn [fmap list_fmap fst] in Hn. apply NoDup_cons in Hn as [Hk Hn].
  destruct (tri_sweep_cb n l tbl own k i (u32 removed) He Hm (Hown k i ltac:(left)) w Hw)
    as (x & w1 & l1 & on1 & Hrun & Hw1 & -> & -> & Hsw & tbl1 & Hm1 & Hr1).
  destruct (IH l1 tbl1 (delete k own) (removed + 1) w1) as (w2 & l2 & tbl2 & Hrun2 & Hw2 & Hsw2 & Hm2 & Hr2); [done| |done|done| |].
  - destruct Hsw as (? & ? & ? & ? & ? & ? & ->). exact He.
  - intros k' i' Hin. rewrite lookup_delete_ne; [apply Hown; by right|].
    intros <-. apply Hk, list_elem_of_fmap. by exists (k, i').
  - exists w2, l2, tbl2. split_and!; [|done|by eapply swept_trans|done|].
    + cbn [visit]. unfold sweep_visit at 2. cbn [mbind option_bind]. rewrite Hrun.
      unfold u32 in *. rewrite Zplus_mod_idemp_l, Hrun2. do 2 f_equal. cbn [length]. f_equal. lia.
    + cbn [drop_keys foldl fst]. rewrite <- Hr1. exact Hr2.
Qed.

Lemma size_drop_keys es own :
  NoDup es.*1 → (∀ k i, (k, i) ∈ es → own !! k = Some i) →
  Z.of_nat (size (drop_keys es own)) = Z.of_nat (size own) - Z.of_nat (length es).
Proof.
  revert own. induction es as [|[k i] es IH]; intros own Hn Hown; [simpl; lia|].
  cbn [fmap list_fmap fst] in Hn. apply NoDup_cons in Hn as [Hk Hn].
  cbn [drop_keys foldl fst length]. change (foldl _ _ es) with (drop_keys es (delete k own)). rewrite IH; [|done|].
  - rewrite map_size_delete_Some by (eexists; apply Hown; left).
    assert (size own ≠ 0)%nat; [|lia]. intros Hz%map_size_empty_inv. subst own.
    pose proof (Hown k i ltac:(left)) as Hx. by rewrite lookup_empty in Hx.
  - intros k' i' Hin. rewrite lookup_delete_ne; [apply Hown; by right|].
    intros <-. apply Hk, list_elem_of_fmap. by exists (k, i').
Qed.
(** Which records a sweep at [now] expires, in each lane. *)
Definition expired l (now : Z) (r : rec_t) : bool :=
  if is_expanse l then (r_born_ms r) mod 2 ^ 24 <=? (now + 1000) mod 2 ^ 24
  else r_born_ms r +w TTL_MS <=? now +w TTL_MS +w 1000.

Lemma tk_of_val born q : tk_of born q = (born mod 2 ^ 24) * 256 + q mod 256.
Proof.
  unfold tk_of. rewrite Z.shiftl_mul_pow2 by lia. unfold u32. change (2 ^ 32) with (2 ^ 24 * 2 ^ 8).
  rewrite Z.mul_mod_distr_r by lia. change 255 with (Z.ones 8). rewrite Z.land_ones by lia.
  rewrite lor_low; [done|lia|]. apply Z.mod_pos_bound. lia.
Qed.
Lemma sweep_cutoff now : now +w TTL_MS +w 1000 -w TTL_MS = u32 (now + 1000).
Proof.
  unfold u32, TTL_MS. rewrite Zplus_mod_idemp_l, Zminus_mod_idemp_l. f_equal. lia.
Qed.
Lemma u32_mod24 z : u32 z mod 2 ^ 24 = z mod 2 ^ 24.
Proof. unfold u32. apply (Z.mod_mod_divide z (2 ^ 32) (2 ^ 24)). by exists (2 ^ 8). Qed.
Lemma tk_expired now born q :
  (tk_of born q <=? tk_of (now +w TTL_MS +w 1000 -w TTL_MS) 255) = (born mod 2 ^ 24 <=? (now + 1000) mod 2 ^ 24).
Proof.
  rewrite sweep_cutoff, !tk_of_val, u32_mod24. change (255 mod 256) with 255.
  pose proof (Z.mod_pos_bound q 256). apply eq_true_iff_eq. rewrite !Z.leb_le. lia.
Qed.

(** The Expanse lane's sweep, up to the update of the by-time index. *)
Lemma tri_expanse_sweep n l tbl own bt now :
  is_expanse l = true → mid n 0 l tbl own → by_time l = Some bt → owned_by l tbl own →
  tri l true (expanse_sweep cyc bt (tk_of (now +w TTL_MS +w 1000 -w TTL_MS) 255)) (λ x l' on', on' = true ∧
    ∃ bt' l1 tbl' own', l' = set_by_time (Some bt') l1 ∧ swept_from l l1 ∧ mid n 0 l' tbl' own' ∧ owned_by l' tbl' own' ∧
      recs l' own' = filter (λ e, expired l now e.2 = false) (recs l own) ∧
      x = u32 (Z.of_nat (size own) - Z.of_nat (size own'))).
Proof.
  intros He Hm Hbt Ho w Hw. unfold owned_by in Ho. rewrite He in Ho. destruct Ho as (bt0 & Hbt0 & Hget & Hkey).
  rewrite Hbt in Hbt0. injection Hbt0 as <-. set (hi := tk_of _ _). set (es := sl_range 0 hi (entries bt)).
  assert (sorted es) as Hsorted by (apply sorted_sl_range, entries_sorted).
  assert (∀ k i, (k, i) ∈ es → own !! k = Some i) as Hown.
  { intros k i Hin. rewrite <- Hget. apply get_elem. by apply elem_of_sl_range in Hin as [_ ?]. }
  pose proof (sorted_NoDup _ Hsorted) as Hnd.
  destruct (expanse_visit n es l tbl own 0 w Hw He Hm Hnd Hown) as (w1 & l1 & tbl1 & Hrun & Hw1 & Hsw & Hm1 & Hr1).
  set (own1 := drop_keys es own) in *.
  assert (∀ k, own1 !! k = if decide (k ∈ es.*1) then None else own !! k) as Hown1
    by (intros k; apply (foldl_delete_lookup es own k)).
  assert (∀ k i, own !! k = Some i → k ∈ es.*1 ↔ 0 <= k <= hi) as Hin.
  { intros k i Hk. rewrite list_elem_of_fmap. split.
    - intros ([k' i'] & -> & [Hr _]%elem_of_sl_range). exact Hr.
    - intros Hr. exists (k, i). split; [done|]. apply elem_of_sl_range. split; [done|]. apply get_elem. by rewrite Hget. }
  unfold expanse_sweep. fold sweep_visit.
  pose proof (remove_range_visits _ bt 0 hi sweep_visit (Some (0, w))) as Hv.
  pose proof (entries_remove_range _ bt 0 hi sweep_visit (Some (0, w))) as Hent.
  change (Some (u32 0, w)) with (Some (0, w)) in Hrun. fold es in Hv. rewrite Hrun in Hv.
  change (λ tk idx ow, '(removed, w) ← ow; expanse_sweep_cb cyc tk idx removed w) with sweep_visit.
  destruct (expanse_map_remove_range bt 0 hi sweep_visit (Some (0, w))) as [[bt' rr] c]. cbn [fst snd] in Hv, Hent. subst rr.
  cbn [mbind option_bind].
  assert (tri l1 true (upd (set_by_time (Some bt')) ≫= λ _, mret (u32 (0 + Z.of_nat (length es))))
            (λ x l' on', on' = true ∧ l' = set_by_time (Some bt') l1 ∧ x = u32 (0 + Z.of_nat (length es)))) as Htri.
  { st. apply tri_upd; [|by st]. intros _. destruct Hm1 as [Hs1 Ht1 Htb1 _ _]. apply (good_table _ tbl1); [exact Htb1|].
    exact (tracked_slots_ok _ _ _ Hs1 Ht1). }
  destruct (Htri w1 Hw1) as (x & w2 & l2 & on2 & Hrun2 & Hw2 & -> & -> & ->).
  exists (u32 (0 + Z.of_nat (length es))), w2, (set_by_time (Some bt') l1), true. split; [exact Hrun2|]. split; [done|].
  split; [done|]. exists bt', l1, tbl1, own1. split; [done|]. split; [done|].
  assert (is_expanse l1 = true) as He1 by (destruct Hsw as (? & ? & ? & ? & ? & ? & ->); exact He).
  assert (∀ k, recs l1 own1 !! k = if decide (k ∈ es.*1) then None else recs l own !! k) as Hlook
    by (intros k; rewrite Hr1; apply foldl_delete_lookup).
  split; [destruct Hm1; constructor; [by apply (slots_ok_conv l1)|done..]|]. split; [|split].
  - unfold owned_by. cbn -[slab]. rewrite He1. exists bt'. split; [done|]. split.
    + intros k. apply option_eq. intros i. rewrite get_elem, Hent, elem_of_sl_outside, <- get_elem, Hget. cbn [fst].
      rewrite Hown1. split.
      * intros [Hout Hk]. rewrite decide_False; [done|]. by rewrite (Hin k i).
      * case_decide as Hd; [done|]. intros Hk. split; [|done]. by rewrite <- (Hin k i).
    + intros k i r Hk Hr. change (arr_get (slab l1) i = Some r) in Hr.
      assert (recs l own !! k = Some r) as Hrk.
      { pose proof (Hlook k) as Hx. unfold recs at 1 in Hx. rewrite lookup_omap, Hk in Hx. simpl in Hx.
        rewrite Hr in Hx. case_decide; done. }
      rewrite Hown1 in Hk. case_decide; [done|].
      apply (Hkey k i); [done|]. unfold recs in Hrk. by rewrite lookup_omap, Hk in Hrk.
  - change (recs (set_by_time _ l1) own1) with (recs l1 own1). apply map_eq. intros k. rewrite Hlook.
    apply option_eq. intros r. rewrite map_lookup_filter_Some. cbn [snd]. unfold expired. rewrite He.
    destruct (recs l own !! k) as [r'|] eqn:Hrk; [|case_decide; naive_solver].
    unfold recs in Hrk. rewrite lookup_omap in Hrk. destruct (own !! k) as [i|] eqn:Hk; [|done]. simpl in Hrk.
    destruct (Hkey k i r' Hk Hrk) as [q Hq]. pose proof (tk_expired now (r_born_ms r') q) as Hexp. rewrite <- Hq in Hexp.
    fold hi in Hexp. pose proof (Hin k i Hk) as Hiff.
    assert (0 <= k) as Hk0.
    { rewrite Hq, tk_of_val. pose proof (Z.mod_pos_bound (r_born_ms r') (2 ^ 24)). pose proof (Z.mod_pos_bound q 256). lia. }
    case_decide as Hd; split.
    + done.
    + intros [[= ->] Hx]. rewrite <- Hexp, Z.leb_gt in Hx. apply Hiff in Hd. lia.
    + intros [= ->]. split; [done|]. rewrite <- Hexp, Z.leb_gt. destruct (Z.lt_ge_cases hi k); [done|]. destruct Hd. apply Hiff. lia.
    + by intros [[= ->] _].
  - f_equal. unfold own1. rewrite (size_drop_keys es own Hnd Hown). lia.
Qed.

(** *** The hash lane *)
(** One level of masking, and the NVIC bit that goes with it. *)
Definition mstate l on (k : Z) : Prop := loop_ok k (loop l) ∧ (k = 0 ∧ on = true ∨ k = 1 ∧ on = false).
Lemma tracked_fresh now : now +w TTL_MS +w 1000 < TRACK_BORN + TTL_MS → (TRACK_BORN +w TTL_MS >? now +w TTL_MS +w 1000) = true.
Proof. intros Hn. rewrite Z.gtb_ltb. apply Z.ltb_lt. exact Hn. Qed.

Lemma tri_hash_expired n l on k tbl own id idx removed now :
  is_expanse l = false → mode l = HASH_MASK_WHOLE ∧ k = 1 ∨ mode l = HASH_MASK_PER_WRITE →
  mstate l on k → mid n k l tbl own → hash_own tbl own → tbl !! id = Some idx →
  now +w TTL_MS +w 1000 < TRACK_BORN + TTL_MS →
  tri l on (hash_expired cyc id idx (now +w TTL_MS +w 1000) removed) (λ x l' on',
    if (x.1 : bool) then
      x.2 = removed +w 1 ∧ on' = false ∧ loop_ok 1 (loop l') ∧ untracked id ∧
      (∃ sl fs ft p, l' = set_free_top ft (set_free_stack fs (set_slab sl (set_loop p l)))) ∧
      slots_ok l' (delete id own) ∧ tracked_slots l' tbl ∧ recs l' (delete id own) = delete id (recs l own) ∧
      ∃ r, recs l own !! id = Some r ∧ expired l now r = true
    else
      x.2 = removed ∧ (∃ p, l' = set_loop p l) ∧
      (∃ k', mstate l' on' k' ∧ (mode l = HASH_MASK_WHOLE ∧ k' = 1 ∨ mode l = HASH_MASK_PER_WRITE)) ∧
      (untracked id → ∃ r, recs l own !! id = Some r ∧ expired l now r = false)).
Proof.
  intros He Hmode [Hlo Hk] [Hs Ht Htb Hr _] [Hown Hkinds] Hid Hnow. unfold hash_expired. st.
  pose proof (Hkinds _ _ Hid) as Hkind.
  pose proof (tracked_slots_ok _ _ _ Hs Ht) as Hok.
  (* the optional unmask *)
  apply (tri_mono _ _ _ (λ _ l' on', ∃ p k', l' = set_loop p l ∧ mstate l' on' k' ∧
     (mode l = HASH_MASK_WHOLE ∧ k' = 1 ∧ on' = false ∨ mode l = HASH_MASK_PER_WRITE ∧ k' = 0 ∧ on' = true))).
  { destruct Hmode as [[Hm ->]|Hm]; rewrite Hm; cbn [Z.eqb HASH_MASK_WHOLE HASH_MASK_PER_WRITE Pos.eqb andb].
    - st. destruct Hk as [[? _]|[_ ->]]; [lia|]. exists (loop l), 1. split; [by destruct l|]. split; [split; [done|by right]|by left].
    - destruct Hk as [[-> ->]|[-> ->]]; rewrite (lo_masked _ _ Hlo).
      + change (negb (0 =? 0)) with false. cbv iota. st. exists (loop l), 0. split; [by destruct l|]. split; [split; [done|by left]|by right].
      + change (negb (1 =? 0)) with true. cbv iota. apply tri_unmask; [done..|]. intros p Hp.
        exists p, 0. split; [done|]. split; [split; [done|by left]|by right]. }
  intros [] l1 on1 (p & k' & -> & [Hlo1 Hk1] & Hm1). st.
  assert (∃ r, arr_get (slab l) idx = Some r ∧ (untracked id → recs l own !! id = Some r) ∧
            (¬ untracked id → r_born_ms r = TRACK_BORN)) as (r & Hrec & Hun & Htr).
  { destruct Hkind as [Hu|(d & Hd & ->)].
    - assert (own !! id = Some idx) as Ho by (by rewrite Hown, decide_True).
      destruct (so_own _ _ Hs id idx Ho) as (_ & _ & r & Hrec & _). exists r. split; [done|]. split; [|done].
      intros _. unfold recs. by rewrite lookup_omap, Ho.
    - destruct (Ht d Hd) as (_ & i & r & _ & Hi & Hrec & _ & Hborn). rewrite Hid in Hi. injection Hi as <-.
      exists r. split; [done|]. split; [|done]. intros Hx. destruct (TRACK_bad d); [lia|done]. }
  rewrite Hrec. st. destruct (_ >? _) eqn:Hgt.
  { st. split; [done|]. split; [by exists p|]. split; [exists k'; split; [by split|naive_solver]|].
    intros Hu. exists r. split; [by apply Hun|]. unfold expired. rewrite He. apply Z.leb_gt. by rewrite Z.gtb_lt in Hgt. }
  assert (untracked id) as Hu.
  { destruct (decide (untracked id)) as [|Hnu]; [done|]. rewrite (Htr Hnu), tracked_fresh in Hgt by done. done. }
  assert (own !! id = Some idx) as Ho by (by rewrite Hown, decide_True).
  destruct (so_own _ _ Hs id idx Ho) as (Hi & Hb & _).
  set (l1 := set_loop p l) in *. st.
  pose proof (delete_fresh own id idx (so_inj _ _ Hs) Ho) as Hf.
  apply (tri_slot_free l1 on1 (delete id own) tbl idx).
  - apply (slots_ok_conv l); [done..|]. by apply slots_ok_delete.
  - exact Htb.
  - exact Hok.
  - exact Hi.
  - exact Hb.
  - exact Hf.
  - intros d Hd Hx. apply Hb. exact (tracked_busy l tbl d idx Ht Hd Hx).
  - intros sl fs l2 Hs2 Hok2 Hsl. st.
    assert (tracked_slots l2 tbl) as Ht2.
    { apply (tracked_slots_outside l1 tbl idx sl Ht Hsl). intros Hx. by apply Hb, busy_tracked. }
    assert (recs l2 (delete id own) = delete id (recs l own)) as Hrecs.
    { rewrite <- recs_delete. by apply (recs_outside l1 _ idx sl). }
    assert (expired l now r = true) as Hexp.
    { unfold expired. rewrite He. apply Z.leb_le. rewrite Z.gtb_ltb in Hgt. by apply Z.ltb_ge in Hgt. }
    destruct Hm1 as [(Hm & -> & ->)|(Hm & -> & ->)]; rewrite Hm;
      cbn [Z.eqb HASH_MASK_WHOLE HASH_MASK_PER_WRITE Pos.eqb].
    + st. split; [done|]. split; [done|]. split; [done|]. split; [done|].
      split; [by exists sl, fs, (free_top l1 + 1), p|]. split; [done|]. split; [done|]. split; [done|].
      exists r. split; [by apply Hun|done].
    + st. apply tri_mask; [done|done|intros _; by apply (good_table _ tbl)|]. intros p2 Hp2. st.
      split; [done|]. split; [done|]. split; [done|]. split; [done|].
      split; [by exists sl, fs, (free_top l1 + 1), p2|]. split; [by apply (slots_ok_conv l2)|].
      split; [done|]. split; [done|]. exists r. split; [by apply Hun|done].
Qed.

(** What is left of the records [R0] by a sweep under way. *)
Definition left_of (l : lane) now (R0 R : gmap Z rec_t) : Prop :=
  ∀ k, R !! k = R0 !! k ∨ R !! k = None ∧ ∃ r, R0 !! k = Some r ∧ expired l now r = true.
Definition scanned (l : lane) now (h : ohash) (i : Z) (R : gmap Z rec_t) : Prop :=
  ∀ j, 0 <= j < i → real (key_at (okeys h) j) → untracked (key_at (okeys h) j) →
    ∃ r, R !! key_at (okeys h) j = Some r ∧ expired l now r = false.
Lemma scanned_next l now h i R :
  scanned l now h i R →
  (real (key_at (okeys h) i) → untracked (key_at (okeys h) i) →
     ∃ r, R !! key_at (okeys h) i = Some r ∧ expired l now r = false) →
  scanned l now h (i + 1) R.
Proof. intros Hs Hi j Hj. destruct (decide (j = i)) as [->|]; [apply Hi|apply Hs; lia]. Qed.
Lemma scanned_drop l now h i ks n' R :
  oh_inv h → 0 <= i < mask h + 1 → real (key_at (okeys h) i) → arr_set (okeys h) i OH_TOMB = Some ks →
  scanned l now h i R →
  scanned l now (Ohash ks (ovals h) (mask h) n' (used h)) (i + 1) (delete (key_at (okeys h) i) R).
Proof.
  intros Hi Hr Hreal Hset Hs j Hj. cbn [okeys]. rewrite (key_at_set _ _ _ _ _ Hset).
  case_decide as Hd; [by intros ?%not_real_tomb|]. intros Hrj Huj. destruct (Hs j) as (r & Hx & He); [lia|done..|].
  exists r. split; [|done]. rewrite lookup_delete_ne; [done|]. intros Heq. apply Hd.
  apply (pi_unique _ _ (oi_probe h Hi)); [lia|lia|done|done].
Qed.
Lemma left_of_delete l now R0 R k r :
  left_of l now R0 R → R !! k = Some r → expired l now r = true → left_of l now R0 (delete k R).
Proof.
  intros Hl Hk He k'. destruct (decide (k = k')) as [<-|Hne].
  - right. rewrite lookup_delete_eq. split; [done|]. exists r. split; [|done]. destruct (Hl k) as [<-|[? _]]; [done|congruence].
  - rewrite lookup_delete_ne by done. apply Hl.
Qed.

(** The state at a slot boundary of the hash lane's scan; [l0] and [R0] at its start. *)
Record scan_inv (n : Z) l0 now (R0 : gmap Z rec_t) (own0 : gmap Z Z) (i : Z) (x : Z)
    l on (tbl own : gmap Z Z) (h : ohash) (k : Z) : Prop := {
  sc_hash : hash l = Some h;
  sc_from : swept_from l0 l;
  sc_lane : is_expanse l = false;
  sc_mode : mode l = HASH_MASK_WHOLE ∧ k = 1 ∨ mode l = HASH_MASK_PER_WRITE;
  sc_mask : mstate l on k;
  sc_mid : mid n k l tbl own;
  sc_own : hash_own tbl own;
  sc_left : left_of l0 now R0 (recs l own);
  sc_done : scanned l0 now h i (recs l own);
  sc_count : x = u32 (Z.of_nat (size own0) - Z.of_nat (size own));
}.
Lemma expired_conv l l' now r : is_expanse l' = is_expanse l → expired l' now r = expired l now r.
Proof. unfold expired. by intros ->. Qed.
Lemma table_hash l tbl h :
  is_expanse l = false → hash l = Some h → table l tbl → oh_inv h ∧ oh_rep h tbl ∧ used h < mask h + 1.
Proof. unfold table. intros -> Hh (h' & Hh' & Hx). congruence || (rewrite Hh in Hh'; by injection Hh' as <-). Qed.
Lemma swept_expanse l l' : swept_from l l' → is_expanse l' = is_expanse l.
Proof. by intros (? & ? & ? & ? & ? & ? & ->). Qed.
Lemma size_own_delete (own : gmap Z Z) k i :
  own !! k = Some i → Z.of_nat (size (delete k own)) = Z.of_nat (size own) - 1.
Proof.
  intros Hk. rewrite map_size_delete_Some by (by eexists).
  assert (size own ≠ 0)%nat; [|lia]. intros Hz%map_size_empty_inv. subst own. by rewrite lookup_empty in Hk.
Qed.

Lemma tri_hash_sweep_loop n l0 now R0 own0 m i x l on tbl own h k :
  now +w TTL_MS +w 1000 < TRACK_BORN + TTL_MS →
  scan_inv n l0 now R0 own0 i x l on tbl own h k → 0 <= i → i + Z.of_nat m = mask h + 1 →
  tri l on (hash_sweep_loop cyc m i (now +w TTL_MS +w 1000) x) (λ x' l' on',
    ∃ tbl' own' h' k', scan_inv n l0 now R0 own0 (mask h' + 1) x' l' on' tbl' own' h' k').
Proof.
  intros Hnow. revert i x l on tbl own h k. induction m as [|m IH]; intros i x l on tbl own h k Hsc Hi0 Him; cbn [hash_sweep_loop].
  { st. exists tbl, own, h, k. by replace (mask h + 1) with i by lia. }
  pose proof Hsc as [Hh Hfrom He Hmode Hms Hmid Hown Hleft Hdone Hcnt].
  st. rewrite Hh. st. destruct (table_hash l tbl h He Hh (mi_table _ _ _ _ _ Hmid)) as (Hinv & Hrep & Hus).
  pose proof (oi_shape h Hinv) as Hsh.
  rewrite (key_at_get _ _ _ Hsh i) by lia. st. set (c := key_at (okeys h) i) in *.
  assert (¬ real c → tri l on (hash_sweep_loop cyc m (i + 1) (now +w TTL_MS +w 1000) x) (λ x' l' on',
    ∃ tbl' own' h' k', scan_inv n l0 now R0 own0 (mask h' + 1) x' l' on' tbl' own' h' k')) as Hskip.
  { intros Hnr. apply (IH (i + 1) x l on tbl own h k); [|lia..]. constructor; try done.
    apply scanned_next; [done|]. by intros ?%Hnr. }
  assert (c = OH_EMPTY ∨ c = OH_TOMB ∨ real c) as [Hc|[Hc|Hreal]] by (apply (pi_kind _ _ (oi_probe h Hinv)); lia).
  { rewrite Hc. apply Hskip. rewrite Hc. apply not_real_empty. }
  { rewrite Hc. apply Hskip. rewrite Hc. apply not_real_tomb. }
  destruct (val_at h i Hinv) as [v Hv]; [lia|]. pose proof Hreal as (_ & Hne & Hnt).
  rewrite (proj2 (Z.eqb_neq _ _) Hne), (proj2 (Z.eqb_neq _ _) Hnt). cbn [negb andb]. st. rewrite Hv. st.
  assert (tbl !! c = Some v) as Htc by (apply Hrep; split; [done|]; exists i; split; [lia|done]).
  eapply tri_mono; [by eapply (tri_hash_expired n l on k tbl own c v x now)|]. cbv beta.
  intros [[] x'] l1 on1; cbn [fst snd].
  - intros (-> & -> & Hlo1 & Hun & (sl & fs & ft & p & Heq) & Hs1 & Ht1 & Hr1 & r & Hrc & Hexp).
    assert (hash l1 = Some h ∧ is_expanse l1 = false ∧ mode l1 = mode l ∧ growable l1 = growable l) as (Hh1 & He1 & Hm1 & Hg1) by (by subst l1).
    st. rewrite Hh1. st. destruct (arr_set (okeys h) i OH_TOMB) as [ks|] eqn:Hset;
      [|rewrite arr_set_Some in Hset by (rewrite (ts_keys _ _ _ Hsh); lia); done].
    destruct (drop_slot h tbl i ks Hinv Hrep) as [Hinv' Hrep']; [lia|done|done|]. fold c in Hrep'.
    st. apply tri_bracket; [done|]. st. set (h' := Ohash ks _ _ _ _) in *.
    apply tri_upd; [done|].
    assert (own !! c = Some v) as Hoc by (rewrite (proj1 Hown), decide_True by done; done).
    apply (IH (i + 1) (x +w 1) _ false (delete c tbl) (delete c own) h' 1); [|lia|cbn; lia].
    constructor; try done.
    + eapply swept_trans; [exact Hfrom|]. subst l1. by exists (sync l), (Some h'), p, sl, fs, ft.
    + cbn. rewrite Hm1. destruct Hmode as [[-> _]| ->]; [by left|by right].
    + split; [done|by right].
    + constructor; [by apply (slots_ok_conv l1)|by apply (tracked_slots_delete l1)| | |done].
      * unfold table. cbn. rewrite He1. by exists h'.
      * pose proof (mi_room _ _ _ _ _ Hmid) as Hroom. unfold room in *. cbn. rewrite He1, Hg1. rewrite He in Hroom.
        intros ? [= <-]. exact (Hroom h Hh).
    + by apply hash_own_delete.
    + change (recs (set_hash _ l1) (delete c own)) with (recs l1 (delete c own)). rewrite Hr1.
      eapply left_of_delete; [done|exact Hrc|]. by rewrite <- (expired_conv l0 l) by (by apply swept_expanse).
    + change (recs (set_hash _ l1) (delete c own)) with (recs l1 (delete c own)). rewrite Hr1.
      apply scanned_drop; [done|lia|done..].
    + rewrite Hcnt, (size_own_delete own c v Hoc). unfold u32. rewrite Zplus_mod_idemp_l. f_equal. lia.
  - intros (-> & (p & ->) & (k' & Hms1 & Hm1) & Hun). st1. st1.
    apply (IH (i + 1) x _ on1 tbl own h k'); [|lia..]. constructor; try done.
    + eapply swept_trans; [exact Hfrom|]. by exists (sync l), (hash l), p, (slab l), (free_stack l), (free_top l).
    + destruct Hmid. constructor; try done; [by apply (slots_ok_conv l)|]. by destruct Hms1.
    + apply scanned_next; [done|]. intros _ Hu. destruct (Hun Hu) as (r & Hr & Hx). exists r. split; [exact Hr|].
      by rewrite <- (expired_conv l0 l) by (by apply swept_expanse).
Qed.

Lemma scan_end n l0 now R0 own0 x l on tbl own h k :
  scan_inv n l0 now R0 own0 (mask h + 1) x l on tbl own h k →
  recs l own = filter (λ e, expired l0 now e.2 = false) R0.
Proof.
  intros Hsc. pose proof Hsc as [Hh _ He _ _ Hmid [Hown Hkinds] Hleft Hdone _].
  destruct (table_hash l tbl h He Hh (mi_table _ _ _ _ _ Hmid)) as (Hinv & Hrep & _).
  assert (∀ k r, recs l own !! k = Some r → expired l0 now r = false) as Hsurv.
  { intros key r Hr. unfold recs in Hr. rewrite lookup_omap in Hr. destruct (own !! key) as [i|] eqn:Hi; [|done].
    simpl in Hr. pose proof Hi as Hi'. rewrite Hown in Hi'. destruct (decide (untracked key)) as [Hu|]; [|done].
    apply Hrep in Hi' as (Hreal & j & Hj & Hkj & _). destruct (Hdone j Hj) as (r' & Hr' & Hx); [by rewrite Hkj..|].
    rewrite Hkj in Hr'. unfold recs in Hr'. rewrite lookup_omap, Hi in Hr'. simpl in Hr'. congruence. }
  apply map_eq. intros key. apply option_eq. intros r. rewrite map_lookup_filter_Some. cbn [snd].
  destruct (Hleft key) as [Heq|[Hnone (r' & Hr0 & Hx)]].
  - rewrite <- Heq. split; [intros Hr; split; [done|by eapply Hsurv]|by intros [? _]].
  - rewrite Hnone, Hr0. split; [done|]. intros [[= <-] ?]. congruence.
Qed.
Lemma left_of_refl l now R : left_of l now R R.
Proof. intros k. by left. Qed.

Lemma tri_hash_sweep n l on k tbl own now :
  now +w TTL_MS +w 1000 < TRACK_BORN + TTL_MS → is_expanse l = false →
  mode l = HASH_MASK_WHOLE ∧ k = 1 ∨ mode l = HASH_MASK_PER_WRITE → mstate l on k → mid n k l tbl own → hash_own tbl own →
  tri l on (hash_sweep cyc (now +w TTL_MS +w 1000)) (λ x l' on', ∃ tbl' own' k',
    swept_from l l' ∧ mstate l' on' k' ∧ (mode l = HASH_MASK_WHOLE ∧ k' = 1 ∨ mode l = HASH_MASK_PER_WRITE) ∧
    mid n k' l' tbl' own' ∧ hash_own tbl' own' ∧
    recs l' own' = filter (λ e, expired l now e.2 = false) (recs l own) ∧
    x = u32 (Z.of_nat (size own) - Z.of_nat (size own'))).
Proof.
  intros Hnow He Hmode Hms Hmid Hown. unfold hash_sweep. st. pose proof (mi_table _ _ _ _ _ Hmid) as Htb.
  assert (∃ h, hash l = Some h) as [h Hh] by (unfold table in Htb; rewrite He in Htb; destruct Htb as (h & Hh & _); by exists h).
  destruct (table_hash l tbl h He Hh Htb) as (Hinv & _). pose proof (n_pos _ _ _ (oi_shape h Hinv)).
  rewrite Hh. st. eapply tri_mono.
  - eapply (tri_hash_sweep_loop n l now (recs l own) own _ 0 0 l on tbl own h k); [done| |lia|lia].
    constructor; try done.
    + apply swept_refl.
    + apply left_of_refl.
    + intros j Hj. lia.
    + by rewrite Z.sub_diag.
  - cbv beta. intros x l1 on1 (tbl1 & own1 & h1 & k1 & Hsc). pose proof (scan_end _ _ _ _ _ _ _ _ _ _ _ _ Hsc) as Hend.
    destruct Hsc. exists tbl1, own1, k1. split; [done|]. split; [done|].
    split; [|done]. destruct sc_from0 as (? & ? & ? & ? & ? & ? & ->). exact sc_mode0.
Qed.

(** The end of a sweep: the instruments, the count, the retired slots. *)
Lemma tri_sweep_tail n l tbl own x us_ net :
  mid (Z.of_nat n) 0 l tbl own → owned_by l tbl own → masks l → is_u32 (rng l) ∧ rng l ≠ 0 →
  (is_expanse l = false → draws_real n (rng l)) →
  tri l true
    (upd (on_loop (λ p, set_sweep_removed x (set_sweep_net_us net (set_sweep_us us_ p)))) ≫= λ _,
     upd (λ l, set_count (count l -w x) l) ≫= λ _,
     the_lane ≫= λ l, free_retired (Z.to_nat (retire_n l)) 0 ≫= λ _, upd (set_retire_n 0))
    (λ _ l' on', on' = true ∧ is_expanse l' = is_expanse l ∧ lane_inv n l' tbl own ∧ recs l' own = recs l own ∧
       count l' = count l -w x ∧ retire_n l' = 0).
Proof.
  intros [Hs Ht Htb Hr Hl] Ho Hm Hu Hd.
  assert (good l) as Hg by (eapply good_table; [done|by eapply tracked_slots_ok]).
  st. apply tri_upd; [intros _; exact Hg|]. st. apply tri_upd; [intros _; exact Hg|]. st.
  set (l1 := set_count _ _). pose proof (so_retire _ _ Hs). pose proof (so_retire_n _ _ Hs).
  eapply tri_mono.
  - apply (tri_free_retired _ 0 l1 own tbl); [|exact Htb|exact Ht|cbn; lia|lia|cbn; lia].
    apply (slots_ok_conv l); [done..| | |done|done]; cbn; [by rewrite app_nil_r|lia].
  - cbv beta. intros [] l2 on2 (-> & (sl & fs & ft & Heq) & Hs2 & Ht2 & Hr2).
    assert (slots_ok (set_retire_n 0 l2) own) as Hs3.
    { assert (busy (set_retire_n 0 l2) = busy (unretire (retire_n l1) l2)) as Hb.
      { unfold busy, retired, unretire. cbn [retire_n set_retire_n set_retire retire].
        replace (retire_n l2 - retire_n l1) with 0 by (subst l2; cbn; lia). done. }
      destruct Hs2. constructor; rewrite ?Hb; try done; subst l2; cbn in *; lia. }
    apply tri_upd; [intros _; apply (good_table _ tbl); [subst l2; exact Htb|exact (tracked_slots_ok _ _ _ Hs3 Ht2)]|].
    split; [done|]. split; [by subst l2|]. split; [|split; [exact Hr2|by subst l2]].
    constructor; [exact Hs3|exact Ht2|by subst l2| |by subst l2| |by subst l2|by subst l2|by subst l2].
    + unfold owned_by in *. replace (is_expanse (set_retire_n 0 l2)) with (is_expanse l) by (by subst l2).
      destruct (is_expanse l); [|exact Ho]. destruct Ho as (bt & Hbt & Hget & Hkey). exists bt.
      split; [by subst l2|]. split; [done|]. intros k i r Hk Hr'.
      assert (recs l own !! k = Some r) as Hrk.
      { change (recs l own) with (recs l1 own). rewrite <- Hr2. unfold recs. by rewrite lookup_omap, Hk. }
      apply (Hkey k i); [done|]. unfold recs in Hrk. by rewrite lookup_omap, Hk in Hrk.
    + subst l2. destruct Hl. by constructor.
Qed.

Lemma recs_size l own : slots_ok l own → size (recs l own) = size own.
Proof.
  intros Hs. rewrite <- !size_dom. f_equal. apply set_eq. intros k. rewrite !elem_of_dom. unfold recs. rewrite lookup_omap.
  split.
  - intros [r Hr]. destruct (own !! k); [by eexists|done].
  - intros [i Hi]. destruct (so_own _ _ Hs k i Hi) as (_ & _ & r & Hr & _). exists r. by rewrite Hi.
Qed.
(** What a sweep leaves behind. *)
Definition sweep_post (n : nat) l own now : unit → lane → bool → Prop := λ _ l' on',
  on' = true ∧ is_expanse l' = is_expanse l ∧ ∃ tbl' own', lane_inv n l' tbl' own' ∧
    recs l' own' = filter (λ e, expired l now e.2 = false) (recs l own) ∧
    count l' = count l -w u32 (Z.of_nat (size (recs l own)) - Z.of_nat (size (recs l' own'))) ∧ retire_n l' = 0.

Lemma sweep_finish n l l1 own now x tbl1 own1 us_ net :
  mid (Z.of_nat n) 0 l1 tbl1 own1 → owned_by l1 tbl1 own1 →
  is_expanse l1 = is_expanse l ∧ mode l1 = mode l ∧ rng l1 = rng l ∧ count l1 = count l →
  recs l1 own1 = filter (λ e, expired l now e.2 = false) (recs l own) →
  x = u32 (Z.of_nat (size own) - Z.of_nat (size own1)) → slots_ok l own →
  masks l → is_u32 (rng l) ∧ rng l ≠ 0 → (is_expanse l = false → draws_real n (rng l)) →
  tri l1 true
    (upd (on_loop (λ p, set_sweep_removed x (set_sweep_net_us net (set_sweep_us us_ p)))) ≫= λ _,
     upd (λ l, set_count (count l -w x) l) ≫= λ _,
     the_lane ≫= λ l, free_retired (Z.to_nat (retire_n l)) 0 ≫= λ _, upd (set_retire_n 0))
    (sweep_post n l own now).
Proof.
  intros Hm Ho (He & Hmo & Hrn & Hc) Hr Hx Hs Hmk Hu Hd. eapply tri_mono.
  - apply (tri_sweep_tail n l1 tbl1 own1); [done|done| |by rewrite Hrn|by rewrite He, Hrn].
    unfold masks in *. by rewrite He, Hmo.
  - cbv beta. intros [] l2 on2 (-> & He2 & Hinv & Hr2 & Hc2 & Hn2). split; [done|]. split; [by rewrite He2|].
    exists tbl1, own1. split; [done|]. split; [by rewrite Hr2|]. split; [|done].
    rewrite Hc2, Hc, Hx, (recs_size l own Hs), (recs_size l2 own1); [done|]. by destruct Hinv.
Qed.
Lemma swept_frame l l1 : swept_from l l1 → is_expanse l1 = is_expanse l ∧ mode l1 = mode l ∧ rng l1 = rng l ∧ count l1 = count l.
Proof. by intros (? & ? & ? & ? & ? & ? & ->). Qed.

Lemma tri_lane_sweep n l tbl own now i0 i1 :
  lane_inv n l tbl own → (is_expanse l = false → now +w TTL_MS +w 1000 < TRACK_BORN + TTL_MS) →
  tri l true (lane_sweep cyc now i0 i1) (sweep_post n l own now).
Proof.
  intros Hinv Hnow. pose proof (li_good _ _ _ _ Hinv) as Hg. destruct Hinv as [Hs Ht Htb Ho Hr Hl Hm Hu Hd].
  assert (mid (Z.of_nat n) 0 l tbl own) as Hmid by (by constructor).
  unfold lane_sweep. st. destruct (is_expanse l) eqn:He.
  - unfold owned_by in Ho. rewrite He in Ho. pose proof Ho as (bt & Hbt & _). rewrite Hbt. st.
    eapply tri_mono; [eapply (tri_expanse_sweep (Z.of_nat n) l tbl own bt now); [done..|unfold owned_by; by rewrite He]|].
    cbv beta. intros x l1 on1 (-> & bt' & l0 & tbl1 & own1 & -> & Hsw & Hmid1 & Ho1 & Hr1 & Hx). st1. st1.
    apply (sweep_finish n l _ own now x tbl1 own1); try done; [by apply (swept_frame l l0)|by rewrite He].
  - specialize (Hnow eq_refl). unfold owned_by in Ho. rewrite He in Ho.
    assert (∀ l1 x tbl1 own1, swept_from l l1 → mid (Z.of_nat n) 0 l1 tbl1 own1 → hash_own tbl1 own1 →
      recs l1 own1 = filter (λ e, expired l now e.2 = false) (recs l own) →
      x = u32 (Z.of_nat (size own) - Z.of_nat (size own1)) → ∀ us_ net,
      tri l1 true
    (upd (on_loop (λ p, set_sweep_removed x (set_sweep_net_us net (set_sweep_us us_ p)))) ≫= λ _,
     upd (λ l, set_count (count l -w x) l) ≫= λ _,
     the_lane ≫= λ l, free_retired (Z.to_nat (retire_n l)) 0 ≫= λ _, upd (set_retire_n 0))
    (sweep_post n l own now)) as Hfin.
    { intros l1 x tbl1 own1 Hsw Hmid1 Ho1 Hr1 Hx us_ net. pose proof (swept_frame _ _ Hsw) as (He1 & _).
      apply (sweep_finish n l _ own now x tbl1 own1); try done.
      - unfold owned_by. by rewrite He1, He.
      - by apply swept_frame.
      - by rewrite He. }
    destruct (Z.eqb_spec (mode l) HASH_MASK_WHOLE) as [Hmo|Hmo].
    + st. apply tri_mask; [done|done|by intros _|]. intros p Hp. st. set (l0 := set_loop p l).
      eapply tri_mono.
      { eapply (tri_hash_sweep (Z.of_nat n) l0 false 1 tbl own now); [done|done|by left| | |done].
        - split; [done|by right].
        - destruct Hmid. constructor; try done. by apply (slots_ok_conv l). }
      cbv beta. intros x l1 on1 (tbl1 & own1 & k1 & Hsw & [Hlo Hk] & [[_ ->]|Hmo'] & Hmid1 & Ho1 & Hr1 & Hx);
        [|change (mode l0) with (mode l) in Hmo'; rewrite Hmo in Hmo'; done].
      destruct Hk as [[? _]|[_ ->]]; [lia|]. st. pose proof (swept_expanse _ _ Hsw) as He1.
      apply tri_unmask; [by rewrite He1|done|]. intros p1 Hp1. do 3 st1.
      apply (Hfin (set_loop p1 l1) x tbl1 own1); try done.
      * eapply swept_trans; [|eapply swept_trans; [exact Hsw|]].
        -- by exists (sync l), (hash l), p, (slab l), (free_stack l), (free_top l).
        -- by exists (sync l1), (hash l1), p1, (slab l1), (free_stack l1), (free_top l1).
      * destruct Hmid1. constructor; try done. by apply (slots_ok_conv l1).
    + assert (mode l = HASH_MASK_PER_WRITE) as Hpw by (by destruct Hm as [?|[?|?]]; [congruence|..]). st.
      eapply tri_mono.
      { eapply (tri_hash_sweep (Z.of_nat n) l true 0 tbl own now); [done|done|by right| |done|done]. split; [done|by left]. }
      cbv beta. intros x l1 on1 (tbl1 & own1 & k1 & Hsw & [Hlo Hk] & _ & Hmid1 & Ho1 & Hr1 & Hx).
      st. pose proof (swept_expanse _ _ Hsw) as He1. rewrite (lo_masked _ _ Hlo).
      destruct Hk as [[-> ->]|[-> ->]].
      * change (negb (0 =? 0)) with false. cbv iota. do 4 st1. by apply (Hfin l1 x tbl1 own1).
      * change (negb (1 =? 0)) with true. cbv iota. apply tri_unmask; [by rewrite He1|done|]. intros p1 Hp1. do 3 st1.
        apply (Hfin (set_loop p1 l1) x tbl1 own1); try done.
        -- eapply swept_trans; [exact Hsw|]. by exists (sync l1), (hash l1), p1, (slab l1), (free_stack l1), (free_top l1).
        -- destruct Hmid1. constructor; try done. by apply (slots_ok_conv l1).
Qed.
End Proofs.
