(* ===== verification/LaneFill.v ===== *)
(** * Filling a lane

    [lane_fill] of [src/integrations/stm32h747/demo/CM7/Core/Src/lanes.c]: it
    rebuilds the lane's structures and registers the tracked devices and the
    records, after which the lane's invariant holds. *)
From stdpp Require Import base numbers list sorting gmap.
From S2P Require Import Prelude SortedAssoc ExpanseApi Sync32 Alts OpenHash OpenHashProofs OpenHashTheorems Lanes XorShift LanesProofs.
Open Scope Z_scope.

Section Fill.
  Context {S M : Type} `{Sync32Laws S} `{ExpanseMapLaws M}.
  Context (cyc : nat → Z) (us : Z * Z).
  Abbreviation lane := (@lane S M).
Implicit Types (l : lane) (on : bool).
  Context (B : Z).
  Hypothesis arena_holds : ∀ (s : S) k v,
    Z.of_nat (size (contents s)) < B → (sync32_try_insert s k v).1 ≠ EXPANSE_SYNC32_ARENA_FULL.

Ltac st1 :=
  lazymatch goal with
  | |- tri _ _ _ (mbind _ _) _ => apply tri_bind
  | |- tri _ _ _ (mret _) _ => apply tri_ret
  | |- tri _ _ _ the_lane _ => apply tri_lane
  | |- tri _ _ _ (cyccnt _) _ => apply tri_cyccnt; intros ?
  | |- tri _ _ _ (nvic_irq _) _ => apply tri_nvic
  | |- tri _ _ _ the_acct _ => apply tri_acct; intros ?
  | |- tri _ _ _ (lift (Some _)) _ => eapply tri_lift; [reflexivity|]
  | |- tri _ _ _ (put_acct _) _ => apply tri_put_acct
  end; cbv beta iota.
Ltac st := repeat st1.

(** ** The tracked devices *)
Lemma slots_ok_track t l own idx ti r sl :
  slots_ok t l own → (t < N_TRACKED)%nat → 0 <= idx < cap l → idx ∉ busy t l → (∀ k, own !! k ≠ Some idx) →
  arr_set (slab l) idx r = Some sl → arr_set (tracked_idx l) (Z.of_nat t) idx = Some ti →
  slots_ok (Datatypes.S t) (set_tracked_idx ti (set_slab sl l)) own.
Proof.
  intros Hs Ht Hi Hb Hf Hset Hti. pose proof (slots_ok_write t l own idx r sl Hs Hset (or_intror Hf)) as Hs1.
  pose proof (arr_set_length _ _ _ _ Hti) as Hlen. apply arr_set_inv in Hti as [Hr ->]. rewrite Nat2Z.id in *.
  set (l1 := set_tracked_idx _ _).
  assert (busy (Datatypes.S t) l1 ≡ₚ idx :: busy t (set_slab sl l)) as Hp.
  { unfold busy. change (free l1) with (free (set_slab sl l)). change (retired l1) with (retired (set_slab sl l)).
    change (tracked_idx l1) with (<[t := idx]> (tracked_idx l)).
    rewrite (take_S_r _ _ idx) by (apply list_lookup_insert_eq; lia). rewrite take_insert_ge by lia.
    change (tracked_idx (set_slab sl l)) with (tracked_idx l). solve_Permutation. }
  destruct Hs1. constructor; try done.
  - change (tracked_idx l1) with (<[t := idx]> (tracked_idx l)). rewrite Hlen. done.
  - rewrite Hp. constructor; [exact Hb|done].
  - intros i. rewrite Hp, elem_of_cons. intros [->|Hx]; [exact Hi|by apply so_range].
  - intros k i Hk. destruct (so_own k i Hk) as (Ha & Hb' & Hc). split; [done|]. split; [|done].
    rewrite Hp, not_elem_of_cons. split; [|done]. intros ->. by destruct (Hf k).
Qed.
Lemma tracked_slots_track t l tbl idx ti td sl :
  tracked_slots t l tbl → (t < N_TRACKED)%nat → idx ∉ take t (tracked_idx l) →
  arr_set (slab l) idx (Rec (TRACK t) TRACK_BORN 1) = Some sl →
  arr_set (tracked_idx l) (Z.of_nat t) idx = Some ti → arr_set (tracked_id l) (Z.of_nat t) (TRACK t) = Some td →
  tracked_slots (Datatypes.S t) (set_tracked_id td (set_tracked_idx ti (set_slab sl l))) (<[TRACK t := idx]> tbl).
Proof.
  intros Ht Ht4 Hn Hset [Hr ->]%arr_set_inv [Hr2 ->]%arr_set_inv d Hd. rewrite Nat2Z.id in *.
  cbn [tracked_idx tracked_id set_tracked_idx set_tracked_id slab set_slab].
  destruct (decide (t = d)) as [<-|Hne].
  - rewrite list_lookup_insert_eq by lia. split; [done|]. exists idx, (Rec (TRACK t) TRACK_BORN 1).
    rewrite list_lookup_insert_eq, lookup_insert_eq by lia. split; [done|]. split; [done|].
    split; [exact (arr_get_set_eq _ _ _ _ Hset)|done].
  - destruct (Ht d) as (Hid & i & r & Hti & Hi & Hr' & Hrr); [lia|]. rewrite list_lookup_insert_ne by done. split; [done|].
    exists i, r. rewrite list_lookup_insert_ne, lookup_insert_ne by (done || intros Hx%TRACK_inj; done).
    split; [done|]. split; [done|]. split; [|done]. change (arr_get sl i = Some r).
    rewrite (arr_get_set_ne _ _ i _ _ Hset); [done|]. intros ->. apply Hn, (list_elem_of_lookup_2 _ d).
    rewrite lookup_take_lt by lia. done.
Qed.

Lemma tri_fill_tracked n m t l on tbl :
  (t + m = N_TRACKED)%nat → lane_inv t B (m + n) l tbl ∅ → Z.of_nat m <= free_top l →
  length (tracked_id l) = N_TRACKED →
  tri 0 l on (fill_tracked cyc us m (Z.of_nat t)) (λ ok l' on', ok = true ∧ ∃ tbl',
    lane_inv N_TRACKED B n l' tbl' ∅ ∧ free_top l' = free_top l - Z.of_nat m ∧ count l' = count l
    ∧ is_expanse l' = is_expanse l).
Proof.
  revert t l on tbl. induction m as [|m IH]; intros t l on tbl Htm Hinv Hft Hlid; cbn [fill_tracked].
  { st. split; [done|]. exists tbl. replace N_TRACKED with t by lia. split_and!; (done || lia). }
  pose proof Hinv as [Hs Ht Htb Ho Hr Hl Hm Hu Hd]. assert (t < N_TRACKED)%nat as Htl by lia. st.
  apply (tri_slot_alloc 0 t ltac:(lia) ltac:(lia) l on ∅); [done|by apply (li_good 0 t ltac:(lia) ltac:(lia)) in Hinv|lia|].
  intros idx l1 Hs1 Hmax Hi Hb Hf. st. change (3235774464 + Z.of_nat t) with (TRACK t).
  pose proof (so_slab _ _ _ Hs1) as Hsl. pose proof (so_tracked _ _ _ Hs1) as Hti.
  change (cap l1) with (cap l) in *. change (tracked_id l1) with (tracked_id l).
  destruct (arr_set (slab l1) idx (Rec (TRACK t) 4294901760 1)) as [sl|] eqn:Hset; [|rewrite arr_set_Some in Hset by lia; done]. st.
  destruct (arr_set (tracked_idx l1) (Z.of_nat t) idx) as [ti|] eqn:Hsti; [|rewrite arr_set_Some in Hsti by lia; done]. st.
  destruct (arr_set (tracked_id l) (Z.of_nat t) (TRACK t)) as [td|] eqn:Hstd; [|rewrite arr_set_Some in Hstd by lia; done]. st.
  set (l2 := set_tracked_id td (set_tracked_idx ti (set_slab sl l1))).
  assert (idx ∉ take t (tracked_idx l1)) as Hnt by (intros Hx; by apply Hb, busy_tracked).
  assert (slots_ok (Datatypes.S t) l2 ∅) as Hs2.
  { apply (slots_ok_conv _ (set_tracked_idx ti (set_slab sl l1))); [done..|]. by eapply slots_ok_track. }
  pose proof (tracked_slots_track t l1 tbl idx ti td sl Ht Htl Hnt Hset Hsti Hstd) as Ht2. fold l2 in Ht2.
  assert (tracked_ok (Datatypes.S t) l2 (<[TRACK t := idx]> tbl)) as Hok2
    by (by eapply (tracked_slots_ok 0 (Datatypes.S t) ltac:(lia) ltac:(lia))).
  assert (tracked_ok 0 l2 tbl) as Hok0 by (intros d; lia).
  apply tri_upd; [intros _; exists tbl; split; [exact Htb|exact Hok0]|]. st.
  apply (tri_tbl_insert cyc us 0 0 ltac:(lia) ltac:(lia) B arena_holds (Z.of_nat (m + n)) l2 on tbl (TRACK t) idx);
    [lia|exact Hm|exact Htb| |exact Hl|intros _; by apply TRACK_real|exact Hok0|intros d; lia|].
  { apply (room_conv _ _ l); [done..|]. by replace (Z.of_nat (m + n) + 1) with (Z.of_nat (Datatypes.S m + n)) by lia. }
  intros s h p l3 Htb3 Hr3 Hl3. st. cbn [negb].
  replace (Z.of_nat t + 1) with (Z.of_nat (Datatypes.S t)) by lia.
  eapply tri_mono.
  - apply (IH (Datatypes.S t) l3 _ (<[TRACK t := idx]> tbl)); [lia| |cbn; lia|by apply arr_set_length in Hstd; rewrite <- Hlid].
    constructor; try done.
    + by apply (slots_ok_conv _ l2).
    + unfold owned_by in *. change (is_expanse l3) with (is_expanse l). destruct (is_expanse l).
      * destruct Ho as (bt & Hbt & Hget & _). exists bt. split; [done|]. split; [done|]. intros k i r Hk. by rewrite lookup_empty in Hk.
      * destruct Ho as [Ho Hk]. split.
        -- intros k. rewrite Ho. case_decide; [|done]. rewrite lookup_insert_ne; [done|]. intros <-. by apply (TRACK_bad t).
        -- intros k i [[<- _]|[_ Hki]]%lookup_insert_Some; [right; exists t; split; [lia|done]|].
           destruct (Hk k i Hki) as [?|(d & Hd' & ->)]; [by left|]. right. exists d. split; [lia|done].
    + intros He. by apply draws_real_S, Hd.
  - cbv beta. intros ok l4 on4 (-> & tbl4 & Hinv4 & Hf4 & Hc4 & He4). split; [done|]. exists tbl4. split; [done|].
    rewrite Hf4. cbn. split; [lia|]. split; [by rewrite Hc4|by rewrite He4].
Qed.

(** ** The records *)
Lemma tri_fill_records n m l on tbl own now seed :
  lane_inv N_TRACKED B (m + n) l tbl own → Z.of_nat m <= free_top l → is_u32 (count l) →
  tri 0 l on (fill_records cyc us m now seed) (λ ok l' on', ok = true ∧ ∃ tbl' own',
    lane_inv N_TRACKED B n l' tbl' own' ∧ free_top l' = free_top l - Z.of_nat m ∧ count l' = u32 (count l + Z.of_nat m)
    ∧ is_expanse l' = is_expanse l).
Proof.
  revert l on tbl own seed. induction m as [|m IH]; intros l on tbl own seed Hinv Hft Hc; cbn [fill_records].
  { st. split; [done|]. exists tbl, own. rewrite Z.add_0_r, u32_small by done. split_and!; (done || lia). }
  st. eapply tri_mono.
  { by eapply (tri_add_record cyc us 0 N_TRACKED ltac:(lia) ltac:(lia) B arena_holds (m + n) l on tbl own). }
  cbv beta. intros ok l1 on1 (_ & He1 & tbl1 & own1 & Hinv1 & Hok). destruct ok; [|lia].
  destruct Hok as (_ & Hf1 & Hc1). cbn [negb]. eapply tri_mono.
  - apply (IH l1 on1 tbl1 own1); [done|lia|rewrite Hc1; apply u32_range].
  - cbv beta. intros ok l2 on2 (-> & tbl2 & own2 & Hinv2 & Hf2 & Hc2 & He2). split; [done|].
    exists tbl2, own2. split; [done|]. rewrite Hf2, Hf1, Hc2, Hc1, He2, He1. split; [lia|]. split; [|done].
    unfold u32. rewrite Zplus_mod_idemp_l. f_equal. lia.
Qed.

(** ** The whole fill *)
(** A lane whose arrays have been allocated ([lanes_init]). *)
Record lane_shape l : Prop := {
  ls_cap : 0 < cap l < UINT32_MAX;
  ls_slab : Z.of_nat (length (slab l)) = cap l;
  ls_stack : Z.of_nat (length (free_stack l)) = cap l;
  ls_retire : Z.of_nat (length (retire l)) = RETIRE_MAX;
  ls_tidx : length (tracked_idx l) = N_TRACKED;
  ls_tid : length (tracked_id l) = N_TRACKED;
  ls_loop : loop_ok 0 (loop l);
  ls_masks : masks l;
}.
(** Room for [n] table entries after the fill: the arena, or the table size. *)
Definition fill_room l (records n : Z) : Prop :=
  if is_expanse l then n <= B
  else 1 <= (if records =? 0 then 8 else records) <= 2 ^ 28 ∧
       if growable l then n <= 2 ^ 27 else n < Z.max 16 (2 * (if records =? 0 then 8 else records)).
Definition fill_rng l : Z := if is_expanse l then 2654435769 else 625341585.

Lemma stack_elem c i :
  i ∈ ((λ j, c - 1 - Z.of_nat j) <$> seq 0 (Z.to_nat c)) ↔ 0 <= i < c.
Proof.
  rewrite list_elem_of_fmap. split.
  - intros (j & -> & Hj%elem_of_seq). lia.
  - intros Hi. exists (Z.to_nat (c - 1 - i)). rewrite elem_of_seq. lia.
Qed.
Lemma free_reset l :
  Z.of_nat (length (free_stack l)) = cap l → free_top l = cap l → free l = free_stack l.
Proof. intros Hl Ht. unfold free. apply take_ge. lia. Qed.
Lemma slots_ok_reset l :
  0 < cap l < UINT32_MAX → Z.of_nat (length (slab l)) = cap l →
  free_stack l = ((λ j, cap l - 1 - Z.of_nat j) <$> seq 0 (Z.to_nat (cap l))) → free_top l = cap l →
  Z.of_nat (length (retire l)) = RETIRE_MAX → retire_n l = 0 → length (tracked_idx l) = N_TRACKED → slots_ok 0 l ∅.
Proof.
  intros Hc Hsl Hst Htop Hrt Hrn Hti.
  assert (Z.of_nat (length (free_stack l)) = cap l) as Hlen by (rewrite Hst, length_fmap, length_seq; lia).
  assert (busy 0 l = free_stack l) as Hb.
  { unfold busy, retired. rewrite Hrn. cbn [take Z.to_nat]. by rewrite !app_nil_r, free_reset. }
  constructor; rewrite ?Hb, ?Hrn, ?Htop; try done; try (unfold RETIRE_MAX; lia).
  - rewrite Hst. apply NoDup_fmap_2_strong; [|apply NoDup_seq]. intros i j Hi Hj. lia.
  - intros i. rewrite Hst. apply stack_elem.
Qed.
Lemma slab_reset_slots l : lane_shape l → slots_ok 0 (slab_reset l) ∅.
Proof.
  intros [Hc Hsl Hst Hrt Hti Htd _ _]. apply slots_ok_reset; [exact Hc| |reflexivity|reflexivity|exact Hrt|reflexivity|exact Hti].
  etrans; [|exact Hsl]. f_equal. apply (length_fmap (λ r, Rec 0 (r_born_ms r) 0)).
Qed.

Lemma sync_new_empty caps s : sync_new_loop caps = Some s → contents s = ∅.
Proof.
  induction caps as [|c caps IH]; [done|]. cbn [sync_new_loop].
  destruct (sync32_map_new c 2) eqn:Hs; [intros [= <-]; by eapply new_contents|done].
Qed.

Lemma tri_structures_new n l oks records :
  slots_ok 0 l ∅ → loop_ok 0 (loop l) → masks l → rng l = fill_rng l → oks = (true, true, true) →
  (is_expanse l = true → is_Some (sync_new_loop (S := S) NODE_CAPS)) →
  (is_expanse l = false → draws_real n (fill_rng l)) → fill_room l records (Z.of_nat n) →
  tri 0 l false (structures_new true oks records) (λ ok l' on', ok = true ∧ on' = false ∧
    lane_inv 0 B n l' ∅ ∅ ∧ is_expanse l' = is_expanse l ∧ free_top l' = free_top l ∧ count l' = count l
    ∧ tracked_id l' = tracked_id l).
Proof.
  intros Hs Hl Hm Hrng -> Hsync Hd Hroom. unfold structures_new. st. unfold fill_room in Hroom.
  assert (is_u32 (rng l) ∧ rng l ≠ 0) as Hu by (rewrite Hrng; unfold fill_rng; destruct (is_expanse l); split; (done || lia)).
  destruct (is_expanse l) eqn:He.
  - destruct (Hsync eq_refl) as [s Hs']. rewrite Hs'. st. apply tri_upd; [done|]. st. apply tri_upd; [done|]. st.
    split; [done|]. split; [done|]. split; [|by cbn].
    constructor; try done.
    + by apply (slots_ok_conv 0 l).
    + intros d. lia.
    + unfold table. cbn. rewrite He. exists s. split; [done|]. by eapply sync_new_empty.
    + unfold owned_by. cbn. rewrite He. eexists. split; [done|]. split; [|intros k i r Hk; by rewrite lookup_empty in Hk].
      intros k. rewrite get_spec, entries_new. done.
    + unfold room. cbn. rewrite He. done.
    + cbn. by rewrite He.
  - st. set (c := if records =? 0 then 8 else records) in *. destruct Hroom as [Hc Hroom].
    destruct (oh_create_spec c a Hc) as (h & Hh & Hi & Hrep & Hus & Hsl & H16).
    destruct (oh_create (true, true, true) c a) as [o a'] eqn:Hcr. cbn [fst] in Hh. subst o. st.
    apply tri_upd; [done|]. st. split; [done|]. split; [done|]. split; [|by cbn].
    constructor; try done.
    + by apply (slots_ok_conv 0 l).
    + intros d. lia.
    + unfold table. cbn. rewrite He. exists h. split_and!; (done || lia).
    + unfold owned_by. cbn. rewrite He. split; [intros k; by case_decide|by intros k i Hk].
    + unfold room. cbn. rewrite He. intros ? [= <-]. destruct (growable l); lia.
    + cbn. rewrite He, Hrng. done.
Qed.

(** The fill succeeds with enough slots, and leaves every slot accounted for. *)
Lemma tri_lane_fill n l freed records now :
  lane_shape l → 0 <= records → records + 4 <= cap l →
  (is_expanse l = true → is_Some (sync_new_loop (S := S) NODE_CAPS)) →
  (is_expanse l = false → draws_real (4 + (Z.to_nat records + n)) (fill_rng l)) →
  fill_room l records (4 + records + Z.of_nat n) →
  tri 0 l false (lane_fill cyc us freed true (true, true, true) records now) (λ ok l' on', ok = true ∧
    ∃ tbl own, lane_inv N_TRACKED B n l' tbl own ∧ count l' = records ∧ free_top l' = cap l - 4 - records ∧
      is_expanse l' = is_expanse l).
Proof.
  intros Hsh Hrec Hcap Hsync Hd Hroom. unfold lane_fill. st.
  assert (∃ h s bt, (structures_free freed a l).1 = set_hash h (set_by_time bt (set_sync s l))) as (h & s & bt & Hfree).
  { unfold structures_free. destruct (is_expanse l); [by exists (hash l), None, None|].
    destruct (hash l) eqn:Hh; [by exists None, (sync l), (by_time l)|]. exists None, (sync l), (by_time l). cbn. rewrite <- Hh. by destruct l. }
  destruct (structures_free freed a l) as [l' a'] eqn:Hsf. cbn [fst] in Hfree. st.
  apply tri_upd; [done|]. st. assert (lane_shape l') as Hsh' by (subst l'; destruct Hsh; by constructor).
  pose proof (slab_reset_slots l' Hsh') as Hs.
  assert (is_expanse l' = is_expanse l ∧ growable l' = growable l ∧ cap l' = cap l) as (He & Hg & Hc) by (by subst l').
  eapply tri_mono.
  { apply (tri_structures_new (4 + (Z.to_nat records + n)) (slab_reset l') (true, true, true) records); try done.
    - destruct (ls_loop _ Hsh'). constructor; cbn; (done || lia).
    - apply (ls_masks _ Hsh').
    - cbn. rewrite He. done.
    - intros Hx. unfold fill_rng. cbn. rewrite He. apply Hd. rewrite <- He. exact Hx.
    - unfold fill_room in *. cbn. rewrite He, Hg. replace (Z.of_nat _) with (4 + records + Z.of_nat n) by lia. exact Hroom. }
  cbv beta. intros ok l2 on2 (-> & -> & Hinv2 & He2 & Hf2 & Hc2 & Htd2). cbn [negb]. st. eapply tri_mono.
  { apply (tri_fill_tracked (Z.to_nat records + n) N_TRACKED 0 l2 false ∅); [done|exact Hinv2| |].
    - rewrite Hf2. unfold N_TRACKED. cbn. lia.
    - rewrite Htd2. apply (ls_tid _ Hsh'). }
  cbv beta. intros ok l3 on3 (-> & tbl3 & Hinv3 & Hf3 & Hc3 & He3). cbn [negb].
  assert (is_u32 records) as Hru by (pose proof (ls_cap _ Hsh); unfold UINT32_MAX in *; word_lia).
  eapply tri_mono.
  { apply (tri_fill_records n (Z.to_nat records) l3 on3 tbl3 ∅); [done| |rewrite Hc3, Hc2; cbn; word_lia].
    rewrite Hf3, Hf2. unfold N_TRACKED. cbn. lia. }
  cbv beta. intros ok l4 on4 (-> & tbl4 & own4 & Hinv4 & Hf4 & Hc4 & He4). split; [done|]. exists tbl4, own4.
  split; [done|]. rewrite Hc4, Hf4, Hf3, Hf2, Hc3, Hc2. cbn. rewrite Z2Nat.id by lia. rewrite u32_small by done. split; [done|].
  split; [unfold N_TRACKED; lia|]. rewrite He4, He3, He2. exact He.
Qed.
End Fill.
