(* ===== verification/LaneIsr.v ===== *)
(** * The interrupt of a lane

    [lane_isr] of [src/integrations/stm32h747/demo/CM7/Core/Src/lanes.c] at a
    point where it can be taken: what its four reads find, and what the tick
    accounts for. *)
From stdpp Require Import base numbers list sorting gmap.
From S2P Require Import Prelude SortedAssoc ExpanseApi Sync32 Alts OpenHash OpenHashProofs OpenHashTheorems Lanes XorShift LanesProofs LaneFill.
Open Scope Z_scope.

Section Interrupt.
  Context {S M : Type} `{Sync32Laws S} `{ExpanseMapLaws M}.
  Abbreviation lane := (@lane S M).
  Abbreviation world := (@world S M).
Implicit Types (l : lane) (w : world).

(** ** The interrupt's reads *)
Definition bump_busy (n : Z) (i : isr_stats) : isr_stats := set_isr_busy (u32 (isr_busy i + n)) i.
Definition bump_ok (n : Z) (i : isr_stats) : isr_stats := set_isr_ok (u32 (isr_ok i + n)) i.

Lemma isr_one_good ov l d slot :
  good_point N_TRACKED (ov, l) → (d < N_TRACKED)%nat →
  isr_one ov l (Z.of_nat d) slot
  = Some (if ov then (on_isr (bump_busy 1) l, if slot =? SLOT_VALUE then SLOT_BUSY else slot)
          else (on_isr (bump_ok 1) l, slot)).
Proof.
  intros [Hov (tbl & Htb & Hok)] Hd. cbn [fst snd] in *. destruct (Hok d Hd) as (Hid & idx & r & Hidx & Hc & Hr & Hrid).
  unfold isr_one. rewrite arr_get_nat, Hid. cbn [mbind option_bind]. unfold isr_read. unfold table in Htb.
  assert ((idx >=? cap l) = false) as Hge by (rewrite Z.geb_leb; apply Z.leb_gt; lia).
  destruct (is_expanse l) eqn:He.
  - destruct Htb as (s & -> & Hs). cbn [mbind option_bind]. destruct ov.
    + by rewrite get_overlap.
    + rewrite get_quiet, Hs, Hidx. cbn [mbind option_bind]. rewrite Hge, Hr. cbn [mbind option_bind].
      rewrite Hrid, (Z.eqb_refl (TRACK d)). reflexivity.
  - destruct Hov as [?| ->]; [done|]. destruct Htb as (h & -> & Hi & Hrep & Hu). cbn [mbind option_bind].
    rewrite (oh_get_spec h tbl _ Hi Hrep (TRACK_real d Hd) Hu), Hidx. cbn [mbind option_bind andb].
    rewrite Hge, Hr. cbn [mbind option_bind]. rewrite Hrid, (Z.eqb_refl (TRACK d)). reflexivity.
Qed.
Lemma good_isr ov l f : good_point N_TRACKED (ov, l) → good_point N_TRACKED (ov, on_isr f l).
Proof. done. Qed.
Lemma bump_busy_add a n i : bump_busy n (bump_busy a i) = bump_busy (a + n) i.
Proof. unfold bump_busy. cbn. unfold u32. rewrite Zplus_mod_idemp_l. by replace (isr_busy i + (a + n)) with (isr_busy i + a + n) by lia. Qed.
Lemma bump_ok_add a n i : bump_ok n (bump_ok a i) = bump_ok (a + n) i.
Proof. unfold bump_ok. cbn. unfold u32. rewrite Zplus_mod_idemp_l. by replace (isr_ok i + (a + n)) with (isr_ok i + a + n) by lia. Qed.

(** All four reads at a point where the interrupt can be taken. *)
Lemma isr_reads_good ov l :
  good_point N_TRACKED (ov, l) →
  isr_reads N_TRACKED ov l 0 SLOT_VALUE
  = Some (on_isr (if ov then bump_busy 4 else bump_ok 4) l, if ov then SLOT_BUSY else SLOT_VALUE).
Proof.
  intros Hg. unfold N_TRACKED. cbn [isr_reads].
  rewrite (isr_one_good ov l 0) by (unfold N_TRACKED; (done || lia)).
  change (0 + 1) with (Z.of_nat 1). destruct ov; cbn [mbind option_bind].
  all: rewrite (isr_one_good _ _ 1) by (unfold N_TRACKED; (exact Hg || lia)); cbn [mbind option_bind].
  all: change (Z.of_nat 1 + 1) with (Z.of_nat 2).
  all: rewrite (isr_one_good _ _ 2) by (unfold N_TRACKED; (exact Hg || lia)); cbn [mbind option_bind].
  all: change (Z.of_nat 2 + 1) with (Z.of_nat 3).
  all: rewrite (isr_one_good _ _ 3) by (unfold N_TRACKED; (exact Hg || lia)); cbn [mbind option_bind].
  all: unfold on_isr; cbn [isr set_isr]; rewrite ?bump_busy_add, ?bump_ok_add; done.
Qed.

(** ** One tick's bookkeeping *)
Lemma ring_index z : Z.land z (RING_LEN - 1) = z mod RING_LEN.
Proof. change (RING_LEN - 1) with (Z.ones 13). by rewrite Z.land_ones by lia. Qed.
Lemma ring_back now k : Z.land (now -w k) (RING_LEN - 1) = (now - k) mod RING_LEN.
Proof. rewrite ring_index. unfold u32. apply (Z.mod_mod_divide (now - k) (2 ^ 32) RING_LEN). by exists (2 ^ 19). Qed.

Lemma hold_slots_spec n k now r :
  Z.of_nat (length r) = RING_LEN →
  ∃ r', hold_slots n k now r = Some r' ∧ length r' = length r ∧
    (∀ m, k <= m < k + Z.of_nat n → arr_get r' ((now - m) mod RING_LEN) = Some SLOT_HELD) ∧
    (∀ j, (∀ m, k <= m < k + Z.of_nat n → j ≠ (now - m) mod RING_LEN) → arr_get r' j = arr_get r j) ∧
    (∀ j, arr_get r' j = Some SLOT_HELD ∨ arr_get r' j = arr_get r j).
Proof.
  revert k r. induction n as [|n IH]; intros k r Hr; cbn [hold_slots].
  { exists r. split; [done|]. split; [done|]. split; [lia|]. split; [done|]. by right. }
  rewrite ring_back. set (a := (now - k) mod RING_LEN).
  assert (0 <= a < RING_LEN) as Ha by (apply Z.mod_pos_bound; unfold RING_LEN; lia).
  destruct (arr_set r a SLOT_HELD) as [r1|] eqn:Hset; [|rewrite arr_set_Some in Hset by lia; done].
  pose proof (arr_set_length _ _ _ _ Hset) as Hlen. cbn [mbind option_bind].
  destruct (IH (k + 1) r1) as (r' & -> & Hl & Hin & Hout & Hor); [by rewrite Hlen|].
  exists r'. split; [done|]. split; [congruence|]. split; [|split].
  - intros m Hm. destruct (decide (m = k)) as [->|Hne]; [|apply Hin; lia].
    fold a. destruct (Hor a) as [->| ->]; [done|]. exact (arr_get_set_eq _ _ _ _ Hset).
  - intros j Hj. rewrite Hout by (intros m Hm; apply Hj; lia). apply (arr_get_set_ne _ _ _ _ _ Hset).
    intros <-. apply (Hj k); [lia|done].
  - intros j. destruct (Hor j) as [->| ->]; [by left|]. rewrite (arr_get_set _ _ j _ _ Hset). case_decide; [by left|by right].
Qed.

(** The millisecond's slot and the held ones before it never coincide. *)
Lemma ring_apart now k : 1 <= k <= 255 → (now - k) mod RING_LEN ≠ now mod RING_LEN.
Proof.
  unfold RING_LEN. intros Hk Heq.
  assert ((now - (now - k)) mod 8192 = 0) as Hz.
  { rewrite Zminus_mod, Heq, <- Zminus_mod, Z.sub_diag. done. }
  replace (now - (now - k)) with k in Hz by lia. rewrite Z.mod_small in Hz by lia. lia.
Qed.

(** Counters are words, the ring has its length, and the longest run is one. *)
Record isr_wf (i : isr_stats) : Prop := {
  iw_ring : Z.of_nat (length (ring i)) = RING_LEN;
  iw_blocked : is_u32 (blocked_ms i);
  iw_no_value : is_u32 (no_value_ms i);
  iw_run : is_u32 (stale_run i);
  iw_max : stale_run i <= stale_max i;
}.
Definition held_ms (missed : Z) : Z := if missed >? 255 then 255 else missed.
(** [rg'] is [rg] with the held milliseconds before [now] marked. *)
Definition held_ring (now missed : Z) (rg rg' : list Z) : Prop :=
  length rg' = length rg ∧
  (∀ k, 1 <= k <= held_ms missed → arr_get rg' ((now - k) mod RING_LEN) = Some SLOT_HELD) ∧
  (∀ j, (∀ k, 1 <= k <= held_ms missed → j ≠ (now - k) mod RING_LEN) → arr_get rg' j = arr_get rg j).
Lemma isr_missed_spec missed now i :
  isr_wf i → 0 <= missed →
  ∃ rg, isr_missed missed now i
        = Some (set_blocked_ms (u32 (blocked_ms i + missed)) (set_ring rg
            (set_no_value_ms (u32 (no_value_ms i + missed)) (set_stale_run (u32 (stale_run i + missed))
              (set_stale_max (Z.max (u32 (stale_run i + missed)) (stale_max i)) i))))) ∧ held_ring now missed (ring i) rg.
Proof.
  intros [Hr Hb Hn Hs Hm] H0'. unfold isr_missed, held_ring, held_ms. destruct (Z.eqb_spec missed 0) as [->|Hne].
  - exists (ring i). rewrite !Z.add_0_r, !u32_small, Z.max_r by done. split; [by destruct i|]. split; [done|].
    change (0 >? 255) with false. split; [lia|done].
  - destruct (hold_slots_spec (Z.to_nat (if missed >? 255 then 255 else missed)) 1 now (ring i) Hr)
      as (rg & -> & Hl & Hin & Hout & _). exists rg. cbn [mbind option_bind].
    replace (if u32 (stale_run i + missed) >? stale_max i then u32 (stale_run i + missed) else stale_max i)
      with (Z.max (u32 (stale_run i + missed)) (stale_max i)) by (rewrite Z.gtb_ltb; destruct (Z.ltb_spec (stale_max i) (u32 (stale_run i + missed))); lia).
    split; [done|]. split; [done|].
    rewrite Z.gtb_ltb in *. destruct (Z.ltb_spec 255 missed); (split; [intros k Hk; apply Hin; lia|intros j Hj; apply Hout; intros m Hm'; apply Hj; lia]).
Qed.

Lemma lateness_early tim2 e : 2 ^ 31 <= tim2 -w e → lateness tim2 e = 0.
Proof. intros He. unfold lateness. rewrite Z.geb_leb. by rewrite (proj2 (Z.leb_le _ _) He). Qed.
Lemma lateness_late tim2 e : tim2 -w e < 2 ^ 31 → lateness tim2 e = tim2 -w e.
Proof. intros He. unfold lateness. rewrite Z.geb_leb. by rewrite (proj2 (Z.leb_gt _ _) He). Qed.
Lemma lateness_range tim2 e : 0 <= lateness tim2 e < 2 ^ 31.
Proof.
  pose proof (u32_range (tim2 - e)) as [? _]. unfold lateness. rewrite Z.geb_leb. destruct (Z.leb_spec (2 ^ 31) (tim2 -w e)); lia.
Qed.
(** The re-armed reference is the first tick after [tim2]. *)
Lemma rearm tim2 e :
  is_u32 tim2 → is_u32 e → tim2 -w e < 2 ^ 31 →
  let missed := lateness tim2 e / TICKS_PER_MS in
  0 < u32 ((e +w TICKS_PER_MS *w (1 + missed)) - tim2) <= TICKS_PER_MS.
Proof.
  intros Ht He Hl missed. unfold missed. rewrite lateness_late by done. set (lat := tim2 -w e) in *.
  pose proof (u32_range (tim2 - e)) as Hlr. fold lat in Hlr. unfold TICKS_PER_MS in *.
  pose proof (Z.div_mod lat 20000). pose proof (Z.mod_pos_bound lat 20000).
  assert (0 <= lat / 20000) by (apply Z.div_pos; unfold is_u32 in *; lia).
  rewrite (u32_small (20000 * _)) by (unfold is_u32 in *; lia).
  assert (u32 (e +w 20000 * (1 + lat / 20000) - tim2) = 20000 - lat mod 20000) as ->; [|lia].
  replace (20000 - lat mod 20000) with (20000 * (1 + lat / 20000) - lat) by lia.
  assert (0 <= 20000 * (1 + lat / 20000) - lat < 2 ^ 32) as Hb by lia. rewrite <- (Z.mod_small _ _ Hb).
  set (K := 20000 * (1 + lat / 20000)) in *. clearbody K. unfold lat, u32. rewrite Zminus_mod_idemp_l, Zminus_mod_idemp_r. f_equal. lia.
Qed.

Lemma u32_add_l a b : u32 (u32 a + b) = u32 (a + b).
Proof. unfold u32. apply Zplus_mod_idemp_l. Qed.
Ltac gt_cases :=
  repeat match goal with |- context [if ?a >? ?b then _ else _] => destruct (a >? b) eqn:? end.

(** The whole tick at a point where the interrupt can be taken. *)
Lemma lane_isr_good ov l tim2 now b0 b1 :
  good_point N_TRACKED (ov, l) → isr_wf (isr l) →
  let i := isr l in
  let missed := lateness tim2 (expected_cnt i) / TICKS_PER_MS in
  ∃ i', lane_isr ov l tim2 now b0 b1 = Some (set_isr i' l) ∧
    expected_cnt i' = expected_cnt i +w TICKS_PER_MS *w (1 + missed) ∧
    isr_served i' = isr_served i +w 1 ∧ blocked_ms i' = u32 (blocked_ms i + missed) ∧
    isr_nf i' = isr_nf i ∧ isr_bad i' = isr_bad i ∧
    isr_ok i' = (if ov then isr_ok i else isr_ok i +w 4) ∧
    isr_busy i' = (if ov then isr_busy i +w 4 else isr_busy i) ∧
    no_value_ms i' = u32 (no_value_ms i + missed + (if ov then 1 else 0)) ∧
    stale_run i' = (if ov then u32 (stale_run i + missed + 1) else 0) ∧
    stale_run i' <= stale_max i' ∧ u32 (stale_run i + missed) <= stale_max i' ∧
    ∃ rg, held_ring now missed (ring i) rg ∧
      arr_set rg (now mod RING_LEN) (if ov then SLOT_BUSY else SLOT_VALUE) = Some (ring i').
Proof.
  intros Hg Hwf i missed. pose proof (lateness_range tim2 (expected_cnt i)) as Hlat.
  assert (0 <= missed) as Hm by (apply Z.div_pos; unfold TICKS_PER_MS; lia).
  unfold lane_isr. fold i. fold missed.
  destruct (isr_missed_spec missed now (set_expected_cnt (expected_cnt i +w TICKS_PER_MS *w (1 + missed)) i))
    as (rg & -> & Hrg); [by destruct Hwf|done|]. cbn [mbind option_bind].
  set (i1 := set_blocked_ms _ _). set (i2 := if _ >? lat_max_ticks i1 then _ else _).
  set (i3 := set_isr_served _ i2).
  assert (good_point N_TRACKED (ov, set_isr i3 l)) as Hg3 by exact Hg.
  rewrite (isr_reads_good ov _ Hg3). cbn [mbind option_bind].
  unfold isr_outcome. rewrite ring_index.
  assert (ring (isr (on_isr (if ov then bump_busy 4 else bump_ok 4) (set_isr i3 l))) = rg) as Hring.
  { unfold i3, i2, i1. destruct ov, (_ >? _); done. }
  rewrite Hring.
  assert (0 <= now mod RING_LEN < RING_LEN) as Hnow by (apply Z.mod_pos_bound; unfold RING_LEN; lia).
  pose proof (iw_ring _ Hwf) as Hlen. fold i in Hlen.
  destruct (arr_set rg (now mod RING_LEN) (if ov then SLOT_BUSY else SLOT_VALUE)) as [rg'|] eqn:Hset.
  2: { rewrite arr_set_Some in Hset; [done|]. rewrite (proj1 Hrg). cbn. lia. }
  cbn [mbind option_bind]. eexists. split; [reflexivity|].
  unfold i3, i2, i1, on_isr, bump_busy, bump_ok. pose proof (iw_max _ Hwf) as Hmax. fold i in Hmax. clearbody missed i.
  destruct ov; cbn [SLOT_BUSY SLOT_VALUE Z.eqb Pos.eqb isr set_isr].
  all: destruct (lateness _ _ >? _); cbn; gt_cases; bool_facts; cbn in *.
  all: rewrite ?u32_add_l in *; rewrite ?Z.add_0_r; split_and!; try done; try lia; try (exists rg; split; [exact Hrg|done]).
Qed.
End Interrupt.
