(* ===== verification/LaneTheorems.v ===== *)
(** * What the lanes promise

    Claims about [src/integrations/stm32h747/demo/CM7/Core/Src/lanes.c]: whatever
    the main loop does to a filled hash lane in its two masked modes, the interrupt
    reads every tracked device's right slot (and so it does in the Expanse lane as
    long as its arena refuses nothing); what a sweep removes; and where the code
    falls short. *)
From stdpp Require Import base numbers list sorting gmap.
From S2P Require Import Prelude SortedAssoc ExpanseApi Sync32 Alts OpenHash OpenHashProofs OpenHashTheorems Lanes XorShift LanesProofs LaneFill LaneIsr.
Open Scope Z_scope.

Section Theorems.
  Context {S M : Type} `{Sync32Laws S} `{ExpanseMapLaws M}.
  Abbreviation lane := (@lane S M).
  Abbreviation world := (@world S M).
Implicit Types (l : lane) (w : world).

(** A tick of the lane's interrupt, taken at any point the main loop leaves
    it enabled, accounts for every millisecond: the next reference time is the
    first whole tick after now (lateness under 2^31), each whole millisecond of
    lateness is counted as blocked and as one without a value and, up to 255 of
    them, marked held in the ring, and this millisecond's ring slot says what
    the four reads found.  No read finds a wrong or a missing device; the
    staleness run is reset by a value, grows by one on a busy read, and never
    passes its recorded maximum. *)
Theorem lane_isr_ledger ov l tim2 now b0 b1 :
  good_point N_TRACKED (ov, l) → isr_wf (isr l) → is_u32 tim2 → is_u32 (expected_cnt (isr l)) →
  tim2 -w expected_cnt (isr l) < 2 ^ 31 →
  let i := isr l in
  let missed := (tim2 -w expected_cnt i) / TICKS_PER_MS in
  ∃ i', lane_isr ov l tim2 now b0 b1 = Some (set_isr i' l) ∧
    0 < u32 (expected_cnt i' - tim2) <= TICKS_PER_MS ∧
    isr_served i' = isr_served i +w 1 ∧ blocked_ms i' = u32 (blocked_ms i + missed) ∧
    isr_nf i' = isr_nf i ∧ isr_bad i' = isr_bad i ∧
    isr_ok i' = (if ov then isr_ok i else isr_ok i +w 4) ∧
    isr_busy i' = (if ov then isr_busy i +w 4 else isr_busy i) ∧
    no_value_ms i' = u32 (no_value_ms i + missed + (if ov then 1 else 0)) ∧
    stale_run i' = (if ov then u32 (stale_run i + missed + 1) else 0) ∧
    stale_run i' <= stale_max i' ∧ u32 (stale_run i + missed) <= stale_max i' ∧
    ∃ rg, held_ring now missed (ring i) rg ∧
      arr_set rg (now mod RING_LEN) (if ov then SLOT_BUSY else SLOT_VALUE) = Some (ring i').
Proof.
  intros Hg Hwf Ht He Hl. pose proof (lane_isr_good ov l tim2 now b0 b1 Hg Hwf) as (i' & Hi & Hx & Hrest).
  cbv zeta in *. exists i'. split; [exact Hi|]. split; [rewrite Hx; by apply rearm|].
  rewrite lateness_late in Hrest by done. exact Hrest.
Qed.

(** ** The main loop against the interrupt *)
  Context (cyc : nat → Z) (us : Z * Z) (B : Z).
  Hypothesis arena_holds : ∀ (s : S) k v,
    Z.of_nat (size (contents s)) < B → (sync32_try_insert s k v).1 ≠ EXPANSE_SYNC32_ARENA_FULL.

Inductive lane_op :=
  | OpIngest (now_ms rate_per_s cap_records : Z)
  | OpChurn (now_ms : Z)
  | OpSweep (now_ms isr0 isr1 : Z).
Definition run_op (o : lane_op) : @ST S M unit :=
  match o with
  | OpIngest now rate c => lane_ingest cyc us now rate c
  | OpChurn now => lane_churn cyc us now
  | OpSweep now i0 i1 => lane_sweep cyc now i0 i1
  end.
Fixpoint run_ops (os : list lane_op) : @ST S M unit :=
  match os with [] => mret tt | o :: os => run_op o;; run_ops os end.
(** Table insertions an operation may make. *)
Definition op_cost (o : lane_op) : nat :=
  match o with OpIngest _ _ _ => 256 | OpChurn _ => 1 | OpSweep _ _ _ => 0 end.
Definition ops_cost (os : list lane_op) : nat := sum_list (op_cost <$> os).
(** The hash lane's sweep compares the tracked devices' age too; it is far away
    except in the last minute of the clock. *)
Definition op_ok l (o : lane_op) : Prop :=
  match o with
  | OpSweep now _ _ => is_expanse l = false → now +w TTL_MS +w 1000 < TRACK_BORN + TTL_MS
  | _ => True
  end.

Lemma tri_run_op n l tbl own o :
  op_ok l o → lane_inv N_TRACKED B (op_cost o + n) l tbl own →
  tri N_TRACKED l true (run_op o) (inv_post N_TRACKED B n l).
Proof.
  intros Ho Hi. destruct o as [now rate c|now|now i0 i1].
  - by eapply (tri_lane_ingest cyc us N_TRACKED N_TRACKED).
  - by eapply (tri_lane_churn cyc us N_TRACKED N_TRACKED).
  - eapply tri_mono; [by eapply (tri_lane_sweep cyc us N_TRACKED N_TRACKED)|].
    intros [] l' on' (-> & He & tbl' & own' & Hi' & _). split; [done|]. split; [done|]. by exists tbl', own'.
Qed.
Lemma tri_run_ops n os l tbl own :
  Forall (op_ok l) os → lane_inv N_TRACKED B (ops_cost os + n) l tbl own →
  tri N_TRACKED l true (run_ops os) (inv_post N_TRACKED B n l).
Proof.
  revert l tbl own. induction os as [|o os IH]; intros l tbl own Hok Hi; cbn [run_ops].
  { by eapply inv_ret. }
  inversion_clear Hok as [|?? Ho Hos]. unfold ops_cost in Hi. cbn in Hi. rewrite <- Nat.add_assoc in Hi.
  eapply inv_seq; [by eapply tri_run_op|]. intros [] l1 tbl1 own1 Hi1 He. eapply IH; [|exact Hi1].
  eapply Forall_impl; [exact Hos|]. intros [] Hx; cbn in *; try done. by rewrite He.
Qed.

(** What the four reads of a tick must give: the right slots, or [BUSY] from
    inside a bracket of the concurrent map. *)
Definition reads_right (p : bool * lane) : Prop :=
  isr_reads N_TRACKED p.1 p.2 0 SLOT_VALUE
  = Some (on_isr (if p.1 then bump_busy 4 else bump_ok 4) p.2, if p.1 then SLOT_BUSY else SLOT_VALUE).
(** The world in which the interrupt has just been enabled. *)
Definition armed (w : world) : world := World (lane_of w) true (reads w) (heap_acct w) [].

(** From a filled lane, whatever sequence of ingests, churns and sweeps the main
    loop runs, every one of them completes, and at every point where the lane's
    interrupt can be taken the interrupt finds all four tracked devices in the
    slot that holds them, or, inside a bracket of the Expanse lane, four [BUSY]
    answers: in the masked hash lane, and in the Expanse lane under
    [arena_holds], which [expanse.h] does not document. *)
Theorem lane_reader_runs l w freed records now ops :
  lane_shape l → 0 <= records → records + 4 <= cap l →
  (is_expanse l = true → is_Some (sync_new_loop (S := S) NODE_CAPS)) →
  (is_expanse l = false → draws_real (4 + (Z.to_nat records + ops_cost ops)) (fill_rng l)) →
  fill_room B l records (4 + records + Z.of_nat (ops_cost ops)) →
  Forall (op_ok l) ops → lane_of w = l → irq_on w = false → points w = [] →
  ∃ w1 w2, lane_fill cyc us freed true (true, true, true) records now w = Some (true, w1) ∧
    count (lane_of w1) = records ∧
    run_ops ops (armed w1) = Some (tt, w2) ∧ irq_on w2 = true ∧ Forall reads_right (points w2).
Proof.
  intros Hsh Hr Hc Hn Hd Hroom Hops Hl Hon Hp.
  destruct (tri_lane_fill cyc us B arena_holds (ops_cost ops) l freed records now Hsh Hr Hc Hn Hd Hroom w)
    as (ok & w1 & l1 & on1 & Hfill & Hat1 & -> & tbl & own & Hinv & Hcnt & _ & He); [by split_and!; [..|rewrite Hp]|].
  destruct Hat1 as (<- & _ & _).
  destruct (tri_run_ops 0 ops (lane_of w1) tbl own) with (w := armed w1)
    as ([] & w2 & l2 & on2 & Hrun & Hat2 & -> & _).
  - eapply Forall_impl; [exact Hops|]. intros [] Hx; cbn in *; try done. by rewrite He.
  - by rewrite Nat.add_0_r.
  - by split_and!.
  - exists w1, w2. destruct Hat2 as (_ & Hon2 & Hpts). split_and!; try done.
    eapply Forall_impl; [exact Hpts|]. intros [ov l'] Hg. by apply isr_reads_good.
Qed.

(** ** What a sweep removes *)
(** Both lanes' tests, before the time key's 24 bits run out. *)
Lemma expired_early l now r :
  0 <= now → now + TTL_MS + 1000 < 2 ^ 24 → 0 <= r_born_ms r < 2 ^ 24 →
  expired l now r = (r_born_ms r <=? now + 1000).
Proof.
  unfold expired, TTL_MS. intros Hn Ht Hb. destruct (is_expanse l).
  - by rewrite !Z.mod_small by lia.
  - rewrite !u32_small by (unfold is_u32; rewrite ?u32_small by (unfold is_u32; lia); lia).
    destruct (Z.leb_spec (r_born_ms r + 60000) (now + 60000 + 1000)), (Z.leb_spec (r_born_ms r) (now + 1000)); (done || lia).
Qed.

(** A sweep keeps exactly the records its lane lists that are younger than the
    time to live (the age counted from the lane's pretended clock,
    [now + TTL + 1000]), unchanged and under their keys.  The hash lane lists the
    devices of its table; the Expanse lane lists those of its time map, from which
    a record drops out when a later one takes its time key. *)
Theorem lane_sweep_listed n l w tbl own now i0 i1 :
  lane_inv N_TRACKED B n l tbl own → lane_of w = l → irq_on w = true → points w = [] →
  0 <= now → now + TTL_MS + 1000 < 2 ^ 24 →
  (∀ k r, recs l own !! k = Some r → 0 <= r_born_ms r < 2 ^ 24) →
  ∃ w' tbl' own', lane_sweep cyc now i0 i1 w = Some (tt, w') ∧ lane_inv N_TRACKED B n (lane_of w') tbl' own' ∧
    recs (lane_of w') own' = filter (λ e, now + TTL_MS + 1000 - r_born_ms e.2 < TTL_MS) (recs l own) ∧
    count (lane_of w') = count l -w u32 (Z.of_nat (size (recs l own)) - Z.of_nat (size (recs (lane_of w') own'))) ∧
    retire_n (lane_of w') = 0 ∧ is_expanse (lane_of w') = is_expanse l ∧ Forall reads_right (points w').
Proof.
  intros Hinv Hl Hon Hp Hn Ht Hborn.
  destruct (tri_lane_sweep cyc us N_TRACKED N_TRACKED ltac:(done) ltac:(done) B n l tbl own now i0 i1 Hinv) with (w := w)
    as ([] & w' & l' & on' & Hrun & (<- & _ & Hpts) & _ & He & tbl' & own' & Hinv' & Hrecs & Hc & Hrn).
  - intros _. unfold TTL_MS in *. rewrite !u32_small by (unfold is_u32; rewrite ?u32_small by (unfold is_u32; lia); lia).
    unfold TRACK_BORN. lia.
  - by split_and!; [..|rewrite Hp].
  - exists w', tbl', own'. split; [done|]. split; [done|]. split; [|split; [done|split; [done|split; [done|]]]].
    + rewrite Hrecs. apply map_filter_ext. intros k r Hk. cbn. rewrite (expired_early l now r) by eauto.
      rewrite Z.leb_gt. unfold TTL_MS. lia.
    + eapply Forall_impl; [exact Hpts|]. intros [ov l1] Hg. by apply isr_reads_good.
Qed.

(** ** Where the code falls short *)
(** With the retire list full, re-registering a tracked device takes a slot
    off the free stack and gives up without using it or putting it back: the
    slot is lost until the next fill. *)
Theorem lane_churn_leak l w now t idx :
  lane_of w = l → retire_n l >= RETIRE_MAX → 50 <= now -w last_churn_ms l →
  churn_cursor l mod Z.of_nat N_TRACKED = t → is_Some (arr_get (tracked_idx l) t) →
  1 <= free_top l → arr_get (free_stack l) (free_top l - 1) = Some idx →
  ∃ w', lane_churn cyc us now w = Some (tt, w') ∧
    lane_of w' = set_free_top (free_top l - 1) (set_churn_cursor (churn_cursor l +w 1) (set_last_churn_ms now l)).
Proof.
  intros Hl Hrn Hnow Ht [old Hold] Htop Hidx. destruct w as [lw on rd ac pts]. cbn [lane_of] in Hl. subst lw.
  assert ((free_top l =? 0) = false) as Hne by (apply Z.eqb_neq; lia).
  assert ((retire_n l >=? RETIRE_MAX) = true) as Hge by (rewrite Z.geb_leb; apply Z.leb_le; lia).
  unfold lane_churn, slot_alloc, the_lane, upd, lift, log, mbind, st_bind, mret, st_ret.
  cbn [lane_of irq_on mbind option_bind]. rewrite (proj2 (Z.ltb_ge _ _) Hnow), Ht, Hold.
  destruct on; cbn -[Z.add Z.sub Z.modulo Z.eqb Z.geb u32 arr_get RETIRE_MAX UINT32_MAX].
  all: rewrite Hne; cbn -[Z.add Z.sub Z.modulo Z.eqb Z.geb u32 arr_get RETIRE_MAX UINT32_MAX]; rewrite Hidx.
  all: cbn -[Z.add Z.sub Z.modulo Z.eqb Z.geb u32 arr_get RETIRE_MAX UINT32_MAX]; rewrite Hge, orb_true_r.
  all: eexists; split; reflexivity.
Qed.
End Theorems.

(** ** The masked hash lane *)
Section HashLane.
  Context {S M : Type} `{Sync32Laws S} `{ExpanseMapLaws M}.
  Implicit Types (l : @lane S M) (w : @world S M).


(** C27: a sweep of the masked hash lane (a scan of every slot of its table) keeps
    exactly the records younger than the time to live (the age counted from the
    lane's pretended clock, [now + TTL + 1000]), unchanged and under their keys; it
    takes the number removed off the count, empties the retire list, and leaves
    the invariant that the interrupt's reads rely on, with those reads right
    throughout.  The records are the devices of the table, [tbl], without the
    tracked ones; times are below 2^24 milliseconds. *)
Theorem lane_sweep_exact cyc B n l w tbl own now i0 i1 :
  is_expanse l = false → mode l = HASH_MASK_WHOLE ∨ mode l = HASH_MASK_PER_WRITE →
  lane_inv N_TRACKED B n l tbl own → lane_of w = l → irq_on w = true → points w = [] →
  0 <= now → now + TTL_MS + 1000 < 2 ^ 24 →
  (∀ k r, recs l own !! k = Some r → 0 <= r_born_ms r < 2 ^ 24) →
  (∀ k, own !! k = if decide (untracked k) then tbl !! k else None) ∧
  ∃ w' tbl' own', lane_sweep cyc now i0 i1 w = Some (tt, w') ∧ lane_inv N_TRACKED B n (lane_of w') tbl' own' ∧
    (∀ k, own' !! k = if decide (untracked k) then tbl' !! k else None) ∧
    recs (lane_of w') own' = filter (λ e, now + TTL_MS + 1000 - r_born_ms e.2 < TTL_MS) (recs l own) ∧
    count (lane_of w') = count l -w u32 (Z.of_nat (size (recs l own)) - Z.of_nat (size (recs (lane_of w') own'))) ∧
    retire_n (lane_of w') = 0 ∧ Forall reads_right (points w').
Proof.
  intros He _ Hinv Hl Hon Hp Hn Ht Hborn.
  assert (∀ l1 t1 o1, is_expanse l1 = false → lane_inv N_TRACKED B n l1 t1 o1 → ∀ k, o1 !! k = if decide (untracked k) then t1 !! k else None) as Hown.
  { intros l1 t1 o1 He1 Hi. pose proof (li_owned _ _ _ _ _ _ Hi) as Ho. unfold owned_by in Ho. rewrite He1 in Ho. apply Ho. }
  split; [by apply (Hown l)|].
  destruct (lane_sweep_listed cyc (0, 0) B n l w tbl own now i0 i1 Hinv Hl Hon Hp Hn Ht Hborn)
    as (w' & tbl' & own' & Hrun & Hinv' & Hrecs & Hc & Hrn & He' & Hpts).
  exists w', tbl', own'. split; [done|]. split; [done|]. split; [apply (Hown (lane_of w')); [congruence|done]|done].
Qed.
End HashLane.

(** ** Small lanes *)
Definition isr_zero : isr_stats := IsrStats 0 0 0 0 0 0 0 0 0 0 0 0 0 (replicate (Z.to_nat RING_LEN) 0).
Definition loop_zero : loop_stats :=
  LoopStats 0 0 0 0 0 0 (replicate (Z.to_nat REHASH_MAX) 0) 0 (replicate (Z.to_nat REHASH_MAX) 0) 0 0.
(** A lane as [lanes_init] leaves it, with [c] slots. *)
Definition fresh_lane (expanse : bool) (md : Z) (c : nat) : @lane toy (gmap Z Z) :=
  Lane expanse md false (replicate c (Rec 0 0 0)) (Z.of_nat c) (replicate c 0) 0 None None None
    (replicate N_TRACKED 0) (replicate N_TRACKED 0) (replicate (Z.to_nat RETIRE_MAX) 0) 0 0 0 0 0 0 0 0 0 isr_zero loop_zero.
Definition fresh_world (expanse : bool) (md : Z) (c : nat) : @world toy (gmap Z Z) :=
  World (fresh_lane expanse md c) false 0 (Acct 0 0) [].
Definition demo_cyc (n : nat) : Z := 100 * Z.of_nat n.
Definition demo_ops : list lane_op := [OpChurn 60; OpSweep 1000 0 0; OpChurn 130; OpSweep 70000 0 0].

Lemma toy_arena (s : toy) k v :
  Z.of_nat (size (contents s)) < TOY_CAP → (sync32_try_insert s k v).1 ≠ EXPANSE_SYNC32_ARENA_FULL.
Proof.
  intros Hs. cbn in *. destruct (4 <=? toy_parked s); [done|].
  rewrite (proj2 (Z.leb_gt _ _) Hs). done.
Qed.
Lemma fresh_shape b md : b = true ∨ md = HASH_MASK_WHOLE ∨ md = HASH_MASK_PER_WRITE → lane_shape (fresh_lane b md 16).
Proof. intros Hm. by constructor. Qed.
Fixpoint draws_realb (n : nat) (rng : Z) : bool :=
  match n with
  | O => true
  | Datatypes.S n =>
      match fresh_id ID_DRAWS rng with Some id => bool_decide (real id) && draws_realb n id | None => true end
  end.
Lemma draws_realb_ok n r : draws_realb n r = true → draws_real n r.
Proof.
  revert r. induction n as [|n IH]; intros r; cbn [draws_realb draws_real]; [done|].
  intros Hb id Hid. rewrite Hid in Hb. apply andb_true_iff in Hb as [Hr Hn]. split; [by apply bool_decide_eq_true in Hr|by apply IH].
Qed.


Lemma lane_churn_leak_witness :
  ∃ w', lane_churn demo_cyc (64, 64) 60
          (World (set_retire_n RETIRE_MAX (set_free_top 16 (fresh_lane true 0 16))) true 0 (Acct 0 0) []) = Some (tt, w') ∧
    free_top (lane_of w') = 15.
Proof.
  destruct (lane_churn_leak demo_cyc (64, 64) (set_retire_n RETIRE_MAX (set_free_top 16 (fresh_lane true 0 16)))
    (World (set_retire_n RETIRE_MAX (set_free_top 16 (fresh_lane true 0 16))) true 0 (Acct 0 0) []) 60 0 0) as (w' & Hw & Hl).
  - reflexivity.
  - intros Hx. discriminate Hx.
  - vm_compute. discriminate.
  - reflexivity.
  - exists 0. reflexivity.
  - vm_compute. discriminate.
  - reflexivity.
  - exists w'. split; [exact Hw|]. rewrite Hl. reflexivity.
Defined.

(** The small hash lane, filled with three records. *)
Lemma small_fill :
  ∃ w1 tbl own, lane_fill demo_cyc (64, 64) (None, None, None) true (true, true, true) 3 0
                  (fresh_world false HASH_MASK_PER_WRITE 16) = Some (true, w1) ∧
    lane_inv N_TRACKED TOY_CAP 2 (lane_of w1) tbl own.
Proof.
  destruct (tri_lane_fill demo_cyc (64, 64) TOY_CAP toy_arena 2 (fresh_lane false HASH_MASK_PER_WRITE 16) (None, None, None) 3 0)
    with (w := fresh_world false HASH_MASK_PER_WRITE 16) as (ok & w1 & l1 & on1 & Hf & (<- & _ & _) & -> & tbl & own & Hinv & _).
  - apply fresh_shape. by right; right.
  - done.
  - done.
  - done.
  - intros _. apply draws_realb_ok. vm_compute. reflexivity.
  - vm_compute. repeat split; (discriminate || reflexivity).
  - by split_and!.
  - exists w1, tbl, own. split; [exact Hf|exact Hinv].
Qed.
(** Its records' times fit in 24 bits. *)
Definition young (l : @lane toy (gmap Z Z)) : bool :=
  forallb (λ r, negb (bool_decide (untracked (r_id r))) || (0 <=? r_born_ms r) && (r_born_ms r <? 2 ^ 24)) (slab l).
Lemma young_recs l own : slots_ok N_TRACKED l own → young l = true → ∀ k r, recs l own !! k = Some r → 0 <= r_born_ms r < 2 ^ 24.
Proof.
  intros Hs Hy k r. unfold recs. rewrite lookup_omap. destruct (own !! k) as [i|] eqn:Hk; [|done]. cbn. intros Hr.
  destruct (so_own _ _ _ Hs k i Hk) as (_ & _ & r' & Hr' & Hu). assert (r' = r) as -> by congruence.
  unfold young in Hy. rewrite forallb_forall in Hy. specialize (Hy r). rewrite bool_decide_eq_true_2 in Hy by done.
  assert (In r (slab l)) as Hin by (apply list_elem_of_In; eapply arr_get_elem_of; eauto).
  specialize (Hy Hin). cbn in Hy. bool_facts. lia.
Qed.
Lemma small_young w1 :
  lane_fill demo_cyc (64, 64) (None, None, None) true (true, true, true) 3 0
    (fresh_world false HASH_MASK_PER_WRITE 16) = Some (true, w1) → young (lane_of w1) = true.
Proof.
  intros Hf. assert (match lane_fill demo_cyc (64, 64) (None, None, None) true (true, true, true) 3 0
            (fresh_world false HASH_MASK_PER_WRITE 16) with Some (_, w) => young (lane_of w) | None => false end = true) as Hc
    by (vm_compute; reflexivity).
  by rewrite Hf in Hc.
Qed.
Lemma small_mode w1 :
  lane_fill demo_cyc (64, 64) (None, None, None) true (true, true, true) 3 0
    (fresh_world false HASH_MASK_PER_WRITE 16) = Some (true, w1) →
  is_expanse (lane_of w1) = false ∧ mode (lane_of w1) = HASH_MASK_PER_WRITE.
Proof.
  intros Hf. assert (match lane_fill demo_cyc (64, 64) (None, None, None) true (true, true, true) 3 0
            (fresh_world false HASH_MASK_PER_WRITE 16) with
            | Some (_, w) => negb (is_expanse (lane_of w)) && (mode (lane_of w) =? HASH_MASK_PER_WRITE) | None => false end = true) as Hc
    by (vm_compute; reflexivity).
  rewrite Hf in Hc. apply andb_true_iff in Hc as [He Hm]. split; [by apply negb_true_iff|by apply Z.eqb_eq].
Qed.
Lemma lane_sweep_exact_witness :
  ∃ w1 w', lane_fill demo_cyc (64, 64) (None, None, None) true (true, true, true) 3 0
             (fresh_world false HASH_MASK_PER_WRITE 16) = Some (true, w1) ∧
    lane_sweep demo_cyc 30000 0 0 (armed w1) = Some (tt, w') ∧ retire_n (lane_of w') = 0 ∧ Forall reads_right (points w').
Proof.
  destruct small_fill as (w1 & tbl & own & Hf & Hinv). exists w1.
  destruct (lane_sweep_exact demo_cyc TOY_CAP 2 (lane_of w1) (armed w1) tbl own 30000 0 0)
    as (_ & w' & tbl' & own' & Hrun & _ & _ & _ & _ & Hrn & Hp); try reflexivity.
  - exact (proj1 (small_mode w1 Hf)).
  - right. exact (proj2 (small_mode w1 Hf)).
  - exact Hinv.
  - discriminate.
  - apply (young_recs (lane_of w1) own); [apply Hinv|by apply small_young].
  - exists w'. by split_and!.
Defined.
Lemma isr_zero_wf : isr_wf isr_zero.
Proof.
  constructor; [cbn [ring isr_zero]; rewrite length_replicate; unfold RING_LEN; lia|split; [discriminate|reflexivity]..|].
  discriminate.
Qed.
Lemma lane_isr_ledger_witness :
  ∃ w1 i', lane_fill demo_cyc (64, 64) (None, None, None) true (true, true, true) 3 0
             (fresh_world false HASH_MASK_PER_WRITE 16) = Some (true, w1) ∧
    lane_isr false (set_isr isr_zero (lane_of w1)) 45000 100 0 0 = Some (set_isr i' (set_isr isr_zero (lane_of w1))) ∧
    blocked_ms i' = 2 ∧ isr_ok i' = 4 ∧ isr_nf i' = 0.
Proof.
  destruct small_fill as (w1 & tbl & own & Hf & Hinv). exists w1.
  destruct (lane_isr_ledger false (set_isr isr_zero (lane_of w1)) 45000 100 0 0)
    as (i' & Hi & _ & _ & Hb & Hnf & _ & Hok & _).
  - assert (good N_TRACKED (lane_of w1)) as Hg by (eapply (li_good N_TRACKED N_TRACKED); [apply Nat.le_refl|apply Nat.le_refl|exact Hinv]).
    split; [by right|exact Hg].
  - exact isr_zero_wf.
  - split; [discriminate|reflexivity].
  - split; [discriminate|reflexivity].
  - reflexivity.
  - exists i'. split; [exact Hf|]. split; [exact Hi|]. split; [exact Hb|]. split; [exact Hok|exact Hnf].
Defined.

(** The masked hash lane enables its interrupt while it is being filled.
    [begin_step] runs the fill with the timer interrupt disabled, but the first
    insertion's [lane_unmask] enables it again; a tick taken then finds tracked
    devices missing and its ring slot says so. *)
Theorem lane_fill_unmasks :
  ∃ w1 p, lane_fill demo_cyc (64, 64) (None, None, None) true (true, true, true) 3 0
            (fresh_world false HASH_MASK_PER_WRITE 16) = Some (true, w1) ∧
    p ∈ points w1 ∧ snd <$> isr_reads N_TRACKED p.1 p.2 0 SLOT_VALUE = Some SLOT_WRONG.
Proof.
  destruct (lane_fill _ _ _ _ _ _ _ _) as [[ok w1]|] eqn:Hf; [|exfalso; vm_compute in Hf; discriminate].
  assert (match lane_fill demo_cyc (64, 64) (None, None, None) true (true, true, true) 3 0
            (fresh_world false HASH_MASK_PER_WRITE 16) with
          | Some (ok, w1) => ok && match last (points w1) with
              | Some p => bool_decide (snd <$> isr_reads N_TRACKED p.1 p.2 0 SLOT_VALUE = Some SLOT_WRONG)
              | None => false end
          | None => false end = true) as Hc by (vm_compute; reflexivity).
  rewrite Hf in Hc. apply andb_true_iff in Hc as [Hok Hp]. destruct (last (points w1)) as [p|] eqn:Hl; [|done].
  exists w1, p. apply bool_decide_eq_true in Hp. split; [by destruct ok|]. split; [|done].
  apply last_Some_elem_of in Hl. exact Hl.
Qed.
