(* ===== verification/Fonts.v ===== *)
(** * The demo's font atlases

    The four fonts of [src/integrations/stm32h747/demo/CM7/Core/Inc/fonts.h],
    byte for byte: 2-bit coverage, most significant pair first, rows of
    [ceil (w / 4)] bytes, and the glyph table of the 95 printable characters. *)
From Stdlib Require Import ZArith List String Ascii.
Import ListNotations.
Open Scope Z_scope.

(** [adv] is the pen advance, [dx] the left bearing, [off] the first row's byte. *)
Record glyph_t := Glyph { g_w : Z; g_adv : Z; g_dx : Z; g_off : Z }.
Record font_t := Font { bits : list Z; glyphs : list glyph_t; f_h : Z; f_base : Z }.

(** The initialisers of the bit arrays are kept as text: two hexadecimal digits
    a byte, one line of the header a line.  [atlas] is the array they denote. *)
Definition hex_digit (c : ascii) : option Z :=
  let n := Z.of_N (N_of_ascii c) in
  if ((48 <=? n) && (n <=? 57))%bool then Some (n - 48) else if ((97 <=? n) && (n <=? 102))%bool then Some (n - 87) else None.
Fixpoint atlas (s : string) : list Z :=
  match s with
  | String a (String b s) =>
      match hex_digit a, hex_digit b with
      | Some x, Some y => (16 * x + y) :: match s with String _ s => atlas s | EmptyString => [] end
      | _, _ => []
      end
  | _ => []
  end.

Definition mono16_bits_0 : list Z := atlas
"00 00 00 00 00 00 00 00 00 00 00 00 00 00 00 00 00 00 00 00 00 00 00 00
00 00 00 00 00 00 00 00 00 00 00 00 00 00 00 00 00 00 00 00 00 00 00 00
00 00 00 00 00 00 00 00 00 00 00 00 00 00 00 00 d0 00 00 d0 00 00 d0 00
00 d0 00 00 d0 00 00 c0 00 00 c0 00 00 00 00 00 00 00 00 d0 00 00 d0 00
00 00 00 00 00 00 00 00 00 00 00 00 00 00 00 00 00 00 00 00 00 0b 28 00
0b 28 00 0b 28 00 0b 28 00 00 00 00 00 00 00 00 00 00 00 00 00 00 00 00
00 00 00 00 00 00 00 00 00 00 00 00 00 00 00 00 00 00 00 00 00 00 00 00
00 00 00 01 c7 00 02 8a 00 03 4d 00 3f ff c0 07 1c 00 0a 28 00 09 24 00
ff ff 00 0c 70 00 18 a0 00 24 d0 00 00 00 00 00 00 00 00 00 00 00 00 00
00 00 00 00 00 00 00 80 00 00 80 00 07 f8 00 1d 85 00 2c 80 00 1c 80 00
0f d0 00 01 fd 00 00 8b 00 00 87 00 24 8b 00 0b f8 00 00 80 00 00 80 00
00 00 00 00 00 00 00 00 00 00 00 00 00 00 00 2e 00 00 a1 80 00 90 c0 00
a1 80 00 2e 1a 00 02 e0 00 29 2e 00 00 a2 80 00 c1 80 00 92 80 00 2e 00
00 00 00 00 00 00 00 00 00 00 00 00 00 00 00 00 00 00 00 00 00 07 f4 00
0d 00 00 0c 00 00 0e 00 00 1f 40 00 35 c1 c0 70 b1 80 b0 3a 80 70 1f 00
3c 1f 00 0b e7 80 00 00 00 00 00 00 00 00 00 00 00 00 00 00 00 00 00 00
00 00 00 00 c0 00 00 c0 00 00 c0 00 00 c0 00 00 00 00 00 00 00 00 00 00
00 00 00 00 00 00 00 00 00 00 00 00 00 00 00 00 00 00 00 00 00 00 00 00
00 00 00 00 00 00 00 00 00 00 30 00 00 a0 00 00 d0 00 01 c0 00 02 c0 00
03 80 00 03 80 00 03 80 00 02 c0 00 01 c0 00 00 d0 00 00 a0 00 00 30 00
00 00 00 00 00 00 00 00 00 00 00 00 00 00 00 03 00 00 02 80 00 01 c0 00
00 d0 00 00 a0 00 00 b0 00 00 b0 00 00 b0 00 00 a0 00 00 d0 00 01 c0 00
02 80 00 03 00 00 00 00 00 00 00 00 00 00 00 00 00 00 00 00 00 00 c0 00
18 c6 00 06 e4 00 06 e4 00 18 c6 00 00 c0 00 00 00 00 00 00 00 00 00 00
00 00 00 00 00 00 00 00 00 00 00 00 00 00 00 00 00 00 00 00 00 00 00 00
00 00 00 00 00 00 00 00 00 00 00 00 00 c0 00 00 c0 00 00 c0 00 7f ff 40
00 c0 00 00 c0 00 00 c0 00 00 00 00 00 00 00 00 00 00 00 00 00 00 00 00
00 00 00 00 00 00 00 00 00 00 00 00 00 00 00 00 00 00 00 00 00 00 00 00
00 00 00 00 00 00 00 00 00 00 00 00 01 e0 00 01 d0 00 02 c0 00 03 40 00
00 00 00 00 00 00 00 00 00 00 00 00 00 00 00 00 00 00 00 00 00 00 00 00
00 00 00 00 00 00 00 00 00 07 f4 00 00 00 00 00 00 00 00 00 00 00 00 00
00 00 00 00 00 00 00 00 00 00 00 00 00 00 00 00 00 00 00 00 00 00 00 00
00 00 00 00 00 00 00 00 00 00 00 00 00 00 00 00 00 00 00 00 00 00 00 00
01 d0 00 01 d0 00 00 00 00 00 00 00 00 00 00 00 00 00 00 00 00 00 00 00
00 00 00 00 0a 00 00 0c 00 00 28 00 00 30 00 00 a0 00 00 d0 00 02 c0 00
03 40 00 0b 00 00 0d 00 00 2c 00 00 34 00 00 00 00 00 00 00 00 00 00 00
00 00 00 00 00 00 00 00 00 07 f4 00 0d 1c 00 2c 0e 00 38 0b 00 39 d7 00
35 d7 00 38 07 00 38 0b 00 2c 0e 00 0d 1c 00 07 f4 00 00 00 00 00 00 00
00 00 00 00 00 00 00 00 00 00 00 00 00 00 00 06 f0 00 09 b0 00 00 b0 00
00 b0 00 00 b0 00 00 b0 00 00 b0 00 00 b0 00 00 b0 00 00 b0 00 0f ff 00
00 00 00 00 00 00 00 00 00 00 00 00 00 00 00 00 00 00 00 00 00 0b f0 00
38 2c 00 10 0e 00 00 0e 00 00 1d 00 00 3c 00 00 b0 00 02 c0 00 0b 00 00
1c 00 00 3f ff 00 00 00 00 00 00 00 00 00 00 00 00 00 00 00 00 00 00 00
00 00 00 0b f4 00 24 1c 00 00 0e 00 00 0e 00 00 2c 00 03 f4 00 00 1d 00
00 0b 00 00 0b 00 24 1d 00 0b f4 00 00 00 00 00 00 00 00 00 00 00 00 00
00 00 00 00 00 00 00 00 00 00 3c 00 00 fc 00 02 ac 00 03 2c 00 0d 2c 00
1c 2c 00 30 2c 00 7f ff 40 00 2c 00 00 2c 00 00 2c 00 00 00 00 00 00 00
00 00 00 00 00 00 00 00 00 00 00 00 00 00 00 1f fc 00 1c 00 00 1c 00 00
1c 00 00 1f f0 00 14 2c 00 00 0e 00 00 0b 00 00 0e 00 24 2c 00 1f e0 00
00 00 00 00 00 00 00 00 00 00 00 00 00 00 00 00 00 00 00 00 00 02 f8 00
0e 04 00 2c 00 00 38 00 00 36 f8 00 3d 0e 00 3c 0b 00 38 07 00 2c 0b 00
0d 0e 00 07 f8 00 00 00 00 00 00 00 00 00 00 00 00 00 00 00 00 00 00 00
00 00 00 3f ff 00 00 0e 00 00 1c 00 00 2c 00 00 34 00 00 70 00 00 e0 00
00 d0 00 02 c0 00 03 80 00 07 00 00 00 00 00 00 00 00 00 00 00 00 00 00
00 00 00 00 00 00 00 00 00 07 f4 00 1d 1d 00 2c 0a 00 2c 0a 00 0d 1d 00
07 f4 00 1c 0e 00 38 0b 00 38 0b 00 2d 0e 00 0b f8 00 00 00 00 00 00 00
00 00 00 00 00 00 00 00 00 00 00 00 00 00 00 0b f4 00 2c 1c 00 38 0e 00
34 0b 00 38 0f 00 2c 1f 00 0b e7 00 00 0b 00 00 0e 00 04 2c 00 0b e0 00
00 00 00 00 00 00 00 00 00 00 00 00 00 00 00 00 00 00 00 00 00 00 00 00
00 00 00 00 00 00 01 d0 00 01 d0 00 00 00 00 00 00 00 00 00 00 00 00 00
01 d0 00 01 d0 00 00 00 00 00 00 00 00 00 00 00 00 00 00 00 00 00 00 00
00 00 00 00 00 00 00 00 00 00 00 00 01 d0 00 01 d0 00 00 00 00 00 00 00
00 00 00 00 00 00 01 e0 00 01 d0 00 02 c0 00 03 40 00 00 00 00 00 00 00
00 00 00 00 00 00 00 00 00 00 00 00 00 00 00 00 00 00 00 06 40 00 be 00
1f 90 00 78 00 00 1f 90 00 00 be 00 00 06 40 00 00 00 00 00 00 00 00 00
00 00 00 00 00 00 00 00 00 00 00 00 00 00 00 00 00 00 00 00 00 00 00 00
00 00 00 7f ff 40 00 00 00 00 00 00 7f ff 40 00 00 00 00 00 00 00 00 00
00 00 00 00 00 00 00 00 00 00 00 00 00 00 00 00 00 00 00 00 00 00 00 00
00 00 00 00 00 00 64 00 00 2f 80 00 01 bd 00 00 0b 40 01 bd 00 2f 80 00
64 00 00 00 00 00 00 00 00 00 00 00 00 00 00 00 00 00 00 00 00 00 00 00
00 00 00 07 f4 00 08 1d 00 00 0e 00 00 1d 00 00 78 00 00 e0 00 01 c0 00
01 c0 00 00 00 00 01 c0 00 01 c0 00 00 00 00 00 00 00 00 00 00 00 00 00
00 00 00 00 00 00 00 00 00 00 00 00 02 fc 00 1d 07 00 34 02 40 60 be 80
92 83 80 d3 01 80 d3 01 80 92 83 80 70 be 80 34 00 00 0e 00 00 02 fd 00
00 00 00 00 00 00 00 00 00 00 00 00 00 00 00 02 e0 00 03 f0 00 03 70 00
07 34 00 0e 2c 00 0d 1c 00 1c 0d 00 2f fe 00 34 07 00 70 03 40 b0 03 80
00 00 00 00 00 00 00 00 00 00 00 00 00 00 00 00 00 00 00 00 00 3f f8 00
38 0e 00 38 0b 00 38 0b 00 38 0e 00 3f f8 00 38 0f 00 38 07 00 38 03 40
38 0b 00 3f f8 00 00 00 00 00 00 00 00 00 00 00 00 00 00 00 00 00 00 00
00 00 00 02 fc 00 0f 07 00 1c 01 00 3c 00 00 38 00 00 38 00 00 38 00 00
3c 00 00 1c 01 00 0f 07 00 02 fc 00 00 00 00 00 00 00 00 00 00 00 00 00
00 00 00 00 00 00 00 00 00 3f e0 00 34 2c 00 34 0e 00 34 0b 00 34 0b 00
34 07 00 34 07 00 34 0b 00 34 0e 00 34 2c 00 3f e0 00 00 00 00 00 00 00
00 00 00 00 00 00 00 00 00 00 00 00 00 00 00 2f ff 00 2c 00 00 2c 00 00
2c 00 00 2c 00 00 2f fe 00 2c 00 00 2c 00 00 2c 00 00 2c 00 00 2f ff 00
00 00 00 00 00 00 00 00 00 00 00 00 00 00 00 00 00 00 00 00 00 1f ff 00
1c 00 00 1c 00 00 1c 00 00 1c 00 00 1f fe 00 1c 00 00 1c 00 00 1c 00 00
1c 00 00 1c 00 00 00 00 00 00 00 00 00 00 00 00 00 00 00 00 00 00 00 00
00 00 00 02 f8 00 0e 0a 00 2c 01 00 38 00 00 34 00 00 34 3f 00 34 07 00
34 07 00 2c 07 00 0e 0b 00 02 fd 00 00 00 00 00 00 00 00 00 00 00 00 00
00 00 00 00 00 00 00 00 00 34 07 00 34 07 00 34 07 00 34 07 00 34 07 00
3f ff 00 34 07 00 34 07 00 34 07 00 34 07 00 34 07 00 00 00 00 00 00 00
00 00 00 00 00 00 00 00 00 00 00 00 00 00 00 2f fe 00 00 d0 00 00 d0 00
00 d0 00 00 d0 00 00 d0 00 00 d0 00 00 d0 00 00 d0 00 00 d0 00 2f fe 00
00 00 00 00 00 00 00 00 00 00 00 00 00 00 00 00 00 00 00 00 00 07 fc 00
00 1c 00 00 1c 00 00 1c 00 00 1c 00 00 1c 00 00 1c 00 00 2c 00 00 2c 00
34 38 00 1f e0 00 00 00 00 00 00 00 00 00 00 00 00 00 00 00 00 00 00 00
00 00 00 34 07 40 34 1d 00 34 74 00 34 e0 00 3b c0 00 3f d0 00 38 b0 00
34 38 00 34 1d 00 34 0f 00 34 03 80 00 00 00 00 00 00 00 00 00 00 00 00
00 00 00 00 00 00 00 00 00 1c 00 00 1c 00 00 1c 00 00 1c 00 00 1c 00 00
1c 00 00 1c 00 00 1c 00 00 1c 00 00 1c 00 00 1f ff 40 00 00 00 00 00 00
00 00 00 00 00 00 00 00 00 00 00 00 00 00 00 7c 0f 40 7c 0f 40 79 1b 40
73 37 40 73 73 40 72 e3 40 70 c3 40 70 03 40 70 03 40 70 03 40 70 03 40
00 00 00 00 00 00 00 00 00 00 00 00 00 00 00 00 00 00 00 00 00 3c 07 00
3e 07 00 3f 07 00 37 47 00 36 87 00 34 c7 00 34 a7 00 34 77 00 34 3f 00
34 1f 00 34 0f 00 00 00 00 00 00 00 00 00 00 00 00 00 00 00 00 00 00 00
00 00 00 07 f4 00 1d 1d 00 28 0b 00 38 0b 00 34 07 00 34 07 00 34 07 00
38 0b 00 28 0b 00 1d 1d 00 07 f4 00 00 00 00 00 00 00 00 00 00 00 00 00
00 00 00 00 00 00 00 00 00 2f f8 00 2c 0f 00 2c 07 00 2c 03 40 2c 07 00
2c 0f 00 2f f8 00 2c 00 00 2c 00 00 2c 00 00 2c 00 00 00 00 00 00 00 00
00 00 00 00 00 00 00 00 00 00 00 00 00 00 00 07 f4 00 1d 1d 00 28 0b 00
38 0b 00 34 07 00 34 07 00 34 07 00 38 0b 00 28 0b 00 1d 1d 00 07 f8 00
00 3c 00 00 0c 00 00 00 00 00 00 00 00 00 00 00 00 00 00 00 00 3f f4 00
38 1d 00 38 0e 00 38 0e 00 38 1d 00 3f f4 00 38 3c 00 38 0d 00 38 0b 00
38 03 40 38 03 c0 00 00 00 00 00 00 00 00 00 00 00 00 00 00 00 00 00 00
00 00 00 07 f4 00 1d 0d 00 38 01 00 38 00 00 2d 00 00 07 f4 00 00 1e 00
00 07 00 10 07 00 38 1e 00 0b f8 00 00 00 00 00 00 00 00 00 00 00 00 00
00 00 00 00 00 00 00 00 00 bf ff 80 00 d0 00 00 d0 00 00 d0 00 00 d0 00
00 d0 00 00 d0 00 00 d0 00 00 d0 00 00 d0 00 00 d0 00 00 00 00 00 00 00
00 00 00 00 00 00 00 00 00 00 00 00 00 00 00 38 0b 00 38 0b 00 38 0b 00
38 0b 00 38 0b 00 38 0b 00 38 0b 00 38 0b 00 38 0b 00 1d 1e 00 07 f4 00
00 00 00 00 00 00 00 00 00 00 00 00 00 00 00 00 00 00 00 00 00 70 03 40
34 07 00 38 0b 00 2c 0e 00 1c 0d 00 0d 1c 00 0a 28 00 07 34 00 03 70 00
03 f0 00 02 e0 00 00 00 00 00 00 00 00 00 00 00 00 00 00 00 00 00 00 00
00 00 00 d0 01 c0 e0 02 c0 a0 02 80 71 d3 80 72 e3 40 33 b3 00 33 33 00
3b 3b 00 2e 2f 00 2d 1e 00 1c 0d 00 00 00 00 00 00 00 00 00 00 00 00 00
00 00 00 00 00 00 00 00 00 38 03 40 1c 0e 00 0e 1c 00 03 74 00 02 f0 00
01 e0 00 03 b0 00 0b 2c 00 1d 0d 00 38 0b 00 b0 03 80 00 00 00 00 00 00
00 00 00 00 00 00 00 00 00 00 00 00 00 00 00 70 03 40 38 0b 00 1c 0d 00
0b 28 00 03 b0 00 02 e0 00 00 d0 00 00 d0 00 00 d0 00 00 d0 00 00 d0 00
00 00 00 00 00 00 00 00 00 00 00 00 00 00 00 00 00 00 00 00 00 2f ff 40
00 0b 00 00 0e 00 00 3c 00 00 b0 00 00 e0 00 03 c0 00 07 40 00 0e 00 00
2c 00 00 3f ff 80 00 00 00 00 00 00 00 00 00 00 00 00 00 00 00 00 00 00
00 00 00 02 f8 00 02 80 00 02 80 00 02 80 00 02 80 00 02 80 00 02 80 00
02 80 00 02 80 00 02 80 00 02 80 00 02 80 00 02 f8 00 00 00 00 00 00 00
00 00 00 00 00 00 00 00 00 34 00 00 2c 00 00 0d 00 00 0b 00 00 03 40 00
02 c0 00 00 d0 00 00 a0 00 00 30 00 00 28 00 00 0c 00 00 0a 00 00 00 00
00 00 00 00 00 00 00 00 00 00 00 00 00 00 00 07 e0 00 00 a0 00 00 a0 00
00 a0 00 00 a0 00 00 a0 00 00 a0 00 00 a0 00 00 a0 00 00 a0 00 00 a0 00
00 a0 00 07 e0 00 00 00 00 00 00 00 00 00 00 00 00 00 00 00 00 02 e0 00
07 74 00 0d 1d 00 34 07 00 00 00 00 00 00 00 00 00 00 00 00 00 00 00 00
00 00 00 00 00 00 00 00 00 00 00 00 00 00 00 00 00 00 00 00 00 00 00 00
00 00 00 00 00 00 00 00 00 00 00 00 00 00 00 00 00 00 00 00 00 00 00 00
00 00 00 00 00 00 00 00 00 00 00 00 00 00 00 00 00 00 00 00 00 ff ff c0
00 00 00 00 00 00 0b 00 00 03 80 00 00 c0 00 00 00 00 00 00 00 00 00 00
00 00 00 00 00 00 00 00 00 00 00 00 00 00 00 00 00 00 00 00 00 00 00 00
00 00 00 00 00 00 00 00 00 00 00 00 00 00 00 00 00 00 00 00 00 00 00 00
07 f4 00 18 0d 00 00 0a 00 0b fe 00 2c 0b 00 34 0f 00 38 2f 00 0f eb 00
00 00 00 00 00 00 00 00 00 00 00 00 00 00 00 00 00 00 00 00 00 2c 00 00".
Definition mono16_bits_1 : list Z := atlas
"2c 00 00 2c 00 00 2e f8 00 2e 0e 00 2c 0b 00 2c 07 00 2c 07 00 2c 07 00
2e 0d 00 2e f8 00 00 00 00 00 00 00 00 00 00 00 00 00 00 00 00 00 00 00
00 00 00 00 00 00 00 00 00 00 00 00 02 fc 00 0f 02 00 1c 00 00 2c 00 00
2c 00 00 1c 00 00 0f 02 00 02 fc 00 00 00 00 00 00 00 00 00 00 00 00 00
00 00 00 00 00 00 00 00 00 00 0a 00 00 0a 00 00 0a 00 0b ea 00 1d 2e 00
38 0e 00 34 0e 00 34 0e 00 38 0e 00 1c 2e 00 0b ea 00 00 00 00 00 00 00
00 00 00 00 00 00 00 00 00 00 00 00 00 00 00 00 00 00 00 00 00 00 00 00
07 f4 00 1d 0d 00 38 07 00 34 07 00 3f ff 00 34 00 00 1d 06 00 07 f8 00
00 00 00 00 00 00 00 00 00 00 00 00 00 00 00 00 00 00 00 00 00 00 bf 00
00 c0 00 01 c0 00 2f ff 00 01 c0 00 01 c0 00 01 c0 00 01 c0 00 01 c0 00
01 c0 00 01 c0 00 00 00 00 00 00 00 00 00 00 00 00 00 00 00 00 00 00 00
00 00 00 00 00 00 00 00 00 00 00 00 0b ea 00 1d 2e 00 38 0e 00 34 0e 00
34 0e 00 38 0e 00 1d 2e 00 0b ea 00 00 0d 00 08 1c 00 07 f4 00 00 00 00
00 00 00 00 00 00 00 00 00 2c 00 00 2c 00 00 2c 00 00 2d f8 00 2e 0d 00
2c 0a 00 2c 0a 00 2c 0a 00 2c 0a 00 2c 0a 00 2c 0a 00 00 00 00 00 00 00
00 00 00 00 00 00 00 00 00 00 00 00 00 00 00 00 d0 00 00 d0 00 00 00 00
0f d0 00 00 d0 00 00 d0 00 00 d0 00 00 d0 00 00 d0 00 00 d0 00 2f ff 00
00 00 00 00 00 00 00 00 00 00 00 00 00 00 00 00 00 00 00 00 00 00 b0 00
00 b0 00 00 00 00 0f f0 00 00 b0 00 00 b0 00 00 b0 00 00 b0 00 00 b0 00
00 b0 00 00 b0 00 00 a0 00 00 d0 00 2f 80 00 00 00 00 00 00 00 00 00 00
00 00 00 1c 00 00 1c 00 00 1c 00 00 1c 0e 00 1c 38 00 1d e0 00 1f d0 00
1d 70 00 1c 2c 00 1c 0e 00 1c 03 40 00 00 00 00 00 00 00 00 00 00 00 00
00 00 00 00 00 00 00 00 00 3f 80 00 02 80 00 02 80 00 02 80 00 02 80 00
02 80 00 02 80 00 02 80 00 02 80 00 01 c0 00 00 be 00 00 00 00 00 00 00
00 00 00 00 00 00 00 00 00 00 00 00 00 00 00 00 00 00 00 00 00 00 00 00
3b ae 00 35 d3 00 30 c3 40 30 c3 40 30 c3 40 30 c3 40 30 c3 40 30 c3 40
00 00 00 00 00 00 00 00 00 00 00 00 00 00 00 00 00 00 00 00 00 00 00 00
00 00 00 00 00 00 2d f8 00 2e 0d 00 2c 0a 00 2c 0a 00 2c 0a 00 2c 0a 00
2c 0a 00 2c 0a 00 00 00 00 00 00 00 00 00 00 00 00 00 00 00 00 00 00 00
00 00 00 00 00 00 00 00 00 00 00 00 07 f4 00 1d 1d 00 38 0b 00 34 07 00
34 07 00 38 0b 00 1d 1d 00 07 f4 00 00 00 00 00 00 00 00 00 00 00 00 00
00 00 00 00 00 00 00 00 00 00 00 00 00 00 00 00 00 00 2e f8 00 2e 0d 00
2c 0b 00 2c 07 00 2c 07 00 2c 0b 00 2e 0d 00 2e f8 00 2c 00 00 2c 00 00
2c 00 00 00 00 00 00 00 00 00 00 00 00 00 00 00 00 00 00 00 00 00 00 00
07 ea 00 1d 1e 00 38 0e 00 34 0a 00 34 0a 00 38 0e 00 1d 1e 00 0b ea 00
00 0a 00 00 0a 00 00 0a 00 00 00 00 00 00 00 00 00 00 00 00 00 00 00 00
00 00 00 00 00 00 07 2f 00 07 91 40 07 40 00 07 00 00 07 00 00 07 00 00
07 00 00 07 00 00 00 00 00 00 00 00 00 00 00 00 00 00 00 00 00 00 00 00
00 00 00 00 00 00 00 00 00 00 00 00 07 f4 00 0d 08 00 1c 00 00 0f 90 00
01 7c 00 00 0d 00 18 1d 00 07 f4 00 00 00 00 00 00 00 00 00 00 00 00 00
00 00 00 00 00 00 00 00 00 00 00 00 03 80 00 03 80 00 3f fe 00 03 80 00
03 80 00 03 80 00 03 80 00 03 80 00 02 c0 00 00 fe 00 00 00 00 00 00 00
00 00 00 00 00 00 00 00 00 00 00 00 00 00 00 00 00 00 00 00 00 00 00 00
2c 0a 00 2c 0a 00 2c 0a 00 2c 0a 00 2c 0a 00 2c 0e 00 1d 1e 00 0b ea 00
00 00 00 00 00 00 00 00 00 00 00 00 00 00 00 00 00 00 00 00 00 00 00 00
00 00 00 00 00 00 34 07 00 28 0a 00 1c 0d 00 0d 1c 00 0a 28 00 07 34 00
03 f0 00 02 e0 00 00 00 00 00 00 00 00 00 00 00 00 00 00 00 00 00 00 00
00 00 00 00 00 00 00 00 00 00 00 00 d0 01 c0 a0 02 80 70 c3 40 31 d3 00
36 77 00 2b 3a 00 1e 2d 00 0d 1c 00 00 00 00 00 00 00 00 00 00 00 00 00
00 00 00 00 00 00 00 00 00 00 00 00 00 00 00 00 00 00 38 0b 00 0d 1c 00
07 74 00 01 e0 00 02 f0 00 0b 38 00 1d 0d 00 34 07 00 00 00 00 00 00 00
00 00 00 00 00 00 00 00 00 00 00 00 00 00 00 00 00 00 00 00 00 00 00 00
34 03 00 2c 0b 00 0c 0d 00 0e 1c 00 07 28 00 03 74 00 02 f0 00 00 d0 00
01 c0 00 03 80 00 2e 00 00 00 00 00 00 00 00 00 00 00 00 00 00 00 00 00
00 00 00 00 00 00 1f fe 00 00 0d 00 00 38 00 00 e0 00 02 c0 00 07 00 00
1d 00 00 2f fe 00 00 00 00 00 00 00 00 00 00 00 00 00 00 00 00 00 00 00
00 00 00 00 7d 00 00 e0 00 00 d0 00 00 d0 00 00 c0 00 02 c0 00 1f 40 00
02 c0 00 00 c0 00 00 c0 00 00 d0 00 00 d0 00 00 e0 00 00 7d 00 00 00 00
00 00 00 00 00 00 00 00 00 00 c0 00 00 c0 00 00 c0 00 00 c0 00 00 c0 00
00 c0 00 00 c0 00 00 c0 00 00 c0 00 00 c0 00 00 c0 00 00 c0 00 00 c0 00
00 c0 00 00 c0 00 00 00 00 00 00 00 00 00 00 1f 40 00 02 c0 00 00 c0 00
00 c0 00 00 c0 00 00 e0 00 00 7d 00 00 e0 00 00 c0 00 00 c0 00 00 c0 00
01 c0 00 02 c0 00 1f 40 00 00 00 00 00 00 00 00 00 00 00 00 00 00 00 00
00 00 00 00 00 00 00 00 00 00 00 00 2f 81 40 50 7e 00 00 00 00 00 00 00
00 00 00 00 00 00 00 00 00 00 00 00 00 00 00 00 00 00".
Definition mono16_bits : list Z := mono16_bits_0 ++ mono16_bits_1.
Definition mono16_glyphs : list glyph_t :=
  [
   Glyph 9 9 0 0;
   Glyph 9 9 0 54;
   Glyph 9 9 0 108;
   Glyph 9 9 0 162;
   Glyph 9 9 0 216;
   Glyph 9 9 0 270;
   Glyph 9 9 0 324;
   Glyph 9 9 0 378;
   Glyph 9 9 0 432;
   Glyph 9 9 0 486;
   Glyph 9 9 0 540;
   Glyph 9 9 0 594;
   Glyph 9 9 0 648;
   Glyph 9 9 0 702;
   Glyph 9 9 0 756;
   Glyph 9 9 0 810;
   Glyph 9 9 0 864;
   Glyph 9 9 0 918;
   Glyph 9 9 0 972;
   Glyph 9 9 0 1026;
   Glyph 9 9 0 1080;
   Glyph 9 9 0 1134;
   Glyph 9 9 0 1188;
   Glyph 9 9 0 1242;
   Glyph 9 9 0 1296;
   Glyph 9 9 0 1350;
   Glyph 9 9 0 1404;
   Glyph 9 9 0 1458;
   Glyph 9 9 0 1512;
   Glyph 9 9 0 1566;
   Glyph 9 9 0 1620;
   Glyph 9 9 0 1674;
   Glyph 9 9 0 1728;
   Glyph 9 9 0 1782;
   Glyph 9 9 0 1836;
   Glyph 9 9 0 1890;
   Glyph 9 9 0 1944;
   Glyph 9 9 0 1998;
   Glyph 9 9 0 2052;
   Glyph 9 9 0 2106;
   Glyph 9 9 0 2160;
   Glyph 9 9 0 2214;
   Glyph 9 9 0 2268;
   Glyph 9 9 0 2322;
   Glyph 9 9 0 2376;
   Glyph 9 9 0 2430;
   Glyph 9 9 0 2484;
   Glyph 9 9 0 2538;
   Glyph 9 9 0 2592;
   Glyph 9 9 0 2646;
   Glyph 10 9 0 2700;
   Glyph 9 9 0 2754;
   Glyph 9 9 0 2808;
   Glyph 9 9 0 2862;
   Glyph 9 9 0 2916;
   Glyph 10 9 0 2970;
   Glyph 9 9 0 3024;
   Glyph 9 9 0 3078;
   Glyph 9 9 0 3132;
   Glyph 9 9 0 3186;
   Glyph 9 9 0 3240;
   Glyph 9 9 0 3294;
   Glyph 9 9 0 3348;
   Glyph 10 9 0 3402;
   Glyph 9 9 0 3456;
   Glyph 9 9 0 3510;
   Glyph 9 9 0 3564;
   Glyph 9 9 0 3618;
   Glyph 9 9 0 3672;
   Glyph 9 9 0 3726;
   Glyph 9 9 0 3780;
   Glyph 9 9 0 3834;
   Glyph 9 9 0 3888;
   Glyph 9 9 0 3942;
   Glyph 9 9 0 3996;
   Glyph 9 9 0 4050;
   Glyph 9 9 0 4104;
   Glyph 9 9 0 4158;
   Glyph 9 9 0 4212;
   Glyph 9 9 0 4266;
   Glyph 9 9 0 4320;
   Glyph 9 9 0 4374;
   Glyph 9 9 0 4428;
   Glyph 9 9 0 4482;
   Glyph 9 9 0 4536;
   Glyph 9 9 0 4590;
   Glyph 9 9 0 4644;
   Glyph 10 9 0 4698;
   Glyph 9 9 0 4752;
   Glyph 9 9 0 4806;
   Glyph 9 9 0 4860;
   Glyph 9 9 0 4914;
   Glyph 9 9 0 4968;
   Glyph 9 9 0 5022;
   Glyph 9 9 0 5076
  ].
Definition mono16 : font_t := Font mono16_bits mono16_glyphs 18 14.
Definition cond24_bits_0 : list Z := atlas
"00 00 00 00 00 00 00 00 00 00 00 00 00 00 00 00 00 00 00 00 00 00 00 00
00 00 00 00 00 00 00 00 00 00 00 00 00 00 00 00 00 00 00 00 00 00 00 00
00 00 00 00 00 00 00 00 00 00 00 00 00 00 00 00 03 f8 00 03 fc 00 03 fc
00 03 fc 00 03 fc 00 03 fc 00 03 fc 00 03 fc 00 03 fc 00 03 fc 00 03 fc
00 03 fc 00 01 f4 00 01 a4 00 03 fc 00 03 fc 00 03 fc 00 02 f8 00 00 00
00 00 00 00 00 00 00 00 00 00 00 00 00 00 00 00 00 00 00 00 00 00 0f ef
c0 0f ff c0 0f ff c0 0f ff c0 0f ff c0 0f ff c0 0f ff c0 0b df c0 00 00
00 00 00 00 00 00 00 00 00 00 00 00 00 00 00 00 00 00 00 00 00 00 00 00
00 00 00 00 00 00 00 00 00 00 00 00 00 00 00 00 00 00 00 00 00 00 00 00
00 00 00 00 00 00 00 00 00 00 00 00 00 01 f4 f8 00 00 03 fa fc 00 00 03
f7 fc 00 00 07 f3 f8 00 00 5b f7 f9 00 07 ff ff ff c0 07 ff ff ff c0 07
ff ff ff c0 00 6f df e5 00 00 3f df d0 00 1f ff ff ff 00 1f ff ff ff 00
1f ff ff ff 00 06 ff bf a9 00 00 fe bf 00 00 00 fd bf 00 00 01 fd fe 00
00 00 fc bd 00 00 00 00 00 00 00 00 00 00 00 00 00 00 00 00 00 00 00 00
00 00 00 00 00 00 00 00 00 00 00 00 00 00 00 0a 00 00 00 1f 80 00 00 1f
c0 00 00 bf fd 00 03 ff ff 00 0f ff ff 00 0f ff ef 00 1f ef 80 00 1f ff
80 00 0f ff e0 00 07 ff fe 00 01 ff ff 40 00 2f ff 80 00 1f ff c0 0e 1f
bf c0 1f ff ff 80 1f ff ff 40 0f ff fd 00 01 bf e0 00 00 1f 80 00 00 1f
80 00 00 0f 80 00 00 00 00 00 00 00 00 00 00 00 00 00 00 00 00 00 00 00
00 00 00 00 00 10 00 05 00 00 03 ff 00 3f 80 00 0f ff c0 7f 40 00 1f ff
d0 ff 00 00 2f cf e2 fd 00 00 3f 8f e3 fc 00 00 3f 8f eb f0 00 00 2f cf
ff e0 00 00 2f ff ff c5 00 00 0f ff ff ff f0 00 03 ff ff ff fc 00 00 55
ff ff fd 00 00 03 ff fc fe 00 00 07 f7 f8 fe 00 00 0f f3 f8 fe 00 00 2f
d3 fc fe 00 00 3f c2 ff fd 00 00 bf 00 ff f8 00 00 fe 00 3f e0 00 00 14
00 01 00 00 00 00 00 00 00 00 00 00 00 00 00 00 00 00 00 00 00 00 00 00
00 00 00 00 00 00 00 00 00 00 00 00 00 00 01 00 00 00 00 3f fd 00 00 00
ff ff 00 00 02 ff ff 00 00 03 fd 7f 00 00 03 fc 00 00 00 03 fc 00 00 00
02 ff 00 00 00 03 ff c0 29 00 0b ff e0 bf 00 0f ff f8 ff 00 2f db fd ff
00 2f c2 ff fd 00 2f c0 ff fc 00 2f e0 3f f8 00 1f f9 bf fc 00 0f ff ff
ff 00 03 ff ff ff 80 00 bf f8 7f 80 00 01 00 00 00 00 00 00 00 00 00 00
00 00 00 00 00 00 00 00 00 00 00 00 00 00 00 00 0f d0 0f e0 0f e0 0f e0
0f e0 0f e0 0f e0 0b d0 00 00 00 00 00 00 00 00 00 00 00 00 00 00 00 00
00 00 00 00 00 00 00 00 00 00 00 00 00 00 00 00 00 00 00 00 00 00 29 00
00 bf 00 00 fe 00 02 fc 00 03 fc 00 07 f4 00 0b f0 00 0f f0 00 0f f0 00
0f e0 00 1f e0 00 1f e0 00 0f e0 00 0f f0 00 0f f0 00 0b f0 00 07 f4 00
03 fc 00 02 fc 00 00 fe 00 00 bf 00 00 3e 00 00 00 00 00 00 00 00 00 00
00 00 00 0a 40 00 1f d0 00 0f f0 00 0b f4 00 03 f8 00 03 fc 00 01 fd 00
01 fe 00 00 ff 00 00 ff 00 00 ff 00 00 ff 00 00 ff 00 00 ff 00 00 fe 00
01 fd 00 02 fc 00 03 fc 00 07 f4 00 0f f0 00 1f d0 00 0f 80 00 00 00 00
00 00 00 00 00 00 00 00 00 00 14 00 00 bd 00 04 be 10 3f be fc 7f ff fc
2f ff f8 07 ff d0 1f ff f4 7f ff fc 3f ff fc 18 be 24 00 bd 00 00 28 00
00 00 00 00 00 00 00 00 00 00 00 00 00 00 00 00 00 00 00 00 00 00 00 00
00 00 00 00 00 00 00 00 00 00 00 00 00 00 00 00 00 00 00 00 00 00 00 00
00 00 00 00 00 00 00 00 00 00 00 00 00 00 b8 00 00 00 02 fc 00 00 00 02
fc 00 00 00 02 fc 00 00 00 02 fc 00 00 00 02 fc 00 00 07 ff ff ff 00 0f
ff ff ff 40 0f ff ff ff 40 0b ff ff ff 40 00 02 fc 00 00 00 02 fc 00 00
00 02 fc 00 00 00 02 fc 00 00 00 02 fc 00 00 00 01 fc 00 00 00 00 00 00
00 00 00 00 00 00 00 00 00 00 00 00 00 00 00 00 00 00 00 00 00 00 00 00
00 00 00 00 00 00 00 00 00 00 00 00 00 00 00 00 00 00 00 00 00 00 00 00
00 00 02 a0 0b f4 0b f4 0f f0 0f f0 0f d0 1f c0 06 00 00 00 00 00 00 00
00 00 00 00 00 00 00 00 00 00 00 00 00 00 00 00 00 00 00 00 00 00 00 00
00 00 00 00 00 00 00 00 00 00 00 2f fe 00 3f ff 00 3f ff 00 2f fe 00 00
00 00 00 00 00 00 00 00 00 00 00 00 00 00 00 00 00 00 00 00 00 00 00 00
00 00 00 00 00 00 00 00 00 00 00 00 00 00 00 00 00 00 00 00 00 00 00 00
00 00 00 00 00 00 00 00 00 00 00 00 06 a0 0f f0 0f f0 0f f0 0b f0 00 00
00 00 00 00 00 00 00 00 00 00 00 00 00 00 00 00 00 00 00 2f 40 00 3f 80
00 7f 40 00 bf 00 00 fe 00 01 fd 00 02 fc 00 03 fc 00 03 f8 00 07 f4 00
0b f0 00 0f f0 00 0f e0 00 2f c0 00 3f c0 00 3f 80 00 7f 40 00 bf 00 00
ff 00 00 bd 00 00 00 00 00 00 00 00 00 00 00 00 00 00 00 00 00 00 00 00
00 01 00 00 00 7f f0 00 02 ff fd 00 07 ff ff 00 0f f9 ff 40 0f f0 7f 80
1f e0 3f c0 2f d0 3f c0 2f d0 2f c0 2f d0 2f d0 2f d0 2f d0 2f d0 2f c0
2f d0 3f c0 1f e0 3f c0 0f f0 7f 80 0f f9 ff 40 07 ff ff 00 02 ff fd 00
00 7f f0 00 00 01 00 00 00 00 00 00 00 00 00 00 00 00 00 00 00 00 00 00
00 00 00 00 00 00 00 00 00 00 00 00 01 bf d0 00 0b ff e0 00 0f ff e0 00
0f ff e0 00 06 6f e0 00 00 1f e0 00 00 1f e0 00 00 1f e0 00 00 1f e0 00
00 1f e0 00 00 1f e0 00 00 1f e0 00 00 1f e0 00 00 1f e0 00 03 ff ff 40
0b ff ff c0 0b ff ff c0 07 ff ff 40 00 00 00 00 00 00 00 00 00 00 00 00
00 00 00 00 00 00 00 00 00 00 00 00 00 00 00 00 00 05 00 00 06 ff e0 00
1f ff fc 00 1f ff ff 00 1f ea ff 40 0e 00 bf 40 00 00 7f 80 00 00 bf 40
00 01 ff 00 00 03 fe 00 00 0f fc 00 00 2f f0 00 00 bf d0 00 02 ff 40 00
07 fe 00 00 0f ff ff 00 2f ff ff 80 2f ff ff 80 1f ff ff 40 00 00 00 00
00 00 00 00 00 00 00 00 00 00 00 00 00 00 00 00 00 00 00 00 00 00 00 00
00 05 00 00 07 ff f4 00 0f ff fd 00 0f ff ff 00 0f ea ff 40 00 00 7f 80
00 00 7f 80 00 16 ff 40 00 ff ff 00 00 ff fd 00 00 ff ff 00 00 15 ff 80
00 00 3f c0 00 00 3f c0 08 00 7f c0 1f ea ff 80 2f ff ff 00 1f ff fd 00
0b ff f4 00 00 04 00 00 00 00 00 00 00 00 00 00 00 00 00 00 00 00 00 00
00 00 00 00 00 00 00 00 00 00 00 00 00 03 fc 00 00 0b fd 00 00 0f fd 00
00 2f fd 00 00 7f fd 00 00 ff fd 00 01 ff fd 00 03 fe fd 00 0b f6 fd 00
0f f2 fd 00 3f fb ff 80 3f ff ff d0 3f ff ff d0 3f ff ff d0 00 02 fe 00
00 02 fd 00 00 02 fd 00 00 01 fc 00 00 00 00 00 00 00 00 00 00 00 00 00
00 00 00 00 00 00 00 00 00 00 00 00 00 00 00 00 00 00 00 00 0b ff fe 00
0f ff ff 00 0f ff ff 00 0f ff fd 00 0f f0 00 00 0f fa 40 00 0f ff f4 00
0f ff fd 00 0f ff ff 00 0b 95 ff 80 00 00 7f 80 00 00 3f c0 00 00 3f c0
04 00 bf 80 1f eb ff 40 1f ff ff 00 1f ff fc 00 0b ff e0 00 00 04 00 00
00 00 00 00 00 00 00 00 00 00 00 00 00 00 00 00 00 00 00 00 00 00 00 00
00 00 40 00 00 2f fe 00 00 ff ff 40 03 ff ff 40 07 fe af 40 0f f4 00 00
0f f6 90 00 1f ff fc 00 2f ff ff 00 2f ff ff 80 2f f8 7f c0 2f f0 3f c0
1f e0 2f d0 1f f0 2f d0 0f f0 3f c0 0b fd bf c0 03 ff ff 40 02 ff fe 00
00 7f f8 00 00 01 00 00 00 00 00 00 00 00 00 00 00 00 00 00 00 00 00 00
00 00 00 00 00 00 00 00 00 00 00 00 0f ff ff 80 1f ff ff c0 1f ff ff 80
0b ff ff 40 00 00 ff 00 00 01 fe 00 00 03 fd 00 00 03 fc 00 00 07 f8 00
00 0f f4 00 00 0f f0 00 00 2f e0 00 00 3f d0 00 00 3f c0 00 00 bf 80 00
00 ff 00 00 00 ff 00 00 00 fd 00 00 00 00 00 00 00 00 00 00 00 00 00 00
00 00 00 00 00 00 00 00 00 00 00 00 00 00 00 00 00 05 00 00 00 bf f8 00
03 ff fe 00 0f ff ff 40 0f f9 ff 80 1f e0 3f c0 0f e0 3f c0 0f f9 bf 80
0b ff ff 00 03 ff fe 00 0f ff ff 40 1f f9 ff c0 2f e0 3f c0 2f d0 2f c0
2f e0 3f c0 1f f9 ff c0 0f ff ff 80 07 ff ff 00 00 ff f8 00 00 05 00 00
00 00 00 00 00 00 00 00 00 00 00 00 00 00 00 00 00 00 00 00 00 00 00 00
00 05 00 00 00 bf f0 00 03 ff fc 00 0f ff ff 00 1f fa ff 40 2f e0 7f 80
2f d0 3f c0 2f d0 3f c0 2f d0 7f c0 1f f4 ff c0 0f ff ff c0 07 ff ff c0
01 ff ff c0 00 19 bf c0 00 00 ff 40 0b eb ff 00 0f ff fd 00 0f ff f8 00
07 ff d0 00 00 04 00 00 00 00 00 00 00 00 00 00 00 00 00 00 00 00 00 00
00 00 00 00 00 00 00 00 00 00 00 00 00 00 00 00 00 00 00 00 01 50 00 0b
f4 00 0b f4 00 0b f4 00 0b f4 00 01 50 00 00 00 00 00 00 00 00 00 00 02
a0 00 0b f4 00 0b f4 00 0b f4 00 07 f0 00 00 00 00 00 00 00 00 00 00 00
00 00 00 00 00 00 00 00 00 00 00 00 00 00 00 00 00 00 00 00 00 00 00 00
00 00 01 50 00 0b f4 00 0b f4 00 0b f4 00 0b f4 00 01 50 00 00 00 00 00
00 00 00 00 00 02 a0 00 0b f4 00 0b f4 00 0f f0 00 0f f0 00 0f d0 00 1f
c0 00 06 00 00 00 00 00 00 00 00 00 00 00 00 00 00 00 00 00 00 00 00 00
00 00 00 00 00 00 00 00 00 00 00 00 00 00 00 00 00 00 00 00 00 00 06 00
00 00 00 bf 40 00 00 1f ff 40 00 02 ff ff 40 00 7f ff f8 00 07 ff ff 40
00 0f ff e0 00 00 0f ff d0 00 00 0b ff fe 00 00 00 bf ff f4 00 00 07 ff
ff 00 00 00 2f ff 40 00 00 01 ff 40 00 00 00 1b 00 00 00 00 00 00 00 00
00 00 00 00 00 00 00 00 00 00 00 00 00 00 00 00 00 00 00 00 00 00 00 00
00 00 00 00 00 00 00 00 00 00 00 00 00 00 00 00 00 00 00 00 00 00 00 00
00 00 00 00 00 00 00 00 00 00 00 00 00 00 00 00 00 00 00 00 0b ff ff ff
00 0f ff ff ff 40 0f ff ff ff 40 07 ff ff ff 00 06 aa aa aa 00 0f ff ff
ff 40 0f ff ff ff 40 0f ff ff ff 40 00 00 00 00 00 00 00 00 00 00 00 00
00 00 00 00 00 00 00 00 00 00 00 00 00 00 00 00 00 00 00 00 00 00 00 00
00 00 00 00 00 00 00 00 00 00 00 00 00 00 00 00 00 00 00 00 00 00 00 00
00 00 00 00 00 00 00 00 00 00 00 00 00 00 00 06 40 00 00 00 0f f4 00 00
00 0f ff 90 00 00 0f ff fd 00 00 01 ff ff e4 00 00 0b ff ff 00 00 00 7f
ff 40 00 00 2f ff 40 00 07 ff ff 40 00 bf ff f4 00 0b ff fe 40 00 0f ff
d0 00 00 0f f9 00 00 00 0b 40 00 00 00 00 00 00 00 00 00 00 00 00 00 00
00 00 00 00 00 00 00 00 00 00 00 00 00 00 00 00 00 00 00 00 00 00 00 00
00 00 00 14 00 00 07 ff c0 00 1f ff f0 00 2f ff f8 00 2f db fc 00 1d 03
fc 00 00 03 fc 00 00 0f f8 00 00 3f f0 00 00 bf c0 00 00 ff 40 00 00 fe
00 00 00 fe 00 00 00 fe 00 00 00 fd 00 00 00 fe 00 00 00 ff 00 00 00 ff
00 00 00 fd 00 00 00 00 00 00 00 00 00 00 00 00 00 00 00 00 00 00 00 00
00 00 00 00 00 00 00 00 00 00 00 00 00 00 00 00 00 00 00 00 00 00 00 00
15 40 00 00 00 02 ff fd 00 00 00 2f ff ff 80 00 00 bf ff ff f0 00 02 ff
90 2f f8 00 03 fd 19 1b fd 00 0b f5 ff ff ff 00 0f e3 ff ff bf 00 1f cb
ff ff 3f 40 2f cf f0 ff 3f 40 2f 8f d0 bf 3f 40 2f 8f d0 bf 3f 40 2f cf
e0 bf bf 00 1f cf fa ff fe 00 0f d7 ff ff fc 00 0f f2 ff ff f0 00 07 f8
bf ff 80 00 03 ff 40 1f c0 00 00 ff ff ff d0 00 00 3f ff ff c0 00 00 0b
ff fe 00 00 00 00 6f 90 00 00 00 00 00 00 00 00 00 00 00 00 00 00 00 00
00 00 00 0f e0 00 00 2f f0 00 00 3f f4 00 00 7f fc 00 00 bf fc 00 00 ff
fe 00 01 ff ff 00 02 fd ff 00 03 fc 7f 80 07 f8 3f c0 0b ff ff c0 0f ff
ff e0 1f ff ff f0 2f ff ff f4 3f c0 07 f8 7f 80 03 fc bf 40 03 fd bf 00
01 fc 00 00 00 00 00 00 00 00 00 00 00 00 00 00 00 00 00 00 00 00 00 00
00 00 00 00 00 00 00 00 00 00 0f ff f8 00 0f ff ff 40 0f ff ff c0 0f ff
ff d0 0f f0 2f e0 0f f0 1f e0 0f f5 bf d0 0f ff ff c0 0f ff ff 80 0f ff
ff d0 0f f5 6f f0 0f f0 0f f0 0f f0 0f f0 0f f0 0f f0 0f ff ff f0 0f ff
ff d0 0f ff ff 80 0f ff f8 00 00 00 00 00 00 00 00 00 00 00 00 00 00 00
00 00 00 00 00 00 00 00 00 00 00 00 00 00 00 00 50 00 00 1f ff 80 00 ff
ff f4 03 ff ff f8 0b ff 9b fc 0f f8 00 f8 1f f0 00 10 2f d0 00 00 3f d0
00 00 3f c0 00 00 3f c0 00 00 3f d0 00 00 2f d0 00 00 1f f0 00 10 0f f8
00 f8 0b ff 9b fc 03 ff ff f8 00 ff ff f4 00 1f ff 80 00 00 50 00 00 00
00 00 00 00 00 00 00 00 00 00 00 00 00 00 00 00 00 00 00 00 00 00 00 00".
Definition cond24_bits_1 : list Z := atlas
"00 00 00 00 00 00 0f ff f8 00 00 0f ff ff c0 00 0f ff ff f0 00 0f ff ff
fc 00 0f f0 0b fd 00 0f f0 02 fe 00 0f f0 01 ff 00 0f f0 00 ff 00 0f f0
00 ff 00 0f f0 00 ff 00 0f f0 00 ff 00 0f f0 01 ff 00 0f f0 03 fe 00 0f
f0 0b fc 00 0f ff ff fc 00 0f ff ff f0 00 0f ff ff 80 00 0f ff f8 00 00
00 00 00 00 00 00 00 00 00 00 00 00 00 00 00 00 00 00 00 00 00 00 00 00
00 00 00 00 00 00 00 00 00 00 00 00 0f ff ff c0 0f ff ff c0 0f ff ff c0
0f ff ff 80 0f f0 00 00 0f f0 00 00 0f f5 55 00 0f ff ff 80 0f ff ff c0
0f ff ff 80 0f f5 55 00 0f f0 00 00 0f f0 00 00 0f f0 00 00 0f ff ff 80
0f ff ff c0 0f ff ff d0 0f ff ff c0 00 00 00 00 00 00 00 00 00 00 00 00
00 00 00 00 00 00 00 00 00 00 00 00 00 00 00 00 00 00 00 00 0f ff ff 00
0f ff ff 00 0f ff ff 00 0f ff fe 00 0f f0 00 00 0f f0 00 00 0f f5 54 00
0f ff fe 00 0f ff fe 00 0f ff fe 00 0f f5 54 00 0f f0 00 00 0f f0 00 00
0f f0 00 00 0f f0 00 00 0f f0 00 00 0f f0 00 00 0f e0 00 00 00 00 00 00
00 00 00 00 00 00 00 00 00 00 00 00 00 00 00 00 00 00 00 00 00 00 00 00
00 00 00 00 00 50 00 00 00 1f ff d0 00 00 ff ff fc 00 03 ff ff fd 00 0b
ff 9b fd 00 0f f8 00 7d 00 1f f0 00 04 00 2f d0 00 00 00 3f d0 15 54 00
3f c0 7f fe 00 3f c0 7f fe 00 3f d0 7f fe 00 2f d0 16 fe 00 1f f0 00 fe
00 0f f8 00 fe 00 0b ff 9b fe 00 03 ff ff fe 00 00 ff ff fc 00 00 1f ff
d0 00 00 00 10 00 00 00 00 00 00 00 00 00 00 00 00 00 00 00 00 00 00 00
00 00 00 00 00 00 00 00 00 00 00 00 00 00 00 00 00 00 0f e0 03 f8 00 0f
f0 03 fc 00 0f f0 03 fc 00 0f f0 03 fc 00 0f f0 03 fc 00 0f f0 03 fc 00
0f f5 57 fc 00 0f ff ff fc 00 0f ff ff fc 00 0f ff ff fc 00 0f f5 57 fc
00 0f f0 03 fc 00 0f f0 03 fc 00 0f f0 03 fc 00 0f f0 03 fc 00 0f f0 03
fc 00 0f f0 03 fc 00 0f e0 02 f8 00 00 00 00 00 00 00 00 00 00 00 00 00
00 00 00 00 00 00 00 00 00 00 00 00 00 00 00 00 0f e0 0f f0 0f f0 0f f0
0f f0 0f f0 0f f0 0f f0 0f f0 0f f0 0f f0 0f f0 0f f0 0f f0 0f f0 0f f0
0f f0 0f e0 00 00 00 00 00 00 00 00 00 00 00 00 00 00 00 00 00 00 00 00
03 f8 00 03 fc 00 03 fc 00 03 fc 00 03 fc 00 03 fc 00 03 fc 00 03 fc 00
03 fc 00 03 fc 00 03 fc 00 03 fc 00 03 fc 00 03 fc 00 03 fc 00 03 fc 00
03 fc 00 03 fc 00 1b f8 00 ff f4 00 ff f0 00 ff 80 00 00 00 00 00 00 00
00 00 00 00 00 00 00 00 00 00 0f e0 0b f8 0f f0 2f f8 0f f0 7f f0 0f f1
ff c0 0f f7 ff 00 0f ff fc 00 0f ff f0 00 0f ff c0 00 0f ff 40 00 0f ff
c0 00 0f ff f0 00 0f ff fc 00 0f fb fe 00 0f f2 ff 80 0f f0 bf d0 0f f0
3f f4 0f f0 0f fc 0f e0 03 fc 00 00 00 00 00 00 00 00 00 00 00 00 00 00
00 00 00 00 00 00 00 00 00 00 00 00 00 00 00 00 00 00 0f e0 00 00 0f f0
00 00 0f f0 00 00 0f f0 00 00 0f f0 00 00 0f f0 00 00 0f f0 00 00 0f f0
00 00 0f f0 00 00 0f f0 00 00 0f f0 00 00 0f f0 00 00 0f f0 00 00 0f f0
00 00 0f ff ff 40 0f ff ff c0 0f ff ff c0 0f ff ff 80 00 00 00 00 00 00
00 00 00 00 00 00 00 00 00 00 00 00 00 00 00 00 00 00 00 00 00 00 00 00
00 00 00 00 00 00 0f f8 00 bf c0 0f fc 00 ff c0 0f fd 01 ff c0 0f ff 02
ff c0 0f ff 03 ff c0 0f ff 47 ff c0 0f ff cb ff c0 0f ff cf ff c0 0f ff
ff ff c0 0f ff ff ff c0 0f fb ff bf c0 0f f7 ff 7f c0 0f f3 ff 3f c0 0f
f2 fe 3f c0 0f f0 fd 3f c0 0f f0 00 3f c0 0f f0 00 3f c0 0f e0 00 1f c0
00 00 00 00 00 00 00 00 00 00 00 00 00 00 00 00 00 00 00 00 00 00 00 00
00 00 00 00 00 00 00 00 00 00 00 00 00 00 00 00 0f f4 03 f8 00 0f fc 03
fc 00 0f fd 03 fc 00 0f ff 03 fc 00 0f ff 43 fc 00 0f ff c3 fc 00 0f ff
d3 fc 00 0f ff f3 fc 00 0f ff f7 fc 00 0f f7 ff fc 00 0f f3 ff fc 00 0f
f2 ff fc 00 0f f0 ff fc 00 0f f0 bf fc 00 0f f0 3f fc 00 0f f0 2f fc 00
0f f0 0f fc 00 0f e0 0b f8 00 00 00 00 00 00 00 00 00 00 00 00 00 00 00
00 00 00 00 00 00 00 00 00 00 00 00 00 00 00 00 00 00 00 00 00 00 00 50
00 00 00 2f ff 40 00 00 ff ff e0 00 03 ff ff f8 00 0b fe 6f fc 00 0f f8
03 fe 00 1f f0 01 ff 00 2f d0 00 ff 00 3f d0 00 bf 40 3f c0 00 bf 40 3f
c0 00 bf 40 3f d0 00 bf 40 2f d0 00 ff 00 1f f0 01 ff 00 0f f8 03 fe 00
0b fe 6f fc 00 03 ff ff f8 00 00 ff ff e0 00 00 2f ff 40 00 00 00 40 00
00 00 00 00 00 00 00 00 00 00 00 00 00 00 00 00 00 00 00 00 00 00 00 00
00 00 00 00 00 00 00 00 0f ff e4 00 0f ff fe 00 0f ff ff 40 0f ff ff c0
0f f0 3f c0 0f f0 3f c0 0f f0 3f c0 0f f1 bf c0 0f ff ff 80 0f ff ff 00
0f ff fc 00 0f fa 50 00 0f f0 00 00 0f f0 00 00 0f f0 00 00 0f f0 00 00
0f f0 00 00 0f e0 00 00 00 00 00 00 00 00 00 00 00 00 00 00 00 00 00 00
00 00 00 00 00 00 00 00 00 00 00 00 00 00 00 00 00 50 00 00 00 2f ff 40
00 00 ff ff e0 00 03 ff ff f8 00 0b fe 6f fc 00 0f f8 03 fe 00 1f f0 01
ff 00 2f d0 00 ff 00 3f d0 00 bf 40 3f c0 00 bf 40 3f c0 00 bf 40 3f d0
00 bf 40 2f d0 00 ff 00 1f f0 01 ff 00 0f f8 03 fe 00 0b fe 6f fc 00 03
ff ff f8 00 00 ff ff e0 00 00 2f ff d0 00 00 00 7f f4 00 00 00 0f fc 00
00 00 02 f8 00 00 00 00 00 00 00 00 00 00 00 00 00 00 00 00 00 00 00 00
00 00 0f ff f4 00 0f ff fe 00 0f ff ff 80 0f ff ff c0 0f f0 3f c0 0f f0
3f c0 0f f0 3f c0 0f fa ff c0 0f ff ff 40 0f ff ff 00 0f ff ff 00 0f f1
ff c0 0f f0 3f d0 0f f0 2f e0 0f f0 0f f0 0f f0 0b f8 0f f0 03 fc 0f e0
02 fc 00 00 00 00 00 00 00 00 00 00 00 00 00 00 00 00 00 00 00 00 00 00
00 00 00 00 00 00 00 05 00 00 00 ff fe 00 07 ff ff 80 0f ff ff 80 1f f9
bf 80 2f d0 02 00 2f d0 00 00 2f f9 00 00 1f ff f4 00 0b ff ff 00 02 ff
ff 80 00 1b ff c0 00 00 7f d0 00 00 2f d0 1d 00 3f d0 2f e6 ff c0 2f ff
ff c0 2f ff ff 00 06 ff f8 00 00 05 00 00 00 00 00 00 00 00 00 00 00 00
00 00 00 00 00 00 00 00 00 00 00 00 00 00 00 00 00 00 3f ff ff fc 3f ff
ff fc 3f ff ff fc 2f ff ff f8 00 0f f0 00 00 0f f0 00 00 0f f0 00 00 0f
f0 00 00 0f f0 00 00 0f f0 00 00 0f f0 00 00 0f f0 00 00 0f f0 00 00 0f
f0 00 00 0f f0 00 00 0f f0 00 00 0f f0 00 00 0b e0 00 00 00 00 00 00 00
00 00 00 00 00 00 00 00 00 00 00 00 00 00 00 00 00 00 00 00 00 00 00 00
00 00 0f d0 03 f8 1f e0 03 fc 1f e0 03 fc 1f e0 03 fc 1f e0 03 fc 1f e0
03 fc 1f e0 03 fc 1f e0 03 fc 1f e0 03 fc 1f e0 03 fc 1f e0 03 fc 1f e0
03 f8 0f f0 07 f8 0f f0 0b f4 0b fe af f0 03 ff ff e0 01 ff ff c0 00 7f
fe 00 00 01 40 00 00 00 00 00 00 00 00 00 00 00 00 00 00 00 00 00 00 00
00 00 00 00 00 00 00 00 00 00 bf 00 01 fc bf 40 03 fd 7f c0 03 fc 3f c0
0b f8 2f d0 0f f0 1f f0 0f f0 0f f0 2f e0 0b f4 3f c0 07 fc 7f c0 03 fc
bf 80 02 fd ff 00 01 ff ff 00 00 ff fd 00 00 bf fc 00 00 7f fc 00 00 3f
f4 00 00 2f f0 00 00 0f e0 00 00 00 00 00 00 00 00 00 00 00 00 00 00 00
00 00 00 00 00 00 00 00 00 00 00 00 00 00 00 00 00 00 00 00 00 00 00 00
00 00 3f 40 3f 80 3f 80 3f c0 7f c0 3f c0 3f c0 bf c0 7f 80 3f c0 ff d0
bf 40 2f d0 ff e0 ff 00 1f e1 ff f0 ff 00 0f f2 ff f1 fe 00 0f f3 ff f6
fd 00 0b f7 fb fb fc 00 07 ff f7 ff fc 00 03 ff f2 ff fc 00 03 ff f1 ff
f8 00 03 ff e0 ff f4 00 02 ff e0 ff f0 00 01 ff d0 bf f0 00 00 ff c0 bf
e0 00 00 ff c0 7f d0 00 00 7f 40 3f c0 00 00 00 00 00 00 00 00 00 00 00
00 00 00 00 00 00 00 00 00 00 00 00 00 00 00 00 00 00 00 00 00 00 00 00
00 00 00 00 00 00 2f c0 07 f4 2f f0 0f f4 0f f4 2f f0 07 fc 3f d0 03 fe
ff 80 00 ff ff 00 00 bf fd 00 00 3f fc 00 00 2f f4 00 00 3f f8 00 00 bf
fd 00 01 ff ff 00 03 fe ff 40 07 fc 7f c0 0f f4 3f e0 2f f0 0f f0 3f c0
0b fc 3f 40 03 f8 00 00 00 00 00 00 00 00 00 00 00 00 00 00 00 00 00 00
00 00 00 00 00 00 00 00 00 00 00 00 00 00 3f c0 02 fc 3f e0 07 fc 1f f0
0f f4 0b fc 2f f0 03 fd 3f c0 01 ff ff 80 00 ff ff 00 00 3f fd 00 00 2f
f8 00 00 0f f0 00 00 0f f0 00 00 0f f0 00 00 0f f0 00 00 0f f0 00 00 0f
f0 00 00 0f f0 00 00 0f f0 00 00 0b e0 00 00 00 00 00 00 00 00 00 00 00
00 00 00 00 00 00 00 00 00 00 00 00 00 00 00 00 00 00 00 00 00 00 2f ff
ff f0 3f ff ff f4 3f ff ff f4 1f ff ff f0 00 00 7f d0 00 00 ff 80 00 03
ff 00 00 0b fc 00 00 1f f4 00 00 3f e0 00 00 ff c0 00 02 ff 00 00 07 fe
00 00 0f fc 00 00 2f ff ff f4 3f ff ff f8 3f ff ff f8 3f ff ff f4 00 00
00 00 00 00 00 00 00 00 00 00 00 00 00 00 00 00 00 00 00 00 00 00 00 0a
a9 00 1f ff 00 1f ff 00 1f fd 00 1f d0 00 1f d0 00 1f d0 00 1f d0 00 1f
d0 00 1f d0 00 1f d0 00 1f d0 00 1f d0 00 1f d0 00 1f d0 00 1f d0 00 1f
d0 00 1f d0 00 1f f8 00 1f ff 00 1f ff 00 0f fd 00 00 00 00 00 00 00 00
00 00 00 00 00 00 00 00 bd 00 00 ff 00 00 bf 00 00 7f 40 00 3f 80 00 3f
c0 00 2f c0 00 0f d0 00 0f f0 00 0b f0 00 07 f4 00 03 f8 00 03 fc 00 02
fc 00 01 fd 00 00 fe 00 00 bf 00 00 7f 40 00 3f 80 00 3f 40 00 00 00 00
00 00 00 00 00 00 00 00 00 00 00 06 a9 00 0f ff 00 0f ff 00 0b ff 00 00
ff 00 00 ff 00 00 ff 00 00 ff 00 00 ff 00 00 ff 00 00 ff 00 00 ff 00 00
ff 00 00 ff 00 00 ff 00 00 ff 00 00 ff 00 00 ff 00 06 ff 00 0f ff 00 0f
ff 00 0b fe 00 00 00 00 00 00 00 00 00 00 00 00 00 00 00 00 00 00 00 00
00 00 00 00 00 02 fc 00 00 00 07 ff 00 00 00 1f ff c0 00 00 3f ff f0 00
00 ff df f8 00 03 ff 07 fe 00 0b fc 01 ff 40 0b e0 00 7f 00 00 00 00 00
00 00 00 00 00 00 00 00 00 00 00 00 00 00 00 00 00 00 00 00 00 00 00 00
00 00 00 00 00 00 00 00 00 00 00 00 00 00 00 00 00 00 00 00 00 00 00 00
00 00 00 00 00 00 00 00 00 00 00 00 00 00 00 00 00 00 00 00 00 00 00 00
00 00 00 00 00 00 00 00 00 00 00 00 00 00 00 00 00 00 00 00 00 00 00 00
00 00 00 00 00 00 00 00 00 00 00 00 00 00 00 00 00 00 00 00 00 00 00 00
00 00 00 00 00 00 00 00 00 00 00 00 00 00 00 00 00 00 00 00 00 00 00 00
00 00 00 00 00 00 00 00 00 00 00 00 00 00 05 55 55 00 3f ff ff c0 3f ff
ff c0 00 00 00 00 00 00 0a 80 00 1f f0 00 0f f8 00 03 fc 00 00 ff 00 00
7f 00 00 15 00 00 00 00 00 00 00 00 00 00 00 00 00 00 00 00 00 00 00 00
00 00 00 00 00 00 00 00 00 00 00 00 00 00 00 00 00 00 00 00 00 00 00 00
00 00 00 00 00 00 00 00 00 00 00 00 00 00 00 00 00 00 00 00 00 00 00 00
00 00 00 00 00 00 00 00 00 00 00 00 00 05 00 00 06 ff e0 00 0f ff fc 00
0f ff fe 00 0f e6 ff 00 00 1a ff 00 03 ff ff 40 0f ff ff 40 1f ff ff 40
2f d0 bf 40 3f c0 ff 40 2f e7 ff 40 1f ff ff 40 0f ff ff 40 03 ff ff 00
00 10 00 00 00 00 00 00 00 00 00 00 00 00 00 00 00 00 00 00 00 00 00 00
00 00 00 00 0a 80 00 00 0f e0 00 00 0f e0 00 00 0f e0 00 00 0f e1 40 00
0f ff f8 00 0f ff fe 00 0f ff ff 40 0f fd bf c0 0f f0 3f c0 0f e0 2f d0
0f e0 1f d0 0f e0 1f d0 0f f0 2f d0 0f f0 3f c0 0f fd bf c0 0f ff ff 40
0f ff fe 00 0f ff f8 00 00 01 40 00 00 00 00 00 00 00 00 00 00 00 00 00
00 00 00 00 00 00 00 00 00 00 00 00 00 00 00 00 00 00 00 00 00 00 00 00
00 00 00 00 00 01 00 00 00 bf f8 00 03 ff fe 00 0b ff fe 00 1f f9 7e 00
2f e0 00 00 3f c0 00 00 3f c0 00 00 3f c0 00 00 3f c0 00 00 2f e0 00 00
1f f9 7e 00 0b ff fe 00 03 ff fe 00 00 bf f8 00 00 01 00 00 00 00 00 00
00 00 00 00 00 00 00 00 00 00 00 00 00 00 00 00 00 00 00 00 00 00 1a 40
00 00 3f c0 00 00 3f c0 00 00 3f c0 00 04 3f c0 00 ff ff c0 03 ff ff c0
0f ff ff c0 1f f5 ff c0 2f d0 bf c0 3f c0 3f c0 3f c0 3f c0 3f c0 3f c0
3f c0 3f c0 2f d0 bf c0 1f f5 ff c0 0f ff ff c0 03 ff ff c0 00 ff ff 40
00 04 00 00 00 00 00 00 00 00 00 00 00 00 00 00 00 00 00 00 00 00 00 00
00 00 00 00 00 00 00 00 00 00 00 00 00 00 00 00 00 00 00 00 00 01 00 00
00 bf f4 00 03 ff fd 00 0b ff ff 00 0f f9 ff 80 2f e0 3f c0 3f ff ff c0
3f ff ff c0 3f ff ff c0 3f e5 55 40 2f e0 01 00 1f f9 6f 80 0b ff ff 80".
Definition cond24_bits_2 : list Z := atlas
"03 ff ff 80 00 bf fe 00 00 01 40 00 00 00 00 00 00 00 00 00 00 00 00 00
00 00 00 00 00 00 00 00 00 00 6a 80 02 ff d0 07 ff d0 0b ff c0 0f f0 00
7f ff 80 bf ff c0 7f ff c0 1f f9 00 0f f0 00 0f f0 00 0f f0 00 0f f0 00
0f f0 00 0f f0 00 0f f0 00 0f f0 00 0f f0 00 0b e0 00 00 00 00 00 00 00
00 00 00 00 00 00 00 00 00 00 00 00 00 00 00 00 00 00 00 00 00 00 00 00
00 00 00 00 00 00 00 00 00 00 00 04 00 00 01 ff ff 80 07 ff ff c0 0f ff
ff c0 1f f5 ff c0 2f d0 7f c0 3f c0 3f c0 3f c0 3f c0 3f c0 3f c0 3f c0
3f c0 2f e0 bf c0 1f ff ff c0 0b ff ff c0 03 ff ff 80 00 bf ff 80 07 81
ff 40 0b ff ff 00 0b ff fd 00 07 ff f4 00 00 00 00 00 00 00 00 00 00 00
00 00 0a 80 00 00 0f e0 00 00 0f e0 00 00 0f e0 00 00 0f e1 40 00 0f ff
f8 00 0f ff ff 00 0f ff ff 40 0f fd bf 80 0f f0 3f c0 0f e0 3f c0 0f e0
3f c0 0f e0 3f c0 0f e0 3f c0 0f e0 3f c0 0f e0 3f c0 0f e0 3f c0 0f e0
3f c0 0f d0 2f 80 00 00 00 00 00 00 00 00 00 00 00 00 00 00 00 00 00 00
00 00 00 00 0a 80 0f e0 0f e0 0f e0 0b c0 0f d0 0f e0 0f e0 0f e0 0f e0
0f e0 0f e0 0f e0 0f e0 0f e0 0f e0 0f e0 0f e0 0f d0 00 00 00 00 00 00
00 00 00 00 00 00 00 00 00 00 00 02 a0 00 03 f8 00 03 f8 00 03 f8 00 02
f4 00 03 f4 00 03 f8 00 03 f8 00 03 f8 00 03 f8 00 03 f8 00 03 f8 00 03
f8 00 03 f8 00 03 f8 00 03 f8 00 03 f8 00 03 f8 00 03 f8 00 07 f8 00 3f
f4 00 7f f0 00 7f d0 00 00 00 00 00 00 00 00 00 00 00 00 00 0a 80 00 00
0f e0 00 00 0f e0 00 00 0f e0 00 00 0f e0 00 00 0f e0 3f c0 0f e0 ff c0
0f e3 ff 00 0f ff fc 00 0f ff f0 00 0f ff c0 00 0f ff 00 00 0f ff 80 00
0f ff e0 00 0f ff f8 00 0f eb fd 00 0f e2 ff 40 0f e0 bf c0 0f d0 2f c0
00 00 00 00 00 00 00 00 00 00 00 00 00 00 00 00 00 00 00 00 00 00 0a 80
0f e0 0f e0 0f e0 0f e0 0f e0 0f e0 0f e0 0f e0 0f e0 0f e0 0f e0 0f e0
0f e0 0f e0 0f e0 0f e0 0f e0 0f d0 00 00 00 00 00 00 00 00 00 00 00 00
00 00 00 00 00 00 00 00 00 00 00 00 00 00 00 00 00 00 00 00 00 00 00 00
00 00 00 00 00 00 00 00 00 00 00 00 00 00 00 01 40 01 00 00 0f ff f8 bf
e0 00 0f ff ff ff f8 00 0f ff ff ff fc 00 0f fd ff f7 fd 00 0f f0 7f c1
fe 00 0f e0 3f 80 fe 00 0f e0 3f 80 fe 00 0f e0 3f 80 fe 00 0f e0 3f 80
fe 00 0f e0 3f 80 fe 00 0f e0 3f 80 fe 00 0f e0 3f 80 fe 00 0f e0 3f 80
fe 00 0f d0 3f 40 fd 00 00 00 00 00 00 00 00 00 00 00 00 00 00 00 00 00
00 00 00 00 00 00 00 00 00 00 00 00 00 00 00 00 00 00 00 00 00 00 00 00
00 00 00 00 00 00 00 00 00 00 00 00 00 01 40 00 0f ff f8 00 0f ff ff 00
0f ff ff 40 0f fd bf 80 0f f0 3f c0 0f e0 3f c0 0f e0 3f c0 0f e0 3f c0
0f e0 3f c0 0f e0 3f c0 0f e0 3f c0 0f e0 3f c0 0f e0 3f c0 0f d0 2f 80
00 00 00 00 00 00 00 00 00 00 00 00 00 00 00 00 00 00 00 00 00 00 00 00
00 00 00 00 00 00 00 00 00 00 00 00 00 00 00 00 00 00 00 00 00 05 00 00
00 bf f0 00 03 ff fd 00 0f ff ff 00 1f f9 ff 40 2f d0 7f 80 3f c0 3f c0
3f c0 3f c0 3f c0 3f c0 3f c0 3f c0 2f d0 7f 80 1f f9 ff 40 0f ff ff 00
03 ff fd 00 00 bf f0 00 00 05 00 00 00 00 00 00 00 00 00 00 00 00 00 00
00 00 00 00 00 00 00 00 00 00 00 00 00 00 00 00 00 00 00 00 00 00 00 00
00 00 00 00 00 01 40 00 0f ff f8 00 0f ff fe 00 0f ff ff 40 0f fd bf c0
0f f0 3f c0 0f e0 2f d0 0f e0 1f d0 0f e0 1f d0 0f f0 2f d0 0f f0 3f c0
0f fd bf c0 0f ff ff 40 0f ff fe 00 0f ff f8 00 0f e1 40 00 0f e0 00 00
0f e0 00 00 0f e0 00 00 00 00 00 00 00 00 00 00 00 00 00 00 00 00 00 00
00 00 00 00 00 00 00 00 00 00 00 00 00 04 00 00 00 ff ff 80 03 ff ff c0
0f ff ff c0 1f f5 ff c0 2f d0 bf c0 3f c0 3f c0 3f c0 3f c0 3f c0 3f c0
3f c0 3f c0 2f d0 bf c0 1f f5 ff c0 0f ff ff c0 03 ff ff c0 00 ff ff c0
00 04 3f c0 00 00 3f c0 00 00 3f c0 00 00 3f 80 00 00 00 00 00 00 00 00
00 00 00 00 00 00 00 00 00 00 00 00 00 00 00 40 0f ff f0 0f ff f0 0f ff
f0 0f fd a0 0f f0 00 0f e0 00 0f e0 00 0f e0 00 0f e0 00 0f e0 00 0f e0
00 0f e0 00 0f e0 00 0f d0 00 00 00 00 00 00 00 00 00 00 00 00 00 00 00
00 00 00 00 00 00 00 00 00 00 00 00 00 00 00 00 00 00 00 00 14 00 02 ff
f4 0f ff f8 2f ff fc 3f d5 f8 3f d0 00 2f fe 40 1f ff f0 07 ff f8 00 6f
fc 04 02 fd 3f 97 fd 3f ff fc 3f ff f4 1b ff d0 00 14 00 00 00 00 00 00
00 00 00 00 00 00 00 00 00 00 00 00 00 00 00 00 05 40 00 0f e0 00 0f e0
00 0f e0 00 3f ff c0 7f ff d0 7f ff c0 2f fa 40 0f e0 00 0f e0 00 0f e0
00 0f e0 00 0f e0 00 0f e0 00 0f fa 80 0f ff d0 07 ff d0 01 bf c0 00 00
00 00 00 00 00 00 00 00 00 00 00 00 00 00 00 00 00 00 00 00 00 00 00 00
00 00 00 00 00 00 00 00 00 00 00 00 00 00 00 00 00 00 0f c0 3f 40 1f d0
3f c0 1f d0 3f c0 1f d0 3f c0 1f d0 3f c0 1f d0 3f c0 1f d0 3f c0 1f d0
3f c0 1f d0 3f c0 0f e0 7f c0 0f f6 ff c0 0b ff ff c0 03 ff ff c0 01 ff
ff 40 00 04 00 00 00 00 00 00 00 00 00 00 00 00 00 00 00 00 00 00 00 00
00 00 00 00 00 00 00 00 00 00 00 00 00 00 00 00 00 00 00 00 00 00 00 00
00 00 3f 40 2f c0 7f 80 3f c0 3f c0 7f 80 2f d0 bf 40 1f e0 ff 00 0f f1
fe 00 0b f6 fd 00 07 ff fc 00 03 ff f8 00 02 ff f4 00 00 ff f0 00 00 ff
e0 00 00 bf d0 00 00 3f c0 00 00 00 00 00 00 00 00 00 00 00 00 00 00 00
00 00 00 00 00 00 00 00 00 00 00 00 00 00 00 00 00 00 00 00 00 00 00 00
00 00 00 00 00 00 00 00 00 00 00 00 00 00 00 00 00 00 3f 42 fc 0f c0 3f
c3 fd 2f c0 3f c7 fe 3f c0 2f cb ff 3f c0 1f df ff 7f 80 0f ff ff ff 40
0f ff ff ff 00 0b ff ff ff 00 07 ff ef fe 00 03 ff 9f fd 00 03 ff 4f fc
00 02 ff 0f fc 00 01 ff 0b f8 00 00 fe 07 f4 00 00 00 00 00 00 00 00 00
00 00 00 00 00 00 00 00 00 00 00 00 00 00 00 00 00 00 00 00 00 00 00 00
00 00 00 00 00 00 00 00 00 00 00 00 00 00 00 00 00 00 00 00 3f c0 3f 80
3f e0 ff 80 1f f5 ff 00 0b ff fd 00 03 ff f8 00 00 ff f0 00 00 bf d0 00
00 ff e0 00 02 ff f4 00 07 ff fc 00 0f fb fe 00 2f f0 ff 40 7f c0 bf c0
3f 40 2f c0 00 00 00 00 00 00 00 00 00 00 00 00 00 00 00 00 00 00 00 00
00 00 00 00 00 00 00 00 00 00 00 00 00 00 00 00 00 00 00 00 00 00 00 00
00 00 00 00 3f 40 2f c0 7f 80 3f c0 3f c0 7f 80 2f d0 bf 40 0f f0 ff 00
0f f1 fe 00 07 fb fc 00 03 ff fc 00 02 ff f4 00 01 ff f0 00 00 ff e0 00
00 bf d0 00 00 3f c0 00 00 7f 80 00 00 ff 40 00 0f ff 00 00 1f fd 00 00
1f f8 00 00 00 00 00 00 00 00 00 00 00 00 00 00 00 00 00 00 00 00 00 00
00 00 00 00 2f ff fd 3f ff fe 3f ff fe 0a af fc 00 0f f4 00 3f e0 00 ff
c0 02 ff 00 07 fd 00 0f f8 00 3f fa a8 3f ff fe 3f ff fe 3f ff fd 00 00
00 00 00 00 00 00 00 00 00 00 00 00 00 00 00 00 00 00 00 00 00 00 00 00
aa 00 00 07 ff 00 00 0f ff 00 00 1f fe 00 00 1f d0 00 00 2f d0 00 00 2f
d0 00 00 2f d0 00 00 2f c0 00 01 7f c0 00 07 ff c0 00 0b ff 40 00 07 ff
c0 00 00 3f c0 00 00 2f c0 00 00 2f d0 00 00 2f d0 00 00 2f d0 00 00 1f
d0 00 00 1f ff 00 00 0f ff 00 00 07 ff 00 00 00 69 00 00 00 00 00 00 00
00 00 00 03 e0 00 07 f0 00 07 f0 00 07 f0 00 07 f0 00 07 f0 00 07 f0 00
07 f0 00 07 f0 00 07 f0 00 07 f0 00 07 f0 00 07 f0 00 07 f0 00 07 f0 00
07 f0 00 07 f0 00 07 f0 00 07 f0 00 07 f0 00 07 f0 00 07 f0 00 07 f0 00
00 00 00 00 00 00 00 00 00 00 00 00 02 a4 00 00 0b ff 00 00 0b ff 80 00
03 ff c0 00 00 2f c0 00 00 2f c0 00 00 2f c0 00 00 2f c0 00 00 2f c0 00
00 2f e4 00 00 0f ff 00 00 0f ff 00 00 1f ff 00 00 2f e0 00 00 2f c0 00
00 2f c0 00 00 2f c0 00 00 2f c0 00 00 3f c0 00 07 ff c0 00 0b ff 80 00
07 ff 00 00 02 a4 00 00 00 00 00 00 00 00 00 00 00 00 00 00 00 00 00 00
00 00 00 00 00 00 00 00 00 00 00 00 00 00 00 00 00 00 00 00 00 00 00 00
00 00 00 00 00 00 00 00 00 00 00 00 00 00 00 00 15 00 06 00 01 ff f4 2f
40 0b ff ff ff 40 0f ff ff ff 40 0f e5 ff fd 00 0b 00 0a 90 00 00 00 00
00 00 00 00 00 00 00 00 00 00 00 00 00 00 00 00 00 00 00 00 00 00 00 00
00 00 00 00 00 00 00 00 00 00 00 00 00 00 00 00 00 00".
Definition cond24_bits : list Z := cond24_bits_0 ++ cond24_bits_1 ++ cond24_bits_2.
Definition cond24_glyphs : list glyph_t :=
  [
   Glyph 8 7 (-1) 0;
   Glyph 10 9 (-1) 52;
   Glyph 11 10 (-1) 130;
   Glyph 19 18 (-1) 208;
   Glyph 15 14 (-1) 338;
   Glyph 21 20 (-1) 442;
   Glyph 17 16 (-1) 598;
   Glyph 7 6 (-1) 728;
   Glyph 10 9 (-1) 780;
   Glyph 10 9 (-1) 858;
   Glyph 12 11 (-1) 936;
   Glyph 19 18 (-1) 1014;
   Glyph 8 7 (-1) 1144;
   Glyph 9 8 (-1) 1196;
   Glyph 8 7 (-1) 1274;
   Glyph 9 8 (-1) 1326;
   Glyph 15 14 (-1) 1404;
   Glyph 15 14 (-1) 1508;
   Glyph 15 14 (-1) 1612;
   Glyph 15 14 (-1) 1716;
   Glyph 15 14 (-1) 1820;
   Glyph 15 14 (-1) 1924;
   Glyph 15 14 (-1) 2028;
   Glyph 15 14 (-1) 2132;
   Glyph 15 14 (-1) 2236;
   Glyph 15 14 (-1) 2340;
   Glyph 9 8 (-1) 2444;
   Glyph 9 8 (-1) 2522;
   Glyph 19 18 (-1) 2600;
   Glyph 19 18 (-1) 2730;
   Glyph 19 18 (-1) 2860;
   Glyph 13 12 (-1) 2990;
   Glyph 22 21 (-1) 3094;
   Glyph 16 15 (-1) 3250;
   Glyph 16 15 (-1) 3354;
   Glyph 16 15 (-1) 3458;
   Glyph 17 16 (-1) 3562;
   Glyph 15 14 (-1) 3692;
   Glyph 13 12 (-1) 3796;
   Glyph 17 16 (-1) 3900;
   Glyph 17 16 (-1) 4030;
   Glyph 8 7 (-1) 4160;
   Glyph 9 7 (-2) 4212;
   Glyph 16 14 (-1) 4290;
   Glyph 13 12 (-1) 4394;
   Glyph 19 18 (-1) 4498;
   Glyph 17 16 (-1) 4628;
   Glyph 18 17 (-1) 4758;
   Glyph 14 13 (-1) 4888;
   Glyph 18 17 (-1) 4992;
   Glyph 16 15 (-1) 5122;
   Glyph 15 14 (-1) 5226;
   Glyph 16 13 (-2) 5330;
   Glyph 16 15 (-1) 5434;
   Glyph 16 15 (-1) 5538;
   Glyph 22 21 (-1) 5642;
   Glyph 16 15 (-1) 5798;
   Glyph 16 13 (-2) 5902;
   Glyph 16 15 (-1) 6006;
   Glyph 10 9 (-1) 6110;
   Glyph 9 8 (-1) 6188;
   Glyph 10 9 (-1) 6266;
   Glyph 19 18 (-1) 6344;
   Glyph 14 11 (-2) 6474;
   Glyph 12 11 (-1) 6578;
   Glyph 14 13 (-1) 6656;
   Glyph 15 14 (-1) 6760;
   Glyph 13 12 (-1) 6864;
   Glyph 15 14 (-1) 6968;
   Glyph 14 13 (-1) 7072;
   Glyph 10 8 (-1) 7176;
   Glyph 15 14 (-1) 7254;
   Glyph 15 14 (-1) 7358;
   Glyph 8 7 (-1) 7462;
   Glyph 9 7 (-2) 7514;
   Glyph 14 12 (-1) 7592;
   Glyph 8 7 (-1) 7696;
   Glyph 21 20 (-1) 7748;
   Glyph 15 14 (-1) 7904;
   Glyph 14 13 (-1) 8008;
   Glyph 15 14 (-1) 8112;
   Glyph 15 14 (-1) 8216;
   Glyph 11 9 (-1) 8320;
   Glyph 12 11 (-1) 8398;
   Glyph 10 9 (-1) 8476;
   Glyph 15 14 (-1) 8554;
   Glyph 14 13 (-1) 8658;
   Glyph 18 17 (-1) 8762;
   Glyph 14 13 (-1) 8892;
   Glyph 14 13 (-1) 8996;
   Glyph 12 11 (-1) 9100;
   Glyph 15 14 (-1) 9178;
   Glyph 9 8 (-1) 9282;
   Glyph 15 14 (-1) 9360;
   Glyph 19 18 (-1) 9464
  ].
Definition cond24 : font_t := Font cond24_bits cond24_glyphs 26 21.
Definition cond32_bits_0 : list Z := atlas
"00 00 00 00 00 00 00 00 00 00 00 00 00 00 00 00 00 00 00 00 00 00 00 00
00 00 00 00 00 00 00 00 00 00 00 00 00 00 00 00 00 00 00 00 00 00 00 00
00 00 00 00 00 00 00 00 00 00 00 00 00 00 00 00 00 00 00 00 00 00 00 00
00 00 00 00 00 00 00 00 00 00 00 00 00 00 00 00 00 00 00 00 00 00 00 00
00 00 00 00 00 00 00 00 00 00 00 00 00 00 00 00 00 00 00 00 00 00 00 00
00 00 00 bf 40 00 00 ff 80 00 00 ff c0 00 00 ff c0 00 00 ff c0 00 00 ff
c0 00 00 ff c0 00 00 ff c0 00 00 ff c0 00 00 ff c0 00 00 ff 80 00 00 ff
80 00 00 ff 80 00 00 ff 80 00 00 bf 80 00 00 bf 80 00 00 7f 00 00 00 00
00 00 00 6a 40 00 00 ff 80 00 00 ff c0 00 00 ff c0 00 00 ff c0 00 00 bf
40 00 00 00 00 00 00 00 00 00 00 00 00 00 00 00 00 00 00 00 00 00 00 00
00 00 00 00 00 00 00 00 00 00 00 00 00 00 00 00 00 00 03 f4 fd 00 07 fd
ff 00 07 fd ff 00 07 fd ff 00 07 fd ff 00 07 fd ff 00 07 fd ff 00 07 fd
ff 00 07 fd ff 00 07 f9 fe 00 00 50 14 00 00 00 00 00 00 00 00 00 00 00
00 00 00 00 00 00 00 00 00 00 00 00 00 00 00 00 00 00 00 00 00 00 00 00
00 00 00 00 00 00 00 00 00 00 00 00 00 00 00 00 00 00 00 00 00 00 00 00
00 00 00 00 00 00 00 00 00 00 00 00 00 00 00 00 00 00 00 00 00 00 00 00
00 00 00 00 00 00 00 00 00 00 00 00 00 00 00 00 00 00 00 00 00 00 00 00
00 00 00 06 80 68 00 00 00 00 1f e1 fe 00 00 00 00 2f e2 fe 00 00 00 00
3f d3 fd 00 00 00 00 3f c3 fc 00 00 00 00 3f c7 fc 00 00 00 55 bf db fd
50 00 01 ff ff ff ff f4 00 01 ff ff ff ff f8 00 01 ff ff ff ff f8 00 00
bf ff ff ff f0 00 00 02 fe 2f e0 00 00 00 03 fd 3f d0 00 00 01 57 fd 7f
d5 00 00 0f ff ff ff ff c0 00 0f ff ff ff ff c0 00 0f ff ff ff ff c0 00
0b ff ff ff ff 80 00 00 0f f0 ff 00 00 00 00 1f f1 ff 00 00 00 00 2f e2
fe 00 00 00 00 3f d3 fd 00 00 00 00 3f c3 fc 00 00 00 00 3f 83 f8 00 00
00 00 00 00 00 00 00 00 00 00 00 00 00 00 00 00 00 00 00 00 00 00 00 00
00 00 00 00 00 00 00 00 00 00 00 00 00 00 00 00 00 00 00 00 00 00 00 00
00 00 00 00 00 00 00 00 00 00 b8 00 00 00 00 fc 00 00 00 00 fc 00 00 00
01 fd 00 00 00 2f ff f8 00 00 ff ff fe 00 03 ff ff fe 00 07 ff ff ff 00
0b fd fc 2d 00 0b f8 fc 00 00 0b fc fc 00 00 0b ff fc 00 00 07 ff ff 40
00 02 ff ff f4 00 00 bf ff fe 00 00 1b ff ff 00 00 00 ff ff 80 00 00 fc
ff c0 00 00 fc bf c0 0b 40 fc bf c0 0f f5 fe ff 80 0f ff ff ff 00 0b ff
ff fe 00 07 ff ff f8 00 00 2b ff 80 00 00 00 fc 00 00 00 00 fc 00 00 00
00 fc 00 00 00 00 fc 00 00 00 00 50 00 00 00 00 00 00 00 00 00 00 00 00
00 00 00 00 00 00 00 00 00 00 00 00 00 00 00 00 00 00 00 00 00 00 01 40
00 00 bf e0 00 0f f0 00 03 ff fc 00 2f f0 00 0b ff fe 00 3f c0 00 0f ff
ff 00 bf 80 00 1f f0 ff 40 ff 00 00 1f e0 bf 83 fe 00 00 1f e0 bf 87 fc
00 00 1f e0 bf 8f f8 00 00 1f f0 ff 5f f0 00 00 0f f5 ff 7f d0 00 00 0f
ff ff bf c1 50 00 03 ff fd ff 5f fe 00 01 ff f6 ff 7f ff 80 00 1a 43 fd
ff ff d0 00 00 0b f9 ff 7f e0 00 00 0f f2 fd 1f f0 00 00 3f e3 fd 0f f0
00 00 7f c3 fc 0f f0 00 00 ff 83 fd 0f f0 00 01 ff 02 fe 1f f0 00 03 fd
01 ff 7f e0 00 07 fc 00 ff ff d0 00 0f f4 00 7f ff 80 00 1f f0 00 1f fe
00 00 05 40 00 01 50 00 00 00 00 00 00 00 00 00 00 00 00 00 00 00 00 00
00 00 00 00 00 00 00 00 00 00 00 00 00 00 00 00 00 00 00 00 00 00 00 00
00 00 00 00 00 00 00 00 00 00 00 00 00 00 00 00 00 00 00 02 ff e4 00 00
00 1f ff fe 00 00 00 3f ff fe 00 00 00 bf ff fe 00 00 00 ff d0 7e 00 00
00 ff 80 04 00 00 00 ff 80 00 00 00 00 ff c0 00 00 00 00 bf f0 00 00 00
00 3f f8 00 00 00 00 ff fe 00 2a 80 03 ff ff 40 3f d0 07 ff ff d0 7f c0
0f fc bf f0 7f c0 0f f8 3f fc ff 80 0f f4 0f ff ff 40 1f f4 03 ff ff 00
0f f4 01 ff fd 00 0f fc 00 7f fc 00 0b ff 40 bf fd 00 03 ff ff ff ff 40
01 ff ff ff ff d0 00 bf ff fe ff f0 00 0f ff e0 3f f0 00 00 55 00 00 00
00 00 00 00 00 00 00 00 00 00 00 00 00 00 00 00 00 00 00 00 00 00 00 00
00 00 00 00 00 00 00 00 00 00 00 00 00 00 00 03 f4 00 07 fc 00 07 fc 00
07 fc 00 07 fc 00 07 fc 00 07 fc 00 07 fc 00 07 fc 00 07 f8 00 00 50 00
00 00 00 00 00 00 00 00 00 00 00 00 00 00 00 00 00 00 00 00 00 00 00 00
00 00 00 00 00 00 00 00 00 00 00 00 00 00 00 00 00 00 00 00 00 00 00 00
00 00 00 00 00 00 00 00 00 00 00 00 00 00 00 00 00 00 00 00 00 00 00 06
e0 00 00 0f f4 00 00 2f f0 00 00 3f d0 00 00 7f c0 00 00 ff 80 00 01 ff
40 00 02 ff 00 00 03 fe 00 00 03 fd 00 00 07 fd 00 00 07 fc 00 00 0b fc
00 00 0b fc 00 00 0b fc 00 00 0b fc 00 00 0b fc 00 00 07 fc 00 00 07 fc
00 00 03 fd 00 00 03 fe 00 00 02 ff 00 00 01 ff 00 00 00 ff 80 00 00 bf
c0 00 00 3f d0 00 00 2f f0 00 00 0f f0 00 00 07 f0 00 00 00 00 00 00 00
00 00 00 00 00 00 00 00 00 00 00 00 00 00 07 e0 00 00 0b f8 00 00 07 fc
00 00 03 fe 00 00 01 ff 00 00 00 ff 40 00 00 bf 80 00 00 7f c0 00 00 3f
d0 00 00 3f e0 00 00 2f f0 00 00 2f f0 00 00 1f f0 00 00 1f f0 00 00 1f
f0 00 00 1f f0 00 00 1f f0 00 00 2f f0 00 00 2f f0 00 00 3f e0 00 00 3f
d0 00 00 7f c0 00 00 bf c0 00 00 ff 40 00 01 ff 00 00 03 fe 00 00 07 fc
00 00 0b f8 00 00 07 f0 00 00 00 00 00 00 00 00 00 00 00 00 00 00 00 00
00 00 00 00 00 00 00 01 00 00 00 0f d0 00 00 0f e0 00 09 0f e0 90 2f 8f
e7 f0 3f ff ff f8 2f ff ff f4 07 ff ff 80 00 ff fd 00 03 ff ff 40 2f ff
ff f0 3f ff ff f8 3f cf e7 f4 0d 0f e0 a0 00 0f e0 00 00 0f d0 00 00 01
40 00 00 00 00 00 00 00 00 00 00 00 00 00 00 00 00 00 00 00 00 00 00 00
00 00 00 00 00 00 00 00 00 00 00 00 00 00 00 00 00 00 00 00 00 00 00 00
00 00 00 00 00 00 00 00 00 00 00 00 00 00 00 00 00 00 00 00 00 00 00 00
00 00 00 00 00 00 00 00 00 00 00 00 00 00 00 00 00 00 00 00 00 00 00 00
00 00 00 00 00 00 00 00 00 00 00 00 00 00 00 00 07 e0 00 00 00 00 00 0f
f4 00 00 00 00 00 0f f4 00 00 00 00 00 0f f4 00 00 00 00 00 0f f4 00 00
00 00 00 0f f4 00 00 00 00 00 0f f4 00 00 00 00 00 0f f4 00 00 00 01 aa
af fe aa 80 00 03 ff ff ff ff e0 00 03 ff ff ff ff f0 00 03 ff ff ff ff
f0 00 02 ff ff ff ff d0 00 00 00 0f f4 00 00 00 00 00 0f f4 00 00 00 00
00 0f f4 00 00 00 00 00 0f f4 00 00 00 00 00 0f f4 00 00 00 00 00 0f f4
00 00 00 00 00 0f f4 00 00 00 00 00 0b f0 00 00 00 00 00 00 00 00 00 00
00 00 00 00 00 00 00 00 00 00 00 00 00 00 00 00 00 00 00 00 00 00 00 00
00 00 00 00 00 00 00 00 00 00 00 00 00 00 00 00 00 00 00 00 00 00 00 00
00 00 00 00 00 00 00 00 00 00 00 00 00 00 00 00 00 00 00 00 00 00 00 00
00 00 00 00 00 00 00 00 00 00 00 00 00 00 00 00 00 00 00 00 00 00 00 00
00 01 a9 00 03 ff 00 03 ff 00 03 ff 00 03 fe 00 07 fd 00 07 fc 00 0b f4
00 0f f0 00 01 40 00 00 00 00 00 00 00 00 00 00 00 00 00 00 00 00 00 00
00 00 00 00 00 00 00 00 00 00 00 00 00 00 00 00 00 00 00 00 00 00 00 00
00 00 00 00 00 00 00 00 00 00 00 00 00 05 55 50 2f ff f4 2f ff f4 2f ff
f4 1f ff f0 00 00 00 00 00 00 00 00 00 00 00 00 00 00 00 00 00 00 00 00
00 00 00 00 00 00 00 00 00 00 00 00 00 00 00 00 00 00 00 00 00 00 00 00
00 00 00 00 00 00 00 00 00 00 00 00 00 00 00 00 00 00 00 00 00 00 00 00
00 00 00 00 00 00 00 00 00 00 00 00 00 00 00 00 00 00 00 00 00 00 00 00
00 00 00 00 00 00 00 00 00 00 00 00 00 02 a8 00 03 fe 00 03 fe 00 03 fe
00 03 fe 00 03 fd 00 00 00 00 00 00 00 00 00 00 00 00 00 00 00 00 00 00
00 00 00 00 00 00 00 00 00 00 00 00 00 00 02 f8 00 07 fc 00 0b fc 00 0f
f4 00 0f f0 00 1f f0 00 2f e0 00 3f d0 00 3f c0 00 bf c0 00 ff 80 00 ff
00 01 ff 00 02 fe 00 03 fd 00 03 fc 00 07 fc 00 0b f8 00 0f f4 00 1f f0
00 2f e0 00 3f d0 00 3f c0 00 7f c0 00 bf 80 00 ff 40 00 7e 00 00 00 00
00 00 00 00 00 00 00 00 00 00 00 00 00 00 00 00 00 00 00 00 00 00 00 00
00 00 00 00 00 00 0b ff 80 00 00 3f ff f0 00 00 ff ff fc 00 02 ff ff fe
00 03 ff 47 ff 00 07 fe 01 ff 40 0b fc 00 ff c0 0f fc 00 bf c0 0f f8 00
bf c0 0f f8 00 7f d0 0f f4 00 7f d0 0f f4 00 7f d0 0f f4 00 7f d0 0f f4
00 7f d0 0f f8 00 7f d0 0f f8 00 7f c0 0f fc 00 bf c0 0b fc 00 ff c0 07
fd 01 ff 80 03 ff 43 ff 00 02 ff ff fe 00 00 ff ff fc 00 00 3f ff f4 00
00 0b ff c0 00 00 00 54 00 00 00 00 00 00 00 00 00 00 00 00 00 00 00 00
00 00 00 00 00 00 00 00 00 00 00 00 00 00 00 00 00 00 00 00 00 00 00 00
00 00 00 00 00 00 00 00 06 ff 00 00 02 ff ff 40 00 03 ff ff 40 00 03 ff
ff 40 00 03 ff ff 40 00 02 e5 ff 40 00 00 01 ff 40 00 00 01 ff 40 00 00
01 ff 40 00 00 01 ff 40 00 00 01 ff 40 00 00 01 ff 40 00 00 01 ff 40 00
00 01 ff 40 00 00 01 ff 40 00 00 01 ff 40 00 00 01 ff 40 00 00 01 ff 40
00 00 01 ff 40 00 00 56 ff 95 00 02 ff ff ff 80 02 ff ff ff 80 02 ff ff
ff 80 01 ff ff ff 40 00 00 00 00 00 00 00 00 00 00 00 00 00 00 00 00 00
00 00 00 00 00 00 00 00 00 00 00 00 00 00 00 00 00 00 00 00 00 00 00 00
00 00 00 00 00 00 00 00 00 00 6f ff 40 00 07 ff ff f0 00 0f ff ff fc 00
0f ff ff fe 00 0f f9 5f ff 00 0f 80 03 ff 00 00 00 01 ff 40 00 00 01 ff
40 00 00 02 ff 00 00 00 03 ff 00 00 00 0b fe 00 00 00 1f fc 00 00 00 7f
f4 00 00 00 ff e0 00 00 03 ff 80 00 00 0f ff 00 00 00 3f fc 00 00 00 bf
f0 00 00 02 ff d0 00 00 07 ff d5 55 00 0f ff ff ff 40 0f ff ff ff 40 0f
ff ff ff 40 0b ff ff ff 00 00 00 00 00 00 00 00 00 00 00 00 00 00 00 00
00 00 00 00 00 00 00 00 00 00 00 00 00 00 00 00 00 00 00 00 00 00 00 00
00 00 00 00 00 00 00 00 00 00 00 01 bf ff 80 00 07 ff ff f4 00 07 ff ff
fd 00 07 ff ff ff 00 03 f9 5b ff 40 00 00 01 ff 40 00 00 00 ff 80 00 00
01 ff 40 00 00 03 ff 00 00 0f ff ff 00 00 2f ff fc 00 00 2f ff fc 00 00
1f ff fe 00 00 06 af ff 40 00 00 02 ff 80 00 00 00 ff c0 00 00 00 bf c0
00 00 00 ff c0 05 00 00 ff c0 0f d0 07 ff 80 0f ff ff ff 00 0f ff ff fd
00 0f ff ff f8 00 02 ff ff 80 00 00 05 50 00 00 00 00 00 00 00 00 00 00
00 00 00 00 00 00 00 00 00 00 00 00 00 00 00 00 00 00 00 00 00 00 00 00
00 00 00 00 00 00 00 00 00 00 00 00 00 00 00 0f f4 00 00 00 3f fc 00 00
00 7f fc 00 00 00 ff fc 00 00 02 ff fc 00 00 07 ff fc 00 00 0f ff fc 00
00 1f ff fc 00 00 3f ef fc 00 00 bf cf fc 00 00 ff 4f fc 00 03 ff 0f fc
00 07 fd 0f fc 00 0f f8 0f fc 00 2f fa af fe 80 2f ff ff ff e0 2f ff ff
ff e0 2f ff ff ff e0 1f ff ff ff d0 00 00 0f fc 00 00 00 0f fc 00 00 00
0f fc 00 00 00 0f fc 00 00 00 0b f8 00 00 00 00 00 00 00 00 00 00 00 00
00 00 00 00 00 00 00 00 00 00 00 00 00 00 00 00 00 00 00 00 00 00 00 00
00 00 00 00 00 00 00 00 00 00 00 00 00 00 00 02 ff ff fc 00 03 ff ff fd
00 03 ff ff fd 00 03 ff ff fd 00 03 ff aa a8 00 03 fd 00 00 00 03 fd 00
00 00 03 fe 54 00 00 03 ff ff 80 00 03 ff ff f0 00 03 ff ff fc 00 03 ff
ff ff 00 03 e4 0b ff 00 00 00 02 ff 80 00 00 00 ff 80 00 00 00 ff c0 00
00 00 ff c0 00 00 00 ff 80 01 00 02 ff 80 0f d0 0b ff 00 0f ff ff ff 00
0f ff ff fc 00 0f ff ff f0 00 02 ff ff 80 00 00 05 50 00 00 00 00 00 00
00 00 00 00 00 00 00 00 00 00 00 00 00 00 00 00 00 00 00 00 00 00 00 00
00 00 00 00 00 00 00 00 00 00 00 00 00 00 00 00 00 00 01 ff f9 00 00 0f
ff ff 00 00 3f ff ff 00 00 ff ff ff 00 01 ff e5 6f 00 03 ff 00 00 00 07
fe 00 00 00 0b fc 15 00 00 0f ff ff e0 00 0f ff ff fc 00 0f ff ff ff 00
0f ff ff ff 80 0f ff 41 ff c0 0f fe 00 bf c0 0f fc 00 7f d0 0f fc 00 3f
d0 0f fc 00 7f d0 0b fc 00 7f d0 07 fe 00 ff c0 03 ff 41 ff c0 01 ff ff
ff 40 00 ff ff ff 00 00 3f ff fc 00 00 0b ff e0 00 00 00 55 00 00 00 00
00 00 00 00 00 00 00 00 00 00 00 00 00 00 00 00 00 00 00 00 00 00 00 00".
Definition cond32_bits_1 : list Z := atlas
"00 00 00 00 00 00 00 00 00 00 00 00 00 00 00 00 00 00 00 07 ff ff ff 40
0f ff ff ff c0 0f ff ff ff c0 0f ff ff ff 80 02 aa ab ff 00 00 00 03 ff
00 00 00 07 fd 00 00 00 0b fc 00 00 00 0f fc 00 00 00 1f f4 00 00 00 3f
f0 00 00 00 3f f0 00 00 00 7f d0 00 00 00 ff c0 00 00 00 ff 80 00 00 02
ff 40 00 00 03 ff 00 00 00 03 fe 00 00 00 0b fd 00 00 00 0f fc 00 00 00
0f f8 00 00 00 2f f4 00 00 00 3f f0 00 00 00 2f d0 00 00 00 00 00 00 00
00 00 00 00 00 00 00 00 00 00 00 00 00 00 00 00 00 00 00 00 00 00 00 00
00 00 00 00 00 00 00 00 00 00 00 00 00 00 00 00 00 00 00 00 00 00 1f ff
d0 00 00 bf ff f8 00 02 ff ff fe 00 03 ff ff ff 40 07 ff 42 ff 80 0b fc
00 ff c0 0b fc 00 ff c0 0b fc 00 ff c0 07 fe 01 ff 80 03 ff ff ff 00 01
ff ff fd 00 00 ff ff fc 00 02 ff ff ff 00 07 ff ef ff 80 0f fd 00 ff c0
0f fc 00 bf c0 0f f8 00 7f d0 0f f8 00 7f d0 0f fc 00 bf c0 0f fe 02 ff
c0 07 ff ff ff 80 03 ff ff ff 00 00 ff ff fc 00 00 2f ff e0 00 00 00 54
00 00 00 00 00 00 00 00 00 00 00 00 00 00 00 00 00 00 00 00 00 00 00 00
00 00 00 00 00 00 00 00 00 00 00 00 00 00 00 00 00 00 00 00 00 00 00 00
1f ff 40 00 00 bf ff f0 00 02 ff ff fc 00 03 ff ff fe 00 0b ff 07 ff 00
0f fc 01 ff 40 0f f8 00 ff 80 1f f4 00 ff c0 1f f4 00 ff c0 0f f8 00 ff
c0 0f fc 01 ff c0 0f fd 03 ff d0 07 ff ff ff d0 03 ff ff ff c0 00 ff ff
ff c0 00 2f ff ff c0 00 01 a4 ff c0 00 00 01 ff 80 00 00 03 ff 00 03 e4
1f fe 00 03 ff ff fc 00 03 ff ff f4 00 03 ff ff d0 00 01 ff fe 00 00 00
05 50 00 00 00 00 00 00 00 00 00 00 00 00 00 00 00 00 00 00 00 00 00 00
00 00 00 00 00 00 00 00 00 00 00 00 00 00 00 00 00 00 00 00 00 00 00 00
00 00 00 00 00 00 00 00 00 00 a8 00 03 ff 00 03 ff 00 03 ff 00 03 ff 00
02 ff 00 00 00 00 00 00 00 00 00 00 00 00 00 00 00 00 00 00 00 01 a9 00
03 ff 00 03 ff 00 03 ff 00 03 ff 00 02 fe 00 00 00 00 00 00 00 00 00 00
00 00 00 00 00 00 00 00 00 00 00 00 00 00 00 00 00 00 00 00 00 00 00 00
00 00 00 00 00 00 00 00 00 00 00 00 00 00 00 00 a8 00 03 ff 00 03 ff 00
03 ff 00 03 ff 00 02 ff 00 00 00 00 00 00 00 00 00 00 00 00 00 00 00 00
00 00 00 01 a9 00 03 ff 00 03 ff 00 03 ff 00 03 fe 00 07 fd 00 07 fc 00
0b f4 00 0f f0 00 01 40 00 00 00 00 00 00 00 00 00 00 00 00 00 00 00 00
00 00 00 00 00 00 00 00 00 00 00 00 00 00 00 00 00 00 00 00 00 00 00 00
00 00 00 00 00 00 00 00 00 00 00 00 00 00 00 00 00 00 00 00 00 00 00 00
00 00 00 00 00 00 00 00 40 00 00 00 00 00 0b e0 00 00 00 00 01 ff f0 00
00 00 00 2f ff f0 00 00 00 07 ff ff e0 00 00 00 bf ff ff 40 00 00 1f ff
ff e0 00 00 02 ff ff fd 00 00 00 03 ff ff 80 00 00 00 03 ff f8 00 00 00
00 03 ff ff 40 00 00 00 02 ff ff f8 00 00 00 00 2f ff ff d0 00 00 00 01
ff ff fe 00 00 00 00 0b ff ff e0 00 00 00 00 7f ff f0 00 00 00 00 02 ff
f0 00 00 00 00 00 1f e0 00 00 00 00 00 00 40 00 00 00 00 00 00 00 00 00
00 00 00 00 00 00 00 00 00 00 00 00 00 00 00 00 00 00 00 00 00 00 00 00
00 00 00 00 00 00 00 00 00 00 00 00 00 00 00 00 00 00 00 00 00 00 00 00
00 00 00 00 00 00 00 00 00 00 00 00 00 00 00 00 00 00 00 00 00 00 00 00
00 00 00 00 00 00 00 00 00 00 00 00 00 00 00 00 00 00 00 00 00 00 00 00
00 00 00 00 00 00 00 00 00 00 00 00 00 00 00 00 00 00 00 00 00 00 00 00
00 00 00 00 00 01 aa aa aa aa 80 00 03 ff ff ff ff e0 00 03 ff ff ff ff
f0 00 03 ff ff ff ff f0 00 02 ff ff ff ff d0 00 00 00 00 00 00 00 00 01
aa aa aa aa 80 00 03 ff ff ff ff e0 00 03 ff ff ff ff f0 00 03 ff ff ff
ff f0 00 02 ff ff ff ff d0 00 00 00 00 00 00 00 00 00 00 00 00 00 00 00
00 00 00 00 00 00 00 00 00 00 00 00 00 00 00 00 00 00 00 00 00 00 00 00
00 00 00 00 00 00 00 00 00 00 00 00 00 00 00 00 00 00 00 00 00 00 00 00
00 00 00 00 00 00 00 00 00 00 00 00 00 00 00 00 00 00 00 00 00 00 00 00
00 00 00 00 00 00 00 00 00 00 00 00 00 00 00 00 00 00 00 00 00 00 00 00
00 00 00 00 00 00 00 00 00 00 00 00 00 00 00 00 00 00 00 00 00 00 00 00
00 00 00 00 00 00 03 f4 00 00 00 00 00 03 ff 80 00 00 00 00 03 ff fd 00
00 00 00 03 ff ff e0 00 00 00 00 bf ff ff 40 00 00 00 07 ff ff f8 00 00
00 00 2f ff ff d0 00 00 00 01 bf ff e0 00 00 00 00 0f ff f0 00 00 00 00
bf ff f0 00 00 00 1b ff ff d0 00 00 02 ff ff fd 00 00 00 7f ff ff 80 00
00 03 ff ff f4 00 00 00 03 ff fe 00 00 00 00 03 ff d0 00 00 00 00 03 f8
00 00 00 00 00 01 40 00 00 00 00 00 00 00 00 00 00 00 00 00 00 00 00 00
00 00 00 00 00 00 00 00 00 00 00 00 00 00 00 00 00 00 00 00 00 00 00 00
00 00 00 00 00 00 00 00 00 00 00 00 00 00 00 00 00 00 00 00 00 00 00 00
00 00 00 bf fd 00 07 ff ff 80 0f ff ff d0 0f ff ff f0 0f e4 7f f4 0f 40
1f f4 00 00 1f f4 00 00 3f f0 00 00 bf f0 00 02 ff c0 00 07 ff 40 00 0f
fe 00 00 1f f8 00 00 2f f0 00 00 2f f0 00 00 3f f0 00 00 3f f0 00 00 2f
e0 00 00 1f d0 00 00 3f f0 00 00 3f f0 00 00 3f f0 00 00 3f f0 00 00 2f
e0 00 00 00 00 00 00 00 00 00 00 00 00 00 00 00 00 00 00 00 00 00 00 00
00 00 00 00 00 00 00 00 00 00 00 00 00 00 00 00 00 00 00 00 00 00 00 00
00 00 00 00 00 00 00 00 00 00 00 00 00 00 00 00 00 00 00 00 00 00 00 00
06 ff f8 00 00 00 00 00 7f ff ff 80 00 00 00 02 ff ff ff f4 00 00 00 0f
ff ff ff fd 00 00 00 3f fe 40 1f ff 40 00 00 bf f0 00 01 ff c0 00 00 ff
80 15 00 7f e0 00 02 ff 03 ff ff df f0 00 03 fc 0f ff ff cb f4 00 0b f8
3f ff ff c7 f8 00 0f f0 7f fb ff c3 fc 00 0f f0 bf c0 ff c3 fc 00 0f f0
ff 40 3f c3 fc 00 0f e0 ff 00 3f c3 fc 00 0f e0 ff 00 3f c3 fc 00 0f f0
ff 00 3f c7 f8 00 0f f0 ff 80 bf cf f4 00 0f f0 bf e6 ff ff f0 00 0b f8
3f ff ff ff d0 00 07 fc 1f ff ff ff 40 00 03 fe 07 ff ff fc 00 00 01 ff
80 6a 1a 90 00 00 00 bf e0 00 01 f0 00 00 00 3f fd 00 1f fc 00 00 00 0f
ff ff ff fc 00 00 00 03 ff ff ff f4 00 00 00 00 7f ff ff 80 00 00 00 00
07 ff f8 00 00 00 00 00 00 00 00 00 00 00 00 00 00 00 00 00 00 00 00 00
00 00 00 00 00 00 00 00 00 00 00 00 00 00 ff 40 00 00 00 01 ff c0 00 00
00 03 ff d0 00 00 00 03 ff e0 00 00 00 0b ff f0 00 00 00 0f ff f4 00 00
00 0f ff f8 00 00 00 2f ff fc 00 00 00 3f f7 fd 00 00 00 3f d3 fe 00 00
00 bf c2 ff 00 00 00 ff c1 ff 40 00 01 ff 40 ff 80 00 02 ff 00 bf c0 00
03 ff ff ff d0 00 07 ff ff ff e0 00 0b ff ff ff f0 00 0f ff ff ff f4 00
1f f9 55 5f fc 00 2f f0 00 0b fc 00 3f f0 00 07 fd 00 7f e0 00 03 ff 00
bf c0 00 02 ff 00 7f c0 00 01 ff 00 00 00 00 00 00 00 00 00 00 00 00 00
00 00 00 00 00 00 00 00 00 00 00 00 00 00 00 00 00 00 00 00 00 00 00 00
00 00 00 00 00 00 00 00 00 00 00 00 00 00 00 00 00 00 00 00 00 00 00 00
03 ff ff 90 00 00 07 ff ff fd 00 00 07 ff ff ff 40 00 07 ff ff ff c0 00
07 fe aa ff d0 00 07 fd 00 7f e0 00 07 fd 00 3f f0 00 07 fd 00 3f e0 00
07 fd 00 bf e0 00 07 ff ff ff c0 00 07 ff ff ff 80 00 07 ff ff ff 40 00
07 ff ff ff d0 00 07 fe aa ff f0 00 07 fd 00 3f f0 00 07 fd 00 1f f4 00
07 fd 00 0f f8 00 07 fd 00 1f f8 00 07 fd 00 2f f4 00 07 fe 56 ff f0 00
07 ff ff ff e0 00 07 ff ff ff c0 00 07 ff ff ff 00 00 03 ff ff e4 00 00
00 00 00 00 00 00 00 00 00 00 00 00 00 00 00 00 00 00 00 00 00 00 00 00
00 00 00 00 00 00 00 00 00 00 00 00 00 00 00 00 00 00 00 00 00 00 00 00
00 00 00 00 00 00 00 00 00 00 00 00 00 01 bf ff 40 00 00 0b ff ff f4 00
00 3f ff ff fc 00 00 ff ff ff fd 00 02 ff f4 1b fd 00 03 ff 40 00 bd 00
0b fe 00 00 1c 00 0f fc 00 00 00 00 0f fc 00 00 00 00 1f f8 00 00 00 00
1f f4 00 00 00 00 1f f4 00 00 00 00 1f f4 00 00 00 00 1f f4 00 00 00 00
1f f8 00 00 00 00 0f f8 00 00 00 00 0f fc 00 00 00 00 0b fe 00 00 18 00
03 ff 40 00 7d 00 02 ff e0 07 fd 00 00 ff ff ff fd 00 00 3f ff ff fd 00
00 0f ff ff f4 00 00 01 ff ff 80 00 00 00 05 50 00 00 00 00 00 00 00 00
00 00 00 00 00 00 00 00 00 00 00 00 00 00 00 00 00 00 00 00 00 00 00 00
00 00 00 00 00 00 00 00 00 00 00 00 00 00 00 00 00 00 00 00 00 00 00 00
03 ff fe 90 00 00 07 ff ff fe 00 00 07 ff ff ff d0 00 07 ff ff ff f8 00
07 fe aa ff fd 00 07 fd 00 1f ff 00 07 fd 00 03 ff 40 07 fd 00 01 ff 80
07 fd 00 00 ff c0 07 fd 00 00 ff c0 07 fd 00 00 bf c0 07 fd 00 00 bf c0
07 fd 00 00 bf c0 07 fd 00 00 bf c0 07 fd 00 00 ff c0 07 fd 00 00 ff c0
07 fd 00 01 ff 80 07 fd 00 03 ff 40 07 fd 00 1f ff 00 07 fe 56 ff fd 00
07 ff ff ff f8 00 07 ff ff ff e0 00 07 ff ff ff 40 00 03 ff ff 90 00 00
00 00 00 00 00 00 00 00 00 00 00 00 00 00 00 00 00 00 00 00 00 00 00 00
00 00 00 00 00 00 00 00 00 00 00 00 00 00 00 00 00 00 00 00 00 00 00 00
00 00 00 00 00 00 00 03 ff ff ff 80 07 ff ff ff c0 07 ff ff ff c0 07 ff
ff ff c0 07 fe aa aa 40 07 fd 00 00 00 07 fd 00 00 00 07 fd 00 00 00 07
fd 00 00 00 07 ff ff ff 40 07 ff ff ff 80 07 ff ff ff 80 07 ff ff ff 80
07 fe aa aa 00 07 fd 00 00 00 07 fd 00 00 00 07 fd 00 00 00 07 fd 00 00
00 07 fd 00 00 00 07 fe 55 55 40 07 ff ff ff d0 07 ff ff ff d0 07 ff ff
ff d0 03 ff ff ff c0 00 00 00 00 00 00 00 00 00 00 00 00 00 00 00 00 00
00 00 00 00 00 00 00 00 00 00 00 00 00 00 00 00 00 00 00 00 00 00 00 00
00 00 00 00 00 00 00 00 00 03 ff ff fe 00 07 ff ff ff 00 07 ff ff ff 00
07 ff ff ff 00 07 fe aa a9 00 07 fd 00 00 00 07 fd 00 00 00 07 fd 00 00
00 07 fd 00 00 00 07 ff ff f8 00 07 ff ff fc 00 07 ff ff fc 00 07 ff ff
fc 00 07 fe aa a4 00 07 fd 00 00 00 07 fd 00 00 00 07 fd 00 00 00 07 fd
00 00 00 07 fd 00 00 00 07 fd 00 00 00 07 fd 00 00 00 07 fd 00 00 00 07
fd 00 00 00 03 fc 00 00 00 00 00 00 00 00 00 00 00 00 00 00 00 00 00 00
00 00 00 00 00 00 00 00 00 00 00 00 00 00 00 00 00 00 00 00 00 00 00 00
00 00 00 00 00 00 00 00 00 00 00 00 00 00 00 00 00 01 bf ff 80 00 00 0b
ff ff f8 00 00 3f ff ff ff 00 00 ff ff ff ff 00 02 ff f5 17 ff 00 03 ff
40 00 7f 00 0b fe 00 00 0b 00 0f fc 00 00 00 00 0f fc 00 00 00 00 1f f8
00 00 00 00 1f f4 00 55 55 00 1f f4 00 ff ff 80 1f f4 01 ff ff 80 1f f4
01 ff ff 80 1f f8 00 ff ff 80 0f f8 00 00 ff 80 0f fc 00 00 ff 80 0b fe
00 00 ff 80 03 ff 40 00 ff 80 02 ff e4 02 ff 80 00 ff ff ff ff 80 00 3f
ff ff ff 40 00 0f ff ff fd 00 00 01 ff ff d0 00 00 00 05 50 00 00 00 00
00 00 00 00 00 00 00 00 00 00 00 00 00 00 00 00 00 00 00 00 00 00 00 00
00 00 00 00 00 00 00 00 00 00 00 00 00 00 00 00 00 00 00 00 00 00 00 00
00 00 00 00 03 fc 00 02 fd 00 07 fd 00 03 fe 00 07 fd 00 03 fe 00 07 fd
00 03 fe 00 07 fd 00 03 fe 00 07 fd 00 03 fe 00 07 fd 00 03 fe 00 07 fd
00 03 fe 00 07 fd 00 03 fe 00 07 ff ff ff fe 00 07 ff ff ff fe 00 07 ff
ff ff fe 00 07 ff ff ff fe 00 07 fe aa ab fe 00 07 fd 00 03 fe 00 07 fd
00 03 fe 00 07 fd 00 03 fe 00 07 fd 00 03 fe 00 07 fd 00 03 fe 00 07 fd
00 03 fe 00 07 fd 00 03 fe 00 07 fd 00 03 fe 00 07 fd 00 03 fe 00 03 fc
00 02 fd 00 00 00 00 00 00 00 00 00 00 00 00 00 00 00 00 00 00 00 00 00
00 00 00 00 00 00 00 00 00 00 00 00 00 00 00 00 00 00 00 00 00 00 00 00
00 03 fc 00 07 fd 00 07 fd 00 07 fd 00 07 fd 00 07 fd 00 07 fd 00 07 fd
00 07 fd 00 07 fd 00 07 fd 00 07 fd 00 07 fd 00 07 fd 00 07 fd 00 07 fd
00 07 fd 00 07 fd 00 07 fd 00 07 fd 00 07 fd 00 07 fd 00 07 fd 00 03 fc
00 00 00 00 00 00 00 00 00 00 00 00 00 00 00 00 00 00 00 00 00 00 00 00
00 00 00 00 00 00 00 00 3f c0 00 7f d0 00 7f d0 00 7f d0 00 7f d0 00 7f
d0 00 7f d0 00 7f d0 00 7f d0 00 7f d0 00 7f d0 00 7f d0 00 7f d0 00 7f
d0 00 7f d0 00 7f d0 00 7f d0 00 7f d0 00 7f d0 00 7f d0 00 7f d0 00 7f".
Definition cond32_bits_2 : list Z := atlas
"d0 00 7f d0 00 7f c0 00 bf c0 1a ff c0 7f ff 40 7f ff 00 7f fc 00 00 00
00 00 00 00 00 00 00 00 00 00 00 00 00 00 00 00 00 00 00 00 00 00 00 00
00 00 00 00 03 fc 00 0b fd 00 07 fd 00 2f fd 00 07 fd 00 bf f8 00 07 fd
01 ff e0 00 07 fd 07 ff 80 00 07 fd 1f fe 00 00 07 fd 7f fc 00 00 07 fe
ff f0 00 00 07 ff ff c0 00 00 07 ff ff 00 00 00 07 ff fc 00 00 00 07 ff
f4 00 00 00 07 ff fc 00 00 00 07 ff ff 00 00 00 07 ff ff c0 00 00 07 fe
ff f0 00 00 07 fd 7f fc 00 00 07 fd 2f fe 00 00 07 fd 0b ff 80 00 07 fd
02 ff d0 00 07 fd 00 ff f4 00 07 fd 00 3f fd 00 07 fd 00 0f ff 00 03 fc
00 03 ff 00 00 00 00 00 00 00 00 00 00 00 00 00 00 00 00 00 00 00 00 00
00 00 00 00 00 00 00 00 00 00 00 00 00 00 00 00 00 00 00 00 00 00 00 00
00 00 00 00 00 00 00 00 00 00 00 03 fc 00 00 00 07 fd 00 00 00 07 fd 00
00 00 07 fd 00 00 00 07 fd 00 00 00 07 fd 00 00 00 07 fd 00 00 00 07 fd
00 00 00 07 fd 00 00 00 07 fd 00 00 00 07 fd 00 00 00 07 fd 00 00 00 07
fd 00 00 00 07 fd 00 00 00 07 fd 00 00 00 07 fd 00 00 00 07 fd 00 00 00
07 fd 00 00 00 07 fd 00 00 00 07 fe 55 55 00 07 ff ff ff c0 07 ff ff ff
c0 07 ff ff ff c0 03 ff ff ff 80 00 00 00 00 00 00 00 00 00 00 00 00 00
00 00 00 00 00 00 00 00 00 00 00 00 00 00 00 00 00 00 00 00 00 00 00 00
00 00 00 00 00 00 00 00 00 00 00 00 00 00 00 00 00 00 00 00 00 00 00 03
ff 40 00 3f f4 00 07 ff c0 00 bf f8 00 07 ff c0 00 ff f8 00 07 ff d0 00
ff f8 00 07 ff f0 02 ff f8 00 07 ff f0 03 ff f8 00 07 ff f4 03 ff f8 00
07 ff fc 0b ff f8 00 07 ff fc 0f ff f8 00 07 ff fd 0f ff f8 00 07 ff ff
2f ff f8 00 07 fd ff 3f ef f8 00 07 fc ff bf cf f8 00 07 fc bf ff cf f8
00 07 fc 3f ff 4f f8 00 07 fc 3f ff 0f f8 00 07 fc 2f ff 0f f8 00 07 fc
0f fd 0f f8 00 07 fc 0f fc 0f f8 00 07 fc 07 f8 0f f8 00 07 fc 00 00 0f
f8 00 07 fc 00 00 0f f8 00 07 fc 00 00 0f f8 00 03 fc 00 00 0b f4 00 00
00 00 00 00 00 00 00 00 00 00 00 00 00 00 00 00 00 00 00 00 00 00 00 00
00 00 00 00 00 00 00 00 00 00 00 00 00 00 00 00 00 00 00 00 00 00 00 00
00 00 00 00 00 00 00 00 00 00 00 00 00 00 00 00 03 ff 00 02 fc 00 07 ff
80 03 fe 00 07 ff c0 03 fe 00 07 ff d0 03 fe 00 07 ff f0 03 fe 00 07 ff
f4 03 fe 00 07 ff fc 03 fe 00 07 ff fd 03 fe 00 07 ff ff 03 fe 00 07 ff
ff 43 fe 00 07 fd ff c3 fe 00 07 fc bf d3 fe 00 07 fc 3f f3 fe 00 07 fc
2f f7 fe 00 07 fc 0f ff fe 00 07 fc 0b ff fe 00 07 fc 07 ff fe 00 07 fc
03 ff fe 00 07 fc 01 ff fe 00 07 fc 00 ff fe 00 07 fc 00 7f fe 00 07 fc
00 3f fe 00 07 fc 00 1f fe 00 03 fc 00 0f fd 00 00 00 00 00 00 00 00 00
00 00 00 00 00 00 00 00 00 00 00 00 00 00 00 00 00 00 00 00 00 00 00 00
00 00 00 00 00 00 00 00 00 00 00 00 00 00 00 00 00 00 00 00 00 00 00 00
00 00 00 00 00 01 bf fd 00 00 00 0f ff ff d0 00 00 3f ff ff f4 00 00 ff
ff ff fc 00 02 ff e4 2f ff 00 03 ff 40 03 ff 40 0b fe 00 01 ff c0 0f fc
00 00 ff c0 0f fc 00 00 bf d0 1f f8 00 00 7f e0 1f f4 00 00 3f e0 1f f4
00 00 3f e0 1f f4 00 00 3f e0 1f f4 00 00 3f e0 1f f8 00 00 7f e0 0f f8
00 00 7f d0 0f fc 00 00 ff c0 0b fe 00 01 ff c0 03 ff 40 03 ff 40 02 ff
e0 1f ff 00 00 ff ff ff fd 00 00 7f ff ff f8 00 00 1f ff ff d0 00 00 02
ff fe 00 00 00 00 05 40 00 00 00 00 00 00 00 00 00 00 00 00 00 00 00 00
00 00 00 00 00 00 00 00 00 00 00 00 00 00 00 00 00 00 00 00 00 00 00 00
00 00 00 00 00 00 00 00 00 00 00 03 ff fe 40 00 07 ff ff f8 00 07 ff ff
fe 00 07 ff ff ff 40 07 fe ab ff c0 07 fd 00 ff c0 07 fd 00 bf d0 07 fd
00 7f d0 07 fd 00 bf d0 07 fd 00 ff c0 07 fd 07 ff c0 07 ff ff ff 80 07
ff ff ff 00 07 ff ff fc 00 07 ff ff d0 00 07 fd 00 00 00 07 fd 00 00 00
07 fd 00 00 00 07 fd 00 00 00 07 fd 00 00 00 07 fd 00 00 00 07 fd 00 00
00 07 fd 00 00 00 03 fc 00 00 00 00 00 00 00 00 00 00 00 00 00 00 00 00
00 00 00 00 00 00 00 00 00 00 00 00 00 00 00 00 00 00 00 00 00 00 00 00
00 00 00 00 00 00 00 00 00 00 00 00 00 00 00 00 00 00 00 01 bf fd 00 00
00 0f ff ff d0 00 00 3f ff ff f4 00 00 ff ff ff fc 00 02 ff e4 2f ff 00
03 ff 40 03 ff 40 0b fe 00 01 ff c0 0f fc 00 00 ff c0 0f fc 00 00 bf d0
1f f8 00 00 7f e0 1f f4 00 00 3f e0 1f f4 00 00 3f e0 1f f4 00 00 3f e0
1f f4 00 00 3f e0 1f f8 00 00 7f e0 0f f8 00 00 7f d0 0f fc 00 00 ff c0
0b fe 00 01 ff c0 03 ff 40 03 ff 40 02 ff e0 1f ff 00 00 ff ff ff fd 00
00 7f ff ff f8 00 00 1f ff ff d0 00 00 02 ff ff d0 00 00 00 05 ff f0 00
00 00 00 3f fc 00 00 00 00 0f fe 00 00 00 00 03 fe 00 00 00 00 00 00 00
00 00 00 00 00 00 00 00 00 00 00 00 00 00 00 00 00 00 00 00 00 00 00 00
00 00 00 00 00 00 03 ff fe 80 00 00 07 ff ff f8 00 00 07 ff ff ff 00 00
07 ff ff ff 40 00 07 fe ab ff c0 00 07 fd 00 ff c0 00 07 fd 00 bf d0 00
07 fd 00 7f d0 00 07 fd 00 bf c0 00 07 fd 00 ff c0 00 07 ff af ff c0 00
07 ff ff ff 40 00 07 ff ff fd 00 00 07 ff ff fd 00 00 07 ff ff ff 00 00
07 fd 02 ff 80 00 07 fd 00 ff c0 00 07 fd 00 7f e0 00 07 fd 00 3f f0 00
07 fd 00 2f f4 00 07 fd 00 0f fc 00 07 fd 00 0b fd 00 07 fd 00 03 ff 00
03 fc 00 02 fe 00 00 00 00 00 00 00 00 00 00 00 00 00 00 00 00 00 00 00
00 00 00 00 00 00 00 00 00 00 00 00 00 00 00 00 00 00 00 00 00 00 00 00
00 00 00 00 00 00 00 00 00 00 00 00 00 00 1f ff f8 00 00 bf ff ff 40 03
ff ff ff 40 07 ff ff ff 40 0f ff 41 bf 40 0f fc 00 06 00 0f f8 00 00 00
0f f8 00 00 00 0f fd 00 00 00 0f ff f9 00 00 07 ff ff e0 00 02 ff ff fd
00 00 7f ff ff 40 00 06 ff ff c0 00 00 07 ff d0 00 00 00 bf d0 00 00 00
7f e0 00 00 00 3f e0 0f 00 00 7f d0 0f f4 02 ff c0 0f ff ff ff c0 0f ff
ff ff 40 0f ff ff fd 00 01 bf ff e0 00 00 01 54 00 00 00 00 00 00 00 00
00 00 00 00 00 00 00 00 00 00 00 00 00 00 00 00 00 00 00 00 00 00 00 00
00 00 00 00 00 00 00 00 00 00 00 00 00 00 00 2f ff ff ff fc 3f ff ff ff
fe 3f ff ff ff fe 3f ff ff ff fe 1a aa ff ea a8 00 00 ff 80 00 00 00 ff
80 00 00 00 ff 80 00 00 00 ff 80 00 00 00 ff 80 00 00 00 ff 80 00 00 00
ff 80 00 00 00 ff 80 00 00 00 ff 80 00 00 00 ff 80 00 00 00 ff 80 00 00
00 ff 80 00 00 00 ff 80 00 00 00 ff 80 00 00 00 ff 80 00 00 00 ff 80 00
00 00 ff 80 00 00 00 ff 80 00 00 00 ff 40 00 00 00 00 00 00 00 00 00 00
00 00 00 00 00 00 00 00 00 00 00 00 00 00 00 00 00 00 00 00 00 00 00 00
00 00 00 00 00 00 00 00 00 00 00 00 00 00 00 00 00 00 00 00 00 00 07 f8
00 03 fc 00 0b fc 00 07 fd 00 0b fc 00 07 fd 00 0b fc 00 07 fd 00 0b fc
00 07 fd 00 0b fc 00 07 fd 00 0b fc 00 07 fd 00 0b fc 00 07 fd 00 0b fc
00 07 fd 00 0b fc 00 07 fd 00 0b fc 00 07 fd 00 0b fc 00 07 fd 00 0b fc
00 07 fd 00 0b fc 00 07 fd 00 0b fc 00 07 fd 00 0b fc 00 07 fd 00 0b fc
00 07 fd 00 07 fd 00 0b fc 00 03 ff 00 0f fc 00 03 ff 80 3f f8 00 01 ff
ff ff f0 00 00 ff ff ff e0 00 00 3f ff ff 80 00 00 07 ff fd 00 00 00 00
15 40 00 00 00 00 00 00 00 00 00 00 00 00 00 00 00 00 00 00 00 00 00 00
00 00 00 00 00 00 00 00 00 00 00 00 00 00 00 00 00 00 00 00 00 00 00 00
00 00 00 00 00 00 00 00 00 00 7f 80 00 00 fe 00 bf c0 00 02 ff 00 7f e0
00 03 ff 00 3f f0 00 07 fe 00 2f f0 00 0b fc 00 1f f8 00 0f fc 00 0f fc
00 1f f4 00 0b fc 00 2f f0 00 07 fe 00 3f f0 00 03 ff 00 7f d0 00 02 ff
00 ff c0 00 01 ff 80 ff c0 00 00 ff c1 ff 40 00 00 bf c3 ff 00 00 00 7f
e3 fe 00 00 00 3f f7 fd 00 00 00 2f ff fc 00 00 00 0f ff f8 00 00 00 0f
ff f4 00 00 00 0b ff f0 00 00 00 03 ff e0 00 00 00 03 ff d0 00 00 00 02
ff c0 00 00 00 00 ff 80 00 00 00 00 00 00 00 00 00 00 00 00 00 00 00 00
00 00 00 00 00 00 00 00 00 00 00 00 00 00 00 00 00 00 00 00 00 00 00 00
00 00 00 00 00 00 00 00 00 00 00 00 00 00 00 00 00 00 00 00 00 00 00 00
00 00 00 00 00 00 00 00 2f d0 00 bf 40 02 fd 00 3f e0 01 ff c0 03 fe 00
3f f0 01 ff c0 03 fe 00 2f f0 02 ff d0 07 fd 00 1f f4 03 ff e0 0b fc 00
0f f8 03 ff f0 0f fc 00 0f fc 07 ff f0 0f f8 00 0b fc 0b ff f4 1f f4 00
07 fd 0f ff f8 2f f0 00 03 fd 0f fb f8 3f f0 00 03 fe 1f f3 fc 3f e0 00
03 ff 1f e3 fc 3f d0 00 02 ff 2f e3 fd 7f d0 00 01 ff 7f d2 fe bf c0 00
00 ff ff c1 ff ff c0 00 00 ff ff c0 ff ff 80 00 00 bf ff 80 ff ff 40 00
00 7f ff 40 bf ff 00 00 00 3f ff 00 7f ff 00 00 00 3f ff 00 7f fe 00 00
00 3f fe 00 3f fd 00 00 00 2f fe 00 3f fc 00 00 00 1f fd 00 2f fc 00 00
00 0f fc 00 1f f8 00 00 00 00 00 00 00 00 00 00 00 00 00 00 00 00 00 00
00 00 00 00 00 00 00 00 00 00 00 00 00 00 00 00 00 00 00 00 00 00 00 00
00 00 00 00 00 00 00 00 00 00 00 00 00 00 00 00 00 00 00 00 00 00 00 00
00 0f f4 00 07 fc 0f fc 00 0f fc 0b fe 00 2f f8 03 ff 00 3f f0 01 ff c0
ff d0 00 ff d1 ff c0 00 3f f3 ff 00 00 2f ff fe 00 00 0f ff fc 00 00 07
ff f4 00 00 03 ff f0 00 00 01 ff c0 00 00 03 ff e0 00 00 0b ff f0 00 00
0f ff fc 00 00 3f ff fd 00 00 7f f3 ff 00 00 ff c2 ff 80 02 ff 80 ff c0
07 ff 00 7f e0 0f fd 00 3f f4 1f f8 00 1f fc 3f f0 00 0b fd 3f d0 00 03
fd 00 00 00 00 00 00 00 00 00 00 00 00 00 00 00 00 00 00 00 00 00 00 00
00 00 00 00 00 00 00 00 00 00 00 00 00 00 00 00 00 00 00 00 00 00 00 00
00 00 00 2f d0 00 02 fd 3f f0 00 0b fd 1f fc 00 1f fc 0f fd 00 3f f4 03
ff 00 bf e0 02 ff 80 ff c0 00 ff d2 ff 40 00 7f f7 ff 00 00 2f ff fc 00
00 0f ff f8 00 00 0b ff f0 00 00 03 ff d0 00 00 01 ff c0 00 00 00 ff 80
00 00 00 ff 80 00 00 00 ff 80 00 00 00 ff 80 00 00 00 ff 80 00 00 00 ff
80 00 00 00 ff 80 00 00 00 ff 80 00 00 00 ff 80 00 00 00 ff 80 00 00 00
ff 40 00 00 00 00 00 00 00 00 00 00 00 00 00 00 00 00 00 00 00 00 00 00
00 00 00 00 00 00 00 00 00 00 00 00 00 00 00 00 00 00 00 00 00 00 00 00
00 00 00 00 00 0f ff ff ff f8 1f ff ff ff fc 1f ff ff ff fc 1f ff ff ff
fc 0a aa aa ff f4 00 00 00 ff e0 00 00 02 ff c0 00 00 07 ff 40 00 00 0f
fe 00 00 00 3f fc 00 00 00 bf f0 00 00 01 ff d0 00 00 03 ff 80 00 00 0b
ff 00 00 00 1f fc 00 00 00 3f f4 00 00 00 ff e0 00 00 02 ff c0 00 00 07
ff 40 00 00 0f ff 55 55 54 2f ff ff ff fc 3f ff ff ff fd 3f ff ff ff fd
1f ff ff ff fc 00 00 00 00 00 00 00 00 00 00 00 00 00 00 00 00 00 00 00
00 00 00 00 00 00 00 00 00 00 00 00 00 00 00 00 00 00 00 00 00 00 07 ff
d0 00 0b ff f0 00 0b ff f0 00 0b ff f0 00 0b fd 40 00 0b fc 00 00 0b fc
00 00 0b fc 00 00 0b fc 00 00 0b fc 00 00 0b fc 00 00 0b fc 00 00 0b fc
00 00 0b fc 00 00 0b fc 00 00 0b fc 00 00 0b fc 00 00 0b fc 00 00 0b fc
00 00 0b fc 00 00 0b fc 00 00 0b fc 00 00 0b fc 00 00 0b fc 00 00 0b fc
00 00 0b ff e0 00 0b ff f0 00 0b ff f0 00 07 ff e0 00 00 00 00 00 00 00
00 00 00 00 00 00 00 00 00 00 00 00 00 bf 00 00 ff 40 00 bf 80 00 7f c0
00 3f c0 00 3f d0 00 2f f0 00 1f f0 00 0f f4 00 0b f8 00 07 fc 00 03 fc
00 03 fd 00 02 fe 00 01 ff 00 00 ff 40 00 ff 80 00 7f c0 00 3f c0 00 3f
d0 00 2f e0 00 1f f0 00 0f f0 00 0f f8 00 0b fc 00 07 fc 00 02 f8 00 00
00 00 00 00 00 00 00 00 00 00 00 00 00 00 00 00 00 00 00 00 02 ff e0 00
07 ff f0 00 07 ff f0 00 07 ff f0 00 00 5f f0 00 00 0f f0 00 00 0f f0 00
00 0f f0 00 00 0f f0 00 00 0f f0 00 00 0f f0 00 00 0f f0 00 00 0f f0 00
00 0f f0 00 00 0f f0 00 00 0f f0 00 00 0f f0 00 00 0f f0 00 00 0f f0 00
00 0f f0 00 00 0f f0 00 00 0f f0 00 00 0f f0 00 00 0f f0 00 00 1f f0 00
03 ff f0 00 07 ff f0 00 07 ff f0 00 03 ff f0 00 00 00 00 00 00 00 00 00
00 00 00 00 00 00 00 00 00 00 00 00 00 00 00 00 00 00 00 00 00 00 00 00
00 00 00 00 00 00 00 00 00 0b f4 00 00 00 00 00 2f fd 00 00 00 00 00 bf".
Definition cond32_bits_3 : list Z := atlas
"ff 00 00 00 00 01 ff ff c0 00 00 00 07 ff ff f0 00 00 00 0f fe 3f f8 00
00 00 3f f8 0f fe 00 00 00 ff e0 03 ff 80 00 02 ff 80 00 ff d0 00 03 fe
00 00 3f e0 00 00 50 00 00 05 40 00 00 00 00 00 00 00 00 00 00 00 00 00
00 00 00 00 00 00 00 00 00 00 00 00 00 00 00 00 00 00 00 00 00 00 00 00
00 00 00 00 00 00 00 00 00 00 00 00 00 00 00 00 00 00 00 00 00 00 00 00
00 00 00 00 00 00 00 00 00 00 00 00 00 00 00 00 00 00 00 00 00 00 00 00
00 00 00 00 00 00 00 00 00 00 00 00 00 00 00 00 00 00 00 00 00 00 00 00
00 00 00 00 00 00 00 00 00 00 00 00 00 00 00 00 00 00 00 00 00 00 00 00
00 00 00 00 00 00 00 00 00 00 00 00 00 00 00 00 00 00 00 00 00 00 00 00
00 00 00 00 00 00 00 00 00 00 00 00 00 00 00 00 00 00 00 00 00 00 00 00
00 00 00 00 00 00 00 00 00 00 00 00 00 00 00 00 00 00 00 00 00 00 00 00
00 00 00 00 00 00 00 00 00 00 00 00 00 00 00 00 00 00 00 00 00 00 00 00
00 00 00 00 00 00 00 00 00 00 00 00 00 00 00 00 00 00 00 00 00 00 00 00
00 00 00 00 00 00 00 00 00 00 00 00 00 00 00 00 00 00 00 00 00 00 00 00
00 00 00 00 00 00 00 00 00 00 3f ff ff ff 40 7f ff ff ff c0 00 00 00 00
00 00 00 00 00 00 00 00 0b f8 00 00 0b fd 00 00 03 ff 00 00 00 ff 80 00
00 7f d0 00 00 2f f0 00 00 0b f4 00 00 01 50 00 00 00 00 00 00 00 00 00
00 00 00 00 00 00 00 00 00 00 00 00 00 00 00 00 00 00 00 00 00 00 00 00
00 00 00 00 00 00 00 00 00 00 00 00 00 00 00 00 00 00 00 00 00 00 00 00
00 00 00 00 00 00 00 00 00 00 00 00 00 00 00 00 00 00 00 00 00 00 00 00
00 00 00 00 00 00 00 00 00 00 00 00 00 00 00 00 00 00 00 00 00 00 00 00
00 00 00 00 00 00 00 00 00 00 00 00 00 00 00 00 00 00 00 00 00 00 00 00
00 00 00 00 00 00 00 00 00 00 00 00 00 00 00 1a e9 00 00 02 ff ff d0 00
07 ff ff f4 00 07 ff ff fc 00 07 fe af fd 00 02 80 03 fe 00 00 00 57 ff
00 00 6f ff ff 00 02 ff ff ff 00 07 ff ff ff 00 0f ff ff ff 00 0f f8 01
ff 00 1f f0 02 ff 00 1f f0 03 ff 00 1f f8 0f ff 00 0f ff ff ff 00 0b ff
ff ff 00 03 ff ff ff 00 00 bf fd ff 00 00 05 40 00 00 00 00 00 00 00 00
00 00 00 00 00 00 00 00 00 00 00 00 00 00 00 00 00 00 00 00 00 00 00 00
00 00 00 00 00 00 00 00 00 00 03 f4 00 00 00 0b fc 00 00 00 0b fc 00 00
00 0b fc 00 00 00 0b fc 00 00 00 0b fc 00 00 00 0b fc 6e 40 00 0b ff ff
f4 00 0b ff ff fd 00 0b ff ff ff 00 0b ff eb ff 80 0b ff 00 ff c0 0b fd
00 7f d0 0b fc 00 3f d0 0b fc 00 3f e0 0b fc 00 3f e0 0b fc 00 3f e0 0b
fc 00 3f e0 0b fc 00 3f d0 0b fe 00 bf c0 0b ff 41 ff c0 0b ff ff ff 40
0b ff ff ff 00 0b ff ff fc 00 07 fa ff e0 00 00 00 15 00 00 00 00 00 00
00 00 00 00 00 00 00 00 00 00 00 00 00 00 00 00 00 00 00 00 00 00 00 00
00 00 00 00 00 00 00 00 00 00 00 00 00 00 00 00 00 00 00 00 00 00 00 00
00 00 00 00 00 00 00 00 00 00 00 00 00 00 00 00 00 00 00 01 be 40 00 00
2f ff f8 00 00 ff ff fc 00 02 ff ff fc 00 07 ff ea fc 00 0f fd 00 28 00
0f f8 00 00 00 1f f4 00 00 00 1f f0 00 00 00 1f f0 00 00 00 1f f0 00 00
00 1f f0 00 00 00 0f f4 00 00 00 0f fc 00 00 00 0b fe 00 7c 00 03 ff ff
fc 00 01 ff ff fc 00 00 bf ff fc 00 00 1f ff e4 00 00 00 55 00 00 00 00
00 00 00 00 00 00 00 00 00 00 00 00 00 00 00 00 00 00 00 00 00 00 00 00
00 00 00 00 00 00 00 00 00 00 00 00 00 00 00 00 00 7f 40 00 00 00 bf 80
00 00 00 bf 80 00 00 00 bf 80 00 00 00 bf 80 00 00 00 bf 80 00 06 e4 bf
80 00 7f ff ff 80 00 ff ff ff 80 03 ff ff ff 80 07 ff af ff 80 0f fc 03
ff 80 0f f8 01 ff 80 1f f0 00 ff 80 1f f0 00 ff 80 1f f0 00 ff 80 1f f0
00 ff 80 1f f0 00 ff 80 1f f4 00 ff 80 0f f8 01 ff 80 0b fd 07 ff 80 07
ff ff ff 80 02 ff ff ff 80 00 ff ff ff 80 00 2f fe bf 40 00 01 50 00 00
00 00 00 00 00 00 00 00 00 00 00 00 00 00 00 00 00 00 00 00 00 00 00 00
00 00 00 00 00 00 00 00 00 00 00 00 00 00 00 00 00 00 00 00 00 00 00 00
00 00 00 00 00 00 00 00 00 00 00 00 00 00 00 00 00 00 00 00 00 00 00 01
ba 40 00 00 2f ff e0 00 00 ff ff fc 00 02 ff ff fe 00 07 ff ab ff 40 0b
fd 00 ff 80 0f f8 00 bf c0 1f fe aa ff c0 1f ff ff ff c0 1f ff ff ff c0
1f ff ff ff c0 1f f9 55 55 40 0f f4 00 00 00 0f fc 00 01 00 0b ff 00 1f
80 03 ff ff ff 80 01 ff ff ff 80 00 7f ff ff 40 00 0b ff f9 00 00 00 55
00 00 00 00 00 00 00 00 00 00 00 00 00 00 00 00 00 00 00 00 00 00 00 00
00 00 00 00 00 00 00 00 00 00 00 00 00 00 00 06 fe 00 00 7f ff 00 00 ff
ff 00 02 ff ff 00 03 ff 54 00 03 fd 00 00 17 fe 54 00 7f ff fd 00 7f ff
fd 00 7f ff fd 00 2b ff a8 00 03 fd 00 00 03 fd 00 00 03 fd 00 00 03 fd
00 00 03 fd 00 00 03 fd 00 00 03 fd 00 00 03 fd 00 00 03 fd 00 00 03 fd
00 00 03 fd 00 00 03 fd 00 00 03 fd 00 00 03 fc 00 00 00 00 00 00 00 00
00 00 00 00 00 00 00 00 00 00 00 00 00 00 00 00 00 00 00 00 00 00 00 00
00 00 00 00 00 00 00 00 00 00 00 00 00 00 00 00 00 00 00 00 00 00 00 00
00 00 00 00 00 00 00 00 00 00 00 00 00 00 00 00 00 06 e4 15 00 00 7f ff
ff 80 01 ff ff ff 80 03 ff ff ff 80 0b ff af ff 80 0f fc 03 ff 80 0f f4
00 ff 80 1f f0 00 ff 80 1f f0 00 ff 80 1f f0 00 bf 80 1f f0 00 ff 80 1f
f0 00 ff 80 0f f4 00 ff 80 0f fc 02 ff 80 0b ff 5b ff 80 03 ff ff ff 80
01 ff ff ff 80 00 bf ff ff 80 00 0b f9 ff 40 00 00 01 ff 40 02 f4 07 ff
00 03 ff ff fe 00 02 ff ff fc 00 02 ff ff f0 00 00 00 00 00 00 00 00 00
00 00 00 00 00 00 00 00 00 00 00 00 03 f4 00 00 00 0b fc 00 00 00 0b fc
00 00 00 0b fc 00 00 00 0b fc 00 00 00 0b fc 00 00 00 0b fc 6e 80 00 0b
ff ff f4 00 0b ff ff fd 00 0b ff ff ff 00 0b ff eb ff 40 0b ff 00 ff 80
0b fd 00 ff 80 0b fc 00 bf c0 0b fc 00 bf c0 0b fc 00 bf c0 0b fc 00 bf
c0 0b fc 00 bf c0 0b fc 00 bf c0 0b fc 00 bf c0 0b fc 00 bf c0 0b fc 00
bf c0 0b fc 00 bf c0 0b fc 00 bf c0 07 f8 00 7f 80 00 00 00 00 00 00 00
00 00 00 00 00 00 00 00 00 00 00 00 00 00 00 00 00 00 00 00 00 00 00 00
00 00 00 00 00 00 02 f4 00 07 fc 00 07 fc 00 07 fc 00 07 fc 00 02 a4 00
01 50 00 07 fc 00 07 fc 00 07 fc 00 07 fc 00 07 fc 00 07 fc 00 07 fc 00
07 fc 00 07 fc 00 07 fc 00 07 fc 00 07 fc 00 07 fc 00 07 fc 00 07 fc 00
07 fc 00 07 fc 00 03 f8 00 00 00 00 00 00 00 00 00 00 00 00 00 00 00 00
00 00 00 00 00 00 00 00 00 00 00 00 00 bd 00 01 ff 00 01 ff 00 01 ff 00
01 ff 00 00 a9 00 00 54 00 01 ff 00 01 ff 00 01 ff 00 01 ff 00 01 ff 00
01 ff 00 01 ff 00 01 ff 00 01 ff 00 01 ff 00 01 ff 00 01 ff 00 01 ff 00
01 ff 00 01 ff 00 01 ff 00 01 ff 00 01 ff 00 02 ff 00 02 ff 00 7f fe 00
7f fc 00 7f f8 00 00 00 00 00 00 00 00 00 00 00 00 00 00 00 00 00 00 00
00 00 03 f4 00 00 00 0b fc 00 00 00 0b fc 00 00 00 0b fc 00 00 00 0b fc
00 00 00 0b fc 00 00 00 0b fc 00 15 40 0b fc 01 ff c0 0b fc 07 ff 80 0b
fc 1f fe 00 0b fc 7f f8 00 0b fd ff e0 00 0b ff ff 80 00 0b ff fe 00 00
0b ff f8 00 00 0b ff f0 00 00 0b ff fc 00 00 0b ff ff 00 00 0b ff ff c0
00 0b fc ff e0 00 0b fc 7f f8 00 0b fc 1f fe 00 0b fc 07 ff 80 0b fc 01
ff d0 07 f8 00 7f d0 00 00 00 00 00 00 00 00 00 00 00 00 00 00 00 00 00
00 00 00 00 00 00 00 00 00 00 00 00 00 00 00 00 00 00 00 00 02 f4 00 07
fc 00 07 fc 00 07 fc 00 07 fc 00 07 fc 00 07 fc 00 07 fc 00 07 fc 00 07
fc 00 07 fc 00 07 fc 00 07 fc 00 07 fc 00 07 fc 00 07 fc 00 07 fc 00 07
fc 00 07 fc 00 07 fc 00 07 fc 00 07 fc 00 07 fc 00 07 fc 00 03 f8 00 00
00 00 00 00 00 00 00 00 00 00 00 00 00 00 00 00 00 00 00 00 00 00 00 00
00 00 00 00 00 00 00 00 00 00 00 00 00 00 00 00 00 00 00 00 00 00 00 00
00 00 00 00 00 00 00 00 00 00 00 00 00 00 00 00 00 00 00 00 00 00 00 00
00 00 00 00 00 00 00 00 00 00 00 00 01 50 6e 40 0a e4 00 07 ff ff f0 bf
fe 00 0b ff ff ff ff ff 80 0b ff ff ff ff ff c0 0b ff eb ff fe ff e0 0b
ff 01 ff d0 3f f0 0b fd 00 ff c0 2f f0 0b fc 00 ff 80 1f f0 0b fc 00 ff
40 1f f0 0b fc 00 ff 40 1f f0 0b fc 00 ff 40 1f f0 0b fc 00 ff 40 1f f0
0b fc 00 ff 40 1f f0 0b fc 00 ff 40 1f f0 0b fc 00 ff 40 1f f0 0b fc 00
ff 40 1f f0 0b fc 00 ff 40 1f f0 0b fc 00 ff 40 1f f0 07 f8 00 bf 00 0f
e0 00 00 00 00 00 00 00 00 00 00 00 00 00 00 00 00 00 00 00 00 00 00 00
00 00 00 00 00 00 00 00 00 00 00 00 00 00 00 00 00 00 00 00 00 00 00 00
00 00 00 00 00 00 00 00 00 00 00 00 00 00 00 00 00 00 00 00 00 00 00 00
00 00 00 00 00 00 00 00 00 00 00 00 00 00 01 50 6e 80 00 07 ff ff f4 00
0b ff ff fd 00 0b ff ff ff 00 0b ff eb ff 40 0b ff 00 ff 80 0b fd 00 ff
80 0b fc 00 bf c0 0b fc 00 bf c0 0b fc 00 bf c0 0b fc 00 bf c0 0b fc 00
bf c0 0b fc 00 bf c0 0b fc 00 bf c0 0b fc 00 bf c0 0b fc 00 bf c0 0b fc
00 bf c0 0b fc 00 bf c0 07 f8 00 7f 80 00 00 00 00 00 00 00 00 00 00 00
00 00 00 00 00 00 00 00 00 00 00 00 00 00 00 00 00 00 00 00 00 00 00 00
00 00 00 00 00 00 00 00 00 00 00 00 00 00 00 00 00 00 00 00 00 00 00 00
00 00 00 00 00 00 00 00 00 00 00 00 00 00 00 00 00 06 b9 00 00 00 3f ff
e0 00 00 ff ff f8 00 03 ff ff fd 00 07 ff af ff 00 0f fc 02 ff 40 0f f8
00 ff 80 1f f4 00 ff c0 1f f0 00 bf c0 1f f0 00 bf c0 1f f0 00 bf c0 1f
f0 00 bf c0 1f f4 00 ff c0 0f fc 01 ff 80 0b fe 03 ff 40 07 ff ff ff 00
02 ff ff fc 00 00 bf ff f4 00 00 1f ff 80 00 00 00 54 00 00 00 00 00 00
00 00 00 00 00 00 00 00 00 00 00 00 00 00 00 00 00 00 00 00 00 00 00 00
00 00 00 00 00 00 00 00 00 00 00 00 00 00 00 00 00 00 00 00 00 00 00 00
00 00 00 00 00 00 00 00 00 00 00 00 00 00 00 00 00 00 01 50 6e 40 00 07
ff ff f4 00 0b ff ff fd 00 0b ff ff ff 00 0b ff eb ff 80 0b ff 00 ff c0
0b fd 00 7f d0 0b fc 00 3f d0 0b fc 00 3f e0 0b fc 00 3f e0 0b fc 00 3f
e0 0b fc 00 3f e0 0b fc 00 3f d0 0b fe 00 bf c0 0b ff 41 ff c0 0b ff ff
ff 40 0b ff ff ff 00 0b ff ff fc 00 0b fe ff e0 00 0b fc 15 00 00 0b fc
00 00 00 0b fc 00 00 00 0b fc 00 00 00 0b fc 00 00 00 00 00 00 00 00 00
00 00 00 00 00 00 00 00 00 00 00 00 00 00 00 00 00 00 00 00 00 00 00 00
00 00 00 00 00 00 00 00 00 00 00 00 00 00 00 00 00 00 00 00 00 06 e4 15
00 00 7f ff ff 80 00 ff ff ff 80 03 ff ff ff 80 07 ff af ff 80 0f fc 03
ff 80 0f f8 01 ff 80 1f f0 00 ff 80 1f f0 00 ff 80 1f f0 00 ff 80 1f f0
00 ff 80 1f f0 00 ff 80 1f f4 00 ff 80 0f f8 01 ff 80 0b fd 07 ff 80 07
ff ff ff 80 02 ff ff ff 80 00 ff ff ff 80 00 2f fe ff 80 00 01 50 bf 80
00 00 00 bf 80 00 00 00 bf 80 00 00 00 bf 80 00 00 00 bf 80 00 00 00 00
00 00 00 00 00 00 00 00 00 00 00 00 00 00 00 00 00 00 00 00 00 00 00 00
00 00 00 00 00 00 00 00 00 00 00 00 01 50 6f 40 07 ff ff c0 0b ff ff c0
0b ff ff c0 0b ff eb c0 0b ff 00 00 0b fd 00 00 0b fc 00 00 0b fc 00 00
0b fc 00 00 0b fc 00 00 0b fc 00 00 0b fc 00 00 0b fc 00 00 0b fc 00 00
0b fc 00 00 0b fc 00 00 0b fc 00 00 07 f8 00 00 00 00 00 00 00 00 00 00
00 00 00 00 00 00 00 00 00 00 00 00 00 00 00 00 00 00 00 00 00 00 00 00
00 00 00 00 00 00 00 00 00 00 00 00 00 00 00 00 00 00 00 00 00 00 00 00
00 00 00 00 00 1a e9 00 01 ff ff e0 07 ff ff f0 0f ff ff f0 1f fe 6b f0
1f f0 00 50 1f f0 00 00 1f ff 90 00 0f ff fe 00 07 ff ff c0 01 ff ff f0
00 1b ff f4 00 00 2f f8 04 00 0f f8 1f 80 0f f8 2f ff ff f4 2f ff ff f0
1f ff ff c0 07 ff fe 00 00 05 50 00 00 00 00 00 00 00 00 00 00 00 00 00
00 00 00 00 00 00 00 00 00 00 00 00 00 00 00 00 00 00 00 00 00 00 00 00
00 00 00 00 07 f8 00 00 0b fc 00 00 0b fc 00 00 0b fc 00 00 1b fd 54 00
3f ff ff 00 7f ff ff 00 3f ff ff 00 2f fe a9 00 0b fc 00 00 0b fc 00 00
0b fc 00 00 0b fc 00 00 0b fc 00 00 0b fc 00 00 0b fc 00 00 07 fc 00 00".
Definition cond32_bits_4 : list Z := atlas
"07 fc 00 00 07 fd 50 00 03 ff ff 00 03 ff ff 00 00 ff ff 00 00 2f fe 00
00 00 00 00 00 00 00 00 00 00 00 00 00 00 00 00 00 00 00 00 00 00 00 00
00 00 00 00 00 00 00 00 00 00 00 00 00 00 00 00 00 00 00 00 00 00 00 00
00 00 00 00 00 00 00 00 00 00 00 00 00 00 00 00 00 00 00 00 00 00 01 50
00 15 00 0b f8 00 bf 80 0b f8 00 ff 80 0b f8 00 ff 80 0b f8 00 ff 80 0b
f8 00 ff 80 0b f8 00 ff 80 0b f8 00 ff 80 0b f8 00 ff 80 0b f8 00 ff 80
0b f8 00 ff 80 0b f8 00 ff 80 0b fc 00 ff 80 0b fc 01 ff 80 07 fe 07 ff
80 03 ff ff ff 80 02 ff ff ff 80 00 ff ff ff 80 00 2f fe bf 40 00 01 50
00 00 00 00 00 00 00 00 00 00 00 00 00 00 00 00 00 00 00 00 00 00 00 00
00 00 00 00 00 00 00 00 00 00 00 00 00 00 00 00 00 00 00 00 00 00 00 00
00 00 00 00 00 00 00 00 00 00 00 00 00 00 00 00 00 00 00 00 00 00 00 00
05 40 00 15 00 3f d0 00 7f c0 3f e0 00 ff c0 2f f0 00 ff 80 1f f4 01 ff
00 0f f8 03 ff 00 0b fc 03 fe 00 07 fd 07 fc 00 03 fe 0f fc 00 02 ff 0f
f8 00 00 ff 5f f0 00 00 ff bf f0 00 00 bf ff e0 00 00 3f ff c0 00 00 3f
ff c0 00 00 2f ff 80 00 00 0f ff 00 00 00 0f ff 00 00 00 07 fd 00 00 00
00 00 00 00 00 00 00 00 00 00 00 00 00 00 00 00 00 00 00 00 00 00 00 00
00 00 00 00 00 00 00 00 00 00 00 00 00 00 00 00 00 00 00 00 00 00 00 00
00 00 00 00 00 00 00 00 00 00 00 00 00 00 00 00 00 00 00 00 00 00 00 00
00 00 00 00 00 00 00 00 00 00 00 00 05 40 05 50 01 50 3f e0 1f f4 07 fc
2f f0 2f f8 0b fc 1f f0 3f fc 0f f8 0f f4 3f fc 0f f4 0f f8 7f fd 1f f0
0b fc bf fe 2f f0 0b fc ff ff 3f e0 07 fd ff ff 7f d0 03 fe ff ff bf c0
03 ff fe bf ff c0 02 ff fd 7f ff 80 01 ff fc 3f ff 40 00 ff fc 3f ff 00
00 ff f8 2f ff 00 00 bf f4 1f fe 00 00 7f f0 0f fd 00 00 3f f0 0f fc 00
00 2f e0 0b fc 00 00 00 00 00 00 00 00 00 00 00 00 00 00 00 00 00 00 00
00 00 00 00 00 00 00 00 00 00 00 00 00 00 00 00 00 00 00 00 00 00 00 00
00 00 00 00 00 00 00 00 00 00 00 00 00 00 00 00 00 00 00 00 00 00 00 00
00 00 00 00 00 00 00 00 00 00 00 00 00 00 05 40 00 15 00 2f f4 00 ff 80
1f fc 03 ff 40 0b fe 0b ff 00 03 ff 4f fc 00 01 ff ff f4 00 00 bf ff e0
00 00 3f ff c0 00 00 1f ff 40 00 00 0f ff 00 00 00 1f ff 40 00 00 3f ff
c0 00 00 bf ff e0 00 01 ff ff f4 00 03 ff 1f fc 00 0b fd 0b fe 00 1f fc
03 ff 40 3f f0 01 ff c0 3f d0 00 bf c0 00 00 00 00 00 00 00 00 00 00 00
00 00 00 00 00 00 00 00 00 00 00 00 00 00 00 00 00 00 00 00 00 00 00 00
00 00 00 00 00 00 00 00 00 00 00 00 00 00 00 00 00 00 00 00 00 00 00 00
00 00 00 00 00 00 00 00 00 00 00 00 00 00 00 00 05 40 00 15 00 3f d0 00
7f c0 3f f0 00 ff c0 2f f0 00 ff 80 0f f4 02 ff 00 0f fc 03 ff 00 07 fc
03 fd 00 03 fe 0b fc 00 02 ff 0f f8 00 01 ff 5f f4 00 00 ff af f0 00 00
bf ff e0 00 00 3f ff d0 00 00 3f ff c0 00 00 1f ff 80 00 00 0f ff 00 00
00 0b ff 00 00 00 07 fd 00 00 00 0b fc 00 00 00 0f fc 00 00 00 1f f4 00
00 0b ff f0 00 00 0f ff d0 00 00 0f ff c0 00 00 00 00 00 00 00 00 00 00
00 00 00 00 00 00 00 00 00 00 00 00 00 00 00 00 00 00 00 00 00 00 00 00
00 00 00 00 00 00 00 00 05 55 55 50 1f ff ff fc 2f ff ff fc 1f ff ff fc
0b ff ff fc 00 00 7f f0 00 00 ff d0 00 03 ff 80 00 0b ff 00 00 1f fc 00
00 3f f4 00 00 ff e0 00 02 ff 80 00 0b ff 00 00 1f fd 00 00 3f ff ff fc
3f ff ff fc 3f ff ff fc 2f ff ff f8 00 00 00 00 00 00 00 00 00 00 00 00
00 00 00 00 00 00 00 00 00 00 00 00 00 00 00 00 00 00 00 00 00 00 00 00
00 00 00 00 00 00 06 bd 00 00 00 3f ff 00 00 00 ff ff 00 00 00 ff fe 00
00 01 ff 94 00 00 01 ff 00 00 00 02 ff 00 00 00 02 ff 00 00 00 02 ff 00
00 00 02 ff 00 00 00 02 ff 00 00 00 02 ff 00 00 00 03 fe 00 00 01 ff fd
00 00 02 ff fc 00 00 02 ff fc 00 00 01 ff fd 00 00 00 07 fe 00 00 00 02
ff 00 00 00 02 ff 00 00 00 02 ff 00 00 00 02 ff 00 00 00 02 ff 00 00 00
02 ff 00 00 00 01 ff 00 00 00 01 ff 40 00 00 00 ff fe 00 00 00 ff ff 00
00 00 3f ff 00 00 00 06 fd 00 00 00 00 00 00 00 00 00 00 00 00 00 01 fd
00 02 fe 00 02 fe 00 02 fe 00 02 fe 00 02 fe 00 02 fe 00 02 fe 00 02 fe
00 02 fe 00 02 fe 00 02 fe 00 02 fe 00 02 fe 00 02 fe 00 02 fe 00 02 fe
00 02 fe 00 02 fe 00 02 fe 00 02 fe 00 02 fe 00 02 fe 00 02 fe 00 02 fe
00 02 fe 00 02 fe 00 02 fe 00 02 fe 00 02 fe 00 00 00 00 00 00 00 00 00
00 00 00 00 00 00 00 00 00 00 00 00 00 fa 40 00 00 02 ff f0 00 00 02 ff
fc 00 00 02 ff fd 00 00 00 57 fe 00 00 00 03 fe 00 00 00 02 fe 00 00 00
02 fe 00 00 00 02 fe 00 00 00 02 fe 00 00 00 02 fe 00 00 00 02 ff 00 00
00 02 ff 40 00 00 01 ff fe 00 00 00 bf ff 00 00 00 bf ff 00 00 00 ff fe
00 00 02 ff 40 00 00 02 ff 00 00 00 02 fe 00 00 00 02 fe 00 00 00 02 fe
00 00 00 02 fe 00 00 00 02 fe 00 00 00 03 fe 00 00 00 07 fe 00 00 01 ff
fd 00 00 02 ff fc 00 00 02 ff f4 00 00 01 fe 40 00 00 00 00 00 00 00 00
00 00 00 00 00 00 00 00 00 00 00 00 00 00 00 00 00 00 00 00 00 00 00 00
00 00 00 00 00 00 00 00 00 00 00 00 00 00 00 00 00 00 00 00 00 00 00 00
00 00 00 00 00 00 00 00 00 00 00 00 00 00 00 00 00 00 00 00 00 00 00 00
00 00 00 00 00 00 00 00 00 00 00 00 00 00 00 00 00 00 00 00 00 00 00 00
00 00 00 00 01 a4 00 00 d0 00 00 2f ff 90 07 f0 00 01 ff ff fe bf f0 00
03 ff ff ff ff e0 00 03 ff ff ff ff d0 00 03 f4 06 ff fe 00 00 03 c0 00
1b a0 00 00 00 00 00 00 00 00 00 00 00 00 00 00 00 00 00 00 00 00 00 00
00 00 00 00 00 00 00 00 00 00 00 00 00 00 00 00 00 00 00 00 00 00 00 00
00 00 00 00 00 00 00 00 00 00 00 00 00 00 00 00 00 00 00 00 00 00 00 00
00 00 00 00 00 00 00 00 00 00 00 00 00 00 00 00".
Definition cond32_bits : list Z := cond32_bits_0 ++ cond32_bits_1 ++ cond32_bits_2 ++ cond32_bits_3 ++ cond32_bits_4.
Definition cond32_glyphs : list glyph_t :=
  [
   Glyph 11 10 (-1) 0;
   Glyph 13 12 (-1) 102;
   Glyph 14 13 (-1) 238;
   Glyph 25 24 (-1) 374;
   Glyph 19 18 (-1) 612;
   Glyph 28 27 (-1) 782;
   Glyph 23 22 (-1) 1020;
   Glyph 9 8 (-1) 1224;
   Glyph 13 12 (-1) 1326;
   Glyph 13 12 (-1) 1462;
   Glyph 15 14 (-1) 1598;
   Glyph 25 24 (-1) 1734;
   Glyph 11 10 (-1) 1972;
   Glyph 12 11 (-1) 2074;
   Glyph 11 10 (-1) 2176;
   Glyph 12 10 (-1) 2278;
   Glyph 19 18 (-1) 2380;
   Glyph 19 18 (-1) 2550;
   Glyph 19 18 (-1) 2720;
   Glyph 19 18 (-1) 2890;
   Glyph 19 18 (-1) 3060;
   Glyph 19 18 (-1) 3230;
   Glyph 19 18 (-1) 3400;
   Glyph 19 18 (-1) 3570;
   Glyph 19 18 (-1) 3740;
   Glyph 19 18 (-1) 3910;
   Glyph 11 10 (-1) 4080;
   Glyph 11 10 (-1) 4182;
   Glyph 25 24 (-1) 4284;
   Glyph 25 24 (-1) 4522;
   Glyph 25 24 (-1) 4760;
   Glyph 16 15 (-1) 4998;
   Glyph 29 28 (-1) 5134;
   Glyph 21 19 (-1) 5406;
   Glyph 21 20 (-1) 5610;
   Glyph 21 20 (-1) 5814;
   Glyph 23 22 (-1) 6018;
   Glyph 19 18 (-1) 6222;
   Glyph 18 17 (-1) 6392;
   Glyph 23 22 (-1) 6562;
   Glyph 22 21 (-1) 6766;
   Glyph 10 9 (-1) 6970;
   Glyph 12 9 (-3) 7072;
   Glyph 21 19 (-1) 7174;
   Glyph 17 16 (-1) 7378;
   Glyph 25 24 (-1) 7548;
   Glyph 22 21 (-1) 7786;
   Glyph 23 22 (-1) 7990;
   Glyph 18 17 (-1) 8194;
   Glyph 23 22 (-1) 8364;
   Glyph 21 20 (-1) 8568;
   Glyph 19 18 (-1) 8772;
   Glyph 20 17 (-2) 8942;
   Glyph 22 21 (-1) 9112;
   Glyph 21 19 (-1) 9316;
   Glyph 29 28 (-1) 9520;
   Glyph 20 19 (-1) 9792;
   Glyph 20 17 (-2) 9962;
   Glyph 20 19 (-1) 10132;
   Glyph 13 12 (-1) 10302;
   Glyph 12 10 (-1) 10438;
   Glyph 13 12 (-1) 10540;
   Glyph 25 24 (-1) 10676;
   Glyph 17 14 (-2) 10914;
   Glyph 15 14 (-1) 11084;
   Glyph 19 18 (-1) 11220;
   Glyph 19 18 (-1) 11390;
   Glyph 17 16 (-1) 11560;
   Glyph 19 18 (-1) 11730;
   Glyph 19 18 (-1) 11900;
   Glyph 13 11 (-1) 12070;
   Glyph 19 18 (-1) 12206;
   Glyph 19 18 (-1) 12376;
   Glyph 10 9 (-1) 12546;
   Glyph 11 9 (-2) 12648;
   Glyph 18 17 (-1) 12750;
   Glyph 10 9 (-1) 12920;
   Glyph 28 27 (-1) 13022;
   Glyph 19 18 (-1) 13260;
   Glyph 19 18 (-1) 13430;
   Glyph 19 18 (-1) 13600;
   Glyph 19 18 (-1) 13770;
   Glyph 14 12 (-1) 13940;
   Glyph 16 15 (-1) 14076;
   Glyph 13 12 (-1) 14212;
   Glyph 19 18 (-1) 14348;
   Glyph 18 17 (-1) 14518;
   Glyph 24 23 (-1) 14688;
   Glyph 18 17 (-1) 14892;
   Glyph 18 17 (-1) 15062;
   Glyph 16 15 (-1) 15232;
   Glyph 19 18 (-1) 15368;
   Glyph 11 10 (-1) 15538;
   Glyph 19 18 (-1) 15640;
   Glyph 25 24 (-1) 15810
  ].
Definition cond32 : font_t := Font cond32_bits cond32_glyphs 34 28.
Definition cond40_bits_0 : list Z := atlas
"00 00 00 00 00 00 00 00 00 00 00 00 00 00 00 00 00 00 00 00 00 00 00 00
00 00 00 00 00 00 00 00 00 00 00 00 00 00 00 00 00 00 00 00 00 00 00 00
00 00 00 00 00 00 00 00 00 00 00 00 00 00 00 00 00 00 00 00 00 00 00 00
00 00 00 00 00 00 00 00 00 00 00 00 00 00 00 00 00 00 00 00 00 00 00 00
00 00 00 00 00 00 00 00 00 00 00 00 00 00 00 00 00 00 00 00 00 00 00 00
00 00 00 00 00 00 00 00 00 00 00 00 00 00 00 00 00 00 00 00 00 00 00 00
00 00 00 00 00 00 00 00 00 00 00 00 00 00 00 00 00 00 00 00 00 00 00 00
00 00 00 00 00 00 00 00 00 00 00 00 00 00 00 00 00 00 00 00 00 00 00 00
00 00 00 00 00 1a a0 00 00 3f f8 00 00 3f f8 00 00 3f f8 00 00 3f f8 00
00 3f f8 00 00 3f f8 00 00 3f f8 00 00 3f f8 00 00 3f f8 00 00 3f f8 00
00 3f f8 00 00 3f f8 00 00 3f f8 00 00 3f f4 00 00 2f f4 00 00 2f f4 00
00 2f f4 00 00 2f f4 00 00 2f f0 00 00 1f f0 00 00 00 00 00 00 00 00 00
00 1a a0 00 00 3f f8 00 00 3f f8 00 00 3f f8 00 00 3f f8 00 00 3f f8 00
00 2f f4 00 00 00 00 00 00 00 00 00 00 00 00 00 00 00 00 00 00 00 00 00
00 00 00 00 00 00 00 00 00 00 00 00 00 00 00 00 00 00 00 00 00 00 00 00
00 00 00 00 00 00 00 00 00 00 00 00 aa 0a a0 00 02 ff 1f f4 00 02 ff 1f
f4 00 02 ff 1f f4 00 02 ff 1f f4 00 02 ff 1f f4 00 02 ff 1f f4 00 02 ff
1f f4 00 02 ff 1f f4 00 02 ff 1f f4 00 02 ff 1f f4 00 02 ff 1f f4 00 00
a9 0a a0 00 00 00 00 00 00 00 00 00 00 00 00 00 00 00 00 00 00 00 00 00
00 00 00 00 00 00 00 00 00 00 00 00 00 00 00 00 00 00 00 00 00 00 00 00
00 00 00 00 00 00 00 00 00 00 00 00 00 00 00 00 00 00 00 00 00 00 00 00
00 00 00 00 00 00 00 00 00 00 00 00 00 00 00 00 00 00 00 00 00 00 00 00
00 00 00 00 00 00 00 00 00 00 00 00 00 00 00 00 00 00 00 00 00 00 00 00
00 00 00 00 00 00 00 00 00 00 00 00 00 00 00 00 00 00 00 00 00 00 00 00
00 00 00 00 00 00 00 00 00 00 00 00 00 00 00 00 00 00 00 00 00 00 00 00
00 00 00 00 00 15 00 14 00 00 00 00 00 bf c0 ff 40 00 00 00 00 ff c1 ff
40 00 00 00 00 ff 82 ff 00 00 00 00 01 ff 43 ff 00 00 00 00 02 ff 03 fe
00 00 00 00 03 ff 03 fd 00 00 00 00 03 fe 07 fd 00 00 00 2a ab ff af fe
a9 00 00 7f ff ff ff ff ff 00 00 7f ff ff ff ff ff 00 00 7f ff ff ff ff
ff 00 00 7f ff ff ff ff ff 00 00 05 6f f9 7f f5 54 00 00 00 2f f0 3f e0
00 00 00 00 3f f0 7f d0 00 00 00 00 3f e0 7f d0 00 00 01 aa bf fa ff ea
90 00 07 ff ff ff ff ff f0 00 07 ff ff ff ff ff f0 00 07 ff ff ff ff ff
f0 00 07 ff ff ff ff ff f0 00 00 56 ff 97 ff 55 40 00 00 02 ff 03 fe 00
00 00 00 03 ff 07 fd 00 00 00 00 03 fe 0b fc 00 00 00 00 07 fd 0b fc 00
00 00 00 0b fc 0f fc 00 00 00 00 0b fc 0f f8 00 00 00 00 0b f8 0f f0 00
00 00 00 00 00 00 00 00 00 00 00 00 00 00 00 00 00 00 00 00 00 00 00 00
00 00 00 00 00 00 00 00 00 00 00 00 00 00 00 00 00 00 00 00 00 00 00 00
00 00 00 00 00 00 00 00 00 00 00 00 00 00 00 00 00 00 00 00 00 00 00 00
00 00 00 00 00 00 00 00 0b c0 00 00 00 00 0f e0 00 00 00 00 0f e0 00 00
00 00 0f e0 00 00 00 00 1f f4 00 00 00 07 ff ff e4 00 00 2f ff ff fd 00
00 bf ff ff fd 00 01 ff ff ff fd 00 02 ff ef f6 fd 00 03 ff 4f e0 18 00
03 ff 0f e0 00 00 03 ff 0f e0 00 00 03 ff 4f e0 00 00 03 ff ff e0 00 00
01 ff ff f8 00 00 00 ff ff ff d0 00 00 3f ff ff f8 00 00 0b ff ff fe 00
00 00 6f ff ff 00 00 00 0f ff ff 80 00 00 0f e3 ff c0 00 00 0f e1 ff c0
00 00 0f e0 ff c0 03 c0 0f e1 ff c0 03 f9 0f e7 ff 80 03 ff ff ff ff 00
03 ff ff ff fe 00 03 ff ff ff f8 00 00 bf ff ff d0 00 00 06 ff f9 00 00
00 00 0f e0 00 00 00 00 0f e0 00 00 00 00 0f e0 00 00 00 00 0f e0 00 00
00 00 0f e0 00 00 00 00 00 00 00 00 00 00 00 00 00 00 00 00 00 00 00 00
00 00 00 00 00 00 00 00 00 00 00 00 00 00 00 00 00 00 00 00 00 00 00 00
00 00 00 00 00 00 00 00 00 00 00 00 00 00 00 00 00 00 00 00 00 00 1f fe
00 00 03 fd 00 00 00 bf ff c0 00 0f fc 00 00 02 ff ff f0 00 1f f8 00 00
03 ff ff f4 00 3f f0 00 00 0b fe 2f fc 00 7f e0 00 00 0f fc 0f fc 00 ff
c0 00 00 0f f8 07 fd 02 ff 40 00 00 0f f8 07 fd 03 ff 00 00 00 0f f8 07
fd 0b fd 00 00 00 0f f8 07 fd 0f fc 00 00 00 0f fc 0b fc 2f f4 00 00 00
0b fc 0f fc 3f e0 00 00 00 07 ff 7f f8 ff c0 00 00 00 03 ff ff f1 ff 80
65 00 00 01 ff ff e3 ff 0b ff d0 00 00 7f ff 87 fe 3f ff f4 00 00 0b f8
0f fc bf ff fc 00 00 00 00 1f f4 ff ff ff 00 00 00 00 3f f1 ff 83 ff 00
00 00 00 bf d2 ff 01 ff 40 00 00 00 ff c3 ff 00 ff 80 00 00 02 ff 43 ff
00 ff 80 00 00 03 fe 03 ff 00 ff 80 00 00 0f fc 03 ff 00 ff 80 00 00 1f
f8 02 ff 01 ff 40 00 00 3f f0 01 ff 83 ff 00 00 00 7f e0 00 ff ff ff 00
00 00 ff c0 00 bf ff fc 00 00 01 ff 40 00 3f ff f4 00 00 03 ff 00 00 0b
ff d0 00 00 00 a8 00 00 00 55 00 00 00 00 00 00 00 00 00 00 00 00 00 00
00 00 00 00 00 00 00 00 00 00 00 00 00 00 00 00 00 00 00 00 00 00 00 00
00 00 00 00 00 00 00 00 00 00 00 00 00 00 00 00 00 00 00 00 00 00 00 00
00 00 00 00 00 00 00 00 00 00 00 00 00 00 00 00 00 00 00 00 00 00 00 00
00 00 00 00 00 00 00 00 00 00 2f ff 90 00 00 00 00 01 ff ff fc 00 00 00
00 07 ff ff fd 00 00 00 00 0f ff ff fd 00 00 00 00 2f ff ff fd 00 00 00
00 3f fc 00 bd 00 00 00 00 3f f4 00 04 00 00 00 00 3f f0 00 00 00 00 00
00 3f f4 00 00 00 00 00 00 2f fc 00 00 00 00 00 00 1f fe 00 00 00 00 00
00 0f ff 80 00 00 00 00 00 1f ff d0 00 00 00 00 00 3f ff f4 00 1f f0 00
00 ff ff fc 00 2f f4 00 02 ff ff ff 00 3f f4 00 03 ff 8f ff c0 3f f0 00
07 ff 03 ff f0 3f f0 00 0b fe 00 ff f8 bf e0 00 0f fd 00 7f fe ff c0 00
0f fd 00 1f ff ff c0 00 0f fe 00 0b ff ff 40 00 0b ff 00 02 ff ff 00 00
07 ff 40 00 ff fd 00 00 03 ff d0 00 ff ff 00 00 02 ff fe 6f ff ff c0 00
00 ff ff ff ff ff e0 00 00 3f ff ff ff ff f8 00 00 0f ff ff f8 7f fd 00
00 01 ff ff 90 1f fd 00 00 00 05 94 00 00 00 00 00 00 00 00 00 00 00 00
00 00 00 00 00 00 00 00 00 00 00 00 00 00 00 00 00 00 00 00 00 00 00 00
00 00 00 00 00 00 00 00 00 00 00 00 00 00 00 00 00 00 00 00 00 00 aa 00
02 ff 00 02 ff 00 02 ff 00 02 ff 00 02 ff 00 02 ff 00 02 ff 00 02 ff 00
02 ff 00 02 ff 00 02 ff 00 00 a9 00 00 00 00 00 00 00 00 00 00 00 00 00
00 00 00 00 00 00 00 00 00 00 00 00 00 00 00 00 00 00 00 00 00 00 00 00
00 00 00 00 00 00 00 00 00 00 00 00 00 00 00 00 00 00 00 00 00 00 00 00
00 00 00 00 00 00 00 00 00 00 00 00 00 00 00 00 00 00 00 00 00 00 00 00
00 00 00 00 00 00 00 00 bf 00 00 01 ff 80 00 03 ff 00 00 07 fe 00 00 0f
fc 00 00 1f f8 00 00 2f f4 00 00 3f f0 00 00 7f e0 00 00 ff d0 00 00 ff
c0 00 01 ff c0 00 02 ff 80 00 02 ff 80 00 03 ff 40 00 03 ff 40 00 03 ff
00 00 03 ff 00 00 03 ff 00 00 03 ff 00 00 03 ff 40 00 03 ff 40 00 02 ff
80 00 02 ff 80 00 01 ff c0 00 00 ff c0 00 00 ff d0 00 00 bf e0 00 00 3f
f0 00 00 3f f4 00 00 1f f8 00 00 0f fc 00 00 0b fd 00 00 03 ff 00 00 01
ff 40 00 00 ff 40 00 00 00 00 00 00 00 00 00 00 00 00 00 00 00 00 00 00
00 00 00 00 00 00 02 f8 00 00 03 fe 00 00 03 ff 40 00 00 ff c0 00 00 ff
c0 00 00 7f e0 00 00 3f f0 00 00 2f f4 00 00 1f fc 00 00 0f fc 00 00 0f
fd 00 00 0b fe 00 00 07 ff 00 00 03 ff 00 00 03 ff 00 00 03 ff 40 00 03
ff 40 00 03 ff 40 00 03 ff 40 00 03 ff 40 00 03 ff 40 00 03 ff 00 00 03
ff 00 00 07 ff 00 00 0b fe 00 00 0b fd 00 00 0f fc 00 00 1f fc 00 00 2f
f8 00 00 3f f0 00 00 7f f0 00 00 bf d0 00 00 ff c0 00 02 ff 40 00 03 ff
00 00 03 fc 00 00 00 00 00 00 00 00 00 00 00 00 00 00 00 00 00 00 00 00
00 00 00 00 00 00 00 00 00 00 00 00 00 00 00 00 00 00 01 fd 00 00 00 01
fe 00 00 00 01 fe 00 00 0b 01 fe 02 c0 1f d1 fe 1f d0 3f fe fe bf f0 2f
ff ff ff e0 07 ff ff ff 40 00 bf ff f8 00 00 1f ff d0 00 00 bf ff f8 00
07 ff ff ff 40 2f ff ff ff f0 3f fa fe bf f0 1f d1 fe 1f d0 0a 01 fe 02
80 00 01 fe 00 00 00 01 fe 00 00 00 00 fd 00 00 00 00 00 00 00 00 00 00
00 00 00 00 00 00 00 00 00 00 00 00 00 00 00 00 00 00 00 00 00 00 00 00
00 00 00 00 00 00 00 00 00 00 00 00 00 00 00 00 00 00 00 00 00 00 00 00
00 00 00 00 00 00 00 00 00 00 00 00 00 00 00 00 00 00 00 00 00 00 00 00
00 00 00 00 00 00 00 00 00 00 00 00 00 00 00 00 00 00 00 00 00 00 00 00
00 00 00 00 00 00 00 00 00 00 00 00 00 00 00 00 00 00 00 00 00 00 00 00
00 00 00 00 00 00 00 00 00 00 00 00 00 00 00 00 00 00 00 00 00 00 00 00
00 00 00 00 00 00 00 00 00 00 00 00 00 00 00 00 00 00 00 2f d0 00 00 00
00 00 00 3f e0 00 00 00 00 00 00 3f e0 00 00 00 00 00 00 3f e0 00 00 00
00 00 00 3f e0 00 00 00 00 00 00 3f e0 00 00 00 00 00 00 3f e0 00 00 00
00 00 00 3f e0 00 00 00 00 00 00 3f e0 00 00 00 00 00 00 3f e0 00 00 00
00 55 55 bf f5 55 54 00 01 ff ff ff ff ff fc 00 01 ff ff ff ff ff fc 00
01 ff ff ff ff ff fc 00 01 ff ff ff ff ff fc 00 00 aa aa bf fa aa a4 00
00 00 00 3f e0 00 00 00 00 00 00 3f e0 00 00 00 00 00 00 3f e0 00 00 00
00 00 00 3f e0 00 00 00 00 00 00 3f e0 00 00 00 00 00 00 3f e0 00 00 00
00 00 00 3f e0 00 00 00 00 00 00 3f e0 00 00 00 00 00 00 3f e0 00 00 00
00 00 00 3f d0 00 00 00 00 00 00 00 00 00 00 00 00 00 00 00 00 00 00 00
00 00 00 00 00 00 00 00 00 00 00 00 00 00 00 00 00 00 00 00 00 00 00 00
00 00 00 00 00 00 00 00 00 00 00 00 00 00 00 00 00 00 00 00 00 00 00 00
00 00 00 00 00 00 00 00 00 00 00 00 00 00 00 00 00 00 00 00 00 00 00 00
00 00 00 00 00 00 00 00 00 00 00 00 00 00 00 00 00 00 00 00 00 00 00 00
00 00 00 00 00 00 00 00 00 00 00 00 00 00 00 00 00 00 00 00 00 00 00 00
00 00 00 00 00 00 00 00 00 00 00 00 00 00 00 00 00 00 00 00 00 00 00 00
00 6a 80 00 00 ff e0 00 00 ff e0 00 00 ff e0 00 00 ff e0 00 00 ff c0 00
01 ff 80 00 02 ff 00 00 03 ff 00 00 03 fd 00 00 07 fc 00 00 01 50 00 00
00 00 00 00 00 00 00 00 00 00 00 00 00 00 00 00 00 00 00 00 00 00 00 00
00 00 00 00 00 00 00 00 00 00 00 00 00 00 00 00 00 00 00 00 00 00 00 00
00 00 00 00 00 00 00 00 00 00 00 00 00 00 00 00 00 00 00 00 00 00 00 00
00 00 00 00 00 00 00 00 00 00 00 00 00 00 00 00 00 00 00 00 0f ff ff 40
1f ff ff 80 1f ff ff 80 1f ff ff 80 0f ff ff 40 00 00 00 00 00 00 00 00
00 00 00 00 00 00 00 00 00 00 00 00 00 00 00 00 00 00 00 00 00 00 00 00
00 00 00 00 00 00 00 00 00 00 00 00 00 00 00 00 00 00 00 00 00 00 00 00
00 00 00 00 00 00 00 00 00 00 00 00 00 00 00 00 00 00 00 00 00 00 00 00
00 00 00 00 00 00 00 00 00 00 00 00 00 00 00 00 00 00 00 00 00 00 00 00
00 00 00 00 00 00 00 00 00 00 00 00 00 00 00 00 00 00 00 00 00 00 00 00
00 00 00 00 00 00 00 00 00 00 00 00 00 00 00 00 00 00 00 00 00 00 00 00
00 00 00 00 00 00 00 00 00 00 00 00 00 00 00 00 00 00 00 00 00 00 00 00
00 aa 80 00 01 ff c0 00 01 ff c0 00 01 ff c0 00 01 ff c0 00 01 ff c0 00
00 ff c0 00 00 00 00 00 00 00 00 00 00 00 00 00 00 00 00 00 00 00 00 00
00 00 00 00 00 00 00 00 00 00 00 00 00 00 00 00 00 00 00 00 00 00 00 00
00 00 00 00 00 00 2a 80 00 00 7f d0 00 00 bf c0 00 00 ff c0 00 00 ff 80
00 02 ff 40 00 03 ff 00 00 03 ff 00 00 07 fe 00 00 0b fd 00 00 0f fc 00
00 0f f8 00 00 1f f4 00 00 3f f0 00 00 3f f0 00 00 7f e0 00 00 bf d0 00
00 ff c0 00 00 ff c0 00 01 ff 80 00 02 ff 00 00 03 ff 00 00 07 fe 00 00
0b fd 00 00 0f fc 00 00 0f fc 00 00 1f f8 00 00 2f f4 00 00 3f f0 00 00
3f e0 00 00 7f d0 00 00 ff c0 00 00 ff c0 00 00 6a 00 00 00 00 00 00 00
00 00 00 00 00 00 00 00 00 00 00 00 00 00 00 00 00 00 00 00 00 00 00 00
00 00 00 00 00 00 00 00 00 00 00 00 00 00 00 00 00 00 00 00 bf fd 00 00".
Definition cond40_bits_1 : list Z := atlas
"00 07 ff ff c0 00 00 1f ff ff f0 00 00 3f ff ff f8 00 00 bf ff ff fd 00
00 ff f0 1f ff 00 02 ff c0 07 ff 40 03 ff 80 03 ff 80 03 ff 40 02 ff c0
07 ff 00 01 ff c0 07 ff 00 00 ff c0 0b ff 00 00 ff d0 0b fe 00 00 ff d0
0b fe 00 00 ff d0 0b fe 00 00 ff d0 0b fe 00 00 ff d0 0b fe 00 00 ff d0
0b fe 00 00 ff d0 0b ff 00 00 ff d0 07 ff 00 00 ff c0 07 ff 00 01 ff c0
03 ff 40 02 ff c0 03 ff 80 03 ff 80 02 ff c0 03 ff 40 01 ff e0 0f ff 00
00 ff fd bf fe 00 00 7f ff ff fc 00 00 2f ff ff f4 00 00 0b ff ff d0 00
00 01 ff ff 00 00 00 00 06 90 00 00 00 00 00 00 00 00 00 00 00 00 00 00
00 00 00 00 00 00 00 00 00 00 00 00 00 00 00 00 00 00 00 00 00 00 00 00
00 00 00 00 00 00 00 00 00 00 00 00 00 00 00 00 00 00 00 00 00 00 00 00
00 00 00 00 00 00 00 00 1a a4 00 00 00 6f ff fc 00 00 00 ff ff fc 00 00
01 ff ff fc 00 00 01 ff ff fc 00 00 01 ff ff fc 00 00 00 f9 1f fc 00 00
00 00 0f fc 00 00 00 00 0f fc 00 00 00 00 0f fc 00 00 00 00 0f fc 00 00
00 00 0f fc 00 00 00 00 0f fc 00 00 00 00 0f fc 00 00 00 00 0f fc 00 00
00 00 0f fc 00 00 00 00 0f fc 00 00 00 00 0f fc 00 00 00 00 0f fc 00 00
00 00 0f fc 00 00 00 00 0f fc 00 00 00 00 0f fc 00 00 00 00 0f fc 00 00
00 00 0f fc 00 00 00 00 1f fc 00 00 00 bf ff ff ff 40 00 ff ff ff ff 80
00 ff ff ff ff 80 00 ff ff ff ff 80 00 7f ff ff ff 40 00 00 00 00 00 00
00 00 00 00 00 00 00 00 00 00 00 00 00 00 00 00 00 00 00 00 00 00 00 00
00 00 00 00 00 00 00 00 00 00 00 00 00 00 00 00 00 00 00 00 00 00 00 00
00 00 00 00 00 00 00 00 00 00 00 00 00 00 00 00 00 00 00 07 ff f8 00 00
01 ff ff ff 80 00 07 ff ff ff f0 00 07 ff ff ff f8 00 07 ff ff ff fc 00
07 fe 40 7f fe 00 07 e0 00 0f ff 00 01 00 00 07 ff 00 00 00 00 03 ff 00
00 00 00 07 ff 00 00 00 00 07 ff 00 00 00 00 0f ff 00 00 00 00 1f fd 00
00 00 00 3f fc 00 00 00 00 ff f4 00 00 00 02 ff f0 00 00 00 0b ff c0 00
00 00 1f ff 00 00 00 00 7f fd 00 00 00 01 ff f4 00 00 00 03 ff e0 00 00
00 0f ff 80 00 00 00 3f ff 00 00 00 00 bf fc 00 00 00 02 ff f4 00 00 00
07 ff ff ff ff 00 0b ff ff ff ff 40 0b ff ff ff ff 40 0b ff ff ff ff 40
07 ff ff ff ff 00 00 00 00 00 00 00 00 00 00 00 00 00 00 00 00 00 00 00
00 00 00 00 00 00 00 00 00 00 00 00 00 00 00 00 00 00 00 00 00 00 00 00
00 00 00 00 00 00 00 00 00 00 00 00 00 00 00 00 00 00 00 00 00 00 00 00
00 00 00 00 00 00 00 1b ff f9 00 00 01 ff ff ff d0 00 02 ff ff ff f4 00
02 ff ff ff fc 00 02 ff ff ff fe 00 02 f9 00 2f ff 00 00 00 00 07 ff 40
00 00 00 03 ff 40 00 00 00 03 ff 40 00 00 00 03 ff 40 00 00 00 0b ff 00
00 00 55 bf fe 00 00 03 ff ff fc 00 00 03 ff ff f0 00 00 03 ff ff f0 00
00 03 ff ff fc 00 00 02 ab ff ff 00 00 00 00 1f ff 40 00 00 00 03 ff 80
00 00 00 02 ff c0 00 00 00 01 ff c0 00 00 00 01 ff c0 00 00 00 02 ff c0
01 00 00 03 ff 80 07 e0 00 1f ff 40 07 ff aa ff ff 00 07 ff ff ff fd 00
07 ff ff ff f8 00 07 ff ff ff e0 00 00 bf ff fe 00 00 00 01 59 40 00 00
00 00 00 00 00 00 00 00 00 00 00 00 00 00 00 00 00 00 00 00 00 00 00 00
00 00 00 00 00 00 00 00 00 00 00 00 00 00 00 00 00 00 00 00 00 00 00 00
00 00 00 00 00 00 00 00 00 00 00 00 00 00 00 00 00 00 00 00 00 6a a0 00
00 00 00 ff f4 00 00 00 03 ff f4 00 00 00 07 ff f4 00 00 00 0f ff f4 00
00 00 2f ff f4 00 00 00 3f ff f4 00 00 00 ff ff f4 00 00 01 ff ff f4 00
00 03 ff 7f f4 00 00 0b fe 3f f4 00 00 0f fc 3f f4 00 00 2f f8 3f f4 00
00 7f f0 3f f4 00 00 ff d0 3f f4 00 02 ff c0 3f f4 00 03 ff 00 3f f4 00
0b fe 00 3f f4 00 0f fe aa bf fe 90 1f ff ff ff ff f0 1f ff ff ff ff f0
1f ff ff ff ff f0 1f ff ff ff ff f0 05 55 55 bf f9 40 00 00 00 3f f4 00
00 00 00 3f f4 00 00 00 00 3f f4 00 00 00 00 3f f4 00 00 00 00 3f f4 00
00 00 00 3f f0 00 00 00 00 00 00 00 00 00 00 00 00 00 00 00 00 00 00 00
00 00 00 00 00 00 00 00 00 00 00 00 00 00 00 00 00 00 00 00 00 00 00 00
00 00 00 00 00 00 00 00 00 00 00 00 00 00 00 00 00 00 00 00 00 00 00 00
00 00 00 00 00 00 00 aa aa aa a4 00 01 ff ff ff fc 00 01 ff ff ff fc 00
01 ff ff ff fc 00 01 ff ff ff fc 00 01 ff d5 55 50 00 01 ff c0 00 00 00
01 ff c0 00 00 00 01 ff c0 00 00 00 01 ff c4 00 00 00 01 ff ff f9 00 00
01 ff ff ff 80 00 01 ff ff ff f0 00 01 ff ff ff fc 00 01 ff ff ff fd 00
00 f8 00 7f ff 00 00 00 00 0f ff 40 00 00 00 03 ff 80 00 00 00 03 ff 80
00 00 00 02 ff 80 00 00 00 02 ff 80 00 00 00 02 ff 80 00 00 00 03 ff 80
01 00 00 0b ff 40 07 e0 00 2f ff 00 07 ff ab ff fe 00 07 ff ff ff fc 00
07 ff ff ff f0 00 07 ff ff ff c0 00 01 bf ff fd 00 00 00 01 69 40 00 00
00 00 00 00 00 00 00 00 00 00 00 00 00 00 00 00 00 00 00 00 00 00 00 00
00 00 00 00 00 00 00 00 00 00 00 00 00 00 00 00 00 00 00 00 00 00 00 00
00 00 00 00 00 00 00 00 00 00 00 00 00 00 00 00 00 00 00 00 1b ff e4 00
00 00 ff ff ff 00 00 03 ff ff ff 00 00 0f ff ff ff 00 00 3f ff ff ff 00
00 7f fd 00 7f 00 00 ff f0 00 00 00 01 ff d0 00 00 00 02 ff c0 00 00 00
03 ff 40 40 00 00 03 ff 6f ff 40 00 07 ff ff ff f0 00 07 ff ff ff fc 00
0b ff ff ff ff 00 0b ff ff bf ff 40 0b ff f0 07 ff c0 0b ff c0 02 ff c0
0b ff 80 00 ff d0 07 ff 40 00 ff d0 07 ff 40 00 ff e0 03 ff 40 00 ff e0
03 ff 40 00 ff e0 03 ff 80 00 ff d0 01 ff c0 01 ff c0 00 ff e0 03 ff c0
00 bf fe 6f ff 40 00 3f ff ff ff 00 00 1f ff ff fc 00 00 07 ff ff f0 00
00 00 bf ff 80 00 00 00 05 94 00 00 00 00 00 00 00 00 00 00 00 00 00 00
00 00 00 00 00 00 00 00 00 00 00 00 00 00 00 00 00 00 00 00 00 00 00 00
00 00 00 00 00 00 00 00 00 00 00 00 00 00 00 00 00 00 00 00 00 00 00 00
00 00 00 00 00 00 02 aa aa aa aa 40 03 ff ff ff ff c0 03 ff ff ff ff c0
03 ff ff ff ff 80 03 ff ff ff ff 40 01 55 55 5f ff 00 00 00 00 0f fe 00
00 00 00 1f fd 00 00 00 00 2f fc 00 00 00 00 3f f8 00 00 00 00 7f f0 00
00 00 00 bf f0 00 00 00 00 ff e0 00 00 00 01 ff c0 00 00 00 03 ff c0 00
00 00 03 ff 80 00 00 00 07 ff 00 00 00 00 0f ff 00 00 00 00 0f fd 00 00
00 00 2f fc 00 00 00 00 3f fc 00 00 00 00 3f f4 00 00 00 00 bf f0 00 00
00 00 ff e0 00 00 00 00 ff d0 00 00 00 02 ff c0 00 00 00 03 ff 80 00 00
00 07 ff 40 00 00 00 0b ff 00 00 00 00 07 fe 00 00 00 00 00 00 00 00 00
00 00 00 00 00 00 00 00 00 00 00 00 00 00 00 00 00 00 00 00 00 00 00 00
00 00 00 00 00 00 00 00 00 00 00 00 00 00 00 00 00 00 00 00 00 00 00 00
00 00 00 00 00 00 00 00 00 00 00 00 00 00 00 00 00 00 00 01 bf fe 00 00
00 0f ff ff e0 00 00 3f ff ff fc 00 00 ff ff ff fe 00 01 ff ff ff ff 00
02 ff e0 0b ff 40 03 ff 80 03 ff 80 03 ff 40 02 ff c0 03 ff 40 02 ff c0
03 ff 40 02 ff 80 02 ff c0 03 ff 40 01 ff f4 1f ff 00 00 bf ff ff fd 00
00 3f ff ff f8 00 00 1f ff ff f4 00 00 bf ff ff fd 00 01 ff ff ff ff 00
03 ff d0 0b ff 80 07 ff 40 02 ff c0 0b ff 00 00 ff d0 0b ff 00 00 ff d0
0b fe 00 00 ff d0 0b ff 00 00 ff d0 07 ff 00 01 ff c0 03 ff c0 03 ff c0
03 ff f9 6f ff 80 01 ff ff ff ff 00 00 bf ff ff fd 00 00 2f ff ff f4 00
00 07 ff ff 80 00 00 00 16 54 00 00 00 00 00 00 00 00 00 00 00 00 00 00
00 00 00 00 00 00 00 00 00 00 00 00 00 00 00 00 00 00 00 00 00 00 00 00
00 00 00 00 00 00 00 00 00 00 00 00 00 00 00 00 00 00 00 00 00 00 00 00
00 00 00 00 00 00 00 01 bf f9 00 00 00 0f ff ff 80 00 00 3f ff ff f0 00
00 ff ff ff f8 00 02 ff ff ff fc 00 03 ff d0 1f fe 00 07 ff 40 07 ff 00
0b ff 00 03 ff 40 0b fe 00 03 ff 80 0f fe 00 02 ff c0 0f fe 00 02 ff c0
0f fe 00 02 ff c0 0b ff 00 03 ff c0 07 ff 00 03 ff d0 03 ff c0 0f ff d0
03 ff f5 7f ff d0 01 ff ff ff ff d0 00 bf ff ff ff c0 00 2f ff ff ff c0
00 07 ff fe ff c0 00 00 1a 52 ff c0 00 00 00 03 ff 80 00 00 00 07 ff 00
00 00 00 0f ff 00 00 e4 00 3f fd 00 00 ff ab ff fc 00 01 ff ff ff f0 00
01 ff ff ff d0 00 00 ff ff ff 40 00 00 6f ff f8 00 00 00 01 69 00 00 00
00 00 00 00 00 00 00 00 00 00 00 00 00 00 00 00 00 00 00 00 00 00 00 00
00 00 00 00 00 00 00 00 00 00 00 00 00 00 00 00 00 00 00 00 00 00 00 00
00 00 00 00 00 00 00 00 00 00 00 00 00 00 00 00 00 00 00 00 00 00 00 00
00 00 00 00 00 00 00 00 00 00 00 00 00 6a 80 00 00 ff e0 00 00 ff e0 00
00 ff e0 00 00 ff e0 00 00 ff e0 00 00 bf d0 00 00 00 00 00 00 00 00 00
00 00 00 00 00 00 00 00 00 00 00 00 00 00 00 00 00 00 00 00 00 00 00 00
00 6a 80 00 00 ff e0 00 00 ff e0 00 00 ff e0 00 00 ff e0 00 00 ff e0 00
00 bf d0 00 00 00 00 00 00 00 00 00 00 00 00 00 00 00 00 00 00 00 00 00
00 00 00 00 00 00 00 00 00 00 00 00 00 00 00 00 00 00 00 00 00 00 00 00
00 00 00 00 00 00 00 00 00 00 00 00 00 00 00 00 00 00 00 00 00 00 00 00
00 00 00 00 00 00 00 00 00 00 00 00 00 6a 80 00 00 ff e0 00 00 ff e0 00
00 ff e0 00 00 ff e0 00 00 ff e0 00 00 bf d0 00 00 00 00 00 00 00 00 00
00 00 00 00 00 00 00 00 00 00 00 00 00 00 00 00 00 00 00 00 00 00 00 00
00 6a 80 00 00 ff e0 00 00 ff e0 00 00 ff e0 00 00 ff e0 00 00 ff c0 00
01 ff 80 00 02 ff 00 00 03 ff 00 00 03 fd 00 00 07 fc 00 00 01 50 00 00
00 00 00 00 00 00 00 00 00 00 00 00 00 00 00 00 00 00 00 00 00 00 00 00
00 00 00 00 00 00 00 00 00 00 00 00 00 00 00 00 00 00 00 00 00 00 00 00
00 00 00 00 00 00 00 00 00 00 00 00 00 00 00 00 00 00 00 00 00 00 00 00
00 00 00 00 00 00 00 00 00 00 00 00 00 00 00 00 00 00 00 00 00 00 00 00
00 00 00 00 00 00 00 00 00 00 00 00 00 00 bc 00 00 00 00 00 00 1b fc 00
00 00 00 00 02 ff fc 00 00 00 00 00 6f ff fc 00 00 00 00 0b ff ff fc 00
00 00 01 bf ff ff e0 00 00 00 1f ff ff fd 00 00 00 06 ff ff ff 80 00 00
00 7f ff ff f4 00 00 00 01 ff ff fe 00 00 00 00 01 ff ff 90 00 00 00 00
01 ff ff 80 00 00 00 00 01 ff ff f9 00 00 00 00 00 bf ff ff e0 00 00 00
00 07 ff ff ff 40 00 00 00 00 6f ff ff f8 00 00 00 00 01 ff ff ff d0 00
00 00 00 1b ff ff fc 00 00 00 00 00 7f ff fc 00 00 00 00 00 06 ff fc 00
00 00 00 00 00 1f fc 00 00 00 00 00 00 01 bc 00 00 00 00 00 00 00 00 00
00 00 00 00 00 00 00 00 00 00 00 00 00 00 00 00 00 00 00 00 00 00 00 00
00 00 00 00 00 00 00 00 00 00 00 00 00 00 00 00 00 00 00 00 00 00 00 00
00 00 00 00 00 00 00 00 00 00 00 00 00 00 00 00 00 00 00 00 00 00 00 00
00 00 00 00 00 00 00 00 00 00 00 00 00 00 00 00 00 00 00 00 00 00 00 00
00 00 00 00 00 00 00 00 00 00 00 00 00 00 00 00 00 00 00 00 00 00 00 00
00 00 00 00 00 00 00 00 00 00 00 00 00 00 00 00 00 00 00 00 00 00 00 00
00 00 00 00 00 00 00 00 00 00 00 00 00 00 00 00 00 00 00 00 00 00 00 00
00 00 00 00 00 00 00 00 00 00 00 00 00 00 00 00 00 15 55 55 55 55 50 00
01 ff ff ff ff ff fc 00 01 ff ff ff ff ff fc 00 01 ff ff ff ff ff fc 00
01 ff ff ff ff ff fc 00 00 ff ff ff ff ff f8 00 00 00 00 00 00 00 00 00
00 00 00 00 00 00 00 00 00 aa aa aa aa aa a4 00 01 ff ff ff ff ff fc 00
01 ff ff ff ff ff fc 00 01 ff ff ff ff ff fc 00 01 ff ff ff ff ff fc 00
00 55 55 55 55 55 50 00 00 00 00 00 00 00 00 00 00 00 00 00 00 00 00 00
00 00 00 00 00 00 00 00 00 00 00 00 00 00 00 00 00 00 00 00 00 00 00 00
00 00 00 00 00 00 00 00 00 00 00 00 00 00 00 00 00 00 00 00 00 00 00 00
00 00 00 00 00 00 00 00 00 00 00 00 00 00 00 00 00 00 00 00 00 00 00 00
00 00 00 00 00 00 00 00 00 00 00 00 00 00 00 00 00 00 00 00 00 00 00 00
00 00 00 00 00 00 00 00 00 00 00 00 00 00 00 00 00 00 00 00 00 00 00 00
00 00 00 00 00 00 00 00 00 00 00 00 00 00 00 00 00 00 00 00 00 00 00 00
00 00 00 00 00 00 00 00 00 00 00 00 00 00 00 00 00 00 00 00 00 00 00 00".
Definition cond40_bits_2 : list Z := atlas
"00 00 00 00 00 00 00 00 00 f4 00 00 00 00 00 00 01 ff 80 00 00 00 00 00
01 ff fd 00 00 00 00 00 01 ff ff e0 00 00 00 00 01 ff ff ff 40 00 00 00
00 6f ff ff f8 00 00 00 00 02 ff ff ff d0 00 00 00 00 1b ff ff fe 00 00
00 00 00 7f ff ff e4 00 00 00 00 06 ff ff fc 00 00 00 00 00 1f ff fc 00
00 00 00 00 1b ff fc 00 00 00 00 01 ff ff fc 00 00 00 00 6f ff ff f4 00
00 00 0b ff ff fe 40 00 00 01 bf ff ff e0 00 00 00 2f ff ff f9 00 00 00
00 ff ff ff 80 00 00 00 01 ff ff e4 00 00 00 00 01 ff fe 00 00 00 00 00
01 ff d0 00 00 00 00 00 00 f8 00 00 00 00 00 00 00 00 00 00 00 00 00 00
00 00 00 00 00 00 00 00 00 00 00 00 00 00 00 00 00 00 00 00 00 00 00 00
00 00 00 00 00 00 00 00 00 00 00 00 00 00 00 00 00 00 00 00 00 00 00 00
00 00 00 00 00 00 00 00 00 00 00 00 00 00 00 00 00 00 00 00 00 00 00 00
00 00 00 00 00 00 00 00 00 00 00 00 1b ff d0 00 01 ff ff fc 00 07 ff ff
ff 00 0b ff ff ff c0 0b ff ff ff d0 0b f8 02 ff e0 07 c0 00 ff e0 01 00
00 bf e0 00 00 00 ff e0 00 00 01 ff d0 00 00 03 ff c0 00 00 0f ff 40 00
00 3f fe 00 00 00 ff fc 00 00 01 ff f0 00 00 03 ff c0 00 00 03 ff 40 00
00 07 ff 00 00 00 07 ff 00 00 00 07 ff 00 00 00 07 ff 00 00 00 07 ff 00
00 00 01 a8 00 00 00 02 a9 00 00 00 07 ff 00 00 00 07 ff 00 00 00 07 ff
00 00 00 07 ff 00 00 00 07 ff 00 00 00 03 fe 00 00 00 00 00 00 00 00 00
00 00 00 00 00 00 00 00 00 00 00 00 00 00 00 00 00 00 00 00 00 00 00 00
00 00 00 00 00 00 00 00 00 00 00 00 00 00 00 00 00 00 00 00 00 00 00 00
00 00 00 00 00 00 00 00 00 00 00 00 00 00 00 00 00 00 00 00 00 00 00 00
00 00 00 00 00 00 00 00 00 00 00 00 00 00 00 00 00 00 00 00 00 01 aa 90
00 00 00 00 00 00 bf ff ff 80 00 00 00 00 0b ff ff ff f4 00 00 00 00 3f
ff ff ff ff 00 00 00 00 ff ff ff ff ff c0 00 00 03 ff f9 00 1b ff f0 00
00 0f ff 80 00 00 bf fc 00 00 2f fd 00 00 00 1f fd 00 00 7f f4 00 10 00
07 ff 00 00 ff d0 0b ff 8f f2 ff 40 01 ff 80 3f ff ff f0 ff c0 02 ff 00
ff ff ff f0 7f c0 03 fe 02 ff ff ff f0 3f d0 03 fd 03 ff d6 ff f0 3f e0
07 fc 07 ff 00 7f f0 2f e0 0b fc 0b fc 00 3f f0 2f f0 0b f8 0f fc 00 2f
f0 2f e0 0b f8 0f fc 00 1f f0 2f e0 0b f8 0f fc 00 1f f0 3f e0 0b f8 0f
fc 00 2f f0 3f d0 0b fc 0b fc 00 3f f0 bf c0 07 fc 07 fe 00 7f f2 ff 80
03 fd 03 ff 96 ff ff ff 00 03 fe 02 ff ff ff ff fd 00 02 ff 00 ff ff ff
ff f8 00 01 ff 80 3f ff ff ff d0 00 00 ff d0 0b ff df fd 00 00 00 7f f4
00 54 05 40 00 00 00 2f fd 00 00 00 2d 00 00 00 0f ff 80 00 01 ff 00 00
00 03 ff fd 00 6f ff 80 00 00 00 ff ff ff ff ff 80 00 00 00 3f ff ff ff
fd 00 00 00 00 07 ff ff ff e0 00 00 00 00 00 00 00 00 00 00 00 00 00 00
00 00 00 00 00 00 00 00 00 00 00 00 00 00 00 00 00 00 00 00 00 00 00 00
00 00 00 00 00 00 00 00 00 00 00 00 00 00 00 0a a8 00 00 00 00 00 1f ff
00 00 00 00 00 2f ff 00 00 00 00 00 3f ff 40 00 00 00 00 7f ff c0 00 00
00 00 bf ff c0 00 00 00 00 ff ff d0 00 00 00 01 ff ff f0 00 00 00 03 ff
ff f0 00 00 00 03 ff 3f f8 00 00 00 07 ff 2f fc 00 00 00 0f fe 0f fc 00
00 00 0f fc 0f fe 00 00 00 1f fc 0b ff 00 00 00 3f f8 03 ff 00 00 00 3f
f0 03 ff 80 00 00 bf f0 02 ff c0 00 00 ff e0 01 ff c0 00 00 ff ff ff ff
e0 00 02 ff ff ff ff f0 00 03 ff ff ff ff f4 00 03 ff ff ff ff f8 00 0b
ff ff ff ff fc 00 0f fe 00 00 0f fd 00 1f fd 00 00 0f fe 00 2f fc 00 00
0b ff 00 3f f8 00 00 07 ff 40 7f f4 00 00 03 ff 80 bf f0 00 00 02 ff c0
7f e0 00 00 00 ff c0 00 00 00 00 00 00 00 00 00 00 00 00 00 00 00 00 00
00 00 00 00 00 00 00 00 00 00 00 00 00 00 00 00 00 00 00 00 00 00 00 00
00 00 00 00 00 00 00 00 00 00 00 00 00 00 00 00 00 00 00 00 00 00 00 00
00 00 00 00 00 00 00 00 00 00 00 00 00 00 00 00 00 00 00 00 aa aa a9 00
00 00 02 ff ff ff f4 00 00 02 ff ff ff fe 00 00 02 ff ff ff ff 80 00 02
ff ff ff ff c0 00 02 ff d5 5b ff e0 00 02 ff 80 00 ff f0 00 02 ff 80 00
bf f0 00 02 ff 80 00 7f f0 00 02 ff 80 00 bf f0 00 02 ff 80 00 ff e0 00
02 ff d5 57 ff d0 00 02 ff ff ff ff c0 00 02 ff ff ff ff 00 00 02 ff ff
ff ff 00 00 02 ff ff ff ff c0 00 02 ff ff ff ff f0 00 02 ff 80 00 ff f4
00 02 ff 80 00 3f f8 00 02 ff 80 00 2f fc 00 02 ff 80 00 2f fc 00 02 ff
80 00 2f fc 00 02 ff 80 00 2f fc 00 02 ff 80 00 3f fc 00 02 ff c0 01 ff
f8 00 02 ff ff ff ff f0 00 02 ff ff ff ff d0 00 02 ff ff ff ff 80 00 02
ff ff ff fd 00 00 01 ff ff ff 90 00 00 00 00 00 00 00 00 00 00 00 00 00
00 00 00 00 00 00 00 00 00 00 00 00 00 00 00 00 00 00 00 00 00 00 00 00
00 00 00 00 00 00 00 00 00 00 00 00 00 00 00 00 00 00 00 00 00 00 00 00
00 00 00 00 00 00 00 00 00 00 00 00 00 00 00 00 00 00 00 00 00 00 00 00
00 00 00 07 ff fe 00 00 00 00 bf ff ff e0 00 00 03 ff ff ff fd 00 00 0f
ff ff ff ff 00 00 3f ff ff ff ff 00 00 bf ff 40 0b ff 00 00 ff f4 00 00
bf 00 02 ff d0 00 00 1f 00 03 ff c0 00 00 00 00 07 ff 40 00 00 00 00 0b
ff 00 00 00 00 00 0f ff 00 00 00 00 00 0f fe 00 00 00 00 00 0f fe 00 00
00 00 00 0f fe 00 00 00 00 00 0f fd 00 00 00 00 00 0f fe 00 00 00 00 00
0f fe 00 00 00 00 00 0f ff 00 00 00 00 00 0b ff 00 00 00 00 00 07 ff 40
00 00 00 00 03 ff 80 00 00 00 00 03 ff c0 00 00 0f 00 01 ff f0 00 00 3f
00 00 ff fd 00 02 ff 00 00 3f ff ea bf ff 00 00 1f ff ff ff ff 00 00 07
ff ff ff fe 00 00 01 ff ff ff f4 00 00 00 1f ff ff 40 00 00 00 00 5a 50
00 00 00 00 00 00 00 00 00 00 00 00 00 00 00 00 00 00 00 00 00 00 00 00
00 00 00 00 00 00 00 00 00 00 00 00 00 00 00 00 00 00 00 00 00 00 00 00
00 00 00 00 00 00 00 00 00 00 00 00 00 00 00 00 00 00 00 00 00 00 00 00
00 00 00 00 00 00 00 00 aa aa a5 00 00 00 02 ff ff ff f8 00 00 02 ff ff
ff ff 80 00 02 ff ff ff ff f0 00 02 ff ff ff ff fc 00 02 ff d5 5b ff ff
00 02 ff 80 00 3f ff 40 02 ff 80 00 0b ff c0 02 ff 80 00 03 ff d0 02 ff
80 00 00 ff e0 02 ff 80 00 00 ff f0 02 ff 80 00 00 bf f0 02 ff 80 00 00
7f f0 02 ff 80 00 00 7f f0 02 ff 80 00 00 7f f4 02 ff 80 00 00 7f f4 02
ff 80 00 00 7f f0 02 ff 80 00 00 7f f0 02 ff 80 00 00 bf f0 02 ff 80 00
00 ff f0 02 ff 80 00 00 ff e0 02 ff 80 00 02 ff d0 02 ff 80 00 07 ff c0
02 ff 80 00 1f ff 80 02 ff c0 06 ff ff 00 02 ff ff ff ff fd 00 02 ff ff
ff ff f4 00 02 ff ff ff ff d0 00 02 ff ff ff fd 00 00 01 ff ff fe 40 00
00 00 00 00 00 00 00 00 00 00 00 00 00 00 00 00 00 00 00 00 00 00 00 00
00 00 00 00 00 00 00 00 00 00 00 00 00 00 00 00 00 00 00 00 00 00 00 00
00 00 00 00 00 00 00 00 00 00 00 00 00 00 00 00 00 00 00 00 00 00 00 00
00 00 00 00 00 00 00 aa aa aa aa 80 02 ff ff ff ff c0 02 ff ff ff ff c0
02 ff ff ff ff c0 02 ff ff ff ff c0 02 ff d5 55 55 40 02 ff 80 00 00 00
02 ff 80 00 00 00 02 ff 80 00 00 00 02 ff 80 00 00 00 02 ff 80 00 00 00
02 ff d5 55 55 00 02 ff ff ff ff 80 02 ff ff ff ff 80 02 ff ff ff ff 80
02 ff ff ff ff 80 02 ff ff ff ff 00 02 ff 80 00 00 00 02 ff 80 00 00 00
02 ff 80 00 00 00 02 ff 80 00 00 00 02 ff 80 00 00 00 02 ff 80 00 00 00
02 ff 80 00 00 00 02 ff c0 00 00 00 02 ff ff ff ff d0 02 ff ff ff ff d0
02 ff ff ff ff d0 02 ff ff ff ff d0 01 ff ff ff ff c0 00 00 00 00 00 00
00 00 00 00 00 00 00 00 00 00 00 00 00 00 00 00 00 00 00 00 00 00 00 00
00 00 00 00 00 00 00 00 00 00 00 00 00 00 00 00 00 00 00 00 00 00 00 00
00 00 00 00 00 00 00 00 00 00 00 00 00 00 00 00 00 00 00 aa aa aa a8 00
02 ff ff ff fe 00 02 ff ff ff fe 00 02 ff ff ff fe 00 02 ff ff ff fe 00
02 ff d5 55 54 00 02 ff 80 00 00 00 02 ff 80 00 00 00 02 ff 80 00 00 00
02 ff 80 00 00 00 02 ff 80 00 00 00 02 ff d5 55 50 00 02 ff ff ff f8 00
02 ff ff ff f8 00 02 ff ff ff f8 00 02 ff ff ff f8 00 02 ff ff ff e0 00
02 ff 80 00 00 00 02 ff 80 00 00 00 02 ff 80 00 00 00 02 ff 80 00 00 00
02 ff 80 00 00 00 02 ff 80 00 00 00 02 ff 80 00 00 00 02 ff 80 00 00 00
02 ff 80 00 00 00 02 ff 80 00 00 00 02 ff 80 00 00 00 02 ff 80 00 00 00
01 ff 40 00 00 00 00 00 00 00 00 00 00 00 00 00 00 00 00 00 00 00 00 00
00 00 00 00 00 00 00 00 00 00 00 00 00 00 00 00 00 00 00 00 00 00 00 00
00 00 00 00 00 00 00 00 00 00 00 00 00 00 00 00 00 00 00 00 00 00 00 00
00 00 00 00 00 00 00 00 00 00 00 00 00 00 00 00 00 00 00 00 00 00 06 ff
fe 40 00 00 00 00 bf ff ff f8 00 00 00 03 ff ff ff ff 40 00 00 0f ff ff
ff ff c0 00 00 3f ff ff ff ff c0 00 00 bf ff 40 06 ff c0 00 00 ff f4 00
00 2f c0 00 02 ff d0 00 00 07 c0 00 03 ff c0 00 00 00 00 00 07 ff 40 00
00 00 00 00 0b ff 00 00 00 00 00 00 0f ff 00 00 00 00 00 00 0f fe 00 00
00 00 00 00 0f fe 00 01 55 55 40 00 0f fe 00 03 ff ff e0 00 0f fd 00 03
ff ff e0 00 0f fe 00 03 ff ff e0 00 0f fe 00 03 ff ff e0 00 0f ff 00 01
aa ff e0 00 0b ff 00 00 00 bf e0 00 07 ff 00 00 00 bf e0 00 03 ff 80 00
00 bf e0 00 03 ff c0 00 00 bf e0 00 01 ff f0 00 00 bf e0 00 00 ff fd 00
00 ff e0 00 00 3f ff fa af ff e0 00 00 1f ff ff ff ff e0 00 00 07 ff ff
ff ff 80 00 00 01 ff ff ff fd 00 00 00 00 1f ff ff 90 00 00 00 00 00 56
50 00 00 00 00 00 00 00 00 00 00 00 00 00 00 00 00 00 00 00 00 00 00 00
00 00 00 00 00 00 00 00 00 00 00 00 00 00 00 00 00 00 00 00 00 00 00 00
00 00 00 00 00 00 00 00 00 00 00 00 00 00 00 00 00 00 00 00 00 00 00 00
00 00 00 00 00 00 00 00 00 00 00 00 00 00 aa 40 00 01 aa 00 02 ff 80 00
03 ff 40 02 ff 80 00 03 ff 40 02 ff 80 00 03 ff 40 02 ff 80 00 03 ff 40
02 ff 80 00 03 ff 40 02 ff 80 00 03 ff 40 02 ff 80 00 03 ff 40 02 ff 80
00 03 ff 40 02 ff 80 00 03 ff 40 02 ff 80 00 03 ff 40 02 ff d5 55 57 ff
40 02 ff ff ff ff ff 40 02 ff ff ff ff ff 40 02 ff ff ff ff ff 40 02 ff
ff ff ff ff 40 02 ff ff ff ff ff 40 02 ff 80 00 03 ff 40 02 ff 80 00 03
ff 40 02 ff 80 00 03 ff 40 02 ff 80 00 03 ff 40 02 ff 80 00 03 ff 40 02
ff 80 00 03 ff 40 02 ff 80 00 03 ff 40 02 ff 80 00 03 ff 40 02 ff 80 00
03 ff 40 02 ff 80 00 03 ff 40 02 ff 80 00 03 ff 40 02 ff 80 00 03 ff 40
01 ff 40 00 02 ff 00 00 00 00 00 00 00 00 00 00 00 00 00 00 00 00 00 00
00 00 00 00 00 00 00 00 00 00 00 00 00 00 00 00 00 00 00 00 00 00 00 00
00 00 00 00 00 00 00 00 00 00 00 00 00 00 00 00 aa 40 02 ff 80 02 ff 80
02 ff 80 02 ff 80 02 ff 80 02 ff 80 02 ff 80 02 ff 80 02 ff 80 02 ff 80
02 ff 80 02 ff 80 02 ff 80 02 ff 80 02 ff 80 02 ff 80 02 ff 80 02 ff 80
02 ff 80 02 ff 80 02 ff 80 02 ff 80 02 ff 80 02 ff 80 02 ff 80 02 ff 80
02 ff 80 02 ff 80 01 ff 40 00 00 00 00 00 00 00 00 00 00 00 00 00 00 00
00 00 00 00 00 00 00 00 00 00 00 00 00 00 00 00 00 00 00 00 00 00 00 00
00 00 00 00 00 0a a4 00 00 2f f8 00 00 2f fc 00 00 2f fc 00 00 2f fc 00
00 2f fc 00 00 2f fc 00 00 2f fc 00 00 2f fc 00 00 2f fc 00 00 2f fc 00
00 2f fc 00 00 2f fc 00 00 2f fc 00 00 2f fc 00 00 2f fc 00 00 2f fc 00
00 2f fc 00 00 2f fc 00 00 2f fc 00 00 2f fc 00 00 2f fc 00 00 2f fc 00
00 2f fc 00 00 2f fc 00 00 2f fc 00 00 2f fc 00 00 2f f8 00 00 2f f8 00
00 3f f8 00 00 3f f4 00 00 7f f4 00 2a ff f0 00 bf ff e0 00 ff ff c0 00
00 00 00 00 00 00 00 00 00 00 00 00 00 00 00 00 00 00 00 00 00 00 00 00
00 00 00 00 00 00 00 00 00 00 00 00 00 00 00 00 00 00 00 00 00 00 00 00
00 00 aa 40 00 0a aa 00 02 ff 80 00 2f ff 00 02 ff 80 00 bf fd 00 02 ff
80 02 ff f8 00 02 ff 80 0b ff e0 00 02 ff 80 1f ff 80 00 02 ff 80 7f fe
00 00 02 ff 81 ff f8 00 00 02 ff 87 ff e0 00 00 02 ff 9f ff 80 00 00 02
ff ff ff 00 00 00 02 ff ff fc 00 00 00 02 ff ff f0 00 00 00 02 ff ff c0".
Definition cond40_bits_3 : list Z := atlas
"00 00 00 02 ff ff 80 00 00 00 02 ff ff d0 00 00 00 02 ff ff f4 00 00 00
02 ff ff fc 00 00 00 02 ff ff ff 00 00 00 02 ff 8f ff c0 00 00 02 ff 87
ff f0 00 00 02 ff 81 ff f8 00 00 02 ff 80 7f fe 00 00 02 ff 80 2f ff 80
00 02 ff 80 0b ff d0 00 02 ff 80 03 ff f4 00 02 ff 80 00 ff fd 00 02 ff
80 00 3f ff 00 02 ff 80 00 0f ff c0 01 ff 40 00 03 ff c0 00 00 00 00 00
00 00 00 00 00 00 00 00 00 00 00 00 00 00 00 00 00 00 00 00 00 00 00 00
00 00 00 00 00 00 00 00 00 00 00 00 00 00 00 00 00 00 00 00 00 00 00 00
00 00 00 00 00 00 00 00 00 00 00 00 00 00 00 00 00 00 00 00 00 00 00 00
00 aa 40 00 00 00 02 ff 80 00 00 00 02 ff 80 00 00 00 02 ff 80 00 00 00
02 ff 80 00 00 00 02 ff 80 00 00 00 02 ff 80 00 00 00 02 ff 80 00 00 00
02 ff 80 00 00 00 02 ff 80 00 00 00 02 ff 80 00 00 00 02 ff 80 00 00 00
02 ff 80 00 00 00 02 ff 80 00 00 00 02 ff 80 00 00 00 02 ff 80 00 00 00
02 ff 80 00 00 00 02 ff 80 00 00 00 02 ff 80 00 00 00 02 ff 80 00 00 00
02 ff 80 00 00 00 02 ff 80 00 00 00 02 ff 80 00 00 00 02 ff 80 00 00 00
02 ff c0 00 00 00 02 ff ff ff ff 80 02 ff ff ff ff c0 02 ff ff ff ff c0
02 ff ff ff ff c0 01 ff ff ff ff 80 00 00 00 00 00 00 00 00 00 00 00 00
00 00 00 00 00 00 00 00 00 00 00 00 00 00 00 00 00 00 00 00 00 00 00 00
00 00 00 00 00 00 00 00 00 00 00 00 00 00 00 00 00 00 00 00 00 00 00 00
00 00 00 00 00 00 00 00 00 00 00 00 00 00 00 00 00 00 00 00 00 00 00 00
00 00 00 aa a0 00 00 1a aa 00 02 ff f8 00 00 3f ff 00 02 ff fc 00 00 7f
ff 00 02 ff fc 00 00 bf ff 00 02 ff fe 00 00 ff ff 00 02 ff ff 00 01 ff
ff 00 02 ff ff 00 02 ff ff 00 02 ff ff 80 03 ff ff 00 02 ff ff c0 07 ff
ff 00 02 ff ff c0 0b ff ff 00 02 ff ff e0 0f ff ff 00 02 ff ff f0 1f fb
ff 00 02 ff bf f0 2f f7 ff 00 02 ff 9f f8 3f f3 ff 00 02 ff 8f fc 7f e3
ff 00 02 ff 8f fc bf d3 ff 00 02 ff 87 fe ff c3 ff 00 02 ff 83 ff ff 83
ff 00 02 ff 83 ff ff 43 ff 00 02 ff 81 ff ff 03 ff 00 02 ff 80 ff fe 03
ff 00 02 ff 80 bf fc 03 ff 00 02 ff 80 7f fc 03 ff 00 02 ff 80 3f f8 03
ff 00 02 ff 80 1a a0 03 ff 00 02 ff 80 00 00 03 ff 00 02 ff 80 00 00 03
ff 00 02 ff 80 00 00 03 ff 00 02 ff 80 00 00 03 ff 00 01 ff 40 00 00 03
ff 00 00 00 00 00 00 00 00 00 00 00 00 00 00 00 00 00 00 00 00 00 00 00
00 00 00 00 00 00 00 00 00 00 00 00 00 00 00 00 00 00 00 00 00 00 00 00
00 00 00 00 00 00 00 00 00 00 00 00 00 00 00 00 00 00 00 00 00 00 00 00
00 00 00 00 00 00 00 00 00 00 00 00 00 00 00 00 00 00 00 00 aa 90 00 01
aa 00 02 ff f0 00 03 ff 00 02 ff f8 00 03 ff 00 02 ff fc 00 03 ff 00 02
ff fe 00 03 ff 00 02 ff ff 00 03 ff 00 02 ff ff 80 03 ff 00 02 ff ff c0
03 ff 00 02 ff ff d0 03 ff 00 02 ff ff f0 03 ff 00 02 ff ff f4 03 ff 00
02 ff bf fc 03 ff 00 02 ff 9f fd 03 ff 00 02 ff 8f ff 03 ff 00 02 ff 87
ff 43 ff 00 02 ff 83 ff c3 ff 00 02 ff 81 ff d3 ff 00 02 ff 80 ff f3 ff
00 02 ff 80 7f f7 ff 00 02 ff 80 3f fb ff 00 02 ff 80 1f ff ff 00 02 ff
80 0f ff ff 00 02 ff 80 0b ff ff 00 02 ff 80 03 ff ff 00 02 ff 80 02 ff
ff 00 02 ff 80 00 ff ff 00 02 ff 80 00 bf ff 00 02 ff 80 00 3f ff 00 02
ff 80 00 2f ff 00 01 ff 40 00 0f ff 00 00 00 00 00 00 00 00 00 00 00 00
00 00 00 00 00 00 00 00 00 00 00 00 00 00 00 00 00 00 00 00 00 00 00 00
00 00 00 00 00 00 00 00 00 00 00 00 00 00 00 00 00 00 00 00 00 00 00 00
00 00 00 00 00 00 00 00 00 00 00 00 00 00 00 00 00 00 00 00 00 00 00 00
00 00 00 00 00 00 00 00 00 00 0b ff f8 00 00 00 00 00 bf ff ff 80 00 00
00 03 ff ff ff f0 00 00 00 0f ff ff ff fc 00 00 00 3f ff ff ff ff 00 00
00 bf fe 00 2f ff 80 00 00 ff f4 00 07 ff c0 00 02 ff d0 00 02 ff e0 00
03 ff c0 00 00 ff f0 00 07 ff 40 00 00 7f f4 00 0b ff 00 00 00 3f f4 00
0f ff 00 00 00 3f f8 00 0f fe 00 00 00 2f fc 00 0f fe 00 00 00 2f fc 00
0f fe 00 00 00 2f fc 00 0f fd 00 00 00 2f fc 00 0f fe 00 00 00 2f fc 00
0f fe 00 00 00 2f fc 00 0f ff 00 00 00 3f fc 00 0b ff 00 00 00 3f f8 00
07 ff 40 00 00 7f f4 00 03 ff 80 00 00 ff f0 00 03 ff c0 00 01 ff e0 00
01 ff f0 00 03 ff d0 00 00 ff fd 00 1f ff c0 00 00 3f ff ea ff ff 00 00
00 1f ff ff ff fd 00 00 00 0b ff ff ff f4 00 00 00 01 ff ff ff d0 00 00
00 00 2f ff fe 00 00 00 00 00 00 59 40 00 00 00 00 00 00 00 00 00 00 00
00 00 00 00 00 00 00 00 00 00 00 00 00 00 00 00 00 00 00 00 00 00 00 00
00 00 00 00 00 00 00 00 00 00 00 00 00 00 00 00 00 00 00 00 00 00 00 00
00 00 00 00 00 00 00 00 00 00 00 00 00 00 00 00 00 00 00 aa aa a4 00 00
02 ff ff ff d0 00 02 ff ff ff f8 00 02 ff ff ff fe 00 02 ff ff ff ff 40
02 ff d5 6f ff c0 02 ff 80 03 ff c0 02 ff 80 02 ff d0 02 ff 80 00 ff d0
02 ff 80 00 ff d0 02 ff 80 00 ff d0 02 ff 80 01 ff d0 02 ff 80 03 ff c0
02 ff c0 5f ff c0 02 ff ff ff ff 40 02 ff ff ff ff 00 02 ff ff ff fc 00
02 ff ff ff e0 00 02 ff ff f9 00 00 02 ff 80 00 00 00 02 ff 80 00 00 00
02 ff 80 00 00 00 02 ff 80 00 00 00 02 ff 80 00 00 00 02 ff 80 00 00 00
02 ff 80 00 00 00 02 ff 80 00 00 00 02 ff 80 00 00 00 02 ff 80 00 00 00
01 ff 40 00 00 00 00 00 00 00 00 00 00 00 00 00 00 00 00 00 00 00 00 00
00 00 00 00 00 00 00 00 00 00 00 00 00 00 00 00 00 00 00 00 00 00 00 00
00 00 00 00 00 00 00 00 00 00 00 00 00 00 00 00 00 00 00 00 00 00 00 00
00 00 00 00 00 00 00 00 00 00 00 00 00 00 00 00 00 00 00 00 00 00 0b ff
f8 00 00 00 00 00 bf ff ff 80 00 00 00 03 ff ff ff f0 00 00 00 0f ff ff
ff fc 00 00 00 3f ff ff ff ff 00 00 00 bf fe 00 2f ff 80 00 00 ff f4 00
07 ff c0 00 02 ff d0 00 02 ff e0 00 03 ff c0 00 00 ff f0 00 07 ff 40 00
00 7f f4 00 0b ff 00 00 00 3f f4 00 0f ff 00 00 00 3f f8 00 0f fe 00 00
00 2f fc 00 0f fe 00 00 00 2f fc 00 0f fe 00 00 00 2f fc 00 0f fd 00 00
00 2f fc 00 0f fe 00 00 00 2f fc 00 0f fe 00 00 00 2f fc 00 0f ff 00 00
00 3f f8 00 0b ff 00 00 00 3f f8 00 07 ff 40 00 00 7f f4 00 03 ff 80 00
00 ff f0 00 03 ff c0 00 01 ff e0 00 01 ff f0 00 03 ff d0 00 00 ff fd 00
1f ff c0 00 00 3f ff ea ff ff 00 00 00 1f ff ff ff fd 00 00 00 0b ff ff
ff f4 00 00 00 01 ff ff ff c0 00 00 00 00 2f ff ff d0 00 00 00 00 00 5b
ff f0 00 00 00 00 00 00 bf fc 00 00 00 00 00 00 3f ff 00 00 00 00 00 00
0f ff 40 00 00 00 00 00 03 ff 40 00 00 00 00 00 00 00 00 00 00 00 00 00
00 00 00 00 00 00 00 00 00 00 00 00 00 00 00 00 00 00 00 00 00 00 00 00
00 00 00 00 00 00 00 00 00 00 00 00 00 00 aa aa a5 00 00 00 02 ff ff ff
e0 00 00 02 ff ff ff fc 00 00 02 ff ff ff ff 00 00 02 ff ff ff ff 40 00
02 ff d5 6f ff c0 00 02 ff 80 03 ff c0 00 02 ff 80 01 ff d0 00 02 ff 80
00 ff d0 00 02 ff 80 00 ff d0 00 02 ff 80 00 ff d0 00 02 ff 80 02 ff c0
00 02 ff 80 07 ff c0 00 02 ff ff ff ff 80 00 02 ff ff ff ff 00 00 02 ff
ff ff fc 00 00 02 ff ff ff f8 00 00 02 ff ff ff fd 00 00 02 ff d5 7f ff
00 00 02 ff 80 0b ff 80 00 02 ff 80 03 ff c0 00 02 ff 80 01 ff d0 00 02
ff 80 00 ff f0 00 02 ff 80 00 7f f4 00 02 ff 80 00 3f fc 00 02 ff 80 00
2f fd 00 02 ff 80 00 0f fe 00 02 ff 80 00 0b ff 00 02 ff 80 00 03 ff 80
01 ff 40 00 02 ff 40 00 00 00 00 00 00 00 00 00 00 00 00 00 00 00 00 00
00 00 00 00 00 00 00 00 00 00 00 00 00 00 00 00 00 00 00 00 00 00 00 00
00 00 00 00 00 00 00 00 00 00 00 00 00 00 00 00 00 00 00 00 00 00 00 00
00 00 00 00 00 00 00 00 00 00 00 00 00 01 bf ff 90 00 00 0f ff ff ff 00
00 7f ff ff ff 40 00 ff ff ff ff 40 03 ff ff ff ff 40 03 ff d0 01 bf 40
07 ff 00 00 0b 00 0b fe 00 00 00 00 0b fe 00 00 00 00 0b ff 00 00 00 00
0b ff 40 00 00 00 07 ff f9 00 00 00 03 ff ff f9 00 00 01 ff ff ff d0 00
00 bf ff ff fc 00 00 1f ff ff ff 00 00 01 ff ff ff 80 00 00 06 ff ff c0
00 00 00 0b ff d0 00 00 00 01 ff e0 00 00 00 00 ff e0 00 00 00 00 bf f0
00 00 00 00 ff e0 07 80 00 00 ff e0 0b f8 00 03 ff d0 0b ff ea bf ff c0
0b ff ff ff ff 40 0b ff ff ff fe 00 07 ff ff ff f8 00 00 6f ff ff 80 00
00 00 56 50 00 00 00 00 00 00 00 00 00 00 00 00 00 00 00 00 00 00 00 00
00 00 00 00 00 00 00 00 00 00 00 00 00 00 00 00 00 00 00 00 00 00 00 00
00 00 00 00 00 00 00 00 00 00 00 00 00 00 00 00 00 00 00 00 00 00 00 00
1a aa aa aa aa a9 3f ff ff ff ff ff 3f ff ff ff ff ff 3f ff ff ff ff ff
3f ff ff ff ff ff 15 55 6f fe 55 54 00 00 0f fc 00 00 00 00 0f fc 00 00
00 00 0f fc 00 00 00 00 0f fc 00 00 00 00 0f fc 00 00 00 00 0f fc 00 00
00 00 0f fc 00 00 00 00 0f fc 00 00 00 00 0f fc 00 00 00 00 0f fc 00 00
00 00 0f fc 00 00 00 00 0f fc 00 00 00 00 0f fc 00 00 00 00 0f fc 00 00
00 00 0f fc 00 00 00 00 0f fc 00 00 00 00 0f fc 00 00 00 00 0f fc 00 00
00 00 0f fc 00 00 00 00 0f fc 00 00 00 00 0f fc 00 00 00 00 0f fc 00 00
00 00 0f fc 00 00 00 00 0f fc 00 00 00 00 00 00 00 00 00 00 00 00 00 00
00 00 00 00 00 00 00 00 00 00 00 00 00 00 00 00 00 00 00 00 00 00 00 00
00 00 00 00 00 00 00 00 00 00 00 00 00 00 00 00 00 00 00 00 00 00 00 00
00 00 00 00 00 00 00 00 00 00 00 00 00 00 00 00 00 00 00 01 aa 00 00 02
a9 00 03 ff 40 00 07 ff 00 03 ff 40 00 07 ff 00 03 ff 40 00 07 ff 00 03
ff 40 00 07 ff 00 03 ff 40 00 07 ff 00 03 ff 40 00 07 ff 00 03 ff 40 00
07 ff 00 03 ff 40 00 07 ff 00 03 ff 40 00 07 ff 00 03 ff 40 00 07 ff 00
03 ff 40 00 07 ff 00 03 ff 40 00 07 ff 00 03 ff 40 00 07 ff 00 03 ff 40
00 07 ff 00 03 ff 40 00 07 ff 00 03 ff 40 00 07 ff 00 03 ff 40 00 07 ff
00 03 ff 40 00 07 ff 00 03 ff 40 00 07 ff 00 03 ff 80 00 07 ff 00 03 ff
80 00 0b ff 00 02 ff c0 00 0f fe 00 01 ff d0 00 1f fd 00 00 ff f4 00 3f
fc 00 00 bf ff ab ff f8 00 00 3f ff ff ff f0 00 00 1f ff ff ff d0 00 00
07 ff ff ff 40 00 00 00 bf ff f8 00 00 00 00 01 65 00 00 00 00 00 00 00
00 00 00 00 00 00 00 00 00 00 00 00 00 00 00 00 00 00 00 00 00 00 00 00
00 00 00 00 00 00 00 00 00 00 00 00 00 00 00 00 00 00 00 00 00 00 00 00
00 00 00 00 00 00 00 00 00 00 00 00 00 00 00 00 00 00 00 00 00 00 00 00
00 2a 90 00 00 00 aa 40 bf f0 00 00 02 ff c0 7f f4 00 00 03 ff c0 3f f8
00 00 03 ff 40 2f fc 00 00 0b ff 00 1f fd 00 00 0f fe 00 0f fe 00 00 0f
fd 00 0b ff 00 00 2f fc 00 07 ff 40 00 3f f8 00 03 ff 80 00 3f f4 00 02
ff c0 00 bf f0 00 01 ff d0 00 ff e0 00 00 ff e0 01 ff d0 00 00 bf f0 02
ff c0 00 00 7f f4 03 ff 80 00 00 3f f8 07 ff 40 00 00 2f fc 0b ff 00 00
00 0f fd 0f fe 00 00 00 0f fe 1f fd 00 00 00 0b ff 2f fc 00 00 00 03 ff
7f f8 00 00 00 03 ff ff f4 00 00 00 02 ff ff f0 00 00 00 00 ff ff e0 00
00 00 00 ff ff c0 00 00 00 00 7f ff c0 00 00 00 00 3f ff 80 00 00 00 00
3f ff 00 00 00 00 00 1f ff 00 00 00 00 00 0f fd 00 00 00 00 00 00 00 00
00 00 00 00 00 00 00 00 00 00 00 00 00 00 00 00 00 00 00 00 00 00 00 00
00 00 00 00 00 00 00 00 00 00 00 00 00 00 00 00 00 00 00 00 00 00 00 00
00 00 00 00 00 00 00 00 00 00 00 00 00 00 00 00 00 00 00 00 00 00 00 00
00 00 00 00 00 00 00 00 00 00 00 00 00 00 00 00 00 00 00 00 00 1a a0 00
01 aa 40 00 1a a0 3f f8 00 03 ff c0 00 3f f8 2f fc 00 07 ff c0 00 3f f4
1f fc 00 07 ff d0 00 3f f0 0f fd 00 0b ff e0 00 7f f0 0f fe 00 0f ff f0
00 bf f0 0b fe 00 0f ff f0 00 ff e0 07 ff 00 1f ff f0 00 ff d0 07 ff 00
2f ff f4 01 ff c0 03 ff 40 3f ff f8 02 ff c0 03 ff 80 3f ef fc 03 ff 80
02 ff c0 7f eb fc 03 ff 40 01 ff c0 bf d7 fd 03 ff 00 00 ff d0 bf c3 fe
07 ff 00 00 ff e0 ff c3 ff 0b fe 00 00 bf e0 ff 83 ff 0f fe 00 00 7f f1
ff 42 ff 0f fd 00 00 3f f2 ff 01 ff 5f fc 00 00 3f f7 ff 00 ff af fc 00".
Definition cond40_bits_4 : list Z := atlas
"00 3f fb fe 00 ff ff f8 00 00 2f ff fe 00 bf ff f4 00 00 1f ff fd 00 7f
ff f0 00 00 0f ff fc 00 7f ff f0 00 00 0f ff fc 00 3f ff e0 00 00 0b ff
f8 00 3f ff d0 00 00 07 ff f4 00 2f ff c0 00 00 03 ff f0 00 1f ff c0 00
00 03 ff f0 00 0f ff c0 00 00 02 ff e0 00 0f ff 80 00 00 01 ff d0 00 0b
ff 00 00 00 00 00 00 00 00 00 00 00 00 00 00 00 00 00 00 00 00 00 00 00
00 00 00 00 00 00 00 00 00 00 00 00 00 00 00 00 00 00 00 00 00 00 00 00
00 00 00 00 00 00 00 00 00 00 00 00 00 00 00 00 00 00 00 00 00 00 00 00
00 00 00 00 00 00 00 00 00 00 00 00 00 00 00 00 00 00 00 00 00 00 00 00
00 06 a9 00 00 06 a9 00 0f ff 00 00 0f fe 00 07 ff 80 00 2f fd 00 02 ff
d0 00 7f f8 00 00 ff f0 00 ff f0 00 00 7f f4 02 ff d0 00 00 3f fc 03 ff
c0 00 00 1f fe 0b ff 40 00 00 0b ff 5f fe 00 00 00 03 ff ff fc 00 00 00
01 ff ff f4 00 00 00 00 ff ff f0 00 00 00 00 7f ff c0 00 00 00 00 2f ff
80 00 00 00 00 1f ff 00 00 00 00 00 3f ff 80 00 00 00 00 bf ff c0 00 00
00 00 ff ff e0 00 00 00 03 ff ff f4 00 00 00 07 ff bf fc 00 00 00 0f ff
1f fd 00 00 00 2f fd 0f ff 00 00 00 3f f8 07 ff 80 00 00 ff f0 02 ff d0
00 01 ff e0 00 ff f0 00 03 ff c0 00 bf f4 00 0b ff 40 00 3f fc 00 1f fe
00 00 1f fe 00 3f fc 00 00 0b ff 00 2f f4 00 00 03 ff 00 00 00 00 00 00
00 00 00 00 00 00 00 00 00 00 00 00 00 00 00 00 00 00 00 00 00 00 00 00
00 00 00 00 00 00 00 00 00 00 00 00 00 00 00 00 00 00 00 00 00 00 00 00
00 00 00 00 00 00 00 00 00 00 00 00 00 00 00 00 00 00 00 00 00 00 00 00
2a a0 00 00 02 a9 3f fc 00 00 0f ff 2f fd 00 00 2f fd 0f ff 00 00 3f fc
07 ff 80 00 ff f0 02 ff d0 01 ff e0 00 ff f0 03 ff c0 00 7f f8 0b ff 40
00 3f fc 0f ff 00 00 0f fe 3f fc 00 00 0b ff bf f8 00 00 03 ff ff f0 00
00 01 ff ff d0 00 00 00 ff ff 80 00 00 00 3f ff 00 00 00 00 2f fe 00 00
00 00 0f fc 00 00 00 00 0f fc 00 00 00 00 0f fc 00 00 00 00 0f fc 00 00
00 00 0f fc 00 00 00 00 0f fc 00 00 00 00 0f fc 00 00 00 00 0f fc 00 00
00 00 0f fc 00 00 00 00 0f fc 00 00 00 00 0f fc 00 00 00 00 0f fc 00 00
00 00 0f fc 00 00 00 00 0f fc 00 00 00 00 00 00 00 00 00 00 00 00 00 00
00 00 00 00 00 00 00 00 00 00 00 00 00 00 00 00 00 00 00 00 00 00 00 00
00 00 00 00 00 00 00 00 00 00 00 00 00 00 00 00 00 00 00 00 00 00 00 00
00 00 00 00 00 00 00 00 00 00 00 00 00 00 00 00 00 00 00 06 aa aa aa aa
a8 00 0f ff ff ff ff fd 00 0f ff ff ff ff fe 00 0f ff ff ff ff fe 00 0f
ff ff ff ff fd 00 05 55 55 55 ff fc 00 00 00 00 01 ff f0 00 00 00 00 03
ff d0 00 00 00 00 0f ff 80 00 00 00 00 2f ff 00 00 00 00 00 7f fc 00 00
00 00 00 ff f4 00 00 00 00 03 ff e0 00 00 00 00 0b ff c0 00 00 00 00 1f
ff 00 00 00 00 00 3f fe 00 00 00 00 00 bf fc 00 00 00 00 01 ff f0 00 00
00 00 03 ff d0 00 00 00 00 0f ff 80 00 00 00 00 2f ff 00 00 00 00 00 7f
fc 00 00 00 00 00 ff f4 00 00 00 00 03 ff e0 00 00 00 00 0b ff c0 00 00
00 00 0f ff ff ff ff fe 00 1f ff ff ff ff ff 00 1f ff ff ff ff ff 00 1f
ff ff ff ff ff 00 0f ff ff ff ff fe 00 00 00 00 00 00 00 00 00 00 00 00
00 00 00 00 00 00 00 00 00 00 00 00 00 00 00 00 00 00 00 00 00 00 00 00
00 00 00 00 00 00 00 00 00 00 00 00 00 00 00 00 00 00 00 00 00 00 00 00
02 ff fe 00 03 ff ff 00 03 ff ff 00 03 ff ff 00 03 ff fe 00 03 ff 00 00
03 ff 00 00 03 ff 00 00 03 ff 00 00 03 ff 00 00 03 ff 00 00 03 ff 00 00
03 ff 00 00 03 ff 00 00 03 ff 00 00 03 ff 00 00 03 ff 00 00 03 ff 00 00
03 ff 00 00 03 ff 00 00 03 ff 00 00 03 ff 00 00 03 ff 00 00 03 ff 00 00
03 ff 00 00 03 ff 00 00 03 ff 00 00 03 ff 00 00 03 ff 00 00 03 ff 00 00
03 ff 00 00 03 ff a9 00 03 ff ff 00 03 ff ff 00 03 ff ff 00 03 ff fe 00
00 00 00 00 00 00 00 00 00 00 00 00 00 00 00 00 00 00 00 00 00 00 00 00
00 00 00 00 6a 40 00 00 ff c0 00 00 bf c0 00 00 7f d0 00 00 3f f0 00 00
3f f0 00 00 2f f4 00 00 1f f8 00 00 0f fc 00 00 0f fc 00 00 07 fd 00 00
03 fe 00 00 03 ff 00 00 02 ff 40 00 01 ff 80 00 00 ff c0 00 00 ff c0 00
00 bf d0 00 00 7f e0 00 00 3f f0 00 00 2f f0 00 00 1f f4 00 00 0f fc 00
00 0f fc 00 00 0b fd 00 00 07 fe 00 00 03 ff 00 00 03 ff 00 00 01 ff 40
00 00 ff 80 00 00 ff c0 00 00 bf d0 00 00 7f d0 00 00 1a 40 00 00 00 00
00 00 00 00 00 00 00 00 00 00 00 00 00 00 00 00 00 00 00 00 00 00 00 00
01 ff ff 00 02 ff ff 40 02 ff ff 40 02 ff ff 40 01 ff ff 40 00 02 ff 40
00 02 ff 40 00 02 ff 40 00 02 ff 40 00 02 ff 40 00 02 ff 40 00 02 ff 40
00 02 ff 40 00 02 ff 40 00 02 ff 40 00 02 ff 40 00 02 ff 40 00 02 ff 40
00 02 ff 40 00 02 ff 40 00 02 ff 40 00 02 ff 40 00 02 ff 40 00 02 ff 40
00 02 ff 40 00 02 ff 40 00 02 ff 40 00 02 ff 40 00 02 ff 40 00 02 ff 40
00 02 ff 40 00 ab ff 40 02 ff ff 40 02 ff ff 40 02 ff ff 40 01 ff ff 00
00 00 00 00 00 00 00 00 00 00 00 00 00 00 00 00 00 00 00 00 00 00 00 00
00 00 00 00 00 00 00 00 00 00 00 00 00 00 00 00 00 00 00 00 00 00 00 00
00 00 00 00 00 00 00 00 00 00 00 2a 90 00 00 00 00 00 00 ff f4 00 00 00
00 00 02 ff fd 00 00 00 00 00 0b ff ff 00 00 00 00 00 1f ff ff c0 00 00
00 00 7f ff ff f0 00 00 00 00 ff f8 ff fc 00 00 00 03 ff e0 3f fe 00 00
00 0f ff 80 0f ff 80 00 00 3f fe 00 03 ff d0 00 00 bf f8 00 00 ff f4 00
01 ff e0 00 00 3f fc 00 00 aa 40 00 00 0a a4 00 00 00 00 00 00 00 00 00
00 00 00 00 00 00 00 00 00 00 00 00 00 00 00 00 00 00 00 00 00 00 00 00
00 00 00 00 00 00 00 00 00 00 00 00 00 00 00 00 00 00 00 00 00 00 00 00
00 00 00 00 00 00 00 00 00 00 00 00 00 00 00 00 00 00 00 00 00 00 00 00
00 00 00 00 00 00 00 00 00 00 00 00 00 00 00 00 00 00 00 00 00 00 00 00
00 00 00 00 00 00 00 00 00 00 00 00 00 00 00 00 00 00 00 00 00 00 00 00
00 00 00 00 00 00 00 00 00 00 00 00 00 00 00 00 00 00 00 00 00 00 00 00
00 00 00 00 00 00 00 00 00 00 00 00 00 00 00 00 00 00 00 00 00 00 00 00
00 00 00 00 00 00 00 00 00 00 00 00 00 00 00 00 00 00 00 00 00 00 00 00
00 00 00 00 00 00 00 00 00 00 00 00 00 00 00 00 00 00 00 00 00 00 00 00
00 00 00 00 00 00 00 00 00 00 00 00 00 00 00 00 00 00 00 00 00 00 00 00
00 00 00 00 00 00 00 00 00 00 00 00 00 00 00 00 00 00 00 00 00 00 00 00
00 00 00 00 00 00 00 00 00 00 00 00 00 00 00 00 00 00 00 00 00 00 00 00
00 00 00 00 00 00 00 00 00 00 00 00 00 00 00 00 00 00 00 00 00 00 00 00
00 00 00 00 00 00 00 00 00 00 00 00 00 00 00 00 00 00 00 00 00 00 00 00
00 00 00 00 00 00 00 00 00 00 00 00 00 00 00 00 00 00 00 00 00 00 00 00
00 00 00 00 00 00 00 00 00 00 00 00 00 00 00 00 00 00 00 00 00 00 00 00
00 00 00 00 00 00 00 00 00 00 00 00 00 00 00 00 00 00 00 00 00 00 00 00
00 00 00 00 00 00 2a aa aa aa aa 00 00 00 00 00 00 00 00 00 00 00 00 00
00 00 00 00 00 00 00 00 01 54 00 00 00 03 ff 40 00 00 02 ff c0 00 00 00
ff e0 00 00 00 3f f4 00 00 00 1f fc 00 00 00 0b fe 00 00 00 03 ff 40 00
00 00 ff c0 00 00 00 2a 00 00 00 00 00 00 00 00 00 00 00 00 00 00 00 00
00 00 00 00 00 00 00 00 00 00 00 00 00 00 00 00 00 00 00 00 00 00 00 00
00 00 00 00 00 00 00 00 00 00 00 00 00 00 00 00 00 00 00 00 00 00 00 00
00 00 00 00 00 00 00 00 00 00 00 00 00 00 00 00 00 00 00 00 00 00 00 00
00 00 00 00 00 00 00 00 00 00 00 00 00 00 00 00 00 00 00 00 00 00 00 00
00 00 00 00 00 00 00 00 00 00 00 00 00 00 00 00 00 00 00 00 00 00 00 00
00 00 00 00 00 00 00 00 00 00 00 00 00 00 00 00 00 00 00 00 00 00 00 00
00 00 00 00 00 00 00 00 00 00 00 00 00 00 00 00 00 00 00 00 00 00 00 00
00 00 00 00 00 00 00 00 00 00 00 00 00 00 00 00 00 00 00 00 00 00 00 00
00 00 00 00 00 00 00 00 00 00 00 00 00 00 04 00 00 00 00 1b ff f8 00 00
01 ff ff ff 80 00 02 ff ff ff e0 00 02 ff ff ff f4 00 02 ff ea ff fc 00
01 f4 00 2f fc 00 00 00 00 0b fd 00 00 00 00 07 fe 00 00 06 ff ff ff 00
00 3f ff ff ff 00 00 ff ff ff ff 00 03 ff ff ff ff 00 07 ff fa af ff 00
0b ff 00 07 ff 00 0f fd 00 07 ff 00 0f fc 00 0f ff 00 0f fc 00 0f ff 00
0f fe 00 3f ff 00 0b ff 96 ff ff 00 03 ff ff ff ff 00 02 ff ff ff ff 00
00 ff ff ff ff 00 00 2f ff e3 fe 00 00 01 65 00 00 00 00 00 00 00 00 00
00 00 00 00 00 00 00 00 00 00 00 00 00 00 00 00 00 00 00 00 00 00 00 00
00 00 00 00 00 00 00 00 00 00 00 00 00 00 00 00 00 00 00 00 00 00 00 00
00 00 00 00 00 00 02 fe 00 00 00 00 03 ff 00 00 00 00 03 ff 00 00 00 00
03 ff 00 00 00 00 03 ff 00 00 00 00 03 ff 00 00 00 00 03 ff 00 00 00 00
03 ff 00 00 00 00 03 ff 1f ff 40 00 03 ff ff ff f0 00 03 ff ff ff fc 00
03 ff ff ff fe 00 03 ff fe bf ff 40 03 ff f0 07 ff 80 03 ff d0 01 ff c0
03 ff c0 00 ff d0 03 ff 80 00 bf e0 03 ff 40 00 bf e0 03 ff 40 00 7f f0
03 ff 00 00 7f f0 03 ff 00 00 7f f0 03 ff 40 00 7f e0 03 ff 40 00 bf e0
03 ff 80 00 ff d0 03 ff c0 01 ff c0 03 ff f0 03 ff c0 03 ff fd 5f ff 40
03 ff ff ff ff 00 03 ff ff ff fc 00 03 ff ff ff f4 00 02 ff 2f ff 80 00
00 00 01 54 00 00 00 00 00 00 00 00 00 00 00 00 00 00 00 00 00 00 00 00
00 00 00 00 00 00 00 00 00 00 00 00 00 00 00 00 00 00 00 00 00 00 00 00
00 00 00 00 00 00 00 00 00 00 00 00 00 00 00 00 00 00 00 00 00 00 00 00
00 00 00 00 00 00 00 00 00 00 00 00 00 00 00 00 00 00 00 00 00 00 00 00
00 00 00 00 00 00 00 00 00 00 00 00 00 00 00 40 00 00 00 00 bf ff 80 00
00 0b ff ff f4 00 00 3f ff ff f8 00 00 bf ff ff f8 00 01 ff fe af f8 00
03 ff d0 00 b8 00 07 ff 40 00 00 00 0b ff 00 00 00 00 0f fe 00 00 00 00
0f fd 00 00 00 00 0f fc 00 00 00 00 0f fc 00 00 00 00 0f fc 00 00 00 00
0f fd 00 00 00 00 0f fd 00 00 00 00 0b ff 00 00 00 00 07 ff 40 00 00 00
03 ff c0 00 74 00 02 ff f9 5b f8 00 00 ff ff ff f8 00 00 3f ff ff f8 00
00 0f ff ff f8 00 00 01 ff ff d0 00 00 00 05 94 00 00 00 00 00 00 00 00
00 00 00 00 00 00 00 00 00 00 00 00 00 00 00 00 00 00 00 00 00 00 00 00
00 00 00 00 00 00 00 00 00 00 00 00 00 00 00 00 00 00 00 00 00 00 00 00
00 00 00 00 00 00 00 00 00 00 ff 40 00 00 00 01 ff 80 00 00 00 01 ff 80
00 00 00 01 ff 80 00 00 00 01 ff 80 00 00 00 01 ff 80 00 00 00 01 ff 80
00 00 04 01 ff 80 00 02 ff e5 ff 80 00 1f ff ff ff 80 00 7f ff ff ff 80
00 ff ff ff ff 80 02 ff fa ff ff 80 03 ff c0 1f ff 80 07 ff 00 0b ff 80
0b fe 00 03 ff 80 0f fd 00 03 ff 80 0f fc 00 02 ff 80 0f fc 00 02 ff 80
0f fc 00 01 ff 80 0f fc 00 02 ff 80 0f fc 00 02 ff 80 0f fd 00 03 ff 80
0b fe 00 03 ff 80 07 ff 00 07 ff 80 03 ff 80 0f ff 80 02 ff f5 bf ff 80
00 ff ff ff ff 80 00 7f ff ff ff 80 00 2f ff ff ff 80 00 07 ff f9 ff 40
00 00 19 40 00 00 00 00 00 00 00 00 00 00 00 00 00 00 00 00 00 00 00 00
00 00 00 00 00 00 00 00 00 00 00 00 00 00 00 00 00 00 00 00 00 00 00 00
00 00 00 00 00 00 00 00 00 00 00 00 00 00 00 00 00 00 00 00 00 00 00 00
00 00 00 00 00 00 00 00 00 00 00 00 00 00 00 00 00 00 00 00 00 00 00 00
00 00 00 00 00 00 00 00 00 00 00 00 00 00 00 00 00 00 00 00 bf fe 00 00
00 0b ff ff d0 00 00 3f ff ff f4 00 00 bf ff ff fd 00 01 ff fe bf ff 00
03 ff d0 07 ff 40 07 ff 40 02 ff 80 0b fe 00 00 ff c0 0f fe 00 01 ff c0
0f ff ff ff ff c0 0f ff ff ff ff c0 0f ff ff ff ff c0 0f ff ff ff ff c0
0f fe 55 55 55 40 0f fd 00 00 00 00 0b fe 00 00 00 00 07 ff 40 00 00 00
03 ff d0 00 1f 40 02 ff f9 5a ff 80 00 ff ff ff ff 80 00 3f ff ff ff 40
00 0f ff ff ff 00 00 01 ff ff f4 00 00 00 05 94 00 00 00 00 00 00 00 00
00 00 00 00 00 00 00 00 00 00 00 00 00 00 00 00 00 00 00 00 00 00 00 00
00 00 00 00 00 00 00 00 00 00 00 00 00 00 00 00 00 00 00 01 bf f4 00 0f".
Definition cond40_bits_5 : list Z := atlas
"ff f8 00 3f ff f8 00 7f ff f8 00 ff ff f4 00 ff c0 00 00 ff c0 00 01 ff
c0 00 2f ff ff d0 3f ff ff f0 3f ff ff f0 3f ff ff f0 2f ff ff d0 01 ff
c0 00 01 ff c0 00 01 ff c0 00 01 ff c0 00 01 ff c0 00 01 ff c0 00 01 ff
c0 00 01 ff c0 00 01 ff c0 00 01 ff c0 00 01 ff c0 00 01 ff c0 00 01 ff
c0 00 01 ff c0 00 01 ff c0 00 01 ff c0 00 01 ff c0 00 00 ff 80 00 00 00
00 00 00 00 00 00 00 00 00 00 00 00 00 00 00 00 00 00 00 00 00 00 00 00
00 00 00 00 00 00 00 00 00 00 00 00 00 00 00 00 00 00 00 00 00 00 00 00
00 00 00 00 00 00 00 00 00 00 00 00 00 00 00 00 00 00 00 00 00 00 00 00
00 00 00 00 00 00 00 00 00 00 00 00 00 00 00 00 00 00 00 00 00 00 00 00
00 00 04 00 00 00 00 02 ff e4 be 00 00 1f ff ff ff 80 00 7f ff ff ff 80
00 ff ff ff ff 80 02 ff fa ff ff 80 03 ff c0 1f ff 80 07 ff 00 0b ff 80
0b fe 00 03 ff 80 0f fd 00 03 ff 80 0f fc 00 02 ff 80 0f fc 00 02 ff 80
0f fc 00 01 ff 80 0f fc 00 02 ff 80 0f fc 00 02 ff 80 0f fd 00 03 ff 80
0b fe 00 03 ff 80 07 ff 40 0b ff 80 03 ff d0 2f ff 80 02 ff ff ff ff 80
00 ff ff ff ff 80 00 3f ff ff ff 80 00 0f ff ff ff 40 00 01 bf d2 ff 40
00 00 00 03 ff 00 00 10 00 0b ff 00 00 fd 00 2f fe 00 00 ff ff ff fc 00
00 ff ff ff f8 00 00 00 00 00 00 00 00 00 00 00 00 00 00 00 00 00 00 00
00 00 00 00 00 00 00 00 00 00 00 00 00 00 00 00 00 00 02 fe 00 00 00 00
03 ff 00 00 00 00 03 ff 00 00 00 00 03 ff 00 00 00 00 03 ff 00 00 00 00
03 ff 00 00 00 00 03 ff 00 00 00 00 03 ff 00 10 00 00 03 ff 1f ff 80 00
03 ff ff ff f0 00 03 ff ff ff fc 00 03 ff ff ff fe 00 03 ff ff bf ff 00
03 ff f0 07 ff 40 03 ff c0 03 ff 80 03 ff 80 01 ff 80 03 ff 40 01 ff 80
03 ff 00 01 ff c0 03 ff 00 01 ff c0 03 ff 00 01 ff c0 03 ff 00 01 ff c0
03 ff 00 01 ff c0 03 ff 00 01 ff c0 03 ff 00 01 ff c0 03 ff 00 01 ff c0
03 ff 00 01 ff c0 03 ff 00 01 ff c0 03 ff 00 01 ff c0 03 ff 00 01 ff c0
03 ff 00 01 ff c0 02 ff 00 00 ff 40 00 00 00 00 00 00 00 00 00 00 00 00
00 00 00 00 00 00 00 00 00 00 00 00 00 00 00 00 00 00 00 00 00 00 00 00
00 00 00 00 00 00 00 00 00 00 00 00 01 ff 00 03 ff 40 03 ff 40 03 ff 40
03 ff 40 02 ff 00 00 55 00 00 00 00 01 fe 00 03 ff 40 03 ff 40 03 ff 40
03 ff 40 03 ff 40 03 ff 40 03 ff 40 03 ff 40 03 ff 40 03 ff 40 03 ff 40
03 ff 40 03 ff 40 03 ff 40 03 ff 40 03 ff 40 03 ff 40 03 ff 40 03 ff 40
03 ff 40 03 ff 40 01 ff 00 00 00 00 00 00 00 00 00 00 00 00 00 00 00 00
00 00 00 00 00 00 00 00 00 00 00 00 00 00 00 00 00 00 00 00 00 00 00 00
00 7f c0 00 00 bf d0 00 00 ff d0 00 00 ff d0 00 00 ff d0 00 00 bf c0 00
00 15 40 00 00 00 00 00 00 7f 80 00 00 bf d0 00 00 ff d0 00 00 ff d0 00
00 ff d0 00 00 ff d0 00 00 ff d0 00 00 ff d0 00 00 ff d0 00 00 ff d0 00
00 ff d0 00 00 ff d0 00 00 ff d0 00 00 ff d0 00 00 ff d0 00 00 ff d0 00
00 ff d0 00 00 ff d0 00 00 ff d0 00 00 ff d0 00 00 ff d0 00 00 ff d0 00
00 ff d0 00 00 ff d0 00 00 ff c0 00 01 ff c0 00 7f ff c0 00 bf ff 40 00
00 00 00 00 00 00 00 00 00 00 00 00 00 00 00 00 00 00 00 00 00 00 00 00
00 00 00 00 00 00 00 00 00 00 00 00 02 fe 00 00 00 00 03 ff 00 00 00 00
03 ff 00 00 00 00 03 ff 00 00 00 00 03 ff 00 00 00 00 03 ff 00 00 00 00
03 ff 00 00 00 00 03 ff 00 00 00 00 03 ff 00 01 ff 80 03 ff 00 07 ff c0
03 ff 00 1f ff 40 03 ff 00 7f fd 00 03 ff 01 ff f4 00 03 ff 07 ff d0 00
03 ff 1f ff 40 00 03 ff bf fd 00 00 03 ff ff f4 00 00 03 ff ff d0 00 00
03 ff ff 40 00 00 03 ff ff 40 00 00 03 ff ff c0 00 00 03 ff ff f0 00 00
03 ff ff fc 00 00 03 ff 2f ff 00 00 03 ff 0f ff c0 00 03 ff 03 ff f0 00
03 ff 00 ff fc 00 03 ff 00 3f fe 00 03 ff 00 0f ff 80 03 ff 00 03 ff d0
02 ff 00 00 ff d0 00 00 00 00 00 00 00 00 00 00 00 00 00 00 00 00 00 00
00 00 00 00 00 00 00 00 00 00 00 00 00 00 00 00 00 00 00 00 00 00 00 00
00 00 00 00 00 00 01 ff 00 03 ff 40 03 ff 40 03 ff 40 03 ff 40 03 ff 40
03 ff 40 03 ff 40 03 ff 40 03 ff 40 03 ff 40 03 ff 40 03 ff 40 03 ff 40
03 ff 40 03 ff 40 03 ff 40 03 ff 40 03 ff 40 03 ff 40 03 ff 40 03 ff 40
03 ff 40 03 ff 40 03 ff 40 03 ff 40 03 ff 40 03 ff 40 03 ff 40 03 ff 40
01 ff 00 00 00 00 00 00 00 00 00 00 00 00 00 00 00 00 00 00 00 00 00 00
00 00 00 00 00 00 00 00 00 00 00 00 00 00 00 00 00 00 00 00 00 00 00 00
00 00 00 00 00 00 00 00 00 00 00 00 00 00 00 00 00 00 00 00 00 00 00 00
00 00 00 00 00 00 00 00 00 00 00 00 00 00 00 00 00 00 00 00 00 00 00 00
00 00 00 00 00 00 00 00 00 00 00 00 00 00 00 00 00 00 00 00 00 00 00 00
00 00 00 00 00 00 00 00 00 00 00 00 00 00 00 00 00 00 10 00 00 10 00 00
01 fe 1f ff 40 1f ff 40 00 03 ff ff ff e0 bf ff f0 00 03 ff ff ff fa ff
ff f8 00 03 ff ff ff ff ff ff fc 00 03 ff ff bf ff ff bf fe 00 03 ff f0
0f ff f0 0b ff 00 03 ff c0 03 ff c0 03 ff 00 03 ff 80 03 ff 80 03 ff 40
03 ff 40 03 ff 40 02 ff 40 03 ff 00 03 ff 40 02 ff 40 03 ff 00 03 ff 40
02 ff 40 03 ff 00 03 ff 40 02 ff 40 03 ff 00 03 ff 40 02 ff 40 03 ff 00
03 ff 40 02 ff 40 03 ff 00 03 ff 40 02 ff 40 03 ff 00 03 ff 40 02 ff 40
03 ff 00 03 ff 40 02 ff 40 03 ff 00 03 ff 40 02 ff 40 03 ff 00 03 ff 40
02 ff 40 03 ff 00 03 ff 40 02 ff 40 03 ff 00 03 ff 40 02 ff 40 03 ff 00
03 ff 40 02 ff 40 02 ff 00 01 ff 00 01 ff 00 00 00 00 00 00 00 00 00 00
00 00 00 00 00 00 00 00 00 00 00 00 00 00 00 00 00 00 00 00 00 00 00 00
00 00 00 00 00 00 00 00 00 00 00 00 00 00 00 00 00 00 00 00 00 00 00 00
00 00 00 00 00 00 00 00 00 00 00 00 00 00 00 00 00 00 00 00 00 00 00 00
00 00 00 00 00 00 00 00 00 00 00 00 00 00 00 00 00 00 00 00 00 00 00 00
00 00 00 00 00 00 00 00 00 00 00 00 00 00 00 00 00 00 00 00 00 10 00 00
01 fe 1f ff 80 00 03 ff ff ff f0 00 03 ff ff ff fc 00 03 ff ff ff fe 00
03 ff ff bf ff 00 03 ff f0 07 ff 40 03 ff c0 03 ff 80 03 ff 80 01 ff 80
03 ff 40 01 ff 80 03 ff 00 01 ff c0 03 ff 00 01 ff c0 03 ff 00 01 ff c0
03 ff 00 01 ff c0 03 ff 00 01 ff c0 03 ff 00 01 ff c0 03 ff 00 01 ff c0
03 ff 00 01 ff c0 03 ff 00 01 ff c0 03 ff 00 01 ff c0 03 ff 00 01 ff c0
03 ff 00 01 ff c0 03 ff 00 01 ff c0 02 ff 00 00 ff 40 00 00 00 00 00 00
00 00 00 00 00 00 00 00 00 00 00 00 00 00 00 00 00 00 00 00 00 00 00 00
00 00 00 00 00 00 00 00 00 00 00 00 00 00 00 00 00 00 00 00 00 00 00 00
00 00 00 00 00 00 00 00 00 00 00 00 00 00 00 00 00 00 00 00 00 00 00 00
00 00 00 00 00 00 00 00 00 00 00 00 00 00 00 00 00 00 00 00 00 00 00 00
00 00 00 00 00 00 00 00 01 00 00 00 00 01 ff fd 00 00 00 0f ff ff c0 00
00 3f ff ff f0 00 00 ff ff ff fc 00 02 ff fe ff fd 00 03 ff c0 1f ff 00
07 ff 40 07 ff 40 0b ff 00 03 ff 80 0f fd 00 02 ff c0 0f fd 00 01 ff c0
0f fc 00 01 ff c0 0f fc 00 00 ff c0 0f fc 00 00 ff c0 0f fc 00 01 ff c0
0f fd 00 02 ff c0 0b fe 00 03 ff 80 07 ff 00 03 ff 40 03 ff c0 0f ff 00
02 ff f9 bf fe 00 00 ff ff ff fc 00 00 7f ff ff f4 00 00 1f ff ff d0 00
00 02 ff fe 00 00 00 00 16 50 00 00 00 00 00 00 00 00 00 00 00 00 00 00
00 00 00 00 00 00 00 00 00 00 00 00 00 00 00 00 00 00 00 00 00 00 00 00
00 00 00 00 00 00 00 00 00 00 00 00 00 00 00 00 00 00 00 00 00 00 00 00
00 00 00 00 00 00 00 00 00 00 00 00 00 00 00 00 00 00 00 00 00 00 00 00
00 00 00 00 00 00 00 00 00 00 00 00 00 00 00 00 00 00 00 00 00 00 00 00
01 fe 1f ff 40 00 03 ff ff ff f0 00 03 ff ff ff fc 00 03 ff ff ff fe 00
03 ff fe bf ff 40 03 ff f0 07 ff 80 03 ff d0 01 ff c0 03 ff c0 00 ff d0
03 ff 80 00 bf e0 03 ff 40 00 bf e0 03 ff 40 00 7f f0 03 ff 00 00 7f f0
03 ff 00 00 7f f0 03 ff 40 00 7f e0 03 ff 40 00 bf e0 03 ff 80 00 ff d0
03 ff c0 01 ff c0 03 ff f0 03 ff c0 03 ff fd 5f ff 40 03 ff ff ff ff 00
03 ff ff ff fc 00 03 ff ff ff f4 00 03 ff 6f ff 80 00 03 ff 01 54 00 00
03 ff 00 00 00 00 03 ff 00 00 00 00 03 ff 00 00 00 00 03 ff 00 00 00 00
00 00 00 00 00 00 00 00 00 00 00 00 00 00 00 00 00 00 00 00 00 00 00 00
00 00 00 00 00 00 00 00 00 00 00 00 00 00 00 00 00 00 00 00 00 00 00 00
00 00 00 00 00 00 00 00 00 00 00 00 00 00 00 00 00 00 00 00 00 00 00 00
00 00 00 00 00 00 00 00 04 00 00 00 00 02 ff e4 be 00 00 1f ff ff ff 80
00 7f ff ff ff 80 00 ff ff ff ff 80 02 ff fa ff ff 80 03 ff c0 1f ff 80
07 ff 00 0b ff 80 0b fe 00 03 ff 80 0f fd 00 03 ff 80 0f fc 00 02 ff 80
0f fc 00 02 ff 80 0f fc 00 01 ff 80 0f fc 00 02 ff 80 0f fc 00 02 ff 80
0f fd 00 03 ff 80 0b fe 00 03 ff 80 07 ff 00 07 ff 80 03 ff 80 0f ff 80
02 ff f5 bf ff 80 00 ff ff ff ff 80 00 7f ff ff ff 80 00 2f ff ff ff 80
00 07 ff f9 ff 80 00 00 19 41 ff 80 00 00 00 01 ff 80 00 00 00 01 ff 80
00 00 00 01 ff 80 00 00 00 01 ff 80 00 00 00 00 00 00 00 00 00 00 00 00
00 00 00 00 00 00 00 00 00 00 00 00 00 00 00 00 00 00 00 00 00 00 00 00
00 00 00 00 00 00 00 00 00 00 00 00 00 00 00 00 00 00 00 00 00 00 00 00
00 00 00 00 00 00 00 00 10 00 01 fe 1f ff 00 03 ff ff ff 00 03 ff ff ff
00 03 ff ff ff 00 03 ff ff ff 00 03 ff f4 00 00 03 ff d0 00 00 03 ff c0
00 00 03 ff 40 00 00 03 ff 40 00 00 03 ff 00 00 00 03 ff 00 00 00 03 ff
00 00 00 03 ff 00 00 00 03 ff 00 00 00 03 ff 00 00 00 03 ff 00 00 00 03
ff 00 00 00 03 ff 00 00 00 03 ff 00 00 00 03 ff 00 00 00 03 ff 00 00 00
02 ff 00 00 00 00 00 00 00 00 00 00 00 00 00 00 00 00 00 00 00 00 00 00
00 00 00 00 00 00 00 00 00 00 00 00 00 00 00 00 00 00 00 00 00 00 00 00
00 00 00 00 00 00 00 00 00 00 00 00 00 00 00 00 00 00 00 00 00 00 00 00
00 00 00 00 00 00 00 00 00 00 00 00 00 00 00 00 00 00 00 00 00 00 00 00
00 04 00 00 00 1b ff fd 00 00 bf ff ff c0 02 ff ff ff c0 07 ff ff ff c0
0b ff ea ff c0 0f fd 00 07 c0 0f fc 00 00 00 0f fc 00 00 00 0f ff 90 00
00 0b ff ff 80 00 03 ff ff f8 00 01 ff ff ff 40 00 2f ff ff c0 00 01 ff
ff e0 00 00 06 ff f0 00 00 00 7f f0 00 00 00 3f f0 0f 80 00 7f f0 0f fe
56 ff f0 0f ff ff ff d0 0f ff ff ff 80 0f ff ff fe 00 01 ff ff f4 00 00
05 65 00 00 00 00 00 00 00 00 00 00 00 00 00 00 00 00 00 00 00 00 00 00
00 00 00 00 00 00 00 00 00 00 00 00 00 00 00 00 00 00 00 00 00 00 00 00
00 00 00 00 00 00 00 00 01 aa 00 00 03 ff 00 00 03 ff 40 00 03 ff 40 00
03 ff 40 00 03 ff 40 00 2f ff ff e0 3f ff ff f8 3f ff ff f8 3f ff ff f8
2f ff ff f4 03 ff 40 00 03 ff 40 00 03 ff 40 00 03 ff 40 00 03 ff 40 00
03 ff 40 00 03 ff 40 00 03 ff 40 00 03 ff 40 00 03 ff 40 00 03 ff 40 00
03 ff 40 00 02 ff 80 00 01 ff ff f4 00 ff ff f8 00 bf ff f8 00 3f ff f8
00 06 ff f4 00 00 00 00 00 00 00 00 00 00 00 00 00 00 00 00 00 00 00 00
00 00 00 00 00 00 00 00 00 00 00 00 00 00 00 00 00 00 00 00 00 00 00 00
00 00 00 00 00 00 00 00 00 00 00 00 00 00 00 00 00 00 00 00 00 00 00 00
00 00 00 00 00 00 00 00 00 00 00 00 00 00 00 00 00 00 00 00 00 00 00 00
00 00 00 00 00 00 00 00 00 00 00 00 02 fd 00 00 be 00 03 ff 00 01 ff 80
03 ff 00 02 ff 80 03 ff 00 02 ff 80 03 ff 00 02 ff 80 03 ff 00 02 ff 80
03 ff 00 02 ff 80 03 ff 00 02 ff 80 03 ff 00 02 ff 80 03 ff 00 02 ff 80
03 ff 00 02 ff 80 03 ff 00 02 ff 80 03 ff 00 02 ff 80 03 ff 00 02 ff 80
03 ff 00 02 ff 80 03 ff 00 03 ff 80 03 ff 40 07 ff 80 02 ff c0 0f ff 80
01 ff f9 bf ff 80 00 ff ff ff ff 80 00 7f ff ff ff 80 00 2f ff ff ff 80
00 07 ff f5 ff 40 00 00 59 40 00 00 00 00 00 00 00 00 00 00 00 00 00 00
00 00 00 00 00 00 00 00 00 00 00 00 00 00 00 00 00 00 00 00 00 00 00 00
00 00 00 00 00 00 00 00 00 00 00 00 00 00 00 00 00 00 00 00 00 00 00 00".
Definition cond40_bits_6 : list Z := atlas
"00 00 00 00 00 00 00 00 00 00 00 00 00 00 00 00 00 00 00 00 00 00 00 00
00 00 00 00 00 00 00 00 00 00 00 00 00 00 00 00 00 00 00 00 00 00 00 00
1f e0 00 00 bf 80 3f f4 00 00 ff c0 2f fc 00 02 ff c0 1f fc 00 03 ff 80
0f fd 00 03 ff 00 0b ff 00 0b ff 00 07 ff 00 0f fd 00 03 ff 40 0f fc 00
02 ff c0 2f fc 00 01 ff c0 3f f4 00 00 ff d0 3f f0 00 00 bf f0 bf f0 00
00 3f f0 ff d0 00 00 3f f4 ff c0 00 00 2f fe ff c0 00 00 0f ff ff 40 00
00 0f ff ff 00 00 00 0b ff ff 00 00 00 03 ff fd 00 00 00 03 ff fc 00 00
00 02 ff fc 00 00 00 00 ff f4 00 00 00 00 bf f0 00 00 00 00 00 00 00 00
00 00 00 00 00 00 00 00 00 00 00 00 00 00 00 00 00 00 00 00 00 00 00 00
00 00 00 00 00 00 00 00 00 00 00 00 00 00 00 00 00 00 00 00 00 00 00 00
00 00 00 00 00 00 00 00 00 00 00 00 00 00 00 00 00 00 00 00 00 00 00 00
00 00 00 00 00 00 00 00 00 00 00 00 00 00 00 00 00 00 00 00 00 00 00 00
00 00 00 00 00 00 00 00 00 00 00 00 00 00 00 00 00 00 00 00 00 00 00 00
00 00 00 00 00 00 00 00 00 00 00 00 00 00 00 00 0b e0 00 7f d0 00 be 00
1f f8 00 ff f0 02 ff 40 1f fc 00 ff f0 03 ff 40 0f fc 01 ff f4 03 ff 00
0f fd 02 ff f8 07 ff 00 0b fe 03 ff fc 0b fe 00 07 ff 03 ff fc 0f fd 00
03 ff 07 ff fd 0f fc 00 03 ff 4b ff fe 1f fc 00 02 ff 4f ff ff 2f f8 00
01 ff 8f fa ff 3f f4 00 00 ff df f5 ff 7f f0 00 00 ff ef f1 ff bf f0 00
00 bf ff f0 ff ff e0 00 00 7f ff f0 ff ff d0 00 00 3f ff e0 bf ff c0 00
00 3f ff d0 7f ff c0 00 00 3f ff c0 3f ff 80 00 00 2f ff c0 3f ff 40 00
00 1f ff 80 2f ff 40 00 00 0f ff 40 1f ff 00 00 00 0f ff 00 0f ff 00 00
00 07 fe 00 0b fd 00 00 00 00 00 00 00 00 00 00 00 00 00 00 00 00 00 00
00 00 00 00 00 00 00 00 00 00 00 00 00 00 00 00 00 00 00 00 00 00 00 00
00 00 00 00 00 00 00 00 00 00 00 00 00 00 00 00 00 00 00 00 00 00 00 00
00 00 00 00 00 00 00 00 00 00 00 00 00 00 00 00 00 00 00 00 00 00 00 00
00 00 00 00 00 00 00 00 00 00 00 00 00 00 00 00 00 00 00 00 00 00 00 00
00 00 00 00 00 00 00 00 00 00 00 00 0b f8 00 01 ff 40 1f fe 00 07 ff 80
0b ff 40 0f ff 00 03 ff c0 2f fd 00 01 ff e0 7f fc 00 00 bf f4 ff f0 00
00 3f fe ff d0 00 00 1f ff ff c0 00 00 0b ff ff 00 00 00 03 ff fd 00 00
00 01 ff fc 00 00 00 00 ff f4 00 00 00 03 ff fc 00 00 00 0b ff fe 00 00
00 0f ff ff 40 00 00 3f ff ff c0 00 00 bf f5 ff e0 00 00 ff f0 bf f4 00
03 ff c0 3f fc 00 0b ff 40 1f fe 00 0f ff 00 0b ff 40 3f fc 00 03 ff c0
3f f4 00 01 ff c0 00 00 00 00 00 00 00 00 00 00 00 00 00 00 00 00 00 00
00 00 00 00 00 00 00 00 00 00 00 00 00 00 00 00 00 00 00 00 00 00 00 00
00 00 00 00 00 00 00 00 00 00 00 00 00 00 00 00 00 00 00 00 00 00 00 00
00 00 00 00 00 00 00 00 00 00 00 00 00 00 00 00 00 00 00 00 00 00 00 00
00 00 00 00 00 00 00 00 00 00 00 00 00 00 00 00 00 00 00 00 00 00 00 00
1f e0 00 00 bf 80 3f f4 00 00 ff c0 2f fc 00 02 ff c0 0f fc 00 03 ff 40
0f fe 00 07 ff 00 07 ff 00 0b fe 00 03 ff 00 0f fd 00 02 ff 80 1f fc 00
01 ff c0 2f f8 00 00 ff d0 3f f4 00 00 bf e0 7f f0 00 00 3f f0 ff e0 00
00 3f f4 ff c0 00 00 1f fa ff c0 00 00 0f ff ff 40 00 00 0f ff ff 00 00
00 07 ff ff 00 00 00 03 ff fd 00 00 00 02 ff fc 00 00 00 01 ff f8 00 00
00 00 ff f4 00 00 00 00 bf f0 00 00 00 00 ff e0 00 00 00 00 ff c0 00 00
00 02 ff c0 00 00 00 03 ff 40 00 00 03 ff ff 00 00 00 07 ff fe 00 00 00
00 00 00 00 00 00 00 00 00 00 00 00 00 00 00 00 00 00 00 00 00 00 00 00
00 00 00 00 00 00 00 00 00 00 00 00 00 00 00 00 00 00 00 00 00 00 00 00
00 00 00 00 00 00 00 00 00 00 00 00 00 00 00 00 00 00 00 00 00 00 0b ff
ff ff e0 0f ff ff ff f4 0f ff ff ff f4 0f ff ff ff f4 0f ff ff ff f4 00
00 01 ff f0 00 00 03 ff c0 00 00 0f ff 40 00 00 2f fe 00 00 00 bf f8 00
00 01 ff f0 00 00 03 ff c0 00 00 0f ff 40 00 00 2f fe 00 00 00 7f fc 00
00 00 ff f0 00 00 03 ff d0 00 00 0b ff 80 00 00 1f ff ea aa a0 2f ff ff
ff f4 2f ff ff ff f4 2f ff ff ff f4 1f ff ff ff f0 00 00 00 00 00 00 00
00 00 00 00 00 00 00 00 00 00 00 00 00 00 00 00 00 00 00 00 00 00 00 00
00 00 00 00 00 00 00 00 00 00 00 00 00 00 00 00 00 00 00 00 00 00 00 00
00 00 00 00 00 00 00 00 00 1b fc 00 00 00 01 ff fd 00 00 00 07 ff fd 00
00 00 0f ff fd 00 00 00 0f ff f8 00 00 00 1f fc 00 00 00 00 1f f8 00 00
00 00 2f f8 00 00 00 00 2f f8 00 00 00 00 2f f8 00 00 00 00 2f f8 00 00
00 00 2f f8 00 00 00 00 2f f8 00 00 00 00 2f f8 00 00 00 00 2f f4 00 00
00 00 3f f4 00 00 00 2b ff f0 00 00 00 bf ff e0 00 00 00 bf ff c0 00 00
00 bf ff d0 00 00 00 7f ff f0 00 00 00 00 bf f0 00 00 00 00 3f f4 00 00
00 00 2f f8 00 00 00 00 2f f8 00 00 00 00 2f f8 00 00 00 00 2f f8 00 00
00 00 2f f8 00 00 00 00 2f f8 00 00 00 00 2f f8 00 00 00 00 1f f8 00 00
00 00 1f fc 00 00 00 00 0f fe 94 00 00 00 0f ff fd 00 00 00 0b ff fd 00
00 00 02 ff fd 00 00 00 00 00 00 00 00 00 00 00 00 00 00 00 00 00 00 00
00 00 00 00 00 00 00 7f c0 00 00 bf c0 00 00 bf c0 00 00 bf c0 00 00 bf
c0 00 00 bf c0 00 00 bf c0 00 00 bf c0 00 00 bf c0 00 00 bf c0 00 00 bf
c0 00 00 bf c0 00 00 bf c0 00 00 bf c0 00 00 bf c0 00 00 bf c0 00 00 bf
c0 00 00 bf c0 00 00 bf c0 00 00 bf c0 00 00 bf c0 00 00 bf c0 00 00 bf
c0 00 00 bf c0 00 00 bf c0 00 00 bf c0 00 00 bf c0 00 00 bf c0 00 00 bf
c0 00 00 bf c0 00 00 bf c0 00 00 bf c0 00 00 bf c0 00 00 bf c0 00 00 bf
c0 00 00 bf c0 00 00 00 00 00 00 00 00 00 00 00 00 00 00 00 00 00 00 00
00 00 00 00 00 00 00 00 00 00 00 00 00 00 00 00 00 00 00 7f a4 00 00 00
00 bf ff 00 00 00 00 bf ff c0 00 00 00 bf ff e0 00 00 00 7f ff f0 00 00
00 00 3f f0 00 00 00 00 3f f0 00 00 00 00 3f f4 00 00 00 00 3f f4 00 00
00 00 3f f4 00 00 00 00 3f f4 00 00 00 00 3f f4 00 00 00 00 3f f4 00 00
00 00 3f f4 00 00 00 00 2f f4 00 00 00 00 2f fc 00 00 00 00 1f ff e8 00
00 00 0f ff fd 00 00 00 03 ff fd 00 00 00 0b ff fd 00 00 00 0f ff fc 00
00 00 1f fd 00 00 00 00 2f f8 00 00 00 00 3f f4 00 00 00 00 3f f4 00 00
00 00 3f f4 00 00 00 00 3f f4 00 00 00 00 3f f4 00 00 00 00 3f f4 00 00
00 00 3f f4 00 00 00 00 3f f0 00 00 00 00 3f f0 00 00 00 16 ff f0 00 00
00 bf ff e0 00 00 00 bf ff d0 00 00 00 bf ff 80 00 00 00 00 00 00 00 00
00 00 00 00 00 00 00 00 00 00 00 00 00 00 00 00 00 00 00 00 00 00 00 00
00 00 00 00 00 00 00 00 00 00 00 00 00 00 00 00 00 00 00 00 00 00 00 00
00 00 00 00 00 00 00 00 00 00 00 00 00 00 00 00 00 00 00 00 00 00 00 00
00 00 00 00 00 00 00 00 00 00 00 00 00 00 00 00 00 00 00 00 00 00 00 00
00 00 00 00 00 00 00 00 00 00 00 00 00 00 00 00 00 00 00 00 00 00 00 00
00 00 00 00 00 00 00 00 00 00 00 00 00 00 00 00 00 00 00 00 00 00 00 00
00 00 00 00 00 00 00 00 00 00 00 00 6a 90 00 00 3c 00 00 07 ff fe 00 01
fc 00 00 3f ff ff f4 1f fc 00 00 ff ff ff ff ff fc 00 01 ff ff ff ff ff
fc 00 01 ff e5 bf ff ff f0 00 01 fd 00 07 ff ff 40 00 01 f0 00 00 6f e4
00 00 00 40 00 00 00 00 00 00 00 00 00 00 00 00 00 00 00 00 00 00 00 00
00 00 00 00 00 00 00 00 00 00 00 00 00 00 00 00 00 00 00 00 00 00 00 00
00 00 00 00 00 00 00 00 00 00 00 00 00 00 00 00 00 00 00 00 00 00 00 00
00 00 00 00 00 00 00 00 00 00 00 00 00 00 00 00 00 00 00 00 00 00 00 00
00 00 00 00 00 00 00 00 00 00 00 00 00 00 00 00 00 00".
Definition cond40_bits : list Z := cond40_bits_0 ++ cond40_bits_1 ++ cond40_bits_2 ++ cond40_bits_3 ++ cond40_bits_4 ++ cond40_bits_5 ++ cond40_bits_6.
Definition cond40_glyphs : list glyph_t :=
  [
   Glyph 13 12 (-1) 0;
   Glyph 16 15 (-1) 168;
   Glyph 18 17 (-1) 336;
   Glyph 31 30 (-1) 546;
   Glyph 24 23 (-1) 882;
   Glyph 34 33 (-1) 1134;
   Glyph 29 28 (-1) 1512;
   Glyph 11 10 (-1) 1848;
   Glyph 15 14 (-1) 1974;
   Glyph 15 14 (-1) 2142;
   Glyph 19 18 (-1) 2310;
   Glyph 31 30 (-1) 2520;
   Glyph 13 12 (-1) 2856;
   Glyph 14 13 (-1) 3024;
   Glyph 13 12 (-1) 3192;
   Glyph 14 13 (-1) 3360;
   Glyph 24 23 (-1) 3528;
   Glyph 24 23 (-1) 3780;
   Glyph 24 23 (-1) 4032;
   Glyph 24 23 (-1) 4284;
   Glyph 24 23 (-1) 4536;
   Glyph 24 23 (-1) 4788;
   Glyph 24 23 (-1) 5040;
   Glyph 24 23 (-1) 5292;
   Glyph 24 23 (-1) 5544;
   Glyph 24 23 (-1) 5796;
   Glyph 14 13 (-1) 6048;
   Glyph 14 13 (-1) 6216;
   Glyph 31 30 (-1) 6384;
   Glyph 31 30 (-1) 6720;
   Glyph 31 30 (-1) 7056;
   Glyph 20 19 (-1) 7392;
   Glyph 36 35 (-1) 7602;
   Glyph 26 24 (-1) 7980;
   Glyph 25 24 (-1) 8274;
   Glyph 26 25 (-1) 8568;
   Glyph 28 27 (-1) 8862;
   Glyph 24 23 (-1) 9156;
   Glyph 22 21 (-1) 9408;
   Glyph 29 28 (-1) 9660;
   Glyph 28 27 (-1) 9996;
   Glyph 12 11 (-1) 10290;
   Glyph 14 11 (-3) 10416;
   Glyph 26 23 (-1) 10584;
   Glyph 21 20 (-1) 10878;
   Glyph 32 31 (-1) 11130;
   Glyph 28 27 (-1) 11466;
   Glyph 29 28 (-1) 11760;
   Glyph 23 22 (-1) 12096;
   Glyph 29 28 (-1) 12348;
   Glyph 26 25 (-1) 12684;
   Glyph 24 23 (-1) 12978;
   Glyph 24 22 (-2) 13230;
   Glyph 27 26 (-1) 13482;
   Glyph 26 24 (-1) 13776;
   Glyph 36 35 (-1) 14070;
   Glyph 25 24 (-1) 14448;
   Glyph 24 22 (-2) 14742;
   Glyph 25 24 (-1) 14994;
   Glyph 15 14 (-1) 15288;
   Glyph 14 13 (-1) 15456;
   Glyph 15 14 (-1) 15624;
   Glyph 31 30 (-1) 15792;
   Glyph 21 18 (-2) 16128;
   Glyph 19 18 (-1) 16380;
   Glyph 23 22 (-1) 16590;
   Glyph 24 23 (-1) 16842;
   Glyph 21 20 (-1) 17094;
   Glyph 24 23 (-1) 17346;
   Glyph 23 22 (-1) 17598;
   Glyph 15 13 (-1) 17850;
   Glyph 24 23 (-1) 18018;
   Glyph 24 23 (-1) 18270;
   Glyph 12 11 (-1) 18522;
   Glyph 13 11 (-2) 18648;
   Glyph 22 21 (-1) 18816;
   Glyph 12 11 (-1) 19068;
   Glyph 35 34 (-1) 19194;
   Glyph 24 23 (-1) 19572;
   Glyph 23 22 (-1) 19824;
   Glyph 24 23 (-1) 20076;
   Glyph 24 23 (-1) 20328;
   Glyph 17 15 (-1) 20580;
   Glyph 20 19 (-1) 20790;
   Glyph 15 14 (-1) 21000;
   Glyph 24 23 (-1) 21168;
   Glyph 22 21 (-1) 21420;
   Glyph 30 29 (-1) 21672;
   Glyph 22 21 (-1) 22008;
   Glyph 22 21 (-1) 22260;
   Glyph 20 19 (-1) 22512;
   Glyph 24 23 (-1) 22722;
   Glyph 14 13 (-1) 22974;
   Glyph 24 23 (-1) 23142;
   Glyph 31 30 (-1) 23394
  ].
Definition cond40 : font_t := Font cond40_bits cond40_glyphs 42 36.
