(* ===== verification/Gfx.v ===== *)
(** * Direct framebuffer drawing of the LCD demo

    Model of [src/integrations/stm32h747/demo/CM7/Core/Src/gfx.c] and
    [Inc/gfx.h].  The framebuffer is a finite map from pixel numbers to ARGB
    words; a store outside its 800x480 words is [None], and so is an [int]
    expression that overflows and a read outside a font's tables.  A string is
    the list of its bytes before the terminator.  [gfx_overflow] is a hook the
    firmware provides: a report is an entry of the list [text_f] extends. *)
From stdpp Require Import base numbers list gmap.
From S2P Require Import Prelude Fonts.
Open Scope Z_scope.

Definition LCD_W : Z := 800.
Definition LCD_H : Z := 480.
Definition RGB (r g b : Z) : Z := Z.lor (Z.lor (Z.lor 4278190080 (Z.shiftl r 16)) (Z.shiftl g 8)) b.
Definition C_BG : Z := RGB 11 18 32.
Definition C_PANEL : Z := RGB 17 26 46.
Definition C_GRID : Z := RGB 30 42 68.
Definition C_TEXT : Z := RGB 230 234 242.
Definition C_MUTED : Z := RGB 154 166 191.
Definition C_BLUE : Z := RGB 76 141 255.
Definition C_AMBER : Z := RGB 245 165 36.
Definition C_GREEN : Z := RGB 47 210 117.
Definition C_RED : Z := RGB 240 78 78.
Definition C_CYAN : Z := RGB 34 211 238.
Definition C_MAGENTA : Z := RGB 232 121 249.
Inductive align := ALIGN_LEFT | ALIGN_RIGHT.

(** ** [int] arithmetic: [None] on overflow *)
Definition ck (z : Z) : option Z := if (- 2 ^ 31 <=? z) && (z <? 2 ^ 31) then Some z else None.
Lemma ck_ok z : - 2 ^ 31 <= z < 2 ^ 31 → ck z = Some z.
Proof. intros Hz. unfold ck. by rewrite (proj2 (Z.leb_le _ _)), (proj2 (Z.ltb_lt _ _)) by lia. Qed.

(** ** The framebuffer *)
Abbreviation fbuf := (gmap Z Z).
Definition put (fb : fbuf) (i c : Z) : option fbuf :=
  if (0 <=? i) && (i <? LCD_W * LCD_H) then Some (<[i := c]> fb) else None.
Lemma put_ok fb i c : 0 <= i < LCD_W * LCD_H → put fb i c = Some (<[i := c]> fb).
Proof. intros Hi. unfold put. by rewrite (proj2 (Z.leb_le _ _)), (proj2 (Z.ltb_lt _ _)) by lia. Qed.

(** [for (int i = 0; i < w; i++) row[i] = c], [n] pixels from [i]. *)
Fixpoint fill_row (n : nat) (row i c : Z) (fb : fbuf) : option fbuf :=
  match n with
  | O => Some fb
  | S n => fb ← put fb (row + i) c; fill_row n row (i + 1) c fb
  end.
Fixpoint fill_rows (n : nat) (x y w j c : Z) (fb : fbuf) : option fbuf :=
  match n with
  | O => Some fb
  | S n =>
      yj ← ck (y + j);
      fb ← fill_row (Z.to_nat w) (u32 yj *w LCD_W +w u32 x) 0 c fb;
      fill_rows n x y w (j + 1) c fb
  end.
(** [if (x < 0) { w += x; x = 0; }] *)
Definition clip_low (x w : Z) : option (Z * Z) := if x <? 0 then w ← ck (w + x); Some (0, w) else Some (x, w).
(** [if (x + w > lim) w = lim - x;] *)
Definition clip_high (x w lim : Z) : option Z := e ← ck (x + w); if e >? lim then ck (lim - x) else Some w.
Definition fill_rect (x y w h c : Z) (fb : fbuf) : option fbuf :=
  '(x, w) ← clip_low x w;
  '(y, h) ← clip_low y h;
  w ← clip_high x w LCD_W;
  h ← clip_high y h LCD_H;
  fill_rows (Z.to_nat h) x y w 0 c fb.
Definition rect (x y w h c : Z) (fb : fbuf) : option fbuf :=
  fb ← fill_rect x y w 1 c fb;
  t ← ck (y + h); yb ← ck (t - 1);
  fb ← fill_rect x yb w 1 c fb;
  fb ← fill_rect x y 1 h c fb;
  t ← ck (x + w); xr ← ck (t - 1);
  fill_rect xr y 1 h c fb.

(** ** Text *)
Definition glyph (f : font_t) (ch : Z) : option glyph_t :=
  let code := if (ch <? 32) || (ch >? 126) then 63 else ch in arr_get (glyphs f) (code - 32).
(** [w += glyph(f, *s)->adv] over the string. *)
Fixpoint text_w_from (w : Z) (f : font_t) (s : list Z) : option Z :=
  match s with
  | [] => Some w
  | ch :: s => g ← glyph f ch; w ← ck (w + g_adv g); text_w_from w f s
  end.
Definition text_w (f : font_t) (s : list Z) : option Z := text_w_from 0 f s.

Definition chan (c k : Z) : Z := Z.land (Z.shiftr c k) 255.
Definition mix (fg bg a : Z) : Z :=
  if a =? 3 then fg
  else if a =? 0 then bg
  else
    let r := (chan fg 16 * a + chan bg 16 * (3 - a)) / 3 in
    let g := (chan fg 8 * a + chan bg 8 * (3 - a)) / 3 in
    let b := (Z.land fg 255 * a + Z.land bg 255 * (3 - a)) / 3 in
    Z.lor (Z.lor (Z.lor 4278190080 (Z.shiftl r 16)) (Z.shiftl g 8)) b.

Section Run.
  (** The fixed arguments of one run: font, colours, left edge, limit, top. *)
  Context (f : font_t) (fg bg x0 limit y : Z).

(** The inner loop: [n] columns from [col] of row [row] of [g], at [gx]. *)
Fixpoint draw_cols (n : nat) (g : glyph_t) (gx py row col : Z) (fb : fbuf) : option fbuf :=
  match n with
  | O => Some fb
  | S n =>
      b ← arr_get (bits f) (g_off g + row * ((g_w g + 3) / 4) + Z.shiftr col 2);
      let a := Z.land (Z.shiftr b (6 - 2 * Z.land col 3)) 3 in
      px ← ck (gx + col);
      fb ← (if negb (a =? 0) && (px >=? x0) && (px <? limit) && (px <? LCD_W)
            then put fb (u32 py *w LCD_W + px) (mix fg bg a) else Some fb);
      draw_cols n g gx py row (col + 1) fb
  end.
Fixpoint draw_rows (n : nat) (g : glyph_t) (gx row : Z) (fb : fbuf) : option fbuf :=
  match n with
  | O => Some fb
  | S n =>
      py ← ck (y + row);
      fb ← (if (py <? 0) || (py >=? LCD_H) then Some fb
            else draw_cols (Z.to_nat (g_w g)) g gx py row 0 fb);
      draw_rows n g gx (row + 1) fb
  end.
Fixpoint draw_text (s : list Z) (pen : Z) (fb : fbuf) : option fbuf :=
  match s with
  | [] => Some fb
  | ch :: s =>
      g ← glyph f ch;
      gx ← ck (pen + g_dx g);
      fb ← draw_rows (Z.to_nat (f_h f)) g gx 0 fb;
      pen ← ck (pen + g_adv g);
      if pen >=? limit then Some fb else draw_text s pen fb
  end.
End Run.

(** The result is the width, the framebuffer and the reports. *)
Definition text_f (f : font_t) (x y : Z) (s : list Z) (fg bg max_w : Z) (al : align) (fb : fbuf)
    (over : list (list Z * Z * Z)) : option (Z * fbuf * list (list Z * Z * Z)) :=
  w ← text_w f s;
  let over := if w >? max_w then over ++ [(s, w, max_w)] else over in
  x0 ← (if al is ALIGN_RIGHT then ck (x - (if w <? max_w then w else max_w)) else Some x);
  limit ← ck (x0 + max_w);
  fb ← draw_text f fg bg x0 limit y s x0 fb;
  Some (w, fb, over).

(** ** Rectangles *)
Definition in_box (x y w h i : Z) : Prop :=
  0 <= i < LCD_W * LCD_H ∧ x <= i mod LCD_W < x + w ∧ y <= i / LCD_W < y + h.
#[export] Instance in_box_dec x y w h i : Decision (in_box x y w h i).
Proof. unfold in_box. apply _. Defined.

Lemma fill_row_spec n row i c fb :
  0 <= row + i → row + i + Z.of_nat n <= LCD_W * LCD_H →
  ∃ fb', fill_row n row i c fb = Some fb' ∧
    ∀ k, fb' !! k = if decide (row + i <= k < row + i + Z.of_nat n) then Some c else fb !! k.
Proof.
  revert i fb. induction n as [|n IH]; intros i fb Hlo Hhi; cbn [fill_row].
  { exists fb. split; [done|]. intros k. rewrite decide_False by lia. done. }
  rewrite put_ok by lia. cbn [mbind option_bind].
  destruct (IH (i + 1) (<[row + i := c]> fb)) as (fb' & -> & Hfb); [lia..|].
  exists fb'. split; [done|]. intros k. rewrite Hfb, lookup_insert.
  repeat case_decide; (done || lia).
Qed.
Lemma fill_rows_spec n x y w j c fb :
  0 <= x < 2 ^ 31 → 0 <= y + j → (0 < w → x + w <= LCD_W) → y + j + Z.of_nat n <= LCD_H →
  ∃ fb', fill_rows n x y w j c fb = Some fb' ∧
    ∀ k, fb' !! k = if decide (in_box x (y + j) w (Z.of_nat n) k) then Some c else fb !! k.
Proof.
  unfold in_box, LCD_W, LCD_H. revert j fb. induction n as [|n IH]; intros j fb Hx Hy Hw Hh; cbn [fill_rows].
  { exists fb. split; [done|]. intros k. rewrite decide_False by lia. done. }
  rewrite ck_ok by lia. cbn [mbind option_bind]. unfold LCD_W.
  rewrite (u32_small (y + j)), (u32_small x), (u32_small ((y + j) * 800)), (u32_small (_ + x)) by (word_lia).
  assert (∃ fb1, fill_row (Z.to_nat w) ((y + j) * 800 + x) 0 c fb = Some fb1 ∧
    ∀ k, fb1 !! k = if decide ((y + j) * 800 + x <= k < (y + j) * 800 + x + w) then Some c else fb !! k) as (fb1 & -> & H1).
  { destruct (decide (0 < w)).
    - destruct (fill_row_spec (Z.to_nat w) ((y + j) * 800 + x) 0 c fb) as (fb1 & -> & H1); [unfold LCD_W, LCD_H; lia..|].
      exists fb1. split; [done|]. intros k. rewrite H1. repeat case_decide; (done || lia).
    - rewrite Z2Nat.nonpos by lia. exists fb. split; [done|]. intros k. rewrite decide_False by lia. done. }
  cbn [mbind option_bind]. destruct (IH (j + 1) fb1) as (fb' & -> & Hfb); [lia..|].
  exists fb'. split; [done|]. intros k. rewrite Hfb, H1.
  pose proof (Z.div_mod k 800 ltac:(lia)). pose proof (Z.mod_pos_bound k 800 ltac:(lia)).
  repeat case_decide; (done || lia || (exfalso; lia)).
Qed.

(** An [int] argument far from overflow. *)
Definition small (z : Z) : Prop := - 2 ^ 28 <= z <= 2 ^ 28.
Lemma clip_low_spec x w : small x → small w → clip_low x w = Some (Z.max 0 x, w + Z.min 0 x).
Proof.
  unfold small, clip_low. intros Hx Hw. destruct (Z.ltb_spec x 0).
  - rewrite ck_ok by lia. cbn. do 2 f_equal; lia.
  - do 2 f_equal; lia.
Qed.
Lemma clip_high_spec x w lim :
  0 <= x <= 2 ^ 28 → - 2 ^ 29 <= w <= 2 ^ 28 → 0 <= lim <= 2 ^ 28 →
  clip_high x w lim = Some (Z.min w (lim - x)).
Proof.
  unfold clip_high. intros Hx Hw Hl. rewrite (ck_ok (x + w)) by lia. cbn [mbind option_bind]. rewrite Z.gtb_ltb.
  destruct (Z.ltb_spec lim (x + w)).
  - rewrite ck_ok by lia. f_equal. lia.
  - f_equal. lia.
Qed.
Lemma fill_rect_box x y w h c fb :
  small x → small y → small w → small h →
  ∃ fb', fill_rect x y w h c fb = Some fb' ∧
    ∀ k, fb' !! k = if decide (in_box x y w h k) then Some c else fb !! k.
Proof.
  intros Hx Hy Hw Hh. unfold fill_rect. rewrite clip_low_spec by done. cbn [mbind option_bind].
  rewrite clip_low_spec by done. cbn [mbind option_bind]. unfold small in *.
  rewrite clip_high_spec by (unfold LCD_W, LCD_H; lia). cbn [mbind option_bind].
  rewrite clip_high_spec by (unfold LCD_W, LCD_H; lia). cbn [mbind option_bind].
  set (w' := Z.min _ (LCD_W - _)). set (h' := Z.min _ (LCD_H - _)).
  destruct (decide (h' <= 0)) as [Hn|Hn].
  { rewrite Z2Nat.nonpos by exact Hn. exists fb. split; [done|]. intros k. rewrite decide_False; [done|].
    unfold in_box, LCD_W, LCD_H in *. intros (Hk & _ & Hy'). assert (k / 800 < 480) by (apply Z.div_lt_upper_bound; lia).
    assert (0 <= k / 800) by (apply Z.div_pos; lia). lia. }
  destruct (fill_rows_spec (Z.to_nat h') (Z.max 0 x) (Z.max 0 y) w' 0 c fb) as (fb' & -> & Hfb); [unfold LCD_W, LCD_H in *; lia..|].
  exists fb'. split; [done|]. intros k. rewrite Hfb. unfold in_box, LCD_W, LCD_H in *.
  pose proof (Z.div_mod k 800 ltac:(lia)). pose proof (Z.mod_pos_bound k 800 ltac:(lia)).
  repeat case_decide; (done || lia || (exfalso; lia)).
Qed.

(** [fill_rect] paints exactly the pixels of the rectangle that are on the
    screen and nothing else, wherever the rectangle lies (left, right, above or
    below the screen, or empty): no store leaves the framebuffer. *)
Theorem fill_rect_exact x y w h c fb :
  small x → small y → small w → small h →
  ∃ fb', fill_rect x y w h c fb = Some fb' ∧
    ∀ k, fb' !! k = if decide (in_box x y w h k) then Some c else fb !! k.
Proof. apply fill_rect_box. Qed.
Lemma fill_rect_exact_witness :
  ∃ fb', fill_rect (-3) 478 5 9 C_RED ∅ = Some fb' ∧ fb' !! (478 * 800 + 1) = Some C_RED ∧ fb' !! (478 * 800 + 2) = None.
Proof.
  destruct (fill_rect_exact (-3) 478 5 9 C_RED ∅) as (fb' & He & Hk); [unfold small; lia..|].
  exists fb'. split; [exact He|]. split; rewrite Hk; reflexivity.
Defined.

(** The frame of [rect], for a rectangle of at least one pixel. *)
Definition on_border (x y w h i : Z) : Prop :=
  in_box x y w h i ∧ (i mod LCD_W = x ∨ i mod LCD_W = x + w - 1 ∨ i / LCD_W = y ∨ i / LCD_W = y + h - 1).
#[export] Instance on_border_dec x y w h i : Decision (on_border x y w h i).
Proof. unfold on_border. apply _. Defined.
Lemma rect_border x y w h c fb :
  small x → small y → 1 <= w <= 2 ^ 20 → 1 <= h <= 2 ^ 20 → x + w <= 2 ^ 28 → y + h <= 2 ^ 28 →
  ∃ fb', rect x y w h c fb = Some fb' ∧
    ∀ k, fb' !! k = if decide (on_border x y w h k) then Some c else fb !! k.
Proof.
  intros Hx Hy Hw Hh Hxw Hyh. unfold rect.
  destruct (fill_rect_box x y w 1 c fb) as (f1 & -> & H1); [unfold small in *; lia..|]. cbn [mbind option_bind].
  unfold small in Hx, Hy. rewrite !ck_ok by lia. cbn [mbind option_bind]. rewrite (ck_ok (y + h - 1)) by lia. cbn [mbind option_bind].
  destruct (fill_rect_box x (y + h - 1) w 1 c f1) as (f2 & -> & H2); [unfold small in *; lia..|]. cbn [mbind option_bind].
  destruct (fill_rect_box x y 1 h c f2) as (f3 & -> & H3); [unfold small in *; lia..|]. cbn [mbind option_bind].
  rewrite (ck_ok (x + w - 1)) by lia. cbn [mbind option_bind].
  destruct (fill_rect_box (x + w - 1) y 1 h c f3) as (f4 & -> & H4); [unfold small in *; lia..|].
  exists f4. split; [done|]. intros k. rewrite H4, H3, H2, H1. clear H1 H2 H3 H4. unfold on_border, in_box.
  repeat case_decide; try done; exfalso; lia.
Qed.

(** ** Colours *)
Lemma chan_range c k : 0 <= chan c k < 256.
Proof. unfold chan. change 255 with (Z.ones 8). rewrite Z.land_ones by lia. apply Z.mod_pos_bound. lia. Qed.
Lemma chan_div c k : 0 <= k → chan c k = (c / 2 ^ k) mod 256.
Proof. intros Hk. unfold chan. change 255 with (Z.ones 8). by rewrite Z.land_ones, Z.shiftr_div_pow2 by lia. Qed.
Lemma rgb_sum r g b :
  0 <= r < 256 → 0 <= g < 256 → 0 <= b < 256 →
  Z.lor (Z.lor (Z.lor 4278190080 (Z.shiftl r 16)) (Z.shiftl g 8)) b = 255 * 2 ^ 24 + r * 2 ^ 16 + g * 2 ^ 8 + b.
Proof.
  intros Hr Hg Hb. rewrite !Z.shiftl_mul_pow2 by lia. change 4278190080 with (255 * 2 ^ 24).
  rewrite (lor_low 255 (r * 2 ^ 16) 24) by lia.
  replace (255 * 2 ^ 24 + r * 2 ^ 16) with ((255 * 2 ^ 8 + r) * 2 ^ 16) by lia.
  rewrite (lor_low _ (g * 2 ^ 8) 16) by lia.
  replace ((255 * 2 ^ 8 + r) * 2 ^ 16 + g * 2 ^ 8) with (((255 * 2 ^ 8 + r) * 2 ^ 8 + g) * 2 ^ 8) by lia.
  rewrite (lor_low _ b 8) by lia. lia.
Qed.
Lemma rgb_chan r g b :
  0 <= r < 256 → 0 <= g < 256 → 0 <= b < 256 →
  let c := Z.lor (Z.lor (Z.lor 4278190080 (Z.shiftl r 16)) (Z.shiftl g 8)) b in
  is_u32 c ∧ chan c 24 = 255 ∧ chan c 16 = r ∧ chan c 8 = g ∧ chan c 0 = b.
Proof.
  intros Hr Hg Hb c. unfold c. rewrite rgb_sum by done. unfold is_u32. rewrite !chan_div by lia.
  split; [lia|]. change (2 ^ 24) with 16777216. change (2 ^ 16) with 65536. change (2 ^ 8) with 256. change (2 ^ 0) with 1. change (256%Z) with (2^8).
  split_and!; (Z.to_euclidean_division_equations; lia).
Qed.
Lemma blend_range p q a : 0 <= p < 256 → 0 <= q < 256 → 0 < a < 3 →
  Z.min p q <= (p * a + q * (3 - a)) / 3 <= Z.max p q.
Proof.
  intros Hp Hq Ha. split; [apply Z.div_le_lower_bound; nia|]. apply Z.lt_succ_r, Z.div_lt_upper_bound; [lia|]. nia.
Qed.

(** Blending one pixel: full coverage is the foreground and none the
    background, unchanged; between them the result is an opaque word whose red,
    green and blue each lie between the foreground's and the background's. *)
Lemma mix_blends fg bg a :
  0 <= a <= 3 →
  (a = 3 → mix fg bg a = fg) ∧ (a = 0 → mix fg bg a = bg) ∧
  (0 < a < 3 → is_u32 (mix fg bg a) ∧ chan (mix fg bg a) 24 = 255 ∧
     ∀ k, k ∈ [16; 8; 0] → Z.min (chan fg k) (chan bg k) <= chan (mix fg bg a) k <= Z.max (chan fg k) (chan bg k)).
Proof.
  intros Ha. unfold mix. split; [by intros ->|]. split; [by intros ->|]. intros Hm.
  rewrite (proj2 (Z.eqb_neq a 3)), (proj2 (Z.eqb_neq a 0)) by lia.
  pose proof (chan_range fg 16). pose proof (chan_range bg 16). pose proof (chan_range fg 8). pose proof (chan_range bg 8).
  pose proof (chan_range fg 0) as Hf. pose proof (chan_range bg 0) as Hb.
  assert (∀ c, Z.land c 255 = chan c 0) as Hl by (intros c; unfold chan; by rewrite Z.shiftr_0_r). rewrite !Hl.
  pose proof (blend_range (chan fg 16) (chan bg 16) a) as Hr. pose proof (blend_range (chan fg 8) (chan bg 8) a) as Hg.
  pose proof (blend_range (chan fg 0) (chan bg 0) a) as Hbl.
  destruct (rgb_chan ((chan fg 16 * a + chan bg 16 * (3 - a)) / 3) ((chan fg 8 * a + chan bg 8 * (3 - a)) / 3)
    ((chan fg 0 * a + chan bg 0 * (3 - a)) / 3)) as (Hu & H24 & H16 & H8 & Hb0); [lia..|].
  split; [exact Hu|]. split; [exact H24|]. intros k Hk. rewrite !elem_of_cons, elem_of_nil in Hk.
  destruct Hk as [->|[->|[->|[]]]]; rewrite ?H16, ?H8, ?Hb0; lia.
Qed.

(** ** Text *)
(** What a font's tables must satisfy: one glyph per printable character, each
    inside the atlas. *)
Definition glyph_okb (f : font_t) (g : glyph_t) : bool :=
  (0 <=? g_w g) && (g_w g <? 256) && (0 <=? g_adv g) && (g_adv g <? 256) && (-128 <=? g_dx g) && (g_dx g <? 128)
  && (0 <=? g_off g) && (g_off g + f_h f * ((g_w g + 3) / 4) <=? Z.of_nat (length (bits f))).
Definition font_okb (f : font_t) : bool :=
  (Z.of_nat (length (glyphs f)) =? 95) && (0 <=? f_h f) && (f_h f <? 256) && forallb (glyph_okb f) (glyphs f).
Record glyph_ok (f : font_t) (g : glyph_t) : Prop := {
  go_w : 0 <= g_w g < 256;
  go_adv : 0 <= g_adv g < 256;
  go_dx : -128 <= g_dx g < 128;
  go_off : 0 <= g_off g;
  go_end : g_off g + f_h f * ((g_w g + 3) / 4) <= Z.of_nat (length (bits f));
}.
Lemma glyph_okb_ok f g : glyph_okb f g = true → glyph_ok f g.
Proof. unfold glyph_okb. intros Hb. bool_facts. by constructor. Qed.
Lemma glyph_total f ch : font_okb f = true → ∃ g, glyph f ch = Some g ∧ glyph_ok f g.
Proof.
  unfold font_okb, glyph. intros Hf. bool_facts. set (code := if _ : bool then 63 else ch).
  assert (32 <= code <= 126) as Hc.
  { unfold code. destruct ((ch <? 32) || (ch >? 126)) eqn:Hc; [lia|]. bool_facts. lia. }
  destruct (arr_get_is_Some (glyphs f) (code - 32)) as [g Hg]; [lia|]. exists g. split; [done|].
  apply glyph_okb_ok. rewrite forallb_forall in *. apply arr_get_elem_of, list_elem_of_In in Hg. auto.
Qed.

(** The coverage of one pixel of a glyph, read from the atlas. *)
Definition coverage (f : font_t) (g : glyph_t) (row col : Z) : Z :=
  match arr_get (bits f) (g_off g + row * ((g_w g + 3) / 4) + Z.shiftr col 2) with
  | Some b => Z.land (Z.shiftr b (6 - 2 * Z.land col 3)) 3
  | None => 0
  end.
Lemma coverage_in f g row col :
  glyph_ok f g → 0 <= row < f_h f → 0 <= col < g_w g →
  ∃ b, arr_get (bits f) (g_off g + row * ((g_w g + 3) / 4) + Z.shiftr col 2) = Some b.
Proof.
  intros [Hw _ _ Ho He] Hr Hc. apply arr_get_is_Some. rewrite Z.shiftr_div_pow2 by lia. change (2 ^ 2) with 4.
  assert (0 <= col / 4 < (g_w g + 3) / 4) by (Z.to_euclidean_division_equations; lia).
  assert (row * ((g_w g + 3) / 4) + (g_w g + 3) / 4 <= f_h f * ((g_w g + 3) / 4)) by nia. nia.
Qed.
(** The ink one glyph at pen [pen] leaves on pixel [k]: 0 is none. *)
Definition glyph_ink (f : font_t) (x0 limit y : Z) (g : glyph_t) (gx k : Z) : Z :=
  let px := k mod LCD_W in
  let row := k / LCD_W - y in
  if decide (0 <= k < LCD_W * LCD_H ∧ 0 <= row < f_h f ∧ 0 <= px - gx < g_w g ∧ x0 <= px < limit)
  then coverage f g row (px - gx) else 0.
(** The ink of a whole run: the last glyph that covers the pixel wins. *)
Fixpoint ink (f : font_t) (x0 limit y : Z) (s : list Z) (pen k a : Z) : Z :=
  match s with
  | [] => a
  | ch :: s =>
      match glyph f ch with
      | None => a
      | Some g =>
          let b := glyph_ink f x0 limit y g (pen + g_dx g) k in
          let a := if b =? 0 then a else b in
          if pen + g_adv g >=? limit then a else ink f x0 limit y s (pen + g_adv g) k a
      end
  end.
Definition shade (fg bg a : Z) (old : option Z) : option Z := if a =? 0 then old else Some (mix fg bg a).

Lemma draw_cols_spec f fg bg x0 limit g gx py row n col fb :
  glyph_ok f g → 0 <= x0 → 0 <= py < LCD_H → 0 <= row < f_h f → 0 <= col → col + Z.of_nat n <= g_w g → - 2 ^ 29 <= gx <= 2 ^ 29 →
  ∃ fb', draw_cols f fg bg x0 limit n g gx py row col fb = Some fb' ∧
    ∀ k, fb' !! k = shade fg bg (if decide (k / LCD_W = py ∧ col <= k mod LCD_W - gx < col + Z.of_nat n ∧ x0 <= k mod LCD_W < limit)
                                 then coverage f g row (k mod LCD_W - gx) else 0) (fb !! k).
Proof.
  intros Hg Hx0 Hpy Hrow. revert col fb. induction n as [|n IH]; intros col fb Hc Hn Hgx; cbn [draw_cols].
  { exists fb. split; [done|]. intros k. rewrite decide_False by lia. done. }
  pose proof (go_w _ _ Hg) as Hgw.
  destruct (coverage_in f g row col) as [b Hb]; [done|done|lia|]. rewrite Hb. cbn [mbind option_bind]. rewrite ck_ok by lia. cbn [mbind option_bind].
  assert (Z.land (Z.shiftr b (6 - 2 * Z.land col 3)) 3 = coverage f g row col) as -> by (unfold coverage; by rewrite Hb).
  set (a := coverage f g row col). unfold LCD_W, LCD_H in *.
  rewrite (u32_small py), (u32_small (py * 800)) by word_lia.
  set (cond := negb (a =? 0) && (gx + col >=? x0) && (gx + col <? limit) && (gx + col <? 800)).
  set (fb1 := if cond then <[py * 800 + (gx + col) := mix fg bg a]> fb else fb).
  assert ((if cond then put fb (py * 800 + (gx + col)) (mix fg bg a) else Some fb) = Some fb1) as ->.
  { unfold fb1, cond. destruct (negb _ && _ && _ && _) eqn:Hcond; [|done]. bool_facts. apply put_ok. unfold LCD_W, LCD_H. lia. }
  cbn [mbind option_bind]. destruct (IH (col + 1) fb1) as (fb' & -> & Hfb); [lia..|]. exists fb'. split; [done|].
  intros k. rewrite Hfb. pose proof (Z.div_mod k 800 ltac:(lia)) as Hdm. pose proof (Z.mod_pos_bound k 800 ltac:(lia)) as Hmb.
  destruct (decide (k = py * 800 + (gx + col) ∧ 0 <= gx + col < 800)) as [[Hk Hin]|Hne].
  - assert (k / 800 = py ∧ k mod 800 = gx + col) as [Hd Hm] by lia. rewrite Hd, Hm.
    rewrite decide_False by lia. replace (gx + col - gx) with col by lia. fold a. unfold shade at 1. cbn [Z.eqb].
    unfold fb1, cond, shade. destruct (Z.eqb_spec a 0) as [Ha|Ha]; cbn [negb andb]; [rewrite Ha; by case_decide|].
    destruct (Z.geb_spec (gx + col) x0), (Z.ltb_spec (gx + col) limit), (Z.ltb_spec (gx + col) 800); cbn [andb]; try lia.
    + rewrite decide_True by lia. rewrite (proj2 (Z.eqb_neq _ _) Ha), Hk, lookup_insert_eq. done.
    + rewrite decide_False by lia. done.
    + rewrite decide_False by lia. done.
    + rewrite decide_False by lia. done.
  - assert (fb1 !! k = fb !! k) as ->.
    { unfold fb1, cond. destruct (negb _ && _ && _ && _) eqn:Hcond; [|done]. bool_facts. apply lookup_insert_ne. lia. }
    f_equal. repeat case_decide; (done || lia).
Qed.

Lemma draw_rows_spec f fg bg x0 limit y g gx n row fb :
  glyph_ok f g → 0 <= x0 → 0 <= row → row + Z.of_nat n <= f_h f → f_h f < 256 → small y → - 2 ^ 29 <= gx <= 2 ^ 29 →
  ∃ fb', draw_rows f fg bg x0 limit y n g gx row fb = Some fb' ∧
    ∀ k, fb' !! k = shade fg bg (if decide (row <= k / LCD_W - y < row + Z.of_nat n) then glyph_ink f x0 limit y g gx k else 0) (fb !! k).
Proof.
  intros Hg Hx0. revert row fb. induction n as [|n IH]; intros row fb Hr Hn Hh Hy Hgx; cbn [draw_rows].
  { exists fb. split; [done|]. intros k. rewrite decide_False by lia. done. }
  unfold small in *. rewrite ck_ok by lia. cbn [mbind option_bind]. pose proof (go_w _ _ Hg) as Hgw.
  assert (∃ fb1, (if (y + row <? 0) || (y + row >=? LCD_H) then Some fb
                  else draw_cols f fg bg x0 limit (Z.to_nat (g_w g)) g gx (y + row) row 0 fb) = Some fb1 ∧
    ∀ k, fb1 !! k = shade fg bg (if decide (k / LCD_W = y + row) then glyph_ink f x0 limit y g gx k else 0) (fb !! k)) as (fb1 & -> & H1).
  { destruct ((y + row <? 0) || (y + row >=? LCD_H)) eqn:Hoff.
    - exists fb. split; [done|]. intros k. destruct (decide _) as [Hk|]; [|done]. unfold glyph_ink.
      rewrite decide_False; [done|]. intros ((H1 & H2) & _). apply orb_true_iff in Hoff.
      assert (0 <= k / LCD_W < LCD_H); [|destruct Hoff; bool_facts; lia].
      split; [apply Z.div_pos; unfold LCD_W in *; lia|apply Z.div_lt_upper_bound; unfold LCD_W in *; lia].
    - bool_facts. destruct (draw_cols_spec f fg bg x0 limit g gx (y + row) row (Z.to_nat (g_w g)) 0 fb)
        as (fb1 & -> & H1); [done|done|lia..|]. exists fb1. split; [done|]. intros k. rewrite H1. f_equal.
      unfold glyph_ink. destruct (decide (k / LCD_W = y + row)) as [Hk|Hk]; [|by rewrite decide_False by lia].
      rewrite Hk. replace (y + row - y) with row by lia.
      assert (0 <= k < LCD_W * LCD_H).
      { pose proof (Z.div_mod k LCD_W ltac:(done)). pose proof (Z.mod_pos_bound k LCD_W ltac:(done)). unfold LCD_W, LCD_H in *. lia. }
      repeat case_decide; (done || lia). }
  cbn [mbind option_bind]. destruct (IH (row + 1) fb1) as (fb' & -> & Hfb); [lia..|]. exists fb'. split; [done|].
  intros k. rewrite Hfb, H1. unfold shade. repeat case_decide; try lia; cbn [Z.eqb]; try done.
Qed.

Lemma draw_text_spec f fg bg x0 limit y s pen fb :
  font_okb f = true → 0 <= x0 → small y → limit <= 2 ^ 28 → 0 <= pen <= 2 ^ 28 →
  ∃ fb', draw_text f fg bg x0 limit y s pen fb = Some fb' ∧
    ∀ k, fb' !! k = shade fg bg (ink f x0 limit y s pen k 0) (fb !! k).
Proof.
  intros Hf Hx0 Hy Hlim. assert (0 <= f_h f < 256) as Hh by (unfold font_okb in Hf; bool_facts; lia).
  assert (∀ k s pen a, ink f x0 limit y s pen k a = if ink f x0 limit y s pen k 0 =? 0 then a else ink f x0 limit y s pen k 0) as Hink.
  { clear s pen fb. intros k s. induction s as [|ch s IH]; intros pen a; cbn [ink]; [done|].
    destruct (glyph f ch) as [g|]; [|done]. set (b := glyph_ink _ _ _ _ _ _ _). destruct (_ >=? limit).
    - by destruct (Z.eqb_spec b 0) as [->|Hb]; [|rewrite (proj2 (Z.eqb_neq _ _) Hb)].
    - destruct (b =? 0) eqn:Hb; [apply IH|]. rewrite IH. destruct (ink _ _ _ _ _ _ _ 0 =? 0) eqn:Hi; [by rewrite Hb|by rewrite Hi]. }
  revert pen fb. induction s as [|ch s IH]; intros pen fb Hpen; cbn [draw_text ink].
  { exists fb. split; [done|]. done. }
  destruct (glyph_total f ch Hf) as (g & -> & Hg). cbn [mbind option_bind]. pose proof Hg as [? ? ? ? ?].
  rewrite (ck_ok (pen + g_dx g)) by lia. cbn [mbind option_bind].
  destruct (draw_rows_spec f fg bg x0 limit y g (pen + g_dx g) (Z.to_nat (f_h f)) 0 fb) as (fb1 & -> & H1); [done|done|lia|lia|lia|done|lia|].
  cbn [mbind option_bind]. rewrite (ck_ok (pen + g_adv g)) by lia. cbn [mbind option_bind].
  assert (∀ k, fb1 !! k = shade fg bg (glyph_ink f x0 limit y g (pen + g_dx g) k) (fb !! k)) as H1'.
  { intros k. rewrite H1. f_equal. case_decide; [done|]. unfold glyph_ink. rewrite decide_False by lia. done. }
  destruct (pen + g_adv g >=? limit) eqn:Hstop.
  - exists fb1. split; [done|]. intros k. rewrite H1'. by destruct (Z.eqb_spec (glyph_ink f x0 limit y g (pen + g_dx g) k) 0) as [->|].
  - bool_facts. destruct (IH (pen + g_adv g) fb1) as (fb' & -> & Hfb); [lia|]. exists fb'. split; [done|]. intros k. rewrite Hfb, H1'.
    rewrite (Hink k s _ (if _ : bool then _ else _)). destruct (ink f x0 limit y s (pen + g_adv g) k 0 =? 0) eqn:Hi.
    + unfold shade. rewrite Hi. destruct (glyph_ink f x0 limit y g (pen + g_dx g) k =? 0) eqn:Hg0; [done|by rewrite Hg0].
    + unfold shade. by rewrite Hi.
Qed.

(** The width of a run. *)
Definition width (f : font_t) (s : list Z) : Z :=
  foldr (λ ch acc, match glyph f ch with Some g => g_adv g | None => 0 end + acc) 0 s.
Lemma width_bound f s : font_okb f = true → 0 <= width f s <= 255 * Z.of_nat (length s).
Proof.
  intros Hf. induction s as [|ch s IH]; cbn [width foldr length]; [lia|]. fold (width f s).
  destruct (glyph_total f ch Hf) as (g & -> & Hg). destruct (go_adv _ _ Hg). lia.
Qed.
Lemma text_w_width f s w :
  font_okb f = true → 0 <= w → w + 255 * Z.of_nat (length s) < 2 ^ 31 → text_w_from w f s = Some (w + width f s).
Proof.
  intros Hf. revert w. induction s as [|ch s IH]; intros w Hw Hlen; cbn [text_w_from width foldr length] in *.
  { f_equal. lia. }
  fold (width f s). destruct (glyph_total f ch Hf) as (g & -> & Hg). cbn [mbind option_bind]. destruct (go_adv _ _ Hg).
  rewrite ck_ok by lia. cbn [mbind option_bind]. rewrite IH by lia. f_equal. lia.
Qed.
Lemma ink_in f x0 limit y s pen k :
  ink f x0 limit y s pen k 0 ≠ 0 →
  0 <= k < LCD_W * LCD_H ∧ x0 <= k mod LCD_W < limit ∧ y <= k / LCD_W < y + f_h f.
Proof.
  assert (∀ a, ink f x0 limit y s pen k a ≠ 0 → a = 0 ∨ 0 <= k < LCD_W * LCD_H ∧ x0 <= k mod LCD_W < limit ∧ y <= k / LCD_W < y + f_h f →
    0 <= k < LCD_W * LCD_H ∧ x0 <= k mod LCD_W < limit ∧ y <= k / LCD_W < y + f_h f) as Hgen; [|intros Hi; apply (Hgen 0 Hi); by left].
  revert pen. induction s as [|ch s IH]; intros pen a; cbn [ink]; [intros ? [?|?]; done|].
  destruct (glyph f ch) as [g|]; [|intros ? [?|?]; done]. set (b := glyph_ink _ _ _ _ _ _ _).
  assert (b ≠ 0 → 0 <= k < LCD_W * LCD_H ∧ x0 <= k mod LCD_W < limit ∧ y <= k / LCD_W < y + f_h f) as Hb.
  { unfold b, glyph_ink. case_decide; [lia|done]. }
  destruct (_ >=? limit).
  - destruct (Z.eqb_spec b 0); [intros ? [?|?]; done|auto].
  - intros Hi Ha. apply (IH _ _ Hi). destruct (Z.eqb_spec b 0); [done|right; auto].
Qed.

Definition fonts : list font_t := [mono16; cond24; cond32; cond40].
Lemma fonts_okb : forallb font_okb fonts = true.
Proof. vm_compute. reflexivity. Qed.
(** The run's left edge. *)
Definition left_edge (al : align) (x w max_w : Z) : Z := if al is ALIGN_RIGHT then x - Z.min w max_w else x.

Lemma text_f_spec f x y s fg bg max_w al fb over :
  f ∈ fonts → Z.of_nat (length s) <= 2 ^ 20 → small y → 0 <= max_w <= 2 ^ 20 →
  0 <= left_edge al x (width f s) max_w <= 2 ^ 20 →
  let w := width f s in
  let x0 := left_edge al x w max_w in
  ∃ fb', text_f f x y s fg bg max_w al fb over
         = Some (w, fb', if w >? max_w then over ++ [(s, w, max_w)] else over) ∧
    ∀ k, let a := ink f x0 (x0 + max_w) y s x0 k 0 in
      fb' !! k = shade fg bg a (fb !! k) ∧
      (a ≠ 0 → 0 <= k < LCD_W * LCD_H ∧ x0 <= k mod LCD_W < x0 + max_w ∧ y <= k / LCD_W < y + f_h f).
Proof.
  intros Hin Hlen Hy Hmax Hleft w x0. pose proof fonts_okb as Hf. rewrite forallb_forall in Hf.
  apply list_elem_of_In, Hf in Hin as Hok. pose proof (width_bound f s Hok) as Hw. fold w in Hw.
  unfold text_f, text_w. rewrite text_w_width, Z.add_0_l by (done || lia). cbn [mbind option_bind]. fold w.
  assert ((if al is ALIGN_RIGHT then ck (x - (if w <? max_w then w else max_w)) else Some x) = Some x0) as ->.
  { unfold x0, left_edge in *. destruct al; [done|]. rewrite <- ck_ok by lia. f_equal.
    destruct (Z.ltb_spec w max_w); lia. }
  cbn [mbind option_bind]. fold w x0 in Hleft. rewrite ck_ok by lia. cbn [mbind option_bind].
  destruct (draw_text_spec f fg bg x0 (x0 + max_w) y s x0 fb) as (fb' & -> & Hfb); [done|lia|done|lia|lia|].
  cbn [mbind option_bind]. exists fb'. split; [done|]. intros k. cbv zeta. split; [apply Hfb|apply ink_in].
Qed.

(** C31: text in any of the four fonts, whatever its bytes, whose left edge is
    on the screen: every read is inside the font's tables and every store inside
    the framebuffer; the width is returned and a run wider than its budget is
    reported, once.  Each pixel ends as the per-pixel rendering says: the last
    glyph that covers it, blended over the background, or untouched; and only
    pixels of the glyph cell's rows within the width budget are ever touched. *)
Theorem text_f_renders f x y s fg bg max_w al fb over :
  f ∈ fonts → Z.of_nat (length s) <= 2 ^ 20 → small y → 0 <= max_w <= 2 ^ 20 →
  0 <= left_edge al x (width f s) max_w <= 2 ^ 20 →
  let w := width f s in
  let x0 := left_edge al x w max_w in
  ∃ fb', text_f f x y s fg bg max_w al fb over
         = Some (w, fb', if w >? max_w then over ++ [(s, w, max_w)] else over) ∧
    ∀ k, let a := ink f x0 (x0 + max_w) y s x0 k 0 in
      fb' !! k = shade fg bg a (fb !! k) ∧
      (a ≠ 0 → 0 <= k < LCD_W * LCD_H ∧ x0 <= k mod LCD_W < x0 + max_w ∧ y <= k / LCD_W < y + f_h f).
Proof. apply text_f_spec. Qed.
Lemma text_f_renders_witness :
  ∃ fb', text_f cond24 790 10 [65; 7; 98] C_TEXT C_BG 30 ALIGN_RIGHT ∅ []
         = Some (width cond24 [65; 7; 98], fb', [([65; 7; 98], width cond24 [65; 7; 98], 30)]).
Proof.
  destruct (text_f_renders cond24 790 10 [65; 7; 98] C_TEXT C_BG 30 ALIGN_RIGHT ∅ []) as (fb' & He & _).
  - right. left.
  - reflexivity || discriminate.
  - split; discriminate.
  - split; discriminate.
  - vm_compute. split; discriminate.
  - exists fb'. exact He.
Defined.

(** A run whose left edge is off the screen (a right-aligned number wider
    than its distance to the edge, or a negative [x]) is not clipped on that
    side: the test is [px >= x0], so its left pixels are stored at the right end
    of the row above, and in the top row before the framebuffer. *)
Theorem text_f_left_unclipped :
  text_f mono16 (-6) (-3) [87] C_TEXT C_BG 100 ALIGN_LEFT ∅ [] = None ∧
  (λ r, r.1.2 !! (42 * LCD_W + 795)) <$> text_f mono16 (-6) 40 [87] C_TEXT C_BG 100 ALIGN_LEFT ∅ []
  = Some (Some (mix C_TEXT C_BG 1)).
Proof. split; vm_compute; reflexivity. Qed.
