(* ===== verification/RocksKeys.v ===== *)
(** * Keys of the RocksDB memtable: varints, slices, internal keys, prefixes

    Model of the helpers of [src/integrations/rocksdb/include/expanse_memtable.h]
    (namespaces [rocksdb] and [expanse_rocksdb]).  A byte is the [Z] in [0, 256),
    a slice the list of its bytes; a pointer with its limit is the list of bytes
    from it to the limit.  [memcmp] promises only a sign, and the code uses only
    the sign: the model's [memcmp] answers [-1], [0] or [1]. *)
From stdpp Require Import base numbers list.
From S2P Require Import Prelude.
Open Scope Z_scope.

Abbreviation bytes := (list Z).
Definition is_bytes (l : bytes) : Prop := Forall is_u8 l.

(** ** Slices *)
Fixpoint memcmp (n : nat) (a b : bytes) : Z :=
  match n, a, b with
  | S n, x :: a, y :: b => if x <? y then -1 else if y <? x then 1 else memcmp n a b
  | _, _, _ => 0
  end.
Definition slice_compare (a b : bytes) : Z :=
  let min_len := (if (length a <? length b)%nat then length a else length b) in
  let r := if (0 <? min_len)%nat then memcmp min_len a b else 0 in
  if r =? 0 then (if (length a <? length b)%nat then -1 else if (length b <? length a)%nat then 1 else r) else r.
Definition starts_with (a x : bytes) : bool :=
  (length x <=? length a)%nat && (memcmp (length x) a x =? 0).
Definition slice_eqb (x y : bytes) : bool :=
  (length x =? length y)%nat && (memcmp (length x) x y =? 0).
Definition remove_prefix (n : nat) (a : bytes) : bytes := drop n a.
Definition remove_suffix (n : nat) (a : bytes) : bytes := take (length a - n) a.

(** ** Varints *)
(** The loop [for (shift = 0; shift <= 28 && p < limit; shift += 7)]. *)
Fixpoint varint_loop (n : nat) (shift result : Z) (p : bytes) : option (Z * bytes) :=
  match n, p with
  | S n, byte :: p =>
      if negb (Z.land byte 128 =? 0)
      then varint_loop n (shift + 7) (Z.lor result (Z.land byte 127 <<w shift)) p
      else Some (Z.lor result (byte <<w shift), p)
  | _, _ => None
  end.
(** The value and the bytes left before the limit; [None] is [nullptr]. *)
Definition GetVarint32Ptr (p : bytes) : option (Z * bytes) :=
  match p with
  | result :: p' => if Z.land result 128 =? 0 then Some (result, p') else varint_loop 5 0 0 p
  | [] => varint_loop 5 0 0 p
  end.
Definition EncodeVarint32 (v : Z) : bytes :=
  if v <? Z.shiftl 1 7 then [u8 v]
  else if v <? Z.shiftl 1 14 then [u8 (Z.lor v 128); u8 (Z.shiftr v 7)]
  else if v <? Z.shiftl 1 21 then [u8 (Z.lor v 128); u8 (Z.lor (Z.shiftr v 7) 128); u8 (Z.shiftr v 14)]
  else if v <? Z.shiftl 1 28 then
    [u8 (Z.lor v 128); u8 (Z.lor (Z.shiftr v 7) 128); u8 (Z.lor (Z.shiftr v 14) 128); u8 (Z.shiftr v 21)]
  else
    [u8 (Z.lor v 128); u8 (Z.lor (Z.shiftr v 7) 128); u8 (Z.lor (Z.shiftr v 14) 128);
     u8 (Z.lor (Z.shiftr v 21) 128); u8 (Z.shiftr v 28)].
(** [data] is the memory from the pointer on, [None] a null pointer; at most
    five bytes of it are the length.  A malformed length leaves a null slice;
    the result [None] is a slice that runs past the memory. *)
Definition GetLengthPrefixedSlice (data : option bytes) : option bytes :=
  match data with
  | None => Some []
  | Some data =>
      match GetVarint32Ptr (take 5 data) with
      | None => Some []
      | Some (len, rest) =>
          let p := drop (length (take 5 data) - length rest) data in
          if Z.of_nat (length p) <? len then None else Some (take (Z.to_nat len) p)
      end
  end.

(** ** Internal keys: user key, then eight bytes of sequence number and type *)
(** [for (i = 0; i < 8; ++i) trailer |= (uint64_t)p[i] << (i * 8)], from [i]. *)
Fixpoint trailer_loop (p : bytes) (i trailer : Z) : Z :=
  match p with
  | [] => trailer
  | x :: p => trailer_loop p (i + 1) (Z.lor trailer (u64 (Z.shiftl x (i * 8))))
  end.
Definition CompareInternalKeys (a b : bytes) : Z :=
  if (length a <? 8)%nat || (length b <? 8)%nat then slice_compare a b
  else
    let user_a := take (length a - 8) a in
    let user_b := take (length b - 8) b in
    let r := slice_compare user_a user_b in
    if negb (r =? 0) then r
    else
      let trailer_a := trailer_loop (drop (length a - 8) a) 0 0 in
      let trailer_b := trailer_loop (drop (length b - 8) b) 0 0 in
      let seq_a := Z.shiftr trailer_a 8 in
      let seq_b := Z.shiftr trailer_b 8 in
      if seq_a >? seq_b then -1
      else if seq_a <? seq_b then 1
      else
        let type_a := Z.land trailer_a 255 in
        let type_b := Z.land trailer_b 255 in
        if type_a >? type_b then -1 else if type_a <? type_b then 1 else 0.

(** ** The 64-bit prefix the trie is keyed by *)
Definition user_of (internal_key : bytes) : bytes :=
  if (8 <=? length internal_key)%nat then take (length internal_key - 8) internal_key else internal_key.
(** [for (i = 0; i < copy_len; ++i) res |= (uint64_t)user_key[i] << (56 - i * 8)]. *)
Fixpoint prefix_loop (n : nat) (k : bytes) (i res : Z) : Z :=
  match n, k with
  | S n, x :: k => prefix_loop n k (i + 1) (Z.lor res (u64 (Z.shiftl x (56 - i * 8))))
  | _, _ => res
  end.
Definition ExtractSlicePrefix64 (internal_key : bytes) : Z :=
  let user_key := user_of internal_key in
  let copy_len := if (length user_key <? 8)%nat then length user_key else 8%nat in
  prefix_loop copy_len user_key 0 0.
Definition ExtractKeyPrefix64 (prefix_len_key : option bytes) : option Z :=
  internal_key ← GetLengthPrefixedSlice prefix_len_key; Some (ExtractSlicePrefix64 internal_key).

(** ** The lexicographic order *)
Fixpoint lex (a b : bytes) : Z :=
  match a, b with
  | [], [] => 0
  | [], _ :: _ => -1
  | _ :: _, [] => 1
  | x :: a, y :: b => if x <? y then -1 else if y <? x then 1 else lex a b
  end.
Lemma slice_compare_lex a b : slice_compare a b = lex a b.
Proof.
  unfold slice_compare. revert b. induction a as [|x a IH]; intros [|y b]; cbn [length lex]; try done.
  specialize (IH b). assert (∀ m n : nat, (S m <? S n)%nat = (m <? n)%nat) as HS by done. rewrite !HS.
  destruct (length a <? length b)%nat eqn:Hl; cbn [Nat.ltb Nat.leb memcmp].
  all: destruct (Z.ltb_spec x y), (Z.ltb_spec y x); try done; rewrite <- IH.
  all: match goal with |- context [(0 <? ?n)%nat] => destruct n eqn:Hn; [|reflexivity] end; done.
Qed.
Lemma lex_cases a b : lex a b = -1 ∨ lex a b = 0 ∨ lex a b = 1.
Proof.
  revert b. induction a as [|x a IH]; intros [|y b]; cbn [lex]; auto.
  destruct (x <? y), (y <? x); auto.
Qed.
Lemma lex_eq a b : lex a b = 0 ↔ a = b.
Proof.
  revert b. induction a as [|x a IH]; intros [|y b]; cbn [lex]; try done.
  destruct (Z.ltb_spec x y), (Z.ltb_spec y x); try (split; [done|intros [= -> ->]; lia]).
  rewrite IH. assert (x = y) as -> by lia. split; [by intros ->|by intros [= ->]].
Qed.
Lemma lex_antisym a b : lex b a = - lex a b.
Proof.
  revert b. induction a as [|x a IH]; intros [|y b]; cbn [lex]; try done.
  destruct (Z.ltb_spec x y), (Z.ltb_spec y x); try done; lia.
Qed.
Lemma lex_trans a b c : lex a b <= 0 → lex b c <= 0 → lex a c <= 0.
Proof.
  revert b c. induction a as [|x a IH]; intros [|y b] [|z c]; cbn [lex]; try lia.
  destruct (Z.ltb_spec x y), (Z.ltb_spec y x), (Z.ltb_spec y z), (Z.ltb_spec z y), (Z.ltb_spec x z), (Z.ltb_spec z x); try lia.
  apply IH.
Qed.

(** ** Varint round trip *)
Lemma byte_check (P : Z → bool) : forallb (λ n, P (Z.of_nat n)) (seq 0 256) = true → ∀ x, is_u8 x → P x = true.
Proof.
  intros Hf x Hx. rewrite forallb_forall in Hf. specialize (Hf (Z.to_nat x)).
  rewrite Z2Nat.id in Hf by word_lia. apply Hf, in_seq. word_lia.
Qed.
(** A continuation byte: the top bit set over seven bits of [d]. *)
Lemma cont_byte d : 0 <= d → u8 (Z.lor d 128) = 128 + d mod 128.
Proof.
  intros Hd. unfold u8. rewrite <- Z.land_ones, Z.land_lor_distr_l, Z.land_ones by lia. change (Z.land 128 (Z.ones 8)) with 128.
  replace (d mod 128) with ((d mod 2 ^ 8) mod 128) by (apply Z.mod_mod_divide; by exists 2).
  apply Z.eqb_eq. apply (byte_check (λ x, Z.lor x 128 =? 128 + x mod 128)); [vm_compute; reflexivity|].
  apply Z.mod_pos_bound. lia.
Qed.
Lemma cont_bits x : 0 <= x < 128 → Z.land (128 + x) 128 = 128 ∧ Z.land (128 + x) 127 = x.
Proof.
  intros Hx. replace (128 + x) with (Z.lor (1 * 2 ^ 7) x) by (rewrite lor_low; lia). rewrite !Z.land_lor_distr_l.
  assert (Z.land 128 x = 0) as H0 by (apply (land_low 1 x 7); lia). rewrite (Z.land_comm x 128), H0. split; [done|].
  change (Z.land (1 * 2 ^ 7) 127) with 0. rewrite Z.lor_0_l. change 127 with (Z.ones 7). rewrite Z.land_ones by lia. by apply Z.mod_small.
Qed.
Lemma last_bits x : 0 <= x < 128 → Z.land x 128 = 0.
Proof. intros Hx. rewrite Z.land_comm. by apply (land_low 1 x 7). Qed.
(** One continuation byte of the loop, and the last byte. *)
Lemma varint_step n s res d p :
  0 <= d → 0 <= s → 0 <= res < 2 ^ s → s + 7 <= 32 →
  varint_loop (S n) s res (u8 (Z.lor d 128) :: p) = varint_loop n (s + 7) (res + (d mod 128) * 2 ^ s) p.
Proof.
  intros Hd Hk Hres Hb. cbn [varint_loop]. rewrite cont_byte by done. pose proof (Z.mod_pos_bound d 128 ltac:(lia)) as Hm.
  destruct (cont_bits _ Hm) as [-> ->]. cbn [Z.eqb negb]. f_equal.
  assert ((d mod 128) * 2 ^ s < 2 ^ 32) as Hlt.
  { apply Z.lt_le_trans with (2 ^ 7 * 2 ^ s); [apply Z.mul_lt_mono_pos_r; lia|].
    rewrite <- Z.pow_add_r by lia. apply Z.pow_le_mono_r; lia. }
  rewrite Z.shiftl_mul_pow2, u32_small by (unfold is_u32; nia). rewrite Z.lor_comm, lor_low by lia. lia.
Qed.
Lemma varint_last n s res d p :
  0 <= d < 128 → 0 <= s → 0 <= res < 2 ^ s → d * 2 ^ s < 2 ^ 32 →
  varint_loop (S n) s res (d :: p) = Some (res + d * 2 ^ s, p).
Proof.
  intros Hd Hk Hres Hb. cbn [varint_loop]. rewrite last_bits by done. cbn [Z.eqb negb].
  rewrite Z.shiftl_mul_pow2, u32_small by (unfold is_u32; nia). rewrite Z.lor_comm, lor_low by lia. do 2 f_equal. lia.
Qed.
Lemma varint_slow d p : 0 <= d → GetVarint32Ptr (u8 (Z.lor d 128) :: p) = varint_loop 5 0 0 (u8 (Z.lor d 128) :: p).
Proof.
  intros Hd. unfold GetVarint32Ptr. rewrite cont_byte by done.
  destruct (cont_bits (d mod 128)) as [-> _]; [by apply Z.mod_pos_bound|done].
Qed.
Ltac varint_side := first [apply Z.div_pos; lia | Z.to_euclidean_division_equations; lia].
Ltac varint_go :=
  rewrite varint_slow by lia;
  repeat (rewrite varint_step by varint_side;
          match goal with |- varint_loop _ ?s _ _ = _ => let s' := eval vm_compute in s in change s with s' end);
  unfold u8; rewrite (Z.mod_small _ (2 ^ 8)) by varint_side; rewrite varint_last by varint_side; do 2 f_equal; varint_side.

Lemma varint_decode v p : is_u32 v → GetVarint32Ptr (EncodeVarint32 v ++ p) = Some (v, p).
Proof.
  intros Hv. unfold is_u32 in Hv. unfold EncodeVarint32.
  change (Z.shiftl 1 7) with 128. change (Z.shiftl 1 14) with 16384. change (Z.shiftl 1 21) with 2097152. change (Z.shiftl 1 28) with 268435456.
  rewrite !Z.shiftr_div_pow2 by lia. change (2 ^ 7) with 128. change (2 ^ 14) with 16384. change (2 ^ 21) with 2097152. change (2 ^ 28) with 268435456.
  destruct (Z.ltb_spec v 128); [|destruct (Z.ltb_spec v 16384); [|destruct (Z.ltb_spec v 2097152); [|destruct (Z.ltb_spec v 268435456)]]];
    cbn [app].
  1: { unfold GetVarint32Ptr, u8. rewrite Z.mod_small by lia. rewrite last_bits by lia. done. }
  all: varint_go.
Qed.
Lemma varint_length v : (1 <= length (EncodeVarint32 v) <= 5)%nat.
Proof. unfold EncodeVarint32. repeat case_match; cbn; lia. Qed.
Lemma varint_bytes v : is_bytes (EncodeVarint32 v).
Proof. unfold EncodeVarint32, is_bytes. repeat case_match; repeat constructor; apply u8_range. Qed.

(** ** Internal keys *)
Fixpoint le_bytes (n : nat) (z : Z) : bytes :=
  match n with O => [] | S n => z mod 256 :: le_bytes n (z / 256) end.
(** An internal key as RocksDB packs it. *)
Definition internal_key (user : bytes) (seq ty : Z) : bytes := user ++ le_bytes 8 (seq * 256 + ty).
Lemma le_bytes_length n z : length (le_bytes n z) = n.
Proof. revert z. induction n as [|n IH]; intros z; cbn; [done|]. by rewrite IH. Qed.
Lemma le_bytes_bytes n z : is_bytes (le_bytes n z).
Proof. revert z. induction n as [|n IH]; intros z; cbn; constructor; [by apply Z.mod_pos_bound|apply IH]. Qed.
Lemma trailer_le n z i acc :
  0 <= i → i + Z.of_nat n <= 8 → 0 <= z < 256 ^ Z.of_nat n → 0 <= acc < 2 ^ (i * 8) →
  trailer_loop (le_bytes n z) i acc = acc + z * 2 ^ (i * 8).
Proof.
  revert z i acc. induction n as [|n IH]; intros z i acc Hi Hn Hz Hacc; cbn [le_bytes trailer_loop].
  { cbn in Hz. lia. }
  rewrite Nat2Z.inj_succ, Z.pow_succ_r in Hz by lia.
  pose proof (Z.mod_pos_bound z 256 ltac:(lia)) as Hm. pose proof (Z.div_mod z 256 ltac:(lia)) as Hdm.
  assert (2 ^ ((i + 1) * 8) = 256 * 2 ^ (i * 8)) as Hp.
  { replace ((i + 1) * 8) with (8 + i * 8) by lia. by rewrite Z.pow_add_r by lia. }
  assert (0 < 2 ^ (i * 8)) by (apply Z.pow_pos_nonneg; lia).
  assert (256 * 2 ^ (i * 8) <= 2 ^ 64) by (rewrite <- Hp; apply Z.pow_le_mono_r; lia).
  rewrite Z.shiftl_mul_pow2, u64_small by (unfold is_u64; nia). rewrite Z.lor_comm, lor_low by lia.
  rewrite IH; [|lia|lia| |].
  - rewrite Hp. nia.
  - split; [apply Z.div_pos; lia|apply Z.div_lt_upper_bound; lia].
  - rewrite Hp. nia.
Qed.
Lemma internal_key_parts user seq ty :
  0 <= seq < 2 ^ 56 → is_u8 ty →
  let k := internal_key user seq ty in
  (8 <= length k)%nat ∧ take (length k - 8) k = user ∧ trailer_loop (drop (length k - 8) k) 0 0 = seq * 256 + ty.
Proof.
  intros Hs Ht k. unfold k, internal_key. rewrite length_app, le_bytes_length.
  replace (length user + 8 - 8)%nat with (length user) by lia. rewrite take_app_length, drop_app_length.
  split; [lia|]. split; [done|]. rewrite trailer_le; [|lia|lia| |done].
  - lia.
  - change (256 ^ Z.of_nat 8) with (2 ^ 56 * 256). unfold is_u8 in Ht. lia.
Qed.
(** Comparators that answer by sign, and the lexicographic product of two. *)
Record total_order {A} (c : A → A → Z) : Prop := {
  to_eq x y : c x y = 0 ↔ x = y;
  to_anti x y : c y x = - c x y;
  to_trans x y z : c x y <= 0 → c y z <= 0 → c x z <= 0;
}.
Definition then_ (r s : Z) : Z := if r =? 0 then s else r.
Lemma then_total {A B} (c : A → A → Z) (d : B → B → Z) :
  total_order c → total_order d → total_order (λ x y, then_ (c x.1 y.1) (d x.2 y.2)).
Proof.
  intros Hc Hd. split; unfold then_.
  - intros [x1 x2] [y1 y2]. cbn. pose proof (to_eq _ Hc x1 y1). pose proof (to_eq _ Hd x2 y2).
    destruct (Z.eqb_spec (c x1 y1) 0); (split; [intros ?; f_equal; tauto|intros [= -> ->]; tauto]).
  - intros [x1 x2] [y1 y2]. cbn. rewrite (to_anti _ Hc x1 y1), (to_anti _ Hd x2 y2).
    destruct (Z.eqb_spec (c x1 y1) 0) as [->|Hne]; [done|]. by rewrite (proj2 (Z.eqb_neq _ _)) by lia.
  - intros [x1 x2] [y1 y2] [z1 z2]. cbn. intros Hxy Hyz.
    destruct (Z.eqb_spec (c x1 y1) 0) as [Exy|Exy]; [apply (to_eq _ Hc) in Exy as ->|].
    { destruct (Z.eqb_spec (c y1 z1) 0); [|done]. by eapply (to_trans _ Hd). }
    destruct (Z.eqb_spec (c y1 z1) 0) as [Eyz|Eyz]; [apply (to_eq _ Hc) in Eyz as ->; by rewrite (proj2 (Z.eqb_neq _ _))|].
    destruct (Z.eqb_spec (c x1 z1) 0) as [Exz|Exz]; [|by eapply (to_trans _ Hc)].
    apply (to_eq _ Hc) in Exz as ->. rewrite (to_anti _ Hc y1 z1) in *. lia.
Qed.
Lemma lex_total : total_order lex.
Proof. split; [apply lex_eq|apply lex_antisym|apply lex_trans]. Qed.
(** Descending comparison of two numbers. *)
Definition desc (a b : Z) : Z := if a >? b then -1 else if a <? b then 1 else 0.
Lemma desc_total : total_order desc.
Proof.
  split; unfold desc; intros; rewrite !Z.gtb_ltb in *;
    repeat match goal with |- context [?a <? ?b] => destruct (Z.ltb_spec a b)
           | H : context [?a <? ?b] |- _ => destruct (Z.ltb_spec a b) end; lia.
Qed.
(** User keys ascend; under one user key sequence numbers and types descend. *)
Definition key_order (a b : bytes * (Z * Z)) : Z :=
  then_ (lex a.1 b.1) (then_ (desc a.2.1 b.2.1) (desc a.2.2 b.2.2)).
Lemma key_order_total : total_order key_order.
Proof. apply (then_total lex (λ a b, then_ (desc a.1 b.1) (desc a.2 b.2))); [apply lex_total|]. apply then_total; apply desc_total. Qed.

Lemma compare_spec u1 s1 t1 u2 s2 t2 :
  0 <= s1 < 2 ^ 56 → is_u8 t1 → 0 <= s2 < 2 ^ 56 → is_u8 t2 →
  CompareInternalKeys (internal_key u1 s1 t1) (internal_key u2 s2 t2) = key_order (u1, (s1, t1)) (u2, (s2, t2)).
Proof.
  intros Hs1 Ht1 Hs2 Ht2. destruct (internal_key_parts u1 s1 t1) as (Hl1 & Hu1 & Hr1); [done..|].
  destruct (internal_key_parts u2 s2 t2) as (Hl2 & Hu2 & Hr2); [done..|].
  unfold CompareInternalKeys. rewrite Hu1, Hu2, Hr1, Hr2.
  rewrite (proj2 (Nat.ltb_ge _ 8)), (proj2 (Nat.ltb_ge _ 8)) by done. cbn [orb]. rewrite slice_compare_lex.
  assert (∀ s t, 0 <= s → is_u8 t → Z.shiftr (s * 256 + t) 8 = s ∧ Z.land (s * 256 + t) 255 = t) as Hsplit.
  { intros s t Hs Ht. unfold is_u8 in Ht. rewrite Z.shiftr_div_pow2 by lia. change 255 with (Z.ones 8). rewrite Z.land_ones by lia.
    change (2 ^ 8) with 256 in *. split; Z.to_euclidean_division_equations; lia. }
  destruct (Hsplit s1 t1 ltac:(lia) Ht1) as [-> ->]. destruct (Hsplit s2 t2 ltac:(lia) Ht2) as [-> ->].
  unfold key_order, then_, desc. cbn [fst snd]. destruct (lex u1 u2 =? 0); cbn [negb]; [|done].
  destruct (Z.gtb_spec s1 s2), (Z.ltb_spec s1 s2); done.
Qed.

Lemma length_prefixed k tail : Z.of_nat (length k) < 2 ^ 32 → GetLengthPrefixedSlice (Some (EncodeVarint32 (Z.of_nat (length k)) ++ k ++ tail)) = Some k.
Proof.
  intros Hk. unfold GetLengthPrefixedSlice. set (e := EncodeVarint32 _). pose proof (varint_length (Z.of_nat (length k))) as Hl. fold e in Hl.
  rewrite take_app_ge by lia. unfold e at 1. rewrite varint_decode by (unfold is_u32; lia).
  rewrite length_app. replace (length e + _ - _)%nat with (length e) by lia. rewrite drop_app_length.
  rewrite (proj2 (Z.ltb_ge _ _)) by (rewrite length_app; lia). by rewrite Nat2Z.id, take_app_length.
Qed.

(** C32: a [uint32_t] written as a varint is read back exactly, with the bytes
    after it left alone, in one to five bytes; and a length-prefixed key in a
    memtable entry is read back as the key, whatever follows it in memory. *)
Theorem varint_roundtrip v k tail :
  is_u32 v → Z.of_nat (length k) < 2 ^ 32 →
  GetVarint32Ptr (EncodeVarint32 v ++ tail) = Some (v, tail) ∧
  (1 <= length (EncodeVarint32 v) <= 5)%nat ∧ is_bytes (EncodeVarint32 v) ∧
  GetLengthPrefixedSlice (Some (EncodeVarint32 (Z.of_nat (length k)) ++ k ++ tail)) = Some k.
Proof.
  intros Hv Hk. split; [by apply varint_decode|]. split; [apply varint_length|]. split; [apply varint_bytes|]. by apply length_prefixed.
Qed.
Lemma varint_roundtrip_witness :
  GetVarint32Ptr (EncodeVarint32 300 ++ [7]) = Some (300, [7]) ∧
  GetLengthPrefixedSlice (Some (EncodeVarint32 3 ++ [97; 98; 99] ++ [7])) = Some [97; 98; 99].
Proof.
  destruct (varint_roundtrip 300 [97; 98; 99] [7]) as (H1 & _ & _ & H2).
  - split; [discriminate|reflexivity].
  - reflexivity.
  - split; [exact H1|exact H2].
Defined.

(** C33: on packed internal keys the comparator is the order RocksDB relies on
    (user keys ascending, then sequence numbers and types descending), and that
    order is total: comparing the other way round negates the answer, only equal
    keys compare equal, and it is transitive. *)
Theorem internal_key_order a b c :
  (∀ k, k ∈ [a; b; c] → 0 <= k.2.1 < 2 ^ 56 ∧ is_u8 k.2.2) →
  let pack (k : bytes * (Z * Z)) := internal_key k.1 k.2.1 k.2.2 in
  CompareInternalKeys (pack a) (pack b) = key_order a b ∧
  CompareInternalKeys (pack b) (pack a) = - CompareInternalKeys (pack a) (pack b) ∧
  (CompareInternalKeys (pack a) (pack b) = 0 ↔ a = b) ∧
  (CompareInternalKeys (pack a) (pack b) <= 0 → CompareInternalKeys (pack b) (pack c) <= 0 →
   CompareInternalKeys (pack a) (pack c) <= 0).
Proof.
  intros Hk pack. assert (∀ x y, x ∈ [a; b; c] → y ∈ [a; b; c] → CompareInternalKeys (pack x) (pack y) = key_order x y) as Hc.
  { intros [u1 [s1 t1]] [u2 [s2 t2]] Hx Hy. destruct (Hk _ Hx), (Hk _ Hy). by apply compare_spec. }
  assert (a ∈ [a; b; c] ∧ b ∈ [a; b; c] ∧ c ∈ [a; b; c]) as (? & ? & ?) by (rewrite !elem_of_cons; tauto).
  rewrite !Hc by done. pose proof key_order_total as Ho. split; [done|]. split; [apply (to_anti _ Ho)|].
  split; [apply (to_eq _ Ho)|apply (to_trans _ Ho)].
Qed.
Lemma internal_key_order_witness :
  CompareInternalKeys (internal_key [98] 7 1) (internal_key [98] 9 0) = 1 ∧
  CompareInternalKeys (internal_key [97] 7 1) (internal_key [98] 9 0) = -1.
Proof.
  assert (∀ k, k ∈ [([98], (7, 1)); ([98], (9, 0)); ([97], (7, 1))] → 0 <= k.2.1 < 2 ^ 56 ∧ is_u8 k.2.2) as Hk.
  { intros k. rewrite !elem_of_cons, elem_of_nil. intros [->|[->|[->|[]]]]; (split; split; (discriminate || reflexivity)). }
  split.
  - etransitivity; [exact (proj1 (internal_key_order ([98], (7, 1)) ([98], (9, 0)) ([97], (7, 1)) Hk))|]. reflexivity.
  - reflexivity.
Defined.

(** ** The trie's key follows the user key's order *)
(** The first [n] bytes as a big-endian number, short keys padded with zeros. *)
Fixpoint be (n : nat) (k : bytes) : Z :=
  match n, k with S n, x :: k => x * 256 ^ Z.of_nat n + be n k | _, _ => 0 end.
Lemma be_range n k : is_bytes k → 0 <= be n k < 256 ^ Z.of_nat n.
Proof.
  revert k. induction n as [|n IH]; intros k Hk; cbn [be]; [lia|].
  assert (0 < 256 ^ Z.of_nat n) by (apply Z.pow_pos_nonneg; lia).
  rewrite Nat2Z.inj_succ, Z.pow_succ_r by lia. destruct Hk as [|x k Hx Hk]; [lia|].
  specialize (IH k Hk). unfold is_u8 in Hx. nia.
Qed.
Lemma be_mono n a b : is_bytes a → is_bytes b → lex a b <= 0 → be n a <= be n b.
Proof.
  revert a b. induction n as [|n IH]; intros a b Ha Hb; cbn [be]; [lia|].
  assert (0 < 256 ^ Z.of_nat n) by (apply Z.pow_pos_nonneg; lia).
  destruct Ha as [|x a Hx Ha], Hb as [|y b Hy Hb]; cbn [lex]; try lia.
  - pose proof (be_range n b Hb). unfold is_u8 in Hy. nia.
  - pose proof (be_range n a Ha). pose proof (be_range n b Hb). specialize (IH a b Ha Hb).
    destruct (Z.ltb_spec x y), (Z.ltb_spec y x); nia.
Qed.
Lemma prefix_loop_be k (n : nat) i res :
  is_bytes k → 0 <= i → i + Z.of_nat n = 8 → (∃ q, res = q * 2 ^ (64 - 8 * i)) →
  prefix_loop (if (length k <? n)%nat then length k else n) k i res = res + be n k.
Proof.
  intros Hk. revert n i res. induction Hk as [|x k Hx Hk IH]; intros n i res Hi Hn [q Hq].
  { destruct n; cbn; lia. }
  destruct n as [|n]; [cbn; lia|]. cbn [length be].
  replace (if (S (length k) <? S n)%nat then S (length k) else S n) with (S (if (length k <? n)%nat then length k else n))
    by (change (S (length k) <? S n)%nat with (length k <? n)%nat; by destruct (_ <? _)%nat).
  cbn [prefix_loop]. unfold is_u8 in Hx.
  assert (2 ^ (64 - 8 * i) = 256 * 2 ^ (56 - i * 8)) as Hp.
  { replace (64 - 8 * i) with (8 + (56 - i * 8)) by lia. by rewrite Z.pow_add_r by lia. }
  assert (0 < 2 ^ (56 - i * 8)) by (apply Z.pow_pos_nonneg; lia).
  assert (256 * 2 ^ (56 - i * 8) <= 2 ^ 64) by (rewrite <- Hp; apply Z.pow_le_mono_r; lia).
  rewrite Z.shiftl_mul_pow2, u64_small by (unfold is_u64; nia). rewrite Hq, lor_low by (rewrite ?Hp; nia).
  rewrite IH; [|lia|lia|].
  - assert (256 ^ Z.of_nat n = 2 ^ (56 - i * 8)) as ->; [|lia].
    change 256 with (2 ^ 8). rewrite <- Z.pow_mul_r by lia. f_equal. lia.
  - exists (q * 256 + x). rewrite Hp. replace (64 - 8 * (i + 1)) with (56 - i * 8) by lia. lia.
Qed.
Lemma prefix_be k : is_bytes k → ExtractSlicePrefix64 k = be 8 (user_of k).
Proof.
  intros Hk. unfold ExtractSlicePrefix64.
  assert (is_bytes (user_of k)) by (unfold user_of; case_match; [by apply Forall_take|done]).
  rewrite (prefix_loop_be _ 8) by (done || (by exists 0)). lia.
Qed.

(** The 64-bit prefix under which an entry is indexed never inverts the key
    order: of two internal keys, the one that compares first has the smaller or
    an equal prefix, so a smaller prefix in the trie means a smaller key. *)
Theorem prefix_order a b :
  is_bytes a → is_bytes b → (8 <= length a)%nat → (8 <= length b)%nat →
  (CompareInternalKeys a b <= 0 → ExtractSlicePrefix64 a <= ExtractSlicePrefix64 b) ∧
  (ExtractSlicePrefix64 a < ExtractSlicePrefix64 b → CompareInternalKeys a b = -1) ∧
  is_u64 (ExtractSlicePrefix64 a).
Proof.
  intros Ha Hb Hla Hlb. rewrite !prefix_be by done. unfold user_of.
  rewrite (proj2 (Nat.leb_le _ _) Hla), (proj2 (Nat.leb_le _ _) Hlb).
  set (ua := take _ a). set (ub := take _ b).
  assert (is_bytes ua ∧ is_bytes ub) as [Hua Hub] by (split; by apply Forall_take).
  pose proof (lex_cases ua ub) as Hcases. pose proof (be_mono 8 ua ub Hua Hub) as Hm. pose proof (be_mono 8 ub ua Hub Hua) as Hm'.
  rewrite (lex_antisym ua ub) in Hm'.
  assert (∀ r, (if negb (lex ua ub =? 0) then lex ua ub else r) = -1 ∨ lex ua ub = 0 ∨ lex ua ub = 1) as Hif.
  { intros r. destruct Hcases as [->|[->| ->]]; auto. }
  unfold CompareInternalKeys. rewrite (proj2 (Nat.ltb_ge _ 8)), (proj2 (Nat.ltb_ge _ 8)) by done. cbn [orb].
  rewrite slice_compare_lex. fold ua ub. split; [|split].
  - intros Hc. apply Hm. destruct Hcases as [Hx|[Hx|Hx]]; [lia|lia|]. rewrite Hx in Hc. cbn in Hc. lia.
  - intros Hlt. destruct Hcases as [Hx|[Hx|Hx]]; [by rewrite Hx| |]; exfalso; lia.
  - unfold is_u64. pose proof (be_range 8 ua Hua). change (256 ^ Z.of_nat 8) with (2 ^ 64) in *. lia.
Qed.
Lemma prefix_order_witness :
  ExtractSlicePrefix64 (internal_key [97; 98] 5 1) < ExtractSlicePrefix64 (internal_key [97; 99] 5 1) ∧
  CompareInternalKeys (internal_key [97; 98] 5 1) (internal_key [97; 99] 5 1) = -1.
Proof.
  split; [reflexivity|]. apply prefix_order.
  - repeat constructor; (discriminate || reflexivity).
  - repeat constructor; (discriminate || reflexivity).
  - apply Nat.leb_le. reflexivity.
  - apply Nat.leb_le. reflexivity.
  - reflexivity.
Defined.
