(* ===== verification/RocksArena.v ===== *)
(** * The bump allocator of the RocksDB memtable

    Model of [class Arena] of
    [src/integrations/rocksdb/include/expanse_memtable.h].  Addresses and sizes
    are 64-bit; where [make_unique<char[]>(n)] puts a block is an argument of
    the operations ([new_at]), and what the language promises of it (aligned for
    any fundamental type, apart from every live block) is [fresh]. *)
From stdpp Require Import base numbers list.
From S2P Require Import Prelude.
Open Scope Z_scope.

Record Arena := MkArena {
  blocks_ : list (Z * Z);  (** address and size, newest first *)
  block_size_ : Z;
  alloc_bytes_remaining_ : Z;
  alloc_ptr_ : Z;  (** 0 is [nullptr] *)
  total_allocated_ : Z;
}.
Definition arena_new (block_size : Z) : Arena := MkArena [] block_size 0 0 0.

Definition AllocateFallback (new_at bytes : Z) (a : Arena) : Z * Arena :=
  if bytes >? block_size_ a / 4 then
    (new_at, MkArena ((new_at, bytes) :: blocks_ a) (block_size_ a) (alloc_bytes_remaining_ a) (alloc_ptr_ a)
               (u64 (total_allocated_ a + bytes)))
  else
    (new_at, MkArena ((new_at, block_size_ a) :: blocks_ a) (block_size_ a) (u64 (block_size_ a - bytes))
               (u64 (new_at + bytes)) (u64 (total_allocated_ a + block_size_ a))).
Definition Allocate (new_at bytes : Z) (a : Arena) : Z * Arena :=
  if bytes <=? alloc_bytes_remaining_ a then
    (alloc_ptr_ a, MkArena (blocks_ a) (block_size_ a) (u64 (alloc_bytes_remaining_ a - bytes))
                     (u64 (alloc_ptr_ a + bytes)) (total_allocated_ a))
  else AllocateFallback new_at bytes a.
Definition AllocateAligned (new_at bytes : Z) (a : Arena) : Z * Arena :=
  let current_mod := Z.land (alloc_ptr_ a) 7 in
  let slop := if current_mod =? 0 then 0 else 8 - current_mod in
  let needed := u64 (bytes + slop) in
  if needed <=? alloc_bytes_remaining_ a then
    (u64 (alloc_ptr_ a + slop), MkArena (blocks_ a) (block_size_ a) (u64 (alloc_bytes_remaining_ a - needed))
                                  (u64 (alloc_ptr_ a + needed)) (total_allocated_ a))
  else AllocateFallback new_at bytes a.
Definition BlockSize (a : Arena) : Z := block_size_ a.
Definition ApproximateMemoryUsage (a : Arena) : Z := total_allocated_ a.

(** ** Runs of allocations *)
Record request := Req { rq_aligned : bool; rq_bytes : Z; rq_at : Z }.
Definition serve (r : request) (a : Arena) : Z * Arena :=
  if rq_aligned r then AllocateAligned (rq_at r) (rq_bytes r) a else Allocate (rq_at r) (rq_bytes r) a.
(** The regions handed out, newest first. *)
Fixpoint serve_all (rs : list request) (a : Arena) (out : list (Z * Z)) : Arena * list (Z * Z) :=
  match rs with
  | [] => (a, out)
  | r :: rs => let '(p, a) := serve r a in serve_all rs a ((p, rq_bytes r) :: out)
  end.

Definition apart (r s : Z * Z) : Prop := r.2 <= 0 ∨ s.2 <= 0 ∨ r.1 + r.2 <= s.1 ∨ s.1 + s.2 <= r.1.
Definition inside (r b : Z * Z) : Prop := r.2 = 0 ∨ b.1 <= r.1 ∧ r.1 + r.2 <= b.1 + b.2.
(** What [new char[n]] promises. *)
Definition fresh (at_ n : Z) (bs : list (Z * Z)) : Prop :=
  0 < at_ ∧ at_ + n < 2 ^ 64 ∧ at_ mod 8 = 0 ∧ Forall (apart (at_, n)) bs.
(** The size of the block a fallback asks for. *)
Definition ask (bytes : Z) (a : Arena) : Z := if bytes >? block_size_ a / 4 then bytes else block_size_ a.
Fixpoint served_ok (rs : list request) (a : Arena) : Prop :=
  match rs with
  | [] => True
  | r :: rs =>
      0 <= rq_bytes r < 2 ^ 63 ∧ fresh (rq_at r) (ask (rq_bytes r) a) (blocks_ a) ∧ served_ok rs (serve r a).2
  end.
Fixpoint pairwise_apart (l : list (Z * Z)) : Prop :=
  match l with [] => True | r :: l => Forall (apart r) l ∧ pairwise_apart l end.

(** ** Invariant *)
Definition cursor (a : Arena) : Z * Z := (alloc_ptr_ a, alloc_bytes_remaining_ a).
Record arena_inv (a : Arena) (out : list (Z * Z)) : Prop := {
  av_size : 0 <= block_size_ a < 2 ^ 63;
  av_rem : 0 <= alloc_bytes_remaining_ a;
  av_ptr : 0 <= alloc_ptr_ a ∧ alloc_ptr_ a + alloc_bytes_remaining_ a < 2 ^ 64;
  av_blocks : Forall (λ b, 0 <= b.2) (blocks_ a) ∧ pairwise_apart (blocks_ a);
  av_cursor : alloc_bytes_remaining_ a = 0 ∨ Exists (inside (cursor a)) (blocks_ a);
  av_out : Forall (λ r, r.2 = 0 ∨ Exists (inside r) (blocks_ a)) out;
  av_free : Forall (apart (cursor a)) out;
  av_nonneg : Forall (λ r, 0 <= r.2) out;
  av_apart : pairwise_apart out;
  av_total : total_allocated_ a = u64 (foldr Z.add 0 (blocks_ a).*2);
}.

Lemma apart_inside r s b c : apart b c → inside r b → inside s c → 0 <= r.2 → 0 <= s.2 → apart r s.
Proof. unfold apart, inside. lia. Qed.
Lemma apart_fresh b bs (r : Z * Z) :
  Forall (apart b) bs → r.2 = 0 ∨ Exists (inside r) bs → ∀ s, inside s b → 0 <= s.2 → 0 <= r.2 → apart s r.
Proof.
  intros Hb [Hr|Hr] s Hs Hs0 Hr0; [right; left; lia|]. rewrite Exists_exists in Hr. destruct Hr as (c & Hc & Hrc).
  rewrite Forall_forall in Hb. by apply (apart_inside s r b c); auto.
Qed.
Lemma inside_cons r b bs : r.2 = 0 ∨ Exists (inside r) bs → r.2 = 0 ∨ Exists (inside r) (b :: bs).
Proof. intros [?|?]; [by left|right; by right]. Qed.

(** Handing out [bytes] of the current block, [k] bytes past the cursor. *)
Lemma inv_bump a out k bytes :
  arena_inv a out → 0 <= k → 0 <= bytes → k + bytes <= alloc_bytes_remaining_ a →
  arena_inv (MkArena (blocks_ a) (block_size_ a) (alloc_bytes_remaining_ a - (k + bytes)) (alloc_ptr_ a + (k + bytes))
               (total_allocated_ a)) ((alloc_ptr_ a + k, bytes) :: out).
Proof.
  intros [Hsz Hrem [Hp0 Hp] Hb Hc Ho Hf Hnn Hap Ht] Hk Hbytes Hle.
  assert (bytes = 0 ∨ Exists (inside (alloc_ptr_ a + k, bytes)) (blocks_ a)) as Hin.
  { destruct Hc as [Hc|Hc]; [left; lia|right]. eapply Exists_impl; [exact Hc|]. intros [b n] [Hx|Hx]; cbn in *; [left|right]; cbn; lia. }
  constructor; cbn; try done; try lia.
  - destruct Hc as [Hc|Hc]; [left; lia|right]. eapply Exists_impl; [exact Hc|]. intros [b n] [Hx|Hx]; cbn in *; [left|right]; cbn; lia.
  - by constructor.
  - constructor; [unfold apart, cursor; cbn; lia|]. eapply Forall_impl; [exact (proj2 (Forall_and _ _) (conj Hf Hnn))|].
    intros [q m]. unfold apart, cursor. cbn. lia.
  - constructor; [cbn; lia|done].
  - split; [|done]. eapply Forall_impl; [exact Hf|]. intros [q m]. unfold apart, cursor. cbn. lia.
Qed.
Lemma apart_all a out b s :
  arena_inv a out → Forall (apart b) (blocks_ a) → inside s b → 0 <= s.2 → Forall (apart s) out.
Proof.
  intros Hi Hb Hs Hs0. eapply Forall_impl; [exact (proj2 (Forall_and _ _) (conj (av_out _ _ Hi) (av_nonneg _ _ Hi)))|].
  intros r [Hr Hr0]. by eapply apart_fresh.
Qed.
Lemma u64_add_l x y : u64 (u64 x + y) = u64 (y + x).
Proof. unfold u64. rewrite Zplus_mod_idemp_l. f_equal. lia. Qed.
Lemma inv_fallback a out new_at bytes :
  arena_inv a out → 0 <= bytes < 2 ^ 63 → fresh new_at (ask bytes a) (blocks_ a) →
  (AllocateFallback new_at bytes a).1 = new_at ∧
  arena_inv (AllocateFallback new_at bytes a).2 ((new_at, bytes) :: out).
Proof.
  intros Hi Hbytes (Hat0 & Hat & Hal & Hap). pose proof Hi as [Hsz Hrem [Hp0 Hp] [Hb Hbp] Hc Ho Hf Hnn Hpa Ht].
  unfold AllocateFallback, ask in *. rewrite Z.gtb_ltb in *. destruct (Z.ltb_spec (block_size_ a / 4) bytes) as [Hbig|Hsmall]; (split; [done|]).
  - constructor; cbn; try done; try lia.
    + split; [constructor; [cbn; lia|done]|by split].
    + by apply (inside_cons (cursor a)).
    + constructor; [right; left; right; cbn; lia|]. eapply Forall_impl; [exact Ho|]. intros r. apply inside_cons.
    + constructor; [|done]. cut (apart (new_at, bytes) (cursor a)); [unfold apart; cbn; lia|].
      by apply (apart_fresh _ (blocks_ a) (cursor a) Hap); [|right; cbn; lia|cbn; lia|].
    + constructor; [cbn; lia|done].
    + split; [|done]. apply (apart_all a out (new_at, bytes)); [done|done|right; cbn; lia|cbn; lia].
    + by rewrite Ht, u64_add_l.
  - assert (4 * bytes <= block_size_ a) by (Z.to_euclidean_division_equations; lia).
    rewrite (u64_small (_ - bytes)), (u64_small (new_at + bytes)) by (unfold is_u64; lia).
    constructor; cbn; try done; try lia.
    + split; [constructor; [cbn; lia|done]|by split].
    + right. left. right. cbn. lia.
    + constructor; [right; left; right; cbn; lia|]. eapply Forall_impl; [exact Ho|]. intros r. apply inside_cons.
    + constructor; [unfold apart; cbn; lia|]. apply (apart_all a out (new_at, block_size_ a)); [done|done|right; cbn; lia|cbn; lia].
    + constructor; [cbn; lia|done].
    + split; [|done]. apply (apart_all a out (new_at, block_size_ a)); [done|done|right; cbn; lia|cbn; lia].
    + by rewrite Ht, u64_add_l.
Qed.
Lemma inv_serve r a out :
  arena_inv a out → 0 <= rq_bytes r < 2 ^ 63 → fresh (rq_at r) (ask (rq_bytes r) a) (blocks_ a) →
  arena_inv (serve r a).2 (((serve r a).1, rq_bytes r) :: out) ∧
  (rq_aligned r = true → 0 < rq_bytes r → (serve r a).1 mod 8 = 0).
Proof.
  intros Hi Hb Hfr. pose proof Hi as [Hsz Hrem [Hp0 Hp] _ _ _ _ _ _ _]. destruct (inv_fallback a out _ _ Hi Hb Hfr) as [Hfp Hfi].
  assert ((AllocateFallback (rq_at r) (rq_bytes r) a).1 mod 8 = 0) as Hf8 by (rewrite Hfp; apply Hfr).
  unfold serve. destruct (rq_aligned r).
  - unfold AllocateAligned. set (slop := if _ =? 0 then 0 else _).
    assert (0 <= slop < 8 ∧ (alloc_ptr_ a + slop) mod 8 = 0) as [Hs Hmod].
    { unfold slop. change 7 with (Z.ones 3). rewrite Z.land_ones by lia. change (2 ^ 3) with 8.
      destruct (Z.eqb_spec (alloc_ptr_ a mod 8) 0); Z.to_euclidean_division_equations; lia. }
    rewrite (u64_small (rq_bytes r + slop)) by (unfold is_u64; lia).
    destruct (Z.leb_spec (rq_bytes r + slop) (alloc_bytes_remaining_ a)); [|rewrite Hfp in *; done].
    rewrite (u64_small (_ - _)), !(u64_small (_ + _)) by (unfold is_u64; lia). cbn [fst snd].
    split; [|done]. rewrite (Z.add_comm (rq_bytes r) slop). apply inv_bump; (done || lia).
  - unfold Allocate. destruct (Z.leb_spec (rq_bytes r) (alloc_bytes_remaining_ a)); [|rewrite Hfp in *; done].
    rewrite (u64_small (_ - _)), (u64_small (_ + _)) by (unfold is_u64; lia). split; [|done]. cbn [fst snd].
    pose proof (inv_bump a out 0 (rq_bytes r) Hi) as Hx. rewrite Z.add_0_l, Z.add_0_r in Hx. apply Hx; lia.
Qed.
Lemma inv_serve_all rs a out : arena_inv a out → served_ok rs a → arena_inv (serve_all rs a out).1 (serve_all rs a out).2.
Proof.
  revert a out. induction rs as [|r rs IH]; intros a out Hi; cbn [serve_all served_ok]; [done|].
  intros (Hb & Hfr & Hrs). destruct (inv_serve r a out Hi Hb Hfr) as [Hi' _]. destruct (serve r a) as [p a']. by apply IH.
Qed.
Lemma inv_new n : 0 <= n < 2 ^ 63 → arena_inv (arena_new n) [].
Proof. intros Hn. constructor; cbn; (done || lia || by left). Qed.

(** C34: after any run of plain and aligned allocations from a fresh arena, the
    regions handed out do not overlap one another, each lies inside a block the
    arena owns, the free tail of the current block overlaps none of them, the
    memory usage reported is the sum of the blocks (modulo 2^64), and the next
    aligned allocation is 8-byte aligned. *)
Theorem arena_disjoint n rs r :
  0 <= n < 2 ^ 63 → served_ok (rs ++ [r]) (arena_new n) →
  let '(a, out) := serve_all rs (arena_new n) [] in
  pairwise_apart out ∧
  Forall (λ s, s.2 = 0 ∨ Exists (inside s) (blocks_ a)) out ∧
  Forall (apart (alloc_ptr_ a, alloc_bytes_remaining_ a)) out ∧
  ApproximateMemoryUsage a = u64 (foldr Z.add 0 (blocks_ a).*2) ∧
  Forall (apart ((serve r a).1, rq_bytes r)) out ∧
  (rq_aligned r = true → 0 < rq_bytes r → (serve r a).1 mod 8 = 0).
Proof.
  intros Hn Hok.
  assert (∀ a out, served_ok (rs ++ [r]) a → arena_inv a out →
    served_ok [r] (serve_all rs a out).1 ∧ arena_inv (serve_all rs a out).1 (serve_all rs a out).2) as Hgen.
  { clear. induction rs as [|q rs IH]; intros a out Hok Hi; [done|]. cbn [app served_ok] in Hok. destruct Hok as (Hb & Hfr & Hok).
    destruct (inv_serve q a out Hi Hb Hfr) as [Hi' _]. cbn [serve_all]. destruct (serve q a) as [p a']. by apply IH. }
  destruct (Hgen (arena_new n) [] Hok (inv_new n Hn)) as [(Hb & Hfr & _) Hi].
  destruct (serve_all rs (arena_new n) []) as [a out]. cbn [fst snd] in *. destruct (inv_serve r a out Hi Hb Hfr) as [Hi' Hal].
  pose proof (av_apart _ _ Hi') as [Hnew _]. destruct Hi. by split_and!.
Qed.
Lemma arena_disjoint_witness :
  let '(a, out) := serve_all [Req false 10 4096; Req true 16 16384; Req true 5000 16384] (arena_new 4096) [] in
  pairwise_apart out ∧ out = [(16384, 5000); (4112, 16); (4096, 10)] ∧ (serve (Req true 8 40960) a).1 mod 8 = 0.
Proof.
  pose proof (arena_disjoint 4096 [Req false 10 4096; Req true 16 16384; Req true 5000 16384] (Req true 8 40960)) as Hx.
  destruct Hx as (Hp & _ & _ & _ & _ & Hal).
  - split; [discriminate|reflexivity].
  - cbn [served_ok app]. unfold fresh. repeat split; try (vm_compute; reflexivity || discriminate).
    all: match goal with |- Forall (apart ?p) ?l =>
           let p' := eval vm_compute in p in let l' := eval vm_compute in l in change (Forall (apart p') l') end.
    all: repeat constructor; unfold apart; cbn; lia.
  - split; [exact Hp|]. split; [reflexivity|]. apply Hal; reflexivity.
Defined.
