(* ===== verification/HarnessOut.v ===== *)
(** * The harness's output, heap and instruments

    Model of the first part of [src/integrations/stm32h747/main.c]: decimal and
    hexadecimal printing, the result lines, the M4's text buffer and the M7's
    dump of it, [_sbrk], the DWT profile, the cache maintenance sweep, the MPU
    regions, the clock settings and the writer's pacing.  Characters are bytes;
    a printing function is the list of characters it passes to [out_putc]. *)
From Stdlib Require Import String Ascii.
From stdpp Require Import base numbers list gmap.
From S2P Require Import Prelude.
Open Scope Z_scope.
Abbreviation length := List.length.

Definition chars (s : string) : list Z := (λ c, Z.of_N (N_of_ascii c)) <$> list_ascii_of_string s.

(** ** Printing *)
(** [do { b[--i] = '0' + v % 10; v /= 10; } while (v)], at most [fuel] digits. *)
Fixpoint u32_digits (fuel : nat) (b : list Z) (i v : Z) : option (list Z * Z) :=
  match fuel with
  | O => None
  | S fuel =>
      b ← arr_set b (i - 1) (48 + v mod 10);
      if v / 10 =? 0 then Some (b, i - 1) else u32_digits fuel b (i - 1) (v / 10)
  end.
(** The characters from [&b[i]] to the terminator. *)
Definition c_str (b : list Z) (i : Z) : list Z :=
  (fix go l := match l with [] => [] | c :: l => if (c =? 0)%Z then [] else c :: go l end) (drop (Z.to_nat i) b).
Definition uart_u32 (v : Z) : option (list Z) :=
  b ← arr_set (replicate 11 0) 10 0;
  '(b, i) ← u32_digits 10 b 10 v;
  Some (c_str b i).
Definition hex_char (n : Z) : option Z := arr_get (chars "0123456789abcdef") n.
(** [for (int i = 28; i >= 0; i -= 4) out_putc(h[(v >> i) & 0xF])], [n] digits. *)
Fixpoint hex_loop (n : nat) (v i : Z) : option (list Z) :=
  match n with
  | O => Some []
  | S n => c ← hex_char (Z.land (Z.shiftr v i) 15); l ← hex_loop n v (i - 4); Some (c :: l)
  end.
Definition uart_hex (v : Z) : option (list Z) := l ← hex_loop 8 v 28; Some (chars "0x" ++ l).
Definition kv (k : string) (v : Z) : option (list Z) := d ← uart_u32 v; Some ([32] ++ chars k ++ [61] ++ d).
Definition ks (k v : string) : list Z := [32] ++ chars k ++ [61] ++ chars v.
(** The [kv] pairs of a line, in order. *)
Fixpoint kvs (l : list (string * Z)) : option (list Z) :=
  match l with [] => Some [] | (k, v) :: l => a ← kv k v; b ← kvs l; Some (a ++ b) end.
Definition crlf : list Z := [13; 10].

Section Lines.
  Context (CORE_NAME : string) (sysclk_hz : Z).
Definition result (name impl : string) (dcache pass cycles ops : Z) : option (list Z) :=
  n ← kvs [("sysclk", sysclk_hz); ("dcache", dcache); ("pass", pass); ("cycles", cycles); ("ops", ops)]%string;
  Some (chars "RESULT name=" ++ chars name ++ ks "impl" impl ++ ks "core" CORE_NAME ++ n ++ crlf).
Definition fault_report (what : string) (hfsr cfsr : Z) : option (list Z) :=
  h ← uart_hex hfsr; c ← uart_hex cfsr;
  Some (chars "FAULT core=" ++ chars CORE_NAME ++ [32] ++ chars what ++ chars " hfsr=" ++ h ++ chars " cfsr=" ++ c ++ crlf).
End Lines.

(** ** The M4's text buffer and the M7's dump *)
Definition SHM_TEXT_SIZE : Z := 49152.
Record text := Text { text_buf : list Z; text_len : Z; text_overflow : Z }.
Definition out_putc (c : Z) (t : text) : option text :=
  if text_len t <? SHM_TEXT_SIZE
  then b ← arr_set (text_buf t) (text_len t) c; Some (Text b (text_len t +w 1) (text_overflow t))
  else Some (Text (text_buf t) (text_len t) 1).
Fixpoint uart_puts (s : list Z) (t : text) : option text :=
  match s with [] => Some t | c :: s => t ← out_putc c t; uart_puts s t end.
(** [for (i = 0; i < n; i++) out_putc(SHM_TEXT[i])] of [m4_turn]. *)
Fixpoint dump_loop (n : nat) (i : Z) (b : list Z) : option (list Z) :=
  match n with O => Some [] | S n => c ← arr_get b i; l ← dump_loop n (i + 1) b; Some (c :: l) end.
Definition dump_text (t : text) : option (list Z) :=
  let n := if text_len t >? SHM_TEXT_SIZE then SHM_TEXT_SIZE else text_len t in
  l ← dump_loop (Z.to_nat n) 0 (text_buf t);
  Some (l ++ if text_overflow t =? 0 then [] else chars "CHECK m4 text buffer overflowed" ++ crlf).

(** ** Heap *)
Record brk_t := Brk { brk : Z; brk_hwm : Z }.
Definition _sbrk (heap_end incr : Z) (h : brk_t) : option Z * brk_t :=
  if brk h +w incr >? heap_end then (None, h)
  else
    let b := brk h +w incr in
    (Some (brk h), Brk b (if b >? brk_hwm h then b else brk_hwm h)).

(** ** The DWT profile *)
Record dwt_prof := DwtProf {
  d_cycles : Z; d_cpi : Z; d_exc : Z; d_sleep : Z; d_lsu : Z; d_fold : Z;
  d_cpi_max : Z; d_lsu_max : Z; d_suspect : Z;
}.
Record dwt_snap := DwtSnap { s_cyc : Z; s_cpi : Z; s_exc : Z; s_sleep : Z; s_lsu : Z; s_fold : Z }.
Definition dwt_acc (p : dwt_prof) (a b : dwt_snap) : dwt_prof :=
  let cy := s_cyc b -w s_cyc a in
  let cpi := Z.land (s_cpi b -w s_cpi a) 255 in
  let exc := Z.land (s_exc b -w s_exc a) 255 in
  let sl := Z.land (s_sleep b -w s_sleep a) 255 in
  let lsu := Z.land (s_lsu b -w s_lsu a) 255 in
  let fold := Z.land (s_fold b -w s_fold a) 255 in
  DwtProf (d_cycles p +w cy) (d_cpi p +w cpi) (d_exc p +w exc) (d_sleep p +w sl) (d_lsu p +w lsu) (d_fold p +w fold)
    (if cpi >? d_cpi_max p then cpi else d_cpi_max p) (if lsu >? d_lsu_max p then lsu else d_lsu_max p)
    (if cpi +w exc +w sl +w lsu >=? cy +w fold then d_suspect p +w 1 else d_suspect p).

(** ** Caches and MPU *)
(** The values written by the two loops over sets and ways. *)
Definition dcache_set_way (ccsidr : Z) : list Z :=
  let sets := Z.land (Z.shiftr ccsidr 13) 32767 in
  let ways := Z.land (Z.shiftr ccsidr 3) 1023 in
  s ← seqZ 0 (sets + 1); w ← seqZ 0 (ways + 1); [Z.lor (s <<w 5) (w <<w 30)].
Definition MPU_ATTR_NONCACHE : Z := Z.lor (Z.lor (Z.lor (Z.shiftl 3 24) (Z.shiftl 1 28)) (Z.shiftl 1 19)) (Z.shiftl 1 18).
Definition HEAP_BASE : Z := 603979776.
(** The three registers [mpu_region] writes: number, base, attributes and size. *)
Definition mpu_region (n base size_log2 attrs : Z) (enable : bool) : Z * Z * Z :=
  (n, base, if enable then Z.lor (Z.lor attrs ((size_log2 -w 1) <<w 1)) 1 else 0).

(** ** Pacing *)
Definition wrng_next (w : Z) : Z :=
  let w := Z.lxor w (w <<w 13) in
  let w := Z.lxor w (Z.shiftr w 17) in
  Z.lxor w (w <<w 5).
(** The gap and the generator's next state; [None] is a division by zero. *)
Definition gap_of (period wrng : Z) : option (Z * Z) :=
  let wrng := wrng_next wrng in
  if period =? 0 then None else Some (period / 2 +w wrng mod period, wrng).
Definition period_of (sysclk_hz rate : Z) : Z := if rate =? 0 then 0 else sysclk_hz / rate.

(** [wait_flag]: the flag and the cycle counter as read in each turn of the
    loop; [None] means that the readings given ran out. *)
Fixpoint wait_flag (sysclk_hz want secs : Z) (rs : list (Z * Z)) (t0 elapsed : Z) : option bool :=
  match rs with
  | [] => None
  | (flag, now) :: rs =>
      if flag =? want then Some true
      else if now -w t0 >=? sysclk_hz then
        if elapsed +w 1 >=? secs then Some false
        else wait_flag sysclk_hz want secs rs (t0 +w sysclk_hz) (elapsed +w 1)
      else wait_flag sysclk_hz want secs rs t0 elapsed
  end.

(** ** Numbers are read back *)
Definition dec_of (l : list Z) : Z := foldl (λ a c, a * 10 + (c - 48)) 0 l.
Definition hex_val (c : Z) : Z := if c <? 58 then c - 48 else c - 87.
Definition hex_of (a : Z) (l : list Z) : Z := foldl (λ a c, a * 16 + hex_val c) a l.
Definition is_digit (c : Z) : Prop := 48 <= c <= 57.

Lemma c_str_cons b i c b' :
  arr_set b (i - 1) c = Some b' → 1 <= i → c ≠ 0 → c_str b' (i - 1) = c :: c_str b i.
Proof.
  intros Hs Hi Hc. apply arr_set_inv in Hs as [Hr ->]. unfold c_str.
  rewrite (drop_S _ c) by (rewrite list_lookup_insert_eq; [done|lia]).
  rewrite drop_insert_lt by lia. replace (S (Z.to_nat (i - 1))) with (Z.to_nat i) by lia.
  by rewrite (proj2 (Z.eqb_neq _ _) Hc).
Qed.
(** The decimal digits of [v]. *)
Lemma u32_digits_spec fuel b i v :
  0 <= v < 10 ^ Z.of_nat fuel → (0 < fuel)%nat → Z.of_nat fuel <= i → i <= Z.of_nat (length b) →
  ∃ b' i' D, u32_digits fuel b i v = Some (b', i') ∧ c_str b' i' = D ++ c_str b i ∧ dec_of D = v ∧
    Forall is_digit D ∧ (1 <= length D <= fuel)%nat ∧ (v ≠ 0 → head D ≠ Some 48).
Proof.
  revert b i v. induction fuel as [|fuel IH]; intros b i v Hv Hf Hi Hl; [lia|]. cbn [u32_digits].
  pose proof (Z.mod_pos_bound v 10 ltac:(lia)) as Hm. pose proof (Z.div_mod v 10 ltac:(lia)) as Hdm.
  destruct (arr_set b (i - 1) (48 + v mod 10)) as [b1|] eqn:Hs; [|rewrite arr_set_Some in Hs by lia; done].
  cbn [mbind option_bind]. pose proof (c_str_cons b i _ b1 Hs ltac:(lia) ltac:(lia)) as Hc.
  destruct (Z.eqb_spec (v / 10) 0) as [H0|H0].
  - exists b1, (i - 1), [48 + v mod 10]. split; [done|]. split; [done|]. split; [cbn; lia|].
    split; [constructor; [unfold is_digit; lia|done]|]. split; [cbn; lia|]. cbn. intros Hv0 [= Hx]. lia.
  - rewrite Nat2Z.inj_succ, Z.pow_succ_r in Hv by lia.
    assert (0 <= v / 10 < 10 ^ Z.of_nat fuel) as Hv' by (split; [apply Z.div_pos; lia|apply Z.div_lt_upper_bound; lia]).
    destruct fuel as [|fuel]; [cbn in Hv'; lia|].
    destruct (IH b1 (i - 1) (v / 10)) as (b' & i' & D & Hd & Hcs & Hval & Hdig & Hlen & Hlead);
      [done|lia|lia|rewrite (arr_set_length _ _ _ _ Hs); lia|].
    exists b', i', (D ++ [48 + v mod 10]). split; [done|]. split; [rewrite Hcs, Hc, <- app_assoc; done|].
    split; [unfold dec_of in *; rewrite foldl_app, Hval; cbn; lia|].
    split; [apply Forall_app; split; [done|constructor; [unfold is_digit; lia|done]]|].
    split; [rewrite length_app; cbn; lia|]. intros _. destruct D as [|d D]; [cbn in Hlen; lia|]. by apply Hlead.
Qed.
Lemma hex_char_val d : 0 <= d < 16 → ∃ c, hex_char d = Some c ∧ hex_val c = d.
Proof.
  intros Hd. assert (forallb (λ n, match hex_char (Z.of_nat n) with Some c => hex_val c =? Z.of_nat n | None => false end) (seq 0 16) = true) as Hf
    by (vm_compute; reflexivity).
  rewrite forallb_forall in Hf. specialize (Hf (Z.to_nat d)). rewrite Z2Nat.id in Hf by lia.
  destruct (hex_char d) as [c|]; [|by discriminate Hf; apply in_seq; lia]. exists c. split; [done|]. apply Z.eqb_eq, Hf, in_seq. lia.
Qed.
Lemma hex_loop_spec n v a i :
  i = 4 * (Z.of_nat n - 1) → 0 <= v →
  ∃ l, hex_loop n v i = Some l ∧ length l = n ∧ hex_of a l = a * 16 ^ Z.of_nat n + v mod 16 ^ Z.of_nat n.
Proof.
  intros Hi Hv. revert a i Hi. induction n as [|n IH]; intros a i Hi; cbn [hex_loop].
  { exists []. split; [done|]. split; [done|]. cbn. rewrite Z.mod_1_r. lia. }
  change 15 with (Z.ones 4). rewrite Z.land_ones, Z.shiftr_div_pow2 by lia.
  set (d := (v / 2 ^ i) mod 2 ^ 4). assert (0 <= d < 16) as Hd by (apply Z.mod_pos_bound; lia).
  destruct (hex_char_val d Hd) as (c & -> & Hc). cbn [mbind option_bind].
  destruct (IH (a * 16 + d) (i - 4)) as (l & -> & Hl & Hval); [lia|]. cbn [mbind option_bind].
  exists (c :: l). split; [done|]. split; [cbn; lia|]. cbn [hex_of foldl]. fold (hex_of (a * 16 + hex_val c) l). rewrite Hc, Hval.
  rewrite Nat2Z.inj_succ, Z.pow_succ_r by lia.
  assert (2 ^ i = 16 ^ Z.of_nat n) as Hp by (change 16 with (2 ^ 4); rewrite <- Z.pow_mul_r by lia; f_equal; lia).
  unfold d. rewrite Hp. change (2 ^ 4) with 16. assert (0 < 16 ^ Z.of_nat n) by (apply Z.pow_pos_nonneg; lia).
  rewrite (Z.mul_comm 16), Z.rem_mul_r by lia. lia.
Qed.

(** What the harness prints can be read back: every [uint32_t] prints as one
    to ten decimal digits, without leading zeros, inside the eleven-byte buffer,
    and they denote it; in hexadecimal as [0x] and eight digits that denote it. *)
Theorem numbers_read_back v :
  is_u32 v →
  (∃ s, uart_u32 v = Some s ∧ dec_of s = v ∧ Forall is_digit s ∧ (1 <= length s <= 10)%nat ∧ (v ≠ 0 → head s ≠ Some 48)) ∧
  (∃ s, uart_hex v = Some (chars "0x" ++ s) ∧ length s = 8%nat ∧ hex_of 0 s = v).
Proof.
  intros Hv. unfold is_u32 in Hv. split.
  - unfold uart_u32. change (arr_set (replicate 11 0) 10 0) with (Some (replicate 11 0)). cbn [mbind option_bind].
    destruct (u32_digits_spec 10 (replicate 11 0) 10 v) as (b' & i' & D & -> & Hc & Hval & Hd & Hl & Hlead); [|lia|lia|cbn; lia|].
    { change (10 ^ Z.of_nat 10) with 10000000000. lia. }
    cbn [mbind option_bind]. rewrite Hc. change (c_str (replicate 11 0) 10) with (@nil Z). rewrite app_nil_r. eauto 10.
  - unfold uart_hex. destruct (hex_loop_spec 8 v 0 28) as (l & -> & Hl & Hval); [done|lia|]. cbn [mbind option_bind].
    exists l. split; [done|]. split; [done|]. rewrite Hval. change (16 ^ Z.of_nat 8) with (2 ^ 32). rewrite Z.mod_small; lia.
Qed.
Lemma numbers_read_back_witness : ∃ s, uart_u32 400000000 = Some s ∧ dec_of s = 400000000.
Proof.
  destruct (numbers_read_back 400000000) as [(s & Hs & Hd & _) _].
  - split; [discriminate|reflexivity].
  - exists s. split; [exact Hs|exact Hd].
Defined.

(** ** The text relay *)
Lemma uart_puts_spec s t :
  Z.of_nat (length (text_buf t)) = SHM_TEXT_SIZE → 0 <= text_len t <= SHM_TEXT_SIZE →
  ∃ b, uart_puts s t = Some (Text b (Z.min (text_len t + Z.of_nat (length s)) SHM_TEXT_SIZE)
         (if text_len t + Z.of_nat (length s) >? SHM_TEXT_SIZE then 1 else text_overflow t)) ∧
    Z.of_nat (length b) = SHM_TEXT_SIZE ∧
    take (Z.to_nat (Z.min (text_len t + Z.of_nat (length s)) SHM_TEXT_SIZE)) b
    = take (Z.to_nat SHM_TEXT_SIZE) (take (Z.to_nat (text_len t)) (text_buf t) ++ s).
Proof.
  revert t. induction s as [|c s IH]; intros [b n ov] Hb Hn; cbn [text_buf text_len text_overflow length uart_puts] in *.
  { exists b. rewrite Z.gtb_ltb, (proj2 (Z.ltb_ge _ _)), Z.min_l by lia. rewrite Z.add_0_r, app_nil_r, take_take.
    split; [done|]. split; [done|]. f_equal. lia. }
  unfold out_putc. cbn [text_buf text_len text_overflow].
  assert (SHM_TEXT_SIZE < 2 ^ 32) as Hsz by (unfold SHM_TEXT_SIZE; lia).
  destruct (Z.ltb_spec n SHM_TEXT_SIZE) as [Hlt|Hge].
  - rewrite arr_set_Some by lia. cbn [mbind option_bind]. rewrite u32_small by (unfold is_u32; lia).
    destruct (IH (Text (<[Z.to_nat n := c]> b) (n + 1) ov)) as (b' & -> & Hb' & Ht); cbn [text_buf text_len text_overflow] in *;
      [by rewrite length_insert|lia|].
    exists b'. replace (n + Z.of_nat (S (length s))) with (n + 1 + Z.of_nat (length s)) by lia. split; [done|]. split; [done|].
    rewrite Ht. replace (Z.to_nat (n + 1)) with (S (Z.to_nat n)) by lia.
    rewrite (take_S_r _ _ c) by (rewrite list_lookup_insert_eq; [done|lia]). rewrite take_insert_ge by lia. by rewrite <- app_assoc.
  - assert (n = SHM_TEXT_SIZE) as -> by lia. cbn [mbind option_bind].
    destruct (IH (Text b SHM_TEXT_SIZE 1)) as (b' & -> & Hb' & Ht); cbn [text_buf text_len text_overflow] in *; [done|lia|].
    exists b'. rewrite !Z.min_r in * by lia. split; [|split; [done|]].
    + do 2 f_equal. rewrite (proj2 (Z.gtb_lt (SHM_TEXT_SIZE + Z.of_nat (S (length s))) SHM_TEXT_SIZE)) by lia. by destruct (_ >? _).
    + rewrite Ht. rewrite !take_app, !take_take, !length_take.
      replace (Z.to_nat SHM_TEXT_SIZE - _)%nat with 0%nat by lia. cbn [take]. done.
Qed.
Lemma dump_loop_spec n i b :
  0 <= i → i + Z.of_nat n <= Z.of_nat (length b) → dump_loop n i b = Some (take n (drop (Z.to_nat i) b)).
Proof.
  revert i. induction n as [|n IH]; intros i Hi Hn; cbn [dump_loop]; [done|].
  destruct (arr_get_is_Some b i) as [c Hc]; [lia|]. rewrite Hc. cbn [mbind option_bind]. rewrite IH by lia. cbn [mbind option_bind].
  unfold arr_get in Hc. rewrite (proj2 (Z.leb_le _ _)) in Hc by lia. rewrite (drop_S _ _ _ Hc). cbn [take].
  by replace (Z.to_nat (i + 1)) with (S (Z.to_nat i)) by lia.
Qed.

(** What the M4 prints in its turn is what the M7 relays: the first 48 KB of
    it, character for character, and the overflow line exactly when there was
    more; the buffer is never written or read out of bounds. *)
Theorem text_relay s buf :
  Z.of_nat (length buf) = SHM_TEXT_SIZE →
  (t ← uart_puts s (Text buf 0 0); dump_text t)
  = Some (take (Z.to_nat SHM_TEXT_SIZE) s
          ++ if Z.of_nat (length s) >? SHM_TEXT_SIZE then chars "CHECK m4 text buffer overflowed" ++ crlf else []).
Proof.
  intros Hb. destruct (uart_puts_spec s (Text buf 0 0)) as (b & -> & Hlb & Ht); cbn [text_buf text_len text_overflow] in *;
    [done|unfold SHM_TEXT_SIZE; lia|].
  cbn [mbind option_bind]. rewrite !Z.add_0_l in *. unfold dump_text. cbn [text_buf text_len text_overflow].
  rewrite (Z.gtb_ltb (Z.min _ _)), (proj2 (Z.ltb_ge _ (Z.min _ _))) by lia. rewrite dump_loop_spec by lia. cbn [mbind option_bind]. change (Z.to_nat 0) with 0%nat in *. rewrite drop_0, Ht.
  cbn [take app]. f_equal. f_equal. by destruct (_ >? _).
Qed.
Lemma text_relay_witness :
  (t ← uart_puts (chars "abc") (Text (replicate (Z.to_nat SHM_TEXT_SIZE) 0) 0 0); dump_text t) = Some (chars "abc").
Proof.
  rewrite text_relay by (rewrite length_replicate; unfold SHM_TEXT_SIZE; lia).
  rewrite take_ge by (unfold SHM_TEXT_SIZE; cbn; lia). reflexivity.
Defined.

(** ** Heap, pacing, waiting *)
(** The break moves only inside the heap, and the high-water mark covers it. *)
Lemma sbrk_spec heap_end incr h :
  0 <= brk h <= heap_end → heap_end < 2 ^ 31 → 0 <= incr < 2 ^ 31 → brk h <= brk_hwm h <= heap_end →
  let r := _sbrk heap_end incr h in
  (r.1 = None ∧ r.2 = h ∧ heap_end < brk h + incr ∨
   r.1 = Some (brk h) ∧ brk r.2 = brk h + incr) ∧ 0 <= brk r.2 <= brk_hwm r.2 ∧ brk_hwm r.2 <= heap_end.
Proof.
  intros Hb He Hi Hh r. unfold r, _sbrk. rewrite u32_small by (unfold is_u32; lia). rewrite !Z.gtb_ltb.
  destruct (Z.ltb_spec heap_end (brk h + incr)); cbn [fst snd brk brk_hwm]; [split; [left; by split_and!|lia]|].
  destruct (Z.ltb_spec (brk_hwm h) (brk h + incr)); cbn [brk brk_hwm]; (split; [right; by split|lia]).
Qed.
(** A paced gap is at least half a period and less than one and a half. *)
Lemma gap_of_range period wrng :
  0 < period < 2 ^ 31 → ∃ g w, gap_of period wrng = Some (g, w) ∧ period / 2 <= g < period / 2 + period.
Proof.
  intros Hp. unfold gap_of. rewrite (proj2 (Z.eqb_neq _ _)) by lia. eexists _, _. split; [done|].
  pose proof (Z.mod_pos_bound (wrng_next wrng) period ltac:(lia)). pose proof (Z.div_pos period 2 ltac:(lia) ltac:(lia)).
  assert (period / 2 <= period) by (apply Z.div_le_upper_bound; lia).
  rewrite u32_small by (unfold is_u32; lia). lia.
Qed.
(** A wait succeeds only on a reading of the wanted value. *)
Lemma wait_flag_true hz want secs rs t0 e : wait_flag hz want secs rs t0 e = Some true → ∃ now, (want, now) ∈ rs.
Proof.
  revert t0 e. induction rs as [|[f now] rs IH]; intros t0 e; cbn [wait_flag]; [done|].
  destruct (Z.eqb_spec f want) as [->|_]; [intros _; exists now; left|].
  destruct (_ >=? hz); [destruct (_ >=? secs); [done|]|]; intros Hw; destruct (IH _ _ Hw) as [n Hn]; exists n; by right.
Qed.
