(* ===== verification/DualCore.v ===== *)
(** * The mailbox between the two cores of the STM32H747

    Model of the protocol of [src/integrations/stm32h747/dual.h] as
    [src/integrations/stm32h747/main.c] runs it: on the M7 [publish],
    [wait_flag] with its time-outs, [m4_turn] and [dual_core_cell], on the M4 the
    main loop, [m4_run_fixtures] and [m4_serve_reader].  A configuration is the
    shared header with the program point of each core; one step is one access of
    one core to the header (the header is non-cacheable and the accesses are
    separated by barriers, so they interleave).  The fixtures, the mutations and
    the counters do not touch the header fields the protocol turns on and are
    single steps.  Nothing in the steps depends on time: a wait may give up at
    any moment and the churn may end at any moment.  What the hardware's speed
    contributes is a hypothesis on the schedule, [paced]. *)
From stdpp Require Import base numbers list gmap.
From S2P Require Import Prelude.
Open Scope Z_scope.

Definition PHASE_IDLE : Z := 0.
Definition PHASE_M4_FIXTURES : Z := 1.
Definition PHASE_READER : Z := 2.
Definition PHASE_STOP : Z := 3.
Definition PHASE_EXIT : Z := 4.
Definition M4_NONE : Z := 0.
Definition M4_BOOTED : Z := 1.
Definition M4_CALIB_START : Z := 2.
Definition M4_CALIB_END : Z := 3.
Definition M4_DONE : Z := 4.
Definition M4_READING : Z := 5.
Definition M4_STOPPED : Z := 6.

Definition READ_OPTIMISTIC : Z := 0.
Definition READ_HSEM : Z := 1.

(** The fields of [shm_hdr] the protocol turns on; [hdr_map] names a map of the
    M7's heap, 0 is [NULL]. *)
Record shm_hdr := Hdr { seq_ : Z; phase : Z; m4_state : Z; hdr_map : Z; mode : Z }.
Definition set_seq (x : Z) (h : shm_hdr) : shm_hdr := Hdr x (phase h) (m4_state h) (hdr_map h) (mode h).
Definition set_phase (x : Z) (h : shm_hdr) : shm_hdr := Hdr (seq_ h) x (m4_state h) (hdr_map h) (mode h).
Definition set_m4_state (x : Z) (h : shm_hdr) : shm_hdr := Hdr (seq_ h) (phase h) x (hdr_map h) (mode h).
Definition set_map (x : Z) (h : shm_hdr) : shm_hdr := Hdr (seq_ h) (phase h) (m4_state h) x (mode h).
Definition set_mode (x : Z) (h : shm_hdr) : shm_hdr := Hdr (seq_ h) (phase h) (m4_state h) (hdr_map h) x.

(** ** The M7: straight-line code over the header *)
(** [out] is the position the code goes on from when the operation fails and its
    function returns. *)
Inductive m7_op :=
  | StPhase (p : Z)  (** [SHM->phase = p] *)
  | IncSeq  (** [SHM->seq++] *)
  | StState (s : Z)  (** [SHM->m4_state = s] *)
  | StMap (m : Z)  (** [SHM->map = m] *)
  | StMode (d : Z)  (** [SHM->mode = d] *)
  | WaitState (s : Z) (out : nat)  (** [if (!wait_flag(&SHM->m4_state, s, _)) return] *)
  | NewMap (m : Z) (out : nat)  (** [expanse_sync32_map_new], [if (!map) return] *)
  | FreeMap (m : Z)  (** [expanse_sync32_map_free] *)
  | Churn.  (** [writer_churn], half a second of mutations *)
Definition publish (p : Z) : list m7_op := [StPhase p; IncSeq].
Definition m4_turn (start : nat) : list m7_op :=
  let out := (start + 6)%nat in
  [StState M4_NONE] ++ publish PHASE_M4_FIXTURES
  ++ [WaitState M4_CALIB_START out; WaitState M4_CALIB_END out; WaitState M4_DONE out].
(** The body of [for (size_t d = 0; d < N_RATES; d++)]. *)
Definition cell_rate (m d : Z) (out : nat) : list m7_op :=
  [StMap m; StMode d; StState M4_NONE] ++ publish PHASE_READER ++ [WaitState M4_READING out; Churn]
  ++ publish PHASE_STOP ++ [WaitState M4_STOPPED out].
Definition N_RATES : nat := 4.
Definition dual_core_cell (start : nat) (m d : Z) : list m7_op :=
  let out := (start + 2 + N_RATES * 10)%nat in
  [NewMap m out] ++ concat (replicate N_RATES (cell_rate m d out)) ++ [FreeMap m].
(** [main] from the M4's turn on; the three cells make one map each. *)
Definition m7_main : list m7_op :=
  m4_turn 0 ++ dual_core_cell 6 1 READ_OPTIMISTIC ++ dual_core_cell 48 2 READ_HSEM
  ++ dual_core_cell 90 3 READ_OPTIMISTIC ++ publish PHASE_EXIT.

(** ** The M4: its program points, with the locals live at each *)
(** [S] are the sequence numbers and [M] the maps it holds. *)
Inductive m4_pc (S M : Type) :=
  | Boot  (** before [SHM->m4_state = M4_BOOTED] *)
  | Sample  (** before [uint32_t seq = SHM->seq] *)
  | Idle (seq : S)  (** [while (SHM->seq == seq) {}] *)
  | Woken  (** before [seq = SHM->seq] *)
  | Switch (seq : S)  (** before [switch (SHM->phase)] *)
  | FixStart (seq : S) | FixEnd (seq : S) | FixDone (seq : S)  (** [m4_run_fixtures] *)
  | RdMap (seq : S)  (** [m4_serve_reader]: before [SHM->map] is read *)
  | RdMode (seq : S) (m : M)  (** before [SHM->mode] is read *)
  | RdSeq (seq : S) (m : M) (d : Z)  (** the reader of [m] is made; before its own [seq = SHM->seq] *)
  | RdStart (seq : S) (m : M) (d : Z) (r : S)  (** before [SHM->m4_state = M4_READING] *)
  | RdTest (seq : S) (m : M) (d : Z) (r : S)  (** [while (SHM->seq == seq)] *)
  | RdBatch (seq : S) (m : M) (d : Z) (r : S)  (** the 64 reads of map [m] *)
  | RdStop (seq : S)  (** before [SHM->m4_state = M4_STOPPED] *)
  | Halt.  (** [PHASE_EXIT] *)
Arguments Boot {S M}. Arguments Sample {S M}. Arguments Idle {S M} seq. Arguments Woken {S M}.
Arguments Switch {S M} seq. Arguments FixStart {S M} seq. Arguments FixEnd {S M} seq. Arguments FixDone {S M} seq.
Arguments RdMap {S M} seq. Arguments RdMode {S M} seq m. Arguments RdSeq {S M} seq m d.
Arguments RdStart {S M} seq m d r. Arguments RdTest {S M} seq m d r. Arguments RdBatch {S M} seq m d r.
Arguments RdStop {S M} seq. Arguments Halt {S M}.
Definition m4_step (h : shm_hdr) (pc : m4_pc Z Z) : shm_hdr * m4_pc Z Z :=
  match pc with
  | Boot => (set_m4_state M4_BOOTED h, Sample)
  | Sample => (h, Idle (seq_ h))
  | Idle s => (h, if s =? seq_ h then Idle s else Woken)
  | Woken => (h, Switch (seq_ h))
  | Switch s =>
      (h, if phase h =? PHASE_M4_FIXTURES then FixStart s
          else if phase h =? PHASE_READER then RdMap s
          else if phase h =? PHASE_EXIT then Halt else Idle s)
  | FixStart s => (set_m4_state M4_CALIB_START h, FixEnd s)
  | FixEnd s => (set_m4_state M4_CALIB_END h, FixDone s)
  | FixDone s => (set_m4_state M4_DONE h, Idle s)
  | RdMap s => (h, RdMode s (hdr_map h))
  | RdMode s m => (h, RdSeq s m (mode h))
  | RdSeq s m d => (h, RdStart s m d (seq_ h))
  | RdStart s m d r => (set_m4_state M4_READING h, RdTest s m d r)
  | RdTest s m d r => (h, if r =? seq_ h then RdBatch s m d r else RdStop s)
  | RdBatch s m d r => (h, RdTest s m d r)
  | RdStop s => (set_m4_state M4_STOPPED h, Idle s)
  | Halt => (h, Halt)
  end.

(** ** The two cores together *)
(** [at_] is the position in [m7_main]; [maps] the maps created and not freed;
    [during] counts the M4's accesses since the M7's last one. *)
Record cfg := Cfg { at_ : nat; hdr : shm_hdr; pc4 : m4_pc Z Z; maps : list Z; during : nat }.
Definition init : cfg := Cfg 0 (Hdr 0 PHASE_IDLE M4_NONE 0 0) Boot [] 0.
Definition live (ms : list Z) (m : Z) : bool := bool_decide (m ∈ ms).
(** The M7's next operation, when it succeeds. *)
Definition m7_step (c : cfg) : option cfg :=
  op ← m7_main !! at_ c;
  let go h ms := Some (Cfg (S (at_ c)) h (pc4 c) ms 0) in
  match op with
  | StPhase p => go (set_phase p (hdr c)) (maps c)
  | IncSeq => go (set_seq (seq_ (hdr c) +w 1) (hdr c)) (maps c)
  | StState s => go (set_m4_state s (hdr c)) (maps c)
  | StMap m => go (set_map m (hdr c)) (maps c)
  | StMode d => go (set_mode d (hdr c)) (maps c)
  | WaitState s _ => if m4_state (hdr c) =? s then go (hdr c) (maps c) else None
  | NewMap m _ => go (hdr c) (m :: maps c)
  | FreeMap m => go (hdr c) (filter (λ x, x ≠ m) (maps c))
  | Churn => go (hdr c) (maps c)
  end.
(** A wait that times out, or a map that gets no memory: the function returns. *)
Definition m7_gives_up (c : cfg) : option cfg :=
  op ← m7_main !! at_ c;
  match op with
  | WaitState s out =>
      if m4_state (hdr c) =? s then None else Some (Cfg out (hdr c) (pc4 c) (maps c) 0)
  | NewMap _ out => Some (Cfg out (hdr c) (pc4 c) (maps c) 0)
  | _ => None
  end.
Definition m4_move (c : cfg) : cfg :=
  let '(h, pc) := m4_step (hdr c) (pc4 c) in Cfg (at_ c) h pc (maps c) (S (during c)).
(** Who moves next. *)
Inductive move := M7 | M7_gives_up | M4.
#[export] Instance move_eq_dec : EqDecision move.
Proof. solve_decision. Defined.
Definition step (mv : move) (c : cfg) : option cfg :=
  match mv with M7 => m7_step c | M7_gives_up => m7_gives_up c | M4 => Some (m4_move c) end.
Fixpoint run (sched : list move) (c : cfg) : option cfg :=
  match sched with [] => Some c | mv :: sched => c ← step mv c; run sched c end.

(** The M7 is in [writer_churn]. *)
Definition churning (k : nat) : bool := match m7_main !! k with Some Churn => true | _ => false end.
(** The schedule's timing: every [writer_churn] (half a second) overlaps at
    least [pace] of the M4's accesses. *)
Definition paced_move (pace : nat) (mv : move) (c : cfg) : bool :=
  match mv with M7 => negb (churning (at_ c)) || (pace <=? during c)%nat | _ => true end.
Fixpoint paced (pace : nat) (sched : list move) (c : cfg) : bool :=
  match sched with
  | [] => true
  | mv :: sched => paced_move pace mv c && from_option (paced pace sched) true (step mv c)
  end.

(** The map the M4 holds a pointer to, and the map it accesses. *)
Definition held {S M} (pc : m4_pc S M) : option M :=
  match pc with
  | RdMode _ m | RdSeq _ m _ | RdStart _ m _ _ | RdTest _ m _ _ | RdBatch _ m _ _ => Some m
  | _ => None
  end.
Definition touched {S M} (pc : m4_pc S M) : option M :=
  match pc with RdSeq _ m _ | RdBatch _ m _ _ => Some m | _ => None end.
(** The mode of the cell that made the map. *)
Definition cell_mode (m : Z) : Z := if m =? 2 then READ_HSEM else READ_OPTIMISTIC.
(** A reading M4 brackets its reads the way that cell's writer does. *)
Definition right_mode (c : cfg) : bool :=
  match pc4 c with RdBatch _ m d _ => d =? cell_mode m | _ => true end.

(** ** Abstraction *)
(** Only equality with the published sequence number and with the maps of this
    and of earlier cells matters, so a finite abstraction carries the proof. *)
Inductive amap := Dead | Old | Cur.
Definition pc_map {S M S' M'} (f : S → S') (g : M → M') (pc : m4_pc S M) : m4_pc S' M' :=
  match pc with
  | Boot => Boot | Sample => Sample | Idle s => Idle (f s) | Woken => Woken | Switch s => Switch (f s)
  | FixStart s => FixStart (f s) | FixEnd s => FixEnd (f s) | FixDone s => FixDone (f s)
  | RdMap s => RdMap (f s) | RdMode s m => RdMode (f s) (g m) | RdSeq s m d => RdSeq (f s) (g m) d
  | RdStart s m d r => RdStart (f s) (g m) d (f r) | RdTest s m d r => RdTest (f s) (g m) d (f r)
  | RdBatch s m d r => RdBatch (f s) (g m) d (f r) | RdStop s => RdStop (f s) | Halt => Halt
  end.
Definition pc_all {S M} (P : S → Prop) (Q : M → Prop) (pc : m4_pc S M) : Prop :=
  match pc with
  | Boot | Sample | Woken | Halt => True
  | Idle s | Switch s | FixStart s | FixEnd s | FixDone s | RdMap s | RdStop s => P s
  | RdMode s m | RdSeq s m _ => P s ∧ Q m
  | RdStart s m _ r | RdTest s m _ r | RdBatch s m _ r => P s ∧ Q m ∧ P r
  end.
Lemma pc_all_mono {S M} (P P' : S → Prop) (Q Q' : M → Prop) pc :
  (∀ s, P s → P' s) → (∀ m, Q m → Q' m) → pc_all P Q pc → pc_all P' Q' pc.
Proof. destruct pc; naive_solver. Qed.
Lemma pc_map_ext {S M S' M'} (f f' : S → S') (g g' : M → M') pc :
  pc_all (λ s, f s = f' s) (λ m, g m = g' m) pc → pc_map f g pc = pc_map f' g' pc.
Proof. destruct pc; cbn; intros; destruct_and?; congruence. Qed.
Lemma pc_map_map {S M S' M' S'' M''} (f : S → S') (g : M → M') (f' : S' → S'') (g' : M' → M'') pc :
  pc_map f' g' (pc_map f g pc) = pc_map (f' ∘ f) (g' ∘ g) pc.
Proof. by destruct pc. Qed.

(** The last map the code up to position [k] makes. *)
Definition cur (k : nat) : Z :=
  foldl (λ z op, match op with NewMap m _ => m | _ => z end) 0 (take k m7_main).
(** How the program's positions and maps fit together. *)
Definition placed (k : nat) (op : m7_op) : bool :=
  match op with
  | StMap m | FreeMap m => (m =? cur k) && (cur (S k) =? cur k)
  | NewMap m out => (m =? cur k + 1) && (cur (S k) =? m) && (cur out =? m) && (k <? out)%nat
  | WaitState _ out => (cur (S k) =? cur k) && (cur out =? cur k) && (k <? out)%nat
  | _ => cur (S k) =? cur k
  end.
Lemma program_placed k op : m7_main !! k = Some op → placed k op = true.
Proof.
  intros Hk. assert (forallb (λ k, from_option (placed k) true (m7_main !! k)) (seq 0 (length m7_main)) = true) as Hall
    by (vm_compute; reflexivity).
  rewrite forallb_forall in Hall. specialize (Hall k). rewrite Hk in Hall. apply Hall.
  apply lookup_lt_Some in Hk. apply in_seq. lia.
Qed.

Record acfg := ACfg {
  a_at : nat; a_phase : Z; a_state : Z; a_map : amap; a_mode : Z; a_pc : m4_pc bool amap; a_pace : nat; a_cur : bool }.
Definition am (k : nat) (ms : list Z) (m : Z) : amap :=
  if live ms m then if m =? cur k then Cur else Old else Dead.
Definition abs (pace : nat) (c : cfg) : acfg :=
  ACfg (at_ c) (phase (hdr c)) (m4_state (hdr c)) (am (at_ c) (maps c) (hdr_map (hdr c))) (mode (hdr c))
       (pc_map (λ s, s =? seq_ (hdr c)) (am (at_ c) (maps c)) (pc4 c))
       (if churning (at_ c) then Nat.min pace (during c) else 0) (live (maps c) (cur (at_ c))).
Definition am4_step (a : acfg) : Z * m4_pc bool amap :=
  let st := a_state a in
  match a_pc a with
  | Boot => (M4_BOOTED, Sample)
  | Sample => (st, Idle true)
  | Idle s => (st, if s : bool then Idle s else Woken)
  | Woken => (st, Switch true)
  | Switch s =>
      (st, if a_phase a =? PHASE_M4_FIXTURES then FixStart s
           else if a_phase a =? PHASE_READER then RdMap s
           else if a_phase a =? PHASE_EXIT then Halt else Idle s)
  | FixStart s => (M4_CALIB_START, FixEnd s)
  | FixEnd s => (M4_CALIB_END, FixDone s)
  | FixDone s => (M4_DONE, Idle s)
  | RdMap s => (st, RdMode s (a_map a))
  | RdMode s m => (st, RdSeq s m (a_mode a))
  | RdSeq s m d => (st, RdStart s m d true)
  | RdStart s m d r => (M4_READING, RdTest s m d r)
  | RdTest s m d r => (st, if r : bool then RdBatch s m d r else RdStop s)
  | RdBatch s m d r => (st, RdTest s m d r)
  | RdStop s => (M4_STOPPED, Idle s)
  | Halt => (st, Halt)
  end.
Definition am4_move (pace : nat) (a : acfg) : acfg :=
  let '(st, pc) := am4_step a in
  ACfg (a_at a) (a_phase a) st (a_map a) (a_mode a) pc
    (if churning (a_at a) then Nat.min pace (S (a_pace a)) else 0) (a_cur a).
Definition age (m : amap) : amap := match m with Cur => Old | _ => m end.
Definition kill (m : amap) : amap := match m with Cur => Dead | _ => m end.
Definition am7_step (a : acfg) (op : m7_op) : acfg :=
  let '(ACfg k p s m d pc _ b) := a in
  let go p s m d pc b := ACfg (S k) p s m d pc 0 b in
  match op with
  | StPhase p => go p s m d pc b
  | IncSeq => go p s m d (pc_map (λ _, false) id pc) b
  | StState s => go p s m d pc b
  | StMap _ => go p s (if b then Cur else Dead) d pc b
  | StMode d => go p s m d pc b
  | WaitState _ _ | Churn => go p s m d pc b
  | NewMap _ _ => go p s (age m) d (pc_map id age pc) true
  | FreeMap _ => go p s (kill m) d (pc_map id kill pc) false
  end.
Definition am7_gives_up (a : acfg) (op : m7_op) : option acfg :=
  let '(ACfg k p s m d pc _ b) := a in
  match op with
  | WaitState _ out => Some (ACfg out p s m d pc 0 b)
  | NewMap _ out => Some (ACfg out p s (age m) d (pc_map id age pc) 0 false)
  | _ => None
  end.
Definition aready (pace : nat) (a : acfg) (op : m7_op) : bool :=
  match op with WaitState s _ => a_state a =? s | Churn => (pace <=? a_pace a)%nat | _ => true end.
Definition agives (a : acfg) (op : m7_op) : bool :=
  match op with WaitState s _ => negb (a_state a =? s) | _ => true end.
(** The abstract successors; [ups]: whether the M7 may give up. *)
Definition anexts (ups : bool) (pace : nat) (a : acfg) : list acfg :=
  am4_move pace a ::
  match m7_main !! a_at a with
  | None => []
  | Some op =>
      (if aready pace a op then [am7_step a op] else [])
      ++ (if ups && agives a op then option_list (am7_gives_up a op) else [])
  end.

(** The sequence number is at most the number of operations run, and nothing
    refers to a number or a map of the future. *)
Record inv (c : cfg) : Prop := Inv {
  i_seq : 0 <= seq_ (hdr c) <= Z.of_nat (at_ c);
  i_map : hdr_map (hdr c) <= cur (at_ c);
  i_maps : ∀ m, live (maps c) m = true → m <= cur (at_ c);
  i_pc : pc_all (λ s, s <= seq_ (hdr c)) (λ m, m <= cur (at_ c)) (pc4 c) }.
Lemma init_inv : inv init.
Proof. split; [done|done| |done]. intros m. unfold live. by rewrite bool_decide_eq_true, elem_of_nil. Qed.
Lemma m4_move_inv c : inv c → inv (m4_move c).
Proof.
  intros [Hs Hm Hl Hp]. unfold m4_move. destruct (m4_step (hdr c) (pc4 c)) as [h pc] eqn:Hst.
  destruct (pc4 c); cbn in Hst, Hp; repeat case_match; simplify_eq; split; cbn; naive_solver lia.
Qed.
Lemma abs_m4_move pace c : abs pace (m4_move c) = am4_move pace (abs pace c).
Proof.
  destruct c as [k [q p s m d] pc ms n]. unfold abs, am4_move.
  assert ((if churning k then pace `min` S (if churning k then pace `min` n else 0) else 0)
          = if churning k then pace `min` S n else 0)%nat as Hn by (destruct (churning k); lia).
  destruct pc; cbn -[churning Nat.min Z.eqb am live cur]; rewrite ?Hn, ?Z.eqb_refl; try reflexivity;
    repeat (match goal with |- context [if ?b =? ?x then _ else _] => destruct (b =? x) eqn:? end;
            cbn -[churning Nat.min Z.eqb am live cur]); congruence.
Qed.

Lemma live_cons ms m x : live (m :: ms) x = (x =? m) || live ms x.
Proof.
  apply eq_bool_prop_intro. rewrite orb_True. unfold live. rewrite !bool_decide_spec, elem_of_cons, Is_true_true, Z.eqb_eq. done.
Qed.
Lemma live_free ms m x : live (filter (λ y, y ≠ m) ms) x = negb (x =? m) && live ms x.
Proof.
  apply eq_bool_prop_intro. rewrite andb_True. unfold live.
  rewrite !bool_decide_spec, list_elem_of_filter, negb_True, Is_true_true, Z.eqb_eq. done.
Qed.
(** A new map makes the others old, a freed one kills its pointers. *)
Lemma am_age k k' ms m : m < cur k' → (∀ x, live ms x = true → x <= cur k) → cur k < cur k' → am k' ms m = age (am k ms m).
Proof.
  intros Hm Hl Hk. unfold am. destruct (live ms m); [|done]. rewrite (proj2 (Z.eqb_neq m (cur k'))) by lia.
  by destruct (m =? cur k).
Qed.
Lemma am_new k' ms m : m < cur k' → am k' (cur k' :: ms) m = am k' ms m.
Proof. intros Hm. unfold am. rewrite live_cons, (proj2 (Z.eqb_neq m (cur k'))) by lia. done. Qed.
Lemma am_kill k k' ms m : cur k' = cur k → am k' (filter (λ y, y ≠ cur k) ms) m = kill (am k ms m).
Proof. intros He. unfold am. rewrite live_free, He. destruct (m =? cur k), (live ms m); done. Qed.
Lemma am_stay k k' ms m : cur k' = cur k → am k' ms m = am k ms m.
Proof. intros He. unfold am. by rewrite He. Qed.

Ltac placed_facts Hop :=
  pose proof (program_placed _ _ Hop) as Hpl; unfold placed in Hpl;
  rewrite ?andb_true_iff, ?Z.eqb_eq, ?Nat.ltb_lt in Hpl; destruct_and?.

Ltac inv_step Hl Hp :=
  match goal with
  | |- ∀ m, live _ m = true → _ =>
      let x := fresh in let Hx := fresh in intros x Hx; rewrite ?live_cons, ?live_free in Hx;
      try apply orb_true_iff in Hx as [Hx%Z.eqb_eq|Hx]; try apply andb_true_iff in Hx as [_ Hx]; try apply Hl in Hx; lia
  | |- pc_all _ _ _ => refine (pc_all_mono _ _ _ _ _ _ _ Hp); intros; rewrite ?u32_small by word_lia; lia
  | _ => rewrite ?u32_small by word_lia; lia
  end.
Lemma m7_step_inv c c' : inv c → m7_step c = Some c' → inv c'.
Proof.
  destruct c as [k [q p s m d] pc ms n]. intros [Hs Hm Hl Hp] Hst. unfold m7_step in Hst. cbn [at_ hdr pc4 maps during seq_ hdr_map] in *.
  destruct (m7_main !! k) as [op|] eqn:Hop; [|done]. cbn [mbind option_bind] in Hst.
  assert (k < 200)%nat by (apply lookup_lt_Some in Hop; vm_compute in Hop; lia).
  destruct op; placed_facts Hop; repeat case_match; simplify_eq; split; cbn -[cur]; inv_step Hl Hp.
Qed.
Lemma m7_gives_up_inv c c' : inv c → m7_gives_up c = Some c' → inv c'.
Proof.
  destruct c as [k h pc ms n]. intros [Hs Hm Hl Hp] Hst. unfold m7_gives_up in Hst. cbn [at_ hdr pc4 maps during seq_ hdr_map] in *.
  destruct (m7_main !! k) as [op|] eqn:Hop; [|done]. cbn [mbind option_bind] in Hst.
  destruct op; placed_facts Hop; repeat case_match; simplify_eq; split; cbn -[cur]; inv_step Hl Hp.
Qed.

Lemma quiet_start (b : bool) pace : ((if b then Nat.min pace 0 else 0) = 0)%nat.
Proof. destruct b; lia. Qed.
(** Renaming the locals of the M4 that a move of the M7 leaves where they are. *)
Lemma pc_map_stay k k' q ms (pc : m4_pc Z Z) :
  cur k' = cur k → pc_map (λ s, s =? q) (am k' ms) pc = pc_map (λ s, s =? q) (am k ms) pc.
Proof.
  intros He. apply pc_map_ext. apply (pc_all_mono (λ _, True) _ (λ _, True)); [done|intros; by apply am_stay|].
  by destruct pc.
Qed.
Lemma pc_map_new q (f : Z → amap) (g : amap → amap) (f' : Z → amap) (pc : m4_pc Z Z) (b : Z) :
  pc_all (λ _, True) (λ m, m <= b) pc → (∀ m, m <= b → f' m = g (f m)) →
  pc_map (λ s, s =? q) f' pc = pc_map id g (pc_map (λ s, s =? q) f pc).
Proof. intros Hp Hf. rewrite pc_map_map. apply pc_map_ext. by apply (pc_all_mono (λ _, True) _ (λ m, m <= b)). Qed.
Lemma pc_map_stale q q' (f : Z → amap) (pc : m4_pc Z Z) :
  q < q' → pc_all (λ s, s <= q) (λ _, True) pc →
  pc_map (λ s, s =? q') f pc = pc_map (λ _, false) id (pc_map (λ s, s =? q) f pc).
Proof.
  intros Hq Hp. rewrite pc_map_map. apply pc_map_ext.
  apply (pc_all_mono (λ s, s <= q) _ (λ _, True)); [|done|done]. intros s Hs. apply Z.eqb_neq. lia.
Qed.

Lemma abs_m7_step pace c c' op :
  inv c → m7_main !! at_ c = Some op → m7_step c = Some c' → abs pace c' = am7_step (abs pace c) op.
Proof.
  destruct c as [k [q p s m d] pc ms n]. intros [Hs Hm Hl Hp] Hop Hst. unfold m7_step in Hst.
  cbn [at_ hdr pc4 maps during seq_ hdr_map] in *. rewrite Hop in Hst. cbn [mbind option_bind] in Hst.
  assert (k < 200)%nat by (apply lookup_lt_Some in Hop; vm_compute in Hop; lia).
  assert (pc_all (λ _, True) (λ m, m <= cur k) pc) as Hpm by (eapply pc_all_mono; [..|exact Hp]; cbn; auto).
  assert (pc_all (λ s, s <= q) (λ _, True) pc) as Hpq by (eapply pc_all_mono; [..|exact Hp]; cbn; auto).
  destruct op; placed_facts Hop; repeat case_match; simplify_eq; unfold abs, am7_step;
    cbn [at_ hdr pc4 maps during seq_ hdr_map phase m4_state mode set_phase set_seq set_m4_state set_map set_mode];
    rewrite quiet_start.
  all: try (f_equal; [by apply am_stay|by apply pc_map_stay|congruence]).
  - rewrite u32_small by word_lia. f_equal; [by apply am_stay| |congruence].
    rewrite (pc_map_stay k (S k)) by done. apply pc_map_stale; [lia|done].
  - f_equal; [|by apply pc_map_stay|congruence]. unfold am. replace (cur (S k)) with (cur k) by done. rewrite Z.eqb_refl. done.
  - assert (∀ x, x <= cur k → am (S k) (cur k + 1 :: ms) x = age (am k ms x)) as Ha.
    { intros x Hx. replace (cur k + 1) with (cur (S k)) by done. rewrite am_new by lia. apply am_age; [lia|done|lia]. }
    f_equal; [by apply Ha|by eapply pc_map_new|]. rewrite live_cons. replace (cur (S k)) with (cur k + 1) by done. by rewrite Z.eqb_refl.
  - f_equal; [by apply am_kill|eapply pc_map_new; [done|intros; by apply am_kill]|].
    rewrite live_free. replace (cur (S k)) with (cur k) by done. by rewrite Z.eqb_refl.
Qed.
Lemma abs_m7_gives_up pace c c' op :
  inv c → m7_main !! at_ c = Some op → m7_gives_up c = Some c' →
  am7_gives_up (abs pace c) op = Some (abs pace c').
Proof.
  destruct c as [k [q p s m d] pc ms n]. intros [Hs Hm Hl Hp] Hop Hst. unfold m7_gives_up in Hst.
  cbn [at_ hdr pc4 maps during seq_ hdr_map] in *. rewrite Hop in Hst. cbn [mbind option_bind] in Hst.
  assert (pc_all (λ _, True) (λ m, m <= cur k) pc) as Hpm by (eapply pc_all_mono; [..|exact Hp]; cbn; auto).
  destruct op; placed_facts Hop; repeat case_match; simplify_eq; unfold abs, am7_gives_up;
    cbn [at_ hdr pc4 maps during seq_ hdr_map phase m4_state mode]; rewrite quiet_start; f_equal.
  - f_equal; [symmetry; by apply am_stay|symmetry; by apply pc_map_stay|congruence].
  - assert (∀ x, x <= cur k → am out ms x = age (am k ms x)) as Ha by (intros x Hx; apply am_age; [lia|done|lia]).
    f_equal; [symmetry; by apply Ha|symmetry; by eapply pc_map_new|].
    destruct (live ms (cur out)) eqn:Hx; [|done]. apply Hl in Hx. lia.
Qed.

(** Every concrete move is an abstract one. *)
Lemma abs_ready pace c c' op :
  m7_main !! at_ c = Some op → m7_step c = Some c' → paced_move pace M7 c = true → aready pace (abs pace c) op = true.
Proof.
  unfold m7_step, paced_move. intros Hop Hst Hpa. unfold aready, abs. cbn [a_state a_pace].
  assert (churning (at_ c) = match op with Churn => true | _ => false end) as Hch by (unfold churning; by rewrite Hop).
  rewrite Hch in *. rewrite Hop in Hst. cbn [mbind option_bind] in Hst. destruct op; try done; [by case_match|].
  apply Nat.leb_le in Hpa. apply Nat.leb_le. lia.
Qed.
Lemma abs_gives pace c c' op :
  m7_main !! at_ c = Some op → m7_gives_up c = Some c' → agives (abs pace c) op = true.
Proof.
  unfold m7_gives_up. intros Hop Hst. rewrite Hop in Hst. cbn [mbind option_bind] in Hst.
  destruct op; try done. unfold agives, abs. cbn [a_state]. by case_match.
Qed.
Lemma abs_step ups pace mv c c' :
  inv c → step mv c = Some c' → paced_move pace mv c = true → (mv = M7_gives_up → ups = true) →
  inv c' ∧ abs pace c' ∈ anexts ups pace (abs pace c).
Proof.
  intros Hi Hst Hpa Hups. unfold anexts. destruct mv; cbn [step] in Hst.
  - split; [by eapply m7_step_inv|]. right. change (a_at (abs pace c)) with (at_ c).
    destruct (m7_main !! at_ c) as [op|] eqn:Hop; [|unfold m7_step in Hst; by rewrite Hop in Hst].
    rewrite (abs_m7_step pace c c' op Hi Hop Hst), (abs_ready pace c c' op Hop Hst Hpa). left.
  - split; [by eapply m7_gives_up_inv|]. right. change (a_at (abs pace c)) with (at_ c).
    destruct (m7_main !! at_ c) as [op|] eqn:Hop; [|unfold m7_gives_up in Hst; by rewrite Hop in Hst].
    apply elem_of_app. right. rewrite (Hups eq_refl), (abs_gives pace c c' op Hop Hst).
    rewrite (abs_m7_gives_up pace c c' op Hi Hop Hst). left.
  - injection Hst as <-. split; [by apply m4_move_inv|]. rewrite abs_m4_move. left.
Qed.

(** ** Exhaustive exploration of the abstraction *)
#[export] Instance amap_eq_dec : EqDecision amap.
Proof. solve_decision. Defined.
#[export] Instance pc_eq_dec : EqDecision (m4_pc bool amap).
Proof. solve_decision. Defined.
#[export] Instance acfg_eq_dec : EqDecision acfg.
Proof. solve_decision. Defined.
(** Seen configurations, in buckets: a hash only spreads them. *)
Definition bit (b : bool) : Z := if b then 1 else 0.
Definition amap_hash (m : amap) : Z := match m with Dead => 0 | Old => 1 | Cur => 2 end.
Definition pc_hash (pc : m4_pc bool amap) : Z :=
  match pc with
  | Boot => 0 | Sample => 1 | Idle s => 16 * bit s + 2 | Woken => 3 | Switch s => 16 * bit s + 4
  | FixStart s => 5 | FixEnd s => 6 | FixDone s => 7 | RdMap s => 16 * bit s + 8
  | RdMode s m => 16 * amap_hash m + 9 | RdSeq s m d => 16 * amap_hash m + 64 * d + 10
  | RdStart s m d r => 16 * amap_hash m + 64 * bit r + 11
  | RdTest s m d r => 16 * amap_hash m + 64 * bit r + 12 | RdBatch s m d r => 16 * amap_hash m + 64 * bit r + 13
  | RdStop s => 14 | Halt => 15
  end.
Definition hash (a : acfg) : Z :=
  Z.of_nat (a_at a) + 256 * (a_state a + 8 * (pc_hash (a_pc a) + 256 * (Z.of_nat (a_pace a) + 16 * amap_hash (a_map a)))).
Abbreviation table := (gmap Z (list acfg)).
Definition bucket (a : acfg) (t : table) : list acfg := default [] (t !! hash a).
Definition seen (a : acfg) (t : table) : bool := bool_decide (a ∈ bucket a t).
Definition note (a : acfg) (t : table) : table := <[hash a := a :: bucket a t]> t.
Definition all (t : table) : list acfg := concat (map_to_list t).*2.
(** Depth-first: the configurations of [todo] and all they lead to. *)
Fixpoint explore (ups : bool) (pace : nat) (fuel : nat) (t : table) (todo : list acfg) : table :=
  match fuel, todo with
  | S fuel, a :: todo =>
      if seen a t then explore ups pace fuel t todo
      else explore ups pace fuel (note a t) (anexts ups pace a ++ todo)
  | _, _ => t
  end.
(** Every successor of a configuration of [t] is in [t]. *)
Definition closed (ups : bool) (pace : nat) (t : table) : bool :=
  forallb (λ a, forallb (λ a', seen a' t) (anexts ups pace a)) (all t).

Lemma seen_all a t : seen a t = true → a ∈ all t.
Proof.
  unfold seen, bucket, all. intros Hc%bool_decide_eq_true. destruct (t !! hash a) as [l|] eqn:Hl; [|by apply not_elem_of_nil in Hc].
  cbn in Hc. rewrite list_elem_of_In in *. apply in_concat. exists l. split; [|done]. rewrite <- list_elem_of_In.
  apply list_elem_of_fmap. exists (hash a, l). split; [done|]. by apply elem_of_map_to_list.
Qed.
(** What holds of a closed table that has the initial configuration holds at
    the end of every paced run. *)
Lemma run_all ups pace t (P : acfg → bool) :
  seen (abs pace init) t = true → closed ups pace t = true → forallb P (all t) = true →
  ∀ sched c, run sched init = Some c → paced pace sched init = true → (M7_gives_up ∈ sched → ups = true) →
  inv c ∧ P (abs pace c) = true.
Proof.
  intros Hi Hc HP sched c Hr Hp Hu.
  assert (∀ sched c0, inv c0 → seen (abs pace c0) t = true → run sched c0 = Some c → paced pace sched c0 = true →
    (M7_gives_up ∈ sched → ups = true) → inv c ∧ seen (abs pace c) t = true) as Hs.
  { clear -Hc. induction sched as [|mv sched IH]; intros c0 Hi Hs Hr Hp Hu; cbn [run] in Hr; [by injection Hr as <-|].
    cbn [paced] in Hp. apply andb_prop in Hp as [Hp1 Hp]. destruct (step mv c0) as [c1|] eqn:Hst; [|done].
    destruct (abs_step ups pace mv c0 c1 Hi Hst Hp1) as [Hi1 Hin]; [intros ->; apply Hu; left|].
    apply (IH c1); try done; [|intros Hx; apply Hu; by right].
    unfold closed in Hc. rewrite forallb_forall in Hc. apply seen_all, list_elem_of_In, Hc in Hs.
    rewrite forallb_forall in Hs. by apply Hs, list_elem_of_In. }
  destruct (Hs sched init init_inv Hi Hr Hp Hu) as [Hic Hsc]. split; [done|].
  rewrite forallb_forall in HP. by apply HP, list_elem_of_In, seen_all.
Qed.

(** Ten of the M4's accesses to the header in half a second. *)
Definition PACE : nat := 10.
Definition FUEL : nat := Z.to_nat 40000.
(** [P] holds of every abstract configuration that is reached. *)
Definition always (ups : bool) (P : acfg → bool) : bool :=
  let t := explore ups PACE FUEL ∅ [abs PACE init] in
  seen (abs PACE init) t && closed ups PACE t && forallb P (all t).
Lemma always_run ups P sched c :
  always ups P = true → run sched init = Some c → paced PACE sched init = true → (M7_gives_up ∈ sched → ups = true) →
  inv c ∧ P (abs PACE c) = true.
Proof. unfold always. rewrite !andb_true_iff. intros [[Hi Hc] HP]. by apply (run_all ups PACE _ P Hi Hc HP). Qed.

(** ** Claims *)
Definition aheld_live (a : acfg) : bool :=
  match held (a_pc a) with Some m => negb (bool_decide (m = Dead)) | None => true end.
Definition aright_mode (a : acfg) : bool :=
  match a_pc a with RdBatch _ m d _ => bool_decide (m = Cur) && (d =? cell_mode (cur (a_at a))) | _ => true end.
Lemma held_map {S M S' M'} (f : S → S') (g : M → M') (pc : m4_pc S M) : held (pc_map f g pc) = g <$> held pc.
Proof. by destruct pc. Qed.
Lemma held_alive : always true aheld_live = true.
Proof. vm_compute. reflexivity. Qed.
Lemma modes_agree : always false aright_mode = true.
Proof. vm_compute. reflexivity. Qed.

(** C35: take any schedule of the two cores, time-outs of [wait_flag] and failed
    map creations at any moment included, in which every [writer_churn] (half a
    second on the M7) overlaps at least ten accesses of the M4 to the header.
    Then the M4 never holds a pointer to a map the M7 has freed or not made; and
    if nothing timed out or failed, it reads each map in that cell's mode, so
    with the semaphore exactly when the writer takes it.  The bound is a
    hypothesis on the hardware's speed and is needed: [mailbox_race]. *)
Theorem mailbox_safe sched c :
  run sched init = Some c → paced PACE sched init = true →
  (∀ m, held (pc4 c) = Some m → m ∈ maps c) ∧
  (M7_gives_up ∉ sched → right_mode c = true).
Proof.
  intros Hr Hp. split.
  - intros m Hm. destruct (always_run true aheld_live sched c held_alive Hr Hp) as [_ Ha]; [done|].
    unfold aheld_live, abs in Ha. cbn [a_pc] in Ha. rewrite held_map, Hm in Ha. cbn in Ha. unfold am, live in Ha.
    by destruct (bool_decide_reflect (m ∈ maps c)).
  - intros Hu. destruct (always_run false aright_mode sched c modes_agree Hr Hp) as [_ Ha]; [done|].
    unfold aright_mode, abs, right_mode in *. cbn [a_pc a_at] in Ha. destruct (pc4 c); try done. cbn [pc_map] in Ha.
    apply andb_prop in Ha as [Hm%bool_decide_eq_true Hd]. unfold am in Hm. destruct (live _ _); [|done].
    destruct (m =? cur (at_ c)) eqn:He; [|done]. apply Z.eqb_eq in He. by subst.
Qed.
(** A run up to the first batch of reads. *)
Definition to_reading : list move :=
  [M7; M7; M4; M4; M7; M4; M4; M4; M4; M7; M4; M7; M4] ++ replicate 7 M7 ++ replicate 9 M4 ++ [M7] ++ replicate 4 M4.
Lemma mailbox_safe_witness :
  ∃ c, run to_reading init = Some c ∧ held (pc4 c) = Some 1 ∧ 1 ∈ maps c ∧ right_mode c = true.
Proof.
  destruct (run to_reading init) as [c|] eqn:Hc; [|vm_compute in Hc; discriminate Hc].
  assert (held (pc4 c) = Some 1) as Hh by (vm_compute in Hc; injection Hc as <-; reflexivity).
  destruct (mailbox_safe to_reading c) as [Hl Hm]; [exact Hc|vm_compute; reflexivity|].
  exists c. split; [reflexivity|]. split; [exact Hh|]. split; [exact (Hl 1 Hh)|].
  apply Hm. intros Hin. apply (bool_decide_eq_true_2 (M7_gives_up ∈ to_reading)) in Hin. vm_compute in Hin. discriminate Hin.
Defined.

(** ** Waits are answered *)
(** The M4 stays in the state the M7 waits for. *)
Definition parked (want : Z) (a : acfg) : bool :=
  (a_state a =? want) &&
  (if want =? M4_READING then match a_pc a with RdTest _ _ _ r | RdBatch _ _ _ r => r | _ => false end
   else match a_pc a with Idle s => s | _ => false end).
Lemma parked_move pace want a : parked want a = true → parked want (am4_move pace a) = true.
Proof.
  unfold parked, am4_move, am4_step. intros Hb. apply andb_prop in Hb as [Hst Hpc].
  destruct (want =? M4_READING); destruct (a_pc a); try done; subst; cbn; by rewrite Hst.
Qed.
Lemma parked_iter pace want m n a :
  (m <= n)%nat → parked want (Nat.iter m (am4_move pace) a) = true → parked want (Nat.iter n (am4_move pace) a) = true.
Proof.
  intros Hle Hm. induction Hle as [|n Hle IH]; [done|]. rewrite Nat.iter_succ. by apply parked_move.
Qed.
Lemma parked_state pace want c : parked want (abs pace c) = true → m4_state (hdr c) = want.
Proof. unfold parked. intros [Hs _]%andb_prop. by apply Z.eqb_eq in Hs. Qed.
Definition ANSWER : nat := 10.
Definition awaited : list Z := [M4_DONE; M4_READING; M4_STOPPED].
(** At such a wait, the M4's next moves park it where the M7 waits. *)
Definition answered (a : acfg) : bool :=
  match m7_main !! a_at a with
  | Some (WaitState s _) => negb (bool_decide (s ∈ awaited)) || parked s (Nat.iter ANSWER (am4_move PACE) a)
  | _ => true
  end.
Lemma all_answered : always false answered = true.
Proof. vm_compute. reflexivity. Qed.
Lemma answered_at a s out :
  m7_main !! a_at a = Some (WaitState s out) → s ∈ awaited →
  answered a = true → parked s (Nat.iter ANSWER (am4_move PACE) a) = true.
Proof.
  unfold answered. intros -> Hs [Ha|Ha]%orb_true_iff; [|done].
  by rewrite (bool_decide_eq_true_2 _ Hs) in Ha.
Qed.
Lemma abs_iter pace n c : abs pace (Nat.iter n m4_move c) = Nat.iter n (am4_move pace) (abs pace c).
Proof. induction n as [|n IH]; [done|]. rewrite !Nat.iter_succ. by rewrite abs_m4_move, IH. Qed.
(** C36: in a run of the same timing in which nothing has timed out or failed so
    far, a wait for the fixtures to end, for the reader to start or for it to stop
    is answered by the M4 alone: after ten of its own accesses to the header it is
    in the awaited state, and it stays there however long the M7 takes to look.
    So the first time-out of a run is one of the two waits for the calibration
    marks, or the M4 made fewer than ten accesses while the M7 waited. *)
Theorem mailbox_answers sched c s out n :
  run sched init = Some c → paced PACE sched init = true → M7_gives_up ∉ sched →
  m7_main !! at_ c = Some (WaitState s out) → s ∈ awaited → (ANSWER <= n)%nat →
  m4_state (hdr (Nat.iter n m4_move c)) = s.
Proof.
  intros Hr Hp Hu Hop Hs Hn. destruct (always_run false answered sched c all_answered Hr Hp) as [_ Ha]; [done|].
  apply (parked_state PACE). rewrite abs_iter. apply (parked_iter _ _ ANSWER); [done|]. by apply (answered_at (abs PACE c) s out).
Qed.
(** The first wait for the reader to start. *)
Definition to_waiting : list move :=
  [M7; M7; M4; M4; M7; M4; M4; M4; M4; M7; M4; M7; M4] ++ replicate 7 M7.
Lemma mailbox_answers_witness :
  ∃ c out, run to_waiting init = Some c ∧ m7_main !! at_ c = Some (WaitState M4_READING out) ∧
    m4_state (hdr c) = M4_NONE ∧ m4_state (hdr (Nat.iter 20 m4_move c)) = M4_READING.
Proof.
  destruct (run to_waiting init) as [c|] eqn:Hc; [|vm_compute in Hc; discriminate Hc].
  exists c, 48%nat. assert (m7_main !! at_ c = Some (WaitState M4_READING 48) ∧ m4_state (hdr c) = M4_NONE) as [Hop Hst].
  { vm_compute in Hc. injection Hc as <-. split; reflexivity. }
  split; [reflexivity|]. split; [exact Hop|]. split; [exact Hst|].
  apply (mailbox_answers to_waiting c M4_READING 48 20).
  - exact Hc.
  - vm_compute. reflexivity.
  - intros Hin. apply (bool_decide_eq_true_2 (M7_gives_up ∈ to_waiting)) in Hin. vm_compute in Hin. discriminate Hin.
  - exact Hop.
  - right. left.
  - apply Nat.leb_le. reflexivity.
Defined.

(** Eight accesses during each churn are not enough, with no time-out at all:
    the M4 can read the phase of one publication and the sequence number of the
    next, announce [READING] and [STOPPED] for it too early, and make its reader
    on the map after the M7, satisfied by that [STOPPED], has freed it. *)
Definition race : list move :=
  [M7; M7; M4; M4; M7] ++ replicate 4 M4 ++ [M7; M4; M7; M4] ++ replicate 7 M7 ++ replicate 7 M4 ++ [M7]
  ++ replicate 8 M4 ++ [M7; M7; M7; M4; M4] ++ replicate 5 M7 ++ replicate 8 M4 ++ [M7; M7] ++ replicate 8 M4
  ++ replicate 8 M7 ++ [M4; M4; M4; M7; M7] ++ replicate 8 M4 ++ replicate 8 M7 ++ [M4; M4; M4; M7; M7]
  ++ replicate 8 M4 ++ replicate 5 M7.
Theorem mailbox_race :
  ∃ c m, run race init = Some c ∧ paced 8 race init = true ∧ (M7_gives_up ∉ race) ∧
    touched (pc4 c) = Some m ∧ m ∉ maps c.
Proof.
  destruct (run race init) as [c|] eqn:Hc; [|vm_compute in Hc; discriminate Hc].
  exists c, 1. split; [done|]. split; [vm_compute; reflexivity|].
  vm_compute in Hc. injection Hc as <-. split; [|split; [reflexivity|apply not_elem_of_nil]].
  intros Hin. apply (bool_decide_eq_true_2 (M7_gives_up ∈ race)) in Hin. vm_compute in Hin. discriminate Hin.
Qed.
