(* ===== verification/HarnessArms.v ===== *)
(** * The interrupt arm and the cross-core reader of the harness

    Model of the sync32 part of [src/integrations/stm32h747/main.c]: the
    interrupt handler, the writer's mutations, the pre-fill and clean-up of
    [arm_sync32] and [dual_core_cell], and the M4's reading loop, against the
    contract of the concurrent map ([Sync32]).  Cycle readings are arguments; a
    read carries whether it runs inside one of the writer's mutations. *)
From stdpp Require Import base numbers list gmap.
From S2P Require Import Prelude Sync32 HarnessOut.
Open Scope Z_scope.

Definition KEYS : Z := 4096.
Definition KEYS_FIXED : Z := 2048.
Definition VAL (k : Z) : Z := Z.lxor k 43981.
Definition ISR_PERIOD : Z := 20000.
Inductive isr_mode := ISR_OFF | ISR_SYNC32 | ISR_CS.

Section Arms.
  Context {S : Type} `{!Sync32 S}.

(** ** The writer *)
(** The mutation of turn [i], retried over a reclaim while the backlog refuses
    it: the status, the map and the refusals. *)
Fixpoint mutate (fuel : nat) (i k : Z) (s : S) (refused : Z) : option (Z * S * Z) :=
  match fuel with
  | O => None
  | Datatypes.S fuel =>
      let '(st, s) := if negb (Z.land i 1 =? 0) then sync32_try_remove s k else sync32_try_insert s k (VAL k) in
      if st =? EXPANSE_SYNC32_RECLAIM_BACKLOG
      then mutate fuel i k (sync32_try_reclaim s).2 (refused +w 1)
      else Some (st, s, refused)
  end.
Definition churn_key (i : Z) : Z := KEYS_FIXED + Z.land (Z.shiftr i 1) (KEYS_FIXED - 1).
(** One turn of [writer_churn]'s loop. *)
Definition churn_one (i : Z) (s : S) (refused arena_full : Z) : option (S * Z * Z) :=
  '(st, s, refused) ← mutate 2 i (churn_key i) s refused;
  let arena_full := if st =? EXPANSE_SYNC32_ARENA_FULL then arena_full +w 1 else arena_full in
  let s := if Z.land i 31 =? 31 then (sync32_try_reclaim s).2 else s in
  Some (s, refused, arena_full).
(** [writer_churn], for the [n] turns its cycle budget allows, from turn [i]:
    the map, the mutations, the refusals and the full arenas. *)
Fixpoint writer_churn (n : nat) (i : Z) (s : S) (refused arena_full : Z) : option (S * Z * Z * Z) :=
  match n with
  | O => Some (s, i, refused, arena_full)
  | Datatypes.S n =>
      '(s, refused, arena_full) ← churn_one i s refused arena_full;
      writer_churn n (i +w 1) s refused arena_full
  end.
(** The pre-fill [for (k = 0; k < KEYS_FIXED; k++)], [n] keys from [k]; the
    second component counts the [CHECK] lines. *)
Fixpoint prefill (n : nat) (k : Z) (s : S) (checks : Z) : S * Z :=
  match n with
  | O => (s, checks)
  | Datatypes.S n =>
      let '(st, s) := sync32_try_insert s k (VAL k) in
      prefill n (k + 1) s (if negb (st =? EXPANSE_SYNC32_OK) then checks + 1 else checks)
  end.
(** The clean-up after a rate: keys [KEYS_FIXED] to [KEYS]. *)
Fixpoint cleanup (n : nat) (k : Z) (s : S) : S :=
  match n with
  | O => (sync32_try_reclaim s).2
  | Datatypes.S n => cleanup n (k + 1) (sync32_try_remove s k).2
  end.

(** ** The interrupt *)
Record isr_t := Isr {
  isr_n : Z; isr_ok : Z; isr_nf : Z; isr_busy : Z; isr_bad : Z;
  lat_max : Z; lat_sum : Z; dur_max : Z; dur_sum : Z; isr_rng : Z;
}.
Definition isr_reset (c : isr_t) : isr_t := Isr 0 0 0 0 0 0 0 0 0 (isr_rng c).
(** Where a read counts: right value, not found, busy, or wrong. *)
Inductive outcome := OOk | ONf | OBusy | OBad.
Definition judge (k st : Z) (v : option Z) : outcome :=
  if st =? EXPANSE_SYNC32_OK then (if bool_decide (v = Some (VAL k)) then OOk else OBad)
  else if st =? EXPANSE_SYNC32_NOT_FOUND then ONf
  else if st =? EXPANSE_SYNC32_BUSY then OBusy else OBad.
(** [syst_cvr], [t0] and [t1] are the counter readings; in mode [ISR_CS] the
    plain map [plain] is read. *)
Definition SysTick_Handler (mode : isr_mode) (s : S) (overlap : bool) (plain : Z → option Z)
    (syst_cvr t0 t1 : Z) (c : isr_t) : isr_t :=
  let latency := (ISR_PERIOD - 1) -w syst_cvr in
  match mode with
  | ISR_OFF => c
  | _ =>
      let rng := wrng_next (isr_rng c) in
      let k := Z.land rng (KEYS - 1) in
      let o := match mode with
               | ISR_SYNC32 => let '(st, v) := sync32_try_get s overlap k in judge k st v
               | _ => match plain k with Some v => if v =? VAL k then OOk else OBad | None => ONf end
               end in
      let d := t1 -w t0 in
      Isr (isr_n c +w 1)
        (if o is OOk then isr_ok c +w 1 else isr_ok c) (if o is ONf then isr_nf c +w 1 else isr_nf c)
        (if o is OBusy then isr_busy c +w 1 else isr_busy c) (if o is OBad then isr_bad c +w 1 else isr_bad c)
        (if latency >? lat_max c then latency else lat_max c) (lat_sum c +w latency)
        (if d >? dur_max c then d else dur_max c) (dur_sum c +w d) rng
  end.

(** ** The M4's reader *)
Record served := Served {
  v_ok : Z; v_nf : Z; v_busy : Z; v_bad : Z; v_reads : Z; v_cmax : Z; v_lo : Z; v_hi : Z;
  v_wmax : Z; v_wlo : Z; v_whi : Z; v_rng : Z;
}.
(** [uint32_t nlo = lo + d; if (nlo < lo) hi++; lo = nlo;] *)
Definition add64 (lo hi d : Z) : Z * Z := let nlo := lo +w d in (nlo, if nlo <? lo then hi +w 1 else hi).
(** What a read leaves in the counters: [st] and [v] are its answer for key [k]. *)
Definition count_read (k st : Z) (v : option Z) (locked : bool) (t0 tw t1 : Z) (c : served) : served :=
  let wait := if locked then tw -w t0 else 0 in
  let o := judge k st v in
  let d := t1 -w t0 in
  let '(lo, hi) := add64 (v_lo c) (v_hi c) d in
  let '(wlo, whi) := add64 (v_wlo c) (v_whi c) wait in
  Served (if o is OOk then v_ok c +w 1 else v_ok c) (if o is ONf then v_nf c +w 1 else v_nf c)
    (if o is OBusy then v_busy c +w 1 else v_busy c) (if o is OBad then v_bad c +w 1 else v_bad c)
    (v_reads c +w 1) (if d >? v_cmax c then d else v_cmax c) lo hi
    (if wait >? v_wmax c then wait else v_wmax c) wlo whi (v_rng c).
Definition draw_key (c : served) : Z * served :=
  let rng := wrng_next (v_rng c) in
  (Z.land rng (KEYS - 1),
   Served (v_ok c) (v_nf c) (v_busy c) (v_bad c) (v_reads c) (v_cmax c) (v_lo c) (v_hi c) (v_wmax c) (v_wlo c) (v_whi c) rng).
(** One of the 64 reads: [t0] before, [tw] after the semaphore, [t1] at the end. *)
Definition serve_one (s : S) (overlap locked : bool) (t0 tw t1 : Z) (c : served) : served :=
  let '(k, c) := draw_key c in
  let '(st, v) := sync32_try_get s overlap k in
  count_read k st v locked t0 tw t1 c.
End Arms.

Section Proofs.
  Context {S : Type} `{Sync32Laws S}.
Implicit Types s : S.
(** Every entry holds the value of its key, and the fixed keys are all there. *)
Definition right_values s : Prop := ∀ k v, contents s !! k = Some v → v = VAL k.
Definition fixed_there s : Prop := ∀ k, 0 <= k < KEYS_FIXED → contents s !! k = Some (VAL k).
Definition arm_inv s : Prop := right_values s ∧ fixed_there s.

Lemma right_insert s k : right_values s → right_values (sync32_try_insert s k (VAL k)).2.
Proof.
  intros Hr k' v. rewrite insert_contents. destruct (_ =? _); [|by apply Hr].
  rewrite lookup_insert. case_decide; [by intros [= <-]; subst|by apply Hr].
Qed.
Lemma right_remove s k : right_values s → right_values (sync32_try_remove s k).2.
Proof.
  intros Hr k' v. rewrite remove_contents. destruct (_ =? _); [|by apply Hr].
  rewrite lookup_delete. case_decide; [done|by apply Hr].
Qed.
Lemma arm_reclaim s : arm_inv s → arm_inv (sync32_try_reclaim s).2.
Proof. unfold arm_inv, right_values, fixed_there. by rewrite reclaim_contents. Qed.
Lemma arm_insert s k : KEYS_FIXED <= k → arm_inv s → arm_inv (sync32_try_insert s k (VAL k)).2.
Proof.
  intros Hk [Hr Hf]. split; [by apply right_insert|]. intros j Hj. rewrite insert_contents.
  destruct (_ =? _); [rewrite lookup_insert_ne by lia|]; by apply Hf.
Qed.
Lemma arm_remove s k : KEYS_FIXED <= k → arm_inv s → arm_inv (sync32_try_remove s k).2.
Proof.
  intros Hk [Hr Hf]. split; [by apply right_remove|]. intros j Hj. rewrite remove_contents.
  destruct (_ =? _); [rewrite lookup_delete_ne by lia|]; by apply Hf.
Qed.
Lemma churn_key_range i : KEYS_FIXED <= churn_key i < KEYS.
Proof.
  unfold churn_key, KEYS_FIXED, KEYS. change (2048 - 1) with (Z.ones 11). rewrite Z.land_ones by lia.
  pose proof (Z.mod_pos_bound (Z.shiftr i 1) (2 ^ 11)). lia.
Qed.
(** A mutation always ends, at the latest on its second attempt. *)
Lemma mutate_ok i k s refused :
  KEYS_FIXED <= k → arm_inv s → ∃ st s' r, mutate 2 i k s refused = Some (st, s', r) ∧ arm_inv s'.
Proof.
  intros Hk Hi. cbn [mutate]. destruct (negb (Z.land i 1 =? 0)) eqn:Hodd; rewrite ?Hodd.
  - pose proof (arm_remove s k Hk Hi) as H1. pose proof (remove_after_reclaim s k) as Hre.
    destruct (sync32_try_remove s k) as [st s1]. cbn [fst snd] in *. destruct (Z.eqb_spec st EXPANSE_SYNC32_RECLAIM_BACKLOG) as [->|_]; [|eauto].
    apply arm_reclaim in H1. pose proof (arm_remove _ k Hk H1) as H2. specialize (Hre eq_refl).
    destruct (sync32_try_remove _ k) as [st2 s2]. cbn [fst snd] in *. rewrite (proj2 (Z.eqb_neq _ _) Hre). eauto.
  - pose proof (arm_insert s k Hk Hi) as H1. pose proof (insert_after_reclaim s k (VAL k)) as Hre.
    destruct (sync32_try_insert s k (VAL k)) as [st s1]. cbn [fst snd] in *. destruct (Z.eqb_spec st EXPANSE_SYNC32_RECLAIM_BACKLOG) as [->|_]; [|eauto].
    apply arm_reclaim in H1. pose proof (arm_insert _ k Hk H1) as H2. specialize (Hre eq_refl).
    destruct (sync32_try_insert _ k (VAL k)) as [st2 s2]. cbn [fst snd] in *. rewrite (proj2 (Z.eqb_neq _ _) Hre). eauto.
Qed.
Lemma churn_one_ok i s r a : arm_inv s → ∃ s' r' a', churn_one i s r a = Some (s', r', a') ∧ arm_inv s'.
Proof.
  intros Hi. unfold churn_one. destruct (churn_key_range i) as [Hk _].
  destruct (mutate_ok i (churn_key i) s r Hk Hi) as (st & s1 & r1 & -> & H1). cbn [mbind option_bind].
  eexists _, _, _. split; [done|]. destruct (_ =? 31); [by apply arm_reclaim|done].
Qed.
Lemma churn_ok n i s r a : arm_inv s → ∃ s' i' r' a', writer_churn n i s r a = Some (s', i', r', a') ∧ arm_inv s'.
Proof.
  revert i s r a. induction n as [|n IH]; intros i s r a Hi; cbn [writer_churn]; [eauto 10|].
  destruct (churn_one_ok i s r a Hi) as (s1 & r1 & a1 & -> & H1). cbn [mbind option_bind]. by apply IH.
Qed.
Lemma prefill_ok n k s c :
  0 <= k → right_values s → (∀ j, 0 <= j < k → contents s !! j = Some (VAL j)) → (prefill n k s c).2 = c →
  right_values (prefill n k s c).1 ∧ ∀ j, 0 <= j < k + Z.of_nat n → contents (prefill n k s c).1 !! j = Some (VAL j).
Proof.
  assert (∀ n k (s : S) c, c <= (prefill n k s c).2) as Hmono.
  { clear. induction n as [|n IH]; intros k s c; cbn [prefill]; [cbn; lia|].
    destruct (sync32_try_insert s k (VAL k)) as [st s1]. specialize (IH (k + 1) s1 (if negb (st =? EXPANSE_SYNC32_OK) then c + 1 else c)).
    destruct (negb _); lia. }
  revert k s. induction n as [|n IH]; intros k s Hk Hr Hf; cbn [prefill]; [rewrite Z.add_0_r; auto|].
  pose proof (right_insert s k Hr) as Hr1. pose proof (insert_contents s k (VAL k)) as Hc.
  destruct (sync32_try_insert s k (VAL k)) as [st s1]. cbn [fst snd] in *. destruct (Z.eqb_spec st EXPANSE_SYNC32_OK) as [->|Hne]; cbn [negb].
  - intros Hchk. assert (contents s1 = <[k := VAL k]> (contents s)) as Hc' by exact Hc.
    destruct (IH (k + 1) s1) as [HA HB]; [lia|done| |done|].
    + intros j Hj. rewrite Hc', lookup_insert. case_decide; [by subst|]. apply Hf. lia.
    + split; [done|]. intros j Hj. apply HB. lia.
  - intros Hchk. pose proof (Hmono n (k + 1) s1 (c + 1)). lia.
Qed.

Lemma prefill_inv s0 s1 : sync32_map_new KEYS 1 = Some s0 → prefill 2048 0 s0 0 = (s1, 0) → arm_inv s1.
Proof.
  intros Hnew Hpre. apply new_contents in Hnew. destruct (prefill_ok 2048 0 s0 0) as [HA HB]; [lia| | |by rewrite Hpre|].
  - intros k v. by rewrite Hnew, lookup_empty.
  - lia.
  - rewrite Hpre in HA, HB. split; [exact HA|]. intros k Hk. apply HB. unfold KEYS_FIXED in Hk. lia.
Qed.

(** What a read of the map counts as. *)
Lemma judge_right s overlap k :
  right_values s →
  judge k (sync32_try_get s overlap k).1 (sync32_try_get s overlap k).2
  = if overlap then OBusy else if contents s !! k is Some _ then OOk else ONf.
Proof.
  intros Hr. destruct overlap; [by rewrite get_overlap|]. rewrite get_quiet. destruct (contents s !! k) as [v|] eqn:Hk; [|done].
  cbn [fst snd]. unfold judge. cbn [Z.eqb EXPANSE_SYNC32_OK]. apply Hr in Hk as ->. by rewrite bool_decide_true.
Qed.
Lemma judge_read s overlap k :
  arm_inv s →
  judge k (sync32_try_get s overlap k).1 (sync32_try_get s overlap k).2
  = if overlap then OBusy else if contents s !! k is Some _ then OOk else ONf.
Proof. intros [Hr _]. by apply judge_right. Qed.
Lemma add64_spec lo hi d :
  is_u32 lo → is_u32 hi → is_u32 d →
  let '(lo', hi') := add64 lo hi d in is_u32 lo' ∧ is_u32 hi' ∧ hi' * 2 ^ 32 + lo' = u64 (hi * 2 ^ 32 + lo + d).
Proof.
  intros Hlo Hhi Hd. unfold add64. pose proof (u32_range (lo + d)) as Hr. split; [done|].
  unfold is_u32 in *. unfold u32, u64 in *. change (2 ^ 64) with (2 ^ 32 * 2 ^ 32). set (B := 2 ^ 32) in *.
  assert (0 < B) by (unfold B; lia).
  destruct (Z.ltb_spec ((lo + d) mod B) lo) as [Hc|Hc].
  - assert (lo + d >= B) by (destruct (Z.lt_ge_cases (lo + d) B) as [Hx|]; [rewrite Z.mod_small in Hc; lia|lia]).
    assert ((lo + d) mod B = lo + d - B) as -> by (symmetry; apply (Z.mod_unique _ _ 1); lia).
    split; [apply Z.mod_pos_bound; lia|].
    destruct (decide (hi + 1 = B)) as [He|He].
    + rewrite He, Z.mod_same by lia. replace (hi * B + lo + d) with (lo + d - B + 1 * (B * B)) by nia. rewrite Z.mod_add by nia. rewrite Z.mod_small; nia.
    + rewrite Z.mod_small by lia. rewrite Z.mod_small; nia.
  - assert (lo + d < B).
    { destruct (Z.lt_ge_cases (lo + d) B); [done|]. assert ((lo + d) mod B = lo + d - B) as Hx by (symmetry; apply (Z.mod_unique _ _ 1); lia). lia. }
    rewrite (Z.mod_small (lo + d)) by lia. split; [done|]. rewrite Z.mod_small; nia.
Qed.

Lemma u32_bump a b : u32 (u32 (a + 1) + b) = u32 (a + b + 1).
Proof. unfold u32. rewrite Zplus_mod_idemp_l. f_equal. lia. Qed.
(** One of four counters goes up by one. *)
Definition tally (o : outcome) (ok nf busy bad : Z) : Z * Z * Z * Z :=
  (if o is OOk then ok +w 1 else ok, if o is ONf then nf +w 1 else nf, if o is OBusy then busy +w 1 else busy,
   if o is OBad then bad +w 1 else bad).
Lemma tally_sum o ok nf busy bad :
  let '(a, b, c, d) := tally o ok nf busy bad in u32 (a + b + c + d) = u32 (ok + nf + busy + bad + 1).
Proof.
  destruct o; cbn; [replace (_ + nf + busy + bad) with (u32 (ok + 1) + (nf + busy + bad)) by lia
    |replace (ok + _ + busy + bad) with (u32 (nf + 1) + (ok + busy + bad)) by lia
    |replace (ok + nf + _ + bad) with (u32 (busy + 1) + (ok + nf + bad)) by lia
    |replace (ok + nf + busy + _) with (u32 (bad + 1) + (ok + nf + busy)) by lia]; rewrite u32_bump; f_equal; lia.
Qed.

(** In the interrupt arm and the cross-core cells no read is ever counted
    wrong.  From a new map whose pre-fill reported nothing, the writer completes
    any number of turns (each mutation needs at most one reclaim), and after
    them a read from the interrupt or from the M4, whichever key its generator
    draws and whether or not it lands inside a mutation, counts as right, not
    found or busy; a key of the fixed half is never counted not found; every
    read is counted exactly once; and the M4's cycle sum is the 64-bit sum. *)
Theorem arm_reads_right s0 s1 n plain :
  sync32_map_new KEYS 1 = Some s0 → prefill 2048 0 s0 0 = (s1, 0) →
  ∃ s i r a, writer_churn n 0 s1 0 0 = Some (s, i, r, a) ∧
  ∀ overlap,
    (∀ cvr t0 t1 c, let c' := SysTick_Handler ISR_SYNC32 s overlap plain cvr t0 t1 c in
       isr_bad c' = isr_bad c ∧ isr_n c' = isr_n c +w 1 ∧
       u32 (isr_ok c' + isr_nf c' + isr_busy c' + isr_bad c') = u32 (isr_ok c + isr_nf c + isr_busy c + isr_bad c + 1) ∧
       (Z.land (isr_rng c') (KEYS - 1) < KEYS_FIXED → isr_nf c' = isr_nf c)) ∧
    (∀ locked t0 tw t1 c, is_u32 (v_lo c) → is_u32 (v_hi c) →
       let c' := serve_one s overlap locked t0 tw t1 c in
       v_bad c' = v_bad c ∧ v_reads c' = v_reads c +w 1 ∧
       u32 (v_ok c' + v_nf c' + v_busy c' + v_bad c') = u32 (v_ok c + v_nf c + v_busy c + v_bad c + 1) ∧
       (Z.land (v_rng c') (KEYS - 1) < KEYS_FIXED → v_nf c' = v_nf c) ∧
       v_hi c' * 2 ^ 32 + v_lo c' = u64 (v_hi c * 2 ^ 32 + v_lo c + (t1 -w t0))).
Proof.
  intros Hnew Hpre.
  pose proof (prefill_inv s0 s1 Hnew Hpre) as H1.
  destruct (churn_ok n 0 s1 0 0 H1) as (s & i & r & a & Hrun & Hi). exists s, i, r, a. split; [done|].
  assert (∀ k, 0 <= Z.land k (KEYS - 1)) as Hnn.
  { intros k. unfold KEYS. change (4096 - 1) with (Z.ones 12). rewrite Z.land_ones by lia. apply Z.mod_pos_bound. lia. }
  assert (∀ k, Z.land k (KEYS - 1) < KEYS_FIXED → is_Some (contents s !! Z.land k (KEYS - 1))) as Hfix.
  { intros k Hk. exists (VAL (Z.land k (KEYS - 1))). apply Hi. split; [apply Hnn|done]. }
  intros overlap. split.
  - intros cvr t0 t1 c c'. unfold c', SysTick_Handler.
    set (k := Z.land (wrng_next (isr_rng c)) (KEYS - 1)). pose proof (judge_read s overlap k Hi) as Hj.
    specialize (Hfix (wrng_next (isr_rng c))). fold k in Hfix.
    destruct (sync32_try_get s overlap k) as [st v]. cbn [fst snd] in Hj. cbn [isr_bad isr_n isr_ok isr_nf isr_busy isr_rng].
    fold k. split; [|split; [done|split]].
    + rewrite Hj. destruct overlap; [done|]. by destruct (contents s !! k).
    + exact (tally_sum (judge k st v) _ _ _ _).
    + intros Hlt. rewrite Hj. destruct overlap; [done|]. destruct (Hfix Hlt) as [x ->]. done.
  - intros locked t0 tw t1 c Hlo Hhi c'. unfold c', serve_one, draw_key, count_read. cbn [v_ok v_nf v_busy v_bad v_reads v_cmax v_lo v_hi v_wmax v_wlo v_whi v_rng].
    set (k := Z.land (wrng_next (v_rng c)) (KEYS - 1)). pose proof (judge_read s overlap k Hi) as Hj.
    specialize (Hfix (wrng_next (v_rng c))). fold k in Hfix. destruct (sync32_try_get s overlap k) as [st v]. cbn [fst snd] in Hj.
    pose proof (add64_spec (v_lo c) (v_hi c) (t1 -w t0) Hlo Hhi (u32_range _)) as Hadd.
    destruct (add64 (v_lo c) (v_hi c) (t1 -w t0)) as [lo hi]. destruct (add64 (v_wlo c) (v_whi c) _) as [wlo whi].
    cbn [v_bad v_reads v_ok v_nf v_busy v_rng v_lo v_hi]. fold k. split; [|split; [done|split; [|split; [|apply Hadd]]]].
    + rewrite Hj. destruct overlap; [done|]. by destruct (contents s !! k).
    + exact (tally_sum (judge k st v) _ _ _ _).
    + intros Hlt. rewrite Hj. destruct overlap; [done|]. destruct (Hfix Hlt) as [x ->]. done.
Qed.
End Proofs.

Lemma arm_reads_right_witness :
  ∃ (s : toy) i r a, writer_churn 40 0 (prefill 2048 0 (Toy ∅ 0) 0).1 0 0 = Some (s, i, r, a) ∧
    isr_bad (SysTick_Handler ISR_SYNC32 s false (λ _, None) 0 0 0 (Isr 0 0 0 0 0 0 0 0 0 2654435769)) = 0.
Proof.
  destruct (arm_reads_right (Toy ∅ 0) (prefill 2048 0 (Toy ∅ 0) 0).1 40 (λ _, None)) as (s & i & r & a & Hrun & Hread).
  - reflexivity.
  - destruct (prefill 2048 0 (Toy ∅ 0) 0) as [s1 c] eqn:Hp. cbn [fst]. f_equal.
    assert ((prefill 2048 0 (Toy ∅ 0) 0).2 = 0) as Hc by (vm_compute; reflexivity). rewrite Hp in Hc. exact Hc.
  - exists s, i, r, a. split; [exact Hrun|]. exact (proj1 (proj1 (Hread false) 0 0 0 _)).
Defined.
