(* ===== verification/DemoScreen.v ===== *)
(** * What the LCD demo draws

    Model of the drawing half of
    [src/integrations/stm32h747/demo/CM7/Core/Src/main.c]: the table of steps,
    the row budget of the screen, and the functions that draw the strip, the
    lane headings, the heartbeat bands, the numbers, the scoreboard and the
    summary.  They read the lanes of [Lanes] and draw with [Gfx], in a
    state-and-error monad [DR] over the framebuffer, the reports of
    [gfx_overflow] and [band_next_ms]; [None] is a store outside the framebuffer
    or a buffer, or a loop that outran its fuel.  The argument [li] says whether
    the lane is [lane_b], the test [l == &lane_b] of the source. *)
From Stdlib Require Import String Ascii.
From stdpp Require Import base numbers list gmap.
From S2P Require Import Prelude Fonts Gfx ExpanseApi Sync32 Lanes HarnessOut.
Open Scope Z_scope.
Abbreviation length := List.length.

(** ** [snprintf] *)
(** The decimal digits of [v] put in front of [acc]. *)
Fixpoint dec_digits (fuel : nat) (v : Z) (acc : list Z) : list Z :=
  match fuel with
  | O => acc
  | S fuel => let acc := (48 + v mod 10) :: acc in if v / 10 =? 0 then acc else dec_digits fuel (v / 10) acc
  end.
(** The conversions [%lu] and [%<n>lu] of a 32-bit word. *)
Definition lu (v : Z) : list Z := dec_digits 10 v [].
Definition lu_pad (n : nat) (v : Z) : list Z := replicate (n - length (lu v)) 32 ++ lu v.
(** The string left in a buffer of [n] bytes by [snprintf(b, n, ...)]. *)
Definition snprintf (n : nat) (s : list Z) : list Z := take (n - 1) s.
Fixpoint store_all (b : list Z) (off : Z) (s : list Z) : option (list Z) :=
  match s with [] => Some b | c :: s => b ← arr_set b off c; store_all b (off + 1) s end.
(** [snprintf(b + off, size, ...)] in a buffer: the buffer and the value returned. *)
Definition snprintf_at (b : list Z) (off size : Z) (s : list Z) : option (list Z * Z) :=
  if size =? 0 then Some (b, Z.of_nat (length s))
  else b ← store_all b off (take (Z.to_nat (size - 1)) s ++ [0]); Some (b, Z.of_nat (length s)).

(** ** The program of steps *)
Record step_t := Step { name : list Z; hz : Z; p_mode : Z; secs : Z; growth : bool; watch : list Z }.
Definition PROG : list step_t := [
  Step (chars "PROLOGUE") 0 HASH_MASK_WHOLE 6 false
    (chars "both reader interrupts run every millisecond; no sweep yet");
  Step (chars "STEP 1") 1 HASH_MASK_WHOLE 20 false
    (chars "once a second the hash table sweeps; its reader is masked meanwhile");
  Step (chars "STEP 2") 5 HASH_MASK_WHOLE 20 false (chars "five sweeps a second");
  Step (chars "STEP 3") 10 HASH_MASK_WHOLE 20 false
    (chars "ten sweeps a second: the hash reader is blocked half the time");
  Step (chars "STEP 4") 10 HASH_MASK_PER_WRITE 20 false
    (chars "the competent hash firmware masks only around each write: no gaps expected");
  Step (chars "STEP 5") 10 HASH_UNMASKED 20 false
    (chars "no mask at all: no gaps, but the hash reader can read a wrong value");
  Step (chars "STEP 6") 10 HASH_MASK_PER_WRITE 20 true
    (chars "filling both tables from empty at 5,000/s; each hash-table doubling is one write");
  Step (chars "STEP 7") 10 HASH_UNMASKED 20 true
    (chars "the same growth with the hash reader unmasked: a read can land in a half-moved table");
  Step (chars "SUMMARY") 0 HASH_MASK_WHOLE 0 false []].
Definition N_STEPS : Z := Z.of_nat (length PROG).
Definition STEP_SUMMARY : Z := N_STEPS - 1.
Record ledger_t := Ledger {
  a_blocked : Z; a_stale : Z; a_wrong : Z; a_busy : Z;
  b_blocked : Z; b_stale : Z; b_wrong : Z; filled : bool;
}.

(** ** Layout *)
Definition STRIP_Y : Z := 0.
Definition STRIP_H : Z := 44.
Definition HEAD_Y : Z := 50.
Definition HEAD_H : Z := 58.
Definition BEAT_Y : Z := 112.
Definition BEAT_H : Z := 196.
Definition NUMS_Y : Z := 318.
Definition NUMS_H : Z := 84.
Definition SWEEP_Y : Z := 406.
Definition SWEEP_H : Z := 24.
Definition SCORE_Y : Z := 432.
Definition SCORE_H : Z := 24.
Definition FOOT_Y : Z := 460.
Definition FOOT_H : Z := 20.
Definition LANE_X (li : bool) : Z := if li then 406 else 6.
Definition LANE_W : Z := 388.
Definition BAND_X (li : bool) : Z := LANE_X li + 6.
Definition BAND_W : Z := 376.
Definition BAND_Y : Z := BEAT_Y + 30.
Definition BAND_H : Z := BEAT_H - 64.
Definition WINDOW_MS : Z := 4000.

(** ** The drawing monad *)
Record screen := Screen { fb : fbuf; over : list (list Z * Z * Z); band_next : list Z }.
Definition DR (A : Type) : Type := screen → option (A * screen).
#[global] Instance dr_ret : MRet DR := λ A x s, Some (x, s).
#[global] Instance dr_bind : MBind DR := λ A B f m s, match m s with Some (x, s') => f x s' | None => None end.
Definition need {A} (o : option A) : DR A := λ s, x ← o; Some (x, s).
Definition fillR (x y w h c : Z) : DR unit := λ s,
  f ← fill_rect x y w h c (fb s); Some (tt, Screen f (over s) (band_next s)).
Definition textF (f : font_t) (x y : Z) (t : list Z) (fg bg max_w : Z) (al : align) : DR Z := λ s,
  '(w, f, o) ← text_f f x y t fg bg max_w al (fb s) (over s); Some (w, Screen f o (band_next s)).

Section Lanes.
  Context {S M : Type} `{!Sync32 S} `{!ExpanseMap M}.
  Abbreviation lane := (@lane S M).
Implicit Types l : lane.

(** ** The second line of a lane's heading *)
(** [for (i = 0; i < l->rehash_n && k < (int)n - 8; i++)], at most [fuel] turns. *)
Fixpoint doublings (fuel : nat) (l : lane) (i k n : Z) (b : list Z) : option (list Z * Z) :=
  if (i <? rehash_n (loop l)) && (k <? n - 8) then
    match fuel with
    | O => None
    | Datatypes.S fuel =>
        ms ← arr_get (rehash_ms (loop l)) i;
        '(b, r) ← snprintf_at b k (n -w k) ((if i =? 0 then [32] else [32; 183; 32]) ++ lu ms);
        doublings fuel l (i + 1) (k + r) n b
    end
  else Some (b, k).
Definition mode_line l (p : step_t) (b : list Z) : option (list Z) :=
  let n := Z.of_nat (length b) in
  if growth p then
    if is_expanse l then fst <$> snprintf_at b 0 n (chars "grows node by node: no rehash")
    else if rehash_n (loop l) =? 0 then fst <$> snprintf_at b 0 n (chars "table doubles at 50% load")
    else
      '(b, k) ← snprintf_at b 0 n (chars "doublings cost");
      '(b, k) ← doublings (Z.to_nat (rehash_n (loop l))) l 0 k n b;
      fst <$> snprintf_at b k (n -w k) (chars " ms")
  else if is_expanse l then fst <$> snprintf_at b 0 n (chars "reader interrupt: never blocked")
  else fst <$> snprintf_at b 0 n (chars "reader interrupt: " ++
         chars (if mode l =? HASH_MASK_WHOLE then "masked in the scan"
                else if mode l =? HASH_MASK_PER_WRITE then "masked per write" else "never masked")).
Definition fix_dots (s : list Z) : list Z := (λ c, if c =? 183 then 46 else c) <$> s.

(** ** The strip *)
Definition strip_title (step : Z) (p : step_t) : list Z :=
  let mode := chars (if p_mode p =? HASH_MASK_WHOLE then "hash reader masked in the scan"
                     else if p_mode p =? HASH_MASK_PER_WRITE then "hash reader masked per write"
                     else "hash reader not masked") in
  snprintf 96
    (if step =? 0 then chars "PROLOGUE . no sweeps yet"
     else if step =? STEP_SUMMARY then chars "SUMMARY . what this run measured"
     else if growth p then name p ++ chars " / " ++ lu (N_STEPS - 2) ++ chars " . growth . " ++ mode
     else name p ++ chars " / " ++ lu (N_STEPS - 2) ++ chars " . " ++ lu (hz p) ++ chars " sweep"
          ++ chars (if hz p >? 1 then "s" else "") ++ chars "/s . " ++ mode).
Definition draw_strip (step since_ms records : Z) : DR unit :=
  p ← need (arr_get PROG step);
  fillR 0 STRIP_Y LCD_W STRIP_H C_PANEL;;
  textF cond24 10 (STRIP_Y + 3) (strip_title step p) C_TEXT C_PANEL (if growth p then 570 else 720) ALIGN_LEFT;;
  if step =? STEP_SUMMARY then mret tt
  else
    let b := snprintf 96 (if growth p then lu_pad 6 records ++ chars " records . " ++ lu_pad 2 (since_ms / 1000) ++ chars " s"
                          else lu_pad 2 (since_ms / 1000) ++ chars " s") in
    textF mono16 (LCD_W - 10) (STRIP_Y + 8) b C_MUTED C_PANEL 220 ALIGN_RIGHT;;
    fillR 0 (STRIP_Y + STRIP_H - 3) LCD_W 3 C_GRID;;
    (if secs p =? 0 then mret tt
     else
       let full := secs p *w 1000 in
       fillR 0 (STRIP_Y + STRIP_H - 3) (LCD_W * (if since_ms <? full then since_ms else full) / full) 3 C_MUTED);;
    match watch p with
    | [] => mret tt
    | _ => if since_ms <? 6000
           then textF mono16 10 (STRIP_Y + 26) (watch p) C_TEXT C_PANEL 780 ALIGN_LEFT;; mret tt else mret tt
    end.

(** ** A lane's panels *)
Definition lane_name (li : bool) : list Z := if li then chars "HASH TABLE" else chars "EXPANSE".
Definition accent_of l : Z := if is_expanse l then C_BLUE else C_AMBER.
(** [junk]: the 64 bytes of the uninitialised buffer. *)
Definition draw_head (li : bool) l (p : step_t) (junk : list Z) : DR unit :=
  let x := LANE_X li in
  fillR x HEAD_Y LANE_W HEAD_H C_BG;;
  textF cond32 (x + 6) HEAD_Y (lane_name li) (accent_of l) C_BG 200 ALIGN_LEFT;;
  b ← need (mode_line l p junk);
  textF mono16 (x + 6) (HEAD_Y + 36) (fix_dots (c_str b 0)) C_MUTED C_BG (LANE_W - 12) ALIGN_LEFT;;
  mret tt.

(** The legend's entries: the colour, the word and whether it is shown. *)
Definition legend l (p : step_t) : list (Z * list Z * bool) :=
  let blocked := negb (blocked_ms (isr l) =? 0) in
  [(accent_of l, chars "value", true);
   (C_CYAN, chars "BUSY", is_expanse l);
   (C_RED, chars "blocked",
      if negb (is_expanse l) then negb (p_mode p =? HASH_UNMASKED) || blocked else blocked);
   (C_MAGENTA, chars "wrong",
      negb (is_expanse l) && (p_mode p =? HASH_UNMASKED) || negb (isr_bad (isr l) =? 0) || negb (isr_nf (isr l) =? 0))].
Fixpoint draw_legend (items : list (Z * list Z * bool)) (lx ly : Z) : DR unit :=
  match items with
  | [] => mret tt
  | (c, s, on) :: items =>
      if negb on then draw_legend items lx ly
      else
        fillR lx (ly + 4) 12 12 c;;
        w ← textF mono16 (lx + 18) ly (snprintf 64 s) C_MUTED C_PANEL 120 ALIGN_LEFT;
        draw_legend items (lx + (18 + w + 22)) ly
  end.
Definition draw_beat_frame (li : bool) l (p : step_t) : DR unit :=
  let x := LANE_X li in
  fillR x BEAT_Y LANE_W BEAT_H C_PANEL;;
  textF mono16 (x + 6) (BEAT_Y + 4) (chars "did the reader interrupt run? last 4 s") C_MUTED C_PANEL (LANE_W - 12) ALIGN_LEFT;;
  fillR (BAND_X li) BAND_Y BAND_W BAND_H C_BG;;
  draw_legend (legend l p) (x + 6) (BEAT_Y + BEAT_H - 22).

(** ** The heartbeat *)
Definition col_at (t : Z) : Z := (t mod WINDOW_MS) *w BAND_W / WINDOW_MS.
(** The first millisecond of the next column. *)
Definition col_end (t : Z) : Z :=
  ((col_at t +w 1) *w WINDOW_MS +w (BAND_W - 1)) / BAND_W +w (t / WINDOW_MS) *w WINDOW_MS.
(** What the slots [s], ..., [s + n - 1] hold: held, wrong, busy, value. *)
Fixpoint scan_slots (n : nat) (s : Z) (ring : list Z) (seen : bool * bool * bool * bool) : option (bool * bool * bool * bool) :=
  match n with
  | O => Some seen
  | Datatypes.S n =>
      v ← arr_get ring (Z.land s (RING_LEN - 1));
      let '(held, wrong, busy, value) := seen in
      scan_slots n (s + 1) ring
        (if v =? SLOT_HELD then (true, wrong, busy, value)
         else if v =? SLOT_WRONG then (held, true, busy, value)
         else if v =? SLOT_BUSY then (held, wrong, true, value)
         else if v =? SLOT_VALUE then (held, wrong, busy, true) else seen)
  end.
Definition column_colour (accent : Z) (seen : bool * bool * bool * bool) : Z :=
  let '(held, wrong, busy, value) := seen in
  if held then C_RED else if wrong then C_MAGENTA else if busy then C_CYAN else if value then accent else C_BG.
Definition put_band (li : bool) (t : Z) : DR unit := λ s,
  b ← arr_set (band_next s) (if li then 1 else 0) t; Some (tt, Screen (fb s) (over s) b).
Definition get_band (li : bool) : DR Z := λ s, t ← arr_get (band_next s) (if li then 1 else 0); Some (t, s).
Fixpoint beat_loop (fuel : nat) (li : bool) l (t now_ms : Z) : DR unit :=
  if t +w 1 <? now_ms then
    if col_end t >? now_ms -w 1 then mret tt
    else
      match fuel with
      | O => need None
      | Datatypes.S fuel =>
          seen ← need (scan_slots (Z.to_nat (col_end t - t)) t (ring (isr l)) (false, false, false, false));
          fillR (BAND_X li + col_at t) BAND_Y 1 BAND_H (column_colour (accent_of l) seen);;
          fillR (BAND_X li + (col_at t +w 1) mod BAND_W) BAND_Y 1 BAND_H C_GRID;;
          put_band li (col_end t);;
          beat_loop fuel li l (col_end t) now_ms
      end
  else mret tt.
(** Every column is at least a millisecond: [now_ms] turns are enough. *)
Definition draw_beat_columns (li : bool) l (now_ms : Z) : DR unit :=
  t ← get_band li;
  (if t =? 0 then put_band li now_ms else mret tt);;
  t ← get_band li;
  beat_loop (Z.to_nat now_ms) li l t now_ms.

(** ** Numbers *)
Definition stale_shown (i : isr_stats) : Z := if stale_max i =? 0 then 1 else stale_max i +w 1.
Definition wrong_reads (i : isr_stats) : Z := isr_bad i +w isr_nf i.
(** Tenths of a percent, computed in 64 bits and truncated to 32. *)
Definition pct10 (i : isr_stats) : Z :=
  let ticks := isr_served i +w blocked_ms i in
  if ticks =? 0 then 0 else u32 (no_value_ms i * 1000 / ticks).
(** The four cells: label, number and colour. *)
Definition num_cells l : list (list Z * list Z * Z) :=
  let i := isr l in
  [(chars "BLOCKED ms", lu (blocked_ms i), if blocked_ms i =? 0 then C_GREEN else C_RED);
   (chars "NO VALUE %",
      if pct10 i >=? 100 then lu (pct10 i / 10) else lu (pct10 i / 10) ++ chars "." ++ lu (pct10 i mod 10),
      if no_value_ms i =? 0 then C_GREEN else if is_expanse l then C_CYAN else C_RED);
   (chars "STALE ms", lu (stale_shown i), if stale_shown i >? 2 then C_RED else C_GREEN);
   (chars "WRONG", lu (wrong_reads i), if wrong_reads i =? 0 then C_GREEN else C_MAGENTA)].
Fixpoint draw_cells (cells : list (list Z * list Z * Z)) (x cw : Z) : DR unit :=
  match cells with
  | [] => mret tt
  | (label, num, c) :: cells =>
      textF mono16 x (NUMS_Y + 6) label C_MUTED C_PANEL (cw - 4) ALIGN_LEFT;;
      textF cond40 x (NUMS_Y + 26) (snprintf 16 num) c C_PANEL (cw - 4) ALIGN_LEFT;;
      draw_cells cells (x + cw) cw
  end.
Definition draw_nums (li : bool) l : DR unit :=
  let x := LANE_X li in
  fillR x NUMS_Y LANE_W NUMS_H C_PANEL;;
  draw_cells (num_cells l) (x + 4) (LANE_W / 4).

Definition sweep_text l (p : step_t) : list Z :=
  let us := sweep_us (loop l) in
  if hz p =? 0 then snprintf 64 (chars "sweep: none yet")
  else snprintf 64 (chars "sweep " ++ lu (us / 1000) ++ chars "." ++ lu ((us / 100) mod 10) ++ chars " ms "
         ++ chars (if is_expanse l then "remove_range" else "full scan") ++ chars " . "
         ++ lu ((us *w hz p) / 10000) ++ chars "% core").
Definition draw_sweep (li : bool) l (p : step_t) : DR unit :=
  let x := LANE_X li in
  fillR x SWEEP_Y LANE_W SWEEP_H C_BG;;
  textF mono16 (x + 8) (SWEEP_Y + 3) (sweep_text l p) C_TEXT C_BG (LANE_W - 16) ALIGN_LEFT;;
  mret tt.

(** Tenths of a byte per record. *)
Definition bpr10 l : Z := if count l =? 0 then 0 else u32 (index_bytes (loop l) * 10 / count l).
(** [o]: the other lane. *)
Definition draw_score (li : bool) l (o : lane) : DR unit :=
  let x := LANE_X li in
  let ns := lookup_ns (loop l) in
  let low_b := negb (bpr10 l =? 0) && negb (bpr10 o =? 0) && (bpr10 l <? bpr10 o) in
  let low_n := negb (ns =? 0) && negb (lookup_ns (loop o) =? 0) && (ns <? lookup_ns (loop o)) in
  fillR x SCORE_Y LANE_W SCORE_H C_BG;;
  textF mono16 (x + 8) (SCORE_Y + 3)
    (snprintf 40 (lu (bpr10 l / 10) ++ chars "." ++ lu (bpr10 l mod 10) ++ chars " B/record" ++ chars (if low_b then " v" else "")))
    (if low_b then C_GREEN else C_TEXT) C_BG (LANE_W / 2 - 12) ALIGN_LEFT;;
  textF mono16 (x + LANE_W - 8) (SCORE_Y + 3)
    (snprintf 40 (lu ns ++ chars " ns/lookup" ++ chars (if low_n then " v" else "")))
    (if low_n then C_GREEN else C_TEXT) C_BG (LANE_W / 2 - 12) ALIGN_RIGHT;;
  mret tt.

Definition draw_foot (p : step_t) : DR unit :=
  fillR 0 FOOT_Y LCD_W FOOT_H C_BG;;
  textF mono16 8 (FOOT_Y + 1)
    (chars (if growth p then "demo, not benchmark . each doubling timed by DWT . docs/benchmarks/stm32h747"
            else "demo, not benchmark . 100,000 records/lane . measured claims: docs/benchmarks/stm32h747"))
    C_MUTED C_BG 784 ALIGN_LEFT;;
  mret tt.

(** ** The summary *)
Definition cx : list Z := [10; 90; 170; 300; 385; 465; 560; 645; 725].
Definition hdr : list (list Z) :=
  chars <$> ["step"; "sweeps/s"; "hash mask"; "blocked"; "stale"; "wrong"; "blocked"; "stale"; "wrong"]%string.
(** One text per column, the budget of each up to 6 pixels before the next. *)
Fixpoint draw_row (xs : list Z) (cells : list (list Z * Z)) (y : Z) : DR unit :=
  match xs, cells with
  | x :: xs, (t, c) :: cells =>
      let right := match xs with x' :: _ => x' | [] => LCD_W - 10 end in
      textF mono16 x y t c C_BG (right - x - 6) ALIGN_LEFT;;
      draw_row xs cells y
  | _, _ => mret tt
  end.
Definition mask_word (p : step_t) : list Z :=
  chars (if growth p then if p_mode p =? HASH_UNMASKED then "grow, none" else "grow, masked"
         else if p_mode p =? HASH_MASK_WHOLE then "in scan"
         else if p_mode p =? HASH_MASK_PER_WRITE then "per write" else "none").
Definition summary_cells (p : step_t) (r : ledger_t) : list (list Z * Z) :=
  let red z := if z =? 0 then C_GREEN else C_RED in
  let late z := if z >? 2 then C_RED else C_GREEN in
  let bad z := if z =? 0 then C_GREEN else C_MAGENTA in
  [(snprintf 16 (name p), C_TEXT); (snprintf 16 (lu (hz p)), C_TEXT); (snprintf 16 (mask_word p), C_TEXT);
   (snprintf 16 (lu (a_blocked r)), red (a_blocked r)); (snprintf 16 (lu (a_stale r)), late (a_stale r));
   (snprintf 16 (lu (a_wrong r)), bad (a_wrong r));
   (snprintf 16 (lu (b_blocked r)), red (b_blocked r)); (snprintf 16 (lu (b_stale r)), late (b_stale r));
   (snprintf 16 (lu (b_wrong r)), bad (b_wrong r))].
(** [for (uint32_t s = 1; s < STEP_SUMMARY; s++)], [n] steps from [s]. *)
Fixpoint summary_rows (n : nat) (s row : Z) (ledger : list ledger_t) : DR unit :=
  match n with
  | O => mret tt
  | Datatypes.S n =>
      r ← need (arr_get ledger s);
      if negb (filled r) then summary_rows n (s + 1) row ledger
      else
        p ← need (arr_get PROG s);
        draw_row cx (summary_cells p r) (HEAD_Y + 60 + row * 32);;
        summary_rows n (s + 1) (row + 1) ledger
  end.
Definition summary_line (a b : lane) : list Z :=
  snprintf 96 (chars "memory " ++ lu (bpr10 a / 10) ++ chars "." ++ lu (bpr10 a mod 10) ++ chars " vs "
    ++ lu (bpr10 b / 10) ++ chars "." ++ lu (bpr10 b mod 10) ++ chars " B/record (Expanse incl. by-time index) . lookup "
    ++ lu (lookup_ns (loop a)) ++ chars " vs " ++ lu (lookup_ns (loop b)) ++ chars " ns").
Definition draw_summary (ledger : list ledger_t) (a b : lane) : DR unit :=
  fillR 0 HEAD_Y LCD_W (FOOT_Y - HEAD_Y) C_BG;;
  textF cond24 300 (HEAD_Y + 2) (chars "EXPANSE (ms)") C_BLUE C_BG 250 ALIGN_LEFT;;
  textF cond24 560 (HEAD_Y + 2) (chars "HASH TABLE (ms)") C_AMBER C_BG 250 ALIGN_LEFT;;
  draw_row cx ((λ t, (t, C_MUTED)) <$> hdr) (HEAD_Y + 30);;
  fillR 10 (HEAD_Y + 50) (LCD_W - 20) 1 C_GRID;;
  summary_rows (Z.to_nat (STEP_SUMMARY - 1)) 1 0 ledger;;
  textF mono16 10 (SCORE_Y - 14) (summary_line a b) C_MUTED C_BG 780 ALIGN_LEFT;;
  textF mono16 10 (SCORE_Y + 6) (chars "every value on this screen was measured in this run") C_MUTED C_BG 780 ALIGN_LEFT;;
  mret tt.
End Lanes.
