(* ===== verification/DemoLayout.v ===== *)
(** * The demo's screen: panels, text budgets and the heartbeat

    Claims about the drawing functions of [DemoScreen]
    ([src/integrations/stm32h747/demo/CM7/Core/Src/main.c]): each draws inside
    its own panel of the row budget, its texts fit their pixel budgets and its
    strings their buffers, and the heartbeat band shows each column's worst
    outcome. *)
From Stdlib Require Import String Ascii.
From stdpp Require Import base numbers list gmap.
From S2P Require Import Prelude Fonts Gfx ExpanseApi Sync32 Lanes LaneTheorems HarnessOut DemoScreen.
Open Scope Z_scope.
Abbreviation length := List.length.

(** ** Decimal strings *)
Lemma dec_digits_length fuel v acc d :
  (1 <= d <= fuel)%nat → 0 <= v < 10 ^ Z.of_nat d → (length (dec_digits fuel v acc) <= d + length acc)%nat.
Proof.
  revert v acc d. induction fuel as [|fuel IH]; intros v acc d Hd Hv; [lia|]. cbn [dec_digits].
  destruct (Z.eqb_spec (v / 10) 0) as [|Hne]; [cbn; lia|]. destruct d as [|[|d]]; [lia| |].
  - change (10 ^ Z.of_nat 1) with 10 in Hv. rewrite Z.div_small in Hne by lia. lia.
  - transitivity (S d + length ((48 + v mod 10)%Z :: acc))%nat; [apply IH; [lia|]|cbn; lia].
    replace (Z.of_nat (S (S d))) with (Z.of_nat (S d) + 1) in Hv by lia. rewrite Z.pow_add_r in Hv by lia.
    split; [apply Z.div_pos; lia|]. apply Z.div_lt_upper_bound; lia.
Qed.
Lemma lu_length d v : (1 <= d <= 10)%nat → 0 <= v < 10 ^ Z.of_nat d → (length (lu v) <= d)%nat.
Proof. intros Hd Hv. pose proof (dec_digits_length 10 v [] d ltac:(lia) Hv). cbn [length] in *. unfold lu. lia. Qed.
Lemma lu_length_u32 v : is_u32 v → (length (lu v) <= 10)%nat.
Proof. intros Hv. apply lu_length; [lia|]. change (10 ^ Z.of_nat 10) with 10000000000. unfold is_u32 in Hv. lia. Qed.
(** The characters of [lu] are digits, never the terminator. *)
Lemma dec_digits_digits fuel v acc : Forall is_digit acc → Forall is_digit (dec_digits fuel v acc).
Proof.
  revert v acc. induction fuel as [|fuel IH]; intros v acc Ha; cbn [dec_digits]; [done|].
  assert (Forall is_digit ((48 + v mod 10) :: acc)) as Hc.
  { constructor; [|done]. unfold is_digit. pose proof (Z.mod_pos_bound v 10 ltac:(lia)). lia. }
  destruct (_ =? 0); [done|by apply IH].
Qed.
Lemma lu_digits v : Forall is_digit (lu v).
Proof. by apply dec_digits_digits. Qed.
(** What is printed denotes the word. *)
Lemma dec_digits_value fuel v acc :
  0 <= v < 10 ^ Z.of_nat fuel → (0 < fuel)%nat →
  dec_of (dec_digits fuel v acc) = foldl (λ a c, a * 10 + (c - 48)) v acc.
Proof.
  revert v acc. induction fuel as [|fuel IH]; intros v acc Hv Hf; [lia|]. cbn [dec_digits].
  destruct (Z.eqb_spec (v / 10) 0) as [Hz|Hne].
  - unfold dec_of. cbn [foldl]. f_equal. pose proof (Z.div_mod v 10). lia.
  - assert (0 < v / 10) by (pose proof (Z.div_pos v 10); lia).
    replace (Z.of_nat (S fuel)) with (Z.of_nat fuel + 1) in Hv by lia. rewrite Z.pow_add_r in Hv by lia.
    assert (v / 10 < 10 ^ Z.of_nat fuel) as Hup by (apply Z.div_lt_upper_bound; lia).
    destruct fuel as [|fuel]; [change (10 ^ Z.of_nat 0) with 1 in Hup; lia|].
    rewrite IH by lia. cbn [foldl]. f_equal. pose proof (Z.div_mod v 10). lia.
Qed.
Lemma lu_value v : is_u32 v → dec_of (lu v) = v.
Proof. intros Hv. unfold lu. rewrite dec_digits_value; [done| |lia]. change (10 ^ Z.of_nat 10) with 10000000000. unfold is_u32 in Hv. lia. Qed.

(** ** Widths *)
Lemma mono_adv g : g ∈ mono16_glyphs → g_adv g = 9.
Proof.
  assert (forallb (λ g, g_adv g =? 9) mono16_glyphs = true) as Hall by (vm_compute; reflexivity).
  rewrite forallb_forall in Hall. intros Hg. apply list_elem_of_In, Hall in Hg. by apply Z.eqb_eq.
Qed.
Lemma mono_okb : font_okb mono16 = true.
Proof. pose proof fonts_okb as Hf. rewrite forallb_forall in Hf. apply Hf. by left. Qed.
(** The small font is monospaced. *)
Lemma mono_width s : width mono16 s = 9 * Z.of_nat (length s).
Proof.
  induction s as [|ch s IH]; [done|]. cbn [width foldr length]. fold (width mono16 s). rewrite IH.
  destruct (glyph_total mono16 ch mono_okb) as (g & Hg & _). rewrite Hg. unfold glyph in Hg. apply arr_get_elem_of in Hg.
  rewrite (mono_adv g Hg). lia.
Qed.
Lemma cond40_digit c : is_digit c → match glyph cond40 c with Some g => g_adv g | None => 0 end = 23.
Proof.
  unfold is_digit. intros Hc.
  assert (c ∈ seqZ 48 10) as Hin by (apply elem_of_seqZ; lia).
  assert (Forall (λ c, match glyph cond40 c with Some g => g_adv g | None => 0 end = 23) (seqZ 48 10)) as Hall.
  { change (seqZ 48 10) with [48; 49; 50; 51; 52; 53; 54; 55; 56; 57]. repeat constructor. }
  rewrite Forall_forall in Hall. exact (Hall c Hin).
Qed.
(** The digits of the large font are of one width. *)
Lemma cond40_width s : Forall is_digit s → width cond40 s = 23 * Z.of_nat (length s).
Proof.
  induction 1 as [|c s Hc _ IH]; [done|]. cbn [width foldr length]. fold (width cond40 s). rewrite IH, cond40_digit by done. lia.
Qed.

(** No glyph reaches more than two pixels past its advance. *)
Definition OVERHANG : Z := 2.
Lemma overhang f ch g : f ∈ fonts → glyph f ch = Some g → g_dx g + g_w g <= g_adv g + OVERHANG.
Proof.
  assert (forallb (λ f, forallb (λ g, g_dx g + g_w g <=? g_adv g + OVERHANG) (glyphs f)) fonts = true) as Hall by (vm_compute; reflexivity).
  intros Hf Hg. rewrite forallb_forall in Hall. apply list_elem_of_In, Hall in Hf. rewrite forallb_forall in Hf.
  unfold glyph in Hg. apply arr_get_elem_of, list_elem_of_In, Hf in Hg. by apply Z.leb_le.
Qed.
(** A run's ink ends where its width does, up to the overhang. *)
Lemma ink_right f x0 limit y s pen k a :
  f ∈ fonts → ink f x0 limit y s pen k a ≠ 0 →
  ink f x0 limit y s pen k a = a ∨ k mod LCD_W < pen + width f s + OVERHANG.
Proof.
  intros Hf. assert (font_okb f = true) as Hok by (pose proof fonts_okb as Hall; rewrite forallb_forall in Hall; apply Hall, list_elem_of_In, Hf).
  revert pen a. induction s as [|ch s IH]; intros pen a; cbn [ink width foldr]; [by left|]. fold (width f s).
  destruct (glyph_total f ch Hok) as (g & Hg & Hgok). rewrite Hg. pose proof (overhang f ch g Hf Hg). pose proof (go_adv _ _ Hgok).
  pose proof (width_bound f s Hok). set (b := glyph_ink _ _ _ _ _ _ _).
  assert (b ≠ 0 → k mod LCD_W < pen + g_adv g + OVERHANG) as Hb by (unfold b, glyph_ink; case_decide; [lia|done]).
  destruct (_ >=? limit).
  - destruct (Z.eqb_spec b 0); [by left|]. intros _. right. specialize (Hb ltac:(done)). lia.
  - intros Hi. destruct (IH _ _ Hi) as [->|Hr]; [|right; lia].
    destruct (Z.eqb_spec b 0); [by left|]. right. specialize (Hb ltac:(done)). lia.
Qed.
Lemma elem_fonts : mono16 ∈ fonts ∧ cond24 ∈ fonts ∧ cond32 ∈ fonts ∧ cond40 ∈ fonts.
Proof. unfold fonts. rewrite !elem_of_cons. tauto. Qed.

(** ** Drawing inside a box *)
(** [m] succeeds from any screen, draws only inside the box, leaves
    [band_next_ms] alone, returns a value of [Q], and reports no text as too wide
    when [F] holds. *)
Definition draws (box : Z * Z * Z * Z) (F : Prop) {A} (m : DR A) (Q : A → Prop) : Prop :=
  ∀ s, ∃ a s', m s = Some (a, s') ∧ Q a ∧ (F → over s' = over s) ∧ band_next s' = band_next s ∧
    ∀ k, fb s' !! k = fb s !! k ∨ let '(x, y, w, h) := box in in_box x y w h k.

Section Draws.
  Context (bx by' bw bh : Z) (F : Prop).
  Local Abbreviation D := (draws (bx, by', bw, bh) F).
  Local Abbreviation any := (λ _, True).

Lemma draws_ret {A} (a : A) (Q : A → Prop) : Q a → D (mret a) Q.
Proof. intros Ha s. exists a, s. split_and!; try done. by left. Qed.
Lemma draws_bind {A B} (m : DR A) (f : A → DR B) (P : A → Prop) (Q : B → Prop) :
  D m P → (∀ a, P a → D (f a) Q) → D (m ≫= f) Q.
Proof.
  intros Hm Hf s. destruct (Hm s) as (a & s1 & Hs1 & Ha & Ho1 & Hb1 & Hk1).
  destruct (Hf a Ha s1) as (b & s2 & Hs2 & Hb & Ho2 & Hb2 & Hk2). exists b, s2.
  unfold mbind, dr_bind. rewrite Hs1. split_and!; [done|done| |congruence|].
  - intros HF. rewrite Ho2, Ho1 by done. done.
  - intros k. destruct (Hk2 k) as [->|]; [apply Hk1|by right].
Qed.
Lemma draws_seq {A B} (m : DR A) (m' : DR B) (Q : B → Prop) : D m any → D m' Q → D (m;; m') Q.
Proof. intros Hm Hm'. eapply draws_bind; [exact Hm|done]. Qed.
Lemma draws_any {A} (m : DR A) (Q : A → Prop) : D m Q → D m any.
Proof. intros Hm s. destruct (Hm s) as (a & s' & ? & _ & ?). by exists a, s'. Qed.
Lemma draws_need {A B} (o : option A) (f : A → DR B) (Q : B → Prop) a : o = Some a → D (f a) Q → D (need o ≫= f) Q.
Proof. intros -> Hf s. destruct (Hf s) as (b & s' & Hb). exists b, s'. exact Hb. Qed.
Lemma draws_fill x y w h c :
  small x → small y → small w → small h → bx <= x → by' <= y → x + w <= bx + bw → y + h <= by' + bh →
  D (fillR x y w h c) any.
Proof.
  intros Hx Hy Hw Hh ???? s. destruct (fill_rect_box x y w h c (fb s) Hx Hy Hw Hh) as (f & Hf & Hk).
  exists tt, (Screen f (over s) (band_next s)). unfold fillR. rewrite Hf. split_and!; try done.
  intros k. cbn. rewrite Hk. case_decide as Hin; [right|by left]. unfold in_box in *. lia.
Qed.
Lemma draws_text f x y t fg bg mw al :
  f ∈ fonts → Z.of_nat (length t) <= 1000 → small y → 0 <= mw <= 2 ^ 20 →
  let x0 := left_edge al x (width f t) mw in
  0 <= x0 <= 2 ^ 20 → bx <= x0 → by' <= y → y + f_h f <= by' + bh → (F → width f t <= mw) →
  (x0 + Z.min mw (width f t + OVERHANG) <= bx + bw ∨ LCD_W <= bx + bw) →
  D (textF f x y t fg bg mw al) (λ w, w = width f t).
Proof.
  intros Hf Ht Hy Hmw x0 Hx0 ??? HF Hright s.
  destruct (text_f_spec f x y t fg bg mw al (fb s) (over s)) as (f' & He & Hk); [done|lia|done|done|done|].
  fold x0 in Hk. eexists _, (Screen f' _ (band_next s)). unfold textF. rewrite He. split; [reflexivity|]. split; [done|]. split; [|split; [done|]].
  - intros HF'. cbn. specialize (HF HF'). destruct (Z.gtb_spec (width f t) mw); [lia|done].
  - intros k. cbn. destruct (Hk k) as [-> Hin]. unfold shade. destruct (Z.eqb_spec (ink f x0 (x0 + mw) y t x0 k 0) 0) as [|Hne]; [by left|right].
    destruct (ink_right f x0 (x0 + mw) y t x0 k 0 Hf Hne) as [?|Hr]; [done|]. destruct (Hin Hne) as (? & ? & ?).
    pose proof (Z.mod_pos_bound k LCD_W ltac:(done)). unfold in_box. lia.
Qed.
End Draws.

(** The font's cell heights, the usual side conditions. *)
Ltac geometry :=
  unfold small, left_edge, BAND_X, BAND_W, BAND_Y, BAND_H, STRIP_Y, STRIP_H, HEAD_Y, HEAD_H, BEAT_Y, BEAT_H, NUMS_Y, NUMS_H, SWEEP_Y, SWEEP_H,
    SCORE_Y, SCORE_H, FOOT_Y, FOOT_H, LANE_W, LCD_W, LCD_H, OVERHANG in *;
  cbn [f_h mono16 cond24 cond32 cond40] in *; change (388 / 2) with 194 in *; change (388 / 4) with 97 in *; try lia.
Ltac font := (apply elem_fonts).

(** ** The buffer of the heading's second line *)
Lemma arr_set_app (T : list Z) d rest c : arr_set (T ++ d :: rest) (Z.of_nat (length T)) c = Some (T ++ c :: rest).
Proof.
  rewrite arr_set_Some by (rewrite length_app; cbn; lia). rewrite Nat2Z.id. f_equal.
  rewrite insert_app_r_alt by lia. by rewrite Nat.sub_diag.
Qed.
Lemma store_all_app (T rest s : list Z) :
  (length s <= length rest)%nat →
  store_all (T ++ rest) (Z.of_nat (length T)) s = Some (T ++ s ++ drop (length s) rest).
Proof.
  revert T rest. induction s as [|c s IH]; intros T rest Hl; cbn [store_all length] in *; [done|].
  destruct rest as [|d rest]; cbn [length] in Hl; [lia|]. rewrite arr_set_app. cbn [mbind option_bind].
  rewrite (cons_middle c T rest), (assoc app).
  replace (Z.of_nat (length T) + 1) with (Z.of_nat (length (T ++ [c]))) by (rewrite length_app; cbn; lia).
  rewrite IH by lia. cbn [drop]. by rewrite <- (assoc app).
Qed.
(** One [snprintf] behind the text [T] already in a buffer of [n] bytes. *)
Lemma snprintf_at_app (T rest s : list Z) (n : nat) :
  length (T ++ rest) = n → (length T < n)%nat → Z.of_nat n < 2 ^ 31 →
  ∃ rest', snprintf_at (T ++ rest) (Z.of_nat (length T)) (Z.of_nat n -w Z.of_nat (length T)) s
           = Some (T ++ take (n - length T - 1) s ++ 0 :: rest', Z.of_nat (length s)) ∧
    length (T ++ take (n - length T - 1) s ++ 0 :: rest') = n.
Proof.
  intros Hn Ht Hs. rewrite length_app in Hn. unfold snprintf_at. rewrite u32_small by (unfold is_u32; lia).
  rewrite (proj2 (Z.eqb_neq _ _)) by lia.
  replace (Z.to_nat (Z.of_nat n - Z.of_nat (length T) - 1)) with (n - length T - 1)%nat by lia.
  rewrite store_all_app by (rewrite length_app, length_take; cbn; lia). cbn [mbind option_bind].
  eexists. rewrite <- (assoc app (take _ s)). cbn [app]. split; [reflexivity|].
  rewrite !length_app. cbn [length]. rewrite length_drop, length_take. cbn [length]. lia.
Qed.
(** The string of a buffer: up to the first terminator. *)
Lemma c_str_app (T rest : list Z) : Forall (λ c, c ≠ 0) T → c_str (T ++ 0 :: rest) 0 = T.
Proof.
  unfold c_str. change (Z.to_nat 0) with 0%nat. rewrite drop_0. induction 1 as [|c T Hc _ IH]; [done|].
  cbn [app]. rewrite (proj2 (Z.eqb_neq c 0) Hc). by f_equal.
Qed.
Lemma lu_nonzero v : Forall (λ c, c ≠ 0) (lu v).
Proof. eapply Forall_impl; [apply lu_digits|]. unfold is_digit. intros. lia. Qed.

(** The listed doublings: while fewer than 56 characters are used. *)
Fixpoint doublings_text (T : list Z) (first : bool) (ms : list Z) : list Z :=
  match ms with
  | [] => T
  | v :: ms =>
      if Z.of_nat (length T) <? 56
      then doublings_text (T ++ (if first then [32] else [32; 183; 32]) ++ lu v) false ms else T
  end.
Section ModeLine.
  Context {S M : Type} `{!Sync32 S} `{!ExpanseMap M}.
  Abbreviation lane := (@lane S M).
Implicit Types l : lane.

(** The doublings a lane lists are of fewer than 100,000 ms. *)
Record rehash_ok l : Prop := {
  rh_len : Z.of_nat (length (rehash_ms (loop l))) = REHASH_MAX;
  rh_n : 0 <= rehash_n (loop l) <= REHASH_MAX;
  rh_ms : Forall (λ v, 0 <= v < 10 ^ 5) (rehash_ms (loop l));
}.
Lemma doublings_spec fuel l i T rest :
  rehash_ok l → Z.of_nat fuel = rehash_n (loop l) - i → 0 <= i →
  length (T ++ 0 :: rest) = 64%nat → Forall (λ c, c ≠ 0) T →
  let T' := doublings_text T (i =? 0) (take fuel (drop (Z.to_nat i) (rehash_ms (loop l)))) in
  ∃ rest', doublings fuel l i (Z.of_nat (length T)) 64 (T ++ 0 :: rest) = Some (T' ++ 0 :: rest', Z.of_nat (length T')) ∧
    length (T' ++ 0 :: rest') = 64%nat ∧ Forall (λ c, c ≠ 0) T'.
Proof.
  intros [Hlen Hn Hms]. revert i T rest. induction fuel as [|fuel IH]; intros i T rest Hf Hi Hb Hz; cbn [doublings].
  { rewrite (proj2 (Z.ltb_ge i _)) by lia. cbn [andb take doublings_text]. by exists rest. }
  rewrite (proj2 (Z.ltb_lt i _)) by lia. cbn [andb]. change (64 - 8) with 56.
  destruct (lookup_lt_is_Some_2 (rehash_ms (loop l)) (Z.to_nat i)) as [v Hv]; [unfold REHASH_MAX in *; lia|].
  rewrite (drop_S _ v) by done. cbn [take doublings_text]. destruct (Z.ltb_spec (Z.of_nat (length T)) 56) as [Hlt|]; [|by exists rest].
  assert (arr_get (rehash_ms (loop l)) i = Some v) as -> by (rewrite <- (Z2Nat.id i), arr_get_nat by lia; done).
  cbn [mbind option_bind]. assert (0 <= v < 10 ^ 5) as Hv5 by (rewrite Forall_forall in Hms; eapply Hms, list_elem_of_lookup_2, Hv).
  set (piece := (if i =? 0 then _ else _) ++ lu v).
  assert (length piece <= 8)%nat as Hp.
  { unfold piece. rewrite length_app. pose proof (lu_length 5 v ltac:(lia) Hv5). destruct (i =? 0); cbn [length]; lia. }
  destruct (snprintf_at_app T (0 :: rest) piece 64) as (rest' & Hs & Hl); [done|lia|lia|]. change (Z.of_nat 64) with 64 in Hs.
  rewrite Hs. cbn [mbind option_bind]. rewrite take_ge in Hl |- * by lia.
  rewrite (List.app_assoc T piece) in Hl |- *. rewrite <- Nat2Z.inj_add, <- length_app.
  destruct (IH (i + 1) (T ++ piece) rest') as (r & Hr & Hlr & Hzr); [lia|lia|done| |].
  { apply Forall_app. split; [done|]. unfold piece. apply Forall_app. split; [|apply lu_nonzero]. destruct (i =? 0); repeat constructor; done. }
  replace (i + 1 =? 0) with false in * by (symmetry; apply Z.eqb_neq; lia).
  replace (Z.to_nat (i + 1)) with (Datatypes.S (Z.to_nat i)) in * by lia. by exists r.
Qed.

(** The line itself. *)
Definition heading_text l (p : step_t) : list Z :=
  if growth p then
    if is_expanse l then chars "grows node by node: no rehash"
    else if rehash_n (loop l) =? 0 then chars "table doubles at 50% load"
    else take 63 (doublings_text (chars "doublings cost") true (take (Z.to_nat (rehash_n (loop l))) (rehash_ms (loop l))) ++ chars " ms")
  else if is_expanse l then chars "reader interrupt: never blocked"
  else chars "reader interrupt: " ++
         chars (if mode l =? HASH_MASK_WHOLE then "masked in the scan"
                else if mode l =? HASH_MASK_PER_WRITE then "masked per write" else "never masked").
Lemma nonzero_text s : forallb (λ c, negb (c =? 0)) s = true → Forall (λ c, c ≠ 0) s.
Proof.
  rewrite forallb_forall, Forall_forall. intros Hb c Hc. apply list_elem_of_In, Hb in Hc.
  apply negb_true_iff in Hc. by apply Z.eqb_neq.
Qed.
Lemma snprintf_fresh (b s : list Z) :
  length b = 64%nat → (length s <= 63)%nat →
  ∃ rest, snprintf_at b 0 64 s = Some (s ++ 0 :: rest, Z.of_nat (length s)) ∧ length (s ++ 0 :: rest) = 64%nat.
Proof.
  intros Hb Hl. destruct (snprintf_at_app [] b s 64) as (rest & Hs & Hr); [done|cbn; lia|lia|].
  exists rest. rewrite take_ge in Hs, Hr by (cbn [length]; lia). cbn [app] in Hs, Hr. by split.
Qed.
Lemma mode_line_fixed b s :
  length b = 64%nat → (length s <= 63)%nat → forallb (λ c, negb (c =? 0)) s = true →
  ∃ b', fst <$> snprintf_at b 0 64 s = Some b' ∧ length b' = 64%nat ∧ c_str b' 0 = s.
Proof.
  intros Hb Hl Hz. destruct (snprintf_fresh b s Hb Hl) as (rest & -> & Hlen). eexists. split; [reflexivity|].
  split; [done|]. apply c_str_app, nonzero_text, Hz.
Qed.
Ltac fixed_line := apply mode_line_fixed; [done|vm_compute; lia|reflexivity].
Lemma mode_line_spec l p junk :
  rehash_ok l → length junk = 64%nat →
  ∃ b, mode_line l p junk = Some b ∧ length b = 64%nat ∧ c_str b 0 = heading_text l p.
Proof.
  intros Hr Hj. unfold mode_line, heading_text. rewrite Hj. change (Z.of_nat 64) with 64.
  destruct (growth p).
  2: { destruct (is_expanse l); [fixed_line|].
       destruct (mode l =? _); [fixed_line|]. destruct (mode l =? _); fixed_line. }
  destruct (is_expanse l); [fixed_line|].
  destruct (Z.eqb_spec (rehash_n (loop l)) 0) as [|Hn]; [fixed_line|].
  destruct (snprintf_fresh junk (chars "doublings cost")) as (rest & -> & Hlen); [done|cbn; lia|]. cbn [mbind option_bind].
  pose proof (rh_n _ Hr).
  destruct (doublings_spec (Z.to_nat (rehash_n (loop l))) l 0 (chars "doublings cost") rest Hr)
    as (rest1 & -> & Hlen1 & Hz1); [lia|lia|done|by apply nonzero_text|].
  cbn [mbind option_bind]. change (Z.to_nat 0) with 0%nat in *. rewrite drop_0 in *. change (0 =? 0) with true in *.
  set (T := doublings_text _ _ _) in *. pose proof Hlen1 as Ht. rewrite length_app in Ht. cbn [length] in Ht.
  destruct (snprintf_at_app T (0 :: rest1) (chars " ms") 64) as (rest2 & Hs & Hl2); [done|lia|lia|].
  change (Z.of_nat 64) with 64 in Hs. rewrite Hs. cbn [fmap option_fmap option_map fst]. eexists. split; [reflexivity|]. split; [done|].
  rewrite List.app_assoc, c_str_app.
  - rewrite take_app. f_equal; [by rewrite take_ge by lia|]. f_equal. lia.
  - apply Forall_app. split; [done|]. apply Forall_take, nonzero_text. done.
Qed.
End ModeLine.

(** ** Text lengths *)
Lemma snprintf_length n s : (length (snprintf n s) <= n - 1)%nat.
Proof. unfold snprintf. rewrite length_take. lia. Qed.
Lemma snprintf_le n s : (length (snprintf n s) <= length s)%nat.
Proof. unfold snprintf. rewrite length_take. lia. Qed.
Lemma lu_pad_length n v : (length (lu_pad n v) <= Nat.max n (length (lu v)))%nat.
Proof. unfold lu_pad. rewrite length_app, length_replicate. lia. Qed.
(** Closes a bound on the length of a concatenation of literals and numbers. *)
Ltac text_len :=
  repeat match goal with
    | |- context [length (?a ++ ?b)] => rewrite (length_app a b)
    | |- context [length (fix_dots ?s)] => unfold fix_dots; rewrite length_fmap
    | |- context [length (chars ?s)] => let n := eval vm_compute in (length (chars s)) in change (length (chars s)) with n
    end; lia.
Ltac fits_mono := rewrite mono_width; text_len.

(** A step of the program: its number and its row. *)
Lemma prog_forall (P : Z → step_t → Prop) :
  Forall (λ e, P e.1 e.2) (zip (seqZ 0 9) PROG) → ∀ step p, arr_get PROG step = Some p → P step p.
Proof.
  rewrite Forall_forall. intros Hall step p Hp. apply (Hall (step, p)), list_elem_of_lookup. exists (Z.to_nat step).
  pose proof (arr_get_Some_range _ _ _ Hp) as Hr. change (Z.of_nat (length PROG)) with 9 in Hr.
  apply lookup_zip_with_Some. exists step, p. split; [done|]. split.
  - rewrite lookup_seqZ. split; lia.
  - rewrite <- arr_get_nat, Z2Nat.id by lia. done.
Qed.

Section Panels.
  Context {S M : Type} `{!Sync32 S} `{!ExpanseMap M}.
  Abbreviation lane := (@lane S M).
  Local Abbreviation any := (λ _, True).
Implicit Types l : lane.

(** The numbers a lane shows are small enough for their budgets. *)
Record lane_fits l (p : step_t) : Prop := {
  lf_blocked : 0 <= blocked_ms (isr l) < 10 ^ 4;
  lf_stale : 0 <= stale_shown (isr l) < 10 ^ 4;
  lf_wrong : 0 <= wrong_reads (isr l) < 10 ^ 4;
  lf_pct : 0 <= pct10 (isr l) < 10 ^ 4;
  lf_sweep : 0 <= sweep_us (loop l) < 10 ^ 7;
  lf_bpr : 0 <= bpr10 l < 10 ^ 8;
  lf_ns : 0 <= lookup_ns (loop l) < 10 ^ 8;
  lf_head : (length (heading_text l p) <= 41)%nat;
}.
Lemma lane_x li : 6 <= LANE_X li <= 406.
Proof. destruct li; cbn; lia. Qed.

Ltac fill_in := apply draws_fill; geometry.
(** A left-aligned text whose budget ends inside the panel. *)
Ltac text_in := eapply draws_any, draws_text; [font|try text_len|geometry|geometry|geometry|geometry|geometry|geometry| |left; geometry].

Lemma draw_head_in li l p junk :
  rehash_ok l → length junk = 64%nat →
  draws (LANE_X li, HEAD_Y, LANE_W, HEAD_H) (lane_fits l p) (draw_head li l p junk) any.
Proof.
  intros Hr Hj. pose proof (lane_x li). destruct (mode_line_spec l p junk Hr Hj) as (b & Hb & Hlen & Hs).
  assert (length (heading_text l p) <= 64)%nat as Hh.
  { unfold heading_text. destruct (growth p), (is_expanse l); try (cbn; lia).
    - destruct (_ =? 0); [cbn; lia|]. rewrite length_take. lia.
    - destruct (_ =? _); [cbn; lia|]. destruct (_ =? _); cbn; lia. }
  unfold draw_head. apply draws_seq; [fill_in|]. apply draws_seq.
  { text_in; [destruct li; cbn; lia|]. intros _. destruct li; vm_compute; discriminate. }
  eapply draws_need; [exact Hb|]. rewrite Hs. apply draws_seq; [|by apply draws_ret].
  text_in. intros HF. pose proof (lf_head _ _ HF). rewrite mono_width. unfold LANE_W. text_len.
Qed.

(** The legend's words end before the panel's right edge. *)
Definition legend_width (items : list (Z * list Z * bool)) : Z :=
  foldr (λ e acc, 40 + 9 * Z.of_nat (length e.1.2) + acc) 0 items.
Lemma legend_width_pos items : 0 <= legend_width items.
Proof. induction items as [|e items IH]; cbn [legend_width foldr]; [lia|]. fold (legend_width items). lia. Qed.
Lemma draw_legend_in F bx by' bw bh items lx ly :
  Forall (λ e, (length e.1.2 <= 7)%nat) items →
  0 <= bx → bx <= lx → lx + legend_width items <= bx + bw → bx + bw <= LCD_W →
  0 <= by' → by' <= ly → ly + 18 <= by' + bh → by' + bh <= LCD_H →
  draws (bx, by', bw, bh) F (draw_legend items lx ly) any.
Proof.
  intros Hi. revert lx. induction Hi as [|[[c t] on] items Ht Hi IH]; intros lx; cbn [draw_legend legend_width foldr] in *; intros.
  { by apply draws_ret. }
  fold (legend_width items) in *. cbn [fst snd] in *.
  pose proof (legend_width_pos items).
  destruct on; cbn [negb]; [|apply IH; lia]. unfold LCD_W, LCD_H in *.
  pose proof (snprintf_le 64 t) as Hs.
  apply draws_seq; [fill_in|]. eapply draws_bind.
  { apply draws_text; [font|lia|geometry|lia|geometry|geometry|geometry|geometry|intros _; rewrite mono_width; lia|].
    left. rewrite mono_width. unfold left_edge, OVERHANG. lia. }
  intros w ->. rewrite mono_width. apply IH; unfold LCD_W, LCD_H; lia.
Qed.
Lemma draw_beat_frame_in F li l p : draws (LANE_X li, BEAT_Y, LANE_W, BEAT_H) F (draw_beat_frame li l p) any.
Proof.
  pose proof (lane_x li). unfold draw_beat_frame. apply draws_seq; [fill_in|]. apply draws_seq.
  { text_in. intros _. unfold LANE_W. fits_mono. }
  apply draws_seq; [fill_in|]. apply draw_legend_in; try geometry.
  - unfold legend. repeat constructor; cbn; lia.
  - change (legend_width (legend l p)) with 349. lia.
Qed.

Lemma draw_cells_in F bx by' bw bh cells x cw :
  Forall (λ e, 9 * Z.of_nat (length e.1.1) <= cw - 4 ∧ (F → width cond40 (snprintf 16 e.1.2) <= cw - 4)) cells →
  0 <= bx → bx <= x → 4 <= cw <= LCD_W → x + cw * Z.of_nat (length cells) <= bx + bw + 4 → bx + bw <= LCD_W →
  0 <= by' → by' <= NUMS_Y → NUMS_Y + 70 <= by' + bh → by' + bh <= LCD_H →
  draws (bx, by', bw, bh) F (draw_cells cells x cw) any.
Proof.
  intros Hc. revert x. induction Hc as [|[[label num] c] cells [Hlab Hnum] _ IH]; intros x; cbn [draw_cells length fst snd] in *; intros.
  { by apply draws_ret. }
  unfold LCD_W, LCD_H, NUMS_Y in *. pose proof (snprintf_length 16 num).
  apply draws_seq; [text_in; intros _; rewrite mono_width; lia|].
  apply draws_seq; [text_in; exact Hnum|]. apply IH; unfold LCD_W, LCD_H; lia.
Qed.
Lemma digits_fit d v : (1 <= d <= 4)%nat → 0 <= v < 10 ^ Z.of_nat d → width cond40 (snprintf 16 (lu v)) <= 93.
Proof.
  intros Hd Hv. pose proof (lu_length d v ltac:(lia) Hv). unfold snprintf. rewrite take_ge by lia.
  rewrite cond40_width by apply lu_digits. lia.
Qed.
Lemma pct_fits v : 0 <= v < 10 ^ 4 →
  width cond40 (snprintf 16 (if v >=? 100 then lu (v / 10) else lu (v / 10) ++ chars "." ++ lu (v mod 10))) <= 93.
Proof.
  intros Hv. destruct (Z.geb_spec v 100).
  - apply (digits_fit 3); [lia|]. change (10 ^ Z.of_nat 3) with 1000. Z.to_euclidean_division_equations; lia.
  - assert (v ∈ seqZ 0 100) as Hin by (apply elem_of_seqZ; lia).
    assert (Forall (λ v, width cond40 (snprintf 16 (lu (v / 10) ++ chars "." ++ lu (v mod 10))) <= 93) (seqZ 0 100)) as Hall.
    { apply Forall_forall. intros u Hu. apply list_elem_of_In in Hu. apply Z.leb_le. revert u Hu. apply forallb_forall. vm_compute. reflexivity. }
    rewrite Forall_forall in Hall. exact (Hall v Hin).
Qed.
Lemma draw_nums_in li l p : draws (LANE_X li, NUMS_Y, LANE_W, NUMS_H) (lane_fits l p) (draw_nums li l) any.
Proof.
  pose proof (lane_x li). unfold draw_nums. apply draws_seq; [fill_in|]. apply draw_cells_in; try geometry.
  - change (97 - 4) with 93. unfold num_cells. repeat (constructor; [split; [vm_compute; discriminate|intros HF; cbn [fst snd]]|]); [..|constructor].
    + apply (digits_fit 4); [lia|apply HF].
    + apply pct_fits, HF.
    + apply (digits_fit 4); [lia|apply HF].
    + apply (digits_fit 4); [lia|apply HF].
  - change (Z.of_nat (length (num_cells l))) with 4. lia.
Qed.

Ltac digits d v := pose proof (lu_length d v ltac:(lia)).
Lemma draw_sweep_in li l p :
  0 <= hz p <= 10 → draws (LANE_X li, SWEEP_Y, LANE_W, SWEEP_H) (lane_fits l p) (draw_sweep li l p) any.
Proof.
  intros Hhz. pose proof (lane_x li). unfold draw_sweep. apply draws_seq; [fill_in|]. apply draws_seq; [|by apply draws_ret].
  assert (length (sweep_text l p) <= 63)%nat by (unfold sweep_text; destruct (_ =? 0); apply snprintf_length).
  text_in. intros HF. pose proof (lf_sweep _ _ HF) as Hus. rewrite mono_width.
  enough (length (sweep_text l p) <= 41)%nat by geometry. unfold sweep_text.
  destruct (_ =? 0); [vm_compute; lia|]. set (us := sweep_us (loop l)) in *. etransitivity; [apply snprintf_le|].
  assert (0 <= us * hz p < 10 ^ 8) as Hm by nia. rewrite (u32_small (us * hz p)) by (unfold is_u32; lia).
  pose proof (lu_length 4 (us / 1000) ltac:(lia)) as H1. pose proof (lu_length 1 (us / 100 mod 10) ltac:(lia)) as H2.
  pose proof (lu_length 4 (us * hz p / 10000) ltac:(lia)) as H3.
  assert (0 <= us / 1000 < 10 ^ Z.of_nat 4) by (change (10 ^ Z.of_nat 4) with 10000; Z.to_euclidean_division_equations; lia).
  assert (0 <= us * hz p / 10000 < 10 ^ Z.of_nat 4) by (change (10 ^ Z.of_nat 4) with 10000; Z.to_euclidean_division_equations; lia).
  assert (0 <= us / 100 mod 10 < 10 ^ Z.of_nat 1) by (apply Z.mod_pos_bound; lia).
  specialize (H1 ltac:(done)). specialize (H2 ltac:(done)). specialize (H3 ltac:(done)). destruct (is_expanse l); text_len.
Qed.
Lemma draw_score_in li l o p : draws (LANE_X li, SCORE_Y, LANE_W, SCORE_H) (lane_fits l p) (draw_score li l o) any.
Proof.
  pose proof (lane_x li). unfold draw_score. set (low_b := _ && _ && (bpr10 l <? _)). set (low_n := _ && _ && (lookup_ns (loop l) <? _)).
  apply draws_seq; [fill_in|]. apply draws_seq.
  { set (t := lu _ ++ _). pose proof (snprintf_length 40 t). text_in. intros HF. rewrite mono_width.
    pose proof (lf_bpr _ _ HF) as Hb. pose proof (snprintf_le 40 t).
    pose proof (lu_length 7 (bpr10 l / 10) ltac:(lia)) as Hd1. pose proof (lu_length 1 (bpr10 l mod 10) ltac:(lia)) as Hd2.
    enough (length t <= 20)%nat by geometry. unfold t.
    assert (0 <= bpr10 l / 10 < 10 ^ Z.of_nat 7) by (change (10 ^ Z.of_nat 7) with 10000000; Z.to_euclidean_division_equations; lia).
    specialize (Hd1 ltac:(done)). specialize (Hd2 (Z.mod_pos_bound _ 10 ltac:(lia))). destruct low_b; text_len. }
  apply draws_seq; [|by apply draws_ret]. set (t := lu _ ++ _). pose proof (snprintf_length 40 t) as Hl. pose proof (snprintf_le 40 t).
  assert (0 <= width mono16 (snprintf 40 t)) by (rewrite mono_width; lia).
  eapply draws_any, draws_text; [font|lia|geometry..| |left; geometry].
  intros HF. rewrite mono_width. pose proof (lu_length 8 (lookup_ns (loop l)) ltac:(lia) (lf_ns _ _ HF)).
  enough (length t <= 20)%nat by geometry. unfold t. destruct low_n; text_len.
Qed.
Lemma draw_foot_in F p : draws (0, FOOT_Y, LCD_W, FOOT_H) F (draw_foot p) any.
Proof.
  unfold draw_foot. apply draws_seq; [fill_in|]. apply draws_seq; [|by apply draws_ret].
  destruct (growth p); text_in; intros _; fits_mono.
Qed.

(** The strip's titles and hints fit in every step of the program. *)
Definition strip_row_okb (step : Z) (p : step_t) : bool :=
  (width cond24 (strip_title step p) <=? (if growth p then 570 else 720)) && (width mono16 (watch p) <=? 780)
  && (Z.of_nat (length (watch p)) <=? 1000) && (0 <=? secs p) && (secs p <=? 20) && (0 <=? hz p) && (hz p <=? 10).
Lemma strip_rows step p : arr_get PROG step = Some p → strip_row_okb step p = true.
Proof. revert step p. apply prog_forall. repeat constructor. Qed.
Lemma draw_strip_in step since records p :
  arr_get PROG step = Some p → 0 <= since →
  draws (0, STRIP_Y, LCD_W, STRIP_H) (since < 10 ^ 8 ∧ 0 <= records < 10 ^ 6) (draw_strip step since records) any.
Proof.
  intros Hp Hs. pose proof (strip_rows _ _ Hp) as Hok. unfold strip_row_okb in Hok. bool_facts.
  unfold draw_strip. eapply draws_need; [exact Hp|]. apply draws_seq; [fill_in|]. apply draws_seq.
  { assert (length (strip_title step p) <= 95)%nat by apply snprintf_length.
    destruct (growth p); text_in; intros _; done. }
  destruct (step =? STEP_SUMMARY); [by apply draws_ret|]. cbv zeta. apply draws_seq.
  { set (t := if growth p then _ else _). pose proof (snprintf_length 96 t). pose proof (snprintf_le 96 t).
    assert (0 <= width mono16 (snprintf 96 t)) by (rewrite mono_width; lia).
    eapply draws_any, draws_text; [font|lia|geometry..| |left; geometry].
    intros [Hs8 Hr]. rewrite mono_width. enough (length t <= 24)%nat by lia. unfold t.
    assert (0 <= since / 1000 < 10 ^ Z.of_nat 5) as Hs5 by (change (10 ^ Z.of_nat 5) with 100000; Z.to_euclidean_division_equations; lia).
    pose proof (lu_length 5 _ ltac:(lia) Hs5). pose proof (lu_length 6 records ltac:(lia) Hr).
    pose proof (lu_pad_length 6 records). pose proof (lu_pad_length 2 (since / 1000)). destruct (growth p); text_len. }
  apply draws_seq; [fill_in|]. apply draws_seq.
  { destruct (Z.eqb_spec (secs p) 0); [by apply draws_ret|]. rewrite u32_small by (unfold is_u32; lia).
    set (m := if since <? _ then _ else _). assert (0 <= m <= secs p * 1000) as Hm by (unfold m; destruct (Z.ltb_spec since (secs p * 1000)); lia).
    assert (0 <= LCD_W * m / (secs p * 1000) <= 800).
    { split; [apply Z.div_pos; unfold LCD_W; lia|]. apply Z.div_le_upper_bound; unfold LCD_W; lia. }
    fill_in. }
  destruct (watch p) eqn:Hw; [by apply draws_ret|]. rewrite <- Hw in *. destruct (since <? 6000); [|by apply draws_ret].
  apply draws_seq; [|by apply draws_ret]. text_in. intros _. lia.
Qed.

(** ** The summary *)
Record ledger_fits (r : ledger_t) : Prop := {
  gf_a : 0 <= a_blocked r < 10 ^ 6 ∧ 0 <= a_stale r < 10 ^ 6 ∧ 0 <= a_wrong r < 10 ^ 6;
  gf_b : 0 <= b_blocked r < 10 ^ 6 ∧ 0 <= b_stale r < 10 ^ 6 ∧ 0 <= b_wrong r < 10 ^ 6;
}.
Record summary_fits (ledger : list ledger_t) (a b : lane) : Prop := {
  sf_rows : Forall ledger_fits ledger;
  sf_bpr : 0 <= bpr10 a < 10 ^ 4 ∧ 0 <= bpr10 b < 10 ^ 4;
  sf_ns : 0 <= lookup_ns (loop a) < 10 ^ 4 ∧ 0 <= lookup_ns (loop b) < 10 ^ 4;
}.
(** Columns at [xs] with room for [ws] characters each. *)
Fixpoint row_okb (xs : list Z) (ws : list nat) : bool :=
  match xs, ws with
  | x :: xs, n :: ws =>
      let right := match xs with x' :: _ => x' | [] => LCD_W - 10 end in
      (0 <=? x) && (x <=? LCD_W) && (right <=? LCD_W) && (0 <=? right - x - 6) && (9 * Z.of_nat n <=? right - x - 6) && row_okb xs ws
  | [], [] => true
  | _, _ => false
  end.
Definition cell_widths : list nat := [8; 8; 13; 8; 8; 9; 8; 8; 6]%nat.
Lemma draw_row_in F xs ws cells y :
  row_okb xs ws = true → HEAD_Y <= y → y + 18 <= FOOT_Y → Forall (λ e, (length e.1 <= 100)%nat) cells →
  (F → Forall2 (λ e n, (length e.1 <= n)%nat) cells ws) →
  draws (0, HEAD_Y, LCD_W, FOOT_Y - HEAD_Y) F (draw_row xs cells y) any.
Proof.
  revert ws cells. induction xs as [|x xs IH]; intros ws cells Hx Hy Hy' Hc HF; cbn [draw_row]; [by apply draws_ret|].
  destruct cells as [|[t c] cells]; [by apply draws_ret|]. destruct ws as [|n ws]; [done|]. cbn [row_okb] in Hx.
  set (right := match xs with [] => _ | _ => _ end) in *. apply andb_true_iff in Hx as [Hx Hxs]. bool_facts.
  apply Forall_cons in Hc as [Hlen Hc]. cbn [fst] in Hlen. apply draws_seq.
  - eapply draws_any, draws_text; [font|lia|geometry..| |left; geometry]. intros HF'. apply HF in HF'.
    apply Forall2_cons in HF' as [Hw _]. cbn [fst] in Hw. rewrite mono_width. lia.
  - apply (IH ws); [done..|]. intros HF'. by apply HF, Forall2_cons in HF' as [_ ?].
Qed.
Lemma summary_cells_fit p r :
  ledger_fits r → (length (name p) <= 8)%nat → 0 <= hz p <= 10 → Forall2 (λ e n, (length e.1 <= n)%nat) (summary_cells p r) cell_widths.
Proof.
  intros [(H1 & H2 & H3) (H4 & H5 & H6)] Hn Hh. unfold summary_cells, cell_widths.
  assert (∀ v, 0 <= v < 10 ^ 6 → (length (snprintf 16 (lu v)) <= 6)%nat) as Hv.
  { intros v Hv. pose proof (snprintf_le 16 (lu v)). pose proof (lu_length 6 v ltac:(lia) Hv). lia. }
  assert (length (snprintf 16 (mask_word p)) <= 13)%nat.
  { etransitivity; [apply snprintf_le|]. unfold mask_word. destruct (growth p).
    - destruct (_ =? _); vm_compute; lia.
    - destruct (_ =? _); [vm_compute; lia|]. destruct (_ =? _); vm_compute; lia. }
  pose proof (snprintf_le 16 (name p)). assert (0 <= hz p < 10 ^ 6) as Hhz by lia.
  pose proof (Hv _ H1). pose proof (Hv _ H2). pose proof (Hv _ H3). pose proof (Hv _ H4). pose proof (Hv _ H5). pose proof (Hv _ H6). pose proof (Hv _ Hhz).
  repeat (apply Forall2_cons; split; [cbn [fst]; lia|]). constructor.
Qed.
Lemma prog_names step p : arr_get PROG step = Some p → (length (name p) <= 8)%nat.
Proof. revert step p. apply (prog_forall (λ _ p, (length (name p) <= 8)%nat)). repeat constructor; cbn; lia. Qed.
Lemma summary_rows_in F n s row ledger :
  (F → Forall ledger_fits ledger) → Z.of_nat (length ledger) = N_STEPS → 0 <= s → s + Z.of_nat n <= N_STEPS →
  0 <= row → row + Z.of_nat n <= 10 →
  draws (0, HEAD_Y, LCD_W, FOOT_Y - HEAD_Y) F (summary_rows n s row ledger) any.
Proof.
  intros HF Hl. revert s row. induction n as [|n IH]; intros s row Hs Hsn Hr Hrn; cbn [summary_rows]; [by apply draws_ret|].
  destruct (arr_get_is_Some ledger s) as [r Hgr]; [lia|]. eapply draws_need; [exact Hgr|].
  destruct (filled r); cbn [negb]; [|apply IH; lia].
  destruct (arr_get_is_Some PROG s) as [p Hp]; [unfold N_STEPS in *; lia|]. eapply draws_need; [exact Hp|].
  pose proof (strip_rows _ _ Hp) as Hok. unfold strip_row_okb in Hok. bool_facts.
  apply draws_seq; [|apply IH; lia]. apply (draw_row_in F cx cell_widths); [done|unfold HEAD_Y; lia|unfold HEAD_Y, FOOT_Y; lia| |].
  - unfold summary_cells. repeat (apply Forall_cons; split; [cbn [fst]; etransitivity; [apply snprintf_length|lia]|]). constructor.
  - intros HF'. apply summary_cells_fit; [|by eapply prog_names|lia]. specialize (HF HF'). rewrite Forall_forall in HF.
    eapply HF, arr_get_elem_of, Hgr.
Qed.
Lemma draw_summary_in ledger a b :
  Z.of_nat (length ledger) = N_STEPS →
  draws (0, HEAD_Y, LCD_W, FOOT_Y - HEAD_Y) (summary_fits ledger a b) (draw_summary ledger a b) any.
Proof.
  intros Hl. unfold draw_summary. apply draws_seq; [fill_in|].
  apply draws_seq; [text_in; intros _; vm_compute; discriminate|].
  apply draws_seq.
  { eapply draws_any, draws_text; [font|text_len|geometry..| |right; geometry]. intros _. vm_compute. discriminate. }
  apply draws_seq.
  { apply (draw_row_in _ cx cell_widths); [done|unfold HEAD_Y; lia|unfold HEAD_Y, FOOT_Y; lia|repeat constructor; cbn; lia|].
    intros _. repeat constructor; cbn; lia. }
  apply draws_seq; [fill_in|].
  apply draws_seq; [apply summary_rows_in; [apply sf_rows|done|lia|vm_compute; discriminate|lia|vm_compute; discriminate]|].
  apply draws_seq.
  { assert (length (summary_line a b) <= 95)%nat by apply snprintf_length. text_in. intros HF. rewrite mono_width.
    destruct (sf_bpr _ _ _ HF) as [Ha Hb]. destruct (sf_ns _ _ _ HF) as [Hna Hnb].
    enough (length (summary_line a b) <= 86)%nat by lia. etransitivity; [apply snprintf_le|].
    assert (∀ v, 0 <= v < 10 ^ 4 → (length (lu (v / 10)) <= 3)%nat ∧ (length (lu (v mod 10)) <= 1)%nat) as Hlen.
    { intros v Hv. split; [apply lu_length; [lia|]; change (10 ^ Z.of_nat 3) with 1000; Z.to_euclidean_division_equations; lia|].
      apply lu_length; [lia|]. apply Z.mod_pos_bound. lia. }
    destruct (Hlen _ Ha), (Hlen _ Hb). pose proof (lu_length 4 _ ltac:(lia) Hna). pose proof (lu_length 4 _ ltac:(lia) Hnb). text_len. }
  apply draws_seq; [|by apply draws_ret]. text_in. intros _. fits_mono.
Qed.

(** ** The row budget *)
Inductive panel := PStrip | PHead (li : bool) | PBeat (li : bool) | PNums (li : bool) | PSweep (li : bool) | PScore (li : bool) | PFoot.
#[export] Instance panel_eq_dec : EqDecision panel.
Proof. solve_decision. Defined.
Definition panel_box (pn : panel) : Z * Z * Z * Z :=
  match pn with
  | PStrip => (0, STRIP_Y, LCD_W, STRIP_H)
  | PHead li => (LANE_X li, HEAD_Y, LANE_W, HEAD_H)
  | PBeat li => (LANE_X li, BEAT_Y, LANE_W, BEAT_H)
  | PNums li => (LANE_X li, NUMS_Y, LANE_W, NUMS_H)
  | PSweep li => (LANE_X li, SWEEP_Y, LANE_W, SWEEP_H)
  | PScore li => (LANE_X li, SCORE_Y, LANE_W, SCORE_H)
  | PFoot => (0, FOOT_Y, LCD_W, FOOT_H)
  end.
Definition in_panel (pn : panel) (k : Z) : Prop := let '(x, y, w, h) := panel_box pn in in_box x y w h k.
Lemma panels_disjoint pn pn' k : in_panel pn k → in_panel pn' k → pn' = pn.
Proof.
  unfold in_panel, in_box. destruct pn as [|[]|[]|[]|[]|[]|], pn' as [|[]|[]|[]|[]|[]|]; cbn [panel_box LANE_X]; try done.
  all: intros (_ & Hx & Hy) (_ & Hx' & Hy'); exfalso; geometry.
Qed.
(** What a frame is drawn from. *)
Record view := View {
  v_step : Z; v_since : Z; v_records : Z; v_row : step_t; v_lane : bool → lane; v_junk : list Z;
}.
Definition draw_panel (v : view) (pn : panel) : DR unit :=
  match pn with
  | PStrip => draw_strip (v_step v) (v_since v) (v_records v)
  | PHead li => draw_head li (v_lane v li) (v_row v) (v_junk v)
  | PBeat li => draw_beat_frame li (v_lane v li) (v_row v)
  | PNums li => draw_nums li (v_lane v li)
  | PSweep li => draw_sweep li (v_lane v li) (v_row v)
  | PScore li => draw_score li (v_lane v li) (v_lane v (negb li))
  | PFoot => draw_foot (v_row v)
  end.
Definition view_fits (v : view) : Prop :=
  (v_since v < 10 ^ 8 ∧ 0 <= v_records v < 10 ^ 6) ∧ ∀ li, lane_fits (v_lane v li) (v_row v).
Lemma draws_weaken box (F F' : Prop) {A} (m : DR A) Q : (F' → F) → draws box F m Q → draws box F' m Q.
Proof. intros HF Hm s. destruct (Hm s) as (a & s' & ? & ? & ? & ?). exists a, s'. split_and!; try done; tauto. Qed.
Lemma draw_panel_in v pn :
  arr_get PROG (v_step v) = Some (v_row v) → 0 <= v_since v → (∀ li, rehash_ok (v_lane v li)) → length (v_junk v) = 64%nat →
  draws (panel_box pn) (view_fits v) (draw_panel v pn) any.
Proof.
  intros Hp Hs Hr Hj. pose proof (strip_rows _ _ Hp) as Hok. unfold strip_row_okb in Hok. bool_facts.
  destruct pn; cbn [panel_box draw_panel].
  - eapply draws_weaken; [|by eapply draw_strip_in]. by intros [? _].
  - eapply draws_weaken; [|by apply draw_head_in]. intros [_ HF]. apply HF.
  - apply draw_beat_frame_in.
  - eapply draws_weaken; [|apply draw_nums_in]. intros [_ HF]. apply HF.
  - eapply draws_weaken; [|by apply draw_sweep_in]. intros [_ HF]. apply HF.
  - eapply draws_weaken; [|apply draw_score_in]. intros [_ HF]. apply HF.
  - apply draw_foot_in.
Qed.

(** C30: whatever the lanes hold, in every step of the program each panel of the
    screen (the strip, and per lane the heading, the heartbeat, the numbers, the
    sweep cost and the scoreboard, and the footer) is drawn without leaving the
    framebuffer, the fonts or a string buffer, and a pixel it changes belongs to
    that panel and to no other.  No text is reported as wider than its budget
    while the counts are below 10,000, the percentage below 1,000, a sweep
    below ten seconds, and the listed doublings within 41 characters. *)
Theorem demo_panels v pn s :
  arr_get PROG (v_step v) = Some (v_row v) → 0 <= v_since v → (∀ li, rehash_ok (v_lane v li)) → length (v_junk v) = 64%nat →
  ∃ s', draw_panel v pn s = Some (tt, s') ∧ band_next s' = band_next s ∧
    (∀ k, fb s' !! k ≠ fb s !! k → in_panel pn k ∧ ∀ pn', in_panel pn' k → pn' = pn) ∧
    (view_fits v → over s' = over s).
Proof.
  intros Hp Hs Hr Hj. destruct (draw_panel_in v pn Hp Hs Hr Hj s) as ([] & s' & Hd & _ & Ho & Hb & Hk).
  exists s'. split; [done|]. split; [done|]. split; [|done]. intros k Hne.
  destruct (Hk k) as [?|Hin]; [done|]. split; [exact Hin|]. intros pn'. by apply panels_disjoint.
Qed.
End Panels.

(** The growth step's first frame of two fresh lanes. *)
Definition fresh_view : @view toy (gmap Z Z) :=
  View 6 0 0 (nth 6 PROG (Step [] 0 0 0 false [])) (λ li, fresh_lane (negb li) HASH_MASK_PER_WRITE 16) (replicate 64 0).
Lemma demo_panels_witness :
  ∃ s', draw_panel fresh_view (PNums true) (Screen ∅ [] [0; 0]) = Some (tt, s') ∧ over s' = [] ∧ fb s' !! (50 * LCD_W + 10) = None.
Proof.
  destruct (demo_panels fresh_view (PNums true) (Screen ∅ [] [0; 0])) as (s' & Hd & _ & Hk & Ho).
  - reflexivity.
  - discriminate.
  - intros li. constructor; [reflexivity|split; discriminate|]. cbn. repeat constructor; lia.
  - reflexivity.
  - exists s'. split; [exact Hd|]. split.
    + apply Ho. split; [vm_compute; repeat split; (discriminate || reflexivity)|]. intros li.
      destruct li; (constructor; [split; [discriminate|reflexivity]..|vm_compute; lia]).
    + destruct (fb s' !! (50 * LCD_W + 10)) as [c|] eqn:Hf; [|reflexivity]. exfalso.
      destruct (Hk (50 * LCD_W + 10)) as [Hin _]; [rewrite Hf; discriminate|]. vm_compute in Hin. destruct Hin as (_ & [Hx _] & _). by apply Hx.
Defined.
