(* ===== verification/DemoBeat.v ===== *)
(** * The heartbeat band

    [draw_beat_columns] of [src/integrations/stm32h747/demo/CM7/Core/Src/main.c]:
    the window of 4000 ms swept over 376 columns, each coloured by the worst
    outcome its milliseconds recorded in the interrupt's ring. *)
From Stdlib Require Import String Ascii.
From stdpp Require Import base numbers list gmap.
From S2P Require Import Prelude SortedAssoc ExpanseApi Sync32 Fonts Gfx Lanes LaneIsr LaneTheorems HarnessOut DemoScreen DemoLayout.
Open Scope Z_scope.
Abbreviation length := List.length.

(** ** Columns *)
Definition col_of (t : Z) : Z := (t mod WINDOW_MS) * BAND_W / WINDOW_MS.
Definition next_col (t : Z) : Z := ((col_of t + 1) * WINDOW_MS + (BAND_W - 1)) / BAND_W + t / WINDOW_MS * WINDOW_MS.
(** The same column of the same sweep. *)
Definition same_col (s t : Z) : Prop := s / WINDOW_MS = t / WINDOW_MS ∧ col_of s = col_of t.
#[export] Instance same_col_dec s t : Decision (same_col s t).
Proof. unfold same_col. apply _. Defined.

Ltac div_lia := unfold same_col, next_col, col_of, WINDOW_MS, BAND_W in *; Z.to_euclidean_division_equations; lia.
Lemma col_of_range t : 0 <= col_of t < BAND_W.
Proof. div_lia. Qed.
Lemma next_col_after t : t < next_col t <= t + 11.
Proof. div_lia. Qed.
Lemma next_col_same t s : t <= s → s < next_col t ↔ same_col s t.
Proof. split; div_lia. Qed.
Lemma next_col_wraps t : col_of (next_col t) = (col_of t + 1) mod BAND_W.
Proof. div_lia. Qed.
(** The sweep returns to a column only after 3990 ms. *)
Lemma col_returns t s : t <= s → s - t < 3990 → col_of s = col_of t → same_col s t.
Proof. div_lia. Qed.
Lemma col_at_of t : 0 <= t < 2 ^ 31 → col_at t = col_of t.
Proof.
  intros Ht. unfold col_at, col_of. rewrite u32_small; [done|]. unfold is_u32, WINDOW_MS, BAND_W.
  pose proof (Z.mod_pos_bound t 4000). lia.
Qed.
Lemma col_end_next t : 0 <= t < 2 ^ 31 → col_end t = next_col t.
Proof.
  intros Ht. unfold col_end, next_col. rewrite col_at_of by done. pose proof (col_of_range t) as Hc. pose proof (next_col_after t) as Hn.
  assert (0 <= t / WINDOW_MS * WINDOW_MS <= t) by div_lia. unfold next_col, WINDOW_MS, BAND_W in *.
  rewrite (u32_small (col_of t + 1)) by word_lia. rewrite (u32_small ((col_of t + 1) * 4000)) by word_lia.
  rewrite (u32_small ((col_of t + 1) * 4000 + _)) by word_lia. rewrite (u32_small (t / 4000 * 4000)) by word_lia.
  rewrite u32_small; [done|]. unfold is_u32. split; [|lia]. assert (0 <= ((col_of t + 1) * 4000 + (376 - 1)) / 376) by (apply Z.div_pos; lia). lia.
Qed.

(** ** What a set of milliseconds recorded *)
Definition slot_of (ring : list Z) (m : Z) : Z := default SLOT_NONE (arr_get ring (m mod RING_LEN)).
Definition recorded (ring : list Z) (ms : list Z) (v : Z) : bool := existsb (λ m, slot_of ring m =? v) ms.
Definition seen_in (ring : list Z) (ms : list Z) : bool * bool * bool * bool :=
  (recorded ring ms SLOT_HELD, recorded ring ms SLOT_WRONG, recorded ring ms SLOT_BUSY, recorded ring ms SLOT_VALUE).
Definition join (a b : bool * bool * bool * bool) : bool * bool * bool * bool :=
  let '(h, w, u, v) := a in let '(h', w', u', v') := b in (h || h', w || w', u || u', v || v').
Lemma scan_slots_spec n s ring seen :
  Z.of_nat (length ring) = RING_LEN →
  scan_slots n s ring seen = Some (join seen (seen_in ring (seqZ s (Z.of_nat n)))).
Proof.
  intros Hr. revert s seen. induction n as [|n IH]; intros s [[[h w] u] v]; cbn [scan_slots].
  { cbn. by rewrite !orb_false_r. }
  rewrite ring_index. assert (0 <= s mod RING_LEN < RING_LEN) as Hs by (apply Z.mod_pos_bound; unfold RING_LEN; lia).
  destruct (arr_get_is_Some ring (s mod RING_LEN)) as [x Hx]; [rewrite Hr; lia|]. rewrite Hx. cbn [mbind option_bind].
  rewrite IH. f_equal. rewrite (seqZ_cons s) by lia. replace (Z.pred (Z.of_nat (S n))) with (Z.of_nat n) by lia.
  replace (Z.succ s) with (s + 1) by lia. set (rest := seqZ (s + 1) (Z.of_nat n)).
  assert (slot_of ring s = x) as Hso by (unfold slot_of; by rewrite Hx).
  unfold seen_in, recorded. cbn [existsb]. rewrite Hso. cbn [join].
  destruct (Z.eqb_spec x SLOT_HELD) as [->|]; [cbn; by rewrite !orb_true_r|].
  destruct (Z.eqb_spec x SLOT_WRONG) as [->|]; [cbn; by rewrite !orb_true_r|].
  destruct (Z.eqb_spec x SLOT_BUSY) as [->|]; [cbn; by rewrite !orb_true_r|].
  destruct (Z.eqb_spec x SLOT_VALUE) as [->|]; [cbn; by rewrite !orb_true_r|]. done.
Qed.

(** ** One pass over the completed columns *)
Definition in_col (li : bool) (c k : Z) : Prop := in_box (BAND_X li + c) BAND_Y 1 BAND_H k.
#[export] Instance in_col_dec li c k : Decision (in_col li c k).
Proof. unfold in_col. apply _. Defined.
Lemma in_col_inj li c c' k : in_col li c k → in_col li c' k → c = c'.
Proof. unfold in_col, in_box. lia. Qed.
(** The milliseconds of [m]'s column among those from [t] to [t1]. *)
Definition column_ms (t t1 m : Z) : list Z := filter (λ x, same_col x m) (seqZ t (t1 - t)).
(** The band after the columns from [t] to [t1]: the last sweep's columns have
    the colour of their milliseconds, the next one is the cursor. *)
Record swept (li : bool) (accent : Z) (ring : list Z) (t t1 : Z) (f f' : fbuf) : Prop := {
  sw_colour : ∀ m k, t <= m < t1 → t1 - m < 3990 → in_col li (col_of m) k →
    f' !! k = Some (column_colour accent (seen_in ring (column_ms t t1 m)));
  sw_cursor : ∀ k, t < t1 → in_col li (col_of t1) k → f' !! k = Some C_GRID;
  sw_frame : ∀ k, (∀ x, t < t1 → t <= x <= t1 → ¬ in_col li (col_of x) k) → f' !! k = f !! k;
}.
Lemma swept_columns_refl li accent ring t f : swept li accent ring t t f f.
Proof. constructor; intros; (lia || done). Qed.

Lemma column_ms_first t t1 m : t <= m < next_col t → next_col t <= t1 → column_ms t t1 m = seqZ t (next_col t - t).
Proof.
  intros Hm Ht1. unfold column_ms. assert (same_col m t) as Hmt by (apply next_col_same; lia).
  replace (t1 - t) with ((next_col t - t) + (t1 - next_col t)) by lia. rewrite seqZ_app by lia. rewrite filter_app.
  replace (t + (next_col t - t)) with (next_col t) by lia.
  rewrite (list_filter_all _ (seqZ t _)), (list_filter_none _ (seqZ (next_col t) _)), app_nil_r; [done|..].
  - intros x Hx%elem_of_seqZ Hs.
    assert (same_col x t) as Hxt by (unfold same_col in *; lia). apply next_col_same in Hxt; lia.
  - intros x Hx%elem_of_seqZ. assert (same_col x t) as Hxt by (apply next_col_same; lia). unfold same_col in *. lia.
Qed.
Lemma column_ms_rest t t1 m : t < next_col t → next_col t <= m < t1 → column_ms t t1 m = column_ms (next_col t) t1 m.
Proof.
  intros Ht Hm. unfold column_ms.
  replace (t1 - t) with ((next_col t - t) + (t1 - next_col t)) by lia. rewrite seqZ_app by lia. rewrite filter_app.
  replace (t + (next_col t - t)) with (next_col t) by lia. rewrite (list_filter_none _ (seqZ t _)); [done|].
  intros x Hx%elem_of_seqZ Hs.
  assert (same_col x t) by (apply next_col_same; lia). assert (same_col m t) as Hmt by (unfold same_col in *; lia).
  apply next_col_same in Hmt; lia.
Qed.
Lemma swept_step li accent ring t t1 f f1 f' :
  next_col t <= t1 →
  (∀ k, f1 !! k = if decide (in_col li (col_of (next_col t)) k) then Some C_GRID
                  else if decide (in_col li (col_of t) k) then Some (column_colour accent (seen_in ring (seqZ t (next_col t - t))))
                  else f !! k) →
  swept li accent ring (next_col t) t1 f1 f' → swept li accent ring t t1 f f'.
Proof.
  intros Ht1 Hf1 [Hcol Hcur Hfr]. pose proof (next_col_after t) as Hn. constructor.
  - intros m k Hm Hlap Hk. destruct (Z.lt_ge_cases m (next_col t)) as [Hlt|Hge].
    + rewrite column_ms_first by lia. assert (same_col m t) as Hmt by (apply next_col_same; lia).
      assert (∀ x, next_col t <= x <= t1 → ¬ in_col li (col_of x) k) as Hout.
      { intros x Hx Hin. assert (same_col x m) as Hxm by (apply col_returns; [lia|lia|by eapply in_col_inj]).
        assert (same_col x t) as Hxt by (unfold same_col in *; lia). apply next_col_same in Hxt; lia. }
      rewrite Hfr, Hf1, decide_False by auto with lia. rewrite decide_True; [done|]. destruct Hmt as [_ <-]. exact Hk.
    + rewrite column_ms_rest by lia. apply Hcol; [lia|done|done].
  - intros k _ Hk. destruct (Z.eq_dec (next_col t) t1) as [He|]; [|apply Hcur; [lia|done]].
    rewrite Hfr, Hf1 by lia. rewrite decide_True by congruence. done.
  - intros k Hk. rewrite Hfr by (intros; apply Hk; lia). rewrite Hf1, !decide_False by (apply Hk; lia). done.
Qed.

Section Beat.
  Context {S M : Type} `{!Sync32 S} `{!ExpanseMap M}.
  Abbreviation lane := (@lane S M).
Implicit Types l : lane.

Definition band_ix (li : bool) : nat := if li then 1%nat else 0%nat.
Lemma put_band_ok li t s :
  length (band_next s) = 2%nat → put_band li t s = Some (tt, Screen (fb s) (over s) (<[band_ix li := t]> (band_next s))).
Proof. intros Hl. unfold put_band. rewrite arr_set_Some by (rewrite Hl; destruct li; lia). by destruct li. Qed.
Lemma column_fill li c colour s :
  0 <= c < BAND_W →
  ∃ f, fillR (BAND_X li + c) BAND_Y 1 BAND_H colour s = Some (tt, Screen f (over s) (band_next s)) ∧
    ∀ k, f !! k = if decide (in_col li c k) then Some colour else fb s !! k.
Proof.
  intros Hc. pose proof (lane_x li). destruct (fill_rect_box (BAND_X li + c) BAND_Y 1 BAND_H colour (fb s)) as (f & Hf & Hk); [geometry..|].
  exists f. unfold fillR. rewrite Hf. by split.
Qed.

(** The band is swept up to [t1]: the column that holds [t1] is not complete. *)
Lemma beat_loop_spec fuel li l t now s :
  0 <= t < 2 ^ 31 → 0 <= now < 2 ^ 31 → now - t <= Z.of_nat fuel → Z.of_nat (length (ring (isr l))) = RING_LEN →
  length (band_next s) = 2%nat → band_next s !! band_ix li = Some t →
  ∃ t1 f', beat_loop fuel li l t now s = Some (tt, Screen f' (over s) (<[band_ix li := t1]> (band_next s))) ∧
    t <= t1 ∧ (t1 = t ∨ t1 <= now - 1) ∧ now - 1 < next_col t1 ∧
    swept li (accent_of l) (ring (isr l)) t t1 (fb s) f'.
Proof.
  intros Ht Hnow Hfuel Hring. revert t s Ht Hfuel. induction fuel as [|fuel IH]; intros t s Ht Hfuel Hlen Hb.
  all: pose proof (next_col_after t) as Hnext; cbn [beat_loop]; rewrite (u32_small (t + 1)) by word_lia.
  all: assert (now - 1 < next_col t → ∃ t1 f', (mret tt : DR unit) s = Some (tt, Screen f' (over s) (<[band_ix li := t1]> (band_next s))) ∧
    t <= t1 ∧ (t1 = t ∨ t1 <= now - 1) ∧ now - 1 < next_col t1 ∧ swept li (accent_of l) (ring (isr l)) t t1 (fb s) f') as Hstop
    by (intros Hlast; exists t, (fb s); rewrite list_insert_id by done; split; [by destruct s|]; split_and!; [lia|by left|done|apply swept_columns_refl]).
  all: destruct (Z.ltb_spec (t + 1) now); [|apply Hstop; lia].
  { lia. }
  rewrite col_end_next, (u32_small (now - 1)) by word_lia. destruct (Z.gtb_spec (next_col t) (now - 1)); [by apply Hstop|].
  pose proof (col_of_range t) as Hc. pose proof (col_of_range (next_col t)) as Hc'. rewrite (col_at_of t) by lia.
  unfold mbind, dr_bind. unfold need at 1. rewrite scan_slots_spec by done. cbn [mbind option_bind join orb].
  rewrite Z2Nat.id by lia.
  set (colour := column_colour _ _). destruct (column_fill li (col_of t) colour s Hc) as (f1 & -> & Hf1).
  rewrite (u32_small (col_of t + 1)) by (unfold is_u32, BAND_W in *; lia). rewrite <- next_col_wraps.
  destruct (column_fill li (col_of (next_col t)) C_GRID (Screen f1 (over s) (band_next s)) Hc') as (f2 & -> & Hf2).
  rewrite put_band_ok by done. cbn [fb over band_next].
  destruct (IH (next_col t) (Screen f2 (over s) (<[band_ix li := next_col t]> (band_next s)))) as (t1 & f' & -> & H1 & H2 & H3 & H4).
  - lia.
  - lia.
  - cbn. by rewrite length_insert.
  - cbn. apply list_lookup_insert_eq. rewrite Hlen. destruct li; cbn; lia.
  - cbn [fb over band_next] in *. exists t1, f'. rewrite list_insert_insert_eq. split; [done|]. split; [lia|]. split; [lia|]. split; [done|].
    eapply swept_step; [lia| |exact H4]. intros k. rewrite Hf2. cbn [fb]. by rewrite Hf1.
Qed.

(** The colour of a column: blocked before wrong before busy before a value. *)
Definition worst_colour (accent : Z) (ring ms : list Z) : Z :=
  if recorded ring ms SLOT_HELD then C_RED
  else if recorded ring ms SLOT_WRONG then C_MAGENTA
  else if recorded ring ms SLOT_BUSY then C_CYAN
  else if recorded ring ms SLOT_VALUE then accent else C_BG.

Lemma beat_columns_spec li l now s t :
  0 <= now < 2 ^ 31 → Z.of_nat (length (ring (isr l))) = RING_LEN →
  length (band_next s) = 2%nat → band_next s !! band_ix li = Some t → 0 <= t < 2 ^ 31 →
  let t0 := if t =? 0 then now else t in
  ∃ t1 s', draw_beat_columns li l now s = Some (tt, s') ∧
    over s' = over s ∧ band_next s' = <[band_ix li := t1]> (band_next s) ∧
    t0 <= t1 ∧ (t1 = t0 ∨ t1 <= now - 1) ∧ now - 1 < next_col t1 ∧
    (∀ m k, t0 <= m < t1 → t1 - m < 3990 → in_col li (col_of m) k →
       fb s' !! k = Some (worst_colour (accent_of l) (ring (isr l)) (column_ms t0 t1 m))) ∧
    (∀ k, t0 < t1 → in_col li (col_of t1) k → fb s' !! k = Some C_GRID) ∧
    (∀ k, (∀ x, t0 < t1 → t0 <= x <= t1 → ¬ in_col li (col_of x) k) → fb s' !! k = fb s !! k).
Proof.
  intros Hnow Hring Hlen Hb Ht t0. unfold draw_beat_columns, mbind, dr_bind, get_band.
  assert (∀ s, arr_get (band_next s) (if li then 1 else 0) = band_next s !! band_ix li) as Hg by (intros; destruct li; by rewrite <- arr_get_nat).
  rewrite Hg, Hb. cbn [mbind option_bind].
  assert (∃ s0, (if t =? 0 then put_band li now else mret tt) s = Some (tt, s0) ∧ fb s0 = fb s ∧ over s0 = over s ∧
    length (band_next s0) = 2%nat ∧ band_next s0 !! band_ix li = Some t0 ∧ ∀ x, <[band_ix li := x]> (band_next s0) = <[band_ix li := x]> (band_next s))
    as (s0 & -> & Hf0 & Ho0 & Hl0 & Hb0 & Hi0).
  { unfold t0. destruct (t =? 0); [|by exists s]. rewrite put_band_ok by done. eexists. split; [reflexivity|]. cbn.
    split_and!; [done|done|by rewrite length_insert|apply list_lookup_insert_eq; rewrite Hlen; destruct li; cbn; lia|intros x; by rewrite list_insert_insert_eq]. }
  rewrite Hg, Hb0. cbn [mbind option_bind].
  destruct (beat_loop_spec (Z.to_nat now) li l t0 now s0) as (t1 & f' & -> & H1 & H2 & H3 & [Hcol Hcur Hfr]); [|done| |done..|].
  - unfold t0. destruct (t =? 0); lia.
  - unfold t0. destruct (Z.eqb_spec t 0); lia.
  - eexists t1, _. split; [reflexivity|]. cbn [fb over band_next]. rewrite Hf0 in Hfr. by split_and!.
Qed.

(** A call of [draw_beat_columns] ends, and sweeps the band from where the
    last one stopped (or from now, when it was reset) to the column that is
    still incomplete.  In the last sweep every completed column shows the worst
    outcome of its milliseconds (red for a blocked one, then wrong, busy,
    value), the column after the last is the cursor, and every other pixel of
    the screen is as it was.  The clock is below 2^31 ms. *)
Theorem beat_columns_exact li l now s t :
  0 <= now < 2 ^ 31 → Z.of_nat (length (ring (isr l))) = RING_LEN →
  length (band_next s) = 2%nat → band_next s !! band_ix li = Some t → 0 <= t < 2 ^ 31 →
  let t0 := if t =? 0 then now else t in
  ∃ t1 s', draw_beat_columns li l now s = Some (tt, s') ∧
    over s' = over s ∧ band_next s' = <[band_ix li := t1]> (band_next s) ∧
    t0 <= t1 ∧ (t1 = t0 ∨ t1 <= now - 1) ∧ now - 1 < next_col t1 ∧
    (∀ m k, t0 <= m < t1 → t1 - m < 3990 → in_col li (col_of m) k →
       fb s' !! k = Some (worst_colour (accent_of l) (ring (isr l)) (column_ms t0 t1 m))) ∧
    (∀ k, t0 < t1 → in_col li (col_of t1) k → fb s' !! k = Some C_GRID) ∧
    (∀ k, (∀ x, t0 < t1 → t0 <= x <= t1 → ¬ in_col li (col_of x) k) → fb s' !! k = fb s !! k).
Proof. apply beat_columns_spec. Qed.
End Beat.

(** A full ring with one blocked millisecond, seen at 4015 ms. *)
Definition beat_lane : @lane toy (gmap Z Z) :=
  on_isr (set_ring (<[4001%nat := SLOT_HELD]> (replicate (Z.to_nat RING_LEN) SLOT_VALUE))) (fresh_lane false HASH_MASK_WHOLE 16).
Definition beat_screen : screen := Screen ∅ [] [0; 4000].
Lemma beat_columns_exact_witness :
  ∃ s', draw_beat_columns true beat_lane 4015 beat_screen = Some (tt, s') ∧ band_next s' = [0; 4011] ∧
    fb s' !! (150 * LCD_W + BAND_X true) = Some C_RED ∧ fb s' !! (150 * LCD_W + BAND_X true + 1) = Some C_GRID.
Proof.
  destruct (beat_columns_exact true beat_lane 4015 beat_screen 4000) as (t1 & s' & Hd & _ & Hbn & Hlo & Hhi & Hnx & Hcol & Hcur & _).
  - lia.
  - vm_compute. reflexivity.
  - reflexivity.
  - reflexivity.
  - lia.
  - cbn [Z.eqb] in *. exists s'. split; [exact Hd|].
    assert ((λ r, band_next r.2) <$> draw_beat_columns true beat_lane 4015 beat_screen = Some [0; 4011]) as Hc by (vm_compute; reflexivity).
    rewrite Hd in Hc. cbn in Hc. injection Hc as Hc. rewrite Hbn in Hc. cbn in Hc. injection Hc as ->.
    split; [exact Hbn|]. split.
    + rewrite (Hcol 4000) by (lia || (vm_compute; repeat split; discriminate || reflexivity)). vm_compute. reflexivity.
    + apply Hcur; [lia|]. vm_compute. repeat split; discriminate || reflexivity.
Defined.
