(* ===== verification/LaneFrame.v ===== *)
(** * What the main loop's lane operations leave alone

    The operations of [Lanes] that the main loop runs never write the lane's
    configuration (which table, the masking mode, whether it may grow) nor the
    interrupt's instruments, and the doublings they list are of fewer than
    100,000 ms.  Proved for every operation, whether or not the lane's invariant
    holds, with a partial-correctness triple [keeps] over the monad [ST]. *)
From stdpp Require Import base numbers list gmap.
From S2P Require Import Prelude SortedAssoc ExpanseApi Sync32 Alts OpenHash Lanes.
Open Scope Z_scope.
Create HintDb keeps.

Section Frame.
  Context {S M : Type} `{Sync32Laws S} `{ExpanseMapLaws M}.
  Context (cyc : nat → Z) (us : Z * Z).
  Abbreviation lane := (@lane S M).
  Abbreviation world := (@world S M).
  Abbreviation ST := (@ST S M).
Implicit Types (l : lane) (w : world).

Definition cfg l : bool * Z * bool * isr_stats := (is_expanse l, mode l, growable l, isr l).
Definition rehash_small l : Prop := Forall (λ v, 0 <= v < 10 ^ 5) (rehash_ms (loop l)).
Definition steady (c : bool * Z * bool * isr_stats) l : Prop := cfg l = c ∧ rehash_small l.

Section Keeps.
  Context (P : lane → Prop).
Definition keeps {A} (m : ST A) (Q : A → Prop) : Prop :=
  ∀ w x w', P (lane_of w) → m w = Some (x, w') → P (lane_of w') ∧ Q x.
Lemma keeps_ret {A} (x : A) (Q : A → Prop) : Q x → keeps (mret x) Q.
Proof. intros HQ w y w' Hw [= <- <-]. done. Qed.
Lemma keeps_bind {A C} (m : ST A) (k : A → ST C) (R : A → Prop) Q :
  keeps m R → (∀ x, R x → keeps (k x) Q) → keeps (m ≫= k) Q.
Proof.
  intros Hm Hk w y w2 Hw. unfold mbind, st_bind. destruct (m w) as [[x w1]|] eqn:He; [|done].
  destruct (Hm _ _ _ Hw He) as [Hw1 HR]. by apply Hk.
Qed.
Lemma keeps_any {A} (m : ST A) (Q : A → Prop) : keeps m Q → keeps m (λ _, True).
Proof. intros Hm w x w' Hw He. split; [|done]. by eapply Hm. Qed.
Lemma keeps_log b w : lane_of (log b w) = lane_of w.
Proof. unfold log. by destruct (irq_on w). Qed.
Lemma keeps_upd f (Q : unit → Prop) : (∀ l, P l → P (f l)) → Q tt → keeps (upd f) Q.
Proof. intros Hf HQ w [] w' Hw [= <-]. rewrite keeps_log. split; [by apply Hf|done]. Qed.
Lemma keeps_lane : keeps the_lane P.
Proof. intros w x w' Hw [= <- <-]. done. Qed.
Lemma keeps_lift {A} (o : option A) : keeps (lift o) (λ x, o = Some x).
Proof. intros w x w' Hw. unfold lift. destruct o; cbn; [|done]. by intros [= <- <-]. Qed.
Lemma keeps_bracket (Q : unit → Prop) : Q tt → keeps bracket Q.
Proof. intros HQ w [] w' Hw [= <-]. by rewrite keeps_log. Qed.
Lemma keeps_cyccnt : keeps (cyccnt cyc) (λ _, True).
Proof. intros w x w' Hw [= <- <-]. done. Qed.
Lemma keeps_nvic on (Q : unit → Prop) : Q tt → keeps (nvic_irq on) Q.
Proof. intros HQ w [] w' Hw [= <-]. done. Qed.
Lemma keeps_acct : keeps the_acct (λ _, True).
Proof. intros w x w' Hw [= <- <-]. done. Qed.
Lemma keeps_put_acct a (Q : unit → Prop) : Q tt → keeps (put_acct a) Q.
Proof. intros HQ w [] w' Hw [= <-]. done. Qed.
End Keeps.

(** One step of a monadic body: [triv] for results that do not matter. *)
Local Abbreviation triv := (λ _, True).
Ltac kstep :=
  match goal with
  | |- keeps _ (mret _) _ => apply keeps_ret; done
  | |- keeps _ (the_lane ≫= _) _ => eapply keeps_bind; [apply keeps_lane|]; intros ? ?
  | |- keeps _ (lift _ ≫= _) _ => eapply keeps_bind; [apply keeps_lift|]; intros ? ?; cbv beta in *
  | |- keeps _ (lift _) _ => eapply keeps_any, keeps_lift
  | |- keeps _ (cyccnt _ ≫= _) _ => eapply keeps_bind; [apply keeps_cyccnt|]; intros ? _
  | |- keeps _ (the_acct ≫= _) _ => eapply keeps_bind; [apply keeps_acct|]; intros ? _
  | |- keeps _ (put_acct _) _ => apply keeps_put_acct; done
  | |- keeps _ bracket _ => apply keeps_bracket; done
  | |- keeps _ (nvic_irq _) _ => apply keeps_nvic; done
  | |- keeps _ (upd _) _ => apply keeps_upd; [try (intros; done)|done]
  | |- keeps _ (?m ≫= _) _ => eapply (keeps_bind _ _ _ triv); [|intros ? _]
  | |- keeps _ (if ?b then _ else _) _ => destruct b eqn:?
  | |- keeps _ (let '(_, _) := ?x in _) _ => destruct x
  | |- keeps _ (match ?x with _ => _ end) _ => destruct x eqn:?
  end.
Ltac keep := cbv zeta; repeat (kstep; cbv zeta); eauto with keeps.

Context (c : bool * Z * bool * isr_stats).
Local Abbreviation K m := (keeps (steady c) m triv).

Lemma k_mask : K (lane_mask cyc).
Proof. unfold lane_mask. keep. Qed.
Lemma k_unmask : K (lane_unmask cyc).
Proof. unfold lane_unmask. keep. Qed.
#[local] Hint Resolve k_mask k_unmask : keeps.
Lemma k_write_begin : K (write_begin cyc).
Proof. unfold write_begin. keep. Qed.
Lemma k_write_end : K (write_end cyc).
Proof. unfold write_end. keep. Qed.
Lemma k_slot_alloc : K slot_alloc.
Proof. unfold slot_alloc. keep. Qed.
Lemma k_slot_free idx : K (slot_free idx).
Proof. unfold slot_free. keep. Qed.
#[local] Hint Resolve k_write_begin k_write_end k_slot_alloc k_slot_free : keeps.
(** A doubling's milliseconds come from a 32-bit cycle count. *)
Lemma k_log_rehash grow h : K (log_rehash grow h).
Proof.
  unfold log_rehash. keep. intros l' [Hc Hr]. split; [exact Hc|].
  match goal with Ha : arr_set (rehash_ms _) _ ?ms = Some _, Hl : steady c _ |- _ => apply arr_set_inv in Ha as [_ ->]; destruct Hl as [_ Hl] end.
  unfold rehash_small in *. cbn. apply Forall_insert; [done|]. pose proof (u32_range (grow + 200000)) as Hu. unfold is_u32 in Hu.
  Z.to_euclidean_division_equations; lia.
Qed.
#[local] Hint Resolve k_log_rehash : keeps.
Lemma k_tbl_insert id idx : K (tbl_insert cyc us id idx).
Proof. unfold tbl_insert. keep. Qed.
Lemma k_tbl_remove id : K (tbl_remove cyc id).
Proof. unfold tbl_remove. keep. Qed.
#[local] Hint Resolve k_tbl_insert k_tbl_remove : keeps.
Lemma k_add_record born : K (add_record cyc us born).
Proof. unfold add_record. keep. Qed.
#[local] Hint Resolve k_add_record : keeps.
Lemma k_ingest_loop n now cap_records : K (ingest_loop cyc us n now cap_records).
Proof. induction n as [|n IH]; cbn [ingest_loop]; keep. Qed.
#[local] Hint Resolve k_ingest_loop : keeps.
Lemma k_lane_ingest now rate cap_records : K (lane_ingest cyc us now rate cap_records).
Proof. unfold lane_ingest. keep. Qed.
Lemma k_lane_churn now : K (lane_churn cyc us now).
Proof. unfold lane_churn. keep. Qed.

Lemma k_sweep_cb tk idx removed : K (expanse_sweep_cb cyc tk idx removed).
Proof. unfold expanse_sweep_cb. keep. Qed.
(** The range removal applies the callback to a list of entries. *)
Lemma k_visit es (ow : option (Z * world)) x w' :
  (∀ y w, ow = Some (y, w) → steady c (lane_of w)) →
  visit (λ tk idx ow, '(removed, w) ← ow; expanse_sweep_cb cyc tk idx removed w) es ow = Some (x, w') → steady c (lane_of w').
Proof.
  revert ow. induction es as [|[k i] es IH]; intros ow Hw; cbn [visit]; [apply Hw|]. apply IH. intros y w1.
  destruct ow as [[r w]|]; [|done]. cbn. intros He. by eapply (k_sweep_cb k i r); [apply (Hw r w)|].
Qed.
Lemma k_expanse_sweep bt hi : K (expanse_sweep cyc bt hi).
Proof.
  intros w x w' Hw. unfold expanse_sweep.
  pose proof (remove_range_visits _ bt 0 hi (λ tk idx ow, '(removed, w) ← ow; expanse_sweep_cb cyc tk idx removed w) (Some (0, w))) as Hv.
  destruct (expanse_map_remove_range _ _ _ _ _) as [[bt' r] n]. cbn in Hv. subst r.
  destruct (visit _ _ _) as [[y w1]|] eqn:Hvis; [|done]. cbn.
  assert (steady c (lane_of w1)) as Hw1 by (eapply k_visit; [|exact Hvis]; by intros ? ? [= <- <-]).
  assert (K (upd (set_by_time (Some bt'));; mret y)) as Hk by keep. by apply Hk.
Qed.
Lemma k_hash_expired id idx cutoff removed : K (hash_expired cyc id idx cutoff removed).
Proof. unfold hash_expired. keep. Qed.
#[local] Hint Resolve k_expanse_sweep k_hash_expired : keeps.
Lemma k_hash_sweep_loop n i cutoff removed : K (hash_sweep_loop cyc n i cutoff removed).
Proof. revert i removed. induction n as [|n IH]; intros i removed; cbn [hash_sweep_loop]; keep. Qed.
#[local] Hint Resolve k_hash_sweep_loop : keeps.
Lemma k_hash_sweep cutoff : K (hash_sweep cyc cutoff).
Proof. unfold hash_sweep. keep. Qed.
Lemma k_free_retired n i : K (free_retired n i).
Proof. revert i. induction n as [|n IH]; intros i; cbn [free_retired]; keep. Qed.
#[local] Hint Resolve k_hash_sweep k_free_retired : keeps.
Lemma k_lane_sweep now isr0 isr1 : K (lane_sweep cyc now isr0 isr1).
Proof. unfold lane_sweep. keep. Qed.

Lemma k_structures_new bt_ok oks records : K (structures_new bt_ok oks records).
Proof. unfold structures_new. keep. Qed.
Lemma k_fill_tracked n t : K (fill_tracked cyc us n t).
Proof. revert t. induction n as [|n IH]; intros t; cbn [fill_tracked]; keep. Qed.
Lemma k_fill_records n now seed : K (fill_records cyc us n now seed).
Proof. revert seed. induction n as [|n IH]; intros seed; cbn [fill_records]; keep. Qed.
#[local] Hint Resolve k_structures_new k_fill_tracked k_fill_records : keeps.
Lemma k_lane_fill freed bt_ok oks records now : K (lane_fill cyc us freed bt_ok oks records now).
Proof.
  unfold lane_fill. kstep. kstep. destruct (structures_free freed _ _) as [l' a] eqn:Hf.
  assert (steady c l') as Hl'.
  { unfold structures_free in Hf. destruct (is_expanse x); [by injection Hf as <- _|]. destruct (hash x); by injection Hf as <- _. }
  keep.
Qed.
End Frame.
#[export] Hint Resolve k_lane_ingest k_lane_churn k_lane_sweep k_lane_fill : keeps.
