(* ===== verification/DemoMain.v ===== *)
(** * The LCD demo's program

    Model of the other half of
    [src/integrations/stm32h747/demo/CM7/Core/Src/main.c]: the heap break, the
    start and the end of a step, the main loop's body, the timers and their
    interrupts.  The state [demo] holds the two lanes as worlds of [Lanes]
    (their cycle-counter readings and heap account are shared), the screen, the
    ledger, the loop's variables and the lines printed.  What the hardware and
    the allocator answer during one turn of the loop is a record [turn].  The
    interrupts run between turns and, within a turn, at the points that [Lanes]
    lists; within a turn they change only the instruments, which the turn does
    not read back into the lane.  Board configuration is in [BoardConfig]. *)
From Stdlib Require Import String Ascii.
From stdpp Require Import base numbers list gmap.
From S2P Require Import Prelude Fonts Gfx ExpanseApi Sync32 Alts OpenHash Lanes HarnessOut DemoScreen.
Open Scope Z_scope.
Abbreviation length := List.length.

(** ** The heap *)
Definition FRAME_BUFFER_ADDR : Z := 3489660928.
Definition HEAP_START : Z := FRAME_BUFFER_ADDR + 16777216.
Definition HEAP_END : Z := FRAME_BUFFER_ADDR + 33554432.
(** The address returned, or [None] for the failure value; and the new break. *)
Definition sbrk (incr brk : Z) : option Z * Z :=
  if brk +w incr >? HEAP_END then (None, brk) else (Some brk, brk +w incr).

Definition TARGET_RECORDS : Z := 100000.
Definition INGEST_PER_S : Z := TARGET_RECORDS / (TTL_MS / 1000).
Definition GROWTH_PER_S : Z := 5000.

Section Demo.
  Context {S M : Type} `{!Sync32 S} `{!ExpanseMap M}.
  Context (cyc : nat → Z) (us : Z * Z).
  Abbreviation lane := (@lane S M).
  Abbreviation world := (@world S M).

Record vars := Vars {
  step : Z; step_start : Z; last_sweep : Z; last_stats : Z; last_second : Z; last_log : Z; btn_was : Z; start_ms : Z;
}.
Record demo := Demo {
  wa : world; wb : world; scr : screen; ledger : list ledger_t; var : vars; out : list (list Z);
}.
(** The two structures' allocations in a rebuild: the sizes freed, the answers. *)
Record rebuild := Rebuild { freed_of : option Z * option Z * option Z; bt_ok : bool; oks : bool * bool * bool }.
(** What one turn of the loop is answered: the clock, the button, the cycle
    totals around each sweep, the timed lookup batches, the uninitialised
    string buffer, the timers' counts and the rebuilds' allocations. *)
Record turn := Turn {
  now : Z; btn : Z; isr_cyc : bool → Z * Z; batches : bool → list Z; junk : list Z;
  tim2_cnt : bool → Z; tim_cnt : bool → Z; rebuilds : bool → rebuild;
}.

(** ** The monad *)
Definition DM (A : Type) : Type := demo → option (A * demo).
#[global] Instance dm_ret : MRet DM := λ A x d, Some (x, d).
#[global] Instance dm_bind : MBind DM := λ A B f m d, match m d with Some (x, d') => f x d' | None => None end.
Definition get : DM demo := λ d, Some (d, d).
Definition ask {A} (o : option A) : DM A := λ d, x ← o; Some (x, d).
(** Runs a lane operation; the other lane sees its counter and heap account. *)
Definition share (w w' : world) : world := World (lane_of w') (irq_on w') (reads w) (heap_acct w) (points w').
Definition on_lane (li : bool) {A} (m : @ST S M A) : DM A := λ d,
  if li then '(x, w) ← m (wb d); Some (x, Demo (share w (wa d)) w (scr d) (ledger d) (var d) (out d))
  else '(x, w) ← m (wa d); Some (x, Demo w (share w (wb d)) (scr d) (ledger d) (var d) (out d)).
Definition lane_at (d : demo) (li : bool) : lane := lane_of (if li then wb d else wa d).
Definition draw {A} (m : DR A) : DM A := λ d,
  '(x, s) ← m (scr d); Some (x, Demo (wa d) (wb d) s (ledger d) (var d) (out d)).
Definition set_var (f : vars → vars) : DM unit := λ d,
  Some (tt, Demo (wa d) (wb d) (scr d) (ledger d) (f (var d)) (out d)).
Definition printf (s : list Z) : DM unit := λ d,
  Some (tt, Demo (wa d) (wb d) (scr d) (ledger d) (var d) (out d ++ [s])).
(** A write to a lane with every interrupt disabled. *)
Definition quiet (f : lane → lane) : @ST S M unit := λ w,
  Some (tt, World (f (lane_of w)) (irq_on w) (reads w) (heap_acct w) (points w)).
(** [band_next_ms[0] = band_next_ms[1] = 0] *)
Definition reset_bands : DR unit := λ s,
  b ← arr_set (band_next s) 1 0; b ← arr_set b 0 0; Some (tt, Screen (fb s) (over s) b).

(** ** Steps *)
(** [lane->expected_cnt = TIM2->CNT + (TIMx->ARR - TIMx->CNT + 1)]. *)
Definition due (tim2 arr cnt : Z) : Z := tim2 +w (arr -w cnt +w 1).
Definition TIM_ARR : Z := TICKS_PER_MS - 1.
Definition rearm_lane (t : turn) (li : bool) : @ST S M unit :=
  quiet (on_isr (set_expected_cnt (due (tim2_cnt t li) TIM_ARR (tim_cnt t li)))).
Definition draw_lane (t : turn) (p : step_t) (li : bool) : DM unit :=
  d ← get;
  let l := lane_at d li in
  draw (draw_head li l p (junk t));;
  draw (draw_beat_frame li l p);;
  draw (draw_nums li l);;
  draw (draw_sweep li l p);;
  draw (draw_score li l (lane_at d (negb li))).
Definition fill_lane (t : turn) (li : bool) : DM bool :=
  let r := rebuilds t li in on_lane li (lane_fill cyc us (freed_of r) (bt_ok r) (oks r) 0 (now t)).
(** Both lanes rebuilt empty, with their interrupts disabled. *)
Definition rebuild_lanes (t : turn) : DM unit :=
  on_lane false (nvic_irq false);;
  on_lane true (nvic_irq false);;
  ok ← fill_lane t false;
  ok ← (if (ok : bool) then fill_lane t true else mret false);
  (if (ok : bool) then mret tt else printf (chars "CHECK growth rebuild" ++ crlf));;
  on_lane false (nvic_irq true);;
  on_lane true (nvic_irq true).
(** The step's first frame and its line. *)
Definition show_step (t : turn) (s : Z) (p : step_t) : DM unit :=
  draw (fillR 0 0 LCD_W LCD_H C_BG);;
  d ← get;
  draw (draw_strip s 0 (count (lane_at d false)));;
  (if s =? STEP_SUMMARY then draw (draw_summary (ledger d) (lane_at d false) (lane_at d true))
   else draw_lane t p false;; draw_lane t p true);;
  draw (draw_foot p);;
  draw reset_bands;;
  printf (chars "INFO step=" ++ lu s ++ chars " name=" ++ name p ++ chars " sweep_hz=" ++ lu (hz p) ++ chars " mode="
          ++ lu (p_mode p) ++ chars " growth=" ++ lu (if growth p then 1 else 0) ++ crlf).
Definition begin_step (t : turn) (s : Z) : DM unit :=
  p ← ask (arr_get PROG s);
  on_lane true (upd (set_mode (p_mode p)));;
  on_lane true (upd (set_growable (growth p)));;
  on_lane false (upd (set_growable (growth p)));;
  (if growth p then rebuild_lanes t else mret tt);;
  on_lane false (quiet lane_step_reset);;
  on_lane true (quiet lane_step_reset);;
  on_lane false (rearm_lane t false);;
  on_lane true (rearm_lane t true);;
  show_step t s p.
Definition ledger_row (a b : lane) : ledger_t :=
  Ledger (blocked_ms (isr a)) (stale_shown (isr a)) (wrong_reads (isr a)) (isr_busy (isr a))
    (blocked_ms (isr b)) (stale_shown (isr b)) (wrong_reads (isr b)) true.
Definition end_step (s : Z) : DM unit := λ d,
  if (s =? 0) || (s >=? STEP_SUMMARY) then Some (tt, d)
  else
    g ← arr_set (ledger d) s (ledger_row (lane_at d false) (lane_at d true));
    Some (tt, Demo (wa d) (wb d) (scr d) g (var d) (out d)).

(** ** The result line *)
Definition result_line (v : vars) (p : step_t) (now : Z) (a b : lane) : list Z :=
  let f (kv : string * Z) := chars " " ++ chars kv.1 ++ chars "=" ++ lu kv.2 in
  let i := isr a in let j := isr b in
  chars "RESULT" ++ concat (f <$> [
    ("t", now -w start_ms v); ("step", step v); ("sweep_hz", hz p); ("mode", mode b); ("growth", if growth p then 1 else 0);
    ("a_records", count a); ("a_sweep_us", sweep_us (loop a)); ("a_sweep_net_us", sweep_net_us (loop a));
    ("a_lat_max_ns", lat_max_ticks i *w 50); ("a_blocked_ms", blocked_ms i); ("a_served", isr_served i); ("a_ok", isr_ok i);
    ("a_busy", isr_busy i); ("a_nf", isr_nf i); ("a_bad", isr_bad i); ("a_no_value_ms", no_value_ms i);
    ("a_stale_max_ms", stale_shown i); ("a_body_max_cyc", body_max_cyc i); ("a_drops", drops a);
    ("a_bytes", index_bytes (loop a)); ("a_lookup_ns", lookup_ns (loop a));
    ("b_records", count b); ("b_sweep_us", sweep_us (loop b)); ("b_sweep_net_us", sweep_net_us (loop b));
    ("b_lat_max_ns", lat_max_ticks j *w 50); ("b_blocked_ms", blocked_ms j); ("b_served", isr_served j); ("b_ok", isr_ok j);
    ("b_nf", isr_nf j); ("b_bad", isr_bad j); ("b_no_value_ms", no_value_ms j); ("b_stale_max_ms", stale_shown j);
    ("b_body_max_cyc", body_max_cyc j); ("b_mask_max_us", mask_max_cyc (loop b) / 400); ("b_drops", drops b);
    ("b_bytes", index_bytes (loop b)); ("b_lookup_ns", lookup_ns (loop b)); ("b_rehashes", rehash_n (loop b))]%string) ++ crlf.

(** ** The main loop *)
(** [advance]: a press of the button, or the step's time is up. *)
Definition advances (t : turn) (v : vars) (p : step_t) : bool :=
  negb (btn t =? 0) && (btn_was v =? 0) || negb (secs p =? 0) && (now t -w step_start v >=? secs p *w 1000).
Definition set_btn (b : Z) (v : vars) : vars :=
  Vars (step v) (step_start v) (last_sweep v) (last_stats v) (last_second v) (last_log v) b (start_ms v).
Definition next_step (now : Z) (v : vars) : vars :=
  Vars (step v +w 1) now (last_sweep v) (last_stats v) (last_second v) (last_log v) (btn_was v) (start_ms v).
Definition scoreboard (t : turn) (li : bool) : @ST S M unit :=
  l ← the_lane; l ← lift (lane_measure_scoreboard (batches t li) l); upd (λ _, l).
Definition ingest_turn (t : turn) (p : step_t) (s : Z) : DM unit :=
  if growth p then
    on_lane false (lane_ingest cyc us (now t) GROWTH_PER_S TARGET_RECORDS);;
    on_lane true (lane_ingest cyc us (now t) GROWTH_PER_S TARGET_RECORDS)
  else if s >? 0 then
    on_lane false (lane_ingest cyc us (now t) INGEST_PER_S UINT32_MAX);;
    on_lane true (lane_ingest cyc us (now t) INGEST_PER_S UINT32_MAX)
  else mret tt.
Definition set_last_sweep (x : Z) (v : vars) : vars :=
  Vars (step v) (step_start v) x (last_stats v) (last_second v) (last_log v) (btn_was v) (start_ms v).
Definition set_last_stats (x : Z) (v : vars) : vars :=
  Vars (step v) (step_start v) (last_sweep v) x (last_second v) (last_log v) (btn_was v) (start_ms v).
Definition set_last_second (x : Z) (v : vars) : vars :=
  Vars (step v) (step_start v) (last_sweep v) (last_stats v) x (last_log v) (btn_was v) (start_ms v).
Definition set_last_log (x : Z) (v : vars) : vars :=
  Vars (step v) (step_start v) (last_sweep v) (last_stats v) (last_second v) x (btn_was v) (start_ms v).
Definition both (f : bool → DM unit) : DM unit := f false;; f true.
(** [f] of each lane as it is now, lane A first. *)
Definition draw_both (f : bool → demo → DR unit) : DM unit := both (λ li, d ← get; draw (f li d)).
Definition sweep_turn (t : turn) (p : step_t) (v : vars) : DM unit :=
  if negb (hz p =? 0) && (now t -w last_sweep v >=? 1000 / hz p) then
    set_var (set_last_sweep (now t));;
    both (λ li, on_lane li (lane_sweep cyc (now t) (isr_cyc t li).1 (isr_cyc t li).2));;
    draw_both (λ li d, draw_sweep li (lane_at d li) p)
  else mret tt.
Definition stats_turn (t : turn) (p : step_t) (v : vars) : DM unit :=
  if now t -w last_stats v >=? 200 then
    set_var (set_last_stats (now t));;
    both (λ li, on_lane li (scoreboard t li));;
    draw_both (λ li d, draw_nums li (lane_at d li));;
    draw_both (λ li d, draw_score li (lane_at d li) (lane_at d (negb li)));;
    if growth p then d ← get; draw (draw_head true (lane_at d true) p (junk t)) else mret tt
  else mret tt.
Definition second_turn (t : turn) (p : step_t) (v : vars) : DM unit :=
  let since := now t -w step_start v in
  if now t -w last_second v >=? 1000 then
    set_var (set_last_second (now t));;
    d ← get;
    draw (draw_strip (step v) since (count (lane_at d false)));;
    if (since >=? 6000) && (since <? 7000)
    then draw_both (λ li d, draw_beat_frame li (lane_at d li) p);; draw reset_bands
    else mret tt
  else mret tt.
Definition log_turn (t : turn) (p : step_t) (v : vars) : DM unit :=
  if now t -w last_log v >=? 1000 then
    set_var (set_last_log (now t));;
    d ← get;
    printf (result_line v p (now t) (lane_at d false) (lane_at d true))
  else mret tt.
(** One turn of [for (;;)]; [v] are the variables as the turn found them. *)
Definition main_turn (t : turn) : DM unit :=
  d ← get;
  let v := var d in
  p ← ask (arr_get PROG (step v));
  let advance := advances t v p in
  set_var (set_btn (btn t));;
  if advance && (step v <? STEP_SUMMARY) then
    end_step (step v);;
    set_var (next_step (now t));;
    begin_step t (step v +w 1)
  else if step v =? STEP_SUMMARY then mret tt
  else
    ingest_turn t p (step v);;
    both (λ li, on_lane li (lane_churn cyc us (now t)));;
    sweep_turn t p v;;
    draw_both (λ li d, draw_beat_columns li (lane_at d li) (now t));;
    stats_turn t p v;;
    second_turn t p v;;
    log_turn t p v.

(** ** Timers and interrupts *)
Definition TIM7_START : Z := TICKS_PER_MS / 2.
(** [ref]: the reading of [TIM2->CNT]. *)
Definition timers_init (ref : Z) : DM unit :=
  both (λ li, on_lane li (nvic_irq true));;
  on_lane false (upd (on_isr (set_expected_cnt (ref +w TICKS_PER_MS))));;
  on_lane true (upd (on_isr (set_expected_cnt (ref +w TICKS_PER_MS / 2)))).
(** [TIM6_DAC_IRQHandler] and [TIM7_IRQHandler], between two turns: what they
    read is [TIM2->CNT], the tick and the cycle counter at both ends. *)
Definition tim_irq (li : bool) (tim2 tick body0 body1 : Z) : DM unit :=
  d ← get;
  l ← ask (lane_isr false (lane_at d li) tim2 tick body0 body1);
  on_lane li (quiet (λ _, l)).

(** ** Start-up *)
(** The static objects, zeroed but for their initialisers. *)
Definition isr_static : isr_stats := IsrStats 0 0 0 0 0 0 0 0 0 0 0 0 0 (replicate (Z.to_nat RING_LEN) 0).
Definition loop_static : loop_stats :=
  LoopStats 0 0 0 0 0 0 (replicate (Z.to_nat REHASH_MAX) 0) 0 (replicate (Z.to_nat REHASH_MAX) 0) 0 0.
Definition lane_static (li : bool) : lane :=
  Lane (negb li) HASH_MASK_WHOLE false [] 0 [] 0 None None None (replicate N_TRACKED 0) (replicate N_TRACKED 0)
    (replicate (Z.to_nat RETIRE_MAX) 0) 0 0 0 0 0 0 0 0 0 isr_static loop_static.
Definition ledger_zero : list ledger_t := replicate (length PROG) (Ledger 0 0 0 0 0 0 0 false).
Record boot := Boot {
  init_oks : bool * bool * bool * bool; stacks : bool → list Z; fills : bool → rebuild; acct0 : acct;
  t0_ms : Z; tim2_ref : Z; start_at : Z; first : turn;
}.
(** From the loading screen and [lanes_init] to the first turn: [Some None] is
    [Error_Handler].  The lines printed meanwhile are left out. *)
Definition main_boot (b : boot) : option (option demo) :=
  match lanes_init (init_oks b) (stacks b false) (stacks b true) (lane_static false) (lane_static true) with
  | None => Some None
  | Some (a0, b0) =>
      let fill li := let r := fills b li in
        on_lane li (lane_fill cyc us (freed_of r) (bt_ok r) (oks r) TARGET_RECORDS (t0_ms b)) in
      let w l := World l false 0 (acct0 b) [] in
      let s := start_at b in
      '(_, screen) ← (fillR 0 0 LCD_W LCD_H C_BG;;
        textF cond24 12 10 (chars "loading 100,000 records into both lanes...") C_TEXT C_BG 700 ALIGN_LEFT) (Screen ∅ [] [0; 0]);
      '(ok, d) ← (ok ← fill false; if (ok : bool) then fill true else mret false)
        (Demo (w a0) (w b0) screen ledger_zero (Vars 0 s s s s (s +w 500) 0 s) []);
      if negb ok then Some None
      else
        '(_, d) ← (timers_init (tim2_ref b);; both (λ li, on_lane li (upd (set_last_churn_ms s)));; begin_step (first b) 0) d;
        Some (Some d)
  end.
End Demo.
