(* ===== verification/BoardConfig.v ===== *)
(** * The LCD demo's board configuration

    Model of [MPU_Config] and of the clock settings of
    [src/integrations/stm32h747/demo/CM7/Core/Src/main.c].  The HAL structure is
    filled once per region and keeps its other fields from the region before, as
    in the source.  The memory attributes of an address follow the
    architecture's rule: the highest-numbered enabled region that covers it, a
    disabled eighth of a region not counting. *)
From stdpp Require Import base numbers list.
From S2P Require Import Prelude Lanes DemoMain.
Open Scope Z_scope.

(** ** The memory protection unit *)
(** [MPU_Region_InitTypeDef]: [size] is the logarithm of the region's size. *)
Record mpu_region_t := Region {
  number : Z; base : Z; size : Z; srd : Z; tex : Z; full_access : bool; exec_never : bool;
  shareable : bool; cacheable : bool; bufferable : bool;
}.
Definition region0 : mpu_region_t := Region 0 0 32 135 0 false true true false false.
(** Region 1 changes every field but the enable bit. *)
Definition region1 (r : mpu_region_t) : mpu_region_t := Region 1 FRAME_BUFFER_ADDR 25 0 1 true false false false true.
(** Region 2 keeps the sub-region mask, the access rights, execution and
    sharing of region 1. *)
Definition region2 (r : mpu_region_t) : mpu_region_t :=
  Region 2 HEAP_START 24 (srd r) 1 (full_access r) (exec_never r) (shareable r) true true.
Definition MPU_Config : list mpu_region_t :=
  let r0 := region0 in let r1 := region1 r0 in let r2 := region2 r1 in [r0; r1; r2].
(** Whether a region covers an address: in range, its eighth not disabled. *)
Definition covers (r : mpu_region_t) (a : Z) : bool :=
  (base r <=? a) && (a <? base r + 2 ^ size r) && negb (Z.testbit (srd r) ((a - base r) / 2 ^ (size r - 3))).
(** The last region of the list that covers it; [None] is the default map. *)
Definition region_of (rs : list mpu_region_t) (a : Z) : option mpu_region_t :=
  foldl (λ acc r, if covers r a then Some r else acc) None rs.

(** Every pixel of the framebuffer is accessible and not cached (the display
    controller scans it), every byte of the heap is accessible and cached, and
    what remains of the external address space is inaccessible. *)
Lemma mpu_map a :
  (FRAME_BUFFER_ADDR <= a < HEAP_START → ∃ r, region_of MPU_Config a = Some r ∧ full_access r = true ∧ cacheable r = false ∧ bufferable r = true) ∧
  (HEAP_START <= a < HEAP_END → ∃ r, region_of MPU_Config a = Some r ∧ full_access r = true ∧ cacheable r = true ∧ bufferable r = true) ∧
  (3 * 2 ^ 29 <= a < FRAME_BUFFER_ADDR ∨ HEAP_END <= a < 7 * 2 ^ 29 → ∃ r, region_of MPU_Config a = Some r ∧ full_access r = false) ∧
  (0 <= a < 3 * 2 ^ 29 ∨ 7 * 2 ^ 29 <= a < 2 ^ 32 → region_of MPU_Config a = None).
Proof.
  unfold region_of, MPU_Config. cbn [foldl].
  assert (∀ r lo hi b, base r <= lo → hi <= base r + 2 ^ size r → srd r = 0 → lo <= a < hi → b = covers r a → b = true) as Hin.
  { intros r lo hi b Hlo Hhi Hs Ha ->. unfold covers. rewrite Hs, Z.bits_0. rewrite (proj2 (Z.leb_le _ _)), (proj2 (Z.ltb_lt _ _)) by lia. done. }
  assert (∀ r, a < base r ∨ base r + 2 ^ size r <= a → covers r a = false) as Hout.
  { intros r Ha. unfold covers. destruct (Z.leb_spec (base r) a), (Z.ltb_spec a (base r + 2 ^ size r)); try done; lia. }
  unfold HEAP_START, HEAP_END, FRAME_BUFFER_ADDR in *. split_and!; intros Ha.
  - rewrite (Hout (region2 (region1 region0))) by (cbn; unfold HEAP_START, FRAME_BUFFER_ADDR; left; lia).
    assert (covers (region1 region0) a = true) as -> by (eapply (Hin (region1 region0)); [..|exact Ha|done]; cbn; unfold FRAME_BUFFER_ADDR; lia || done).
    eexists. by split_and!.
  - assert (covers (region2 (region1 region0)) a = true) as -> by
      (eapply (Hin (region2 (region1 region0))); [..|exact Ha|done]; cbn; unfold HEAP_START, FRAME_BUFFER_ADDR; lia || done).
    eexists. by split_and!.
  - rewrite (Hout (region2 (region1 region0))), (Hout (region1 region0)) by (cbn; unfold HEAP_START, FRAME_BUFFER_ADDR; lia).
    exists region0. split; [|done].
    assert (covers region0 a = true) as ->; [|done]. unfold covers. cbn [base size srd region0]. rewrite Z.sub_0_r.
    change (2 ^ (32 - 3)) with 536870912. change (2 ^ 29) with 536870912 in Ha. change (2 ^ 32) with 4294967296.
    assert (3 <= a / 536870912 <= 6) as Hq by (clear Hin Hout; Z.to_euclidean_division_equations; lia).
    rewrite (proj2 (Z.leb_le _ _)), (proj2 (Z.ltb_lt _ _)) by lia. cbn [andb].
    set (q := a / 536870912) in *. assert (q = 3 ∨ q = 4 ∨ q = 5 ∨ q = 6) as Hc by lia. clearbody q. by destruct Hc as [->|[->|[->| ->]]].
  - rewrite (Hout (region2 (region1 region0))), (Hout (region1 region0)) by (cbn; unfold HEAP_START, FRAME_BUFFER_ADDR; lia).
    assert (covers region0 a = false) as ->; [|done]. unfold covers. cbn [base size srd region0]. rewrite Z.sub_0_r.
    change (2 ^ (32 - 3)) with 536870912. change (2 ^ 29) with 536870912 in Ha. change (2 ^ 32) with 4294967296 in Ha.
    assert (0 <= a / 536870912 <= 2 ∨ a / 536870912 = 7) as Hq by (clear Hin Hout; Z.to_euclidean_division_equations; lia).
    set (q := a / 536870912) in *. assert (q = 0 ∨ q = 1 ∨ q = 2 ∨ q = 7) as Hc by lia. clearbody q.
    rewrite andb_false_iff. right. by destruct Hc as [->|[->|[->| ->]]].
Qed.

(** ** Clocks *)
(** The numbers [SystemClock_Config] sets: the PLL's dividers and multiplier, the
    bus dividers and the flash wait states. *)
Definition HSE_VALUE : Z := 25000000.
Record clock_t := Clock {
  pllm : Z; plln : Z; pllp : Z; pllq : Z; pllr : Z; pllfracn : Z;
  sysclk_div : Z; ahb_div : Z; apb3_div : Z; apb1_div : Z; apb2_div : Z; apb4_div : Z; flash_latency : Z;
}.
Definition SystemClock_Config : clock_t := Clock 5 160 2 5 2 0 1 2 2 2 2 2 4.
Definition sysclk (c : clock_t) : Z := HSE_VALUE / pllm c * plln c / pllp c / sysclk_div c.
(** APB1's timers run at twice its clock when it is divided. *)
Definition timclk1 (c : clock_t) : Z := sysclk c / ahb_div c / apb1_div c * (if apb1_div c =? 1 then 1 else 2).
Definition TIM_PSC : Z := 9.
Definition timer_hz (c : clock_t) : Z := timclk1 c / (TIM_PSC + 1).
(** The core runs at 400 cycles a microsecond and the timers tick 20,000 times a
    millisecond, 50 ns each: the constants [lanes.c] and the log line use. *)
Lemma clocks : sysclk SystemClock_Config = 400 * 10 ^ 6 ∧ timer_hz SystemClock_Config = TICKS_PER_MS * 1000 ∧
  10 ^ 9 / timer_hz SystemClock_Config = 50.
Proof. split_and!; reflexivity. Qed.
(** The reference of a lane is the timer's next update, at start-up as in every
    later step. *)
Lemma due_at_start ref : due ref TIM_ARR 0 = ref +w TICKS_PER_MS ∧ due ref TIM_ARR TIM7_START = ref +w TICKS_PER_MS / 2.
Proof. split; unfold due; f_equal. Qed.

(** ** The heap break *)
(** The break stays inside the heap: a request that fits is served at the old
    break and moves it by the amount asked, so two requests never overlap, and
    one that does not fit changes nothing. *)
Lemma sbrk_inside incr brk :
  HEAP_START <= brk <= HEAP_END → 0 <= incr <= 2 ^ 28 →
  (brk + incr <= HEAP_END → sbrk incr brk = (Some brk, brk + incr)) ∧ (HEAP_END < brk + incr → sbrk incr brk = (None, brk)).
Proof.
  intros Hb Hi. unfold sbrk. unfold HEAP_START, HEAP_END, FRAME_BUFFER_ADDR in *. rewrite u32_small by (unfold is_u32; lia).
  destruct (Z.gtb_spec (brk + incr) (3489660928 + 33554432)); split; intros; (done || lia).
Qed.
