(* ===== verification/DemoProgram.v ===== *)
(** * The demo's program: steps, ledger and configuration

    Claims about the main loop of
    [src/integrations/stm32h747/demo/CM7/Core/Src/main.c] as a transition system
    of turns and interrupts ([DemoMain]): the step only moves forward, the
    ledger holds exactly the steps that ended, and the lanes are configured as
    the step says. *)
From Stdlib Require Import String Ascii.
From stdpp Require Import base numbers list gmap.
From S2P Require Import Prelude SortedAssoc Fonts Gfx ExpanseApi Sync32 Alts OpenHash Lanes LaneFrame HarnessOut DemoScreen DemoLayout DemoMain.
Open Scope Z_scope.
Abbreviation length := List.length.

Section Program.
  Context {S M : Type} `{Sync32Laws S} `{ExpanseMapLaws M}.
  Context (cyc : nat → Z) (us : Z * Z).
  Abbreviation lane := (@lane S M).
  Abbreviation demo := (@demo S M).
Implicit Types d : demo.

(** ** Operations that leave the program's variables alone *)
(** What such an operation may not change. *)
Definition view_of d := (step (var d), step_start (var d), ledger d, cfg (lane_at d false), cfg (lane_at d true)).
Definition small_ms d : Prop := ∀ li, rehash_small (lane_at d li).
Definition calm {A} (m : @DM S M A) : Prop :=
  ∀ d x d', small_ms d → m d = Some (x, d') → view_of d' = view_of d ∧ small_ms d'.
Lemma calm_ret {A} (x : A) : calm (mret x).
Proof. intros d y d' Hs [= <- <-]. done. Qed.
Lemma calm_bind {A C} (m : DM A) (k : A → DM C) : calm m → (∀ x, calm (k x)) → calm (m ≫= k).
Proof.
  intros Hm Hk d y d2 Hs. unfold mbind, dm_bind. destruct (m d) as [[x d1]|] eqn:He; [|done].
  intros Hy. destruct (Hm _ _ _ Hs He) as [<- Hs1]. by eapply Hk.
Qed.
Lemma calm_get : calm get.
Proof. intros d y d' Hs [= <- <-]. done. Qed.
Lemma calm_ask {A} (o : option A) : calm (ask o).
Proof. intros d y d' Hs. unfold ask. destruct o; cbn; [|done]. by intros [= <- <-]. Qed.
Lemma calm_draw {A} (m : DR A) : calm (draw m).
Proof. intros d y d' Hs. unfold draw. destruct (m (scr d)) as [[x s]|]; cbn; [|done]. by intros [= <- <-]. Qed.
Lemma calm_printf s : calm (printf s).
Proof. intros d y d' Hs [= <- <-]. done. Qed.
Lemma calm_var f : (∀ v, step (f v) = step v ∧ step_start (f v) = step_start v) → calm (set_var f).
Proof. intros Hf d y d' Hs [= <- <-]. unfold view_of. cbn. by destruct (Hf (var d)) as [-> ->]. Qed.
(** Running an operation on one lane: [P] holds of that lane after it. *)
Lemma on_lane_post li {A} (m : @ST S M A) (P : lane → Prop) d x d' :
  keeps P m (λ _, True) → P (lane_at d li) → on_lane li m d = Some (x, d') →
  P (lane_at d' li) ∧ lane_at d' (negb li) = lane_at d (negb li) ∧ scr d' = scr d ∧ ledger d' = ledger d ∧ var d' = var d ∧ out d' = out d.
Proof.
  intros Hm HP. unfold on_lane, lane_at. destruct li; cbn.
  - destruct (m (wb d)) as [[y w]|] eqn:He; cbn; [|done]. intros [= <- <-]. cbn. split_and!; try done. by eapply (Hm _ _ _ HP He).
  - destruct (m (wa d)) as [[y w]|] eqn:He; cbn; [|done]. intros [= <- <-]. cbn. split_and!; try done. by eapply (Hm _ _ _ HP He).
Qed.
Lemma calm_lane li {A} (m : @ST S M A) : (∀ c, keeps (steady c) m (λ _, True)) → calm (on_lane li m).
Proof.
  intros Hm d y d' Hs Hd.
  destruct (on_lane_post li m (steady (cfg (lane_at d li))) d y d') as ([Hc Hr] & Ho & _ & Hg & Hv & _); [done|by split|done|].
  unfold view_of. rewrite Hg, Hv. split.
  - destruct li; cbn [negb] in Ho; by rewrite Ho, Hc.
  - intros li'. destruct (decide (li' = li)) as [->|Hne]; [done|].
    replace li' with (negb li) by (by destruct li, li'). rewrite Ho. apply Hs.
Qed.

Ltac calm_step :=
  match goal with
  | |- calm (mret _) => apply calm_ret
  | |- calm get => apply calm_get
  | |- calm (ask _) => apply calm_ask
  | |- calm (draw _) => apply calm_draw
  | |- calm (printf _) => apply calm_printf
  | |- calm (set_var _) => apply calm_var; done
  | |- calm (on_lane _ _) => apply calm_lane; intros ?; eauto with keeps
  | |- calm (_ ≫= _) => apply calm_bind; [|intros ?]
  | |- calm (if ?b then _ else _) => destruct b
  end.
Ltac calm := cbv zeta; repeat (calm_step; cbv zeta).
Lemma bind2_inv {A} (o1 o2 : option Z) (f : Z → Z → A) y : (b ← o1; n ← o2; Some (f b n)) = Some y → ∃ b n, y = f b n.
Proof. destruct o1 as [b|], o2 as [n|]; cbn; try done. intros [= <-]. by exists b, n. Qed.
Lemma measured (b : list Z) (l l' : lane) :
  lane_measure_scoreboard b l = Some l' → ∃ x y, l' = on_loop (λ p, set_lookup_ns y (set_index_bytes x p)) l.
Proof. apply bind2_inv. Qed.
Lemma k_scoreboard c t li : keeps (steady c) (scoreboard t li) (λ _, True).
Proof.
  unfold scoreboard. eapply keeps_bind; [apply keeps_lane|]. intros l Hl. eapply keeps_bind; [apply keeps_lift|]. intros l' Hl'.
  apply keeps_upd; [|done]. intros _ _. apply measured in Hl' as (x & y & ->). exact Hl.
Qed.
#[local] Hint Resolve k_scoreboard : keeps.
Lemma calm_ingest t p s : calm (ingest_turn cyc us t p s).
Proof. unfold ingest_turn. calm. Qed.
Lemma calm_both f : (∀ li, calm (f li)) → calm (both f).
Proof. intros Hf. unfold both. by calm. Qed.
Lemma calm_draw_both f : calm (draw_both f).
Proof. apply calm_both. intros li. calm. Qed.
Lemma calm_sweep t p v : calm (sweep_turn cyc t p v).
Proof. unfold sweep_turn. calm; try apply calm_draw_both. apply calm_both. intros li. calm. Qed.
Lemma calm_stats t p v : calm (stats_turn t p v).
Proof. unfold stats_turn. calm; try apply calm_draw_both. apply calm_both. intros li. calm. Qed.
Lemma calm_second t p v : calm (second_turn t p v).
Proof. unfold second_turn. calm; apply calm_draw_both. Qed.
Lemma calm_log t p v : calm (log_turn t p v).
Proof. unfold log_turn. calm. Qed.
Lemma calm_draw_lane t p li : calm (draw_lane t p li).
Proof. unfold draw_lane. calm. Qed.

(** ** What the start of a step does *)
Lemma bind_inv {A C} (m : @DM S M A) (k : A → DM C) d y d2 :
  (m ≫= k) d = Some (y, d2) → ∃ x d1, m d = Some (x, d1) ∧ k x d1 = Some (y, d2).
Proof. unfold mbind, dm_bind. destruct (m d) as [[x d1]|] eqn:He; [|done]. intros Hk. by exists x, d1. Qed.
(** One lane mapped by [f], the rest of the state unchanged. *)
Definition maps_lane (li : bool) (f : lane → lane) d d' : Prop :=
  lane_at d' li = f (lane_at d li) ∧ lane_at d' (negb li) = lane_at d (negb li) ∧
  ledger d' = ledger d ∧ var d' = var d ∧ scr d' = scr d.
Lemma on_lane_maps li {A} (m : @ST S M A) f d x d' :
  (∀ w y w', m w = Some (y, w') → lane_of w' = f (lane_of w)) → on_lane li m d = Some (x, d') → maps_lane li f d d'.
Proof.
  intros Hm. unfold on_lane, maps_lane, lane_at. destruct li; cbn.
  - destruct (m (wb d)) as [[y w]|] eqn:He; cbn; [|done]. intros [= <- <-]. cbn. by rewrite (Hm _ _ _ He).
  - destruct (m (wa d)) as [[y w]|] eqn:He; cbn; [|done]. intros [= <- <-]. cbn. by rewrite (Hm _ _ _ He).
Qed.
Lemma on_lane_upd li f d x d' : on_lane li (upd f) d = Some (x, d') → maps_lane li f d d'.
Proof. apply on_lane_maps. intros w [] w' [= <-]. apply keeps_log. Qed.
Lemma on_lane_quiet li f d x d' : on_lane li (quiet f) d = Some (x, d') → maps_lane li f d d'.
Proof. apply on_lane_maps. intros w [] w' [= <-]. done. Qed.

(** The instruments a step starts with. *)
Definition isr_reset (i : isr_stats) : isr_stats :=
  IsrStats (expected_cnt i) 0 0 0 0 0 0 0 0 0 0 0 (body_total_cyc i) (ring i).
Definition started (t : turn) (p : step_t) (li : bool) (l l' : lane) : Prop :=
  cfg l' = (is_expanse l, if li then p_mode p else mode l, growth p,
            set_expected_cnt (due (tim2_cnt t li) TIM_ARR (tim_cnt t li)) (isr_reset (isr l))).
Lemma calm_when (b : bool) m : calm m → calm (if b then m else mret tt).
Proof. intros Hm. destruct b; [exact Hm|apply calm_ret]. Qed.
Lemma calm_rebuild t : calm (rebuild_lanes cyc us t).
Proof. unfold rebuild_lanes, fill_lane. calm; by apply keeps_nvic. Qed.
Lemma calm_show t s p : calm (show_step t s p).
Proof. unfold show_step. calm; apply calm_draw_lane. Qed.
Lemma begin_step_spec t s d d' :
  small_ms d → begin_step cyc us t s d = Some (tt, d') →
  ∃ p, arr_get PROG s = Some p ∧ step (var d') = step (var d) ∧ step_start (var d') = step_start (var d) ∧
    ledger d' = ledger d ∧ small_ms d' ∧ ∀ li, started t p li (lane_at d li) (lane_at d' li).
Proof.
  intros Hs Hb. unfold begin_step in Hb.
  apply bind_inv in Hb as (p & d0 & Hp & Hb). unfold ask in Hp. destruct (arr_get PROG s) as [p'|]; [|done].
  injection Hp as <- <-. exists p'. split; [done|].
  apply bind_inv in Hb as ([] & d1 & H1%on_lane_upd & Hb). apply bind_inv in Hb as ([] & d2 & H2%on_lane_upd & Hb).
  apply bind_inv in Hb as ([] & d3 & H3%on_lane_upd & Hb). apply bind_inv in Hb as ([] & d4 & H4 & Hb).
  destruct H1 as (Hl1 & Ho1 & Hg1 & Hv1 & _), H2 as (Hl2 & Ho2 & Hg2 & Hv2 & _), H3 as (Hl3 & Ho3 & Hg3 & Hv3 & _). cbn [negb] in *.
  assert (small_ms d3) as Hs3.
  { intros []; [rewrite Ho3, Hl2, Hl1|rewrite Hl3, Ho2, Ho1]; apply (Hs). }
  assert (view_of d4 = view_of d3 ∧ small_ms d4) as [Hview Hs4].
  { exact (calm_when (growth p') _ (calm_rebuild t) d3 tt d4 Hs3 H4). }
  apply bind_inv in Hb as ([] & d5 & H5%on_lane_quiet & Hb). apply bind_inv in Hb as ([] & d6 & H6%on_lane_quiet & Hb).
  apply bind_inv in Hb as ([] & d7 & H7%on_lane_quiet & Hb). apply bind_inv in Hb as ([] & d8 & H8%on_lane_quiet & Hb).
  destruct H5 as (Hl5 & Ho5 & Hg5 & Hv5 & _), H6 as (Hl6 & Ho6 & Hg6 & Hv6 & _), H7 as (Hl7 & Ho7 & Hg7 & Hv7 & _), H8 as (Hl8 & Ho8 & Hg8 & Hv8 & _). cbn [negb] in *.
  assert (small_ms d8) as Hs8.
  { intros []; [rewrite Hl8, Ho7, Hl6, Ho5|rewrite Ho8, Hl7, Ho6, Hl5]; apply (Hs4). }
  destruct (calm_show _ _ _ _ _ _ Hs8 Hb) as [Hview' Hs'].
  assert (∀ li, cfg (lane_at d4 li) = cfg (lane_at d3 li)) as Hc4 by (intros []; unfold view_of in Hview; congruence).
  assert (∀ li, cfg (lane_at d' li) = cfg (lane_at d8 li)) as Hc8 by (intros []; unfold view_of in Hview'; congruence).
  split; [unfold view_of in *; congruence|]. split; [unfold view_of in *; congruence|]. split; [unfold view_of in *; congruence|].
  split; [exact Hs'|]. intros li. specialize (Hc4 li). unfold started. rewrite Hc8. unfold cfg in Hc4.
  destruct li; [rewrite Hl8, Ho7, Hl6, Ho5|rewrite Ho8, Hl7, Ho6, Hl5].
  - injection Hc4 as He Hm Hg Hi. unfold cfg. cbn. rewrite He, Hm, Hg, Hi, Ho3, Hl2, Hl1. done.
  - injection Hc4 as He Hm Hg Hi. unfold cfg. cbn. rewrite He, Hm, Hg, Hi, Hl3, Ho2, Ho1. done.
Qed.

(** ** The program as a transition system *)
(** A turn of the main loop, or one of the two timer interrupts between turns. *)
Inductive demo_step : demo → demo → Prop :=
  | step_turn t d d' : main_turn cyc us t d = Some (tt, d') → demo_step d d'
  | step_irq li tim2 tick b0 b1 d d' : tim_irq li tim2 tick b0 b1 d = Some (tt, d') → demo_step d d'.
(** The state the program keeps, whatever the clock, the button and the
    allocator answer. *)
Record program_ok d : Prop := {
  po_step : 0 <= step (var d) <= STEP_SUMMARY;
  po_ledger : Z.of_nat (length (ledger d)) = N_STEPS;
  po_filled j r : arr_get (ledger d) j = Some r → filled r = bool_decide (1 <= j < step (var d));
  po_mode p : arr_get PROG (step (var d)) = Some p → mode (lane_at d true) = p_mode p;
  po_growth p li : arr_get PROG (step (var d)) = Some p → growable (lane_at d li) = growth p;
  po_kind li : is_expanse (lane_at d li) = negb li;
  po_small : small_ms d;
}.
Lemma program_ok_view d d' : view_of d' = view_of d → small_ms d' → program_ok d → program_ok d'.
Proof.
  intros Hv Hs [H1 H2 H3 H4 H5 H6 _].
  assert (step (var d') = step (var d) ∧ ledger d' = ledger d) as [Hst Hl] by (unfold view_of in Hv; by split; congruence).
  assert (∀ li, cfg (lane_at d' li) = cfg (lane_at d li)) as Hc by (intros []; unfold view_of in Hv; congruence).
  constructor; rewrite ?Hst, ?Hl; try done.
  - intros p Hp. specialize (Hc true). unfold cfg in Hc. injection Hc as _ -> _ _. eauto.
  - intros p li Hp. specialize (Hc li). unfold cfg in Hc. injection Hc as _ _ -> _. eauto.
  - intros li. specialize (Hc li). unfold cfg in Hc. injection Hc as -> _ _ _. eauto.
Qed.
Lemma lane_isr_frame ov (l l' : lane) tim2 tick b0 b1 :
  lane_isr ov l tim2 tick b0 b1 = Some l' → ∃ i, l' = set_isr i l.
Proof.
  assert (∀ n (d : Z) slot (l0 l1 : lane) slot', isr_reads n ov l0 d slot = Some (l1, slot') → ∃ i, l1 = set_isr i l0) as Hreads.
  { induction n as [|n IH]; intros d slot l0 l1 slot'; cbn [isr_reads]; [intros [= <- <-]; exists (isr l0); by destruct l0|].
    destruct (isr_one ov l0 d slot) as [[l2 s2]|] eqn:Hone; cbn; [|done]. intros Hr. apply IH in Hr as [i ->].
    assert (∃ i, l2 = set_isr i l0) as [i2 ->]; [|by exists i].
    unfold isr_one in Hone. destruct (arr_get _ _); cbn in Hone; [|done]. destruct (isr_read _ _ _) as [[st x]|]; cbn in Hone; [|done].
    destruct (is_expanse l0 && _); [injection Hone as <- _; by eexists|]. destruct (negb _); [injection Hone as <- _; by eexists|].
    destruct x as [x|]; cbn in Hone; [|done]. destruct (if x >=? cap l0 then _ else _) as [[]|]; cbn in Hone; [..|done]; injection Hone as <- _; by eexists. }
  unfold lane_isr. destruct (isr_missed _ _ _); cbn [mbind option_bind]; [|done].
  destruct (isr_reads _ _ _ _ _) as [[l1 slot]|] eqn:Hr; cbn [mbind option_bind]; [|done]. apply Hreads in Hr as [i1 ->].
  destruct (isr_outcome _ _ _); cbn [mbind option_bind]; [|done]. intros [= <-]. by eexists.
Qed.

(** The rest of a turn that stays in its step. *)
Definition stay (t : turn) (p : step_t) (v : vars) : @DM S M unit :=
  ingest_turn cyc us t p (step v);;
  both (λ li, on_lane li (lane_churn cyc us (now t)));;
  sweep_turn cyc t p v;;
  draw_both (λ li d, draw_beat_columns li (lane_at d li) (now t));;
  stats_turn t p v;;
  second_turn t p v;;
  log_turn t p v.
Lemma calm_stay t p v : calm (stay t p v).
Proof.
  unfold stay. apply calm_bind; [apply calm_ingest|intros _]. apply calm_bind; [apply calm_both; intros li; calm|intros _].
  apply calm_bind; [apply calm_sweep|intros _]. apply calm_bind; [apply calm_draw_both|intros _].
  apply calm_bind; [apply calm_stats|intros _]. apply calm_bind; [apply calm_second|intros _]. apply calm_log.
Qed.
(** The step advances in this turn. *)
Definition moves_on (t : turn) d (p : step_t) : bool := advances t (var d) p && (step (var d) <? STEP_SUMMARY).
Lemma main_turn_unfold t d p :
  arr_get PROG (step (var d)) = Some p →
  main_turn cyc us t d =
    (set_var (set_btn (btn t));;
     if moves_on t d p then
       end_step (step (var d));; set_var (next_step (now t));; begin_step cyc us t (step (var d) +w 1)
     else if step (var d) =? STEP_SUMMARY then mret tt else stay t p (var d)) d.
Proof. intros Hp. unfold main_turn, get, ask. unfold mbind at 1 2, dm_bind at 1 2. rewrite Hp. reflexivity. Qed.
Lemma end_step_inv s d d' :
  end_step s d = Some (tt, d') →
  wa d' = wa d ∧ wb d' = wb d ∧ var d' = var d ∧
  (if (s =? 0) || (s >=? STEP_SUMMARY) then ledger d' = ledger d
   else arr_set (ledger d) s (ledger_row (lane_at d false) (lane_at d true)) = Some (ledger d')).
Proof.
  unfold end_step. destruct (_ || _); [by intros [= <-]|]. destruct (arr_set _ _ _) as [g|] eqn:Hg; cbn; [|done]. by intros [= <-].
Qed.
(** What a turn does to the program's state. *)
Lemma turn_effect t d d' p :
  small_ms d → 0 <= step (var d) <= STEP_SUMMARY → arr_get PROG (step (var d)) = Some p → main_turn cyc us t d = Some (tt, d') →
  small_ms d' ∧
  if moves_on t d p then
    step (var d') = step (var d) + 1 ∧ step_start (var d') = now t ∧
    (if step (var d) =? 0 then ledger d' = ledger d
     else arr_set (ledger d) (step (var d)) (ledger_row (lane_at d false) (lane_at d true)) = Some (ledger d')) ∧
    ∃ p', arr_get PROG (step (var d) + 1) = Some p' ∧ ∀ li, started t p' li (lane_at d li) (lane_at d' li)
  else view_of d' = view_of d.
Proof.
  intros Hs Hst Hp Ht. rewrite (main_turn_unfold t d p Hp) in Ht.
  apply bind_inv in Ht as ([] & d1 & Hd1 & Ht). injection Hd1 as Hd1.
  assert (view_of d1 = view_of d ∧ small_ms d1) as [Hv1 Hs1] by (subst d1; split; [reflexivity|exact Hs]).
  destruct (moves_on t d p) eqn:Hm.
  - unfold moves_on in Hm. apply andb_true_iff in Hm as [_ Hlt]. apply Z.ltb_lt in Hlt.
    apply bind_inv in Ht as ([] & d2 & (Ha & Hb & Hv & Hg)%end_step_inv & Ht). apply bind_inv in Ht as ([] & d3 & Hd3 & Ht). injection Hd3 as Hd3.
    assert (∀ li, lane_at d3 li = lane_at d li) as Hl.
    { intros li. subst d3. unfold lane_at. cbn [wa wb]. rewrite Ha, Hb. subst d1. reflexivity. }
    assert (small_ms d3) as Hs3 by (intros li; rewrite Hl; apply Hs).
    change STEP_SUMMARY with 8 in *. rewrite u32_small in Ht by (unfold is_u32; lia).
    apply begin_step_spec in Ht as (p' & Hp' & Hst' & Hss' & Hlg & Hsm & Hsta); [|exact Hs3].
    split; [exact Hsm|].
    assert (step (var d3) = step (var d) + 1 ∧ step_start (var d3) = now t ∧ ledger d3 = ledger d2) as (H3 & H3' & H3'').
    { subst d3. cbn [var step next_step step_start ledger]. rewrite Hv. subst d1. cbn [var set_btn step].
      rewrite u32_small by (unfold is_u32; lia). split_and!; reflexivity. }
    rewrite Hst', Hss', Hlg, H3, H3', H3''. split; [reflexivity|]. split; [reflexivity|]. split.
    + rewrite Z.geb_leb in Hg. rewrite (proj2 (Z.leb_gt _ _) Hlt), orb_false_r in Hg.
      assert (ledger d1 = ledger d ∧ lane_at d1 false = lane_at d false ∧ lane_at d1 true = lane_at d true) as (E1 & E2 & E3) by (subst d1; split_and!; reflexivity).
      rewrite E1, E2, E3 in Hg. exact Hg.
    + exists p'. split; [exact Hp'|]. intros li. specialize (Hsta li). rewrite Hl in Hsta. exact Hsta.
  - destruct (step (var d) =? STEP_SUMMARY).
    + injection Ht as <-. split; [exact Hs1|exact Hv1].
    + destruct (calm_stay _ _ _ _ _ _ Hs1 Ht) as [Hv2 Hs2]. split; [exact Hs2|]. rewrite Hv2. exact Hv1.
Qed.

(** [turn_effect] on the whole state. *)
Lemma program_ok_turn t d d' :
  program_ok d → main_turn cyc us t d = Some (tt, d') →
  program_ok d' ∧ step (var d) <= step (var d') ∧ ∀ j, j < step (var d) → arr_get (ledger d') j = arr_get (ledger d) j.
Proof.
  intros Hok Ht. pose proof Hok as [Hst Hlen Hfill Hmode Hgrow Hkind Hs]. change STEP_SUMMARY with 8 in Hst. change N_STEPS with 9 in Hlen.
  destruct (arr_get_is_Some PROG (step (var d))) as [p Hp]; [change (Z.of_nat (length PROG)) with 9; lia|].
  destruct (turn_effect t d d' p Hs Hst Hp Ht) as [Hs' He]. destruct (moves_on t d p) eqn:Hm.
  2: { split; [by eapply program_ok_view|]. unfold view_of in He. split; [|intros j _].
       - assert (step (var d') = step (var d)) as -> by congruence. lia.
       - f_equal. congruence. }
  unfold moves_on in Hm. apply andb_true_iff in Hm as [_ Hlt]. apply Z.ltb_lt in Hlt. change STEP_SUMMARY with 8 in Hlt.
  destruct He as (Hst' & _ & Hlg & p' & Hp' & Hsta).
  assert (∀ li, is_expanse (lane_at d' li) = negb li ∧ (li = true → mode (lane_at d' li) = p_mode p') ∧ growable (lane_at d' li) = growth p') as Hconf.
  { intros li. specialize (Hsta li). unfold started, cfg in Hsta. injection Hsta as -> -> -> _. rewrite Hkind. split_and!; [done| |done]. by intros ->. }
  assert (length (ledger d') = length (ledger d) ∧ (∀ j, j ≠ step (var d) → arr_get (ledger d') j = arr_get (ledger d) j) ∧
    ∀ r, arr_get (ledger d') (step (var d)) = Some r → filled r = bool_decide (step (var d) ≠ 0)) as (Hl' & Hrest & Hrow).
  { destruct (Z.eqb_spec (step (var d)) 0) as [H0'|H0'].
    - rewrite Hlg. split_and!; [done|done|]. intros r Hr. rewrite (Hfill _ _ Hr), !bool_decide_eq_false_2 by lia. done.
    - split_and!; [by eapply arr_set_length|intros j Hj; by eapply arr_get_set_ne|].
      intros r Hr. rewrite (arr_get_set_eq _ _ _ _ Hlg) in Hr. injection Hr as <-. cbn. by rewrite bool_decide_eq_true_2. }
  split; [|split; [lia|intros j Hj; apply Hrest; lia]]. constructor.
  - change STEP_SUMMARY with 8. lia.
  - change N_STEPS with 9. lia.
  - intros j r Hr. rewrite Hst'. destruct (decide (j = step (var d))) as [->|Hne].
    + rewrite (Hrow _ Hr). apply bool_decide_ext. lia.
    + rewrite Hrest in Hr by done. rewrite (Hfill _ _ Hr). apply bool_decide_ext. lia.
  - intros q Hq. rewrite Hst', Hp' in Hq. injection Hq as <-. by apply Hconf.
  - intros q li Hq. rewrite Hst', Hp' in Hq. injection Hq as <-. by apply Hconf.
  - intros li. apply Hconf.
  - exact Hs'.
Qed.
Lemma program_ok_irq li tim2 tick b0 b1 d d' :
  program_ok d → tim_irq li tim2 tick b0 b1 d = Some (tt, d') →
  program_ok d' ∧ step (var d') = step (var d) ∧ ledger d' = ledger d.
Proof.
  intros [Hst Hlen Hfill Hmode Hgrow Hkind Hs] Hi. unfold tim_irq in Hi. apply bind_inv in Hi as (d0 & d1 & Hd & Hi). injection Hd as <- <-.
  apply bind_inv in Hi as (l & d2 & Hl & Hi). unfold ask in Hl. destruct (lane_isr _ _ _ _ _ _) as [l'|] eqn:Hisr; [|done].
  cbn in Hl. injection Hl as <- <-. apply lane_isr_frame in Hisr as [i ->].
  apply on_lane_quiet in Hi as (Hl & Ho & Hg & Hv & _).
  assert (∀ li', ∃ i, lane_at d' li' = set_isr i (lane_at d li')) as Hall.
  { intros li'. destruct (decide (li' = li)) as [->|Hne]; [by exists i|]. exists (isr (lane_at d li')).
    replace li' with (negb li) by (by destruct li, li'). rewrite Ho. by destruct (lane_at d (negb li)). }
  split; [|by rewrite Hv, Hg]. constructor; rewrite ?Hv, ?Hg; try done.
  - intros p Hp. destruct (Hall true) as [i' ->]. cbn. eauto.
  - intros p li' Hp. destruct (Hall li') as [i' ->]. cbn. eauto.
  - intros li'. destruct (Hall li') as [i' ->]. cbn. eauto.
  - intros li'. destruct (Hall li') as [i' ->]. apply (Hs li').
Qed.

(** C29: in every interleaving of main-loop turns and timer interrupts, whatever
    the clock, the button and the allocator answer: the step stays a row of the
    program and never goes back, a step's ledger row is filled exactly when the
    step has ended (the prologue has none) and is never written again, and both
    lanes keep their kind, the growth setting and, for the hash lane, the masking
    mode of the current step. *)
Theorem demo_program d d' :
  program_ok d → rtc demo_step d d' →
  program_ok d' ∧ step (var d) <= step (var d') ∧ ∀ j, j < step (var d) → arr_get (ledger d') j = arr_get (ledger d) j.
Proof.
  intros Hok Hrtc. induction Hrtc as [d|d d1 d2 Hs _ IH]; [split_and!; [done|lia|done]|].
  assert (program_ok d1 ∧ step (var d) <= step (var d1) ∧ ∀ j, j < step (var d) → arr_get (ledger d1) j = arr_get (ledger d) j) as (Hok1 & Hle & Hj).
  { destruct Hs as [t d d1 Ht|li tim2 tick b0 b1 d d1 Hi]; [by eapply program_ok_turn|].
    destruct (program_ok_irq _ _ _ _ _ _ _ Hok Hi) as (? & Hst & Hl). rewrite Hst, Hl. split_and!; [done|lia|done]. }
  destruct (IH Hok1) as (Hok2 & Hle2 & Hj2). split; [done|]. split; [lia|]. intros j Hlt. rewrite Hj2 by lia. auto.
Qed.

(** A turn moves to the next step exactly when the button has just been
    pressed or the step's seconds are over, and never past the summary.  It then
    records the step that ended with both lanes' counters as they are, starts
    the next one's clock, and leaves both lanes configured for it, with zeroed
    counters and the reference time at the timer's next update.  Otherwise it
    leaves the step, its clock, the ledger, the configuration and the
    interrupts' instruments alone. *)
Theorem demo_turn t d d' p :
  program_ok d → arr_get PROG (step (var d)) = Some p → main_turn cyc us t d = Some (tt, d') →
  if (negb (btn t =? 0) && (btn_was (var d) =? 0) || negb (secs p =? 0) && (now t -w step_start (var d) >=? secs p * 1000))
     && (step (var d) <? 8)
  then
    step (var d') = step (var d) + 1 ∧ step_start (var d') = now t ∧
    (if step (var d) =? 0 then ledger d' = ledger d
     else arr_set (ledger d) (step (var d)) (ledger_row (lane_at d false) (lane_at d true)) = Some (ledger d')) ∧
    ∃ p', arr_get PROG (step (var d) + 1) = Some p' ∧ ∀ li, started t p' li (lane_at d li) (lane_at d' li)
  else
    step (var d') = step (var d) ∧ step_start (var d') = step_start (var d) ∧ ledger d' = ledger d ∧
    ∀ li, cfg (lane_at d' li) = cfg (lane_at d li).
Proof.
  intros Hok Hp Ht. destruct (turn_effect t d d' p (po_small _ Hok) (po_step _ Hok) Hp Ht) as [_ He].
  unfold moves_on, advances in He. rewrite (u32_small (secs p * 1000)) in He. 
  2: { revert Hp. apply (prog_forall (λ _ p, is_u32 (secs p * 1000))). unfold is_u32. repeat constructor; cbn; lia. }
  change STEP_SUMMARY with 8 in He. destruct (_ && (step (var d) <? 8)); [exact He|].
  unfold view_of in He. split_and!; try congruence. intros []; congruence.
Qed.
End Program.

(** ** A small demo *)
Definition turn_at (now btn : Z) : turn :=
  Turn now btn (λ _, (0, 0)) (λ _, [100]) (replicate 64 0) (λ _, 1000) (λ _, 400)
    (λ _, Rebuild (None, None, None) true (true, true, true)).
(** The static lanes, before any record is loaded. *)
Definition demo0 : @demo toy (gmap Z Z) :=
  let w li := World (lane_static li) true 0 (Acct 0 0) [] in
  Demo (w false) (w true) (Screen ∅ [] [0; 0]) ledger_zero (Vars 0 0 0 0 0 500 0 0) [].
Lemma demo0_ok : program_ok demo0.
Proof.
  constructor.
  - split; discriminate.
  - reflexivity.
  - intros j r Hr. apply arr_get_elem_of in Hr. cbn in Hr.
    rewrite bool_decide_eq_false_2 by (cbn; lia).
    assert (Forall (λ r, filled r = false) ledger_zero) as Hall by repeat constructor. rewrite Forall_forall in Hall. by apply Hall.
  - intros p [= <-]. reflexivity.
  - intros p li [= <-]. by destruct li.
  - by intros [].
  - intros []; unfold rehash_small; cbn; repeat constructor; lia.
Qed.
Definition tiny_cyc (n : nat) : Z := Z.of_nat n.
Lemma demo_program_witness :
  ∃ d', main_turn tiny_cyc (0, 0) (turn_at 10 0) demo0 = Some (tt, d') ∧ program_ok d' ∧ 0 <= step (var d').
Proof.
  destruct (main_turn tiny_cyc (0, 0) (turn_at 10 0) demo0) as [[[] d']|] eqn:Ht; [|exfalso; vm_compute in Ht; discriminate].
  exists d'. split; [reflexivity|].
  destruct (demo_program tiny_cyc (0, 0) demo0 d' demo0_ok) as (Hok & Hle & _); [|split; [exact Hok|exact Hle]].
  apply rtc_once. eapply step_turn. exact Ht.
Defined.
