(* ===== verification/DemoRun.v ===== *)
(** * The demo's turns complete

    A turn of the main loop of
    [src/integrations/stm32h747/demo/CM7/Core/Src/main.c] on lanes whose
    invariant holds runs to its end: the lane operations of [LaneTheorems], the
    drawing of [DemoLayout] and the heartbeat of [DemoBeat] put together. *)
From Stdlib Require Import String Ascii.
From stdpp Require Import base numbers list gmap.
From S2P Require Import Prelude SortedAssoc Fonts Gfx ExpanseApi Sync32 Alts OpenHash Lanes LanesProofs LaneFill LaneIsr LaneTheorems LaneFrame HarnessOut DemoScreen DemoLayout DemoBeat DemoMain DemoProgram.
Open Scope Z_scope.
Abbreviation length := List.length.

Section Run.
  Context {S M : Type} `{Sync32Laws S} `{ExpanseMapLaws M}.
  Context (cyc : nat → Z) (us : Z * Z) (B : Z).
  (** Whether the current step lets the tables grow. *)
  Context (g : bool).
  Hypothesis arena_holds : ∀ (s : S) k v,
    Z.of_nat (size (contents s)) < B → (sync32_try_insert s k v).1 ≠ EXPANSE_SYNC32_ARENA_FULL.
  Abbreviation lane := (@lane S M).
  Abbreviation world := (@world S M).
  Abbreviation demo := (@demo S M).
Implicit Types (d : demo) (l : lane) (w : world).

(** ** States from which a turn runs *)
(** A lane that works, with room for [n] more insertions. *)
Record lane_st (li : bool) (n : nat) w : Prop := {
  st_inv : ∃ tbl own, lane_inv N_TRACKED B n (lane_of w) tbl own;
  st_on : irq_on w = true;
  st_points : Forall (good_point N_TRACKED) (points w);
  st_kind : is_expanse (lane_of w) = negb li;
  st_growable : growable (lane_of w) = g;
  st_small : rehash_small (lane_of w);
  st_ring : Z.of_nat (length (ring (isr (lane_of w)))) = RING_LEN;
}.
Definition bands_ok (s : screen) : Prop := length (band_next s) = 2%nat ∧ Forall (λ t, 0 <= t < 2 ^ 31) (band_next s).
Definition world_at d (li : bool) : world := if li then wb d else wa d.
Record ready (n : bool → nat) d : Prop := {
  rd_lane li : lane_st li (n li) (world_at d li);
  rd_bands : bands_ok (scr d);
}.
Lemma ready_rehash n d li : ready n d → rehash_ok (lane_at d li).
Proof.
  intros Hr. destruct (rd_lane _ _ Hr li) as [(tbl & own & Hi) _ _ _ _ Hs _]. destruct (li_loop _ _ _ _ _ _ Hi) as [_ Hms _ Hn].
  by constructor.
Qed.
Lemma ready_ext n n' d : (∀ li, n li = n' li) → ready n d → ready n' d.
Proof. intros Hn [Hl Hb]. constructor; [|done]. intros li. rewrite <- Hn. apply Hl. Qed.
Lemma lane_st_le m n li w : lane_st li (m + n) w → lane_st li n w.
Proof. intros [(tbl & own & Hi) ? ? ? ? ? ?]. constructor; try done. exists tbl, own. by eapply lane_inv_le. Qed.

(** [m] runs from any ready state, and uses up the room from [n] to [n']. *)
Definition total (n : bool → nat) {A} (m : DM A) (n' : bool → nat) : Prop :=
  ∀ d, ready n d → ∃ x d', m d = Some (x, d') ∧ ready n' d'.
Lemma total_ret n {A} (x : A) : total n (mret x) n.
Proof. intros d Hd. by exists x, d. Qed.
Lemma total_bind n n1 n2 {A C} (m : DM A) (k : A → DM C) :
  total n m n1 → (∀ x, total n1 (k x) n2) → total n (m ≫= k) n2.
Proof.
  intros Hm Hk d Hd. destruct (Hm d Hd) as (x & d1 & H1 & Hd1). destruct (Hk x d1 Hd1) as (y & d2 & H2 & Hd2).
  exists y, d2. split; [|done]. unfold mbind, dm_bind. by rewrite H1.
Qed.
(** The state read by [get] is ready. *)
Lemma total_get n n' {A} (k : demo → DM A) :
  (∀ d0, ready n d0 → ∃ x d', k d0 d0 = Some (x, d') ∧ ready n' d') → total n (get ≫= k) n'.
Proof. intros Hk d Hd. exact (Hk d Hd). Qed.
Lemma total_ask n n' {A C} (x : A) (k : A → DM C) : total n (k x) n' → total n (ask (Some x) ≫= k) n'.
Proof. intros Hk. exact Hk. Qed.
Lemma total_var n f : total n (set_var f) n.
Proof. intros d [Hl Hb]. eexists tt, _. split; [reflexivity|]. by constructor. Qed.
Lemma total_printf n s : total n (printf s) n.
Proof. intros d [Hl Hb]. eexists tt, _. split; [reflexivity|]. by constructor. Qed.
Lemma total_when n (b : bool) (m : DM unit) : (b = true → total n m n) → total n (if b then m else mret tt) n.
Proof. destruct b; [auto|]. intros _. apply total_ret. Qed.

(** ** Drawing *)
Definition fine {A} (m : DR A) : Prop := ∀ s, bands_ok s → ∃ x s', m s = Some (x, s') ∧ bands_ok s'.
Lemma fine_draws box F {A} (m : DR A) Q : draws box F m Q → fine m.
Proof.
  intros Hm s Hs. destruct (Hm s) as (x & s' & He & _ & _ & Hb & _). exists x, s'. split; [done|]. unfold bands_ok. by rewrite Hb.
Qed.
Lemma fine_reset : fine reset_bands.
Proof.
  intros s [Hl Hb]. unfold reset_bands. destruct (band_next s) as [|a [|b [|]]]; try done. cbn. eexists tt, _. split; [reflexivity|].
  split; [done|]. repeat constructor; done.
Qed.
Lemma fine_beat li l now :
  0 <= now < 2 ^ 31 → Z.of_nat (length (ring (isr l))) = RING_LEN → fine (draw_beat_columns li l now).
Proof.
  intros Hnow Hring s [Hl Hb]. destruct (lookup_lt_is_Some_2 (band_next s) (band_ix li)) as [t Ht]; [rewrite Hl; destruct li; cbn; lia|].
  assert (0 <= t < 2 ^ 31) as Htr by (rewrite Forall_forall in Hb; eapply Hb, list_elem_of_lookup_2, Ht).
  destruct (beat_columns_spec li l now s t Hnow Hring Hl Ht Htr) as (t1 & s' & He & _ & Hb' & Hlo & Hhi & _).
  exists tt, s'. split; [exact He|]. unfold bands_ok. rewrite Hb', length_insert. split; [done|].
  apply Forall_insert; [done|]. destruct (Z.eqb_spec t 0); lia.
Qed.
Lemma total_draw n {A} (m : DR A) : fine m → total n (draw m) n.
Proof.
  intros Hm d [Hl Hb]. destruct (Hm _ Hb) as (x & s' & He & Hs). unfold draw. rewrite He. cbn. eexists x, _. split; [reflexivity|]. by constructor.
Qed.
Lemma total_both n f : (∀ li, total n (f li) n) → total n (both f) n.
Proof. intros Hf. unfold both. eapply total_bind; [apply Hf|intros _; apply Hf]. Qed.
Lemma total_draw_both n f : (∀ li d, ready n d → fine (f li d)) → total n (draw_both f) n.
Proof. intros Hf. apply total_both. intros li. apply total_get. intros d0 Hd. by apply (total_draw n (f li d0) (Hf li d0 Hd) d0). Qed.

(** ** Lane operations *)
Definition spend (n : bool → nat) (li : bool) (k : nat) : bool → nat := λ x, if Bool.eqb x li then k else n x.
Lemma share_st li n w w' : lane_st li n w' → lane_st li n (share w w').
Proof. intros [? ? ? ? ? ? ?]. by constructor. Qed.
Lemma total_lane n k li {A} (m : @ST S M A) :
  (∀ c, keeps (steady c) m (λ _, True)) →
  (∀ d tbl own, ready n d → lane_inv N_TRACKED B (n li) (lane_at d li) tbl own →
     tri N_TRACKED (lane_at d li) true m (inv_post N_TRACKED B k (lane_at d li))) →
  total n (on_lane li m) (spend n li k).
Proof.
  intros Hk Hm d Hd. pose proof Hd as [Hl Hb]. destruct (Hl li) as [(tbl & own & Hi) Hon Hp He Hgr Hs Hr].
  destruct (Hm d tbl own Hd Hi (world_at d li)) as (x & w' & l' & on' & Hrun & (Hl' & Hon' & Hp') & Honp & He' & Hinv); [by split_and!|].
  destruct (Hk (cfg (lane_of (world_at d li))) _ _ _ (conj eq_refl Hs) Hrun) as [[Hc Hs'] _].
  assert (lane_st li k w') as Hst.
  { subst l'. unfold cfg in Hc. injection Hc as _ _ Hcg Hci. constructor; [done|by rewrite Hon'|done| | |done|].
    - rewrite He'. exact He.
    - rewrite Hcg. exact Hgr.
    - rewrite Hci. exact Hr. }
  unfold on_lane, world_at in *. destruct li; rewrite Hrun; cbn; eexists x, _; (split; [reflexivity|]); (constructor; [|done]).
  - intros []; unfold spend, world_at; cbn [Bool.eqb wa wb]; [exact Hst|apply share_st, (Hl false)].
  - intros []; unfold spend, world_at; cbn [Bool.eqb wa wb]; [apply share_st, (Hl true)|exact Hst].
Qed.

Definition clock_ok (now : Z) : Prop := 0 <= now < 2 ^ 31.
Lemma sweep_clock now : clock_ok now → now +w TTL_MS +w 1000 < TRACK_BORN + TTL_MS.
Proof. unfold clock_ok, TTL_MS, TRACK_BORN. intros Hn. rewrite (u32_small (now + 60000)), u32_small by word_lia. lia. Qed.
Lemma total_op n k li o :
  (∀ l, op_ok l o) → n li = (op_cost o + k)%nat → (∀ c, keeps (steady c) (run_op cyc us o) (λ _, True)) →
  total n (on_lane li (run_op cyc us o)) (spend n li k).
Proof.
  intros Ho Hn Hk. apply total_lane; [exact Hk|]. intros d tbl own _ Hi. rewrite Hn in Hi.
  by eapply (tri_run_op cyc us B arena_holds k (lane_at d li) tbl own o).
Qed.
Lemma total_ingest n k li now rate capr :
  n li = (256 + k)%nat → total n (on_lane li (lane_ingest cyc us now rate capr)) (spend n li k).
Proof. intros Hn. apply (total_op n k li (OpIngest now rate capr)); [done|done|]. intros c. apply k_lane_ingest. Qed.
Lemma total_churn n k li now : n li = (1 + k)%nat → total n (on_lane li (lane_churn cyc us now)) (spend n li k).
Proof. intros Hn. apply (total_op n k li (OpChurn now)); [done|done|]. intros c. apply k_lane_churn. Qed.
Lemma total_sweep n li now i0 i1 : clock_ok now → total n (on_lane li (lane_sweep cyc now i0 i1)) n.
Proof.
  intros Hn d Hd. destruct (total_op n (n li) li (OpSweep now i0 i1)) with (d := d) as (x & d' & He & Hr).
  - intros l _. by apply sweep_clock.
  - done.
  - intros c. apply k_lane_sweep.
  - done.
  - exists x, d'. split; [exact He|]. eapply ready_ext; [|exact Hr]. intros x'. unfold spend. destruct (Bool.eqb x' li) eqn:E; [|done].
    apply Bool.eqb_prop in E as ->. done.
Qed.

(** ** The scoreboard *)
Lemma sample_ids_total tries l probe ids :
  0 < cap l → Z.of_nat (length (slab l)) = cap l → is_Some (sample_ids tries l probe ids).
Proof.
  intros Hc Hs. revert probe ids. induction tries as [|tries IH]; intros probe ids; cbn [sample_ids]; [by eexists|].
  destruct (_ <? 64); [|by eexists].
  destruct (arr_get_is_Some (slab l) ((probe *w 1664525 +w 1013904223) mod cap l)) as [r ->]; [|apply IH].
  rewrite Hs. apply Z.mod_pos_bound. exact Hc.
Qed.
Lemma index_bytes_total n l tbl own : lane_inv N_TRACKED B n l tbl own → is_Some (lane_index_bytes l).
Proof.
  intros Hi. unfold lane_index_bytes. pose proof (li_table _ _ _ _ _ _ Hi) as Ht. pose proof (li_owned _ _ _ _ _ _ Hi) as Ho.
  unfold table, owned_by in *. destruct (is_expanse l).
  - destruct Ht as (s & -> & _), Ho as (bt & -> & _). by eexists.
  - destruct Ht as (h & -> & _). by eexists.
Qed.
#[local] Opaque sample_ids.
Lemma lookup_ns_total n l tbl own bs : lane_inv N_TRACKED B n l tbl own → is_Some (lane_lookup_ns l bs).
Proof.
  intros Hi. pose proof (li_slots _ _ _ _ _ _ Hi) as Hs. unfold lane_lookup_ns.
  destruct (sample_ids_total 4096 l (Z.lxor (rng l) 2779096485) []) as [ids ->]; [apply Hs|apply Hs|]. cbn [mbind option_bind].
  destruct (_ <? 8); by eexists.
Qed.
Lemma bind2_total {A} (o1 o2 : option Z) (f : Z → Z → A) : is_Some o1 → is_Some o2 → is_Some (b ← o1; n ← o2; Some (f b n)).
Proof. intros [x ->] [y ->]. by eexists. Qed.
Lemma measure_total n l tbl own bs : lane_inv N_TRACKED B n l tbl own → is_Some (lane_measure_scoreboard bs l).
Proof. intros Hi. apply bind2_total; [by eapply index_bytes_total|by eapply lookup_ns_total]. Qed.
Lemma lane_inv_score n l tbl own x y :
  lane_inv N_TRACKED B n l tbl own → lane_inv N_TRACKED B n (on_loop (λ p, set_lookup_ns y (set_index_bytes x p)) l) tbl own.
Proof. intros [Hs Ht Htb Ho Hr Hl Hm Hu Hd]. constructor; try done; [by destruct Hs|by destruct Hl]. Qed.
Lemma total_score n t li : total n (on_lane li (scoreboard t li)) n.
Proof.
  intros d Hd. destruct (total_lane n (n li) li (scoreboard t li)) with (d := d) as (x & d' & He & Hr).
  - intros c. apply k_scoreboard.
  - intros d0 tbl own _ Hi. unfold scoreboard. apply tri_bind. intros w Hw. eexists _, w, _, _. split; [reflexivity|]. split; [exact Hw|].
    destruct Hw as (-> & _ & _). destruct (measure_total _ _ _ _ (batches t li) Hi) as [l' Hl'].
    pose proof (measured _ _ _ Hl') as (a & b & Hab). apply tri_bind. rewrite Hl'. intros w1 Hw1. eexists l', w1, _, _. split; [reflexivity|]. split; [exact Hw1|].
    assert (lane_inv N_TRACKED B (n li) l' tbl own) as Hi' by (rewrite Hab; by apply lane_inv_score).
    apply tri_upd; [intros _; by eapply (li_good N_TRACKED N_TRACKED)|]. split; [done|]. split; [by rewrite Hab|]. by exists tbl, own.
  - done.
  - exists x, d'. split; [exact He|]. eapply ready_ext; [|exact Hr]. intros x'. unfold spend. destruct (Bool.eqb x' li) eqn:E; [|done].
    apply Bool.eqb_prop in E as ->. done.
Qed.

(** ** The parts of a turn *)
Section Turn.
  Context (t : turn) (s : Z) (p : step_t).
  Hypothesis Hrow : arr_get PROG s = Some p.
  Hypothesis Hclock : clock_ok (now t).
  Hypothesis Hjunk : length (junk t) = 64%nat.
Lemma row_hz : 0 <= hz p <= 10.
Proof. pose proof (strip_rows _ _ Hrow) as Hok. unfold strip_row_okb in Hok. bool_facts. lia. Qed.
Lemma fine_head n d li : ready n d → fine (draw_head li (lane_at d li) p (junk t)).
Proof. intros Hd. eapply fine_draws, draw_head_in; [by eapply ready_rehash|done]. Qed.
Lemma fine_frame d li : fine (draw_beat_frame li (lane_at d li) p).
Proof. eapply (fine_draws _ True), draw_beat_frame_in. Qed.
Lemma fine_nums d li : fine (draw_nums li (lane_at d li)).
Proof. eapply fine_draws, (draw_nums_in li _ p). Qed.
Lemma fine_sweep d li : fine (draw_sweep li (lane_at d li) p).
Proof. eapply fine_draws, draw_sweep_in, row_hz. Qed.
Lemma fine_score d li : fine (draw_score li (lane_at d li) (lane_at d (negb li))).
Proof. eapply fine_draws, (draw_score_in li _ _ p). Qed.
Lemma fine_strip since records : 0 <= since → fine (draw_strip s since records).
Proof. intros Hs. eapply fine_draws. by eapply draw_strip_in. Qed.

Lemma total_ingest_turn n :
  (∀ li, n li = (256 + (n li - 256))%nat) → total n (ingest_turn cyc us t p s) (λ li, n li - 256)%nat.
Proof.
  intros Hn. assert (∀ rate capr, total n (on_lane false (lane_ingest cyc us (now t) rate capr);; on_lane true (lane_ingest cyc us (now t) rate capr))
    (λ li, n li - 256)%nat) as Hboth.
  { intros rate capr d Hd.
    destruct (total_bind n (spend n false (n false - 256)) (spend (spend n false (n false - 256)) true (n true - 256))
      (on_lane false (lane_ingest cyc us (now t) rate capr)) (λ _, on_lane true (lane_ingest cyc us (now t) rate capr))) with (d := d)
      as (x & d' & He & Hr).
    - apply total_ingest, Hn.
    - intros _. apply total_ingest, (Hn true).
    - done.
    - exists x, d'. split; [exact He|]. eapply ready_ext; [|exact Hr]. by intros []. }
  unfold ingest_turn. destruct (growth p); [apply Hboth|]. destruct (s >? 0); [apply Hboth|].
  intros d [Hl Hb]. exists tt, d. split; [reflexivity|]. constructor; [|done]. intros li. apply (lane_st_le 256). rewrite <- Hn. apply Hl.
Qed.
Lemma total_churn_turn n k : (∀ li, n li = Datatypes.S k) → total n (both (λ li, on_lane li (lane_churn cyc us (now t)))) (λ _, k).
Proof.
  intros Hn d Hd. destruct (total_bind n (spend n false k) (spend (spend n false k) true k)
      (on_lane false (lane_churn cyc us (now t))) (λ _, on_lane true (lane_churn cyc us (now t)))) with (d := d) as (x & d' & He & Hr).
  - apply total_churn. apply Hn.
  - intros _. apply total_churn. apply (Hn true).
  - done.
  - exists x, d'. split; [exact He|]. eapply ready_ext; [|exact Hr]. by intros [].
Qed.
Lemma total_sweep_turn n v : total n (sweep_turn cyc t p v) n.
Proof.
  unfold sweep_turn. apply total_when. intros _. eapply total_bind; [apply total_var|intros _].
  eapply total_bind; [apply total_both; intros li; by apply total_sweep|intros _]. apply total_draw_both. intros li d _. apply fine_sweep.
Qed.
Lemma total_beat_turn n : total n (draw_both (λ li d, draw_beat_columns li (lane_at d li) (now t))) n.
Proof. apply total_draw_both. intros li d Hd. apply fine_beat; [exact Hclock|]. apply (st_ring _ _ _ (rd_lane _ _ Hd li)). Qed.
Lemma total_stats_turn n v : total n (stats_turn t p v) n.
Proof.
  unfold stats_turn. apply total_when. intros _. eapply total_bind; [apply total_var|intros _].
  eapply total_bind; [apply total_both; intros li; apply total_score|intros _].
  eapply total_bind; [apply total_draw_both; intros li d _; apply fine_nums|intros _].
  eapply total_bind; [apply total_draw_both; intros li d _; apply fine_score|intros _].
  apply total_when. intros _. apply total_get. intros d Hd. by apply (total_draw n _ (fine_head n d true Hd) d).
Qed.
Lemma total_second_turn n v : step v = s → total n (second_turn t p v) n.
Proof.
  intros Hs. unfold second_turn. cbv zeta. apply total_when. intros _. eapply total_bind; [apply total_var|intros _].
  apply total_get. intros d Hd. refine (total_bind n n n _ _ _ _ d Hd).
  - apply total_draw. rewrite Hs. apply fine_strip. apply u32_range.
  - intros _. apply total_when. intros _. eapply total_bind; [apply total_draw_both; intros li d' _; apply fine_frame|intros _].
    apply total_draw, fine_reset.
Qed.
Lemma total_log_turn n v : total n (log_turn t p v) n.
Proof.
  unfold log_turn. apply total_when. intros _. eapply total_bind; [apply total_var|intros _]. apply total_get. intros d Hd.
  by apply (total_printf n _ d).
Qed.
Lemma total_stay k v : step v = s → total (λ _, 257 + k)%nat (stay cyc us t p v) (λ _, k).
Proof.
  intros Hs. unfold stay. rewrite Hs.
  eapply total_bind; [apply total_ingest_turn; intros li; lia|intros _].
  eapply total_bind; [apply (total_churn_turn _ k); intros li; lia|intros _].
  eapply total_bind; [apply total_sweep_turn|intros _]. eapply total_bind; [apply total_beat_turn|intros _].
  eapply total_bind; [apply total_stats_turn|intros _]. eapply total_bind; [by apply total_second_turn|intros _]. apply total_log_turn.
Qed.
End Turn.

(** ** The start of a step *)
(** A write to a lane that keeps what a turn relies on. *)
Definition gentle (li : bool) (f : lane → lane) : Prop :=
  ∀ n l tbl own, is_expanse l = negb li → growable l = g → lane_inv N_TRACKED B n l tbl own → lane_inv N_TRACKED B n (f l) tbl own ∧
    is_expanse (f l) = is_expanse l ∧ growable (f l) = growable l ∧ (rehash_small l → rehash_small (f l)) ∧
    length (ring (isr (f l))) = length (ring (isr l)).
Lemma gentle_st li n f w pts :
  gentle li f → lane_st li n w → (pts = points w ∨ pts = (false, f (lane_of w)) :: points w) →
  lane_st li n (World (f (lane_of w)) (irq_on w) (reads w) (heap_acct w) pts).
Proof.
  intros Hf [(tbl & own & Hi) Hon Hp He Hgr Hs Hr] Hpts. destruct (Hf n _ tbl own He Hgr Hi) as (Hi' & He' & Hg' & Hs' & Hr').
  constructor; cbn [lane_of irq_on points]; [by exists tbl, own|done| |by rewrite He'|by rewrite Hg'|by apply Hs'|by rewrite Hr'].
  destruct Hpts as [->| ->]; [done|]. constructor; [|done]. split; [by right|]. by eapply (li_good N_TRACKED N_TRACKED).
Qed.
Lemma total_write n li f (m : @ST S M unit) :
  gentle li f → (m = upd f ∨ m = quiet f) → total n (on_lane li m) n.
Proof.
  intros Hf Hm d [Hl Hb].
  assert (∃ w', m (world_at d li) = Some (tt, w') ∧ lane_st li (n li) w') as (w' & Hw' & Hst).
  { destruct Hm as [->| ->]; eexists; (split; [reflexivity|]).
    - unfold log. cbn [irq_on]. rewrite (st_on _ _ _ (Hl li)). cbn [lane_of reads heap_acct points].
      pose proof (gentle_st li (n li) f _ _ Hf (Hl li) (or_intror eq_refl)) as Hg. rewrite (st_on _ _ _ (Hl li)) in Hg. exact Hg.
    - exact (gentle_st li (n li) f _ _ Hf (Hl li) (or_introl eq_refl)). }
  unfold on_lane, world_at in *. destruct li; rewrite Hw'; cbn; eexists tt, _; (split; [reflexivity|]); (constructor; [|done]).
  - intros []; unfold world_at; cbn [wa wb]; [exact Hst|apply share_st, (Hl false)].
  - intros []; unfold world_at; cbn [wa wb]; [apply share_st, (Hl true)|exact Hst].
Qed.
Lemma gentle_mode md : md = HASH_MASK_WHOLE ∨ md = HASH_MASK_PER_WRITE → gentle true (set_mode md).
Proof.
  intros Hmd n l tbl own He _ [Hs Ht Htb Ho Hr Hl Hm Hu Hd]. split; [|split_and!; done].
  constructor; try done; [by destruct Hs|]. right. exact Hmd.
Qed.
Lemma gentle_growable li : gentle li (set_growable g).
Proof. intros n l tbl own _ Hg Hi. assert (set_growable g l = l) as -> by (rewrite <- Hg; by destruct l). split_and!; done. Qed.
Lemma gentle_reset li : gentle li lane_step_reset.
Proof.
  intros n l tbl own _ _ [Hs Ht Htb Ho Hr Hl Hm Hu Hd]. split; [|split_and!; done].
  constructor; try done; [by destruct Hs|]. destruct Hl. by constructor.
Qed.
Lemma gentle_rearm li e : gentle li (on_isr (set_expected_cnt e)).
Proof. intros n l tbl own _ _ Hi. split; [eapply lane_inv_conv; [..|exact Hi]; done|split_and!; done]. Qed.

Lemma total_draw_lane n t s p li :
  arr_get PROG s = Some p → length (junk t) = 64%nat → total n (draw_lane t p li) n.
Proof.
  intros Hp Hj. unfold draw_lane. apply total_get. intros d Hd. cbv zeta. refine (total_bind n n n _ _ _ _ d Hd).
  { apply total_draw. by eapply fine_head. }
  intros _. eapply total_bind; [apply total_draw, fine_frame|intros _]. eapply total_bind; [apply total_draw, fine_nums; exact p|intros _].
  eapply total_bind; [apply total_draw; by eapply fine_sweep|intros _]. apply total_draw, fine_score; exact p.
Qed.
Lemma total_show n t s p :
  arr_get PROG s = Some p → s ≠ STEP_SUMMARY → length (junk t) = 64%nat → total n (show_step t s p) n.
Proof.
  intros Hp Hs Hj. unfold show_step. eapply total_bind.
  { apply total_draw, (fine_draws (0, 0, LCD_W, LCD_H) True _ (λ _, True)), draws_fill; unfold small, LCD_W, LCD_H; lia. }
  intros _. apply total_get. intros d Hd. refine (total_bind n n n _ _ _ _ d Hd).
  { apply total_draw. eapply fine_strip; [exact Hp|lia]. }
  intros _. rewrite (proj2 (Z.eqb_neq _ _) Hs). eapply total_bind.
  { eapply total_bind; [by eapply total_draw_lane|intros _; by eapply total_draw_lane]. }
  intros _. eapply total_bind; [apply total_draw, (fine_draws (0, FOOT_Y, LCD_W, FOOT_H) True _ (λ _, True)), draw_foot_in|intros _].
  eapply total_bind; [apply total_draw, fine_reset|intros _]. apply total_printf.
Qed.
Lemma total_begin n t s p :
  arr_get PROG s = Some p → s ≠ STEP_SUMMARY → length (junk t) = 64%nat → g = false → growth p = false →
  p_mode p = HASH_MASK_WHOLE ∨ p_mode p = HASH_MASK_PER_WRITE → total n (begin_step cyc us t s) n.
Proof.
  intros Hp Hs Hj Hg Hgp Hmd. unfold begin_step. rewrite Hp. rewrite <- Hg in Hgp.
  apply total_ask.
  eapply total_bind; [apply (total_write _ _ (set_mode (p_mode p))); [by apply gentle_mode|by left]|intros _]. rewrite Hgp.
  eapply total_bind; [apply (total_write _ _ (set_growable g)); [apply gentle_growable|by left]|intros _].
  eapply total_bind; [apply (total_write _ _ (set_growable g)); [apply gentle_growable|by left]|intros _].
  rewrite Hg at 1. eapply total_bind; [apply total_ret|intros _].
  eapply total_bind; [apply (total_write _ _ lane_step_reset); [apply gentle_reset|by right]|intros _].
  eapply total_bind; [apply (total_write _ _ lane_step_reset); [apply gentle_reset|by right]|intros _].
  eapply total_bind; [eapply total_write; [apply gentle_rearm|by right]|intros _].
  eapply total_bind; [eapply total_write; [apply gentle_rearm|by right]|intros _]. by apply total_show.
Qed.

(** One turn that stays, or moves to a step without growth under a mask. *)
Lemma turn_total k t d p :
  arr_get PROG (step (var d)) = Some p → 0 <= step (var d) < 8 → clock_ok (now t) → length (junk t) = 64%nat →
  ready (λ _, 257 + k)%nat d →
  (moves_on t d p = true → ∃ p', arr_get PROG (step (var d) + 1) = Some p' ∧ step (var d) + 1 < 8 ∧ g = false ∧ growth p' = false ∧
     (p_mode p' = HASH_MASK_WHOLE ∨ p_mode p' = HASH_MASK_PER_WRITE) ∧ Z.of_nat (length (ledger d)) = N_STEPS) →
  ∃ d', main_turn cyc us t d = Some (tt, d') ∧ ready (λ _, k) d'.
Proof.
  intros Hp Hst Hc Hj Hr Hmove. rewrite (main_turn_unfold cyc us t d p Hp). set (st := step (var d)) in *. set (v0 := var d) in *.
  destruct (moves_on t d p) eqn:Hm.
  - destruct (Hmove eq_refl) as (p' & Hp' & Hlt & Hg & Hgp & Hmd & Hlen).
    assert (∀ d1, ready (λ _, 257 + k)%nat d1 → ledger d1 = ledger d →
      ∃ d', (end_step st;; set_var (next_step (now t));; begin_step cyc us t (st +w 1)) d1 = Some (tt, d') ∧ ready (λ _, k) d') as Hgo.
    { intros d1 Hd1 Hl1. rewrite u32_small by (unfold is_u32; lia).
      assert (∃ d2, end_step st d1 = Some (tt, d2) ∧ ready (λ _, 257 + k)%nat d2) as (d2 & He2 & Hd2).
      { unfold end_step. destruct (_ || _); [by exists d1|]. rewrite Hl1. destruct (arr_set (ledger d) st _) as [gg|] eqn:Hg2.
        - eexists. split; [reflexivity|]. destruct Hd1 as [Hl Hb]. by constructor.
        - exfalso. rewrite arr_set_Some in Hg2; [done|]. rewrite Hlen. change N_STEPS with 9. lia. }
      destruct (total_bind _ _ _ _ _ (total_var (λ _, 257 + k)%nat (next_step (now t)))
        (λ _, total_begin (λ _, 257 + k)%nat t (st + 1) p' Hp' ltac:(change STEP_SUMMARY with 8; lia) Hj Hg Hgp Hmd) d2 Hd2) as ([] & d3 & He3 & Hd3).
      exists d3. split; [unfold mbind at 1, dm_bind at 1; rewrite He2; exact He3|]. destruct Hd3 as [Hl Hb]. constructor; [|done].
      intros li. apply (lane_st_le 257), Hl. }
    apply Hgo; [|reflexivity]. destruct Hr as [Hl Hb]. by constructor.
  - rewrite (proj2 (Z.eqb_neq st STEP_SUMMARY)) by (change STEP_SUMMARY with 8; lia).
    destruct (total_bind _ _ _ _ _ (total_var (λ _, 257 + k)%nat (set_btn (btn t)))
      (λ _, total_stay t st p Hp Hc Hj k v0 eq_refl) d Hr) as ([] & d' & He & Hd'). exists d'. split; [exact He|exact Hd'].
Qed.
End Run.

(** ** A run *)
Section Schedule.
  Context {S M : Type} `{Sync32Laws S} `{ExpanseMapLaws M}.
  Context (cyc : nat → Z) (us : Z * Z) (B : Z).
  Hypothesis arena_holds : ∀ (s : S) k v,
    Z.of_nat (size (contents s)) < B → (sync32_try_insert s k v).1 ≠ EXPANSE_SYNC32_ARENA_FULL.
  Abbreviation demo := (@demo S M).
Implicit Types d : demo.
Fixpoint run_turns (ts : list turn) : @DM S M unit :=
  match ts with [] => mret tt | t :: ts => main_turn cyc us t;; run_turns ts end.
(** The milliseconds of the steps before [s]. *)
Definition schedule (s : Z) : Z := 1000 * foldr (λ p a, secs p + a) 0 (take (Z.to_nat s) PROG).
(** Turns of a rising clock between two times, without the button. *)
Fixpoint quiet_turns (lo hi : Z) (ts : list turn) : Prop :=
  match ts with
  | [] => True
  | t :: ts => lo <= now t < hi ∧ btn t = 0 ∧ length (junk t) = 64%nat ∧ quiet_turns (now t) hi ts
  end.
Lemma early_step s p :
  0 <= s <= 4 → arr_get PROG s = Some p →
  secs p * 1000 = schedule (s + 1) - schedule s ∧ 0 < secs p <= 20 ∧
  (s < 4 → ∃ p', arr_get PROG (s + 1) = Some p' ∧ growth p' = false ∧ (p_mode p' = HASH_MASK_WHOLE ∨ p_mode p' = HASH_MASK_PER_WRITE)).
Proof.
  intros Hs Hp. assert (s = 0 ∨ s = 1 ∨ s = 2 ∨ s = 3 ∨ s = 4) as Hc by lia.
  destruct Hc as [->|[->|[->|[->| ->]]]]; injection Hp as <-; (split; [reflexivity|]); (split; [cbn; lia|]); intros Hlt; try lia.
  all: eexists; (split; [reflexivity|]); (split; [reflexivity|]); auto.
Qed.
Lemma run_schedule ts n d T lo :
  program_ok d → ready B false (λ _, 257 * length ts + n)%nat d → step (var d) <= 4 → T + schedule 5 <= 2 ^ 31 → 0 <= T →
  T + schedule (step (var d)) <= step_start (var d) <= lo → quiet_turns lo (T + schedule 5) ts →
  ∃ d', run_turns ts d = Some (tt, d') ∧ program_ok d' ∧ ready B false (λ _, n) d' ∧ step (var d') <= 4 ∧
    T + schedule (step (var d')) <= step_start (var d').
Proof.
  revert d lo. induction ts as [|t ts IH]; intros d lo Hok Hr Hst HT HT0 Hss Hq; cbn [run_turns].
  { exists d. split; [reflexivity|]. split_and!; try done. lia. }
  destruct Hq as (Hnow & Hbtn & Hj & Hq). pose proof (po_step _ Hok) as Hs8.
  destruct (arr_get_is_Some PROG (step (var d))) as [p Hp]; [change (Z.of_nat (length PROG)) with 9; lia|].
  destruct (early_step _ _ (conj (proj1 Hs8) Hst) Hp) as (Hsec & Hsp & Hnext).
  assert (0 <= T + schedule (step (var d)) ∧ schedule 5 = 86000) as [Hpos H5].
  { split; [|reflexivity]. assert (step (var d) ∈ seqZ 0 5) as Hin by (apply elem_of_seqZ; lia).
    assert (Forall (λ s, 0 <= schedule s) (seqZ 0 5)) as Hall by (repeat constructor; vm_compute; discriminate).
    rewrite Forall_forall in Hall. specialize (Hall _ Hin). lia. }
  assert (moves_on t d p = true → secs p * 1000 <= now t - step_start (var d)) as Hmoved.
  { unfold moves_on, advances. rewrite Hbtn. cbn [Z.eqb negb andb orb]. intros Hm. bool_facts.
    rewrite !u32_small in * by (unfold is_u32; lia). lia. }
  assert (moves_on t d p = true → step (var d) < 4) as Hlt4.
  { intros Hm. specialize (Hmoved Hm). destruct (decide (step (var d) = 4)) as [E|]; [|lia]. rewrite E in *. change (4 + 1) with 5 in Hsec. lia. }
  destruct (turn_total cyc us B false arena_holds (257 * length ts + n) t d p Hp) as (d1 & He1 & Hr1).
  - lia.
  - unfold clock_ok. lia.
  - exact Hj.
  - eapply ready_ext; [|exact Hr]. intros li. cbn [length]. lia.
  - intros Hm. destruct (Hnext (Hlt4 Hm)) as (p' & Hp' & Hg & Hmd). exists p'. split; [exact Hp'|]. split; [specialize (Hlt4 Hm); lia|].
    split; [reflexivity|]. split; [exact Hg|]. split; [exact Hmd|apply (po_ledger _ Hok)].
  - destruct (program_ok_turn cyc us t d d1 Hok He1) as (Hok1 & _ & _).
    destruct (turn_effect cyc us t d d1 p (po_small _ Hok) Hs8 Hp He1) as [_ Heff].
    assert (step (var d1) <= 4 ∧ T + schedule (step (var d1)) <= step_start (var d1) <= now t) as [Hst1 Hss1].
    { destruct (moves_on t d p) eqn:Hm.
      - destruct Heff as (-> & -> & _). specialize (Hmoved eq_refl). specialize (Hlt4 eq_refl). lia.
      - unfold view_of in Heff. assert (step (var d1) = step (var d) ∧ step_start (var d1) = step_start (var d)) as [-> ->] by (split; congruence). lia. }
    destruct (IH d1 (now t) Hok1 Hr1 Hst1 HT HT0 Hss1 Hq) as (d2 & He2 & Hrest). exists d2.
    split; [unfold mbind, dm_bind; rewrite He1; exact He2|exact Hrest].
Qed.

(** From lanes that satisfy their invariant, as many turns as the tables have
    room for at 257 insertions each (a few hundred with the demo's own fill, since
    its hash table does not grow in these steps), without the button, within the
    first 86 seconds of the program (the prologue and steps 1 to 4) and with an
    arena that refuses none of the insertions ([arena_holds]), run to their end:
    ingest, churn, sweep and drawing all complete.  The steps follow the schedule, none starting
    before the time of those before it, and at every point where a lane's
    interrupt could be taken it finds the four tracked devices, or [BUSY]. *)
Theorem demo_runs ts n d :
  program_ok d → ready B false (λ _, 257 * length ts + n)%nat d → step (var d) = 0 →
  0 <= step_start (var d) → step_start (var d) + schedule 5 <= 2 ^ 31 →
  quiet_turns (step_start (var d)) (step_start (var d) + schedule 5) ts →
  ∃ d', run_turns ts d = Some (tt, d') ∧ program_ok d' ∧ ready B false (λ _, n) d' ∧ step (var d') <= 4 ∧
    step_start (var d) + schedule (step (var d')) <= step_start (var d') ∧
    ∀ li, Forall reads_right (points (world_at d' li)).
Proof.
  intros Hok Hr Hst HT0 HT Hq.
  destruct (run_schedule ts n d (step_start (var d)) (step_start (var d)) Hok Hr) as (d' & He & Hok' & Hr' & Hst' & Hss').
  - lia.
  - exact HT.
  - exact HT0.
  - rewrite Hst. change (schedule 0) with 0. lia.
  - exact Hq.
  - exists d'. split_and!; try done. intros li. eapply Forall_impl; [apply (st_points _ _ _ _ _ (rd_lane _ _ _ _ Hr' li))|].
    intros [ov l] Hg. by apply isr_reads_good.
Qed.
End Schedule.

(** ** A small demo: 300 records a lane *)
Definition small_world (li : bool) : @world toy (gmap Z Z) := fresh_world (negb li) HASH_MASK_WHOLE 512.
Lemma filled_lane li :
  ∃ w, lane_fill demo_cyc (64, 64) (None, None, None) true (true, true, true) 300 0 (small_world li) = Some (true, w) ∧
    lane_st TOY_CAP false li 257 (armed w) ∧ mode (lane_of w) = HASH_MASK_WHOLE.
Proof.
  destruct (tri_lane_fill demo_cyc (64, 64) TOY_CAP toy_arena 257 (fresh_lane (negb li) HASH_MASK_WHOLE 512) (None, None, None) 300 0)
    with (w := small_world li) as (ok & w & l & on & Hf & (<- & _ & _) & -> & tbl & own & Hinv & _ & _ & He).
  - constructor; try (vm_compute; (reflexivity || (split; reflexivity))); [by constructor|].
    destruct li; [right; left; reflexivity|left; reflexivity].
  - lia.
  - vm_compute. discriminate.
  - intros _. by eexists.
  - intros _. apply draws_realb_ok. destruct li; vm_compute; reflexivity.
  - destruct li; vm_compute; repeat split; (discriminate || reflexivity).
  - by split_and!.
  - exists w. split; [exact Hf|].
    assert (rehash_small (lane_of (small_world li))) as Hs0 by (unfold rehash_small; cbn; repeat constructor; lia).
    destruct (k_lane_fill demo_cyc (64, 64) (cfg (lane_of (small_world li))) _ _ _ _ _ _ _ _ (conj eq_refl Hs0) Hf) as [[Hc Hs] _].
    unfold cfg in Hc. injection Hc as Hce Hcm Hcg Hci. split; [|by rewrite Hcm]. constructor; cbn [armed lane_of irq_on points].
    + by exists tbl, own.
    + reflexivity.
    + constructor.
    + rewrite Hce. reflexivity.
    + rewrite Hcg. reflexivity.
    + exact Hs.
    + rewrite Hci. destruct li; vm_compute; reflexivity.
Qed.
Lemma small_demo :
  ∃ d : @demo toy (gmap Z Z), program_ok d ∧ ready TOY_CAP false (λ _, 257)%nat d ∧ var d = Vars 0 0 0 0 0 500 0 0.
Proof.
  destruct (filled_lane false) as (wa & _ & Ha & Hma), (filled_lane true) as (wb & _ & Hb & Hmb).
  exists (Demo (armed wa) (armed wb) (Screen ∅ [] [0; 0]) ledger_zero (Vars 0 0 0 0 0 500 0 0) []).
  split; [|split; [|reflexivity]].
  - constructor.
    + split; discriminate.
    + reflexivity.
    + intros j r Hr. apply arr_get_elem_of in Hr. rewrite bool_decide_eq_false_2 by (cbn; lia).
      assert (Forall (λ r, filled r = false) ledger_zero) as Hall by repeat constructor. rewrite Forall_forall in Hall. by apply Hall.
    + intros p [= <-]. exact Hmb.
    + intros p [] [= <-]; [apply (st_growable _ _ _ _ _ Hb)|apply (st_growable _ _ _ _ _ Ha)].
    + intros []; [apply (st_kind _ _ _ _ _ Hb)|apply (st_kind _ _ _ _ _ Ha)].
    + intros []; [apply (st_small _ _ _ _ _ Hb)|apply (st_small _ _ _ _ _ Ha)].
  - constructor; [by intros []|]. split; [reflexivity|]. repeat constructor; lia.
Qed.
Lemma demo_runs_witness :
  ∃ (d d' : @demo toy (gmap Z Z)), step (var d) = 0 ∧ run_turns demo_cyc (64, 64) [turn_at 250 0] d = Some (tt, d') ∧ step (var d') <= 4 ∧
    ∀ li, Forall reads_right (points (world_at d' li)).
Proof.
  destruct small_demo as (d & Hok & Hr & Hv). exists d.
  destruct (demo_runs demo_cyc (64, 64) TOY_CAP toy_arena [turn_at 250 0] 0 d) as (d' & He & _ & _ & Hst & _ & Hp).
  - exact Hok.
  - exact Hr.
  - rewrite Hv. reflexivity.
  - rewrite Hv. discriminate.
  - rewrite Hv. vm_compute. discriminate.
  - rewrite Hv. vm_compute. repeat split; (discriminate || reflexivity).
  - exists d'. rewrite Hv. split; [reflexivity|]. split; [exact He|]. split; [exact Hst|exact Hp].
Defined.
Lemma demo_turn_witness :
  ∃ (d d' : @demo toy (gmap Z Z)), main_turn demo_cyc (64, 64) (turn_at 6000 0) d = Some (tt, d') ∧ step (var d) = 0 ∧
    step (var d') = 1 ∧ step_start (var d') = 6000 ∧ expected_cnt (isr (lane_at d' true)) = 20600 ∧ blocked_ms (isr (lane_at d' true)) = 0.
Proof.
  destruct small_demo as (d & Hok & Hr & Hv). exists d.
  assert (arr_get PROG (step (var d)) = Some (Step (chars "PROLOGUE") 0 HASH_MASK_WHOLE 6 false
    (chars "both reader interrupts run every millisecond; no sweep yet"))) as Hp by (rewrite Hv; reflexivity).
  destruct (turn_total demo_cyc (64, 64) TOY_CAP false toy_arena 0 (turn_at 6000 0) d _ Hp) as (d' & He & _).
  - rewrite Hv. cbn. lia.
  - split; [discriminate|reflexivity].
  - reflexivity.
  - exact Hr.
  - intros _. rewrite Hv. eexists. split; [reflexivity|]. split; [reflexivity|]. split; [reflexivity|]. split; [reflexivity|]. split; [by left|].
    apply (po_ledger _ Hok).
  - exists d'. split; [exact He|].
    pose proof (demo_turn demo_cyc (64, 64) (turn_at 6000 0) d d' _ Hok Hp He) as Hturn. rewrite Hv in Hturn |- *.
    destruct Hturn as (Hst & Hss & _ & p' & _ & Hl). split; [reflexivity|]. split; [exact Hst|]. split; [exact Hss|].
    specialize (Hl true). unfold started, cfg in Hl. injection Hl as _ _ _ ->. split; reflexivity.
Defined.
