(* ===== verification/Probing.v ===== *)
(** * Linear probing without tombstones

    What [twin_hash] and [twin_ble_hash] of
    [src/components/expanse/test/twin_containers.c] share: a table of [n] slots
    seen as a partial function, the probing invariant, where a probe stops, and
    why the backward-shift deletion keeps the invariant.  The two tables
    instantiate [E], [key] and [home]. *)
From stdpp Require Import base numbers list sorting gmap.
From S2P Require Import Prelude.
Open Scope Z_scope.

(** ** Lists through a partial function *)
Lemma length_omap_all {A B} (f : A → option B) (l : list A) :
  (∀ x, x ∈ l → is_Some (f x)) → length (omap f l) = length l.
Proof.
  induction l as [|x l IH]; intros Hl; [done|]. simpl. destruct (Hl x (list_elem_of_here _ _)) as [y ->].
  simpl. f_equal. apply IH. intros z Hz. apply Hl. by right.
Qed.
Lemma NoDup_omap_inj {A B} (f : A → option B) (l : list A) :
  NoDup l → (∀ x y b, x ∈ l → y ∈ l → f x = Some b → f y = Some b → x = y) → NoDup (omap f l).
Proof.
  induction 1 as [|x l Hx Hl IH]; intros Hf; simpl; [constructor|].
  assert (NoDup (omap f l)) by (apply IH; intros y z b ??; apply Hf; by right).
  destruct (f x) as [b|] eqn:Hb; [|done]. constructor; [|done].
  intros (y & Hy & Hyb)%list_elem_of_omap. apply Hx.
  by rewrite (Hf x y b (list_elem_of_here _ _) (list_elem_of_further _ _ _ Hy) Hb Hyb).
Qed.

(** ** Positions on a ring of [n] slots *)
Section Ring.
Context (n : Z).
Hypothesis (Hn : 1 <= n).

Definition ring_at (i0 e : Z) : Z := (i0 + e) mod n.
Definition ring_dist (i0 i : Z) : Z := (i - i0) mod n.

Lemma ring_at_range i0 e : 0 <= ring_at i0 e < n.
Proof using Hn. apply Z.mod_pos_bound. lia. Qed.
Lemma ring_dist_range i0 i : 0 <= ring_dist i0 i < n.
Proof using Hn. apply Z.mod_pos_bound. lia. Qed.
Lemma ring_dist_cases i0 i :
  0 <= i0 < n → 0 <= i < n → ring_dist i0 i = if i0 <=? i then i - i0 else i - i0 + n.
Proof using Hn.
  intros H0 Hi. unfold ring_dist. destruct (Z.leb_spec i0 i); [by rewrite Z.mod_small by lia|].
  rewrite <- (Z.mod_add _ 1) by lia. rewrite Z.mod_small; lia.
Qed.
Lemma ring_at_cases i0 e :
  0 <= i0 < n → 0 <= e <= n → ring_at i0 e = if i0 + e <? n then i0 + e else i0 + e - n.
Proof using Hn.
  intros H0 He. unfold ring_at. destruct (Z.ltb_spec (i0 + e) n); [by rewrite Z.mod_small by lia|].
  rewrite <- (Z.mod_add _ (-1)) by lia. rewrite Z.mod_small; lia.
Qed.
Lemma ring_at_dist i0 i : 0 <= i < n → ring_at i0 (ring_dist i0 i) = i.
Proof using Hn.
  intros Hi. unfold ring_at, ring_dist. rewrite Zplus_mod_idemp_r.
  replace (i0 + (i - i0)) with i by lia. by apply Z.mod_small.
Qed.
Lemma ring_dist_at i0 e : 0 <= e < n → ring_dist i0 (ring_at i0 e) = e.
Proof using Hn.
  intros He. unfold ring_at, ring_dist. rewrite Zminus_mod_idemp_l, Z.add_simpl_l. by apply Z.mod_small.
Qed.
Lemma ring_at_at i0 d e : ring_at (ring_at i0 d) e = ring_at i0 (d + e).
Proof using Hn. unfold ring_at. rewrite Zplus_mod_idemp_l. f_equal. lia. Qed.
Lemma ring_at_0 i : 0 <= i < n → ring_at i 0 = i.
Proof using Hn. intros Hi. unfold ring_at. rewrite Z.add_0_r. by apply Z.mod_small. Qed.
Lemma ring_dist_split i0 i e :
  0 <= e <= ring_dist i0 i → ring_dist (ring_at i0 e) i = ring_dist i0 i - e.
Proof using Hn.
  intros He. pose proof (ring_dist_range i0 i). rewrite <- (Z.mod_small (ring_dist i0 i - e) n) by lia.
  unfold ring_at, ring_dist. rewrite Zminus_mod_idemp_r, Zminus_mod_idemp_l. f_equal. lia.
Qed.
End Ring.

(** The mask of a table of [2^p] slots. *)
Lemma land_pow2_mask p mask x : 0 <= p → mask + 1 = 2 ^ p → Z.land x mask = x mod (mask + 1).
Proof.
  intros Hp Heq. rewrite Heq, <- Z.land_ones by lia. f_equal. rewrite Z.ones_equiv. lia.
Qed.

(** Turns ring positions into linear arithmetic, the cases split. *)
Ltac ring_cases :=
  repeat match goal with
  | H : context [ring_at ?n ?a ?b] |- _ => rewrite (ring_at_cases n) in H by lia
  | H : context [ring_dist ?n ?a ?b] |- _ => rewrite (ring_dist_cases n) in H by lia
  | |- context [ring_at ?n ?a ?b] => rewrite (ring_at_cases n) by lia
  | |- context [ring_dist ?n ?a ?b] => rewrite (ring_dist_cases n) by lia
  end;
  repeat match goal with
  | H : context [?a <=? ?b] |- _ => destruct (Z.leb_spec a b)
  | H : context [?a <? ?b] |- _ => destruct (Z.ltb_spec a b)
  | |- context [?a <=? ?b] => destruct (Z.leb_spec a b)
  | |- context [?a <? ?b] => destruct (Z.ltb_spec a b)
  end.

(** The deletion's test, [(j < k) ? (home <= j || home > k) : (home <= j && home > k)]:
    the hole [j] lies on the way from the entry's home to its slot [k]. *)
Definition on_path (j k home : Z) : bool :=
  if j <? k then (home <=? j) || (home >? k) else (home <=? j) && (home >? k).
Lemma on_path_dist n j k h :
  0 <= j < n → 0 <= k < n → 0 <= h < n → j ≠ k → on_path j k h = (ring_dist n h j <? ring_dist n h k).
Proof.
  intros Hj Hk Hh Hne. rewrite !(ring_dist_cases n) by lia. unfold on_path. rewrite Z.gtb_ltb.
  destruct (Z.ltb_spec j k), (Z.leb_spec h j), (Z.ltb_spec k h), (Z.leb_spec h k); simpl;
    symmetry; try apply Z.ltb_lt; try apply Z.ltb_ge; lia.
Qed.

(** ** The table *)
Section Probing.
Context {K E : Type} `{Countable K} (key : E → K) (n : Z) (home : K → Z).
Hypothesis (Hn : 1 <= n).
Hypothesis (Hhome : ∀ k, 0 <= home k < n).
Implicit Types (T : Z → option E) (k : K) (x : E) (m : gmap K E).

Definition upd T (i : Z) (o : option E) : Z → option E := λ j, if decide (i = j) then o else T j.

(** A stored key is stored once, and no slot is empty on the way from its home to it. *)
Record probing T : Prop := {
  pr_unique i j x y : 0 <= i < n → 0 <= j < n → T i = Some x → T j = Some y → key x = key y → i = j;
  pr_path i x e : 0 <= i < n → T i = Some x → 0 <= e < ring_dist n (home (key x)) i →
    T (ring_at n (home (key x)) e) ≠ None;
}.
(** The map a table stands for. *)
Definition table_of T m : Prop :=
  ∀ k x, m !! k = Some x ↔ key x = k ∧ ∃ i, 0 <= i < n ∧ T i = Some x.

(** The search all probe loops make: the slot of the key, or the first empty one. *)
Fixpoint probe (fuel : nat) T k (i : Z) : option Z :=
  match fuel with
  | O => None
  | S fuel =>
      match T i with
      | None => Some i
      | Some x => if decide (key x = k) then Some i else probe fuel T k (ring_at n i 1)
      end
  end.

Lemma probe_runs T k d :
  0 <= d < n → (∀ e x, 0 <= e < d → T (ring_at n (home k) e) = Some x → key x ≠ k) →
  (∀ e, 0 <= e < d → T (ring_at n (home k) e) ≠ None) →
  (∀ x, T (ring_at n (home k) d) = Some x → key x = k) →
  ∀ (fuel : nat) e, 0 <= e <= d → d - e < Z.of_nat fuel →
  probe fuel T k (ring_at n (home k) e) = Some (ring_at n (home k) d).
Proof using Hn Hhome.
  intros Hd Hkey Hfull Hend fuel. induction fuel as [|fuel IH]; intros e He Hf; [lia|].
  cbn [probe]. destruct (decide (e = d)) as [->|Hne].
  - destruct (T (ring_at n (home k) d)) as [x|] eqn:Hx; [|done]. by rewrite decide_True by eauto.
  - destruct (T (ring_at n (home k) e)) as [x|] eqn:Hx; [|exfalso; eapply (Hfull e); [lia|done]].
    rewrite decide_False by (eapply Hkey; [|done]; lia).
    rewrite ring_at_at by lia. apply IH; lia.
Qed.

(** With one empty slot every probe stops within a lap, at its key if the table
    has it and at an empty slot otherwise. *)
Lemma probe_stops T k z :
  probing T → 0 <= z < n → T z = None →
  ∃ i, probe (Z.to_nat n) T k (home k) = Some i ∧ 0 <= i < n
    ∧ (∀ e, 0 <= e < ring_dist n (home k) i → T (ring_at n (home k) e) ≠ None)
    ∧ match T i with Some x => key x = k | None => ∀ j y, 0 <= j < n → T j = Some y → key y ≠ k end.
Proof using Hn Hhome.
  intros Hp Hz HTz. pose proof (Hhome k) as Hh.
  set (P := λ d, T (ring_at n (home k) d) = None ∨ ∃ x, T (ring_at n (home k) d) = Some x ∧ key x = k).
  assert (∀ d, Decision (P d)) as HPd.
  { intros d. unfold P. destruct (T (ring_at n (home k) d)) as [x|]; [|left; by left].
    destruct (decide (key x = k)) as [Hk|Hk]; [left; right; by exists x|right; intros [?|(y & ? & ?)]; by simplify_eq]. }
  assert (∃ d, 0 <= d < n ∧ P d ∧ ∀ e, 0 <= e < d → ¬ P e) as (d & Hd & HPdd & Hmin).
  { destruct (first_below P n (ring_dist n (home k) z)) as (d & ? & ? & ?); [by apply ring_dist_range| |].
    - left. by rewrite ring_at_dist.
    - pose proof (ring_dist_range n Hn (home k) z). exists d. split_and!; try done; lia. }
  exists (ring_at n (home k) d). assert (ring_dist n (home k) (ring_at n (home k) d) = d) as Hdd
    by (by apply ring_dist_at).
  split; [|split; [by apply ring_at_range|split]].
  - rewrite <- (probe_runs T k d) with (fuel := Z.to_nat n) (e := 0); try lia.
    + by rewrite ring_at_0.
    + intros e x He Hx Hk. apply (Hmin e He). right. eauto.
    + intros e He Hx. apply (Hmin e He). by left.
    + intros x Hx. destruct HPdd as [?|(y & ? & ?)]; by simplify_eq.
  - rewrite Hdd. intros e He Hx. apply (Hmin e He). by left.
  - destruct HPdd as [HN|(x & -> & Hx)]; [|done]. rewrite HN. intros j y Hj Hy Hyk.
    destruct (decide (d < ring_dist n (home k) j)) as [Hlt|Hge].
    + eapply (pr_path _ Hp j y d); [done|done|rewrite Hyk; lia|by rewrite Hyk].
    + destruct (decide (d = ring_dist n (home k) j)) as [->|Hne].
      * rewrite ring_at_dist in HN by lia. congruence.
      * apply (Hmin (ring_dist n (home k) j)); [pose proof (ring_dist_range n Hn (home k) j); lia|].
        right. exists y. split; [|done]. by rewrite ring_at_dist by lia.
Qed.

(** ** Backward-shift deletion: the hole at [j], the scan at [k = j + d]

    [z] is an empty slot ahead; every path may cross the hole, except those of
    the entries the scan has already passed. *)
Record hole T (j d z : Z) : Prop := {
  ho_j : 0 <= j < n;
  ho_z : 0 <= z < n;
  ho_d : 1 <= d <= ring_dist n j z;
  ho_hole : T j = None;
  ho_end : T z = None;
  ho_unique i1 i2 x y : 0 <= i1 < n → 0 <= i2 < n → T i1 = Some x → T i2 = Some y → key x = key y → i1 = i2;
  ho_path i x e : 0 <= i < n → T i = Some x → 0 <= e < ring_dist n (home (key x)) i →
    T (ring_at n (home (key x)) e) ≠ None ∨ ring_at n (home (key x)) e = j;
  ho_run e : 0 < e < d → T (ring_at n j e) ≠ None;
  ho_passed e x : 0 < e < d → T (ring_at n j e) = Some x →
    ring_dist n (home (key x)) (ring_at n j e) <= ring_dist n (home (key x)) j;
}.

(** Tables with the same slots are the same table. *)
Lemma probing_ext T T' : (∀ i, 0 <= i < n → T i = T' i) → probing T → probing T'.
Proof using Hn.
  intros He [Hu Hp]. split.
  - intros i j x y Hi Hj. rewrite <- !He by done. by apply Hu.
  - intros i x e Hi. rewrite <- !He by (done || by apply ring_at_range). by apply Hp.
Qed.
Lemma table_ext T T' m : (∀ i, 0 <= i < n → T i = T' i) → table_of T m → table_of T' m.
Proof.
  intros He Hm k x. rewrite (Hm k x). apply and_iff_compat_l.
  split; intros (i & Hi & HT); exists i; (split; [done|]); [rewrite <- He|rewrite He]; done.
Qed.
Lemma hole_ext T T' j d z : (∀ i, 0 <= i < n → T i = T' i) → hole T j d z → hole T' j d z.
Proof using Hn.
  intros He [Hj Hz Hd HTj HTz Hu Hp Hrun Hpass]. split; try done.
  - by rewrite <- He.
  - by rewrite <- He.
  - intros i1 i2 x y Hi1 Hi2. rewrite <- !He by done. by apply Hu.
  - intros i x e Hi. rewrite <- !He by (done || by apply ring_at_range). by apply Hp.
  - intros e Hee. rewrite <- !He by (by apply ring_at_range). by apply Hrun.
  - intros e x Hee. rewrite <- !He by (by apply ring_at_range). by apply Hpass.
Qed.

(** ** Updates *)
Lemma upd_eq T i o : upd T i o i = o.
Proof. unfold upd. by rewrite decide_True. Qed.
Lemma upd_ne T i j o : i ≠ j → upd T i o j = T j.
Proof. intros. unfold upd. by rewrite decide_False. Qed.

(** A fresh key in the slot its probe stopped at. *)
Lemma place_probing T x i :
  probing T → 0 <= i < n → T i = None → (∀ j y, 0 <= j < n → T j = Some y → key y ≠ key x) →
  (∀ e, 0 <= e < ring_dist n (home (key x)) i → T (ring_at n (home (key x)) e) ≠ None) →
  probing (upd T i (Some x)).
Proof.
  intros [Hu Hp] Hi HTi Hnew Hpath. unfold upd. split.
  - intros j1 j2 y1 y2 H1 H2. repeat case_decide; intros ?? Hk; simplify_eq; [done| | |by eauto];
      exfalso; [by eapply (Hnew j2 y2)|by eapply (Hnew j1 y1)].
  - intros j y e Hj. case_decide as Hij; intros Hy He; simplify_eq; case_decide; eauto.
Qed.
Lemma place_table T m x i :
  probing T → 0 <= i < n → T i = None → (∀ j y, 0 <= j < n → T j = Some y → key y ≠ key x) →
  table_of T m → table_of (upd T i (Some x)) (<[key x := x]> m) ∧ m !! key x = None.
Proof.
  intros Hp Hi HTi Hnew Hm. split.
  - intros k y. rewrite lookup_insert_Some, (Hm k y). unfold upd. split.
    + intros [[<- <-]|(Hne & Hk & j & Hj & Hy)].
      * split; [done|]. exists i. by rewrite decide_True.
      * split; [done|]. exists j. split; [done|]. rewrite decide_False; [done|]. intros <-. congruence.
    + intros (<- & j & Hj & Hy). case_decide; simplify_eq; [by left|]. right. split; [|by eauto].
      intros ?. by eapply (Hnew j y).
  - apply eq_None_not_Some. intros (y & (Hk & j & Hj & Hy)%Hm). by eapply Hnew.
Qed.

(** A new entry over the one with the same key. *)
Lemma renew_probing T x y i :
  probing T → 0 <= i < n → T i = Some y → key y = key x → probing (upd T i (Some x)).
Proof.
  intros [Hu Hp] Hi HTi Hk. unfold upd. split.
  - intros j1 j2 y1 y2 H1 H2. repeat case_decide; intros; simplify_eq; try done.
    + by eapply (Hu j1 j2 y y2); eauto; congruence.
    + by eapply (Hu j1 j2 y1 y); eauto; congruence.
    + by eapply (Hu j1 j2 y1 y2).
  - intros j z e Hj. case_decide as Hij; intros Hy He; simplify_eq; case_decide; try done.
    + rewrite <- Hk in He |- *. by eapply Hp.
    + by eapply Hp.
Qed.
Lemma renew_table T m x y i :
  probing T → 0 <= i < n → T i = Some y → key y = key x →
  table_of T m → table_of (upd T i (Some x)) (<[key x := x]> m) ∧ m !! key x = Some y.
Proof.
  intros Hp Hi HTi Hk Hm. split; [|apply Hm; eauto].
  intros k z. rewrite lookup_insert_Some, (Hm k z). unfold upd. split.
  - intros [[<- <-]|(Hne & Hz & j & Hj & HTj)].
    + split; [done|]. exists i. by rewrite decide_True.
    + split; [done|]. exists j. split; [done|]. rewrite decide_False; [done|]. intros <-. congruence.
  - intros (<- & j & Hj & HTj). case_decide as Hij; simplify_eq; [by left|]. right. split; [|by eauto].
    intros Hxz. apply Hij. eapply (pr_unique _ Hp i j y z); congruence.
Qed.

(** ** Moving the hole *)
Lemma hole_start T i x z :
  probing T → 0 <= i < n → T i = Some x → 0 <= z < n → T z = None → hole (upd T i None) i 1 z.
Proof using Hn Hhome.
  intros [Hu Hp] Hi HTi Hz HTz. assert (i ≠ z) as Hne by congruence. split; try done.
  - split; [lia|]. ring_cases; lia.
  - apply upd_eq.
  - by rewrite upd_ne.
  - intros i1 i2 y1 y2 H1 H2. unfold upd. repeat case_decide; try done. by apply Hu.
  - intros j y e Hj. unfold upd. case_decide; [done|]. intros Hy He. case_decide; [by right|]. left. by eapply Hp.
  - intros e He. lia.
  - intros e y He. lia.
Qed.

(** The scan is at an empty slot: nothing needs the hole. *)
Lemma hole_done T j d z : hole T j d z → T (ring_at n j d) = None → probing T.
Proof using Hn Hhome.
  intros Hh HTk. destruct Hh as [Hj Hz Hd HTj HTz Hu Hp Hrun Hpass]. split; [done|].
  intros i x e Hi HTi He. destruct (Hp i x e Hi HTi He) as [?|Hej]; [done|]. intros _.
  pose proof (Hhome (key x)) as Hhx. set (h := home (key x)) in *.
  pose proof (ring_dist_range n Hn j i) as Hdr. pose proof (ring_dist_range n Hn j z).
  pose proof (ring_dist_range n Hn h i).
  assert (ring_dist n h i = e + ring_dist n j i) as Hsum.
  { rewrite <- Hej, ring_dist_split; lia. }
  assert (ring_dist n h j = e) as Hej' by (rewrite <- Hej; apply ring_dist_at; lia).
  destruct (decide (ring_dist n j i < d)) as [Hlt|Hge].
  - assert (ring_dist n j i ≠ 0) as Hnz.
    { intros Hz0. assert (i = j) as ->; [|congruence]. rewrite <- (ring_at_dist n Hn j i) by lia.
      rewrite Hz0. by rewrite ring_at_0 by lia. }
    pose proof (Hpass (ring_dist n j i) x) as Hq. rewrite ring_at_dist in Hq by lia.
    specialize (Hq ltac:(lia) HTi). fold h in Hq. lia.
  - assert (i ≠ ring_at n j d) as Hik by congruence.
    assert (ring_dist n j i ≠ d) as Hne by (intros <-; rewrite ring_at_dist in Hik; lia).
    destruct (Hp i x (e + d) Hi HTi) as [Hx|Hx]; [fold h; lia| |].
    + apply Hx. fold h. by rewrite <- ring_at_at, Hej by lia.
    + fold h in Hx. rewrite <- ring_at_at, Hej in Hx by lia.
      apply (f_equal (ring_dist n j)) in Hx. rewrite ring_dist_at in Hx by lia.
      revert Hx. ring_cases; lia.
Qed.

(** The entry at the scan does not need the hole: the scan moves on. *)
Lemma hole_skip T j d z x :
  hole T j d z → T (ring_at n j d) = Some x →
  ring_dist n (home (key x)) (ring_at n j d) <= ring_dist n (home (key x)) j → hole T j (d + 1) z.
Proof using Hn Hhome.
  intros [Hj Hz Hd HTj HTz Hu Hp Hrun Hpass] HTk Hle. split; try done.
  - split; [lia|]. assert (d ≠ ring_dist n j z); [|lia]. intros ->. rewrite ring_at_dist in HTk by lia. congruence.
  - intros e He. destruct (decide (e = d)) as [->|]; [congruence|apply Hrun; lia].
  - intros e y He HTe. destruct (decide (e = d)) as [->|]; [by simplify_eq|]. apply Hpass; [lia|done].
Qed.

(** It does: it moves into the hole and leaves one behind. *)
Lemma hole_move T j d z x :
  hole T j d z → T (ring_at n j d) = Some x →
  ring_dist n (home (key x)) j < ring_dist n (home (key x)) (ring_at n j d) →
  hole (upd (upd T j (Some x)) (ring_at n j d) None) (ring_at n j d) 1 z.
Proof using Hn Hhome.
  intros [Hj Hz Hd HTj HTz Hu Hp Hrun Hpass] HTk Hlt. set (k := ring_at n j d) in *.
  assert (0 <= k < n) as Hk by (by apply ring_at_range). assert (k ≠ j) by congruence.
  assert (k ≠ z) by congruence. assert (z ≠ j).
  { intros ->. revert Hd. ring_cases; lia. }
  split; try done.
  - split; [lia|]. ring_cases; lia.
  - by rewrite upd_eq.
  - by rewrite !upd_ne by congruence.
  - intros i1 i2 y1 y2 Hi1 Hi2. unfold upd. destruct (decide (k = i1)) as [|N1], (decide (k = i2)) as [|N2]; try done.
    destruct (decide (j = i1)) as [<-|], (decide (j = i2)) as [<-|]; intros E1 E2 Hxy; simplify_eq; [done| | |].
    + exfalso. apply N2. by eapply (Hu k i2).
    + exfalso. apply N1. by eapply (Hu k i1).
    + by eapply (Hu i1 i2).
  - intros i y e Hi. unfold upd. destruct (decide (k = i)) as [|Hki]; [done|].
    destruct (decide (j = i)) as [<-|Hji]; intros HTi He; [injection HTi as <-|];
      (case_decide; [by right|]; case_decide; [by left|]; left).
    + destruct (Hp k x e Hk HTk) as [?|?]; [lia|done|done].
    + destruct (Hp i y e Hi HTi He) as [?|?]; done.
  - intros e He. lia.
  - intros e y He. lia.
Qed.
Lemma move_table T (j k : Z) x m :
  0 <= j < n → 0 <= k < n → j ≠ k → T j = None → T k = Some x →
  table_of T m → table_of (upd (upd T j (Some x)) k None) m.
Proof.
  intros Hj Hk Hne HTj HTk Hm k0 y. rewrite (Hm k0 y). apply and_iff_compat_l. unfold upd. split.
  - intros (i & Hi & HTi). destruct (decide (i = k)) as [->|Hik].
    + exists j. split; [done|]. rewrite decide_False, decide_True by done. congruence.
    + exists i. split; [done|]. rewrite !decide_False by congruence. done.
  - intros (i & Hi & HTi). repeat case_decide; simplify_eq; by eauto.
Qed.
Lemma drop_table T i x m :
  probing T → 0 <= i < n → T i = Some x → table_of T m →
  table_of (upd T i None) (delete (key x) m) ∧ m !! key x = Some x.
Proof.
  intros Hp Hi HTi Hm. split; [|apply Hm; eauto]. intros k y. rewrite lookup_delete_Some, (Hm k y). unfold upd. split.
  - intros (Hne & Hk & j & Hj & HTj). split; [done|]. exists j. split; [done|]. rewrite decide_False; [done|]. congruence.
  - intros (<- & j & Hj & HTj). case_decide as Hij; [done|]. split; [|by eauto].
    intros Hxy. apply Hij. by eapply (pr_unique _ Hp).
Qed.

(** As many entries as slots leave no slot empty, fewer leave one. *)
Lemma table_room T m : probing T → table_of T m → Z.of_nat (size m) < n → ∃ z, 0 <= z < n ∧ T z = None.
Proof.
  intros Hp Hm Hsz. destruct (decide (Exists (λ z, T z = None) (seqZ 0 n))) as [He|He].
  { apply Exists_exists in He as (z & Hz%elem_of_seqZ & HT). exists z. split; [lia|done]. }
  exfalso. assert (∀ z, 0 <= z < n → ∃ x, T z = Some x) as Hall.
  { intros z Hz. destruct (T z) eqn:HT; [by eauto|]. exfalso. apply He, Exists_exists.
    exists z. split; [apply elem_of_seqZ; lia|done]. }
  set (ks := omap (λ z, key <$> T z) (seqZ 0 n)).
  assert (length ks = Z.to_nat n) as Hlen.
  { rewrite <- (length_seqZ 0 n). apply length_omap_all. intros z Hz%elem_of_seqZ.
    apply fmap_is_Some, Hall. lia. }
  assert (NoDup ks) as Hnd.
  { apply NoDup_omap_inj; [apply NoDup_seqZ|]. intros z y k Hz%elem_of_seqZ Hy%elem_of_seqZ.
    destruct (T z) eqn:?, (T y) eqn:?; simpl; try done. intros [= <-] [= ?].
    eapply (pr_unique _ Hp); try done; lia. }
  assert (length ks <= size (dom m))%nat; [|rewrite size_dom in *; lia].
  rewrite <- (size_list_to_set (C := gset K)) by done. apply subseteq_size. intros k.
  rewrite elem_of_list_to_set. unfold ks. intros (y & Hy%elem_of_seqZ & Hk)%list_elem_of_omap.
  destruct (T y) as [x|] eqn:HTy; simplify_eq/=. apply elem_of_dom. exists x. apply Hm. split; [done|]. exists y. split; [lia|done].
Qed.
End Probing.
