(* ===== verification/Twins.v ===== *)
(** * The benchmark twins: what they share

    The head of [src/components/expanse/test/twin_containers.c]: the lock macros
    (the FreeRTOS arm; the host arm is a handle that does not exist), the
    staleness test, the running aggregate.  [wide] is the width of [size_t]:
    64 bits on the host, 32 on the device. *)
From stdpp Require Import base numbers list sorting gmap.
From S2P Require Import Prelude SortedAssoc ExpanseApi HostLock MemTable.
Open Scope Z_scope.

Definition TWIN_LOCK_INIT (ok : bool) : lock := Lock ok 0.
Definition TWIN_LOCK_TAKE (l : lock) : lock := if lk_live l then Lock (lk_live l) (lk_depth l + 1) else l.
Definition TWIN_LOCK_GIVE (l : lock) : lock := if lk_live l then Lock (lk_live l) (lk_depth l - 1) else l.
Definition TWIN_LOCK_FREE (l : lock) (h : ledger) : ledger :=
  if lk_live l then Ledger (n_blocks h) (n_maps h) (n_locks h - 1) else h.
Lemma twin_lock_balance l : TWIN_LOCK_GIVE (TWIN_LOCK_TAKE l) = l.
Proof. destruct l as [[] d]; unfold TWIN_LOCK_GIVE, TWIN_LOCK_TAKE; simpl; [f_equal; lia|done]. Qed.

(** [calloc]: a block more on success; [free] of a pointer that may be [NULL]. *)
Definition twin_calloc (ok : bool) (h : ledger) : ledger :=
  if ok then Ledger (n_blocks h + 1) (n_maps h) (n_locks h) else h.
Definition twin_free (ok : bool) (h : ledger) : ledger :=
  if ok then Ledger (n_blocks h - 1) (n_maps h) (n_locks h) else h.
Definition twin_mutex (ok : bool) (h : ledger) : ledger :=
  if ok then Ledger (n_blocks h) (n_maps h) (n_locks h + 1) else h.
Lemma twin_free_calloc ok h : twin_free ok (twin_calloc ok h) = h.
Proof. destruct ok, h; unfold twin_free, twin_calloc; simpl; [f_equal; lia|done]. Qed.

Definition twin_is_stale (last_seen_ms cutoff_ms : Z) : bool := last_seen_ms / 1000 <=? cutoff_ms / 1000.

Definition twin_agg_init : agg := Agg UINT32_MAX 0 0 0.
Definition agg_add (wide : bool) (a : agg) (v : Z) : agg :=
  Agg (if v <? min_val a then v else min_val a)
      (if v >? max_val a then v else max_val a)
      (u64 (sum_val a + v))
      (size_wrap wide (count a + 1)).

Lemma agg_add_fold wide a v : agg_add wide a v = aggregate_fold wide a v.
Proof. unfold agg_add, aggregate_fold. by rewrite Z.gtb_ltb. Qed.
Lemma agg_add_snoc wide vs v : agg_add wide (agg_of wide vs) v = agg_of wide (vs ++ [v]).
Proof. by rewrite agg_add_fold, aggregate_fold_snoc. Qed.
Lemma twin_agg_init_nil wide : twin_agg_init = agg_of wide [].
Proof. destruct wide; reflexivity. Qed.

(** The aggregate does not depend on the order of the values. *)
#[export] Instance agg_of_proper wide : Proper ((≡ₚ) ==> (=)) (agg_of wide).
Proof.
  intros vs vs' Hp. unfold agg_of. f_equal.
  - induction Hp; simpl; lia.
  - induction Hp; simpl; lia.
  - f_equal. induction Hp; simpl; lia.
  - by rewrite Hp.
Qed.

(** [out->count > 0] on a count that did not wrap. *)
Lemma agg_count_pos wide vs :
  Z.of_nat (length vs) < 2 ^ 32 → (count (agg_of wide vs) >? 0) = negb (bool_decide (vs = [])).
Proof.
  intros Hl. unfold agg_of. simpl. unfold size_wrap. rewrite Z.mod_small.
  - destruct vs as [|v vs]; [done|]. rewrite bool_decide_false by done. apply Z.gtb_lt. simpl. lia.
  - destruct wide; simpl Z.pow in *; lia.
Qed.

(** ** The interface the ordered and the hashed telemetry twins share *)
Class TwinOps (wide : bool) (T : Type) := {
  tw_insert : option T → Z → Z → option (bool * option T);
  tw_get : option T → Z → option Z → option (bool * option Z * option T);
  tw_remove : option T → Z → option (bool * option T);
  tw_aggregate : option T → Z → Z → option agg → option (bool * option agg * option T);
  tw_len : option T → Z;
}.
(** What a twin promises while it holds at most [tw_cap] entries: it behaves as
    the ascending list of its entries, and a call leaves its lock as it was. *)
Class TwinLaws (wide : bool) (T : Type) `{!TwinOps wide T} := {
  tw_rep : T → assoc → Prop;
  tw_cap : T → Z;
  tw_sorted t l : tw_rep t l → sorted l;
  tw_insert_law t l k v :
    tw_rep t l → is_u32 k → is_u32 v → is_Some (sl_lookup k l) ∨ Z.of_nat (length l) < tw_cap t →
    ∃ t', tw_insert (Some t) k v = Some (is_none (sl_lookup k l), Some t')
        ∧ tw_rep t' (sl_insert k v l) ∧ tw_cap t' = tw_cap t;
  tw_get_law t l k c :
    tw_rep t l →
    tw_get (Some t) k (Some c)
    = Some (negb (is_none (sl_lookup k l)), Some (default c (sl_lookup k l)), Some t);
  tw_remove_law t l k :
    tw_rep t l →
    ∃ t', tw_remove (Some t) k = Some (negb (is_none (sl_lookup k l)), Some t')
        ∧ tw_rep t' (sl_delete k l) ∧ tw_cap t' = tw_cap t;
  tw_aggregate_law t l lo hi a :
    tw_rep t l →
    tw_aggregate (Some t) lo hi (Some a)
    = Some (0 <? count (agg_of wide (sl_range lo hi l).*2), Some (agg_of wide (sl_range lo hi l).*2), Some t);
  tw_len_law t l : tw_rep t l → tw_len (Some t) = Z.of_nat (length l);
}.

Section Runs.
Context {T : Type} (wide : bool) `{!TwinOps wide T}.

(** The calls a twin has, in the vocabulary of the memtable's; it has no flush
    and no clear, and its insert and remove do not report the old value; the cell
    for an aggregate holds the empty one before the call. *)
Definition twin_exec (t : option T) (op : mt_op) : option (option T * mt_res) :=
  match op with
  | OpInsert k v => '(b, t) ← tw_insert t k v; Some (t, RFound b 0)
  | OpGet k => '(b, c, t) ← tw_get t k (Some 0); Some (t, RFound b (default 0 c))
  | OpRemove k => '(b, t) ← tw_remove t k; Some (t, RFound b 0)
  | OpAggregate lo hi => '(b, a, t) ← tw_aggregate t lo hi (Some agg_init); Some (t, RAgg b (default agg_init a))
  | OpLen => Some (t, RCount (tw_len t))
  | OpFlush _ _ _ | OpClear => None
  end.
Fixpoint twin_run (t : option T) (ops : list mt_op) : option (option T * list mt_res) :=
  match ops with
  | [] => Some (t, [])
  | op :: ops => '(t, r) ← twin_exec t op; '(t, rs) ← twin_run t ops; Some (t, r :: rs)
  end.
End Runs.

Definition twin_op_ok (op : mt_op) : Prop :=
  match op with OpFlush _ _ _ | OpClear => False | _ => op_ok op end.
(** What a twin shows of a memtable's result. *)
Definition seen (op : mt_op) (r : mt_res) : mt_res :=
  match op, r with
  | OpInsert _ _, RFound b _ | OpRemove _, RFound b _ => RFound b 0
  | _, _ => r
  end.
(** No prefix of the calls leaves more than [cap] entries. *)
Fixpoint fits (wide : bool) (cap : Z) (l : assoc) (ops : list mt_op) : bool :=
  (Z.of_nat (length l) <=? cap)
  && match ops with [] => true | op :: ops => fits wide cap (spec_op wide l op).1 ops end.

Lemma fits_here wide cap l ops : fits wide cap l ops = true → Z.of_nat (length l) <= cap.
Proof. destruct ops; simpl; intros H; bool_facts; done. Qed.

Section RunLaws.
Context {T : Type} (wide : bool) `{TwinLaws wide T}.

Lemma aggregate_inverted lo hi (l : assoc) :
  (lo >? hi) = true → agg_of wide (sl_range lo hi l).*2 = agg_init.
Proof.
  intros Hgt. bool_facts. unfold sl_range. rewrite list_filter_none; [symmetry; apply agg_init_nil|].
  intros e _ ?. lia.
Qed.

Lemma twin_exec_refines t l op :
  tw_rep t l → twin_op_ok op → Z.of_nat (length (spec_op wide l op).1) <= tw_cap t →
  ∃ t', twin_exec wide (Some t) op = Some (Some t', seen op (spec_op wide l op).2)
      ∧ tw_rep t' (spec_op wide l op).1 ∧ tw_cap t' = tw_cap t.
Proof.
  intros Hr Hop Hfit. pose proof (tw_sorted _ _ Hr) as Hs.
  destruct op as [k v|k|k|lo hi|lo hi f| |]; simpl in Hop, Hfit |- *; try done.
  - destruct (tw_insert_law t l k v Hr) as (t' & -> & Hr' & Hc); [tauto|tauto| |by eauto].
    rewrite length_sl_insert in Hfit by done. destruct (sl_lookup k l); [left; eauto|right; lia].
  - rewrite (tw_get_law t l) by done. by eexists.
  - destruct (tw_remove_law t l k Hr) as (t' & -> & ? & ?). by eexists.
  - rewrite (tw_aggregate_law t l) by done. cbn [mbind option_bind]. exists t.
    destruct (lo >? hi) eqn:Hgt; [by rewrite aggregate_inverted|done].
  - rewrite (tw_len_law t l) by done. by eexists.
Qed.

Lemma twin_run_refines t l ops :
  tw_rep t l → Forall twin_op_ok ops → fits wide (tw_cap t) l ops = true →
  ∃ t', twin_run wide (Some t) ops = Some (Some t', zip_with seen ops (spec_ops wide l ops).2)
      ∧ tw_rep t' (spec_ops wide l ops).1 ∧ tw_cap t' = tw_cap t.
Proof.
  revert t l. induction ops as [|op ops IH]; intros t l Hr Hops Hfit; [by exists t|].
  apply Forall_cons in Hops as [Hop Hops]. cbn [fits] in Hfit. bool_facts.
  destruct (twin_exec_refines t l op) as (t1 & He & Hr1 & Hc1); [done|done|by eapply fits_here|].
  destruct (IH t1 (spec_op wide l op).1 Hr1) as (t2 & Hrun & Hr2 & Hc2); [done|by rewrite Hc1|].
  cbn [twin_run]. rewrite He. cbn [mbind option_bind]. rewrite Hrun. cbn [mbind option_bind spec_ops].
  destruct (spec_op wide l op) as [l1 r1]. simpl in *. destruct (spec_ops wide l1 ops) as [l2 rs].
  exists t2. split_and!; try done. congruence.
Qed.
End RunLaws.
