(* ===== verification/TwinHash.v ===== *)
(** * The hash twin

    Model of [twin_hash] of [src/components/expanse/test/twin_containers.c]: an
    open-addressing table with backward-shift deletion.  A [NULL] table or
    out-pointer is [None]; the outer [None] of a result is a probe that outran
    one lap of the table or an access outside an array. *)
From stdpp Require Import base numbers list sorting gmap.
From S2P Require Import Prelude SortedAssoc ExpanseApi HostLock MemTable Twins Probing.
Open Scope Z_scope.

Record twin_hash := TwinHash {
  th_keys : list Z; th_vals : list Z; th_used : list Z; th_mask : Z; th_len : Z; th_lock : lock
}.
Definition th_with_lock (f : lock → lock) (h : twin_hash) : twin_hash :=
  TwinHash (th_keys h) (th_vals h) (th_used h) (th_mask h) (th_len h) (f (th_lock h)).

Section Width.
Context (wide : bool).

Definition twin_hash_slot (mask key : Z) : Z := Z.land (Z.shiftr (u32 (key * 2654435761)) 8) mask.

(** [while (cap < want) cap <<= 1], one doubling per bit of a [size_t]. *)
Fixpoint twin_cap (fuel : nat) (cap want : Z) : option Z :=
  match fuel with
  | O => None
  | S fuel => if cap <? want then twin_cap fuel (size_wrap wide (Z.shiftl cap 1)) want else Some cap
  end.
Definition twin_want (expected_entries : Z) : Z :=
  size_wrap wide (size_wrap wide (expected_entries * 10) / 7 + 1).

(** [oks] are the outcomes of the four allocations and of the mutex. *)
Record th_oks := ThOks { ok_h : bool; ok_keys : bool; ok_vals : bool; ok_used : bool; ok_lock : bool }.
Definition twin_hash_create (oks : th_oks) (expected_entries : Z) (g : ledger)
  : option (option twin_hash * ledger) :=
  cap ← twin_cap 64 8 (twin_want expected_entries);
  if negb (ok_h oks) then Some (None, g)
  else
    let g := twin_calloc true g in
    let g := twin_calloc (ok_used oks) (twin_calloc (ok_vals oks) (twin_calloc (ok_keys oks) g)) in
    if negb (ok_keys oks) || negb (ok_vals oks) || negb (ok_used oks) then
      Some (None, twin_free true (twin_free (ok_used oks) (twin_free (ok_vals oks) (twin_free (ok_keys oks) g))))
    else
      let z := replicate (Z.to_nat cap) 0 in
      Some (Some (TwinHash z z z (cap - 1) 0 (TWIN_LOCK_INIT (ok_lock oks))), twin_mutex (ok_lock oks) g).

Definition twin_hash_destroy (h : option twin_hash) (g : ledger) : ledger :=
  match h with
  | None => g
  | Some h =>
      let g := TWIN_LOCK_FREE (th_lock h) g in
      twin_free true (twin_free true (twin_free true (twin_free true g)))
  end.

Definition th_next (h : twin_hash) (i : Z) : Z := Z.land (size_wrap wide (i + 1)) (th_mask h).

Fixpoint twin_insert_loop (fuel : nat) (h : twin_hash) (key value i : Z) : option (bool * twin_hash) :=
  match fuel with
  | O => None
  | S fuel =>
      u ← arr_get (th_used h) i;
      if u =? 0 then
        us ← arr_set (th_used h) i 1;
        ks ← arr_set (th_keys h) i key;
        vs ← arr_set (th_vals h) i value;
        Some (true, TwinHash ks vs us (th_mask h) (size_wrap wide (th_len h + 1)) (th_lock h))
      else
        c ← arr_get (th_keys h) i;
        if c =? key then
          vs ← arr_set (th_vals h) i value;
          Some (false, TwinHash (th_keys h) vs (th_used h) (th_mask h) (th_len h) (th_lock h))
        else twin_insert_loop fuel h key value (th_next h i)
  end.
(** One lap of the table. *)
Definition th_fuel (h : twin_hash) : nat := S (Z.to_nat (th_mask h)).

Definition twin_hash_insert (h : option twin_hash) (key value : Z) : option (bool * option twin_hash) :=
  match h with
  | None => Some (false, None)
  | Some h =>
      let h := th_with_lock TWIN_LOCK_TAKE h in
      '(r, h) ← twin_insert_loop (th_fuel h) h key value (twin_hash_slot (th_mask h) key);
      Some (r, Some (th_with_lock TWIN_LOCK_GIVE h))
  end.

Fixpoint twin_get_loop (fuel : nat) (h : twin_hash) (key i : Z) : option (option Z) :=
  match fuel with
  | O => None
  | S fuel =>
      u ← arr_get (th_used h) i;
      if u =? 0 then Some None
      else
        c ← arr_get (th_keys h) i;
        if c =? key then v ← arr_get (th_vals h) i; Some (Some v)
        else twin_get_loop fuel h key (th_next h i)
  end.
Definition twin_hash_get (h : option twin_hash) (key : Z) (out_value : option Z)
  : option (bool * option Z * option twin_hash) :=
  match h with
  | None => Some (false, out_value, None)
  | Some h =>
      let h := th_with_lock TWIN_LOCK_TAKE h in
      r ← twin_get_loop (th_fuel h) h key (twin_hash_slot (th_mask h) key);
      let h := Some (th_with_lock TWIN_LOCK_GIVE h) in
      match r with
      | Some v => Some (true, match out_value with Some _ => Some v | None => None end, h)
      | None => Some (false, out_value, h)
      end
  end.

(** Backward-shift deletion: the hole is at [j], the scan at [k]. *)
Fixpoint twin_shift_loop (fuel : nat) (h : twin_hash) (j k : Z) : option twin_hash :=
  match fuel with
  | O => None
  | S fuel =>
      u ← arr_get (th_used h) k;
      if u =? 0 then Some h
      else
        ck ← arr_get (th_keys h) k;
        let home := twin_hash_slot (th_mask h) ck in
        if on_path j k home then
          ks ← arr_set (th_keys h) j ck;
          vk ← arr_get (th_vals h) k;
          vs ← arr_set (th_vals h) j vk;
          us ← arr_set (th_used h) j 1;
          us ← arr_set us k 0;
          twin_shift_loop fuel (TwinHash ks vs us (th_mask h) (th_len h) (th_lock h)) k (th_next h k)
        else twin_shift_loop fuel h j (th_next h k)
  end.
Fixpoint twin_remove_loop (fuel : nat) (h : twin_hash) (key i : Z) : option (bool * twin_hash) :=
  match fuel with
  | O => None
  | S fuel =>
      u ← arr_get (th_used h) i;
      if u =? 0 then Some (false, h)
      else
        c ← arr_get (th_keys h) i;
        if c =? key then
          us ← arr_set (th_used h) i 0;
          let h := TwinHash (th_keys h) (th_vals h) us (th_mask h) (size_wrap wide (th_len h - 1)) (th_lock h) in
          h ← twin_shift_loop (th_fuel h) h i (th_next h i);
          Some (true, h)
        else twin_remove_loop fuel h key (th_next h i)
  end.
Definition twin_hash_remove (h : option twin_hash) (key : Z) : option (bool * option twin_hash) :=
  match h with
  | None => Some (false, None)
  | Some h =>
      let h := th_with_lock TWIN_LOCK_TAKE h in
      '(r, h) ← twin_remove_loop (th_fuel h) h key (twin_hash_slot (th_mask h) key);
      Some (r, Some (th_with_lock TWIN_LOCK_GIVE h))
  end.

(** The scan of every slot, [n] of them from [i]. *)
Fixpoint twin_hash_scan (n : nat) (h : twin_hash) (lo hi i : Z) (out : agg) : option agg :=
  match n with
  | O => Some out
  | S n =>
      u ← arr_get (th_used h) i;
      if u =? 0 then twin_hash_scan n h lo hi (i + 1) out
      else
        k ← arr_get (th_keys h) i;
        if (k >=? lo) && (k <=? hi) then
          v ← arr_get (th_vals h) i; twin_hash_scan n h lo hi (i + 1) (agg_add wide out v)
        else twin_hash_scan n h lo hi (i + 1) out
  end.
Definition twin_hash_aggregate (h : option twin_hash) (lo hi : Z) (out : option agg)
  : option (bool * option agg * option twin_hash) :=
  match h, out with
  | Some h, Some _ =>
      let h := th_with_lock TWIN_LOCK_TAKE h in
      out ← twin_hash_scan (th_fuel h) h lo hi 0 twin_agg_init;
      Some (count out >? 0, Some out, Some (th_with_lock TWIN_LOCK_GIVE h))
  | _, _ => Some (false, out, h)
  end.

Definition twin_hash_len (h : option twin_hash) : Z := match h with Some h => th_len h | None => 0 end.
End Width.
