(* ===== verification/TwinHashProofs.v ===== *)
(** * The hash twin against a finite map

    [th_rep h m]: the table [h] is well formed and stands for the map [m].  Each
    operation keeps the relation, releases the lock and returns what the map
    says, as long as one slot stays empty. *)
From stdpp Require Import base numbers list sorting gmap.
From S2P Require Import Prelude SortedAssoc ExpanseApi HostLock MemTable Twins Probing TwinHash.
Open Scope Z_scope.

(** Entries that carry their key. *)
Definition tagged (m : gmap Z Z) : gmap Z (Z * Z) := map_imap (λ k v, Some (k, v)) m.
Lemma lookup_tagged m k : tagged m !! k = (λ v, (k, v)) <$> m !! k.
Proof. unfold tagged. rewrite map_lookup_imap. by destruct (m !! k). Qed.
Lemma tagged_insert m k v : tagged (<[k := v]> m) = <[k := (k, v)]> (tagged m).
Proof.
  apply map_eq. intros j. rewrite lookup_tagged. destruct (decide (k = j)) as [->|Hne].
  - by rewrite !lookup_insert_eq.
  - by rewrite !lookup_insert_ne, lookup_tagged.
Qed.
Lemma tagged_delete m k : tagged (delete k m) = delete k (tagged m).
Proof.
  apply map_eq. intros j. rewrite lookup_tagged. destruct (decide (k = j)) as [->|Hne].
  - by rewrite !lookup_delete_eq.
  - by rewrite !lookup_delete_ne, lookup_tagged.
Qed.
Lemma size_tagged m : size (tagged m) = size m.
Proof.
  rewrite <- !size_dom. f_equal. apply set_eq. intros k. rewrite !elem_of_dom, lookup_tagged.
  by rewrite fmap_is_Some.
Qed.

(** ** The table as a partial function of the slot *)
Definition th_at (h : twin_hash) (i : Z) : option (Z * Z) :=
  u ← arr_get (th_used h) i;
  if u =? 0 then None else k ← arr_get (th_keys h) i; v ← arr_get (th_vals h) i; Some (k, v).
Definition th_slots (h : twin_hash) : Z := th_mask h + 1.
Definition th_home (h : twin_hash) (k : Z) : Z := twin_hash_slot (th_mask h) k.

Record th_shape (h : twin_hash) : Prop := {
  sh_pow : ∃ p, 3 <= p <= 30 ∧ th_slots h = 2 ^ p;
  sh_keys : Z.of_nat (length (th_keys h)) = th_slots h;
  sh_vals : Z.of_nat (length (th_vals h)) = th_slots h;
  sh_used : Z.of_nat (length (th_used h)) = th_slots h;
}.
Record th_rep (h : twin_hash) (m : gmap Z Z) : Prop := {
  tr_shape : th_shape h;
  tr_len : th_len h = Z.of_nat (size m);
  tr_room : th_len h < th_slots h;
  tr_probing : probing fst (th_slots h) (th_home h) (th_at h);
  tr_table : table_of fst (th_slots h) (th_at h) (tagged m);
}.

Section Slots.
Context (wide : bool) (h : twin_hash).
Hypothesis (Hsh : th_shape h).

Lemma th_slots_pos : 8 <= th_slots h <= 2 ^ 30.
Proof using Hsh.
  destruct (sh_pow _ Hsh) as (p & Hp & ->). split.
  - change 8 with (2 ^ 3). apply Z.pow_le_mono_r; lia.
  - apply Z.pow_le_mono_r; lia.
Qed.
Lemma th_land x : Z.land x (th_mask h) = x mod th_slots h.
Proof using Hsh.
  destruct (sh_pow _ Hsh) as (p & Hp & Heq). apply (land_pow2_mask p); [lia|exact Heq].
Qed.
Lemma th_home_range k : 0 <= th_home h k < th_slots h.
Proof using Hsh.
  pose proof th_slots_pos. unfold th_home, twin_hash_slot. rewrite th_land. apply Z.mod_pos_bound. lia.
Qed.
Lemma th_next_ring i : 0 <= i < th_slots h → th_next wide h i = ring_at (th_slots h) i 1.
Proof using Hsh.
  intros Hi. pose proof th_slots_pos. unfold th_next, ring_at, size_wrap. rewrite th_land.
  rewrite (Z.mod_small (i + 1)); [done|]. destruct wide; simpl Z.pow in *; lia.
Qed.
(** What the three reads of a slot give. *)
Lemma th_read i :
  0 <= i < th_slots h →
  ∃ u k v, arr_get (th_used h) i = Some u ∧ arr_get (th_keys h) i = Some k ∧ arr_get (th_vals h) i = Some v
         ∧ th_at h i = if u =? 0 then None else Some (k, v).
Proof using Hsh.
  intros Hi. destruct (arr_get_is_Some (th_used h) i) as [u Hu]; [by rewrite (sh_used _ Hsh)|].
  destruct (arr_get_is_Some (th_keys h) i) as [k Hk]; [by rewrite (sh_keys _ Hsh)|].
  destruct (arr_get_is_Some (th_vals h) i) as [v Hv]; [by rewrite (sh_vals _ Hsh)|].
  exists u, k, v. split_and!; try done. unfold th_at. by rewrite Hu, Hk, Hv.
Qed.
Lemma th_fuel_slots : th_fuel h = Z.to_nat (th_slots h).
Proof using Hsh. pose proof th_slots_pos. unfold th_fuel, th_slots in *. lia. Qed.

(** The loops are the generic probe followed by what each does where it stops. *)
Lemma get_probe fuel k i :
  0 <= i < th_slots h →
  twin_get_loop wide fuel h k i
  = (j ← probe fst (th_slots h) fuel (th_at h) k i; Some (snd <$> th_at h j)).
Proof using Hsh.
  pose proof th_slots_pos. revert i. induction fuel as [|fuel IH]; intros i Hi; [done|]. cbn [twin_get_loop probe].
  destruct (th_read i Hi) as (u & c & v & -> & -> & -> & Hat). rewrite Hat. cbn [mbind option_bind].
  destruct (u =? 0); cbn [mbind option_bind]; [by rewrite Hat|]. cbn [fst].
  destruct (Z.eqb_spec c k), (decide (c = k)); try done; cbn [mbind option_bind]; [by rewrite Hat|].
  rewrite th_next_ring by done. apply IH, ring_at_range. lia.
Qed.
Lemma insert_probe fuel k v i :
  0 <= i < th_slots h →
  twin_insert_loop wide fuel h k v i
  = (j ← probe fst (th_slots h) fuel (th_at h) k i; twin_insert_loop wide 1 h k v j).
Proof using Hsh.
  pose proof th_slots_pos. revert i. induction fuel as [|fuel IH]; intros i Hi; [done|].
  cbn [probe]. destruct (th_read i Hi) as (u & c & v0 & Hu & Hc & Hv & Hat). rewrite Hat.
  cbn [twin_insert_loop]. rewrite Hu, Hc. cbn [mbind option_bind].
  destruct (u =? 0) eqn:Hu0; [cbn [mbind option_bind]; by rewrite Hu; cbn [mbind option_bind]; rewrite Hu0|]. cbn [fst].
  destruct (Z.eqb_spec c k), (decide (c = k)); try done; cbn [mbind option_bind].
  - rewrite Hu, Hc. cbn [mbind option_bind]. rewrite Hu0. subst. by rewrite Z.eqb_refl.
  - rewrite th_next_ring by done. apply IH, ring_at_range. lia.
Qed.
Lemma remove_probe fuel k i :
  0 <= i < th_slots h →
  twin_remove_loop wide fuel h k i
  = (j ← probe fst (th_slots h) fuel (th_at h) k i; twin_remove_loop wide 1 h k j).
Proof using Hsh.
  pose proof th_slots_pos. revert i. induction fuel as [|fuel IH]; intros i Hi; [done|].
  cbn [probe]. destruct (th_read i Hi) as (u & c & v0 & Hu & Hc & Hv & Hat). rewrite Hat.
  cbn [twin_remove_loop]. rewrite Hu, Hc. cbn [mbind option_bind].
  destruct (u =? 0) eqn:Hu0; [cbn [mbind option_bind]; by rewrite Hu; cbn [mbind option_bind]; rewrite Hu0|]. cbn [fst].
  destruct (Z.eqb_spec c k), (decide (c = k)); try done; cbn [mbind option_bind].
  - rewrite Hu, Hc. cbn [mbind option_bind]. rewrite Hu0. subst. by rewrite Z.eqb_refl.
  - rewrite th_next_ring by done. apply IH, ring_at_range. lia.
Qed.
End Slots.

(** ** Writing a slot *)
Lemma th_at_put h i k v l ks vs us :
  arr_set (th_keys h) i k = Some ks → arr_set (th_vals h) i v = Some vs → arr_set (th_used h) i 1 = Some us →
  ∀ j, th_at (TwinHash ks vs us (th_mask h) l (th_lock h)) j = upd (th_at h) i (Some (k, v)) j.
Proof.
  intros Hk Hv Hu j. unfold th_at, upd. simpl.
  rewrite (arr_get_set _ _ j _ _ Hk), (arr_get_set _ _ j _ _ Hv), (arr_get_set _ _ j _ _ Hu). by case_decide.
Qed.
Lemma th_at_clear h i l us :
  arr_set (th_used h) i 0 = Some us →
  ∀ j, th_at (TwinHash (th_keys h) (th_vals h) us (th_mask h) l (th_lock h)) j = upd (th_at h) i None j.
Proof.
  intros Hu j. unfold th_at, upd. simpl. rewrite (arr_get_set _ _ j _ _ Hu). by case_decide.
Qed.
Lemma th_set h (l : list Z) i x :
  th_shape h → 0 <= i < th_slots h → Z.of_nat (length l) = th_slots h →
  ∃ l', arr_set l i x = Some l' ∧ Z.of_nat (length l') = th_slots h.
Proof. intros Hs Hi Hl. rewrite arr_set_Some by lia. eexists. split; [done|]. by rewrite length_insert. Qed.

Lemma th_stops h m k :
  th_rep h m →
  ∃ i, probe fst (th_slots h) (th_fuel h) (th_at h) k (th_home h k) = Some i ∧ 0 <= i < th_slots h
    ∧ (∀ e, 0 <= e < ring_dist (th_slots h) (th_home h k) i → th_at h (ring_at (th_slots h) (th_home h k) e) ≠ None)
    ∧ match th_at h i with
      | Some x => x.1 = k ∧ m !! k = Some x.2
      | None => m !! k = None ∧ ∀ j y, 0 <= j < th_slots h → th_at h j = Some y → y.1 ≠ k
      end.
Proof.
  intros [Hsh Hlen Hroom Hp Ht]. pose proof (th_slots_pos h Hsh).
  destruct (table_room fst (th_slots h) (th_home h) ltac:(lia) (th_at h) (tagged m)) as (z & Hz & HTz); [done|done|rewrite size_tagged; lia|].
  destruct (probe_stops fst (th_slots h) (th_home h) ltac:(lia) (th_home_range h Hsh) (th_at h) k z) as (i & Hpr & Hi & Hpath & Hend); [done..|].
  exists i. rewrite th_fuel_slots by done. split_and!; try done; try lia. destruct (th_at h i) as [x|] eqn:Hx.
  - split; [done|]. assert (tagged m !! k = Some x) as Hm by (apply Ht; eauto). rewrite lookup_tagged in Hm.
    destruct (m !! k) as [w|]; simpl in Hm; [by injection Hm as <-|done].
  - split; [|done]. destruct (m !! k) as [v|] eqn:Hm; [|done]. exfalso.
    assert (tagged m !! k = Some (k, v)) as (_ & j & Hj & HTj)%Ht by (by rewrite lookup_tagged, Hm). by eapply Hend.
Qed.

Section Ops.
Context (wide : bool).

Lemma th_get_spec h m k :
  th_rep h m → twin_get_loop wide (th_fuel h) h k (th_home h k) = Some (m !! k).
Proof.
  intros Hr. destruct (th_stops h m k Hr) as (i & Hpr & Hi & _ & Hend).
  pose proof (tr_shape _ _ Hr) as Hsh.
  rewrite get_probe by (done || by apply th_home_range). rewrite Hpr. cbn [mbind option_bind].
  destruct (th_at h i) as [x|]; [by destruct Hend as [_ ->]|by destruct Hend as [-> _]].
Qed.

Lemma th_insert_spec h m k v :
  th_rep h m → is_Some (m !! k) ∨ th_len h + 1 < th_slots h →
  ∃ h', twin_insert_loop wide (th_fuel h) h k v (th_home h k) = Some (bool_decide (m !! k = None), h')
      ∧ th_rep h' (<[k := v]> m) ∧ th_mask h' = th_mask h ∧ th_lock h' = th_lock h.
Proof.
  intros Hr Hroom. destruct (th_stops h m k Hr) as (i & Hpr & Hi & Hpath & Hend).
  destruct Hr as [Hsh Hlen Hlt Hp Ht]. pose proof (th_slots_pos h Hsh).
  rewrite insert_probe by (done || by apply th_home_range). rewrite Hpr. cbn [mbind option_bind twin_insert_loop].
  destruct (th_read h Hsh i Hi) as (u & c & v0 & Hu & Hc & Hv & Hat). rewrite Hat in Hend. rewrite Hu, Hc. cbn [mbind option_bind].
  destruct (th_set h (th_vals h) i v) as (vs & Hvs & Lv); [done|done|by apply sh_vals|]. destruct (u =? 0) eqn:Hu0.
  - destruct Hend as [Hm Hnew]. rewrite Hm in Hroom |- *. destruct Hroom as [[? [=]]|Hroom].
    destruct (th_set h (th_used h) i 1) as (us & Hus & Lu); [done|done|by apply sh_used|].
    destruct (th_set h (th_keys h) i k) as (ks & Hks & Lk); [done|done|by apply sh_keys|].
    rewrite Hus, Hks, Hvs. cbn [mbind option_bind]. eexists. split; [done|]. split; [|done].
    assert (size_wrap wide (th_len h + 1) = th_len h + 1) as Hw.
    { unfold size_wrap. apply Z.mod_small. destruct wide; simpl Z.pow in *; lia. }
    destruct (place_table fst (th_slots h) (th_home h) (th_at h) (tagged m) (k, v) i) as [Hpt _]; [done..|].
    split; [split; [exact (sh_pow _ Hsh)|exact Lk|exact Lv|exact Lu]| | | |]; cbn.
    + by rewrite Hw, Hlen, map_size_insert_None by done; lia.
    + unfold th_slots in *. simpl. lia.
    + eapply probing_ext; [unfold th_slots in *; simpl; lia|intros j Hj; symmetry; by apply (th_at_put h i k v)|].
      apply (place_probing fst (th_slots h) (th_home h) (th_at h) (k, v) i); done.
    + rewrite tagged_insert. eapply table_ext; [intros j Hj; symmetry; by apply (th_at_put h i k v)|exact Hpt].
  - destruct Hend as [Hck Hm]. simpl in Hck, Hm. subst c. rewrite Z.eqb_refl, Hvs. cbn [mbind option_bind].
    eexists. split; [by rewrite Hm|]. split; [|done].
    assert (∀ j, upd (th_at h) i (Some (k, v)) j
      = th_at (TwinHash (th_keys h) vs (th_used h) (th_mask h) (th_len h) (th_lock h)) j) as Hext.
    { intros j. unfold th_at, upd. simpl. rewrite (arr_get_set _ _ j _ _ Hvs). case_decide; [|done]. subst j.
      rewrite Hu, Hc. cbn [mbind option_bind]. by rewrite Hu0. }
    destruct (renew_table fst (th_slots h) (th_home h) (th_at h) (tagged m) (k, v) (k, v0) i) as [Hrt _]; [done..|].
    split; [split; [exact (sh_pow _ Hsh)|apply (sh_keys _ Hsh)|exact Lv|apply (sh_used _ Hsh)]| | | |]; cbn; try done.
    + by rewrite Hlen, map_size_insert_Some.
    + eapply probing_ext; [unfold th_slots in *; simpl; lia|intros j Hj; apply Hext|].
      apply (renew_probing fst (th_slots h) (th_home h) (th_at h) (k, v) (k, v0) i); done.
    + rewrite tagged_insert. eapply table_ext; [intros j Hj; apply Hext|exact Hrt].
Qed.

(** The move of the source: the entry of slot [k] copied over the hole [j], slot [k] freed. *)
Lemma th_at_move h j k c v ks vs us us' l :
  j ≠ k → arr_set (th_keys h) j c = Some ks → arr_set (th_vals h) j v = Some vs →
  arr_set (th_used h) j 1 = Some us → arr_set us k 0 = Some us' →
  ∀ i, upd (upd (th_at h) j (Some (c, v))) k None i = th_at (TwinHash ks vs us' (th_mask h) (th_len h) l) i.
Proof.
  intros Hne Hk Hv Hu Hu' i. unfold th_at, upd. simpl.
  rewrite (arr_get_set _ _ i _ _ Hk), (arr_get_set _ _ i _ _ Hv), (arr_get_set _ _ i _ _ Hu'), (arr_get_set _ _ i _ _ Hu).
  by repeat case_decide.
Qed.

Lemma shift_spec (fuel : nat) h j d z m :
  th_shape h → hole fst (th_slots h) (th_home h) (th_at h) j d z →
  table_of fst (th_slots h) (th_at h) m → ring_dist (th_slots h) j z - d < Z.of_nat fuel →
  ∃ h', twin_shift_loop wide fuel h j (ring_at (th_slots h) j d) = Some h' ∧ th_shape h'
      ∧ probing fst (th_slots h) (th_home h) (th_at h') ∧ table_of fst (th_slots h) (th_at h') m
      ∧ th_mask h' = th_mask h ∧ th_len h' = th_len h ∧ th_lock h' = th_lock h.
Proof.
  revert h j d. induction fuel as [|fuel IH]; intros h j d Hsh Hh Ht Hf.
  { pose proof (ho_d _ _ _ _ _ _ _ Hh). lia. }
  pose proof (th_slots_pos h Hsh). pose proof (th_home_range h Hsh) as Hhome. assert (1 <= th_slots h) as Hn by lia.
  pose proof (ho_j _ _ _ _ _ _ _ Hh) as Hj. pose proof (ho_d _ _ _ _ _ _ _ Hh) as Hd.
  pose proof (ring_at_range _ Hn j d) as Hk. cbn [twin_shift_loop].
  destruct (th_read h Hsh _ Hk) as (u & c & v & -> & -> & -> & Hat). cbn [mbind option_bind].
  destruct (u =? 0).
  { exists h. split_and!; try done. by eapply hole_done. }
  assert (j ≠ ring_at (th_slots h) j d) as Hjk.
  { intros Heq. rewrite <- Heq, (ho_hole _ _ _ _ _ _ _ Hh) in Hat. done. }
  assert (ring_at (th_slots h) j d ≠ z) as Hkz.
  { intros Heq. rewrite Heq, (ho_end _ _ _ _ _ _ _ Hh) in Hat. done. }
  fold (th_home h c). rewrite (on_path_dist (th_slots h)) by done.
  rewrite (th_next_ring wide h Hsh), ring_at_at by done. destruct (Z.ltb_spec (ring_dist (th_slots h) (th_home h c) j)
    (ring_dist (th_slots h) (th_home h c) (ring_at (th_slots h) j d))) as [Hlt|Hge].
  - destruct (th_set h (th_keys h) j c) as (ks & Hks & Lk); [done|done|by apply sh_keys|].
    destruct (th_set h (th_vals h) j v) as (vs & Hvs & Lv); [done|done|by apply sh_vals|].
    destruct (th_set h (th_used h) j 1) as (us & Hus & Lu); [done|done|by apply sh_used|].
    destruct (th_set h us (ring_at (th_slots h) j d) 0) as (us' & Hus' & Lu'); [done|done|done|].
    rewrite Hks, Hvs, Hus. cbn [mbind option_bind]. rewrite Hus'. cbn [mbind option_bind].
    pose proof (th_at_move h j _ c v ks vs us us' (th_lock h) Hjk Hks Hvs Hus Hus') as Hmv.
    rewrite <- ring_at_at by done.
    refine (IH (TwinHash ks vs us' (th_mask h) (th_len h) (th_lock h)) (ring_at (th_slots h) j d) 1 _ _ _ _).
    + split; [exact (sh_pow _ Hsh)|exact Lk|exact Lv|exact Lu'].
    + eapply hole_ext; [done|intros i _; apply Hmv|]. by apply hole_move.
    + eapply table_ext; [intros i _; apply Hmv|]. apply move_table; try done. apply Hh.
    + unfold th_slots. simpl. fold (th_slots h). rewrite ring_dist_split; lia.
  - apply IH; try done; [|lia]. eapply hole_skip; try done; lia.
Qed.

Lemma th_remove_spec h m k :
  th_rep h m →
  ∃ h', twin_remove_loop wide (th_fuel h) h k (th_home h k) = Some (bool_decide (is_Some (m !! k)), h')
      ∧ th_rep h' (delete k m) ∧ th_mask h' = th_mask h ∧ th_lock h' = th_lock h.
Proof.
  intros Hr. destruct (th_stops h m k Hr) as (i & Hpr & Hi & Hpath & Hend).
  pose proof Hr as [Hsh Hlen Hlt Hp Ht]. pose proof (th_slots_pos h Hsh). pose proof (th_home_range h Hsh) as Hhome.
  destruct (table_room fst (th_slots h) (th_home h) ltac:(lia) (th_at h) (tagged m)) as (z & Hz & HTz); [done|done|rewrite size_tagged; lia|].
  rewrite remove_probe by (done || by apply th_home_range). rewrite Hpr. cbn [mbind option_bind twin_remove_loop].
  destruct (th_read h Hsh i Hi) as (u & c & v & Hu & Hc & Hv & Hat). rewrite Hat in Hend. rewrite Hu, Hc. cbn [mbind option_bind].
  destruct (u =? 0).
  - destruct Hend as [Hm _]. exists h. rewrite Hm, delete_id by done. done.
  - destruct Hend as [Hck Hm]. simpl in Hck, Hm. subst c. rewrite Z.eqb_refl, Hm.
    destruct (th_set h (th_used h) i 0) as (us & Hus & Lu); [done|done|by apply sh_used|]. rewrite Hus. cbn [mbind option_bind].
    set (h1 := TwinHash (th_keys h) (th_vals h) us (th_mask h) (size_wrap wide (th_len h - 1)) (th_lock h)).
    destruct (drop_table fst (th_slots h) (th_home h) (th_at h) i (k, v) (tagged m)) as [Hdt _]; [done..|].
    destruct (shift_spec (th_fuel h1) h1 i 1 z (tagged (delete k m))) as (h' & Hs & Hsh' & Hp' & Ht' & Hmk & Hl & Hlk).
    + split; [exact (sh_pow _ Hsh)|apply (sh_keys _ Hsh)|apply (sh_vals _ Hsh)|exact Lu].
    + eapply hole_ext; [unfold th_slots in *; simpl; lia|intros j _; symmetry; by apply (th_at_clear h i)|].
      apply (hole_start fst (th_slots h) (th_home h) ltac:(lia) Hhome (th_at h) i (k, v)); done.
    + rewrite tagged_delete. eapply table_ext; [intros j _; symmetry; by apply (th_at_clear h i)|exact Hdt].
    + change (th_fuel h1) with (th_fuel h). rewrite th_fuel_slots by done. change (th_slots h1) with (th_slots h).
      pose proof (ring_dist_range (th_slots h) ltac:(lia) i z). lia.
    + replace (th_next wide h1 i) with (ring_at (th_slots h1) i 1) by (symmetry; exact (th_next_ring wide h Hsh i Hi)).
      rewrite Hs. cbn [mbind option_bind]. exists h'. split; [by rewrite bool_decide_true by eauto|]. split; [|done].
      assert (th_slots h' = th_slots h) as Hsl by (unfold th_slots; by rewrite Hmk).
      assert (th_home h' = th_home h) as Hhm by (unfold th_home; by rewrite Hmk).
      assert (size (delete k m) = Nat.pred (size m)) as Hsz by (apply map_size_delete_Some; eauto).
      assert (size m ≠ 0%nat) by (intros Hm0; apply map_size_empty_inv in Hm0; by rewrite Hm0 in Hm).
      assert (th_len h' = th_len h - 1) as Hl'.
      { rewrite Hl. simpl. unfold size_wrap. apply Z.mod_small. destruct wide; simpl Z.pow in *; lia. }
      split; rewrite ?Hsl, ?Hhm; try done; lia.
Qed.
End Ops.

(** ** The scan of all slots *)
Definition th_entries (h : twin_hash) (i : Z) (n : nat) : list (Z * Z) := omap (th_at h) (seqZ i (Z.of_nat n)).

Lemma seqZ_S i (n : nat) : seqZ i (Z.of_nat (S n)) = i :: seqZ (i + 1) (Z.of_nat n).
Proof. rewrite seqZ_cons by lia. f_equal. f_equal; lia. Qed.
Lemma hash_scan_spec wide (n : nat) h lo hi i vs :
  th_shape h → 0 <= i → i + Z.of_nat n <= th_slots h →
  twin_hash_scan wide n h lo hi i (agg_of wide vs)
  = Some (agg_of wide (vs ++ (sl_range lo hi (th_entries h i n)).*2)).
Proof.
  intros Hsh. revert i vs. induction n as [|n IH]; intros i vs Hi Hn; [by rewrite app_nil_r|].
  cbn [twin_hash_scan]. destruct (th_read h Hsh i) as (u & c & v & -> & -> & -> & Hat); [lia|]. cbn [mbind option_bind].
  unfold th_entries. rewrite seqZ_S. cbn [omap list_omap]. rewrite Hat. fold (th_entries h (i + 1) n).
  destruct (u =? 0); [apply IH; lia|]. unfold sl_range. rewrite filter_cons. cbn [fst].
  destruct ((c >=? lo) && (c <=? hi)) eqn:Hin; [rewrite decide_True by (bool_facts; lia)|rewrite decide_False].
  - rewrite agg_add_snoc, IH by lia. by rewrite <- (assoc_L (++)).
  - apply IH; lia.
  - apply andb_false_iff in Hin as [?|?]; bool_facts; lia.
Qed.

Lemma th_entries_all h m : th_rep h m → th_entries h 0 (th_fuel h) ≡ₚ map_to_list m.
Proof.
  intros [Hsh Hlen Hlt Hp Ht]. pose proof (th_slots_pos h Hsh). unfold th_entries. rewrite th_fuel_slots, Z2Nat.id by (done || lia).
  apply NoDup_Permutation; [|apply NoDup_map_to_list|].
  - apply NoDup_omap_inj; [apply NoDup_seqZ|]. intros i j x Hi%elem_of_seqZ Hj%elem_of_seqZ HTi HTj.
    eapply (pr_unique _ _ _ _ Hp); try done; lia.
  - intros [k v]. rewrite elem_of_map_to_list, list_elem_of_omap. split.
    + intros (i & Hi%elem_of_seqZ & HTi). assert (tagged m !! k = Some (k, v)) as Hm.
      { apply Ht. split; [done|]. exists i. split; [lia|done]. }
      rewrite lookup_tagged in Hm. destruct (m !! k); by simplify_eq/=.
    + intros Hm. assert (tagged m !! k = Some (k, v)) as (_ & i & Hi & HTi)%Ht by (by rewrite lookup_tagged, Hm).
      exists i. split; [apply elem_of_seqZ; lia|done].
Qed.

(** ** Ascending lists as maps *)
Definition sl_map (l : assoc) : gmap Z Z := list_to_map l.
Lemma lookup_sl_map (l : assoc) k : sl_map l !! k = sl_lookup k l.
Proof.
  unfold sl_map. induction l as [|[k' v] l IH]; [done|]. simpl. destruct (Z.eqb_spec k k') as [->|Hne].
  - apply lookup_insert_eq.
  - by rewrite lookup_insert_ne, IH.
Qed.
Lemma sl_map_insert (l : assoc) k v : sorted l → sl_map (sl_insert k v l) = <[k := v]> (sl_map l).
Proof.
  intros Hs. apply map_eq. intros j. rewrite lookup_sl_map, sl_lookup_insert by done.
  case_decide; subst; [by rewrite lookup_insert_eq|]. by rewrite lookup_insert_ne, lookup_sl_map.
Qed.
Lemma sl_map_delete (l : assoc) k : sorted l → sl_map (sl_delete k l) = delete k (sl_map l).
Proof.
  intros Hs. apply map_eq. intros j. rewrite lookup_sl_map, sl_lookup_delete by done.
  case_decide; subst; [by rewrite lookup_delete_eq|]. by rewrite lookup_delete_ne, lookup_sl_map.
Qed.
Lemma sl_map_to_list (l : assoc) : sorted l → map_to_list (sl_map l) ≡ₚ l.
Proof. intros Hs. apply map_to_list_to_map, sorted_NoDup, Hs. Qed.
Lemma size_sl_map (l : assoc) : sorted l → size (sl_map l) = length l.
Proof. intros Hs. by rewrite <- length_map_to_list, (sl_map_to_list l). Qed.

(** ** The twin's interface *)
#[export] Instance hash_ops wide : TwinOps wide twin_hash := {
  tw_insert := twin_hash_insert wide;
  tw_get := twin_hash_get wide;
  tw_remove := twin_hash_remove wide;
  tw_aggregate := twin_hash_aggregate wide;
  tw_len := twin_hash_len;
}.
(** One slot has to stay empty for a probe to end. *)
Definition hash_rep (h : twin_hash) (l : assoc) : Prop := sorted l ∧ th_rep h (sl_map l).
Definition hash_cap (h : twin_hash) : Z := th_slots h - 1.

Lemma th_rep_lock h m f : th_rep h m → th_rep (th_with_lock f h) m.
Proof. intros [[? ? ? ?] ? ? ? ?]. by split; [split|..]. Qed.
Lemma th_lock_back h : th_with_lock TWIN_LOCK_GIVE (th_with_lock TWIN_LOCK_TAKE h) = h.
Proof. destruct h. unfold th_with_lock. simpl. by rewrite twin_lock_balance. Qed.
Lemma th_lock_unwind h h' :
  th_lock h' = TWIN_LOCK_TAKE (th_lock h) → th_lock (th_with_lock TWIN_LOCK_GIVE h') = th_lock h.
Proof. intros Hl. simpl. by rewrite Hl, twin_lock_balance. Qed.

#[export] Instance hash_laws wide : TwinLaws wide twin_hash.
Proof.
  refine {| tw_rep := hash_rep; tw_cap := hash_cap |}.
  - by intros h l [? _].
  - intros h l k v [Hs Hr] Hk Hv Hroom. cbn [tw_insert hash_ops]. unfold twin_hash_insert. cbv zeta.
    pose proof (th_rep_lock h _ TWIN_LOCK_TAKE Hr) as Hr1. set (h1 := th_with_lock TWIN_LOCK_TAKE h) in *.
    destruct (th_insert_spec wide h1 (sl_map l) k v Hr1) as (h' & He & Hr' & Hm & Hl).
    { rewrite lookup_sl_map. destruct Hroom as [?|Hlt]; [by left|right]. rewrite (tr_len _ _ Hr1), size_sl_map by done.
      unfold hash_cap in Hlt. change (th_slots h1) with (th_slots h). lia. }
    unfold th_home in He. rewrite He. cbn [mbind option_bind]. eexists. split; [|split].
    + rewrite lookup_sl_map. by destruct (sl_lookup k l).
    + split; [by apply sorted_sl_insert|]. apply th_rep_lock. by rewrite sl_map_insert.
    + unfold hash_cap, th_slots. simpl. by rewrite Hm.
  - intros h l k c [Hs Hr]. cbn [tw_get hash_ops]. unfold twin_hash_get. cbv zeta. pose proof (th_rep_lock h _ TWIN_LOCK_TAKE Hr) as Hr1.
    pose proof (th_get_spec wide _ _ k Hr1) as He. unfold th_home in He. rewrite He. cbn [mbind option_bind].
    rewrite lookup_sl_map, th_lock_back. by destruct (sl_lookup k l).
  - intros h l k [Hs Hr]. cbn [tw_remove hash_ops]. unfold twin_hash_remove. cbv zeta. pose proof (th_rep_lock h _ TWIN_LOCK_TAKE Hr) as Hr1.
    destruct (th_remove_spec wide _ _ k Hr1) as (h' & He & Hr' & Hm & Hl). unfold th_home in He. rewrite He.
    cbn [mbind option_bind]. eexists. split; [|split].
    + rewrite lookup_sl_map. by destruct (sl_lookup k l).
    + split; [by apply sorted_sl_delete|]. apply th_rep_lock. by rewrite sl_map_delete.
    + unfold hash_cap, th_slots. simpl. by rewrite Hm.
  - intros h l lo hi a [Hs Hr]. cbn [tw_aggregate hash_ops]. unfold twin_hash_aggregate. cbv zeta. pose proof (th_rep_lock h _ TWIN_LOCK_TAKE Hr) as Hr1.
    set (h1 := th_with_lock TWIN_LOCK_TAKE h) in *. pose proof (tr_shape _ _ Hr1) as Hsh. pose proof (th_slots_pos _ Hsh).
    rewrite (twin_agg_init_nil wide), hash_scan_spec by (done || rewrite ?th_fuel_slots by done; lia).
    cbn [mbind option_bind app]. change (th_with_lock TWIN_LOCK_GIVE h1) with (th_with_lock TWIN_LOCK_GIVE (th_with_lock TWIN_LOCK_TAKE h)). rewrite th_lock_back.
    assert ((sl_range lo hi (th_entries h1 0 (th_fuel h1))).*2 ≡ₚ (sl_range lo hi l).*2) as ->; [|by rewrite Z.gtb_ltb].
    apply fmap_Permutation, filter_Permutation. by rewrite th_entries_all, sl_map_to_list.
  - intros h l [Hs Hr]. simpl. by rewrite (tr_len _ _ Hr), size_sl_map.
Defined.
