(* ===== verification/TwinSorted.v ===== *)
(** * The sorted-array twin

    Model of [twin_sorted] of [src/components/expanse/test/twin_containers.c]:
    parallel key and value arrays of fixed capacity, binary search, [memmove].
    The proofs reuse the sorted array of [alts.c]: below its capacity the twin
    performs the same array operations. *)
From stdpp Require Import base numbers list sorting gmap.
From S2P Require Import Prelude SortedAssoc ExpanseApi HostLock MemTable Alts SortedArray Twins.
Open Scope Z_scope.

Record twin_sorted := TwinSorted {
  ts_keys : list Z; ts_vals : list Z; ts_len : Z; ts_cap : Z; ts_lock : lock
}.
Definition ts_with_lock (f : lock → lock) (s : twin_sorted) : twin_sorted :=
  TwinSorted (ts_keys s) (ts_vals s) (ts_len s) (ts_cap s) (f (ts_lock s)).

Section Width.
Context (wide : bool).

(** Index of the first element [>= key]; [fuel] bounds the halvings. *)
Fixpoint twin_lb_loop (fuel : nat) (ks : list Z) (key lo hi : Z) : option Z :=
  match fuel with
  | O => None
  | S fuel =>
      if lo <? hi then
        let mid := lo + (hi - lo) / 2 in
        x ← arr_get ks mid;
        if x <? key then twin_lb_loop fuel ks key (mid + 1) hi else twin_lb_loop fuel ks key lo mid
      else Some lo
  end.
Definition twin_sorted_lb (s : twin_sorted) (key : Z) : option Z :=
  twin_lb_loop (S (Z.to_nat (ts_len s))) (ts_keys s) key 0 (ts_len s).

Record ts_oks := TsOks { ok_s : bool; ok_skeys : bool; ok_svals : bool; ok_slock : bool }.
Definition twin_sorted_create (oks : ts_oks) (capacity : Z) (g : ledger) : option twin_sorted * ledger :=
  if negb (ok_s oks) then (None, g)
  else
    let g := twin_calloc (ok_svals oks) (twin_calloc (ok_skeys oks) (twin_calloc true g)) in
    if negb (ok_skeys oks) || negb (ok_svals oks) then
      (None, twin_free true (twin_free (ok_svals oks) (twin_free (ok_skeys oks) g)))
    else
      let z := replicate (Z.to_nat capacity) 0 in
      (Some (TwinSorted z z 0 capacity (TWIN_LOCK_INIT (ok_slock oks))), twin_mutex (ok_slock oks) g).
Definition twin_sorted_destroy (s : option twin_sorted) (g : ledger) : ledger :=
  match s with
  | None => g
  | Some s => twin_free true (twin_free true (twin_free true (TWIN_LOCK_FREE (ts_lock s) g)))
  end.

(** [i < s->len && s->keys[i] == key] *)
Definition ts_hit (s : twin_sorted) (i key : Z) : option bool :=
  if i <? ts_len s then x ← arr_get (ts_keys s) i; Some (x =? key) else Some false.

Definition twin_sorted_insert (s : option twin_sorted) (key value : Z) : option (bool * option twin_sorted) :=
  match s with
  | None => Some (false, None)
  | Some s =>
      let s := ts_with_lock TWIN_LOCK_TAKE s in
      i ← twin_sorted_lb s key;
      hit ← ts_hit s i key;
      if (hit : bool) then
        vs ← arr_set (ts_vals s) i value;
        Some (false, Some (ts_with_lock TWIN_LOCK_GIVE (TwinSorted (ts_keys s) vs (ts_len s) (ts_cap s) (ts_lock s))))
      else if ts_len s =? ts_cap s then Some (false, Some (ts_with_lock TWIN_LOCK_GIVE s))
      else
        '(ks, vs) ← (if i <? ts_len s then
                       ks ← arr_move (ts_keys s) (i + 1) i (ts_len s - i);
                       vs ← arr_move (ts_vals s) (i + 1) i (ts_len s - i);
                       Some (ks, vs)
                     else Some (ts_keys s, ts_vals s));
        ks ← arr_set ks i key;
        vs ← arr_set vs i value;
        Some (true, Some (ts_with_lock TWIN_LOCK_GIVE
                            (TwinSorted ks vs (size_wrap wide (ts_len s + 1)) (ts_cap s) (ts_lock s))))
  end.

Definition twin_sorted_get (s : option twin_sorted) (key : Z) (out_value : option Z)
  : option (bool * option Z * option twin_sorted) :=
  match s with
  | None => Some (false, out_value, None)
  | Some s =>
      let s := ts_with_lock TWIN_LOCK_TAKE s in
      i ← twin_sorted_lb s key;
      found ← ts_hit s i key;
      out_value ← (match out_value with
                   | Some c => if (found : bool) then v ← arr_get (ts_vals s) i; Some (Some v) else Some (Some c)
                   | None => Some None
                   end);
      Some (found, out_value, Some (ts_with_lock TWIN_LOCK_GIVE s))
  end.

Definition twin_sorted_remove (s : option twin_sorted) (key : Z) : option (bool * option twin_sorted) :=
  match s with
  | None => Some (false, None)
  | Some s =>
      let s := ts_with_lock TWIN_LOCK_TAKE s in
      i ← twin_sorted_lb s key;
      hit ← ts_hit s i key;
      if negb hit then Some (false, Some (ts_with_lock TWIN_LOCK_GIVE s))
      else
        ks ← arr_move (ts_keys s) i (i + 1) (ts_len s - i - 1);
        vs ← arr_move (ts_vals s) i (i + 1) (ts_len s - i - 1);
        Some (true, Some (ts_with_lock TWIN_LOCK_GIVE
                            (TwinSorted ks vs (size_wrap wide (ts_len s - 1)) (ts_cap s) (ts_lock s))))
  end.

(** The walk of [twin_sorted_aggregate] from index [i]. *)
Fixpoint twin_walk (fuel : nat) (s : twin_sorted) (hi i : Z) (out : agg) : option agg :=
  match fuel with
  | O => None
  | S fuel =>
      if i <? ts_len s then
        k ← arr_get (ts_keys s) i;
        if k <=? hi then
          v ← arr_get (ts_vals s) i; twin_walk fuel s hi (i + 1) (agg_add wide out v)
        else Some out
      else Some out
  end.
Definition ts_fuel (s : twin_sorted) : nat := S (Z.to_nat (ts_len s)).
Definition twin_sorted_aggregate (s : option twin_sorted) (lo hi : Z) (out : option agg)
  : option (bool * option agg * option twin_sorted) :=
  match s, out with
  | Some s, Some _ =>
      let s := ts_with_lock TWIN_LOCK_TAKE s in
      i ← twin_sorted_lb s lo;
      out ← twin_walk (ts_fuel s) s hi i twin_agg_init;
      Some (count out >? 0, Some out, Some (ts_with_lock TWIN_LOCK_GIVE s))
  | _, _ => Some (false, out, s)
  end.

(** [twin_visit_fn]: key, value and the aggregate behind [ctx]; false stops the walk. *)
Definition twin_visit_agg (key value : Z) (ctx : agg) : bool * agg := (true, agg_add wide ctx (u32 value)).
Fixpoint twin_walk_indirect (fuel : nat) (s : twin_sorted) (hi i : Z) (visit : Z → Z → agg → bool * agg) (out : agg)
  : option agg :=
  match fuel with
  | O => None
  | S fuel =>
      if i <? ts_len s then
        k ← arr_get (ts_keys s) i;
        if k <=? hi then
          v ← arr_get (ts_vals s) i;
          let '(go, out) := visit k v out in
          if go then twin_walk_indirect fuel s hi (i + 1) visit out else Some out
        else Some out
      else Some out
  end.
Definition twin_sorted_aggregate_indirect (s : option twin_sorted) (lo hi : Z)
    (visit : option (Z → Z → agg → bool * agg)) (out : option agg)
  : option (bool * option agg * option twin_sorted) :=
  match s, out, visit with
  | Some s, Some _, Some visit =>
      let s := ts_with_lock TWIN_LOCK_TAKE s in
      i ← twin_sorted_lb s lo;
      out ← twin_walk_indirect (ts_fuel s) s hi i visit twin_agg_init;
      Some (count out >? 0, Some out, Some (ts_with_lock TWIN_LOCK_GIVE s))
  | _, _, _ => Some (false, out, s)
  end.

Definition twin_sorted_len (s : option twin_sorted) : Z := match s with Some s => ts_len s | None => 0 end.
End Width.

(** ** The same array operations as the sorted array of [alts.c] *)
Definition as_sarr (s : twin_sorted) : sarr := Sarr (ts_keys s) (ts_vals s) (ts_len s) (ts_cap s).

Lemma lb_loop_lower fuel ks k lo hi :
  0 <= lo → hi < 2 ^ 31 → twin_lb_loop fuel ks k lo hi = sa_lower_loop fuel ks k lo hi.
Proof.
  revert lo hi. induction fuel as [|fuel IH]; intros lo hi Hlo Hhi; [done|]. cbn [twin_lb_loop sa_lower_loop].
  destruct (Z.ltb_spec lo hi) as [Hlt|]; [|done]. rewrite u32_small by word_lia.
  assert (lo + (hi - lo) / 2 = (lo + hi) / 2) as Hmid.
  { replace (lo + hi) with (hi - lo + lo * 2) by lia. rewrite Z.div_add by lia. lia. }
  rewrite Hmid. assert (lo <= (lo + hi) / 2 < hi) by (split; [apply Z.div_le_lower_bound|apply Z.div_lt_upper_bound]; lia).
  destruct (arr_get ks _) as [x|]; [|done]. cbn [mbind option_bind]. destruct (x <? k); apply IH; lia.
Qed.
Lemma lb_lower s k : ts_len s < 2 ^ 31 → twin_sorted_lb s k = sa_lower (as_sarr s) k.
Proof. intros Hl. by apply lb_loop_lower. Qed.

(** ** The twin's interface *)
#[export] Instance sorted_ops wide : TwinOps wide twin_sorted := {
  tw_insert := twin_sorted_insert wide;
  tw_get := twin_sorted_get;
  tw_remove := twin_sorted_remove wide;
  tw_aggregate := twin_sorted_aggregate wide;
  tw_len := twin_sorted_len;
}.
Definition ts_rep (s : twin_sorted) (l : assoc) : Prop := sa_rep (as_sarr s) l.

Lemma arr_move_zero {A} (l : list A) dst src :
  0 <= dst <= Z.of_nat (length l) → 0 <= src <= Z.of_nat (length l) → arr_move l dst src 0 = Some l.
Proof. intros Hd Hs. rewrite arr_move_Some by lia. simpl. by rewrite Z.add_0_r, take_drop. Qed.
Lemma size_wrap_u32 wide z : is_u32 z → size_wrap wide z = u32 z.
Proof.
  intros Hz. rewrite u32_small by done. apply Z.mod_small. unfold is_u32 in Hz.
  destruct wide; simpl Z.pow in *; lia.
Qed.

(** What the search and the test after it find. *)
Lemma ts_search s l k :
  ts_rep s l →
  ∃ l1 l2, l = l1 ++ l2 ∧ sa_lower (as_sarr s) k = Some (Z.of_nat (length l1))
    ∧ twin_sorted_lb s k = Some (Z.of_nat (length l1))
    ∧ ts_hit s (Z.of_nat (length l1)) k = Some (negb (is_none (sl_lookup k l)))
    ∧ (∀ e, e ∈ l1 → e.1 < k) ∧ (∀ e, e ∈ l2 → k <= e.1).
Proof.
  intros Hr. destruct (sa_lower_spec _ l k Hr) as (l1 & l2 & -> & H1 & H2 & Hlow). exists l1, l2.
  pose proof (sa_rep_room _ _ Hr) as Hrm. pose proof (sr_cap _ _ Hr) as Hc. simpl in *. split_and!; try done.
  - rewrite lb_lower by lia. done.
  - unfold ts_hit. pose proof (sa_hit _ l1 l2 k Hr) as Hh. simpl in Hh. rewrite Hh.
    rewrite (sl_lookup_cut l1 l2 k (sr_sorted _ _ Hr) H1 H2). destruct l2 as [|[k' v'] l2]; [done|]. by destruct (k' =? k).
Qed.

Section Sorted.
Context (wide : bool).

Lemma ts_insert_spec s l k v :
  ts_rep s l → is_u32 k → is_Some (sl_lookup k l) ∨ Z.of_nat (length l) < ts_cap s →
  ∃ s', twin_sorted_insert wide (Some s) k v = Some (is_none (sl_lookup k l), Some s')
      ∧ ts_rep s' (sl_insert k v l) ∧ ts_cap s' = ts_cap s ∧ ts_lock s' = ts_lock s.
Proof.
  intros Hr Hk Hroom. destruct (sa_insert_spec _ l k v Hr Hk Hroom) as (r & Hins & Hr' & Hcap).
  destruct (ts_search s l k Hr) as (l1 & l2 & Hl & Hlow & Hlb & Hhit & _).
  pose proof (sr_len _ _ Hr) as Hlen. pose proof (sa_rep_room _ _ Hr) as Hrm. pose proof (sr_cap _ _ Hr) as Hc.
  pose proof (sr_klen _ _ Hr) as Hkl. pose proof (sr_vlen _ _ Hr) as Hvl. simpl in *.
  exists (TwinSorted (keys r) (vals r) (len r) (cap r) (ts_lock s)). split; [|by destruct r].
  unfold twin_sorted_insert. cbv zeta.
  change (twin_sorted_lb (ts_with_lock TWIN_LOCK_TAKE s) k) with (twin_sorted_lb s k). rewrite Hlb. cbn [mbind option_bind].
  change (ts_hit (ts_with_lock TWIN_LOCK_TAKE s)) with (ts_hit s). rewrite Hhit. cbn [mbind option_bind].
  unfold sa_insert in Hins. rewrite Hlow in Hins. cbn [mbind option_bind] in Hins. unfold ts_hit in Hhit. simpl in Hins.
  rewrite Hhit in Hins. cbn [mbind option_bind] in Hins. unfold ts_with_lock. simpl. rewrite twin_lock_balance.
  destruct (sl_lookup k l) as [o|] eqn:Hlk; simpl in Hins |- *.
  - destruct (arr_set (ts_vals s) _ v) as [vs|]; [|done]. cbn [mbind option_bind] in *. by injection Hins as <-.
  - destruct Hroom as [[? [=]]|Hroom]. rewrite (proj2 (Z.eqb_neq _ _)) by lia.
    rewrite size_wrap_u32 by word_lia. assert (ts_len s < ts_cap s) by lia. rewrite Hl, length_app in Hlen.
    destruct (Z.ltb_spec (Z.of_nat (length l1)) (ts_len s)) as [Hlt|Hge].
    + destruct (arr_move (ts_keys s) _ _ _) as [ks|]; [|done]. destruct (arr_move (ts_vals s) _ _ _) as [vs|]; [|done].
      cbn [mbind option_bind] in *. destruct (arr_set ks _ _) as [ks'|]; [|done]. destruct (arr_set vs _ _) as [vs'|]; [|done].
      cbn [mbind option_bind] in *. by injection Hins as <-.
    + replace (ts_len s - Z.of_nat (length l1)) with 0 in Hins by lia. rewrite !arr_move_zero in Hins by lia.
      cbn [mbind option_bind] in *. destruct (arr_set (ts_keys s) _ _) as [ks'|]; [|done].
      destruct (arr_set (ts_vals s) _ _) as [vs'|]; [|done]. cbn [mbind option_bind] in *. by injection Hins as <-.
Qed.

(** A full array refuses a new key and stays as it is. *)
Lemma ts_insert_full s l k v :
  ts_rep s l → sl_lookup k l = None → Z.of_nat (length l) = ts_cap s →
  twin_sorted_insert wide (Some s) k v = Some (false, Some s).
Proof.
  intros Hr Hk Hfull. destruct (ts_search s l k Hr) as (l1 & l2 & Hl & Hlow & Hlb & Hhit & _).
  unfold twin_sorted_insert. cbv zeta.
  change (twin_sorted_lb (ts_with_lock TWIN_LOCK_TAKE s) k) with (twin_sorted_lb s k). rewrite Hlb. cbn [mbind option_bind].
  change (ts_hit (ts_with_lock TWIN_LOCK_TAKE s)) with (ts_hit s). rewrite Hhit, Hk. cbn [mbind option_bind is_none negb].
  pose proof (sr_len _ _ Hr) as Hlen. unfold ts_with_lock. simpl in *. rewrite twin_lock_balance.
  rewrite (proj2 (Z.eqb_eq _ _)) by lia. by destruct s.
Qed.

Lemma ts_get_spec s l k c :
  ts_rep s l →
  twin_sorted_get (Some s) k (Some c)
  = Some (negb (is_none (sl_lookup k l)), Some (default c (sl_lookup k l)), Some s).
Proof.
  intros Hr. pose proof (sa_get_spec _ l k Hr) as Hget.
  destruct (ts_search s l k Hr) as (l1 & l2 & Hl & Hlow & Hlb & Hhit & _).
  unfold twin_sorted_get. cbv zeta.
  change (twin_sorted_lb (ts_with_lock TWIN_LOCK_TAKE s) k) with (twin_sorted_lb s k). rewrite Hlb. cbn [mbind option_bind].
  change (ts_hit (ts_with_lock TWIN_LOCK_TAKE s)) with (ts_hit s). rewrite Hhit. cbn [mbind option_bind].
  unfold sa_get in Hget. rewrite Hlow in Hget. cbn [mbind option_bind] in Hget. unfold ts_hit in Hhit. simpl in Hget.
  rewrite Hhit in Hget. cbn [mbind option_bind] in Hget. unfold ts_with_lock. simpl. rewrite twin_lock_balance.
  destruct (sl_lookup k l) as [o|]; simpl in Hget |- *; [|by destruct s].
  destruct (arr_get (ts_vals s) _) as [v|]; [|done]. simpl in Hget. injection Hget as ->. by destruct s.
Qed.

Lemma ts_remove_spec s l k :
  ts_rep s l →
  ∃ s', twin_sorted_remove wide (Some s) k = Some (negb (is_none (sl_lookup k l)), Some s')
      ∧ ts_rep s' (sl_delete k l) ∧ ts_cap s' = ts_cap s ∧ ts_lock s' = ts_lock s.
Proof.
  intros Hr. destruct (sa_remove_spec _ l k Hr) as (r & Hrem & Hr' & Hcap).
  destruct (ts_search s l k Hr) as (l1 & l2 & Hl & Hlow & Hlb & Hhit & _).
  pose proof (sr_len _ _ Hr) as Hlen. pose proof (sa_rep_room _ _ Hr) as Hrm. pose proof (sr_cap _ _ Hr) as Hc. simpl in *.
  exists (TwinSorted (keys r) (vals r) (len r) (cap r) (ts_lock s)). split; [|by destruct r].
  unfold twin_sorted_remove. cbv zeta.
  change (twin_sorted_lb (ts_with_lock TWIN_LOCK_TAKE s) k) with (twin_sorted_lb s k). rewrite Hlb. cbn [mbind option_bind].
  change (ts_hit (ts_with_lock TWIN_LOCK_TAKE s)) with (ts_hit s). rewrite Hhit. cbn [mbind option_bind].
  unfold sa_remove in Hrem. rewrite Hlow in Hrem. cbn [mbind option_bind] in Hrem. pose proof Hhit as Hhit'. unfold ts_hit in Hhit. simpl in Hrem.
  rewrite Hhit in Hrem. cbn [mbind option_bind] in Hrem. unfold ts_with_lock. simpl. rewrite twin_lock_balance.
  destruct (sl_lookup k l) as [o|]; simpl in Hrem |- *; [|injection Hrem as <-; by destruct s].
  assert (Z.of_nat (length l1) < ts_len s) as Hlt.
  { unfold ts_hit in Hhit'. destruct (Z.ltb_spec (Z.of_nat (length l1)) (ts_len s)); [done|]. simpl in Hhit'. congruence. }
  unfold sa_erase in Hrem. simpl in Hrem. rewrite !(u32_small (_ + 1)), !(u32_small (_ - 1)) in Hrem by word_lia.
  rewrite size_wrap_u32, u32_small by word_lia.
  destruct (arr_move (ts_keys s) _ _ _) as [ks|]; [|done]. destruct (arr_move (ts_vals s) _ _ _) as [vs|]; [|done].
  cbn [mbind option_bind] in *. by injection Hrem as <-.
Qed.

(** The walk from the lower bound meets exactly the entries of the range, in order. *)
Lemma walk_indirect_spec (fuel : nat) s l1 l2 l3 hi visit out :
  ts_rep s (l1 ++ l2 ++ l3) → (∀ e, e ∈ l2 → e.1 <= hi) → (∀ e, e ∈ l3 → hi < e.1) → (length l2 < fuel)%nat →
  twin_walk_indirect fuel s hi (Z.of_nat (length l1)) visit out = Some (walk visit l2 out).2.
Proof.
  revert fuel l1 out. induction l2 as [|[k v] l2 IH]; intros fuel l1 out Hr H2 H3 Hf;
    (destruct fuel as [|fuel]; [simpl in Hf; lia|]); cbn [twin_walk_indirect];
    pose proof (sr_len _ _ Hr) as Hlen; rewrite !length_app in Hlen; simpl in Hlen.
  - destruct l3 as [|[k v] l3]; simpl in Hlen.
    + by rewrite (proj2 (Z.ltb_ge _ _)) by lia.
    + rewrite (proj2 (Z.ltb_lt _ _)) by lia. pose proof (sr_key _ _ (Z.of_nat (length l1)) Hr) as Hk. simpl in Hk.
      rewrite Hk by lia. rewrite Nat2Z.id, fmap_app, lookup_app_r by (by rewrite length_fmap).
      rewrite length_fmap, Nat.sub_diag. cbn. specialize (H3 (k, v) (list_elem_of_here _ _)). simpl in H3.
      by rewrite (proj2 (Z.leb_gt _ _)).
  - rewrite (proj2 (Z.ltb_lt _ _)) by lia. pose proof (sr_key _ _ (Z.of_nat (length l1)) Hr) as Hk.
    pose proof (sr_val _ _ (Z.of_nat (length l1)) Hr) as Hv. simpl in Hk, Hv. rewrite Hk, Hv by lia.
    rewrite Nat2Z.id, !fmap_app, !lookup_app_r by (by rewrite length_fmap). rewrite !length_fmap, Nat.sub_diag. cbn.
    specialize (H2 (k, v) (list_elem_of_here _ _)) as Hkh. simpl in Hkh. rewrite (proj2 (Z.leb_le _ _)) by done.
    destruct (visit k v out) as [go out']. destruct go; [|done].
    replace (Z.of_nat (length l1) + 1) with (Z.of_nat (length (l1 ++ [(k, v)]))) by (rewrite length_app; simpl; lia).
    apply IH; [by rewrite <- (assoc_L (++))| |done|simpl in Hf; lia]. intros e He. apply H2. by right.
Qed.
Lemma walk_as_indirect fuel s hi i out :
  twin_walk wide fuel s hi i out = twin_walk_indirect fuel s hi i (λ _ v a, (true, agg_add wide a v)) out.
Proof.
  revert i out. induction fuel as [|fuel IH]; intros i out; [done|]. cbn [twin_walk twin_walk_indirect].
  destruct (i <? ts_len s); [|done]. destruct (arr_get (ts_keys s) i) as [k|]; [|done]. cbn [mbind option_bind].
  destruct (k <=? hi); [|done]. destruct (arr_get (ts_vals s) i) as [v|]; [|done]. cbn [mbind option_bind]. apply IH.
Qed.

Lemma ts_range_cut s l lo hi :
  ts_rep s l →
  ∃ l1 l3, l = l1 ++ sl_range lo hi l ++ l3 ∧ twin_sorted_lb s lo = Some (Z.of_nat (length l1)) ∧ (∀ e, e ∈ l3 → hi < e.1).
Proof.
  intros Hr. destruct (ts_search s l lo Hr) as (l1 & r & -> & _ & Hlb & _ & H1 & H2).
  destruct (sorted_app _ _ (sr_sorted _ _ Hr)) as (_ & Hsr & _).
  destruct (sorted_cut (hi + 1) r Hsr) as (l2 & l3 & -> & H3 & H4). exists l1, l3.
  assert (∀ e, e ∈ l3 → hi < e.1) as H3' by (intros e He; specialize (H4 e He); lia).
  split; [|done]. f_equal. f_equal. unfold sl_range. rewrite !filter_app.
  rewrite (list_filter_none _ l1), (list_filter_none _ l3), app_nil_r, list_filter_all; [done|..].
  - intros e He. specialize (H3 e He). specialize (H2 e (proj2 (elem_of_app _ _ _) (or_introl He))). lia.
  - intros e He. specialize (H3' e He). lia.
  - intros e He. specialize (H1 e He). lia.
Qed.

Lemma ts_fuel_range s l lo hi : ts_rep s l → (length (sl_range lo hi l) < ts_fuel s)%nat.
Proof.
  intros Hr. pose proof (sr_len _ _ Hr) as Hl. simpl in Hl. unfold ts_fuel. rewrite Hl, Nat2Z.id.
  unfold sl_range. pose proof (length_filter (λ e : Z * Z, lo <= e.1 ∧ e.1 <= hi) l). lia.
Qed.
Lemma ts_lock_back s : ts_with_lock TWIN_LOCK_GIVE (ts_with_lock TWIN_LOCK_TAKE s) = s.
Proof. destruct s. unfold ts_with_lock. simpl. by rewrite twin_lock_balance. Qed.

(** Any visitor sees the entries of the range in key order, until it stops the walk. *)
Lemma ts_indirect_spec s l lo hi visit a :
  ts_rep s l →
  twin_sorted_aggregate_indirect (Some s) lo hi (Some visit) (Some a)
  = let out := (walk visit (sl_range lo hi l) twin_agg_init).2 in Some (count out >? 0, Some out, Some s).
Proof.
  intros Hr. destruct (ts_range_cut s l lo hi Hr) as (l1 & l3 & Hl & Hlb & H3).
  unfold twin_sorted_aggregate_indirect. cbv zeta.
  change (twin_sorted_lb (ts_with_lock TWIN_LOCK_TAKE s) lo) with (twin_sorted_lb s lo). rewrite Hlb. cbn [mbind option_bind].
  rewrite (walk_indirect_spec _ _ l1 (sl_range lo hi l) l3), ts_lock_back; [done| | |done|].
  - rewrite Hl in Hr. exact Hr.
  - intros e [He _]%elem_of_sl_range. lia.
  - exact (ts_fuel_range s l lo hi Hr).
Qed.
Lemma walk_agg_add (l : assoc) vs :
  walk (λ _ v a, (true, agg_add wide a v)) l (agg_of wide vs) = (true, agg_of wide (vs ++ l.*2)).
Proof.
  revert vs. induction l as [|[k v] l IH]; intros vs; simpl; [by rewrite app_nil_r|].
  rewrite agg_add_snoc, IH. by rewrite <- (assoc_L (++)).
Qed.
Lemma ts_aggregate_indirect s lo hi a :
  twin_sorted_aggregate wide (Some s) lo hi (Some a)
  = twin_sorted_aggregate_indirect (Some s) lo hi (Some (λ _ v a, (true, agg_add wide a v))) (Some a).
Proof.
  unfold twin_sorted_aggregate, twin_sorted_aggregate_indirect. cbv zeta.
  destruct (twin_sorted_lb _ lo) as [i|]; [|done]. cbn [mbind option_bind]. by rewrite walk_as_indirect.
Qed.
Lemma ts_aggregate_spec s l lo hi a :
  ts_rep s l →
  twin_sorted_aggregate wide (Some s) lo hi (Some a)
  = Some (0 <? count (agg_of wide (sl_range lo hi l).*2), Some (agg_of wide (sl_range lo hi l).*2), Some s).
Proof.
  intros Hr. rewrite ts_aggregate_indirect, (ts_indirect_spec s l) by done. cbv zeta.
  rewrite (twin_agg_init_nil wide), walk_agg_add. simpl. by rewrite Z.gtb_ltb.
Qed.
End Sorted.

#[export] Instance sorted_laws wide : TwinLaws wide twin_sorted.
Proof.
  refine {| tw_rep := ts_rep; tw_cap := ts_cap |}.
  - intros s l Hr. exact (sr_sorted _ _ Hr).
  - intros s l k v Hr Hk _ Hroom. destruct (ts_insert_spec wide s l k v Hr Hk Hroom) as (s' & ? & ? & ? & _). by exists s'.
  - intros s l k c Hr. by apply ts_get_spec.
  - intros s l k Hr. destruct (ts_remove_spec wide s l k Hr) as (s' & ? & ? & ? & _). by exists s'.
  - intros s l lo hi a Hr. by apply ts_aggregate_spec.
  - intros s l Hr. exact (sr_len _ _ Hr).
Defined.

Lemma ts_create_spec capacity lock_ok g :
  0 <= capacity < 2 ^ 20 →
  ∃ s, twin_sorted_create (TsOks true true true lock_ok) capacity g
       = (Some s, twin_mutex lock_ok (twin_calloc true (twin_calloc true (twin_calloc true g))))
     ∧ ts_rep s [] ∧ ts_cap s = capacity.
Proof.
  intros Hc. eexists. split; [done|]. split; [|done]. split; simpl; try done.
  - by eexists.
  - by eexists.
  - rewrite length_replicate. lia.
  - rewrite length_replicate. lia.
  - apply sorted_nil.
Qed.
