(* ===== verification/TwinRing.v ===== *)
(** * The ring twin

    Model of [twin_ring] of [src/components/expanse/test/twin_containers.c]: a
    fixed ring over monotonic keys, no index.  The write position wraps at the
    capacity, so a full ring drops its oldest entry.  [None] is an access
    outside an array (the first write of a ring of capacity 0). *)
From stdpp Require Import base numbers list sorting gmap.
From S2P Require Import Prelude SortedAssoc ExpanseApi HostLock MemTable Twins.
Open Scope Z_scope.

Record twin_ring := TwinRing {
  tg_keys : list Z; tg_vals : list Z; tg_cap : Z; tg_head : Z; tg_len : Z; tg_lock : lock
}.
Definition tg_with_lock (f : lock → lock) (r : twin_ring) : twin_ring :=
  TwinRing (tg_keys r) (tg_vals r) (tg_cap r) (tg_head r) (tg_len r) (f (tg_lock r)).

Section Width.
Context (wide : bool).

Record tg_oks := TgOks { ok_r : bool; ok_rkeys : bool; ok_rvals : bool; ok_rlock : bool }.
Definition twin_ring_create (oks : tg_oks) (capacity : Z) (g : ledger) : option twin_ring * ledger :=
  if negb (ok_r oks) then (None, g)
  else
    let g := twin_calloc (ok_rvals oks) (twin_calloc (ok_rkeys oks) (twin_calloc true g)) in
    if negb (ok_rkeys oks) || negb (ok_rvals oks) then
      (None, twin_free true (twin_free (ok_rvals oks) (twin_free (ok_rkeys oks) g)))
    else
      let z := replicate (Z.to_nat capacity) 0 in
      (Some (TwinRing z z capacity 0 0 (TWIN_LOCK_INIT (ok_rlock oks))), twin_mutex (ok_rlock oks) g).
Definition twin_ring_destroy (r : option twin_ring) (g : ledger) : ledger :=
  match r with
  | None => g
  | Some r => twin_free true (twin_free true (twin_free true (TWIN_LOCK_FREE (tg_lock r) g)))
  end.

Definition twin_ring_insert (r : option twin_ring) (key value : Z) : option (bool * option twin_ring) :=
  match r with
  | None => Some (false, None)
  | Some r =>
      let r := tg_with_lock TWIN_LOCK_TAKE r in
      ks ← arr_set (tg_keys r) (tg_head r) key;
      vs ← arr_set (tg_vals r) (tg_head r) value;
      let head := size_wrap wide (tg_head r + 1) mod tg_cap r in
      let len := if tg_len r <? tg_cap r then tg_len r + 1 else tg_len r in
      Some (true, Some (tg_with_lock TWIN_LOCK_GIVE (TwinRing ks vs (tg_cap r) head len (tg_lock r))))
  end.

(** The scan of [twin_ring_get], [n] slots from [i]. *)
Fixpoint ring_find (n : nat) (r : twin_ring) (key i : Z) : option (option Z) :=
  match n with
  | O => Some None
  | S n =>
      k ← arr_get (tg_keys r) i;
      if k =? key then v ← arr_get (tg_vals r) i; Some (Some v) else ring_find n r key (i + 1)
  end.
Definition twin_ring_get (r : option twin_ring) (key : Z) (out_value : option Z)
  : option (bool * option Z * option twin_ring) :=
  match r with
  | None => Some (false, out_value, None)
  | Some r =>
      let r := tg_with_lock TWIN_LOCK_TAKE r in
      f ← ring_find (Z.to_nat (tg_len r)) r key 0;
      let r := Some (tg_with_lock TWIN_LOCK_GIVE r) in
      match f with
      | Some v => Some (true, match out_value with Some _ => Some v | None => None end, r)
      | None => Some (false, out_value, r)
      end
  end.

Fixpoint ring_scan (n : nat) (r : twin_ring) (lo hi i : Z) (out : agg) : option agg :=
  match n with
  | O => Some out
  | S n =>
      k ← arr_get (tg_keys r) i;
      if (k >=? lo) && (k <=? hi) then
        v ← arr_get (tg_vals r) i; ring_scan n r lo hi (i + 1) (agg_add wide out v)
      else ring_scan n r lo hi (i + 1) out
  end.
Definition twin_ring_aggregate (r : option twin_ring) (lo hi : Z) (out : option agg)
  : option (bool * option agg * option twin_ring) :=
  match r, out with
  | Some r, Some _ =>
      let r := tg_with_lock TWIN_LOCK_TAKE r in
      out ← ring_scan (Z.to_nat (tg_len r)) r lo hi 0 twin_agg_init;
      Some (count out >? 0, Some out, Some (tg_with_lock TWIN_LOCK_GIVE r))
  | _, _ => Some (false, out, r)
  end.

Definition twin_ring_len (r : option twin_ring) : Z := match r with Some r => tg_len r | None => 0 end.

(** A stream of inserts. *)
Fixpoint ring_feed (r : option twin_ring) (es : assoc) : option (option twin_ring) :=
  match es with
  | [] => Some r
  | (k, v) :: es => '(_, r) ← twin_ring_insert r k v; ring_feed r es
  end.
End Width.

(** ** What a ring holds: the window [w], oldest entry first *)
Record ring_rep (r : twin_ring) (w : assoc) : Prop := {
  rg_cap : 0 < tg_cap r < 2 ^ 31;
  rg_klen : Z.of_nat (length (tg_keys r)) = tg_cap r;
  rg_vlen : Z.of_nat (length (tg_vals r)) = tg_cap r;
  rg_len : tg_len r = Z.of_nat (length w);
  rg_fill : (tg_len r < tg_cap r ∧ tg_head r = tg_len r ∧ take (length w) (zip (tg_keys r) (tg_vals r)) = w)
          ∨ (tg_len r = tg_cap r ∧ 0 <= tg_head r < tg_cap r
             ∧ drop (Z.to_nat (tg_head r)) (zip (tg_keys r) (tg_vals r))
               ++ take (Z.to_nat (tg_head r)) (zip (tg_keys r) (tg_vals r)) = w);
}.
(** The newest [cap] entries. *)
Definition window (cap : Z) (es : assoc) : assoc := drop (length es - Z.to_nat cap) es.

Lemma zip_insert {A B} (l : list A) (k : list B) i x y :
  zip (<[i := x]> l) (<[i := y]> k) = <[i := (x, y)]> (zip l k).
Proof.
  revert i k. induction l as [|a l IH]; intros [|i] [|b k]; simpl; try done. f_equal. apply IH.
Qed.
Lemma tg_lock_back r : tg_with_lock TWIN_LOCK_GIVE (tg_with_lock TWIN_LOCK_TAKE r) = r.
Proof. destruct r. unfold tg_with_lock. simpl. by rewrite twin_lock_balance. Qed.

Lemma ring_insert_spec wide r w k v :
  ring_rep r w →
  ∃ r', twin_ring_insert wide (Some r) k v = Some (true, Some r') ∧ ring_rep r' (window (tg_cap r) (w ++ [(k, v)]))
      ∧ tg_cap r' = tg_cap r ∧ tg_lock r' = tg_lock r.
Proof.
  intros [Hcap Hkl Hvl Hlen Hfill].
  assert (0 <= tg_head r < tg_cap r) as Hh by (destruct Hfill as [(? & ? & _)|(? & ? & _)]; lia).
  unfold twin_ring_insert. cbv zeta. unfold tg_with_lock. simpl.
  rewrite !arr_set_Some by lia. cbn [mbind option_bind]. eexists. split; [done|].
  split; [|split; [done|simpl; apply twin_lock_balance]].
  assert (size_wrap wide (tg_head r + 1) = tg_head r + 1) as ->.
  { apply Z.mod_small. destruct wide; simpl Z.pow in *; lia. }
  set (z := zip (tg_keys r) (tg_vals r)) in *.
  assert (Z.of_nat (length z) = tg_cap r) as Hz by (unfold z; rewrite length_zip_with; lia).
  split; simpl; try done; rewrite ?length_insert; try done.
  - unfold window. rewrite length_drop, length_app. simpl. destruct (Z.ltb_spec (tg_len r) (tg_cap r)); lia.
  - rewrite zip_insert. fold z. unfold window. rewrite length_app. simpl. destruct Hfill as [(Hlt & Hhd & Hw)|(Hfull & _ & Hw)].
    + rewrite (proj2 (Z.ltb_lt _ _)) by lia. rewrite Hhd in *.
      replace (length w + 1 - Z.to_nat (tg_cap r))%nat with 0%nat by lia. rewrite drop_0, length_app. simpl.
      assert (take (length w + 1) (<[Z.to_nat (tg_len r) := (k, v)]> z) = w ++ [(k, v)]) as Htk.
      { rewrite Hlen, Nat2Z.id, Nat.add_1_r. rewrite (take_S_r _ _ (k, v)).
        - by rewrite take_insert_ge, Hw by lia.
        - apply list_lookup_insert_eq. lia. }
      destruct (decide (tg_len r + 1 < tg_cap r)) as [Hl1|Hl1].
      * left. rewrite Z.mod_small by lia. split_and!; [lia|lia|done].
      * right. replace (tg_len r + 1) with (tg_cap r) by lia. rewrite Z.mod_same by lia. split_and!; [lia|lia|lia|].
        change (Z.to_nat 0) with 0%nat. rewrite drop_0, take_0, app_nil_r, <- Htk. rewrite take_ge; [done|].
        rewrite length_insert. lia.
    + rewrite (proj2 (Z.ltb_ge _ _)) by lia. right. split; [lia|].
      replace (length w + 1 - Z.to_nat (tg_cap r))%nat with 1%nat by lia.
      set (h := Z.to_nat (tg_head r)) in *. assert (h < length z)%nat as Hhz by lia.
      destruct (lookup_lt_is_Some_2 z h Hhz) as [x Hx]. rewrite <- Hw. rewrite (drop_S z x h Hx). simpl.
      destruct (decide (tg_head r + 1 < tg_cap r)) as [Hl1|Hl1].
      * rewrite Z.mod_small by lia. split; [lia|]. replace (Z.to_nat (tg_head r + 1)) with (S h) by lia.
        rewrite drop_insert_lt by lia. rewrite (take_S_r _ _ (k, v)) by (apply list_lookup_insert_eq; lia).
        rewrite take_insert_ge by lia. by rewrite !(assoc_L (++)).
      * replace (tg_head r + 1) with (tg_cap r) by lia. rewrite Z.mod_same by lia. split; [lia|].
        change (Z.to_nat 0) with 0%nat. rewrite drop_0, take_0, app_nil_r. rewrite (drop_ge z (S h)) by lia. simpl.
        by rewrite insert_take_drop, (drop_ge z (S h)) by lia.
Qed.

(** The slots the scans read are the window, in some order. *)
Definition ring_slots (r : twin_ring) : assoc := take (Z.to_nat (tg_len r)) (zip (tg_keys r) (tg_vals r)).
Lemma ring_slots_perm r w : ring_rep r w → ring_slots r ≡ₚ w.
Proof.
  intros [Hcap Hkl Hvl Hlen Hfill]. unfold ring_slots. destruct Hfill as [(_ & _ & Hw)|(Hfull & _ & Hw)].
  - by rewrite Hlen, Nat2Z.id, Hw.
  - rewrite take_ge by (rewrite length_zip_with; lia). rewrite <- Hw, (comm (++)). by rewrite take_drop.
Qed.
Lemma ring_slot r w (n : nat) e :
  ring_rep r w → ring_slots r !! n = Some e → arr_get (tg_keys r) (Z.of_nat n) = Some e.1 ∧ arr_get (tg_vals r) (Z.of_nat n) = Some e.2.
Proof.
  intros Hr He. unfold ring_slots in He. apply lookup_take_Some in He as [He _]. rewrite !arr_get_nat.
  by apply lookup_zip_with_Some in He as (k & v & -> & -> & ->).
Qed.

Lemma sl_lookup_perm (l l' : assoc) k : NoDup l.*1 → l ≡ₚ l' → sl_lookup k l = sl_lookup k l'.
Proof.
  intros Hnd Hp. induction Hp as [|[k' v] l l' _ IH|[k1 v1] [k2 v2] l|l1 l2 l3 Hp1 IH1 _ IH2]; simpl in *; [done| | |].
  - apply NoDup_cons in Hnd as [_ Hnd]. by rewrite IH.
  - apply NoDup_cons in Hnd as [Hne _]. destruct (Z.eqb_spec k k1), (Z.eqb_spec k k2); subst; try done.
    exfalso. apply Hne. by left.
  - rewrite IH1 by done. apply IH2. by rewrite <- Hp1.
Qed.
Lemma ring_find_spec r w k (l1 l2 : assoc) :
  ring_rep r w → ring_slots r = l1 ++ l2 →
  ring_find (length l2) r k (Z.of_nat (length l1)) = Some (sl_lookup k l2).
Proof.
  intros Hr. revert l1. induction l2 as [|[k' v] l2 IH]; intros l1 Hs; [done|]. cbn [ring_find length sl_lookup].
  destruct (ring_slot r w (length l1) (k', v) Hr) as [-> ->]; [rewrite Hs; by apply list_lookup_middle|]. cbn [mbind option_bind fst snd].
  rewrite Z.eqb_sym. destruct (k =? k'); [done|].
  replace (Z.of_nat (length l1) + 1) with (Z.of_nat (length (l1 ++ [(k', v)]))) by (rewrite length_app; simpl; lia).
  apply IH. by rewrite <- (assoc_L (++)).
Qed.
Lemma ring_scan_spec wide r w lo hi (l1 l2 : assoc) vs :
  ring_rep r w → ring_slots r = l1 ++ l2 →
  ring_scan wide (length l2) r lo hi (Z.of_nat (length l1)) (agg_of wide vs)
  = Some (agg_of wide (vs ++ (sl_range lo hi l2).*2)).
Proof.
  intros Hr. revert l1 vs. induction l2 as [|[k' v] l2 IH]; intros l1 vs Hs; [by rewrite app_nil_r|]. cbn [ring_scan length].
  destruct (ring_slot r w (length l1) (k', v) Hr) as [-> ->]; [rewrite Hs; by apply list_lookup_middle|]. cbn [mbind option_bind fst snd].
  replace (Z.of_nat (length l1) + 1) with (Z.of_nat (length (l1 ++ [(k', v)]))) by (rewrite length_app; simpl; lia).
  assert (ring_slots r = (l1 ++ [(k', v)]) ++ l2) as Hs' by (by rewrite <- (assoc_L (++))).
  unfold sl_range. rewrite filter_cons. cbn [fst].
  destruct ((k' >=? lo) && (k' <=? hi)) eqn:Hin; [rewrite decide_True by (bool_facts; lia)|rewrite decide_False].
  - rewrite agg_add_snoc, IH by done. by rewrite <- (assoc_L (++)).
  - by apply IH.
  - apply andb_false_iff in Hin as [?|?]; bool_facts; lia.
Qed.
Lemma ring_slots_len r w : ring_rep r w → length (ring_slots r) = Z.to_nat (tg_len r).
Proof.
  intros Hr. rewrite (ring_slots_perm r w Hr), (rg_len _ _ Hr). by rewrite Nat2Z.id.
Qed.

Lemma ring_get_spec r w k c :
  ring_rep r w → NoDup w.*1 →
  twin_ring_get (Some r) k (Some c) = Some (negb (is_none (sl_lookup k w)), Some (default c (sl_lookup k w)), Some r).
Proof.
  intros Hr Hnd. unfold twin_ring_get. cbv zeta.
  change (ring_find (Z.to_nat (tg_len (tg_with_lock TWIN_LOCK_TAKE r))) (tg_with_lock TWIN_LOCK_TAKE r) k 0)
    with (ring_find (Z.to_nat (tg_len (tg_with_lock TWIN_LOCK_TAKE r))) (tg_with_lock TWIN_LOCK_TAKE r) k (Z.of_nat (length (@nil (Z * Z))))).
  assert (ring_rep (tg_with_lock TWIN_LOCK_TAKE r) w) as Hr1 by (by destruct Hr).
  rewrite <- (ring_slots_len _ _ Hr1), (ring_find_spec _ w k [] (ring_slots _) Hr1) by done. cbn [mbind option_bind].
  rewrite tg_lock_back. rewrite (sl_lookup_perm _ w) by (by apply ring_slots_perm || rewrite ring_slots_perm).
  by destruct (sl_lookup k w).
Qed.
Lemma ring_aggregate_spec wide r w lo hi a :
  ring_rep r w →
  twin_ring_aggregate wide (Some r) lo hi (Some a)
  = Some (0 <? count (agg_of wide (sl_range lo hi w).*2), Some (agg_of wide (sl_range lo hi w).*2), Some r).
Proof.
  intros Hr. unfold twin_ring_aggregate. cbv zeta. assert (ring_rep (tg_with_lock TWIN_LOCK_TAKE r) w) as Hr1 by (by destruct Hr).
  rewrite (twin_agg_init_nil wide). change 0 with (Z.of_nat (length (@nil (Z * Z)))) at 1.
  rewrite <- (ring_slots_len _ _ Hr1), (ring_scan_spec wide _ w lo hi [] (ring_slots _) _ Hr1) by done. cbn [mbind option_bind app].
  rewrite tg_lock_back. assert ((sl_range lo hi (ring_slots (tg_with_lock TWIN_LOCK_TAKE r))).*2 ≡ₚ (sl_range lo hi w).*2) as ->.
  { apply fmap_Permutation, filter_Permutation. by apply ring_slots_perm. }
  by rewrite Z.gtb_ltb.
Qed.

Lemma window_snoc cap es e : 0 < cap → window cap (window cap es ++ [e]) = window cap (es ++ [e]).
Proof.
  intros Hc. unfold window. rewrite !length_app, length_drop. simpl.
  destruct (decide (length es <= Z.to_nat cap)%nat) as [Hle|Hgt].
  - replace (length es - Z.to_nat cap)%nat with 0%nat by lia. rewrite drop_0, Nat.sub_0_r. done.
  - rewrite !drop_app_le by (rewrite ?length_drop; lia). rewrite drop_drop. do 2 f_equal. lia.
Qed.
Lemma ring_feed_spec wide r es0 es :
  ring_rep r (window (tg_cap r) es0) →
  ∃ r', ring_feed wide (Some r) es = Some (Some r') ∧ ring_rep r' (window (tg_cap r) (es0 ++ es))
      ∧ tg_cap r' = tg_cap r ∧ tg_lock r' = tg_lock r.
Proof.
  revert r es0. induction es as [|[k v] es IH]; intros r es0 Hr; [exists r; by rewrite app_nil_r|].
  cbn [ring_feed]. destruct (ring_insert_spec wide r _ k v Hr) as (r1 & -> & Hr1 & Hc & Hl). cbn [mbind option_bind].
  rewrite window_snoc in Hr1 by apply (rg_cap _ _ Hr). rewrite <- Hc in Hr1.
  destruct (IH r1 (es0 ++ [(k, v)]) Hr1) as (r2 & -> & Hr2 & Hc2 & Hl2). rewrite <- (assoc_L (++)) in Hr2. simpl in Hr2.
  exists r2. rewrite Hc in Hr2, Hc2. split_and!; try done. congruence.
Qed.
Lemma ring_create_spec capacity lock_ok g :
  0 < capacity < 2 ^ 31 →
  ∃ r, twin_ring_create (TgOks true true true lock_ok) capacity g
       = (Some r, twin_mutex lock_ok (twin_calloc true (twin_calloc true (twin_calloc true g))))
     ∧ ring_rep r [] ∧ tg_cap r = capacity.
Proof.
  intros Hc. eexists. split; [done|]. split; [|done]. split; simpl; rewrite ?length_replicate; try lia; try done.
  left. split_and!; [lia|done|done].
Qed.
