(* ===== verification/TwinTheorems.v ===== *)
(** * The telemetry arms of the benchmark agree

    The comparison of [src/components/expanse/test] measures the memtable, the
    hash twin, the sorted twin and the ring on one workload.  The theorems here
    say that the arms compute the same answers, which is what makes their times
    comparable, and where a twin stops doing so. *)
From stdpp Require Import base numbers list sorting gmap.
From S2P Require Import Prelude SortedAssoc ExpanseApi HostLock MemTable Alts SortedArray Twins Probing TwinHash TwinHashProofs TwinSorted TwinRing.
Open Scope Z_scope.

(** ** Reserving the hash table *)
Section Create.
Context (wide : bool).

Lemma twin_cap_spec (fuel : nat) a want :
  0 <= a <= 30 → want <= 2 ^ 30 → 30 - a < Z.of_nat fuel →
  ∃ b, a <= b <= 30 ∧ twin_cap wide fuel (2 ^ a) want = Some (2 ^ b) ∧ want <= 2 ^ b.
Proof.
  revert a. induction fuel as [|fuel IH]; intros a Ha Hw Hf; [lia|]. cbn [twin_cap].
  destruct (Z.ltb_spec (2 ^ a) want) as [Hlt|Hge]; [|exists a; split_and!; (done || lia)].
  assert (a < 30) by (apply (Z.pow_lt_mono_r_iff 2); lia).
  replace (Z.shiftl (2 ^ a) 1) with (2 ^ (a + 1)) by (rewrite Z.shiftl_mul_pow2, Z.pow_add_r by lia; lia).
  assert (0 < 2 ^ (a + 1) <= 2 ^ 30) by (split; [apply Z.pow_pos_nonneg|apply Z.pow_le_mono_r]; lia).
  rewrite size_wrap_u32, u32_small by word_lia.
  destruct (IH (a + 1)) as (b & Hb & He & Hwb); [lia..|]. exists b. split_and!; try done; lia.
Qed.
Lemma arr_get_zeros (n : nat) i : 0 <= i < Z.of_nat n → arr_get (replicate n 0) i = Some 0.
Proof.
  intros Hi. unfold arr_get. rewrite (proj2 (Z.leb_le _ _)) by lia. apply lookup_replicate. split; [done|lia].
Qed.
Lemma empty_rep b lk :
  3 <= b <= 30 →
  let z := replicate (Z.to_nat (2 ^ b)) 0 in hash_rep (TwinHash z z z (2 ^ b - 1) 0 lk) [].
Proof.
  intros Hb z. assert (0 < 2 ^ b) by (apply Z.pow_pos_nonneg; lia). split; [apply sorted_nil|].
  assert (∀ i, 0 <= i < 2 ^ b → th_at (TwinHash z z z (2 ^ b - 1) 0 lk) i = None) as Hat.
  { intros i Hi. unfold th_at. simpl. unfold z. rewrite arr_get_zeros by lia. done. }
  split; simpl; try done.
  - split; unfold th_slots; simpl; unfold z; rewrite ?length_replicate; try lia. exists b. split; [done|lia].
  - unfold th_slots. simpl. lia.
  - split; unfold th_slots; simpl.
    + intros i j x y Hi Hj Hx. rewrite Hat in Hx by lia. done.
    + intros i x e Hi Hx. rewrite Hat in Hx by lia. done.
  - intros k x. unfold th_slots. simpl. split.
    + rewrite lookup_tagged. done.
    + intros (_ & i & Hi & Hx). rewrite Hat in Hx by lia. done.
Qed.
(** The reservation leaves a slot free for the expected population, at a load of at most 0.7. *)
Lemma hash_create_spec e lock_ok g :
  0 <= e → e * 10 < 2 ^ 32 →
  ∃ h, twin_hash_create wide (ThOks true true true true lock_ok) e g
       = Some (Some h, twin_mutex lock_ok (twin_calloc true (twin_calloc true (twin_calloc true (twin_calloc true g)))))
     ∧ hash_rep h [] ∧ e * 10 <= 7 * (hash_cap h + 1) ∧ e <= hash_cap h.
Proof.
  intros He Hw. unfold twin_hash_create.
  assert (twin_want wide e = e * 10 / 7 + 1) as Hwant.
  { assert (0 <= e * 10 / 7 <= e * 10) by (split; [apply Z.div_pos|apply Z.div_le_upper_bound]; lia).
    unfold twin_want. rewrite !size_wrap_u32 by (unfold is_u32; rewrite ?size_wrap_u32, ?u32_small by word_lia; word_lia).
    rewrite (u32_small (e * 10)), u32_small by word_lia. done. }
  assert (e * 10 / 7 + 1 <= 2 ^ 30) by (cut (e * 10 / 7 < 2 ^ 30); [lia|apply Z.div_lt_upper_bound; lia]).
  destruct (twin_cap_spec 64 3 (twin_want wide e)) as (b & Hb & Hc & Hwb); [lia|lia|lia|].
  change 8 with (2 ^ 3). rewrite Hc. cbn [mbind option_bind]. eexists. split; [done|].
  split; [by apply empty_rep|]. unfold hash_cap, th_slots. simpl.
  pose proof (Z.mul_div_le (e * 10) 7). pose proof (Z.mul_succ_div_gt (e * 10) 7). lia.
Qed.
End Create.

Definition fresh_hash (wide lock_ok : bool) (e : Z) : option twin_hash :=
  match twin_hash_create wide (ThOks true true true true lock_ok) e (Ledger 0 0 0) with
  | Some (h, _) => h
  | None => None
  end.
Definition fresh_sorted (lock_ok : bool) (cap : Z) : option twin_sorted :=
  (twin_sorted_create (TsOks true true true lock_ok) cap (Ledger 0 0 0)).1.
Definition fresh_ring (lock_ok : bool) (cap : Z) : option twin_ring :=
  (twin_ring_create (TgOks true true true lock_ok) cap (Ledger 0 0 0)).1.

Lemma fresh_hash_rep wide lock_ok e :
  0 <= e → e * 10 < 2 ^ 32 → ∃ h, fresh_hash wide lock_ok e = Some h ∧ hash_rep h [] ∧ e <= hash_cap h.
Proof.
  intros He Hw. destruct (hash_create_spec wide e lock_ok (Ledger 0 0 0)) as (h & Hc & Hr & _ & Hcap); [done..|].
  exists h. unfold fresh_hash. by rewrite Hc.
Qed.
Lemma fresh_sorted_rep lock_ok c :
  0 <= c < 2 ^ 20 → ∃ s, fresh_sorted lock_ok c = Some s ∧ ts_rep s [] ∧ ts_cap s = c.
Proof.
  intros Hc. destruct (ts_create_spec c lock_ok (Ledger 0 0 0)) as (s & Hs & Hr & Hcap); [done|].
  exists s. unfold fresh_sorted. by rewrite Hs.
Qed.
Lemma fits_mono wide c c' l ops : c <= c' → fits wide c l ops = true → fits wide c' l ops = true.
Proof.
  intros Hc. revert l. induction ops as [|op ops IH]; intros l; cbn [fits]; intros Hf; bool_facts;
    (apply andb_true_intro; split; [apply Z.leb_le; lia|]); [done|by apply IH].
Qed.
Lemma twin_ops_ok ops : Forall twin_op_ok ops → Forall op_ok ops.
Proof. intros Hf. eapply Forall_impl; [exact Hf|]. by intros []. Qed.

(** C18: on any sequence of inserts, lookups, removals, range aggregates and
    length queries whose population stays within the reservation [e], the
    memtable, the hash twin reserved for [e] entries and the sorted twin of
    capacity [e] return the same results call by call (a twin's insert and
    remove report no old value) and end with the same entries; every probe,
    search and shift loop ends. *)
Theorem telemetry_arms_agree {M : Type} `{ExpanseMapLaws M} (wide lock_ok : bool) (e : Z) (ops : list mt_op) :
  0 <= e < 2 ^ 20 → Forall twin_op_ok ops → fits wide e [] ops = true → Z.of_nat (length ops) <= 2 ^ 32 →
  ∃ (mt : option (memtable M)) rs h s,
    exec_ops wide (fresh_table lock_ok) ops = Some (mt, rs)
    ∧ twin_run wide (fresh_hash wide lock_ok e) ops = Some (Some h, zip_with seen ops rs)
    ∧ twin_run wide (fresh_sorted lock_ok e) ops = Some (Some s, zip_with seen ops rs)
    ∧ hash_rep h (contents mt) ∧ ts_rep s (contents mt).
Proof.
  intros He Hops Hfit Hlen. destruct (fresh_table_ok (M := M) lock_ok) as [Hok Hc].
  destruct (exec_ops_refines wide _ ops Hok (twin_ops_ok ops Hops)) as (mt & Hmt & Hmc & _); [rewrite Hc; simpl; lia|].
  destruct (fresh_hash_rep wide lock_ok e) as (h & Hh & Hhr & Hhc); [lia|lia|].
  destruct (fresh_sorted_rep lock_ok e) as (s & Hs & Hsr & Hsc); [lia|].
  destruct (twin_run_refines (T := twin_hash) wide h [] ops) as (h' & Hhrun & Hhr' & _);
    [done|done|by apply (fits_mono wide e)|].
  destruct (twin_run_refines (T := twin_sorted) wide s [] ops) as (s' & Hsrun & Hsr' & _);
    [done|done|by apply (fits_mono wide e); [simpl; lia|]|].
  rewrite Hc in Hmt, Hmc. exists mt, (spec_ops wide [] ops).2, h', s'. rewrite Hh, Hs, Hmc. done.
Qed.

(** A ring fed with strictly increasing keys never refuses one and holds
    exactly the newest [cap] entries: its length, every lookup and every range
    aggregate are those of that window, whatever the position of the wrap. *)
Theorem ring_holds_window (wide lock_ok : bool) (cap : Z) (es : assoc) :
  0 < cap < 2 ^ 31 → sorted es →
  ∃ r, ring_feed wide (fresh_ring lock_ok cap) es = Some (Some r)
    ∧ twin_ring_len (Some r) = Z.min cap (Z.of_nat (length es))
    ∧ (∀ k c, twin_ring_get (Some r) k (Some c)
              = Some (negb (is_none (sl_lookup k (window cap es))), Some (default c (sl_lookup k (window cap es))), Some r))
    ∧ (∀ lo hi a, let out := agg_of wide (sl_range lo hi (window cap es)).*2 in
        twin_ring_aggregate wide (Some r) lo hi (Some a) = Some (0 <? count out, Some out, Some r)).
Proof.
  intros Hcap Hs. destruct (ring_create_spec cap lock_ok (Ledger 0 0 0)) as (r0 & Hc & Hr0 & Hcap0); [done|].
  unfold fresh_ring. rewrite Hc. destruct (ring_feed_spec wide r0 [] es) as (r & Hf & Hr & Hcr & _).
  { unfold window. by rewrite drop_nil. }
  simpl in Hr. rewrite Hcap0 in *. exists r. split_and!; [done| | |].
  - simpl. rewrite (rg_len _ _ Hr). unfold window. rewrite length_drop. lia.
  - intros k c. apply ring_get_spec; [done|]. unfold window.
    pose proof (sorted_NoDup es Hs) as Hnd. rewrite <- (take_drop (length es - Z.to_nat cap) es), fmap_app in Hnd.
    by apply NoDup_app in Hnd as (_ & _ & ?).
  - intros lo hi a. by apply ring_aggregate_spec.
Qed.

(** ** A table without an empty slot *)
Lemma probe_full {K E} `{EqDecision K} (key : E → K) n T k (fuel : nat) i :
  1 <= n → 0 <= i < n → (∀ j, 0 <= j < n → ∃ x, T j = Some x ∧ key x ≠ k) → probe key n fuel T k i = None.
Proof.
  intros Hn Hi Hfull. revert i Hi. induction fuel as [|fuel IH]; intros i Hi; [done|]. cbn [probe].
  destruct (Hfull i Hi) as (x & -> & Hx). rewrite decide_False by done. apply IH. by apply ring_at_range.
Qed.
(** When every slot of the hash twin is in use, inserting, looking up or
    removing a key the table does not hold never returns: the loops exhaust any
    number of steps. *)
Theorem hash_full_diverges (wide : bool) (h : twin_hash) (k v : Z) (fuel : nat) :
  th_shape h → (∀ i, 0 <= i < th_slots h → ∃ x, th_at h i = Some x ∧ x.1 ≠ k) →
  twin_insert_loop wide fuel h k v (twin_hash_slot (th_mask h) k) = None
  ∧ twin_get_loop wide fuel h k (twin_hash_slot (th_mask h) k) = None
  ∧ twin_remove_loop wide fuel h k (twin_hash_slot (th_mask h) k) = None.
Proof.
  intros Hsh Hfull. pose proof (th_home_range h Hsh k) as Hk. pose proof (th_slots_pos h Hsh).
  assert (probe fst (th_slots h) fuel (th_at h) k (th_home h k) = None) as Hp by (apply probe_full; (done || lia)).
  unfold th_home in *. rewrite insert_probe, get_probe, remove_probe, Hp by done. done.
Qed.

(** The walk through a function pointer differs from the inlined one in
    nothing but the dispatch: with [twin_visit_agg] it returns the same result
    on every table of 32-bit values, and any visitor is called on exactly the
    entries of the range in ascending key order until it asks to stop. *)
Theorem indirect_is_dispatch_only (wide : bool) (s : twin_sorted) (l : assoc) (lo hi : Z) (a : agg) :
  ts_rep s l → Forall is_u32 l.*2 →
  twin_sorted_aggregate_indirect (Some s) lo hi (Some (twin_visit_agg wide)) (Some a)
  = twin_sorted_aggregate wide (Some s) lo hi (Some a)
  ∧ ∀ visit, twin_sorted_aggregate_indirect (Some s) lo hi (Some visit) (Some a)
           = let out := (walk visit (sl_range lo hi l) twin_agg_init).2 in Some (count out >? 0, Some out, Some s).
Proof.
  intros Hr Hv. split; [|intros visit; by apply ts_indirect_spec].
  rewrite ts_aggregate_indirect, !(ts_indirect_spec s l) by done.
  assert (∀ r out, Forall is_u32 r.*2 → walk (twin_visit_agg wide) r out = walk (λ _ v a, (true, agg_add wide a v)) r out) as Hw.
  { intros r. induction r as [|[k v] r IH]; intros out Hu; [done|]. simpl in Hu. apply Forall_cons in Hu as [Hu Hus].
    simpl. rewrite u32_small by done. by apply IH. }
  rewrite Hw; [done|]. apply Forall_fmap, Forall_forall. intros e [_ He]%elem_of_sl_range.
  rewrite Forall_fmap, Forall_forall in Hv. by apply Hv.
Qed.

(** ** Witnesses *)
Definition demo_run : list mt_op :=
  [OpInsert 1700000000 5; OpInsert 1700000060 7; OpInsert 1700000000 6; OpGet 1700000060;
   OpAggregate 1699999999 1700000060; OpRemove 1700000000; OpGet 1700000000; OpLen].
Example demo_run_hash :
  snd <$> twin_run false (fresh_hash false true 4) demo_run
  = Some [RFound true 0; RFound true 0; RFound false 0; RFound true 7; RAgg true (Agg 6 7 13 2);
          RFound true 0; RFound false 0; RCount 1].
Proof. vm_compute. reflexivity. Qed.
Lemma telemetry_arms_agree_witness :
  fits false 4 [] demo_run = true ∧
  ∃ (mt : option (memtable (gmap Z Z))) rs h s,
    exec_ops false (fresh_table true) demo_run = Some (mt, rs)
    ∧ twin_run false (fresh_hash false true 4) demo_run = Some (Some h, zip_with seen demo_run rs)
    ∧ twin_run false (fresh_sorted true 4) demo_run = Some (Some s, zip_with seen demo_run rs)
    ∧ hash_rep h (contents mt) ∧ ts_rep s (contents mt).
Proof.
  split; [vm_compute; reflexivity|].
  apply (telemetry_arms_agree (M := gmap Z Z) false true 4 demo_run); [lia| |vm_compute; reflexivity|simpl; lia].
  repeat constructor; word_lia.
Defined.

Definition demo_feed : assoc := [(10, 1); (20, 2); (30, 3); (40, 4); (50, 5)].
Lemma demo_feed_sorted : sorted demo_feed.
Proof. repeat constructor; unfold key_lt; simpl; lia. Qed.
(** Five entries through a ring of three: the first two are gone. *)
Lemma ring_holds_window_witness :
  ∃ r, ring_feed false (fresh_ring true 3) demo_feed = Some (Some r)
    ∧ twin_ring_len (Some r) = 3
    ∧ twin_ring_get (Some r) 20 (Some 9) = Some (false, Some 9, Some r)
    ∧ twin_ring_get (Some r) 40 (Some 9) = Some (true, Some 4, Some r).
Proof.
  destruct (ring_holds_window false true 3 demo_feed) as (r & Hf & Hl & Hg & _); [lia|exact demo_feed_sorted|].
  exists r. split; [exact Hf|]. split; [exact Hl|]. split; [exact (Hg 20 9)|exact (Hg 40 9)].
Defined.

(** A table reserved for five entries and given eight. *)
Definition full_hash : twin_hash :=
  match twin_run false (fresh_hash false true 5) ((λ k, OpInsert k k) <$> [11; 12; 13; 14; 15; 16; 17; 18]) with
  | Some (Some h, _) => h
  | _ => TwinHash [] [] [] 0 0 (Lock false 0)
  end.
Lemma full_hash_shape : th_shape full_hash.
Proof. split; [exists 3; split; [lia|]| | |]; vm_compute; reflexivity. Qed.
Lemma full_hash_full i : 0 <= i < th_slots full_hash → ∃ x, th_at full_hash i = Some x ∧ x.1 ≠ 99.
Proof.
  intros Hi. change (th_slots full_hash) with 8 in Hi.
  assert (i = 0 ∨ i = 1 ∨ i = 2 ∨ i = 3 ∨ i = 4 ∨ i = 5 ∨ i = 6 ∨ i = 7) as Hc by lia.
  destruct_or! Hc; subst i; (eexists; split; [vm_compute; reflexivity|simpl; lia]).
Qed.
Lemma hash_full_diverges_witness :
  th_len full_hash = 8 ∧ twin_get_loop false 1000 full_hash 99 (twin_hash_slot (th_mask full_hash) 99) = None.
Proof.
  split; [vm_compute; reflexivity|].
  exact (proj1 (proj2 (hash_full_diverges false full_hash 99 0 1000 full_hash_shape full_hash_full))).
Defined.

Definition demo_sorted : twin_sorted := TwinSorted [1; 4; 9; 0] [10; 40; 90; 0] 3 4 (Lock true 0).
Lemma demo_sorted_rep : ts_rep demo_sorted [(1, 10); (4, 40); (9, 90)].
Proof.
  split; simpl; try done; try lia.
  - by exists [0].
  - by exists [0].
  - repeat constructor; unfold key_lt; simpl; lia.
  - repeat constructor; word_lia.
Qed.
Lemma demo_sorted_vals : Forall is_u32 [(1, 10); (4, 40); (9, 90)].*2.
Proof. simpl. repeat constructor; word_lia. Qed.
Lemma indirect_is_dispatch_only_witness :
  twin_sorted_aggregate_indirect (Some demo_sorted) 2 9 (Some (twin_visit_agg false)) (Some agg_init)
  = Some (true, Some (Agg 40 90 130 2), Some demo_sorted).
Proof.
  rewrite (proj1 (indirect_is_dispatch_only false demo_sorted [(1, 10); (4, 40); (9, 90)] 2 9 agg_init demo_sorted_rep
    demo_sorted_vals)). vm_compute. reflexivity.
Defined.
