(* ===== verification/TwinBle.v ===== *)
(** * The BLE twins

    Model of [twin_ble_hash] and [twin_ble_scan] of
    [src/components/expanse/test/twin_containers.c]: the tracker's record in an
    open-addressing table keyed by MAC, and in a flat array searched linearly.
    [memcmp] of two addresses is equality of their six bytes. *)
From stdpp Require Import base numbers list sorting gmap.
From S2P Require Import Prelude SortedAssoc ExpanseApi HostLock BleTracker MemTable Twins Probing TwinHash.
Open Scope Z_scope.

(** FNV-1a over the six bytes of the address. *)
Definition mac_hash (m : list Z) : Z :=
  foldl (λ h b, u32 (Z.lxor h b * 16777619)) 2166136261 (take 6 m).
Definition same_mac (a b : list Z) : bool := bool_decide (a = b).

(** ** The hash twin *)
Record twin_ble_hash := TwinBleHash {
  bh_recs : list ble_record; bh_used : list Z; bh_mask : Z; bh_len : Z; bh_lock : lock
}.
Definition bh_with_lock (f : lock → lock) (t : twin_ble_hash) : twin_ble_hash :=
  TwinBleHash (bh_recs t) (bh_used t) (bh_mask t) (bh_len t) (f (bh_lock t)).

Section Width.
Context (wide : bool).

Record bh_oks := BhOks { ok_bt : bool; ok_brecs : bool; ok_bused : bool; ok_block : bool }.
Definition twin_ble_hash_create (oks : bh_oks) (expected_entries : Z) (g : ledger)
  : option (option twin_ble_hash * ledger) :=
  cap ← twin_cap wide 64 8 (twin_want wide expected_entries);
  if negb (ok_bt oks) then Some (None, g)
  else
    let g := twin_calloc (ok_bused oks) (twin_calloc (ok_brecs oks) (twin_calloc true g)) in
    if negb (ok_brecs oks) || negb (ok_bused oks) then
      Some (None, twin_free true (twin_free (ok_bused oks) (twin_free (ok_brecs oks) g)))
    else
      Some (Some (TwinBleHash (replicate (Z.to_nat cap) zero_record) (replicate (Z.to_nat cap) 0) (cap - 1) 0
                    (TWIN_LOCK_INIT (ok_block oks))), twin_mutex (ok_block oks) g).
Definition twin_ble_hash_destroy (t : option twin_ble_hash) (g : ledger) : ledger :=
  match t with
  | None => g
  | Some t => twin_free true (twin_free true (twin_free true (TWIN_LOCK_FREE (bh_lock t) g)))
  end.

Definition bh_next (t : twin_ble_hash) (i : Z) : Z := Z.land (size_wrap wide (i + 1)) (bh_mask t).
Definition bh_slot (mask : Z) (m : list Z) : Z := Z.land (Z.shiftr (mac_hash m) 8) mask.
Definition bh_fuel (t : twin_ble_hash) : nat := S (Z.to_nat (bh_mask t)).

Fixpoint ble_record_loop (fuel : nat) (t : twin_ble_hash) (rec : ble_record) (i : Z) : option (bool * twin_ble_hash) :=
  match fuel with
  | O => None
  | S fuel =>
      u ← arr_get (bh_used t) i;
      if u =? 0 then
        rs ← arr_set (bh_recs t) i rec;
        us ← arr_set (bh_used t) i 1;
        Some (true, TwinBleHash rs us (bh_mask t) (size_wrap wide (bh_len t + 1)) (bh_lock t))
      else
        r ← arr_get (bh_recs t) i;
        if same_mac (mac r) (mac rec) then
          rs ← arr_set (bh_recs t) i rec;
          Some (false, TwinBleHash rs (bh_used t) (bh_mask t) (bh_len t) (bh_lock t))
        else ble_record_loop fuel t rec (bh_next t i)
  end.
Definition twin_ble_hash_record (t : option twin_ble_hash) (rec : option ble_record)
  : option (bool * option twin_ble_hash) :=
  match t, rec with
  | Some t, Some rec =>
      let t := bh_with_lock TWIN_LOCK_TAKE t in
      '(b, t) ← ble_record_loop (bh_fuel t) t rec (bh_slot (bh_mask t) (mac rec));
      Some (b, Some (bh_with_lock TWIN_LOCK_GIVE t))
  | _, _ => Some (false, t)
  end.

Fixpoint ble_get_loop (fuel : nat) (t : twin_ble_hash) (m : list Z) (i : Z) : option (option ble_record) :=
  match fuel with
  | O => None
  | S fuel =>
      u ← arr_get (bh_used t) i;
      if u =? 0 then Some None
      else
        r ← arr_get (bh_recs t) i;
        if same_mac (mac r) m then Some (Some r) else ble_get_loop fuel t m (bh_next t i)
  end.
Definition twin_ble_hash_get (t : option twin_ble_hash) (m : option (list Z)) (out : option ble_record)
  : option (bool * option ble_record * option twin_ble_hash) :=
  match t, m with
  | Some t, Some m =>
      let t := bh_with_lock TWIN_LOCK_TAKE t in
      f ← ble_get_loop (bh_fuel t) t m (bh_slot (bh_mask t) m);
      let t := Some (bh_with_lock TWIN_LOCK_GIVE t) in
      match f with
      | Some r => Some (true, match out with Some _ => Some r | None => None end, t)
      | None => Some (false, out, t)
      end
  | _, _ => Some (false, out, t)
  end.

(** The sweep over all slots, [n] of them from [i]; a stale slot is only marked free. *)
Fixpoint ble_hash_sweep (n : nat) (t : twin_ble_hash) (cutoff_ms i expired : Z) : option (Z * twin_ble_hash) :=
  match n with
  | O => Some (expired, t)
  | S n =>
      u ← arr_get (bh_used t) i;
      if u =? 0 then ble_hash_sweep n t cutoff_ms (i + 1) expired
      else
        r ← arr_get (bh_recs t) i;
        if twin_is_stale (last_seen_ms r) cutoff_ms then
          us ← arr_set (bh_used t) i 0;
          ble_hash_sweep n (TwinBleHash (bh_recs t) us (bh_mask t) (size_wrap wide (bh_len t - 1)) (bh_lock t))
            cutoff_ms (i + 1) (size_wrap wide (expired + 1))
        else ble_hash_sweep n t cutoff_ms (i + 1) expired
  end.
Definition twin_ble_hash_expire_stale (t : option twin_ble_hash) (cutoff_ms : Z) : option (Z * option twin_ble_hash) :=
  match t with
  | None => Some (0, None)
  | Some t =>
      let t := bh_with_lock TWIN_LOCK_TAKE t in
      '(n, t) ← ble_hash_sweep (bh_fuel t) t cutoff_ms 0 0;
      Some (n, Some (bh_with_lock TWIN_LOCK_GIVE t))
  end.
End Width.

(** ** The scan twin *)
Record twin_ble_scan := TwinBleScan { bs_recs : list ble_record; bs_len : Z; bs_cap : Z; bs_lock : lock }.
Definition bs_with_lock (f : lock → lock) (t : twin_ble_scan) : twin_ble_scan :=
  TwinBleScan (bs_recs t) (bs_len t) (bs_cap t) (f (bs_lock t)).

Record bs_oks := BsOks { ok_st : bool; ok_srecs : bool; ok_sclock : bool }.
Definition twin_ble_scan_create (oks : bs_oks) (capacity : Z) (g : ledger) : option twin_ble_scan * ledger :=
  if negb (ok_st oks) then (None, g)
  else
    let g := twin_calloc (ok_srecs oks) (twin_calloc true g) in
    if negb (ok_srecs oks) then (None, twin_free true g)
    else (Some (TwinBleScan (replicate (Z.to_nat capacity) zero_record) 0 capacity (TWIN_LOCK_INIT (ok_sclock oks))),
          twin_mutex (ok_sclock oks) g).
Definition twin_ble_scan_destroy (t : option twin_ble_scan) (g : ledger) : ledger :=
  match t with
  | None => g
  | Some t => twin_free true (twin_free true (TWIN_LOCK_FREE (bs_lock t) g))
  end.

(** The index of the address among the first [n] records from [i]. *)
Fixpoint scan_find (n : nat) (recs : list ble_record) (m : list Z) (i : Z) : option (option Z) :=
  match n with
  | O => Some None
  | S n => r ← arr_get recs i; if same_mac (mac r) m then Some (Some i) else scan_find n recs m (i + 1)
  end.
Definition twin_ble_scan_record (t : option twin_ble_scan) (rec : option ble_record)
  : option (bool * option twin_ble_scan) :=
  match t, rec with
  | Some t, Some rec =>
      let t := bs_with_lock TWIN_LOCK_TAKE t in
      f ← scan_find (Z.to_nat (bs_len t)) (bs_recs t) (mac rec) 0;
      match f with
      | Some i =>
          rs ← arr_set (bs_recs t) i rec;
          Some (false, Some (bs_with_lock TWIN_LOCK_GIVE (TwinBleScan rs (bs_len t) (bs_cap t) (bs_lock t))))
      | None =>
          if bs_len t =? bs_cap t then Some (false, Some (bs_with_lock TWIN_LOCK_GIVE t))
          else
            rs ← arr_set (bs_recs t) (bs_len t) rec;
            Some (true, Some (bs_with_lock TWIN_LOCK_GIVE (TwinBleScan rs (bs_len t + 1) (bs_cap t) (bs_lock t))))
      end
  | _, _ => Some (false, t)
  end.
Definition twin_ble_scan_get (t : option twin_ble_scan) (m : option (list Z)) (out : option ble_record)
  : option (bool * option ble_record * option twin_ble_scan) :=
  match t, m with
  | Some t, Some m =>
      let t := bs_with_lock TWIN_LOCK_TAKE t in
      f ← scan_find (Z.to_nat (bs_len t)) (bs_recs t) m 0;
      match f with
      | Some i =>
          r ← arr_get (bs_recs t) i;
          Some (true, match out with Some _ => Some r | None => None end, Some (bs_with_lock TWIN_LOCK_GIVE t))
      | None => Some (false, out, Some (bs_with_lock TWIN_LOCK_GIVE t))
      end
  | _, _ => Some (false, out, t)
  end.

(** The compaction: read index [i], write index [w]. *)
Fixpoint scan_compact (n : nat) (recs : list ble_record) (cutoff_ms i w expired : Z) : option (list ble_record * Z * Z) :=
  match n with
  | O => Some (recs, w, expired)
  | S n =>
      r ← arr_get recs i;
      if twin_is_stale (last_seen_ms r) cutoff_ms then scan_compact n recs cutoff_ms (i + 1) w (expired + 1)
      else
        recs ← (if negb (w =? i) then arr_set recs w r else Some recs);
        scan_compact n recs cutoff_ms (i + 1) (w + 1) expired
  end.
Definition twin_ble_scan_expire_stale (t : option twin_ble_scan) (cutoff_ms : Z) : option (Z * option twin_ble_scan) :=
  match t with
  | None => Some (0, None)
  | Some t =>
      let t := bs_with_lock TWIN_LOCK_TAKE t in
      '(rs, w, expired) ← scan_compact (Z.to_nat (bs_len t)) (bs_recs t) cutoff_ms 0 0 0;
      Some (expired, Some (bs_with_lock TWIN_LOCK_GIVE (TwinBleScan rs w (bs_cap t) (bs_lock t))))
  end.
