(* ===== verification/TwinBleProofs.v ===== *)
(** * The BLE twins against the latest record of each device

    Both twins stand for a map from addresses to records.  Expiry keeps exactly
    the fresh records in both; the hash twin's only marks slots free, so it
    keeps the entries but not the probing invariant. *)
From stdpp Require Import base numbers list sorting gmap.
From S2P Require Import Prelude SortedAssoc ExpanseApi HostLock BleTracker MemTable Twins Probing TwinHash TwinHashProofs TwinBle.
Open Scope Z_scope.

(** ** Devices: the latest record of each address *)
Abbreviation fleet := (gmap (list Z) ble_record).
Definition keyed (m : fleet) : Prop := ∀ k r, m !! k = Some r → mac r = k.
Definition sight (m : fleet) (r : ble_record) : fleet := <[mac r := r]> m.
Definition fresh_only (cutoff_ms : Z) (m : fleet) : fleet :=
  filter (λ e, twin_is_stale (last_seen_ms e.2) cutoff_ms = false) m.

Lemma keyed_sight m r : keyed m → keyed (sight m r).
Proof. intros Hm k x. unfold sight. intros [[<- <-]|[_ Hx]]%lookup_insert_Some; [done|by apply Hm]. Qed.

(** ** The hash twin *)
Definition bh_at (t : twin_ble_hash) (i : Z) : option ble_record :=
  u ← arr_get (bh_used t) i; if u =? 0 then None else arr_get (bh_recs t) i.
Definition bh_slots (t : twin_ble_hash) : Z := bh_mask t + 1.
Definition bh_home (t : twin_ble_hash) (m : list Z) : Z := bh_slot (bh_mask t) m.
Definition bh_entries (t : twin_ble_hash) : list ble_record := omap (bh_at t) (seqZ 0 (bh_slots t)).

Record bh_shape (t : twin_ble_hash) : Prop := {
  bsh_pow : ∃ p, 3 <= p <= 30 ∧ bh_slots t = 2 ^ p;
  bsh_recs : Z.of_nat (length (bh_recs t)) = bh_slots t;
  bsh_used : Z.of_nat (length (bh_used t)) = bh_slots t;
}.
Record bh_rep (t : twin_ble_hash) (m : fleet) : Prop := {
  br_shape : bh_shape t;
  br_len : bh_len t = Z.of_nat (size m);
  br_room : bh_len t < bh_slots t;
  br_probing : probing mac (bh_slots t) (bh_home t) (bh_at t);
  br_table : table_of mac (bh_slots t) (bh_at t) m;
}.

Section Slots.
Context (wide : bool) (t : twin_ble_hash).
Hypothesis (Hsh : bh_shape t).

Lemma bh_slots_pos : 8 <= bh_slots t <= 2 ^ 30.
Proof using Hsh.
  destruct (bsh_pow _ Hsh) as (p & Hp & ->). split.
  - change 8 with (2 ^ 3). apply Z.pow_le_mono_r; lia.
  - apply Z.pow_le_mono_r; lia.
Qed.
Lemma bh_land x : Z.land x (bh_mask t) = x mod bh_slots t.
Proof using Hsh.
  destruct (bsh_pow _ Hsh) as (p & Hp & Heq). apply (land_pow2_mask p); [lia|exact Heq].
Qed.
Lemma bh_home_range m : 0 <= bh_home t m < bh_slots t.
Proof using Hsh.
  pose proof bh_slots_pos. unfold bh_home, bh_slot. rewrite bh_land. apply Z.mod_pos_bound. lia.
Qed.
Lemma bh_next_ring i : 0 <= i < bh_slots t → bh_next wide t i = ring_at (bh_slots t) i 1.
Proof using Hsh.
  intros Hi. pose proof bh_slots_pos. unfold bh_next, ring_at, size_wrap. rewrite bh_land.
  rewrite (Z.mod_small (i + 1)); [done|]. destruct wide; simpl Z.pow in *; lia.
Qed.
Lemma bh_read i :
  0 <= i < bh_slots t →
  ∃ u r, arr_get (bh_used t) i = Some u ∧ arr_get (bh_recs t) i = Some r ∧ bh_at t i = if u =? 0 then None else Some r.
Proof using Hsh.
  intros Hi. destruct (arr_get_is_Some (bh_used t) i) as [u Hu]; [by rewrite (bsh_used _ Hsh)|].
  destruct (arr_get_is_Some (bh_recs t) i) as [r Hr]; [by rewrite (bsh_recs _ Hsh)|].
  exists u, r. split_and!; try done. unfold bh_at. by rewrite Hu, Hr.
Qed.
Lemma bh_fuel_slots : bh_fuel t = Z.to_nat (bh_slots t).
Proof using Hsh. pose proof bh_slots_pos. unfold bh_fuel, bh_slots in *. lia. Qed.

Lemma ble_get_probe fuel m i :
  0 <= i < bh_slots t →
  ble_get_loop wide fuel t m i = (j ← probe mac (bh_slots t) fuel (bh_at t) m i; Some (bh_at t j)).
Proof using Hsh.
  pose proof bh_slots_pos. revert i. induction fuel as [|fuel IH]; intros i Hi; [done|]. cbn [ble_get_loop probe].
  destruct (bh_read i Hi) as (u & r & -> & -> & Hat). rewrite Hat. cbn [mbind option_bind].
  destruct (u =? 0); cbn [mbind option_bind]; [by rewrite Hat|]. unfold same_mac. case_bool_decide as Hm.
  - rewrite decide_True by done. cbn [mbind option_bind]. by rewrite Hat.
  - rewrite decide_False by done. rewrite bh_next_ring by done. apply IH, ring_at_range. lia.
Qed.
Lemma ble_record_probe fuel rec i :
  0 <= i < bh_slots t →
  ble_record_loop wide fuel t rec i
  = (j ← probe mac (bh_slots t) fuel (bh_at t) (mac rec) i; ble_record_loop wide 1 t rec j).
Proof using Hsh.
  pose proof bh_slots_pos. revert i. induction fuel as [|fuel IH]; intros i Hi; [done|].
  cbn [probe]. destruct (bh_read i Hi) as (u & r & Hu & Hr & Hat). rewrite Hat.
  cbn [ble_record_loop]. rewrite Hu, Hr. cbn [mbind option_bind].
  destruct (u =? 0) eqn:Hu0; [cbn [mbind option_bind]; by rewrite Hu; cbn [mbind option_bind]; rewrite Hu0|].
  destruct (same_mac (mac r) (mac rec)) eqn:Hs; unfold same_mac in Hs.
  - apply bool_decide_eq_true in Hs. rewrite decide_True by done. cbn [mbind option_bind].
    rewrite Hu, Hr. cbn [mbind option_bind]. rewrite Hu0. unfold same_mac. by rewrite bool_decide_true.
  - apply bool_decide_eq_false in Hs. rewrite decide_False by done. rewrite bh_next_ring by done. apply IH, ring_at_range. lia.
Qed.
End Slots.

Lemma bh_stops t m k :
  bh_rep t m →
  ∃ i, probe mac (bh_slots t) (bh_fuel t) (bh_at t) k (bh_home t k) = Some i ∧ 0 <= i < bh_slots t
    ∧ (∀ e, 0 <= e < ring_dist (bh_slots t) (bh_home t k) i → bh_at t (ring_at (bh_slots t) (bh_home t k) e) ≠ None)
    ∧ bh_at t i = m !! k
    ∧ (m !! k = None → ∀ j y, 0 <= j < bh_slots t → bh_at t j = Some y → mac y ≠ k)
    ∧ (∀ x, m !! k = Some x → mac x = k).
Proof.
  intros [Hsh Hlen Hroom Hp Ht]. pose proof (bh_slots_pos t Hsh).
  destruct (table_room mac (bh_slots t) (bh_home t) ltac:(lia) (bh_at t) m) as (z & Hz & HTz); [done|done|lia|].
  destruct (probe_stops mac (bh_slots t) (bh_home t) ltac:(lia) (bh_home_range t Hsh) (bh_at t) k z) as (i & Hpr & Hi & Hpath & Hend); [done..|].
  exists i. rewrite bh_fuel_slots by done. split_and!; try done; try lia.
  - destruct (bh_at t i) as [x|] eqn:Hx; [symmetry; apply Ht; by eauto|].
    symmetry. apply eq_None_not_Some. intros (y & (Hy & j & Hj & HTj)%Ht). by eapply Hend.
  - intros Hm j y Hj Hy Hk. assert (m !! k = Some y) by (apply Ht; eauto). congruence.
  - intros x Hx. by apply Ht in Hx as [? _].
Qed.

Section Ops.
Context (wide : bool).

Lemma bh_record_spec t m r :
  bh_rep t m → is_Some (m !! mac r) ∨ bh_len t + 1 < bh_slots t →
  ∃ t', ble_record_loop wide (bh_fuel t) t r (bh_home t (mac r)) = Some (bool_decide (m !! mac r = None), t')
      ∧ bh_rep t' (sight m r) ∧ bh_mask t' = bh_mask t ∧ bh_lock t' = bh_lock t.
Proof.
  intros Hr Hroom. destruct (bh_stops t m (mac r) Hr) as (i & Hpr & Hi & Hpath & Hat & Hnew & Hkey).
  destruct Hr as [Hsh Hlen Hlt Hp Ht]. pose proof (bh_slots_pos t Hsh).
  rewrite ble_record_probe by (done || by apply bh_home_range). rewrite Hpr. cbn [mbind option_bind ble_record_loop].
  destruct (bh_read t Hsh i Hi) as (u & r0 & Hu & Hr0 & Hat'). rewrite Hat' in Hat. rewrite Hu, Hr0. cbn [mbind option_bind].
  assert (∃ rs, arr_set (bh_recs t) i r = Some rs ∧ Z.of_nat (length rs) = bh_slots t) as (rs & Hrs & Lr).
  { rewrite arr_set_Some by (rewrite (bsh_recs _ Hsh); lia). eexists. split; [done|]. rewrite length_insert. apply Hsh. }
  rewrite Hrs. cbn [mbind option_bind]. destruct (u =? 0) eqn:Hu0.
  - rewrite <- Hat in Hroom, Hnew |- *. destruct Hroom as [[? [=]]|Hroom]. specialize (Hnew eq_refl).
    assert (∃ us, arr_set (bh_used t) i 1 = Some us ∧ Z.of_nat (length us) = bh_slots t) as (us & Hus & Lu).
    { rewrite arr_set_Some by (rewrite (bsh_used _ Hsh); lia). eexists. split; [done|]. rewrite length_insert. apply Hsh. }
    rewrite Hus. cbn [mbind option_bind]. eexists. split; [done|]. split; [|done].
    assert (∀ j, upd (bh_at t) i (Some r) j
              = bh_at (TwinBleHash rs us (bh_mask t) (size_wrap wide (bh_len t + 1)) (bh_lock t)) j) as Hext.
    { intros j. unfold bh_at, upd. simpl. rewrite (arr_get_set _ _ j _ _ Hrs), (arr_get_set _ _ j _ _ Hus). by case_decide. }
    assert (size_wrap wide (bh_len t + 1) = bh_len t + 1) as Hw.
    { apply Z.mod_small. destruct wide; simpl Z.pow in *; lia. }
    destruct (place_table mac (bh_slots t) (bh_home t) (bh_at t) m r i) as [Hpt _]; [done..|].
    split; [split; [exact (bsh_pow _ Hsh)|exact Lr|exact Lu]| | | |]; cbn.
    + unfold sight. rewrite Hw, Hlen, map_size_insert_None by done. lia.
    + unfold bh_slots in *. simpl. lia.
    + eapply probing_ext; [unfold bh_slots in *; simpl; lia|intros j _; apply Hext|].
      apply (place_probing mac (bh_slots t) (bh_home t) (bh_at t) r i); done.
    + eapply table_ext; [intros j _; apply Hext|exact Hpt].
  - symmetry in Hat. pose proof (Hkey _ Hat) as Hmac. unfold same_mac. rewrite bool_decide_true, Hat by done.
    cbn [mbind option_bind]. eexists. split; [done|]. split; [|done].
    assert (∀ j, upd (bh_at t) i (Some r) j = bh_at (TwinBleHash rs (bh_used t) (bh_mask t) (bh_len t) (bh_lock t)) j) as Hext.
    { intros j. unfold bh_at, upd. simpl. rewrite (arr_get_set _ _ j _ _ Hrs). case_decide; [|done]. subst j.
      rewrite Hu. cbn [mbind option_bind]. by rewrite Hu0. }
    destruct (renew_table mac (bh_slots t) (bh_home t) (bh_at t) m r r0 i) as [Hrt _]; [done..|].
    split; [split; [exact (bsh_pow _ Hsh)|exact Lr|apply (bsh_used _ Hsh)]| | | |]; cbn; try done.
    + unfold sight. by rewrite Hlen, map_size_insert_Some by eauto.
    + eapply probing_ext; [unfold bh_slots in *; simpl; lia|intros j _; apply Hext|].
      apply (renew_probing mac (bh_slots t) (bh_home t) (bh_at t) r r0 i); done.
    + eapply table_ext; [intros j _; apply Hext|exact Hrt].
Qed.

Lemma bh_get_spec t m k :
  bh_rep t m → ble_get_loop wide (bh_fuel t) t k (bh_home t k) = Some (m !! k).
Proof.
  intros Hr. destruct (bh_stops t m k Hr) as (i & Hpr & Hi & _ & Hat & _). pose proof (br_shape _ _ Hr) as Hsh.
  rewrite ble_get_probe by (done || by apply bh_home_range). rewrite Hpr. cbn [mbind option_bind]. by rewrite Hat.
Qed.
End Ops.

(** ** Expiry of the hash twin *)
Definition is_stale (c : Z) (r : ble_record) : Prop := twin_is_stale (last_seen_ms r) c = true.
#[export] Instance is_stale_dec c r : Decision (is_stale c r).
Proof. unfold is_stale. apply _. Defined.
Definition bh_run (t : twin_ble_hash) (i : Z) (n : nat) : list ble_record := omap (bh_at t) (seqZ i (Z.of_nat n)).

Lemma bh_run_ext t t' i (n : nat) :
  (∀ j, i <= j < i + Z.of_nat n → bh_at t' j = bh_at t j) → bh_run t' i n = bh_run t i n.
Proof.
  intros He. unfold bh_run. apply list_omap_ext, Forall_Forall2_diag, Forall_forall. intros j Hj%elem_of_seqZ. apply He. lia.
Qed.
Lemma bh_run_S t i (n : nat) : bh_run t i (S n) = (match bh_at t i with Some r => [r] | None => [] end) ++ bh_run t (i + 1) n.
Proof. unfold bh_run. rewrite seqZ_S. cbn [omap list_omap]. by destruct (bh_at t i). Qed.

(** A slot after the sweep. *)
Definition unstale (c : Z) (o : option ble_record) : option ble_record :=
  r ← o; if decide (is_stale c r) then None else Some r.

Lemma sweep_spec wide (n : nat) t c i x :
  bh_shape t → 0 <= i → i + Z.of_nat n = bh_slots t → 0 <= x → x + Z.of_nat n < 2 ^ 32 →
  Z.of_nat (length (filter (is_stale c) (bh_run t i n))) <= bh_len t < 2 ^ 32 →
  ∃ t', ble_hash_sweep wide n t c i x = Some (x + Z.of_nat (length (filter (is_stale c) (bh_run t i n))), t')
      ∧ bh_shape t' ∧ bh_mask t' = bh_mask t ∧ bh_lock t' = bh_lock t
      ∧ bh_len t' = bh_len t - Z.of_nat (length (filter (is_stale c) (bh_run t i n)))
      ∧ (∀ j, 0 <= j < i → bh_at t' j = bh_at t j) ∧ (∀ j, i <= j < bh_slots t → bh_at t' j = unstale c (bh_at t j))
      ∧ bh_run t' i n = filter (λ r, ¬ is_stale c r) (bh_run t i n).
Proof.
  revert t i x. induction n as [|n IH]; intros t i x Hsh Hi Hn Hx Hxn Hl.
  { exists t. simpl in *. rewrite Z.add_0_r, Z.sub_0_r. split_and!; try done. intros j Hj. lia. }
  pose proof (bh_slots_pos t Hsh). rewrite bh_run_S in Hl |- *. cbn [ble_hash_sweep].
  destruct (bh_read t Hsh i) as (u & r & Hu & Hr & Hat); [lia|]. rewrite Hu, Hat in *. cbn [mbind option_bind].
  assert (∀ t', bh_mask t' = bh_mask t → bh_slots t' = bh_slots t) as Hsl by (intros t' Ht'; unfold bh_slots; by rewrite Ht').
  destruct (u =? 0) eqn:Hu0; [|rewrite Hr; cbn [mbind option_bind];
    destruct (twin_is_stale (last_seen_ms r) c) eqn:Hst]; cbn [app] in Hl |- *.
  - destruct (IH t (i + 1) x) as (t' & He & Hsh' & Hm & Hlk & Hlen & Hlow & Hup & Hrun); [done|lia..|done|].
    exists t'. rewrite He. split_and!; try done; [intros j Hj; apply Hlow; lia| |].
    { intros j Hj. destruct (decide (j = i)) as [->|]; [|apply Hup; lia]. rewrite Hlow, Hat by lia. done. }
    rewrite bh_run_S, (Hlow i), Hat by lia. exact Hrun.
  - rewrite filter_cons_True in Hl by done. rewrite (filter_cons_True (is_stale c)) by done.
    rewrite (filter_cons_False (λ r, ¬ is_stale c r)) by (intros Hns; by apply Hns). cbn [length] in Hl |- *.
    rewrite arr_set_Some by (rewrite (bsh_used _ Hsh); lia). cbn [mbind option_bind].
    set (t1 := TwinBleHash _ _ _ _ _).
    assert (∀ j, j ≠ i → bh_at t1 j = bh_at t j) as Hne.
    { intros j Hj. unfold bh_at, t1. simpl. rewrite (arr_get_set (bh_used t) i j 0) by (rewrite arr_set_Some; [done|rewrite (bsh_used _ Hsh); lia]).
      by rewrite decide_False. }
    assert (bh_at t1 i = None) as Heq.
    { unfold bh_at, t1. simpl. rewrite (arr_get_set (bh_used t) i i 0) by (rewrite arr_set_Some; [done|rewrite (bsh_used _ Hsh); lia]).
      by rewrite decide_True. }
    assert (bh_run t1 (i + 1) n = bh_run t (i + 1) n) as Hrest by (apply bh_run_ext; intros j Hj; apply Hne; lia).
    assert (size_wrap wide (x + 1) = x + 1) as Hw1 by (apply Z.mod_small; destruct wide; simpl Z.pow in *; lia).
    assert (size_wrap wide (bh_len t - 1) = bh_len t - 1) as Hw2 by (apply Z.mod_small; destruct wide; simpl Z.pow in *; lia).
    destruct (IH t1 (i + 1) (size_wrap wide (x + 1))) as (t' & He & Hsh' & Hm & Hlk & Hlen & Hlow & Hup & Hrun).
    + split; [exact (bsh_pow _ Hsh)|apply (bsh_recs _ Hsh)|]. simpl. rewrite length_insert. apply (bsh_used _ Hsh).
    + lia.
    + change (bh_slots t1) with (bh_slots t). lia.
    + lia.
    + lia.
    + rewrite Hrest. simpl. lia.
    + rewrite Hrest in *. exists t'. rewrite He, Hw1. split_and!; try done.
      * do 2 f_equal. lia.
      * rewrite Hlen. simpl. lia.
      * intros j Hj. rewrite Hlow by lia. apply Hne. lia.
      * intros j Hj. destruct (decide (j = i)) as [->|Hj'].
        -- rewrite Hlow, Heq, Hat by lia. simpl. by rewrite decide_True.
        -- rewrite Hup by (change (bh_slots t1) with (bh_slots t); lia). by rewrite Hne.
      * rewrite bh_run_S, (Hlow i), Heq by lia. exact Hrun.
  - assert (¬ is_stale c r) as Hns by (unfold is_stale; by rewrite Hst).
    rewrite filter_cons_False in Hl by done. rewrite (filter_cons_False (is_stale c)), (filter_cons_True (λ r, ¬ is_stale c r)) by done.
    destruct (IH t (i + 1) x) as (t' & He & Hsh' & Hm & Hlk & Hlen & Hlow & Hup & Hrun); [done|lia..|done|].
    exists t'. rewrite He. split_and!; try done; [intros j Hj; apply Hlow; lia| |].
    { intros j Hj. destruct (decide (j = i)) as [->|]; [|apply Hup; lia]. rewrite Hlow, Hat by lia. simpl. by rewrite decide_False. }
    rewrite bh_run_S, (Hlow i), Hat by lia. cbn [app]. by rewrite Hrun.
Qed.

(** ** The records of a fleet *)
Definition records (m : fleet) : list ble_record := (map_to_list m).*2.
Lemma elem_of_records m r : keyed m → r ∈ records m ↔ m !! mac r = Some r.
Proof.
  intros Hk. unfold records. rewrite list_elem_of_fmap. split.
  - intros ([k r'] & -> & Hin%elem_of_map_to_list). simpl. by rewrite (Hk k r' Hin).
  - intros Hr. exists (mac r, r). split; [done|by apply elem_of_map_to_list].
Qed.
Lemma NoDup_records m : keyed m → NoDup (records m).
Proof.
  intros Hk. unfold records. apply NoDup_fmap_2_strong; [|apply NoDup_map_to_list].
  intros [k1 r1] [k2 r2] H1%elem_of_map_to_list H2%elem_of_map_to_list. simpl. intros ->.
  by rewrite <- (Hk _ _ H1), <- (Hk _ _ H2).
Qed.
Lemma length_records m : length (records m) = size m.
Proof. unfold records. by rewrite length_fmap, length_map_to_list. Qed.
Lemma records_perm m (l : list ble_record) :
  keyed m → NoDup l → (∀ r, r ∈ l ↔ m !! mac r = Some r) → l ≡ₚ records m.
Proof.
  intros Hk Hl Hin. apply NoDup_Permutation; [done|by apply NoDup_records|].
  intros r. by rewrite Hin, elem_of_records.
Qed.

Lemma table_keyed t m : bh_rep t m → keyed m.
Proof. intros Hr k r Hk. by apply (br_table _ _ Hr) in Hk as [? _]. Qed.
Lemma bh_entries_perm t m : bh_rep t m → bh_entries t ≡ₚ records m.
Proof.
  intros Hr. pose proof (table_keyed t m Hr) as Hk. destruct Hr as [Hsh Hlen Hlt Hp Ht]. apply records_perm; [done| |].
  - apply NoDup_omap_inj; [apply NoDup_seqZ|]. intros i j x Hi%elem_of_seqZ Hj%elem_of_seqZ HTi HTj.
    eapply (pr_unique _ _ _ _ Hp); try done; lia.
  - intros r. rewrite (Ht (mac r) r). unfold bh_entries. rewrite list_elem_of_omap. split.
    + intros (i & Hi%elem_of_seqZ & HTi). split; [done|]. exists i. split; [lia|done].
    + intros (_ & i & Hi & HTi). exists i. split; [apply elem_of_seqZ; lia|done].
Qed.

Lemma bh_lock_rep t m f : bh_rep t m → bh_rep (bh_with_lock f t) m.
Proof. intros [[? ? ?] ? ? ? ?]. by split; [split|..]. Qed.
Lemma bh_lock_back t : bh_with_lock TWIN_LOCK_GIVE (bh_with_lock TWIN_LOCK_TAKE t) = t.
Proof. destruct t. unfold bh_with_lock. simpl. by rewrite twin_lock_balance. Qed.

(** The sweep drops the stale entries and no other, and counts them. *)
Lemma bh_expire_spec wide t m c :
  bh_rep t m →
  ∃ t', twin_ble_hash_expire_stale wide (Some t) c
        = Some (Z.of_nat (length (filter (is_stale c) (records m))), Some t')
      ∧ bh_entries t' = filter (λ r, ¬ is_stale c r) (bh_entries t)
      ∧ bh_len t' = Z.of_nat (length (bh_entries t')) ∧ bh_lock t' = bh_lock t ∧ bh_shape t' ∧ bh_mask t' = bh_mask t
      ∧ (∀ j, 0 <= j < bh_slots t → bh_at t' j = unstale c (bh_at t j)).
Proof.
  intros Hr. pose proof (bh_entries_perm t m Hr) as Hperm. pose proof (br_shape _ _ Hr) as Hsh. pose proof (bh_slots_pos t Hsh).
  pose proof (bh_fuel_slots t Hsh) as Hfu. set (t1 := bh_with_lock TWIN_LOCK_TAKE t).
  assert (bh_run t1 0 (bh_fuel t1) = bh_entries t) as Hrun.
  { unfold bh_run, bh_entries. change (bh_fuel t1) with (bh_fuel t). rewrite Hfu, Z2Nat.id by lia. done. }
  pose proof (br_len _ _ Hr) as Hlen. rewrite <- length_records, <- Hperm in Hlen.
  assert (length (filter (is_stale c) (bh_entries t)) <= length (bh_entries t))%nat by apply length_filter.
  pose proof (br_room _ _ Hr).
  destruct (sweep_spec wide (bh_fuel t1) t1 c 0 0) as (t' & He & Hsh' & Hm & Hlk & Hl & _ & Hup & Hent).
  - apply (bh_lock_rep t m TWIN_LOCK_TAKE Hr).
  - lia.
  - change (bh_fuel t1) with (bh_fuel t). change (bh_slots t1) with (bh_slots t). lia.
  - lia.
  - change (bh_fuel t1) with (bh_fuel t). lia.
  - rewrite Hrun. simpl. lia.
  - rewrite Hrun in He, Hl, Hent. exists (bh_with_lock TWIN_LOCK_GIVE t').
    assert (bh_entries (bh_with_lock TWIN_LOCK_GIVE t') = filter (λ r, ¬ is_stale c r) (bh_entries t)) as Hent'.
    { rewrite <- Hent. unfold bh_run, bh_entries. change (bh_fuel t1) with (bh_fuel t). rewrite Hfu, Z2Nat.id by lia.
      unfold bh_slots. simpl. by rewrite Hm. }
    split_and!; try done.
    + unfold twin_ble_hash_expire_stale. cbv zeta. fold t1. rewrite He. cbn [mbind option_bind]. rewrite Z.add_0_l.
      do 3 f_equal. apply Permutation_length. by rewrite Hperm.
    + simpl. rewrite Hl, Hent'. simpl. pose proof (filter_app_complement (is_stale c) (bh_entries t)) as Hfl.
      apply Permutation_length in Hfl. rewrite length_app in Hfl. lia.
    + simpl. rewrite Hlk. apply twin_lock_balance.
    + destruct Hsh'. by split.
Qed.

(** ** The scan twin *)
Record bs_rep (t : twin_ble_scan) (l : list ble_record) : Prop := {
  sc_recs : ∃ j, bs_recs t = l ++ j;
  sc_len : bs_len t = Z.of_nat (length l);
  sc_cap : Z.of_nat (length (bs_recs t)) = bs_cap t;
  sc_macs : NoDup (mac <$> l);
}.
Lemma bs_lock_rep t l f : bs_rep t l → bs_rep (bs_with_lock f t) l.
Proof. intros []. by split. Qed.
Lemma bs_lock_back t : bs_with_lock TWIN_LOCK_GIVE (bs_with_lock TWIN_LOCK_TAKE t) = t.
Proof. destruct t. unfold bs_with_lock. simpl. by rewrite twin_lock_balance. Qed.
Lemma bs_middle t a r b : bs_rep t (a ++ r :: b) → arr_get (bs_recs t) (Z.of_nat (length a)) = Some r.
Proof.
  intros Hr. destruct (sc_recs _ _ Hr) as [j ->]. rewrite arr_get_nat, <- (assoc_L (++)). by apply list_lookup_middle.
Qed.

(** The search stops at the first record with the address, or says there is none. *)
Lemma scan_find_spec t m (l1 l2 : list ble_record) :
  bs_rep t (l1 ++ l2) →
  ((m ∉ mac <$> l2) ∧ scan_find (length l2) (bs_recs t) m (Z.of_nat (length l1)) = Some None)
  ∨ ∃ a r b, l2 = a ++ r :: b ∧ mac r = m
      ∧ scan_find (length l2) (bs_recs t) m (Z.of_nat (length l1)) = Some (Some (Z.of_nat (length (l1 ++ a)))).
Proof.
  revert l1. induction l2 as [|r l2 IH]; intros l1 Hr; [left; split; [apply not_elem_of_nil|done]|].
  cbn [scan_find length]. rewrite (bs_middle t l1 r l2 Hr). cbn [mbind option_bind]. unfold same_mac. case_bool_decide as Hm.
  - right. exists [], r, l2. by rewrite app_nil_r.
  - replace (Z.of_nat (length l1) + 1) with (Z.of_nat (length (l1 ++ [r]))) by (rewrite length_app; simpl; lia).
    destruct (IH (l1 ++ [r])) as [[Hn ->]|(a & r' & b & -> & Hr' & ->)]; [by rewrite <- (assoc_L (++))| |].
    + left. split; [|done]. csimpl. apply not_elem_of_cons. split; [congruence|done].
    + right. exists (r :: a), r', b. split_and!; try done. by rewrite <- (assoc_L (++)).
Qed.
Lemma bs_find t l m :
  bs_rep t l →
  ((m ∉ mac <$> l) ∧ scan_find (Z.to_nat (bs_len t)) (bs_recs t) m 0 = Some None)
  ∨ ∃ a r b, l = a ++ r :: b ∧ mac r = m ∧ scan_find (Z.to_nat (bs_len t)) (bs_recs t) m 0 = Some (Some (Z.of_nat (length a))).
Proof.
  intros Hr. rewrite (sc_len _ _ Hr), Nat2Z.id. exact (scan_find_spec t m [] l Hr).
Qed.

Lemma NoDup_replace (a b : list ble_record) r r' :
  mac r' = mac r → NoDup (mac <$> a ++ r :: b) → NoDup (mac <$> a ++ r' :: b).
Proof. rewrite !fmap_app. csimpl. by intros ->. Qed.

(** What a sighting does to the list: refresh in place, append, or refuse when full. *)
Lemma bs_record_spec t l r :
  bs_rep t l →
  (∃ a r0 b t', l = a ++ r0 :: b ∧ mac r0 = mac r
     ∧ twin_ble_scan_record (Some t) (Some r) = Some (false, Some t') ∧ bs_rep t' (a ++ r :: b)
     ∧ bs_cap t' = bs_cap t ∧ bs_lock t' = bs_lock t)
  ∨ ((mac r ∉ mac <$> l) ∧ Z.of_nat (length l) < bs_cap t
     ∧ ∃ t', twin_ble_scan_record (Some t) (Some r) = Some (true, Some t') ∧ bs_rep t' (l ++ [r])
           ∧ bs_cap t' = bs_cap t ∧ bs_lock t' = bs_lock t)
  ∨ ((mac r ∉ mac <$> l) ∧ Z.of_nat (length l) = bs_cap t
     ∧ twin_ble_scan_record (Some t) (Some r) = Some (false, Some t)).
Proof.
  intros Hr. pose proof (bs_find (bs_with_lock TWIN_LOCK_TAKE t) l (mac r) (bs_lock_rep _ _ _ Hr)) as Hf.
  destruct Hr as [[j Hj] Hlen Hcap Hnd]. unfold twin_ble_scan_record. cbv zeta.
  assert (Z.of_nat (length l) <= bs_cap t) as Hle by (rewrite <- Hcap, Hj, length_app; lia).
  destruct Hf as [[Hn ->]|(a & r0 & b & -> & Hm & ->)]; cbn [mbind option_bind].
  - right. simpl. rewrite Hlen. destruct (Z.eqb_spec (Z.of_nat (length l)) (bs_cap t)) as [Hf|Hf].
    + right. split_and!; try done. by rewrite bs_lock_back.
    + left. split_and!; [done|lia|]. rewrite arr_set_Some by lia. cbn [mbind option_bind]. eexists. split; [done|].
      split; [|split; [done|simpl; apply twin_lock_balance]]. destruct j as [|y j].
      { rewrite app_nil_r in Hj. rewrite Hj in Hcap. lia. }
      split; simpl.
      * exists j. rewrite Hj, Nat2Z.id. rewrite <- (Nat.add_0_r (length l)), insert_app_r. simpl. by rewrite <- (assoc_L (++)).
      * rewrite length_app. simpl. lia.
      * by rewrite length_insert.
      * rewrite fmap_app. apply NoDup_app. split_and!; [done| |csimpl; apply NoDup_singleton].
        intros x Hx Hin%list_elem_of_singleton. by subst x.
  - left. simpl. rewrite arr_set_Some by (rewrite Hj, !length_app; simpl; lia). cbn [mbind option_bind].
    eexists a, r0, b, _. split; [done|]. split; [done|]. split; [done|].
    split; [|split; [done|simpl; apply twin_lock_balance]]. split; simpl.
    + exists j. rewrite Hj, Nat2Z.id, <- !(assoc_L (++)). rewrite <- (Nat.add_0_r (length a)), insert_app_r. done.
    + rewrite Hlen, !length_app. done.
    + by rewrite length_insert.
    + eapply NoDup_replace; [|exact Hnd]. done.
Qed.

Lemma bs_get_spec t l m out :
  bs_rep t l →
  twin_ble_scan_get (Some t) (Some m) (Some out)
  = Some (match list_find (λ r, mac r = m) l with Some (_, r) => (true, Some r, Some t) | None => (false, Some out, Some t) end).
Proof.
  intros Hr. pose proof (bs_lock_rep _ _ TWIN_LOCK_TAKE Hr) as Hr1. unfold twin_ble_scan_get. cbv zeta.
  destruct (bs_find _ l m Hr1) as [[Hn ->]|(a & r0 & b & -> & Hm & ->)]; cbn [mbind option_bind]; rewrite bs_lock_back.
  - rewrite (proj2 (list_find_None _ l)); [done|]. apply Forall_forall. intros r Hin Hr0. apply Hn, list_elem_of_fmap. by exists r.
  - rewrite (bs_middle _ a r0 b Hr1). cbn [mbind option_bind]. rewrite (proj2 (list_find_Some _ _ (length a) r0)); [done|].
    split_and!; [by apply list_lookup_middle|done|]. intros j y Hj Hlt Hy.
    pose proof (sc_macs _ _ Hr) as Hnd. rewrite fmap_app in Hnd. csimpl in Hnd. apply NoDup_app in Hnd as (_ & Hdis & _).
    rewrite lookup_app_l in Hj by lia. eapply (Hdis (mac y)); [apply list_elem_of_fmap; exists y; split; [done|by eapply list_elem_of_lookup_2]|].
    rewrite Hy, <- Hm. by left.
Qed.

(** The compaction keeps the fresh records, in order. *)
Lemma compact_spec c (rest kept g j : list ble_record) x :
  ∃ g', scan_compact (length rest) (kept ++ g ++ rest ++ j) c (Z.of_nat (length kept + length g)) (Z.of_nat (length kept)) x
        = Some (kept ++ filter (λ r, ¬ is_stale c r) rest ++ g' ++ j,
                Z.of_nat (length (kept ++ filter (λ r, ¬ is_stale c r) rest)),
                x + Z.of_nat (length (filter (is_stale c) rest)))
      ∧ length g' = (length g + length (filter (is_stale c) rest))%nat.
Proof.
  revert kept g x. induction rest as [|r rest IH]; intros kept g x.
  { exists g. simpl. rewrite app_nil_r, Z.add_0_r. split; [done|lia]. }
  cbn [scan_compact length]. assert (arr_get (kept ++ g ++ (r :: rest) ++ j) (Z.of_nat (length kept + length g)) = Some r) as ->.
  { rewrite arr_get_nat, (assoc_L (++)), <- length_app. by apply list_lookup_middle. }
  cbn [mbind option_bind]. replace (Z.of_nat (length kept + length g) + 1) with (Z.of_nat (length kept + length (g ++ [r]))) by (rewrite length_app; simpl; lia).
  destruct (twin_is_stale (last_seen_ms r) c) eqn:Hst.
  - destruct (IH kept (g ++ [r]) (x + 1)) as (g' & He & Hg). rewrite <- (assoc_L (++) g) in He. cbn [app] in He |- *.
    rewrite He. rewrite (filter_cons_True (is_stale c)), (filter_cons_False (λ r, ¬ is_stale c r)) by (done || intros Hns; by apply Hns).
    exists g'. cbn [length]. split; [do 2 f_equal; lia|]. rewrite Hg, length_app. simpl. lia.
  - assert (¬ is_stale c r) as Hns by (unfold is_stale; by rewrite Hst).
    rewrite (filter_cons_False (is_stale c)), (filter_cons_True (λ r, ¬ is_stale c r)) by done.
    replace (Z.of_nat (length kept) + 1) with (Z.of_nat (length (kept ++ [r]))) by (rewrite length_app; simpl; lia).
    destruct g as [|y g].
    + rewrite Nat.add_0_r, Z.eqb_refl. cbn [negb mbind option_bind app length Nat.add].
      destruct (IH (kept ++ [r]) [] x) as (g' & He & Hg). rewrite <- !(assoc_L (++)) in He. cbn [app length] in He.
      rewrite Nat.add_0_r in He. exists g'. rewrite length_app in He |- *. simpl in He |- *. rewrite He.
      split; [|done]. do 2 f_equal.
    + rewrite (proj2 (Z.eqb_neq _ _)) by (simpl; lia). cbn [negb]. rewrite arr_set_Some by (rewrite length_app; simpl; lia).
      cbn [mbind option_bind]. rewrite Nat2Z.id.
      replace (<[length kept := r]> (kept ++ (y :: g) ++ (r :: rest) ++ j)) with ((kept ++ [r]) ++ (g ++ [r]) ++ rest ++ j).
      2:{ rewrite <- (Nat.add_0_r (length kept)), insert_app_r. simpl. by rewrite <- !(assoc_L (++)). }
      destruct (IH (kept ++ [r]) (g ++ [r]) x) as (g' & He & Hg). exists g'.
      replace (length kept + length ((y :: g) ++ [r]))%nat with (length (kept ++ [r]) + length (g ++ [r]))%nat by (rewrite !length_app; simpl; lia).
      rewrite He. rewrite <- !(assoc_L (++)). cbn [app]. split; [done|]. rewrite Hg, length_app. simpl. lia.
Qed.
Lemma bs_expire_spec t l c :
  bs_rep t l →
  ∃ t', twin_ble_scan_expire_stale (Some t) c = Some (Z.of_nat (length (filter (is_stale c) l)), Some t')
      ∧ bs_rep t' (filter (λ r, ¬ is_stale c r) l) ∧ bs_cap t' = bs_cap t ∧ bs_lock t' = bs_lock t.
Proof.
  intros [[j Hj] Hlen Hcap Hnd]. unfold twin_ble_scan_expire_stale. cbv zeta. simpl. rewrite Hlen, Nat2Z.id, Hj.
  destruct (compact_spec c l [] [] j 0) as (g' & He & Hg). change (Z.of_nat (length [] + length [])) with 0 in He. cbn [app length] in He. change (Z.of_nat 0) with 0 in He. rewrite He. cbn [mbind option_bind].
  eexists. split; [done|]. split; [|split; [done|simpl; apply twin_lock_balance]]. split; simpl.
  - by eexists.
  - done.
  - rewrite <- Hcap, Hj, !length_app, Hg. pose proof (filter_app_complement (is_stale c) l) as Hfl.
    apply Permutation_length in Hfl. rewrite length_app in Hfl. simpl. lia.
  - eapply sublist_NoDup; [exact Hnd|]. apply fmap_sublist, sublist_filter.
Qed.
