(* ===== verification/TwinBleTheorems.v ===== *)
(** * The BLE arms of the benchmark agree on what they expire

    The tracker, the hash twin and the scan twin fed with the same sightings
    hold the same records, and an expiry removes the same ones: the comparison
    of per-entry eviction costs is between arms doing the same work.  What the
    hash twin's expiry does to later lookups is the second theorem. *)
From stdpp Require Import base numbers list sorting gmap.
From S2P Require Import Prelude SortedAssoc ExpanseApi HostLock MemTable Twins Probing TwinHash TwinHashProofs TwinSorted TwinRing TwinTheorems BleTracker BleTrackerProofs BleTheorems TwinBle TwinBleProofs.
Open Scope Z_scope.

(** ** The sightings a benchmark feeds *)
Definition devices (rs : list ble_record) : fleet := foldl sight ∅ rs.

Section Feed.
Context (wide : bool).

Fixpoint feed_hash (t : option twin_ble_hash) (rs : list ble_record) : option (option twin_ble_hash) :=
  match rs with
  | [] => Some t
  | r :: rs => '(_, t) ← twin_ble_hash_record wide t (Some r); feed_hash t rs
  end.
Fixpoint feed_scan (t : option twin_ble_scan) (rs : list ble_record) : option (option twin_ble_scan) :=
  match rs with
  | [] => Some t
  | r :: rs => '(_, t) ← twin_ble_scan_record t (Some r); feed_scan t rs
  end.
Fixpoint feed_tracker {M} `{!ExpanseMap M} (t : option (tracker M)) (rs : list ble_record)
  : option (option (tracker M) * list Z) :=
  match rs with
  | [] => Some (t, [])
  | r :: rs =>
      '(t, rc) ← expanse_ble_tracker_record wide t (Some r);
      '(t, rcs) ← feed_tracker t rs;
      Some (t, rc :: rcs)
  end.

Lemma devices_keyed m rs : keyed m → keyed (foldl sight m rs).
Proof. revert m. induction rs as [|r rs IH]; intros m Hm; [done|]. apply IH. by apply keyed_sight. Qed.
Lemma size_sight m r : (size m <= size (sight m r))%nat.
Proof. unfold sight. rewrite map_size_insert. destruct (m !! mac r); simpl; lia. Qed.
Lemma size_sight_new m r : m !! mac r = None → size (sight m r) = S (size m).
Proof. intros Hn. unfold sight. by rewrite map_size_insert_None. Qed.
Lemma size_devices m rs : (size m <= size (foldl sight m rs))%nat.
Proof. revert m. induction rs as [|r rs IH]; intros m; [done|]. etrans; [apply (size_sight m r)|apply IH]. Qed.

Lemma feed_hash_spec t m rs cap :
  bh_rep t m → Z.of_nat (size (foldl sight m rs)) <= cap → cap < bh_slots t →
  ∃ t', feed_hash (Some t) rs = Some (Some t') ∧ bh_rep t' (foldl sight m rs).
Proof.
  revert t m. induction rs as [|r rs IH]; intros t m Hr Hsz Hcap; [by exists t|]. cbn [feed_hash foldl] in *.
  pose proof (bh_lock_rep _ _ TWIN_LOCK_TAKE Hr) as Hr1. pose proof (size_devices (sight m r) rs) as Hle.
  destruct (bh_record_spec wide _ m r Hr1) as (t' & He & Hr' & Hm & _).
  { destruct (m !! mac r) eqn:Hmr; [left; eauto|right]. rewrite (br_len _ _ Hr1).
    rewrite size_sight_new in Hle by done. change (bh_slots (bh_with_lock TWIN_LOCK_TAKE t)) with (bh_slots t). lia. }
  unfold twin_ble_hash_record. cbv zeta. unfold bh_home in He. rewrite He. cbn [mbind option_bind].
  apply (IH (bh_with_lock TWIN_LOCK_GIVE t')); [by apply bh_lock_rep|done|]. unfold bh_slots in *. simpl. rewrite Hm. done.
Qed.

(** The scan twin's list against the fleet. *)
Definition lists (l : list ble_record) (m : fleet) : Prop := ∀ r, r ∈ l ↔ m !! mac r = Some r.
Lemma lists_refresh a r0 b m r :
  keyed m → NoDup (mac <$> a ++ r0 :: b) → mac r0 = mac r → lists (a ++ r0 :: b) m → lists (a ++ r :: b) (sight m r).
Proof.
  intros Hk Hnd Hmac Hl x. unfold sight. rewrite fmap_app in Hnd. csimpl in Hnd. apply NoDup_app in Hnd as (_ & Hd & Hb).
  apply NoDup_cons in Hb as [Hb _]. specialize (Hl x). rewrite elem_of_app, elem_of_cons in Hl |- *.
  rewrite lookup_insert_Some. split.
  - intros [Hx|[->|Hx]]; [|by left|]; right; (split; [|apply Hl; by auto]); intros He.
    + apply (Hd (mac x)); [apply list_elem_of_fmap; by exists x|]. rewrite <- He, <- Hmac. by left.
    + apply Hb. rewrite Hmac, He. apply list_elem_of_fmap. by exists x.
  - intros [[_ ->]|[Hne Hx]]; [by auto|]. apply Hl in Hx as [?|[->|?]]; [by auto| |by auto]. congruence.
Qed.
Lemma lists_append l m r : (mac r ∉ mac <$> l) → lists l m → lists (l ++ [r]) (sight m r).
Proof.
  intros Hn Hl x. unfold sight. rewrite elem_of_app, list_elem_of_singleton, lookup_insert_Some, (Hl x). split.
  - intros [Hx| ->]; [right|by left]. split; [|done]. intros He. apply Hn. rewrite He. apply list_elem_of_fmap. exists x. split; [done|by apply Hl].
  - intros [[_ ->]|[_ Hx]]; by auto.
Qed.
Lemma lists_length l m : keyed m → NoDup (mac <$> l) → lists l m → length l = size m.
Proof.
  intros Hk Hnd Hl. rewrite <- length_records. apply Permutation_length, records_perm; [done|by eapply NoDup_fmap_1|done].
Qed.

Lemma feed_scan_spec t l m rs :
  bs_rep t l → keyed m → lists l m → Z.of_nat (size (foldl sight m rs)) <= bs_cap t →
  ∃ t' l', feed_scan (Some t) rs = Some (Some t') ∧ bs_rep t' l' ∧ lists l' (foldl sight m rs).
Proof.
  revert t l m. induction rs as [|r rs IH]; intros t l m Hr Hk Hl Hsz; [by exists t, l|]. cbn [feed_scan foldl] in *.
  pose proof (sc_macs _ _ Hr) as Hnd. pose proof (size_devices (sight m r) rs) as Hle.
  destruct (bs_record_spec t l r Hr) as [(a & r0 & b & t' & -> & Hmac & -> & Hr' & Hc & _)|[(Hn & Hlt & t' & -> & Hr' & Hc & _)|(Hn & Hfull & _)]];
    cbn [mbind option_bind].
  - apply (IH t' (a ++ r :: b)); [done|by apply keyed_sight|by apply (lists_refresh a r0)|by rewrite Hc].
  - apply (IH t' (l ++ [r])); [done|by apply keyed_sight|by apply lists_append|by rewrite Hc].
  - exfalso. rewrite (lists_length l m Hk Hnd Hl) in Hfull. rewrite size_sight_new in Hle; [lia|].
    apply eq_None_not_Some. intros [x Hx]. apply Hn. pose proof (Hk _ _ Hx) as Hmx. rewrite <- Hmx. apply list_elem_of_fmap. exists x. split; [done|].
    apply Hl. by rewrite Hmx.
Qed.
End Feed.

(** ** The tracker within one epoch: no wrap, no rebase *)
Definition CALM_MS : Z := 400000000.

Section Tracker.
Context {M : Type} `{ExpanseMapLaws M} (wide : bool).
Implicit Types t : tracker M.

Record calm_clock t : Prop := {
  cc_off : mono_offset_ms t = 0;
  cc_raw : 0 <= last_raw_ms t < CALM_MS;
  cc_base : base_epoch_sec t = 0;
}.
Lemma calm_unwrap t raw :
  calm_clock t → 0 <= raw < CALM_MS → unwrap_mono_ms t raw = (set_last_raw_ms raw t, raw).
Proof.
  intros [Ho Hr Hb] Hraw. unfold unwrap_mono_ms, CALM_MS in *. 
  assert ((raw <? last_raw_ms t) && (last_raw_ms t -w raw >? 2147483648) = false) as ->.
  { destruct (Z.ltb_spec raw (last_raw_ms t)); [|done]. simpl. rewrite u32_small by word_lia. rewrite Z.gtb_ltb. apply Z.ltb_ge. lia. }
  destruct (_ || _); simpl; rewrite Ho, u64_small by word_lia; done.
Qed.
Lemma calm_now t raw : calm_clock t → 0 <= raw < CALM_MS → mono_now t raw = raw / 1000.
Proof.
  intros Hc Hraw. unfold mono_now. rewrite calm_unwrap by done. simpl. apply u32_small.
  unfold CALM_MS in *. assert (0 <= raw / 1000 <= raw) by (split; [apply Z.div_pos|apply Z.div_le_upper_bound]; lia). word_lia.
Qed.
Lemma calm_rebase t sec : base_epoch_sec t = 0 → 0 <= sec < 400000 → rebase_epoch_if_needed t sec = Some t.
Proof.
  intros Hb Hs. unfold rebase_epoch_if_needed. rewrite Hb, (proj2 (Z.ltb_ge sec 0)) by lia.
  rewrite Hb, Z.sub_0_r, u32_small by word_lia. by rewrite (proj2 (Z.ltb_lt sec 400000)) by lia.
Qed.
(** Neither branch of a sighting moves the clock or the base. *)
Definition clock_of t : Z * Z * Z := (mono_offset_ms t, last_raw_ms t, base_epoch_sec t).
Lemma calm_ext t t' : clock_of t' = clock_of t → calm_clock t ↔ calm_clock t'.
Proof. intros [= Ho Hr Hb]. split; intros [? ? ?]; split; congruence. Qed.
Lemma resighting_clock t idx r s t' : record_resighting t idx r s = Some t' → clock_of t' = clock_of t.
Proof. unfold record_resighting. intros He. simplify_option_eq. done. Qed.
Lemma new_sighting_clock w t mh r s t' : record_new_sighting w t mh r s = Some t' → clock_of t' = clock_of t.
Proof. unfold record_new_sighting, set_slot_active. intros He. simplify_option_eq. done. Qed.
Lemma calm_record t r t' rc :
  calm_clock t → 0 <= last_seen_ms r < CALM_MS →
  expanse_ble_tracker_record wide (Some t) (Some r) = Some (Some t', rc) → calm_clock t'.
Proof.
  intros Hc Hr. unfold expanse_ble_tracker_record. cbv zeta.
  assert (calm_clock (take_lock t)) as Hc1 by (by destruct Hc). rewrite (calm_unwrap _ _ Hc1 Hr).
  assert (calm_clock (set_last_raw_ms (last_seen_ms r) (take_lock t))) as Hc2 by (destruct Hc1; by split).
  assert (0 <= last_seen_ms r / 1000 < 400000) as Hs.
  { unfold CALM_MS in Hr. split; [apply Z.div_pos|apply Z.div_lt_upper_bound]; lia. }
  rewrite (u32_small (last_seen_ms r / 1000)) by word_lia. rewrite calm_rebase by (done || apply Hc2).
  cbn [mbind option_bind]. set (t1 := set_last_raw_ms _ _) in *. intros He. clearbody t1.
  rewrite <- (calm_ext t1 t'); [done|]. destruct (expanse_map_get _ _) as [i|].
  - destruct (arr_get _ _) as [e|]; [|done]. cbn [mbind option_bind] in He. destruct (negb _); [by injection He as <- _|].
    destruct (record_resighting _ _ _ _) as [t2|] eqn:Hrs; [|done]. injection He as <- _. exact (resighting_clock _ _ _ _ _ Hrs).
  - destruct (free_count t1 =? 0); [by injection He as <- _|].
    destruct (record_new_sighting _ _ _ _ _) as [t2|] eqn:Hrs; [|done]. injection He as <- _. exact (new_sighting_clock _ _ _ _ _ _ Hrs).
Qed.

(** The tracker holds the fleet: every record at the second of its stamp. *)
Record tracks_fleet t (m : fleet) : Prop := {
  tf_inv : inv t;
  tf_clock : calm_clock t;
  tf_count : count t = Z.of_nat (size m);
  tf_keyed : keyed m;
  tf_tracks r s : tracks t r s ↔ m !! mac r = Some r ∧ s = last_seen_ms r / 1000;
}.

Lemma fleet_known t m r : tracks_fleet t m → is_Some (m !! mac r) ↔ ∃ r0 s0, tracks t r0 s0 ∧ mac r0 = mac r.
Proof.
  intros Hf. split.
  - intros [r0 Hr0]. pose proof (tf_keyed _ _ Hf _ _ Hr0) as Hm. exists r0, (last_seen_ms r0 / 1000).
    split; [|done]. apply (tf_tracks _ _ Hf). by rewrite Hm.
  - intros (r0 & s0 & [Hr0 _]%(tf_tracks _ _ Hf) & Hm). rewrite <- Hm. eauto.
Qed.

Lemma fleet_record t m r :
  tracks_fleet t m → 0 <= last_seen_ms r < CALM_MS →
  (∀ r0, m !! mac r0 = Some r0 → mac_hash (mac r0) = mac_hash (mac r) → mac r0 = mac r) →
  Z.of_nat (size (sight m r)) <= max_capacity t →
  ∃ t', expanse_ble_tracker_record wide (Some t) (Some r) = Some (Some t', EXPANSE_BLE_OK)
      ∧ tracks_fleet t' (sight m r) ∧ max_capacity t' = max_capacity t.
Proof.
  intros Hf Hms Hcol Hcap. pose proof Hf as [Hinv Hclk Hcnt Hk Ht].
  assert (mono_now t (last_seen_ms r) = last_seen_ms r / 1000) as Hnow by (by apply calm_now).
  destruct (record_step wide t r Hinv) as (t' & rc & He & Hinv' & _ & Hmax & _ & Hp).
  { unfold CALM_MS in Hms. word_lia. }
  { rewrite Hnow, (cc_base _ Hclk). apply Z.div_pos; lia. }
  pose proof (calm_record t r t' rc Hclk Hms He) as Hclk'. rewrite Hnow in Hp. destruct Hp as [(-> & Htr & Hc)|[(_ & (r0 & s0 & Hr0 & Hne & Hh) & _)|(_ & Hfresh & Hfull & _)]].
  - exists t'. split; [done|]. split; [|done]. split; [done|done| |by apply keyed_sight|].
    + destruct Hc as [[Hex ->]|(Hfresh & _ & ->)].
      * apply (fleet_known t m r Hf) in Hex. rewrite Hcnt. unfold sight. by rewrite map_size_insert_Some.
      * rewrite size_sight_new; [lia|]. apply eq_None_not_Some. intros (r0 & s0 & Hr0 & Hm)%(fleet_known t m r Hf).
        apply (Hfresh r0 s0 Hr0). by rewrite Hm.
    + intros r' s'. rewrite Htr, Ht. unfold sight. rewrite lookup_insert_Some. split.
      * intros [[-> ->]|[[Hr' ->] Hne]]; [by auto|]. split; [right; by auto|done].
      * intros [[[_ ->]|[Hne Hr']] ->]; [by left|]. right. by auto.
  - exfalso. apply Hne, Hcol; [apply (Ht r0 s0), Hr0|exact Hh].
  - exfalso. rewrite size_sight_new in Hcap; [lia|]. apply eq_None_not_Some. intros (r0 & s0 & Hr0 & Hm)%(fleet_known t m r Hf).
    apply (Hfresh r0 s0 Hr0). by rewrite Hm.
Qed.

Lemma feed_tracker_spec t m rs :
  tracks_fleet t m → Forall (λ r, 0 <= last_seen_ms r < CALM_MS) rs →
  (∀ r r0, r ∈ rs → r0 ∈ rs ∨ m !! mac r0 = Some r0 → mac_hash (mac r0) = mac_hash (mac r) → mac r0 = mac r) →
  Z.of_nat (size (foldl sight m rs)) <= max_capacity t →
  ∃ t', feed_tracker wide (Some t) rs = Some (Some t', (λ _, EXPANSE_BLE_OK) <$> rs) ∧ tracks_fleet t' (foldl sight m rs).
Proof.
  revert t m. induction rs as [|r rs IH]; intros t m Hf Hms Hcol Hcap; [by exists t|]. cbn [foldl] in *.
  apply Forall_cons in Hms as [Hm Hms]. pose proof (size_devices (sight m r) rs).
  destruct (fleet_record t m r Hf Hm) as (t1 & He & Hf1 & Hmax); [|lia|].
  { intros r0 Hr0. apply Hcol; [by left|by right]. }
  destruct (IH t1 (sight m r) Hf1 Hms) as (t2 & He2 & Hf2); [|by rewrite Hmax|].
  { intros x r0 Hx Hr0. apply Hcol; [by right|]. destruct Hr0 as [?|Hr0]; [left; by right|].
    unfold sight in Hr0. apply lookup_insert_Some in Hr0 as [[_ <-]|[_ ?]]; [left; by left|by right]. }
  exists t2. cbn [feed_tracker fmap list_fmap]. rewrite He. cbn [mbind option_bind]. rewrite He2. done.
Qed.

(** The count of a tracker is the number of records it holds. *)
Lemma count_records t (l : list ble_record) :
  inv t → NoDup l → (∀ r, r ∈ l ↔ ∃ s, tracks t r s) → count t = Z.of_nat (length l).
Proof.
  intros Hinv Hnd Hl. pose proof (in_core t Hinv) as Hc. rewrite <- (live_slots_count t Hc). f_equal.
  rewrite <- (length_omap_all (λ i, fst <$> slot t i) (live_slots t)).
  2:{ intros i [Hi _]%list_elem_of_filter. by apply fmap_is_Some. }
  apply Permutation_length, NoDup_Permutation; [|done|].
  - apply NoDup_omap_inj; [apply NoDup_filter, NoDup_seqZ|]. intros i j r _ _ Hi Hj.
    destruct (slot t i) as [[ri si]|] eqn:Hsi, (slot t j) as [[rj sj]|] eqn:Hsj; simplify_eq/=.
    eapply (hash_unique t); [apply Hc|done|done|done].
  - intros r. rewrite Hl, list_elem_of_omap. split.
    + intros (i & _ & Hi). destruct (slot t i) as [[r' s']|] eqn:Hs; simplify_eq/=. exists s', i. done.
    + intros (s & i & Hs). exists i. rewrite Hs. split; [|done]. apply list_elem_of_filter. rewrite Hs. split; [by eauto|].
      apply elem_of_seqZ. pose proof (slot_range t i r s (co_shape t Hc) Hs). lia.
Qed.

Lemma fleet_expire t m c :
  tracks_fleet t m → 0 <= c < CALM_MS →
  ∃ t', expanse_ble_tracker_expire_stale wide (Some t) c
        = Some (Z.of_nat (length (filter (is_stale c) (records m))), Some t')
      ∧ ∀ r, (∃ s, tracks t' r s) ↔ r ∈ filter (λ r, ¬ is_stale c r) (records m).
Proof.
  intros [Hinv Hclk Hcnt Hk Ht] Hc. unfold CALM_MS in Hc.
  destruct (expire_step wide t c Hinv) as (t' & n & He & Hinv' & _ & _ & _ & Hn & Hexp); [word_lia|].
  rewrite calm_now in Hexp by done. pose proof (expired_tracks t t' _ Hexp) as Htr. rewrite (cc_base _ Hclk) in Htr.
  assert (∀ r, (∃ s, tracks t' r s) ↔ r ∈ filter (λ r, ¬ is_stale c r) (records m)) as Hleft.
  { intros r. rewrite list_elem_of_filter, elem_of_records by done. split.
    - intros [s [[Hr ->]%Ht Hst]%Htr]. split; [|done]. intros Hs. apply Hst.
      unfold is_stale, twin_is_stale in Hs. apply Z.leb_le in Hs. apply stale_in_window; [|done].
      split; [apply Z.div_pos; lia|]. simpl. apply Z.div_lt_upper_bound; lia.
    - intros [Hns Hr]. exists (last_seen_ms r / 1000). apply Htr. split; [by apply Ht|]. intros Hst. apply Hns.
      apply stale_in_window in Hst; [unfold is_stale, twin_is_stale; by apply Z.leb_le|].
      split; [apply Z.div_pos; lia|]. simpl. apply Z.div_lt_upper_bound; lia. }
  exists t'. split; [|done]. rewrite He. do 2 f_equal.
  pose proof (count_records t' _ Hinv' (NoDup_filter _ _ (NoDup_records m Hk)) (λ r, iff_sym (Hleft r))) as Hct.
  pose proof (filter_app_complement (is_stale c) (records m)) as Hfl. apply Permutation_length in Hfl.
  rewrite length_app, length_records in Hfl. lia.
Qed.

Lemma fresh_tracks_fleet cap lock_ok : 1 <= cap <= 8192 → tracks_fleet (fresh_tracker (M := M) cap lock_ok) ∅.
Proof.
  intros Hcap. destruct (fresh_inv (M := M) cap lock_ok Hcap) as (Hinv & Hc & _ & Hb & Hr & Ho & _ & Hno). split; try done.
  - split; [done|unfold CALM_MS; lia|done].
  - intros r s. split; [intros Hx; by destruct (Hno r s Hx)|]. rewrite lookup_empty. by intros [? _].
Qed.
End Tracker.

(** ** Fresh twins *)
Definition fresh_ble_hash (wide lock_ok : bool) (e : Z) : option twin_ble_hash :=
  match twin_ble_hash_create wide (BhOks true true true lock_ok) e (Ledger 0 0 0) with
  | Some (t, _) => t
  | None => None
  end.
Definition fresh_ble_scan (lock_ok : bool) (cap : Z) : option twin_ble_scan :=
  (twin_ble_scan_create (BsOks true true lock_ok) cap (Ledger 0 0 0)).1.

Lemma ble_hash_empty b lk :
  3 <= b <= 30 →
  bh_rep (TwinBleHash (replicate (Z.to_nat (2 ^ b)) zero_record) (replicate (Z.to_nat (2 ^ b)) 0) (2 ^ b - 1) 0 lk) ∅.
Proof.
  intros Hb. set (t := TwinBleHash _ _ _ _ _). assert (0 < 2 ^ b) by (apply Z.pow_pos_nonneg; lia).
  assert (bh_slots t = 2 ^ b) as Hsl by (unfold bh_slots; simpl; lia).
  assert (∀ i, 0 <= i < bh_slots t → bh_at t i = None) as Hat.
  { intros i Hi. unfold bh_at. simpl. rewrite arr_get_zeros by lia. done. }
  split; simpl; rewrite ?Hsl; try done.
  - split; simpl; rewrite ?length_replicate; [exists b; split; [done|lia]|lia|lia].
  - split.
    + intros i j x y Hi Hj Hx. rewrite Hat in Hx by lia. done.
    + intros i x e Hi Hx. rewrite Hat in Hx by lia. done.
  - intros k x. rewrite lookup_empty. split; [done|]. intros (_ & i & Hi & Hx). rewrite Hat in Hx by lia. done.
Qed.
Lemma fresh_ble_hash_rep wide lock_ok e :
  0 <= e <= 8192 → ∃ t, fresh_ble_hash wide lock_ok e = Some t ∧ bh_rep t ∅ ∧ e < bh_slots t.
Proof.
  intros He. unfold fresh_ble_hash, twin_ble_hash_create.
  assert (twin_want wide e = e * 10 / 7 + 1 ∧ e + 1 <= e * 10 / 7 + 1 <= 2 ^ 30) as [Hwant Hrange].
  { pose proof (Z.mul_div_le (e * 10) 7). pose proof (Z.mul_succ_div_gt (e * 10) 7).
    unfold twin_want. rewrite !size_wrap_u32 by (unfold is_u32; rewrite ?size_wrap_u32, ?u32_small by word_lia; word_lia).
    rewrite (u32_small (e * 10)), u32_small by word_lia. split; [done|lia]. }
  destruct (twin_cap_spec wide 64 3 (twin_want wide e)) as (b & Hb & Hc & Hwb); [lia|lia|lia|].
  change 8 with (2 ^ 3). rewrite Hc. cbn [mbind option_bind]. eexists. split; [done|].
  split; [by apply ble_hash_empty|]. unfold bh_slots. simpl. lia.
Qed.
Lemma fresh_ble_scan_rep lock_ok cap :
  0 <= cap → ∃ t, fresh_ble_scan lock_ok cap = Some t ∧ bs_rep t [] ∧ bs_cap t = cap.
Proof.
  intros Hc. eexists. split; [done|]. split; [|done]. split; simpl; [by eexists|done|rewrite length_replicate; lia|constructor].
Qed.

(** Ledgers compared field by field, the created lock substituted. *)
Ltac twin_ledger :=
  repeat match goal with H : _ = TWIN_LOCK_INIT _ |- _ => rewrite H end;
  cbn; f_equal; lia.

(** ** Claims *)
(** C19: fed with the same sightings (stamps within one epoch of the tracker's
    clock, at most [cap] devices, no two of which collide in the 32-bit address
    hash), the tracker accepts all of them, and an expiry removes the same
    number of records from the tracker, the hash twin and the scan twin and
    leaves the same records in all three: in particular [twin_is_stale] selects
    exactly the records the tracker's composite time key does. *)
Theorem ble_arms_agree {M : Type} `{ExpanseMapLaws M} (wide lock_ok : bool) (cap : Z) (rs : list ble_record) (cutoff : Z) :
  1 <= cap <= 8192 → Forall (λ r, 0 <= last_seen_ms r < CALM_MS) rs → 0 <= cutoff < CALM_MS →
  (∀ a b, a ∈ rs → b ∈ rs → mac_hash (mac a) = mac_hash (mac b) → mac a = mac b) →
  Z.of_nat (size (devices rs)) <= cap →
  ∃ (t t' : tracker M) h h' s s' n l,
    feed_tracker wide (Some (fresh_tracker cap lock_ok)) rs = Some (Some t, (λ _, EXPANSE_BLE_OK) <$> rs)
    ∧ feed_hash wide (fresh_ble_hash wide lock_ok cap) rs = Some (Some h)
    ∧ feed_scan (fresh_ble_scan lock_ok cap) rs = Some (Some s)
    ∧ expanse_ble_tracker_expire_stale wide (Some t) cutoff = Some (n, Some t')
    ∧ twin_ble_hash_expire_stale wide (Some h) cutoff = Some (n, Some h')
    ∧ twin_ble_scan_expire_stale (Some s) cutoff = Some (n, Some s')
    ∧ bs_rep s' l ∧ ∀ r, ((∃ sec, tracks t' r sec) ↔ r ∈ l) ∧ (r ∈ bh_entries h' ↔ r ∈ l).
Proof.
  intros Hcap Hms Hcut Hcol Hsz. pose proof (fresh_tracks_fleet (M := M) cap lock_ok Hcap) as Hf0.
  destruct (fresh_inv (M := M) cap lock_ok Hcap) as (_ & _ & Hmax & _).
  destruct (feed_tracker_spec wide _ ∅ rs Hf0 Hms) as (t & Hft & Hf); [|by rewrite Hmax|].
  { intros r r0 Hr [Hr0|Hr0]; [by apply Hcol|by rewrite lookup_empty in Hr0]. }
  destruct (fleet_expire wide t _ cutoff Hf Hcut) as (t' & Het & Hleft).
  destruct (fresh_ble_hash_rep wide lock_ok cap) as (h0 & Hh0 & Hhr0 & Hhc); [lia|].
  destruct (feed_hash_spec wide h0 ∅ rs cap Hhr0 Hsz Hhc) as (h & Hfh & Hhr).
  destruct (bh_expire_spec wide h _ cutoff Hhr) as (h' & Heh & Hent & _).
  destruct (fresh_ble_scan_rep lock_ok cap) as (s0 & Hs0 & Hsr0 & Hsc); [lia|].
  destruct (feed_scan_spec s0 [] ∅ rs Hsr0) as (s & l & Hfs & Hsr & Hls).
  { intros k r. by rewrite lookup_empty. }
  { intros r. rewrite lookup_empty. split; [by intros ?%elem_of_nil|done]. }
  { by rewrite Hsc. }
  destruct (bs_expire_spec s l cutoff Hsr) as (s' & Hes & Hsr' & _).
  assert (l ≡ₚ records (devices rs)) as Hperm.
  { apply records_perm; [apply Hf|eapply NoDup_fmap_1, (sc_macs _ _ Hsr)|done]. }
  eexists t, t', h, h', s, s', _, _. rewrite Hh0, Hs0.
  split; [exact Hft|]. split; [exact Hfh|]. split; [exact Hfs|]. split; [exact Het|]. split; [exact Heh|].
  split; [rewrite Hes; do 3 f_equal; apply Permutation_length; by rewrite Hperm|]. split; [exact Hsr'|].
  intros r. rewrite Hleft, Hent, !list_elem_of_filter, Hperm, (bh_entries_perm h _ Hhr). done.
Qed.

(** A lookup in a swept table that keeps the slots of [h]. *)
Lemma swept_lookup wide h h' m c k d :
  bh_rep h m → bh_shape h' → bh_mask h' = bh_mask h →
  (∀ j, 0 <= j < bh_slots h → bh_at h' j = unstale c (bh_at h j)) → 0 <= d < bh_slots h →
  (∀ e, 0 <= e < d → ∃ x, bh_at h' (ring_at (bh_slots h) (bh_home h k) e) = Some x ∧ mac x ≠ k) →
  (∀ x, bh_at h' (ring_at (bh_slots h) (bh_home h k) d) = Some x → mac x = k) →
  ble_get_loop wide (bh_fuel h') h' k (bh_home h' k) = Some (bh_at h' (ring_at (bh_slots h) (bh_home h k) d)).
Proof.
  intros Hr Hsh' Hm Hup Hd Hpre Hend. pose proof (br_shape _ _ Hr) as Hsh. pose proof (bh_slots_pos h Hsh).
  assert (bh_slots h' = bh_slots h) as Hsl by (unfold bh_slots; by rewrite Hm).
  assert (bh_home h' = bh_home h) as Hhm by (unfold bh_home; by rewrite Hm).
  rewrite ble_get_probe by (done || by apply bh_home_range). rewrite bh_fuel_slots, Hsl, Hhm by done.
  rewrite <- (ring_at_0 (bh_slots h) ltac:(lia) (bh_home h k)) at 1 by (by apply bh_home_range).
  rewrite (probe_runs mac (bh_slots h) (bh_home h) ltac:(lia) (bh_home_range h Hsh) (bh_at h') k d); [done|done| | |done|lia|lia].
  - intros e x He Hx. destruct (Hpre e He) as (y & Hy & ?). congruence.
  - intros e He. destruct (Hpre e He) as (y & Hy & ?). congruence.
Qed.

(** C20: the hash twin's expiry only clears the slots' flags.  A record it
    keeps is found by the next lookup exactly when no record between the
    address's home slot and the record's own slot was expired; otherwise the
    lookup reports the device as unknown although the table still holds it. *)
Theorem ble_hash_expire_lookup (wide : bool) (h : twin_ble_hash) (m : fleet) (c i : Z) (r out : ble_record) :
  bh_rep h m → 0 <= i < bh_slots h → bh_at h i = Some r → ¬ is_stale c r →
  let path_kept := ∀ e x, 0 <= e < ring_dist (bh_slots h) (bh_home h (mac r)) i →
                          bh_at h (ring_at (bh_slots h) (bh_home h (mac r)) e) = Some x → ¬ is_stale c x in
  ∃ n h', twin_ble_hash_expire_stale wide (Some h) c = Some (n, Some h') ∧ r ∈ bh_entries h'
    ∧ (path_kept → twin_ble_hash_get wide (Some h') (Some (mac r)) (Some out) = Some (true, Some r, Some h'))
    ∧ (¬ path_kept → twin_ble_hash_get wide (Some h') (Some (mac r)) (Some out) = Some (false, Some out, Some h')).
Proof.
  intros Hr Hi Hat Hns path_kept. pose proof (br_shape _ _ Hr) as Hsh. pose proof (bh_slots_pos h Hsh).
  destruct (bh_expire_spec wide h m c Hr) as (h' & He & Hent & _ & _ & Hsh' & Hm & Hup). eexists _, h'. split; [exact He|].
  set (at_ e := ring_at (bh_slots h) (bh_home h (mac r)) e) in *. set (d := ring_dist (bh_slots h) (bh_home h (mac r)) i) in *.
  assert (0 <= d < bh_slots h) as Hd by (apply ring_dist_range; lia).
  assert (∀ e, 0 <= at_ e < bh_slots h) as Hrange by (intros e; apply ring_at_range; lia).
  assert (at_ d = i) as Hdi by (by apply ring_at_dist; [lia|]).
  assert (∀ e, 0 <= e < d → ∃ x, bh_at h (at_ e) = Some x ∧ mac x ≠ mac r) as Hpath.
  { intros e Hed. destruct (bh_at h (at_ e)) as [x|] eqn:Hx; [|by destruct (pr_path _ _ _ _ (br_probing _ _ Hr) i r e Hi Hat Hed)].
    exists x. split; [done|]. intros Hxr. assert (at_ e = i) as Hei by (eapply (pr_unique _ _ _ _ (br_probing _ _ Hr)); done).
    rewrite <- Hdi in Hei. apply (f_equal (ring_dist (bh_slots h) (bh_home h (mac r)))) in Hei.
    unfold at_ in Hei. rewrite !ring_dist_at in Hei by lia. lia. }
  assert (bh_at h' i = Some r) as Hat' by (rewrite Hup, Hat by done; simpl; by rewrite decide_False).
  assert (∀ e, 0 <= e <= d →
    (∀ e', 0 <= e' < e → bh_at h' (at_ e') ≠ None) → (∀ x, bh_at h' (at_ e) = Some x → mac x = mac r) →
    twin_ble_hash_get wide (Some h') (Some (mac r)) (Some out)
    = Some (match bh_at h' (at_ e) with Some x => (true, Some x, Some h') | None => (false, Some out, Some h') end)) as Hget.
  { intros e Hed Hpre Hend. unfold twin_ble_hash_get. cbv zeta.
    pose proof (swept_lookup wide h (bh_with_lock TWIN_LOCK_TAKE h') m c (mac r) e Hr) as Hs. unfold bh_home in Hs at 3.
    rewrite Hs; [|by destruct Hsh'; split|done|done|lia| |done].
    - cbn [mbind option_bind]. rewrite bh_lock_back. change (bh_at (bh_with_lock TWIN_LOCK_TAKE h')) with (bh_at h').
      fold (at_ e). by destruct (bh_at h' (at_ e)).
    - intros e' He'. change (bh_at (bh_with_lock TWIN_LOCK_TAKE h')) with (bh_at h'). fold (at_ e').
      specialize (Hpre e' He'). destruct (bh_at h' (at_ e')) as [x|] eqn:Hx; [|done]. exists x. split; [done|].
      destruct (Hpath e') as (y & Hy & Hne); [lia|]. rewrite Hup, Hy in Hx by done. simpl in Hx. case_decide; by simplify_eq. }
  split; [rewrite Hent; apply list_elem_of_filter; split; [done|]; apply list_elem_of_omap; exists i;
    split; [apply elem_of_seqZ; lia|done]|]. split.
  - intros Hk. rewrite (Hget d); rewrite ?Hdi, ?Hat'; [done|lia| |by intros x [= <-]].
    intros e Hed. destruct (Hpath e Hed) as (x & Hx & _). rewrite Hup, Hx by done. simpl. by rewrite decide_False by eauto.
  - intros Hk. destruct (decide (Exists (λ e, bh_at h' (at_ e) = None) (seqZ 0 d))) as [Hex|Hnex].
    + apply Exists_exists in Hex as (e0 & He0%elem_of_seqZ & HN). 
      destruct (first_below (λ e, bh_at h' (at_ e) = None) d e0) as (e & Hee & HNe & Hmin); [lia|done|].
      rewrite (Hget e); [by rewrite HNe|lia|exact Hmin|]. intros x. by rewrite HNe.
    + destruct Hk. intros e x Hed Hx Hst. apply Hnex, Exists_exists. exists e. split; [apply elem_of_seqZ; lia|].
      rewrite Hup, Hx by done. simpl. by rewrite decide_True.
Qed.

(** No twin leaks: whatever allocations fail, a creation that returns
    [NULL] has freed what it got, and destroying a twin whose mutex is the one
    it was created with, after any calls, returns every block and the mutex. *)
Theorem twin_lifecycle (wide : bool) (n : Z) (g : ledger) :
  (∀ oks h g' h1, twin_hash_create wide oks n g = Some (h, g') → th_lock <$> h1 = th_lock <$> h → twin_hash_destroy h1 g' = g)
  ∧ (∀ oks s1, let '(s, g') := twin_sorted_create oks n g in ts_lock <$> s1 = ts_lock <$> s → twin_sorted_destroy s1 g' = g)
  ∧ (∀ oks r1, let '(r, g') := twin_ring_create oks n g in tg_lock <$> r1 = tg_lock <$> r → twin_ring_destroy r1 g' = g)
  ∧ (∀ oks t g' t1, twin_ble_hash_create wide oks n g = Some (t, g') → bh_lock <$> t1 = bh_lock <$> t → twin_ble_hash_destroy t1 g' = g)
  ∧ (∀ oks t1, let '(t, g') := twin_ble_scan_create oks n g in bs_lock <$> t1 = bs_lock <$> t → twin_ble_scan_destroy t1 g' = g).
Proof.
  destruct g as [b mm l]. split_and!.
  - intros [[] [] [] [] []] h g' h1; unfold twin_hash_create; (destruct (twin_cap wide 64 8 _) as [c|]; [|done]);
      cbn; intros [= <- <-]; destruct h1 as [h1|]; simpl; intros [=]; try done; unfold twin_hash_destroy, TWIN_LOCK_FREE; twin_ledger.
  - intros [[] [] [] []] s1; cbn; destruct s1; simpl; intros [=]; try done; unfold TWIN_LOCK_FREE; twin_ledger.
  - intros [[] [] [] []] r1; cbn; destruct r1; simpl; intros [=]; try done; unfold TWIN_LOCK_FREE; twin_ledger.
  - intros [[] [] [] []] t g' t1; unfold twin_ble_hash_create; (destruct (twin_cap wide 64 8 _) as [c|]; [|done]);
      cbn; intros [= <- <-]; destruct t1 as [t1|]; simpl; intros [=]; try done; unfold TWIN_LOCK_FREE; twin_ledger.
  - intros [[] [] []] t1; cbn; destruct t1; simpl; intros [=]; try done; unfold TWIN_LOCK_FREE; twin_ledger.
Qed.

(** ** Witnesses *)
(** Two devices whose addresses share a home slot in a table of eight. *)
Definition demo_sightings : list ble_record := [sighting 1 1000; sighting 2 3000; sighting 11 9000; sighting 2 8000].

Lemma ble_arms_agree_witness :
  ∃ (t t' : tracker (gmap Z Z)) h h' s s' n l,
    feed_tracker false (Some (fresh_tracker 4 true)) demo_sightings = Some (Some t, [0; 0; 0; 0])
    ∧ feed_hash false (fresh_ble_hash false true 4) demo_sightings = Some (Some h)
    ∧ feed_scan (fresh_ble_scan true 4) demo_sightings = Some (Some s)
    ∧ expanse_ble_tracker_expire_stale false (Some t) 5500 = Some (n, Some t')
    ∧ twin_ble_hash_expire_stale false (Some h) 5500 = Some (n, Some h')
    ∧ twin_ble_scan_expire_stale (Some s) 5500 = Some (n, Some s')
    ∧ bs_rep s' l ∧ ∀ r, ((∃ sec, tracks t' r sec) ↔ r ∈ l) ∧ (r ∈ bh_entries h' ↔ r ∈ l).
Proof.
  apply (ble_arms_agree (M := gmap Z Z) false true 4 demo_sightings 5500).
  - lia.
  - unfold demo_sightings. rewrite !Forall_cons, Forall_nil. vm_compute. repeat split; congruence.
  - vm_compute. split; congruence.
  - intros a b Ha Hb. unfold demo_sightings in Ha, Hb. rewrite !elem_of_cons in Ha, Hb.
    destruct_or! Ha; destruct_or! Hb; try (by apply elem_of_nil in Ha); try (by apply elem_of_nil in Hb); subst;
      vm_compute; congruence.
  - vm_compute. congruence.
Defined.

Definition demo_ble_hash : twin_ble_hash :=
  default (TwinBleHash [] [] 0 0 (Lock false 0)) (default None (feed_hash false (fresh_ble_hash false true 4) demo_sightings)).
Lemma demo_ble_hash_rep : ∃ m, bh_rep demo_ble_hash m.
Proof.
  destruct (fresh_ble_hash_rep false true 4) as (h0 & Hh0 & Hr0 & Hc); [lia|].
  destruct (feed_hash_spec false h0 ∅ demo_sightings 4 Hr0) as (h & Hf & Hr); [vm_compute; congruence|done|].
  exists (foldl sight ∅ demo_sightings). unfold demo_ble_hash. rewrite Hh0, Hf. exact Hr.
Qed.
(** The first device is expired, and with it the path to the third: its record
    is in the table, its lookup fails. *)
Lemma ble_hash_expire_lookup_witness :
  ∃ n h', twin_ble_hash_expire_stale false (Some demo_ble_hash) 5500 = Some (n, Some h')
    ∧ sighting 11 9000 ∈ bh_entries h'
    ∧ twin_ble_hash_get false (Some h') (Some (mac (sighting 11 0))) (Some zero_record) = Some (false, Some zero_record, Some h').
Proof.
  destruct demo_ble_hash_rep as [m Hr].
  destruct (ble_hash_expire_lookup false demo_ble_hash m 5500 1 (sighting 11 9000) zero_record Hr) as (n & h' & He & Hin & _ & Hlost).
  - vm_compute. split; congruence.
  - vm_compute. reflexivity.
  - vm_compute. congruence.
  - exists n, h'. split; [exact He|]. split; [exact Hin|]. apply Hlost. intros Hk.
    apply (Hk 0 (sighting 1 1000)); vm_compute; [split; congruence|reflexivity|reflexivity].
Defined.
(** The next sighting of the lost device is taken for a new one: two records, one address. *)
Example ble_hash_duplicates :
  (h ← (snd <$> twin_ble_hash_expire_stale false (Some demo_ble_hash) 5500) ;
   '(b, h) ← twin_ble_hash_record false h (Some (sighting 11 9500)) ;
   h ← h ; Some (b, bh_len h, last_seen_ms <$> filter (λ r, mac r = mac (sighting 11 0)) (bh_entries h)))
  = Some (true, 3, [9500; 9000]).
Proof. vm_compute. reflexivity. Qed.
