(* ===== verification/EngineViews.v ===== *)
(** * The rest of the engine's surface that whole programs call

    [src/include/expanse.h] again, for the QEMU gate and the RocksDB memtable:
    the greatest entry of an [expanse_map_t], and of those at or below a key, the
    ordered set [expanse_set_t], and the writer's own view of an
    [expanse_sync32_map_t].  As in [ExpanseApi] each class of operations
    comes with a class of laws, the header's comments, and an instance. *)
From stdpp Require Import base numbers list sorting gmap.
From S2P Require Import Prelude SortedAssoc ExpanseApi Sync32.
Open Scope Z_scope.

(** ** The greatest entry of a map *)
Class ExpanseMapLast (M : Type) := { expanse_map_last : M → option (Z * Z) }.
Class ExpanseMapLastLaws (M : Type) `{ExpanseMapLaws M} `{!ExpanseMapLast M} := {
  last_spec (m : M) : expanse_map_last m = last (entries m);
}.
#[export] Instance gmap_expanse_last : ExpanseMapLast (gmap Z Z) := {
  expanse_map_last m := last (gmap_entries m);
}.
#[export] Instance gmap_expanse_last_laws : ExpanseMapLastLaws (gmap Z Z).
Proof. split. done. Qed.

(** ** The greatest entry at or below a key *)
Class ExpanseMapPrev (M : Type) := { expanse_map_prev_at_or_before : M → Z → option (Z * Z) }.
Class ExpanseMapPrevLaws (M : Type) `{ExpanseMapLaws M} `{!ExpanseMapPrev M} := {
  prev_at_or_before_spec (m : M) k : expanse_map_prev_at_or_before m k = last (filter (λ e : Z * Z, e.1 <= k) (entries m));
}.
#[export] Instance gmap_expanse_prev : ExpanseMapPrev (gmap Z Z) := {
  expanse_map_prev_at_or_before m k := last (filter (λ e : Z * Z, e.1 <= k) (gmap_entries m));
}.
#[export] Instance gmap_expanse_prev_laws : ExpanseMapPrevLaws (gmap Z Z).
Proof. split. done. Qed.

(** ** The ordered set
    [insert] and [remove] answer whether the set changed; the navigation
    functions answer [None] where C returns false and leaves [key_out] alone. *)
Class ExpanseSet (T : Type) := {
  expanse_set_new : T;
  expanse_set_insert : T → Z → T * bool;
  expanse_set_remove : T → Z → T * bool;
  expanse_set_contains : T → Z → bool;
  expanse_set_first : T → option Z;
  expanse_set_last : T → option Z;
  expanse_set_next_after : T → Z → option Z;
}.
(** [o] is the least (or, with the order turned round, the greatest) element of
    a set of keys, [None] when there is none. *)
Definition is_extreme (le : Z → Z → Prop) (P : Z → Prop) (o : option Z) : Prop :=
  match o with Some k => P k ∧ ∀ j, P j → le k j | None => ∀ j, ¬ P j end.
Class ExpanseSetLaws (T : Type) `{!ExpanseSet T} := {
  members : T → gset Z;
  members_new : members expanse_set_new = ∅;
  members_insert t k : members (expanse_set_insert t k).1 = {[k]} ∪ members t;
  set_inserted t k : (expanse_set_insert t k).2 = bool_decide (k ∉ members t);
  members_remove t k : members (expanse_set_remove t k).1 = members t ∖ {[k]};
  set_removed t k : (expanse_set_remove t k).2 = bool_decide (k ∈ members t);
  contains_spec t k : expanse_set_contains t k = bool_decide (k ∈ members t);
  set_first_spec t : is_extreme Z.le (λ k, k ∈ members t) (expanse_set_first t);
  set_last_spec t : is_extreme Z.ge (λ k, k ∈ members t) (expanse_set_last t);
  set_next_spec t key : is_extreme Z.le (λ k, k ∈ members t ∧ key < k) (expanse_set_next_after t key);
}.

Lemma is_extreme_unique le (P : Z → Prop) o k :
  (∀ a b, le a b → le b a → a = b) → is_extreme le P o → P k → (∀ j, P j → le k j) → o = Some k.
Proof. intros Ha Ho Hk Hle. destruct o as [x|]; [|by destruct (Ho k)]. destruct Ho. f_equal. auto. Qed.

(** The extreme of a list by a choice function. *)
Definition extreme_of (pick : Z → Z → Z) (l : list Z) : option Z :=
  match l with [] => None | x :: l => Some (foldr pick x l) end.
Lemma extreme_of_spec pick le l :
  (∀ a b, pick a b = a ∨ pick a b = b) → (∀ a b, le (pick a b) a ∧ le (pick a b) b) →
  (∀ a, le a a) → (∀ a b c, le a b → le b c → le a c) →
  is_extreme le (λ k, k ∈ l) (extreme_of pick l).
Proof.
  intros Hp Hle Hr Ht. destruct l as [|x l]; cbn; [set_solver|]. induction l as [|y l [IHe IHl]]; cbn.
  - split; [constructor|]. intros j ->%list_elem_of_singleton. apply Hr.
  - destruct (Hle y (foldr pick x l)) as [Hy Hf]. split.
    + destruct (Hp y (foldr pick x l)) as [-> | ->]; set_solver.
    + intros j [->|[->|Hj]%elem_of_cons]%elem_of_cons; [|done|]; (eapply Ht; [exact Hf|]); apply IHl; set_solver.
Qed.
Lemma is_extreme_ext le (P Q : Z → Prop) o : (∀ k, P k ↔ Q k) → is_extreme le P o → is_extreme le Q o.
Proof. intros H. destruct o; cbn; [intros [? ?]|intros ?]; naive_solver. Qed.

#[export] Instance gset_expanse : ExpanseSet (gset Z) := {
  expanse_set_new := ∅;
  expanse_set_insert t k := ({[k]} ∪ t, bool_decide (k ∉ t));
  expanse_set_remove t k := (t ∖ {[k]}, bool_decide (k ∈ t));
  expanse_set_contains t k := bool_decide (k ∈ t);
  expanse_set_first t := extreme_of Z.min (elements t);
  expanse_set_last t := extreme_of Z.max (elements t);
  expanse_set_next_after t key := extreme_of Z.min (filter (λ k, key < k) (elements t));
}.
#[export] Instance gset_expanse_laws : ExpanseSetLaws (gset Z).
Proof.
  refine {| members := id |}; cbn; try done; intros; unfold id.
  1, 3: eapply is_extreme_ext; [|apply (extreme_of_spec Z.min Z.le); lia]; intros k; cbn;
    rewrite ?list_elem_of_filter, elem_of_elements; tauto.
  eapply is_extreme_ext; [|apply (extreme_of_spec Z.max Z.ge); lia]. intros k. cbn. by rewrite elem_of_elements.
Defined.

(** ** The writer's view of the concurrent map
    [expanse_sync32_map_writer_get] and, of [expanse_sync32_map_writer_stats]
    on a live handle, the fields the gate prints. *)
Record sync32_stats := Sync32Stats { s_len : Z; s_pending_len : Z }.
Class Sync32View (S : Type) := {
  sync32_writer_get : S → Z → option Z;
  sync32_writer_stats : S → sync32_stats;
}.
Class Sync32ViewLaws (S : Type) `{Sync32Laws S} `{!Sync32View S} := {
  writer_get_spec (s : S) k : sync32_writer_get s k = contents s !! k;
  stats_len (s : S) : s_len (sync32_writer_stats s) = Z.of_nat (size (contents s));
}.
#[export] Instance toy_view : Sync32View toy := {
  sync32_writer_get s k := toy_map s !! k;
  sync32_writer_stats s := Sync32Stats (Z.of_nat (size (toy_map s))) (toy_parked s);
}.
#[export] Instance toy_view_laws : Sync32ViewLaws toy.
Proof. split; done. Qed.
