(* ===== verification/QemuSmoke.v ===== *)
(** * The QEMU Cortex-M3 gate

    Model of [src/integrations/qemu-cortex-m3/smoke.c]: a bare-metal program
    that exercises the engine's narrow surface, the ordered map and set and the
    single-writer map read from SysTick, and reports through semihosting.

    A run is a computation in [QM]: the console so far, and either a value or
    the exit code the program stopped with ([fail] and [exit_qemu] do not
    return).  [None] is an access outside an array or a loop that outran its
    fuel.  The engine is the classes of [ExpanseApi], [Sync32] and
    [EngineViews]; when the timer interrupts is a schedule. *)
From Stdlib Require Import String Ascii.
From stdpp Require Import base numbers list gmap.
From S2P Require Import Prelude SortedAssoc ExpanseApi Sync32 EngineViews HarnessOut HarnessArms.
Open Scope Z_scope.
Abbreviation length := List.length.

(** ** Semihosting *)
Inductive qres (A : Type) := QRet (a : A) | QExit (code : Z).
Arguments QRet {A}.
Arguments QExit {A}.
Definition QM (A : Type) : Type := list Z → option (qres A * list Z).
#[global] Instance qm_ret : MRet QM := λ A x o, Some (QRet x, o).
#[global] Instance qm_bind : MBind QM := λ A B f m o,
  match m o with
  | None => None
  | Some (QExit c, o) => Some (QExit c, o)
  | Some (QRet x, o) => f x o
  end.

(** [out(s)], [SYS_WRITE0]: the characters go to the console. *)
Definition out_chars (l : list Z) : QM unit := λ o, Some (QRet tt, o ++ l).
Definition out (s : string) : QM unit := out_chars (chars s).
Definition out_u32 (v : Z) : QM unit := λ o,
  b ← arr_set (replicate 11 0) 10 0;
  '(b, i) ← u32_digits 10 b 10 v;
  out_chars (c_str b i) o.
Definition kv (k : string) (v : Z) : QM unit :=
  out " ";; out k;; out "=";; out_u32 v.
(** The newline of the program's strings. *)
Definition endl : QM unit := out_chars [10].
Definition exit_qemu {A} (code : Z) : QM A := λ o, Some (QExit code, o).
Definition fail {A} (what : string) : QM A := out "FAIL ";; out what;; endl;; exit_qemu 1.
Definition fault_report {A} (what : string) : QM A := out "FAULT ";; out what;; endl;; exit_qemu 2.
(** [if (cond) fail(what);] *)
Definition fail_if (cond : bool) (what : string) : QM unit := if cond then fail what else mret tt.

(** ** Heap *)
Definition _sbrk (heap_end incr brk : Z) : option Z * Z :=
  if brk +w incr >? heap_end then (None, brk) else (Some brk, brk +w incr).

(** ** The ordered map *)
Definition N_MAP : Z := 20000.
Definition map_key (i : Z) : Z := i *w 7919.
Section Map.
Context {M : Type} `{!ExpanseMap M} `{!ExpanseMapLast M}.

(** [for (i = 0; i < N_MAP; i++)]: [n] insertions from [i]. *)
Fixpoint map_fill (n : nat) (i : Z) (m : M) : QM M :=
  match n with
  | O => mret m
  | S n =>
      let '(m, old) := expanse_map_insert m (map_key i) i in
      fail_if (bool_decide (is_Some old)) "map insert reported replace of a new key";;
      map_fill n (i +w 1) m
  end.
(** [!expanse_map_get(m, key, &v) || v != want] *)
Definition get_wrong (m : M) (key want : Z) : bool :=
  match expanse_map_get m key with Some v => negb (v =? want) | None => true end.
Fixpoint map_check (n : nat) (i : Z) (m : M) : QM unit :=
  match n with
  | O => mret tt
  | S n => fail_if (get_wrong m (map_key i) i) "map get";; map_check n (i +w 1) m
  end.
(** The ordered walk: [have], [k], [v] are [cur]; the entries counted. *)
Fixpoint map_walk (fuel : nat) (m : M) (cur : option (Z * Z)) (n prev : Z) : QM Z :=
  match cur with
  | None => mret n
  | Some (k, v) =>
      match fuel with
      | O => λ _, None
      | S fuel =>
          fail_if (negb (n =? 0) && (k <=? prev)) "map iteration not ascending";;
          fail_if (negb (v *w 7919 =? k)) "map iteration value";;
          map_walk fuel m (expanse_map_next_after m k) (n +w 1) k
      end
  end.
(** [for (i = 0; i < N_MAP; i += 2)]: [n] removals from [i]. *)
Fixpoint map_thin (n : nat) (i : Z) (m : M) : QM M :=
  match n with
  | O => mret m
  | S n =>
      let '(m, old) := expanse_map_remove m (map_key i) in
      fail_if (match old with Some o => negb (o =? i) | None => true end) "map remove";;
      map_thin n (i +w 2) m
  end.
(** [for (i = 1; i < N_MAP; i += 2) if (i * 7919u <= hi) expect++;] *)
Fixpoint map_expect (n : nat) (i hi expect : Z) : Z :=
  match n with
  | O => expect
  | S n => map_expect n (i +w 2) hi (if map_key i <=? hi then expect +w 1 else expect)
  end.
Definition map_hi : Z := 7919 *w 1001.
Definition check_map : QM unit :=
  let turns := Z.to_nat N_MAP in
  m ← map_fill turns 0 expanse_map_new;
  let '(m, old) := expanse_map_insert m 7919 99 in
  fail_if (match old with None => true | Some o => negb (o =? 1) end) "map insert of a present key";;
  fail_if (get_wrong m 7919 99) "map insert did not replace the value";;
  let '(m, _) := expanse_map_insert m 7919 1 in
  fail_if (negb (expanse_map_len m =? N_MAP)) "map len after insert";;
  map_check turns 0 m;;
  fail_if (bool_decide (is_Some (expanse_map_get m 1))) "map get of absent key";;
  n ← map_walk (Z.to_nat (expanse_map_len m)) m (expanse_map_first m) 0 0;
  fail_if (negb (n =? N_MAP)) "map iteration count";;
  fail_if (match expanse_map_last m with Some (k, _) => negb (k =? map_key (N_MAP -w 1)) | None => true end) "map last";;
  m ← map_thin (Z.to_nat (N_MAP / 2)) 0 m;
  fail_if (negb (expanse_map_len m =? N_MAP / 2)) "map len after remove";;
  let expect := map_expect (Z.to_nat (N_MAP / 2)) 1 map_hi 0 in
  let '(m, _, got) := expanse_map_remove_range m 0 map_hi (λ _ _ (u : unit), u) tt in
  fail_if (negb (got =? expect)) "map remove_range count";;
  fail_if (negb (expanse_map_len m =? N_MAP / 2 -w expect)) "map len after remove_range";;
  fail_if (match expanse_map_first m with Some (k, _) => k <=? map_hi | None => true end) "map first after remove_range";;
  out "ok map";; kv "keys" N_MAP;; kv "range_removed" (u32 got);; endl.
End Map.

(** ** The ordered set *)
Definition N_SET : Z := 5000.
Definition set_key (i : Z) : Z := i *w 104729.
Section Set_.
Context {T : Type} `{!ExpanseSet T}.

Fixpoint set_fill (n : nat) (i : Z) (t : T) : QM T :=
  match n with
  | O => mret t
  | S n =>
      let '(t, new) := expanse_set_insert t (set_key i) in
      fail_if (negb new) "set insert";; set_fill n (i +w 1) t
  end.
Fixpoint set_check (n : nat) (i : Z) (t : T) : QM unit :=
  match n with
  | O => mret tt
  | S n => fail_if (negb (expanse_set_contains t (set_key i))) "set contains";; set_check n (i +w 1) t
  end.
(** [for (i = 0; i < N_SET; i += 3)]: [n] removals from [i]. *)
Fixpoint set_thin (n : nat) (i : Z) (t : T) : QM T :=
  match n with
  | O => mret t
  | S n =>
      let '(t, gone) := expanse_set_remove t (set_key i) in
      fail_if (negb gone) "set remove";; set_thin n (i +w 3) t
  end.
(** [!nav(&k) || k != want] *)
Definition key_wrong (o : option Z) (want : Z) : bool :=
  match o with Some k => negb (k =? want) | None => true end.
Definition check_set : QM unit :=
  let turns := Z.to_nat N_SET in
  t ← set_fill turns 0 expanse_set_new;
  set_check turns 0 t;;
  fail_if (expanse_set_contains t 3) "set contains absent";;
  fail_if (key_wrong (expanse_set_first t) 0) "set first";;
  fail_if (key_wrong (expanse_set_last t) (set_key (N_SET -w 1))) "set last";;
  fail_if (key_wrong (expanse_set_next_after t 0) 104729) "set next_after";;
  t ← set_thin (Z.to_nat ((N_SET + 2) / 3)) 0 t;
  fail_if (expanse_set_contains t 0) "set removed key still present";;
  out "ok set";; kv "keys" N_SET;; endl.
End Set_.

(** ** The concurrent map under SysTick *)
Definition MUTATIONS : Z := 200000.
Definition MIN_ISR : Z := 2000.
Definition MUTATIONS_CAP : Z := 20000000.
Record gate := Gate { g_n : Z; g_ok : Z; g_nf : Z; g_busy : Z; g_bad : Z; g_rng : Z }.
Definition gate0 : gate := Gate 0 0 0 0 0 2654435769.
(** The timer's interrupts around one turn of the writer: each flag says
    whether the read lands inside the mutation.  Those of [tk_before] come after
    the loop's condition and up to the mutation's effect, those of [tk_after]
    from there to the next condition. *)
Record ticks := Ticks { tk_before : list bool; tk_after : list bool }.
Record schedule := Schedule {
  sc_start : list bool;          (** from [SYST_CSR = 7] to the first condition *)
  sc_turn : Z → ticks;
  sc_stop : list bool;           (** from the last condition to [SYST_CSR = 0] *)
}.
Section Sync.
Context {S : Type} `{!Sync32 S} `{!Sync32View S}.

Definition SysTick_Handler (reader : option S) (overlap : bool) (c : gate) : gate :=
  match reader with
  | None => c
  | Some s =>
      let rng := wrng_next (g_rng c) in
      let k := Z.land rng (KEYS - 1) in
      let '(st, v) := sync32_try_get s overlap k in
      let o := judge k st v in
      Gate (g_n c +w 1) (if o is OOk then g_ok c +w 1 else g_ok c) (if o is ONf then g_nf c +w 1 else g_nf c)
        (if o is OBusy then g_busy c +w 1 else g_busy c) (if o is OBad then g_bad c +w 1 else g_bad c) rng
  end.
Definition fire (s : S) (fs : list bool) (c : gate) : gate := foldl (λ c f, SysTick_Handler (Some s) f c) c fs.

Fixpoint sync_prefill (n : nat) (k : Z) (s : S) : QM S :=
  match n with
  | O => mret s
  | Datatypes.S n =>
      let '(st, s) := sync32_try_insert s k (VAL k) in
      fail_if (negb (st =? EXPANSE_SYNC32_OK)) "sync32 prefill";; sync_prefill n (k +w 1) s
  end.
(** The condition [i < MUTATIONS_CAP && (i < MUTATIONS || isr_n < MIN_ISR || (i & 1u))]. *)
Definition keep_going (i isr_n : Z) : bool :=
  (i <? MUTATIONS_CAP) && ((i <? MUTATIONS) || (isr_n <? MIN_ISR) || negb (Z.land i 1 =? 0)).
Record churned := Churned { ch_map : S; ch_i : Z; ch_gate : gate; ch_refused : Z; ch_full : Z }.
(** One turn of the writer; [mutate] is the retry loop over a reclaim. *)
Definition sync_turn (t : ticks) (h : churned) : option churned :=
  let i := ch_i h in
  let c := fire (ch_map h) (tk_before t) (ch_gate h) in
  '(st, s, refused) ← mutate 2 i (KEYS_FIXED + Z.land (Z.shiftr i 1) (KEYS_FIXED - 1)) (ch_map h) (ch_refused h);
  let full := if st =? EXPANSE_SYNC32_ARENA_FULL then ch_full h +w 1 else ch_full h in
  let s := if Z.land i 31 =? 31 then (sync32_try_reclaim s).2 else s in
  Some (Churned s (i +w 1) (fire s (tk_after t) c) refused full).
Fixpoint sync_loop (fuel : nat) (sched : Z → ticks) (h : churned) : option churned :=
  if keep_going (ch_i h) (g_n (ch_gate h)) then
    match fuel with
    | O => None
    | Datatypes.S fuel => h ← sync_turn (sched (ch_i h)) h; sync_loop fuel sched h
    end
  else Some h.
(** [if (i & 1u)] after the loop: the pending removal, tried until it is not refused. *)
Definition sync_settle (h : churned) : option S :=
  if negb (Z.land (ch_i h) 1 =? 0) then
    '(_, s, _) ← mutate 2 (ch_i h) (KEYS_FIXED + Z.land (Z.shiftr (ch_i h -w 1) 1) (KEYS_FIXED - 1)) (ch_map h) 0;
    Some s
  else Some (ch_map h).
Fixpoint sync_verify (n : nat) (k : Z) (s : S) : QM unit :=
  match n with
  | O => mret tt
  | Datatypes.S n =>
      fail_if (match sync32_writer_get s k with Some v => negb (v =? VAL k) | None => true end)
        "sync32 writer view corrupted";;
      sync_verify n (k +w 1) s
  end.
Definition lift_q {A} (o : option A) : QM A := λ c, match o with Some x => Some (QRet x, c) | None => None end.
(** The verdict's line and checks. *)
Definition sync_report (s : S) (h : churned) : QM unit :=
  let c := ch_gate h in
  let st := sync32_writer_stats s in
  out "ok sync32";; kv "mutations" (ch_i h);; kv "isr_n" (g_n c);; kv "isr_ok" (g_ok c);; kv "isr_nf" (g_nf c);;
  kv "isr_busy" (g_busy c);; kv "isr_bad" (g_bad c);; kv "refused" (ch_refused h);; kv "arena_full" (ch_full h);;
  kv "len" (u32 (s_len st));; kv "pending" (u32 (s_pending_len st));; endl;;
  fail_if (negb (g_bad c =? 0)) "sync32 reader saw a wrong value";;
  fail_if (g_n c <? MIN_ISR) "SysTick fired too rarely";;
  fail_if (g_ok c <? 10) "sync32 reader almost never succeeded";;
  fail_if (negb (ch_full h =? 0)) "sync32 arena full";;
  fail_if (negb (s_len st =? KEYS_FIXED)) "sync32 len after churn".
Definition check_sync32 (sched : schedule) : QM unit :=
  match sync32_map_new KEYS 1 with
  | None => fail "sync32 new"
  | Some s =>
      s ← sync_prefill (Z.to_nat KEYS_FIXED) 0 s;
      h ← lift_q (sync_loop (Z.to_nat MUTATIONS_CAP) (sc_turn sched)
                   (Churned s 0 (fire s (sc_start sched) gate0) 0 0));
      s ← lift_q (sync_settle h);
      let h := Churned s (ch_i h) (fire s (sc_stop sched) (ch_gate h)) (ch_refused h) (ch_full h) in
      sync_verify (Z.to_nat KEYS_FIXED) 0 s;;
      sync_report s h
  end.
End Sync.

(** ** The program *)
Definition main (M T S : Type) `{!ExpanseMap M, !ExpanseMapLast M, !ExpanseSet T, !Sync32 S, !Sync32View S}
    (sched : schedule) : QM unit :=
  out "EXPANSE qemu mps2-an385 cortex-m3 smoke";; endl;;
  check_map (M := M);;
  check_set (T := T);;
  check_sync32 (S := S) sched;;
  out "PASS";; endl;;
  exit_qemu 0.

(** What the emulator's user sees: the exit status and the console. *)
Definition run_main (M T S : Type) `{!ExpanseMap M, !ExpanseMapLast M, !ExpanseSet T, !Sync32 S, !Sync32View S}
    (sched : schedule) : option (Z * list Z) :=
  match main M T S sched [] with Some (QExit c, o) => Some (c, o) | _ => None end.
