(* ===== verification/QemuChecks.v ===== *)
(** * The QEMU gate: its map and set checks pass on every engine

    [runs m x l]: the computation [m] returns [x] and prints [l]; [stops m c l]:
    it exits with [c] after printing [l].  Every check of
    [src/integrations/qemu-cortex-m3/smoke.c] is a composition of these. *)
From Stdlib Require Import String Ascii.
From stdpp Require Import base numbers list sorting gmap.
From S2P Require Import Prelude SortedAssoc ExpanseApi Sync32 EngineViews HarnessOut HarnessArms QemuSmoke.
Open Scope Z_scope.
Abbreviation length := List.length.

(** ** Runs and exits *)
Section Runs.
Context {A B : Type}.
Implicit Types (m : QM A) (f : A → QM B).
Definition runs m (x : A) (l : list Z) : Prop := ∀ o, m o = Some (QRet x, o ++ l).
Definition stops m (code : Z) (l : list Z) : Prop := ∀ o, m o = Some (QExit code, o ++ l).

Lemma runs_ret (x : A) : runs (mret x) x [].
Proof. intros o. by rewrite app_nil_r. Qed.
Lemma runs_bind m x l f y l' : runs m x l → (∀ o, f x o = Some (QRet y, o ++ l')) → ∀ o, (m ≫= f) o = Some (QRet y, o ++ l ++ l').
Proof. intros Hm Hf o. unfold mbind, qm_bind. by rewrite (Hm o), Hf, app_assoc. Qed.
Lemma stops_bind m x l f c l' : runs m x l → (∀ o, f x o = Some (QExit c, o ++ l')) → ∀ o, (m ≫= f) o = Some (QExit c, o ++ l ++ l').
Proof. intros Hm Hf o. unfold mbind, qm_bind. by rewrite (Hm o), Hf, app_assoc. Qed.
Lemma stops_here m c l f : stops m c l → ∀ o, (m ≫= f) o = Some (QExit c, o ++ l).
Proof. intros Hm o. unfold mbind, qm_bind. by rewrite (Hm o). Qed.
End Runs.

Lemma runs_out s : runs (out s) tt (chars s).
Proof. done. Qed.
Lemma runs_endl : runs endl tt [10].
Proof. done. Qed.
Lemma runs_fail_if b what : b = false → runs (fail_if b what) tt [].
Proof. intros ->. apply runs_ret. Qed.
Lemma stops_fail {A} what : stops (A := A) (fail what) 1 (chars "FAIL " ++ chars what ++ [10]).
Proof.
  intros o. unfold fail. rewrite (stops_bind _ _ _ _ 1 (chars what ++ [10]) (runs_out "FAIL ")); [done|]. clear o. intros o.
  rewrite (stops_bind _ _ _ _ 1 [10] (runs_out what)); [done|]. clear o. intros o.
  by rewrite (stops_bind _ _ _ _ 1 [] runs_endl) by (intros; unfold exit_qemu; by rewrite app_nil_r).
Qed.
Lemma stops_fail_if b what : b = true → stops (fail_if b what) 1 (chars "FAIL " ++ chars what ++ [10]).
Proof. intros ->. apply stops_fail. Qed.
(** The digits [out_u32] prints. *)
Definition dec (v : Z) : list Z := default [] (uart_u32 v).
Lemma runs_out_u32 v : is_u32 v → runs (out_u32 v) tt (dec v).
Proof.
  intros Hv o. unfold out_u32, dec, uart_u32. unfold is_u32 in Hv.
  change (arr_set (replicate 11 0) 10 0) with (Some (replicate 11 0)). cbn [mbind option_bind].
  destruct (u32_digits_spec 10 (replicate 11 0) 10 v) as (b' & i' & D & -> & _); [|lia|lia|cbn; lia|done].
  change (10 ^ Z.of_nat 10) with 10000000000. lia.
Qed.
Lemma runs_kv k v : is_u32 v → runs (kv k v) tt (chars " " ++ chars k ++ chars "=" ++ dec v).
Proof.
  intros Hv o. unfold kv. apply (runs_bind _ tt); [apply runs_out|]. apply (runs_bind _ tt); [apply runs_out|].
  apply (runs_bind _ tt); [apply runs_out|]. by apply runs_out_u32.
Qed.

(** Runs one silent step of a block. *)
Lemma runs_quiet {A B} (m : QM A) x (f : A → QM B) y l : runs m x [] → runs (f x) y l → runs (m ≫= f) y l.
Proof. intros Hm Hf o. by rewrite (runs_bind m x [] f y l Hm Hf). Qed.
Lemma stops_quiet {A B} (m : QM A) x (f : A → QM B) c l : runs m x [] → stops (f x) c l → stops (m ≫= f) c l.
Proof. intros Hm Hf o. by rewrite (stops_bind m x [] f c l Hm Hf). Qed.
Lemma runs_then {A B} (m : QM A) x l (f : A → QM B) o : runs m x l → (m ≫= f) o = f x (o ++ l).
Proof. intros Hm. unfold mbind, qm_bind. by rewrite (Hm o). Qed.
Lemma runs_seq {A B} (m : QM A) x l (f : A → QM B) y l' : runs m x l → runs (f x) y l' → runs (m ≫= f) y (l ++ l').
Proof. intros Hm Hf o. by rewrite (runs_bind m x l f y l' Hm Hf). Qed.
Lemma stops_seq {A B} (m : QM A) x l (f : A → QM B) c l' : runs m x l → stops (f x) c l' → stops (m ≫= f) c (l ++ l').
Proof. intros Hm Hf o. by rewrite (stops_bind m x l f c l' Hm Hf). Qed.

Ltac quiet := eapply runs_quiet; [apply runs_fail_if|].

(** ** The map *)
(** The entries [(f i * 7919, f i)] for [i] below [n]. *)
Definition multiples (f : Z → Z) (n : Z) : assoc := (λ i, (f i * 7919, f i)) <$> seqZ 0 n.
Lemma elem_of_multiples f n e : e ∈ multiples f n ↔ ∃ i, e = (f i * 7919, f i) ∧ 0 <= i < n.
Proof. unfold multiples. rewrite list_elem_of_fmap. setoid_rewrite elem_of_seqZ. naive_solver lia. Qed.
Lemma multiples_snoc f n : 0 <= n → multiples f (n + 1) = multiples f n ++ [(f n * 7919, f n)].
Proof. intros Hn. unfold multiples. rewrite seqZ_app by lia. by rewrite fmap_app. Qed.
Lemma length_multiples f n : length (multiples f n) = Z.to_nat n.
Proof. unfold multiples. by rewrite length_fmap, length_seqZ. Qed.
Lemma multiples_sorted f n : (∀ i j, i < j → f i < f j) → 0 <= n → sorted (multiples f n).
Proof.
  intros Hf. revert n. apply natlike_ind; [constructor|]. intros n Hn IH.
  rewrite <- Z.add_1_r, multiples_snoc by done. apply sorted_app_intro; [done|repeat constructor|].
  intros e g (i & -> & Hi)%elem_of_multiples ->%list_elem_of_singleton. cbn. specialize (Hf i n). lia.
Qed.
Lemma sl_insert_end k v l : (∀ e, e ∈ l → e.1 < k) → sl_insert k v l = l ++ [(k, v)].
Proof. intros Hl. rewrite <- (app_nil_r l) at 1. rewrite sl_insert_cut; [done|done|]. by intros e ?%elem_of_nil. Qed.

Lemma map_key_small i : 0 <= i <= N_MAP → map_key i = i * 7919.
Proof. unfold N_MAP. intros Hi. apply u32_small. unfold is_u32. lia. Qed.
Lemma step_small i d : 0 <= i <= N_MAP → 0 <= d <= 3 → i +w d = i + d.
Proof. unfold N_MAP. intros Hi Hd. apply u32_small. unfold is_u32. lia. Qed.

Section MapChecks.
Context {M : Type} `{ExpanseMapLaws M}.
Implicit Types m : M.
Local Abbreviation full := (multiples id).

Lemma map_fill_ok n i m :
  0 <= i → i + Z.of_nat n <= N_MAP → entries m = full i →
  ∃ m', runs (map_fill n i m) m' [] ∧ entries m' = full (i + Z.of_nat n).
Proof.
  revert i m. induction n as [|n IH]; intros i m Hi Hn Hm; cbn [map_fill].
  { exists m. split; [apply runs_ret|]. by rewrite Z.add_0_r. }
  rewrite map_key_small by lia.
  assert (∀ e, e ∈ entries m → e.1 < i * 7919) as Hlt
    by (rewrite Hm; intros e (j & -> & Hj)%elem_of_multiples; cbn; unfold id; lia).
  destruct (expanse_map_insert m (i * 7919) i) as [m' old] eqn:Hins.
  pose proof (entries_insert m (i * 7919) i) as He. pose proof (insert_old m (i * 7919) i) as Ho.
  rewrite Hins in He, Ho. cbn [fst snd] in He, Ho.
  rewrite sl_insert_end, Hm in He by done. rewrite <- multiples_snoc in He by done.
  destruct (IH (i + 1) m') as (m2 & Hrun & Hent); [lia|lia|done|].
  exists m2. split; [|rewrite Hent; f_equal; lia]. rewrite step_small by lia. quiet; [|done].
  rewrite Ho, (proj2 (sl_lookup_None _ _)); [done|]. intros v Hv. specialize (Hlt _ Hv). cbn in Hlt. lia.
Qed.

Lemma full_get m i n : entries m = full n → 0 <= i < n → expanse_map_get m (i * 7919) = Some i.
Proof. intros Hm Hi. apply get_elem. rewrite Hm. apply elem_of_multiples. by exists i. Qed.
Lemma map_check_ok n i m :
  0 <= i → i + Z.of_nat n <= N_MAP → entries m = full N_MAP → runs (map_check n i m) tt [].
Proof.
  revert i. induction n as [|n IH]; intros i Hi Hn Hm; cbn [map_check]; [apply runs_ret|].
  rewrite map_key_small, step_small by lia. quiet; [|apply IH; [lia|lia|done]].
  unfold get_wrong. rewrite (full_get m i N_MAP) by (done || lia). by rewrite Z.eqb_refl.
Qed.

(** The successor of an entry is the one after it in the list. *)
Lemma next_in_list m pre k v rest :
  entries m = pre ++ (k, v) :: rest → expanse_map_next_after m k = head rest.
Proof.
  intros He. rewrite next_after_spec, He. pose proof (entries_sorted m) as Hs. rewrite He in Hs.
  apply sorted_app in Hs as (_ & Hs & Hpre). apply sorted_cons_inv in Hs as [_ Hrest].
  unfold sl_from. rewrite filter_app, list_filter_none, filter_cons, decide_False; cbn.
  - rewrite list_filter_all; [done|]. intros e Hr. specialize (Hrest e Hr). cbn in *. lia.
  - lia.
  - intros e Hin Hle. specialize (Hpre e (k, v) Hin ltac:(constructor)). cbn in *. lia.
Qed.
Lemma map_walk_ok m rest pre n prev :
  entries m = pre ++ rest → entries m = full N_MAP → n = Z.of_nat (length pre) →
  (∀ e, e ∈ rest → n = 0 ∨ prev < e.1) → runs (map_walk (length rest) m (head rest) n prev) N_MAP [].
Proof.
  intros He Hm. revert pre He n prev. induction rest as [|[k v] rest IH]; intros pre He n prev Hn Hprev; cbn [map_walk head length].
  { apply (f_equal length) in He. rewrite Hm, length_multiples, app_nil_r in He. unfold N_MAP in *. subst n.
    replace (Z.of_nat (length pre)) with 20000 by lia. apply runs_ret. }
  assert ((k, v) ∈ full N_MAP) as (i & [= -> ->] & Hi)%elem_of_multiples by (rewrite <- Hm, He; set_solver).
  pose proof (f_equal length He) as Hlen. rewrite Hm, length_multiples, length_app in Hlen. cbn [length] in Hlen.
  pose proof (entries_sorted m) as Hs. rewrite He in Hs. apply sorted_app in Hs as (_ & Hs & _).
  apply sorted_cons_inv in Hs as [_ Hrest].
  quiet. { destruct (Hprev (i * 7919, i)) as [->|Hlt]; [set_solver|done|]. cbn in Hlt. apply andb_false_iff. right. apply Z.leb_gt. lia. }
  quiet. { assert (u32 (i * 7919) = i * 7919) as -> by exact (map_key_small i ltac:(lia)). by rewrite Z.eqb_refl. }
  rewrite (next_in_list m pre (i * 7919) i rest He). rewrite step_small by (unfold N_MAP in *; lia).
  apply (IH (pre ++ [(i * 7919, i)])).
  - by rewrite <- app_assoc.
  - rewrite length_app. cbn. lia.
  - intros e Hr. right. apply (Hrest e Hr).
Qed.

(** Removing the even multiples one by one leaves the odd ones. *)
Definition thinned i (e : Z * Z) : Prop := e ∈ full N_MAP ∧ (e.2 mod 2 = 1 ∨ i <= e.2).
Lemma map_thin_ok n i m :
  0 <= i → i mod 2 = 0 → i + 2 * Z.of_nat n <= N_MAP → (∀ e, e ∈ entries m ↔ thinned i e) →
  ∃ m', runs (map_thin n i m) m' [] ∧ ∀ e, e ∈ entries m' ↔ thinned (i + 2 * Z.of_nat n) e.
Proof.
  revert i m. induction n as [|n IH]; intros i m Hi Hev Hn Hm; cbn [map_thin].
  { exists m. split; [apply runs_ret|]. by rewrite Z.add_0_r. }
  rewrite map_key_small, step_small by lia.
  destruct (expanse_map_remove m (i * 7919)) as [m' old] eqn:Hrm.
  pose proof (elem_of_remove m (i * 7919)) as He. pose proof (remove_old m (i * 7919)) as Ho. rewrite Hrm in He, Ho.
  destruct (IH (i + 2) m') as (m2 & Hrun & Hent); [lia| |lia| |].
  { rewrite <- (Z.mod_add i 1 2) in Hev by lia. exact Hev. }
  { intros e. cbn [fst] in He. rewrite He, Hm. unfold thinned. split.
    - intros (Hne & Hin & Hor). split; [done|]. destruct (proj1 (elem_of_multiples _ _ _) Hin) as (j & -> & Hj). cbn in *. unfold id in *.
      destruct Hor as [?|Hle]; [by left|]. destruct (decide (j = i)) as [->|]; [lia|]. destruct (decide (j = i + 1)) as [->|]; [left|right; lia].
      rewrite Z.add_mod, Hev by lia. done.
    - intros (Hin & Hor). destruct (proj1 (elem_of_multiples _ _ _) Hin) as (j & -> & Hj). cbn in *. unfold id in *.
      split; [destruct Hor as [Hodd|]; [|lia]; intros Heq; assert (j = i) as -> by lia; lia|]. split; [done|]. destruct Hor; [by left|right; lia]. }
  exists m2. split; [|intros e; rewrite Hent; by replace (i + 2 + 2 * Z.of_nat n) with (i + 2 * Z.of_nat (S n)) by lia].
  quiet; [|done]. cbn [snd] in Ho. rewrite Ho.
  assert (sl_lookup (i * 7919) (entries m) = Some i) as ->; [|by rewrite Z.eqb_refl].
  apply sl_lookup_spec; [apply entries_sorted|]. apply Hm. split; [|right; cbn; lia]. apply elem_of_multiples. exists i. split; [done|lia].
Qed.
Local Abbreviation odds := (multiples (λ i, 2 * i + 1)).
Lemma thinned_odds m : (∀ e, e ∈ entries m ↔ thinned N_MAP e) → entries m = odds (N_MAP / 2).
Proof.
  intros He. apply sorted_ext; [apply entries_sorted|apply multiples_sorted; [lia|done]|].
  intros e. rewrite He. unfold thinned. rewrite !elem_of_multiples. unfold id. change (N_MAP / 2) with 10000. unfold N_MAP. split.
  - intros [(i & -> & Hi) Hor]. exists (i / 2). cbn in Hor. pose proof (Z.div_mod i 2). pose proof (Z.mod_pos_bound i 2).
    replace (2 * (i / 2) + 1) with i by lia. split; [done|lia].
  - intros (i & -> & Hi). split; [exists (2 * i + 1); split; [done|lia]|]. left. cbn [snd].
    rewrite Z.add_comm, Z.mul_comm, Z.mod_add by lia. done.
Qed.

(** Overwriting an entry and putting it back. *)
Lemma rewrite_entry m m1 m2 k v w :
  (k, v) ∈ entries m → m1 = (expanse_map_insert m k w).1 → m2 = (expanse_map_insert m1 k v).1 →
  entries m2 = entries m ∧ expanse_map_get m1 k = Some w.
Proof.
  intros Hin -> ->. split.
  - apply sorted_ext; [apply entries_sorted..|]. intros e. rewrite !elem_of_insert. split.
    + intros [->|(? & [->|[_ ?]])]; [done|cbn in *; done|done].
    + intros He. destruct (decide (e = (k, v))); [by left|right]. split; [|right; split; [|done]];
        intros Hk; destruct e as [k' v']; cbn in Hk; subst k'; by rewrite (sorted_unique k v v' (entries m)) in * by (done || apply entries_sorted).
  - rewrite get_insert. by rewrite decide_True.
Qed.
Definition range_removed : Z := 501.
Lemma map_expect_spec n j e :
  0 <= j → j + Z.of_nat n <= N_MAP / 2 → 0 <= e → e + Z.of_nat n <= N_MAP →
  map_expect n (2 * j + 1) map_hi e = e + Z.max 0 (Z.min (Z.of_nat n) (range_removed - j)).
Proof.
  change (N_MAP / 2) with 10000. revert j e. induction n as [|n IH]; intros j e Hj Hn He Hen; cbn [map_expect]; [lia|].
  rewrite map_key_small, step_small by (unfold N_MAP in *; lia). change map_hi with (1001 * 7919).
  replace (2 * j + 1 + 2) with (2 * (j + 1) + 1) by lia. unfold range_removed in *.
  destruct (Z.leb_spec ((2 * j + 1) * 7919) (1001 * 7919)); [rewrite step_small by (unfold N_MAP in *; lia)|]; rewrite IH by lia; lia.
Qed.
(** The range [0, map_hi] takes the first 501 odd multiples. *)
Definition odds_rest : assoc := (λ i, ((2 * i + 1) * 7919, 2 * i + 1)) <$> seqZ range_removed (N_MAP / 2 - range_removed).
Lemma odds_split : odds (N_MAP / 2) = odds range_removed ++ odds_rest.
Proof. unfold multiples, odds_rest. rewrite <- fmap_app, <- seqZ_app by done. done. Qed.
Lemma odds_sides :
  (∀ e, e ∈ odds range_removed → 0 <= e.1 <= map_hi) ∧ (∀ e, e ∈ odds_rest → map_hi < e.1).
Proof.
  change map_hi with (1001 * 7919). split; intros e.
  - intros (i & -> & Hi)%elem_of_multiples. unfold range_removed in Hi. cbn [fst]. lia.
  - unfold odds_rest. intros (i & -> & Hi%elem_of_seqZ)%list_elem_of_fmap. unfold range_removed in Hi. cbn [fst]. lia.
Qed.
Lemma odds_range :
  sl_range 0 map_hi (odds (N_MAP / 2)) = odds range_removed ∧ sl_outside 0 map_hi (odds (N_MAP / 2)) = odds_rest.
Proof.
  destruct odds_sides as [Hin Hout]. rewrite odds_split. unfold sl_range, sl_outside. rewrite !filter_app. split.
  - rewrite list_filter_all, list_filter_none, app_nil_r; [done|..]; intros e He.
    + specialize (Hout e He). lia.
    + specialize (Hin e He). lia.
  - rewrite list_filter_none, list_filter_all; [done|..]; intros e He.
    + specialize (Hout e He). lia.
    + specialize (Hin e He). lia.
Qed.
Lemma odds_after : match head odds_rest with Some (k, _) => k <=? map_hi | None => true end = false.
Proof. unfold odds_rest. rewrite seqZ_cons by done. done. Qed.
Lemma length_odds_rest : length odds_rest = Z.to_nat (N_MAP / 2 - range_removed).
Proof. unfold odds_rest. by rewrite length_fmap, length_seqZ. Qed.

Context `{!ExpanseMapLast M} `{!ExpanseMapLastLaws M}.
Definition map_line : list Z :=
  chars "ok map" ++ (chars " " ++ chars "keys" ++ chars "=" ++ dec N_MAP) ++
  (chars " " ++ chars "range_removed" ++ chars "=" ++ dec range_removed) ++ [10].
Lemma check_map_ok : runs (check_map (M := M)) tt map_line.
Proof.
  unfold check_map.
  destruct (map_fill_ok (Z.to_nat N_MAP) 0 expanse_map_new) as (m & Hfill & Hm); [done|done|apply entries_new|].
  change (entries m = full N_MAP) in Hm. eapply runs_quiet; [exact Hfill|].
  assert ((7919, 1) ∈ entries m) as H1 by (rewrite Hm; apply elem_of_multiples; by exists 1).
  pose proof (insert_old m 7919 99) as Hold. destruct (expanse_map_insert m 7919 99) as [m1 old] eqn:Hm1.
  destruct (expanse_map_insert m1 7919 1) as [m2 old2] eqn:Hm2.
  destruct (rewrite_entry m m1 m2 7919 1 99) as [Hm2e Hget]; [done|by rewrite Hm1|by rewrite Hm2|]. rewrite Hm in Hm2e.
  cbn [snd] in Hold. quiet. { rewrite Hold, (proj2 (sl_lookup_spec 7919 1 _ (entries_sorted m)) H1). done. }
  quiet. { unfold get_wrong. by rewrite Hget. }
  clear m m1 Hfill Hm H1 Hold Hm1 Hm2 Hget old old2. rename m2 into m, Hm2e into Hm.
  assert (expanse_map_len m = N_MAP) as Hlen by (by rewrite len_spec, Hm, length_multiples). rewrite Hlen.
  quiet; [done|]. eapply runs_quiet; [apply map_check_ok; done|].
  quiet. { rewrite (proj2 (get_absent m 1)); [done|]. intros v. rewrite Hm. intros (i & [= Hi _] & _)%elem_of_multiples. unfold id in Hi. lia. }
  eapply runs_quiet.
  { rewrite first_spec. replace (Z.to_nat N_MAP) with (length (entries m)) by (by rewrite Hm, length_multiples).
    apply (map_walk_ok m (entries m) []); [done|done|done|]. intros e _. by left. }
  quiet; [done|]. quiet.
  { rewrite last_spec, Hm. change N_MAP with (19999 + 1) at 1. rewrite multiples_snoc by lia. rewrite last_snoc. done. }
  destruct (map_thin_ok (Z.to_nat (N_MAP / 2)) 0 m) as (m' & Hthin & Hm'); [done|done|done| |].
  { intros e. rewrite Hm. unfold thinned. split; [|tauto]. intros Hin. split; [done|]. right.
    apply elem_of_multiples in Hin as (i & -> & Hi). cbn. unfold id. lia. }
  eapply runs_quiet; [exact Hthin|]. apply thinned_odds in Hm'. destruct odds_range as [Hr Ho].
  assert (map_expect (Z.to_nat (N_MAP / 2)) 1 map_hi 0 = range_removed) as Hexp
    by (rewrite (map_expect_spec _ 0 0), Z2Nat.id by (rewrite ?Z2Nat.id; done); done).
  rewrite len_spec, Hm', length_multiples, Hexp, Z2Nat.id by done. quiet; [by rewrite Z.eqb_refl|].
  pose proof (remove_range_count unit m' 0 map_hi (λ _ _ u, u) tt) as Hgot.
  pose proof (entries_remove_range unit m' 0 map_hi (λ _ _ u, u) tt) as Hent.
  destruct (expanse_map_remove_range m' 0 map_hi _ tt) as [[m3 u] got]. cbn [fst snd] in Hgot, Hent.
  rewrite Hm', Hr, length_multiples, Z2Nat.id in Hgot by done. rewrite Hm', Ho in Hent. subst got.
  quiet; [by rewrite Z.eqb_refl|].
  quiet. { by rewrite len_spec, Hent, length_odds_rest, Z2Nat.id. }
  quiet. { rewrite first_spec, Hent. apply odds_after. }
  assert (is_u32 N_MAP ∧ is_u32 range_removed) as [HuN Hur] by (unfold is_u32, N_MAP, range_removed; lia).
  change (u32 range_removed) with range_removed. unfold map_line.
  apply (runs_seq _ tt); [apply runs_out|]. apply (runs_seq _ tt); [exact (runs_kv _ _ HuN)|].
  apply (runs_seq _ tt); [exact (runs_kv _ _ Hur)|apply runs_endl].
Qed.
End MapChecks.

(** ** The set *)
Lemma set_key_small i : 0 <= i <= N_SET → set_key i = i * 104729.
Proof. unfold N_SET. intros Hi. apply u32_small. unfold is_u32. lia. Qed.
Lemma set_step i d : 0 <= i <= N_SET → 0 <= d <= 3 → i +w d = i + d.
Proof. unfold N_SET. intros Hi Hd. apply u32_small. unfold is_u32. lia. Qed.

Section SetChecks.
Context {T : Type} `{ExpanseSetLaws T}.
Implicit Types t : T.
(** The set of the multiples [j * 104729] with [P j]. *)
Definition holds_keys t (P : Z → Prop) : Prop := ∀ k, k ∈ members t ↔ ∃ j, k = j * 104729 ∧ P j.
Lemma holds_key t P j : holds_keys t P → j * 104729 ∈ members t ↔ P j.
Proof. intros Ht. rewrite (Ht _). split; [intros (j' & Hj & HP)|eauto]. by replace j with j' by lia. Qed.
Lemma holds_iff t P Q : (∀ j, P j ↔ Q j) → holds_keys t P → holds_keys t Q.
Proof. intros HPQ Ht k. rewrite (Ht k). by setoid_rewrite HPQ. Qed.

Lemma set_fill_ok n i t :
  0 <= i → i + Z.of_nat n <= N_SET → holds_keys t (λ j, 0 <= j < i) →
  ∃ t', runs (set_fill n i t) t' [] ∧ holds_keys t' (λ j, 0 <= j < i + Z.of_nat n).
Proof.
  revert i t. induction n as [|n IH]; intros i t Hi Hn Ht; cbn [set_fill].
  { exists t. split; [apply runs_ret|]. by rewrite Z.add_0_r. }
  rewrite set_key_small, set_step by lia.
  pose proof (members_insert t (i * 104729)) as Hm. pose proof (set_inserted t (i * 104729)) as Hb.
  destruct (expanse_set_insert t (i * 104729)) as [t1 new]. cbn [fst snd] in Hm, Hb.
  destruct (IH (i + 1) t1) as (t2 & Hrun & Ht2); [lia|lia| |].
  { intros k. rewrite Hm, elem_of_union, elem_of_singleton, (Ht k). split.
    - intros [->|(j & -> & Hj)]; [exists i|exists j]; (split; [done|lia]).
    - intros (j & -> & Hj). destruct (decide (j = i)) as [->|]; [by left|right; exists j; split; [done|lia]]. }
  exists t2. split; [|eapply holds_iff; [|exact Ht2]; intros j; lia].
  quiet; [|exact Hrun]. rewrite Hb, bool_decide_true; [done|]. rewrite (holds_key t _ i Ht). lia.
Qed.
Lemma set_check_ok n i t :
  0 <= i → i + Z.of_nat n <= N_SET → holds_keys t (λ j, 0 <= j < N_SET) → runs (set_check n i t) tt [].
Proof.
  revert i. induction n as [|n IH]; intros i Hi Hn Ht; cbn [set_check]; [apply runs_ret|].
  rewrite set_key_small, set_step by lia. quiet; [|apply IH; [lia|lia|done]].
  rewrite contains_spec, bool_decide_true; [done|]. apply (holds_key t _ i Ht). lia.
Qed.
Lemma set_thin_ok n i t :
  0 <= i → i + 3 * Z.of_nat n <= N_SET + 2 → holds_keys t (λ j, 0 <= j < N_SET ∧ (i <= j ∨ j mod 3 ≠ i mod 3)) →
  ∃ t', runs (set_thin n i t) t' [] ∧ ∀ k, k ∈ members t' → k ∈ members t ∧ ((0 < n)%nat → k ≠ i * 104729).
Proof.
  revert i t. induction n as [|n IH]; intros i t Hi Hn Ht; cbn [set_thin].
  { exists t. split; [apply runs_ret|]. intros k Hk. split; [done|lia]. }
  rewrite set_key_small, set_step by lia.
  pose proof (members_remove t (i * 104729)) as Hm. pose proof (set_removed t (i * 104729)) as Hb.
  destruct (expanse_set_remove t (i * 104729)) as [t1 gone]. cbn [fst snd] in Hm, Hb.
  assert ((i + 3) mod 3 = i mod 3) as Hmod by (rewrite <- (Z.mul_1_l 3) at 1; by rewrite Z.mod_add).
  destruct (IH (i + 3) t1) as (t2 & Hrun & Ht2); [lia|lia| |].
  { intros k. rewrite Hm, elem_of_difference, elem_of_singleton, (Ht k). split.
    - intros [(j & -> & Hj & Hor) Hne]. exists j. split; [done|]. split; [done|]. rewrite Hmod.
      destruct Hor as [Hle|?]; [|by right]. destruct (Z.le_gt_cases (i + 3) j); [by left|right].
      assert (j = i + 1 ∨ j = i + 2) as [-> | ->] by (destruct (decide (j = i)) as [->|]; [done|lia]);
        pose proof (Z.div_mod i 3); pose proof (Z.mod_pos_bound i 3); pose proof (Z.div_mod (i + 1) 3);
        pose proof (Z.mod_pos_bound (i + 1) 3); pose proof (Z.div_mod (i + 2) 3); pose proof (Z.mod_pos_bound (i + 2) 3); lia.
    - intros (j & -> & Hj & Hor). rewrite Hmod in Hor. split; [exists j; split; [done|]; split; [done|]; destruct Hor; [left; lia|by right]|].
      intros Heq. assert (j = i) as -> by lia. destruct Hor; [lia|done]. }
  exists t2. split.
  - quiet; [|exact Hrun]. rewrite Hb, bool_decide_true; [done|]. apply (holds_key t _ i Ht). split; [lia|left; lia].
  - intros k Hk. apply Ht2 in Hk as [Hk _]. rewrite Hm in Hk. apply elem_of_difference in Hk as [? Hne]. split; [done|].
    intros _ ->. by apply Hne, elem_of_singleton.
Qed.

Definition set_line : list Z := chars "ok set" ++ (chars " " ++ chars "keys" ++ chars "=" ++ dec N_SET) ++ [10].
Lemma check_set_ok : runs (check_set (T := T)) tt set_line.
Proof.
  unfold check_set.
  destruct (set_fill_ok (Z.to_nat N_SET) 0 expanse_set_new) as (t & Hfill & Ht); [done|by rewrite Z2Nat.id| |].
  { intros k. rewrite members_new, elem_of_empty. split; [done|]. intros (j & _ & Hj). lia. }
  rewrite Z2Nat.id in Ht by done. eapply runs_quiet; [exact Hfill|].
  eapply runs_quiet; [apply set_check_ok; [done|by rewrite Z2Nat.id|done]|].
  pose proof (λ j, holds_key t _ j Ht) as Hj. unfold N_SET in Ht, Hj.
  quiet. { rewrite contains_spec, bool_decide_false; [done|]. intros (j & Hk & _)%Ht. lia. }
  quiet. { rewrite (is_extreme_unique _ _ _ 0 Z.le_antisymm (set_first_spec t)); [done|apply (Hj 0); lia|]. intros k (j & -> & ?)%Ht. lia. }
  quiet. { change (set_key (N_SET -w 1)) with (4999 * 104729).
    rewrite (is_extreme_unique Z.ge _ _ (4999 * 104729) ltac:(lia) (set_last_spec t)); [done|apply Hj; lia|]. intros k (j & -> & ?)%Ht. lia. }
  quiet. { rewrite (is_extreme_unique _ _ _ 104729 Z.le_antisymm (set_next_spec t 0)); [done|split; [apply (Hj 1); lia|lia]|].
    intros k [(j & -> & ?)%Ht ?]. lia. }
  destruct (set_thin_ok (Z.to_nat ((N_SET + 2) / 3)) 0 t) as (t2 & Hthin & Ht2); [done|rewrite Z2Nat.id by done; done| |].
  { eapply holds_iff; [|exact Ht]. intros j. unfold N_SET. lia. }
  eapply runs_quiet; [exact Hthin|].
  quiet. { rewrite contains_spec, bool_decide_false; [done|]. intros [_ Hne]%Ht2. apply Hne; [|done].
    change ((N_SET + 2) / 3) with 1667. lia. }
  assert (is_u32 N_SET) as HuN by (unfold is_u32, N_SET; lia). unfold set_line.
  apply (runs_seq _ tt); [apply runs_out|]. apply (runs_seq _ tt); [exact (runs_kv _ _ HuN)|apply runs_endl].
Qed.
End SetChecks.
