(* ===== verification/QemuGate.v ===== *)
(** * The QEMU gate: its verdict

    The concurrent part of [src/integrations/qemu-cortex-m3/smoke.c] on every
    engine that keeps the header's promises and under every interrupt schedule,
    and with it the whole program's exit status and console. *)
From Stdlib Require Import String Ascii.
From stdpp Require Import base numbers list sorting gmap.
From S2P Require Import Prelude SortedAssoc ExpanseApi Sync32 EngineViews HarnessOut HarnessArms QemuSmoke QemuChecks.
Open Scope Z_scope.
Abbreviation length := List.length.

Section Gate.
Context {S : Type} `{Sync32ViewLaws S}.
Implicit Types s : S.

(** ** The interrupt *)
Definition gate_typed (c : gate) : Prop :=
  is_u32 (g_n c) ∧ is_u32 (g_ok c) ∧ is_u32 (g_nf c) ∧ is_u32 (g_busy c) ∧ g_bad c = 0.
Lemma tick_ok s f c : arm_inv s → gate_typed c → gate_typed (SysTick_Handler (Some s) f c).
Proof.
  intros Hi (Hn & Hok & Hnf & Hb & Hbad). unfold SysTick_Handler. set (k := Z.land _ _).
  pose proof (judge_read s f k Hi) as Hj. destruct (sync32_try_get s f k) as [st v]. cbn [fst snd] in Hj.
  rewrite Hj. unfold gate_typed. cbn. destruct f; [|destruct (contents s !! k)]; split_and!; auto with words.
Qed.
Lemma fire_ok s fs c : arm_inv s → gate_typed c → gate_typed (fire s fs c).
Proof. intros Hi. unfold fire. revert c. induction fs as [|f fs IH]; intros c Hc; cbn; [done|]. by apply IH, tick_ok. Qed.

(** ** The writer *)
Definition only_fixed s : Prop :=
  ∀ k, contents s !! k = if decide (0 <= k < KEYS_FIXED) then Some (VAL k) else None.
(** A mutation that the arena does not refuse takes effect. *)
Lemma mutate_effect i k s refused :
  is_u32 refused →
  ∃ st s' r, mutate 2 i k s refused = Some (st, s', r) ∧ is_u32 r ∧
    (st ≠ EXPANSE_SYNC32_ARENA_FULL →
       contents s' = if negb (Z.land i 1 =? 0) then delete k (contents s) else <[k := VAL k]> (contents s)).
Proof.
  intros Hr. cbn [mutate]. destruct (negb (Z.land i 1 =? 0)) eqn:Hodd; rewrite ?Hodd.
  - assert (∀ s1, (sync32_try_remove s1 k).1 ≠ EXPANSE_SYNC32_RECLAIM_BACKLOG → (sync32_try_remove s1 k).1 ≠ EXPANSE_SYNC32_ARENA_FULL →
      contents (sync32_try_remove s1 k).2 = delete k (contents s1)) as Heff.
    { intros s1 Hb Hf. rewrite remove_contents. destruct (Z.eqb_spec (sync32_try_remove s1 k).1 EXPANSE_SYNC32_OK) as [_|Hne]; [done|].
      pose proof (remove_status s1 k). rewrite delete_id; [done|]. apply (remove_found s1). set_solver. }
    pose proof (Heff s) as Heff1. pose proof (remove_contents s k) as Hc. pose proof (remove_after_reclaim s k) as Hre.
    destruct (sync32_try_remove s k) as [st s1]. cbn [fst snd] in *.
    destruct (Z.eqb_spec st EXPANSE_SYNC32_RECLAIM_BACKLOG) as [->|Hst]; [|eauto 10]. specialize (Hre eq_refl).
    pose proof (Heff (sync32_try_reclaim s1).2 Hre) as Heff2. rewrite reclaim_contents, Hc in Heff2.
    destruct (sync32_try_remove _ k) as [st2 s2]. cbn [fst snd] in *. rewrite (proj2 (Z.eqb_neq _ _) Hre).
    eexists _, _, _. split; [done|]. split; [auto with words|done].
  - assert (∀ s1, (sync32_try_insert s1 k (VAL k)).1 ≠ EXPANSE_SYNC32_RECLAIM_BACKLOG → (sync32_try_insert s1 k (VAL k)).1 ≠ EXPANSE_SYNC32_ARENA_FULL →
      contents (sync32_try_insert s1 k (VAL k)).2 = <[k := VAL k]> (contents s1)) as Heff.
    { intros s1 Hb Hf. rewrite insert_contents. destruct (Z.eqb_spec (sync32_try_insert s1 k (VAL k)).1 EXPANSE_SYNC32_OK) as [_|Hne]; [done|].
      pose proof (insert_status s1 k (VAL k)). set_solver. }
    pose proof (Heff s) as Heff1. pose proof (insert_contents s k (VAL k)) as Hc. pose proof (insert_after_reclaim s k (VAL k)) as Hre.
    destruct (sync32_try_insert s k (VAL k)) as [st s1]. cbn [fst snd] in *.
    destruct (Z.eqb_spec st EXPANSE_SYNC32_RECLAIM_BACKLOG) as [->|Hst]; [|eauto 10]. specialize (Hre eq_refl).
    pose proof (Heff (sync32_try_reclaim s1).2 Hre) as Heff2. rewrite reclaim_contents, Hc in Heff2.
    destruct (sync32_try_insert _ k (VAL k)) as [st2 s2]. cbn [fst snd] in *. rewrite (proj2 (Z.eqb_neq _ _) Hre).
    eexists _, _, _. split; [done|]. split; [auto with words|done].
Qed.

(** What the map holds before turn [i] when no arena was full: the fixed keys,
    and in an odd turn the key the turn will remove. *)
Definition paired (i : Z) s : Prop :=
  if Z.even i then only_fixed s
  else ∀ k, contents s !! k = if decide (k = churn_key i) then Some (VAL k)
                              else if decide (0 <= k < KEYS_FIXED) then Some (VAL k) else None.
Definition churn_inv (h : churned (S := S)) : Prop :=
  arm_inv (ch_map h) ∧ gate_typed (ch_gate h) ∧ is_u32 (ch_refused h) ∧ 0 <= ch_i h <= MUTATIONS_CAP ∧
  0 <= ch_full h <= ch_i h ∧ (ch_full h = 0 → paired (ch_i h) (ch_map h)).

Lemma land1_even i : Z.land i 1 = if Z.even i then 0 else 1.
Proof. change 1 with (Z.ones 1) at 1. rewrite Z.land_ones by lia. change (2 ^ 1) with 2. rewrite Zmod_even. done. Qed.
Lemma churn_key_pair i : Z.even i = true → churn_key (i + 1) = churn_key i.
Proof.
  intros [j ->]%Z.even_spec. unfold churn_key. do 2 f_equal. rewrite !Z.shiftr_div_pow2 by lia. change (2 ^ 1) with 2.
  rewrite (Z.mul_comm 2 j), Z.div_add_l, Z.div_mul by lia. change (1 / 2) with 0. lia.
Qed.
Lemma sync_turn_ok t h :
  churn_inv h → ch_i h < MUTATIONS_CAP → ∃ h', sync_turn t h = Some h' ∧ churn_inv h' ∧ ch_i h' = ch_i h + 1.
Proof.
  destruct h as [s i c refused full]. intros (Hi & Hg & Hr & Hb & Hf & Hp) Hcap. cbn [ch_map ch_i ch_gate ch_refused ch_full] in *.
  unfold sync_turn. cbn [ch_map ch_i ch_gate ch_refused ch_full]. fold (churn_key i).
  destruct (churn_key_range i) as [Hk _]. destruct (mutate_ok i (churn_key i) s refused Hk Hi) as (st & s1 & r1 & Hmut & H1).
  destruct (mutate_effect i (churn_key i) s refused Hr) as (st' & s1' & r1' & Hmut' & Hr1 & Heff). rewrite Hmut in Hmut'. simplify_eq.
  rewrite Hmut. cbn [mbind option_bind]. eexists. split; [done|]. unfold MUTATIONS_CAP in *.
  rewrite (u32_small (i + 1)) by (unfold is_u32; lia). split; [|done]. unfold churn_inv. cbn [ch_map ch_i ch_gate ch_refused ch_full].
  set (s2 := if Z.land i 31 =? 31 then (sync32_try_reclaim s1').2 else s1').
  assert (arm_inv s2) as H2 by (unfold s2; destruct (_ =? 31); [by apply arm_reclaim|done]).
  assert (contents s2 = contents s1') as Hs2 by (unfold s2; destruct (_ =? 31); [apply reclaim_contents|done]).
  split_and!; [done|by apply fire_ok, fire_ok|done|unfold MUTATIONS_CAP; lia..| | |].
  1, 2: destruct (st' =? _); [rewrite u32_small by (unfold is_u32; lia)|]; lia.
  destruct (Z.eqb_spec st' EXPANSE_SYNC32_ARENA_FULL) as [->|Hst]; [rewrite u32_small by (unfold is_u32; lia); lia|].
  intros Hf0. specialize (Hp Hf0). specialize (Heff Hst). unfold paired in *. rewrite Z.even_add in *. change (Z.even 1) with false.
  rewrite land1_even in Heff. destruct (Z.even i) eqn:Hev; cbn [Bool.eqb negb Z.eqb] in *; intros k; rewrite Hs2, Heff.
  - rewrite (churn_key_pair i Hev), lookup_insert. specialize (Hp k). repeat case_decide; subst; try done; congruence.
  - rewrite lookup_delete. specialize (Hp k). repeat case_decide; subst; try done; lia.
Qed.
Lemma sync_loop_ok fuel sched h :
  churn_inv h → MUTATIONS_CAP - ch_i h <= Z.of_nat fuel →
  ∃ h', sync_loop fuel sched h = Some h' ∧ churn_inv h' ∧ keep_going (ch_i h') (g_n (ch_gate h')) = false.
Proof.
  revert h. induction fuel as [|fuel IH]; intros h Hh Hfuel; cbn [sync_loop];
    destruct (keep_going (ch_i h) (g_n (ch_gate h))) eqn:Hgo; try (by exists h).
  - unfold keep_going in Hgo. apply andb_prop in Hgo as [Hlt%Z.ltb_lt _]. lia.
  - pose proof Hgo as Hgo'. unfold keep_going in Hgo. apply andb_prop in Hgo as [Hlt%Z.ltb_lt _].
    destruct (sync_turn_ok (sched (ch_i h)) h Hh Hlt) as (h1 & -> & Hinv & Hi). cbn [mbind option_bind]. apply IH; [done|lia].
Qed.
(** The loop leaves after an even number of turns: the pending removal is never needed. *)
Lemma loop_leaves i n : 0 <= i <= MUTATIONS_CAP → keep_going i n = false → Z.even i = true ∧ MUTATIONS <= i.
Proof.
  unfold keep_going. intros Hi. rewrite land1_even. destruct (Z.ltb_spec i MUTATIONS_CAP); cbn [andb].
  - destruct (Z.ltb_spec i MUTATIONS), (n <? MIN_ISR), (Z.even i); cbn; try done.
  - intros _. replace i with MUTATIONS_CAP by lia. done.
Qed.

(** ** Pre-fill and the writer's own view *)
Lemma sync_prefill_ok n k s :
  0 <= k → k + Z.of_nat n <= KEYS_FIXED → (∀ j, contents s !! j = if decide (0 <= j < k) then Some (VAL j) else None) →
  stops (sync_prefill n k s) 1 (chars "FAIL " ++ chars "sync32 prefill" ++ [10]) ∨
  ∃ s', runs (sync_prefill n k s) s' [] ∧
    ∀ j, contents s' !! j = if decide (0 <= j < k + Z.of_nat n) then Some (VAL j) else None.
Proof.
  unfold KEYS_FIXED. revert k s. induction n as [|n IH]; intros k s Hk Hn Hs; cbn [sync_prefill].
  { right. exists s. split; [apply runs_ret|]. by rewrite Z.add_0_r. }
  pose proof (insert_contents s k (VAL k)) as Hc. destruct (sync32_try_insert s k (VAL k)) as [st s1]. cbn [fst snd] in Hc.
  destruct (Z.eqb_spec st EXPANSE_SYNC32_OK) as [->|Hne].
  - rewrite (u32_small (k + 1)) by (unfold is_u32; lia). change (contents s1 = <[k := VAL k]> (contents s)) in Hc.
    destruct (IH (k + 1) s1) as [Hstop|(s' & Hrun & Hs')]; [lia|lia| | |].
    + intros j. rewrite Hc, lookup_insert. specialize (Hs j). repeat case_decide; subst; try done; lia.
    + left. eapply stops_quiet; [by apply runs_fail_if|done].
    + right. exists s'. split; [quiet; done|]. intros j. rewrite Hs'. by replace (k + 1 + Z.of_nat n) with (k + Z.of_nat (Datatypes.S n)) by lia.
  - left. intros o. rewrite (stops_here _ 1 _ _ (stops_fail_if true "sync32 prefill" eq_refl)). done.
Qed.
Lemma sync_verify_ok n k s :
  0 <= k → k + Z.of_nat n <= KEYS_FIXED → arm_inv s → runs (sync_verify n k s) tt [].
Proof.
  revert k. induction n as [|n IH]; intros k Hk Hn Hs; cbn [sync_verify]; [apply runs_ret|].
  rewrite (u32_small (k + 1)) by (unfold is_u32, KEYS_FIXED in *; lia).
  quiet; [|apply IH; [lia|lia|done]]. rewrite writer_get_spec, (proj2 Hs k) by lia. by rewrite Z.eqb_refl.
Qed.

(** ** The verdict *)
Definition failed (what : string) : list Z := chars "FAIL " ++ chars what ++ [10].
Definition passed : list Z := chars "PASS" ++ [10].
Definition pair_text (p : string * Z) : list Z := chars " " ++ chars p.1 ++ chars "=" ++ dec p.2.
Lemma kv_then {B} k v (f : unit → QM B) o : is_u32 v → (kv k v ≫= f) o = f tt (o ++ pair_text (k, v)).
Proof. intros Hv. by rewrite (runs_then _ _ _ _ _ (runs_kv k v Hv)). Qed.
(** The summary line of a finished run. *)
Definition sync_line (s : S) (h : churned (S := S)) : list Z :=
  let c := ch_gate h in
  let st := sync32_writer_stats s in
  chars "ok sync32" ++
  concat (pair_text <$> [("mutations", ch_i h); ("isr_n", g_n c); ("isr_ok", g_ok c); ("isr_nf", g_nf c); ("isr_busy", g_busy c);
    ("isr_bad", 0); ("refused", ch_refused h); ("arena_full", ch_full h); ("len", u32 (s_len st)); ("pending", u32 (s_pending_len st))]%string) ++ [10].
(** What the counters of a run amount to. *)
Definition complaint (h : churned (S := S)) : option string :=
  if g_n (ch_gate h) <? MIN_ISR then Some "SysTick fired too rarely"%string
  else if g_ok (ch_gate h) <? 10 then Some "sync32 reader almost never succeeded"%string
  else if negb (ch_full h =? 0) then Some "sync32 arena full"%string
  else None.

Lemma only_fixed_size s : only_fixed s → Z.of_nat (size (contents s)) = KEYS_FIXED.
Proof.
  intros Hs. assert (contents s = list_to_map ((λ k, (k, VAL k)) <$> seqZ 0 KEYS_FIXED)) as ->.
  { apply map_eq. intros k. rewrite Hs. symmetry. case_decide.
    - apply elem_of_list_to_map_1; [rewrite <- list_fmap_compose, list_fmap_id; apply NoDup_seqZ|].
      apply list_elem_of_fmap. exists k. split; [done|]. apply elem_of_seqZ. lia.
    - apply not_elem_of_list_to_map_1. rewrite <- list_fmap_compose, list_fmap_id. rewrite elem_of_seqZ. lia. }
  rewrite <- size_dom, dom_list_to_map_L, <- list_fmap_compose, list_fmap_id.
  rewrite size_list_to_set by apply NoDup_seqZ. rewrite length_seqZ, Z2Nat.id; done.
Qed.
Definition sync_checks (s : S) (h : churned (S := S)) : QM unit :=
  fail_if (negb (g_bad (ch_gate h) =? 0)) "sync32 reader saw a wrong value";;
  fail_if (g_n (ch_gate h) <? MIN_ISR) "SysTick fired too rarely";;
  fail_if (g_ok (ch_gate h) <? 10) "sync32 reader almost never succeeded";;
  fail_if (negb (ch_full h =? 0)) "sync32 arena full";;
  fail_if (negb (s_len (sync32_writer_stats s) =? KEYS_FIXED)) "sync32 len after churn".
Lemma report_line s h o : churn_inv h → sync_report s h o = sync_checks s h (o ++ sync_line s h).
Proof.
  intros (_ & (Hn & Hok & Hnf & Hbusy & Hbad) & Href & Hi & Hfull & _).
  assert (is_u32 (ch_i h) ∧ is_u32 (ch_full h)) as [Hiu Hfu] by (unfold is_u32, MUTATIONS_CAP in *; lia).
  assert (is_u32 0) as Hu0 by (unfold is_u32; lia).
  unfold sync_report, sync_checks. rewrite Hbad, (runs_then _ _ _ _ _ (runs_out _)).
  rewrite !kv_then by (done || apply u32_range).
  rewrite (runs_then _ _ _ _ _ runs_endl). unfold sync_line. cbn [fmap list_fmap concat]. by rewrite <- !app_assoc.
Qed.
Lemma sync_report_ok s h :
  churn_inv h → ch_map h = s → Z.even (ch_i h) = true →
  match complaint h with
  | Some w => stops (sync_report s h) 1 (sync_line s h ++ failed w)
  | None => runs (sync_report s h) tt (sync_line s h)
  end.
Proof.
  intros Hinv <- Hev. pose proof (λ o, report_line (ch_map h) h o Hinv) as Hline.
  destruct Hinv as (_ & (_ & _ & _ & _ & Hbad) & _ & _ & _ & Hpair).
  assert (match complaint h with Some w => stops (sync_checks (ch_map h) h) 1 (failed w) | None => runs (sync_checks (ch_map h) h) tt [] end) as Hc.
  { unfold complaint, sync_checks. rewrite Hbad. destruct (g_n (ch_gate h) <? MIN_ISR).
    { apply (stops_quiet _ tt); [by apply runs_fail_if|]. intros o. by apply stops_here, stops_fail. }
    destruct (g_ok (ch_gate h) <? 10).
    { do 2 (apply (stops_quiet _ tt); [by apply runs_fail_if|]). intros o. by apply stops_here, stops_fail. }
    destruct (Z.eqb_spec (ch_full h) 0) as [Hf|Hf]; cbn [negb].
    2: { do 3 (apply (stops_quiet _ tt); [by apply runs_fail_if|]). intros o. by apply stops_here, stops_fail. }
    do 4 (quiet; [done|]). apply runs_fail_if. specialize (Hpair Hf). unfold paired in Hpair. rewrite Hev in Hpair.
    by rewrite stats_len, (only_fixed_size _ Hpair), Z.eqb_refl. }
  destruct (complaint h) as [w|]; intros o; rewrite Hline, (Hc _), <- app_assoc, ?app_nil_r; done.
Qed.

Lemma check_sync32_ok sched :
  (sync32_map_new KEYS 1 = None ∧ stops (check_sync32 (S := S) sched) 1 (failed "sync32 new")) ∨
  (∃ s0, sync32_map_new KEYS 1 = Some s0 ∧ stops (check_sync32 (S := S) sched) 1 (failed "sync32 prefill")) ∨
  (∃ h, churn_inv h ∧ Z.even (ch_i h) = true ∧ MUTATIONS <= ch_i h ∧
     match complaint h with
     | Some w => stops (check_sync32 (S := S) sched) 1 (sync_line (ch_map h) h ++ failed w)
     | None => runs (check_sync32 (S := S) sched) tt (sync_line (ch_map h) h)
     end).
Proof.
  unfold check_sync32. destruct (sync32_map_new KEYS 1) as [s0|] eqn:Hnew; [|left; split; [done|apply stops_fail]].
  right. pose proof (new_contents _ _ _ Hnew) as Hc0.
  destruct (sync_prefill_ok (Z.to_nat KEYS_FIXED) 0 s0) as [Hstop|(s1 & Hrun & Hs1)]; [done|by rewrite Z2Nat.id| | |].
  { intros j. rewrite Hc0, lookup_empty. case_decide; [lia|done]. }
  { left. exists s0. split; [done|]. intros o. by rewrite (stops_here _ 1 _ _ Hstop). }
  right. rewrite Z2Nat.id in Hs1 by done. change (only_fixed s1) in Hs1.
  assert (arm_inv s1) as Ha1.
  { split; [intros k v; rewrite Hs1; case_decide; congruence|]. intros k Hk. rewrite Hs1. by rewrite decide_True. }
  assert (gate_typed gate0) as Hg0 by (unfold gate_typed, is_u32; cbn; lia).
  destruct (sync_loop_ok (Z.to_nat MUTATIONS_CAP) (sc_turn sched) (Churned s1 0 (fire s1 (sc_start sched) gate0) 0 0)) as (h & Hloop & Hh & Hgo).
  { split_and!; cbn; try done. by apply fire_ok. }
  { rewrite Z2Nat.id by done. cbn. lia. }
  assert (0 <= ch_i h <= MUTATIONS_CAP) as Hi by apply Hh. destruct (loop_leaves _ _ Hi Hgo) as [Hev Hmin].
  exists (Churned (ch_map h) (ch_i h) (fire (ch_map h) (sc_stop sched) (ch_gate h)) (ch_refused h) (ch_full h)).
  assert (churn_inv (Churned (ch_map h) (ch_i h) (fire (ch_map h) (sc_stop sched) (ch_gate h)) (ch_refused h) (ch_full h))) as Hh'.
  { destruct Hh as (HA & HG & HR). split_and!; cbn; [done|by apply fire_ok|apply HR..]. }
  split; [done|]. split; [done|]. split; [done|].
  pose proof (sync_report_ok (ch_map h) _ Hh' eq_refl Hev) as Hrep.
  assert (sync_settle h = Some (ch_map h)) as Hset by (unfold sync_settle; by rewrite land1_even, Hev).
  assert (runs (sync_verify (Z.to_nat KEYS_FIXED) 0 (ch_map h)) tt []) as Hver
    by (apply sync_verify_ok; [done|by rewrite Z2Nat.id|apply Hh]).
  destruct (complaint _) as [w|]; intros o; rewrite (runs_then _ _ _ _ _ Hrun), app_nil_r; unfold mbind at 1, qm_bind at 1, lift_q at 1;
    rewrite Hloop; unfold mbind at 1, qm_bind at 1, lift_q at 1; rewrite Hset, (runs_then _ _ _ _ _ Hver), app_nil_r; apply Hrep.
Qed.
End Gate.

(** ** The whole program *)
Definition banner : list Z := chars "EXPANSE qemu mps2-an385 cortex-m3 smoke" ++ [10].
Definition intro_text : list Z := banner ++ map_line ++ set_line.
Lemma main_starts {M T S : Type} `{ExpanseMapLastLaws M} `{ExpanseSetLaws T} `{!Sync32 S, !Sync32View S} sched o :
  main M T S sched o = (check_sync32 (S := S) sched;; out "PASS";; endl;; exit_qemu 0) (o ++ intro_text).
Proof.
  unfold main. rewrite (runs_then _ _ _ _ _ (runs_out _)), (runs_then _ _ _ _ _ runs_endl).
  rewrite (runs_then _ _ _ _ _ (check_map_ok (M := M))), (runs_then _ _ _ _ _ (check_set_ok (T := T))).
  by rewrite <- !app_assoc.
Qed.

(** C22: the gate's verdict is about the timer and the arena, never about a wrong
    answer.  On every engine that keeps the header's promises and whenever the
    timer interrupts, the program stops, its map and set checks pass, and then:
    it exits with 1 because the engine gave no map or refused a pre-fill
    insertion; or, after an even number of mutations between [MUTATIONS] and
    [MUTATIONS_CAP], no read counted as wrong and the fixed keys still in place,
    it prints the summary line and exits with 1 naming a timer that fired or
    succeeded too rarely or a full arena, or, with none of these complaints, the
    map holding exactly the fixed keys, prints [PASS] and exits with 0. *)
Theorem qemu_gate_verdict {M T S : Type} `{ExpanseMapLastLaws M} `{ExpanseSetLaws T} `{Sync32ViewLaws S} (sched : schedule) :
  (sync32_map_new (S := S) KEYS 1 = None ∧ run_main M T S sched = Some (1, intro_text ++ failed "sync32 new")) ∨
  ((∃ s0 : S, sync32_map_new KEYS 1 = Some s0) ∧ run_main M T S sched = Some (1, intro_text ++ failed "sync32 prefill")) ∨
  (∃ h : churned (S := S),
     Z.even (ch_i h) = true ∧ MUTATIONS <= ch_i h <= MUTATIONS_CAP ∧ g_bad (ch_gate h) = 0 ∧ fixed_there (ch_map h) ∧
     match complaint h with
     | Some w => run_main M T S sched = Some (1, intro_text ++ sync_line (ch_map h) h ++ failed w)
     | None => only_fixed (ch_map h) ∧ run_main M T S sched = Some (0, intro_text ++ sync_line (ch_map h) h ++ passed)
     end).
Proof.
  unfold run_main. rewrite main_starts, app_nil_l.
  destruct (check_sync32_ok (S := S) sched) as [[Hnew Hstop]|[(s0 & Hnew & Hstop)|(h & Hinv & Hev & Hmin & Hrun)]].
  - left. split; [done|]. by rewrite (stops_here _ _ _ _ Hstop).
  - right; left. split; [by exists s0|]. by rewrite (stops_here _ _ _ _ Hstop).
  - right; right. exists h. destruct Hinv as ((Hr & Hfix) & (_ & _ & _ & _ & Hbad) & _ & Hi & _ & Hpair).
    split; [done|]. split; [lia|]. split; [done|]. split; [done|]. destruct (complaint h) as [w|] eqn:Hcomp.
    + by rewrite (stops_here _ _ _ _ Hrun).
    + split; [|rewrite (runs_then _ _ _ _ _ Hrun), (runs_then _ _ _ _ _ (runs_out _)), (runs_then _ _ _ _ _ runs_endl);
        unfold exit_qemu; by rewrite <- !app_assoc].
      unfold complaint in Hcomp. repeat case_match; simplify_eq. bool_facts. specialize (Hpair ltac:(done)). unfold paired in Hpair. by rewrite Hev in Hpair.
Qed.

(** On the engines of the library, with a timer that never fires: the gate says so. *)
Lemma qemu_gate_verdict_witness :
  let sched := Schedule [] (λ _, Ticks [] []) [] in
  (∃ c o, run_main (gmap Z Z) (gset Z) toy sched = Some (c, o)) ∧ sync32_map_new (S := toy) KEYS 1 = Some (Toy ∅ 0).
Proof.
  intros sched. split; [|reflexivity].
  destruct (qemu_gate_verdict (M := gmap Z Z) (T := gset Z) (S := toy) sched) as [[_ Hrun]|[[_ Hrun]|(h & _ & _ & _ & _ & Hrun)]]; [eauto..|].
  destruct (complaint h); [eauto|destruct Hrun; eauto].
Defined.
