(* ===== verification/Startup.v ===== *)
(** * Start-up code of the bare-metal programs

    Model of [src/integrations/qemu-cortex-m3/startup.c] and
    [src/integrations/stm32h747/startup.c]: the vector tables, the handlers, and
    the initialisation of [.data] and [.bss] before [main].  Memory is a function
    from addresses to words; a [uint32_t *] steps by four.  The section bounds
    come from the linker script as a [layout]. *)
From Stdlib Require Import String Ascii FunctionalExtensionality.
From stdpp Require Import base numbers list gmap.
From S2P Require Import Prelude HarnessOut EngineViews QemuSmoke QemuChecks.
Open Scope Z_scope.
Abbreviation length := List.length.

(** ** Vector tables *)
Inductive handler := Reset_Handler_ | Default_Handler_ | HardFault_Handler_ | SysTick_Handler_.
#[global] Instance handler_eq_dec : EqDecision handler.
Proof. solve_decision. Defined.
(** The entries after the initial stack pointer; [None] is a reserved word. *)
Definition core_vectors : list (option handler) :=
  [Some Reset_Handler_; Some Default_Handler_; Some HardFault_Handler_; Some Default_Handler_; Some Default_Handler_;
   Some Default_Handler_; None; None; None; None; Some Default_Handler_; Some Default_Handler_; None;
   Some Default_Handler_; Some SysTick_Handler_].
Definition qemu_vector_table : list (option handler) := core_vectors ++ replicate 8 (Some Default_Handler_).
Definition stm32_vector_table : list (option handler) := core_vectors ++ replicate 16 (Some Default_Handler_).
(** Exception [n] enters word [n] of the table, whose word 0 is the stack pointer. *)
Definition vector (table : list (option handler)) (n : Z) : option handler := mjoin (arr_get table (n - 1)).

(** The QEMU program's fault handlers. *)
Definition Default_Handler : QM unit := fault_report "unexpected exception".
Definition HardFault_Handler : QM unit := fault_report "hard fault".
(** What an exception other than reset does to the QEMU program; the timer
    handler is [systick].  A reserved entry faults. *)
Definition qemu_exception (systick : QM unit) (n : Z) : QM unit :=
  match vector qemu_vector_table n with
  | Some SysTick_Handler_ => systick
  | Some Default_Handler_ => Default_Handler
  | _ => HardFault_Handler
  end.
(** The harness's two fault lines. *)
Definition stm32_default_report (core : string) : option (list Z) := HarnessOut.fault_report core "default handler" 0 0.
Definition stm32_hardfault_report (core : string) (hfsr cfsr : Z) : option (list Z) :=
  HarnessOut.fault_report core "HARDFAULT" hfsr cfsr.

(** ** Memory before [main] *)
Definition memory : Type := Z → Z.
Definition store (a v : Z) (m : memory) : memory := λ b, if b =? a then v else m b.
Record layout := Layout { _sidata : Z; _sdata : Z; _edata : Z; _sbss : Z; _ebss : Z }.
(** [while (dst < &_edata) *dst++ = *src++;] *)
Fixpoint copy_data (fuel : nat) (src dst _edata : Z) (m : memory) : option memory :=
  if dst <? _edata then
    match fuel with O => None | S fuel => copy_data fuel (src + 4) (dst + 4) _edata (store dst (m src) m) end
  else Some m.
(** [for (dst = &_sbss; dst < &_ebss;) *dst++ = 0;] *)
Fixpoint zero_bss (fuel : nat) (dst _ebss : Z) (m : memory) : option memory :=
  if dst <? _ebss then
    match fuel with O => None | S fuel => zero_bss fuel (dst + 4) _ebss (store dst 0 m) end
  else Some m.
Definition words (a b : Z) : nat := Z.to_nat ((b - a + 3) / 4).
(** The QEMU program's [Reset_Handler] up to the call of [main]. *)
Definition Reset_Handler (l : layout) (m : memory) : option memory :=
  m ← copy_data (words (_sdata l) (_edata l)) (_sidata l) (_sdata l) (_edata l) m;
  zero_bss (words (_sbss l) (_ebss l)) (_sbss l) (_ebss l) m.
Definition SCB_VTOR : Z := 3758157064.
Definition SCB_CPACR : Z := 3758157192.
(** The harness's [start_c], the table at [vtor]. *)
Definition start_c (vtor : Z) (l : layout) (m : memory) : option memory :=
  let m := store SCB_VTOR vtor m in
  let m := store SCB_CPACR (Z.lor (m SCB_CPACR) (Z.shiftl 15 20)) m in
  m ← copy_data (words (_sdata l) (_edata l)) (_sidata l) (_sdata l) (_edata l) m;
  zero_bss (words (_sbss l) (_ebss l)) (_sbss l) (_ebss l) m.
Definition RCC_AHB2ENR : Z := 1476543708.
Definition RCC_AHB4ENR : Z := 1476543712.
(** The M4's [Reset_Handler]: the block clocks first, in registers, then [start_c]. *)
Definition m4_clocks (m : memory) : memory :=
  let m := store RCC_AHB2ENR (Z.lor (m RCC_AHB2ENR) 3758096384) m in
  store RCC_AHB4ENR (Z.lor (m RCC_AHB4ENR) 805306368) m.
Definition m4_Reset_Handler (vtor : Z) (l : layout) (m : memory) : option memory := start_c vtor l (m4_clocks m).

(** ** What the loops do *)
(** The address [a] is one of the [n] words from [lo]. *)
Definition in_words (lo : Z) (n : nat) (a : Z) : bool := (lo <=? a) && (a <? lo + 4 * Z.of_nat n) && ((a - lo) mod 4 =? 0).
Lemma in_words_S lo n a : in_words lo (S n) a = (a =? lo) || in_words (lo + 4) n a.
Proof.
  unfold in_words. replace (a - (lo + 4)) with (a - lo + (-1) * 4) by lia. rewrite Z.mod_add by lia.
  destruct (Z.eqb_spec a lo) as [->|Hne].
  { rewrite Z.sub_diag. cbn. rewrite Z.leb_refl, (proj2 (Z.ltb_lt _ _)) by lia. done. }
  cbn [orb]. destruct (Z.eqb_spec ((a - lo) mod 4) 0) as [Hm|]; [|by rewrite !andb_false_r].
  rewrite !andb_true_r. pose proof (Z.div_mod (a - lo) 4 ltac:(lia)).
  destruct (Z.leb_spec lo a), (Z.leb_spec (lo + 4) a), (Z.ltb_spec a (lo + 4 * Z.of_nat (S n))), (Z.ltb_spec a (lo + 4 + 4 * Z.of_nat n)); cbn; lia || done.
Qed.
Lemma zero_bss_spec n lo m :
  zero_bss n lo (lo + 4 * Z.of_nat n) m = Some (λ a, if in_words lo n a then 0 else m a).
Proof.
  revert lo m. induction n as [|n IH]; intros lo m; cbn [zero_bss].
  - rewrite Z.ltb_irrefl || rewrite (proj2 (Z.ltb_ge lo _)) by lia. f_equal. extensionality a. unfold in_words.
    destruct (Z.leb_spec lo a), (Z.ltb_spec a (lo + 4 * Z.of_nat 0)); cbn; lia || done.
  - rewrite (proj2 (Z.ltb_lt _ _)) by lia. replace (lo + 4 * Z.of_nat (S n)) with (lo + 4 + 4 * Z.of_nat n) by lia.
    rewrite IH. f_equal. extensionality a. rewrite in_words_S. unfold store.
    destruct (Z.eqb_spec a lo); cbn; [by destruct (in_words _ _ _)|done].
Qed.
(** Words read from outside the destination are copied in order. *)
Lemma copy_data_spec n src dst m :
  (∀ i j, 0 <= i < Z.of_nat n → 0 <= j < Z.of_nat n → src + 4 * i ≠ dst + 4 * j) →
  copy_data n src dst (dst + 4 * Z.of_nat n) m = Some (λ a, if in_words dst n a then m (a - dst + src) else m a).
Proof.
  revert src dst m. induction n as [|n IH]; intros src dst m Hd; cbn [copy_data].
  - rewrite (proj2 (Z.ltb_ge dst _)) by lia. f_equal. extensionality a. unfold in_words.
    destruct (Z.leb_spec dst a), (Z.ltb_spec a (dst + 4 * Z.of_nat 0)); cbn; lia || done.
  - rewrite (proj2 (Z.ltb_lt _ _)) by lia. replace (dst + 4 * Z.of_nat (S n)) with (dst + 4 + 4 * Z.of_nat n) by lia.
    rewrite IH by (intros i j Hi Hj; specialize (Hd (i + 1) (j + 1)); lia). f_equal. extensionality a. rewrite in_words_S. unfold store.
    destruct (in_words (dst + 4) n a) eqn:Hin; [rewrite orb_true_r|rewrite orb_false_r].
    + unfold in_words in Hin. apply andb_prop in Hin as [[Hlo Hhi]%andb_prop Hm]. bool_facts.
      pose proof (Z.div_mod (a - (dst + 4)) 4 ltac:(lia)) as Hdm. rewrite Hm in Hdm. set (q := (a - (dst + 4)) / 4) in *.
      specialize (Hd (q + 1) 0 ltac:(lia) ltac:(lia)). rewrite (proj2 (Z.eqb_neq _ _)) by lia. f_equal. lia.
    + destruct (Z.eqb_spec a dst) as [->|]; [f_equal; lia|done].
Qed.

(** ** Exceptions *)
Lemma stops_fault {A} what o :
  QemuSmoke.fault_report (A := A) what o = Some (QExit 2, o ++ chars "FAULT " ++ chars what ++ [10]).
Proof.
  unfold QemuSmoke.fault_report. rewrite (runs_then _ _ _ _ _ (runs_out _)), (runs_then _ _ _ _ _ (runs_out _)).
  rewrite (runs_then _ _ _ _ _ runs_endl). unfold exit_qemu. by rewrite <- !app_assoc.
Qed.
(** Every exception of the table but the timer's ends the QEMU program with
    status 2: [run.sh] cannot mistake a fault for a pass. *)
Lemma qemu_faults systick n o :
  2 <= n <= 23 → n ≠ 15 →
  ∃ what, qemu_exception systick n o = Some (QExit 2, o ++ chars "FAULT " ++ what ++ [10]).
Proof.
  intros Hn Hne. unfold qemu_exception.
  assert (n ∈ seqZ 2 22) as Hin by (apply elem_of_seqZ; lia).
  assert (Forall (λ n, n = 15 ∨ vector qemu_vector_table n ≠ Some SysTick_Handler_) (seqZ 2 22)) as Hall
    by (apply (bool_decide_unpack _); vm_compute; exact I).
  rewrite Forall_forall in Hall. destruct (Hall n Hin) as [?|Hs]; [done|].
  destruct (vector qemu_vector_table n) as [[]|]; try done; eexists; apply stops_fault.
Qed.

(** ** The sections *)
(** Word-aligned sections in order, the load image outside [.data]. *)
Definition layout_ok (l : layout) : Prop :=
  _sdata l <= _edata l ∧ _edata l <= _sbss l ∧ _sbss l <= _ebss l ∧
  (_edata l - _sdata l) mod 4 = 0 ∧ (_ebss l - _sbss l) mod 4 = 0 ∧
  (_sidata l + (_edata l - _sdata l) <= _sdata l ∨ _edata l <= _sidata l).
(** Memory with [.data] loaded and [.bss] cleared. *)
Definition initialised (l : layout) (m : memory) : memory := λ a,
  if in_words (_sbss l) (words (_sbss l) (_ebss l)) a then 0
  else if in_words (_sdata l) (words (_sdata l) (_edata l)) a then m (a - _sdata l + _sidata l)
  else m a.
Lemma words_exact a b : a <= b → (b - a) mod 4 = 0 → b = a + 4 * Z.of_nat (words a b).
Proof.
  intros Hle Hm. unfold words. pose proof (Z.div_mod (b - a) 4 ltac:(lia)) as Hd. rewrite Hm in Hd.
  replace (b - a + 3) with (3 + (b - a) / 4 * 4) by lia. rewrite Z.div_add by lia. change (3 / 4) with 0.
  rewrite Z2Nat.id by (pose proof (Z.div_pos (b - a) 4); lia). lia.
Qed.
Lemma sections_spec l m :
  layout_ok l →
  (m ← copy_data (words (_sdata l) (_edata l)) (_sidata l) (_sdata l) (_edata l) m;
   zero_bss (words (_sbss l) (_ebss l)) (_sbss l) (_ebss l) m) = Some (initialised l m).
Proof.
  intros (Hd & Hdb & Hb & Hdm & Hbm & Hload). pose proof (words_exact _ _ Hd Hdm) as He. pose proof (words_exact _ _ Hb Hbm) as Hf.
  set (nd := words (_sdata l) (_edata l)) in *. set (nb := words (_sbss l) (_ebss l)) in *.
  rewrite He at 1. rewrite copy_data_spec by lia. cbn [mbind option_bind]. rewrite Hf at 1. by rewrite zero_bss_spec.
Qed.
(** A register outside the sections' two ranges. *)
Definition off_sections (l : layout) (a : Z) : Prop := ¬ (_sdata l <= a < _edata l) ∧ ¬ (_sbss l <= a < _ebss l).
Lemma initialised_off l m a : layout_ok l → off_sections l a → initialised l m a = m a.
Proof.
  intros (Hd & Hdb & Hb & Hdm & Hbm & _) [H1 H2]. pose proof (words_exact _ _ Hd Hdm) as He. pose proof (words_exact _ _ Hb Hbm) as Hf.
  unfold initialised, in_words. rewrite <- Hf, <- He.
  destruct (Z.leb_spec (_sbss l) a), (Z.ltb_spec a (_ebss l)), (Z.leb_spec (_sdata l) a), (Z.ltb_spec a (_edata l)); cbn; lia || done.
Qed.

(** The start-up code of both programs ends and leaves memory as C expects
    it before [main]: every word of [.bss] is zero, every word of [.data] is the
    word of the load image at the same offset, and nothing else in memory
    changed, except that the harness first points [VTOR] at its table and gives
    access to the floating-point unit without clearing another access bit, and
    on the M4 switches on the clocks of the memories it needs before touching
    them. *)
Theorem startup_initialises (l : layout) (m : memory) (vtor : Z) :
  layout_ok l → (∀ a, a ∈ [SCB_VTOR; SCB_CPACR; RCC_AHB2ENR; RCC_AHB4ENR] → off_sections l a) →
  Reset_Handler l m = Some (initialised l m) ∧
  (∃ m', start_c vtor l m = Some m' ∧ m' SCB_VTOR = vtor ∧
     (∀ b, Z.testbit (m' SCB_CPACR) b = Z.testbit (m SCB_CPACR) b || ((20 <=? b) && (b <? 24))) ∧
     ∀ a, a ∉ [SCB_VTOR; SCB_CPACR] → a - _sdata l + _sidata l ∉ [SCB_VTOR; SCB_CPACR] → m' a = initialised l m a) ∧
  (m4_Reset_Handler vtor l m = start_c vtor l (m4_clocks m) ∧
     ∀ a, m4_clocks m a = if a =? RCC_AHB4ENR then Z.lor (m a) 805306368 else if a =? RCC_AHB2ENR then Z.lor (m a) 3758096384 else m a).
Proof.
  intros Hl Hreg. split; [by apply sections_spec|]. split.
  - unfold start_c. eexists. split; [by apply sections_spec|]. split; [|split].
    + rewrite initialised_off; [done|done|apply Hreg; set_solver].
    + intros b. rewrite initialised_off; [|done|apply Hreg; set_solver]. cbn. unfold store. cbn. rewrite Z.lor_spec. f_equal.
      destruct (Z.leb_spec 20 b), (Z.ltb_spec b 24); cbn.
      * assert (b = 20 ∨ b = 21 ∨ b = 22 ∨ b = 23) as [->|[->|[->| ->]]] by lia; done.
      * apply (testbit_above _ 24); [done|lia].
      * destruct (Z.ltb_spec b 0); [by apply Z.testbit_neg_r|]. change (Z.testbit (15 * 2 ^ 20) b = false).
        by rewrite Z.mul_pow2_bits_low by lia.
      * lia.
    + intros a Ha Hb. unfold initialised. rewrite !not_elem_of_cons in Ha, Hb. unfold store.
      repeat (rewrite (proj2 (Z.eqb_neq _ _)) by tauto). done.
  - split; [done|]. intros a. unfold m4_clocks, store.
    destruct (Z.eqb_spec a RCC_AHB4ENR) as [->|]; [done|]. by destruct (Z.eqb_spec a RCC_AHB2ENR) as [->|].
Qed.
Definition demo_layout : layout := Layout 4096 536870912 536870928 536870928 536870952.
Lemma startup_initialises_witness :
  ∃ m', Reset_Handler demo_layout (λ a, a) = Some m' ∧ m' 536870916 = 4100 ∧ m' 536870932 = 0 ∧ m' 8 = 8.
Proof.
  exists (initialised demo_layout (λ a, a)). split; [|done].
  apply (startup_initialises demo_layout (λ a, a) 0).
  - unfold layout_ok; cbn. split_and!; try done; lia.
  - intros a Ha. repeat (apply elem_of_cons in Ha as [->|Ha]; [split; cbn; unfold SCB_VTOR, SCB_CPACR, RCC_AHB2ENR, RCC_AHB4ENR; lia|]). by apply elem_of_nil in Ha.
Defined.
