(* ===== verification/Bench.v ===== *)
(** * The ESP32 benchmark runner

    Model of [src/components/expanse/test/bench_esp32_memtable.c]: the keys and
    their shuffle, the two arm macros and their instances, the dispatch control,
    the churn arm and the suite.  The runner is a computation in [BM], whose
    state counts the readings taken of the cycle counter and of the heap (the
    readings themselves, and whether a create call gets its memory, are
    functions of their position, an [env]) and holds the sink and the lines
    printed.  A [double] that the code divides is kept as its two operands. *)
From Stdlib Require Import String Ascii.
From stdpp Require Import base numbers list sorting gmap.
From S2P Require Import Prelude SortedAssoc ExpanseApi HostLock MemTable HarnessOut BleTracker Probing Twins TwinHash TwinHashProofs TwinSorted TwinRing TwinTheorems TwinBle.
From S2P Require Import BleTheorems TwinBleTheorems.
Open Scope Z_scope.
Abbreviation length := List.length.

(** ** Instruments and lines *)
Record env := Env { clock : nat → Z; free_heap : nat → Z; largest_block : nat → Z; granted : nat → bool }.
Record quotient := Quotient { q_num : Z; q_den : Z }.
Inductive line :=
  | Say (s : string)
  | Target (model : string) (revision cores cpu_hz : Z) (idf expanse : string) (free_internal largest_internal : Z)
  | TestsFailed (failures : Z)
  | TestsMissing (expected ran : Z)
  | Stack (min_free total : Z)
  | Skipped (arm : string) (n free largest : Z)
  | Report (benchmark arm : string) (n pop : Z) (cycles_per_op : quotient) (heap_used : Z) (unfragmented : quotient)
  | Churn (pop cycles : Z) (before after : quotient) (retained : Z).
Record bst := Bst { b_cyc : nat; b_heap : nat; b_new : nat; g_sink : Z; b_lines : list line }.
Definition BM (A : Type) : Type := bst → option (A * bst).
#[global] Instance bm_ret : MRet BM := λ A x b, Some (x, b).
#[global] Instance bm_bind : MBind BM := λ A B f m b, match m b with Some (x, b) => f x b | None => None end.
Definition from {A} (o : option A) : BM A := λ b, match o with Some x => Some (x, b) | None => None end.
Definition put_line (l : line) : BM unit := λ b, Some (tt, Bst (b_cyc b) (b_heap b) (b_new b) (g_sink b) (b_lines b ++ [l])).
(** [g_sink += v] *)
Definition sink (v : Z) : BM unit := λ b, Some (tt, Bst (b_cyc b) (b_heap b) (b_new b) (u64 (g_sink b + v)) (b_lines b)).
Definition when (c : bool) (m : BM unit) : BM unit := if c then m else mret tt.

Section Runner.
Context (e : env) (wide : bool).

Definition GET_CYCLES : BM Z := λ b, Some (u32 (clock e (b_cyc b)), Bst (S (b_cyc b)) (b_heap b) (b_new b) (g_sink b) (b_lines b)).
Definition GET_FREE_HEAP : BM Z := λ b, Some (free_heap e (b_heap b), Bst (b_cyc b) (S (b_heap b)) (b_new b) (g_sink b) (b_lines b)).
Definition GET_LARGEST_BLOCK : BM Z := λ b, Some (largest_block e (b_heap b), Bst (b_cyc b) (S (b_heap b)) (b_new b) (g_sink b) (b_lines b)).
(** A create call: the container, or [NULL] when the heap refuses it. *)
Definition create {C} (fresh : option C) : BM (option C) := λ b,
  Some (if granted e (b_new b) then fresh else None, Bst (b_cyc b) (b_heap b) (S (b_new b)) (g_sink b) (b_lines b)).

Definition report_skipped (arm : string) (n : Z) : BM unit :=
  free ← GET_FREE_HEAP; largest ← GET_LARGEST_BLOCK; put_line (Skipped arm n free largest).
Definition report_json (benchmark arm : string) (n pop : Z) (cycles_per_op : quotient) (heap_used : Z) (frag : quotient) : BM unit :=
  put_line (Report benchmark arm n pop cycles_per_op heap_used frag).
(** [1.0 - largest / max(free, 1)], kept as the quotient. *)
Definition heap_frag_ratio : BM quotient :=
  free_now ← GET_FREE_HEAP; largest ← GET_LARGEST_BLOCK;
  mret (Quotient largest (if free_now >? 0 then free_now else 1)).
(** [heap_before > heap_after ? heap_before - heap_after : 0] *)
Definition heap_delta (before after : Z) : Z := if before >? after then before - after else 0.
Definition at_least_one (n : Z) : Z := if n >? 0 then n else 1.

(** ** Keys *)
Definition TSDB_MAX_N : Z := 2000.
Definition TSDB_BASE : Z := 1700000000.
Definition TSDB_VAL (i : Z) : Z := u32 (i mod 1000).
Definition TSDB_AGG_LO : Z := TSDB_BASE + 100.
Definition TSDB_AGG_HI : Z := TSDB_BASE + 600.
(** [for (i = 0; i < n; ++i) g_tsdb_keys[i] = 1700000000u + i;], [n] keys from [i]. *)
Fixpoint ascending_keys (n : nat) (i : Z) (keys : list Z) : option (list Z) :=
  match n with
  | O => Some keys
  | S n => keys ← arr_set keys i (u32 (TSDB_BASE + i)); ascending_keys n (i + 1) keys
  end.
(** The Fisher-Yates loop from [i] down to 1. *)
Fixpoint shuffle (i : nat) (rng : Z) (keys : list Z) : option (list Z) :=
  match i with
  | O => Some keys
  | S i' =>
      let rng := wrng_next rng in
      let j := rng mod (u32 (Z.of_nat i + 1)) in
      t ← arr_get keys (Z.of_nat i);
      kj ← arr_get keys j;
      keys ← arr_set keys (Z.of_nat i) kj;
      keys ← arr_set keys j t;
      shuffle i' rng keys
  end.
Definition tsdb_fill_keys (n : Z) (shuffled : bool) (keys : list Z) : option (list Z) :=
  keys ← ascending_keys (Z.to_nat n) 0 keys;
  if negb shuffled then Some keys else shuffle (Z.to_nat (n - 1)) 2654435769 keys.

(** ** The telemetry arms: what the macro is given *)
Class TsArm (C : Type) := {
  ts_insert : C → Z → Z → option C;
  ts_agg : C → Z → Z → agg → option (agg * C);
}.
(** [for (idx = ..; ..; ++idx) insert_stmt;], [n] insertions from [idx]. *)
Fixpoint insert_loop {C} `{!TsArm C} (n : nat) (idx : Z) (keys : list Z) (c : C) : option C :=
  match n with
  | O => Some c
  | S n => key ← arr_get keys idx; c ← ts_insert c key (TSDB_VAL idx); insert_loop n (idx + 1) keys c
  end.
(** [DEFINE_TSDB_ARM]; [agg0] is the uninitialised struct, [tail] the tail
    statement, given the container, [heap_used] and [frag]. *)
Definition tsdb_arm {C} `{!TsArm C} (arm : string) (fresh : option C) (tail : C → Z → quotient → BM unit)
    (agg0 : agg) (keys : list Z) (n : Z) (ingest_bench agg_bench : string) : BM unit :=
  heap_before ← GET_FREE_HEAP;
  c ← create fresh;
  match c with
  | None => report_skipped arm n
  | Some c =>
      from (insert_loop 100 0 keys c);;
      c ← create fresh;
      match c with
      | None => report_skipped arm n
      | Some c =>
          start ← GET_CYCLES;
          c ← from (insert_loop (Z.to_nat n) 0 keys c);
          now ← GET_CYCLES;
          let elapsed := now -w start in
          heap_after ← GET_FREE_HEAP;
          let heap_used := heap_delta heap_before heap_after in
          frag ← heap_frag_ratio;
          report_json ingest_bench arm n n (Quotient elapsed n) heap_used frag;;
          start ← GET_CYCLES;
          '(agg, c) ← from (ts_agg c TSDB_AGG_LO TSDB_AGG_HI agg0);
          now ← GET_CYCLES;
          let elapsed := now -w start in
          sink (sum_val agg + MemTable.count agg);;
          let agg_ops := at_least_one (MemTable.count agg) in
          report_json agg_bench arm agg_ops n (Quotient elapsed agg_ops) heap_used frag;;
          tail c heap_used frag
      end
  end.

(** ** Their containers *)
#[export] Instance memtable_arm {M} `{!ExpanseMap M} : TsArm (memtable M) := {
  ts_insert c key value := (expanse_memtable_insert (Some c) key value None).1.2;
  ts_agg c lo hi a := '(_, t, a) ← expanse_memtable_aggregate_range wide (Some c) lo hi (Some a); a ← a; t ← t; Some (a, t);
}.
#[export] Instance twin_arm {T} `{!TwinOps wide T} : TsArm T := {
  ts_insert c key value := '(_, t) ← tw_insert (Some c) key value; t;
  ts_agg c lo hi a := '(_, a, t) ← tw_aggregate (Some c) lo hi (Some a); a ← a; t ← t; Some (a, t);
}.
#[export] Instance ring_arm : TsArm twin_ring := {
  ts_insert c key value := '(_, t) ← twin_ring_insert wide (Some c) key value; t;
  ts_agg c lo hi a := '(_, a, t) ← twin_ring_aggregate wide (Some c) lo hi (Some a); a ← a; t ← t; Some (a, t);
}.

(** ** The dispatch control, on the sorted arm's container *)
Definition tsdb_dispatch_control (agg0 : agg) (agg_bench : string) (pop : Z) (c : twin_sorted) (heap_used : Z) (frag : quotient)
  : BM unit :=
  '(agg, c) ← from (ts_agg c TSDB_AGG_LO TSDB_AGG_HI agg0);
  sink (sum_val agg);;
  start ← GET_CYCLES;
  '(agg, c) ← from (ts_agg c TSDB_AGG_LO TSDB_AGG_HI agg);
  now ← GET_CYCLES;
  let inlined := now -w start in
  sink (sum_val agg + MemTable.count agg);;
  let ops := at_least_one (MemTable.count agg) in
  report_json agg_bench "sorted_array_dispatch_inlined" ops pop (Quotient inlined ops) heap_used frag;;
  start ← GET_CYCLES;
  '(_, agg, _) ← from (twin_sorted_aggregate_indirect (Some c) TSDB_AGG_LO TSDB_AGG_HI (Some (twin_visit_agg wide)) (Some agg));
  agg ← from agg;
  now ← GET_CYCLES;
  let indirect := now -w start in
  sink (sum_val agg + MemTable.count agg);;
  let ops := at_least_one (MemTable.count agg) in
  report_json agg_bench "sorted_array_dispatch_indirect" ops pop (Quotient indirect ops) heap_used frag.

(** ** The four arms and the telemetry suite *)
Section Suite.
Context (M : Type) `{!ExpanseMap M} (lock_ok : bool) (agg0 : agg) (rec0 : ble_record).

Definition no_tail {C} (c : C) (heap_used : Z) (frag : quotient) : BM unit := mret tt.
Definition bench_tsdb_expanse (keys : list Z) (n : Z) (ib ab : string) : BM unit :=
  tsdb_arm "expanse_memtable" (fresh_table (M := M) lock_ok) no_tail agg0 keys n ib ab.
Definition bench_tsdb_hash (keys : list Z) (n : Z) (ib ab : string) : BM unit :=
  tsdb_arm "hash_open_addressing" (fresh_hash wide lock_ok n) no_tail agg0 keys n ib ab.
Definition bench_tsdb_sorted (keys : list Z) (n : Z) (ib ab : string) : BM unit :=
  tsdb_arm "sorted_array" (fresh_sorted lock_ok n) (tsdb_dispatch_control agg0 ab n) agg0 keys n ib ab.
Definition bench_tsdb_ring (keys : list Z) (n : Z) (ib ab : string) : BM unit :=
  tsdb_arm "ring_buffer" (fresh_ring lock_ok n) no_tail agg0 keys n ib ab.

(** The static array [g_tsdb_keys] is passed in and its new contents returned. *)
Definition bench_tsdb_hardware (n : Z) (keys : list Z) : BM (list Z) :=
  if n >? TSDB_MAX_N then mret keys else
  keys ← from (tsdb_fill_keys n false keys);
  bench_tsdb_expanse keys n "esp32_tsdb_ingest" "esp32_tsdb_aggregate_500";;
  bench_tsdb_hash keys n "esp32_tsdb_ingest" "esp32_tsdb_aggregate_500";;
  bench_tsdb_sorted keys n "esp32_tsdb_ingest" "esp32_tsdb_aggregate_500";;
  bench_tsdb_ring keys n "esp32_tsdb_ingest" "esp32_tsdb_aggregate_500";;
  keys ← from (tsdb_fill_keys n true keys);
  bench_tsdb_expanse keys n "esp32_tsdb_ingest_shuffled" "esp32_tsdb_aggregate_500_shuffled";;
  bench_tsdb_hash keys n "esp32_tsdb_ingest_shuffled" "esp32_tsdb_aggregate_500_shuffled";;
  bench_tsdb_sorted keys n "esp32_tsdb_ingest_shuffled" "esp32_tsdb_aggregate_500_shuffled";;
  mret keys.

(** ** The BLE arms *)
Class BleArm (C : Type) := {
  ba_record : C → ble_record → option C;
  ba_get : C → list Z → ble_record → option (ble_record * C);
  ba_expire : C → Z → option (Z * C);
}.
Definition bench_mac (i : Z) : list Z :=
  [0; 26; 43; u8 (Z.land (Z.shiftr i 16) 255); u8 (Z.land (Z.shiftr i 8) 255); u8 (Z.land i 255)].
(** The record after [BLE_FILL_MAC(rec, i)]: rssi -68, no flags, 120 cm, "Beacon_Node". *)
Definition bench_rec (i : Z) : ble_record :=
  BleRecord (bench_mac i) (-68) 0 (u32 (1000 + i * 10)) 120 (chars "Beacon_Node" ++ [0; 0; 0]).
Fixpoint record_loop {C} `{!BleArm C} (n : nat) (idx : Z) (c : C) : option C :=
  match n with O => Some c | S n => c ← ba_record c (bench_rec idx); record_loop n (idx + 1) c end.
(** The lookups; [out_rec] is uninitialised each time. *)
Fixpoint get_loop {C} `{!BleArm C} (n : nat) (idx : Z) (c : C) : BM C :=
  match n with
  | O => mret c
  | S n => '(out_rec, c) ← from (ba_get c (bench_mac idx) rec0); sink (last_seen_ms out_rec);; get_loop n (idx + 1) c
  end.
Definition cutoff_of (n stale_frac : Z) : Z := u32 (1000 + (n / stale_frac) * 10).
(** [DEFINE_BLE_ARM] *)
Definition ble_arm {C} `{!BleArm C} (arm : string) (fresh : option C) (n stale_frac : Z) (evict_bench : string) (report_rw : bool)
  : BM unit :=
  heap_before ← GET_FREE_HEAP;
  c ← create fresh;
  match c with
  | None => report_skipped arm n
  | Some c =>
      start ← GET_CYCLES;
      c ← from (record_loop (Z.to_nat n) 0 c);
      now ← GET_CYCLES;
      let elapsed := now -w start in
      heap_after ← GET_FREE_HEAP;
      let heap_used := heap_delta heap_before heap_after in
      frag ← heap_frag_ratio;
      when report_rw (report_json "esp32_ble_sighting_record" arm n n (Quotient elapsed n) heap_used frag);;
      start ← GET_CYCLES;
      c ← get_loop (Z.to_nat n) 0 c;
      now ← GET_CYCLES;
      let elapsed := now -w start in
      when report_rw (report_json "esp32_ble_point_lookup" arm n n (Quotient elapsed n) heap_used frag);;
      start ← GET_CYCLES;
      '(expired, _) ← from (ba_expire c (cutoff_of n stale_frac));
      now ← GET_CYCLES;
      let elapsed := now -w start in
      sink expired;;
      report_json evict_bench arm expired n (Quotient elapsed (at_least_one expired)) heap_used frag
  end.
#[export] Instance tracker_arm : BleArm (tracker M) := {
  ba_record c r := '(t, _) ← expanse_ble_tracker_record wide (Some c) (Some r); t;
  ba_get c m out := '(_, t, out) ← expanse_ble_tracker_get (Some c) (Some m) (Some out); out ← out; t ← t; Some (out, t);
  ba_expire c cutoff := '(n, t) ← expanse_ble_tracker_expire_stale wide (Some c) cutoff; t ← t; Some (n, t);
}.
#[export] Instance ble_hash_arm : BleArm twin_ble_hash := {
  ba_record c r := '(_, t) ← twin_ble_hash_record wide (Some c) (Some r); t;
  ba_get c m out := '(_, out, t) ← twin_ble_hash_get wide (Some c) (Some m) (Some out); out ← out; t ← t; Some (out, t);
  ba_expire c cutoff := '(n, t) ← twin_ble_hash_expire_stale wide (Some c) cutoff; t ← t; Some (n, t);
}.
#[export] Instance ble_scan_arm : BleArm twin_ble_scan := {
  ba_record c r := '(_, t) ← twin_ble_scan_record (Some c) (Some r); t;
  ba_get c m out := '(_, out, t) ← twin_ble_scan_get (Some c) (Some m) (Some out); out ← out; t ← t; Some (out, t);
  ba_expire c cutoff := '(n, t) ← twin_ble_scan_expire_stale (Some c) cutoff; t ← t; Some (n, t);
}.
Definition bench_ble_expanse (n stale_frac : Z) (evict_bench : string) (report_rw : bool) : BM unit :=
  ble_arm "expanse_slab" (Some (fresh_tracker (M := M) n lock_ok)) n stale_frac evict_bench report_rw.
Definition bench_ble_hash (n stale_frac : Z) (evict_bench : string) (report_rw : bool) : BM unit :=
  ble_arm "hash_open_addressing" (fresh_ble_hash wide lock_ok n) n stale_frac evict_bench report_rw.
Definition bench_ble_scan (n stale_frac : Z) (evict_bench : string) (report_rw : bool) : BM unit :=
  ble_arm "linear_scan" (fresh_ble_scan lock_ok n) n stale_frac evict_bench report_rw.
Definition bench_ble_tracker_hardware (n : Z) : BM unit :=
  bench_ble_expanse n 2 "esp32_ble_ttl_eviction" true;;
  bench_ble_hash n 2 "esp32_ble_ttl_eviction" true;;
  bench_ble_scan n 2 "esp32_ble_ttl_eviction" true;;
  bench_ble_expanse n 100 "esp32_ble_ttl_eviction_sparse" false;;
  bench_ble_hash n 100 "esp32_ble_ttl_eviction_sparse" false;;
  bench_ble_scan n 100 "esp32_ble_ttl_eviction_sparse" false.

(** ** Churn *)
Fixpoint churn_insert (n : nat) (i base : Z) (mt : option (memtable M)) : option (memtable M) :=
  match n with
  | O => mt
  | S n => churn_insert n (i + 1) base (expanse_memtable_insert mt (base +w i) (u32 (i mod 1000)) None).1.2
  end.
Fixpoint churn_remove (n : nat) (i base : Z) (mt : option (memtable M)) : option (memtable M) :=
  match n with
  | O => mt
  | S n => churn_remove n (i + 1) base (expanse_memtable_remove mt (base +w i) None).1.2
  end.
Fixpoint churn_cycles (cycles : nat) (c n : Z) (mt : option (memtable M)) : option (memtable M) :=
  match cycles with
  | O => mt
  | S cycles =>
      let base := u32 (1700000000 + c * n) in
      let mt := churn_insert (Z.to_nat n) 0 base mt in
      churn_cycles cycles (c + 1) n (churn_remove (Z.to_nat n) 0 base mt)
  end.
Definition bench_churn_fragmentation (n cycles : Z) : BM unit :=
  frag_before ← heap_frag_ratio;
  heap_before ← GET_FREE_HEAP;
  mt ← create (fresh_table (M := M) lock_ok);
  match mt with
  | None => mret tt
  | Some mt =>
      start ← GET_CYCLES;
      let mt := churn_cycles (Z.to_nat cycles) 0 n (Some mt) in
      now ← GET_CYCLES;
      let elapsed := now -w start in
      frag_after ← heap_frag_ratio;
      heap_after ← GET_FREE_HEAP;
      let heap_used := heap_delta heap_before heap_after in
      let ops := size_wrap wide (n * cycles * 2) in
      report_json "esp32_churn_insert_delete" "expanse_memtable" ops n (Quotient elapsed ops) heap_used frag_after;;
      put_line (Churn n cycles frag_before frag_after heap_used)
  end.

(** ** The suite *)
Definition SAMPLE_RUNS : nat := 10.
Fixpoint bench_reps (reps : nat) (keys : list Z) : BM (list Z) :=
  match reps with
  | O => mret keys
  | S reps =>
      keys ← bench_tsdb_hardware 500 keys;
      keys ← bench_tsdb_hardware 2000 keys;
      bench_ble_tracker_hardware 500;;
      bench_ble_tracker_hardware 2000;;
      bench_churn_fragmentation 500 8;;
      bench_reps reps keys
  end.
Definition app_main_benchmarks (keys : list Z) : BM unit :=
  put_line (Say "=== Expanse ESP32 Hardware Benchmark Suite (Starting) ===");;
  bench_reps SAMPLE_RUNS keys;;
  put_line (Say "=== Expanse ESP32 Hardware Benchmark Suite (Complete) ===").
End Suite.
End Runner.
