(* ===== verification/BenchKeys.v ===== *)
(** * The benchmark's keys

    The shuffled key sequence is a rearrangement of the ascending one, and the
    telemetry arms, each on its own container, store the same entries from it. *)
From Stdlib Require Import String Ascii.
From stdpp Require Import base numbers list sorting gmap.
From S2P Require Import Prelude SortedAssoc ExpanseApi HostLock MemTable HarnessOut BleTracker Probing Twins TwinHash TwinHashProofs TwinSorted TwinRing TwinTheorems Bench.
Open Scope Z_scope.
Abbreviation length := List.length.

(** ** Swapping two cells *)
Lemma swap_perm {A} (l : list A) i j x y :
  l !! i = Some x → l !! j = Some y → <[j := x]> (<[i := y]> l) ≡ₚ l.
Proof.
  intros Hi Hj. pose proof (lookup_lt_Some _ _ _ Hi). pose proof (lookup_lt_Some _ _ _ Hj).
  apply Permutation_inj. split; [by rewrite !length_insert|].
  exists (λ k, if decide (k = i) then j else if decide (k = j) then i else k). split.
  - intros a b. repeat case_decide; lia.
  - intros k. destruct (decide (k = j)) as [->|Hkj].
    + rewrite list_lookup_insert_eq by (rewrite length_insert; lia). case_decide; subst; congruence.
    + rewrite list_lookup_insert_ne by done. destruct (decide (k = i)) as [->|Hki].
      * by rewrite list_lookup_insert_eq by lia.
      * by rewrite list_lookup_insert_ne by done.
Qed.
Lemma arr_swap l i j :
  0 <= i < Z.of_nat (length l) → 0 <= j < Z.of_nat (length l) →
  ∃ t kj l1 l2, arr_get l i = Some t ∧ arr_get l j = Some kj ∧ arr_set l i kj = Some l1 ∧ arr_set l1 j t = Some l2 ∧
    l2 ≡ₚ l ∧ ∀ k : nat, Z.of_nat k ≠ i → Z.of_nat k ≠ j → l2 !! k = (l !! k : option Z).
Proof.
  intros Hi Hj. destruct (arr_get_is_Some l i Hi) as [t Ht]. destruct (arr_get_is_Some l j Hj) as [kj Hkj].
  exists t, kj. eexists _, _. split_and!; [done|done|by apply arr_set_Some|by apply arr_set_Some; rewrite length_insert| |].
  - unfold arr_get in Ht, Hkj. rewrite (proj2 (Z.leb_le 0 i)) in Ht by lia. rewrite (proj2 (Z.leb_le 0 j)) in Hkj by lia. by apply swap_perm.
  - intros k H1 H2. by rewrite !list_lookup_insert_ne by lia.
Qed.

(** ** The sequence *)
Lemma shuffle_spec i rng keys :
  Z.of_nat i < Z.of_nat (length keys) → Z.of_nat i < 2 ^ 31 →
  ∃ keys', shuffle i rng keys = Some keys' ∧ keys' ≡ₚ keys ∧ ∀ k : nat, (i < k)%nat → keys' !! k = keys !! k.
Proof.
  revert rng keys. induction i as [|i IH]; intros rng keys Hl Hi; cbn [shuffle]; [by exists keys|].
  set (r := wrng_next rng). set (j := r mod (u32 (Z.of_nat (S i) + 1))).
  assert (0 <= j < Z.of_nat (S i) + 1) as Hj.
  { unfold j. rewrite u32_small by (unfold is_u32; lia). apply Z.mod_pos_bound. lia. }
  destruct (arr_swap keys (Z.of_nat (S i)) j) as (t & kj & l1 & l2 & E1 & E2 & E3 & E4 & Hp & Hk); [lia|lia|].
  rewrite E1. cbn [mbind option_bind]. rewrite E2. cbn [mbind option_bind]. rewrite E3. cbn [mbind option_bind]. rewrite E4. cbn [mbind option_bind].
  pose proof (Permutation_length Hp) as Hlen.
  destruct (IH r l2) as (keys' & He & Hp' & Hk'); [lia|lia|]. exists keys'. split; [done|]. split; [by rewrite Hp', Hp|]. intros k Hlt. rewrite Hk' by lia. apply Hk; lia.
Qed.
Lemma ascending_spec n i keys :
  0 <= i → i + Z.of_nat n <= Z.of_nat (length keys) → i + Z.of_nat n <= TSDB_MAX_N →
  ∃ keys', ascending_keys n i keys = Some keys' ∧ length keys' = length keys ∧
    ∀ k : nat, keys' !! k = if decide (i <= Z.of_nat k < i + Z.of_nat n) then Some (TSDB_BASE + Z.of_nat k) else keys !! k.
Proof.
  unfold TSDB_MAX_N. revert i keys. induction n as [|n IH]; intros i keys Hi Hl Hm; cbn [ascending_keys].
  { exists keys. split; [done|]. split; [done|]. intros k. rewrite decide_False by lia. done. }
  rewrite arr_set_Some by lia. cbn [mbind option_bind].
  destruct (IH (i + 1) (<[Z.to_nat i := u32 (TSDB_BASE + i)]> keys)) as (keys' & -> & Hlen & Hk); [lia|rewrite length_insert; lia|lia|].
  rewrite length_insert in Hlen. exists keys'. split; [done|]. split; [done|]. intros k. rewrite Hk.
  rewrite u32_small by (unfold is_u32, TSDB_BASE; lia).
  destruct (decide (Z.of_nat k = i)) as [Hki|Hki].
  - rewrite decide_False, decide_True by lia. replace (Z.to_nat i) with k by lia. rewrite list_lookup_insert_eq by lia. f_equal. lia.
  - rewrite list_lookup_insert_ne by lia. repeat case_decide; try done; lia.
Qed.

Definition key_range (n : Z) : list Z := (λ i, TSDB_BASE + i) <$> seqZ 0 n.
Lemma lookup_key_range n (k : nat) : Z.of_nat k < n → key_range n !! k = Some (TSDB_BASE + Z.of_nat k).
Proof. intros Hk. unfold key_range. rewrite list_lookup_fmap, lookup_seqZ_lt by lia. done. Qed.
(** Both sequences hold the keys [TSDB_BASE] to [TSDB_BASE + n - 1] once each,
    the ascending one in order. *)
Lemma fill_keys_spec n shuffled keys :
  1 <= n <= TSDB_MAX_N → Z.of_nat (length keys) = TSDB_MAX_N →
  ∃ keys', tsdb_fill_keys n shuffled keys = Some keys' ∧ length keys' = length keys ∧
    take (Z.to_nat n) keys' ≡ₚ key_range n ∧ (shuffled = false → take (Z.to_nat n) keys' = key_range n).
Proof.
  intros Hn Hlen. unfold tsdb_fill_keys.
  destruct (ascending_spec (Z.to_nat n) 0 keys) as (k1 & -> & Hl1 & Hk1); [lia|lia|lia|]. cbn [mbind option_bind].
  assert (take (Z.to_nat n) k1 = key_range n) as Ht.
  { apply list_eq. intros k. destruct (decide (k < Z.to_nat n)%nat).
    - rewrite lookup_take_lt, Hk1, decide_True, lookup_key_range by lia. done.
    - rewrite lookup_take_ge, lookup_ge_None_2; [done| |lia]. unfold key_range. rewrite length_fmap, length_seqZ. lia. }
  destruct shuffled; cbn [negb]; [|exists k1; split_and!; [done|done|by rewrite Ht|done]].
  destruct (shuffle_spec (Z.to_nat (n - 1)) 2654435769 k1) as (k2 & -> & Hp & Hk2); [unfold TSDB_MAX_N in *; lia..|].
  exists k2. split; [done|]. split; [by rewrite (Permutation_length Hp)|]. split; [|done]. rewrite <- Ht.
  apply (Permutation_app_inv_r (drop (Z.to_nat n) k1)). rewrite take_drop.
  assert (drop (Z.to_nat n) k1 = drop (Z.to_nat n) k2) as ->; [|by rewrite take_drop].
  apply list_eq. intros k. rewrite !lookup_drop. symmetry. apply Hk2. lia.
Qed.

(** ** What the arms promise *)
(** [holds c l]: the container has stored the entries [l], in whatever order. *)
Class TsArmLaws (wide : bool) (C : Type) `{!TsArm C} := {
  holds : Z → C → assoc → Prop;  (** capacity, container, entries *)
  holds_insert cap c l k v :
    holds cap c l → is_u32 k → is_u32 v → k ∉ l.*1 → Z.of_nat (length l) < cap →
    ∃ c', ts_insert c k v = Some c' ∧ holds cap c' (l ++ [(k, v)]);
  holds_agg cap c l lo hi a :
    holds cap c l → lo <= hi <= UINT32_MAX →
    ∃ c', ts_agg c lo hi a = Some (agg_of wide (sl_range lo hi l).*2, c') ∧ holds cap c' l;
}.
Lemma sl_insert_perm k v l : sorted l → k ∉ l.*1 → sl_insert k v l ≡ₚ l ++ [(k, v)].
Proof.
  intros Hs Hk. destruct (sorted_cut k l Hs) as (l1 & l2 & -> & H1 & H2). rewrite sl_insert_cut by done.
  assert (match l2 with [] => [] | (k', _) :: r => if k' =? k then r else l2 end = l2) as ->.
  { destruct l2 as [|[k' v'] r]; [done|]. destruct (Z.eqb_spec k' k) as [->|]; [|done].
    exfalso. apply Hk. rewrite fmap_app. set_solver. }
  rewrite <- app_assoc. apply Permutation_app_head. apply Permutation_cons_append.
Qed.
Lemma sl_lookup_fresh k l l' : l ≡ₚ l' → k ∉ l'.*1 → sl_lookup k l = None.
Proof.
  intros Hp Hk. apply sl_lookup_None. intros v Hin. apply Hk. apply list_elem_of_fmap. exists (k, v). split; [done|]. by rewrite <- Hp.
Qed.
Lemma sl_range_perm lo hi l l' : l ≡ₚ l' → (sl_range lo hi l).*2 ≡ₚ (sl_range lo hi l').*2.
Proof. intros Hp. apply fmap_Permutation. unfold sl_range. by apply filter_Permutation. Qed.

Section Laws.
Context (wide : bool).
#[export] Instance memtable_arm_laws {M} `{ExpanseMapLaws M} : TsArmLaws wide (memtable M) (TsArm0 := memtable_arm wide).
Proof.
  refine {| holds cap c l := table_ok (Some c) ∧ contents (Some c) ≡ₚ l ∧ cap < 2 ^ 32 ∧ Z.of_nat (length l) <= cap |}.
  - intros cap c l k v (Hok & Hp & Hcap & Hl) Hk Hv Hfresh Hlt. pose proof (Permutation_length Hp) as Hlen.
    destruct (exec_op_refines wide (Some c) (OpInsert k v) Hok) as (mt & He & Hc & Hok'); [done|lia|].
    assert (∀ o1 o2, (expanse_memtable_insert (Some c) k v o1).1.2 = (expanse_memtable_insert (Some c) k v o2).1.2) as Hout.
    { intros o1 o2. unfold expanse_memtable_insert. destruct (mt_map _); [|done]. by destruct (expanse_map_insert _ _ _). }
    cbn [ts_insert memtable_arm]. rewrite (Hout None (Some 0)). cbn [exec_op] in He.
    destruct (expanse_memtable_insert (Some c) k v (Some 0)) as [[b mt'] o] eqn:Hins. cbn [fst snd]. injection He as -> _.
    pose proof Hok' as [(t & m & -> & _) _]. exists t. split; [done|]. split; [done|]. cbn [spec_op fst] in Hc.
    rewrite Hc. split; [|split; [done|rewrite length_app; cbn; lia]].
    rewrite sl_insert_perm; [by rewrite Hp|apply contents_sorted|]. by rewrite Hp.
  - intros cap c l lo hi a (Hok & Hp & Hcap & Hl) Hle. pose proof (Permutation_length Hp) as Hlen. cbn [ts_agg memtable_arm].
    pose proof Hok as [(t & m & [= <-] & Hm) Hent]. cbn [contents] in Hent, Hp, Hlen. rewrite Hm in Hent, Hp, Hlen.
    rewrite (aggregate_range_value wide c m lo hi a Hm Hle). cbv zeta. cbn [mbind option_bind].
    exists c. split; [|split_and!; try done; cbn [contents]; by rewrite Hm]. do 2 f_equal. rewrite u32_values by (by apply entry_ok_filter). by rewrite (sl_range_perm lo hi _ _ Hp).
Defined.
#[export] Instance twin_arm_laws {T} `{TwinLaws wide T} : TsArmLaws wide T (TsArm0 := twin_arm wide).
Proof.
  refine {| holds cap c l := ∃ l', tw_rep c l' ∧ l' ≡ₚ l ∧ cap <= tw_cap c |}.
  - intros cap c l k v (l' & Hr & Hp & Hcap) Hk Hv Hfresh Hlt. pose proof (Permutation_length Hp) as Hlen.
    destruct (tw_insert_law c l' k v Hr Hk Hv) as (c' & He & Hr' & Hc'); [right; lia|].
    cbn [ts_insert twin_arm]. rewrite He. exists c'. split; [done|]. exists (sl_insert k v l'). split; [done|]. split; [|lia].
    rewrite sl_insert_perm; [by rewrite Hp|by eapply tw_sorted|by rewrite Hp].
  - intros cap c l lo hi a (l' & Hr & Hp & Hcap) Hle. cbn [ts_agg twin_arm]. rewrite (tw_aggregate_law c l' lo hi a Hr). cbn [mbind option_bind].
    exists c. split; [by rewrite (sl_range_perm lo hi _ _ Hp)|]. by exists l'.
Defined.
#[export] Instance ring_arm_laws : TsArmLaws wide twin_ring (TsArm0 := ring_arm wide).
Proof.
  refine {| holds cap c l := ring_rep c l ∧ cap <= tg_cap c |}.
  - intros cap c l k v [Hr Hcap] Hk Hv Hfresh Hlt. destruct (ring_insert_spec wide c l k v Hr) as (c' & He & Hr' & Hc' & _).
    cbn [ts_insert ring_arm]. rewrite He. exists c'. split; [done|]. split; [|lia]. unfold window in Hr'.
    by replace (length (l ++ [(k, v)]) - Z.to_nat (tg_cap c))%nat with 0%nat in Hr' by (rewrite length_app; cbn; lia).
  - intros cap c l lo hi a [Hr Hcap] Hle. cbn [ts_agg ring_arm]. rewrite (ring_aggregate_spec wide c l lo hi a Hr). by exists c.
Defined.
End Laws.
