(* ===== verification/BenchLog.v ===== *)
(** * What the benchmark prints

    [Y k m o Q]: started with [k] create calls behind it, the computation [m]
    ends, returns a value in [Q] and has the effect [o]: the lines it prints
    (without the measured figures), what it adds to the sink and the create
    calls it makes. *)
From Stdlib Require Import String Ascii.
From stdpp Require Import base numbers list sorting gmap.
From S2P Require Import Prelude SortedAssoc ExpanseApi HostLock MemTable HarnessOut BleTracker Probing Twins TwinHash TwinHashProofs TwinSorted TwinRing TwinTheorems Bench BenchKeys.
Open Scope Z_scope.
Abbreviation length := List.length.

Inductive shape :=
  | ShSay (s : string)
  | ShTarget (model : string)
  | ShTestsFailed (failures : Z)
  | ShTestsMissing (expected ran : Z)
  | ShStack
  | ShSkip (arm : string) (n : Z)
  | ShRep (benchmark arm : string) (n pop : Z)
  | ShChurn (pop cycles : Z).
Definition shape_of (l : line) : shape :=
  match l with
  | Say s => ShSay s
  | Target model _ _ _ _ _ _ _ => ShTarget model
  | TestsFailed f => ShTestsFailed f
  | TestsMissing x r => ShTestsMissing x r
  | Stack _ _ => ShStack
  | Skipped arm n _ _ => ShSkip arm n
  | Report b arm n pop _ _ _ => ShRep b arm n pop
  | Churn pop cycles _ _ _ => ShChurn pop cycles
  end.
Record outcome := Outcome { o_shapes : list shape; o_sink : Z; o_new : nat }.
Definition nothing : outcome := Outcome [] 0 0.
Definition after (o1 o2 : outcome) : outcome :=
  Outcome (o_shapes o1 ++ o_shapes o2) (o_sink o1 + o_sink o2) (o_new o1 + o_new o2).

Section Logic.
Context {A B : Type}.
Implicit Types (k : nat) (m : BM A) (f : A → BM B).
Definition Y k m (o : outcome) (Q : A → Prop) : Prop := ∀ b, b_new b = k →
  ∃ x b', m b = Some (x, b') ∧ Q x ∧ shape_of <$> b_lines b' = (shape_of <$> b_lines b) ++ o_shapes o ∧
    b_new b' = (k + o_new o)%nat ∧ u64 (g_sink b') = u64 (g_sink b + o_sink o).
(** Reads an instrument: prints nothing and changes nothing but the reading count. *)
Definition silent m : Prop := ∀ b, ∃ x b', m b = Some (x, b') ∧ b_lines b' = b_lines b ∧ b_new b' = b_new b ∧ g_sink b' = g_sink b.

Lemma Y_ret k (x : A) (Q : A → Prop) : Q x → Y k (mret x) nothing Q.
Proof. intros HQ b Hb. exists x, b. rewrite app_nil_r, Nat.add_0_r, Z.add_0_r. done. Qed.
End Logic.
Lemma u64_add a a' b c : u64 a' = u64 (a + b) → u64 (a' + c) = u64 (a + (b + c)).
Proof. unfold u64. intros H. rewrite <- Zplus_mod_idemp_l, H, Zplus_mod_idemp_l. f_equal. lia. Qed.

Section Steps.
Context {A B : Type} (e : env).
Implicit Types (k : nat) (f : A → BM B) (Q : B → Prop) (o : outcome).

Lemma Y_bind k (m : BM A) f o1 o2 P Q :
  Y k m o1 P → (∀ x, P x → Y (k + o_new o1) (f x) o2 Q) → Y k (m ≫= f) (after o1 o2) Q.
Proof.
  intros Hm Hf b Hb. destruct (Hm b Hb) as (x & b1 & He & HP & Hl & Hn & Hs).
  destruct (Hf x HP b1 Hn) as (y & b2 & He2 & HQ & Hl2 & Hn2 & Hs2).
  exists y, b2. unfold mbind, bm_bind. rewrite He. split_and!; [done|done|by rewrite Hl2, Hl, <- app_assoc|cbn; lia|].
  rewrite Hs2. by apply u64_add.
Qed.
Lemma Y_quiet k (m : BM A) f o Q : silent m → (∀ x, Y k (f x) o Q) → Y k (m ≫= f) o Q.
Proof.
  intros Hm Hf b Hb. destruct (Hm b) as (x & b1 & He & Hl & Hn & Hs). rewrite Hb in Hn.
  destruct (Hf x b1 Hn) as (y & b2 & He2 & HQ & Hl2 & Hn2 & Hs2). exists y, b2. unfold mbind, bm_bind. rewrite He.
  rewrite <- Hl, <- Hs. done.
Qed.
Lemma Y_from k (x : option A) v f o Q : x = Some v → Y k (f v) o Q → Y k (from x ≫= f) o Q.
Proof. intros -> Hf. exact Hf. Qed.
Lemma Y_line k l sh (f : unit → BM B) o Q :
  shape_of l = sh → Y k (f tt) o Q → Y k (put_line l ≫= f) (Outcome (sh :: o_shapes o) (o_sink o) (o_new o)) Q.
Proof.
  intros <- Hf b Hb. destruct (Hf (Bst (b_cyc b) (b_heap b) (b_new b) (g_sink b) (b_lines b ++ [l])) Hb) as (y & b2 & He & HQ & Hl & Hn & Hs).
  exists y, b2. split; [done|]. split; [done|]. split; [|done]. rewrite Hl. cbn [b_lines]. by rewrite fmap_app, <- app_assoc.
Qed.
Lemma Y_sink k v (f : unit → BM B) o Q :
  Y k (f tt) o Q → Y k (sink v ≫= f) (Outcome (o_shapes o) (v + o_sink o) (o_new o)) Q.
Proof.
  intros Hf b Hb. destruct (Hf (Bst (b_cyc b) (b_heap b) (b_new b) (u64 (g_sink b + v)) (b_lines b)) Hb) as (y & b2 & He & HQ & Hl & Hn & Hs).
  exists y, b2. split; [done|]. split; [done|]. split; [done|]. split; [done|]. rewrite Hs. cbn [g_sink o_sink].
  apply (u64_add (g_sink b)). apply Z.mod_mod. done.
Qed.
Lemma Y_create {C} k (fresh c : option C) (f : option C → BM B) o Q :
  c = (if granted e k then fresh else None) → Y (S k) (f c) o Q →
  Y k (create e fresh ≫= f) (Outcome (o_shapes o) (o_sink o) (S (o_new o))) Q.
Proof.
  intros -> Hf b Hb. destruct (Hf (Bst (b_cyc b) (b_heap b) (S (b_new b)) (g_sink b) (b_lines b))) as (y & b2 & He & HQ & Hl & Hn & Hs); [cbn; by rewrite Hb|].
  exists y, b2. unfold mbind, bm_bind, create. rewrite Hb in *. split_and!; [done|done|done|cbn; lia|done].
Qed.
End Steps.
Lemma Y_weaken {A} k (m : BM A) o o' (Q R : A → Prop) : Y k m o Q → o = o' → (∀ x, Q x → R x) → Y k m o' R.
Proof. intros Hm <- HR b Hb. destruct (Hm b Hb) as (x & b' & ? & ? & ?). exists x, b'. eauto. Qed.
Lemma Y_put k l sh : shape_of l = sh → Y k (put_line l) (Outcome [sh] 0 0) (λ _, True).
Proof. intros <- b Hb. eexists _, _. split; [done|]. split; [done|]. cbn. rewrite fmap_app, Nat.add_0_r, Z.add_0_r. done. Qed.

Lemma silent_cycles e : silent (GET_CYCLES e).
Proof. intros b. eexists _, _. done. Qed.
Lemma silent_free e : silent (GET_FREE_HEAP e).
Proof. intros b. eexists _, _. done. Qed.
Lemma silent_largest e : silent (GET_LARGEST_BLOCK e).
Proof. intros b. eexists _, _. done. Qed.
Lemma silent_frag e : silent (heap_frag_ratio e).
Proof. intros b. eexists _, _. done. Qed.
Create HintDb bench.
#[export] Hint Resolve silent_cycles silent_free silent_largest silent_frag : bench.
(** Passes one reading of an instrument. *)
Ltac printing := eapply Y_line; [cbn; reflexivity|cbv beta].
Ltac reading := apply Y_quiet; [auto with bench|intros ?; cbv beta].

Lemma Y_skipped e k arm n : Y k (report_skipped e arm n) (Outcome [ShSkip arm n] 0 0) (λ _, True).
Proof. unfold report_skipped. reading. reading. by apply Y_put. Qed.

(** ** A telemetry arm *)
(** The entries an arm stores from [n] keys. *)
Definition fed (n : Z) (keys : list Z) : assoc := zip (take (Z.to_nat n) keys) (TSDB_VAL <$> seqZ 0 n).
Definition fed_agg (wide : bool) (n : Z) (keys : list Z) : agg := agg_of wide (sl_range TSDB_AGG_LO TSDB_AGG_HI (fed n keys)).*2.
Lemma fed_snoc i keys key :
  0 <= i → arr_get keys i = Some key → fed (i + 1) keys = fed i keys ++ [(key, TSDB_VAL i)].
Proof.
  intros Hi Hk. unfold fed, arr_get in *. rewrite (proj2 (Z.leb_le 0 i)) in Hk by done. rewrite seqZ_app by lia.
  replace (Z.to_nat (i + 1)) with (S (Z.to_nat i)) by lia. rewrite (take_S_r _ _ key) by done. rewrite fmap_app, zip_with_app; [done|].
  rewrite length_take, length_fmap, length_seqZ. apply lookup_lt_Some in Hk. lia.
Qed.
Lemma fed_keys n keys : (Z.to_nat n <= length keys)%nat → (fed n keys).*1 = take (Z.to_nat n) keys.
Proof. intros Hl. unfold fed. apply fst_zip. rewrite length_take, length_fmap, length_seqZ. lia. Qed.
Lemma length_fed n keys : (Z.to_nat n <= length keys)%nat → length (fed n keys) = Z.to_nat n.
Proof. intros Hl. rewrite <- (length_fmap fst), fed_keys by done. rewrite length_take. lia. Qed.

Section Arm.
Context (e : env) (wide : bool) {C : Type} `{!TsArm C} `{!TsArmLaws wide C}.

Lemma insert_loop_ok cap n i keys c :
  0 <= i → i + Z.of_nat n <= cap → cap <= Z.of_nat (length keys) →
  NoDup (take (Z.to_nat cap) keys) → Forall is_u32 (take (Z.to_nat cap) keys) → holds cap c (fed i keys) →
  ∃ c', insert_loop n i keys c = Some c' ∧ holds cap c' (fed (i + Z.of_nat n) keys).
Proof.
  revert i c. induction n as [|n IH]; intros i c Hi Hn Hl Hnd Hu Hc; cbn [insert_loop].
  { exists c. by rewrite Z.add_0_r. }
  destruct (arr_get_is_Some keys i) as [key Hkey]; [lia|]. rewrite Hkey. cbn [mbind option_bind].
  assert (keys !! Z.to_nat i = Some key) as Hlk by (unfold arr_get in Hkey; by rewrite (proj2 (Z.leb_le 0 i)) in Hkey).
  assert (take (Z.to_nat cap) keys !! Z.to_nat i = Some key) as Htk by (by rewrite lookup_take_lt by lia).
  destruct (holds_insert cap c (fed i keys) key (TSDB_VAL i) Hc) as (c1 & -> & Hc1).
  - by eapply Forall_lookup_1.
  - apply u32_range.
  - rewrite fed_keys by lia. intros (j & Hj)%list_elem_of_lookup. pose proof (lookup_lt_Some _ _ _ Hj) as Hjl. rewrite length_take in Hjl.
    rewrite lookup_take_lt in Hj by lia. assert (j = Z.to_nat i); [|lia].
    eapply (NoDup_lookup (take (Z.to_nat cap) keys)); [done|rewrite lookup_take_lt by lia; done|done].
  - rewrite length_fed by lia. lia.
  - cbn [mbind option_bind]. rewrite <- (fed_snoc i keys key) in Hc1 by done.
    destruct (IH (i + 1) c1) as (c2 & He & Hc2); [lia|lia|done..|]. exists c2. split; [done|].
    by replace (i + Z.of_nat (S n)) with (i + 1 + Z.of_nat n) by lia.
Qed.

(** The lines and the sink of an arm; [tl] is what its tail statement adds. *)
Definition arm_work (n : Z) (keys : list Z) : Z := sum_val (fed_agg wide n keys) + MemTable.count (fed_agg wide n keys).
Definition arm_ops (n : Z) (keys : list Z) : Z := at_least_one (MemTable.count (fed_agg wide n keys)).
Definition tsdb_outcome (arm : string) (n : Z) (keys : list Z) (ib ab : string) (tl : outcome) (k : nat) : outcome :=
  if granted e k then
    if granted e (S k) then
      Outcome (ShRep ib arm n n :: ShRep ab arm (arm_ops n keys) n :: o_shapes tl) (arm_work n keys + o_sink tl) 2
    else Outcome [ShSkip arm n] 0 2
  else Outcome [ShSkip arm n] 0 1.

Definition keys_ok (n : Z) (keys : list Z) : Prop :=
  100 <= n <= TSDB_MAX_N ∧ n <= Z.of_nat (length keys) ∧ take (Z.to_nat n) keys ≡ₚ key_range n.
Lemma keys_ok_facts n keys : keys_ok n keys → NoDup (take (Z.to_nat n) keys) ∧ Forall is_u32 (take (Z.to_nat n) keys).
Proof.
  intros (Hn & Hl & Hp). rewrite Hp. unfold key_range. split.
  - apply NoDup_fmap_2; [intros a b; lia|apply NoDup_seqZ].
  - apply Forall_fmap, Forall_forall. intros i Hi%elem_of_seqZ. unfold TSDB_MAX_N, TSDB_BASE in *. cbn. unfold is_u32. lia.
Qed.
Lemma tsdb_arm_ok k arm fresh c0 tail agg0 keys n ib ab tl :
  keys_ok n keys → fresh = Some c0 → holds n c0 [] → o_new tl = 0%nat →
  (∀ k c h q, holds n c (fed n keys) → Y k (tail c h q) tl (λ _, True)) →
  Y k (tsdb_arm e arm fresh tail agg0 keys n ib ab) (tsdb_outcome arm n keys ib ab tl k) (λ _, True).
Proof.
  intros Hok -> Hc0 Htl Htail. destruct (keys_ok_facts n keys Hok) as [Hnd Hu]. destruct Hok as (Hn & Hl & _).
  change (@nil (Z * Z)) with (fed 0 keys) in Hc0.
  destruct (insert_loop_ok n 100 0 keys c0) as (cw & Hwarm & _); [lia|lia|done..|].
  destruct (insert_loop_ok n (Z.to_nat n) 0 keys c0) as (c1 & Hfill & Hc1); [lia|lia|done..|].
  rewrite Z.add_0_l, Z2Nat.id in Hc1 by lia.
  destruct (holds_agg n c1 (fed n keys) TSDB_AGG_LO TSDB_AGG_HI agg0 Hc1) as (c2 & Hagg & Hc2);
    [unfold TSDB_AGG_LO, TSDB_AGG_HI, TSDB_BASE, UINT32_MAX; lia|].
  unfold tsdb_arm, tsdb_outcome. reading. destruct (granted e k) eqn:Hk.
  2: { eapply Y_weaken; [eapply Y_create; [by rewrite Hk|apply Y_skipped]|done|done]. }
  destruct (granted e (S k)) eqn:Hk1; eapply Y_weaken.
  - eapply Y_create; [by rewrite Hk|]. eapply Y_from; [exact Hwarm|]. eapply Y_create; [by rewrite Hk1|].
    reading. eapply Y_from; [exact Hfill|]. reading. reading. reading. printing. reading.
    eapply Y_from; [exact Hagg|]. cbn beta iota. reading. apply Y_sink. printing. by apply (Htail _ c2).
  - cbn. by rewrite Htl.
  - done.
  - eapply Y_create; [by rewrite Hk|]. eapply Y_from; [exact Hwarm|]. eapply Y_create; [by rewrite Hk1|apply Y_skipped].
  - done.
  - done.
Qed.
End Arm.

(** ** How many keys the range holds *)
Definition agg_keys (n : Z) : Z := Z.max 0 (Z.min 501 (n - 100)).
Lemma range_keys n :
  0 <= n → Z.of_nat (length (filter (λ k, TSDB_AGG_LO <= k ∧ k <= TSDB_AGG_HI) (key_range n))) = agg_keys n.
Proof.
  revert n. apply natlike_ind; [done|]. intros n Hn IH. unfold key_range in *. rewrite <- Z.add_1_r, seqZ_app by lia.
  rewrite fmap_app, filter_app, length_app, Nat2Z.inj_add, IH. unfold agg_keys, TSDB_AGG_LO, TSDB_AGG_HI in *.
  rewrite (seqZ_cons (0 + n) 1), (seqZ_nil _ (Z.pred 1)) by lia. cbn [fmap list_fmap]. rewrite filter_cons, filter_nil.
  case_decide; cbn [length]; lia.
Qed.
Lemma range_fst lo hi (l : assoc) : (sl_range lo hi l).*1 = filter (λ k, lo <= k ∧ k <= hi) l.*1.
Proof.
  unfold sl_range. induction l as [|[k v] l IH]; [done|]. rewrite filter_cons. csimpl. rewrite filter_cons. repeat case_decide; try done.
  csimpl. by rewrite IH.
Qed.
Lemma fed_count wide n keys : keys_ok n keys → MemTable.count (fed_agg wide n keys) = agg_keys n.
Proof.
  intros (Hn & Hl & Hp). unfold fed_agg, agg_of. cbn [MemTable.count]. rewrite length_fmap, <- (length_fmap fst), range_fst, fed_keys by lia.
  rewrite (Permutation_length (filter_Permutation _ _ _ Hp)), range_keys by lia. apply size_wrap_small.
  unfold agg_keys. destruct wide; cbn; lia.
Qed.

(** ** The four arms *)
Section Telemetry.
Context (e : env) (wide : bool) (M : Type) `{ExpanseMapLaws M} (lock_ok : bool) (agg0 : agg).
Definition control_outcome (n : Z) (keys : list Z) (ab : string) : outcome :=
  Outcome [ShRep ab "sorted_array_dispatch_inlined" (agg_keys n) n; ShRep ab "sorted_array_dispatch_indirect" (agg_keys n) n]
    (sum_val (fed_agg wide n keys) + (arm_work wide n keys + arm_work wide n keys)) 0.

Lemma agg_keys_ops n keys : 101 <= n → keys_ok n keys → arm_ops wide n keys = agg_keys n.
Proof.
  intros Hn Hk. unfold arm_ops. rewrite (fed_count wide n keys Hk). unfold at_least_one. rewrite Z.gtb_ltb, (proj2 (Z.ltb_lt 0 _)); [done|].
  unfold agg_keys. lia.
Qed.
Lemma dispatch_ok k n keys ab c h q :
  101 <= n → keys_ok n keys → holds (TsArmLaws := twin_arm_laws wide (T := twin_sorted)) n c (fed n keys) →
  Y k (tsdb_dispatch_control e wide agg0 ab n c h q) (control_outcome n keys ab) (λ _, True).
Proof.
  intros Hn Hk Hc. pose proof (agg_keys_ops n keys Hn Hk) as Hops. unfold arm_ops, fed_agg in Hops.
  assert (TSDB_AGG_LO <= TSDB_AGG_HI <= UINT32_MAX) as Hr by (unfold TSDB_AGG_LO, TSDB_AGG_HI, TSDB_BASE, UINT32_MAX; lia).
  destruct (holds_agg n c (fed n keys) TSDB_AGG_LO TSDB_AGG_HI agg0 Hc Hr) as (c1 & Hagg1 & Hc1).
  destruct (holds_agg n c1 (fed n keys) TSDB_AGG_LO TSDB_AGG_HI (agg_of wide (sl_range TSDB_AGG_LO TSDB_AGG_HI (fed n keys)).*2) Hc1 Hr)
    as (c2 & Hagg2 & Hc2).
  unfold tsdb_dispatch_control. eapply Y_weaken.
  - eapply Y_from; [exact Hagg1|]. cbn beta iota. apply Y_sink. reading. eapply Y_from; [exact Hagg2|]. cbn beta iota. reading.
    apply Y_sink. rewrite Hops. printing. reading.
    destruct Hc2 as (l' & Hr2 & Hp & _). set (a1 := agg_of wide _).
    assert (twin_sorted_aggregate_indirect (Some c2) TSDB_AGG_LO TSDB_AGG_HI (Some (twin_visit_agg wide)) (Some a1) =
      Some (0 <? MemTable.count a1, Some a1, Some c2)) as Hind.
    { destruct (indirect_is_dispatch_only wide c2 l' TSDB_AGG_LO TSDB_AGG_HI a1 Hr2) as [-> _].
      - rewrite Hp. unfold fed. rewrite snd_zip; [|rewrite length_take, length_fmap, length_seqZ; destruct Hk; lia].
        apply Forall_fmap, Forall_forall. intros i _. apply u32_range.
      - etrans; [exact (tw_aggregate_law (wide := wide) (T := twin_sorted) c2 l' TSDB_AGG_LO TSDB_AGG_HI a1 Hr2)|]. unfold a1. by rewrite (sl_range_perm _ _ _ _ Hp). }
    eapply Y_from; [exact Hind|]. cbn beta iota. eapply Y_from; [done|]. reading. apply Y_sink. unfold a1. rewrite Hops. eapply Y_put; cbn; reflexivity.
  - unfold control_outcome, arm_work, fed_agg. cbn. f_equal. lia.
  - done.
Qed.

Lemma table_arm_ok k keys n ib ab : keys_ok n keys →
  Y k (bench_tsdb_expanse e wide M lock_ok agg0 keys n ib ab) (tsdb_outcome e wide "expanse_memtable" n keys ib ab nothing k) (λ _, True).
Proof.
  intros Hk. destruct (fresh_table_ok (M := M) lock_ok) as [Hok Hc]. pose proof Hok as [(t & m & Ht & _) _].
  eapply (tsdb_arm_ok e wide (TsArmLaws0 := memtable_arm_laws wide)); [done|exact Ht| |done|].
  - destruct Hk as (Hn & _). unfold TSDB_MAX_N in Hn.
    change (table_ok (Some t) ∧ contents (Some t) ≡ₚ [] ∧ n < 2 ^ 32 ∧ Z.of_nat (length (@nil (Z * Z))) <= n).
    rewrite <- Ht, Hc. split; [done|]. split; [done|]. cbn. lia.
  - intros. by apply Y_ret.
Qed.
Lemma hash_arm_ok k keys n ib ab : keys_ok n keys →
  Y k (bench_tsdb_hash e wide lock_ok agg0 keys n ib ab) (tsdb_outcome e wide "hash_open_addressing" n keys ib ab nothing k) (λ _, True).
Proof.
  intros Hk. pose proof Hk as (Hn & _). unfold TSDB_MAX_N in Hn.
  destruct (fresh_hash_rep wide lock_ok n) as (h & Hh & Hr & Hcap); [lia|lia|].
  eapply (tsdb_arm_ok e wide (TsArmLaws0 := twin_arm_laws wide (T := twin_hash)) k _ _ h);
    [done|exact Hh|exists []; split; [exact Hr|split; [reflexivity|exact Hcap]]|reflexivity|].
  intros. by apply Y_ret.
Qed.
Lemma sorted_arm_ok k keys n ib ab : 101 <= n → keys_ok n keys →
  Y k (bench_tsdb_sorted e wide lock_ok agg0 keys n ib ab)
    (tsdb_outcome e wide "sorted_array" n keys ib ab (control_outcome n keys ab) k) (λ _, True).
Proof.
  intros H101 Hk. pose proof Hk as (Hn & _). unfold TSDB_MAX_N in Hn.
  destruct (fresh_sorted_rep lock_ok n) as (s & Hs & Hr & Hcap); [lia|].
  eapply (tsdb_arm_ok e wide (TsArmLaws0 := twin_arm_laws wide (T := twin_sorted)) k _ _ s); [done|exact Hs| |reflexivity|].
  - exists []. split; [exact Hr|]. split; [reflexivity|]. change (n <= ts_cap s). lia.
  - intros. by apply dispatch_ok.
Qed.
Lemma ring_arm_ok k keys n ib ab : keys_ok n keys →
  Y k (bench_tsdb_ring e wide lock_ok agg0 keys n ib ab) (tsdb_outcome e wide "ring_buffer" n keys ib ab nothing k) (λ _, True).
Proof.
  intros Hk. pose proof Hk as (Hn & _). unfold TSDB_MAX_N in Hn.
  destruct (ring_create_spec n lock_ok (Ledger 0 0 0)) as (r & Hr & Hrep & Hcap); [lia|].
  eapply (tsdb_arm_ok e wide (TsArmLaws0 := ring_arm_laws wide)); [done|unfold fresh_ring; by rewrite Hr| |done|].
  - cbn. split; [done|lia].
  - intros. by apply Y_ret.
Qed.
End Telemetry.
