(* ===== verification/BenchBle.v ===== *)
(** * The benchmark's BLE arms

    The population the runner records: distinct addresses whose 32-bit hashes
    do not collide, so that the tracker, the hash twin and the scan twin all
    hold it, find every device again, and expire the same number of records. *)
From Stdlib Require Import String Ascii.
From stdpp Require Import base numbers list sorting gmap.
From S2P Require Import Prelude SortedAssoc ExpanseApi HostLock MemTable HarnessOut BleTracker BleTrackerProofs BleTheorems Probing Twins TwinHash TwinHashProofs TwinSorted TwinRing TwinTheorems TwinBle TwinBleProofs TwinBleTheorems Bench BenchKeys BenchLog.
Open Scope Z_scope.
Abbreviation length := List.length.

(** ** Addresses and their hashes *)
Definition POP_MAX : Z := 2000.
Lemma byte_of i : 0 <= i → u8 (Z.land i 255) = i mod 256.
Proof.
  intros Hi. change 255 with (Z.ones 8). rewrite Z.land_ones by lia. change (2 ^ 8) with 256. unfold u8.
  change (2 ^ 8) with 256. apply Z.mod_mod. lia.
Qed.
Lemma bench_mac_small i : 0 <= i < POP_MAX → bench_mac i = [0; 26; 43; 0; i / 256; i mod 256].
Proof.
  unfold POP_MAX. intros Hi. unfold bench_mac. rewrite !Z.shiftr_div_pow2, !byte_of by (try apply Z.div_pos; lia).
  change (2 ^ 16) with 65536. change (2 ^ 8) with 256. rewrite (Z.div_small i 65536) by lia. rewrite (Z.mod_small (i / 256)); [done|].
  split; [apply Z.div_pos; lia|apply Z.div_lt_upper_bound; lia].
Qed.
Lemma bench_mac_inj i j : 0 <= i < POP_MAX → 0 <= j < POP_MAX → bench_mac i = bench_mac j → i = j.
Proof.
  intros Hi Hj. rewrite !bench_mac_small by done. intros [= Hd Hm]. rewrite (Z.div_mod i 256), (Z.div_mod j 256) by lia. congruence.
Qed.

(** Multiplying by the odd FNV prime loses nothing. *)
Definition fnv_step (h b : Z) : Z := u32 (Z.lxor h b * 16777619).
Lemma prime_inj x y : is_u32 x → is_u32 y → u32 (x * 16777619) = u32 (y * 16777619) → x = y.
Proof.
  intros Hx Hy Heq. assert (∀ z, is_u32 z → u32 (u32 (z * 16777619) * 899433627) = z) as Hinv.
  { intros z Hz. unfold u32. rewrite Z.mul_mod_idemp_l by lia. replace (z * 16777619 * 899433627) with (z + z * 3513497 * 2 ^ 32) by lia.
    rewrite Z.mod_add by lia. by apply Z.mod_small. }
  rewrite <- (Hinv x Hx), <- (Hinv y Hy). by rewrite Heq.
Qed.
Lemma lxor_u32 h b : is_u32 h → 0 <= b < 256 → is_u32 (Z.lxor h b).
Proof.
  unfold is_u32. intros Hh Hb. split; [apply Z.lxor_nonneg; lia|].
  destruct (decide (Z.lxor h b = 0)) as [->|Hne]; [lia|]. apply Z.log2_lt_pow2; [pose proof (proj2 (Z.lxor_nonneg h b)); lia|].
  eapply Z.le_lt_trans; [apply Z.log2_lxor; lia|]. apply Z.max_lub_lt.
  - destruct (decide (h = 0)) as [->|]; [done|]. apply Z.log2_lt_pow2; lia.
  - destruct (decide (b = 0)) as [->|]; [done|]. apply Z.log2_lt_pow2; lia.
Qed.
(** The last byte changes only the low eight bits before the multiplication. *)
Lemma last_byte h1 h2 b1 b2 :
  is_u32 h1 → is_u32 h2 → 0 <= b1 < 256 → 0 <= b2 < 256 → fnv_step h1 b1 = fnv_step h2 b2 → Z.shiftr h1 8 = Z.shiftr h2 8.
Proof.
  intros H1 H2 Hb1 Hb2 Heq. apply prime_inj in Heq; [|by apply lxor_u32..].
  assert (Z.shiftr (Z.lxor h1 b1) 8 = Z.shiftr (Z.lxor h2 b2) 8) as Hs by (by rewrite Heq).
  rewrite !Z.shiftr_lxor, !(Z.shiftr_div_pow2 _ 8), (Z.div_small b1), (Z.div_small b2), !Z.lxor_0_r in Hs by (cbn; lia).
  by rewrite !Z.shiftr_div_pow2 by lia.
Qed.
Definition mac_prefix : Z := foldl fnv_step 2166136261 [0; 26; 43; 0].
Lemma bench_hash i : 0 <= i < POP_MAX → mac_hash (bench_mac i) = fnv_step (fnv_step mac_prefix (i / 256)) (i mod 256).
Proof. intros Hi. rewrite bench_mac_small by done. reflexivity. Qed.
(** The eight values the fifth byte can take lead to hashes that differ above bit 8. *)
Lemma fifth_byte_differs :
  NoDup ((λ b, Z.shiftr (fnv_step mac_prefix b) 8) <$> [0; 1; 2; 3; 4; 5; 6; 7]).
Proof. apply (bool_decide_unpack _). vm_compute. exact I. Qed.
Lemma fifth_byte_inj a b :
  0 <= a < 8 → 0 <= b < 8 → Z.shiftr (fnv_step mac_prefix a) 8 = Z.shiftr (fnv_step mac_prefix b) 8 → a = b.
Proof.
  intros Ha Hb Heq. pose proof fifth_byte_differs as Hnd. rewrite NoDup_alt in Hnd.
  assert (∀ z, 0 <= z < 8 → ((λ b, Z.shiftr (fnv_step mac_prefix b) 8) <$> [0; 1; 2; 3; 4; 5; 6; 7]) !! Z.to_nat z
    = Some (Z.shiftr (fnv_step mac_prefix z) 8)) as Hl.
  { intros z Hz. rewrite list_lookup_fmap. assert ([0; 1; 2; 3; 4; 5; 6; 7] !! Z.to_nat z = Some z) as ->; [|done].
    assert (z = 0 ∨ z = 1 ∨ z = 2 ∨ z = 3 ∨ z = 4 ∨ z = 5 ∨ z = 6 ∨ z = 7) as Hc by lia. by destruct_or! Hc; subst z. }
  specialize (Hnd (Z.to_nat a) (Z.to_nat b) _ (Hl a Ha)). rewrite Heq in Hnd. specialize (Hnd (Hl b Hb)). lia.
Qed.
Lemma bench_hash_inj i j :
  0 <= i < POP_MAX → 0 <= j < POP_MAX → mac_hash (bench_mac i) = mac_hash (bench_mac j) → i = j.
Proof.
  intros Hi Hj Heq. rewrite !bench_hash in Heq by done. unfold POP_MAX in *.
  pose proof (Z.mod_pos_bound i 256). pose proof (Z.mod_pos_bound j 256).
  assert (∀ z, 0 <= z < 2000 → 0 <= z / 256 < 8) as Hq by (intros z Hz; split; [apply Z.div_pos; lia|apply Z.div_lt_upper_bound; lia]).
  assert (∀ h b, is_u32 (fnv_step h b)) as Hu by (intros; apply u32_range).
  pose proof (last_byte _ _ (i mod 256) (j mod 256) (Hu _ _) (Hu _ _) ltac:(lia) ltac:(lia) Heq) as H5.
  apply fifth_byte_inj in H5; [|by apply Hq..]. rewrite H5 in Heq. apply prime_inj in Heq; [|apply lxor_u32; [apply Hu|lia]..].
  apply (f_equal (Z.lxor (fnv_step mac_prefix (j / 256)))) in Heq. rewrite <- !Z.lxor_assoc, Z.lxor_nilpotent, !Z.lxor_0_l in Heq.
  rewrite (Z.div_mod i 256), (Z.div_mod j 256) by lia. congruence.
Qed.

(** ** The population *)
Definition recs (n : Z) : list ble_record := bench_rec <$> seqZ 0 n.
Definition pop (n : Z) : fleet := devices (recs n).
Lemma recs_snoc n : 0 <= n → recs (n + 1) = recs n ++ [bench_rec n].
Proof. intros Hn. unfold recs. rewrite seqZ_app, fmap_app by lia. rewrite (seqZ_cons (0 + n) 1), (seqZ_nil _ (Z.pred 1)) by lia. done. Qed.
Lemma pop_snoc n : 0 <= n → pop (n + 1) = sight (pop n) (bench_rec n).
Proof. intros Hn. unfold pop, devices. by rewrite recs_snoc, foldl_app. Qed.
Lemma elem_of_recs n r : r ∈ recs n ↔ ∃ i, r = bench_rec i ∧ 0 <= i < n.
Proof. unfold recs. rewrite list_elem_of_fmap. setoid_rewrite elem_of_seqZ. naive_solver lia. Qed.
Lemma pop_lookup n k r :
  0 <= n <= POP_MAX → pop n !! k = Some r ↔ ∃ i, 0 <= i < n ∧ k = bench_mac i ∧ r = bench_rec i.
Proof.
  intros [Hn Hm]. revert n Hn Hm r. apply (natlike_ind (λ n, n <= POP_MAX → ∀ r, pop n !! k = Some r ↔ ∃ i, 0 <= i < n ∧ k = bench_mac i ∧ r = bench_rec i)).
  - intros _ r. change (pop 0) with (∅ : fleet). rewrite lookup_empty. split; [done|]. intros (i & Hi & _). lia.
  - intros n Hn IH Hm r. rewrite <- Z.add_1_r, pop_snoc by done. unfold sight. rewrite lookup_insert_Some, IH by lia. split.
    + intros [[<- <-]|(Hne & i & Hi & -> & ->)]; [exists n|exists i]; (split; [lia|done]).
    + intros (i & Hi & -> & ->). destruct (decide (i = n)) as [->|]; [by left|right]. split; [|exists i; split; [lia|done]].
      intros Heq%bench_mac_inj; lia.
Qed.
Lemma pop_keyed n : 0 <= n <= POP_MAX → keyed (pop n).
Proof. intros Hn k r (i & _ & -> & ->)%pop_lookup; done. Qed.
Lemma NoDup_recs n : 0 <= n <= POP_MAX → NoDup (recs n).
Proof.
  intros Hn. apply NoDup_fmap_2_strong; [|apply NoDup_seqZ]. intros i j Hi%elem_of_seqZ Hj%elem_of_seqZ Heq.
  apply bench_mac_inj; [lia|lia|]. exact (f_equal mac Heq).
Qed.
Lemma pop_records n : 0 <= n <= POP_MAX → recs n ≡ₚ records (pop n).
Proof.
  intros Hn. apply records_perm; [by apply pop_keyed|by apply NoDup_recs|]. intros r. rewrite elem_of_recs, pop_lookup by done. split.
  - intros (i & -> & Hi). by exists i.
  - intros (i & Hi & _ & ->). by exists i.
Qed.
Lemma pop_size n : 0 <= n <= POP_MAX → Z.of_nat (size (pop n)) = n.
Proof.
  intros Hn. rewrite <- length_records, <- (Permutation_length (pop_records n Hn)). unfold recs. rewrite length_fmap, length_seqZ. lia.
Qed.
Lemma pop_fresh n : 0 <= n < POP_MAX → pop n !! bench_mac n = None.
Proof.
  intros Hn. destruct (pop n !! bench_mac n) as [r|] eqn:Hr; [|done]. apply pop_lookup in Hr as (i & Hi & Heq%bench_mac_inj & _); lia.
Qed.
Lemma bench_rec_stamp i : 0 <= i < POP_MAX → last_seen_ms (bench_rec i) = 1000 + 10 * i.
Proof. unfold POP_MAX. intros Hi. cbn. rewrite u32_small by (unfold is_u32; lia). lia. Qed.

(** ** What the arms promise *)
Definition stale_count (n cutoff : Z) : Z := Z.of_nat (length (filter (is_stale cutoff) (recs n))).
Class BleArmLaws (C : Type) `{!BleArm C} := {
  knows : Z → C → Z → Prop;  (** capacity, container, devices recorded *)
  knows_record cap c i : knows cap c i → 0 <= i < cap → cap <= POP_MAX → ∃ c', ba_record c (bench_rec i) = Some c' ∧ knows cap c' (i + 1);
  knows_get cap c n i r0 : knows cap c n → 0 <= i < n → n <= POP_MAX → ∃ c', ba_get c (bench_mac i) r0 = Some (bench_rec i, c') ∧ knows cap c' n;
  knows_expire cap c n cutoff :
    knows cap c n → 0 <= n <= POP_MAX → 0 <= cutoff < CALM_MS → ∃ c', ba_expire c cutoff = Some (stale_count n cutoff, c');
}.
Lemma stale_records n cutoff :
  0 <= n <= POP_MAX → stale_count n cutoff = Z.of_nat (length (filter (is_stale cutoff) (records (pop n)))).
Proof. intros Hn. unfold stale_count. by rewrite (filter_Permutation _ _ _ (pop_records n Hn)). Qed.

Section Laws.
Context (wide : bool).
#[export] Instance tracker_arm_laws {M} `{ExpanseMapLaws M} : BleArmLaws (tracker M) (BleArm0 := tracker_arm wide M).
Proof.
  refine {| knows cap t i := tracks_fleet t (pop i) ∧ max_capacity t = cap |}.
  - intros cap t i [Hf Hcap] Hi Hmax. destruct (fleet_record wide t (pop i) (bench_rec i) Hf) as (t' & He & Hf' & Hc').
    + rewrite bench_rec_stamp by lia. unfold CALM_MS, POP_MAX in *. lia.
    + intros r0 (j & Hj & Hmac & ->)%pop_lookup Hh; [|lia]. assert (j = i) as ->; [|lia]. apply bench_hash_inj; [lia|lia|exact Hh].
    + rewrite <- pop_snoc by lia. rewrite pop_size by lia. lia.
    + cbn [ba_record tracker_arm]. rewrite He. cbn [mbind option_bind]. exists t'. split; [done|]. rewrite pop_snoc by lia. split; [done|lia].
  - intros cap t n i r0 [Hf Hcap] Hi Hmax. destruct (get_step t (bench_mac i) (Some r0)) as (b & out & He & Hor); [apply Hf|].
    assert (tracks t (bench_rec i) (last_seen_ms (bench_rec i) / 1000)) as Htr.
    { apply (tf_tracks _ _ Hf). split; [|done]. apply pop_lookup; [lia|]. by exists i. }
    cbn [ba_get tracker_arm]. rewrite He. cbn [mbind option_bind]. destruct Hor as [(_ & r & s & Hr & Hmac & ->)|(_ & Hno & _)]; [|by destruct (Hno _ _ Htr)].
    cbn [fmap option_fmap option_map]. exists t. split; [|done].
    apply (tf_tracks _ _ Hf) in Hr as [(j & Hj & Hm & ->)%pop_lookup _]; [|lia]. cbn [mac bench_rec] in Hmac.
    apply bench_mac_inj in Hmac; [|lia..]. by subst j.
  - intros cap t n cutoff [Hf Hcap] Hn Hc. destruct (fleet_expire wide t (pop n) cutoff Hf Hc) as (t' & He & _).
    cbn [ba_expire tracker_arm]. rewrite He. cbn [mbind option_bind]. exists t'. by rewrite stale_records.
Defined.
#[export] Instance ble_hash_arm_laws : BleArmLaws twin_ble_hash (BleArm0 := ble_hash_arm wide).
Proof.
  refine {| knows cap t i := bh_rep t (pop i) ∧ cap < bh_slots t |}.
  - intros cap t i [Hr Hcap] Hi Hmax. pose proof (bh_lock_rep _ _ TWIN_LOCK_TAKE Hr) as Hr1.
    destruct (bh_record_spec wide _ (pop i) (bench_rec i) Hr1) as (t' & He & Hr' & Hm & _).
    { right. rewrite (br_len _ _ Hr1), pop_size by lia. change (bh_slots (bh_with_lock TWIN_LOCK_TAKE t)) with (bh_slots t). lia. }
    cbn [ba_record ble_hash_arm]. unfold twin_ble_hash_record. cbv zeta. unfold bh_home in He. rewrite He. cbn [mbind option_bind].
    eexists. split; [done|]. rewrite pop_snoc by lia. split; [by apply bh_lock_rep|]. unfold bh_slots in *. simpl. rewrite Hm. done.
  - intros cap t n i r0 [Hr Hcap] Hi Hmax. pose proof (bh_lock_rep _ _ TWIN_LOCK_TAKE Hr) as Hr1.
    cbn [ba_get ble_hash_arm]. unfold twin_ble_hash_get. cbv zeta. pose proof (bh_get_spec wide _ _ (bench_mac i) Hr1) as Hg. unfold bh_home in Hg.
    rewrite Hg. cbn [mbind option_bind]. rewrite (proj2 (pop_lookup n (bench_mac i) (bench_rec i) ltac:(lia))) by (by exists i).
    cbn [mbind option_bind]. rewrite bh_lock_back. by exists t.
  - intros cap t n cutoff [Hr Hcap] Hn Hc. destruct (bh_expire_spec wide t (pop n) cutoff Hr) as (t' & He & _).
    cbn [ba_expire ble_hash_arm]. rewrite He. cbn [mbind option_bind]. exists t'. by rewrite stale_records.
Defined.
#[export] Instance ble_scan_arm_laws : BleArmLaws twin_ble_scan (BleArm0 := ble_scan_arm).
Proof.
  refine {| knows cap t i := bs_rep t (recs i) ∧ bs_cap t = cap |}.
  - intros cap t i [Hr Hcap] Hi Hmax.
    assert (mac (bench_rec i) ∉ mac <$> recs i) as Hnew.
    { intros (r & Heq & (j & -> & Hj)%elem_of_recs)%list_elem_of_fmap. apply bench_mac_inj in Heq; lia. }
    cbn [ba_record ble_scan_arm]. destruct (bs_record_spec t (recs i) (bench_rec i) Hr) as [(a & r0 & b & t' & Hl & Hmac & _)|[(_ & _ & t' & He & Hr' & Hc & _)|(_ & Hfull & _)]].
    + exfalso. apply Hnew. rewrite <- Hmac, Hl, fmap_app. set_solver.
    + rewrite He. exists t'. split; [done|]. rewrite recs_snoc by lia. split; [done|lia].
    + unfold recs in Hfull. rewrite length_fmap, length_seqZ in Hfull. lia.
  - intros cap t n i r0 [Hr Hcap] Hi Hmax. cbn [ba_get ble_scan_arm]. rewrite (bs_get_spec t (recs n) _ _ Hr).
    destruct (list_find _ (recs n)) as [[j r]|] eqn:Hfind.
    + apply list_find_Some in Hfind as (Hj & Hmac & _). apply list_elem_of_lookup_2, elem_of_recs in Hj as (x & -> & Hx).
      cbn [mac bench_rec] in Hmac. apply bench_mac_inj in Hmac; [|lia..]. subst x. cbn [mbind option_bind]. by exists t.
    + apply list_find_None in Hfind. rewrite Forall_forall in Hfind. exfalso. apply (Hfind (bench_rec i)); [|done].
      apply elem_of_recs. by exists i.
  - intros cap t n cutoff [Hr Hcap] Hn Hc. destruct (bs_expire_spec t (recs n) cutoff Hr) as (t' & He & _).
    cbn [ba_expire ble_scan_arm]. rewrite He. by exists t'.
Defined.
End Laws.

(** How many records of the population a cutoff [c] retires: those stamped up to
    the end of its second. *)
Lemma stale_count_spec n c : 0 <= n <= POP_MAX → 0 <= c → stale_count n c = Z.max 0 (Z.min n (100 * (c / 1000))).
Proof.
  intros [Hn Hm] Hc. revert n Hn Hm. apply (natlike_ind (λ n, n <= POP_MAX → stale_count n c = Z.max 0 (Z.min n (100 * (c / 1000))))).
  { intros _. change (stale_count 0 c) with 0. pose proof (Z.div_pos c 1000). lia. }
  intros n Hn IH Hmax. rewrite <- Z.add_1_r. unfold stale_count in *. rewrite recs_snoc, filter_app, length_app, Nat2Z.inj_add, IH by lia.
  assert ((1000 + 10 * n) / 1000 = 1 + n / 100) as Hsec.
  { replace (1000 + 10 * n) with (10 * n + 1 * 1000) by lia. rewrite Z.div_add by lia.
    replace 1000 with (10 * 100) by lia. rewrite Z.div_mul_cancel_l by lia. lia. }
  pose proof (Z.div_mod n 100 ltac:(lia)). pose proof (Z.mod_pos_bound n 100 ltac:(lia)). pose proof (Z.div_pos c 1000 Hc ltac:(lia)).
  rewrite filter_cons, filter_nil. unfold POP_MAX in *.
  case_decide as Hd; unfold is_stale, twin_is_stale in Hd; rewrite bench_rec_stamp, Hsec in Hd by (unfold POP_MAX; lia); cbn [length].
  - apply Z.leb_le in Hd. lia.
  - destruct (Z.leb_spec (1 + n / 100) (c / 1000)); [done|]. lia.
Qed.
