(* ===== verification/BenchTheorems.v ===== *)
(** * The benchmark suite as a whole

    Every arm of [src/components/expanse/test/bench_esp32_memtable.c] ends and
    reports, the arms of a comparison do the same work, and the suite's log is
    known line by line but for the measured figures. *)
From Stdlib Require Import String Ascii.
From stdpp Require Import base numbers list sorting gmap.
From S2P Require Import Prelude SortedAssoc ExpanseApi HostLock MemTable HarnessOut BleTracker BleTrackerProofs BleTheorems Probing Twins TwinHash TwinHashProofs TwinSorted TwinRing TwinTheorems TwinBle TwinBleProofs TwinBleTheorems Bench BenchKeys BenchLog BenchBle.
Open Scope Z_scope.
Abbreviation length := List.length.

Lemma Y_skip {B} k (f : unit → BM B) o Q : Y k (f tt) o Q → Y k (mret tt ≫= f) o Q.
Proof. done. Qed.
(** A line printed only under a condition. *)
Lemma Y_when {B} k (c : bool) l sh (f : unit → BM B) o Q :
  shape_of l = sh → Y k (f tt) o Q →
  Y k (when c (put_line l) ≫= f) (Outcome ((if c then [sh] else []) ++ o_shapes o) (o_sink o) (o_new o)) Q.
Proof. destruct c; intros Hl Hf; [by apply Y_line|]. apply Y_skip. by destruct o. Qed.
Ltac maybe_printing := eapply Y_when; [cbn; reflexivity|cbv beta].

(** ** A BLE arm *)
(** The sum of the stamps of [n] records from [i]. *)
Fixpoint stamps (n : nat) (i : Z) : Z := match n with O => 0 | S n => last_seen_ms (bench_rec i) + stamps n (i + 1) end.
Section BleArms.
Context (e : env) (rec0 : ble_record) {C : Type} `{BleArmLaws C}.
Lemma record_loop_ok cap n i c :
  0 <= i → i + Z.of_nat n <= cap → cap <= POP_MAX → knows cap c i →
  ∃ c', record_loop n i c = Some c' ∧ knows cap c' (i + Z.of_nat n).
Proof.
  revert i c. induction n as [|n IH]; intros i c Hi Hn Hcap Hc; cbn [record_loop]; [exists c; by rewrite Z.add_0_r|].
  destruct (knows_record cap c i Hc) as (c1 & -> & Hc1); [lia|done|]. cbn [mbind option_bind].
  destruct (IH (i + 1) c1) as (c2 & He & Hc2); [lia|lia|done..|]. exists c2. split; [done|].
  by replace (i + Z.of_nat (S n)) with (i + 1 + Z.of_nat n) by lia.
Qed.
Lemma get_loop_ok k cap pop n i c :
  0 <= i → i + Z.of_nat n <= pop → pop <= POP_MAX → knows cap c pop →
  Y k (get_loop rec0 n i c) (Outcome [] (stamps n i) 0) (λ c', knows cap c' pop).
Proof.
  revert i c. induction n as [|n IH]; intros i c Hi Hn Hp Hc; cbn [get_loop stamps]; [by apply Y_ret|].
  destruct (knows_get cap c pop i rec0 Hc) as (c1 & Hg & Hc1); [lia|done|].
  eapply Y_from; [exact Hg|]. cbn beta iota. eapply Y_weaken; [apply Y_sink, (IH (i + 1) c1); [lia|lia|done|done]|done|done].
Qed.
Definition ble_outcome (arm : string) (n stale_frac : Z) (evict_bench : string) (report_rw : bool) (k : nat) : outcome :=
  if granted e k then
    Outcome ((if report_rw then [ShRep "esp32_ble_sighting_record" arm n n; ShRep "esp32_ble_point_lookup" arm n n] else []) ++
             [ShRep evict_bench arm (stale_count n (cutoff_of n stale_frac)) n])
      (stamps (Z.to_nat n) 0 + stale_count n (cutoff_of n stale_frac)) 1
  else Outcome [ShSkip arm n] 0 1.
Lemma ble_arm_ok k arm fresh c0 n stale_frac evict_bench report_rw :
  1 <= n <= POP_MAX → 1 <= stale_frac → fresh = Some c0 → knows n c0 0 →
  Y k (ble_arm e rec0 arm fresh n stale_frac evict_bench report_rw) (ble_outcome arm n stale_frac evict_bench report_rw k) (λ _, True).
Proof.
  intros Hn Hfrac -> Hc0. destruct (record_loop_ok n (Z.to_nat n) 0 c0) as (c1 & Hrec & Hc1); [lia|lia|lia|done|].
  rewrite Z.add_0_l, Z2Nat.id in Hc1 by lia. unfold ble_arm, ble_outcome. reading. destruct (granted e k) eqn:Hk.
  2: { eapply Y_weaken; [eapply Y_create; [by rewrite Hk|apply Y_skipped]|done|done]. }
  assert (0 <= cutoff_of n stale_frac < CALM_MS) as Hcut.
  { unfold cutoff_of, CALM_MS, POP_MAX in *. pose proof (Z.div_pos n stale_frac). pose proof (Z.div_le_upper_bound n stale_frac n).
    rewrite u32_small by (unfold is_u32; nia). nia. }
  eapply Y_weaken.
  - eapply Y_create; [by rewrite Hk|]. reading. eapply Y_from; [exact Hrec|]. reading. reading. reading. unfold report_json.
    maybe_printing. reading. eapply Y_bind; [apply (get_loop_ok _ n n (Z.to_nat n) 0 c1); [lia|lia|lia|done]|]. intros c2 Hc2. cbv beta.
    reading. maybe_printing. reading.
    destruct (knows_expire n c2 n (cutoff_of n stale_frac) Hc2) as (c3 & Hex); [lia|done|].
    eapply Y_from; [exact Hex|]. cbn beta iota. reading. apply Y_sink. eapply Y_put; cbn; reflexivity.
  - destruct report_rw; cbn; f_equal; lia.
  - done.
Qed.
End BleArms.

Section Suite.
Context (e : env) (wide : bool) (M : Type) `{ExpanseMapLaws M} (lock_ok : bool) (agg0 : agg) (rec0 : ble_record).

Lemma tracker_arm_ok k n frac eb rw : 1 <= n <= POP_MAX → 1 <= frac →
  Y k (bench_ble_expanse e wide M lock_ok rec0 n frac eb rw) (ble_outcome e "expanse_slab" n frac eb rw k) (λ _, True).
Proof.
  intros Hn Hf. assert (1 <= n <= 8192) as Hn' by (unfold POP_MAX in Hn; lia).
  eapply (ble_arm_ok e rec0 (H := tracker_arm_laws wide)); [done|done|done|]. split.
  - exact (fresh_tracks_fleet (M := M) n lock_ok Hn').
  - apply (fresh_inv (M := M) n lock_ok Hn').
Qed.
Lemma ble_hash_arm_ok k n frac eb rw : 1 <= n <= POP_MAX → 1 <= frac →
  Y k (bench_ble_hash e wide lock_ok rec0 n frac eb rw) (ble_outcome e "hash_open_addressing" n frac eb rw k) (λ _, True).
Proof.
  intros Hn Hf. destruct (fresh_ble_hash_rep wide lock_ok n) as (t & Ht & Hr & Hcap); [unfold POP_MAX in Hn; lia|].
  eapply (ble_arm_ok e rec0 (H := ble_hash_arm_laws wide)); [done|done|exact Ht|]. split; [exact Hr|exact Hcap].
Qed.
Lemma ble_scan_arm_ok k n frac eb rw : 1 <= n <= POP_MAX → 1 <= frac →
  Y k (bench_ble_scan e lock_ok rec0 n frac eb rw) (ble_outcome e "linear_scan" n frac eb rw k) (λ _, True).
Proof.
  intros Hn Hf. destruct (fresh_ble_scan_rep lock_ok n) as (t & Ht & Hr & Hcap); [lia|].
  eapply (ble_arm_ok e rec0 (H := ble_scan_arm_laws)); [done|done|exact Ht|]. split; [exact Hr|exact Hcap].
Qed.

(** ** Churn *)
Lemma insert_none (mt : option (memtable M)) k v :
  (∃ t m, mt = Some t ∧ mt_map t = Some m) →
  let mt' := (expanse_memtable_insert mt k v None).1.2 in
  (∃ t m, mt' = Some t ∧ mt_map t = Some m) ∧ contents mt' = sl_insert k v (contents mt).
Proof.
  intros (t & m & -> & Hm). unfold expanse_memtable_insert. cbv zeta. change (mt_map (with_lock LOCK_TAKE t)) with (mt_map t). rewrite Hm.
  pose proof (entries_insert m k v) as He. destruct (expanse_map_insert m k v) as [m' old]. cbn in *. rewrite Hm. eauto.
Qed.
Lemma remove_none (mt : option (memtable M)) k :
  (∃ t m, mt = Some t ∧ mt_map t = Some m) →
  let mt' := (expanse_memtable_remove mt k None).1.2 in
  (∃ t m, mt' = Some t ∧ mt_map t = Some m) ∧ contents mt' = sl_delete k (contents mt).
Proof.
  intros (t & m & -> & Hm). unfold expanse_memtable_remove. cbv zeta. change (mt_map (with_lock LOCK_TAKE t)) with (mt_map t). rewrite Hm.
  pose proof (entries_remove m k) as He. destruct (expanse_map_remove m k) as [m' old]. cbn in *. rewrite Hm. eauto.
Qed.
Lemma churn_insert_ok n i base (mt : option (memtable M)) :
  (∃ t m, mt = Some t ∧ mt_map t = Some m) →
  (∃ t m, churn_insert M n i base mt = Some t ∧ mt_map t = Some m) ∧
  ∀ x, x ∈ contents (churn_insert M n i base mt) → x ∈ contents mt ∨ ∃ j, i <= j < i + Z.of_nat n ∧ x.1 = base +w j.
Proof.
  revert i mt. induction n as [|n IH]; intros i mt Hmt; cbn [churn_insert]; [split; [done|by left]|].
  destruct (insert_none mt (base +w i) (u32 (i mod 1000)) Hmt) as [Hmt' Hc].
  destruct (IH (i + 1) _ Hmt') as [Hl Hin]. split; [done|]. intros x [Hx|(j & Hj & Hx)]%Hin; [|right; exists j; split; [lia|done]].
  rewrite Hc in Hx. apply elem_of_sl_insert in Hx as [->|[_ ?]]; [|by left|apply contents_sorted]. right. exists i. split; [lia|done].
Qed.
Lemma churn_remove_ok n i base (mt : option (memtable M)) :
  (∃ t m, mt = Some t ∧ mt_map t = Some m) →
  (∃ t m, churn_remove M n i base mt = Some t ∧ mt_map t = Some m) ∧
  ∀ x, x ∈ contents (churn_remove M n i base mt) → x ∈ contents mt ∧ ∀ j, i <= j < i + Z.of_nat n → x.1 ≠ base +w j.
Proof.
  revert i mt. induction n as [|n IH]; intros i mt Hmt; cbn [churn_remove]; [split; [done|]; intros x Hx; split; [done|lia]|].
  destruct (remove_none mt (base +w i) Hmt) as [Hmt' Hc].
  destruct (IH (i + 1) _ Hmt') as [Hl Hin]. split; [done|]. intros x [Hx Hj]%Hin. rewrite Hc in Hx. apply elem_of_sl_delete in Hx as [Hne Hx].
  split; [done|]. intros j Hjr. destruct (decide (j = i)) as [->|]; [done|]. apply Hj. lia.
Qed.
(** Each window is retired before the next: the table ends empty. *)
Lemma churn_empties cycles c n (mt : option (memtable M)) :
  (∃ t m, mt = Some t ∧ mt_map t = Some m) → contents mt = [] → 0 <= n → contents (churn_cycles M cycles c n mt) = [].
Proof.
  revert c mt. induction cycles as [|cycles IH]; intros c mt Hmt Hc Hn; cbn [churn_cycles]; [done|].
  destruct (churn_insert_ok (Z.to_nat n) 0 (u32 (1700000000 + c * n)) mt Hmt) as [H1 Hin].
  destruct (churn_remove_ok (Z.to_nat n) 0 (u32 (1700000000 + c * n)) _ H1) as [H2 Hout]. apply IH; [done| |done].
  destruct (contents (churn_remove _ _ _ _ _)) as [|x l] eqn:Hl; [done|]. exfalso.
  destruct (Hout x (list_elem_of_here _ _)) as [Hx Hne]. apply Hin in Hx as [Hx|(j & Hj & Hx)]; [by rewrite Hc in Hx; apply elem_of_nil in Hx|].
  by apply (Hne j).
Qed.

(** ** The log *)
(** As [Y], without the sink: what is printed and how many containers are created. *)
Definition W {A} (k : nat) (m : BM A) (o : list shape * nat) (Q : A → Prop) : Prop := ∀ b, b_new b = k →
  ∃ x b', m b = Some (x, b') ∧ Q x ∧ shape_of <$> b_lines b' = (shape_of <$> b_lines b) ++ o.1 ∧ b_new b' = (k + o.2)%nat.
Definition spec := nat → list shape * nat.
Definition of_outcome (f : nat → outcome) : spec := λ k, (o_shapes (f k), o_new (f k)).
(** The effects of a list of steps, each starting where the one before left off. *)
Fixpoint chain (l : list spec) : spec := λ k,
  match l with
  | [] => ([], 0%nat)
  | s :: l => let '(a, n) := s k in let '(b, n') := chain l (k + n)%nat in (a ++ b, (n + n')%nat)
  end.
Lemma W_of_Y {A} k (m : BM A) f Q : Y k m (f k) Q → W k m (of_outcome f k) Q.
Proof. intros Hm b Hb. destruct (Hm b Hb) as (x & b' & ? & ? & ? & ? & _). by exists x, b'. Qed.
Lemma W_chain {A B} k (m : BM A) (f : A → BM B) s l P Q :
  W k m (s k) P → (∀ x, P x → W (k + (s k).2) (f x) (chain l (k + (s k).2)%nat) Q) → W k (m ≫= f) (chain (s :: l) k) Q.
Proof.
  intros Hm Hf b Hb. destruct (Hm b Hb) as (x & b1 & He & HP & Hl & Hn). destruct (Hf x HP b1 Hn) as (y & b2 & He2 & HQ & Hl2 & Hn2).
  exists y, b2. unfold mbind, bm_bind. rewrite He. cbn [chain]. destruct (s k) as [a n] eqn:Hs. cbn [fst snd] in *.
  destruct (chain l (k + n)%nat) as [a' n']. cbn [fst snd] in *. split_and!; [done|done|by rewrite Hl2, Hl, <- app_assoc|lia].
Qed.
Lemma W_done {A} k (x : A) (Q : A → Prop) : Q x → W k (mret x) (chain [] k) Q.
Proof. intros HQ b Hb. exists x, b. split_and!; [done|done|by rewrite app_nil_r|cbn; lia]. Qed.
Lemma W_from {A B} k (o : option A) v (f : A → BM B) c Q : o = Some v → W k (f v) c Q → W k (from o ≫= f) c Q.
Proof. intros ->. done. Qed.
Lemma W_quiet {A B} k (m : BM A) (f : A → BM B) c Q : silent m → (∀ x, W k (f x) c Q) → W k (m ≫= f) c Q.
Proof.
  intros Hm Hf b Hb. destruct (Hm b) as (x & b1 & He & Hl & Hn & _). rewrite Hb in Hn.
  destruct (Hf x b1 Hn) as (y & b2 & He2 & HQ & Hl2 & Hn2). exists y, b2. unfold mbind, bm_bind. rewrite He, <- Hl. done.
Qed.
Lemma W_put k l sh : shape_of l = sh → W k (put_line l) ([sh], 0%nat) (λ _, True).
Proof. intros <- b Hb. eexists _, _. split; [done|]. split; [done|]. cbn. rewrite fmap_app. split; [done|lia]. Qed.
Lemma W_last {A} k (m : BM A) s Q : W k m (s k) Q → W k m (chain [s] k) Q.
Proof. intros Hm. cbn [chain]. destruct (s k) as [a n]. by rewrite app_nil_r, Nat.add_0_r. Qed.

(** *** Telemetry *)
Definition tsdb_shape (arm : string) (n : Z) (ib ab : string) (extra : list shape) : spec := λ k,
  if granted e k then
    if granted e (S k) then (ShRep ib arm n n :: ShRep ab arm (agg_keys n) n :: extra, 2%nat) else ([ShSkip arm n], 2%nat)
  else ([ShSkip arm n], 1%nat).
Definition control_shape (n : Z) (ab : string) : list shape :=
  [ShRep ab "sorted_array_dispatch_inlined" (agg_keys n) n; ShRep ab "sorted_array_dispatch_indirect" (agg_keys n) n].
Definition ordered_specs (n : Z) (ib ab : string) : list spec :=
  [tsdb_shape "expanse_memtable" n ib ab []; tsdb_shape "hash_open_addressing" n ib ab [];
   tsdb_shape "sorted_array" n ib ab (control_shape n ab)].
Definition tsdb_specs (n : Z) : list spec :=
  ordered_specs n "esp32_tsdb_ingest" "esp32_tsdb_aggregate_500" ++
  [tsdb_shape "ring_buffer" n "esp32_tsdb_ingest" "esp32_tsdb_aggregate_500" []] ++
  ordered_specs n "esp32_tsdb_ingest_shuffled" "esp32_tsdb_aggregate_500_shuffled".
Lemma tsdb_shape_of arm n keys ib ab tl k :
  101 <= n → keys_ok n keys → of_outcome (tsdb_outcome e wide arm n keys ib ab tl) k = tsdb_shape arm n ib ab (o_shapes tl) k.
Proof.
  intros Hn Hk. unfold of_outcome, tsdb_outcome, tsdb_shape. rewrite (agg_keys_ops wide n keys) by done.
  destruct (granted e k); [|done]. by destruct (granted e (S k)).
Qed.
Lemma fill_keys_ok n shuffled keys :
  101 <= n <= TSDB_MAX_N → Z.of_nat (length keys) = TSDB_MAX_N →
  ∃ ks, tsdb_fill_keys n shuffled keys = Some ks ∧ keys_ok n ks ∧ Z.of_nat (length ks) = TSDB_MAX_N.
Proof.
  intros Hn Hl. destruct (fill_keys_spec n shuffled keys) as (ks & He & Hlen & Hp & _); [lia|done|].
  exists ks. split; [done|]. split; [|lia]. split; [lia|]. split; [lia|done].
Qed.
Lemma W_of_Y' {A} k (m : BM A) f (s : spec) Q : Y k m (f k) Q → of_outcome f k = s k → W k m (s k) Q.
Proof. intros Hm <-. by apply W_of_Y. Qed.
(** Runs one arm. *)
Ltac arm lemma := eapply W_chain; [eapply W_of_Y'; [apply lemma; done|by apply tsdb_shape_of]|intros _ _].
Lemma bench_tsdb_ok k n keys :
  101 <= n <= TSDB_MAX_N → Z.of_nat (length keys) = TSDB_MAX_N →
  W k (bench_tsdb_hardware e wide M lock_ok agg0 n keys) (chain (tsdb_specs n) k) (λ ks, Z.of_nat (length ks) = TSDB_MAX_N).
Proof.
  intros Hn Hl. unfold bench_tsdb_hardware. rewrite Z.gtb_ltb, (proj2 (Z.ltb_ge TSDB_MAX_N n)) by lia.
  destruct (fill_keys_ok n false keys Hn Hl) as (ks & Hf & Hk & Hlk). destruct (fill_keys_ok n true ks Hn Hlk) as (ks' & Hf' & Hk' & Hlk').
  destruct Hn as [H101 _]. eapply W_from; [exact Hf|]. unfold tsdb_specs, ordered_specs. cbn [app].
  arm table_arm_ok. arm hash_arm_ok. arm sorted_arm_ok. arm ring_arm_ok. eapply W_from; [exact Hf'|].
  arm table_arm_ok. arm hash_arm_ok. arm sorted_arm_ok. by apply W_done.
Qed.

(** *** Trackers and churn *)
Definition ble_specs (n : Z) : list spec :=
  [of_outcome (ble_outcome e "expanse_slab" n 2 "esp32_ble_ttl_eviction" true);
   of_outcome (ble_outcome e "hash_open_addressing" n 2 "esp32_ble_ttl_eviction" true);
   of_outcome (ble_outcome e "linear_scan" n 2 "esp32_ble_ttl_eviction" true);
   of_outcome (ble_outcome e "expanse_slab" n 100 "esp32_ble_ttl_eviction_sparse" false);
   of_outcome (ble_outcome e "hash_open_addressing" n 100 "esp32_ble_ttl_eviction_sparse" false);
   of_outcome (ble_outcome e "linear_scan" n 100 "esp32_ble_ttl_eviction_sparse" false)].
Lemma bench_ble_ok k n :
  1 <= n <= POP_MAX → W k (bench_ble_tracker_hardware e wide M lock_ok rec0 n) (chain (ble_specs n) k) (λ _, True).
Proof.
  intros Hn. unfold bench_ble_tracker_hardware, ble_specs.
  eapply W_chain; [by apply W_of_Y, tracker_arm_ok|intros _ _]. eapply W_chain; [by apply W_of_Y, ble_hash_arm_ok|intros _ _].
  eapply W_chain; [by apply W_of_Y, ble_scan_arm_ok|intros _ _]. eapply W_chain; [by apply W_of_Y, tracker_arm_ok|intros _ _].
  eapply W_chain; [by apply W_of_Y, ble_hash_arm_ok|intros _ _]. by apply W_last, W_of_Y, ble_scan_arm_ok.
Qed.
Definition churn_spec (n cycles : Z) : spec := λ k,
  (if granted e k then [ShRep "esp32_churn_insert_delete" "expanse_memtable" (size_wrap wide (n * cycles * 2)) n; ShChurn n cycles] else [], 1%nat).
Lemma bench_churn_ok k n cycles : W k (bench_churn_fragmentation e wide M lock_ok n cycles) (churn_spec n cycles k) (λ _, True).
Proof.
  apply (W_of_Y' k _ (λ k, Outcome (churn_spec n cycles k).1 0 1)); [|done]. unfold bench_churn_fragmentation, churn_spec.
  destruct (fresh_table_ok (M := M) lock_ok) as [[(t & m & Ht & _) _] _]. rewrite Ht. reading. reading. destruct (granted e k) eqn:Hk; eapply Y_weaken.
  - eapply Y_create; [by rewrite Hk|]. reading. reading. reading. reading. unfold report_json. printing. eapply Y_put; cbn; reflexivity.
  - done.
  - done.
  - eapply Y_create; [by rewrite Hk|]. exact (Y_ret (S k) tt (λ _, True) I).
  - done.
  - done.
Qed.
Definition say (s : string) : spec := λ _, ([ShSay s], 0%nat).
Fixpoint reps_spec (reps : nat) : spec :=
  match reps with
  | O => chain []
  | S reps => chain [chain (tsdb_specs 500); chain (tsdb_specs 2000); chain (ble_specs 500); chain (ble_specs 2000); churn_spec 500 8; reps_spec reps]
  end.
Definition suite_log : spec :=
  chain [say "=== Expanse ESP32 Hardware Benchmark Suite (Starting) ==="; reps_spec SAMPLE_RUNS;
         say "=== Expanse ESP32 Hardware Benchmark Suite (Complete) ==="].
Lemma bench_reps_ok reps k keys :
  Z.of_nat (length keys) = TSDB_MAX_N → W k (bench_reps e wide M lock_ok agg0 rec0 reps keys) (reps_spec reps k) (λ _, True).
Proof.
  revert k keys. induction reps as [|reps IH]; intros k keys Hl; cbn [bench_reps reps_spec]; [by apply W_done|].
  eapply W_chain; [apply bench_tsdb_ok; [unfold TSDB_MAX_N; lia|done]|intros ks Hks]. eapply W_chain; [apply bench_tsdb_ok; [unfold TSDB_MAX_N; lia|done]|intros ks' Hks'].
  eapply W_chain; [apply bench_ble_ok; unfold POP_MAX; lia|intros _ _]. eapply W_chain; [apply bench_ble_ok; unfold POP_MAX; lia|intros _ _].
  eapply W_chain; [apply bench_churn_ok|intros _ _]. by apply W_last, IH.
Qed.
Lemma W_say k s : W k (put_line (Say s)) (say s k) (λ _, True).
Proof. apply (W_of_Y' k _ (λ _, Outcome [ShSay s] 0 0)); [by apply Y_put|done]. Qed.
Lemma suite_ok k keys :
  Z.of_nat (length keys) = TSDB_MAX_N → W k (app_main_benchmarks e wide M lock_ok agg0 rec0 keys) (suite_log k) (λ _, True).
Proof.
  intros Hl. unfold app_main_benchmarks, suite_log. eapply W_chain; [apply W_say|intros _ _].
  eapply W_chain; [by apply bench_reps_ok|intros _ _]. apply W_last, W_say.
Qed.
End Suite.

(** ** The log of a run in which every container is created *)
Definition arm_lines (arm : string) (n ops : Z) (ib ab : string) : list shape := [ShRep ib arm n n; ShRep ab arm ops n].
Definition ordered_lines (n ops : Z) (ib ab : string) : list shape :=
  arm_lines "expanse_memtable" n ops ib ab ++ arm_lines "hash_open_addressing" n ops ib ab ++ arm_lines "sorted_array" n ops ib ab ++
  [ShRep ab "sorted_array_dispatch_inlined" ops n; ShRep ab "sorted_array_dispatch_indirect" ops n].
Definition tsdb_lines (n ops : Z) : list shape :=
  ordered_lines n ops "esp32_tsdb_ingest" "esp32_tsdb_aggregate_500" ++
  arm_lines "ring_buffer" n ops "esp32_tsdb_ingest" "esp32_tsdb_aggregate_500" ++
  ordered_lines n ops "esp32_tsdb_ingest_shuffled" "esp32_tsdb_aggregate_500_shuffled".
Definition ble_lines (n dense sparse : Z) : list shape :=
  concat ((λ arm, [ShRep "esp32_ble_sighting_record" arm n n; ShRep "esp32_ble_point_lookup" arm n n; ShRep "esp32_ble_ttl_eviction" arm dense n])
    <$> ["expanse_slab"; "hash_open_addressing"; "linear_scan"]%string) ++
  ((λ arm, ShRep "esp32_ble_ttl_eviction_sparse" arm sparse n) <$> ["expanse_slab"; "hash_open_addressing"; "linear_scan"]%string).
(** One repetition: 400 and 501 keys aggregated, 300 of 500 and 1100 of 2000
    devices expired in the dense regime, 100 of each in the sparse one. *)
Definition rep_lines : list shape :=
  tsdb_lines 500 400 ++ tsdb_lines 2000 501 ++ ble_lines 500 300 100 ++ ble_lines 2000 1100 100 ++
  [ShRep "esp32_churn_insert_delete" "expanse_memtable" 8000 500; ShChurn 500 8].

Section FullLog.
Context (e : env) (wide : bool).
Hypothesis (Hall : ∀ k, granted e k = true).
Lemma tsdb_full n k : chain (tsdb_specs e n) k = (tsdb_lines n (agg_keys n), 14%nat).
Proof using Hall. unfold tsdb_specs, ordered_specs, tsdb_shape. cbn [app chain]. by rewrite !Hall. Qed.
Lemma ble_full n k :
  chain (ble_specs e n) k = (ble_lines n (stale_count n (cutoff_of n 2)) (stale_count n (cutoff_of n 100)), 6%nat).
Proof using Hall. unfold ble_specs, of_outcome, ble_outcome. cbn [chain]. by rewrite !Hall. Qed.
Lemma stale_at n c x : 0 <= n <= POP_MAX → 0 <= c → Z.max 0 (Z.min n (100 * (c / 1000))) = x → stale_count n c = x.
Proof. intros Hn Hc <-. by apply stale_count_spec. Qed.
Lemma reps_full reps k : (reps_spec e wide reps k).1 = concat (replicate reps rep_lines).
Proof using Hall.
  revert k. induction reps as [|reps IH]; intros k; [done|]. cbn [reps_spec replicate concat].
  cbn [chain]. rewrite !tsdb_full, !ble_full. unfold churn_spec. rewrite Hall.
  destruct (reps_spec e wide reps _) as [a n] eqn:Hr. specialize (IH (k + 14 + 14 + 6 + 6 + 1)%nat). rewrite Hr in IH. cbn [fst] in *. subst a.
  change (cutoff_of 500 2) with 3500. change (cutoff_of 500 100) with 1050. change (cutoff_of 2000 2) with 11000. change (cutoff_of 2000 100) with 1200.
  rewrite (stale_at 500 3500 300), (stale_at 500 1050 100), (stale_at 2000 11000 1100), (stale_at 2000 1200 100) by (done || unfold POP_MAX; lia).
  change (agg_keys 500) with 400. change (agg_keys 2000) with 501.
  assert (size_wrap wide (500 * 8 * 2) = 8000) as -> by (by destruct wide). unfold rep_lines. rewrite app_nil_r, <- !app_assoc. done.
Qed.
End FullLog.

(** ** Claims *)
(** C23: the suite always runs to its end and says what became of every arm.
    On every engine, whatever the instruments read and whichever create calls
    the heap refuses, the lines are those of [suite_log]: an arm prints its
    reports or a skipped record in its place (only the churn arm prints nothing
    when its table is refused), with the population and the operation counts of
    every line fixed.  When every container is created they are ten repetitions
    of the same sixty-two lines between the two banners; the churned table ends
    empty. *)
Theorem bench_log (M : Type) `{ExpanseMapLaws M} (e : env) (wide lock_ok : bool) (agg0 : agg) (rec0 : ble_record) (keys : list Z) (b : bst) :
  Z.of_nat (length keys) = TSDB_MAX_N →
  (∃ b', app_main_benchmarks e wide M lock_ok agg0 rec0 keys b = Some (tt, b') ∧
     shape_of <$> b_lines b' = (shape_of <$> b_lines b) ++ (suite_log e wide (b_new b)).1) ∧
  ((∀ k, granted e k = true) →
     (suite_log e wide (b_new b)).1
     = ShSay "=== Expanse ESP32 Hardware Benchmark Suite (Starting) ===" :: concat (replicate 10 rep_lines) ++
       [ShSay "=== Expanse ESP32 Hardware Benchmark Suite (Complete) ==="]) ∧
  contents (churn_cycles M 8 0 500 (fresh_table (M := M) lock_ok)) = [].
Proof.
  intros Hl. split; [|split].
  - destruct (suite_ok e wide M lock_ok agg0 rec0 (b_new b) keys Hl b eq_refl) as ([] & b' & He & _ & Hlines & _). by exists b'.
  - intros Hall. unfold suite_log, SAMPLE_RUNS. cbn [chain say]. pose proof (reps_full e wide Hall 10 (b_new b + 0)%nat) as Hr.
    destruct (reps_spec e wide 10 _) as [a n]. cbn [fst] in *. by subst a.
  - destruct (fresh_table_ok (M := M) lock_ok) as [[Hlive _] Hc]. by apply churn_empties.
Qed.
Definition demo_env : env := Env (λ _, 0) (λ _, 0) (λ _, 0) (λ _, true).
Lemma bench_log_witness :
  ∃ b', app_main_benchmarks demo_env false (gmap Z Z) true agg_init zero_record (replicate 2000 0) (Bst 0 0 0 0 []) = Some (tt, b') ∧
    shape_of <$> b_lines b'
    = ShSay "=== Expanse ESP32 Hardware Benchmark Suite (Starting) ===" :: concat (replicate 10 rep_lines) ++
       [ShSay "=== Expanse ESP32 Hardware Benchmark Suite (Complete) ==="].
Proof.
  destruct (bench_log (gmap Z Z) demo_env false true agg_init zero_record (replicate 2000 0) (Bst 0 0 0 0 [])) as ((b' & Hrun & Hlines) & Hfull & _).
  - reflexivity.
  - exists b'. split; [exact Hrun|]. rewrite Hlines, Hfull by reflexivity. reflexivity.
Defined.

(** The telemetry arms of a comparison do the same work.  Both key orders
    hold the same [n] keys once each; on either, the memtable, the hash twin, the
    sorted twin and the ring store the same entries,
    so that each arm that gets its memory reports [n] insertions and the same
    number of aggregated keys, 400 at population 500 and 501 at 2000, and adds
    the same sum and count to the sink; the dispatch control on the sorted
    container repeats that aggregate inline and through a function pointer. *)
Theorem bench_arms_same_work (M : Type) `{ExpanseMapLaws M} (e : env) (wide lock_ok shuffled : bool) (agg0 : agg) (n : Z) (keys ks : list Z)
    (ib ab : string) (k : nat) :
  101 <= n <= TSDB_MAX_N → Z.of_nat (length keys) = TSDB_MAX_N → tsdb_fill_keys n shuffled keys = Some ks →
  take (Z.to_nat n) ks ≡ₚ key_range n ∧
  Y k (bench_tsdb_expanse e wide M lock_ok agg0 ks n ib ab) (tsdb_outcome e wide "expanse_memtable" n ks ib ab nothing k) (λ _, True) ∧
  Y k (bench_tsdb_hash e wide lock_ok agg0 ks n ib ab) (tsdb_outcome e wide "hash_open_addressing" n ks ib ab nothing k) (λ _, True) ∧
  Y k (bench_tsdb_ring e wide lock_ok agg0 ks n ib ab) (tsdb_outcome e wide "ring_buffer" n ks ib ab nothing k) (λ _, True) ∧
  Y k (bench_tsdb_sorted e wide lock_ok agg0 ks n ib ab)
    (tsdb_outcome e wide "sorted_array" n ks ib ab (control_outcome wide n ks ab) k) (λ _, True) ∧
  arm_ops wide n ks = agg_keys n ∧ agg_keys 500 = 400 ∧ agg_keys 2000 = 501.
Proof.
  intros Hn Hl Hf. destruct (fill_keys_ok n shuffled keys Hn Hl) as (ks' & Hf' & Hk & _). rewrite Hf in Hf'. injection Hf' as <-.
  split; [apply Hk|]. split; [by apply table_arm_ok|]. split; [by apply hash_arm_ok|]. split; [by apply ring_arm_ok|].
  split; [apply sorted_arm_ok; [lia|done]|]. split; [apply agg_keys_ops; [lia|done]|]. done.
Qed.
Lemma bench_arms_same_work_witness :
  ∃ ks, tsdb_fill_keys 101 true (replicate 2000 0) = Some ks ∧ take 101 ks ≡ₚ key_range 101 ∧ arm_ops false 101 ks = 1.
Proof.
  exists (default [] (tsdb_fill_keys 101 true (replicate 2000 0))).
  assert (tsdb_fill_keys 101 true (replicate 2000 0) = Some (default [] (tsdb_fill_keys 101 true (replicate 2000 0)))) as Hf
    by (vm_compute; reflexivity).
  split; [exact Hf|].
  destruct (bench_arms_same_work (gmap Z Z) demo_env false true true agg_init 101 (replicate 2000 0) _ "" "" 0
    ltac:(unfold TSDB_MAX_N; lia) eq_refl Hf) as (Hp & _ & _ & _ & _ & Hops & _).
  split; [exact Hp|exact Hops].
Defined.
