(* ===== verification/Esp32.v ===== *)
(** * The ESP32 port: allocation hooks and the harvest's entry point

    Model of [src/components/expanse/src/expanse_esp_idf.c], through which the
    engine gets its memory from ESP-IDF's capability heap, and of [app_main] in
    [src/integrations/esp32/main/main.c], which runs the unit tests and only
    then the benchmark suite of [Bench].  The heap is a class of operations with
    what ESP-IDF documents; its capability bits are parameters. *)
From Stdlib Require Import String Ascii.
From stdpp Require Import base numbers list gmap.
From S2P Require Import Prelude ExpanseApi MemTable BleTracker Bench BenchLog BenchTheorems.
Open Scope Z_scope.
Abbreviation length := List.length.

(** ** The capability heap *)
Class HeapCaps (H : Type) := {
  heap_caps_malloc : H → Z → Z → H * option Z;  (** size, capabilities; [None] is [NULL] *)
  heap_caps_free : H → Z → H;
}.
(** A successful call returns a block that was not in use, of the size asked
    for, in a region that has every capability asked for; a refused one changes
    nothing; freeing a block returns it. *)
Class HeapCapsLaws (H : Type) `{!HeapCaps H} := {
  blocks : H → gmap Z (Z * Z);  (** address to size and the region's capabilities *)
  malloc_some h n caps h' a :
    heap_caps_malloc h n caps = (h', Some a) →
    blocks h !! a = None ∧ ∃ region, blocks h' = <[a := (n, region)]> (blocks h) ∧ Z.land caps region = caps;
  malloc_none h n caps h' : heap_caps_malloc h n caps = (h', None) → blocks h' = blocks h;
  free_block h a : blocks (heap_caps_free h a) = delete a (blocks h);
}.

Section Hooks.
Context {H : Type} `{!HeapCaps H} (MALLOC_CAP_INTERNAL MALLOC_CAP_SPIRAM MALLOC_CAP_8BIT MALLOC_CAP_DEFAULT : Z).

Definition expanse_esp_alloc_internal (h : H) (size : Z) : H * option Z :=
  if size =? 0 then (h, None) else heap_caps_malloc h size (Z.lor MALLOC_CAP_INTERNAL MALLOC_CAP_8BIT).
Definition expanse_esp_alloc_spiram (h : H) (size : Z) : H * option Z :=
  if size =? 0 then (h, None) else heap_caps_malloc h size (Z.lor MALLOC_CAP_SPIRAM MALLOC_CAP_8BIT).
Definition expanse_esp_free (h : H) (ptr : option Z) : H :=
  match ptr with Some p => heap_caps_free h p | None => h end.
(** [internal_only] is [CONFIG_EXPANSE_SRAM_INTERNAL_ONLY]. *)
Definition expanse_host_malloc (internal_only : bool) (h : H) (size : Z) : H * option Z :=
  if internal_only then expanse_esp_alloc_internal h size else heap_caps_malloc h size MALLOC_CAP_DEFAULT.
Definition expanse_host_free (h : H) (ptr : option Z) : H := expanse_esp_free h ptr.

(** What the engine's allocator asks for. *)
Inductive host_call := HostMalloc (size : Z) | HostFree (ptr : option Z).
Fixpoint host_calls (internal_only : bool) (h : H) (l : list host_call) : H * list (option Z) :=
  match l with
  | [] => (h, [])
  | HostMalloc n :: l =>
      let '(h, p) := expanse_host_malloc internal_only h n in
      let '(h, ps) := host_calls internal_only h l in (h, p :: ps)
  | HostFree p :: l => host_calls internal_only (expanse_host_free h p) l
  end.
End Hooks.

(** ** [app_main] *)
Definition EXPANSE_EXPECTED_TEST_CASES : Z := 13.
Inductive chip :=
  CHIP_ESP32 | CHIP_ESP32S2 | CHIP_ESP32S3 | CHIP_ESP32C3 | CHIP_ESP32C2 | CHIP_ESP32C6 | CHIP_ESP32H2 | CHIP_ESP32P4 | CHIP_OTHER.
Definition model_name (m : chip) : string :=
  match m with
  | CHIP_ESP32 => "esp32" | CHIP_ESP32S2 => "esp32s2" | CHIP_ESP32S3 => "esp32s3" | CHIP_ESP32C3 => "esp32c3"
  | CHIP_ESP32C2 => "esp32c2" | CHIP_ESP32C6 => "esp32c6" | CHIP_ESP32H2 => "esp32h2" | CHIP_ESP32P4 => "esp32p4"
  | CHIP_OTHER => "unknown"
  end%string.
(** The board's facts and the outcome of [unity_run_tests_by_tag]. *)
Record board := Board {
  bd_model : chip; bd_revision : Z; bd_cores : Z; bd_cpu_hz : Z; bd_idf : string; bd_version : string;
  bd_ran : Z; bd_failures : Z; bd_stack_min : Z; bd_stack_total : Z;
}.
Definition app_main (e : env) (bd : board) (suite : BM unit) : BM unit :=
  put_line (Say "EXPANSE esp32 harvest");;
  free ← GET_FREE_HEAP e; largest ← GET_LARGEST_BLOCK e;
  put_line (Target (model_name (bd_model bd)) (bd_revision bd) (bd_cores bd) (bd_cpu_hz bd) (bd_idf bd) (bd_version bd) free largest);;
  if negb (bd_failures bd =? 0) then put_line (TestsFailed (bd_failures bd))
  else if negb (bd_ran bd =? EXPANSE_EXPECTED_TEST_CASES) then put_line (TestsMissing EXPANSE_EXPECTED_TEST_CASES (bd_ran bd))
  else
    suite;;
    put_line (Stack (bd_stack_min bd) (bd_stack_total bd));;
    put_line (Say "EXPANSE esp32 harvest done").

(** ** The hooks *)
Section HookProofs.
Context {H : Type} `{HeapCapsLaws H} (INTERNAL SPIRAM BIT8 DEFAULT : Z).
Implicit Types h : H.
Lemma caps_of a b r : Z.land (Z.lor a b) r = Z.lor a b → Z.land a r = a ∧ Z.land b r = b.
Proof.
  intros Hc. assert (∀ n, Z.testbit a n || Z.testbit b n = true → Z.testbit r n = true) as Hbit.
  { intros n Hn. apply (f_equal (λ z, Z.testbit z n)) in Hc. rewrite Z.land_spec, Z.lor_spec, Hn in Hc. by apply andb_prop in Hc as [_ ?]. }
  split; apply Z.bits_inj; intros n; rewrite Z.land_spec; specialize (Hbit n).
  - destruct (Z.testbit a n); [|done]. by apply Hbit.
  - destruct (Z.testbit b n); [|done]. apply Hbit, orb_true_r.
Qed.
(** All blocks in use lie in internal, byte-addressable memory and are not empty. *)
Definition all_internal h : Prop :=
  ∀ a n region, blocks h !! a = Some (n, region) → n ≠ 0 ∧ Z.land INTERNAL region = INTERNAL ∧ Z.land BIT8 region = BIT8.
Lemma host_malloc_internal h n h' p :
  all_internal h → expanse_host_malloc INTERNAL BIT8 DEFAULT true h n = (h', p) → all_internal h'.
Proof.
  intros Hi. unfold expanse_host_malloc, expanse_esp_alloc_internal. destruct (Z.eqb_spec n 0) as [->|Hn]; [by intros [= <- _]|].
  destruct p as [a|]; intros Hm.
  - apply malloc_some in Hm as (_ & region & Hb & Hc). intros a' n' r'. rewrite Hb, lookup_insert.
    case_decide; [intros [= <- <-]; split; [done|by apply caps_of]|by apply Hi].
  - apply malloc_none in Hm. unfold all_internal. by rewrite Hm.
Qed.
Lemma host_free_internal h p : all_internal h → all_internal (expanse_host_free h p).
Proof.
  intros Hi. destruct p as [a|]; [|done]. intros a' n r. cbn. rewrite free_block, lookup_delete. case_decide; [done|]. apply Hi.
Qed.
Lemma host_calls_internal h l : all_internal h → all_internal (host_calls INTERNAL BIT8 DEFAULT true h l).1.
Proof.
  revert h. induction l as [|[n|p] l IH]; intros h Hi; cbn [host_calls]; [done| |by apply IH, host_free_internal].
  destruct (expanse_host_malloc INTERNAL BIT8 DEFAULT true h n) as [h1 p] eqn:Hm. pose proof (IH h1 (host_malloc_internal h n h1 p Hi Hm)) as Hr.
  by destruct (host_calls INTERNAL BIT8 DEFAULT true h1 l) as [h2 ps].
Qed.

(** With [CONFIG_EXPANSE_SRAM_INTERNAL_ONLY] every block the engine holds is
    internal, byte-addressable and not empty, after any sequence of its
    allocator's calls; and in either configuration freeing what an allocation
    returned, whether a block or [NULL], puts the heap's blocks back as they
    were. *)
Theorem esp_hooks (l : list host_call) (h : H) (size : Z) (internal_only : bool) :
  (blocks h = ∅ → all_internal (host_calls INTERNAL BIT8 DEFAULT true h l).1) ∧
  (let '(h', p) := expanse_host_malloc INTERNAL BIT8 DEFAULT internal_only h size in blocks (expanse_host_free h' p) = blocks h) ∧
  (let '(h', p) := expanse_esp_alloc_spiram SPIRAM BIT8 h size in
   blocks (expanse_esp_free h' p) = blocks h ∧
   ∀ a, p = Some a → ∃ region, blocks h' !! a = Some (size, region) ∧ Z.land SPIRAM region = SPIRAM ∧ size ≠ 0).
Proof.
  assert (∀ caps h' p, heap_caps_malloc h size caps = (h', p) → blocks (expanse_esp_free h' p) = blocks h) as Hback.
  { intros caps h' [a|] Hm; cbn; [|by eapply malloc_none].
    apply malloc_some in Hm as (Hn & region & Hb & _). by rewrite free_block, Hb, delete_insert_id. }
  split; [|split].
  - intros Hempty. apply host_calls_internal. intros a n r. by rewrite Hempty, lookup_empty.
  - unfold expanse_host_malloc, expanse_esp_alloc_internal, expanse_host_free.
    destruct internal_only; [destruct (size =? 0); [done|]|]; destruct (heap_caps_malloc h size _) as [h' p] eqn:Hm; by eapply Hback.
  - unfold expanse_esp_alloc_spiram. destruct (Z.eqb_spec size 0) as [->|Hs]; [done|].
    destruct (heap_caps_malloc h size _) as [h' p] eqn:Hm. split; [by eapply Hback|]. intros a ->.
    apply malloc_some in Hm as (_ & region & -> & Hc%caps_of). exists region. rewrite lookup_insert_eq. by destruct Hc.
Qed.
End HookProofs.

(** A heap that hands out ascending addresses of an internal region. *)
#[export] Instance toy_heap : HeapCaps (gmap Z (Z * Z) * Z) := {
  heap_caps_malloc h n caps :=
    if (0 <=? n) && (n <=? 65536) && (Z.land caps 15 =? caps) then
      if decide (h.1 !! h.2 = None) then (<[h.2 := (n, 15)]> h.1, h.2 + 65536, Some h.2) else (h, None)
    else (h, None);
  heap_caps_free h a := (delete a h.1, h.2);
}.
#[export] Instance toy_heap_laws : HeapCapsLaws (gmap Z (Z * Z) * Z).
Proof.
  refine {| blocks := fst |}; cbn.
  - intros h n caps h' a. destruct (_ && _) eqn:Hb; [|done]. case_decide as Hn; [|done]. intros [= <- <-]. cbn. split; [done|].
    exists 15. split; [done|]. apply andb_prop in Hb as [_ Hb]. by apply Z.eqb_eq.
  - intros h n caps h'. destruct (_ && _); [case_decide|]; congruence.
  - done.
Defined.
Lemma esp_hooks_witness :
  all_internal 1 4 (host_calls 1 4 8 true (∅ : gmap Z (Z * Z), 4096) [HostMalloc 64; HostMalloc 0; HostFree (Some 4096); HostMalloc 32]).1 ∧
  (host_calls 1 4 8 true (∅ : gmap Z (Z * Z), 4096) [HostMalloc 64; HostMalloc 0]).2 = [Some 4096; None].
Proof.
  split; [|vm_compute; reflexivity].
  apply (proj1 (esp_hooks 1 2 4 8 [HostMalloc 64; HostMalloc 0; HostFree (Some 4096); HostMalloc 32] (∅ : gmap Z (Z * Z), 4096) 0 true)).
  reflexivity.
Defined.

(** ** The harvest's gate *)
(** A line that carries a measurement, or says that one is missing. *)
Definition is_number (s : shape) : bool :=
  match s with ShSkip _ _ | ShRep _ _ _ _ | ShChurn _ _ | ShStack => true | _ => false end.
(** C24: no number is harvested from a boot whose tests did not all run and pass.
    The boot names its target first; then, if a test failed or other than
    thirteen ran, one line says so, no measurement is printed and nothing says
    the harvest is done; otherwise the suite's log follows, the stack line, and
    the closing banner. *)
Theorem esp_gate (M : Type) `{ExpanseMapLaws M} (e : env) (wide lock_ok : bool) (agg0 : agg) (rec0 : ble_record) (keys : list Z)
    (bd : board) (b : bst) :
  Z.of_nat (length keys) = TSDB_MAX_N →
  ∃ b' tail, app_main e bd (app_main_benchmarks e wide M lock_ok agg0 rec0 keys) b = Some (tt, b') ∧
    shape_of <$> b_lines b' = (shape_of <$> b_lines b) ++ ShSay "EXPANSE esp32 harvest" :: ShTarget (model_name (bd_model bd)) :: tail ∧
    if (bd_failures bd =? 0) && (bd_ran bd =? 13) then
      tail = (suite_log e wide (b_new b)).1 ++ [ShStack; ShSay "EXPANSE esp32 harvest done"]
    else
      tail = [if bd_failures bd =? 0 then ShTestsMissing 13 (bd_ran bd) else ShTestsFailed (bd_failures bd)] ∧
      Forall (λ s, is_number s = false) tail.
Proof.
  intros Hl.
  assert (∃ l, W (b_new b) (app_main e bd (app_main_benchmarks e wide M lock_ok agg0 rec0 keys))
    (chain ([say "EXPANSE esp32 harvest"; λ _, ([ShTarget (model_name (bd_model bd))], 0%nat)] ++ l) (b_new b)) (λ _, True) ∧
    if (bd_failures bd =? 0) && (bd_ran bd =? 13) then l = [suite_log e wide; λ _, ([ShStack], 0%nat); say "EXPANSE esp32 harvest done"]
    else l = [λ _, ([if bd_failures bd =? 0 then ShTestsMissing 13 (bd_ran bd) else ShTestsFailed (bd_failures bd)], 0%nat)]) as (l & HW & Hcase).
  { unfold app_main, EXPANSE_EXPECTED_TEST_CASES.
    destruct (bd_failures bd =? 0), (bd_ran bd =? 13); cbn [negb andb]; eexists; (split; [|reflexivity]);
      (eapply W_chain; [apply W_say|intros _ _]); (apply W_quiet; [auto with bench|intros ?]); (apply W_quiet; [auto with bench|intros ?]);
      (eapply W_chain; [by apply W_put|intros _ _]); try (apply W_last; by apply W_put).
    eapply W_chain; [by apply suite_ok|intros _ _]. eapply W_chain; [by apply W_put|intros _ _]. apply W_last, W_say. }
  destruct (HW b eq_refl) as ([] & b' & He & _ & Hlines & _). exists b', (chain l (b_new b)).1. cbn [app chain say] in Hlines. rewrite !Nat.add_0_r in Hlines.
  split; [done|]. split; [rewrite Hlines; by destruct (chain l (b_new b))|].
  destruct ((bd_failures bd =? 0) && (bd_ran bd =? 13)); subst l; cbn [chain say].
  - by destruct (suite_log e wide (b_new b)) as [a n].
  - split; [done|]. apply Forall_singleton. by destruct (bd_failures bd =? 0).
Qed.
Lemma esp_gate_witness :
  ∃ b' tail, app_main demo_env (Board CHIP_ESP32C6 2 1 160000000 "v5.3" "0.9.0" 0 0 1024 8192)
      (app_main_benchmarks demo_env false (gmap Z Z) true agg_init zero_record (replicate 2000 0)) (Bst 0 0 0 0 []) = Some (tt, b') ∧
    shape_of <$> b_lines b' = ShSay "EXPANSE esp32 harvest" :: ShTarget "esp32c6" :: tail ∧ tail = [ShTestsMissing 13 0].
Proof.
  destruct (esp_gate (gmap Z Z) demo_env false true agg_init zero_record (replicate 2000 0)
    (Board CHIP_ESP32C6 2 1 160000000 "v5.3" "0.9.0" 0 0 1024 8192) (Bst 0 0 0 0 [])) as (b' & tail & Hrun & Hlines & Htail & _).
  - reflexivity.
  - exists b', tail. split; [exact Hrun|]. split; [exact Hlines|exact Htail].
Defined.
