(* ===== verification/CrossCore.v ===== *)
(** * The cross-core cell and its hardware semaphore

    Model of what the two cores do in [dual_core_cell] of
    [src/integrations/stm32h747/main.c]: the M7 in [writer_churn], the M4 in
    [m4_serve_reader], with [hsem_try_lock] and [hsem_unlock] around each access
    in mode [READ_HSEM].  A configuration holds the writer's map, the semaphore,
    the program point of each core and the M4's counters; a step is one access of
    one core.  [expanse.h] does not support a reader on another core, and with a
    cacheable heap it returns wrong values: what the M4's read answers is an
    argument of its step, any status and any value, and nothing is assumed of the
    map's operations either.  The semaphore is hardware: a class with the
    behaviour the code relies on.  Cycle readings are arguments of the steps. *)
From Stdlib Require Import String.
From stdpp Require Import base numbers list gmap relations.
From S2P Require Import Prelude Sync32 EngineViews HarnessOut HarnessArms.
Open Scope Z_scope.
Abbreviation length := List.length.

(** ** The semaphore *)
Class Hsem (R : Type) := {
  HSEM_RLR : Z → R → Z * R;  (** what a core reads from [HSEM_RLR(0)]; the read takes a free semaphore *)
  HSEM_R : Z → Z → R → R;  (** a core's write to [HSEM_R(0)] *)
}.
(** The register shows the lock bit and the core that holds it; a free semaphore
    goes to the core that reads, and only its holder's write frees it. *)
Class HsemLaws (R : Type) `{!Hsem R} := {
  holder : R → option Z;
  rlr_free core r : holder r = None →
    (HSEM_RLR core r).1 = Z.lor (Z.shiftl 1 31) (Z.shiftl core 8) ∧ holder (HSEM_RLR core r).2 = Some core;
  rlr_taken core o r : holder r = Some o →
    (HSEM_RLR core r).1 = Z.lor (Z.shiftl 1 31) (Z.shiftl o 8) ∧ holder (HSEM_RLR core r).2 = Some o;
  r_holder core r : holder r = Some core → holder (HSEM_R core (Z.shiftl core 8) r) = None;
  r_other core v r : holder r ≠ Some core → holder (HSEM_R core v r) = holder r;
}.
#[export] Instance option_hsem : Hsem (option Z) := {
  HSEM_RLR core r := let o := default core r in (Z.lor (Z.shiftl 1 31) (Z.shiftl o 8), Some o);
  HSEM_R core v r := if bool_decide (r = Some core) && (v =? Z.shiftl core 8) then None else r;
}.
#[export, refine] Instance option_hsem_laws : HsemLaws (option Z) := { holder r := r }.
Proof.
  - by intros core r ->.
  - by intros core o r ->.
  - intros core r ->. simpl. by rewrite bool_decide_true, Z.eqb_refl.
  - intros core v r Hne. simpl. by rewrite bool_decide_false.
Defined.

Definition HSEM_COREID_M7 : Z := 3.
Definition HSEM_COREID_M4 : Z := 1.

Section Cell.
Context {S R : Type} `{!Sync32 S, !Hsem R} (locked : bool).

Definition hsem_try_lock (HSEM_COREID : Z) (r : R) : bool * R :=
  let '(v, r) := HSEM_RLR HSEM_COREID r in (v =? Z.lor (Z.shiftl 1 31) (Z.shiftl HSEM_COREID 8), r).
Definition hsem_unlock (HSEM_COREID : Z) (r : R) : R := HSEM_R HSEM_COREID (Z.shiftl HSEM_COREID 8) r.

(** The writer in turn [i]. *)
Inductive w_pc :=
  | WTop (i : Z)  (** before the semaphore *)
  | WIn (i : Z)  (** before the mutation *)
  | WMut (i : Z)  (** inside the mutation *)
  | WBack (i : Z)  (** refused: before the reclaim *)
  | WTail (i : Z)  (** before [if ((i & 31u) == 31u)] *)
  | WOut (i : Z).  (** before [hsem_unlock] *)
(** The reader, with the locals of one read. *)
Inductive r_pc :=
  | RTop  (** before the draw *)
  | RLock (k t0 : Z)  (** before the semaphore *)
  | RIn (k t0 tw : Z)  (** before the read *)
  | RGet (k t0 tw : Z)  (** inside it *)
  | ROut (k t0 tw st : Z) (v : option Z).  (** before [hsem_unlock] *)
Record cell := Cell { c_map : S; c_refused : Z; c_full : Z; c_sem : R; c_w : w_pc; c_r : r_pc; c_served : served }.
(** One attempt of turn [i]'s mutation. *)
Definition attempt (i : Z) (s : S) : Z * S :=
  let k := churn_key i in
  if negb (Z.land i 1 =? 0) then sync32_try_remove s k else sync32_try_insert s k (VAL k).
(** The writer's next access; a core that fails to take the semaphore stays. *)
Definition w_step (c : cell) : cell :=
  let '(Cell s refused full sem w r sv) := c in
  match w with
  | WTop i =>
      if locked then let '(got, sem) := hsem_try_lock HSEM_COREID_M7 sem in Cell s refused full sem (if got then WIn i else WTop i) r sv
      else Cell s refused full sem (WIn i) r sv
  | WIn i => Cell s refused full sem (WMut i) r sv
  | WMut i =>
      let '(st, s) := attempt i s in
      if st =? EXPANSE_SYNC32_RECLAIM_BACKLOG then Cell s (refused +w 1) full sem (WBack i) r sv
      else Cell s refused (if st =? EXPANSE_SYNC32_ARENA_FULL then full +w 1 else full) sem (WTail i) r sv
  | WBack i => Cell (sync32_try_reclaim s).2 refused full sem (WIn i) r sv
  | WTail i => Cell (if Z.land i 31 =? 31 then (sync32_try_reclaim s).2 else s) refused full sem (WOut i) r sv
  | WOut i => Cell s refused full (if locked then hsem_unlock HSEM_COREID_M7 sem else sem) (WTop (i +w 1)) r sv
  end.
(** The reader's next access: [t] is the cycle counter, [st] and [v] what a read
    that ends answers. *)
Definition r_step (t st : Z) (v : option Z) (c : cell) : cell :=
  let '(Cell s refused full sem w r sv) := c in
  match r with
  | RTop => let '(k, sv) := draw_key sv in Cell s refused full sem w (RLock k t) sv
  | RLock k t0 =>
      if locked then let '(got, sem) := hsem_try_lock HSEM_COREID_M4 sem in Cell s refused full sem w (if got then RIn k t0 t else RLock k t0) sv
      else Cell s refused full sem w (RIn k t0 t) sv
  | RIn k t0 tw => Cell s refused full sem w (RGet k t0 tw) sv
  | RGet k t0 tw => Cell s refused full sem w (ROut k t0 tw st v) sv
  | ROut k t0 tw st v =>
      Cell s refused full (if locked then hsem_unlock HSEM_COREID_M4 sem else sem) w RTop (count_read k st v locked t0 tw t sv)
  end.
Inductive cell_step : cell → cell → Prop :=
  | step_w c : cell_step c (w_step c)
  | step_r c t st v : cell_step c (r_step t st v c).
(** Both cores at the start of a rate; [rng] is what the M4's generator has. *)
Definition cell_start (s : S) (sem : R) (rng : Z) : cell :=
  Cell s 0 0 sem (WTop 0) RTop (Served 0 0 0 0 0 0 0 0 0 0 0 rng).

(** The writer's own check after a rate: [n] fixed keys from [k]. *)
Fixpoint writer_bad `{!Sync32View S} (n : nat) (k : Z) (s : S) (wbad : Z) : Z :=
  match n with
  | O => wbad
  | Datatypes.S n =>
      writer_bad n (k + 1) s (match sync32_writer_get s k with Some v => if v =? VAL k then wbad else wbad +w 1 | None => wbad +w 1 end)
  end.
(** The line of a rate: [t] the writer's cycles, [muts] its mutations. *)
Definition dual_result (sysclk_hz : Z) (heap_cacheable : bool) (period t muts wbad : Z) (stopped : bool) (c : cell) : option (list Z) :=
  let sv := c_served c in
  n ← kvs [("sysclk", sysclk_hz); ("m4_sysclk", 200000000); ("period", period); ("writer_cycles", t); ("mutations", muts);
           ("refused", c_refused c); ("arena_full", c_full c); ("writer_bad", wbad); ("m4_stopped", Z.b2z stopped);
           ("m4_reads", v_reads sv); ("m4_ok", v_ok sv); ("m4_nf", v_nf sv); ("m4_busy", v_busy sv); ("m4_bad", v_bad sv);
           ("m4_cyc_max", v_cmax sv); ("m4_cyc_sum_lo", v_lo sv); ("m4_cyc_sum_hi", v_hi sv);
           ("m4_wait_max", v_wmax sv); ("m4_wait_sum_lo", v_wlo sv); ("m4_wait_sum_hi", v_whi sv)]%string;
  Some (chars "RESULT name=dual_core" ++ ks "heap" (if heap_cacheable then "cacheable" else "noncacheable")
        ++ ks "mode" (if locked then "hsem" else "optimistic") ++ ks "core" "m7+m4" ++ n ++ crlf).

(** Between taking the semaphore and giving it back. *)
Definition w_inside (w : w_pc) : bool := if w is WTop _ then false else true.
Definition r_inside (r : r_pc) : bool := match r with RIn _ _ _ | RGet _ _ _ | ROut _ _ _ _ _ => true | _ => false end.
End Cell.

Arguments Cell {S R} _ _ _ _ _ _ _.

Section Invariant.
Context {S R : Type} `{!Sync32 S, HsemLaws R} (locked : bool).
Implicit Types c : cell (S := S) (R := R).

(** ** The invariant *)
(** Who holds the semaphore, by the program points. *)
Definition sem_ok (sem : R) (w : w_pc) (r : r_pc) : Prop :=
  holder sem = (if w_inside w then Some HSEM_COREID_M7 else if r_inside r then Some HSEM_COREID_M4 else None) ∧
  (w_inside w = true → r_inside r = true → False).
Definition counted (sv : served) : Prop := v_reads sv = u32 (v_ok sv + v_nf sv + v_busy sv + v_bad sv).
Record cell_inv c : Prop := {
  ci_sem : locked = true → sem_ok (c_sem c) (c_w c) (c_r c);
  ci_served : counted (c_served c);
}.
End Invariant.

Section Proofs.
Context {S R : Type} `{!Sync32 S, HsemLaws R} (locked : bool).
Implicit Types c : cell (S := S) (R := R).

(** ** The semaphore *)
Lemma try_lock_free core sem :
  holder sem = None → ∃ sem', hsem_try_lock core sem = (true, sem') ∧ holder sem' = Some core.
Proof.
  intros Hn. destruct (rlr_free core sem Hn) as [Hv Hh]. unfold hsem_try_lock. destruct (HSEM_RLR core sem) as [v sem']. cbn [fst snd] in *.
  exists sem'. by rewrite Hv, Z.eqb_refl.
Qed.
Lemma try_lock_taken core o sem :
  holder sem = Some o → 0 <= core < 16 → 0 <= o < 16 → core ≠ o →
  ∃ sem', hsem_try_lock core sem = (false, sem') ∧ holder sem' = Some o.
Proof.
  intros Hn Hc Ho Hne. destruct (rlr_taken core o sem Hn) as [Hv Hh]. unfold hsem_try_lock. destruct (HSEM_RLR core sem) as [v sem']. cbn [fst snd] in *.
  exists sem'. rewrite Hv. split; [|done]. f_equal. apply Z.eqb_neq. change (Z.shiftl 1 31) with (524288 * 2 ^ 12). rewrite !Z.shiftl_mul_pow2 by lia.
  rewrite !lor_low by lia. lia.
Qed.
Lemma unlock_holder core sem : holder sem = Some core → holder (hsem_unlock core sem) = None.
Proof. apply r_holder. Qed.

(** ** One access keeps it *)
Lemma count_read_ok k st v t0 tw t1 sv : counted sv → counted (count_read k st v locked t0 tw t1 sv).
Proof.
  intros Hsum. unfold counted, count_read in *.
  destruct (add64 (v_lo sv) (v_hi sv) _), (add64 (v_wlo sv) (v_whi sv) _). cbn [v_ok v_nf v_busy v_bad v_reads].
  rewrite Hsum. pose proof (tally_sum (judge k st v) (v_ok sv) (v_nf sv) (v_busy sv) (v_bad sv)) as Ht. unfold tally in Ht. rewrite Ht.
  unfold u32. by rewrite Zplus_mod_idemp_l.
Qed.
Ltac cell_cases Hc Hs Hv := destruct Hc as [Hs Hv]; cbn [c_map c_sem c_w c_r c_served] in *.
Lemma w_step_inv c : cell_inv locked c → cell_inv locked (w_step locked c).
Proof.
  destruct c as [s rf fl sem w r sv]. intros Hc. cell_cases Hc Hs Hv. unfold w_step. destruct w as [i|i|i|i|i|i].
  - destruct locked eqn:Hl; [|by split].
    destruct (Hs eq_refl) as [Hh Hx]. cbn [w_inside] in Hh. destruct (r_inside r) eqn:Hi.
    + destruct (try_lock_taken HSEM_COREID_M7 HSEM_COREID_M4 sem Hh) as (sem' & -> & Hh'); [done..|]. split; try done. intros _. by split; cbn; rewrite ?Hi.
    + destruct (try_lock_free HSEM_COREID_M7 sem Hh) as (sem' & -> & Hh'). split; try done. intros _. split; cbn; [done|by rewrite Hi].
  - by split.
  - destruct (attempt i s) as [st s1]. destruct (st =? _); by split.
  - by split.
  - by split.
  - split; [|done]. cbn. intros Hl. rewrite Hl. destruct (Hs Hl) as [Hh Hx]. cbn [w_inside] in *. split; [|done].
    rewrite (unlock_holder HSEM_COREID_M7 sem Hh). cbn. destruct (r_inside r); [destruct (Hx eq_refl eq_refl)|done].
Qed.
Lemma r_step_inv t st v c : cell_inv locked c → cell_inv locked (r_step locked t st v c).
Proof.
  destruct c as [s rf fl sem w r sv]. intros Hc. cell_cases Hc Hs Hv. unfold r_step. destruct r as [|k t0|k t0 tw|k t0 tw|k t0 tw st' v'].
  - unfold draw_key. by split.
  - destruct locked eqn:Hl; [|by split].
    destruct (Hs eq_refl) as [Hh Hx]. cbn [r_inside] in Hh. destruct (w_inside w) eqn:Hi.
    + destruct (try_lock_taken HSEM_COREID_M4 HSEM_COREID_M7 sem Hh) as (sem' & -> & Hh'); [done..|]. split; try done. intros _. by split; cbn; rewrite ?Hi.
    + destruct (try_lock_free HSEM_COREID_M4 sem Hh) as (sem' & -> & Hh'). split; try done. intros _. by split; cbn; rewrite ?Hi.
  - by split.
  - by split.
  - split; [|by apply count_read_ok].
    cbn. intros Hl. rewrite Hl. destruct (Hs Hl) as [Hh Hx]. cbn [r_inside] in *. destruct (w_inside w) eqn:Hi; [destruct (Hx eq_refl eq_refl)|].
    split; [|by rewrite Hi]. by rewrite Hi, (unlock_holder HSEM_COREID_M4 sem Hh).
Qed.
Lemma cell_start_inv (s : S) (sem : R) rng : holder sem = None → cell_inv locked (cell_start s sem rng).
Proof. intros Hn. by split. Qed.
Lemma cell_reach_inv c0 c : cell_inv locked c0 → rtc (cell_step locked) c0 c → cell_inv locked c.
Proof.
  intros Hinit Hr. revert c Hr. apply rtc_ind_r; [done|]. intros y z _ Hs Hi. destruct Hs; [by apply w_step_inv|by apply r_step_inv].
Qed.

(** ** The holder lets go *)
Fixpoint w_steps (n : nat) c : cell (S := S) (R := R) := match n with O => c | Datatypes.S n => w_steps n (w_step locked c) end.
(** The reader's accesses, each with its cycle reading and answer. *)
Fixpoint r_steps (ts : list (Z * (Z * option Z))) c : cell (S := S) (R := R) :=
  match ts with [] => c | (t, (st, v)) :: ts => r_steps ts (r_step locked t st v c) end.
(** Whether the writer's next access is a mutation that is refused, and how many
    of its next [n] accesses are. *)
Definition refused_now c : bool :=
  if c_w c is WMut i then (attempt i (c_map c)).1 =? EXPANSE_SYNC32_RECLAIM_BACKLOG else false.
Fixpoint refusals (n : nat) c : nat :=
  match n with O => 0 | Datatypes.S n => (if refused_now c then 1 else 0) + refusals n (w_step locked c) end.
Definition w_top (w : w_pc) : bool := negb (w_inside w).
(** The accesses left in the turn, if no mutation is refused. *)
Definition w_left (w : w_pc) : nat :=
  match w with WTop _ => 0 | WOut _ => 1 | WTail _ => 2 | WMut _ => 3 | WIn _ => 4 | WBack _ => 5 end.
Lemma w_step_left c :
  w_inside (c_w c) = true →
  (w_left (c_w (w_step locked c)) + 1 <= w_left (c_w c) + (if refused_now c then 3 else 0))%nat.
Proof.
  destruct c as [s rf fl sem w r sv]. unfold refused_now. cbn [c_w c_map]. destruct w as [i|i|i|i|i|i]; cbn; try (done || lia).
  intros _. destruct (attempt i s) as [st s1]. cbn. destruct (st =? _); cbn; lia.
Qed.
Lemma w_step_reader c : c_r (w_step locked c) = c_r c.
Proof.
  destruct c as [s rf fl sem w r sv]. destruct w; cbn; try done.
  - destruct locked; [|done]. by destruct (hsem_try_lock _ _).
  - destruct (attempt _ _). by destruct (_ =? _).
Qed.
Lemma w_steps_reader n c : c_r (w_steps n c) = c_r c.
Proof. revert c. induction n as [|n IH]; intros c; [done|]. cbn [w_steps]. by rewrite IH, w_step_reader. Qed.
(** Each refusal costs the writer three accesses more. *)
Lemma w_leaves n c b :
  (w_left (c_w c) + 3 * b <= n)%nat → (refusals n c <= b)%nat →
  ∃ j, (j <= n)%nat ∧ w_top (c_w (w_steps j c)) = true.
Proof.
  revert c b. induction n as [|n IH]; intros c b Hn Hr.
  - exists 0%nat. split; [done|]. destruct c as [? ? ? ? w ? ?]. destruct w; cbn in *; (done || lia).
  - destruct (w_inside (c_w c)) eqn:Hw; [|exists 0%nat; split; [lia|]; cbn; unfold w_top; by rewrite Hw].
    pose proof (w_step_left c Hw) as Hl. cbn [refusals] in Hr.
    destruct (IH (w_step locked c) (b - if refused_now c then 1 else 0)%nat) as (j & Hj & Ht); [destruct (refused_now c); lia..|].
    exists (Datatypes.S j). split; [lia|]. exact Ht.
Qed.
Lemma w_steps_inv n c : cell_inv locked c → cell_inv locked (w_steps n c).
Proof. revert c. induction n as [|n IH]; intros c Hc; [done|]. by apply IH, w_step_inv. Qed.
Lemma r_leaves c ts :
  length ts = 3%nat → ∃ n, (n <= 3)%nat ∧ r_inside (c_r (r_steps (take n ts) c)) = false ∧ c_w (r_steps (take n ts) c) = c_w c.
Proof.
  destruct ts as [|[? []] [|[? []] [|[? []] [|]]]]; try done. intros _. destruct c as [s rf fl sem w r sv]. destruct r as [|k t0|k t0 tw|k t0 tw|k t0 tw st v].
  - by exists 0%nat; split; [lia|].
  - by exists 0%nat; split; [lia|].
  - by exists 3%nat; split; [lia|].
  - by exists 2%nat; split; [lia|].
  - by exists 1%nat; split; [lia|].
Qed.
Lemma r_steps_inv ts c : cell_inv locked c → cell_inv locked (r_steps ts c).
Proof. revert c. induction ts as [|[t [st v]] ts IH]; intros c Hc; [done|]. by apply IH, r_step_inv. Qed.
(** A core at the semaphore takes it when the other core is outside. *)
Lemma r_enters c k t0 t st v :
  locked = true → cell_inv locked c → c_r c = RLock k t0 → w_top (c_w c) = true → r_inside (c_r (r_step locked t st v c)) = true.
Proof.
  destruct c as [s rf fl sem w r sv]. intros Hl Hc. cell_cases Hc Hs Hv. intros -> Hw. destruct (Hs Hl) as [Hh _].
  unfold w_top in Hw. apply negb_true_iff in Hw. rewrite Hw in Hh. cbn. rewrite Hl.
  by destruct (try_lock_free HSEM_COREID_M4 sem Hh) as (sem' & -> & _).
Qed.
Lemma w_enters c i :
  locked = true → cell_inv locked c → c_w c = WTop i → r_inside (c_r c) = false → w_inside (c_w (w_step locked c)) = true.
Proof.
  destruct c as [s rf fl sem w r sv]. intros Hl Hc. cell_cases Hc Hs Hv. intros -> Hw. destruct (Hs Hl) as [Hh _].
  rewrite Hw in Hh. cbn. rewrite Hl. by destruct (try_lock_free HSEM_COREID_M7 sem Hh) as (sem' & -> & _).
Qed.

End Proofs.

(** The writer's own check finds the fixed half of the keys in its map. *)
Lemma writer_bad_none {S : Type} `{Sync32Laws S, !Sync32View S, !Sync32ViewLaws S} n k s b :
  arm_inv s → 0 <= k → k + Z.of_nat n <= KEYS_FIXED → writer_bad n k s b = b.
Proof.
  intros [_ Hf]. revert k. induction n as [|n IH]; intros k Hk Hn; [done|]. cbn [writer_bad]. rewrite writer_get_spec, (Hf k), Z.eqb_refl by lia. apply IH; lia.
Qed.

