(* ===== verification/IsrArms.v ===== *)
(** * The two interrupt arms of the harness, from pre-fill to report

    Model of [arm_sync32] and [arm_critical_section] of
    [src/integrations/stm32h747/main.c] with [isr_report], [systick_start] and
    [systick_stop]: each a main program that the SysTick interrupt can enter
    between any two of its steps unless it has masked interrupts.  The two
    programs have one shape; class [ArmOps] lists what differs, [ArmLaws] what
    makes a reading right, and the arms are instances.  When the cycle budget of
    a rate is spent, and the cycle counter, are arguments of the steps. *)
From stdpp Require Import base numbers list gmap relations.
From S2P Require Import Prelude SortedAssoc ExpanseApi Sync32 HarnessOut HarnessArms.
Open Scope Z_scope.

Definition rates : list Z := [0; 40000; 10000; 1000].

Class ArmOps (T : Type) := {
  arm_new : option T;  (** [None]: the [CHECK] line and return *)
  arm_fill : Z → T → T * bool;  (** the pre-fill of one key, and whether a [CHECK] line is printed *)
  arm_masks : bool;  (** [cpsid i] before and [cpsie i] after a mutation *)
  arm_turn : Z → T → Z → Z → option (T * Z * Z);  (** turn [i]: map, refused, arena_full *)
  arm_clean : Z → T → T;
  arm_settle : T → T;  (** after the clean-up of a rate *)
  (** the handler in the arm's mode; the flag: inside a mutation *)
  arm_tick : T → bool → Z → Z → Z → isr_t → isr_t;
}.

(** The arguments and the counters of one [isr_report]. *)
Record report := Report { p_period : Z; p_mutations : Z; p_cycles : Z; p_refused : Z; p_full : Z; p_isr : isr_t }.

Section Program.
Context {T : Type} `{!ArmOps T} (sysclk_hz : Z).

Inductive arm_pc :=
  | AFill (k : Z)  (** pre-fill, key [k] *)
  | ARate (d : nat)  (** before [isr_reset] of rate [d] *)
  | AMode (d : nat)  (** before [isr_mode = ...] *)
  | ALoop (d : nat) (i : Z)  (** the loop's test *)
  | AMask (d : nat) (i : Z)  (** before [cpsid i] *)
  | AEnter (d : nat) (i : Z)  (** before the mutation *)
  | AMut (d : nat) (i : Z)  (** inside it *)
  | AUnmask (d : nat) (i : Z)  (** before [cpsie i] *)
  | AStop (d : nat) (i t : Z)  (** before [systick_stop]; [t] the cycles of the rate *)
  | AReport (d : nat) (i t : Z)
  | AClean (d : nat) (k : Z)
  | ADone.
Record arm := Arm {
  a_map : T; a_pc : arm_pc; a_refused : Z; a_full : Z; a_masked : bool; a_on : bool;
  a_isr : isr_t; a_reports : list report; a_checks : Z;
}.
Definition set_pc (pc : arm_pc) (a : arm) : arm :=
  Arm (a_map a) pc (a_refused a) (a_full a) (a_masked a) (a_on a) (a_isr a) (a_reports a) (a_checks a).
Definition set_arm_map (m : T) (a : arm) : arm :=
  Arm m (a_pc a) (a_refused a) (a_full a) (a_masked a) (a_on a) (a_isr a) (a_reports a) (a_checks a).
Definition set_masked (b : bool) (a : arm) : arm :=
  Arm (a_map a) (a_pc a) (a_refused a) (a_full a) b (a_on a) (a_isr a) (a_reports a) (a_checks a).
(** [isr_mode] is the arm's mode when [a_on], else [ISR_OFF]. *)
Definition set_on (b : bool) (a : arm) : arm :=
  Arm (a_map a) (a_pc a) (a_refused a) (a_full a) (a_masked a) b (a_isr a) (a_reports a) (a_checks a).
Definition set_isr (c : isr_t) (a : arm) : arm :=
  Arm (a_map a) (a_pc a) (a_refused a) (a_full a) (a_masked a) (a_on a) c (a_reports a) (a_checks a).
Definition set_counts (refused full : Z) (a : arm) : arm :=
  Arm (a_map a) (a_pc a) refused full (a_masked a) (a_on a) (a_isr a) (a_reports a) (a_checks a).
Definition add_check (b : bool) (a : arm) : arm :=
  Arm (a_map a) (a_pc a) (a_refused a) (a_full a) (a_masked a) (a_on a) (a_isr a) (a_reports a) (if b then a_checks a + 1 else a_checks a).
Definition add_report (r : report) (a : arm) : arm :=
  Arm (a_map a) (a_pc a) (a_refused a) (a_full a) (a_masked a) (a_on a) (a_isr a) (a_reports a ++ [r]) (a_checks a).

(** One step of the main program: [spent] says that the rate's cycle budget is
    used up, [t] is the cycle count.  [None]: the arm has returned, or a
    mutation did not. *)
Definition arm_step (spent : bool) (t : Z) (a : arm) : option arm :=
  match a_pc a with
  | AFill k =>
      if k <? KEYS_FIXED then let '(m, chk) := arm_fill k (a_map a) in Some (set_pc (AFill (k + 1)) (add_check chk (set_arm_map m a)))
      else Some (set_pc (ARate 0) a)
  | ARate d => if decide (d < length rates)%nat then Some (set_pc (AMode d) (set_counts 0 0 (set_isr (isr_reset (a_isr a)) a))) else Some (set_pc ADone a)
  | AMode d => Some (set_pc (ALoop d 0) (set_on true a))
  | ALoop d i => Some (if spent then set_pc (AStop d i t) a else set_pc (AMask d i) a)
  | AMask d i => Some (set_pc (AEnter d i) (set_masked arm_masks a))
  | AEnter d i => Some (set_pc (AMut d i) a)
  | AMut d i =>
      '(m, refused, full) ← arm_turn i (a_map a) (a_refused a) (a_full a);
      Some (set_pc (AUnmask d i) (set_counts refused full (set_arm_map m a)))
  | AUnmask d i => Some (set_pc (ALoop d (i +w 1)) (set_masked false a))
  | AStop d i t => Some (set_pc (AReport d i t) (set_on false a))
  | AReport d i t =>
      let period := period_of sysclk_hz (nth d rates 0) in
      Some (set_pc (AClean d KEYS_FIXED) (add_report (Report period i t (a_refused a) (a_full a) (a_isr a)) a))
  | AClean d k =>
      if k <? KEYS then Some (set_pc (AClean d (k + 1)) (set_arm_map (arm_clean k (a_map a)) a))
      else Some (set_pc (ARate (S d)) (set_arm_map (arm_settle (a_map a)) a))
  | ADone => None
  end.
(** The interrupt: not taken while masked; in mode [ISR_OFF] the handler returns.
    [inside] is whether a reading inside a mutation shows. *)
Definition arm_irq (inside : bool) (cvr t0 t1 : Z) (a : arm) : option arm :=
  if a_masked a then None
  else if a_on a
    then Some (set_isr (arm_tick (a_map a) (inside && if a_pc a is AMut _ _ then true else false) cvr t0 t1 (a_isr a)) a)
    else Some a.
Inductive run : arm → arm → Prop :=
  | run_main a spent t a' : arm_step spent t a = Some a' → run a a'
  | run_irq a inside cvr t0 t1 a' : arm_irq inside cvr t0 t1 a = Some a' → run a a'.
Definition arm_start (m : T) (c : isr_t) : arm := Arm m (AFill 0) 0 0 false false c [] 0.
End Program.

(** ** The arms *)
#[export] Instance sync32_arm {S} `{!Sync32 S} : ArmOps S := {
  arm_new := sync32_map_new KEYS 1;
  arm_fill k s := let '(st, s) := sync32_try_insert s k (VAL k) in (s, negb (st =? EXPANSE_SYNC32_OK));
  arm_masks := false;
  arm_turn i s refused full := churn_one i s refused full;
  arm_clean k s := (sync32_try_remove s k).2;
  arm_settle s := (sync32_try_reclaim s).2;
  arm_tick s inside cvr t0 t1 c := SysTick_Handler ISR_SYNC32 s inside (λ _, None) cvr t0 t1 c;
}.

(** The plain map, beside the reader the first arm left in [g_reader]; [torn] is
    what a reading inside one of its mutations would answer. *)
Record cs_arm (S M : Type) := CsArm { g_reader : S; g_plain : M }.
Arguments CsArm {S M} _ _.
Arguments g_reader {S M} _.
Arguments g_plain {S M} _.
Section CriticalSection.
Context {S M : Type} `{!Sync32 S, !ExpanseMap M} (reader : S) (torn : Z → option Z).
#[export] Instance critical_section_arm : ArmOps (cs_arm S M) := {
  arm_new := Some (CsArm reader expanse_map_new);
  arm_fill k a := (CsArm (g_reader a) (expanse_map_insert (g_plain a) k (VAL k)).1, false);
  arm_masks := true;
  arm_turn i a refused full :=
    let k := churn_key i in
    Some (CsArm (g_reader a) (if negb (Z.land i 1 =? 0) then (expanse_map_remove (g_plain a) k).1
                              else (expanse_map_insert (g_plain a) k (VAL k)).1), refused, full);
  arm_clean k a := CsArm (g_reader a) (expanse_map_remove (g_plain a) k).1;
  arm_settle a := a;
  arm_tick a inside cvr t0 t1 c :=
    SysTick_Handler ISR_CS (g_reader a) false (if inside then torn else expanse_map_get (g_plain a)) cvr t0 t1 c;
}.
End CriticalSection.

(** ** What makes a reading right *)
(** The key the handler draws from a generator's state. *)
Definition tick_key (rng : Z) : Z := Z.land (wrng_next rng) (KEYS - 1).
(** What a reading of the map adds to the counters: never wrong; not found only
    for a key that is not there; busy only inside a mutation. *)
Definition counted (look : Z → option Z) (inside : bool) (c c' : isr_t) : Prop :=
  isr_bad c' = isr_bad c ∧ isr_n c' = isr_n c +w 1 ∧
  u32 (isr_ok c' + isr_nf c' + isr_busy c' + isr_bad c') = u32 (isr_ok c + isr_nf c + isr_busy c + isr_bad c + 1) ∧
  (is_Some (look (tick_key (isr_rng c))) → isr_nf c' = isr_nf c) ∧
  (inside = false → isr_busy c' = isr_busy c).
(** Only key [k] may have changed, to absent or to its value. *)
Definition changes (k : Z) (look look' : Z → option Z) : Prop :=
  ∀ j, look' j = look j ∨ j = k ∧ (look' j = None ∨ look' j = Some (VAL j)).
Definition right (look : Z → option Z) : Prop := ∀ j v, look j = Some v → v = VAL j.
Definition there (n : Z) (look : Z → option Z) : Prop := ∀ j, 0 <= j < n → look j = Some (VAL j).

Class ArmLaws (T : Type) `{!ArmOps T} := {
  arm_at : T → Z → option Z;
  arm_at_new t k : arm_new = Some t → arm_at t k = None;
  arm_fill_at k t : changes k (arm_at t) (arm_at (arm_fill k t).1);
  arm_fill_there k t : (arm_fill k t).2 = false → arm_at (arm_fill k t).1 k = Some (VAL k);
  arm_turn_at i t refused full :
    ∃ t' refused' full', arm_turn i t refused full = Some (t', refused', full') ∧ changes (churn_key i) (arm_at t) (arm_at t');
  arm_clean_at k t : changes k (arm_at t) (arm_at (arm_clean k t));
  arm_settle_at t : arm_at (arm_settle t) = arm_at t;
  arm_tick_at t inside cvr t0 t1 c :
    right (arm_at t) → (arm_masks = true → inside = false) → counted (arm_at t) inside c (arm_tick t inside cvr t0 t1 c);
}.

(** ** The laws of the two arms *)
Lemma changes_refl k look : changes k look look.
Proof. by left. Qed.
Lemma changes_trans k l1 l2 l3 : changes k l1 l2 → changes k l2 l3 → changes k l1 l3.
Proof. intros H1 H2 j. destruct (H2 j) as [->|?]; [apply H1|by right]. Qed.
Lemma changes_right k look look' : changes k look look' → right look → right look'.
Proof.
  intros Hc Hr j v Hj. destruct (Hc j) as [He|(-> & [He|He])]; rewrite He in Hj; [by apply Hr|done|congruence].
Qed.
Lemma changes_there k n look look' : changes k look look' → n <= k → there n look → there n look'.
Proof. intros Hc Hn Ht j Hj. destruct (Hc j) as [->|[-> _]]; [by apply Ht|lia]. Qed.

Section Sync32Arm.
Context {S : Type} `{Sync32Laws S}.
Implicit Types s : S.
Definition look_at s (k : Z) : option Z := contents s !! k.
Lemma insert_changes s k : changes k (look_at s) (look_at (sync32_try_insert s k (VAL k)).2).
Proof.
  intros j. unfold look_at. rewrite insert_contents. destruct (_ =? _); [|by left]. rewrite lookup_insert.
  case_decide; [subst; right; auto|by left].
Qed.
Lemma remove_changes s k : changes k (look_at s) (look_at (sync32_try_remove s k).2).
Proof.
  intros j. unfold look_at. rewrite remove_contents. destruct (_ =? _); [|by left]. rewrite lookup_delete.
  case_decide; [subst; right; auto|by left].
Qed.
Lemma reclaim_look s : look_at (sync32_try_reclaim s).2 = look_at s.
Proof. unfold look_at. by rewrite reclaim_contents. Qed.
Lemma mutate_changes i k s refused :
  ∃ st s' r, mutate 2 i k s refused = Some (st, s', r) ∧ changes k (look_at s) (look_at s').
Proof.
  cbn [mutate]. destruct (negb (Z.land i 1 =? 0)) eqn:Hodd.
  - pose proof (remove_changes s k) as H1. pose proof (remove_after_reclaim s k) as Hre.
    destruct (sync32_try_remove s k) as [st s1]. cbn [fst snd] in *. destruct (Z.eqb_spec st EXPANSE_SYNC32_RECLAIM_BACKLOG) as [->|_]; [|by eauto].
    specialize (Hre eq_refl). pose proof (remove_changes (sync32_try_reclaim s1).2 k) as H2. rewrite reclaim_look in H2.
    destruct (sync32_try_remove _ k) as [st2 s2]. cbn [fst snd] in *. rewrite (proj2 (Z.eqb_neq _ _) Hre). eexists _, _, _. split; [done|]. by eapply changes_trans.
  - pose proof (insert_changes s k) as H1. pose proof (insert_after_reclaim s k (VAL k)) as Hre.
    destruct (sync32_try_insert s k (VAL k)) as [st s1]. cbn [fst snd] in *. destruct (Z.eqb_spec st EXPANSE_SYNC32_RECLAIM_BACKLOG) as [->|_]; [|by eauto].
    specialize (Hre eq_refl). pose proof (insert_changes (sync32_try_reclaim s1).2 k) as H2. rewrite reclaim_look in H2.
    destruct (sync32_try_insert _ k (VAL k)) as [st2 s2]. cbn [fst snd] in *. rewrite (proj2 (Z.eqb_neq _ _) Hre). eexists _, _, _. split; [done|]. by eapply changes_trans.
Qed.
Lemma churn_one_changes i s r f :
  ∃ s' r' f', churn_one i s r f = Some (s', r', f') ∧ changes (churn_key i) (look_at s) (look_at s').
Proof.
  unfold churn_one. destruct (mutate_changes i (churn_key i) s r) as (st & s1 & r1 & -> & H1). cbn [mbind option_bind].
  eexists _, _, _. split; [done|]. destruct (_ =? 31); [by rewrite reclaim_look|done].
Qed.
Lemma sync32_tick s inside cvr t0 t1 c :
  right (look_at s) → counted (look_at s) inside c (SysTick_Handler ISR_SYNC32 s inside (λ _, None) cvr t0 t1 c).
Proof.
  intros Hr. unfold SysTick_Handler, counted. pose proof (judge_right s inside (tick_key (isr_rng c)) Hr) as Hj. unfold tick_key in *.
  destruct (sync32_try_get s inside _) as [st v]. cbn [fst snd] in Hj. cbn [isr_bad isr_n isr_ok isr_nf isr_busy].
  set (k := Z.land _ _) in *. split_and!.
  - rewrite Hj. destruct inside; [done|]. by destruct (contents s !! k).
  - done.
  - exact (tally_sum (judge k st v) _ _ _ _).
  - unfold look_at. intros [x Hx]. rewrite Hj, Hx. by destruct inside.
  - intros ->. rewrite Hj. by destruct (contents s !! k).
Qed.
#[export, refine] Instance sync32_arm_laws : ArmLaws S := { arm_at := look_at }.
Proof.
  - intros s k Hn. unfold look_at. by rewrite (new_contents _ _ _ Hn), lookup_empty.
  - intros k s. cbn. pose proof (insert_changes s k) as Hc. by destruct (sync32_try_insert _ _ _).
  - intros k s. cbn. unfold look_at. pose proof (insert_contents s k (VAL k)) as Hc. destruct (sync32_try_insert s k (VAL k)) as [st s1].
    cbn [fst snd] in *. intros Hb. apply negb_false_iff in Hb. rewrite Hb in Hc. by rewrite Hc, lookup_insert_eq.
  - intros i s r f. apply churn_one_changes.
  - intros k s. apply remove_changes.
  - intros s. apply reclaim_look.
  - intros s inside cvr t0 t1 c Hr _. by apply sync32_tick.
Defined.
End Sync32Arm.

Section CriticalSectionArm.
Context {S M : Type} `{!Sync32 S, ExpanseMapLaws M} (reader : S) (torn : Z → option Z).
Definition plain_at (a : cs_arm S M) : Z → option Z := expanse_map_get (g_plain a).
Lemma plain_insert_changes a k r : changes k (plain_at a) (plain_at (CsArm r (expanse_map_insert (g_plain a) k (VAL k)).1)).
Proof. intros j. unfold plain_at. cbn [g_plain]. rewrite get_insert. case_decide; [subst; right; auto|by left]. Qed.
Lemma plain_remove_changes a k r : changes k (plain_at a) (plain_at (CsArm r (expanse_map_remove (g_plain a) k).1)).
Proof. intros j. unfold plain_at. cbn [g_plain]. rewrite get_remove. case_decide; [subst; right; auto|by left]. Qed.
Lemma plain_tick s look cvr t0 t1 c :
  right look → counted look false c (SysTick_Handler ISR_CS s false look cvr t0 t1 c).
Proof.
  intros Hr. unfold SysTick_Handler, counted. unfold tick_key. cbn [isr_bad isr_n isr_ok isr_nf isr_busy].
  set (k := Z.land _ _). specialize (Hr k). set (o := match look k with Some v => if v =? VAL k then OOk else OBad | None => ONf end).
  assert (o = if look k is Some _ then OOk else ONf) as Ho.
  { unfold o. destruct (look k) as [v|]; [|done]. by rewrite (Hr v eq_refl), Z.eqb_refl. }
  split_and!; [..|by intros [x Hx]; rewrite Ho, Hx|intros _; rewrite Ho; by destruct (look k)].
  - rewrite Ho. by destruct (look k).
  - done.
  - exact (tally_sum o _ _ _ _).
Qed.
#[export, refine] Instance critical_section_laws : @ArmLaws (cs_arm S M) (critical_section_arm reader torn) := { arm_at := plain_at }.
Proof.
  - intros a k [= <-]. unfold plain_at. cbn [g_plain]. by rewrite get_spec, entries_new.
  - intros k a. apply plain_insert_changes.
  - intros k a _. unfold plain_at. cbn. by rewrite get_insert, decide_True.
  - intros i a r f. eexists _, _, _. split; [reflexivity|]. destruct (negb _); [apply plain_remove_changes|apply plain_insert_changes].
  - intros k a. apply plain_remove_changes.
  - done.
  - intros a inside cvr t0 t1 c Hr Hm. rewrite (Hm eq_refl). by apply plain_tick.
Defined.
End CriticalSectionArm.

(** ** The arms in every interleaving *)
Section Runs.
Context {T : Type} `{ArmLaws T} (sysclk_hz : Z).
Implicit Types a : arm (T := T).

Definition counters_ok (c : isr_t) : Prop :=
  isr_bad c = 0 ∧ isr_n c = u32 (isr_ok c + isr_nf c + isr_busy c + isr_bad c) ∧ (arm_masks = true → isr_busy c = 0).
(** The pre-filled keys at a program point, and the rates reported. *)
Definition filled_to (pc : arm_pc) : Z := match pc with AFill k => k | _ => KEYS_FIXED end.
Definition before_reset (pc : arm_pc) : bool := match pc with AFill _ | ARate _ | ADone => true | _ => false end.
Definition quiet (pc : arm_pc) : bool := match pc with AFill _ | ARate _ | AMode _ | AReport _ _ _ | AClean _ _ | ADone => true | _ => false end.
Definition reported (pc : arm_pc) : nat :=
  match pc with
  | AFill _ => 0
  | ARate d | AMode d | ALoop d _ | AMask d _ | AEnter d _ | AMut d _ | AUnmask d _ | AStop d _ _ | AReport d _ _ => d
  | AClean d _ => S d
  | ADone => length rates
  end.
Definition pc_ok (pc : arm_pc) : Prop :=
  match pc with
  | AFill k => 0 <= k <= KEYS_FIXED
  | ARate d => (d <= length rates)%nat
  | AClean d k => (d < length rates)%nat ∧ KEYS_FIXED <= k
  | ADone => True
  | AMode d | ALoop d _ | AMask d _ | AEnter d _ | AMut d _ | AUnmask d _ | AStop d _ _ | AReport d _ _ => (d < length rates)%nat
  end.
Record arm_ok a : Prop := {
  ao_pc : pc_ok (a_pc a);
  ao_right : right (arm_at (a_map a));
  ao_there : a_checks a = 0 → there (filled_to (a_pc a)) (arm_at (a_map a));
  ao_checks : 0 <= a_checks a;
  ao_masked : arm_masks = true → ∀ d i, a_pc a = AMut d i ∨ a_pc a = AEnter d i → a_masked a = true;
  ao_off : quiet (a_pc a) = true → a_on a = false;
  ao_isr : before_reset (a_pc a) = false → counters_ok (a_isr a);
  ao_reports : Forall (λ r, counters_ok (p_isr r)) (a_reports a);
  ao_periods : p_period <$> a_reports a = period_of sysclk_hz <$> take (reported (a_pc a)) rates;
}.

Lemma counted_ok look inside c c' : counted look inside c c' → (arm_masks = true → inside = false) → counters_ok c → counters_ok c'.
Proof.
  intros (Hb & Hn & Hs & _ & Hbusy) Hm (Hb0 & Hn0 & Hbz). split; [congruence|]. split.
  - rewrite Hn, Hs, Hn0. unfold u32. by rewrite Zplus_mod_idemp_l.
  - intros Hk. rewrite Hbusy by auto. auto.
Qed.
Lemma arm_irq_ok inside cvr t0 t1 a a' : arm_ok a → arm_irq inside cvr t0 t1 a = Some a' → arm_ok a'.
Proof.
  intros Ha. unfold arm_irq. destruct (a_masked a) eqn:Hm; [done|]. destruct (a_on a) eqn:Hon; intros [= <-]; [|done].
  destruct Ha as [? Hr ? ? Hma Hof Hi ? ?]. split; try done.
  cbn [a_isr a_pc set_isr]. intros Hb. eapply counted_ok; [apply arm_tick_at; [done|]| |by apply Hi].
  all: intros Hk; destruct inside, (a_pc a) eqn:Hpc; try done; by rewrite (Hma Hk _ _ (or_introl eq_refl)) in Hm.
Qed.
Lemma reset_ok c : counters_ok (isr_reset c).
Proof. done. Qed.
Lemma fill_step_ok k t : right (arm_at t) → there k (arm_at t) → (arm_fill k t).2 = false → there (k + 1) (arm_at (arm_fill k t).1).
Proof.
  intros _ Ht Hc j Hj. destruct (decide (j = k)) as [->|Hne]; [by apply arm_fill_there|].
  destruct (arm_fill_at k t j) as [->|[? _]]; [apply Ht; lia|done].
Qed.
Lemma nth_rates_take d : (d < length rates)%nat → take (S d) rates = take d rates ++ [nth d rates 0].
Proof. intros Hd. destruct d as [|[|[|[|]]]]; cbn in *; done || lia. Qed.
(** A mutation of a key past the pre-filled half. *)
Lemma change_ok k a t :
  changes k (arm_at (a_map a)) (arm_at t) → KEYS_FIXED <= k → arm_ok a → filled_to (a_pc a) = KEYS_FIXED → arm_ok (set_arm_map t a).
Proof.
  intros Hc Hk [? Hr Ht ? ? ? ? ? ?] Hf. split; try done; cbn [a_map a_pc a_checks set_arm_map].
  - by eapply changes_right.
  - intros Hz. specialize (Ht Hz). rewrite Hf in *. by eapply changes_there.
Qed.
(** Splits the invariant and closes what the step leaves alone. *)
Ltac arm_split := split; cbn -[take rates]; try done; try (by intros ? ? ? [[=]|[=]]).
Lemma arm_step_ok spent t a a' : arm_ok a → arm_step sysclk_hz spent t a = Some a' → arm_ok a'.
Proof.
  intros Ha. pose proof Ha as [Hpc Hr Ht Hck Hma Hof Hi Hre Hpe]. unfold arm_step. destruct (a_pc a) as [k|d|d|d i|d i|d i|d i|d i|d i t'|d i t'|d k|] eqn:Epc.
  - destruct (Z.ltb_spec k KEYS_FIXED) as [Hk|Hk].
    + pose proof (arm_fill_at k (a_map a)) as Hc. pose proof (fill_step_ok k (a_map a) Hr) as Hf. destruct (arm_fill k (a_map a)) as [m chk]. cbn [fst snd] in *.
      intros [= <-]. cbn in Hpc. arm_split.
      * lia.
      * by eapply changes_right.
      * destruct chk; [lia|]. intros Hz. by apply Hf; [apply Ht|].
      * destruct chk; lia.
    + intros [= <-]. cbn in Hpc. arm_split; [lia|]. intros Hz. assert (k = KEYS_FIXED) as -> by lia. by apply Ht.
  - destruct (decide _) as [Hd|Hd]; intros [= <-]; cbn in Hpc.
    + arm_split.
    + arm_split. cbn in Hd. by replace d with 4%nat in Hpe by lia.
  - intros [= <-]. by arm_split.
  - destruct spent; intros [= <-]; by arm_split.
  - intros [= <-]. arm_split.
  - intros [= <-]. arm_split. intros Hk d' i' [[= <- <-]|[=]]. eapply Hma; eauto.
  - destruct (arm_turn_at i (a_map a) (a_refused a) (a_full a)) as (m & r & f & -> & Hc). cbn [mbind option_bind]. intros [= <-].
    destruct (change_ok (churn_key i) a m Hc) as [? ? ? ? ? ? ? ? ?]; [apply churn_key_range|done|by rewrite Epc|].
    cbn in *. rewrite Epc in *. by arm_split.
  - intros [= <-]. by arm_split.
  - intros [= <-]. by arm_split.
  - intros [= <-]. arm_split.
    + apply Forall_app. split; [done|]. constructor; [by apply Hi|done].
    + rewrite fmap_app, Hpe, nth_rates_take, fmap_app by done. done.
  - destruct (Z.ltb_spec k KEYS) as [Hk|Hk]; intros [= <-]; cbn in Hpc.
    + destruct (change_ok k a (arm_clean k (a_map a)) (arm_clean_at _ _)) as [? ? ? ? ? ? ? ? ?]; [lia|done|by rewrite Epc|].
      cbn in *. rewrite Epc in *. arm_split. cbn [length rates]. lia.
    + arm_split; rewrite ?arm_settle_at; try done. cbn [length rates]. lia.
  - done.
Qed.

Lemma start_ok m c : arm_new = Some m → arm_ok (arm_start m c).
Proof.
  intros Hn. arm_split.
  - intros j v. by rewrite (arm_at_new m j Hn).
  - intros _ j Hj. lia.
Qed.
Lemma run_ok a0 a : arm_ok a0 → rtc (run sysclk_hz) a0 a → arm_ok a.
Proof.
  intros Hinit Hr. revert a Hr. apply rtc_ind_r; [done|]. intros y z _ Hs Hy.
  destruct Hs; [by eapply arm_step_ok|by eapply arm_irq_ok].
Qed.

(** ** The main program ends when its budgets are spent *)
Definition main a a' : Prop := ∃ t, arm_step sysclk_hz true t a = Some a'.
Lemma main_run a a' : rtc main a a' → rtc (run sysclk_hz) a a'.
Proof. intros Hr. eapply rtc_congruence with (f := id); [|exact Hr]. intros x y [t Ht]. by eapply run_main. Qed.
Lemma main_one a a' : arm_step sysclk_hz true 0 a = Some a' → rtc main a a'.
Proof. intros Hs. apply rtc_once. by exists 0. Qed.
Lemma clean_ends n d k a : a_pc a = AClean d k → KEYS - k = Z.of_nat n → ∃ a', rtc main a a' ∧ a_pc a' = ARate (S d).
Proof.
  revert k a. induction n as [|n IH]; intros k a Hpc Hn.
  - eexists. split; [apply main_one; unfold arm_step; by rewrite Hpc, (proj2 (Z.ltb_ge k KEYS)) by lia|done].
  - destruct (IH (k + 1) (set_pc (AClean d (k + 1)) (set_arm_map (arm_clean k (a_map a)) a))) as (a' & Hr & Hpc'); [done|lia|].
    exists a'. split; [|done]. eapply rtc_l; [|exact Hr]. exists 0. unfold arm_step. by rewrite Hpc, (proj2 (Z.ltb_lt k KEYS)) by lia.
Qed.
Ltac next Hpc := eapply rtc_l; [exists 0; unfold arm_step; rewrite Hpc; reflexivity|].
Lemma report_ends d i t a : a_pc a = AReport d i t → ∃ a', rtc main a a' ∧ a_pc a' = ARate (S d).
Proof.
  intros Hpc. edestruct (clean_ends 2048 d KEYS_FIXED) as (a' & Hr & Hpc'); [|done|].
  2:{ exists a'. split; [|done]. next Hpc. exact Hr. }
  done.
Qed.
Lemma stop_ends d i t a : a_pc a = AStop d i t → ∃ a', rtc main a a' ∧ a_pc a' = ARate (S d).
Proof.
  intros Hpc. destruct (report_ends d i t (set_pc (AReport d i t) (set_on false a))) as (a' & Hr & Hpc'); [done|].
  exists a'. split; [|done]. by next Hpc.
Qed.
Lemma loop_ends d i a : a_pc a = ALoop d i → ∃ a', rtc main a a' ∧ a_pc a' = ARate (S d).
Proof.
  intros Hpc. destruct (stop_ends d i 0 (set_pc (AStop d i 0) a)) as (a' & Hr & Hpc'); [done|]. exists a'. split; [|done]. by next Hpc.
Qed.
Lemma unmask_ends d i a : a_pc a = AUnmask d i → ∃ a', rtc main a a' ∧ a_pc a' = ARate (S d).
Proof.
  intros Hpc. destruct (loop_ends d (i +w 1) (set_pc (ALoop d (i +w 1)) (set_masked false a))) as (a' & Hr & Hpc'); [done|].
  exists a'. split; [|done]. by next Hpc.
Qed.
Lemma mut_ends d i a : a_pc a = AMut d i → ∃ a', rtc main a a' ∧ a_pc a' = ARate (S d).
Proof.
  intros Hpc. destruct (arm_turn_at i (a_map a) (a_refused a) (a_full a)) as (m & r & f & Ht & _).
  destruct (unmask_ends d i (set_pc (AUnmask d i) (set_counts r f (set_arm_map m a)))) as (a' & Hr & Hpc'); [done|].
  exists a'. split; [|done]. eapply rtc_l; [exists 0; unfold arm_step; rewrite Hpc, Ht; reflexivity|exact Hr].
Qed.
Lemma rate_ends n d a : a_pc a = ARate d → (length rates - d = n)%nat → ∃ a', rtc main a a' ∧ a_pc a' = ADone.
Proof.
  revert d a. induction n as [|n IH]; intros d a Hpc Hn.
  - eexists. split; [apply main_one; unfold arm_step; rewrite Hpc, decide_False by lia; done|done].
  - destruct (loop_ends d 0 (set_pc (ALoop d 0) (set_on true (set_pc (AMode d) (set_counts 0 0 (set_isr (isr_reset (a_isr a)) a)))))) as (a1 & Hr1 & Hpc1); [done|].
    destruct (IH (S d) a1 Hpc1) as (a' & Hr & Hpc'); [lia|]. exists a'. split; [|done].
    eapply rtc_l; [exists 0; unfold arm_step; rewrite Hpc, decide_True by lia; reflexivity|].
    eapply rtc_l; [exists 0; reflexivity|]. by etrans.
Qed.
Lemma fill_ends n k a : a_pc a = AFill k → KEYS_FIXED - k = Z.of_nat n → ∃ a', rtc main a a' ∧ a_pc a' = ARate 0.
Proof.
  revert k a. induction n as [|n IH]; intros k a Hpc Hn.
  - eexists. split; [apply main_one; unfold arm_step; by rewrite Hpc, (proj2 (Z.ltb_ge k KEYS_FIXED)) by lia|done].
  - destruct (arm_fill k (a_map a)) as [m chk] eqn:Hf.
    destruct (IH (k + 1) (set_pc (AFill (k + 1)) (add_check chk (set_arm_map m a)))) as (a' & Hr & Hpc'); [done|lia|].
    exists a'. split; [|done]. eapply rtc_l; [|exact Hr]. exists 0. unfold arm_step. by rewrite Hpc, (proj2 (Z.ltb_lt k KEYS_FIXED)), Hf by lia.
Qed.
(** Whatever the point, the current rate ends. *)
Lemma point_ends a : arm_ok a → a_pc a ≠ ADone → ∃ a' d, rtc main a a' ∧ a_pc a' = ARate d.
Proof.
  intros Ha Hd. pose proof (ao_pc a Ha) as Hp. destruct (a_pc a) as [k|d|d|d i|d i|d i|d i|d i|d i t|d i t|d k|] eqn:Hpc; [..|done].
  - cbn in Hp. destruct (fill_ends (Z.to_nat (KEYS_FIXED - k)) k a Hpc) as (a' & ? & ?); [lia|eauto].
  - by exists a, d.
  - destruct (loop_ends d 0 (set_pc (ALoop d 0) (set_on true a))) as (a' & Hr & ?); [done|]. exists a', (S d). split; [by next Hpc|done].
  - destruct (loop_ends d i a Hpc) as (a' & ? & ?). eauto.
  - destruct (mut_ends d i (set_pc (AMut d i) (set_pc (AEnter d i) (set_masked arm_masks a)))) as (a' & Hr & ?); [done|].
    exists a', (S d). split; [|done]. next Hpc. eapply rtc_l; [exists 0; reflexivity|exact Hr].
  - destruct (mut_ends d i (set_pc (AMut d i) a)) as (a' & Hr & ?); [done|]. exists a', (S d). split; [by next Hpc|done].
  - destruct (mut_ends d i a Hpc) as (a' & ? & ?). eauto.
  - destruct (unmask_ends d i a Hpc) as (a' & ? & ?). eauto.
  - destruct (stop_ends d i t a Hpc) as (a' & ? & ?). eauto.
  - destruct (report_ends d i t a Hpc) as (a' & ? & ?). eauto.
  - cbn in Hp. destruct (decide (k <= KEYS)) as [Hk|Hk].
    + destruct (clean_ends (Z.to_nat (KEYS - k)) d k a Hpc) as (a' & ? & ?); [lia|eauto].
    + eexists _, (S d). split; [apply main_one; unfold arm_step; by rewrite Hpc, (proj2 (Z.ltb_ge k KEYS)) by lia|done].
Qed.
Lemma arm_ends a : arm_ok a → ∃ a', rtc main a a' ∧ a_pc a' = ADone.
Proof.
  intros Ha. assert (a_pc a = ADone ∨ a_pc a ≠ ADone) as [Hd|Hd] by (destruct (a_pc a); (by right) || (by left)); [by exists a|].
  destruct (point_ends a Ha Hd) as (a1 & d & Hr1 & Hpc1). destruct (rate_ends _ d a1 Hpc1 eq_refl) as (a' & Hr & ?).
  exists a'. split; [by etrans|done].
Qed.

(** C39: an interrupt arm of the harness, on either map, with the interrupt
    taken at any points its program leaves unmasked.  Every line it reports has
    no wrong reading and counts each reading once; the critical-section arm's has
    no busy reading either.  If the pre-fill printed no [CHECK], a reading of a
    key of the fixed half is never counted not found.  Once its cycle budgets are
    spent the arm returns, having reported the four rates in order. *)
Theorem isr_arms_right m c a :
  arm_new = Some m → rtc (run sysclk_hz) (arm_start m c) a →
  Forall (λ r, isr_bad (p_isr r) = 0 ∧
               isr_n (p_isr r) = u32 (isr_ok (p_isr r) + isr_nf (p_isr r) + isr_busy (p_isr r) + isr_bad (p_isr r)) ∧
               (arm_masks = true → isr_busy (p_isr r) = 0)) (a_reports a) ∧
  (∀ inside cvr t0 t1 a', arm_irq inside cvr t0 t1 a = Some a' → a_checks a = 0 → before_reset (a_pc a) = false →
     tick_key (isr_rng (a_isr a)) < KEYS_FIXED → isr_nf (a_isr a') = isr_nf (a_isr a)) ∧
  ∃ a', rtc (run sysclk_hz) a a' ∧ a_pc a' = ADone ∧ p_period <$> a_reports a' = period_of sysclk_hz <$> rates.
Proof.
  intros Hn Hr. pose proof (run_ok _ a (start_ok m c Hn) Hr) as Ha. split; [apply Ha|]. split.
  - intros inside cvr t0 t1 a' Hirq Hck Hpc Hk. pose proof Ha as [_ Hri Hth _ Hma _ _ _ _]. unfold arm_irq in Hirq.
    destruct (a_masked a) eqn:Hm; [done|]. destruct (a_on a); injection Hirq as <-; [|done].
    set (ins := inside && _). assert (arm_masks = true → ins = false) as Hins.
    { intros Hmm. unfold ins. destruct inside, (a_pc a) eqn:E; try done. symmetry; by apply (Hma Hmm _ _ (or_introl eq_refl)). }
    destruct (arm_tick_at (a_map a) ins cvr t0 t1 (a_isr a) Hri Hins) as (_ & _ & _ & Hnf & _). cbn [a_isr set_isr]. apply Hnf.
    exists (VAL (tick_key (isr_rng (a_isr a)))). apply (Hth Hck). split.
    + unfold tick_key, KEYS. change (4096 - 1) with (Z.ones 12). rewrite Z.land_ones by lia. apply Z.mod_pos_bound. lia.
    + destruct (a_pc a); try done.
  - destruct (arm_ends a Ha) as (a' & Hm & Hd). apply main_run in Hm. exists a'. split; [done|]. split; [done|].
    pose proof (ao_periods a' (run_ok a a' Ha Hm)) as Hp. by rewrite Hd in Hp.
Qed.
End Runs.

(** Both arms at 400 MHz, on concrete maps. *)
Lemma isr_arms_right_witness :
  (∃ a : arm (T := toy), a_pc a = ADone ∧ p_period <$> a_reports a = [0; 10000; 40000; 400000]) ∧
  (∃ a : arm (T := cs_arm toy (gmap Z Z)), a_pc a = ADone ∧ p_period <$> a_reports a = [0; 10000; 40000; 400000]).
Proof.
  set (c := Isr 0 0 0 0 0 0 0 0 0 2654435769). split.
  - destruct (isr_arms_right (T := toy) 400000000 (Toy ∅ 0) c (arm_start (Toy ∅ 0) c)) as (_ & _ & a & _ & Hd & Hp).
    + reflexivity.
    + apply rtc_refl.
    + exists a. split; [exact Hd|exact Hp].
  - pose (g := CsArm (Toy ∅ 0) (∅ : gmap Z Z)).
    destruct (@isr_arms_right (cs_arm toy (gmap Z Z)) (critical_section_arm (Toy ∅ 0) (λ _, None)) (critical_section_laws (Toy ∅ 0) (λ _, None))
      400000000 g c (arm_start g c)) as (_ & _ & a & _ & Hd & Hp).
    + reflexivity.
    + apply rtc_refl.
    + exists a. split; [exact Hd|exact Hp].
Defined.
