(* ===== verification/HarnessBoard.v ===== *)
(** * The harness's board set-up

    Model of the register code of [src/integrations/stm32h747/main.c]: the UART,
    the cycle counter and its profile counters, the instruction cache, the MPU,
    the clocks and the supply.  Registers are a map from addresses to 32-bit
    values; what the hardware does between two readings of a status bit is a
    parameter [settle], of which the code relies on the ready bits following the
    requests and on nothing else of a register changing. *)
From stdpp Require Import base numbers list gmap.
From S2P Require Import Prelude HarnessOut.
Open Scope Z_scope.

(** ** Registers *)
Abbreviation regs := (gmap Z Z).
Definition rd (a : Z) (r : regs) : Z := default 0 (r !! a).
Definition wr (a v : Z) (r : regs) : regs := <[a := u32 v]> r.
(** [*a |= v] and [*a &= ~m]; [*a = ( *a & ~m) | v]. *)
Definition set_bits (a v : Z) (r : regs) : regs := wr a (Z.lor (rd a r) v) r.
Definition clear_bits (a m : Z) (r : regs) : regs := wr a (Z.land (rd a r) (Z.lnot m)) r.
Definition set_field (a m v : Z) (r : regs) : regs := wr a (Z.lor (Z.land (rd a r) (Z.lnot m)) v) r.

Definition RCC_CR : Z := 0x58024400.
Definition RCC_CFGR : Z := 0x58024410.
Definition RCC_D1CFGR : Z := 0x58024418.
Definition RCC_D2CFGR : Z := 0x5802441C.
Definition RCC_D3CFGR : Z := 0x58024420.
Definition RCC_PLLCKSELR : Z := 0x58024428.
Definition RCC_PLLCFGR : Z := 0x5802442C.
Definition RCC_PLL1DIVR : Z := 0x58024430.
Definition RCC_D2CCIP2R : Z := 0x58024454.
Definition RCC_AHB2ENR : Z := 0x580244DC.
Definition RCC_AHB4ENR : Z := 0x580244E0.
Definition RCC_APB2ENR : Z := 0x580244F0.
Definition PWR_CSR1 : Z := 0x58024804.
Definition PWR_CR3 : Z := 0x5802480C.
Definition PWR_D3CR : Z := 0x58024818.
Definition GPIOA_MODER : Z := 0x58020000.
Definition GPIOA_OSPEEDR : Z := 0x58020008.
Definition GPIOA_AFRH : Z := 0x58020024.
Definition USART1_CR1 : Z := 0x40011000.
Definition USART1_BRR : Z := 0x4001100C.
Definition USART1_ISR : Z := 0x4001101C.
Definition USART1_TDR : Z := 0x40011028.
Definition DEMCR : Z := 0xE000EDFC.
Definition DWT_CTRL : Z := 0xE0001000.
Definition DWT_CYCCNT : Z := 0xE0001004.
Definition DWT_LAR : Z := 0xE0001FB0.
Definition SCB_CCR : Z := 0xE000ED14.
Definition SCB_ICIALLU : Z := 0xE000EF50.
Definition MPU_CTRL : Z := 0xE000ED94.
Definition MPU_RNR : Z := 0xE000ED98.
Definition MPU_RBAR : Z := 0xE000ED9C.
Definition MPU_RASR : Z := 0xE000EDA0.
Definition BAUD : Z := 115200.
Definition SHM_BASE : Z := 0x38000000.
Definition bit (n : Z) : Z := Z.shiftl 1 n.
Definition bits (v n : Z) : Z := Z.shiftl v n.

(** ** Straight-line set-up *)
Definition uart_init (r : regs) : regs :=
  let r := set_bits RCC_AHB4ENR 1 r in
  let r := set_bits RCC_APB2ENR (bit 4) r in
  let r := set_field GPIOA_MODER (Z.lor (bits 3 18) (bits 3 20)) (Z.lor (bits 2 18) (bits 2 20)) r in
  let r := set_bits GPIOA_OSPEEDR (Z.lor (bits 3 18) (bits 3 20)) r in
  let r := set_field GPIOA_AFRH (Z.lor (bits 15 4) (bits 15 8)) (Z.lor (bits 7 4) (bits 7 8)) r in
  let r := set_field RCC_D2CCIP2R (bits 7 3) (bits 3 3) r in
  let r := wr USART1_CR1 0 r in
  let r := wr USART1_BRR (64000000 / BAUD) r in
  wr USART1_CR1 (Z.lor (Z.lor (bit 3) (bit 2)) 1) r.
(** Whether the profile counters exist ([dwt_prf]), and the registers. *)
Definition dwt_prof_init (r : regs) : bool * regs :=
  let dwt_prf := Z.land (rd DWT_CTRL r) (bit 24) =? 0 in
  (dwt_prf, if dwt_prf then set_bits DWT_CTRL (bits 31 17) r else r).
(** The M7's writes the lock access register too. *)
Definition dwt_init (core_m7 : bool) (r : regs) : bool * regs :=
  let r := set_bits DEMCR (bit 24) r in
  let r := if core_m7 then wr DWT_LAR 0xC5ACCE55 r else r in
  let r := wr DWT_CYCCNT 0 r in
  let r := set_bits DWT_CTRL 1 r in
  dwt_prof_init r.
Definition icache_enable (r : regs) : regs := set_bits SCB_CCR (bit 17) (wr SCB_ICIALLU 0 r).
(** [mpu_region] on the registers; a region is remembered by its number. *)
Definition write_region (reg : Z * Z * Z) (rs : gmap Z (Z * Z)) (r : regs) : gmap Z (Z * Z) * regs :=
  let '(n, base, rasr) := reg in (<[n := (base, rasr)]> rs, wr MPU_RASR rasr (wr MPU_RBAR base (wr MPU_RNR n r))).
Definition mpu_init (rs : gmap Z (Z * Z)) (r : regs) : gmap Z (Z * Z) * regs :=
  let '(rs, r) := write_region (mpu_region 0 SHM_BASE 16 MPU_ATTR_NONCACHE true) rs r in
  let '(rs, r) := write_region (mpu_region 2 HEAP_BASE 19 MPU_ATTR_NONCACHE false) rs r in
  (rs, wr MPU_CTRL (Z.lor 1 (bit 2)) r).

Definition SCB_CCSIDR : Z := 0xE000ED80.
Definition SCB_CSSELR : Z := 0xE000ED84.
Definition SCB_DCISW : Z := 0xE000EF60.
Definition SCB_DCCISW : Z := 0xE000EF74.
(** [dcache_set_way(op)]: every set and way is written to [op]. *)
Definition sweep_dcache (op : Z) (r : regs) : regs :=
  let r := wr SCB_CSSELR 0 r in foldl (λ r v, wr op v r) r (dcache_set_way (rd SCB_CCSIDR r)).
Definition dcache_enable (r : regs) : regs := set_bits SCB_CCR (bit 16) (sweep_dcache SCB_DCISW r).
Definition dcache_disable (r : regs) : regs := sweep_dcache SCB_DCCISW (clear_bits SCB_CCR (bit 16) r).
Definition cache_on (r : regs) : bool := Z.testbit (rd SCB_CCR r) 16.

(** ** Clocks and supply: loops on status bits *)
Section Waits.
Context (settle : regs → regs).
(** [while (!ready) {}]: the hardware settles between two readings. *)
Fixpoint wait_for (fuel : nat) (ready : regs → bool) (r : regs) : option regs :=
  if ready r then Some r else match fuel with O => None | S fuel => wait_for fuel ready (settle r) end.
Definition clock_hsi (fuel : nat) (r : regs) : option regs :=
  r ← wait_for fuel (λ r, Z.land (rd RCC_CFGR r) (bits 7 3) =? 0) (clear_bits RCC_CFGR 7 r);
  wait_for fuel (λ r, Z.land (rd RCC_CR r) (bit 25) =? 0) (clear_bits RCC_CR (bit 24) r).
(** The dividers and the multiplier [clock_pll] writes once on the HSI. *)
Definition pll_fields (n hpre ppre : Z) (r : regs) : regs :=
  let r := set_field RCC_D1CFGR (Z.lor 15 (bits 7 4)) (Z.lor hpre (ppre <<w 4)) r in
  let r := set_field RCC_D2CFGR (Z.lor (bits 7 4) (bits 7 8)) (Z.lor (ppre <<w 4) (ppre <<w 8)) r in
  let r := set_field RCC_D3CFGR (bits 7 4) (ppre <<w 4) r in
  let r := set_field RCC_PLLCKSELR (Z.lor (bits 63 4) 3) (bits 4 4) r in
  let r := set_field RCC_PLLCFGR 15 (Z.lor (bits 3 2) (bit 16)) r in
  wr RCC_PLL1DIVR (Z.lor (Z.lor (Z.lor (n -w 1) (bit 9)) (bit 16)) (bit 24)) r.
Definition clock_pll (fuel : nat) (n hpre ppre : Z) (r : regs) : option regs :=
  r ← clock_hsi fuel r;
  let r := pll_fields n hpre ppre r in
  r ← wait_for fuel (λ r, negb (Z.land (rd RCC_CR r) (bit 25) =? 0)) (set_bits RCC_CR (bit 24) r);
  wait_for fuel (λ r, Z.land (rd RCC_CFGR r) (bits 7 3) =? bits 3 3) (set_field RCC_CFGR 7 3 r).
Definition power_vos1 (fuel : nat) (r : regs) : option regs :=
  r ← wait_for fuel (λ r, negb (Z.land (rd PWR_CSR1 r) (bit 13) =? 0)) (set_field PWR_CR3 63 (bit 2) r);
  wait_for fuel (λ r, negb (Z.land (rd PWR_D3CR r) (bit 13) =? 0)) (set_field PWR_D3CR (bits 3 14) (bits 3 14) r).
(** [out_putc] on the M7: wait for the empty transmit register, then write. *)
Definition uart_putc (fuel : nat) (c : Z) (r : regs) : option regs :=
  r ← wait_for fuel (λ r, negb (Z.land (rd USART1_ISR r) (bit 7) =? 0)) r; Some (wr USART1_TDR c r).
End Waits.

(** ** What the code relies on *)
(** The status bits of a register: what the hardware writes by itself. *)
Definition status (a : Z) : Z :=
  if a =? RCC_CR then bit 25 else if a =? RCC_CFGR then bits 7 3
  else if a =? PWR_CSR1 then bit 13 else if a =? PWR_D3CR then bit 13 else if a =? USART1_ISR then bit 7 else 0.
(** Within [delay] readings the PLL's ready bit follows its enable bit, the clock
    switch's status its request, and the supply and the transmitter are ready;
    nothing but status bits changes. *)
Class BoardLaws (settle : regs → regs) (delay : nat) := {
  settle_keeps a r : Z.land (rd a (settle r)) (Z.lnot (status a)) = Z.land (rd a r) (Z.lnot (status a));
  pll_follows r : Z.testbit (rd RCC_CR (Nat.iter delay settle r)) 25 = Z.testbit (rd RCC_CR r) 24;
  switch_follows r : Z.land (rd RCC_CFGR (Nat.iter delay settle r)) (bits 7 3) = bits (Z.land (rd RCC_CFGR r) 7) 3;
  supply_ready r : Z.testbit (rd PWR_CSR1 (Nat.iter delay settle r)) 13 = true;
  voltage_ready r : Z.testbit (rd PWR_D3CR (Nat.iter delay settle r)) 13 = true;
  transmitter_ready r : Z.testbit (rd USART1_ISR (Nat.iter delay settle r)) 7 = true;
}.

(** ** What the registers mean *)
Definition HSI_VALUE : Z := 64000000.
(** The system clock: PLL1 on the HSI, or the HSI itself. *)
Definition sysclk_of (r : regs) : Z :=
  if Z.land (rd RCC_CFGR r) 7 =? 3 then
    HSI_VALUE / Z.land (Z.shiftr (rd RCC_PLLCKSELR r) 4) 63 * (Z.land (rd RCC_PLL1DIVR r) 511 + 1)
    / (Z.land (Z.shiftr (rd RCC_PLL1DIVR r) 9) 127 + 1)
  else HSI_VALUE.
(** AHB and APB dividers: codes from 8 and from 4 on divide by powers of two. *)
Definition ahb_code (h : Z) : Z := if h <? 8 then 1 else if h <? 12 then 2 ^ (h - 7) else 2 ^ (h - 6).
Definition apb_code (p : Z) : Z := if p <? 4 then 1 else 2 ^ (p - 3).
Definition hclk_of (r : regs) : Z := sysclk_of r / ahb_code (Z.land (rd RCC_D1CFGR r) 15).
(** The four peripheral buses: APB3, APB1, APB2, APB4. *)
Definition pclks_of (r : regs) : list Z :=
  (λ f, hclk_of r / apb_code (Z.land f 7))
  <$> [Z.shiftr (rd RCC_D1CFGR r) 4; Z.shiftr (rd RCC_D2CFGR r) 4; Z.shiftr (rd RCC_D2CFGR r) 8; Z.shiftr (rd RCC_D3CFGR r) 4].

(** ** Registers and fields *)
Lemma rd_wr a b v r : rd a (wr b v r) = if decide (a = b) then u32 v else rd a r.
Proof. unfold rd, wr. case_decide; [subst; by rewrite lookup_insert_eq|by rewrite lookup_insert_ne]. Qed.
Lemma land_u32 y s : 0 <= s < 2 ^ 32 → Z.land (u32 y) s = Z.land y s.
Proof.
  intros Hs. unfold u32. rewrite <- Z.land_ones, <- Z.land_assoc, (Z.land_comm (Z.ones 32)), Z.land_ones, (Z.mod_small s) by lia. done.
Qed.
Lemma land_sub x y m s : Z.land x m = Z.land y m → Z.land m s = s → Z.land x s = Z.land y s.
Proof. intros Hm Hs. by rewrite <- Hs, !Z.land_assoc, Hm. Qed.
Lemma land_field x m v s : Z.land m s = s → Z.land (Z.lor (Z.land x (Z.lnot m)) v) s = Z.land v s.
Proof.
  intros Hs. rewrite Z.land_lor_distr_l. replace (Z.land (Z.land x (Z.lnot m)) s) with 0; [by rewrite Z.lor_0_l|].
  rewrite <- Hs, <- Z.land_assoc, (Z.land_assoc (Z.lnot m)), (Z.land_comm (Z.lnot m)), Z.land_lnot_diag, Z.land_0_l. by rewrite Z.land_0_r.
Qed.
Lemma shiftr_field x n m : 0 <= n → Z.land (Z.shiftr x n) m = Z.shiftr (Z.land x (Z.shiftl m n)) n.
Proof. intros Hn. by rewrite Z.shiftr_land, Z.shiftr_shiftl_l, Z.sub_diag, Z.shiftl_0_r by lia. Qed.
(** A field that [set_field] writes, and one of another register. *)
Lemma field_set a m v r s : Z.land m s = s → 0 <= s < 2 ^ 32 → Z.land (rd a (set_field a m v r)) s = Z.land v s.
Proof. intros Hm Hs. unfold set_field. rewrite rd_wr, decide_True, land_u32 by done. by apply land_field. Qed.
Lemma field_other a b m v r : a ≠ b → rd a (set_field b m v r) = rd a r.
Proof. intros Hne. unfold set_field. by rewrite rd_wr, decide_False. Qed.
Lemma testbit_land x n : 0 <= n → (Z.land x (bit n) =? 0) = negb (Z.testbit x n).
Proof. intros Hn. rewrite <- (land_pow2_testbit x n Hn). by rewrite negb_involutive. Qed.

(** ** The data cache *)
Lemma sweep_other op a r : a ≠ op → a ≠ SCB_CSSELR → rd a (sweep_dcache op r) = rd a r.
Proof.
  intros Ho Hc. unfold sweep_dcache. set (r0 := wr SCB_CSSELR 0 r). assert (rd a r0 = rd a r) as <- by (unfold r0; by rewrite rd_wr, decide_False).
  generalize (dcache_set_way (rd SCB_CCSIDR r0)). intros l. clearbody r0. revert r0. induction l as [|v l IH]; intros r0; [done|].
  cbn [foldl]. rewrite IH, rd_wr, decide_False; done.
Qed.
Lemma dcache_enable_spec r : cache_on (dcache_enable r) = true ∧ sysclk_of (dcache_enable r) = sysclk_of r.
Proof.
  split.
  - unfold cache_on, dcache_enable, set_bits. rewrite rd_wr, decide_True by done. rewrite <- (negb_involutive (Z.testbit _ 16)), <- testbit_land by lia.
    rewrite land_u32, Z.land_lor_distr_l by done. apply negb_true_iff, Z.eqb_neq. rewrite Z.lor_eq_0_iff. by intros [_ ?].
  - unfold sysclk_of, dcache_enable, set_bits. rewrite !rd_wr, !decide_False by done. by rewrite !sweep_other.
Qed.
Lemma dcache_disable_spec r : cache_on (dcache_disable r) = false ∧ sysclk_of (dcache_disable r) = sysclk_of r.
Proof.
  split.
  - unfold cache_on, dcache_disable, clear_bits. rewrite sweep_other, rd_wr, decide_True by done. rewrite <- (negb_involutive (Z.testbit _ 16)), <- testbit_land by lia.
    rewrite land_u32, <- Z.land_assoc by done. by rewrite Z.land_0_r.
  - unfold sysclk_of, dcache_disable, clear_bits. rewrite !sweep_other by done. by rewrite !rd_wr, !decide_False.
Qed.

Section Clocks.
Context (settle : regs → regs) (delay : nat) `{!BoardLaws settle delay}.

Lemma wait_for_ready n ready r :
  ready (Nat.iter n settle r) = true → ∃ k, (k <= n)%nat ∧ wait_for settle n ready r = Some (Nat.iter k settle r) ∧ ready (Nat.iter k settle r) = true.
Proof.
  revert r. induction n as [|n IH]; intros r Hr; cbn [wait_for].
  - exists 0%nat. cbn in *. by rewrite Hr.
  - destruct (ready r) eqn:H0; [exists 0%nat; split; [lia|]; by split|].
    destruct (IH (settle r)) as (k & Hk & He & Hrd); [by rewrite <- Nat.iter_succ_r|]. exists (S k). split; [lia|]. by rewrite Nat.iter_succ_r.
Qed.
Lemma iter_keeps k a r s :
  Z.land (Z.lnot (status a)) s = s → Z.land (rd a (Nat.iter k settle r)) s = Z.land (rd a r) s.
Proof.
  intros Hs. induction k as [|k IH]; [done|]. rewrite <- IH. cbn. by eapply land_sub; [apply settle_keeps|].
Qed.
Lemma iter_same k a r : status a = 0 → rd a (Nat.iter k settle r) = rd a r.
Proof.
  intros Hs. pose proof (iter_keeps k a r (-1)) as Hk. rewrite Hs in Hk. change (Z.lnot 0) with (-1) in Hk. rewrite !Z.land_m1_r in Hk. by apply Hk.
Qed.

(** Both waits of [clock_hsi] end, with the system clock on the HSI. *)
Lemma clock_hsi_ends r : ∃ r', clock_hsi settle delay r = Some r' ∧ sysclk_of r' = HSI_VALUE ∧ rd SCB_CCR r' = rd SCB_CCR r.
Proof using Type*.
  unfold clock_hsi. set (r0 := clear_bits RCC_CFGR 7 r).
  assert (Z.land (rd RCC_CFGR r0) 7 = 0) as H0.
  { unfold r0, clear_bits. rewrite rd_wr, decide_True, land_u32, <- Z.land_assoc by (done || lia). by rewrite Z.land_0_r. }
  destruct (wait_for_ready delay (λ r, Z.land (rd RCC_CFGR r) (bits 7 3) =? 0) r0) as (k & _ & -> & _).
  { by rewrite switch_follows, H0. }
  cbn [mbind option_bind]. set (r1 := clear_bits RCC_CR (bit 24) _).
  destruct (wait_for_ready delay (λ r, Z.land (rd RCC_CR r) (bit 25) =? 0) r1) as (k' & _ & -> & _).
  { rewrite testbit_land, pll_follows by lia. unfold r1, clear_bits. rewrite rd_wr, decide_True by done.
    rewrite <- (negb_involutive (Z.testbit _ 24)), <- testbit_land, land_u32, <- Z.land_assoc by (done || lia). by rewrite Z.land_0_r. }
  eexists. split; [done|]. split.
  - unfold sysclk_of. rewrite iter_keeps by done. unfold r1, clear_bits at 1. rewrite rd_wr, decide_False, iter_keeps by done. by rewrite H0.
  - rewrite iter_same by done. unfold r1, clear_bits at 1. rewrite rd_wr, decide_False, iter_same by done. unfold r0, clear_bits. by rewrite rd_wr, decide_False.
Qed.
(** The fields [pll_fields] leaves. *)
Lemma pll_fields_spec n hpre ppre r (r' := pll_fields n hpre ppre r) :
  1 <= n <= 512 → 0 <= hpre < 16 → 0 <= ppre < 8 →
  Z.land (rd RCC_PLLCKSELR r') 1011 = 64 ∧ Z.land (rd RCC_PLL1DIVR r') 65535 = 512 + (n - 1) ∧
  Z.land (rd RCC_D1CFGR r') 127 = Z.lor hpre (bits ppre 4) ∧ Z.land (rd RCC_D2CFGR r') 1904 = Z.lor (bits ppre 4) (bits ppre 8) ∧
  Z.land (rd RCC_D3CFGR r') 112 = bits ppre 4.
Proof.
  intros Hn Hh Hp. unfold r', pll_fields.
  assert (ppre <<w 4 = bits ppre 4 ∧ ppre <<w 8 = bits ppre 8) as [H4 H8].
  { unfold bits. by rewrite !u32_small by (unfold is_u32; rewrite Z.shiftl_mul_pow2 by lia; lia). }
  rewrite H4, H8, (u32_small (n - 1)) by (unfold is_u32; lia).
  assert (forallb (λ p, forallb (λ h, (Z.land (Z.lor h (bits p 4)) 127 =? Z.lor h (bits p 4))) (seqZ 0 16)
    && (Z.land (Z.lor (bits p 4) (bits p 8)) 1904 =? Z.lor (bits p 4) (bits p 8)) && (Z.land (bits p 4) 112 =? bits p 4)) (seqZ 0 8) = true) as Hall
    by (vm_compute; reflexivity).
  rewrite forallb_forall in Hall. specialize (Hall ppre). rewrite !andb_true_iff, forallb_forall in Hall. destruct Hall as [[Ha Hb] Hc].
  { apply list_elem_of_In, elem_of_seqZ. lia. }
  specialize (Ha hpre). apply Z.eqb_eq in Hb, Hc. split_and!.
  - rewrite rd_wr, decide_False, field_other, field_set by done. done.
  - rewrite rd_wr, decide_True, land_u32 by done. rewrite !Z.land_lor_distr_l.
    assert (Z.land (n - 1) 65535 = n - 1) as -> by (change 65535 with (Z.ones 16); rewrite Z.land_ones by lia; apply Z.mod_small; lia).
    change (Z.land (bit 9) 65535) with (1 * 2 ^ 9). change (Z.land (bit 16) 65535) with 0. change (Z.land (bit 24) 65535) with 0.
    rewrite !Z.lor_0_r, Z.lor_comm, lor_low by lia. lia.
  - rewrite rd_wr, decide_False, !field_other, field_set by done. apply Z.eqb_eq, Ha. apply list_elem_of_In, elem_of_seqZ. lia.
  - rewrite rd_wr, decide_False, !field_other, field_set by done. done.
  - rewrite rd_wr, decide_False, !field_other, field_set by done. done.
Qed.
Lemma field_of x m v n w : 0 <= n → Z.land x m = v → Z.land m (Z.shiftl w n) = Z.shiftl w n → Z.land (Z.shiftr x n) w = Z.land (Z.shiftr v n) w.
Proof. intros Hn <- Hm. rewrite (shiftr_field x), (shiftr_field (Z.land x m)) by done. by rewrite <- Z.land_assoc, Hm. Qed.
Lemma field_low x m v w : Z.land x m = v → Z.land m w = w → Z.land x w = Z.land v w.
Proof. intros <- Hm. by rewrite <- Z.land_assoc, Hm. Qed.
(** The codes read back from the fields, checked for all of them. *)
Lemma codes_read hpre ppre :
  0 <= hpre < 16 → 0 <= ppre < 8 →
  Z.land (Z.lor hpre (bits ppre 4)) 15 = hpre ∧ Z.land (Z.shiftr (Z.lor hpre (bits ppre 4)) 4) 7 = ppre ∧
  Z.land (Z.shiftr (Z.lor (bits ppre 4) (bits ppre 8)) 4) 7 = ppre ∧ Z.land (Z.shiftr (Z.lor (bits ppre 4) (bits ppre 8)) 8) 7 = ppre ∧
  Z.land (Z.shiftr (bits ppre 4) 4) 7 = ppre.
Proof.
  intros Hh Hp. assert (forallb (λ p, forallb (λ h, (Z.land (Z.lor h (bits p 4)) 15 =? h) && (Z.land (Z.shiftr (Z.lor h (bits p 4)) 4) 7 =? p)
    && (Z.land (Z.shiftr (Z.lor (bits p 4) (bits p 8)) 4) 7 =? p) && (Z.land (Z.shiftr (Z.lor (bits p 4) (bits p 8)) 8) 7 =? p)
    && (Z.land (Z.shiftr (bits p 4) 4) 7 =? p)) (seqZ 0 16)) (seqZ 0 8) = true) as Hall by (vm_compute; reflexivity).
  rewrite forallb_forall in Hall. specialize (Hall ppre). rewrite forallb_forall in Hall.
  assert (∀ x n, 0 <= x < n → In x (seqZ 0 n)) as Hin by (intros x n Hx; apply list_elem_of_In, elem_of_seqZ; lia).
  specialize (Hall (Hin _ _ Hp) hpre (Hin _ _ Hh)). bool_facts. done.
Qed.

(** [clock_pll] returns, whatever the registers held, within the readings the
    hardware needs, and leaves the clocks it is asked for: PLL1 on the 64 MHz HSI
    gives [8 n] MHz, divided by the AHB code and on the four peripheral buses by
    the APB code. *)
Lemma clock_pll_sets r n hpre ppre :
  1 <= n <= 512 → 0 <= hpre < 16 → 0 <= ppre < 8 →
  ∃ r', clock_pll settle delay n hpre ppre r = Some r' ∧
    sysclk_of r' = 8000000 * n ∧ hclk_of r' = 8000000 * n / ahb_code hpre ∧
    pclks_of r' = replicate 4 (8000000 * n / ahb_code hpre / apb_code ppre) ∧ Z.land (rd RCC_PLLCKSELR r') 3 = 0 ∧
    cache_on r' = cache_on r.
Proof using Type*.
  intros Hn Hh Hp. unfold clock_pll. destruct (clock_hsi_ends r) as (r0 & -> & _ & Hccr). cbn [mbind option_bind].
  destruct (pll_fields_spec n hpre ppre r0 Hn Hh Hp) as (Hck & Hdiv & Hd1 & Hd2 & Hd3). destruct (codes_read hpre ppre Hh Hp) as (C1 & C2 & C3 & C4 & C5).
  set (r1 := pll_fields n hpre ppre r0) in *.
  destruct (wait_for_ready delay (λ r, negb (Z.land (rd RCC_CR r) (bit 25) =? 0)) (set_bits RCC_CR (bit 24) r1)) as (k & _ & -> & _).
  { rewrite testbit_land, negb_involutive, pll_follows by lia. unfold set_bits. rewrite rd_wr, decide_True by done.
    rewrite <- (negb_involutive (Z.testbit _ 24)), <- testbit_land, land_u32 by (done || lia). rewrite Z.land_lor_distr_l.
    apply negb_true_iff, Z.eqb_neq. rewrite Z.lor_eq_0_iff. by intros [_ ?]. }
  cbn [mbind option_bind]. set (r2 := Nat.iter k settle _).
  assert (Z.land (rd RCC_CFGR (set_field RCC_CFGR 7 3 r2)) 7 = 3) as Hsw by (by rewrite field_set).
  destruct (wait_for_ready delay (λ r, Z.land (rd RCC_CFGR r) (bits 7 3) =? bits 3 3) (set_field RCC_CFGR 7 3 r2)) as (k' & _ & -> & _).
  { by rewrite switch_follows, Hsw. }
  eexists. split; [done|].
  assert (∀ a, status a = 0 → a ≠ RCC_CR → a ≠ RCC_CFGR → rd a (Nat.iter k' settle (set_field RCC_CFGR 7 3 r2)) = rd a r1) as Hsame.
  { intros a Ha Hc Hf. rewrite iter_same, field_other by done. unfold r2. rewrite iter_same by done. unfold set_bits. by rewrite rd_wr, decide_False. }
  assert (sysclk_of (Nat.iter k' settle (set_field RCC_CFGR 7 3 r2)) = 8000000 * n) as Hsys.
  { unfold sysclk_of. rewrite iter_keeps, Hsw by done. cbn [Z.eqb Pos.eqb]. rewrite !Hsame by done.
    rewrite (field_of _ _ _ 4 63 ltac:(lia) Hck eq_refl), (field_of _ _ _ 9 127 ltac:(lia) Hdiv eq_refl).
    rewrite (field_low _ _ _ 511 Hdiv eq_refl).
    change (Z.land (Z.shiftr 64 4) 63) with 4. rewrite Z.shiftr_div_pow2 by lia. change 511 with (Z.ones 9). change 127 with (Z.ones 7). rewrite !Z.land_ones by lia.
    replace (512 + (n - 1)) with ((n - 1) + 1 * 2 ^ 9) by lia. rewrite Z.mod_add, Z.div_add, Z.mod_small, (Z.div_small (n - 1)) by lia.
    change ((0 + 1) mod 2 ^ 7 + 1) with 2. change (HSI_VALUE / 4) with (8000000 * 2). replace (8000000 * 2 * (n - 1 + 1)) with (8000000 * n * 2) by lia.
    by rewrite Z.div_mul. }
  unfold hclk_of, pclks_of, hclk_of. rewrite Hsys, !Hsame by done.
  rewrite (field_low _ _ _ 15 Hd1 eq_refl), C1. split; [done|]. split; [done|]. split;
    [|split; [by rewrite (field_low _ _ _ 3 Hck eq_refl)|unfold cache_on; rewrite Hsame by done; unfold r1, pll_fields; by rewrite rd_wr, decide_False, !field_other by done; rewrite Hccr]].
  cbn [fmap list_fmap].
  rewrite (field_of _ _ _ 4 7 ltac:(lia) Hd1 eq_refl), (field_of _ _ _ 4 7 ltac:(lia) Hd2 eq_refl), (field_of _ _ _ 8 7 ltac:(lia) Hd2 eq_refl),
    (field_of _ _ _ 4 7 ltac:(lia) Hd3 eq_refl), C2, C3, C4, C5. done.
Qed.
(** The supply ends ready, with the direct SMPS and voltage scale 1 selected. *)
Lemma power_vos1_ends r :
  ∃ r', power_vos1 settle delay r = Some r' ∧ Z.land (rd PWR_CR3 r') 63 = bit 2 ∧ Z.land (rd PWR_D3CR r') (bits 3 14) = bits 3 14 ∧
    cache_on r' = cache_on r.
Proof using Type*.
  unfold power_vos1.
  destruct (wait_for_ready delay (λ r, negb (Z.land (rd PWR_CSR1 r) (bit 13) =? 0)) (set_field PWR_CR3 63 (bit 2) r)) as (k & _ & -> & _).
  { by rewrite testbit_land, negb_involutive, supply_ready by lia. }
  cbn [mbind option_bind]. set (r1 := Nat.iter k settle _).
  destruct (wait_for_ready delay (λ r, negb (Z.land (rd PWR_D3CR r) (bit 13) =? 0)) (set_field PWR_D3CR (bits 3 14) (bits 3 14) r1)) as (k' & _ & -> & _).
  { by rewrite testbit_land, negb_involutive, voltage_ready by lia. }
  eexists. split; [done|]. split.
  - rewrite iter_same, field_other by done. unfold r1. by rewrite iter_same, field_set.
  - rewrite iter_keeps, field_set by done. split; [done|]. unfold cache_on. rewrite iter_same, field_other by done. unfold r1.
    by rewrite iter_same, field_other.
Qed.
(** A character reaches the transmit register. *)
Lemma uart_putc_sends c r : 0 <= c < 256 → ∃ r', uart_putc settle delay c r = Some r' ∧ rd USART1_TDR r' = c.
Proof using Type*.
  intros Hc. unfold uart_putc. destruct (wait_for_ready delay (λ r, negb (Z.land (rd USART1_ISR r) (bit 7) =? 0)) r) as (k & _ & -> & _).
  { by rewrite testbit_land, negb_involutive, transmitter_ready by lia. }
  cbn [mbind option_bind]. eexists. split; [done|]. rewrite rd_wr, decide_True by done. apply u32_small. unfold is_u32. lia.
Qed.
End Clocks.

(** ** A board that settles at once *)
Definition follow (a m v : Z) (r : regs) : regs := <[a := Z.lor (Z.land (rd a r) (Z.lnot m)) v]> r.
Definition settle_now (r : regs) : regs :=
  let r := follow RCC_CR (bit 25) (if Z.testbit (rd RCC_CR r) 24 then bit 25 else 0) r in
  let r := follow RCC_CFGR (bits 7 3) (bits (Z.land (rd RCC_CFGR r) 7) 3) r in
  let r := follow PWR_CSR1 (bit 13) (bit 13) r in
  let r := follow PWR_D3CR (bit 13) (bit 13) r in
  follow USART1_ISR (bit 7) (bit 7) r.
Lemma rd_follow a b m v r : rd a (follow b m v r) = if decide (a = b) then Z.lor (Z.land (rd a r) (Z.lnot m)) v else rd a r.
Proof. unfold follow, rd at 1. case_decide; [subst; by rewrite lookup_insert_eq|by rewrite lookup_insert_ne]. Qed.
Lemma follow_keeps x m v : Z.land v (Z.lnot m) = 0 → Z.land (Z.lor (Z.land x (Z.lnot m)) v) (Z.lnot m) = Z.land x (Z.lnot m).
Proof. intros Hv. by rewrite Z.land_lor_distr_l, Hv, Z.lor_0_r, <- Z.land_assoc, Z.land_diag. Qed.
Ltac read_settled :=
  intros r; change (Nat.iter 1 settle_now r) with (settle_now r); unfold settle_now; cbv zeta; rewrite !rd_follow; repeat case_decide; try done.
#[export] Instance settle_now_laws : BoardLaws settle_now 1.
Proof.
  split; [| | |read_settled; by rewrite Z.lor_spec, orb_true_r..].
  - intros a r. unfold settle_now. cbv zeta. rewrite !rd_follow.
    assert (∀ x, Z.land (Z.land x 7) (-8) = 0) as Hlow by (intros x; by rewrite <- Z.land_assoc, Z.land_0_r).
    repeat case_decide; subst; try done.
    + by apply follow_keeps.
    + by apply follow_keeps.
    + by apply follow_keeps.
    + cbn [status]. change (status RCC_CFGR) with (bits 7 3). apply follow_keeps. unfold bits.
      change (Z.lnot (Z.shiftl 7 3)) with (Z.lor (Z.shiftl (-8) 3) 7). rewrite Z.land_lor_distr_r, <- Z.shiftl_land, Hlow, Z.shiftl_0_l, Z.lor_0_l.
      change 7 with (Z.ones 3) at 2. rewrite Z.land_ones, Z.shiftl_mul_pow2, Z.mod_mul by lia. done.
    + change (status RCC_CR) with (bit 25). apply follow_keeps. by destruct (Z.testbit _ 24).
  - read_settled.
    rewrite Z.lor_spec, Z.land_spec. change (Z.testbit (Z.lnot (bit 25)) 25) with false. rewrite andb_false_r. by destruct (Z.testbit (rd RCC_CR r) 24).
  - read_settled. rewrite land_field by done.
    unfold bits. rewrite <- Z.shiftl_land, <- Z.land_assoc. done.
Qed.
(** The two calls of [main] give the clocks its [INFO] lines name. *)
Example main_clocks :
  (∃ r, clock_pll settle_now 1 20 8 0 ∅ = Some r ∧ sysclk_of r = 160000000 ∧ hclk_of r = 80000000) ∧
  (∃ r, clock_pll settle_now 1 50 8 4 ∅ = Some r ∧ sysclk_of r = 400000000 ∧ hclk_of r = 200000000 ∧ pclks_of r = replicate 4 100000000).
Proof.
  split.
  - destruct (clock_pll_sets settle_now 1 ∅ 20 8 0) as (r & Hr & Hs & Hh & _); [lia..|]. by exists r.
  - destruct (clock_pll_sets settle_now 1 ∅ 50 8 4) as (r & Hr & Hs & Hh & Hp & _); [lia..|]. by exists r.
Qed.
