(* ===== verification/HarnessRun.v ===== *)
(** * The fixture runs of the harness's main program

    Model of [run_fixtures], of the DWT-profiled fixtures and of [main] (M7
    build) of [src/integrations/stm32h747/main.c] up to the interrupt arms: set-up,
    calibration, six runs of the fixtures at three clocks with the data cache off
    and on.  A run is a computation in [HM], whose state counts the readings
    taken of the cycle counter, the profile counters and the heap (the readings
    are functions of their position, an [env]) and holds the registers, the
    variable [sysclk_hz] and the lines printed, each with the registers it was
    printed under.  The structures get the memory they ask for. *)
From Stdlib Require Import String Ascii.
From stdpp Require Import base numbers list sorting gmap.
From S2P Require Import Prelude SortedAssoc ExpanseApi Alts SortedArray OpenHash TSearch AltFixtures HarnessOut HarnessBoard.
Open Scope Z_scope.
Abbreviation length := List.length.

Definition SCB_CPUID : Z := 0xE000ED00.
Definition DBGMCU_IDCODE : Z := 0x5C001000.

(** ** Lines *)
Inductive line :=
  | Puts (s : string)  (** a fixed text, without its line end *)
  | Result (name impl : string) (dcache pass cycles ops : Z)
  | Dwt (fixture impl : string) (dcache pass : Z) (p : dwt_prof) (ops : Z)
  | Bytes (impl shape : string) (keys heap_bytes req_bytes : Z)
  | Banner (cpuid idcode pwr_cr3 ccsidr headroom : Z) (dwt_prf : bool)
  | Layout (pre gap lib_start gap_start harness_start map_get fx_can fx_can_dwt : Z).
(** The numbers of a line; each is a [uint32_t]. *)
Definition prof_nums (p : dwt_prof) : list Z :=
  [d_cycles p; d_cpi p; d_exc p; d_sleep p; d_lsu p; d_fold p; d_cpi_max p; d_lsu_max p; d_suspect p].
Definition line_nums (l : line) : list Z :=
  match l with
  | Puts _ => []
  | Result _ _ dcache pass cycles ops => [dcache; pass; cycles; ops]
  | Dwt _ _ dcache pass p ops => [dcache; pass; ops] ++ prof_nums p
  | Bytes _ _ keys heap_bytes req_bytes => [keys; heap_bytes; req_bytes]
  | Banner cpuid idcode pwr_cr3 ccsidr headroom _ => [cpuid; idcode; pwr_cr3; ccsidr; headroom]
  | Layout pre gap lib_start gap_start harness_start map_get fx_can fx_can_dwt =>
      [pre; gap; lib_start; gap_start; harness_start; map_get; fx_can; fx_can_dwt]
  end.
Definition line_ok (l : line) : Prop := Forall is_u32 (line_nums l).
Section Render.
Context (CORE_NAME : string) (sysclk_hz : Z).
Definition result_dwt (fixture impl : string) (dcache pass : Z) (p : dwt_prof) (ops : Z) : option (list Z) :=
  n ← kvs [("sysclk", sysclk_hz); ("dcache", dcache); ("pass", pass); ("ops", ops);
           ("cycles", d_cycles p); ("cpi", d_cpi p); ("exc", d_exc p); ("sleep", d_sleep p); ("lsu", d_lsu p); ("fold", d_fold p);
           ("cpi_max", d_cpi_max p); ("lsu_max", d_lsu_max p); ("suspect", d_suspect p)]%string;
  Some (chars "RESULT name=dwt" ++ ks "fixture" fixture ++ ks "impl" impl ++ ks "core" CORE_NAME ++ n ++ crlf).
(** [banner]; the M4's leaves out the M7's part. *)
Definition banner_text (core_m7 : bool) (cpuid idcode pwr_cr3 ccsidr headroom : Z) (dwt_prf : bool) : option (list Z) :=
  id ← uart_hex cpuid; idc ← uart_hex idcode; cr3 ← uart_hex pwr_cr3;
  cache ← kvs [("dcache_line_bytes", Z.shiftl 1 (Z.land ccsidr 7 + 4)); ("dcache_ways", Z.land (Z.shiftr ccsidr 3) 1023 + 1);
               ("dcache_sets", Z.land (Z.shiftr ccsidr 13) 32767 + 1)]%string;
  n ← kvs [("sync32_headroom", headroom); ("dwt_prfcnt", Z.b2z dwt_prf)]%string;
  Some (crlf ++ chars "EXPANSE stm32h747 " ++ chars CORE_NAME ++ chars " harness" ++ crlf ++
        chars "INFO core=" ++ chars CORE_NAME ++ chars " cpuid=" ++ id ++
        (if core_m7 then chars " idcode=" ++ idc ++ chars " pwr_cr3=" ++ cr3 ++ cache else []) ++ n ++ crlf).
(** The characters of a line of the M7. *)
Definition render (l : line) : option (list Z) :=
  match l with
  | Puts s => Some (chars s ++ crlf)
  | Result name impl dcache pass cycles ops => result CORE_NAME sysclk_hz name impl dcache pass cycles ops
  | Dwt fixture impl dcache pass p ops => result_dwt fixture impl dcache pass p ops
  | Bytes impl shape keys heap_bytes req_bytes =>
      n ← kvs [("keys", keys); ("heap_bytes", heap_bytes); ("req_bytes", req_bytes)]%string;
      Some (chars "RESULT name=bytes" ++ ks "impl" impl ++ ks "core" CORE_NAME ++ ks "shape" shape ++ n ++ crlf)
  | Banner cpuid idcode pwr_cr3 ccsidr headroom dwt_prf => banner_text true cpuid idcode pwr_cr3 ccsidr headroom dwt_prf
  | Layout pre gap lib_start gap_start harness_start map_get fx_can fx_can_dwt =>
      p ← uart_u32 pre; g ← uart_u32 gap; a ← uart_hex lib_start; b ← uart_hex gap_start; c ← uart_hex harness_start;
      d ← uart_hex map_get; x ← uart_hex fx_can; y ← uart_hex fx_can_dwt;
      Some (chars "INFO layout pre=" ++ p ++ chars " gap=" ++ g ++ chars " lib_start=" ++ a ++ chars " gap_start=" ++ b ++
            chars " harness_start=" ++ c ++ chars " expanse_map_get=" ++ d ++ chars " fx_can=" ++ x ++ chars " fx_can_dwt=" ++ y ++ crlf)
  end.
End Render.

(** ** Instruments *)
Record env := Env { e_cyc : nat → Z; e_snap : nat → dwt_snap; e_heap : nat → Z; e_live : nat → Z }.
Record entry := Entry { en_line : line; en_sysclk : Z; en_regs : regs }.
Record hst := Hst { h_cyc : nat; h_snap : nat; h_heap : nat; h_regs : regs; h_sysclk : Z; h_log : list entry }.
Definition HM (A : Type) : Type := hst → option (A * hst).
#[global] Instance hm_ret : MRet HM := λ A x h, Some (x, h).
#[global] Instance hm_bind : MBind HM := λ A B f m h, match m h with Some (x, h) => f x h | None => None end.
Definition from {A} (o : option A) : HM A := λ h, match o with Some x => Some (x, h) | None => None end.
Definition say (l : line) : HM unit := λ h,
  Some (tt, Hst (h_cyc h) (h_snap h) (h_heap h) (h_regs h) (h_sysclk h) (h_log h ++ [Entry l (h_sysclk h) (h_regs h)])).
Definition on_regs (f : regs → option regs) : HM unit := λ h,
  match f (h_regs h) with Some r => Some (tt, Hst (h_cyc h) (h_snap h) (h_heap h) r (h_sysclk h) (h_log h)) | None => None end.
Definition set_sysclk (v : Z) : HM unit := λ h, Some (tt, Hst (h_cyc h) (h_snap h) (h_heap h) (h_regs h) v (h_log h)).
Definition when (b : bool) (m : HM unit) : HM unit := if b then m else mret tt.
(** [for (p = 0; p < n; p++)]: [n] rounds from [p]. *)
Fixpoint rounds (n : nat) (p : Z) (body : Z → HM unit) : HM unit :=
  match n with O => mret tt | S n => body p;; rounds n (p + 1) body end.

Section Run.
Context (e : env).
Definition cyc : HM Z := λ h, Some (u32 (e_cyc e (h_cyc h)), Hst (S (h_cyc h)) (h_snap h) (h_heap h) (h_regs h) (h_sysclk h) (h_log h)).
Definition snap : HM dwt_snap := λ h, Some (e_snap e (h_snap h), Hst (h_cyc h) (S (h_snap h)) (h_heap h) (h_regs h) (h_sysclk h) (h_log h)).
(** [heap_in_use()] and [acct_live()], read together. *)
Definition heap_now : HM (Z * Z) := λ h,
  Some ((e_heap e (h_heap h), e_live e (h_heap h)), Hst (h_cyc h) (h_snap h) (S (h_heap h)) (h_regs h) (h_sysclk h) (h_log h)).
Definition PASSES : nat := 5.
Definition prof0 : dwt_prof := DwtProf 0 0 0 0 0 0 0 0 0.

(** [n] empty windows. *)
Fixpoint nop_loop (n : nat) (p : dwt_prof) : HM dwt_prof :=
  match n with O => mret p | S n => a ← snap; b ← snap; nop_loop n (dwt_acc p a b) end.
Definition fx_nop_dwt : HM dwt_prof := nop_loop N_CAN prof0.

Section Impl.
Context {A : Type} `{!AltOps A} (name : string) (dcache : Z).
Fixpoint can_dwt_loop (n : nat) (i sum : Z) (p : dwt_prof) (m : A) : HM (Z * dwt_prof) :=
  match n with
  | O => mret (sum, p)
  | S n =>
      a ← snap;
      r ← from (alt_get m (can_key i));
      b ← snap;
      can_dwt_loop n (i + 1) (match r with Some v => sum +w v | None => sum end) (dwt_acc p a b) m
  end.
Definition fx_can_dwt (m : A) : HM dwt_prof :=
  '(sum, p) ← can_dwt_loop N_CAN 0 0 prof0 m;
  when (negb (sum =? Z.of_nat N_CAN * (Z.of_nat N_CAN - 1) / 2)) (say (Puts "CHECK can sum (dwt)"));;
  mret p.
Fixpoint ingest_dwt_loop (n : nat) (i : Z) (p : dwt_prof) (m : A) : HM (A * dwt_prof) :=
  match n with
  | O => mret (m, p)
  | S n =>
      a ← snap;
      m ← from (alt_insert m (1700000000 +w i) 42);
      b ← snap;
      ingest_dwt_loop n (i + 1) (dwt_acc p a b) m
  end.
Definition fx_ingest_dwt : HM dwt_prof :=
  m ← from (alt_create (Z.of_nat N_INGEST));
  '(m, p) ← ingest_dwt_loop N_INGEST 0 prof0 m;
  last ← from (alt_get m (1700000000 + Z.of_nat N_INGEST - 1));
  when (match last with Some v => negb (v =? 42) | None => true end) (say (Puts "CHECK ingest (dwt)"));;
  mret p.
(** The timed fixtures: cycles, and for the first pass the bytes it took. *)
Definition timed_ingest (first : bool) : HM (Z * Z * Z) :=
  '(h0, r0) ← heap_now;
  t0 ← cyc; t1 ← cyc;
  '(t, bad) ← from (fx_ingest (A := A) t0 t1);
  '(hd, rd) ← (if first then '(h1, r1) ← heap_now; mret (h1 -w h0, r1 -w r0) else mret (0, 0));
  when bad (say (Puts "CHECK ingest"));;
  mret (t, hd, rd).
Definition timed_can (m : A) : HM Z :=
  t0 ← cyc; t1 ← cyc;
  '(t, bad) ← from (fx_can m t0 t1);
  when bad (say (Puts "CHECK can sum"));; mret t.
(** The two [CHECK] lines at the end of [fx_evict]. *)
Definition evict_check (by_mac : A) : HM unit :=
  last ← from (alt_get by_mac (mac_key (Z.of_nat N_BLE - 1)));
  when (match last with Some v => negb (v =? Z.of_nat N_BLE - 1) | None => true end) (say (Puts "CHECK evict survivor"));;
  first ← from (alt_get by_mac (mac_key 0));
  when (match first with Some _ => true | None => false end) (say (Puts "CHECK evict expired still present")).
(** The eviction rows of one mode: [ev] is the timed eviction. *)
Definition evict_rows (fixture : string) (ev : HM (Z * Z)) : HM unit :=
  rounds PASSES 0 (λ p, '(t, evicted) ← ev; say (Result fixture name dcache p t evicted)).
(** The body of [for (k ...)] without the eviction rows; [ble] builds the two
    BLE indices whose bytes are reported. *)
Definition fixture_rows (dwt_prf report_bytes : bool) (ble : option A) : HM unit :=
  '(t, hd, rd) ← timed_ingest true;
  say (Result "ingest" name dcache 0 t (Z.of_nat N_INGEST));;
  rounds (PASSES - 1) 1 (λ p, '(t, _, _) ← timed_ingest false; say (Result "ingest" name dcache p t (Z.of_nat N_INGEST)));;
  when dwt_prf (rounds PASSES 0 (λ p, prof ← fx_ingest_dwt; say (Dwt "ingest" name dcache p prof (Z.of_nat N_INGEST))));;
  when report_bytes (say (Bytes name "ingest" (Z.of_nat N_INGEST) hd rd));;
  can ← from can_table;
  rounds PASSES 0 (λ p, t ← timed_can can; say (Result "can_dispatch" name dcache p t (Z.of_nat N_CAN)));;
  when dwt_prf (rounds PASSES 0 (λ p, prof ← fx_can_dwt can; say (Dwt "can_dispatch" name dcache p prof (Z.of_nat N_CAN))));;
  when report_bytes (
    '(h0, r0) ← heap_now;
    from ble;;
    '(h1, r1) ← heap_now;
    say (Bytes name "ble_index" (Z.of_nat N_BLE) (h1 -w h0) (r1 -w r0))).
End Impl.

(** ** Ordered structures *)
Section Ordered.
Context (A : Type) `{!AltOps A, !AltOrdered A} (name : string) (dcache : Z).
Definition timed_evict (seen : Z → Z) (range_mode : bool) : HM (Z * Z) :=
  '(by_mac, by_time) ← from (ble_build (A := A) seen);
  t0 ← cyc;
  '(by_mac, by_time, evicted) ← from (if range_mode then evict_range by_mac by_time else evict_loop (S N_BLE) by_mac by_time 0);
  t1 ← cyc;
  evict_check by_mac;;
  mret (t1 -w t0, evicted).
Definition run_ordered (dwt_prf report_bytes : bool) : HM unit :=
  fixture_rows (A := A) name dcache dwt_prf report_bytes (fst <$> ble_build seen_bulk);;
  evict_rows name dcache "evict_bulk_loop" (timed_evict seen_bulk false);;
  evict_rows name dcache "evict_bulk_range" (timed_evict seen_bulk true);;
  evict_rows name dcache "evict_steady_loop" (timed_evict seen_steady false);;
  evict_rows name dcache "evict_steady_range" (timed_evict seen_steady true).
End Ordered.

(** ** The hash: one index, evicted by a scan *)
#[export] Instance oh_ops : AltOps ohash := {
  alt_create c := (oh_create (true, true, true) c (Acct 0 0)).1;
  alt_insert := oh_insert; alt_get := oh_get; alt_remove := oh_remove }.
(** [ble_build] with [by_time = 0]. *)
Definition ble_build_mac : option ohash := m ← alt_create (Z.of_nat N_BLE); fill N_BLE 0 mac_key (λ i, i) m.
Definition expired_cb (seen : Z → Z) (k idx : Z) : bool := seen idx <? 6000.
Definition timed_scan (seen : Z → Z) : HM (Z * Z) :=
  by_mac ← from ble_build_mac;
  t0 ← cyc;
  '(by_mac, n) ← from (oh_evict_scan by_mac (expired_cb seen));
  t1 ← cyc;
  evict_check by_mac;;
  mret (t1 -w t0, u32 n).
Definition run_hash (dcache : Z) (dwt_prf report_bytes : bool) : HM unit :=
  fixture_rows (A := ohash) "open_hash" dcache dwt_prf report_bytes ble_build_mac;;
  evict_rows "open_hash" dcache "evict_bulk_scan" (timed_scan seen_bulk);;
  evict_rows "open_hash" dcache "evict_steady_scan" (timed_scan seen_steady).

(** ** The program *)
Section Program.
Context (M : Type) `{!ExpanseMap M, !TSearch.TSearch} (settle : regs → regs) (delay spin : nat).
(** [impls], in order. *)
Definition run_fixtures (dwt_prf : bool) (dcache : Z) (report_bytes : bool) : HM unit :=
  when dwt_prf (rounds PASSES 0 (λ p, prof ← fx_nop_dwt; say (Dwt "nop" "none" dcache p prof (Z.of_nat N_CAN))));;
  run_ordered (ex_map M) "expanse" dcache dwt_prf report_bytes;;
  run_ordered sarr "sorted_array" dcache dwt_prf report_bytes;;
  run_hash dcache dwt_prf report_bytes;;
  run_ordered tmap "tsearch" dcache dwt_prf report_bytes.
(** [while (cyc() - t0 < 320000000u) {}] *)
Fixpoint spin_from (fuel : nat) (t0 : Z) : HM unit :=
  match fuel with O => from None | S fuel => t ← cyc; if t -w t0 <? 320000000 then spin_from fuel t0 else mret tt end.
Definition calibrate : HM unit :=
  say (Puts "TICK");; t0 ← cyc; spin_from spin t0;; say (Puts "TOCK cycles=320000000").
(** The set-up of [main] before the banner: the profile counters' presence. *)
Definition board_init (r : regs) : bool * regs :=
  let r := set_bits RCC_AHB2ENR 0xE0000000 r in
  let r := set_bits RCC_AHB4ENR 0x32000000 r in
  let r := uart_init r in
  let '(dwt_prf, r) := dwt_init true r in
  let '(_, r) := mpu_init ∅ r in
  (dwt_prf, icache_enable r).
(** [main] from the banner on to the arms, QUICK not defined. *)
Definition main_fixtures (dwt_prf : bool) : HM unit :=
  calibrate;;
  run_fixtures dwt_prf 0 true;;
  on_regs (Some ∘ dcache_enable);;
  run_fixtures dwt_prf 1 false;;
  on_regs (clock_pll settle delay 20 8 0);; set_sysclk 160000000;;
  say (Puts "INFO sysclk=160000000 hclk=80000000 vos=3");;
  calibrate;;
  run_fixtures dwt_prf 1 false;;
  on_regs (Some ∘ dcache_disable);;
  run_fixtures dwt_prf 0 false;;
  on_regs (power_vos1 settle delay);;
  on_regs (clock_pll settle delay 50 8 4);; set_sysclk 400000000;;
  say (Puts "INFO sysclk=400000000 hclk=200000000 vos=1");;
  calibrate;;
  run_fixtures dwt_prf 0 false;;
  on_regs (Some ∘ dcache_enable);;
  run_fixtures dwt_prf 1 false.
(** The layout-sweep build: [sweep_can] and its [main] after the banner. *)
Definition sweep_can (dcache : Z) : HM unit :=
  rounds PASSES 0 (λ p, prof ← fx_nop_dwt; say (Dwt "nop" "none" dcache p prof (Z.of_nat N_CAN)));;
  can ← from (can_table (A := ex_map M));
  rounds PASSES 0 (λ p, t ← timed_can can; say (Result "can_dispatch" "expanse" dcache p t (Z.of_nat N_CAN)));;
  rounds PASSES 0 (λ p, prof ← fx_can_dwt can; say (Dwt "can_dispatch" "expanse" dcache p prof (Z.of_nat N_CAN))).
Definition sweep_main (layout : line) : HM unit :=
  say layout;;
  on_regs (power_vos1 settle delay);;
  on_regs (clock_pll settle delay 50 8 4);; set_sysclk 400000000;;
  say (Puts "INFO sysclk=400000000 hclk=200000000 vos=1");;
  calibrate;;
  sweep_can 0;;
  on_regs (Some ∘ dcache_enable);;
  sweep_can 1;;
  say (Puts "DONE").
(** [main] from reset to the arms; [headroom] is what the engine answers to
    [expanse_sync32_mutation_headroom]. *)
Definition main_to_arms (headroom : Z) : HM unit := λ h,
  let '(dwt_prf, r) := board_init (h_regs h) in
  let r := wr SCB_CSSELR 0 r in  (** [banner] selects the data cache's size register *)
  (on_regs (λ _, Some r);;
   say (Banner (rd SCB_CPUID r) (rd DBGMCU_IDCODE r) (rd PWR_CR3 r) (rd SCB_CCSIDR r) headroom dwt_prf);;
   main_fixtures dwt_prf) h.
End Program.
End Run.

(** A row as the host reads it. *)
Example row_text :
  render "m7" 64000000 (Result "ingest" "expanse" 0 3 420000 2000)
  = Some (chars "RESULT name=ingest impl=expanse core=m7 sysclk=64000000 dcache=0 pass=3 cycles=420000 ops=2000" ++ crlf).
Proof. vm_compute. reflexivity. Qed.
