(* ===== verification/HarnessLog.v ===== *)
(** * What the fixture runs print

    Proofs about [HarnessRun].  [emits m ls Q]: with the registers and
    [sysclk_hz] as they stand, [m] ends, leaves both, prints lines of the shapes
    [ls] (the measured figures left out) and returns a value in [Q]. *)
From Stdlib Require Import String Ascii.
From stdpp Require Import base numbers list sorting gmap.
From S2P Require Import Prelude SortedAssoc ExpanseApi Alts SortedArray OpenHash TSearch AltFixtures HarnessOut HarnessBoard HarnessRun.
Open Scope Z_scope.
Abbreviation length := List.length.

Inductive shape :=
  | ShPuts (s : string)
  | ShResult (name impl : string) (dcache pass ops : Z)
  | ShDwt (fixture impl : string) (dcache pass ops : Z)
  | ShBytes (impl shape : string) (keys : Z)
  | ShBanner
  | ShLayout.
Definition shape_of (l : line) : shape :=
  match l with
  | Puts s => ShPuts s
  | Result name impl dcache pass _ ops => ShResult name impl dcache pass ops
  | Dwt fixture impl dcache pass _ ops => ShDwt fixture impl dcache pass ops
  | Bytes impl shape keys _ _ => ShBytes impl shape keys
  | Banner _ _ _ _ _ _ => ShBanner
  | Layout _ _ _ _ _ _ _ _ => ShLayout
  end.
(** An entry of the log without its figures: the line's shape, the value of
    [sysclk_hz] it was printed with, and the registers it was printed under. *)
Definition shape_entry (en : entry) : shape * Z * regs := (shape_of (en_line en), en_sysclk en, en_regs en).
Definition under (sys : Z) (r : regs) (ls : list shape) : list (shape * Z * regs) := (λ s, (s, sys, r)) <$> ls.

Section Logic.
Context (r : regs) (sys : Z).
Definition emits {A} (m : HM A) (ls : list shape) (Q : A → Prop) : Prop := ∀ h, h_regs h = r → h_sysclk h = sys →
  ∃ x h' new, m h = Some (x, h') ∧ Q x ∧ h_regs h' = r ∧ h_sysclk h' = sys ∧ h_log h' = h_log h ++ new ∧
    shape_entry <$> new = under sys r ls ∧ Forall (λ en, line_ok (en_line en)) new.

(** Steps that print nothing. *)
Lemma emits_silent {A} (m : HM A) (Q : A → Prop) :
  (∀ h, ∃ x h', m h = Some (x, h') ∧ Q x ∧ h_regs h' = h_regs h ∧ h_sysclk h' = h_sysclk h ∧ h_log h' = h_log h) → emits m [] Q.
Proof.
  intros Hm h Hr Hs. destruct (Hm h) as (x & h' & He & HQ & Hr' & Hs' & Hl). exists x, h', []. rewrite app_nil_r, Hr', Hs'. by split_and!.
Qed.
Lemma emits_ret {A} (x : A) (Q : A → Prop) : Q x → emits (mret x) [] Q.
Proof. intros HQ. apply emits_silent. intros h. by exists x, h. Qed.
Lemma emits_bind {A B} (m : HM A) (f : A → HM B) l1 l2 (P : A → Prop) (Q : B → Prop) :
  emits m l1 P → (∀ x, P x → emits (f x) l2 Q) → emits (m ≫= f) (l1 ++ l2) Q.
Proof.
  intros Hm Hf h Hr Hs. destruct (Hm h Hr Hs) as (x & h1 & n1 & He & HP & Hr1 & Hs1 & Hl1 & Hn1 & Ho1).
  destruct (Hf x HP h1 Hr1 Hs1) as (y & h2 & n2 & He2 & HQ & Hr2 & Hs2 & Hl2 & Hn2 & Ho2).
  exists y, h2, (n1 ++ n2). unfold mbind, hm_bind. rewrite He. split_and!; try done.
  - by rewrite Hl2, Hl1, <- app_assoc.
  - unfold under in *. by rewrite !fmap_app, Hn1, Hn2.
  - by apply Forall_app.
Qed.
(** A first step that prints nothing. *)
Lemma emits_quiet {A B} (m : HM A) (f : A → HM B) ls (P : A → Prop) (Q : B → Prop) :
  emits m [] P → (∀ x, P x → emits (f x) ls Q) → emits (m ≫= f) ls Q.
Proof. intros Hm Hf. exact (emits_bind m f [] ls P Q Hm Hf). Qed.
Lemma emits_from {A B} (o : option A) (f : A → HM B) x ls (Q : B → Prop) : o = Some x → emits (f x) ls Q → emits (from o ≫= f) ls Q.
Proof. intros -> Hf. eapply (emits_quiet _ _ _ (eq x)); [|by intros ? <-]. apply emits_silent. intros h. by exists x, h. Qed.
Lemma emits_say l : line_ok l → emits (say l) [shape_of l] (λ _, True).
Proof.
  intros Hl h Hr Hs. eexists _, _, [_]. split; [done|]. split; [done|]. split; [done|]. split; [done|]. split; [done|]. unfold shape_entry. cbn.
  rewrite Hr, Hs. split; [done|]. by repeat constructor.
Qed.
Lemma emits_cyc e : emits (cyc e) [] (λ _, True).
Proof. apply emits_silent. intros h. by eexists _, _. Qed.
Lemma emits_snap e : emits (snap e) [] (λ _, True).
Proof. apply emits_silent. intros h. by eexists _, _. Qed.
Lemma emits_heap e : emits (heap_now e) [] (λ _, True).
Proof. apply emits_silent. intros h. by eexists _, _. Qed.
Lemma emits_when b m ls : (b = true → emits m ls (λ _, True)) → emits (when b m) (if b then ls else []) (λ _, True).
Proof. intros Hm. destruct b; [by apply Hm|]. by apply emits_ret. Qed.
Lemma emits_skip {B} b m (f : unit → HM B) ls (Q : B → Prop) : b = false → emits (f tt) ls Q → emits (when b m ≫= f) ls Q.
Proof. intros -> Hf. eapply (emits_quiet _ _ _ (λ _, True)); [by apply emits_ret|]. by intros [] _. Qed.
Lemma emits_rounds n p body (ls : Z → list shape) :
  (∀ q, p <= q < p + Z.of_nat n → emits (body q) (ls q) (λ _, True)) → emits (rounds n p body) (concat (ls <$> seqZ p (Z.of_nat n))) (λ _, True).
Proof.
  revert p. induction n as [|n IH]; intros p Hb; [by apply emits_ret|]. cbn [rounds]. rewrite seqZ_cons by lia. cbn [fmap list_fmap concat].
  eapply emits_bind; [apply Hb; lia|]. intros _ _. replace (Z.pred (Z.of_nat (S n))) with (Z.of_nat n) by lia. replace (Z.succ p) with (p + 1) by lia.
  apply IH. intros q Hq. apply Hb. lia.
Qed.
End Logic.
(** Steps over a reading of an instrument. *)
Ltac reading := eapply emits_quiet; [first [apply emits_cyc|apply emits_snap|apply emits_heap]|intros ? _].

(** The numbers of a line are words. *)
Ltac nums := unfold line_ok; cbn [line_nums app]; repeat (constructor; [first [assumption|apply u32_range|unfold N_INGEST, N_CAN, N_BLE, PASSES in *; word_lia]|]); try constructor.
Definition prof_ok (p : dwt_prof) : Prop := Forall is_u32 (prof_nums p).
Lemma land_255 x : is_u32 (Z.land x 255).
Proof. change 255 with (Z.ones 8). rewrite Z.land_ones by lia. pose proof (Z.mod_pos_bound x (2 ^ 8)). word_lia. Qed.
Lemma dwt_acc_ok p a b : prof_ok p → prof_ok (dwt_acc p a b).
Proof.
  unfold prof_ok, prof_nums. intros Hp. repeat (apply Forall_cons in Hp as [? Hp]). unfold dwt_acc. cbn [d_cycles d_cpi d_exc d_sleep d_lsu d_fold d_cpi_max d_lsu_max d_suspect].
  repeat (constructor; [first [apply u32_range|match goal with |- is_u32 (if ?c then _ else _) => destruct c end; first [assumption|apply land_255|apply u32_range]]|]). constructor.
Qed.

(** ** Expected lines *)
(** The five rows of a fixture. *)
Definition rows (fixture impl : string) (dcache ops : Z) : list shape := (λ p, ShResult fixture impl dcache p ops) <$> [0; 1; 2; 3; 4].
Definition dwt_rows (fixture impl : string) (dcache ops : Z) : list shape := (λ p, ShDwt fixture impl dcache p ops) <$> [0; 1; 2; 3; 4].
Definition common_shapes (impl : string) (dcache : Z) (dwt_prf report_bytes : bool) : list shape :=
  rows "ingest" impl dcache 2000 ++ (if dwt_prf then dwt_rows "ingest" impl dcache 2000 else []) ++
  (if report_bytes then [ShBytes impl "ingest" 2000] else []) ++
  rows "can_dispatch" impl dcache 500 ++ (if dwt_prf then dwt_rows "can_dispatch" impl dcache 500 else []) ++
  (if report_bytes then [ShBytes impl "ble_index" 2000] else []).
Definition ordered_shapes (impl : string) (dcache : Z) (dwt_prf report_bytes : bool) : list shape :=
  common_shapes impl dcache dwt_prf report_bytes ++
  rows "evict_bulk_loop" impl dcache 600 ++ rows "evict_bulk_range" impl dcache 600 ++
  rows "evict_steady_loop" impl dcache 25 ++ rows "evict_steady_range" impl dcache 25.
Definition fixture_shapes (dwt_prf : bool) (dcache : Z) (report_bytes : bool) : list shape :=
  (if dwt_prf then dwt_rows "nop" "none" dcache 500 else []) ++
  ordered_shapes "expanse" dcache dwt_prf report_bytes ++
  ordered_shapes "sorted_array" dcache dwt_prf report_bytes ++
  (common_shapes "open_hash" dcache dwt_prf report_bytes ++
   rows "evict_bulk_scan" "open_hash" dcache 600 ++ rows "evict_steady_scan" "open_hash" dcache 25) ++
  ordered_shapes "tsearch" dcache dwt_prf report_bytes.

Section Fixtures.
Context (e : env) (r : regs) (sys : Z).
Lemma emits_nop n p : prof_ok p → emits r sys (nop_loop e n p) [] prof_ok.
Proof. revert p. induction n as [|n IH]; intros p Hp; [by apply emits_ret|]. cbn [nop_loop]. do 2 reading. by apply IH, dwt_acc_ok. Qed.
Lemma prof0_ok : prof_ok prof0.
Proof. unfold prof_ok. repeat constructor; done. Qed.
Lemma emits_fx_nop_dwt : emits r sys (fx_nop_dwt e) [] prof_ok.
Proof. unfold fx_nop_dwt. apply emits_nop, prof0_ok. Qed.

Section Impl.
Context {A : Type} `{!AltOps A}.
Implicit Types m : A.
Lemma emits_ingest_dwt n i p m m' :
  fill n i (λ i, 1700000000 +w i) (λ _, 42) m = Some m' → prof_ok p →
  emits r sys (ingest_dwt_loop e n i p m) [] (λ x, x.1 = m' ∧ prof_ok x.2).
Proof.
  revert i p m. induction n as [|n IH]; intros i p m Hf Hp; cbn [fill ingest_dwt_loop] in *; [injection Hf as <-; by apply emits_ret|].
  destruct (alt_insert m _ _) as [m1|] eqn:Hi; [|done]. cbn [mbind option_bind] in Hf. reading. eapply emits_from; [done|]. reading. by apply IH, dwt_acc_ok.
Qed.
Lemma emits_can_dwt n i sum p m s :
  can_loop n i sum m = Some s → prof_ok p → emits r sys (can_dwt_loop e n i sum p m) [] (λ x, x.1 = s ∧ prof_ok x.2).
Proof.
  revert i sum p. induction n as [|n IH]; intros i sum p Hf Hp; cbn [can_loop can_dwt_loop] in *; [injection Hf as <-; by apply emits_ret|].
  destruct (alt_get m _) as [o|] eqn:Hi; [|done]. cbn [mbind option_bind] in Hf. reading. eapply emits_from; [done|]. reading. by apply IH, dwt_acc_ok.
Qed.
Lemma emits_evict_check m : evict_checks m = Some false → emits r sys (evict_check m) [] (λ _, True).
Proof.
  unfold evict_checks, evict_check. destruct (alt_get m (mac_key (Z.of_nat N_BLE - 1))) as [l|] eqn:Hl; [|done]. cbn [mbind option_bind].
  destruct (alt_get m (mac_key 0)) as [f|] eqn:Hf; [|done]. cbn [mbind option_bind]. intros [= Hb]. apply orb_false_elim in Hb as [Hb1 Hb2].
  eapply emits_from; [done|]. apply emits_skip; [done|]. eapply emits_from; [done|]. rewrite Hb2. by apply emits_ret.
Qed.

(** What the fixtures answer, as facts of one structure. *)
Record fixtures_ok : Prop := {
  fo_ingest : fx_ingest (A := A) 0 0 = Some (0, false);
  fo_can : (m ← can_table (A := A); fx_can m 0 0) = Some (0, false);
}.
Lemma fx_ingest_times t0 t1 b x : fx_ingest (A := A) 0 0 = Some (x, b) → fx_ingest (A := A) t0 t1 = Some (t1 -w t0, b).
Proof.
  unfold fx_ingest. destruct (alt_create _) as [m|]; [|done]. cbn [mbind option_bind]. destruct (fill _ _ _ _ m) as [m1|]; [|done]. cbn [mbind option_bind].
  destruct (alt_get m1 (1700000000 + Z.of_nat N_INGEST - 1)) as [l|]; [|done]. cbn [mbind option_bind]. destruct (alt_get m1 1700000000) as [f|]; [|done]. cbn [mbind option_bind]. by intros [= _ ->].
Qed.
Lemma fx_can_times m t0 t1 b x : fx_can m 0 0 = Some (x, b) → fx_can m t0 t1 = Some (t1 -w t0, b).
Proof. unfold fx_can. destruct (can_loop _ _ _ m); [|done]. cbn [mbind option_bind]. by intros [= _ ->]. Qed.
Lemma fx_can_sum m x : fx_can m 0 0 = Some (x, false) → can_loop N_CAN 0 0 m = Some 124750.
Proof.
  unfold fx_can. generalize (can_loop N_CAN 0 0 m). intros [s|]; [|done]. cbn [mbind option_bind]. intros [= _ Hb].
  apply negb_false_iff, Z.eqb_eq in Hb. by rewrite Hb.
Qed.
Context (F : fixtures_ok) (name : string) (dcache : Z) (Hdc : is_u32 dcache).
Lemma emits_timed_ingest first : emits r sys (timed_ingest e (A := A) first) [] (λ x, is_u32 x.1.1 ∧ is_u32 x.1.2 ∧ is_u32 x.2).
Proof.
  unfold timed_ingest. reading. destruct x as [h0 r0]. do 2 reading. eapply emits_from; [eapply fx_ingest_times, fo_ingest, F|]. cbn beta iota.
  eapply (emits_quiet _ _ _ _ _ (λ x, is_u32 x.1 ∧ is_u32 x.2)).
  - destruct first; [reading; destruct x1|]; apply emits_ret; cbn [fst snd]; split; (apply u32_range || done).
  - intros [hd rd] [Hhd Hrd]. apply emits_skip; [done|]. apply emits_ret. split; [apply u32_range|done].
Qed.
Lemma emits_fx_ingest_dwt : emits r sys (fx_ingest_dwt e (A := A)) [] prof_ok.
Proof.
  pose proof (fo_ingest F) as Hi. unfold fx_ingest in Hi. unfold fx_ingest_dwt. destruct (alt_create _) as [m|]; [|done]. cbn [mbind option_bind] in Hi.
  destruct (fill _ _ _ _ m) as [m1|] eqn:Hf; [|done]. cbn [mbind option_bind] in Hi. destruct (alt_get m1 (1700000000 + Z.of_nat N_INGEST - 1)) as [l|] eqn:Hl; [|done]. cbn [mbind option_bind] in Hi.
  destruct (alt_get m1 1700000000) as [f|]; [|done]. cbn [mbind option_bind] in Hi. injection Hi as Hb. apply orb_false_elim in Hb as [Hb _].
  eapply emits_from; [done|]. eapply emits_quiet; [by apply emits_ingest_dwt, prof0_ok|]. intros [m2 p]. cbn [fst snd]. intros [-> Hp]. eapply emits_from; [done|].
  apply emits_skip; [done|]. by apply emits_ret.
Qed.
Lemma can_facts : ∃ m, can_table (A := A) = Some m ∧ (∀ t0 t1, fx_can m t0 t1 = Some (t1 -w t0, false)) ∧ can_loop N_CAN 0 0 m = Some 124750.
Proof.
  pose proof (fo_can F) as Hc. apply bind_Some in Hc as (m & Hm & Hc). exists m. split; [done|].
  split; [intros t0 t1; by eapply fx_can_times|by eapply fx_can_sum].
Qed.
Lemma emits_timed_can m : (∀ t0 t1, fx_can m t0 t1 = Some (t1 -w t0, false)) → emits r sys (timed_can e m) [] is_u32.
Proof. intros Hm. unfold timed_can. do 2 reading. eapply emits_from; [apply Hm|]. apply emits_skip; [done|]. apply emits_ret, u32_range. Qed.
Lemma emits_fx_can_dwt m : can_loop N_CAN 0 0 m = Some 124750 → emits r sys (fx_can_dwt e m) [] prof_ok.
Proof.
  intros Hm. unfold fx_can_dwt. eapply emits_quiet; [by apply emits_can_dwt, prof0_ok|]. intros [s p]. cbn [fst snd]. intros [-> Hp]. apply emits_skip; [done|]. by apply emits_ret.
Qed.
(** A row per pass: a quiet measurement, then its line. *)
Lemma emits_row {B} (m : HM B) (f : B → line) l (P : B → Prop) :
  emits r sys m [] P → (∀ x, P x → line_ok (f x)) → (∀ x, shape_of (f x) = l) → emits r sys (x ← m; say (f x)) [l] (λ _, True).
Proof. intros Hm Ho Hf. eapply emits_quiet; [exact Hm|]. intros x Hx. rewrite <- (Hf x). by apply emits_say, Ho. Qed.
Lemma dwt_row_ok fixture p prof ops : 0 <= p < 5 → is_u32 ops → prof_ok prof → line_ok (Dwt fixture name dcache p prof ops).
Proof. intros Hp Ho Hprof. unfold line_ok. cbn [line_nums]. apply Forall_app. split; [nums|exact Hprof]. Qed.
Lemma emits_fixture_rows dwt_prf report_bytes ble x :
  ble = Some x → emits r sys (fixture_rows e (A := A) name dcache dwt_prf report_bytes ble) (common_shapes name dcache dwt_prf report_bytes) (λ _, True).
Proof.
  intros ->. destruct can_facts as (m & Hm & Hcan & Hsum). unfold fixture_rows.
  change (common_shapes name dcache dwt_prf report_bytes) with
    ([ShResult "ingest" name dcache 0 2000] ++ concat ((λ p, [ShResult "ingest" name dcache p 2000]) <$> seqZ 1 (Z.of_nat (PASSES - 1))) ++
     (if dwt_prf then concat ((λ p, [ShDwt "ingest" name dcache p 2000]) <$> seqZ 0 (Z.of_nat PASSES)) else []) ++
     (if report_bytes then [ShBytes name "ingest" 2000] else []) ++
     concat ((λ p, [ShResult "can_dispatch" name dcache p 500]) <$> seqZ 0 (Z.of_nat PASSES)) ++
     (if dwt_prf then concat ((λ p, [ShDwt "can_dispatch" name dcache p 500]) <$> seqZ 0 (Z.of_nat PASSES)) else []) ++
     (if report_bytes then [ShBytes name "ble_index" 2000] else [])).
  assert (is_u32 (Z.of_nat N_INGEST) ∧ is_u32 (Z.of_nat N_CAN)) as [HN HC] by (unfold N_INGEST, N_CAN; split; word_lia).
  eapply emits_quiet; [apply emits_timed_ingest|]. intros [[t hd] rd] (Ht & Hhd & Hrd). cbn [fst snd] in *.
  eapply emits_bind; [apply (emits_say r sys (Result "ingest" name dcache 0 t (Z.of_nat N_INGEST))); nums|]. intros _ _.
  eapply emits_bind; [apply emits_rounds; intros p Hp; eapply emits_quiet; [apply emits_timed_ingest|]; intros [[t' hd'] rd'] (Ht' & _ & _);
    apply (emits_say r sys (Result "ingest" name dcache p t' (Z.of_nat N_INGEST))); nums|]. intros _ _.
  eapply emits_bind; [apply emits_when; intros _; apply emits_rounds; intros p Hp; eapply emits_row; [apply emits_fx_ingest_dwt|intros; by apply dwt_row_ok|done]|]. intros _ _.
  eapply emits_bind; [apply emits_when; intros _; apply (emits_say r sys (Bytes name "ingest" (Z.of_nat N_INGEST) hd rd)); nums|]. intros _ _.
  eapply emits_from; [exact Hm|].
  eapply emits_bind; [apply emits_rounds; intros p Hp; eapply emits_row; [by apply emits_timed_can|intros; nums|done]|]. intros _ _.
  eapply emits_bind; [apply emits_when; intros _; apply emits_rounds; intros p Hp; eapply emits_row; [by apply emits_fx_can_dwt|intros; by apply dwt_row_ok|done]|]. intros _ _.
  apply emits_when. intros _. reading. destruct x0 as [h0 r0]. eapply emits_from; [done|]. reading. destruct x0 as [h1 r1].
  apply (emits_say r sys (Bytes name "ble_index" (Z.of_nat N_BLE) (h1 -w h0) (r1 -w r0))). nums.
Qed.
Lemma emits_evict_rows fixture ev n :
  is_u32 n → emits r sys ev [] (λ x, is_u32 x.1 ∧ x.2 = n) → emits r sys (evict_rows name dcache fixture ev) (rows fixture name dcache n) (λ _, True).
Proof.
  intros Hn He. unfold evict_rows. change (rows fixture name dcache n) with (concat ((λ p, [ShResult fixture name dcache p n]) <$> seqZ 0 (Z.of_nat PASSES))).
  apply emits_rounds. intros p Hp. eapply emits_quiet; [exact He|]. intros [t ev'] [Ht Hev]. cbn [fst snd] in *. subst ev'.
  apply (emits_say r sys (Result fixture name dcache p t n)). nums.
Qed.
End Impl.
End Fixtures.

(** ** The four structures *)
Section Structures.
Context (e : env) (r : regs) (sys : Z).
Section Ordered.
Context (A : Type) `{OrderedAlt A} (name : string) (dcache : Z) (Hdc : is_u32 dcache).
Lemma ordered_ok : fixtures_ok (A := A).
Proof.
  destruct (fx_checks_pass (A := A) 0 0) as [(m & Hm & Hc) Hi]. split; [exact Hi|]. rewrite Hm. exact Hc.
Qed.
Lemma emits_timed_evict seen range_mode n :
  (∀ t0 t1, fx_evict (A := A) seen range_mode t0 t1 = Some (t1 -w t0, n, false)) →
  emits r sys (timed_evict e A seen range_mode) [] (λ x, is_u32 x.1 ∧ x.2 = n).
Proof.
  intros Hf. specialize (Hf 0 0). unfold fx_evict in Hf. unfold timed_evict. destruct (ble_build (A := A) seen) as [[bm bt]|]; [|done]. cbn [mbind option_bind] in Hf.
  destruct (if range_mode then evict_range bm bt else evict_loop (S N_BLE) bm bt 0) as [[[bm' bt'] ev]|] eqn:He; [|done]. cbn [mbind option_bind] in Hf.
  destruct (evict_checks bm') as [bad|] eqn:Hb; [|done]. cbn [mbind option_bind] in Hf. injection Hf as -> ->.
  eapply emits_from; [done|]. cbn beta iota. reading. eapply emits_from; [exact He|]. cbn beta iota. reading.
  eapply emits_quiet; [by apply emits_evict_check|]. intros _ _. apply emits_ret. split; [apply u32_range|done].
Qed.
Lemma evicts_bulk range_mode t0 t1 : fx_evict (A := A) seen_bulk range_mode t0 t1 = Some (t1 -w t0, 600, false).
Proof. exact (proj1 (fx_evict_counts range_mode t0 t1)). Qed.
Lemma evicts_steady range_mode t0 t1 : fx_evict (A := A) seen_steady range_mode t0 t1 = Some (t1 -w t0, 25, false).
Proof. exact (proj2 (fx_evict_counts range_mode t0 t1)). Qed.
Lemma emits_ordered dwt_prf report_bytes :
  emits r sys (run_ordered e A name dcache dwt_prf report_bytes) (ordered_shapes name dcache dwt_prf report_bytes) (λ _, True).
Proof.
  unfold run_ordered, ordered_shapes. destruct (ble_build_spec (A := A) seen_bulk schedule_bulk) as (bm & bt & Hb & _).
  eapply emits_bind; [eapply emits_fixture_rows; [exact ordered_ok|exact Hdc|by rewrite Hb]|]. intros _ _.
  eapply emits_bind; [apply emits_evict_rows; [exact Hdc|word_lia|]; apply emits_timed_evict; exact (evicts_bulk false)|]. intros _ _.
  eapply emits_bind; [apply emits_evict_rows; [exact Hdc|word_lia|]; apply emits_timed_evict; exact (evicts_bulk true)|]. intros _ _.
  eapply emits_bind; [apply emits_evict_rows; [exact Hdc|word_lia|]; apply emits_timed_evict; exact (evicts_steady false)|]. intros _ _.
  apply emits_evict_rows; [exact Hdc|word_lia|]. apply emits_timed_evict. exact (evicts_steady true).
Qed.
End Ordered.

(** The hash's fixtures are evaluated. *)
Lemma hash_ok : fixtures_ok (A := ohash).
Proof. split; vm_compute; reflexivity. Qed.
Lemma hash_scans :
  (h ← ble_build_mac; '(h, n) ← oh_evict_scan h (expired_cb seen_bulk); b ← evict_checks h; Some (n, b)) = Some (600, false) ∧
  (h ← ble_build_mac; '(h, n) ← oh_evict_scan h (expired_cb seen_steady); b ← evict_checks h; Some (n, b)) = Some (25, false).
Proof. split; vm_compute; reflexivity. Qed.
Lemma emits_timed_scan seen n :
  is_u32 n → (h ← ble_build_mac; '(h, n) ← oh_evict_scan h (expired_cb seen); b ← evict_checks h; Some (n, b)) = Some (n, false) →
  emits r sys (timed_scan e seen) [] (λ x, is_u32 x.1 ∧ x.2 = n).
Proof.
  intros Hn Hf. unfold timed_scan. destruct ble_build_mac as [bm|]; [|done]. cbn [mbind option_bind] in Hf.
  destruct (oh_evict_scan bm (expired_cb seen)) as [[bm' ev]|] eqn:He; [|done]. cbn [mbind option_bind] in Hf.
  destruct (evict_checks bm') as [bad|] eqn:Hb; [|done]. cbn [mbind option_bind] in Hf. injection Hf as -> ->.
  eapply emits_from; [done|]. reading. eapply emits_from; [exact He|]. cbn beta iota. reading.
  eapply emits_quiet; [by apply emits_evict_check|]. intros _ _. apply emits_ret. cbn [fst snd]. split; [apply u32_range|by apply u32_small].
Qed.
Lemma emits_hash dcache dwt_prf report_bytes :
  is_u32 dcache → emits r sys (run_hash e dcache dwt_prf report_bytes)
    (common_shapes "open_hash" dcache dwt_prf report_bytes ++ rows "evict_bulk_scan" "open_hash" dcache 600 ++ rows "evict_steady_scan" "open_hash" dcache 25) (λ _, True).
Proof.
  intros Hdc. destruct hash_scans as [Hb Hs]. unfold run_hash. destruct ble_build_mac as [m|] eqn:Hm; [|done]. rewrite <- Hm in *.
  eapply emits_bind; [eapply emits_fixture_rows; [exact hash_ok|exact Hdc|exact Hm]|]. intros _ _.
  eapply emits_bind; [apply emits_evict_rows; [exact Hdc|word_lia|]; apply emits_timed_scan; [|exact Hb]; word_lia|]. intros _ _.
  apply emits_evict_rows; [exact Hdc|word_lia|]. apply emits_timed_scan; [|exact Hs]. word_lia.
Qed.
(** The sweep's rows, all of the engine's lookup. *)
Definition sweep_shapes (dcache : Z) : list shape :=
  dwt_rows "nop" "none" dcache 500 ++ rows "can_dispatch" "expanse" dcache 500 ++ dwt_rows "can_dispatch" "expanse" dcache 500.
Lemma emits_sweep (M : Type) `{ExpanseMapLaws M} dcache : is_u32 dcache → emits r sys (sweep_can e M dcache) (sweep_shapes dcache) (λ _, True).
Proof.
  intros Hdc. destruct (can_facts (ordered_ok (ex_map M))) as (m & Hm & Hcan & Hsum). assert (is_u32 (Z.of_nat N_CAN)) as HC by (unfold N_CAN; word_lia). unfold sweep_can.
  change (sweep_shapes dcache) with (concat ((λ p, [ShDwt "nop" "none" dcache p 500]) <$> seqZ 0 (Z.of_nat PASSES)) ++
    concat ((λ p, [ShResult "can_dispatch" "expanse" dcache p 500]) <$> seqZ 0 (Z.of_nat PASSES)) ++
    concat ((λ p, [ShDwt "can_dispatch" "expanse" dcache p 500]) <$> seqZ 0 (Z.of_nat PASSES))).
  eapply emits_bind; [apply emits_rounds; intros p Hp; eapply emits_row; [apply emits_fx_nop_dwt|intros; by apply dwt_row_ok|done]|]. intros _ _.
  eapply emits_from; [exact Hm|].
  eapply emits_bind; [apply emits_rounds; intros p Hp; eapply emits_row; [by apply emits_timed_can|intros; nums|done]|]. intros _ _.
  apply emits_rounds. intros p Hp. eapply emits_row; [by apply emits_fx_can_dwt|intros; by apply dwt_row_ok|done].
Qed.
Lemma emits_run_fixtures (M : Type) `{ExpanseMapLaws M, TSearchLaws} dwt_prf dcache report_bytes :
  is_u32 dcache → emits r sys (run_fixtures e M dwt_prf dcache report_bytes) (fixture_shapes dwt_prf dcache report_bytes) (λ _, True).
Proof.
  intros Hdc. unfold run_fixtures, fixture_shapes. change (dwt_rows "nop" "none" dcache 500) with (concat ((λ p, [ShDwt "nop" "none" dcache p 500]) <$> seqZ 0 (Z.of_nat PASSES))).
  eapply emits_bind; [apply emits_when; intros _; apply emits_rounds; intros p Hp; eapply emits_row; [apply emits_fx_nop_dwt|intros; apply dwt_row_ok; [done..|unfold N_CAN; word_lia|done]|done]|]. intros _ _.
  eapply emits_bind; [by apply (emits_ordered (ex_map M))|]. intros _ _. eapply emits_bind; [by apply (emits_ordered sarr)|]. intros _ _.
  eapply emits_bind; [by apply emits_hash|]. intros _ _. by apply (emits_ordered tmap).
Qed.
End Structures.

(** ** The program *)
Section Program.
Context (e : env) (settle : regs → regs) (delay spin : nat) `{!BoardLaws settle delay} (M : Type) `{ExpanseMapLaws M, TSearchLaws}.
(** The cycle counter moves: among the [spin] readings after one, some is
    320 million cycles later. *)
Definition paced : Prop := ∀ n, ∃ k, (k < spin)%nat ∧ 320000000 <= u32 (e_cyc e (n + 1 + k)) -w u32 (e_cyc e n).
(** From registers [r] and [sysclk_hz = sys] the step ends with [r'] and [sys'],
    having printed [ls]. *)
Definition goes (m : HM unit) (r : regs) (sys : Z) (ls : list (shape * Z * regs)) (r' : regs) (sys' : Z) : Prop := ∀ h,
  h_regs h = r → h_sysclk h = sys →
  ∃ h' new, m h = Some (tt, h') ∧ h_regs h' = r' ∧ h_sysclk h' = sys' ∧ h_log h' = h_log h ++ new ∧
    shape_entry <$> new = ls ∧ Forall (λ en, line_ok (en_line en)) new.
Lemma goes_bind m1 m2 r1 s1 l1 r2 s2 l2 r3 s3 :
  goes m1 r1 s1 l1 r2 s2 → goes m2 r2 s2 l2 r3 s3 → goes (m1;; m2) r1 s1 (l1 ++ l2) r3 s3.
Proof.
  intros Hm1 Hm2 h Hr Hs. destruct (Hm1 h Hr Hs) as (h1 & n1 & He1 & Hr1 & Hs1 & Hl1 & Hn1 & Ho1).
  destruct (Hm2 h1 Hr1 Hs1) as (h2 & n2 & He2 & Hr2 & Hs2 & Hl2 & Hn2 & Ho2).
  exists h2, (n1 ++ n2). unfold mbind, hm_bind. rewrite He1. split_and!; try done.
  - by rewrite Hl2, Hl1, <- app_assoc.
  - by rewrite fmap_app, Hn1, Hn2.
  - by apply Forall_app.
Qed.
Lemma goes_emits m r sys ls : emits r sys m ls (λ _, True) → goes m r sys (under sys r ls) r sys.
Proof. intros Hm h Hr Hs. destruct (Hm h Hr Hs) as ([] & h' & new & He & _ & Hrest). by exists h', new. Qed.
Lemma goes_regs f r sys r' : f r = Some r' → goes (on_regs f) r sys [] r' sys.
Proof. intros Hf h Hr Hs. unfold on_regs. rewrite Hr, Hf. eexists _, []. split; [done|]. by rewrite app_nil_r. Qed.
Lemma goes_sysclk v r sys : goes (set_sysclk v) r sys [] r v.
Proof. intros h Hr Hs. eexists _, []. split; [done|]. by rewrite app_nil_r. Qed.

Lemma spin_ends fuel t0 h :
  (∃ k, (k < fuel)%nat ∧ 320000000 <= u32 (e_cyc e (h_cyc h + k)) -w t0) →
  ∃ h', spin_from e fuel t0 h = Some (tt, h') ∧ h_regs h' = h_regs h ∧ h_sysclk h' = h_sysclk h ∧ h_log h' = h_log h.
Proof.
  revert h. induction fuel as [|fuel IH]; intros h (k & Hk & Hge); [lia|]. cbn [spin_from]. unfold mbind, hm_bind, cyc at 1.
  destruct (Z.ltb_spec (u32 (e_cyc e (h_cyc h)) -w t0) 320000000) as [Hlt|_]; [|by eexists].
  destruct k as [|k]; [rewrite Nat.add_0_r in Hge; lia|].
  destruct (IH (Hst (S (h_cyc h)) (h_snap h) (h_heap h) (h_regs h) (h_sysclk h) (h_log h))) as (h' & He & Hr & Hs & Hl).
  { exists k. split; [lia|]. cbn [h_cyc]. by replace (S (h_cyc h) + k)%nat with (h_cyc h + S k)%nat by lia. }
  by exists h'.
Qed.
Definition ticks : list shape := [ShPuts "TICK"; ShPuts "TOCK cycles=320000000"].
Lemma goes_calibrate r sys : paced → goes (calibrate e spin) r sys (under sys r ticks) r sys.
Proof.
  intros Hp. unfold calibrate, ticks. change (under sys r [ShPuts "TICK"; ShPuts "TOCK cycles=320000000"]) with
    (under sys r [shape_of (Puts "TICK")] ++ under sys r [shape_of (Puts "TOCK cycles=320000000")]).
  eapply goes_bind; [apply goes_emits, emits_say; nums|]. intros h Hr Hs. unfold mbind, hm_bind, cyc. cbn beta iota.
  destruct (Hp (h_cyc h)) as (k & Hk & Hge).
  destruct (spin_ends spin (u32 (e_cyc e (h_cyc h))) (Hst (S (h_cyc h)) (h_snap h) (h_heap h) (h_regs h) (h_sysclk h) (h_log h))) as (h1 & -> & Hr1 & Hs1 & Hl1).
  { exists k. split; [done|]. cbn [h_cyc]. by replace (S (h_cyc h) + k)%nat with (h_cyc h + 1 + k)%nat by lia. }
  cbn [h_regs h_sysclk h_log] in *. destruct (emits_say r sys (Puts "TOCK cycles=320000000")) with (h := h1) as ([] & h2 & new & He & _ & Hr2 & Hs2 & Hl2 & Hrest);
    [nums|congruence..|].
  exists h2, new. by rewrite Hl1 in Hl2.
Qed.

(** An entry of the log: the line without its figures, the clock it names, the
    clock and the data cache that the registers set. *)
Definition label (en : entry) : shape * Z * Z * bool := (shape_of (en_line en), en_sysclk en, sysclk_of (en_regs en), cache_on (en_regs en)).
Definition labelled (clock : Z) (cache : bool) (ls : list shape) : list (shape * Z * Z * bool) := (λ s, (s, clock, clock, cache)) <$> ls.
Definition label_of (x : shape * Z * regs) : shape * Z * Z * bool := (x.1.1, x.1.2, sysclk_of x.2, cache_on x.2).
Lemma label_shape (l : list entry) : label <$> l = label_of <$> (shape_entry <$> l).
Proof. rewrite <- list_fmap_compose. done. Qed.
Lemma label_under sys r c ls : sysclk_of r = sys → cache_on r = c → label_of <$> under sys r ls = labelled sys c ls.
Proof. intros <- <-. unfold under. rewrite <- list_fmap_compose. done. Qed.

(** What [main_fixtures] prints, in its six blocks. *)
Definition main_lines (dwt_prf : bool) : list (shape * Z * Z * bool) :=
  labelled 64000000 false (ticks ++ fixture_shapes dwt_prf 0 true) ++
  labelled 64000000 true (fixture_shapes dwt_prf 1 false) ++
  labelled 160000000 true ([ShPuts "INFO sysclk=160000000 hclk=80000000 vos=3"] ++ ticks ++ fixture_shapes dwt_prf 1 false) ++
  labelled 160000000 false (fixture_shapes dwt_prf 0 false) ++
  labelled 400000000 false ([ShPuts "INFO sysclk=400000000 hclk=200000000 vos=1"] ++ ticks ++ fixture_shapes dwt_prf 0 false) ++
  labelled 400000000 true (fixture_shapes dwt_prf 1 false).

Lemma main_goes dwt_prf r :
  paced → sysclk_of r = 64000000 → cache_on r = false →
  ∃ r' ls, goes (main_fixtures e M settle delay spin dwt_prf) r 64000000 ls r' 400000000 ∧ label_of <$> ls = main_lines dwt_prf.
Proof.
  intros Hp Hsys Hc. set (r1 := dcache_enable r). destruct (dcache_enable_spec r) as [Hc1 Hs1]. fold r1 in Hc1, Hs1.
  destruct (clock_pll_sets settle delay r1 20 8 0) as (r2 & Hr2 & Hs2 & _ & _ & _ & Hc2); [lia..|].
  set (r3 := dcache_disable r2). destruct (dcache_disable_spec r2) as [Hc3 Hs3]. fold r3 in Hc3, Hs3.
  destruct (power_vos1_ends settle delay r3) as (r4 & Hr4 & _ & _ & Hc4).
  destruct (clock_pll_sets settle delay r4 50 8 4) as (r5 & Hr5 & Hs5 & _ & _ & _ & Hc5); [lia..|].
  set (r6 := dcache_enable r5). destruct (dcache_enable_spec r5) as [Hc6 Hs6]. fold r6 in Hc6, Hs6.
  change (8000000 * 20) with 160000000 in Hs2. change (8000000 * 50) with 400000000 in Hs5. exists r6. eexists. split.
  - unfold main_fixtures. eapply goes_bind; [by apply goes_calibrate|]. eapply goes_bind; [by apply goes_emits, (emits_run_fixtures e r 64000000 M)|].
    eapply goes_bind; [by apply (goes_regs _ _ _ r1)|]. eapply goes_bind; [by apply goes_emits, (emits_run_fixtures e r1 64000000 M)|].
    eapply goes_bind; [by apply (goes_regs _ _ _ r2)|]. eapply goes_bind; [apply goes_sysclk|]. eapply goes_bind; [apply goes_emits, emits_say; nums|].
    eapply goes_bind; [by apply goes_calibrate|]. eapply goes_bind; [by apply goes_emits, (emits_run_fixtures e r2 160000000 M)|].
    eapply goes_bind; [by apply (goes_regs _ _ _ r3)|]. eapply goes_bind; [by apply goes_emits, (emits_run_fixtures e r3 160000000 M)|].
    eapply goes_bind; [by apply (goes_regs _ _ _ r4)|]. eapply goes_bind; [by apply (goes_regs _ _ _ r5)|].
    eapply goes_bind; [apply goes_sysclk|]. eapply goes_bind; [apply goes_emits, emits_say; nums|].
    eapply goes_bind; [by apply goes_calibrate|]. eapply goes_bind; [by apply goes_emits, (emits_run_fixtures e r5 400000000 M)|].
    eapply goes_bind; [by apply (goes_regs _ _ _ r6)|]. by apply goes_emits, (emits_run_fixtures e r6 400000000 M).
  - rewrite !fmap_app. cbn [fmap list_fmap app]. rewrite !(label_under 64000000 r false), !(label_under 64000000 r1 true), !(label_under 160000000 r2 true),
      !(label_under 160000000 r3 false), !(label_under 400000000 r5 false), !(label_under 400000000 r6 true) by congruence.
    unfold main_lines, labelled. rewrite !fmap_app, <- !app_assoc. done.
Qed.

(** The layout-sweep build runs to [DONE], at 400 MHz, cache off and then on. *)
Lemma sweep_goes layout r sys :
  paced → sysclk_of r = sys → cache_on r = false → line_ok layout → shape_of layout = ShLayout →
  ∃ r' ls, goes (sweep_main e M settle delay spin layout) r sys ls r' 400000000 ∧
    label_of <$> ls = labelled sys false [ShLayout] ++
      labelled 400000000 false ([ShPuts "INFO sysclk=400000000 hclk=200000000 vos=1"] ++ ticks ++ sweep_shapes 0) ++
      labelled 400000000 true (sweep_shapes 1 ++ [ShPuts "DONE"]).
Proof.
  intros Hp Hsys Hc Hlo Hsh. destruct (power_vos1_ends settle delay r) as (r4 & Hr4 & _ & _ & Hc4).
  destruct (clock_pll_sets settle delay r4 50 8 4) as (r5 & Hr5 & Hs5 & _ & _ & _ & Hc5); [lia..|]. change (8000000 * 50) with 400000000 in Hs5.
  set (r6 := dcache_enable r5). destruct (dcache_enable_spec r5) as [Hc6 Hs6]. fold r6 in Hc6, Hs6.
  exists r6. eexists. split.
  - unfold sweep_main. eapply goes_bind; [by apply goes_emits, emits_say|]. eapply goes_bind; [by apply (goes_regs _ _ _ r4)|].
    eapply goes_bind; [by apply (goes_regs _ _ _ r5)|]. eapply goes_bind; [apply goes_sysclk|]. eapply goes_bind; [apply goes_emits, emits_say; nums|].
    eapply goes_bind; [by apply goes_calibrate|]. eapply goes_bind; [by apply goes_emits, (emits_sweep e r5 400000000 M)|].
    eapply goes_bind; [by apply (goes_regs _ _ _ r6)|]. eapply goes_bind; [by apply goes_emits, (emits_sweep e r6 400000000 M)|].
    apply goes_emits, emits_say; nums.
  - rewrite !fmap_app, Hsh. cbn [fmap list_fmap app]. rewrite !(label_under sys r false), !(label_under 400000000 r5 false), !(label_under 400000000 r6 true) by congruence.
    unfold labelled. rewrite !fmap_app, <- ?app_assoc. done.
Qed.

(** ** From reset *)
(** The set-up leaves the clock switch and the data cache as they were. *)
Lemma board_init_keeps r :
  Z.land (rd RCC_CFGR r) 7 = 0 → cache_on r = false →
  (board_init r).1 = negb (Z.testbit (rd DWT_CTRL r) 24) ∧ sysclk_of (board_init r).2 = 64000000 ∧ cache_on (board_init r).2 = false.
Proof.
  intros Hsw Hc.
  assert (∀ a v m r', a ≠ m → rd a (set_bits m v r') = rd a r') as Hsb by (intros; unfold set_bits; by rewrite rd_wr, decide_False).
  assert (∀ a m v r', a ≠ m → rd a (wr m v r') = rd a r') as Hwr by (intros; by rewrite rd_wr, decide_False).
  unfold board_init, dwt_init, dwt_prof_init, mpu_init. cbv zeta. rewrite testbit_land by lia.
  set (r2 := set_bits DWT_CTRL 1 _). assert (Z.testbit (rd DWT_CTRL r2) 24 = Z.testbit (rd DWT_CTRL r) 24) as Hb.
  { unfold r2, set_bits at 1. rewrite rd_wr, decide_True by done. unfold u32. rewrite Z.mod_pow2_bits_low, Z.lor_spec by lia.
    change (Z.testbit 1 24) with false. rewrite orb_false_r. unfold uart_init. cbv zeta. by rewrite !Hwr, !Hsb, !Hwr, !field_other, !Hsb, !field_other, !Hsb by done. }
  rewrite Hb. assert (∀ a, a ≠ DWT_CTRL → rd a (if negb (Z.testbit (rd DWT_CTRL r) 24) then set_bits DWT_CTRL (bits 31 17) r2 else r2) = rd a r2) as H2
    by (intros a Ha; destruct (negb _); [by apply Hsb|done]).
  set (r3 := if negb _ then _ else _) in *. cbn [write_region mpu_region fst snd]. split; [done|].
  assert (rd RCC_CFGR r3 = rd RCC_CFGR r ∧ rd SCB_CCR r3 = rd SCB_CCR r) as [Hf3 Hc3].
  { rewrite !H2 by done. unfold r2, uart_init. cbv zeta. split; by rewrite !Hsb, !Hwr, !Hsb, !Hwr, !field_other, !Hsb, !field_other, !Hsb by done. }
  split.
  - unfold sysclk_of, icache_enable. rewrite Hsb, !Hwr, Hf3, Hsw by done. done.
  - unfold cache_on, icache_enable, set_bits in *. rewrite rd_wr, decide_True by done. unfold u32. rewrite Z.mod_pow2_bits_low, Z.lor_spec by lia.
    change (Z.testbit (bit 17) 16) with false. rewrite orb_false_r, !Hwr, Hc3 by done. done.
Qed.

Definition words (r : regs) : Prop := map_Forall (λ _, is_u32) r.
Lemma rd_word a r : words r → is_u32 (rd a r).
Proof. intros Hr. unfold rd. destruct (r !! a) as [v|] eqn:Ha; [exact (Hr a v Ha)|done]. Qed.
Lemma wr_words a v r : words r → words (wr a v r).
Proof. intros Hr. apply map_Forall_insert_2; [apply u32_range|done]. Qed.
Lemma board_init_words r : words r → words (board_init r).2.
Proof.
  intros Hr. unfold board_init, dwt_init, dwt_prof_init, mpu_init, write_region, mpu_region, icache_enable, uart_init, set_bits, set_field. cbv zeta. cbn [fst snd].
  match goal with |- context [if ?b then _ else _] => destruct b end; repeat apply wr_words; exact Hr.
Qed.

(** C37: the fixture runs of the M7's [main], from reset, at any cycle, profile
    and heap readings.  The program gets through to its interrupt arms; it prints
    no [CHECK] line; in each of its six runs every structure has its five rows per
    fixture, with the same number of operations for all of them (2000 ingested,
    500 looked up, 600 and 25 evicted, by scan, loop or range); and every line
    names the clock and the data cache that the registers have at that moment:
    64, 160 and 400 MHz, cache off and on. *)
Theorem fixture_lines_true headroom h :
  paced → is_u32 headroom → words (h_regs h) → Z.land (rd RCC_CFGR (h_regs h)) 7 = 0 → cache_on (h_regs h) = false → h_sysclk h = 64000000 → h_log h = [] →
  ∃ h', main_to_arms e M settle delay spin headroom h = Some (tt, h') ∧
    label <$> h_log h' = labelled 64000000 false [ShBanner] ++ main_lines (negb (Z.testbit (rd DWT_CTRL (h_regs h)) 24)) ∧
    Forall (λ en, line_ok (en_line en)) (h_log h').
Proof.
  intros Hp Hhr Hw Hsw Hc Hs Hl. destruct (board_init_keeps (h_regs h) Hsw Hc) as (Hprf & Hsys & Hc1). apply board_init_words in Hw. unfold main_to_arms.
  destruct (board_init (h_regs h)) as [prf r0]. cbn [fst snd] in *. subst prf. cbv zeta. set (r := wr SCB_CSSELR 0 r0).
  assert (sysclk_of r = 64000000 ∧ cache_on r = false) as [Hsys1 Hc2] by (unfold sysclk_of, cache_on, r in *; by rewrite !rd_wr, !decide_False).
  destruct (main_goes (negb (Z.testbit (rd DWT_CTRL (h_regs h)) 24)) r Hp Hsys1 Hc2) as (r' & ls & Hgo & Hls).
  set (l := Banner _ _ _ _ _ _).
  assert (goes (on_regs (λ _, Some r);; say l;; main_fixtures e M settle delay spin (negb (Z.testbit (rd DWT_CTRL (h_regs h)) 24))) (h_regs h) 64000000
            ([] ++ under 64000000 r [shape_of l] ++ ls) r' 400000000) as Hall.
  { eapply goes_bind; [by apply goes_regs|]. eapply goes_bind; [apply goes_emits, emits_say|exact Hgo].
    repeat (constructor; [first [by apply rd_word, wr_words|exact Hhr]|]). constructor. }
  destruct (Hall h eq_refl Hs) as (h' & new & He & _ & _ & Hlog & Hnew & Ho). exists h'. split; [exact He|]. rewrite Hlog, Hl, app_nil_l.
  split; [|exact Ho]. rewrite label_shape, Hnew, !fmap_app, Hls, (label_under 64000000 r false) by done. done.
Qed.
End Program.

(** A board that settles at once and a counter that jumps. *)
Lemma fixture_lines_true_witness :
  ∃ h', main_to_arms (Env (λ n, Z.of_nat n * 320000000) (λ _, DwtSnap 0 0 0 0 0 0) (λ _, 0) (λ _, 0)) (gmap Z Z) settle_now 1 1 4
          (Hst 0 0 0 ∅ 64000000 []) = Some (tt, h') ∧
    label <$> h_log h' = labelled 64000000 false [ShBanner] ++ main_lines true.
Proof.
  set (e := Env (λ n, Z.of_nat n * 320000000) (λ _, DwtSnap 0 0 0 0 0 0) (λ _, 0) (λ _, 0)).
  destruct (fixture_lines_true e settle_now 1 1 (gmap Z Z) 4 (Hst 0 0 0 ∅ 64000000 [])) as (h' & He & Hl & _).
  - intros n. exists 0%nat. split; [lia|]. cbn [e_cyc e]. replace (Z.of_nat (n + 1 + 0) * 320000000) with (Z.of_nat n * 320000000 + 320000000) by lia.
    unfold u32. rewrite <- Zminus_mod. replace (Z.of_nat n * 320000000 + 320000000 - Z.of_nat n * 320000000) with 320000000 by lia. done.
  - done.
  - apply map_Forall_empty.
  - reflexivity.
  - reflexivity.
  - reflexivity.
  - reflexivity.
  - exists h'. split; [exact He|exact Hl].
Defined.
