(* ===== verification/M4Text.v ===== *)
(** * The M4's turn and the room its text needs

    Model of [m4_run_fixtures] of [src/integrations/stm32h747/main.c]: banner,
    fixtures, both interrupt arms and the heap line, printed into the 48 KB
    buffer the M7 relays, with the lines [isr_report] and [arm_sync32] print.
    The arms' figures are those of any reports; [arm_sync32]'s two [CHECK]s are
    printed when its map gets no memory and once per refused pre-fill. *)
From Stdlib Require Import String Ascii.
From stdpp Require Import base numbers list sorting gmap.
From S2P Require Import Prelude SortedAssoc ExpanseApi Alts TSearch HarnessOut HarnessArms IsrArms HarnessBoard HarnessRun HarnessLog.
Open Scope Z_scope.
Abbreviation length := List.length.

(** ** Lines of the arms *)
Section Lines.
Context (CORE_NAME : string) (sysclk_hz : Z).
Definition isr_report (arm : string) (p : report) : option (list Z) :=
  let c := p_isr p in
  n ← kvs [("sysclk", sysclk_hz); ("dcache", 1); ("period", p_period p); ("writer_cycles", p_cycles p); ("mutations", p_mutations p);
           ("isr_n", isr_n c); ("isr_ok", isr_ok c); ("isr_nf", isr_nf c); ("isr_busy", isr_busy c); ("isr_bad", isr_bad c);
           ("lat_max", lat_max c); ("lat_sum", lat_sum c); ("dur_max", dur_max c); ("dur_sum", dur_sum c);
           ("refused", p_refused p); ("arena_full", p_full p)]%string;
  Some (chars "RESULT name=" ++ chars arm ++ ks "core" CORE_NAME ++ n ++ crlf).
(** The line after [arm_sync32]'s rates: what [writer_stats] answered. *)
Definition sync32_info (len mem_used pending free_slots : Z) : option (list Z) :=
  l ← uart_u32 len;
  n ← kvs [("mem_used", mem_used); ("pending", pending); ("free_slots", free_slots)]%string;
  Some (chars "INFO core=" ++ chars CORE_NAME ++ chars " sync32_len=" ++ l ++ n ++ crlf).
Definition heap_info (hwm : Z) : option (list Z) :=
  h ← uart_u32 hwm; Some (chars "INFO core=m4 heap_hwm=" ++ h ++ crlf).
End Lines.
(** The pieces a program prints one after the other. *)
Definition printed (l : list (option (list Z))) : option (list Z) := @List.concat Z <$> mapM id l.

(** What the arms and the registers contribute to the M4's text. *)
Record m4_figures := M4Figures {
  f_cpuid : Z; f_headroom : Z;
  f_map_ok : bool;  (** [expanse_sync32_map_new] returned a map *)
  f_prefill_bad : nat;  (** pre-fill insertions that were refused *)
  f_sync32 : list report; f_len : Z; f_mem_used : Z; f_pending : Z; f_free_slots : Z;
  f_critical : list report; f_hwm : Z;
}.
(** [arm_sync32]: early return without a map; one line per refused pre-fill, per
    rate, and the statistics. *)
Definition arm_sync32_text (f : m4_figures) : list (option (list Z)) :=
  if negb (f_map_ok f) then [Some (chars "CHECK sync32 new" ++ crlf)]
  else
    replicate (f_prefill_bad f) (Some (chars "CHECK sync32 prefill" ++ crlf)) ++
    (isr_report "m4" 200000000 "isr_sync32" <$> f_sync32 f) ++
    [sync32_info "m4" (f_len f) (f_mem_used f) (f_pending f) (f_free_slots f)].
(** [m4_run_fixtures] from [banner()] to the heap line; [log] is what
    [run_fixtures(0, true)] printed. *)
Definition m4_run_fixtures (dwt_prf : bool) (log : list line) (f : m4_figures) : option (list Z) :=
  printed (
    [banner_text "m4" false (f_cpuid f) 0 0 0 (f_headroom f) dwt_prf] ++
    (render "m4" 200000000 <$> log) ++
    arm_sync32_text f ++
    (isr_report "m4" 200000000 "isr_critical_section" <$> f_critical f) ++
    [heap_info (f_hwm f)]).
Definition report_nums (p : report) : list Z :=
  let c := p_isr p in
  [p_period p; p_cycles p; p_mutations p; isr_n c; isr_ok c; isr_nf c; isr_busy c; isr_bad c; lat_max c; lat_sum c; dur_max c; dur_sum c;
   p_refused p; p_full p].
(** Every figure is a [uint32_t], the pre-fill makes 2048 insertions, and the arms
    report their four rates. *)
Definition figures_ok (f : m4_figures) : Prop :=
  Forall is_u32 [f_cpuid f; f_headroom f; f_len f; f_mem_used f; f_pending f; f_free_slots f; f_hwm f] ∧
  Forall (λ p, Forall is_u32 (report_nums p)) (f_sync32 f) ∧ Forall (λ p, Forall is_u32 (report_nums p)) (f_critical f) ∧
  (f_prefill_bad f <= 2048)%nat ∧ length (f_sync32 f) = length rates ∧ length (f_critical f) = length rates.

(** ** How long they get *)
(** The values of a line's fields are words. *)
Ltac fields := repeat (apply Forall_cons_2; [first [assumption|done|match goal with |- context [Z.b2z ?b] => by destruct b end]|]); apply Forall_nil_2.
Definition within (o : option (list Z)) (n : nat) : Prop := ∃ s, o = Some s ∧ (length s <= n)%nat.
Lemma within_le o n n' : within o n → (n <= n')%nat → within o n'.
Proof. intros (s & -> & Hs) Hn. exists s. split; [done|lia]. Qed.
Lemma within_bind o n f n' : within o n → (∀ s, (length s <= n)%nat → within (f s) n') → within (o ≫= f) n'.
Proof. intros (s & -> & Hs) Hf. by apply Hf. Qed.
Lemma chars_length s : length (chars s) = String.length s.
Proof. unfold chars. rewrite length_fmap. induction s as [|c s IH]; [done|]. cbn. by rewrite IH. Qed.
Lemma u32_within v : is_u32 v → within (uart_u32 v) 10.
Proof. intros Hv. destruct (numbers_read_back v Hv) as [(s & Hs & _ & _ & Hl & _) _]. exists s. split; [done|lia]. Qed.
Lemma hex_within v : is_u32 v → within (uart_hex v) 10.
Proof.
  intros Hv. destruct (numbers_read_back v Hv) as [_ (s & Hs & Hl & _)]. exists (chars "0x" ++ s). split; [done|]. rewrite length_app, Hl. cbn. lia.
Qed.
(** A key, its two delimiters and ten digits each. *)
Definition keys_width (ks : list string) : nat := list_sum ((λ k, String.length k + 12)%nat <$> ks).
Lemma kvs_within l : Forall (λ e, is_u32 e.2) l → within (kvs l) (keys_width l.*1).
Proof.
  induction l as [|[k v] l IH]; intros Hl; [by exists []|]. apply Forall_cons in Hl as [Hv Hl]. cbn [fst snd] in Hv. cbn [kvs].
  change (keys_width ((k, v) :: l).*1) with (String.length k + 12 + keys_width l.*1)%nat. destruct (u32_within v Hv) as (d & Hd & Hdl).
  unfold kv. rewrite Hd. cbn [mbind option_bind]. destruct (IH Hl) as (s & -> & Hs). cbn [mbind option_bind].
  eexists. split; [done|]. rewrite !length_app, chars_length. cbn [length]. lia.
Qed.
Lemma ks_length k v : length (HarnessOut.ks k v) = (String.length k + String.length v + 2)%nat.
Proof. unfold ks. rewrite !length_app, !chars_length. cbn [length]. lia. Qed.

(** The most characters a line of a shape has. *)
Definition width (s : shape) : nat :=
  match s with
  | ShPuts s => String.length s + 2
  | ShResult name impl _ _ _ => 28 + String.length name + String.length impl + keys_width ["sysclk"; "dcache"; "pass"; "cycles"; "ops"]
  | ShDwt fixture impl _ _ _ =>
      41 + String.length fixture + String.length impl +
      keys_width ["sysclk"; "dcache"; "pass"; "ops"; "cycles"; "cpi"; "exc"; "sleep"; "lsu"; "fold"; "cpi_max"; "lsu_max"; "suspect"]
  | ShBytes impl shape _ => 40 + String.length impl + String.length shape + keys_width ["keys"; "heap_bytes"; "req_bytes"]
  | ShBanner | ShLayout => 0
  end%string%nat.
Definition printable (l : line) : Prop := match l with Banner _ _ _ _ _ _ | Layout _ _ _ _ _ _ _ _ => False | _ => True end.
Lemma render_within sys l : is_u32 sys → line_ok l → printable l → within (render "m4" sys l) (width (shape_of l)).
Proof.
  intros Hs Hl Hp. destruct l as [s|name impl dcache pass cycles ops|fixture impl dcache pass p ops|impl shape keys hb rb| |]; [..|done|done].
  - eexists. split; [done|]. rewrite length_app, chars_length. done.
  - unfold line_ok in Hl. cbn [line_nums] in Hl. repeat (apply Forall_cons in Hl as [? Hl]). cbn [render]. unfold result.
    eapply within_bind; [apply kvs_within; fields|]. intros n Hn. eexists. split; [done|].
    rewrite !length_app, !ks_length, !chars_length. cbn [shape_of width fmap list_fmap fst] in *. cbn [length crlf String.length]. lia.
  - unfold line_ok in Hl. cbn [line_nums prof_nums app] in Hl. repeat (apply Forall_cons in Hl as [? Hl]). cbn [render]. unfold result_dwt.
    eapply within_bind; [apply kvs_within; fields|]. intros n Hn. eexists. split; [done|].
    rewrite !length_app, !ks_length, !chars_length. cbn [shape_of width fmap list_fmap fst] in *. cbn [length crlf String.length]. lia.
  - unfold line_ok in Hl. cbn [line_nums] in Hl. repeat (apply Forall_cons in Hl as [? Hl]). cbn [render].
    eapply within_bind; [apply kvs_within; fields|]. intros n Hn. eexists. split; [done|].
    rewrite !length_app, !ks_length, !chars_length. cbn [shape_of width fmap list_fmap fst] in *. cbn [length crlf String.length]. lia.
Qed.
Lemma report_within sys arm p : is_u32 sys → Forall is_u32 (report_nums p) → within (isr_report "m4" sys arm p) (String.length arm + 360).
Proof.
  intros Hs Hp. unfold report_nums in Hp. cbv zeta in Hp. repeat (apply Forall_cons in Hp as [? Hp]). unfold isr_report.
  eapply within_bind; [apply kvs_within; fields|]. intros n Hn. eexists. split; [done|].
  rewrite !length_app, !ks_length, !chars_length. cbn [fmap list_fmap fst] in Hn. vm_compute (keys_width _) in Hn. cbn [length crlf String.length]. lia.
Qed.
Lemma info_within len mem_used pending free_slots :
  is_u32 len → is_u32 mem_used → is_u32 pending → is_u32 free_slots → within (sync32_info "m4" len mem_used pending free_slots) 120.
Proof.
  intros. unfold sync32_info. eapply within_bind; [by apply u32_within|]. intros l Hl.
  eapply within_bind; [apply kvs_within; fields|]. intros n Hn. eexists. split; [done|].
  rewrite !length_app, !chars_length. cbn [fmap list_fmap fst] in Hn. vm_compute (keys_width _) in Hn. cbn [length crlf String.length]. lia.
Qed.
Lemma heap_within hwm : is_u32 hwm → within (heap_info hwm) 40.
Proof.
  intros. unfold heap_info. eapply within_bind; [by apply u32_within|]. intros l Hl. eexists. split; [done|].
  rewrite !length_app, !chars_length. cbn [length crlf String.length]. lia.
Qed.
Lemma banner_within cpuid headroom prf : is_u32 cpuid → is_u32 headroom → within (banner_text "m4" false cpuid 0 0 0 headroom prf) 130.
Proof.
  intros Hc Hh. unfold banner_text. eapply within_bind; [by apply hex_within|]. intros id Hid.
  do 2 (eapply within_bind; [by apply hex_within|]; intros ? _). eapply within_bind; [apply kvs_within; fields|]. intros ? _.
  eapply within_bind; [apply kvs_within; fields|]. intros n Hn. eexists. split; [done|].
  rewrite !length_app, !chars_length. cbn [fmap list_fmap fst] in Hn. vm_compute (keys_width _) in Hn. cbn [length crlf String.length]. lia.
Qed.
Lemma printed_cons o l n n' : within o n → within (printed l) n' → within (printed (o :: l)) (n + n').
Proof.
  intros (s & -> & Hs) (s' & Hl & Hs'). unfold printed in *. apply fmap_Some in Hl as (x & Hx & ->). exists (s ++ concat x).
  split; [cbn; by rewrite Hx|]. rewrite length_app. lia.
Qed.
Lemma printed_nil : within (printed []) 0.
Proof. by exists []. Qed.
Lemma printed_app l l' n n' : within (printed l) n → within (printed l') n' → within (printed (l ++ l')) (n + n').
Proof.
  intros (s & Hl & Hs) (s' & Hl' & Hs'). unfold printed in *. apply fmap_Some in Hl as (x & Hx & ->). apply fmap_Some in Hl' as (x' & Hx' & ->).
  exists (concat (x ++ x')). split; [|rewrite concat_app, length_app; lia]. apply fmap_Some. exists (x ++ x'). split; [|done].
  apply mapM_Some in Hx, Hx'. apply mapM_Some. by apply Forall2_app.
Qed.
Lemma printed_map {A} (f : A → option (list Z)) (w : A → nat) l : Forall (λ x, within (f x) (w x)) l → within (printed (f <$> l)) (list_sum (w <$> l)).
Proof. induction l as [|x l IH]; intros Hl; [apply printed_nil|]. apply Forall_cons in Hl as [Hx Hl]. by apply printed_cons; [|apply IH]. Qed.
(** The most the fixtures' lines take, for either kind of core. *)
Lemma fixtures_width dwt_prf : Z.of_nat (list_sum (width <$> fixture_shapes dwt_prf 0 true)) <= 29000.
Proof. apply Z.leb_le. destruct dwt_prf; vm_compute; reflexivity. Qed.
Lemma fixtures_printable dwt_prf : Forall (λ s, s ≠ ShBanner ∧ s ≠ ShLayout) (fixture_shapes dwt_prf 0 true).
Proof. destruct dwt_prf; repeat (apply Forall_cons_2; [done|]); apply Forall_nil_2. Qed.
Lemma reports_within arm l :
  Forall (λ p, Forall is_u32 (report_nums p)) l → within (printed (isr_report "m4" 200000000 arm <$> l)) (length l * (String.length arm + 360)).
Proof.
  intros Hl. eapply within_le; [apply (printed_map _ (λ _, String.length arm + 360)%nat)|].
  - eapply Forall_impl; [exact Hl|]. intros p Hp. apply report_within; [word_lia|done].
  - clear. induction l as [|p l IH]; [done|]. cbn [fmap list_fmap list_sum length] in *. unfold list_sum in *. cbn [foldr] in *. lia.
Qed.

Definition arm_width (f : m4_figures) : nat := if f_map_ok f then f_prefill_bad f * 22 + 1600 else 20.
Lemma arm_sync32_within f :
  figures_ok f → within (printed (arm_sync32_text f)) (arm_width f).
Proof.
  intros (Hn & Hr1 & _ & _ & Hl1 & _). repeat (apply Forall_cons in Hn as [? Hn]). unfold arm_sync32_text, arm_width. destruct (f_map_ok f); cbn [negb].
  - eapply within_le.
    + apply printed_app; [|apply printed_app; [by apply reports_within|apply printed_cons; [by apply info_within|apply printed_nil]]].
      assert (∀ n, within (printed (replicate n (Some (chars "CHECK sync32 prefill" ++ crlf)))) (n * 22)) as Hc; [|apply Hc].
      induction n as [|n IH]; [apply printed_nil|]. apply (printed_cons _ _ 22); [|exact IH]. eexists. split; [done|]. vm_compute. lia.
    + rewrite Hl1. cbn [length rates String.length]. lia.
  - eapply within_le; [apply (printed_cons _ _ 20); [eexists; split; [done|vm_compute; lia]|apply printed_nil]|]. lia.
Qed.

(** C40: the M4's text and the room it needs.  Whatever its counters read, with
    every figure a 32-bit word and whatever [arm_sync32]'s checks find,
    [m4_run_fixtures] prints a text [s], and the M7 relays its first 48 KB,
    followed by [CHECK m4 text buffer overflowed] exactly when there is more.
    When the map got no memory or at most 700 of the 2048 pre-fill insertions
    were refused there is not: the text is relayed whole. *)
Theorem m4_text_fits (M : Type) `{ExpanseMapLaws M, TSearchLaws} (e : env) (dwt_prf : bool) (h : hst) (f : m4_figures) (buf : list Z) :
  h_sysclk h = 200000000 → h_log h = [] → figures_ok f → Z.of_nat (length buf) = SHM_TEXT_SIZE →
  ∃ h' s, run_fixtures e M dwt_prf 0 true h = Some (tt, h') ∧ m4_run_fixtures dwt_prf (en_line <$> h_log h') f = Some s ∧
    (t ← uart_puts s (Text buf 0 0); dump_text t)
    = Some (take (Z.to_nat SHM_TEXT_SIZE) s ++
            if Z.of_nat (length s) >? SHM_TEXT_SIZE then chars "CHECK m4 text buffer overflowed" ++ crlf else []) ∧
    (f_map_ok f = false ∨ (f_prefill_bad f <= 700)%nat →
       Z.of_nat (length s) <= SHM_TEXT_SIZE ∧ (t ← uart_puts s (Text buf 0 0); dump_text t) = Some s).
Proof.
  intros Hs Hl Hf Hb. pose proof (arm_sync32_within f Hf) as Harm. destruct Hf as (Hn & Hr1 & Hr2 & Hbad & Hl1 & Hl2). repeat (apply Forall_cons in Hn as [? Hn]).
  assert (is_u32 0) as H0' by word_lia.
  destruct (emits_run_fixtures e (h_regs h) 200000000 M dwt_prf 0 true H0' h eq_refl Hs) as ([] & h' & new & He & _ & _ & _ & Hlog & Hsh & Ho).
  rewrite Hl, app_nil_l in Hlog.
  assert (within (m4_run_fixtures dwt_prf (en_line <$> h_log h') f) (Z.to_nat 31400 + arm_width f)) as (s & Hm & Hlen).
  { assert (shape_of <$> (en_line <$> new) = fixture_shapes dwt_prf 0 true) as Hshape.
    { transitivity ((λ x : shape * Z * regs, x.1.1) <$> (shape_entry <$> new)); [by rewrite <- !list_fmap_compose|].
      rewrite Hsh. unfold under. rewrite <- list_fmap_compose. apply list_fmap_id. }
    rewrite Hlog. eapply within_le.
    - unfold m4_run_fixtures. apply printed_app; [apply printed_cons; [by apply banner_within|apply printed_nil]|].
      apply printed_app; [apply (printed_map _ (width ∘ shape_of))|].
      { apply Forall_fmap. pose proof (fixtures_printable dwt_prf) as Hp. rewrite <- Hshape, !Forall_fmap in Hp.
        rewrite Forall_forall in Ho, Hp |- *. intros en Hen. specialize (Ho en Hen). specialize (Hp en Hen). apply render_within; [word_lia|done|]. unfold compose in Hp. cbn beta in Hp. destruct Hp; by destruct (en_line en). }
      apply printed_app; [exact Harm|]. apply printed_app; [by apply reports_within|]. apply printed_cons; [by apply heap_within|apply printed_nil].
    - rewrite list_fmap_compose, Hshape, Hl2. pose proof (fixtures_width dwt_prf). cbn [length rates String.length]. lia. }
  exists h', s. split; [exact He|]. split; [exact Hm|]. split; [by apply text_relay|]. intros Hfit.
  assert (Z.of_nat (length s) <= SHM_TEXT_SIZE) as Hsz.
  { unfold SHM_TEXT_SIZE. assert (Z.of_nat (arm_width f) <= 17000); [|lia]. unfold arm_width. destruct Hfit as [->|?]; [lia|]. destruct (f_map_ok f); lia. }
  split; [exact Hsz|]. rewrite (text_relay s buf Hb), Z.gtb_ltb, (proj2 (Z.ltb_ge _ _)), app_nil_r, take_ge by lia. done.
Qed.
Lemma m4_text_fits_witness :
  let c := Isr 0 0 0 0 0 0 0 0 0 0 in
  let f := M4Figures 0 0 true 3 (replicate 4 (Report 0 0 0 0 0 c)) 0 0 0 0 (replicate 4 (Report 0 0 0 0 0 c)) 0 in
  ∃ h' s, run_fixtures (Env (λ _, 0) (λ _, DwtSnap 0 0 0 0 0 0) (λ _, 0) (λ _, 0)) (gmap Z Z) true 0 true (Hst 0 0 0 ∅ 200000000 []) = Some (tt, h') ∧
    m4_run_fixtures true (en_line <$> h_log h') f = Some s ∧ Z.of_nat (length s) <= SHM_TEXT_SIZE.
Proof.
  intros c f.
  destruct (m4_text_fits (gmap Z Z) (Env (λ _, 0) (λ _, DwtSnap 0 0 0 0 0 0) (λ _, 0) (λ _, 0)) true (Hst 0 0 0 ∅ 200000000 []) f
    (replicate (Z.to_nat SHM_TEXT_SIZE) 0)) as (h' & s & He & Hm & _ & Hlen).
  - reflexivity.
  - reflexivity.
  - assert (is_u32 0) by word_lia. unfold figures_ok, f. cbn [f_cpuid f_headroom f_len f_mem_used f_pending f_free_slots f_hwm f_sync32 f_critical f_prefill_bad replicate].
    split; [fields|]. assert (Forall is_u32 (report_nums (Report 0 0 0 0 0 c))) by (unfold report_nums, c; cbn; fields). split; [fields|]. split; [fields|]. split; [lia|]. done.
  - rewrite length_replicate. unfold SHM_TEXT_SIZE. lia.
  - exists h', s. split; [exact He|]. split; [exact Hm|]. apply Hlen. right. apply Nat.leb_le. reflexivity.
Defined.
