(* ===== verification/RocksTable.v ===== *)
(** * The RocksDB memtable representation: leaf blocks under a trie

    Model of [ExpanseMemTableRep] ([src/integrations/rocksdb/src/expanse_memtable.cc]
    and its classes in [include/expanse_memtable.h]): a doubly linked chain of
    blocks of up to 64 entry pointers, a trie from key prefixes to blocks, the
    writer ([Insert], [SplitLeafBlock]), the lookups and the cursor.  This file
    has the operations as one thread runs them, in lock scopes [kFullLocate] and
    [kTrieCall], which then do the same.  A block pointer is the [Z] that keys the heap of blocks;
    an entry pointer is an element of a type [E] with its write-once memory
    [data].  [None] is a null dereference, an access outside an array, or a retry
    loop that nothing would end.  The fields [prev] and [next] of a block, which
    repeat [prev_leaf] and [next_leaf] and are never read, are left out, and so
    are prefetches. *)
From stdpp Require Import base numbers list sorting gmap.
From S2P Require Import Prelude SortedAssoc ExpanseApi Sync32 EngineViews RocksKeys.
Open Scope Z_scope.

(** RocksDB's comparator, on two entries and on an internal key and an entry. *)
Class KeyComparator (E : Type) := {
  compare_ : E → E → Z;
  compare_slice : bytes → E → Z;
  data : E → bytes;  (** the memory from the pointer on *)
}.

Definition kMaxCapacity : Z := 64.
Definition sizeof_LeafBlock : Z := 576.

Section Model.
Context {E : Type} `{!KeyComparator E} {M : Type} `{!ExpanseMap M, !ExpanseMapPrev M}.

(** ** Blocks *)
Record leaf_block := LeafBlock { version : Z; count : Z; prev_leaf : option Z; next_leaf : option Z; slots : list (option E) }.
Definition new_leaf : leaf_block := LeafBlock 0 0 None None (replicate (Z.to_nat kMaxCapacity) None).
(** The pointer read; [Some None] is a null pointer. *)
Definition min_key (b : leaf_block) : option (option E) := if count b >? 0 then arr_get (slots b) 0 else Some None.
Definition max_key (b : leaf_block) : option (option E) := if count b >? 0 then arr_get (slots b) (count b - 1) else Some None.
Definition slice_at (e : E) : option bytes := GetLengthPrefixedSlice (Some (data e)).

Record rep := Rep {
  heap : gmap Z leaf_block; head_ : Z; tail_ : Z; total_keys_ : Z; total_allocated_bytes_ : Z; trie_index_ : M; leaf_capacity_ : Z;
}.
(** [new LeafBlock()]: where the allocator puts it. *)
Context (new_addr : gmap Z leaf_block → Z).
Definition rep_new (leaf_capacity : Z) : rep :=
  let root := new_addr ∅ in
  Rep {[root := new_leaf]} root root 0 sizeof_LeafBlock expanse_map_new
    (if leaf_capacity >? 0 then Z.min leaf_capacity kMaxCapacity else kMaxCapacity).
Definition Count (r : rep) : Z := total_keys_ r.

(** ** Walks along the chain *)
(** [while (prev_leaf && min_key() && after(min_key())) candidate = prev_leaf] *)
Fixpoint walk_back (fuel : nat) (h : gmap Z leaf_block) (after : E → bool) (candidate : Z) : option Z :=
  match fuel with
  | O => None
  | S fuel =>
      b ← h !! candidate;
      match prev_leaf b with
      | None => Some candidate
      | Some p =>
          mk ← min_key b;
          match mk with Some m => if after m then walk_back fuel h after p else Some candidate | None => Some candidate end
      end
  end.
(** [while (next_leaf)]: on to the next block while [go] holds of its first key;
    an empty one is stepped over if [skip_empty], else it ends the walk. *)
Fixpoint walk_fwd (fuel : nat) (h : gmap Z leaf_block) (skip_empty : bool) (go : E → bool) (candidate : Z) : option Z :=
  match fuel with
  | O => None
  | S fuel =>
      b ← h !! candidate;
      match next_leaf b with
      | None => Some candidate
      | Some n =>
          nb ← h !! n;
          if count nb >? 0 then
            mk ← min_key nb;
            match mk with Some m => if go m then walk_fwd fuel h skip_empty go n else Some candidate | None => Some candidate end
          else if skip_empty then walk_fwd fuel h skip_empty go n else Some candidate
      end
  end.
(** What the trie says, the head if nothing. *)
Definition trie_candidate (r : rep) (prefix : Z) : Z :=
  match expanse_map_prev_at_or_before (trie_index_ r) prefix with
  | Some (_, out_v) => if out_v =? 0 then head_ r else out_v
  | None => head_ r
  end.
Definition FindLeafBlockForInsert (r : rep) (entry : E) : option Z :=
  if head_ r =? tail_ r then Some (head_ r)
  else
    prefix ← ExtractKeyPrefix64 (Some (data entry));
    candidate ← walk_back (size (heap r)) (heap r) (λ m, compare_ m entry >? 0) (trie_candidate r prefix);
    walk_fwd (size (heap r)) (heap r) false (λ m, compare_ m entry <=? 0) candidate.
(** [memtable_key] is [None] where the caller passes a null pointer. *)
Definition SeekPrefix (internal_key : bytes) (memtable_key : option E) : option Z :=
  match memtable_key with
  | Some k => ExtractKeyPrefix64 (Some (data k))
  | None => Some (ExtractSlicePrefix64 internal_key)
  end.
Definition SettleSeekCandidate (h : gmap Z leaf_block) (candidate : Z) (internal_key : bytes) (memtable_key : option E) : option Z :=
  let is_after m := match memtable_key with Some k => compare_ m k >? 0 | None => compare_slice internal_key m <? 0 end in
  let go m := match memtable_key with Some k => compare_ m k <=? 0 | None => compare_slice internal_key m >? 0 end in
  candidate ← walk_back (size h) h is_after candidate;
  walk_fwd (size h) h true go candidate.
Definition FindLeafBlockForSeek (r : rep) (internal_key : bytes) (memtable_key : option E) : option Z :=
  if head_ r =? tail_ r then Some (head_ r)
  else
    prefix ← SeekPrefix internal_key memtable_key;
    SettleSeekCandidate (heap r) (trie_candidate r prefix) internal_key memtable_key.

(** ** Insertion *)
(** [while (left < right)]: to the right of [mid] where [go_right] holds of its entry. *)
Fixpoint search (fuel : nat) (go_right : E → bool) (es : list (option E)) (left right : Z) : option Z :=
  if left <? right then
    match fuel with
    | O => None
    | S fuel =>
        let mid := left + (right - left) / 2 in
        e ← arr_get es mid; x ← e;
        if go_right x then search fuel go_right es (mid + 1) right else search fuel go_right es left mid
    end
  else Some left.
(** [for (i = from; n left; --i) entries[i] = entries[i - 1]] *)
Fixpoint shift_loop (n : nat) (i : Z) (es : list (option E)) : option (list (option E)) :=
  match n with
  | O => Some es
  | S n => x ← arr_get es (i - 1); es ← arr_set es i x; shift_loop n (i - 1) es
  end.
(** The two loops of a split: [n] entries from [mid] on, from slot [i]. *)
Fixpoint move_loop (n : nat) (i mid : Z) (src dst : list (option E)) : option (list (option E)) :=
  match n with
  | O => Some dst
  | S n => x ← arr_get src (mid + i); dst ← arr_set dst i x; move_loop n (i + 1) mid src dst
  end.
Fixpoint null_loop (n : nat) (i mid : Z) (es : list (option E)) : option (list (option E)) :=
  match n with
  | O => Some es
  | S n => es ← arr_set es (mid + i) None; null_loop n (i + 1) mid es
  end.
Definition set_prev (p : Z) (b : leaf_block) : leaf_block := LeafBlock (version b) (count b) (Some p) (next_leaf b) (slots b).
Definition SplitLeafBlock (block : Z) (r : rep) : option rep :=
  b ← heap r !! block;
  let new_block := new_addr (heap r) in
  let mid := count b / 2 in
  let move_count := count b - mid in
  let v := version b +w 1 in
  moved ← move_loop (Z.to_nat move_count) 0 mid (slots b) (slots new_leaf);
  kept ← null_loop (Z.to_nat move_count) 0 mid (slots b);
  let h := <[new_block := LeafBlock 0 (u32 move_count) (Some block) (next_leaf b) moved]> (heap r) in
  '(h, tail) ← (match next_leaf b with
                | Some n => nb ← h !! n; Some (<[n := set_prev new_block nb]> h, tail_ r)
                | None => Some (h, new_block)
                end);
  trie ← (if u32 move_count >? 0 then
            first_entry ← arr_get moved 0;
            pfx ← ExtractKeyPrefix64 (data <$> first_entry);
            Some (expanse_map_insert (trie_index_ r) pfx new_block).1
          else Some (trie_index_ r));
  let h := <[block := LeafBlock (v +w 1) (u32 mid) (prev_leaf b) (Some new_block) kept]> h in
  Some (Rep h (head_ r) tail (total_keys_ r) (u64 (total_allocated_bytes_ r + sizeof_LeafBlock)) trie (leaf_capacity_ r)).
Definition Insert (entry : E) (r : rep) : option rep :=
  block ← FindLeafBlockForInsert r entry;
  b ← heap r !! block;
  let b_count := count b in
  left ← search (Z.to_nat b_count) (λ x, compare_ entry x >? 0) (slots b) 0 b_count;
  es ← shift_loop (Z.to_nat (b_count - left)) b_count (slots b);
  es ← arr_set es left (Some entry);
  let b := LeafBlock (version b +w 1 +w 1) (b_count +w 1) (prev_leaf b) (next_leaf b) es in
  trie ← (if left =? 0 then
            pfx ← ExtractKeyPrefix64 (Some (data entry));
            Some (expanse_map_insert (trie_index_ r) pfx block).1
          else Some (trie_index_ r));
  let r := Rep (<[block := b]> (heap r)) (head_ r) (tail_ r) (u64 (total_keys_ r + 1)) (total_allocated_bytes_ r) trie (leaf_capacity_ r) in
  if count b >=? leaf_capacity_ r then SplitLeafBlock block r else Some r.
Definition InsertConcurrently (entry : E) (r : rep) : option rep := Insert entry r.

(** ** Lookups *)
Fixpoint contains_search (fuel : nat) (key : E) (es : list (option E)) (left right : Z) : option bool :=
  if left <? right then
    match fuel with
    | O => None
    | S fuel =>
        let mid := left + (right - left) / 2 in
        e ← arr_get es mid; x ← e;
        let cmp := compare_ key x in
        if cmp =? 0 then Some true
        else if cmp >? 0 then contains_search fuel key es (mid + 1) right else contains_search fuel key es left mid
    end
  else Some false.
Fixpoint contains_loop (fuel : nat) (h : gmap Z leaf_block) (key : E) (block : option Z) : option bool :=
  match block with
  | None => Some false
  | Some c =>
      match fuel with
      | O => None
      | S fuel =>
          b ← h !! c;
          if Z.odd (version b) then None
          else
            hit ← contains_search (Z.to_nat (count b)) key (slots b) 0 (count b);
            if hit : bool then Some true
            else
              mx ← max_key b;
              if match mx with Some x => (count b >? 0) && (compare_ key x <? 0) | None => false end then Some false
              else contains_loop fuel h key (next_leaf b)
      end
  end.
Definition Contains (r : rep) (key : E) : option bool :=
  block ← FindLeafBlockForSeek r [] (Some key);
  contains_loop (size (heap r)) (heap r) key (Some block).

(** The matches of a block from slot [i] on, [n] slots, and whether an entry of
    another user key ended them. *)
Fixpoint collect (n : nat) (i : Z) (es : list (option E)) (user_key : bytes) : option (list E * bool) :=
  match n with
  | O => Some ([], false)
  | S n =>
      e ← arr_get es i; entry ← e;
      entry_ikey ← slice_at entry;
      if (length entry_ikey <? 8)%nat then Some ([], true)
      else if negb (slice_eqb (take (length entry_ikey - 8) entry_ikey) user_key) then Some ([], true)
      else '(matches, out_of_bounds) ← collect n (i + 1) es user_key; Some (entry :: matches, out_of_bounds)
  end.
(** [callback_func] with its [void *arg]; the flag: every match was accepted. *)
Fixpoint deliver {T} (callback_func : E → T → bool * T) (matches : list E) (arg : T) : bool * T :=
  match matches with
  | [] => (true, arg)
  | e :: matches => let '(go, arg) := callback_func e arg in if go then deliver callback_func matches arg else (false, arg)
  end.
Section Get.
Context {T : Type} (user_key : bytes) (callback_func : E → T → bool * T).
Fixpoint GetAfterDelivered (fuel : nat) (h : gmap Z leaf_block) (block : option Z) (last_delivered : E) (arg : T) : option T :=
  match block with
  | None => Some arg
  | Some c =>
      match fuel with
      | O => None
      | S fuel =>
          b ← h !! c;
          if Z.odd (version b) then None
          else
            left ← search (Z.to_nat (count b)) (λ x, negb (compare_ x last_delivered >? 0)) (slots b) 0 (count b);
            '(matches, out_of_bounds) ← collect (Z.to_nat (count b - left)) left (slots b) user_key;
            let '(all, arg) := deliver callback_func matches arg in
            if negb all || out_of_bounds then Some arg
            else GetAfterDelivered fuel h (next_leaf b) (default last_delivered (last matches)) arg
      end
  end.
Fixpoint get_loop (fuel : nat) (h : gmap Z leaf_block) (memtable_key : E) (block : option Z) (arg : T) : option T :=
  match block with
  | None => Some arg
  | Some c =>
      match fuel with
      | O => None
      | S fuel =>
          b ← h !! c;
          if Z.odd (version b) then None
          else
            left ← search (Z.to_nat (count b)) (λ x, negb (compare_ x memtable_key >=? 0)) (slots b) 0 (count b);
            '(matches, out_of_bounds) ← collect (Z.to_nat (count b - left)) left (slots b) user_key;
            let '(all, arg) := deliver callback_func matches arg in
            if negb all || out_of_bounds then Some arg
            else
              match last matches with
              | Some last_delivered => GetAfterDelivered fuel h (next_leaf b) last_delivered arg
              | None => get_loop fuel h memtable_key (next_leaf b) arg
              end
      end
  end.
End Get.
(** [k] is the lookup key's [memtable_key()]; its other two slices are parts of it. *)
Definition Get {T} (r : rep) (k : E) (callback_func : E → T → bool * T) (arg : T) : option T :=
  internal_key ← slice_at k;
  block ← FindLeafBlockForSeek r internal_key (Some k);
  get_loop (take (length internal_key - 8) internal_key) callback_func (size (heap r)) (heap r) k (Some block) arg.
End Model.
