(* ===== verification/RocksIter.v ===== *)
(** * The memtable's cursor

    Model of [ExpanseMemTableRep::IteratorImpl] and of the two [ScanBatch]
    functions ([src/integrations/rocksdb/src/expanse_memtable.cc] and
    [include/expanse_memtable.h]): a cursor is a block, a slot and the anchor, the
    entry it stands on with the block's version at that time.  Each operation is
    run whole; insertions come between operations. *)
From stdpp Require Import base numbers list sorting gmap.
From S2P Require Import Prelude SortedAssoc ExpanseApi Sync32 EngineViews RocksKeys RocksTable.
Open Scope Z_scope.

Section Model.
Context {E : Type} `{!KeyComparator E} {M : Type} `{!ExpanseMap M, !ExpanseMapPrev M}.
Implicit Types (r : rep (E := E) (M := M)) (h : gmap Z (leaf_block (E := E))).

(** The slices of one entry: internal key, user key, value ([raw_entry], written
    and never read, is left out). *)
Record CachedKeyInfo := Cached { c_valid : bool; c_internal_key : bytes; c_user_key : bytes; c_value : bytes }.
Record iter := Iter {
  current_leaf_ : option Z; current_slot_ : Z; valid_ : bool; anchor_version_ : Z; anchor_entry_ : option E; cached_key_ : CachedKeyInfo;
}.
Definition IteratorImpl : iter := Iter None (-1) false 0 None (Cached false [] [] []).
Definition SetPosition (leaf slot version : Z) (entry : E) (it : iter) : iter :=
  Iter (Some leaf) slot true version (Some entry) (cached_key_ it).
Definition ClearPosition (it : iter) : iter := Iter None (-1) false 0 None (cached_key_ it).
Definition InvalidateCache (it : iter) : iter :=
  let c := cached_key_ it in
  Iter (current_leaf_ it) (current_slot_ it) (valid_ it) (anchor_version_ it) (anchor_entry_ it)
    (Cached false (c_internal_key c) (c_user_key c) (c_value c)).
Definition set_valid (b : bool) (it : iter) : iter :=
  Iter (current_leaf_ it) (current_slot_ it) b (anchor_version_ it) (anchor_entry_ it) (cached_key_ it).
Definition set_cache (c : CachedKeyInfo) (it : iter) : iter :=
  Iter (current_leaf_ it) (current_slot_ it) (valid_ it) (anchor_version_ it) (anchor_entry_ it) c.

Fixpoint PositionAtEdge (fuel : nat) h (block : option Z) (forward : bool) (it : iter) : option (bool * iter) :=
  match block with
  | None => Some (false, ClearPosition it)
  | Some c =>
      match fuel with
      | O => None
      | S fuel =>
          b ← h !! c;
          if Z.odd (version b) then None
          else if count b >? 0 then
            let slot := if forward then 0 else count b - 1 in
            e ← arr_get (slots b) slot; entry ← e;
            Some (true, SetPosition c slot (version b) entry it)
          else PositionAtEdge fuel h (if forward then next_leaf b else prev_leaf b) forward it
      end
  end.
Definition SeekToFirst r (it : iter) : option iter :=
  snd <$> PositionAtEdge (size (heap r)) (heap r) (Some (head_ r)) true (InvalidateCache it).
Definition SeekToLast r (it : iter) : option iter :=
  snd <$> PositionAtEdge (size (heap r)) (heap r) (Some (tail_ r)) false (InvalidateCache it).

Fixpoint seek_loop (fuel : nat) h (internal_key : bytes) (memtable_key : option E) (block : option Z) (it : iter) : option iter :=
  match block with
  | None => Some (ClearPosition it)
  | Some c =>
      match fuel with
      | O => None
      | S fuel =>
          b ← h !! c;
          if Z.odd (version b) then None
          else
            let cmp x := match memtable_key with Some k => compare_ x k | None => compare_slice internal_key x end in
            left ← search (Z.to_nat (count b)) (λ x, negb (cmp x >=? 0)) (slots b) 0 (count b);
            if left <? count b then
              e ← arr_get (slots b) left; entry ← e;
              Some (SetPosition c left (version b) entry it)
            else seek_loop fuel h internal_key memtable_key (next_leaf b) it
      end
  end.
Definition Seek r (internal_key : bytes) (memtable_key : option E) (it : iter) : option iter :=
  block ← FindLeafBlockForSeek r internal_key memtable_key;
  seek_loop (size (heap r)) (heap r) internal_key memtable_key (Some block) (InvalidateCache it).

Definition RevalidatePosition r (it : iter) : option (bool * iter) :=
  match current_leaf_ it with
  | Some leaf =>
      if negb (valid_ it) || (current_slot_ it <? 0) then Some (false, it)
      else
        b ← heap r !! leaf;
        if (version b =? anchor_version_ it) && negb (Z.odd (version b)) then Some (true, it)
        else
          match anchor_entry_ it with
          | None => Some (false, it)
          | Some entry =>
              match GetVarint32Ptr (take 5 (data entry)) with
              | None => Some (false, it)
              | Some _ => ikey ← slice_at entry; it ← Seek r ikey (Some entry) it; Some (valid_ it, it)
              end
          end
  | None => Some (false, it)
  end.
Definition Valid r (it : iter) : option (bool * iter) :=
  '(ok, it) ← RevalidatePosition r it;
  Some (ok && match anchor_entry_ it with Some _ => true | None => false end, it).
Definition key r (it : iter) : option (option E * iter) :=
  '(ok, it) ← RevalidatePosition r it;
  Some (if ok : bool then anchor_entry_ it else None, it).

(** [continue] is the recursive call. *)
Fixpoint Next (fuel : nat) r (it : iter) : option iter :=
  match fuel with
  | O => None
  | S fuel =>
      '(ok, it) ← RevalidatePosition r it;
      if negb ok then Some (set_valid false it)
      else
        let it := InvalidateCache it in
        leaf ← current_leaf_ it;
        b ← heap r !! leaf;
        let v := anchor_version_ it in
        let slot := current_slot_ it + 1 in
        entry ← (if slot <? count b then arr_get (slots b) slot else Some None);
        if negb (version b =? v) || (slot <? count b) && match entry with None => true | Some _ => false end then Next fuel r it
        else if slot <? count b then entry ← entry; Some (SetPosition leaf slot v entry it)
        else snd <$> PositionAtEdge (size (heap r)) (heap r) (next_leaf b) true it
  end.
Fixpoint Prev (fuel : nat) r (it : iter) : option iter :=
  match fuel with
  | O => None
  | S fuel =>
      '(ok, it) ← RevalidatePosition r it;
      if negb ok then Some (set_valid false it)
      else
        let it := InvalidateCache it in
        leaf ← current_leaf_ it;
        b ← heap r !! leaf;
        let v := anchor_version_ it in
        let slot := current_slot_ it - 1 in
        entry ← (if slot >=? 0 then arr_get (slots b) slot else Some None);
        if negb (version b =? v) || (slot >=? 0) && match entry with None => true | Some _ => false end then Prev fuel r it
        else if slot >=? 0 then entry ← entry; Some (SetPosition leaf slot v entry it)
        else snd <$> PositionAtEdge (size (heap r)) (heap r) (prev_leaf b) false it
  end.
Definition SeekForPrev (fuel : nat) r (internal_key : bytes) (memtable_key : option E) (it : iter) : option iter :=
  it ← Seek r internal_key memtable_key it;
  '(ok, it) ← Valid r it;
  if ok : bool then
    '(k, it) ← key r it; k ← k;
    let cmp := match memtable_key with Some mk => compare_ k mk | None => compare_slice internal_key k end in
    if negb (cmp =? 0) then Prev fuel r it else Some it
  else SeekToLast r it.

(** ** What an entry decodes to *)
(** A slice of [len] bytes at [p]; [None] runs past the memory. *)
Definition slice_of (p : bytes) (len : Z) : option bytes := if Z.of_nat (length p) <? len then None else Some (take (Z.to_nat len) p).
(** [GetVarint32Ptr(p, p + 5, &v)] with memory on both sides of the limit. *)
Definition varint_at (p : bytes) : option (Z * bytes) :=
  match GetVarint32Ptr (take 5 p) with
  | Some (v, rest) => Some (v, drop (length (take 5 p) - length rest) p)
  | None => None
  end.
(** Internal key and value; the inner [None]: the length is malformed. *)
Definition decode (entry : E) : option (option (bytes * bytes)) :=
  match varint_at (data entry) with
  | None => Some None
  | Some (ikey_len, p) =>
      k ← slice_of p ikey_len;
      v ← (match varint_at (drop (Z.to_nat ikey_len) p) with Some (val_len, q) => slice_of q val_len | None => Some [] end);
      Some (Some (k, v))
  end.
Definition EnsureKeyCached r (it : iter) : option iter :=
  if c_valid (cached_key_ it) then Some it
  else
    '(entry, it) ← key r it;
    match entry with
    | None => Some (set_cache (Cached true [] [] []) it)
    | Some e =>
        d ← decode e;
        let c := cached_key_ it in
        Some (set_cache (match d with
                         | Some (k, v) => Cached true k (if (8 <=? length k)%nat then take (length k - 8) k else k) v
                         | None => Cached true (c_internal_key c) (c_user_key c) (c_value c)
                         end) it)
    end.

(** ** Batches: the pairs written to [out_keys] and [out_values], [None] where
    the entry's length is malformed and the slot is left as it was *)
(** [n] entries from slot [slot]; [None] inside: a null slot. *)
Fixpoint taken (n : nat) (slot : Z) (es : list (option E)) : option (option (list E)) :=
  match n with
  | O => Some (Some [])
  | S n => e ← arr_get es slot; match e with None => Some None | Some x => l ← taken n (slot + 1) es; Some (option_map (cons x) l) end
  end.
Fixpoint scan_loop (fuel : nat) r (max_keys : Z) (it : iter) : option (list (option (bytes * bytes)) * iter) :=
  if 0 <? max_keys then
    match fuel with
    | O => None
    | S fuel =>
        '(ok, it) ← RevalidatePosition r it;
        if negb ok then Some ([], set_valid false it)
        else
          leaf ← current_leaf_ it;
          b ← heap r !! leaf;
          let v := anchor_version_ it in
          let slot := current_slot_ it in
          let take := if slot <? count b then Z.min (count b - slot) max_keys else 0 in
          chunk ← taken (Z.to_nat take) slot (slots b);
          let next_slot := slot + take in
          next_entry ← (if (if chunk is Some _ then true else false) && (next_slot <? count b) then arr_get (slots b) next_slot else Some None);
          match chunk with
          | Some l =>
              if (next_slot <? count b) && match next_entry with None => true | Some _ => false end || negb (version b =? v)
              then scan_loop fuel r max_keys it
              else
                out ← mapM decode l;
                '(more, it) ← (if next_slot <? count b then e ← next_entry; Some (true, SetPosition leaf next_slot v e it)
                               else PositionAtEdge (size (heap r)) (heap r) (next_leaf b) true it);
                if more : bool then '(rest, it) ← scan_loop fuel r (max_keys - take) it; Some (out ++ rest, it)
                else Some (out, it)
          | None => scan_loop fuel r max_keys it
          end
    end
  else Some ([], it).
Definition ScanBatch (fuel : nat) r (max_keys : Z) (it : iter) : option (list (option (bytes * bytes)) * iter) :=
  if negb (valid_ it) || match current_leaf_ it with None => true | Some _ => false end || (current_slot_ it <? 0) || (max_keys =? 0)
  then Some ([], it)
  else scan_loop fuel r max_keys (InvalidateCache it).
(** [rocksdb::ScanBatch] on an iterator of another class: [Valid], [key], [Next]. *)
Fixpoint scan_generic (fuel : nat) r (max_keys : Z) (it : iter) : option (list (option (bytes * bytes)) * iter) :=
  if 0 <? max_keys then
    match fuel with
    | O => None
    | S fuel =>
        '(ok, it) ← Valid r it;
        if negb ok then Some ([], it)
        else
          '(entry, it) ← key r it;
          match entry with
          | Some e => d ← decode e; it ← Next 1 r it; '(rest, it) ← scan_generic fuel r (max_keys - 1) it; Some (d :: rest, it)
          | None => it ← Next 1 r it; scan_generic fuel r max_keys it
          end
    end
  else Some ([], it).
End Model.
