(* ===== verification/RocksChain.v ===== *)
(** * The memtable's chain of blocks: invariant, walks and insertion

    What [RocksTable] keeps: the blocks form one doubly linked chain in key order
    ([chain_ok]), each with its entries in the first slots, and the trie only
    names blocks of the chain.  The walks then end on the right block wherever
    the trie sends them, and an insertion puts the entry in its place. *)
From stdpp Require Import base numbers list sorting gmap.
From S2P Require Import Prelude SortedAssoc ExpanseApi Sync32 EngineViews RocksKeys RocksTable RocksIter.
Open Scope Z_scope.

(** What the comparator promises: an order on entries (only signs count), the
    same order between an internal key and an entry, entries of one user key next
    to each other, and entries whose lengths are well formed. *)
Class KeyComparatorLaws (E : Type) `{!KeyComparator E} := {
  ikey : E → bytes;
  value : E → bytes;
  slice_data e : slice_at e = Some (ikey e);
  ikey_long e : (8 <= length (ikey e))%nat;
  decode_data e : decode e = Some (Some (ikey e, value e));
  compare_anti a b : Z.sgn (compare_ b a) = - Z.sgn (compare_ a b);
  compare_trans a b c : compare_ a b <= 0 → compare_ b c <= 0 → compare_ a c <= 0;
  compare_slice_sgn a b : Z.sgn (compare_slice (ikey a) b) = Z.sgn (compare_ a b);
  user_between a b c :
    compare_ a b <= 0 → compare_ b c <= 0 →
    take (length (ikey a) - 8) (ikey a) = take (length (ikey c) - 8) (ikey c) →
    take (length (ikey b) - 8) (ikey b) = take (length (ikey a) - 8) (ikey a);
}.

(** ** The order *)
Section Order.
Context {E : Type} `{KeyComparatorLaws E}.
Implicit Types (a b c x y : E) (l : list E).
Definition le a b : Prop := compare_ a b <= 0.
Definition lt a b : Prop := compare_ a b < 0.
Lemma flip a b : (compare_ a b < 0 ↔ 0 < compare_ b a) ∧ (compare_ a b = 0 ↔ compare_ b a = 0).
Proof. pose proof (compare_anti a b). destruct (compare_ a b), (compare_ b a); cbn in *; lia. Qed.
Lemma le_refl a : le a a.
Proof. unfold le. destruct (flip a a). lia. Qed.
Lemma le_lt a b : le a b ↔ ¬ lt b a.
Proof. unfold le, lt. destruct (flip b a). lia. Qed.
Lemma le_trans a b c : le a b → le b c → le a c.
Proof. apply compare_trans. Qed.
Lemma lt_le a b : lt a b → le a b.
Proof. unfold lt, le. lia. Qed.
Lemma lt_le_trans a b c : lt a b → le b c → lt a c.
Proof.
  intros Hab Hbc. destruct (Z.lt_ge_cases (compare_ a c) 0) as [?|Hge]; [done|]. exfalso.
  assert (le c a) as Hca by (apply le_lt; unfold lt; lia). apply (proj1 (le_lt b a)) in Hab; [done|]. by apply le_trans with c.
Qed.
Lemma le_lt_trans a b c : le a b → lt b c → lt a c.
Proof.
  intros Hab Hbc. destruct (Z.lt_ge_cases (compare_ a c) 0) as [?|Hge]; [done|]. exfalso.
  assert (le c a) as Hca by (apply le_lt; unfold lt; lia). apply (proj1 (le_lt c b)) in Hbc; [done|]. by apply le_trans with a.
Qed.
#[export] Instance le_preorder : PreOrder le.
Proof. split; [intros a; apply le_refl|intros a b c; apply le_trans]. Qed.

(** Sorted lists: taking one apart and putting it together. *)
Lemma sorted_app_inv l1 l2 :
  StronglySorted le (l1 ++ l2) → StronglySorted le l1 ∧ StronglySorted le l2 ∧ ∀ x y, x ∈ l1 → y ∈ l2 → le x y.
Proof.
  intros Hs. split; [by eapply StronglySorted_app_1_l|]. split; [by eapply StronglySorted_app_1_r|].
  intros x y Hx Hy. by eapply StronglySorted_app_1_elem_of.
Qed.
Lemma le_sorted_app l1 l2 :
  StronglySorted le l1 → StronglySorted le l2 → (∀ x y, x ∈ l1 → y ∈ l2 → le x y) → StronglySorted le (l1 ++ l2).
Proof. intros. apply StronglySorted_app; eauto. Qed.
(** Where a test that holds up to a point of a sorted list stops holding. *)
Lemma sorted_split (go : E → bool) l :
  (∀ x y, le x y → go y = true → go x = true) → StronglySorted le l →
  ∃ l1 l2, l = l1 ++ l2 ∧ Forall (λ x, go x = true) l1 ∧ Forall (λ x, go x = false) l2.
Proof.
  intros Hgo. induction 1 as [|x l Hs IH Hx]; [by exists [], []|]. destruct (go x) eqn:Hg.
  - destruct IH as (l1 & l2 & -> & Ha & Hb). exists (x :: l1), l2. auto.
  - exists [], (x :: l). split; [done|]. split; [done|]. constructor; [done|]. eapply Forall_impl; [exact Hx|].
    intros y Hy. destruct (go y) eqn:Hgy; [|done]. by rewrite (Hgo x y Hy Hgy) in Hg.
Qed.
End Order.

(** ** Slots of a block *)
Definition slots_of {E} (xs : list E) : list (option E) := (Some <$> xs) ++ replicate (64 - length xs) None.

Section Slots.
Context {E : Type}.
Implicit Types xs : list E.
Lemma get_app {A} (a : list A) x b i : i = Z.of_nat (length a) → arr_get (a ++ x :: b) i = Some x.
Proof. intros ->. rewrite arr_get_nat. by apply list_lookup_middle. Qed.
Lemma set_app {A} (a : list A) x y b i : i = Z.of_nat (length a) → arr_set (a ++ x :: b) i y = Some (a ++ y :: b).
Proof.
  intros ->. rewrite arr_set_Some by (rewrite length_app; cbn [length]; lia). rewrite Nat2Z.id.
  f_equal. rewrite <- (Nat.add_0_r (length a)) at 1. by rewrite insert_app_r.
Qed.
Lemma slots_len xs : (length xs <= 64)%nat → length (slots_of xs) = 64%nat.
Proof. intros. unfold slots_of. rewrite length_app, length_fmap, length_replicate. lia. Qed.
Lemma slots_get xs i : 0 <= i < Z.of_nat (length xs) → arr_get (slots_of xs) i = Some (xs !! Z.to_nat i).
Proof.
  intros Hi. unfold arr_get, slots_of. rewrite (proj2 (Z.leb_le 0 i)) by lia.
  rewrite lookup_app_l by (rewrite length_fmap; lia). rewrite list_lookup_fmap.
  destruct (lookup_lt_is_Some_2 xs (Z.to_nat i)) as [x ->]; [lia|done].
Qed.
(** The loops of an insertion and of a split. *)
Lemma shift_set (a b d : list (option E)) x y i j :
  i = Z.of_nat (length a + length b) → j = Z.of_nat (length a) →
  (es ← shift_loop (length b) i (a ++ b ++ x :: d); arr_set es j y) = Some (a ++ y :: b ++ d).
Proof.
  intros -> ->. revert x d. induction b as [|z b IH] using rev_ind; intros x d.
  { cbn [length shift_loop app mbind option_bind]. by apply set_app. }
  rewrite length_app. cbn [length]. rewrite Nat.add_1_r. cbn [shift_loop].
  rewrite <- !app_assoc. cbn [app]. rewrite (app_assoc a b (z :: x :: d)).
  rewrite get_app by (rewrite length_app; lia). cbn [mbind option_bind].
  replace (Z.of_nat (length a + S (length b))) with (Z.of_nat (length ((a ++ b) ++ [z]))) by (rewrite !length_app; cbn [length]; lia).
  change (z :: x :: d) with ([z] ++ x :: d). rewrite (app_assoc (a ++ b)).
  rewrite set_app by done. cbn [mbind option_bind].
  replace (Z.of_nat (length ((a ++ b) ++ [z])) - 1) with (Z.of_nat (length a + length b)) by (rewrite !length_app; cbn [length]; lia).
  rewrite <- !app_assoc. cbn [app]. apply (IH z (z :: d)).
Qed.
Lemma move_spec (s1 s2 s3 d1 d2 : list (option E)) i mid :
  i = Z.of_nat (length d1) → mid + i = Z.of_nat (length s1) → (length s2 <= length d2)%nat →
  move_loop (length s2) i mid (s1 ++ s2 ++ s3) (d1 ++ d2) = Some (d1 ++ s2 ++ drop (length s2) d2).
Proof.
  revert s1 d1 d2 i. induction s2 as [|x s2 IH]; intros s1 d1 d2 i Hi Hm Hl; [done|].
  cbn [length move_loop app]. rewrite get_app by lia. cbn [mbind option_bind]. destruct d2 as [|y d2]; [cbn in Hl; lia|].
  rewrite set_app by done. cbn [mbind option_bind drop].
  change (x :: s2 ++ s3) with ([x] ++ s2 ++ s3). change (x :: d2) with ([x] ++ d2). rewrite !app_assoc.
  rewrite <- (app_assoc (s1 ++ [x])). rewrite IH; [by rewrite <- !app_assoc|rewrite length_app; cbn [length]; lia..|cbn in Hl; lia].
Qed.
Lemma null_spec (n : nat) (e1 e2 : list (option E)) i mid :
  mid + i = Z.of_nat (length e1) → (n <= length e2)%nat →
  null_loop n i mid (e1 ++ e2) = Some (e1 ++ replicate n None ++ drop n e2).
Proof.
  revert e1 e2 i. induction n as [|n IH]; intros e1 e2 i Hm Hl; [done|].
  cbn [null_loop]. destruct e2 as [|y e2]; [cbn in Hl; lia|]. rewrite set_app by done. cbn [mbind option_bind drop].
  change (None :: e2) with ([None (A := E)] ++ e2). rewrite app_assoc, IH; [|rewrite length_app; cbn [length]; lia|cbn in Hl; lia].
  by rewrite <- app_assoc.
Qed.
(** The binary search finds the point at which the test stops holding. *)
Lemma search_spec go (a b : list E) fuel left right :
  Forall (λ x, go x = true) a → Forall (λ x, go x = false) b →
  0 <= left <= Z.of_nat (length a) → Z.of_nat (length a) <= right <= Z.of_nat (length (a ++ b)) → right - left <= Z.of_nat fuel →
  search fuel go (slots_of (a ++ b)) left right = Some (Z.of_nat (length a)).
Proof.
  intros Ha Hb. revert left right. induction fuel as [|fuel IH]; intros left right Hl Hr Hf.
  all: cbn [search]; destruct (Z.ltb_spec left right) as [Hlt|Hge]; [|f_equal; lia].
  { lia. }
  set (mid := left + (right - left) / 2). assert (left <= mid < right) as Hmid by (subst mid; Z.to_euclidean_division_equations; lia).
  rewrite slots_get by lia. cbn [mbind option_bind]. destruct (lookup_lt_is_Some_2 (a ++ b) (Z.to_nat mid)) as [x Hx]; [lia|].
  rewrite Hx. cbn [mbind option_bind]. destruct (Z.lt_ge_cases mid (Z.of_nat (length a))) as [Hm|Hm].
  - rewrite lookup_app_l in Hx by lia. rewrite Forall_lookup in Ha. rewrite (Ha _ _ Hx). apply IH; lia.
  - rewrite lookup_app_r in Hx by lia. rewrite Forall_lookup in Hb. rewrite (Hb _ _ Hx). apply IH; lia.
Qed.
End Slots.

(** ** The chain *)
(** A block as the proofs see it: its version unbounded, its entries. *)
Record node (E : Type) := Node { n_addr : Z; n_ver : Z; n_es : list E }.
Arguments Node {E} _ _ _.
Arguments n_addr {E} _.
Arguments n_ver {E} _.
Arguments n_es {E} _.

Section Chain.
Context {E : Type}.
Implicit Types (h : gmap Z (leaf_block (E := E))) (n m : node E) (l nodes : list (node E)) (p q : option Z).
Definition blk p n q : leaf_block := LeafBlock (u32 (n_ver n)) (Z.of_nat (length (n_es n))) p q (slots_of (n_es n)).
Definition next_addr l q : option Z := match l with [] => q | m :: _ => Some (n_addr m) end.
Definition last_addr l p : option Z := match last l with Some m => Some (n_addr m) | None => p end.
Definition contents nodes : list E := mjoin (n_es <$> nodes).
Fixpoint dlseg h p nodes q : Prop :=
  match nodes with
  | [] => True
  | n :: rest => h !! n_addr n = Some (blk p n (next_addr rest q)) ∧ dlseg h (Some (n_addr n)) rest q
  end.
Lemma last_addr_cons n l p : last_addr (n :: l) p = last_addr l (Some (n_addr n)).
Proof. unfold last_addr. rewrite last_cons. by destruct (last l). Qed.
Lemma next_addr_app l1 l2 q : next_addr (l1 ++ l2) q = next_addr l1 (next_addr l2 q).
Proof. by destruct l1. Qed.
Lemma dlseg_app h p l1 l2 q : dlseg h p (l1 ++ l2) q ↔ dlseg h p l1 (next_addr l2 q) ∧ dlseg h (last_addr l1 p) l2 q.
Proof.
  revert p. induction l1 as [|n l1 IH]; intros p; cbn [dlseg app]; [unfold last_addr; tauto|].
  rewrite next_addr_app, last_addr_cons, IH. tauto.
Qed.
Lemma dlseg_lookup h p l n rr q :
  dlseg h p (l ++ n :: rr) q → h !! n_addr n = Some (blk (last_addr l p) n (next_addr rr q)).
Proof. intros [_ Hd]%dlseg_app. apply Hd. Qed.
(** A block outside the segment can change, and so can the ends of a segment. *)
Lemma dlseg_frame h p l q a b : a ∉ n_addr <$> l → dlseg h p l q → dlseg (<[a := b]> h) p l q.
Proof.
  revert p. induction l as [|n l IH]; intros p Ha; cbn [dlseg]; [done|]. rewrite fmap_cons, not_elem_of_cons in Ha.
  rewrite lookup_insert_ne by tauto. intros [? ?]. split; [done|]. apply IH; tauto.
Qed.
Lemma contents_app l1 l2 : contents (l1 ++ l2) = contents l1 ++ contents l2.
Proof. unfold contents. by rewrite fmap_app, join_app. Qed.
Lemma contents_cons n l : contents (n :: l) = n_es n ++ contents l.
Proof. done. Qed.
Lemma contents_elem x n l : n ∈ l → x ∈ n_es n → x ∈ contents l.
Proof. intros Hn Hx. apply list_elem_of_join. exists (n_es n). split; [done|]. by apply list_elem_of_fmap_2. Qed.
Lemma contents_inv x l : x ∈ contents l → ∃ n, n ∈ l ∧ x ∈ n_es n.
Proof. intros (es & Hx & (n & -> & Hn)%list_elem_of_fmap_1)%list_elem_of_join. eauto. Qed.
End Chain.

(** ** The invariant *)
Section Invariant.
Context {E : Type} `{KeyComparatorLaws E} {M : Type} `{ExpanseMapPrevLaws M}.
Implicit Types (r : rep (E := E) (M := M)) (h : gmap Z (leaf_block (E := E))) (n : node E) (l nodes : list (node E)) (x e m : E).
(** [full] is the block an insertion may have brought to capacity. *)
Definition len_ok (full : option Z) (cap : Z) n : Prop :=
  Z.of_nat (length (n_es n)) <= Z.max 1 (cap - 1) + (if decide (full = Some (n_addr n)) then 1 else 0).
Record chain (full : option Z) r nodes : Prop := {
  ch_seg : dlseg (heap r) None nodes None;
  ch_nodup : NoDup (n_addr <$> nodes);
  ch_size : size (heap r) = length nodes;
  ch_head : Some (head_ r) = n_addr <$> head nodes;
  ch_tail : Some (tail_ r) = n_addr <$> last nodes;
  ch_len : Forall (len_ok full (leaf_capacity_ r)) nodes;
  ch_even : Forall (λ n, Z.even (n_ver n) = true ∧ 0 <= n_ver n) nodes;
  ch_full : Forall (λ n, n_es n ≠ []) (tail nodes);  (** only the first block can be empty *)
  ch_sorted : StronglySorted le (contents nodes);
  ch_trie k v : (k, v) ∈ entries (trie_index_ r) → v ∈ n_addr <$> nodes;
  ch_cap : 1 <= leaf_capacity_ r <= 64;
  ch_keys : total_keys_ r = u64 (Z.of_nat (length (contents nodes)));
  ch_bytes : total_allocated_bytes_ r = u64 (sizeof_LeafBlock * Z.of_nat (length nodes));
}.
Abbreviation chain_ok := (chain None).
Definition first_of n : option E := head (n_es n).

Lemma blk_min p n q : (length (n_es n) <= 64)%nat → min_key (blk p n q) = Some (first_of n).
Proof.
  intros Hl. unfold min_key, blk, first_of. cbn [count slots]. destruct (n_es n) as [|x es] eqn:He; [done|].
  rewrite (proj2 (Z.gtb_lt _ 0)) by (cbn [length]; lia). rewrite slots_get by (cbn [length]; lia). done.
Qed.
Lemma blk_odd p n q : Z.even (n_ver n) = true → Z.odd (version (blk p n q)) = false.
Proof.
  intros He. cbn [version blk]. rewrite <- Z.negb_even. apply negb_false_iff. unfold u32.
  rewrite Z.even_spec in *. destruct He as [k ->]. exists ((2 * k) mod 2 ^ 32 / 2).
  Z.to_euclidean_division_equations. lia.
Qed.

(** ** The walks *)
Lemma later_first nodes l n rr : Forall (λ n, n_es n ≠ []) (tail nodes) → nodes = l ++ n :: rr → l ≠ [] → ∃ m, first_of n = Some m.
Proof.
  intros Hfull -> Hl. destruct l as [|n0 l]; [done|]. cbn [app tail] in Hfull. apply Forall_app in Hfull as [_ Hf].
  apply Forall_cons in Hf as [Hn _]. unfold first_of. destruct (n_es n); [done|eauto].
Qed.
Section Walks.
Context h nodes (Hseg : dlseg h None nodes None) (Hlen : Forall (λ n, (length (n_es n) <= 64)%nat) nodes)
        (Hfull : Forall (λ n, n_es n ≠ []) (tail nodes)).
Lemma walk_back_spec after fuel l n rr :
  nodes = l ++ n :: rr → (length l < fuel)%nat →
  ∃ l' n' rr', walk_back fuel h after (n_addr n) = Some (n_addr n') ∧ nodes = l' ++ n' :: rr' ∧
    (l' = [] ∨ ∃ m, first_of n' = Some m ∧ after m = false).
Proof.
  revert l n rr. induction fuel as [|fuel IH]; intros l n rr Hn Hf; [lia|]. cbn [walk_back].
  pose proof Hseg as Hd. rewrite Hn in Hd. rewrite (dlseg_lookup _ _ _ _ _ _ Hd). cbn [mbind option_bind].
  pose proof Hlen as Hl. rewrite Hn in Hl. apply Forall_app in Hl as [_ [Hl _]%Forall_cons].
  cbn [prev_leaf blk]. destruct l as [|k l _] using rev_ind; [exists [], n, rr; auto|].
  unfold last_addr. rewrite last_snoc, blk_min by done. cbn [mbind option_bind].
  destruct (later_first _ _ _ _ Hfull Hn) as [m Hm]; [by destruct l|]. rewrite Hm.
  destruct (after m) eqn:Ha; [|exists (l ++ [k]), n, rr; split_and!; [done|done|right; eauto]].
  apply (IH l k (n :: rr)); [by rewrite Hn, <- app_assoc|rewrite length_app in Hf; cbn in Hf; lia].
Qed.
Lemma walk_fwd_spec skip go fuel l n rr :
  nodes = l ++ n :: rr → (length rr < fuel)%nat →
  ∃ l' n' rr', walk_fwd fuel h skip go (n_addr n) = Some (n_addr n') ∧ nodes = l' ++ n' :: rr' ∧
    (l' = l ∧ n' = n ∨ ∃ m, first_of n' = Some m ∧ go m = true) ∧
    (∀ n2 rr2, rr' = n2 :: rr2 → ∃ m, first_of n2 = Some m ∧ go m = false).
Proof.
  revert l n rr. induction fuel as [|fuel IH]; intros l n rr Hn Hf; [lia|]. cbn [walk_fwd].
  pose proof Hseg as Hd. rewrite Hn in Hd. rewrite (dlseg_lookup _ _ _ _ _ _ Hd). cbn [mbind option_bind next_leaf blk].
  destruct rr as [|n2 rr]; [exists l, n, []; naive_solver|]. cbn [next_addr].
  assert (nodes = (l ++ [n]) ++ n2 :: rr) as Hn2 by (by rewrite Hn, <- app_assoc).
  pose proof Hseg as Hd2. rewrite Hn2 in Hd2. rewrite (dlseg_lookup _ _ _ _ _ _ Hd2). cbn [mbind option_bind].
  pose proof Hlen as Hl. rewrite Hn2 in Hl. apply Forall_app in Hl as [_ [Hl _]%Forall_cons].
  destruct (later_first _ _ _ _ Hfull Hn2) as [m Hm]; [by destruct l|]. rewrite blk_min, Hm by done.
  assert ((count (blk (last_addr (l ++ [n]) None) n2 (next_addr rr None)) >? 0) = true) as ->.
  { cbn [count blk]. unfold first_of in Hm. destruct (n_es n2); [done|]. apply Z.gtb_lt. cbn [length]. lia. }
  cbn [mbind option_bind]. destruct (go m) eqn:Hg.
  - destruct (IH (l ++ [n]) n2 rr Hn2) as (l' & n' & rr' & Hw & Hn' & Hc & Hnx); [cbn in Hf; lia|].
    exists l', n', rr'. split; [done|]. split; [done|]. split; [|done]. destruct Hc as [[-> ->]|?]; [right; eauto|by right].
  - exists l, n, (n2 :: rr). split; [done|]. split; [done|]. split; [by left|]. intros ? ? [= <- <-]. eauto.
Qed.
End Walks.

(** Where a search for [e] settles: the last block whose first key is not above
    [e], the first block if there is none. *)
Definition settled e l n (rr : list (node E)) : Prop :=
  (l = [] ∨ ∃ m, first_of n = Some m ∧ le m e) ∧ (∀ n2 rr2, rr = n2 :: rr2 → ∃ m, first_of n2 = Some m ∧ lt e m).
Lemma chain_len64 full r nodes : chain full r nodes → Forall (λ n, (length (n_es n) <= 64)%nat) nodes.
Proof. intros Hc. eapply Forall_impl; [apply (ch_len _ _ _ Hc)|]. intros n Hn. unfold len_ok in Hn. pose proof (ch_cap _ _ _ Hc). case_decide; lia. Qed.
Lemma len_relax cap a l : Forall (len_ok None cap) l → Forall (len_ok (Some a) cap) l.
Proof. intros Hl. eapply Forall_impl; [exact Hl|]. intros n. unfold len_ok. case_decide; [done|]. case_decide; lia. Qed.
Lemma len_strict cap a l : a ∉ n_addr <$> l → Forall (len_ok (Some a) cap) l → Forall (len_ok None cap) l.
Proof.
  intros Ha Hl. rewrite Forall_forall in Hl |- *. intros n Hn. specialize (Hl n Hn). unfold len_ok in *. rewrite decide_False in Hl; [done|].
  intros [= ->]. apply Ha. by apply list_elem_of_fmap_2.
Qed.
Lemma settle_spec r nodes e skip c :
  chain_ok r nodes → c ∈ n_addr <$> nodes →
  ∃ l n rr, (c ← walk_back (size (heap r)) (heap r) (λ m, compare_ m e >? 0) c;
             walk_fwd (size (heap r)) (heap r) skip (λ m, compare_ m e <=? 0) c) = Some (n_addr n) ∧
    nodes = l ++ n :: rr ∧ settled e l n rr.
Proof.
  intros Hc (n0 & -> & (l0 & rr0 & Hn0)%list_elem_of_split)%list_elem_of_fmap_1. pose proof (chain_len64 _ _ _ Hc) as Hl.
  assert (size (heap r) = S (length l0 + length rr0)) as Hsz by (rewrite (ch_size _ _ _ Hc), Hn0, length_app; cbn [length]; lia).
  destruct (walk_back_spec _ _ (ch_seg _ _ _ Hc) Hl (ch_full _ _ _ Hc) (λ m, compare_ m e >? 0) (size (heap r)) l0 n0 rr0) as (l1 & n1 & rr1 & -> & Hn1 & Hb); [done|lia|].
  cbn [mbind option_bind].
  assert (length rr1 < size (heap r))%nat by (rewrite (ch_size _ _ _ Hc), Hn1, length_app; cbn [length]; lia).
  destruct (walk_fwd_spec _ _ (ch_seg _ _ _ Hc) Hl (ch_full _ _ _ Hc) skip (λ m, compare_ m e <=? 0) (size (heap r)) l1 n1 rr1) as (l2 & n2 & rr2 & -> & Hn2 & Hg & Hnx); [done..|].
  exists l2, n2, rr2. split; [done|]. split; [done|]. split.
  - destruct Hg as [[-> ->]|(m & Hm & Hgo)]; [|right; exists m; split; [done|]; unfold le; lia].
    destruct Hb as [->|(m & Hm & Hgo)]; [by left|right]. exists m. split; [done|]. unfold le. lia.
  - intros n3 rr3 Hr. destruct (Hnx n3 rr3 Hr) as (m & Hm & Hgo). exists m. split; [done|]. unfold lt. destruct (flip e m). lia.
Qed.
Lemma trie_candidate_in r nodes k : chain_ok r nodes → trie_candidate r k ∈ n_addr <$> nodes.
Proof.
  intros Hc. assert (head_ r ∈ n_addr <$> nodes) as Hh.
  { pose proof (ch_head _ _ _ Hc) as Hh. destruct nodes as [|n nodes]; [done|]. cbn in Hh. injection Hh as ->. by left. }
  unfold trie_candidate. rewrite prev_at_or_before_spec. destruct (last _) as [[k' v]|] eqn:Hl; [|done].
  destruct (v =? 0); [done|]. apply last_Some_elem_of in Hl. apply list_elem_of_filter in Hl as [_ Hl]. by eapply ch_trie.
Qed.
Lemma single_block r nodes : chain_ok r nodes → head_ r = tail_ r → ∃ n, nodes = [n] ∧ n_addr n = head_ r.
Proof.
  intros Hc Heq. pose proof (ch_head _ _ _ Hc) as Hh. pose proof (ch_tail _ _ _ Hc) as Ht. pose proof (ch_nodup _ _ _ Hc) as Hn.
  destruct nodes as [|n nodes]; [done|]. cbn in Hh. injection Hh as Hh. destruct nodes as [|n' nodes _] using rev_ind; [by exists n|].
  rewrite app_comm_cons, last_snoc in Ht. cbn in Ht. injection Ht as Ht. rewrite fmap_cons, fmap_app in Hn.
  apply NoDup_cons in Hn as [Hn _]. destruct Hn. apply elem_of_app. right. apply list_elem_of_singleton. congruence.
Qed.
Lemma prefix_data e : ExtractKeyPrefix64 (Some (data e)) = Some (ExtractSlicePrefix64 (ikey e)).
Proof. unfold ExtractKeyPrefix64. fold (slice_at e). by rewrite slice_data. Qed.
Lemma find_insert_spec r nodes e :
  chain_ok r nodes → ∃ l n rr, FindLeafBlockForInsert r e = Some (n_addr n) ∧ nodes = l ++ n :: rr ∧ settled e l n rr.
Proof.
  intros Hc. unfold FindLeafBlockForInsert. destruct (Z.eqb_spec (head_ r) (tail_ r)) as [Heq|Hne].
  - destruct (single_block _ _ Hc Heq) as (n & -> & <-). exists [], n, []. split; [done|]. split; [done|]. split; [by left|done].
  - rewrite prefix_data. cbn [mbind option_bind]. apply settle_spec; [done|by apply trie_candidate_in].
Qed.
Lemma find_seek_spec r nodes ik e :
  chain_ok r nodes → ∃ l n rr, FindLeafBlockForSeek r ik (Some e) = Some (n_addr n) ∧ nodes = l ++ n :: rr ∧ settled e l n rr.
Proof.
  intros Hc. unfold FindLeafBlockForSeek. destruct (Z.eqb_spec (head_ r) (tail_ r)) as [Heq|Hne].
  - destruct (single_block _ _ Hc Heq) as (n & -> & <-). exists [], n, []. split; [done|]. split; [done|]. split; [by left|done].
  - unfold SeekPrefix. rewrite prefix_data. cbn [mbind option_bind]. apply settle_spec; [done|by apply trie_candidate_in].
Qed.

(** ** Insertion *)
Lemma sorted_put (l1 l2 : list E) e :
  StronglySorted le (l1 ++ l2) → (∀ x, x ∈ l1 → le x e) → (∀ y, y ∈ l2 → le e y) → StronglySorted le (l1 ++ e :: l2).
Proof.
  intros (Hs1 & Hs2 & Hx)%sorted_app_inv Ha Hb. apply le_sorted_app; [done| |].
  - constructor; [done|]. by apply Forall_forall.
  - intros x y Hx1 [->|Hy]%elem_of_cons; auto.
Qed.
Lemma settled_below e l n rr : StronglySorted le (contents (l ++ n :: rr)) → settled e l n rr → ∀ x, x ∈ contents l → le x e.
Proof.
  intros Hs [[->|(m & Hm & Hle)] _] x Hx; [by apply elem_of_nil in Hx|]. rewrite contents_app in Hs.
  apply sorted_app_inv in Hs as (_ & _ & Hs). apply le_trans with m; [|done]. apply Hs; [done|]. rewrite contents_cons.
  unfold first_of in Hm. destruct (n_es n); [done|]. injection Hm as ->. by left.
Qed.
Lemma settled_above e l n rr : StronglySorted le (contents (l ++ n :: rr)) → settled e l n rr → ∀ y, y ∈ contents rr → lt e y.
Proof.
  intros Hs [_ Hn] y Hy. destruct rr as [|n2 rr]; [by apply elem_of_nil in Hy|]. destruct (Hn n2 rr eq_refl) as (m & Hm & Hlt).
  rewrite contents_app, contents_cons, app_assoc in Hs. apply sorted_app_inv in Hs as (_ & Hs & _).
  apply lt_le_trans with m; [done|]. rewrite contents_cons in Hs, Hy. unfold first_of in Hm. destruct (n_es n2) as [|x es]; [done|].
  injection Hm as ->. apply elem_of_cons in Hy as [->|Hy]; [apply le_refl|]. apply StronglySorted_inv in Hs as [_ Hs].
  by eapply Forall_forall in Hs.
Qed.
Lemma put_slots (a b : list E) e :
  (length (a ++ b) <= 63)%nat →
  (es ← shift_loop (length b) (Z.of_nat (length (a ++ b))) (slots_of (a ++ b)); arr_set es (Z.of_nat (length a)) (Some e)) = Some (slots_of (a ++ e :: b)).
Proof.
  intros Hl. unfold slots_of. rewrite !fmap_app, <- !app_assoc. replace (64 - length (a ++ b))%nat with (S (63 - length (a ++ b))) by lia.
  cbn [replicate]. rewrite <- (length_fmap Some b) at 1. rewrite shift_set by (rewrite ?length_app, ?length_fmap; lia).
  rewrite fmap_cons. cbn [app]. do 5 f_equal. rewrite !length_app. cbn [length]. lia.
Qed.
Lemma u64_plus (i j : Z) : u64 (u64 i + j) = u64 (i + j).
Proof. unfold u64. by rewrite Z.add_mod_idemp_l. Qed.
Lemma put_chain r l n rr e (a b : list E) trie :
  chain_ok r (l ++ n :: rr) → n_es n = a ++ b → settled e l n rr → Forall (λ x, lt x e) a → Forall (λ x, le e x) b →
  (∀ k v, (k, v) ∈ entries trie → (k, v) ∈ entries (trie_index_ r) ∨ v = n_addr n) →
  let n' := Node (n_addr n) (n_ver n + 2) (a ++ e :: b) in
  chain (Some (n_addr n))
    (Rep (<[n_addr n := blk (last_addr l None) n' (next_addr rr None)]> (heap r)) (head_ r) (tail_ r) (u64 (total_keys_ r + 1))
       (total_allocated_bytes_ r) trie (leaf_capacity_ r)) (l ++ n' :: rr).
Proof.
  intros Hc Hes Hset Ha Hb Ht n'. pose proof Hc as [Hseg Hnd Hsz Hh Htl Hlen Hev Hfull Hs Htrie Hcap Hk Hby].
  assert (n_addr <$> l ++ n' :: rr = n_addr <$> l ++ n :: rr) as Haddr by (by rewrite !fmap_app).
  split; cbn [heap head_ tail_ total_keys_ total_allocated_bytes_ trie_index_ leaf_capacity_].
  - rewrite fmap_app, fmap_cons in Hnd. apply NoDup_app in Hnd as (_ & Hd1 & [Hd2 _]%NoDup_cons).
    apply dlseg_app in Hseg as [Hs1 [_ Hs2]]. apply dlseg_app. split.
    + apply dlseg_frame; [|done]. intros Hx. apply (Hd1 _ Hx). by left.
    + split; [by apply lookup_insert_eq|]. by apply dlseg_frame.
  - by rewrite Haddr.
  - rewrite map_size_insert_Some; [by rewrite Hsz, !length_app|]. eexists. by eapply dlseg_lookup.
  - destruct l; done.
  - rewrite Htl. rewrite !last_app. destruct rr; done.
  - apply Forall_app in Hlen as [Hl1 [Hl2 Hl3]%Forall_cons].
    apply Forall_app. split; [by apply len_relax|]. constructor; [|by apply len_relax]. unfold len_ok in *.
    rewrite decide_True by done. rewrite decide_False in Hl2 by done. cbn [n_es n']. rewrite Hes in Hl2. rewrite !length_app in *. cbn [length]. lia.
  - apply Forall_app in Hev as [He1 [[He2 ?] He3]%Forall_cons]. apply Forall_app. split; [done|]. constructor; [|done].
    cbn [n_ver n']. split; [by rewrite Z.even_add, He2|lia].
  - destruct l as [|n0 l]; [done|]. cbn [app tail] in *. apply Forall_app in Hfull as [Hf1 [_ Hf3]%Forall_cons].
    apply Forall_app. split; [done|]. constructor; [|done]. cbn [n_es n']. by destruct a.
  - pose proof (settled_below _ _ _ _ Hs Hset) as Hlo. pose proof (settled_above _ _ _ _ Hs Hset) as Hhi.
    rewrite contents_app, contents_cons in *. cbn [n_es n']. rewrite Hes in Hs. rewrite <- app_assoc in *. cbn [app]. rewrite app_assoc in *.
    apply sorted_put; [done| |].
    + intros x [Hx|Hx]%elem_of_app; [by apply Hlo|]. eapply Forall_forall in Ha; [|exact Hx]. by apply lt_le.
    + intros y [Hy|Hy]%elem_of_app; [by eapply Forall_forall in Hb|]. by apply lt_le, Hhi.
  - intros k v [Hin| ->]%Ht; rewrite Haddr; [by eapply Htrie|]. rewrite fmap_app. apply elem_of_app. right. by left.
  - done.
  - rewrite Hk, u64_plus. f_equal. rewrite !contents_app, !contents_cons, !length_app, Hes. cbn [n_es n']. rewrite !length_app. cbn [length]. lia.
  - rewrite Hby. by rewrite !length_app.
Qed.

(** ** Splitting *)
Lemma split_slots (a b : list E) :
  (length (a ++ b) <= 64)%nat →
  move_loop (length b) 0 (Z.of_nat (length a)) (slots_of (a ++ b)) (slots (new_leaf (E := E))) = Some (slots_of b) ∧
  null_loop (length b) 0 (Z.of_nat (length a)) (slots_of (a ++ b)) = Some (slots_of a).
Proof.
  intros Hl. rewrite length_app in Hl. unfold slots_of. rewrite fmap_app, <- app_assoc. split.
  - rewrite <- (length_fmap Some b) at 1.
    rewrite (move_spec (Some <$> a) (Some <$> b) _ [] (slots new_leaf)); [|done|rewrite length_fmap; lia|].
    + cbn [app]. rewrite length_fmap. cbn [slots new_leaf]. rewrite drop_replicate. done.
    + rewrite length_fmap. cbn [slots new_leaf]. rewrite length_replicate. unfold kMaxCapacity. lia.
  - rewrite null_spec by (rewrite ?length_app, ?length_fmap; lia). do 2 f_equal.
    rewrite drop_app_ge by (rewrite length_fmap; lia). rewrite length_fmap, drop_replicate, <- replicate_add. f_equal. rewrite length_app. lia.
Qed.
Lemma chain_fresh full r nodes a : chain full r nodes → heap r !! a = None → a ∉ n_addr <$> nodes.
Proof.
  intros Hc Ha (n & -> & (l & rr & ->)%list_elem_of_split)%list_elem_of_fmap_1. by rewrite (dlseg_lookup _ _ _ _ _ _ (ch_seg _ _ _ Hc)) in Ha.
Qed.
(** The block after a split gets a new predecessor. *)
Lemma relink h l n rr a (b : leaf_block) :
  dlseg h None (l ++ n :: rr) None → NoDup (n_addr <$> l ++ n :: rr) → a ∉ n_addr <$> (l ++ n :: rr) → h !! a = None →
  ∃ h', (match next_addr rr None with
         | Some c => nb ← <[a := b]> h !! c; Some (<[c := set_prev a nb]> (<[a := b]> h))
         | None => Some (<[a := b]> h)
         end) = Some h' ∧
    dlseg h' None l (Some (n_addr n)) ∧ h' !! a = Some b ∧ dlseg h' (Some a) rr None ∧ is_Some (h' !! n_addr n) ∧
    size h' = S (size h).
Proof.
  intros Hs Hn Ha Hfr. assert (size (<[a := b]> h) = S (size h)) as Hsz by (by apply map_size_insert_None).
  rewrite fmap_app, fmap_cons in Ha, Hn. apply not_elem_of_app in Ha as [Ha1 [Ha2 Ha3]%not_elem_of_cons].
  apply NoDup_app in Hn as (_ & Hd & [Hd2 Hd3]%NoDup_cons). apply dlseg_app in Hs as [Hs1 [Hs2 Hs3]]. cbn [next_addr] in Hs1.
  destruct rr as [|n3 rr]; cbn [next_addr].
  - eexists. split; [done|]. split; [by apply dlseg_frame|]. split; [apply lookup_insert_eq|]. split; [done|].
    split; [by rewrite lookup_insert_ne, Hs2 by done|done].
  - destruct Hs3 as [Hl3 Hs3]. rewrite fmap_cons in Hd2, Hd3, Ha3, Hd. apply not_elem_of_cons in Hd2 as [Hd2 Hd2'], Ha3 as [Ha3 Ha3'].
    apply NoDup_cons in Hd3 as [Hd3 _]. rewrite lookup_insert_ne, Hl3 by done. cbn [mbind option_bind]. eexists. split; [done|].
    split; [apply dlseg_frame; [|by apply dlseg_frame]; intros Hx; apply (Hd _ Hx); right; by left|].
    split; [by rewrite lookup_insert_ne, lookup_insert_eq by done|].
    split; [split; [by rewrite lookup_insert_eq|by do 2 (apply dlseg_frame; [done|])]|].
    split; [by rewrite !lookup_insert_ne, Hs2 by done|]. rewrite map_size_insert_Some; [done|]. by rewrite lookup_insert_ne, Hl3 by done.
Qed.

Lemma u32_two v : u32 v +w 1 +w 1 = u32 (v + 2).
Proof. unfold u32. by rewrite Z.add_mod_idemp_l, <- Z.add_assoc, Z.add_mod_idemp_l. Qed.
Lemma u32_len (xs : list E) : (length xs <= 64)%nat → u32 (Z.of_nat (length xs)) = Z.of_nat (length xs).
Proof. intros. apply u32_small. unfold is_u32. lia. Qed.
Section Writer.
Context (new_addr : gmap Z (leaf_block (E := E)) → Z) (Hnew : ∀ h, h !! new_addr h = None).
Lemma elem_of_trie_insert (t : M) k v k' v' :
  (k', v') ∈ entries (expanse_map_insert t k v).1 → (k', v') ∈ entries t ∨ v' = v.
Proof. intros [[= -> ->]|[_ ?]]%elem_of_insert; [by right|by left]. Qed.
(** The representation a split leaves. *)
Lemma split_ok r l n rr (a b : list E) na h' k :
  chain (Some (n_addr n)) r (l ++ n :: rr) → n_es n = a ++ b → Z.of_nat (length a) = Z.of_nat (length (n_es n)) / 2 → b ≠ [] → (l ≠ [] → a ≠ []) →
  na ∉ n_addr <$> (l ++ n :: rr) → let n1 := Node (n_addr n) (n_ver n + 2) a in let n2 := Node na 0 b in
  dlseg h' None l (Some (n_addr n)) → h' !! na = Some (blk (Some (n_addr n)) n2 (next_addr rr None)) → dlseg h' (Some na) rr None →
  is_Some (h' !! n_addr n) → size h' = S (size (heap r)) →
  chain_ok (Rep (<[n_addr n := blk (last_addr l None) n1 (Some na)]> h') (head_ r) (match rr with [] => na | _ => tail_ r end) (total_keys_ r)
             (u64 (total_allocated_bytes_ r + sizeof_LeafBlock)) (expanse_map_insert (trie_index_ r) k na).1 (leaf_capacity_ r)) (l ++ n1 :: n2 :: rr).
Proof.
  intros Hc Hes Hmid Hb Hla Hfr n1 n2 Hd1 Hd2 Hd3 Hd4 Hd5. destruct Hc as [Hseg Hnd Hsz Hh Htl Hlen Hev Hfull Hs Htrie Hcap Hk Hby].
  assert (contents (l ++ n1 :: n2 :: rr) = contents (l ++ n :: rr)) as Hcont by (by rewrite !contents_app, !contents_cons, Hes, <- !app_assoc).
  rewrite fmap_app, fmap_cons in Hnd, Hfr. apply not_elem_of_app in Hfr as [Hf1 [Hf2 Hf3]%not_elem_of_cons].
  apply NoDup_app in Hnd as (Hn1 & Hn2 & [Hn3 Hn4]%NoDup_cons).
  split; cbn [heap head_ tail_ total_keys_ total_allocated_bytes_ trie_index_ leaf_capacity_].
  - apply dlseg_app. split; [apply dlseg_frame; [|done]; intros Hx; apply (Hn2 _ Hx); by left|].
    split; [apply lookup_insert_eq|]. split; [cbn [n_addr n2]; by rewrite lookup_insert_ne by done|]. by apply dlseg_frame.
  - rewrite fmap_app, !fmap_cons. cbn [n_addr n1 n2]. apply NoDup_app. split; [done|]. split.
    + intros x Hx. apply not_elem_of_cons. split; [intros ->; apply (Hn2 _ Hx); by left|]. apply not_elem_of_cons.
      split; [by intros ->|]. intros Hx2. apply (Hn2 _ Hx). by right.
    + apply NoDup_cons. split; [apply not_elem_of_cons; auto|]. by apply NoDup_cons.
  - rewrite map_size_insert_Some by done. rewrite Hd5, Hsz, !length_app. cbn [length]. lia.
  - destruct l; done.
  - rewrite last_app. destruct rr as [|n3 rr]; [done|]. rewrite Htl, last_app. done.
  - apply Forall_app in Hlen as [Hl1 [Hl2 Hl3]%Forall_cons]. unfold len_ok in Hl2. rewrite decide_True in Hl2 by done.
    apply Forall_app. split; [apply (len_strict _ (n_addr n)); [|done]; intros Hx; apply (Hn2 _ Hx); by left|].
    rewrite Hes, length_app in *. do 2 (constructor; [unfold len_ok; cbn [n_es n1 n2]; rewrite decide_False by done; Z.to_euclidean_division_equations; lia|]). by apply (len_strict _ (n_addr n)).
  - apply Forall_app in Hev as [He1 [[He2 ?] He3]%Forall_cons]. apply Forall_app. split; [done|].
    constructor; [cbn [n_ver n1]; split; [by rewrite Z.even_add, He2|lia]|]. by constructor.
  - destruct l as [|n0 l]; cbn [app tail] in *; [by constructor|]. apply Forall_app in Hfull as [Hf [_ Hf']%Forall_cons].
    apply Forall_app. split; [done|]. constructor; [by apply Hla|]. by constructor.
  - by rewrite Hcont.
  - intros k' v [Hin| ->]%elem_of_trie_insert.
    + apply Htrie in Hin. rewrite fmap_app, fmap_cons in *. set_solver.
    + rewrite fmap_app. apply elem_of_app. right. right. by left.
  - done.
  - by rewrite Hcont.
  - rewrite Hby, u64_plus. f_equal. rewrite !length_app. cbn [length]. lia.
Qed.
Lemma split_chain r l n rr (a b : list E) :
  chain (Some (n_addr n)) r (l ++ n :: rr) → n_es n = a ++ b → Z.of_nat (length a) = Z.of_nat (length (n_es n)) / 2 →
  n_es n ≠ [] → (l ≠ [] → a ≠ []) →
  ∃ r', SplitLeafBlock new_addr (n_addr n) r = Some r' ∧ leaf_capacity_ r' = leaf_capacity_ r ∧
    chain_ok r' (l ++ Node (n_addr n) (n_ver n + 2) a :: Node (new_addr (heap r)) 0 b :: rr).
Proof.
  intros Hc Hes Hmid Hne Hla. pose proof Hc as [Hseg Hnd Hsz Hh Htl Hlen Hev Hfull Hs Htrie Hcap Hk Hby].
  pose proof (chain_fresh _ _ _ _ Hc (Hnew (heap r))) as Hfr. set (na := new_addr (heap r)) in *.
  assert (length (a ++ b) <= 64)%nat as Hl64.
  { rewrite <- Hes. pose proof (chain_len64 _ _ _ Hc) as Hl. apply Forall_app in Hl as [_ [Hl _]%Forall_cons]. done. }
  assert (Z.of_nat (length (n_es n)) - Z.of_nat (length a) = Z.of_nat (length b)) as Hbl by (rewrite Hes, length_app; lia).
  assert (b ≠ []) as Hb. { intros ->. rewrite Hes, app_nil_r in Hmid, Hne. destruct a; [done|]. cbn [length] in Hmid. Z.to_euclidean_division_equations; lia. }
  set (n1 := Node (n_addr n) (n_ver n + 2) a). set (n2 := Node na 0 b).
  destruct (relink _ l n rr na (blk (Some (n_addr n)) n2 (next_addr rr None)) Hseg Hnd Hfr (Hnew _)) as (h' & Hh' & Hd1 & Hd2 & Hd3 & Hd4 & Hd5).
  destruct (split_slots a b Hl64) as [Hmv Hnl]. unfold SplitLeafBlock. rewrite (dlseg_lookup _ _ _ _ _ _ Hseg). cbn [mbind option_bind].
  cbn [count version prev_leaf next_leaf slots blk]. rewrite <- Hmid, Hbl, Nat2Z.id, Hes, Hmv. cbn [mbind option_bind]. rewrite Hnl. cbn [mbind option_bind].
  rewrite length_app in Hl64. rewrite !u32_len by lia. fold na. change (LeafBlock 0 _ _ _ _) with (blk (Some (n_addr n)) n2 (next_addr rr None)).
  set (tl := match rr with [] => na | _ => tail_ r end).
  assert (∀ X, match next_addr rr None with
               | Some c => nb ← <[na := blk (Some (n_addr n)) n2 (next_addr rr None)]> (heap r) !! c;
                           Some (<[c := set_prev na nb]> (<[na := blk (Some (n_addr n)) n2 (next_addr rr None)]> (heap r)), tail_ r)
               | None => Some (<[na := blk (Some (n_addr n)) n2 (next_addr rr None)]> (heap r), na)
               end = X → X = Some (h', tl)) as Hmatch.
  { intros X <-. destruct rr as [|n3 rr]; cbn [next_addr] in *; [by injection Hh' as ->|]. destruct (_ !! n_addr n3); [|done]. cbn in *. by injection Hh' as ->. }
  rewrite (Hmatch _ eq_refl). cbn [mbind option_bind]. rewrite (proj2 (Z.gtb_lt _ 0)) by (destruct b; [done|cbn [length]; lia]).
  assert (∃ x, arr_get (slots_of b) 0 = Some (Some x)) as [x Hx] by (destruct b as [|x b']; [done|]; exists x; by rewrite slots_get by (cbn [length]; lia)).
  rewrite Hx. cbn [mbind option_bind fmap option_fmap option_map]. rewrite prefix_data. cbn [mbind option_bind].
  eexists. split; [done|]. split; [done|]. rewrite u32_two. change (LeafBlock _ _ _ _ _) with (blk (last_addr l None) n1 (Some na)).
  by apply (split_ok _ l n rr a b).
Qed.
(** What an insertion leaves of the blocks: each is as it was or has a higher version. *)
Definition grows nodes nodes' : Prop :=
  (∀ n, n ∈ nodes → ∃ n', n' ∈ nodes' ∧ n_addr n' = n_addr n ∧ (n' = n ∨ n_ver n < n_ver n')) ∧
  (∀ bound, 0 <= bound → Forall (λ n, n_ver n <= bound) nodes → Forall (λ n, n_ver n <= bound + 4) nodes').
Lemma grows_at l n rr (new : list (node E)) :
  (∃ n', n' ∈ new ∧ n_addr n' = n_addr n ∧ n_ver n < n_ver n') → Forall (λ n', n_ver n' <= Z.max 0 (n_ver n) + 4) new →
  grows (l ++ n :: rr) (l ++ new ++ rr).
Proof.
  intros (n' & Hn' & Ha & Hv) Hb. split.
  - intros n0 [Hn0|[->|Hn0]%elem_of_cons]%elem_of_app.
    + exists n0. split; [apply elem_of_app; by left|]. auto.
    + exists n'. split; [apply elem_of_app; right; apply elem_of_app; by left|]. auto.
    + exists n0. split; [apply elem_of_app; right; apply elem_of_app; by right|]. auto.
  - intros bound H0' [Hl [Hn Hr]%Forall_cons]%Forall_app. assert (∀ l', Forall (λ n, n_ver n <= bound) l' → Forall (λ n, n_ver n <= bound + 4) l') as Hw.
    { intros l' Hl'. eapply Forall_impl; [exact Hl'|]. cbn. lia. }
    apply Forall_app. split; [by apply Hw|]. apply Forall_app. split; [|by apply Hw]. eapply Forall_impl; [exact Hb|]. cbn. lia.
Qed.
(** What it leaves of their order: what is before a block stays before it, what is
    after it stays after it, only the new entry can come before it, the first block
    stays first, and the first key of another one does not increase. *)
Definition keeps (es : list E) nodes nodes' : Prop :=
  ∀ l n rr, nodes = l ++ n :: rr → ∃ l' n' rr', nodes' = l' ++ n' :: rr' ∧ n_addr n' = n_addr n ∧
    contents l ⊆ contents l' ∧ contents rr ⊆ contents rr' ∧ contents l' ⊆ es ++ contents l ∧
    (l = [] ↔ l' = []) ∧ (l ≠ [] → ∀ m, first_of n = Some m → ∃ m', first_of n' = Some m' ∧ le m' m).
Lemma keeps_at e l0 n0 rr0 n1 (more : list (node E)) :
  n_addr n1 = n_addr n0 → n_es n0 ⊆ contents (n1 :: more) → contents (n1 :: more) ⊆ e :: n_es n0 →
  (l0 ≠ [] → ∀ m, first_of n0 = Some m → ∃ m', first_of n1 = Some m' ∧ le m' m) →
  keeps [e] (l0 ++ n0 :: rr0) (l0 ++ (n1 :: more) ++ rr0).
Proof.
  intros Ha Hsub Hsup Hmin l n rr Heq. assert (∀ n m, first_of n = Some m → ∃ m', first_of n = Some m' ∧ le m' m) as Hsame by (intros n2 m Hm; exists m; split; [done|apply le_refl]).
  assert (contents rr0 ⊆ contents (more ++ rr0)) as Hmore by (rewrite contents_app; intros x Hx; apply elem_of_app; by right).
  assert (contents l0 ⊆ [e] ++ contents l0) as Hl0 by (intros x Hx; apply elem_of_app; by right).
  destruct (app_eq_app _ _ _ _ Heq) as (k & [[-> Hk]|[-> Hk]]); destruct k as [|n2 k]; cbn [app] in Hk.
  - injection Hk as <- <-. rewrite app_nil_r in *. eexists _, n1, _. split; [by rewrite <- app_comm_cons|]. done.
  - injection Hk as <- ->. exists l, n, (k ++ (n1 :: more) ++ rr0). rewrite <- app_assoc. cbn [app]. split; [done|]. split; [done|]. split; [done|].
    split; [rewrite !contents_app, contents_cons, app_comm_cons, contents_app in *; set_solver|]. split; [by intros x Hx; right|]. split; [done|auto].
  - injection Hk as <- <-. rewrite app_nil_r in *. eexists _, n1, _. split; [by rewrite <- app_comm_cons|]. done.
  - injection Hk as <- ->. exists (l0 ++ (n1 :: more) ++ k), n, rr. rewrite <- !app_assoc. split; [done|]. split; [done|]. rewrite !contents_app, !(contents_cons n0) in *.
    split; [set_solver|]. split; [done|]. split; [set_solver|]. split; [|auto]. split; intros [_ ?]%app_nil; done.
Qed.
(** An insertion up to its test for a full block. *)
Lemma insert_step r nodes e :
  chain_ok r nodes →
  ∃ l n rr a b r1, nodes = l ++ n :: rr ∧ n_es n = a ++ b ∧ leaf_capacity_ r1 = leaf_capacity_ r ∧
    chain (Some (n_addr n)) r1 (l ++ Node (n_addr n) (n_ver n + 2) (a ++ e :: b) :: rr) ∧
    Insert new_addr e r = if Z.of_nat (length (a ++ e :: b)) >=? leaf_capacity_ r then SplitLeafBlock new_addr (n_addr n) r1 else Some r1.
Proof.
  intros Hc. destruct (find_insert_spec r nodes e Hc) as (l & n & rr & Hf & -> & Hset). unfold Insert. rewrite Hf. cbn [mbind option_bind].
  rewrite (dlseg_lookup _ _ _ _ _ _ (ch_seg _ _ _ Hc)). cbn [mbind option_bind count slots version prev_leaf next_leaf blk].
  pose proof (ch_sorted _ _ _ Hc) as Hs. rewrite contents_app, contents_cons in Hs. apply sorted_app_inv in Hs as (_ & (Hs & _ & _)%sorted_app_inv & _).
  destruct (sorted_split (λ x, compare_ e x >? 0) (n_es n)) as (a & b & Hes & Ha & Hb); [|done|].
  { intros x y Hxy Hy. apply Z.gtb_lt in Hy. apply Z.gtb_lt. apply (proj1 (flip _ _)). apply le_lt_trans with y; [done|]. by apply (proj1 (flip _ _)). }
  assert (length (a ++ b) <= 63)%nat as Hl.
  { rewrite <- Hes. pose proof (ch_len _ _ _ Hc) as Hl. apply Forall_app in Hl as [_ [Hl _]%Forall_cons]. unfold len_ok in Hl. rewrite decide_False in Hl by done.
    pose proof (ch_cap _ _ _ Hc). lia. }
  rewrite Hes, (search_spec _ a b) by (try done; rewrite ?length_app; lia). cbn [mbind option_bind].
  replace (Z.to_nat (Z.of_nat (length (a ++ b)) - Z.of_nat (length a))) with (length b) by (rewrite length_app; lia).
  pose proof (put_slots a b e Hl) as Hput. destruct (shift_loop _ _ _) as [es|]; [|done]. cbn [mbind option_bind] in Hput |- *. rewrite Hput. cbn [mbind option_bind].
  set (n' := Node (n_addr n) (n_ver n + 2) (a ++ e :: b)).
  assert (u32 (Z.of_nat (length (a ++ b)) + 1) = Z.of_nat (length (n_es n'))) as Hcnt.
  { rewrite u32_small by (unfold is_u32; lia). cbn [n_es n']. rewrite !length_app. cbn [length]. lia. }
  rewrite u32_two, Hcnt. change (LeafBlock _ _ _ _ _) with (blk (last_addr l None) n' (next_addr rr None)).
  assert (∃ trie, (if Z.of_nat (length a) =? 0 then pfx ← ExtractKeyPrefix64 (Some (data e)); Some (expanse_map_insert (trie_index_ r) pfx (n_addr n)).1
                   else Some (trie_index_ r)) = Some trie ∧ ∀ k v, (k, v) ∈ entries trie → (k, v) ∈ entries (trie_index_ r) ∨ v = n_addr n) as (trie & -> & Htrie).
  { destruct (_ =? 0); [|by eauto]. rewrite prefix_data. eexists. split; [done|]. intros k v. apply elem_of_trie_insert. }
  cbn [mbind option_bind]. assert (Forall (λ x, lt x e) a ∧ Forall (λ x, le e x) b) as [Ha' Hb'].
  { split; [eapply Forall_impl; [exact Ha|]|eapply Forall_impl; [exact Hb|]]; intros x Hx; cbn beta in Hx; unfold lt, le; destruct (flip x e); lia. }
  pose proof (put_chain r l n rr e a b trie Hc Hes Hset Ha' Hb' Htrie) as Hp. fold n' in Hp. set (r1 := Rep _ _ _ _ _ _ _) in Hp |- *.
  by exists l, n, rr, a, b, r1.
Qed.
Lemma head_half (xs : list E) : (2 <= length xs)%nat → head (take (length xs / 2) xs) = head xs.
Proof. intros Hl. destruct xs as [|x xs]; [done|]. destruct (length (x :: xs) / 2)%nat eqn:Hm; [|done]. apply Nat.div_small_iff in Hm; lia. Qed.
Lemma insert_chain r nodes e :
  chain_ok r nodes →
  ∃ r' nodes' c1 c2, Insert new_addr e r = Some r' ∧ chain_ok r' nodes' ∧ leaf_capacity_ r' = leaf_capacity_ r ∧
    contents nodes = c1 ++ c2 ∧ contents nodes' = c1 ++ e :: c2 ∧ grows nodes nodes' ∧ keeps [e] nodes nodes'.
Proof.
  intros Hc. destruct (insert_step r nodes e Hc) as (l & n & rr & a & b & r1 & -> & Hes & Hcp & Hp & ->). set (n' := Node _ _ _) in *.
  assert (contents (l ++ n :: rr) = (contents l ++ a) ++ b ++ contents rr) as Hold by (by rewrite contents_app, contents_cons, Hes, <- !app_assoc).
  assert (contents (l ++ n' :: rr) = (contents l ++ a) ++ e :: b ++ contents rr) as Hnw by (rewrite contents_app, contents_cons; cbn [n_es n']; by rewrite <- !app_assoc).
  assert (∀ m, first_of n = Some m → ∃ m', first_of n' = Some m' ∧ le m' m) as Hfirst.
  { pose proof (ch_sorted _ _ _ Hp) as Hs. rewrite Hnw in Hs. apply sorted_app_inv in Hs as (_ & [_ Hs]%StronglySorted_inv & _). apply Forall_app in Hs as [Hs _].
    intros m. unfold first_of. rewrite Hes. cbn [n_es n']. destruct a as [|x a]; cbn [app head]; [|intros [= ->]; exists m; split; [done|apply le_refl]].
    destruct b as [|x b]; [done|]. intros [= ->]. exists e. split; [done|]. by apply Forall_cons in Hs as [? _]. }
  change (a ++ e :: b) with (n_es n') at 1. destruct (Z.of_nat (length (n_es n')) >=? leaf_capacity_ r) eqn:Hcap.
  - set (mid := (length (n_es n') / 2)%nat). assert (2 <= length (n_es n') ∨ l = [])%nat as Hl2.
    { destruct l as [|n0 l0]; [by right|left]. destruct (later_first _ (n0 :: l0) n rr (ch_full _ _ _ Hc) eq_refl) as [m Hm]; [done|].
      unfold first_of in Hm. rewrite Hes in Hm. cbn [n_es n']. rewrite length_app. cbn [length]. destruct a, b; cbn [length head app] in *; (done || lia). }
    assert (length (take mid (n_es n')) = mid) as Hmid by (rewrite length_take; unfold mid; apply Nat.min_l, Nat.Div0.div_le_upper_bound; lia).
    destruct (split_chain r1 l n' rr (take mid (n_es n')) (drop mid (n_es n'))) as (r2 & Hsp & Hc2 & Hok); [done|by rewrite take_drop| | | |].
    + rewrite Hmid. unfold mid. by rewrite Nat2Z.inj_div.
    + cbn [n_es n']. by destruct a.
    + intros Hne Hnil. destruct Hl2 as [Hl2|?]; [|done]. rewrite Hnil in Hmid. cbn [length] in Hmid. symmetry in Hmid. apply Nat.div_small_iff in Hmid; lia.
    + eexists r2, _, _, _. split; [exact Hsp|]. split; [exact Hok|]. split; [congruence|]. split; [exact Hold|]. split.
      * rewrite <- Hnw, !contents_app, !contents_cons. cbn [n_es]. by rewrite (app_assoc (take _ _)), take_drop.
      * split; [apply (grows_at l n rr [_; _]); [eexists; split; [by left|]; cbn; lia|]; repeat constructor; cbn; lia|].
        apply (keeps_at e l n rr _ [_]); [done|rewrite !contents_cons, app_nil_r; cbn [n_es]; rewrite take_drop, Hes; cbn [n_es n']; set_solver..|].
        intros Hne m Hm. destruct (Hfirst m Hm) as (m' & Hm' & Hle). exists m'. split; [|done]. unfold first_of in *. cbn [n_es]. destruct Hl2 as [Hl2|?]; [|done]. etrans; [exact (head_half _ Hl2)|done].
  - exists r1, (l ++ n' :: rr), (contents l ++ a), (b ++ contents rr). split; [done|]. split; [|split; [done|]; split; [done|]; split; [done|]].
    + destruct Hp. split; try done. apply Forall_app in ch_len0 as [Hl1 [_ Hl3]%Forall_cons].
      pose proof (ch_nodup _ _ _ Hc) as Hnd. rewrite fmap_app, fmap_cons in Hnd. apply NoDup_app in Hnd as (_ & Hn2 & [Hn3 _]%NoDup_cons).
      apply Forall_app. split; [apply (len_strict _ (n_addr n)); [|done]; intros Hx; apply (Hn2 _ Hx); by left|].
      constructor; [|by apply (len_strict _ (n_addr n))]. unfold len_ok. rewrite decide_False by done. rewrite Hcp. lia.
    + split; [apply (grows_at l n rr [n']); [eexists; split; [by left|]; cbn; lia|]; repeat constructor; cbn; lia|].
      apply (keeps_at e l n rr n' []); [done|rewrite contents_cons, app_nil_r, Hes; cbn [n_es n']; set_solver..|auto].
Qed.
End Writer.
End Invariant.
Abbreviation chain_ok := (chain None).
