(* ===== verification/RocksEntries.v ===== *)
(** * Memtable entries as RocksDB packs them

    An entry is a length-prefixed internal key, then, unless it is a lookup key,
    a length-prefixed value.  With the comparator of
    [src/integrations/rocksdb/include/expanse_memtable.h] on internal keys, such
    entries satisfy what the memtable's proofs ask of a comparator.  Also here:
    the layout [LookupKey] gives a key, and an allocator for the examples. *)
From stdpp Require Import base numbers list sorting gmap.
From S2P Require Import Prelude RocksKeys RocksTable RocksIter RocksChain.
Open Scope Z_scope.

Definition entry_ok (user : bytes) (seq type : Z) (value : option bytes) : bool :=
  (0 <=? seq) && (seq <? 2 ^ 56) && (0 <=? type) && (type <? 256) && (Z.of_nat (length user) + 8 <? 2 ^ 32)
  && (Z.of_nat (length (default [] value)) <? 2 ^ 32).
Record entry := Entry { e_user : bytes; e_seq : Z; e_type : Z; e_value : option bytes; e_ok : entry_ok e_user e_seq e_type e_value = true }.
Definition e_ikey (e : entry) : bytes := internal_key (e_user e) (e_seq e) (e_type e).
Definition e_tail (e : entry) : bytes := match e_value e with Some v => EncodeVarint32 (Z.of_nat (length v)) ++ v | None => [] end.
Definition e_data (e : entry) : bytes := EncodeVarint32 (Z.of_nat (length (e_ikey e))) ++ e_ikey e ++ e_tail e.
Definition e_slice (e : entry) : bytes := default [] (GetLengthPrefixedSlice (Some (e_data e))).
#[export] Instance entry_comparator : KeyComparator entry := {
  compare_ a b := CompareInternalKeys (e_slice a) (e_slice b);
  compare_slice k b := CompareInternalKeys k (e_slice b);
  data := e_data;
}.

(** ** The layout of a lookup key *)
Definition kTypeValue : Z := 1.
(** [for (i = 0; i < 8; ++i) p[i] = (trailer >> (i * 8)) & 0xff] from [i]. *)
Fixpoint put_trailer (n : nat) (i trailer : Z) : bytes :=
  match n with O => [] | S n => Z.land (Z.shiftr trailer (i * 8)) 255 :: put_trailer n (i + 1) trailer end.
Definition LookupKey (user_key : bytes) (sequence : Z) : bytes :=
  let trailer := Z.lor (u64 (Z.shiftl sequence 8)) kTypeValue in
  EncodeVarint32 (u32 (Z.of_nat (length user_key) + 8)) ++ user_key ++ put_trailer 8 0 trailer.

Lemma entry_bounds e :
  0 <= e_seq e < 2 ^ 56 ∧ is_u8 (e_type e) ∧ Z.of_nat (length (e_ikey e)) < 2 ^ 32 ∧ Z.of_nat (length (default [] (e_value e))) < 2 ^ 32.
Proof.
  pose proof (e_ok e) as He. unfold entry_ok in He. rewrite !andb_true_iff in He. destruct He as (((((? & ?) & ?) & ?) & ?) & ?).
  unfold e_ikey, internal_key, is_u8. rewrite length_app, le_bytes_length. lia.
Qed.
Lemma slice_of_entry e : GetLengthPrefixedSlice (Some (e_data e)) = Some (e_ikey e).
Proof. destruct (entry_bounds e) as (_ & _ & ? & _). by apply length_prefixed. Qed.
Lemma compare_entries a b : compare_ a b = key_order (e_user a, (e_seq a, e_type a)) (e_user b, (e_seq b, e_type b)).
Proof.
  cbn [compare_ entry_comparator]. unfold e_slice. rewrite !slice_of_entry. cbn [default from_option id]. destruct (entry_bounds a) as (? & ? & _), (entry_bounds b) as (? & ? & _).
  by apply compare_spec.
Qed.
Lemma varint_at_encode v tail : is_u32 v → varint_at (EncodeVarint32 v ++ tail) = Some (v, tail).
Proof.
  intros Hv. unfold varint_at. set (e := EncodeVarint32 v). pose proof (varint_length v) as Hl. fold e in Hl.
  rewrite take_app_ge by lia. unfold e at 1. rewrite varint_decode by done. do 2 f_equal. rewrite length_app.
  replace (length e + _ - _)%nat with (length e) by lia. apply drop_app_length.
Qed.
Lemma slice_of_app (k tail : bytes) : slice_of (k ++ tail) (Z.of_nat (length k)) = Some k.
Proof. unfold slice_of. rewrite (proj2 (Z.ltb_ge _ _)) by (rewrite length_app; lia). by rewrite Nat2Z.id, take_app_length. Qed.
Lemma decode_entry e : decode e = Some (Some (e_ikey e, default [] (e_value e))).
Proof.
  destruct (entry_bounds e) as (_ & _ & ? & Hv). unfold decode. cbn [data entry_comparator]. unfold e_data. rewrite varint_at_encode by (unfold is_u32; lia).
  rewrite slice_of_app. cbn [mbind option_bind]. rewrite Nat2Z.id, drop_app_length. unfold e_tail.
  destruct (e_value e) as [v|]; [|done]. cbn [default from_option] in Hv. rewrite varint_at_encode by (unfold is_u32; unfold id in Hv; lia).
  pose proof (slice_of_app v []) as Hs. rewrite app_nil_r in Hs. by rewrite Hs.
Qed.
Lemma user_of_entry e : take (length (e_ikey e) - 8) (e_ikey e) = e_user e.
Proof. destruct (entry_bounds e) as (? & ? & _). by destruct (internal_key_parts (e_user e) (e_seq e) (e_type e)) as (_ & ? & _). Qed.
Lemma key_order_user a b : key_order a b <= 0 → lex a.1 b.1 <= 0.
Proof. unfold key_order, then_. destruct (Z.eqb_spec (lex a.1 b.1) 0); lia. Qed.
#[export] Instance entry_laws : KeyComparatorLaws entry.
Proof.
  refine {| ikey := e_ikey; value e := default [] (e_value e) |}.
  - apply slice_of_entry.
  - intros e. unfold e_ikey, internal_key. rewrite length_app, le_bytes_length. lia.
  - apply decode_entry.
  - intros a b. rewrite !compare_entries, (to_anti _ key_order_total). by rewrite Z.sgn_opp.
  - intros a b c. rewrite !compare_entries. apply (to_trans _ key_order_total).
  - intros a b. cbn [compare_slice compare_ entry_comparator]. unfold e_slice. by rewrite !slice_of_entry.
  - intros a b c. rewrite !compare_entries, !user_of_entry. intros Hab%key_order_user Hbc%key_order_user Huser. cbn [fst] in *. rewrite <- Huser in Hbc.
    apply lex_eq. pose proof (lex_antisym (e_user a) (e_user b)). lia.
Defined.
(** The bytes of a lookup key are those of an entry without a value. *)
Lemma lookup_key_layout e : e_type e = kTypeValue → e_value e = None → LookupKey (e_user e) (e_seq e) = e_data e.
Proof.
  intros Ht Hv. destruct (entry_bounds e) as (Hs & _ & Hl & _). unfold LookupKey, e_data, e_tail. rewrite Hv, app_nil_r.
  unfold e_ikey, internal_key in Hl |- *. rewrite length_app, le_bytes_length in Hl |- *.
  rewrite u32_small by (unfold is_u32; lia). rewrite Nat2Z.inj_add. do 2 f_equal. rewrite Ht.
  rewrite Z.shiftl_mul_pow2, u64_small by (unfold is_u64; lia). unfold kTypeValue. rewrite lor_low by lia. change (2 ^ 8) with 256.
  assert (∀ m i z, 0 <= i → put_trailer m i (z) = le_bytes m (z / 2 ^ (i * 8))) as Hput; [|by rewrite Hput, Z.div_1_r].
  induction m as [|m IH]; intros i z Hi; [done|]. cbn [put_trailer le_bytes]. f_equal.
  - change 255 with (Z.ones 8). rewrite Z.land_ones, Z.shiftr_div_pow2 by lia. done.
  - rewrite IH, Z.div_div by lia. f_equal. replace ((i + 1) * 8) with (i * 8 + 8) by lia. rewrite Z.pow_add_r by lia. done.
Qed.

(** ** Addresses: one past the highest *)
Definition top_addr {B} (h : gmap Z B) : Z := 1 + map_fold (λ a _ m, Z.max a m) 0 h.
Lemma top_addr_fresh {B} (h : gmap Z B) : h !! top_addr h = None.
Proof.
  destruct (h !! top_addr h) as [b|] eqn:Hb; [|done]. exfalso. assert (∀ a b, h !! a = Some b → a <= map_fold (λ a (_ : B) m, Z.max a m) 0 h) as Hle.
  { apply (map_fold_weak_ind (λ m h, ∀ a b, h !! a = Some b → a <= m)); [done|]. intros a x h' m Ha IH a' b'. rewrite lookup_insert.
    case_decide; [lia|]. intros Hl. specialize (IH a' b' Hl). lia. }
  apply Hle in Hb. unfold top_addr in Hb. lia.
Qed.
