(* ===== verification/RocksLookup.v ===== *)
(** * The memtable's table and its lookups

    Theorems on [RocksTable]: a table built by insertions holds exactly the
    inserted entries in key order, [Contains] and [Get] answer from them. *)
From stdpp Require Import base numbers list sorting gmap.
From S2P Require Import Prelude SortedAssoc ExpanseApi Sync32 EngineViews RocksKeys RocksTable RocksIter RocksChain RocksEntries.
Open Scope Z_scope.

Lemma sorted_lookup {A} (R : A → A → Prop) (l : list A) i j x y :
  StronglySorted R l → l !! i = Some x → l !! j = Some y → (i < j)%nat → R x y.
Proof.
  intros Hs. revert i j. induction Hs as [|z l Hs IH Hz]; intros i j Hi Hj Hij; [done|]. destruct j as [|j]; [lia|].
  destruct i as [|i]; cbn in Hi, Hj; [injection Hi as ->; by eapply Forall_lookup_1 in Hz|]. eapply IH; [done..|lia].
Qed.

Lemma filter_true {A} (P : A → Prop) `{!∀ x, Decision (P x)} (l : list A) : Forall P l → filter P l = l.
Proof. induction 1 as [|x l Hx _ IH]; [done|]. rewrite filter_cons_True by done. by rewrite IH. Qed.
Lemma filter_false {A} (P : A → Prop) `{!∀ x, Decision (P x)} (l : list A) : Forall (λ x, ¬ P x) l → filter P l = [].
Proof. induction 1 as [|x l Hx _ IH]; [done|]. by rewrite filter_cons_False by done. Qed.
Lemma strongly_filter {A} (R : A → A → Prop) (P : A → Prop) `{!∀ x, Decision (P x)} (l : list A) : StronglySorted R l → StronglySorted R (filter P l).
Proof.
  induction 1 as [|x l Hl IH Hx]; [constructor|]. destruct (decide (P x)); [|by rewrite filter_cons_False].
  rewrite filter_cons_True by done. constructor; [done|]. apply Forall_forall. intros y [_ Hy]%list_elem_of_filter. by eapply Forall_forall in Hx.
Qed.

Section Lookup.
Context {E : Type} `{KeyComparatorLaws E} {M : Type} `{ExpanseMapPrevLaws M}.
Context (new_addr : gmap Z (leaf_block (E := E)) → Z) (Hnew : ∀ h, h !! new_addr h = None).
Implicit Types (r : rep (E := E) (M := M)) (h : gmap Z (leaf_block (E := E))) (n : node E) (l nodes rr : list (node E)) (x y e k : E).

(** ** A table built by insertions *)
Fixpoint insert_all (es : list E) r : option (rep (E := E) (M := M)) :=
  match es with [] => Some r | e :: es => r ← Insert new_addr e r; insert_all es r end.
(** The entries along the chain, from a block on. *)
Fixpoint dump (fuel : nat) h (block : option Z) : option (list E) :=
  match block with
  | None => Some []
  | Some c =>
      match fuel with
      | O => None
      | S fuel => b ← h !! c; es ← mapM id (take (Z.to_nat (count b)) (slots b)); rest ← dump fuel h (next_leaf b); Some (es ++ rest)
      end
  end.
Definition table r : option (list E) := dump (size (heap r)) (heap r) (Some (head_ r)).
(** No two entries compare equal, as RocksDB's sequence numbers make them. *)
Definition distinct (es : list E) : Prop := ForallOrdPairs (λ x y, compare_ x y ≠ 0) es.

Lemma dump_spec h p nodes fuel :
  dlseg h p nodes None → (length nodes <= fuel)%nat → dump fuel h (next_addr nodes None) = Some (contents nodes).
Proof.
  revert p fuel. induction nodes as [|n nodes IH]; intros p fuel Hd Hf; [by destruct fuel|]. destruct fuel as [|fuel]; [cbn in Hf; lia|].
  destruct Hd as [Hn Hd]. cbn [next_addr dump]. rewrite Hn. cbn [mbind option_bind count slots next_leaf blk]. rewrite Nat2Z.id.
  unfold slots_of. rewrite take_app_length' by (by rewrite length_fmap).
  assert (mapM id (Some <$> n_es n) = Some (n_es n)) as ->.
  { apply mapM_Some_2. rewrite Forall2_fmap_l. apply Forall_Forall2_diag, Forall_forall. done. }
  cbn [mbind option_bind]. rewrite (IH _ _ Hd) by (cbn in Hf; lia). done.
Qed.
Lemma table_chain full r nodes : chain full r nodes → table r = Some (contents nodes).
Proof.
  intros Hc. unfold table. pose proof (ch_head _ _ _ Hc) as Hh. destruct nodes as [|n nodes]; [done|]. cbn in Hh. injection Hh as ->.
  apply (dump_spec _ None (n :: nodes)); [apply (ch_seg _ _ _ Hc)|by rewrite (ch_size _ _ _ Hc)].
Qed.
Lemma new_chain cap : 0 <= cap → chain_ok (rep_new (M := M) new_addr cap) [Node (new_addr ∅) 0 []].
Proof.
  intros Hcap. unfold rep_new. split; cbn [heap head_ tail_ total_keys_ total_allocated_bytes_ trie_index_ leaf_capacity_].
  - split; [|done]. by rewrite lookup_singleton_eq.
  - apply NoDup_singleton.
  - by rewrite map_size_singleton.
  - done.
  - done.
  - repeat constructor. unfold len_ok. cbn [n_es length]. case_decide; lia.
  - repeat constructor; done.
  - constructor.
  - constructor.
  - intros k v. rewrite entries_new. by intros ?%elem_of_nil.
  - unfold kMaxCapacity. destruct (Z.gtb_spec cap 0); lia.
  - done.
  - done.
Qed.
Lemma insert_all_chain es r nodes :
  chain_ok r nodes → ∃ r' nodes', insert_all es r = Some r' ∧ chain_ok r' nodes' ∧ contents nodes' ≡ₚ es ++ contents nodes.
Proof.
  revert r nodes. induction es as [|e es IH]; intros r nodes Hc; [by exists r, nodes|]. cbn [insert_all].
  destruct (insert_chain new_addr Hnew r nodes e Hc) as (r1 & nodes1 & c1 & c2 & -> & Hc1 & _ & He & He1 & _). cbn [mbind option_bind].
  destruct (IH r1 nodes1 Hc1) as (r' & nodes' & -> & Hc' & Hp). exists r', nodes'. split; [done|]. split; [done|].
  rewrite Hp, He, He1. cbn [app]. rewrite <- Permutation_middle, <- Permutation_middle. done.
Qed.
Lemma insert_all_keeps es r nodes :
  chain_ok r nodes → ∃ r' nodes', insert_all es r = Some r' ∧ chain_ok r' nodes' ∧ contents nodes' ≡ₚ es ++ contents nodes ∧ keeps es nodes nodes' ∧
    ∀ bound, 0 <= bound → Forall (λ n, n_ver n <= bound) nodes → Forall (λ n, n_ver n <= bound + 4 * Z.of_nat (length es)) nodes'.
Proof.
  revert r nodes. induction es as [|e es IH]; intros r nodes Hc; cbn [insert_all].
  - exists r, nodes. split; [done|]. split; [done|]. split; [done|]. split; [|intros bound _; cbn [length]; by rewrite Z.add_0_r]. intros l n rr Hn. exists l, n, rr. split_and!; try done. intros _ m Hm. exists m. split; [done|apply le_refl].
  - destruct (insert_chain new_addr Hnew r nodes e Hc) as (r1 & nodes1 & c1 & c2 & -> & Hc1 & _ & Ho & Hn & Hg & Hk1). cbn [mbind option_bind].
    destruct (IH r1 nodes1 Hc1) as (r' & nodes' & -> & Hc' & Hp & Hk & Hv). exists r', nodes'. split; [done|]. split; [done|]. split; [|split].
    + rewrite Hp, Hn, Ho. cbn [app]. by rewrite <- !Permutation_middle.
    + intros l n rr Hnd. destruct (Hk1 l n rr Hnd) as (l1 & n1 & rr1 & Hn1 & Ha1 & Hl1 & Hr1 & Hs1 & Hnil1 & Hmin1). destruct (Hk l1 n1 rr1 Hn1) as (l' & n' & rr' & Hn' & Ha' & Hl' & Hr' & Hs' & Hnil' & Hmin').
      exists l', n', rr'. split; [done|]. split; [congruence|]. cbn [app] in *. split; [set_solver|]. split; [set_solver|]. split; [set_solver|]. split; [tauto|].
      intros Hne m Hm. destruct (Hmin1 Hne m Hm) as (m1 & Hm1 & Hle1). destruct (Hmin' ltac:(tauto) m1 Hm1) as (m' & Hm' & Hle'). exists m'. split; [done|]. by apply le_trans with m1.
    + intros bound Hb Hnb. cbn [length]. replace (bound + 4 * Z.of_nat (S (length es))) with (bound + 4 + 4 * Z.of_nat (length es)) by lia.
      apply Hv; [lia|]. by apply Hg.
Qed.
Lemma distinct_perm es es' : es ≡ₚ es' → distinct es → distinct es'.
Proof.
  unfold distinct. induction 1 as [|x l1 l2 Hp IH|x y l1|l1 l2 l3 _ IH1 _ IH2]; [done| | |auto].
  - intros Hd. inversion_clear Hd as [|? ? Hx Hl]. constructor; [by rewrite <- Hp|auto].
  - intros Hd. inversion_clear Hd as [|? ? Hy Hl]. inversion_clear Hl as [|? ? Hx Hl']. inversion_clear Hy as [|? ? Hyx Hy'].
    constructor; [|by constructor]. constructor; [|done]. intros Hxy. by apply Hyx, (proj2 (flip _ _)).
Qed.
Lemma distinct_sorted es : StronglySorted le es → distinct es → StronglySorted lt es.
Proof.
  unfold distinct. induction 1 as [|x es Hs IH Hx]; [constructor|]. intros Hd. inversion_clear Hd as [|? ? Hdx Hde].
  constructor; [auto|]. rewrite Forall_forall in Hx, Hdx |- *. intros y Hy. specialize (Hx y Hy). specialize (Hdx y Hy). unfold lt, le in *. lia.
Qed.

(** ** [Contains] *)
Definition hit k (xs : list E) : bool := existsb (λ x, compare_ k x =? 0) xs.
Lemma contains_search_spec k (xs : list E) fuel left right :
  StronglySorted le xs → 0 <= left → right <= Z.of_nat (length xs) → right - left <= Z.of_nat fuel →
  (∀ i x, xs !! i = Some x → compare_ k x = 0 → left <= Z.of_nat i < right) →
  contains_search fuel k (slots_of xs) left right = Some (hit k xs).
Proof.
  intros Hs. revert left right. induction fuel as [|fuel IH]; intros left right H0l Hr Hf Hin.
  all: cbn [contains_search]; destruct (Z.ltb_spec left right) as [Hlt|Hge].
  1: lia.
  1,3: f_equal; symmetry; apply not_true_is_false; intros (x & (i & Hi)%list_elem_of_In%list_elem_of_lookup & Hx)%existsb_exists; specialize (Hin i x Hi); lia.
  set (mid := left + (right - left) / 2). assert (left <= mid < right) as Hmid by (subst mid; Z.to_euclidean_division_equations; lia).
  rewrite slots_get by lia. cbn [mbind option_bind]. destruct (lookup_lt_is_Some_2 xs (Z.to_nat mid)) as [x Hx]; [lia|].
  rewrite Hx. cbn [mbind option_bind]. destruct (Z.eqb_spec (compare_ k x) 0) as [He|Hne].
  { f_equal. symmetry. apply existsb_exists. exists x. split; [by eapply list_elem_of_In, list_elem_of_lookup_2|lia]. }
  assert (∀ i j y z, xs !! i = Some y → xs !! j = Some z → (i < j)%nat → le y z) as Hord.
  { intros i j y z Hi Hj Hij. by eapply (sorted_lookup le). }
  destruct (Z.gtb_spec (compare_ k x) 0) as [Hgt|Hle]; apply IH; try lia; intros i y Hi Hy.
  - specialize (Hin i y Hi Hy). destruct (Z.le_gt_cases (mid + 1) (Z.of_nat i)) as [?|Hlt']; [lia|]. exfalso.
    assert (le y x) as Hyx. { destruct (decide (i = Z.to_nat mid)) as [->|]; [rewrite Hx in Hi; injection Hi as ->; apply le_refl|]. eapply Hord; [done..|lia]. }
    assert (lt x k) as Hxk by (apply (proj1 (flip _ _)); lia). apply (le_lt_trans y x k) in Hxk; [|done]. unfold lt in Hxk. destruct (flip k y). lia.
  - specialize (Hin i y Hi Hy). destruct (Z.lt_ge_cases (Z.of_nat i) mid) as [?|Hge']; [lia|]. exfalso.
    assert (le x y) as Hxy. { destruct (decide (i = Z.to_nat mid)) as [->|]; [rewrite Hx in Hi; injection Hi as ->; apply le_refl|]. eapply Hord; [done..|lia]. }
    assert (lt k y) as Hky by (apply lt_le_trans with x; [unfold lt; lia|done]). unfold lt in Hky. lia.
Qed.
Lemma hit_elem k (xs : list E) : hit k xs = true ↔ ∃ x, x ∈ xs ∧ compare_ k x = 0.
Proof. unfold hit. rewrite existsb_exists. setoid_rewrite <- list_elem_of_In. setoid_rewrite Z.eqb_eq. done. Qed.
Lemma hit_app k (xs ys : list E) : hit k (xs ++ ys) = hit k xs || hit k ys.
Proof. apply existsb_app. Qed.
Lemma blk_max p n q : (length (n_es n) <= 64)%nat → max_key (blk p n q) = Some (last (n_es n)).
Proof.
  intros Hl. unfold max_key, blk. cbn [count slots]. destruct (n_es n) as [|x es] eqn:He; [done|].
  rewrite (proj2 (Z.gtb_lt _ 0)) by (cbn [length]; lia). rewrite slots_get by (cbn [length]; lia). f_equal.
  rewrite last_lookup. f_equal. cbn [length]. lia.
Qed.
(** A scan from any block on. *)
Lemma contains_scan h p k rr fuel :
  dlseg h p rr None → Forall (λ n, Z.even (n_ver n) = true ∧ (length (n_es n) <= 64)%nat ∧ StronglySorted le (n_es n)) rr → (length rr <= fuel)%nat →
  StronglySorted le (contents rr) → contains_loop fuel h k (next_addr rr None) = Some (hit k (contents rr)).
Proof.
  revert p fuel. induction rr as [|n rr IH]; intros p fuel Hd Hok Hf Hso; [by destruct fuel|]. destruct fuel as [|fuel]; [cbn in Hf; lia|].
  destruct Hd as [Hn Hd]. apply Forall_cons in Hok as [(Hev & Hl & Hs) Hok]. cbn [next_addr contains_loop]. rewrite Hn. cbn [mbind option_bind].
  rewrite blk_odd by done. cbn [count slots blk]. rewrite contains_search_spec; [|done|lia..|].
  2: { intros i x Hi _. apply lookup_lt_Some in Hi. lia. }
  cbn [mbind option_bind]. rewrite contents_cons in Hso |- *. rewrite hit_app. destruct (hit k (n_es n)) eqn:Hh; [done|]. apply sorted_app_inv in Hso as (_ & Hso & Hlr).
  change (LeafBlock _ _ _ _ _) with (blk p n (next_addr rr None)). rewrite blk_max by done. cbn [mbind option_bind orb].
  destruct (match last (n_es n) with Some x => _ | None => false end) eqn:Hst; [|cbn [next_leaf blk]; rewrite (IH _ _ Hd Hok); (done || cbn in Hf; lia)].
  f_equal. symmetry. apply not_true_is_false. rewrite hit_elem. intros (y & Hy & Hyk). destruct (last (n_es n)) as [x|] eqn:Hx; [|done].
  apply andb_true_iff in Hst as [_ Hst]. apply last_Some_elem_of in Hx. assert (lt k y) as Hky by (apply lt_le_trans with x; [unfold lt; lia|by apply Hlr]). unfold lt in Hky. lia.
Qed.
Lemma chain_blocks full r nodes : chain full r nodes →
  Forall (λ n, Z.even (n_ver n) = true ∧ (length (n_es n) <= 64)%nat ∧ StronglySorted le (n_es n)) nodes.
Proof.
  intros Hc. apply Forall_forall. intros n Hn. pose proof (chain_len64 _ _ _ Hc) as Hl. pose proof (ch_even _ _ _ Hc) as He.
  rewrite Forall_forall in Hl, He. split; [by apply He|]. split; [by apply Hl|].
  apply list_elem_of_split in Hn as (l & rr & ->). pose proof (ch_sorted _ _ _ Hc) as Hs. rewrite contents_app, contents_cons in Hs.
  by apply sorted_app_inv in Hs as (_ & (? & _ & _)%sorted_app_inv & _).
Qed.
Lemma contains_chain r nodes k : chain_ok r nodes → Contains r k = Some (hit k (contents nodes)).
Proof.
  intros Hc. unfold Contains. destruct (find_seek_spec r nodes [] k Hc) as (l & n & rr & -> & -> & Hset). cbn [mbind option_bind].
  pose proof (ch_sorted _ _ _ Hc) as Hs. pose proof Hs as Hs2. rewrite contents_app in Hs2. apply sorted_app_inv in Hs2 as (_ & Hs2 & _).
  pose proof (ch_seg _ _ _ Hc) as [_ Hd]%dlseg_app. pose proof (chain_blocks _ _ _ Hc) as Hb. apply Forall_app in Hb as [_ Hb].
  assert (length (n :: rr) <= size (heap r))%nat as Hlen by (rewrite (ch_size _ _ _ Hc), length_app; cbn [length]; lia).
  change (Some (n_addr n)) with (next_addr (n :: rr) None). rewrite (contains_scan _ _ k (n :: rr) _ Hd Hb Hlen Hs2). f_equal. rewrite contents_app, hit_app.
  destruct (hit k (contents l)) eqn:Hl; [|done]. cbn [orb]. apply hit_elem in Hl as (x & Hx & Hxk).
  destruct Hset as [[->|(m & Hm & Hmk)] _]; [by apply elem_of_nil in Hx|]. assert (m ∈ contents (n :: rr)) as Hmn.
  { rewrite contents_cons. unfold first_of in Hm. destruct (n_es n); [done|]. injection Hm as ->. by left. }
  rewrite contents_app in Hs. apply sorted_app_inv in Hs as (_ & _ & Hs). specialize (Hs x m Hx Hmn). apply hit_elem. exists m. split; [done|].
  assert (le k x) as Hkx by (unfold le; lia). pose proof (le_trans _ _ _ Hkx Hs) as Hkm. unfold le in *. destruct (flip k m). lia.
Qed.

(** ** [Get] *)
Definition user e : bytes := take (length (ikey e) - 8) (ikey e).
(** The entries of one user key at the front of a list. *)
Fixpoint take_user (u : bytes) (xs : list E) : list E :=
  match xs with [] => [] | x :: xs => if decide (user x = u) then x :: take_user u xs else [] end.
Lemma memcmp_eq (a b : bytes) : length a = length b → memcmp (length a) a b = 0 ↔ a = b.
Proof.
  revert b. induction a as [|c a IH]; intros [|d b] Hl; try done. cbn [length memcmp]. injection Hl as Hl.
  destruct (Z.ltb_spec c d), (Z.ltb_spec d c); try (split; [done|intros [= -> ->]; lia]).
  assert (c = d) as -> by lia. rewrite (IH b Hl). split; [by intros ->|by intros [= ->]].
Qed.
Lemma slice_eqb_eq (a b : bytes) : slice_eqb a b = bool_decide (a = b).
Proof.
  unfold slice_eqb. destruct (Nat.eqb_spec (length a) (length b)) as [Hl|Hl]; cbn [andb].
  - apply eq_true_iff_eq. rewrite Z.eqb_eq, bool_decide_eq_true. by apply memcmp_eq.
  - symmetry. apply bool_decide_eq_false. by intros ->.
Qed.
Lemma collect_spec u (a b : list E) i :
  i = Z.of_nat (length a) →
  collect (length b) i (slots_of (a ++ b)) u = Some (take_user u b, negb (length (take_user u b) =? length b)%nat).
Proof.
  intros ->. revert a. induction b as [|x b IH]; intros a; [done|]. cbn [length collect].
  rewrite slots_get by (rewrite length_app; cbn [length]; lia). rewrite Nat2Z.id, list_lookup_middle by done. cbn [mbind option_bind].
  rewrite slice_data. cbn [mbind option_bind]. rewrite (proj2 (Nat.ltb_ge _ 8)) by apply ikey_long. rewrite slice_eqb_eq. fold (user x).
  cbn [take_user]. destruct (decide (user x = u)) as [Hu|Hu]; [rewrite bool_decide_true by done|by rewrite bool_decide_false by done]. cbn [negb].
  specialize (IH (a ++ [x])). rewrite <- app_assoc in IH. cbn [app] in IH.
  replace (Z.of_nat (length (a ++ [x]))) with (Z.of_nat (length a) + 1) in IH by (rewrite length_app; cbn [length]; lia). by rewrite IH.
Qed.
Lemma take_user_app u (xs ys : list E) :
  take_user u (xs ++ ys) = if (length (take_user u xs) =? length xs)%nat then xs ++ take_user u ys else take_user u xs.
Proof.
  induction xs as [|x xs IH]; [done|]. cbn [app take_user]. destruct (decide _); [|done]. rewrite IH. cbn [length Nat.eqb].
  by destruct (_ =? _)%nat.
Qed.
Lemma take_user_all u (xs : list E) : (length (take_user u xs) =? length xs)%nat = true → take_user u xs = xs.
Proof. induction xs as [|x xs IH]; [done|]. cbn [take_user]. destruct (decide _); [|done]. cbn [length Nat.eqb]. intros. by rewrite IH. Qed.
Lemma deliver_app {T} (cb : E → T → bool * T) (xs ys : list E) arg :
  deliver cb (xs ++ ys) arg = let '(all, arg') := deliver cb xs arg in if all then deliver cb ys arg' else (false, arg').
Proof.
  revert arg. induction xs as [|x xs IH]; intros arg; cbn [app deliver]; [by destruct (deliver cb ys arg)|].
  destruct (cb x arg) as [[] arg']; [apply IH|done].
Qed.

Section Get.
Context {T : Type} (u : bytes) (cb : E → T → bool * T).
(** What one block contributes: its matches [xs], then the rest [ys] unless they ended. *)
Lemma deliver_block (xs ys : list E) arg :
  Some (deliver cb (take_user u (xs ++ ys)) arg).2 =
  let '(all, a) := deliver cb (take_user u xs) arg in
  if negb all || negb (length (take_user u xs) =? length xs)%nat then Some a else Some (deliver cb (take_user u ys) a).2.
Proof.
  rewrite take_user_app. destruct (_ =? _)%nat eqn:Hl; cbn [negb].
  - rewrite (take_user_all _ _ Hl), deliver_app. by destruct (deliver cb xs arg) as [[] a].
  - destruct (deliver cb (take_user u xs) arg) as [all a]. by rewrite orb_true_r.
Qed.
Lemma after_delivered h p rr fuel prev arg :
  dlseg h p rr None → Forall (λ n, Z.even (n_ver n) = true ∧ (length (n_es n) <= 64)%nat ∧ StronglySorted le (n_es n)) rr → (length rr <= fuel)%nat →
  StronglySorted lt (contents rr) → Forall (lt prev) (contents rr) →
  GetAfterDelivered u cb fuel h (next_addr rr None) prev arg = Some (deliver cb (take_user u (contents rr)) arg).2.
Proof.
  revert p fuel prev arg. induction rr as [|n rr IH]; intros p fuel prev arg Hd Hok Hf Hs Hlt; [by destruct fuel|].
  destruct fuel as [|fuel]; [cbn in Hf; lia|]. destruct Hd as [Hn Hd]. apply Forall_cons in Hok as [(Hev & Hl & _) Hok].
  cbn [next_addr GetAfterDelivered]. rewrite Hn. cbn [mbind option_bind]. rewrite blk_odd by done. cbn [count slots next_leaf blk].
  rewrite contents_cons in *. apply Forall_app in Hlt as [Hlt1 Hlt2]. apply StronglySorted_app in Hs as (Hs0 & _ & Hs2).
  rewrite (search_spec _ [] (n_es n)); cbn [length app]; [|done| |lia..].
  2: { eapply Forall_impl; [exact Hlt1|]. intros x Hx. cbn beta. unfold lt in Hx. destruct (flip prev x). apply negb_false_iff, Z.gtb_lt. lia. }
  cbn [mbind option_bind]. replace (Z.to_nat (Z.of_nat (length (n_es n)) - Z.of_nat 0)) with (length (n_es n)) by lia.
  rewrite (collect_spec u [] (n_es n)) by done. cbn [mbind option_bind]. rewrite deliver_block.
  destruct (deliver cb (take_user u (n_es n)) arg) as [all a]. destruct (negb all || _) eqn:Hstop; [done|].
  apply orb_false_iff in Hstop as [_ Hfull]. apply negb_false_iff in Hfull. rewrite (take_user_all _ _ Hfull).
  apply (IH (Some (n_addr n))); [done|done|cbn in Hf; lia|done|]. destruct (last (n_es n)) as [z|] eqn:Hz; [|done].
  cbn [default]. apply Forall_forall. intros y Hy. apply Hs0; [by apply last_Some_elem_of|done].
Qed.
Lemma get_scan h p rr fuel k arg :
  dlseg h p rr None → Forall (λ n, Z.even (n_ver n) = true ∧ (length (n_es n) <= 64)%nat ∧ StronglySorted le (n_es n)) rr → (length rr <= fuel)%nat →
  StronglySorted lt (contents rr) →
  get_loop u cb fuel h k (next_addr rr None) arg = Some (deliver cb (take_user u (filter (λ x, 0 <= compare_ x k) (contents rr))) arg).2.
Proof.
  revert p fuel arg. induction rr as [|n rr IH]; intros p fuel arg Hd Hok Hf Hs; [by destruct fuel|].
  destruct fuel as [|fuel]; [cbn in Hf; lia|]. destruct Hd as [Hn Hd]. apply Forall_cons in Hok as [(Hev & Hl & Hle) Hok].
  cbn [next_addr get_loop]. rewrite Hn. cbn [mbind option_bind]. rewrite blk_odd by done. cbn [count slots next_leaf blk].
  destruct (sorted_split (λ x, negb (compare_ x k >=? 0)) (n_es n)) as (a & b & Hes & Ha & Hb); [|done|].
  { intros x y Hxy Hy. apply negb_true_iff in Hy. apply negb_true_iff. rewrite Z.geb_leb, Z.leb_gt in *. by apply (le_lt_trans x y k). }
  rewrite contents_cons, Hes in *. rewrite (search_spec _ a b); [|done|done|rewrite ?length_app; lia..].
  cbn [mbind option_bind]. replace (Z.to_nat (Z.of_nat (length (a ++ b)) - Z.of_nat (length a))) with (length b) by (rewrite length_app; lia).
  rewrite (collect_spec u a b) by done. cbn [mbind option_bind].
  rewrite <- !app_assoc, !filter_app. rewrite (filter_false _ a), (filter_true _ b) by (eapply Forall_impl; [done|]; intros x Hx; cbn beta in Hx; lia).
  cbn [app]. rewrite deliver_block. destruct (deliver cb (take_user u b) arg) as [all c].
  destruct (negb all || _) eqn:Hstop; [done|]. apply orb_false_iff in Hstop as [_ Hfull]. apply negb_false_iff in Hfull.
  rewrite (take_user_all _ _ Hfull). rewrite <- app_assoc in Hs. apply StronglySorted_app in Hs as (_ & _ & Hs).
  apply StronglySorted_app in Hs as (Hs0 & _ & Hs2). cbn in Hf. destruct (last b) as [z|] eqn:Hz.
  - apply last_Some_elem_of in Hz. assert (Forall (lt z) (contents rr)) as Hzr by (apply Forall_forall; auto).
    rewrite (filter_true _ (contents rr)); [apply (after_delivered _ (Some (n_addr n))); (done || lia)|].
    eapply Forall_impl; [exact Hzr|]. intros x Hx. eapply Forall_forall in Hb; [|exact Hz]. cbn beta in Hb.
    assert (le k z) as Hkz by (apply le_lt; unfold lt; lia). apply (le_lt_trans k z x) in Hx; [|done]. unfold lt in Hx. destruct (flip k x). lia.
  - apply (IH (Some (n_addr n))); (done || lia).
Qed.
End Get.
(** The entries of [k]'s user key at or after [k], in order. *)
Definition versions k (c : list E) : list E := filter (λ x, user x = user k) (filter (λ x, 0 <= compare_ x k) c).
Lemma take_user_filter k (xs : list E) :
  StronglySorted le xs → Forall (le k) xs → take_user (user k) xs = filter (λ x, user x = user k) xs.
Proof.
  induction 1 as [|x xs Hs IH Hx]; [done|]. intros [Hk Hks]%Forall_cons. cbn [take_user]. destruct (decide (user x = user k)) as [Hu|Hu].
  - rewrite filter_cons_True by done. by rewrite IH.
  - rewrite filter_cons_False by done. rewrite filter_false; [done|]. rewrite Forall_forall in Hx |- *. intros y Hy Huy. apply Hu.
    apply (user_between k x y); [done|by apply Hx|done].
Qed.
Lemma get_chain {T} r nodes k (cb : E → T → bool * T) arg :
  chain_ok r nodes → distinct (contents nodes) → Get r k cb arg = Some (deliver cb (versions k (contents nodes)) arg).2.
Proof.
  intros Hc Hd. pose proof (distinct_sorted _ (ch_sorted _ _ _ Hc) Hd) as Hlt. unfold Get. rewrite slice_data. cbn [mbind option_bind].
  destruct (find_seek_spec r nodes (ikey k) k Hc) as (l & n & rr & -> & -> & Hset). cbn [mbind option_bind]. fold (user k).
  pose proof (ch_seg _ _ _ Hc) as [_ Hseg]%dlseg_app. pose proof (chain_blocks _ _ _ Hc) as Hb. apply Forall_app in Hb as [_ Hb].
  pose proof (ch_sorted _ _ _ Hc) as Hs. rewrite contents_app in Hlt, Hs |- *. apply StronglySorted_app in Hlt as (Hx & _ & Hlt), Hs as (_ & _ & Hs).
  assert (length (n :: rr) <= size (heap r))%nat as Hlen by (rewrite (ch_size _ _ _ Hc), length_app; cbn [length]; lia).
  change (Some (n_addr n)) with (next_addr (n :: rr) None). rewrite (get_scan _ _ _ _ (n :: rr) _ k _ Hseg Hb Hlen Hlt).
  unfold versions. rewrite filter_app, (filter_false _ (contents l)); cbn [app].
  - rewrite take_user_filter; [done| |].
    + by apply strongly_filter.
    + apply Forall_forall. intros x [Hge _]%list_elem_of_filter. unfold le. destruct (flip k x), (flip x k). lia.
  - apply Forall_forall. intros x Hxl Hge. destruct Hset as [[->|(m & Hm & Hmk)] _]; [by apply elem_of_nil in Hxl|].
    assert (m ∈ contents (n :: rr)) as Hmn by (rewrite contents_cons; unfold first_of in Hm; destruct (n_es n); [done|]; injection Hm as ->; by left).
    specialize (Hx x m Hxl Hmn). apply (lt_le_trans x m k) in Hx; [|done]. unfold lt in Hx. lia.
Qed.
Lemma hit_perm k (xs ys : list E) : xs ≡ₚ ys → hit k xs = hit k ys.
Proof. intros Hp. apply eq_true_iff_eq. rewrite !hit_elem. by setoid_rewrite Hp. Qed.

(** C9: the memtable implements a sorted table.  Any entries, inserted in any
    order into a table of any leaf capacity, are held exactly once each, in key
    order along the chain of blocks, wherever the trie's prefixes lead, and
    counted; [Contains] says whether an entry compares equal to a key; and if the
    keys are distinct, [Get] passes the callback exactly the entries of the lookup
    key's user key at or after it, in order, until the callback refuses one. *)
Theorem rep_refines {T} cap es k (cb : E → T → bool * T) arg :
  0 <= cap →
  ∃ r c, insert_all es (rep_new new_addr cap) = Some r ∧ table r = Some c ∧ StronglySorted le c ∧ c ≡ₚ es ∧
    Count r = u64 (Z.of_nat (length es)) ∧ Contains r k = Some (hit k es) ∧
    (distinct es → Get r k cb arg = Some (deliver cb (versions k c) arg).2).
Proof.
  intros Hcap. destruct (insert_all_chain es _ _ (new_chain cap Hcap)) as (r & nodes & Hr & Hc & Hp). cbn [contents] in Hp.
  change (contents [Node (new_addr ∅) 0 []]) with (@nil E) in Hp. rewrite app_nil_r in Hp.
  exists r, (contents nodes). split; [done|]. split; [by eapply table_chain|]. split; [apply (ch_sorted _ _ _ Hc)|]. split; [done|].
  split; [unfold Count; by rewrite (ch_keys _ _ _ Hc), Hp|]. split; [by rewrite (contains_chain _ _ _ Hc), (hit_perm _ _ _ Hp)|].
  intros Hd. apply get_chain; [done|]. by apply (distinct_perm es).
Qed.
End Lookup.
Lemma rep_refines_witness :
  let es := [Entry [98] 4 1 (Some [7]) eq_refl; Entry [97] 2 1 (Some [5]) eq_refl; Entry [98] 9 1 (Some [8]) eq_refl; Entry [98] 6 0 (Some []) eq_refl] in
  let k := Entry [98] 7 1 None eq_refl in
  ∃ r c, insert_all (M := gmap Z Z) top_addr es (rep_new top_addr 2) = Some r ∧ table r = Some c ∧ c ≡ₚ es ∧ Contains r k = Some false ∧
    Get r k (λ e l, (true, l ++ [e_seq e])) [] = Some (deliver (λ e l, (true, l ++ [e_seq e])) (versions k c) []).2.
Proof.
  intros es k. destruct (rep_refines (M := gmap Z Z) top_addr top_addr_fresh 2 es k (λ e l, (true, l ++ [e_seq e])) []) as (r & c & Hr & Ht & _ & Hp & _ & Hk & Hg); [lia|].
  exists r, c. split; [exact Hr|]. split; [exact Ht|]. split; [exact Hp|]. split; [exact Hk|]. apply Hg. unfold distinct, es. repeat constructor; vm_compute; discriminate.
Defined.
(** The table of the witness, run: four blocks, and the two versions of user key
    [98] at or below sequence number 7. *)
Example rep_runs :
  let es := [Entry [98] 4 1 (Some [7]) eq_refl; Entry [97] 2 1 (Some [5]) eq_refl; Entry [98] 9 1 (Some [8]) eq_refl; Entry [98] 6 0 (Some []) eq_refl] in
  (r ← insert_all (M := gmap Z Z) top_addr es (rep_new top_addr 2);
   l ← Get r (Entry [98] 7 1 None eq_refl) (λ e l, (true, l ++ [e_seq e])) []; Some (size (heap r), l)) = Some (4%nat, [6; 4]).
Proof. vm_compute. reflexivity. Qed.
