(* ===== verification/RocksCursor.v ===== *)
(** * The memtable's cursor under insertions

    Theorems on [RocksIter]: where each operation of the cursor leaves it, that
    it keeps its entry when insertions shift and split the blocks under it, that a
    scan interleaved with insertions reports every entry it started from, in
    order, and where a seek by an internal key alone goes wrong. *)
From stdpp Require Import base numbers list sorting gmap.
From S2P Require Import Prelude SortedAssoc ExpanseApi Sync32 EngineViews RocksKeys RocksTable RocksIter RocksChain RocksEntries RocksLookup.
Open Scope Z_scope.

Section Cursor.
Context {E : Type} `{KeyComparatorLaws E} {M : Type} `{ExpanseMapPrevLaws M}.
Implicit Types (r : rep (E := E) (M := M)) (h : gmap Z (leaf_block (E := E))) (n : node E) (l nodes rr : list (node E)) (x y e k : E) (it : iter (E := E)).

(** On [e], between the entries [c1] and [c2] of the table. *)
Definition placed nodes it e (c1 c2 : list E) : Prop :=
  ∃ l n rr a b, nodes = l ++ n :: rr ∧ n_es n = a ++ e :: b ∧ c1 = contents l ++ a ∧ c2 = b ++ contents rr ∧
    current_leaf_ it = Some (n_addr n) ∧ current_slot_ it = Z.of_nat (length a) ∧ valid_ it = true ∧ anchor_version_ it = u32 (n_ver n) ∧ anchor_entry_ it = Some e.
Definition cleared it : Prop := valid_ it = false ∧ current_leaf_ it = None.
(** What the blocks' facts are for a walk. *)
Abbreviation blocks_ok := (Forall (λ n : node E, Z.even (n_ver n) = true ∧ (length (n_es n) <= 64)%nat ∧ StronglySorted le (n_es n))).

Lemma placed_contents nodes it e c1 c2 : placed nodes it e c1 c2 → contents nodes = c1 ++ e :: c2.
Proof. intros (l & n & rr & a & b & -> & He & -> & -> & _). rewrite contents_app, contents_cons, He, <- !app_assoc. done. Qed.
Lemma placed_set nodes l n rr a e b it :
  nodes = l ++ n :: rr → n_es n = a ++ e :: b →
  placed nodes (SetPosition (n_addr n) (Z.of_nat (length a)) (u32 (n_ver n)) e it) e (contents l ++ a) (b ++ contents rr).
Proof. intros. exists l, n, rr, a, b. done. Qed.

(** ** The first and the last entry *)
Lemma edge_fwd h p l rr fuel it :
  dlseg h p rr None → blocks_ok rr → (length rr <= fuel)%nat →
  ∃ ok it', PositionAtEdge fuel h (next_addr rr None) true it = Some (ok, it') ∧
    match contents rr with
    | [] => ok = false ∧ cleared it'
    | e :: c2 => ok = true ∧ placed (l ++ rr) it' e (contents l) c2
    end.
Proof.
  revert p l fuel. induction rr as [|n rr IH]; intros p l fuel Hd Hok Hf; [exists false, (ClearPosition it); by destruct fuel|].
  destruct fuel as [|fuel]; [cbn in Hf; lia|]. destruct Hd as [Hn Hd]. apply Forall_cons in Hok as [(Hev & Hl & _) Hok].
  cbn [next_addr PositionAtEdge]. rewrite Hn. cbn [mbind option_bind]. rewrite blk_odd by done. cbn [count slots next_leaf version blk]. rewrite contents_cons.
  destruct (n_es n) as [|e b] eqn:Hes.
  - cbn [length]. destruct (IH (Some (n_addr n)) (l ++ [n]) fuel Hd Hok) as (ok & it' & Hp & Hm); [cbn in Hf; lia|]. exists ok, it'. split; [exact Hp|].
    rewrite <- app_assoc, contents_app, contents_cons, Hes in Hm. cbn [app] in Hm |- *. by rewrite app_nil_r in Hm.
  - rewrite (proj2 (Z.gtb_lt _ 0)) by (cbn [length]; lia). rewrite slots_get by (cbn [length]; lia). cbn [mbind option_bind lookup list_lookup Z.to_nat].
    eexists _, _. split; [done|]. split; [done|]. rewrite <- (app_nil_r (contents l)). by apply (placed_set _ l n rr []).
Qed.
Lemma edge_back h p l rr fuel it :
  dlseg h None l p → blocks_ok l → (length l <= fuel)%nat →
  ∃ ok it', PositionAtEdge fuel h (last_addr l None) false it = Some (ok, it') ∧
    match last (contents l) with
    | None => ok = false ∧ cleared it'
    | Some e => ok = true ∧ ∃ c1, contents l = c1 ++ [e] ∧ placed (l ++ rr) it' e c1 (contents rr)
    end.
Proof.
  revert p rr fuel. induction l as [|n l IH] using rev_ind; intros p rr fuel Hd Hok Hf; [exists false, (ClearPosition it); by destruct fuel|].
  rewrite length_app in Hf. destruct fuel as [|fuel]; [cbn in Hf; lia|]. apply dlseg_app in Hd as [Hd [Hn _]].
  apply Forall_app in Hok as [Hok [(Hev & Hl & _) _]%Forall_cons]. unfold last_addr at 1. rewrite last_snoc.
  cbn [PositionAtEdge]. rewrite Hn. cbn [mbind option_bind]. rewrite blk_odd by done. cbn [count slots prev_leaf version blk].
  rewrite contents_app, contents_cons. cbn [contents mjoin list_join fmap list_fmap]. rewrite app_nil_r. destruct (n_es n) as [|x xs] eqn:Hes.
  - cbn [length]. destruct (IH (Some (n_addr n)) (n :: rr) fuel) as (ok & it' & Hp & Hm); [done|done|cbn in Hf; lia|]. exists ok, it'. split; [exact Hp|].
    rewrite app_nil_r. rewrite contents_cons, Hes in Hm. cbn [app] in Hm. by rewrite <- app_assoc.
  - destruct (exists_last (l := x :: xs)) as (b & e & Hb); [done|]. rewrite <- Hes, Hb in *. rewrite app_assoc, last_snoc.
    rewrite (proj2 (Z.gtb_lt _ 0)) by (rewrite length_app; cbn [length]; lia). rewrite slots_get by (rewrite length_app; cbn [length]; lia).
    replace (Z.of_nat (length (b ++ [e])) - 1) with (Z.of_nat (length b)) by (rewrite length_app; cbn [length]; lia).
    rewrite Nat2Z.id, list_lookup_middle by done. cbn [mbind option_bind]. eexists _, _. split; [done|]. split; [done|]. exists (contents l ++ b).
    split; [done|]. rewrite <- app_assoc. by apply (placed_set _ l n rr b e []).
Qed.

(** ** Seeking a memtable key *)
Lemma seek_scan h p l rr fuel ik k it :
  dlseg h p rr None → blocks_ok rr → (length rr <= fuel)%nat →
  ∃ it', seek_loop fuel h ik (Some k) (next_addr rr None) it = Some it' ∧
    (cleared it' ∧ Forall (λ x, lt x k) (contents rr) ∨
     ∃ e c1 c2, placed (l ++ rr) it' e (contents l ++ c1) c2 ∧ Forall (λ x, lt x k) c1 ∧ le k e).
Proof.
  revert p l fuel. induction rr as [|n rr IH]; intros p l fuel Hd Hok Hf; [exists (ClearPosition it); destruct fuel; (split; [done|]); by left|].
  destruct fuel as [|fuel]; [cbn in Hf; lia|]. destruct Hd as [Hn Hd]. apply Forall_cons in Hok as [(Hev & Hl & Hs) Hok].
  cbn [next_addr seek_loop]. rewrite Hn. cbn [mbind option_bind]. rewrite blk_odd by done. cbn [count slots next_leaf version blk].
  destruct (sorted_split (λ x, negb (compare_ x k >=? 0)) (n_es n)) as (a & b & Hes & Ha & Hb); [|done|].
  { intros x y Hxy Hy. apply negb_true_iff in Hy. apply negb_true_iff. rewrite Z.geb_leb, Z.leb_gt in *. by apply (le_lt_trans x y k). }
  assert (Forall (λ x, lt x k) a) as Ha' by (eapply Forall_impl; [exact Ha|]; intros x Hx; cbn beta in Hx; unfold lt; lia).
  rewrite contents_cons, Hes in *. rewrite (search_spec _ a b); [|done|done|rewrite ?length_app; lia..]. cbn [mbind option_bind].
  destruct b as [|e b].
  - rewrite app_nil_r, Z.ltb_irrefl. destruct (IH (Some (n_addr n)) (l ++ [n]) fuel Hd Hok) as (it' & Hp & Hm); [cbn in Hf; lia|]. exists it'.
    split; [exact Hp|]. destruct Hm as [[Hc Hx]|(e & c1 & c2 & Hpl & Hc1 & He)]; [left; split; [done|by apply Forall_app]|]. right.
    exists e, (a ++ c1), c2. rewrite <- app_assoc, contents_app, contents_cons, Hes in Hpl. cbn [app contents mjoin list_join fmap list_fmap] in Hpl.
    rewrite !app_nil_r, <- app_assoc in Hpl. split; [done|]. split; [by apply Forall_app|done].
  - rewrite (proj2 (Z.ltb_lt _ _)) by (rewrite length_app; cbn [length]; lia). rewrite slots_get by (rewrite length_app; cbn [length]; lia).
    rewrite Nat2Z.id, list_lookup_middle by done. cbn [mbind option_bind]. eexists. split; [done|]. right. exists e, a, (b ++ contents rr).
    split; [by apply placed_set|]. split; [done|]. apply Forall_cons in Hb as [He _]. apply le_lt. unfold lt. lia.
Qed.
Lemma seek_spec r nodes ik k it :
  chain_ok r nodes → StronglySorted lt (contents nodes) →
  ∃ it', Seek r ik (Some k) it = Some it' ∧
    (cleared it' ∧ Forall (λ x, lt x k) (contents nodes) ∨ ∃ e c1 c2, placed nodes it' e c1 c2 ∧ Forall (λ x, lt x k) c1 ∧ le k e).
Proof.
  intros Hc Hlt. unfold Seek. destruct (find_seek_spec r nodes ik k Hc) as (l & n & rr & -> & -> & Hset). cbn [mbind option_bind].
  pose proof (ch_seg _ _ _ Hc) as [_ Hd]%dlseg_app. pose proof (chain_blocks _ _ _ Hc) as Hb. apply Forall_app in Hb as [_ Hb].
  assert (length (n :: rr) <= size (heap r))%nat as Hlen by (rewrite (ch_size _ _ _ Hc), length_app; cbn [length]; lia).
  assert (Forall (λ x, lt x k) (contents l)) as Hl.
  { rewrite contents_app in Hlt. apply StronglySorted_app in Hlt as (Hx & _ & _). apply Forall_forall. intros x Hxl.
    destruct Hset as [[->|(m & Hm & Hmk)] _]; [by apply elem_of_nil in Hxl|]. apply lt_le_trans with m; [|done]. apply Hx; [done|].
    rewrite contents_cons. unfold first_of in Hm. destruct (n_es n); [done|]. injection Hm as ->. by left. }
  change (Some (n_addr n)) with (next_addr (n :: rr) None). destruct (seek_scan _ _ l (n :: rr) _ ik k (InvalidateCache it) Hd Hb Hlen) as (it' & -> & Hm). exists it'. split; [done|].
  destruct Hm as [[Hcl Hx]|(e & c1 & c2 & Hpl & Hc1 & He)]; [left; split; [done|]; rewrite contents_app; by apply Forall_app|].
  right. exists e, (contents l ++ c1), c2. split; [done|]. split; [by apply Forall_app|done].
Qed.
(** A strictly sorted table has one place for an entry. *)
Lemma place_unique (c1 c2 d1 d2 : list E) e : StronglySorted lt (c1 ++ e :: c2) → c1 ++ e :: c2 = d1 ++ e :: d2 → c1 = d1 ∧ c2 = d2.
Proof.
  assert (¬ lt e e) as Hirr by (unfold lt; destruct (flip e e); lia).
  revert d1. induction c1 as [|x c1 IH]; intros [|y d1] Hs Heq; cbn [app] in *.
  - by injection Heq as ->.
  - injection Heq as -> ->. apply StronglySorted_inv in Hs as [_ Hs]. rewrite Forall_app, Forall_cons in Hs. tauto.
  - injection Heq as -> <-. apply StronglySorted_inv in Hs as [_ Hs]. rewrite Forall_app, Forall_cons in Hs. tauto.
  - injection Heq as -> Heq. apply StronglySorted_inv in Hs as [Hs _]. by destruct (IH d1 Hs Heq) as [-> ->].
Qed.

(** ** Keeping the entry *)
(** The versions have not wrapped. *)
Abbreviation small := (Forall (λ n : node E, n_ver n < 2 ^ 32)).
(** Anchored on [e]: placed on it once, the block may have changed since. *)
Definition anchored nodes it e : Prop :=
  e ∈ contents nodes ∧ valid_ it = true ∧ 0 <= current_slot_ it ∧ anchor_entry_ it = Some e ∧
  ∃ n v, n ∈ nodes ∧ current_leaf_ it = Some (n_addr n) ∧ anchor_version_ it = u32 v ∧ 0 <= v <= n_ver n ∧
    (v = n_ver n → n_es n !! Z.to_nat (current_slot_ it) = Some e).
Lemma placed_anchored nodes it e c1 c2 : Forall (λ n, 0 <= n_ver n) nodes → placed nodes it e c1 c2 → anchored nodes it e.
Proof.
  intros Hv Hp. pose proof (placed_contents _ _ _ _ _ Hp) as Hc. destruct Hp as (l & n & rr & a & b & -> & He & _ & _ & Hl & Hs & Hval & Hver & Han).
  split; [rewrite Hc; apply elem_of_app; right; by left|]. split; [done|]. split; [lia|]. split; [done|]. exists n, (n_ver n).
  apply Forall_app in Hv as [_ [Hv _]%Forall_cons]. split; [apply elem_of_app; right; by left|]. split; [done|]. split; [done|]. split; [lia|].
  intros _. by rewrite Hs, Nat2Z.id, He, list_lookup_middle.
Qed.
(** An insertion leaves the anchor. *)
Lemma anchored_grows nodes nodes' it e :
  anchored nodes it e → grows nodes nodes' → (∀ x, x ∈ contents nodes → x ∈ contents nodes') → anchored nodes' it e.
Proof.
  intros (Hin & Hval & Hs & Han & n & v & Hn & Hl & Hver & Hv & Hslot) [Hg _] Hsub. split; [auto|]. split; [done|]. split; [done|]. split; [done|].
  destruct (Hg n Hn) as (n' & Hn' & Ha & [->|Hlt]); [by exists n, v|]. exists n', v. rewrite Ha. split; [done|]. split; [done|]. split; [done|].
  split; [lia|]. intros ->. lia.
Qed.
Lemma varint_data e : GetVarint32Ptr (take 5 (data e)) ≠ None.
Proof. intros Hn. pose proof (decode_data e) as Hd. unfold decode, varint_at in Hd. by rewrite Hn in Hd. Qed.
Lemma revalidate_spec r nodes it e c1 c2 :
  chain_ok r nodes → small nodes → contents nodes = c1 ++ e :: c2 → StronglySorted lt (contents nodes) → anchored nodes it e →
  ∃ it', RevalidatePosition r it = Some (true, it') ∧ placed nodes it' e c1 c2.
Proof.
  intros Hc Hsm Hcont Hlt (Hin & Hval & Hs & Han & n & v & Hn & Hl & Hver & Hv & Hslot). unfold RevalidatePosition. rewrite Hl, Hval. cbn [negb orb].
  rewrite (proj2 (Z.ltb_ge _ 0)) by done. apply list_elem_of_split in Hn as (l & rr & Hnodes). pose proof (ch_seg _ _ _ Hc) as Hseg. rewrite Hnodes in Hseg.
  rewrite (dlseg_lookup _ _ _ _ _ _ Hseg). cbn [mbind option_bind]. pose proof (ch_even _ _ _ Hc) as Hev. rewrite Hnodes in Hev, Hsm.
  apply Forall_app in Hev as [_ [[Hev _] _]%Forall_cons], Hsm as [_ [Hsm _]%Forall_cons]. rewrite blk_odd by done. cbn [version blk].
  rewrite andb_true_r, Hver, !u32_small by (unfold is_u32; lia). destruct (Z.eqb_spec (n_ver n) v) as [Heq|Hne].
  - specialize (Hslot (eq_sym Heq)). apply list_elem_of_split_length in Hslot as (a & b & Hes & Hla). exists it. split; [done|].
    assert (contents nodes = (contents l ++ a) ++ e :: b ++ contents rr) as Hcont2 by (by rewrite Hnodes, contents_app, contents_cons, Hes, <- !app_assoc).
    rewrite Hcont in Hlt, Hcont2. destruct (place_unique _ _ _ _ _ Hlt Hcont2) as [-> ->]. exists l, n, rr, a, b. split_and!; try done; [lia|].
    rewrite Hver. f_equal. lia.
  - rewrite Han. destruct (GetVarint32Ptr (take 5 (data e))) eqn:Hvar; [|by apply varint_data in Hvar]. rewrite slice_data. cbn [mbind option_bind].
    destruct (seek_spec r nodes (ikey e) e it Hc Hlt) as (it' & -> & Hcase). cbn [mbind option_bind]. assert (¬ lt e e) as Hirr by (unfold lt; destruct (flip e e); lia).
    destruct Hcase as [[_ Hall]|(e' & d1 & d2 & Hp & Hd1 & Hle)]; [by eapply Forall_forall in Hall|].
    pose proof (placed_contents _ _ _ _ _ Hp) as Hcont2. assert (e' = e ∧ d1 = c1 ∧ d2 = c2) as (-> & -> & ->).
    { assert (e ∈ d1 ++ e' :: d2) as Hin2 by (by rewrite <- Hcont2). apply elem_of_app in Hin2 as [Hin2|[->|Hin2]%elem_of_cons].
      - by eapply Forall_forall in Hd1.
      - rewrite Hcont in Hlt, Hcont2. by destruct (place_unique _ _ _ _ _ Hlt Hcont2) as [-> ->].
      - rewrite Hcont2 in Hlt. apply StronglySorted_app in Hlt as (_ & _ & [_ Hlt]%StronglySorted_inv). eapply Forall_forall in Hlt; [|exact Hin2].
        by apply (proj1 (le_lt _ _)) in Hle. }
    exists it'. split; [|done]. destruct Hp as (?&?&?&?&?&_&_&_&_&_&_&->&_). done.
Qed.

(** ** Moving *)
Section Moves.
Context r nodes (Hc : chain_ok r nodes) (Hsm : small nodes) (Hlt : StronglySorted lt (contents nodes)).
Lemma chain_fuel l n rr : nodes = l ++ n :: rr → (length l <= size (heap r))%nat ∧ (length rr <= size (heap r))%nat.
Proof. intros ->. rewrite (ch_size _ _ _ Hc), length_app. cbn [length]. lia. Qed.
Lemma next_spec it e c1 c2 :
  contents nodes = c1 ++ e :: c2 → anchored nodes it e →
  ∃ it', Next 1 r it = Some it' ∧ match c2 with [] => cleared it' | e' :: c2' => placed nodes it' e' (c1 ++ [e]) c2' end.
Proof.
  intros Hcont Han. destruct (revalidate_spec r nodes it e c1 c2 Hc Hsm Hcont Hlt Han) as (it0 & Hrev & Hp). cbn [Next]. rewrite Hrev. cbn [mbind option_bind negb].
  destruct Hp as (l & n & rr & a & b & Hn & Hes & -> & -> & Hl & Hs & Hval & Hver & Hanc). destruct (chain_fuel l n rr Hn) as [_ Hfr].
  pose proof (ch_seg _ _ _ Hc) as Hseg. rewrite Hn in Hseg. pose proof (chain_blocks _ _ _ Hc) as Hb. rewrite Hn in Hb. apply Forall_app in Hb as [_ [_ Hb]%Forall_cons].
  cbn [current_leaf_ InvalidateCache]. rewrite Hl. cbn [mbind option_bind]. rewrite (dlseg_lookup _ _ _ _ _ _ Hseg).
  cbn [mbind option_bind current_slot_ anchor_version_ count slots version next_leaf blk InvalidateCache]. rewrite Hs, Hver, Hes, Z.eqb_refl. cbn [negb orb].
  apply dlseg_app in Hseg as [_ [_ Hseg]]. destruct b as [|e' b].
  - rewrite (proj2 (Z.ltb_ge _ _)) by (rewrite length_app; cbn [length]; lia). cbn [mbind option_bind andb].
    destruct (edge_fwd _ _ (l ++ [n]) rr _ (InvalidateCache it0) Hseg Hb Hfr) as (ok & it' & -> & Hm). exists it'. split; [done|]. cbn [app].
    rewrite <- app_assoc, contents_app, contents_cons, Hes in Hm. cbn [app contents mjoin list_join fmap list_fmap] in Hm. rewrite app_nil_r in Hm.
    rewrite <- Hn in Hm. rewrite <- app_assoc. by destruct (contents rr), Hm.
  - rewrite (proj2 (Z.ltb_lt _ _)) by (rewrite length_app; cbn [length]; lia). rewrite slots_get by (rewrite length_app; cbn [length]; lia).
    assert ((a ++ e :: e' :: b) !! Z.to_nat (Z.of_nat (length a) + 1) = Some e') as ->.
    { rewrite (cons_middle e), app_assoc. replace (Z.to_nat _) with (length (a ++ [e])) by (rewrite length_app; cbn [length]; lia). by apply list_lookup_middle. }
    cbn [mbind option_bind andb negb orb]. eexists. split; [done|]. cbn [app].
    replace (Z.of_nat (length a) + 1) with (Z.of_nat (length (a ++ [e]))) by (rewrite length_app; cbn [length]; lia). rewrite <- app_assoc.
    apply placed_set; [done|]. by rewrite Hes, <- app_assoc.
Qed.
Lemma prev_spec it e c1 c2 :
  contents nodes = c1 ++ e :: c2 → anchored nodes it e →
  ∃ it', Prev 1 r it = Some it' ∧ match last c1 with None => cleared it' | Some e' => ∃ c1', c1 = c1' ++ [e'] ∧ placed nodes it' e' c1' (e :: c2) end.
Proof.
  intros Hcont Han. destruct (revalidate_spec r nodes it e c1 c2 Hc Hsm Hcont Hlt Han) as (it0 & Hrev & Hp). cbn [Prev]. rewrite Hrev. cbn [mbind option_bind negb].
  destruct Hp as (l & n & rr & a & b & Hn & Hes & -> & -> & Hl & Hs & Hval & Hver & Hanc). destruct (chain_fuel l n rr Hn) as [Hfl _].
  pose proof (ch_seg _ _ _ Hc) as Hseg. rewrite Hn in Hseg. pose proof (chain_blocks _ _ _ Hc) as Hb. rewrite Hn in Hb. apply Forall_app in Hb as [Hb _].
  cbn [current_leaf_ InvalidateCache]. rewrite Hl. cbn [mbind option_bind]. rewrite (dlseg_lookup _ _ _ _ _ _ Hseg).
  cbn [mbind option_bind current_slot_ anchor_version_ count slots version prev_leaf blk InvalidateCache]. rewrite Hs, Hver, Hes, Z.eqb_refl. cbn [negb orb].
  apply dlseg_app in Hseg as [Hseg _]. destruct a as [|e' a _] using rev_ind.
  - cbn [length]. rewrite app_nil_r. cbn [mbind option_bind andb].
    destruct (edge_back _ _ l (n :: rr) _ (InvalidateCache it0) Hseg Hb Hfl) as (ok & it' & -> & Hm). exists it'. split; [done|].
    rewrite contents_cons, Hes, <- Hn in Hm. cbn [app] in Hm. destruct (last (contents l)); [by destruct Hm|by destruct Hm].
  - rewrite app_assoc, last_snoc. rewrite length_app. cbn [length].
    assert ((Z.of_nat (length a + 1) - 1 >=? 0) = true) as -> by (rewrite Z.geb_leb; apply Z.leb_le; lia). replace (Z.of_nat (length a + 1) - 1) with (Z.of_nat (length a)) by lia.
    rewrite slots_get by (rewrite !length_app; cbn [length]; lia). rewrite Nat2Z.id, <- app_assoc. cbn [app]. rewrite list_lookup_middle by done.
    cbn [mbind option_bind andb negb orb]. eexists. split; [done|]. exists (contents l ++ a). split; [done|]. apply (placed_set _ l n rr a e' (e :: b)); [done|].
    by rewrite Hes, <- app_assoc.
Qed.
Lemma to_first_spec it :
  ∃ it', SeekToFirst r it = Some it' ∧ match contents nodes with [] => cleared it' | e :: c2 => placed nodes it' e [] c2 end.
Proof.
  clear Hsm Hlt. unfold SeekToFirst. pose proof (ch_head _ _ _ Hc) as Hh. destruct nodes as [|n l] eqn:Hn; [done|]. cbn in Hh. injection Hh as ->. rewrite <- Hn in *.
  change (Some (n_addr n)) with (next_addr (n :: l) None). rewrite <- Hn.
  destruct (edge_fwd _ _ [] nodes (size (heap r)) (InvalidateCache it) (ch_seg _ _ _ Hc) (chain_blocks _ _ _ Hc)) as (ok & it' & -> & Hm); [by rewrite (ch_size _ _ _ Hc)|].
  exists it'. split; [done|]. cbn [app] in Hm. by destruct (contents nodes), Hm.
Qed.
Lemma to_last_spec it :
  ∃ it', SeekToLast r it = Some it' ∧ match last (contents nodes) with None => cleared it' | Some e => ∃ c1, contents nodes = c1 ++ [e] ∧ placed nodes it' e c1 [] end.
Proof.
  clear Hsm Hlt. unfold SeekToLast. assert (Some (tail_ r) = last_addr nodes None) as -> by (unfold last_addr; rewrite (ch_tail _ _ _ Hc); by destruct (last nodes)).
  destruct (edge_back _ None nodes [] (size (heap r)) (InvalidateCache it) (ch_seg _ _ _ Hc) (chain_blocks _ _ _ Hc)) as (ok & it' & -> & Hm); [by rewrite (ch_size _ _ _ Hc)|].
  exists it'. split; [done|]. rewrite app_nil_r in Hm. destruct (last (contents nodes)); [by destruct Hm|by destruct Hm].
Qed.
Lemma even_nonneg : Forall (λ n, 0 <= n_ver n) nodes.
Proof. eapply Forall_impl; [apply (ch_even _ _ _ Hc)|]. by intros n []. Qed.
Lemma cleared_key it : cleared it → key r it = Some (None, it) ∧ Valid r it = Some (false, it).
Proof. intros [Hv Hl]. unfold key, Valid, RevalidatePosition. by rewrite Hl. Qed.
Lemma anchored_key it e c1 c2 :
  contents nodes = c1 ++ e :: c2 → anchored nodes it e → ∃ it', key r it = Some (Some e, it') ∧ Valid r it = Some (true, it') ∧ placed nodes it' e c1 c2.
Proof.
  intros Hcont Han. destruct (revalidate_spec r nodes it e c1 c2 Hc Hsm Hcont Hlt Han) as (it' & Hr & Hp). exists it'. unfold key, Valid. rewrite Hr. cbn [mbind option_bind].
  assert (anchor_entry_ it' = Some e) as -> by (destruct Hp as (?&?&?&?&?&_&_&_&_&_&_&_&_&->); done). done.
Qed.
Lemma seek_for_prev_spec ik k it :
  ∃ it', SeekForPrev 1 r ik (Some k) it = Some it' ∧
    (cleared it' ∧ Forall (lt k) (contents nodes) ∨ ∃ e c1 c2, placed nodes it' e c1 c2 ∧ le e k ∧ Forall (lt k) c2).
Proof.
  unfold SeekForPrev. destruct (seek_spec r nodes ik k it Hc Hlt) as (it1 & -> & Hcase). cbn [mbind option_bind].
  destruct Hcase as [[Hcl Hall]|(e & c1 & c2 & Hp & Hc1 & Hle)].
  - rewrite (proj2 (cleared_key _ Hcl)). cbn [mbind option_bind]. destruct (to_last_spec it1) as (it2 & -> & Hm). exists it2. split; [done|].
    destruct (last (contents nodes)) as [e|] eqn:Hl; [|left; split; [done|]; apply last_None in Hl; by rewrite Hl]. right.
    destruct Hm as (c1 & Hcont & Hp). exists e, c1, []. split; [done|]. split; [|done]. apply lt_le. apply last_Some_elem_of in Hl. by eapply Forall_forall in Hall.
  - pose proof (placed_contents _ _ _ _ _ Hp) as Hcont. pose proof (placed_anchored _ _ _ _ _ even_nonneg Hp) as Han.
    destruct (anchored_key it1 e _ _ Hcont Han) as (it2 & _ & -> & Hp2). cbn [mbind option_bind]. pose proof (placed_anchored _ _ _ _ _ even_nonneg Hp2) as Han2.
    destruct (anchored_key it2 e _ _ Hcont Han2) as (it3 & -> & _ & Hp3). cbn [mbind option_bind]. pose proof (placed_anchored _ _ _ _ _ even_nonneg Hp3) as Han3.
    assert (Forall (lt k) c2) as Hgt.
    { pose proof Hlt as Hlt'. rewrite Hcont in Hlt'. apply StronglySorted_app in Hlt' as (_ & _ & [_ Hgt]%StronglySorted_inv).
      eapply Forall_impl; [exact Hgt|]. intros x Hx. by apply le_lt_trans with e. }
    destruct (Z.eqb_spec (compare_ e k) 0) as [Heq|Hne]; cbn [negb].
    + exists it3. split; [done|]. right. exists e, c1, c2. split; [done|]. split; [unfold le; lia|done].
    + assert (lt k e) as Hke by (unfold lt, le in *; destruct (flip k e); lia). destruct (prev_spec it3 e c1 c2 Hcont Han3) as (it4 & -> & Hm). exists it4. split; [done|].
      destruct (last c1) as [e'|] eqn:Hl.
      * right. destruct Hm as (c1' & -> & Hp4). exists e', c1', (e :: c2). apply Forall_app in Hc1 as [_ [Hc1 _]%Forall_cons]. split; [done|]. split; [by apply lt_le|by constructor].
      * left. apply last_None in Hl as ->. rewrite Hcont. split; [done|by constructor].
Qed.
End Moves.

(** ** The table and cursor a client sees *)
Inductive cop := CInsert (e : E) | CSeek (k : E) | CSeekForPrev (k : E) | CFirst | CLast | CNext | CPrev.
Definition ins e (c : list E) : list E := filter (λ x, compare_ x e < 0) c ++ e :: filter (λ x, 0 <= compare_ x e) c.
(** One operation on the sorted table [c] and the entry the cursor is on. *)
Definition abs_step (op : cop) (c : list E) (pos : option E) : list E * option E :=
  match op with
  | CInsert e => (ins e c, pos)
  | CSeek k => (c, head (filter (λ x, 0 <= compare_ x k) c))
  | CSeekForPrev k => (c, last (filter (λ x, compare_ x k <= 0) c))
  | CFirst => (c, head c)
  | CLast => (c, last c)
  | CNext => (c, e ← pos; head (filter (λ x, compare_ e x < 0) c))
  | CPrev => (c, e ← pos; last (filter (λ x, compare_ x e < 0) c))
  end.
(** Where the cursor is after each operation. *)
Fixpoint abs_run (ops : list cop) (c : list E) (pos : option E) : list (option E) :=
  match ops with [] => [] | op :: ops => let '(c, pos) := abs_step op c pos in pos :: abs_run ops c pos end.
Definition inserted (ops : list cop) : list E := omap (λ op, if op is CInsert e then Some e else None) ops.

Lemma seek_head k (c1 c2 : list E) e : Forall (λ x, lt x k) c1 → le k e → head (filter (λ x, 0 <= compare_ x k) (c1 ++ e :: c2)) = Some e.
Proof.
  intros Hc1 He. rewrite filter_app, (filter_false _ c1), filter_cons_True; [done| |].
  - unfold le in He. destruct (flip k e), (flip e k). lia.
  - eapply Forall_impl; [exact Hc1|]. intros x Hx. unfold lt in Hx. lia.
Qed.
Lemma back_last k (c1 c2 : list E) e : le e k → Forall (lt k) c2 → last (filter (λ x, compare_ x k <= 0) (c1 ++ e :: c2)) = Some e.
Proof.
  intros He Hc2. rewrite (cons_middle e), app_assoc, filter_app, (filter_false _ c2), app_nil_r, filter_app, filter_cons_True, filter_nil; [apply last_snoc|exact He|].
  eapply Forall_impl; [exact Hc2|]. intros x Hx. unfold lt in Hx. destruct (flip k x). lia.
Qed.
Lemma next_head (c1 c2 : list E) e : StronglySorted lt (c1 ++ e :: c2) → head (filter (λ x, compare_ e x < 0) (c1 ++ e :: c2)) = head c2.
Proof.
  intros (Ha & _ & [_ Hc2]%StronglySorted_inv)%StronglySorted_app. rewrite filter_app, (filter_false _ c1), filter_cons_False, filter_true; [done|done| |].
  - destruct (flip e e). lia.
  - apply Forall_forall. intros x Hx. assert (lt x e) as Hl by (apply Ha; [done|by left]). unfold lt in Hl. destruct (flip x e). lia.
Qed.
Lemma prev_last (c1 c2 : list E) e : StronglySorted lt (c1 ++ e :: c2) → last (filter (λ x, compare_ x e < 0) (c1 ++ e :: c2)) = last c1.
Proof.
  intros (Ha & _ & [_ Hc2]%StronglySorted_inv)%StronglySorted_app. rewrite filter_app, (filter_true _ c1), filter_cons_False, filter_false, app_nil_r; [done| | |].
  - eapply Forall_impl; [exact Hc2|]. intros x Hx. unfold lt in Hx. destruct (flip e x). lia.
  - destruct (flip e e). lia.
  - apply Forall_forall. intros x Hx. apply Ha; [done|by left].
Qed.
Lemma ahead_filter (c1 c2 : list E) e : StronglySorted lt (c1 ++ e :: c2) → filter (λ x, 0 <= compare_ x e) (c1 ++ e :: c2) = e :: c2.
Proof.
  intros (Ha & _ & [_ Hc2]%StronglySorted_inv)%StronglySorted_app. rewrite filter_app, (filter_false _ c1), filter_cons_True, filter_true; [done| | |].
  - eapply Forall_impl; [exact Hc2|]. intros x Hx. unfold lt in Hx. destruct (flip e x). lia.
  - destruct (flip e e). lia.
  - apply Forall_forall. intros x Hx. assert (lt x e) as Hl by (apply Ha; [done|by left]). unfold lt in Hl. lia.
Qed.
Lemma ins_place (c1 c2 : list E) e : StronglySorted lt (c1 ++ e :: c2) → ins e (c1 ++ c2) = c1 ++ e :: c2.
Proof.
  intros (Ha & _ & [_ Hc2]%StronglySorted_inv)%StronglySorted_app. unfold ins. rewrite !filter_app.
  assert (Forall (λ x, compare_ x e < 0) c1) as Hlo by (apply Forall_forall; intros x Hx; apply Ha; [done|by left]).
  assert (Forall (λ x, 0 < compare_ x e) c2) as Hhi by (eapply Forall_impl; [exact Hc2|]; intros x Hx; unfold lt in Hx; destruct (flip e x); lia).
  rewrite (filter_true _ c1) by done. rewrite (filter_false _ c2), (filter_false _ c1), (filter_true _ c2), app_nil_r; [done|..];
    (eapply Forall_impl; [done|]; intros x Hx; cbn beta in *; lia).
Qed.

(** ** A scan among insertions *)
Definition scan_op (op : cop) : Prop := match op with CInsert _ | CNext => True | _ => False end.
(** The entries the steps of a run reported. *)
Fixpoint reported (ops : list cop) (obs : list (option E)) : list E :=
  match ops, obs with
  | CNext :: ops, Some e :: obs => e :: reported ops obs
  | _ :: ops, _ :: obs => reported ops obs
  | _, _ => []
  end.
Lemma ins_sorted e (c : list E) : StronglySorted lt c → Forall (λ x, compare_ e x ≠ 0) c → StronglySorted lt (ins e c).
Proof.
  intros Hs Hd. unfold ins. rewrite Forall_forall in Hd. apply StronglySorted_app. split_and!.
  - intros x y [Hx _]%list_elem_of_filter [->|[Hy Hyc]%list_elem_of_filter]%elem_of_cons; [done|]. apply lt_le_trans with e; [done|].
    unfold le. destruct (flip e y). lia.
  - by apply strongly_filter.
  - constructor; [by apply strongly_filter|]. apply Forall_forall. intros y [Hy Hyc]%list_elem_of_filter. specialize (Hd y Hyc). unfold lt. destruct (flip e y). lia.
Qed.
Lemma ins_perm e (c : list E) : ins e c ≡ₚ e :: c.
Proof.
  unfold ins. rewrite <- Permutation_middle. apply Permutation_skip. induction c as [|x c IH]; [done|]. destruct (decide (compare_ x e < 0)).
  - rewrite filter_cons_True, (filter_cons_False (λ x, 0 <= _)) by lia. cbn [app]. by apply Permutation_skip.
  - rewrite filter_cons_False, (filter_cons_True (λ x, 0 <= _)) by lia. rewrite <- Permutation_middle. by apply Permutation_skip.
Qed.
Lemma ended_scan ops c : Forall scan_op ops → reported ops (abs_run ops c None) = [].
Proof. intros Hf. revert c. induction Hf as [|op ops Hop _ IH]; intros c; [done|]. destruct op; try done; apply IH. Qed.
Lemma scan_run ops c e :
  Forall scan_op ops → StronglySorted lt c → distinct (c ++ inserted ops) → e ∈ c →
  let obs := abs_run ops c (Some e) in
  StronglySorted lt (e :: reported ops obs) ∧ (last (Some e :: obs) = Some None → ∀ x, x ∈ c → lt e x → x ∈ reported ops obs).
Proof.
  intros Hf. revert c e. induction Hf as [|op ops Hop Hf IH]; intros c e Hs Hd He; cbv zeta; [split; [by repeat constructor|done]|].
  destruct op as [e1| | | | | |]; try done; cbn [abs_run abs_step reported inserted omap list_omap] in *.
  - assert (distinct (e1 :: c ++ inserted ops)) as Hd1 by (apply (distinct_perm _ _ (symmetry (Permutation_middle _ _ _))), Hd). inversion_clear Hd1 as [|? ? Hf1 _].
    apply Forall_app in Hf1 as [Hf1 _]. assert (∀ x, x ∈ c → x ∈ ins e1 c) as Hsub.
    { intros x Hx. unfold ins. rewrite elem_of_app, elem_of_cons, !list_elem_of_filter. destruct (Z.lt_ge_cases (compare_ x e1) 0); [left|right; right]; (split; [lia|done]). }
    destruct (IH (ins e1 c) e) as [Hso Hall]; [by apply ins_sorted| |by apply Hsub|split; [done|]].
    { eapply distinct_perm; [|exact Hd]. rewrite ins_perm. cbn [app]. by rewrite <- Permutation_middle. }
    intros Hl x Hx. apply Hall; [|by apply Hsub]. by rewrite last_cons_cons in Hl.
  - cbn [mbind option_bind]. assert (∀ x, x ∈ filter (λ x, compare_ e x < 0) c ↔ lt e x ∧ x ∈ c) as Hin by (intros x; by rewrite list_elem_of_filter).
    pose proof (strongly_filter lt (λ x, compare_ e x < 0) c Hs) as Hfs. destruct (filter _ c) as [|e' rest]; cbn [head].
    + rewrite ended_scan by done. split; [by repeat constructor|]. intros _ x Hx Hex. destruct (proj1 (elem_of_nil x) (proj2 (Hin x) (conj Hex Hx))).
    + destruct (proj1 (Hin e') ltac:(by left)) as [Hlt He']. destruct (IH c e' Hs Hd He') as [Hso Hall]. split.
      * constructor; [done|]. constructor; [done|]. apply StronglySorted_inv in Hso as [_ Hso]. eapply Forall_impl; [exact Hso|]. intros x Hx. by apply (lt_le_trans e e' x), lt_le.
      * intros Hl x Hx Hex. rewrite last_cons_cons in Hl. apply StronglySorted_inv in Hfs as [_ Hfs].
        pose proof (proj2 (Hin x) (conj Hex Hx)) as Hxf. apply elem_of_cons in Hxf as [->|Hxf]; [by left|]. right. apply Hall; [done|done|]. by eapply Forall_forall in Hfs.
Qed.
Lemma scan_sub ops c e x : Forall scan_op ops → x ∈ reported ops (abs_run ops c (Some e)) → x ∈ c ++ inserted ops.
Proof.
  intros Hf. revert c e. induction Hf as [|op ops Hop Hf IH]; intros c e; [by intros ?%elem_of_nil|].
  destruct op as [e1| | | | | |]; try done; cbn [abs_run abs_step reported inserted omap list_omap] in *.
  - intros Hx%IH. rewrite ins_perm in Hx. cbn [app] in Hx. by rewrite <- Permutation_middle.
  - cbn [mbind option_bind]. destruct (head (filter (λ x, compare_ e x < 0) c)) as [e'|] eqn:Hh; [|by rewrite ended_scan; [intros ?%elem_of_nil|]].
    intros [->|Hx%IH]%elem_of_cons; [|done]. apply elem_of_app. left. destruct (filter _ c) as [|y l] eqn:Hfl; [done|]. injection Hh as ->.
    assert (e' ∈ filter (λ x, compare_ e x < 0) c) as [_ ?]%list_elem_of_filter by (rewrite Hfl; by left). done.
Qed.

(** ** The cursor refines it *)
Section Refine.
Context (new_addr : gmap Z (leaf_block (E := E)) → Z) (Hnew : ∀ h, h !! new_addr h = None).
Definition run_step (op : cop) r it : option (rep (E := E) (M := M) * iter (E := E)) :=
  match op with
  | CInsert e => r ← Insert new_addr e r; Some (r, it)
  | CSeek k => ik ← slice_at k; it ← Seek r ik (Some k) it; Some (r, it)
  | CSeekForPrev k => ik ← slice_at k; it ← SeekForPrev 1 r ik (Some k) it; Some (r, it)
  | CFirst => it ← SeekToFirst r it; Some (r, it)
  | CLast => it ← SeekToLast r it; Some (r, it)
  | CNext => it ← Next 1 r it; Some (r, it)
  | CPrev => it ← Prev 1 r it; Some (r, it)
  end.
(** What [key] answers after each operation. *)
Fixpoint run (ops : list cop) r it : option (list (option E)) :=
  match ops with
  | [] => Some []
  | op :: ops => '(r, it) ← run_step op r it; '(k, it) ← key r it; rest ← run ops r it; Some (k :: rest)
  end.
Definition sim (bound : Z) r it (c : list E) (pos : option E) : Prop :=
  ∃ nodes, chain_ok r nodes ∧ contents nodes = c ∧ StronglySorted lt c ∧ Forall (λ n, n_ver n <= bound) nodes ∧
    match pos with Some e => anchored nodes it e | None => cleared it end.
Lemma sim_small bound nodes : bound < 2 ^ 32 → Forall (λ n : node E, n_ver n <= bound) nodes → small nodes.
Proof. intros Hb Hv. eapply Forall_impl; [exact Hv|]. cbn. lia. Qed.
Lemma sim_moved bound r nodes it c1 e c2 :
  chain_ok r nodes → StronglySorted lt (contents nodes) → Forall (λ n, n_ver n <= bound) nodes → placed nodes it e c1 c2 →
  sim bound r it (contents nodes) (Some e).
Proof. intros Hc Hlt Hv Hp. exists nodes. split_and!; try done. eapply placed_anchored; [by eapply even_nonneg|done]. Qed.
Lemma key_sim bound r it c pos : bound < 2 ^ 32 → sim bound r it c pos → ∃ it', key r it = Some (pos, it') ∧ sim bound r it' c pos.
Proof.
  intros Hb (nodes & Hc & <- & Hlt & Hv & Hpos). pose proof (sim_small _ _ Hb Hv) as Hsm. destruct pos as [e|].
  - destruct (list_elem_of_split _ _ (proj1 Hpos)) as (c1 & c2 & Hcont). destruct (anchored_key _ _ Hc Hsm Hlt it e c1 c2 Hcont Hpos) as (it' & -> & _ & Hp).
    exists it'. split; [done|]. by eapply sim_moved.
  - exists it. split; [by apply cleared_key|]. by exists nodes.
Qed.
Lemma insert_sim bound r it c pos e :
  0 <= bound → sim bound r it c pos → Forall (λ x, compare_ e x ≠ 0) c → ∃ r', Insert new_addr e r = Some r' ∧ sim (bound + 4) r' it (ins e c) pos.
Proof.
  intros Hb (nodes & Hc & <- & Hlt & Hv & Hpos) Hd. destruct (insert_chain new_addr Hnew r nodes e Hc) as (r' & nodes' & c1 & c2 & Hi & Hc' & _ & Ho & Hn & Hg & _).
  exists r'. split; [done|]. pose proof (ch_sorted _ _ _ Hc') as Hs'. assert (StronglySorted lt (c1 ++ e :: c2)) as Hlt'.
  { rewrite Hn in Hs'. rewrite Ho in Hlt, Hd. apply StronglySorted_app in Hlt as (Hx & H1' & H2'), Hs' as (Hy & _ & [_ Hy2]%StronglySorted_inv).
    apply Forall_app in Hd as [Hd1 Hd2]. rewrite Forall_forall in Hd1, Hd2, Hy2. apply StronglySorted_app. split_and!; [|done|].
    - intros x y Hx1 [->|Hy1]%elem_of_cons; [|by apply Hx]. assert (le x e) as Hl by (apply Hy; [done|by left]). specialize (Hd1 x Hx1). unfold le, lt in *. destruct (flip x e). lia.
    - constructor; [done|]. apply Forall_forall. intros y Hy1. specialize (Hd2 y Hy1). specialize (Hy2 y Hy1). unfold le, lt in *. lia. }
  exists nodes'. rewrite Ho, ins_place by done. split; [done|]. split; [done|]. split; [done|]. split; [by apply Hg|].
  destruct pos as [p|]; [|done]. eapply anchored_grows; [done|done|]. intros x. rewrite Ho, Hn, !elem_of_app, elem_of_cons. tauto.
Qed.
Lemma cleared_sim bound r nodes it : chain_ok r nodes → StronglySorted lt (contents nodes) → Forall (λ n, n_ver n <= bound) nodes → cleared it → sim bound r it (contents nodes) None.
Proof. intros. by exists nodes. Qed.
Lemma seek_sim bound r it c pos k :
  sim bound r it c pos → ∃ it', Seek r (ikey k) (Some k) it = Some it' ∧ sim bound r it' c (head (filter (λ x, 0 <= compare_ x k) c)).
Proof.
  intros (nodes & Hc & <- & Hlt & Hv & _). destruct (seek_spec r nodes (ikey k) k it Hc Hlt) as (it' & -> & [[Hcl Hall]|(e & c1 & c2 & Hp & Hc1 & He)]); exists it'; (split; [done|]).
  - rewrite filter_false by (eapply Forall_impl; [exact Hall|]; intros x Hx; unfold lt in Hx; lia). by apply cleared_sim.
  - pose proof (placed_contents _ _ _ _ _ Hp) as Hcont. rewrite Hcont at 2. rewrite seek_head by done. by eapply sim_moved.
Qed.
Lemma seek_for_prev_sim bound r it c pos k :
  bound < 2 ^ 32 → sim bound r it c pos → ∃ it', SeekForPrev 1 r (ikey k) (Some k) it = Some it' ∧ sim bound r it' c (last (filter (λ x, compare_ x k <= 0) c)).
Proof.
  intros Hb (nodes & Hc & <- & Hlt & Hv & _). destruct (seek_for_prev_spec r nodes Hc (sim_small _ _ Hb Hv) Hlt (ikey k) k it) as (it' & -> & [[Hcl Hall]|(e & c1 & c2 & Hp & He & Hc2)]); exists it'; (split; [done|]).
  - rewrite filter_false by (eapply Forall_impl; [exact Hall|]; intros x Hx; unfold lt in Hx; destruct (flip k x); lia). by apply cleared_sim.
  - pose proof (placed_contents _ _ _ _ _ Hp) as Hcont. rewrite Hcont at 2. rewrite back_last by done. by eapply sim_moved.
Qed.
Lemma next_sim bound r it c pos :
  bound < 2 ^ 32 → sim bound r it c pos → ∃ it', Next 1 r it = Some it' ∧ sim bound r it' c (e ← pos; head (filter (λ x, compare_ e x < 0) c)).
Proof.
  intros Hb (nodes & Hc & <- & Hlt & Hv & Hpos). destruct pos as [e|]; cbn [mbind option_bind].
  - destruct (list_elem_of_split _ _ (proj1 Hpos)) as (c1 & c2 & Hcont). destruct (next_spec r nodes Hc (sim_small _ _ Hb Hv) Hlt it e c1 c2 Hcont Hpos) as (it' & -> & Hm).
    exists it'. split; [done|]. pose proof Hlt as Hlt'. rewrite Hcont in Hlt'. rewrite Hcont at 2. rewrite next_head by done.
    destruct c2 as [|e' c2]; [by apply cleared_sim|by eapply sim_moved].
  - exists (set_valid false it). split; [cbn [Next]; unfold RevalidatePosition; by rewrite (proj2 Hpos)|]. apply cleared_sim; try done. split; [done|apply Hpos].
Qed.
Lemma prev_sim bound r it c pos :
  bound < 2 ^ 32 → sim bound r it c pos → ∃ it', Prev 1 r it = Some it' ∧ sim bound r it' c (e ← pos; last (filter (λ x, compare_ x e < 0) c)).
Proof.
  intros Hb (nodes & Hc & <- & Hlt & Hv & Hpos). destruct pos as [e|]; cbn [mbind option_bind].
  - destruct (list_elem_of_split _ _ (proj1 Hpos)) as (c1 & c2 & Hcont). destruct (prev_spec r nodes Hc (sim_small _ _ Hb Hv) Hlt it e c1 c2 Hcont Hpos) as (it' & -> & Hm).
    exists it'. split; [done|]. pose proof Hlt as Hlt'. rewrite Hcont in Hlt'. rewrite Hcont at 2. rewrite prev_last by done.
    destruct (last c1) as [e'|]; [destruct Hm as (c1' & -> & Hm); by eapply sim_moved|by apply cleared_sim].
  - exists (set_valid false it). split; [cbn [Prev]; unfold RevalidatePosition; by rewrite (proj2 Hpos)|]. apply cleared_sim; try done. split; [done|apply Hpos].
Qed.
Lemma edge_sim bound r it c pos :
  sim bound r it c pos → (∃ it', SeekToFirst r it = Some it' ∧ sim bound r it' c (head c)) ∧ (∃ it', SeekToLast r it = Some it' ∧ sim bound r it' c (last c)).
Proof.
  intros (nodes & Hc & <- & Hlt & Hv & _). split.
  - destruct (to_first_spec r nodes Hc it) as (it' & -> & Hm). exists it'. split; [done|]. destruct (contents nodes) as [|e c2] eqn:Hcont; cbn [head]; rewrite <- Hcont.
    + apply cleared_sim; try done. by rewrite Hcont.
    + eapply sim_moved; try done. by rewrite Hcont.
  - destruct (to_last_spec r nodes Hc it) as (it' & -> & Hm). exists it'. split; [done|].
    destruct (last (contents nodes)); [destruct Hm as (c1 & _ & Hm); by eapply sim_moved|by apply cleared_sim].
Qed.
Lemma sim_bound b1 b2 r it c pos : b1 <= b2 → sim b1 r it c pos → sim b2 r it c pos.
Proof. intros Hb (nodes & Hc & Hcont & Hlt & Hv & Hpos). exists nodes. split_and!; try done. eapply Forall_impl; [exact Hv|]. cbn. lia. Qed.
Lemma step_sim bound r it c pos op :
  0 <= bound < 2 ^ 32 → sim bound r it c pos → (∀ e, op = CInsert e → Forall (λ x, compare_ e x ≠ 0) c) →
  ∃ r' it', run_step op r it = Some (r', it') ∧ sim (bound + 4) r' it' (abs_step op c pos).1 (abs_step op c pos).2.
Proof.
  intros Hb Hsim Hd. assert (∀ o pos', (∃ it', o = Some it' ∧ sim bound r it' c pos') →
    ∃ r' it', (it ← o; Some (r, it)) = Some (r', it') ∧ sim (bound + 4) r' it' c pos') as Hmv.
  { intros o pos' (it' & -> & Hs). exists r, it'. split; [done|]. by apply (sim_bound bound); [lia|]. }
  destruct op as [e|k|k| | | |]; cbn [run_step abs_step fst snd]; rewrite ?slice_data; cbn [mbind option_bind].
  - destruct (insert_sim bound r it c pos e) as (r' & -> & Hs); [lia|done|by apply Hd|]. by exists r', it.
  - apply Hmv. by eapply seek_sim.
  - apply Hmv. eapply seek_for_prev_sim; [lia|done].
  - apply Hmv. by eapply edge_sim.
  - apply Hmv. by eapply edge_sim.
  - apply Hmv. eapply next_sim; [lia|done].
  - apply Hmv. eapply prev_sim; [lia|done].
Qed.
(** The next operation inserts no key again, nor do those after it. *)
Lemma step_fresh op ops (c : list E) : distinct (c ++ inserted (op :: ops)) → ∀ e, op = CInsert e → Forall (λ x, compare_ e x ≠ 0) c.
Proof.
  intros Hd e ->. cbn in Hd. apply (distinct_perm _ (e :: c ++ inserted ops)) in Hd; [|by rewrite <- Permutation_middle]. inversion_clear Hd as [|? ? Hf _].
  by apply Forall_app in Hf as [? _].
Qed.
Lemma step_distinct op ops (c : list E) pos : distinct (c ++ inserted (op :: ops)) → distinct ((abs_step op c pos).1 ++ inserted ops).
Proof.
  intros Hd. destruct op as [e|k|k| | | |]; try exact Hd. cbn in Hd |- *.
  eapply distinct_perm; [|exact Hd]. rewrite ins_perm. cbn [app]. by rewrite <- Permutation_middle.
Qed.
Lemma new_sim cap : 0 <= cap → sim 0 (rep_new new_addr cap) IteratorImpl [] None.
Proof. intros. eexists. split; [by apply new_chain|]. split; [done|]. split; [constructor|]. split; [by repeat constructor|done]. Qed.
Lemma run_sim ops bound r it c pos :
  0 <= bound → bound + 4 * Z.of_nat (length ops) < 2 ^ 32 → distinct (c ++ inserted ops) → sim bound r it c pos → run ops r it = Some (abs_run ops c pos).
Proof.
  revert bound r it c pos. induction ops as [|op ops IH]; intros bound r it c pos Hb Hlen Hd Hsim; [done|]. cbn [length] in Hlen.
  destruct (step_sim bound r it c pos op) as (r' & it' & Hst & Hs'); [lia|done|by eapply step_fresh|].
  cbn [run abs_run]. rewrite Hst. cbn [mbind option_bind]. destruct (key_sim (bound + 4) r' it' _ _ ltac:(lia) Hs') as (it2 & -> & Hs2). cbn [mbind option_bind].
  pose proof (step_distinct op ops c pos Hd) as Hd'. destruct (abs_step op c pos) as [c' pos']. cbn [fst snd] in *.
  by rewrite (IH (bound + 4) _ _ c' pos' ltac:(lia) ltac:(lia)).
Qed.

(** C10: the cursor refines its specification under insertions.  For any
    interleaving of insertions and cursor operations on a new table, with distinct
    keys and fewer than 2^30 operations (so that no version wraps), what [key]
    answers after each operation is where the sorted list of entries says the
    cursor is: a seek goes to the first entry at or after its key, or the last at
    or before it; a step goes to the neighbour, in the table as it then is, of the
    entry the cursor is on; and an insertion, although it shifts and splits the
    blocks under the cursor, does not move it. *)
Theorem cursor_refines cap ops :
  0 <= cap → distinct (inserted ops) → Z.of_nat (length ops) < 2 ^ 30 →
  run ops (rep_new (M := M) new_addr cap) IteratorImpl = Some (abs_run ops [] None).
Proof.
  intros Hcap Hd Hlen. apply (run_sim ops 0); [done|lia|done|by apply new_sim].
Qed.

Lemma distinct_app_l (xs ys : list E) : distinct (xs ++ ys) → distinct xs.
Proof.
  induction xs as [|x xs IH]; intros Hd; [constructor|]. cbn [app] in Hd. inversion_clear Hd as [|? ? Hx Hd']. apply Forall_app in Hx as [Hx _].
  constructor; [done|by apply IH].
Qed.
Lemma insert_all_sim es bound r it c :
  0 <= bound → distinct (es ++ c) → sim bound r it c None →
  ∃ r' c', insert_all new_addr es r = Some r' ∧ sim (bound + 4 * Z.of_nat (length es)) r' it c' None ∧ c' ≡ₚ es ++ c.
Proof.
  revert bound r c. induction es as [|e es IH]; intros bound r c Hb Hd Hs; [exists r, c; split; [done|]; split; [by rewrite Z.add_0_r|done]|].
  pose proof Hd as Hd1. cbn [app] in Hd1. inversion_clear Hd1 as [|? ? Hf _]. apply Forall_app in Hf as [_ Hf].
  destruct (insert_sim bound r it c None e Hb Hs Hf) as (r1 & Hi & Hs1). cbn [insert_all]. rewrite Hi. cbn [mbind option_bind].
  destruct (IH (bound + 4) r1 (ins e c)) as (r' & c' & -> & Hs' & Hp); [lia| |done|].
  - eapply distinct_perm; [|exact Hd]. rewrite ins_perm. cbn [app]. by rewrite <- Permutation_middle.
  - exists r', c'. split; [done|]. split; [eapply sim_bound; [|done]; cbn [length]; lia|]. rewrite Hp, ins_perm. cbn [app]. by rewrite <- Permutation_middle.
Qed.

(** C11: a scan loses nothing and repeats nothing.  Take any table of distinct
    keys, put a cursor on its first entry and let steps and further insertions
    alternate in any way: the entries the scan reports ascend strictly, each was
    inserted, and when the cursor says it is at the end, every entry that was in
    the table when the scan began has been reported. *)
Theorem scan_complete cap es ops :
  0 <= cap → es ≠ [] → distinct (es ++ inserted ops) → Z.of_nat (length es + length ops) < 2 ^ 30 → Forall scan_op ops →
  ∃ r it e it1 obs, insert_all (M := M) new_addr es (rep_new new_addr cap) = Some r ∧ SeekToFirst r IteratorImpl = Some it ∧
    key r it = Some (Some e, it1) ∧ run ops r it1 = Some obs ∧
    StronglySorted lt (e :: reported ops obs) ∧ e :: reported ops obs ⊆ es ++ inserted ops ∧
    (last obs = Some None → ∀ x, x ∈ es → x ∈ e :: reported ops obs).
Proof.
  intros Hcap Hne Hd Hlen Hf. pose proof (distinct_app_l _ _ Hd) as Hde.
  destruct (insert_all_sim es 0 (rep_new new_addr cap) IteratorImpl []) as (r & c & Hr & Hs & Hp); [done|by rewrite app_nil_r|by apply new_sim|].
  rewrite app_nil_r in Hp. destruct (proj1 (edge_sim _ _ _ _ _ Hs)) as (it & Hit & Hs1). assert (∃ e, head c = Some e) as [e Hhe].
  { destruct c; [|by eexists]. apply Permutation_nil_l in Hp. done. }
  rewrite Hhe in Hs1. destruct (key_sim (0 + 4 * Z.of_nat (length es)) _ _ _ _ ltac:(lia) Hs1) as (it1 & Hk & Hs2).
  assert (StronglySorted lt c ∧ distinct (c ++ inserted ops) ∧ e ∈ c) as (Hsc & Hdc & Hec).
  { split; [by destruct Hs as (? & _ & _ & ? & _)|]. split; [eapply distinct_perm; [|exact Hd]; by rewrite Hp|]. destruct c; [done|]. injection Hhe as ->. by left. }
  exists r, it, e, it1, (abs_run ops c (Some e)). split; [done|]. split; [done|]. split; [done|]. split.
  { apply (run_sim ops (0 + 4 * Z.of_nat (length es))); [lia|lia|done|done]. }
  destruct (scan_run ops c e Hf Hsc Hdc Hec) as [Hso Hall]. split; [done|]. split.
  - intros x [->|Hx%scan_sub]%elem_of_cons; [by rewrite <- Hp; apply elem_of_app; left| |done]. by rewrite <- Hp.
  - intros Hl x Hx. rewrite <- Hp in Hx. destruct c as [|e0 c]; [done|]. injection Hhe as ->. apply elem_of_cons in Hx as [->|Hx]; [by left|]. right.
    apply Hall; [by rewrite last_cons, Hl|by right|]. apply StronglySorted_inv in Hsc as [_ Hsc]. by eapply Forall_forall in Hsc.
Qed.
(** ** Seeking an internal key only *)
Lemma one_block_seek r n k it :
  chain_ok r [n] → n_es n ≠ [] →
  (Forall (λ x, lt x k) (n_es n) → ∃ it' e, Seek r (ikey k) None it = Some it' ∧ head (n_es n) = Some e ∧ valid_ it' = true ∧ anchor_entry_ it' = Some e) ∧
  (Forall (lt k) (n_es n) → ∃ it', Seek r (ikey k) None it = Some it' ∧ cleared it').
Proof.
  intros Hc Hne. pose proof (ch_seg _ _ _ Hc) as [Hn _]. pose proof (chain_blocks _ _ _ Hc) as Hb. apply Forall_cons in Hb as [(Hev & Hl & _) _].
  assert (FindLeafBlockForSeek r (ikey k) None = Some (n_addr n)) as Hfind.
  { unfold FindLeafBlockForSeek. pose proof (ch_head _ _ _ Hc) as Hh. pose proof (ch_tail _ _ _ Hc) as Ht. cbn in Hh, Ht. injection Hh as Hh. injection Ht as Ht.
    rewrite (proj2 (Z.eqb_eq _ _)) by congruence. by rewrite Hh. }
  unfold Seek. rewrite Hfind, (ch_size _ _ _ Hc). cbn [mbind option_bind length seek_loop]. rewrite Hn. cbn [mbind option_bind]. rewrite blk_odd by done.
  cbn [count slots next_leaf version blk next_addr]. split; intros Hall.
  - rewrite (search_spec _ [] (n_es n)); cbn [length app]; [|done| |lia..].
    2: { eapply Forall_impl; [exact Hall|]. intros x Hx. cbn beta. apply negb_false_iff. rewrite Z.geb_leb, Z.leb_le. pose proof (compare_slice_sgn k x). unfold lt in Hx. destruct (flip x k). lia. }
    cbn [mbind option_bind]. destruct (n_es n) as [|e b] eqn:Hes; [done|]. rewrite (proj2 (Z.ltb_lt _ _)) by (cbn [length]; lia).
    rewrite slots_get by (cbn [length]; lia). cbn [mbind option_bind lookup list_lookup Z.to_nat]. by eexists _, e.
  - pose proof (search_spec (λ x, negb (compare_slice (ikey k) x >=? 0)) (n_es n) [] (Z.to_nat (Z.of_nat (length (n_es n)))) 0 (Z.of_nat (length (n_es n)))) as Hse.
    rewrite app_nil_r in Hse. rewrite Hse; [| |done|lia..].
    2: { eapply Forall_impl; [exact Hall|]. intros x Hx. cbn beta. apply negb_true_iff. rewrite Z.geb_leb, Z.leb_gt. pose proof (compare_slice_sgn k x). unfold lt in Hx. lia. }
    cbn [mbind option_bind]. rewrite (proj2 (Z.ltb_ge _ _)) by lia. by eexists.
Qed.

(** C17: seeking by an internal key alone goes the wrong way.  With no memtable
    key, [Seek] compares the internal key with the entry where it otherwise
    compares the entry with the key, and keeps the test: on a table of one block,
    a seek past the last entry lands on the first, and a seek before the first
    ends, where a seek of the same key in memtable form ends and lands on the
    first. *)
Theorem seek_internal_inverted cap es k r :
  0 <= cap → es ≠ [] → distinct es → insert_all (M := M) new_addr es (rep_new new_addr cap) = Some r → head_ r = tail_ r →
  ∃ e, e ∈ es ∧ Forall (le e) es ∧
  (Forall (λ x, lt x k) es →
    (∃ it, Seek r (ikey k) None IteratorImpl = Some it ∧ valid_ it = true ∧ anchor_entry_ it = Some e) ∧ (∃ it, Seek r (ikey k) (Some k) IteratorImpl = Some it ∧ cleared it)) ∧
  (Forall (lt k) es →
    (∃ it, Seek r (ikey k) None IteratorImpl = Some it ∧ cleared it) ∧ (∃ it, Seek r (ikey k) (Some k) IteratorImpl = Some it ∧ valid_ it = true ∧ anchor_entry_ it = Some e)).
Proof.
  intros Hcap Hne Hd Hr Hone. destruct (insert_all_chain new_addr Hnew es _ _ (new_chain (M := M) new_addr cap Hcap)) as (r' & nodes & Hr' & Hc & Hp).
  rewrite Hr in Hr'. injection Hr' as <-. destruct (single_block _ _ Hc Hone) as (n & -> & _). rewrite !contents_cons, !app_nil_r in Hp.
  assert (n_es n ≠ []) as Hne' by (intros He; rewrite He in Hp; by apply Permutation_nil_l in Hp).
  assert (contents [n] = n_es n) as Hcn by (rewrite contents_cons; apply app_nil_r).
  pose proof (ch_sorted _ _ _ Hc) as Hs. rewrite Hcn in Hs. pose proof (distinct_sorted _ Hs (distinct_perm _ _ (symmetry Hp) Hd)) as Hlt.
  destruct (one_block_seek r n k IteratorImpl Hc Hne') as [Hlo Hhi]. destruct (seek_spec r [n] (ikey k) k IteratorImpl Hc ltac:(by rewrite Hcn)) as (itk & Hk & Hpos).
  rewrite Hcn in Hpos. destruct (n_es n) as [|e b] eqn:Hes; [done|]. exists e. split; [rewrite <- Hp; by left|]. split.
  { rewrite <- Hp. apply StronglySorted_inv in Hs as [_ Hs]. constructor; [apply le_refl|done]. }
  rewrite <- Hp. split; intros Hall.
  - destruct (Hlo Hall) as (it & e' & -> & [= <-] & Hv & Ha). split; [by exists it|]. exists itk. split; [done|].
    destruct Hpos as [[? _]|(x & c1 & c2 & Hpl & _ & Hle)]; [done|]. apply placed_contents in Hpl. rewrite Hcn in Hpl.
    eapply Forall_forall in Hall; [|rewrite Hpl; apply elem_of_app; right; by left]. by apply le_lt in Hle.
  - split; [by apply Hhi|]. exists itk. split; [done|]. apply Forall_cons in Hall as [He _]. destruct Hpos as [[_ Hf]|(x & c1 & c2 & Hpl & Hf & Hle)].
    + apply Forall_cons in Hf as [Hf _]. unfold lt in *. destruct (flip k e). lia.
    + pose proof (placed_contents _ _ _ _ _ Hpl) as Hcc. rewrite Hcn in Hcc. destruct c1 as [|y c1].
      * injection Hcc as -> ->. destruct Hpl as (l & n0 & rr & a0 & b0 & Hpl). by split_and!; apply Hpl.
      * injection Hcc as -> ->. apply Forall_cons in Hf as [Hf _]. unfold lt in *. destruct (flip k y). lia.
Qed.
End Refine.
End Cursor.
Lemma cursor_refines_witness :
  let e u s := Entry [u] s 1 (Some [u; s]) in
  let ops := [CInsert (e 98 4 eq_refl); CInsert (e 97 2 eq_refl); CSeek (Entry [98] 9 1 None eq_refl); CInsert (e 98 3 eq_refl); CInsert (e 98 7 eq_refl); CNext; CPrev; CPrev;
              CInsert (e 99 1 eq_refl); CSeekForPrev (Entry [98] 5 1 None eq_refl); CLast; CNext; CFirst] in
  run (M := gmap Z Z) top_addr ops (rep_new top_addr 2) IteratorImpl = Some (abs_run ops [] None).
Proof. intros e ops. apply (cursor_refines (M := gmap Z Z) top_addr top_addr_fresh 2 ops); [lia| |vm_compute; reflexivity]. unfold distinct. repeat constructor; vm_compute; discriminate. Defined.
(** The sequence numbers the cursor of the witness is on after each operation. *)
Example cursor_runs :
  let e u s := Entry [u] s 1 (Some [u; s]) in
  let ops := [CInsert (e 98 4 eq_refl); CInsert (e 97 2 eq_refl); CSeek (Entry [98] 9 1 None eq_refl); CInsert (e 98 3 eq_refl); CInsert (e 98 7 eq_refl); CNext; CPrev; CPrev;
              CInsert (e 99 1 eq_refl); CSeekForPrev (Entry [98] 5 1 None eq_refl); CLast; CNext; CFirst] in
  map (option_map e_seq) <$> run (M := gmap Z Z) top_addr ops (rep_new top_addr 2) IteratorImpl =
  Some [None; None; Some 4; Some 4; Some 4; Some 3; Some 4; Some 7; Some 7; Some 7; Some 1; None; Some 2].
Proof. vm_compute. reflexivity. Qed.
Lemma scan_complete_witness :
  let e u s := Entry [u] s 1 (Some [u; s]) in
  let es := [e 98 4 eq_refl; e 97 2 eq_refl; e 98 9 eq_refl] in
  let ops := [CNext; CInsert (e 98 6 eq_refl); CInsert (e 96 1 eq_refl); CNext; CNext; CNext] in
  ∃ r it x it1 obs, insert_all (M := gmap Z Z) top_addr es (rep_new top_addr 2) = Some r ∧ SeekToFirst r IteratorImpl = Some it ∧
    key r it = Some (Some x, it1) ∧ run top_addr ops r it1 = Some obs ∧ x :: reported ops obs ⊆ es ++ inserted ops.
Proof.
  intros e es ops. destruct (scan_complete (M := gmap Z Z) top_addr top_addr_fresh 2 es ops) as (r & it & x & it1 & obs & Hr & Hi & Hk & Hrun & _ & Hsub & _); [lia|discriminate| |vm_compute; reflexivity|by repeat constructor|].
  - unfold distinct. repeat constructor; vm_compute; discriminate.
  - exists r, it, x, it1, obs. split; [exact Hr|]. split; [exact Hi|]. split; [exact Hk|]. split; [exact Hrun|exact Hsub].
Defined.
Lemma seek_internal_inverted_witness :
  let es := [Entry [98] 4 1 (Some [7]) eq_refl; Entry [97] 2 1 (Some [5]) eq_refl] in
  let k := Entry [99] 1 1 None eq_refl in
  ∃ r e it it', insert_all (M := gmap Z Z) top_addr es (rep_new top_addr 8) = Some r ∧ Seek r (ikey k) None IteratorImpl = Some it ∧
    valid_ it = true ∧ anchor_entry_ it = Some e ∧ Seek r (ikey k) (Some k) IteratorImpl = Some it' ∧ cleared it'.
Proof.
  intros es k. assert (∃ r, insert_all (M := gmap Z Z) top_addr es (rep_new top_addr 8) = Some r ∧ head_ r = tail_ r) as (r & Hr & Hone).
  { eexists. split; vm_compute; reflexivity. }
  destruct (seek_internal_inverted (M := gmap Z Z) top_addr top_addr_fresh 8 es k r) as (e & _ & _ & Hlo & _); [lia|discriminate| |exact Hr|exact Hone|].
  { unfold distinct. repeat constructor; vm_compute; discriminate. }
  destruct Hlo as [(it & Hs & Hv & Ha) (it' & Hs' & Hc)]; [repeat constructor; vm_compute; reflexivity|]. exists r, e, it, it'. auto 10.
Defined.
