(* ===== verification/RocksBatch.v ===== *)
(** * A batch is the steps it stands for

    Theorems on the two [ScanBatch] functions of [RocksIter]: reading a block's
    entries in chunks, and moving the cursor once per chunk, returns the pairs and
    leaves the cursor where one [key] and one [Next] per entry would. *)
From stdpp Require Import base numbers list sorting gmap.
From S2P Require Import Prelude SortedAssoc ExpanseApi Sync32 EngineViews RocksKeys RocksTable RocksIter RocksChain RocksEntries RocksLookup RocksCursor.
Open Scope Z_scope.

Section Batch.
Context {E : Type} `{KeyComparatorLaws E} {M : Type} `{ExpanseMapPrevLaws M}.
Implicit Types (r : rep (E := E) (M := M)) (nodes : list (node E)) (c : list E) (it : iter (E := E)).

(** What a batch stores for an entry. *)
Definition pair_of (e : E) : option (bytes * bytes) := Some (ikey e, value e).
Lemma taken_spec (a l b : list E) i : i = Z.of_nat (length a) → taken (length l) i (slots_of (a ++ l ++ b)) = Some (Some l).
Proof.
  intros ->. revert a. induction l as [|x l IH]; intros a; [done|]. cbn [length taken app].
  rewrite slots_get by (rewrite length_app; cbn [length]; lia). rewrite Nat2Z.id, list_lookup_middle by done. cbn [mbind option_bind].
  specialize (IH (a ++ [x])). rewrite <- app_assoc, length_app in IH. cbn [app length] in IH.
  replace (Z.of_nat (length a + 1)) with (Z.of_nat (length a) + 1) in IH by lia. by rewrite IH.
Qed.
Lemma decode_all (l : list E) : mapM decode l = Some (pair_of <$> l).
Proof. induction l as [|x l IH]; [done|]. cbn [mapM]. rewrite decode_data. cbn [mbind option_bind]. by rewrite IH. Qed.

Section Chain.
Context r nodes (Hc : chain_ok r nodes) (Hsm : Forall (λ n : node E, n_ver n < 2 ^ 32) nodes) (Hlt : StronglySorted lt (contents nodes)).
(** At the entry before [c], or at the end; before a first step the block may
    have changed since the cursor was put there. *)
Definition rests it c1 c : Prop := match c with [] => cleared it | e :: c2 => placed nodes it e c1 c2 end.
Definition holds (n : nat) it c1 c : Prop := rests it c1 c ∨ (0 < n)%nat ∧ match c with [] => False | e :: _ => anchored nodes it e end.
Lemma holds_anchored n it c1 e c2 : holds n it c1 (e :: c2) → anchored nodes it e.
Proof. intros [Hp|[_ Ha]]; [|done]. eapply placed_anchored; [by eapply even_nonneg|exact Hp]. Qed.
Lemma holds_zero it c1 c : holds 0 it c1 c → rests it c1 c.
Proof. intros [?|[? _]]; [done|lia]. Qed.
Lemma holds_end n it c1 : holds n it c1 [] → cleared it.
Proof. by intros [?|[_ []]]. Qed.

Lemma generic_spec fuel n it c1 c :
  contents nodes = c1 ++ c → (n <= fuel)%nat → holds n it c1 c →
  ∃ it', scan_generic fuel r (Z.of_nat n) it = Some (pair_of <$> take n c, it') ∧ rests it' (c1 ++ take n c) (drop n c).
Proof.
  revert n it c1 c. induction fuel as [|fuel IH]; intros n it c1 c Hcont Hf Hh.
  { assert (n = 0)%nat as -> by lia. exists it. split; [done|]. rewrite take_0, drop_0, app_nil_r. by apply holds_zero. }
  destruct n as [|n]; [exists it; split; [done|]; rewrite take_0, drop_0, app_nil_r; by apply holds_zero|].
  cbn [scan_generic]. rewrite (proj2 (Z.ltb_lt _ _)) by lia. destruct c as [|e c2].
  - pose proof (holds_end _ _ _ Hh) as Hcl. exists it. rewrite (proj2 (cleared_key r it Hcl)). split; [done|]. by rewrite drop_nil.
  - pose proof (holds_anchored _ _ _ _ _ Hh) as Ha. destruct (anchored_key r nodes Hc Hsm Hlt it e c1 c2 Hcont Ha) as (it1 & _ & -> & Hp1).
    cbn [mbind option_bind negb]. pose proof (placed_anchored _ _ _ _ _ (even_nonneg _ _ Hc) Hp1) as Ha1.
    destruct (anchored_key r nodes Hc Hsm Hlt it1 e c1 c2 Hcont Ha1) as (it2 & -> & _ & Hp2). cbn [mbind option_bind]. rewrite decode_data. cbn [mbind option_bind].
    pose proof (placed_anchored _ _ _ _ _ (even_nonneg _ _ Hc) Hp2) as Ha2. destruct (next_spec r nodes Hc Hsm Hlt it2 e c1 c2 Hcont Ha2) as (it3 & -> & Hr3). cbn [mbind option_bind].
    replace (Z.of_nat (S n) - 1) with (Z.of_nat n) by lia. destruct (IH n it3 (c1 ++ [e]) c2) as (it' & -> & Hr'); [by rewrite <- app_assoc|lia|by left|].
    exists it'. split; [done|]. cbn [take drop]. by rewrite <- app_assoc in Hr'.
Qed.

(** One chunk: [k] entries of the block, and the cursor on what follows them. *)
Lemma chunk_spec fuel n it e c1 c2 :
  contents nodes = c1 ++ e :: c2 → anchored nodes it e → (0 < n)%nat →
  ∃ k it', (0 < k <= n)%nat ∧ rests it' (c1 ++ take k (e :: c2)) (drop k (e :: c2)) ∧
    scan_loop (S fuel) r (Z.of_nat n) it =
      match drop k (e :: c2) with
      | [] => Some (pair_of <$> take k (e :: c2), it')
      | _ => '(rest, it) ← scan_loop fuel r (Z.of_nat (n - k)) it'; Some ((pair_of <$> take k (e :: c2)) ++ rest, it)
      end.
Proof.
  intros Hcont Ha Hn. destruct (revalidate_spec r nodes it e c1 c2 Hc Hsm Hcont Hlt Ha) as (it0 & Hrev & Hp).
  destruct Hp as (l & nd & rr & a & b & Hnodes & Hes & -> & -> & Hl & Hs & Hval & Hver & Hanc).
  pose proof (ch_seg _ _ _ Hc) as Hseg. rewrite Hnodes in Hseg. pose proof (chain_blocks _ _ _ Hc) as Hb. rewrite Hnodes in Hb. apply Forall_app in Hb as [_ [_ Hb]%Forall_cons].
  destruct (chain_fuel r nodes Hc Hsm Hlt l nd rr Hnodes) as [_ Hfr].
  cbn [scan_loop]. rewrite (proj2 (Z.ltb_lt _ _)) by lia. rewrite Hrev. cbn [mbind option_bind negb]. rewrite Hl. cbn [mbind option_bind].
  rewrite (dlseg_lookup _ _ _ _ _ _ Hseg). cbn [mbind option_bind count slots version next_leaf blk]. rewrite Hs, Hver, Hes, Z.eqb_refl.
  rewrite (proj2 (Z.ltb_lt (Z.of_nat (length a)) _)) by (rewrite length_app; cbn [length]; lia). apply dlseg_app in Hseg as [_ [_ Hseg]].
  change (e :: b ++ contents rr) with ((e :: b) ++ contents rr). destruct (le_lt_dec (length (e :: b)) n) as [Hall|Hpart].
  - rewrite Z.min_l by (rewrite length_app; lia). replace (Z.of_nat (length (a ++ e :: b)) - Z.of_nat (length a)) with (Z.of_nat (length (e :: b))) by (rewrite length_app; lia).
    rewrite Nat2Z.id. pose proof (taken_spec a (e :: b) [] _ eq_refl) as Htk. rewrite app_nil_r in Htk. rewrite Htk. cbn [mbind option_bind].
    rewrite (proj2 (Z.ltb_ge (_ + _) _)) by (rewrite length_app; lia). cbn [mbind option_bind andb orb negb]. rewrite decode_all. cbn [mbind option_bind].
    destruct (edge_fwd _ _ (l ++ [nd]) rr _ it0 Hseg Hb Hfr) as (ok & it' & -> & Hm). cbn [mbind option_bind].
    rewrite <- app_assoc, contents_app, contents_cons, Hes in Hm. cbn [app contents mjoin list_join fmap list_fmap] in Hm. rewrite app_nil_r in Hm.
    exists (length (e :: b)), it'. split; [cbn [length] in *; lia|]. rewrite take_app_length, drop_app_length, <- Hnodes, app_assoc in *.
    destruct (contents rr); destruct Hm as [-> Hm]; (split; [done|]); [done|]. by rewrite Nat2Z.inj_sub.
  - rewrite Z.min_r by (rewrite length_app; lia). rewrite Nat2Z.id. exists n. destruct (drop n (e :: b)) as [|e' b'] eqn:Hdr; [apply (f_equal length) in Hdr; rewrite length_drop in Hdr; cbn in *; lia|].
    pose proof (take_drop n (e :: b)) as Htd. rewrite Hdr in Htd. set (t := take n (e :: b)) in *. assert (length t = n) as Hlt' by (unfold t; rewrite length_take; lia).
    clearbody t.
    pose proof (taken_spec a t (e' :: b') _ eq_refl) as Htk. rewrite Hlt' in Htk. rewrite <- Htd, Htk. cbn [mbind option_bind andb]. rewrite !length_app. cbn [length].
    rewrite (proj2 (Z.ltb_lt (_ + _) _)) by lia. rewrite app_assoc, slots_get by (rewrite !length_app; cbn [length]; lia).
    replace (Z.to_nat (Z.of_nat (length a) + Z.of_nat n)) with (length (a ++ t)) by (rewrite length_app; lia). rewrite list_lookup_middle by done. cbn [mbind option_bind andb orb negb].
    rewrite decode_all. cbn [mbind option_bind]. rewrite take_app_le, drop_app_le by (rewrite length_app; cbn [length]; lia).
    rewrite <- Hlt', take_app_length, drop_app_length, Hlt'. eexists. split; [lia|]. split; [|by rewrite Nat.sub_diag, Z.sub_diag].
    cbn [app rests]. replace (Z.of_nat (length a) + Z.of_nat n) with (Z.of_nat (length (a ++ t))) by (rewrite length_app; lia). rewrite <- app_assoc.
    apply placed_set; [done|]. by rewrite Hes, <- app_assoc, Htd.
Qed.
Lemma loop_spec fuel n it c1 c :
  contents nodes = c1 ++ c → c ≠ [] → (n <= fuel)%nat → holds n it c1 c →
  ∃ it', scan_loop fuel r (Z.of_nat n) it = Some (pair_of <$> take n c, it') ∧ rests it' (c1 ++ take n c) (drop n c).
Proof.
  revert n it c1 c. induction fuel as [|fuel IH]; intros n it c1 c Hcont Hne Hf Hh.
  { assert (n = 0)%nat as -> by lia. exists it. split; [done|]. rewrite take_0, drop_0, app_nil_r. by apply holds_zero. }
  destruct n as [|n]; [exists it; split; [done|]; rewrite take_0, drop_0, app_nil_r; by apply holds_zero|].
  destruct c as [|e c2]; [done|]. pose proof (holds_anchored _ _ _ _ _ Hh) as Ha.
  destruct (chunk_spec fuel (S n) it e c1 c2 Hcont Ha) as (k & it1 & Hk & Hr1 & ->); [lia|]. destruct (drop k (e :: c2)) as [|e1 c3] eqn:Hdr.
  - exists it1. assert (length (e :: c2) <= k)%nat by (apply (f_equal length) in Hdr; rewrite length_drop in Hdr; cbn in *; lia).
    rewrite !take_ge, drop_ge in * by lia. done.
  - assert (k <= length (e :: c2))%nat as Hkl by (apply (f_equal length) in Hdr; rewrite length_drop in Hdr; cbn in *; lia).
    destruct (IH (S n - k)%nat it1 (c1 ++ take k (e :: c2)) (e1 :: c3)) as (it' & -> & Hr'); [|done|lia|by left|].
    { by rewrite <- app_assoc, <- Hdr, take_drop. }
    exists it'. cbn [mbind option_bind]. rewrite <- Hdr in Hr' |- *. rewrite <- fmap_app. rewrite drop_drop, <- app_assoc in Hr'.
    replace (k + (S n - k))%nat with (S n) in Hr' by lia.
    assert (take k (e :: c2) ++ take (S n - k) (drop k (e :: c2)) = take (S n) (e :: c2)) as Htt by (rewrite take_take_drop; f_equal; lia).
    rewrite Htt in *. done.
Qed.
(** Both functions, from a cursor on [e]. *)
Lemma batch_anchored n it e c1 c2 :
  contents nodes = c1 ++ e :: c2 → anchored nodes it e →
  ∃ it1 it2, ScanBatch n r (Z.of_nat n) it = Some (pair_of <$> take n (e :: c2), it1) ∧ scan_generic n r (Z.of_nat n) it = Some (pair_of <$> take n (e :: c2), it2) ∧
    fst <$> key r it1 = Some (head (drop n (e :: c2))) ∧ fst <$> key r it2 = Some (head (drop n (e :: c2))).
Proof.
  intros Hcont Ha. assert (∀ it' c, contents nodes = c1 ++ take n (e :: c2) ++ c → rests it' (c1 ++ take n (e :: c2)) c → fst <$> key r it' = Some (head c)) as Hkey.
  { intros it' [|x c3] Hcc Hr; [by rewrite (proj1 (cleared_key r it' Hr))|]. rewrite app_assoc in Hcc.
    destruct (anchored_key r nodes Hc Hsm Hlt it' x _ _ Hcc) as (it'' & -> & _); [|done]. eapply placed_anchored; [by eapply even_nonneg|exact Hr]. }
  pose proof Ha as (Hin & Hval & Hs & Han & nd & v & Hnd & Hl & Hver & Hv & Hslot). unfold ScanBatch. rewrite Hval, Hl, (proj2 (Z.ltb_ge _ 0)) by done. cbn [negb orb].
  destruct n as [|n].
  - destruct (anchored_key r nodes Hc Hsm Hlt it e c1 c2 Hcont Ha) as (it' & Hk & _). exists it, it. rewrite Hk. done.
  - rewrite (proj2 (Z.eqb_neq _ 0)) by lia. assert (contents nodes = c1 ++ take (S n) (e :: c2) ++ drop (S n) (e :: c2)) as Hcc by (by rewrite take_drop).
    destruct (loop_spec (S n) (S n) (InvalidateCache it) c1 (e :: c2) Hcont) as (it1 & -> & Hr1); [done|done|right; split; [lia|exact Ha]|].
    destruct (generic_spec (S n) (S n) it c1 (e :: c2) Hcont) as (it2 & -> & Hr2); [done|right; split; [lia|exact Ha]|]. exists it1, it2.
    split; [done|]. split; [done|]. split; by apply Hkey.
Qed.
End Chain.

(** ** After any operations *)
Section Runs.
Context (new_addr : gmap Z (leaf_block (E := E)) → Z) (Hnew : ∀ h, h !! new_addr h = None).
Fixpoint run_state (ops : list cop) r it : option (rep (E := E) (M := M) * iter (E := E)) :=
  match ops with [] => Some (r, it) | op :: ops => '(r, it) ← run_step new_addr op r it; run_state ops r it end.
Fixpoint abs_state (ops : list cop) c (pos : option E) : list E * option E :=
  match ops with [] => (c, pos) | op :: ops => let '(c, pos) := abs_step op c pos in abs_state ops c pos end.
(** The entries from the cursor on. *)
Definition ahead (s : list E * option E) : list E := match s with (_, None) => [] | (c, Some p) => filter (λ x, 0 <= compare_ x p) c end.
Lemma run_state_sim ops bound r it c pos :
  0 <= bound → bound + 4 * Z.of_nat (length ops) < 2 ^ 32 → distinct (c ++ inserted ops) → sim bound r it c pos →
  ∃ r' it', run_state ops r it = Some (r', it') ∧ sim (bound + 4 * Z.of_nat (length ops)) r' it' (abs_state ops c pos).1 (abs_state ops c pos).2.
Proof.
  revert bound r it c pos. induction ops as [|op ops IH]; intros bound r it c pos Hb Hlen Hd Hsim; [exists r, it; by rewrite Z.add_0_r|]. cbn [length] in Hlen.
  destruct (step_sim new_addr Hnew bound r it c pos op) as (r' & it' & Hst & Hs'); [lia|done|by eapply step_fresh|].
  cbn [run_state abs_state]. rewrite Hst. cbn [mbind option_bind].
  pose proof (step_distinct op ops c pos Hd) as Hd'. destruct (abs_step op c pos) as [c' pos']. cbn [fst snd] in *.
  destruct (IH (bound + 4) r' it' c' pos') as (r2 & it2 & -> & Hs2); [lia|lia|done|done|]. exists r2, it2. split; [done|].
  eapply sim_bound; [|exact Hs2]. cbn [length]. lia.
Qed.

(** C12: a batch is the steps it stands for.  After any operations on a new table
    of distinct keys, [IteratorImpl::ScanBatch], which copies a block's entries in
    chunks and moves the cursor once per chunk, and the [ScanBatch] of the header,
    which calls [Valid], [key] and [Next] per entry, both return the keys and
    values of the next [n] entries from the cursor on, fewer only at the end, and
    both leave the cursor on the entry after them; a number of rounds up to [n] is
    enough for each. *)
Theorem batch_is_steps cap ops n :
  0 <= cap → distinct (inserted ops) → Z.of_nat (length ops) < 2 ^ 30 →
  let l := ahead (abs_state ops [] None) in
  ∃ r it it1 it2, run_state ops (rep_new (M := M) new_addr cap) IteratorImpl = Some (r, it) ∧
    ScanBatch n r (Z.of_nat n) it = Some (pair_of <$> take n l, it1) ∧ scan_generic n r (Z.of_nat n) it = Some (pair_of <$> take n l, it2) ∧
    fst <$> key r it1 = Some (head (drop n l)) ∧ fst <$> key r it2 = Some (head (drop n l)).
Proof.
  intros Hcap Hd Hlen l. destruct (run_state_sim ops 0 (rep_new new_addr cap) IteratorImpl [] None) as (r & it & Hr & Hs); [done|lia|done|by apply new_sim|].
  exists r, it. subst l. destruct (abs_state ops [] None) as [c pos]. cbn [fst snd] in Hs. destruct Hs as (nodes & Hc & <- & Hlt & Hv & Hpos).
  pose proof (sim_small (0 + 4 * Z.of_nat (length ops)) _ ltac:(lia) Hv) as Hsm. destruct pos as [e|]; cbn [ahead].
  - destruct (list_elem_of_split _ _ (proj1 Hpos)) as (c1 & c2 & Hcont). pose proof Hlt as Hlt'. rewrite Hcont in Hlt'. rewrite Hcont, ahead_filter by done.
    destruct (batch_anchored r nodes Hc Hsm Hlt n it e c1 c2 Hcont Hpos) as (it1 & it2 & ?). by exists it1, it2.
  - exists it, it. destruct Hpos as [Hval Hl]. unfold ScanBatch. rewrite Hval, take_nil, drop_nil, (proj1 (cleared_key r it (conj Hval Hl))). split; [done|]. split; [done|].
    split; [|done]. destruct n as [|n]; [done|]. cbn [scan_generic]. rewrite (proj2 (Z.ltb_lt _ _)) by lia. by rewrite (proj2 (cleared_key r it (conj Hval Hl))).
Qed.
End Runs.
End Batch.
Lemma batch_is_steps_witness :
  let e u s := Entry [u] s 1 (Some [u; s]) in
  let ops := [CInsert (e 98 4 eq_refl); CInsert (e 97 2 eq_refl); CFirst; CInsert (e 98 6 eq_refl); CInsert (e 98 9 eq_refl); CInsert (e 99 1 eq_refl)] in
  let l := ahead (abs_state ops [] None) in
  ∃ r it it1 it2, run_state top_addr ops (rep_new (M := gmap Z Z) top_addr 2) IteratorImpl = Some (r, it) ∧
    ScanBatch 3 r (Z.of_nat 3) it = Some (pair_of <$> take 3 l, it1) ∧ scan_generic 3 r (Z.of_nat 3) it = Some (pair_of <$> take 3 l, it2) ∧
    fst <$> key r it1 = Some (head (drop 3 l)) ∧ fst <$> key r it2 = Some (head (drop 3 l)).
Proof.
  intros e ops l. apply (batch_is_steps (M := gmap Z Z) top_addr top_addr_fresh 2 ops 3); [lia| |vm_compute; reflexivity].
  unfold distinct. repeat constructor; vm_compute; discriminate.
Defined.
(** The batch of the witness, run: three values, and the next sequence number. *)
Example batch_runs :
  let e u s := Entry [u] s 1 (Some [u; s]) in
  let ops := [CInsert (e 98 4 eq_refl); CInsert (e 97 2 eq_refl); CFirst; CInsert (e 98 6 eq_refl); CInsert (e 98 9 eq_refl); CInsert (e 99 1 eq_refl)] in
  ('(r, it) ← run_state top_addr ops (rep_new (M := gmap Z Z) top_addr 2) IteratorImpl;
   '(out, it) ← ScanBatch 3 r 3 it; '(k, _) ← key r it; Some (map (option_map snd) out, option_map e_seq k)) =
  Some ([Some [97; 2]; Some [98; 9]; Some [98; 6]], Some 4).
Proof. vm_compute. reflexivity. Qed.
