(* ===== verification/RocksSeqlock.v ===== *)
(** * The version bracket of a leaf block, store by store

    Model of what a reader without a lock sees of one block while the writer is at
    it ([Insert] and [SplitLeafBlock] of
    [src/integrations/rocksdb/src/expanse_memtable.cc] against the bracket of
    [IteratorImpl::Seek]): every store to the block is a step, every load of the
    reader falls between two steps, in program order on both sides (what the
    release and acquire fences are there for).  The theorem: a bracket that
    validates has read the block as some number of whole writes left it. *)
From stdpp Require Import base numbers list sorting gmap.
From S2P Require Import Prelude SortedAssoc ExpanseApi Sync32 EngineViews RocksKeys RocksTable RocksChain RocksEntries RocksLookup.
Open Scope Z_scope.

Section Seqlock.
Context {E : Type} `{!KeyComparator E}.
Abbreviation block := (leaf_block (E := E)).

(** ** The writer *)
(** A store; [SCopy i]: [entries[i] = entries[i - 1]]. *)
Inductive store := SVersion (v : Z) | SCopy (i : Z) | SPut (i : Z) (x : option E) | SCount (c : Z) | SNext (p : Z) | SPrev (p : Z).
Definition apply_store (s : store) (b : block) : option block :=
  match s with
  | SVersion v => Some (LeafBlock v (count b) (prev_leaf b) (next_leaf b) (slots b))
  | SCopy i => x ← arr_get (slots b) (i - 1); es ← arr_set (slots b) i x; Some (LeafBlock (version b) (count b) (prev_leaf b) (next_leaf b) es)
  | SPut i x => es ← arr_set (slots b) i x; Some (LeafBlock (version b) (count b) (prev_leaf b) (next_leaf b) es)
  | SCount c => Some (LeafBlock (version b) c (prev_leaf b) (next_leaf b) (slots b))
  | SNext p => Some (LeafBlock (version b) (count b) (prev_leaf b) (Some p) (slots b))
  | SPrev p => Some (set_prev p b)
  end.
Fixpoint shifts (n : nat) (i : Z) : list store := match n with O => [] | S n => SCopy i :: shifts n (i - 1) end.
Fixpoint nulls (n : nat) (i mid : Z) : list store := match n with O => [] | S n => SPut (mid + i) None :: nulls n (i + 1) mid end.
(** What the writer does to a block: an insertion, a split, or, when the block
    before it splits, a new back link, which no bracket covers. *)
Inductive wop := WInsert (entry : E) | WSplit (new_block : Z) | WLink (new_block : Z).
Definition stores (op : wop) (b : block) : option (list store) :=
  match op with
  | WInsert entry =>
      left ← search (Z.to_nat (count b)) (λ x, compare_ entry x >? 0) (slots b) 0 (count b);
      Some (SVersion (version b +w 1) :: shifts (Z.to_nat (count b - left)) (count b) ++
            [SPut left (Some entry); SCount (count b +w 1); SVersion (version b +w 1 +w 1)])
  | WSplit new_block =>
      let mid := count b / 2 in
      Some (SVersion (version b +w 1) :: (SCount (u32 mid) :: nulls (Z.to_nat (count b - mid)) 0 mid ++ [SNext new_block]) ++ [SVersion (version b +w 1 +w 1)])
  | WLink new_block => Some [SPrev new_block]
  end.
(** The block after the operation, as [Insert] and [SplitLeafBlock] write it. *)
Definition step (op : wop) (b : block) : option block :=
  match op with
  | WInsert entry =>
      left ← search (Z.to_nat (count b)) (λ x, compare_ entry x >? 0) (slots b) 0 (count b);
      es ← shift_loop (Z.to_nat (count b - left)) (count b) (slots b);
      es ← arr_set es left (Some entry);
      Some (LeafBlock (version b +w 1 +w 1) (count b +w 1) (prev_leaf b) (next_leaf b) es)
  | WSplit new_block =>
      let mid := count b / 2 in
      kept ← null_loop (Z.to_nat (count b - mid)) 0 mid (slots b);
      Some (LeafBlock (version b +w 1 +w 1) (u32 mid) (prev_leaf b) (Some new_block) kept)
  | WLink new_block => Some (set_prev new_block b)
  end.
Fixpoint steps (ops : list wop) (b : block) : option block := match ops with [] => Some b | op :: ops => b ← step op b; steps ops b end.
(** The block after each store, with how many stores to the version there were. *)
Fixpoint runs (t : Z) (ss : list store) (b : block) : option (list (Z * block)) :=
  match ss with
  | [] => Some []
  | s :: ss => b ← apply_store s b; let t := if s is SVersion _ then t + 1 else t in l ← runs t ss b; Some ((t, b) :: l)
  end.
Fixpoint timeline (t : Z) (ops : list wop) (b : block) : option (list (Z * block)) :=
  match ops with
  | [] => Some []
  | op :: ops =>
      ss ← stores op b; l ← runs t ss b;
      let '(t, b) := default (t, b) (last l) in
      rest ← timeline t ops b; Some (l ++ rest)
  end.

(** ** The reader: its [n]-th load comes after [clock n] stores *)
Section Reader.
Context (h : list (Z * block)) (clock : nat → nat).
Definition load (n : nat) : option block := snd <$> h !! clock n.
(** The inner [None]: a null slot, so the reader starts over. *)
Fixpoint search_loads (fuel : nat) (go_right : E → bool) (n : nat) (left right : Z) : option (option (Z * nat)) :=
  if left <? right then
    match fuel with
    | O => None
    | S fuel =>
        let mid := left + (right - left) / 2 in
        b ← load n; e ← arr_get (slots b) mid;
        match e with
        | None => Some None
        | Some x => if go_right x then search_loads fuel go_right (S n) (mid + 1) right else search_loads fuel go_right (S n) left mid
        end
    end
  else Some (Some (left, n)).
(** One round of the [while (true)] of [Seek]: the slot and its entry, [None] to go round again. *)
Definition seek_bracket (fuel : nat) (go_right : E → bool) : option (option (Z * option E)) :=
  b0 ← load 0;
  if Z.odd (version b0) then Some None
  else
    b1 ← load 1;
    let right := count b1 in
    found ← search_loads fuel go_right 2 0 right;
    match found with
    | None => Some None
    | Some (slot, n) =>
        let validate n c := bn ← load n; Some (if version b0 =? version bn then Some (slot, c) else None) in
        if slot <? right then
          b ← load n; candidate ← arr_get (slots b) slot;
          match candidate with None => Some None | Some x => validate (S n) (Some x) end
        else validate n None
    end.
End Reader.

(** ** Whole writes *)
Fixpoint after (ss : list store) (b : block) : option block := match ss with [] => Some b | s :: ss => b ← apply_store s b; after ss b end.
Definition plain (s : store) : Prop := match s with SVersion _ => False | _ => True end.
Definition with_version (v : Z) (b : block) : block := LeafBlock v (count b) (prev_leaf b) (next_leaf b) (slots b).
Definition with_slots (es : list (option E)) (b : block) : block := LeafBlock (version b) (count b) (prev_leaf b) (next_leaf b) es.
Lemma after_app ss1 ss2 b : after (ss1 ++ ss2) b = b ← after ss1 b; after ss2 b.
Proof. revert b. induction ss1 as [|s ss1 IH]; intros b; [done|]. cbn [app after]. destruct (apply_store s b); cbn [mbind option_bind]; [apply IH|done]. Qed.
Lemma after_shifts n i b : after (shifts n i) b = es ← shift_loop n i (slots b); Some (with_slots es b).
Proof.
  revert i b. induction n as [|n IH]; intros i b; [by destruct b|]. cbn [shifts after apply_store shift_loop].
  destruct (arr_get (slots b) (i - 1)); cbn [mbind option_bind]; [|done]. destruct (arr_set _ _ _); cbn [mbind option_bind]; [|done]. by rewrite IH.
Qed.
Lemma after_nulls n i mid b : after (nulls n i mid) b = es ← null_loop n i mid (slots b); Some (with_slots es b).
Proof.
  revert i b. induction n as [|n IH]; intros i b; [by destruct b|]. cbn [nulls after apply_store null_loop].
  destruct (arr_set _ _ _); cbn [mbind option_bind]; [|done]. by rewrite IH.
Qed.
Lemma plain_shifts n i : Forall plain (shifts n i).
Proof. revert i. induction n; intros i; by repeat constructor. Qed.
Lemma plain_nulls n i mid : Forall plain (nulls n i mid).
Proof. revert i. induction n; intros i; by repeat constructor. Qed.
(** An operation's stores: one bracket, which does what [step] says. *)
Lemma bracketed op b ss :
  stores op b = Some ss →
  (∃ a, op = WLink a ∧ ss = [SPrev a]) ∨
  ∃ pay, ss = SVersion (version b +w 1) :: pay ++ [SVersion (version b +w 1 +w 1)] ∧ Forall plain pay ∧
    step op b = with_version (version b +w 1 +w 1) <$> after pay (with_version (version b +w 1) b).
Proof.
  destruct op as [entry|a|a]; cbn [stores step]; [| |left; exists a; split; [done|congruence]].
  - destruct (search _ _ _ _ _) as [lo|]; cbn [mbind option_bind]; [|done]. intros [= <-]. right.
    exists (shifts (Z.to_nat (count b - lo)) (count b) ++ [SPut lo (Some entry); SCount (count b +w 1)]). rewrite <- app_assoc. split; [done|].
    split; [apply Forall_app; split; [apply plain_shifts|by repeat constructor]|]. rewrite after_app, after_shifts. cbn [slots with_version].
    destruct (shift_loop _ _ _) as [es|]; cbn [mbind option_bind after apply_store slots with_slots]; [|done]. by destruct (arr_set _ _ _).
  - intros [= <-]. right. exists (SCount (u32 (count b / 2)) :: nulls (Z.to_nat (count b - count b / 2)) 0 (count b / 2) ++ [SNext a]). split; [done|].
    split; [constructor; [done|]; apply Forall_app; split; [apply plain_nulls|by repeat constructor]|].
    cbn [after apply_store mbind option_bind]. rewrite after_app, after_nulls. cbn [slots with_version]. by destruct (null_loop _ _ _ _).
Qed.

(** ** What the timeline is *)
(** What a bracket covers: all but the back link. *)
Definition body (b : block) : Z * Z * option Z * list (option E) := (version b, count b, next_leaf b, slots b).
Lemma runs_app t ss1 ss2 b l :
  runs t (ss1 ++ ss2) b = Some l → ∃ l1 l2, l = l1 ++ l2 ∧ runs t ss1 b = Some l1 ∧ let '(t, b) := default (t, b) (last l1) in runs t ss2 b = Some l2.
Proof.
  revert t b l. induction ss1 as [|s ss1 IH]; intros t b l; [intros Hr; by exists [], l|]. cbn [app runs].
  destruct (apply_store s b) as [b1|]; cbn [mbind option_bind]; [|done]. set (t1 := match s with SVersion _ => _ | _ => _ end).
  destruct (runs t1 (ss1 ++ ss2) b1) as [l0|] eqn:Hr; cbn [mbind option_bind]; [|done]. intros [= <-].
  destruct (IH _ _ _ Hr) as (l1 & l2 & -> & -> & Hl). exists ((t1, b1) :: l1), l2. split; [done|]. split; [done|].
  rewrite last_cons. by destruct (last l1).
Qed.
Lemma runs_plain t ss b l :
  Forall plain ss → runs t ss b = Some l → Forall (λ p, p.1 = t ∧ version p.2 = version b) l ∧ default (t, b) (last l) = (t, default b (after ss b)) ∧ is_Some (after ss b).
Proof.
  intros Hp. revert b l. induction Hp as [|s ss Hs _ IH]; intros b l; cbn [runs after]; [intros [= <-]; by repeat split|].
  destruct (apply_store s b) as [b1|] eqn:Ha; cbn [mbind option_bind]; [|done]. assert (version b1 = version b) as Hv.
  { destruct s; cbn [apply_store] in Ha; [done|simplify_option_eq; done..]. }
  replace (match s with SVersion _ => t + 1 | _ => t end) with t by (by destruct s). destruct (runs t ss b1) as [l0|] eqn:Hr; cbn [mbind option_bind]; [|done]. intros [= <-].
  destruct (IH _ _ Hr) as (Hf & Hl & Hs'). rewrite Hv in Hf. split; [by constructor|]. split; [|done]. destruct Hs' as [b2 Hb2]. rewrite Hb2 in *. rewrite last_cons. by destruct (last l0).
Qed.
Lemma runs_op t op b ss l :
  stores op b = Some ss → runs t ss b = Some l →
  ∃ mids t' b', l = mids ++ [(t', b')] ∧ step op b = Some b' ∧ Forall (λ p, p.1 = t + 1 ∧ version p.2 = version b +w 1) mids ∧
    (t' = t ∧ mids = [] ∧ body b' = body b ∨ t' = t + 2 ∧ version b' = version b +w 1 +w 1).
Proof.
  intros Hst Hr. destruct (bracketed _ _ _ Hst) as [(a & -> & ->)|(pay & -> & Hp & ->)].
  - injection Hr as <-. exists [], t, (set_prev a b). split; [done|]. split; [done|]. split; [done|]. by left.
  - cbn [runs apply_store mbind option_bind] in Hr. fold (with_version (version b +w 1) b) in Hr. destruct (runs (t + 1) _ _) as [l0|] eqn:Hr0; cbn [mbind option_bind] in Hr; [|done].
    injection Hr as <-. destruct (runs_app _ _ _ _ _ Hr0) as (l1 & l2 & -> & Hr1 & Hr2). destruct (runs_plain _ _ _ _ Hp Hr1) as (Hf & Hl & [b1 Hb1]).
    rewrite Hl, Hb1 in Hr2. cbn [default from_option id runs apply_store mbind option_bind] in Hr2. injection Hr2 as <-. rewrite Hb1.
    exists ((t + 1, with_version (version b +w 1) b) :: l1), (t + 1 + 1), (with_version (version b +w 1 +w 1) b1). split; [done|]. split; [done|]. split; [by constructor|].
    right. split; [lia|done].
Qed.
Record timed (t : Z) (ops : list wop) (b : block) (h : list (Z * block)) : Prop := {
  tm_versions : Forall (λ p, version p.2 = u32 p.1 ∧ t <= p.1 <= t + 2 * Z.of_nat (length ops)) h;
  tm_sorted : StronglySorted (λ p q, p.1 <= q.1) h;
  tm_quiet : ∀ p, p ∈ h → Z.even p.1 = true → ∃ ops1 ops2 s, ops = ops1 ++ ops2 ∧ steps ops1 b = Some s ∧ body s = body p.2;
  tm_same : ∀ p q, p ∈ h → q ∈ h → p.1 = q.1 → Z.even p.1 = true → body p.2 = body q.2;
}.
Lemma const_sorted (t v : Z) (l : list (Z * block)) : Forall (λ p, p.1 = t ∧ version p.2 = v) l → StronglySorted (λ p q, p.1 <= q.1) l.
Proof. induction 1 as [|p l [Hp _] Hl IH]; constructor; [done|]. eapply Forall_impl; [exact Hl|]. intros q [Hq _]. cbn beta. lia. Qed.
Lemma timed_step t op ops b mids t' b' rest :
  version b = u32 t → Z.even t = true → step op b = Some b' → Forall (λ p, p.1 = t + 1 ∧ version p.2 = version b +w 1) mids →
  (t' = t ∧ mids = [] ∧ body b' = body b ∨ t' = t + 2 ∧ version b' = version b +w 1 +w 1) → timed t' ops b' ((t', b') :: rest) →
  timed t (op :: ops) b ((t, b) :: (mids ++ [(t', b')]) ++ rest).
Proof.
  intros Hv Ht Hstep Hm Hcase [Iv Is Iq Im]. rewrite <- app_assoc. cbn [app]. set (tail := (t', b') :: rest) in *.
  assert (t <= t' <= t + 2) as Htt by (destruct Hcase; lia).
  assert (Forall (λ p, t' <= p.1) tail) as Hge by (eapply Forall_impl; [exact Iv|]; cbn; lia).
  assert (∀ p, p ∈ mids → Z.even p.1 = true → False) as Hodd.
  { intros p Hp. rewrite Forall_forall in Hm. destruct (Hm p Hp) as [-> _]. by rewrite Z.even_add, Ht. }
  split.
  - constructor; [split; [done|cbn; lia]|]. apply Forall_app. split.
    + eapply Forall_impl; [exact Hm|]. intros p [Hp1 Hp2]. cbn [length]. split; [rewrite Hp2, Hp1, Hv; unfold u32; by rewrite Z.add_mod_idemp_l|lia].
    + eapply Forall_impl; [exact Iv|]. intros p [? ?]. cbn [length]. split; [done|lia].
  - constructor.
    + apply StronglySorted_app. split_and!; [|by eapply const_sorted|done]. intros p q Hp Hq. rewrite Forall_forall in Hm, Hge. destruct (Hm p Hp) as [-> _].
      specialize (Hge q Hq). destruct Hcase as [(_ & -> & _)|[-> _]]; [by apply elem_of_nil in Hp|lia].
    + apply Forall_app. split; [eapply Forall_impl; [exact Hm|]; intros p [-> _]; cbn; lia|]. eapply Forall_impl; [exact Hge|]. intros p Hp. cbn in Hp |- *. lia.
  - intros p [->|[Hp|Hp]%elem_of_app]%elem_of_cons Hev; [by exists [], (op :: ops), b|by destruct (Hodd p Hp)|].
    destruct (Iq p Hp Hev) as (ops1 & ops2 & s & -> & Hs & Hb). exists (op :: ops1), ops2, s. split; [done|]. cbn [steps]. by rewrite Hstep.
  - assert (∀ q, q ∈ tail → q.1 = t → body q.2 = body b) as Hfirst.
    { intros q Hq Hqt. pose proof (proj1 (Forall_forall _ _) Hge q Hq) as Hq'. cbn in Hq'. destruct Hcase as [(-> & _ & Hb)|[-> _]]; [|lia].
      rewrite <- Hb. apply (Im q (t, b')); [done|by left|done|by rewrite Hqt]. }
    intros p q [->|[Hp|Hp]%elem_of_app]%elem_of_cons [->|[Hq|Hq]%elem_of_app]%elem_of_cons Heq Hev; cbn [fst snd] in *; try done.
    + rewrite Heq in Hev. by destruct (Hodd q Hq).
    + symmetry. by apply Hfirst.
    + by destruct (Hodd p Hp).
    + by destruct (Hodd p Hp).
    + by destruct (Hodd p Hp).
    + by apply Hfirst.
    + rewrite Heq in Hev. by destruct (Hodd q Hq).
    + by apply Im.
Qed.
Lemma timeline_timed t ops b h :
  version b = u32 t → Z.even t = true → timeline t ops b = Some h → timed t ops b ((t, b) :: h).
Proof.
  revert t b h. induction ops as [|op ops IH]; intros t b h Hv Ht; cbn [timeline].
  - intros [= <-]. split.
    + repeat constructor; [done|cbn; lia..].
    + by repeat constructor.
    + intros p ->%list_elem_of_singleton _. by exists [], [], b.
    + by intros p q ->%list_elem_of_singleton ->%list_elem_of_singleton.
  - destruct (stores op b) as [ss|] eqn:Hst; cbn [mbind option_bind]; [|done]. destruct (runs t ss b) as [l|] eqn:Hr; cbn [mbind option_bind]; [|done].
    destruct (runs_op _ _ _ _ _ Hst Hr) as (mids & t' & b' & -> & Hstep & Hm & Hcase). rewrite last_snoc. cbn [default from_option id].
    destruct (timeline t' ops b') as [rest|] eqn:Htl; cbn [mbind option_bind]; [|done]. intros [= <-].
    assert (version b' = u32 t' ∧ Z.even t' = true) as [Hv' Ht'].
    { destruct Hcase as [(-> & _ & Hb)|[-> Hb]]; [split; [|done]; injection Hb; congruence|]. split; [rewrite Hb, Hv; apply u32_two|]. by rewrite Z.even_add, Ht. }
    apply (timed_step t op ops b mids t' b' rest); [done..|]. by apply IH.
Qed.

(** ** A validated bracket *)
Lemma search_loads_le h clock fuel go n lo hi slot n' : search_loads h clock fuel go n lo hi = Some (Some (slot, n')) → (n <= n')%nat.
Proof.
  revert n lo hi. induction fuel as [|fuel IH]; intros n lo hi; cbn [search_loads]; destruct (lo <? hi); try done; try (intros [= _ <-]; done).
  destruct (load h clock n); cbn [mbind option_bind]; [|done]. destruct (arr_get _ _) as [[x|]|]; cbn [mbind option_bind]; try done.
  destruct (go x); intros Hs%IH; lia.
Qed.
Lemma u32_even v : Z.even (u32 v) = Z.even v.
Proof. unfold u32. rewrite (Z.div_mod v (2 ^ 32)) at 2 by done. rewrite Z.even_add, Z.even_mul. by destruct (Z.even (v mod 2 ^ 32)). Qed.
Section Validated.
Context (t : Z) (ops : list wop) (b : block) (h : list (Z * block)) (clock : nat → nat).
Context (Ht : timed t ops b h) (Hn : 2 * Z.of_nat (length ops) < 2 ^ 32) (Hclock : ∀ m n, (m <= n)%nat → (clock m <= clock n)%nat).
Lemma search_snapshot fuel go n lo hi slot n' es :
  search_loads h clock fuel go n lo hi = Some (Some (slot, n')) → (∀ k b', (n <= k < n')%nat → load h clock k = Some b' → slots b' = es) →
  (n <= n')%nat ∧ search fuel go es lo hi = Some slot.
Proof.
  revert n lo hi. induction fuel as [|fuel IH]; intros n lo hi; cbn [search_loads search]; destruct (lo <? hi); try done; try (intros [= <- <-]; done).
  destruct (load h clock n) as [bn|] eqn:Hl; cbn [mbind option_bind]; [|done]. destruct (arr_get (slots bn) _) as [[x|]|] eqn:Hg; cbn [mbind option_bind]; try done.
  intros Hs Hes. assert (∀ lo' hi', search_loads h clock fuel go (S n) lo' hi' = Some (Some (slot, n')) → (n <= n')%nat ∧ search fuel go es lo' hi' = Some slot) as Hrec.
  { intros lo' hi' Hs'. assert (S n <= n')%nat as Hle by (by eapply search_loads_le). destruct (IH _ _ _ Hs') as [_ Hse]; [|split; [lia|done]].
    intros k b' Hk. apply Hes. lia. }
  assert (slots bn = es) as Hbn.
  { apply (Hes n); [|done]. destruct (go x); apply search_loads_le in Hs; lia. }
  rewrite <- Hbn in Hrec |- *. rewrite Hg. cbn [mbind option_bind]. destruct (go x); by apply Hrec.
Qed.
(** Loads between two of one even version see one block. *)
Lemma loads_between m k n bm bk bn :
  (m <= k <= n)%nat → load h clock m = Some bm → load h clock k = Some bk → load h clock n = Some bn →
  version bm = version bn → Z.odd (version bm) = false → body bk = body bm.
Proof.
  intros Hmk Hm Hk Hnn Hv Ho. unfold load in *. destruct (h !! clock m) as [[tm ?]|] eqn:Em, (h !! clock k) as [[tk ?]|] eqn:Ek, (h !! clock n) as [[tn ?]|] eqn:En; try done.
  injection Hm as ->. injection Hk as ->. injection Hnn as ->. pose proof (tm_versions _ _ _ _ Ht) as Hvs.
  destruct (Forall_lookup_1 _ _ _ _ Hvs Em) as [Hvm Hrm], (Forall_lookup_1 _ _ _ _ Hvs En) as [Hvn Hrn]. cbn [fst snd] in *.
  assert (tm = tn) as <- by (rewrite Hvm, Hvn in Hv; unfold u32 in Hv; Z.to_euclidean_division_equations; lia).
  assert (∀ i j p q, h !! i = Some p → h !! j = Some q → (i <= j)%nat → p.1 <= q.1) as tm_le.
  { intros i j p q Hp Hq [Hij| ->]%Nat.lt_eq_cases; [|rewrite Hp in Hq; injection Hq as <-; lia]. exact (sorted_lookup _ h i j p q (tm_sorted _ _ _ _ Ht) Hp Hq Hij). }
  pose proof (tm_le _ _ _ _ Em Ek ltac:(apply Hclock; lia)) as H1. pose proof (tm_le _ _ _ _ Ek En ltac:(apply Hclock; lia)) as H2. cbn [fst] in *.
  assert (tk = tm) as -> by lia. apply (tm_same _ _ _ _ Ht (tm, bk) (tm, bm)); [by eapply list_elem_of_lookup_2..|done|]. cbn [fst].
  rewrite Hvm in Ho. by rewrite <- u32_even, <- Z.negb_odd, Ho.
Qed.
Lemma body_parts b1 b2 : body b1 = body b2 → count b1 = count b2 ∧ slots b1 = slots b2.
Proof. unfold body. by intros [= _ -> _ ->]. Qed.
Lemma bracket_snapshot fuel go slot c :
  seek_bracket h clock fuel go = Some (Some (slot, c)) →
  ∃ b0, load h clock 0 = Some b0 ∧ Z.odd (version b0) = false ∧ search fuel go (slots b0) 0 (count b0) = Some slot ∧
    (if slot <? count b0 then arr_get (slots b0) slot = Some c ∧ is_Some c else c = None).
Proof.
  unfold seek_bracket. destruct (load h clock 0) as [b0|] eqn:H0; cbn [mbind option_bind]; [|done]. destruct (Z.odd (version b0)) eqn:Hodd; [done|].
  destruct (load h clock 1) as [b1|] eqn:H1; cbn [mbind option_bind]; [|done]. destruct (search_loads h clock fuel go 2 0 (count b1)) as [[[s n]|]|] eqn:Hs; cbn [mbind option_bind]; try done.
  pose proof (search_loads_le _ _ _ _ _ _ _ _ _ Hs) as Hle.
  assert (∀ m bm, (n <= m)%nat → load h clock m = Some bm → version b0 = version bm →
    search fuel go (slots b0) 0 (count b0) = Some s ∧ count b1 = count b0 ∧ ∀ k bk, (k <= m)%nat → load h clock k = Some bk → slots bk = slots b0) as Hval.
  { intros m bm Hm Hbm Hv. assert (∀ k bk, (k <= m)%nat → load h clock k = Some bk → body bk = body b0) as Hall by (intros k bk Hk Hbk; apply (loads_between 0 k m b0 bk bm); (done || lia)).
    destruct (body_parts _ _ (Hall 1%nat b1 ltac:(lia) H1)) as [Hc1 _]. assert (∀ k bk, (k <= m)%nat → load h clock k = Some bk → slots bk = slots b0) as Hsl by (intros k bk Hk Hbk; by apply body_parts, (Hall k)).
    split; [|done]. rewrite <- Hc1. apply (search_snapshot fuel go 2 0 (count b1) s n (slots b0) Hs). intros k bk Hk. apply Hsl. lia. }
  intros Hq. exists b0. split; [done|]. split; [done|]. destruct (s <? count b1) eqn:Hlt.
  - destruct (load h clock n) as [bn|] eqn:Hbn; cbn [mbind option_bind] in Hq; [|done]. destruct (arr_get (slots bn) s) as [[x|]|] eqn:Hg; cbn [mbind option_bind] in Hq; try done.
    destruct (load h clock (S n)) as [bm|] eqn:Hbm; cbn [mbind option_bind] in Hq; [|done]. destruct (Z.eqb_spec (version b0) (version bm)) as [Hv|]; [|done].
    injection Hq as <- <-. destruct (Hval (S n) bm ltac:(lia) Hbm Hv) as (Hse & Hc1 & Hsl). rewrite <- Hc1 in Hse |- *. rewrite Hlt, <- (Hsl n bn) in * by (done || lia). eauto.
  - destruct (load h clock n) as [bm|] eqn:Hbm; cbn [mbind option_bind] in Hq; [|done]. destruct (Z.eqb_spec (version b0) (version bm)) as [Hv|]; [|done].
    injection Hq as <- <-. destruct (Hval n bm ltac:(lia) Hbm Hv) as (Hse & Hc1 & Hsl). rewrite <- Hc1 in Hse |- *. by rewrite Hlt.
Qed.
End Validated.

(** C13: a validated bracket reads between writes.  Whatever insertions, splits and
    relinkings the writer does to a block, and however its stores fall among the
    loads of a reader's bracket (version, count, each probe of the binary search,
    the candidate, version again): if the bracket validates, its slot and its entry
    are what the search finds in the block as a whole number of the operations
    left it, never in the middle of a shift or a split.  Fewer than 2^31 operations
    must fall in one bracket, or the 32-bit version wraps unseen. *)
Theorem bracket_linearizes t ops b h clock fuel go slot c :
  version b = u32 t → Z.even t = true → timeline t ops b = Some h → 2 * Z.of_nat (length ops) < 2 ^ 32 → (∀ m n, (m <= n)%nat → (clock m <= clock n)%nat) →
  seek_bracket ((t, b) :: h) clock fuel go = Some (Some (slot, c)) →
  ∃ ops1 ops2 s, ops = ops1 ++ ops2 ∧ steps ops1 b = Some s ∧ search fuel go (slots s) 0 (count s) = Some slot ∧
    (if slot <? count s then arr_get (slots s) slot = Some c ∧ is_Some c else c = None).
Proof.
  intros Hv Ht Hh Hn Hclock Hs. pose proof (timeline_timed _ _ _ _ Hv Ht Hh) as Htm. destruct (bracket_snapshot _ _ _ _ _ Htm Hn Hclock _ _ _ _ Hs) as (b0 & H0 & Hodd & Hse & Hc).
  unfold load in H0. destruct (((t, b) :: h) !! clock 0%nat) as [[t0 ?]|] eqn:E0; [|done]. injection H0 as ->.
  destruct (Forall_lookup_1 _ _ _ _ (tm_versions _ _ _ _ Htm) E0) as [Hv0 _]. cbn [fst snd] in Hv0.
  destruct (tm_quiet _ _ _ _ Htm (t0, b0)) as (ops1 & ops2 & s & -> & Hst & Hb); [by eapply list_elem_of_lookup_2|cbn [fst]; by rewrite <- u32_even, <- Hv0, <- Z.negb_odd, Hodd|].
  destruct (body_parts _ _ Hb) as [Hcs Hss]. cbn [snd] in *. exists ops1, ops2, s. rewrite Hcs, Hss. done.
Qed.

(** A round that no store interrupts ends the loop. *)
Lemma idle_search h k t b fuel go n lo hi slot :
  h !! k = Some (t, b) → search fuel go (slots b) lo hi = Some slot → ∃ n', search_loads h (λ _, k) fuel go n lo hi = Some (Some (slot, n')).
Proof.
  intros Hl. revert n lo hi. induction fuel as [|fuel IH]; intros n lo hi; cbn [search search_loads]; destruct (lo <? hi); try done; try (intros [= <-]; by eexists).
  unfold load. rewrite Hl. cbn [fmap option_fmap option_map snd mbind option_bind]. destruct (arr_get _ _) as [[x|]|]; cbn [mbind option_bind]; [|done..]. destruct (go x); apply IH.
Qed.
Lemma idle_round h k t b fuel go slot :
  h !! k = Some (t, b) → Z.odd (version b) = false → search fuel go (slots b) 0 (count b) = Some slot → (slot < count b → ∃ x, arr_get (slots b) slot = Some (Some x)) →
  ∃ c, seek_bracket h (λ _, k) fuel go = Some (Some (slot, c)).
Proof.
  intros Hl Ho Hs Hc. unfold seek_bracket. assert (∀ n, load h (λ _, k) n = Some b) as Hld by (intros; unfold load; by rewrite Hl). rewrite !Hld. cbn [mbind option_bind]. rewrite Ho.
  destruct (idle_search h k t b fuel go 2 0 (count b) slot Hl Hs) as [n ->]. cbn [mbind option_bind]. rewrite !Hld. cbn [mbind option_bind]. rewrite Z.eqb_refl.
  destruct (Z.ltb_spec slot (count b)) as [Hlt|]; [|by eexists]. destruct (Hc Hlt) as [x ->]. by eexists.
Qed.
(** The stores are those of [RocksTable]'s writer. *)
Lemma insert_writes {M} `{!ExpanseMap M, !ExpanseMapPrev M} new_addr e (r r' : rep (E := E) (M := M)) blk b :
  FindLeafBlockForInsert r e = Some blk → heap r !! blk = Some b → Insert new_addr e r = Some r' →
  ∃ b1, step (WInsert e) b = Some b1 ∧ (heap r' !! blk = Some b1 ∨ ∃ a b2, step (WSplit a) b1 = Some b2 ∧ heap r' !! blk = Some b2).
Proof.
  intros Hf Hb. unfold Insert. rewrite Hf. cbn [mbind option_bind]. rewrite Hb. cbn [mbind option_bind step].
  destruct (search _ _ _ _ _) as [lo|]; cbn [mbind option_bind]; [|done]. destruct (shift_loop _ _ _) as [es|]; cbn [mbind option_bind]; [|done].
  destruct (arr_set _ _ _) as [es1|]; cbn [mbind option_bind]; [|done]. remember (LeafBlock _ _ _ _ es1) as b1 eqn:Hb1.
  destruct (if lo =? 0 then _ else _) as [trie|]; cbn [mbind option_bind]; [|done]. intros Hr. exists b1. split; [by rewrite Hb1|]. clear Hb1.
  destruct (count b1 >=? _); [|injection Hr as <-; left; cbn [heap]; apply lookup_insert_eq]. right. revert Hr. unfold SplitLeafBlock. cbn [heap]. rewrite lookup_insert_eq.
  cbn [mbind option_bind]. set (a := new_addr _). destruct (move_loop _ _ _ _ _); cbn [mbind option_bind]; [|done].
  destruct (null_loop _ _ _ _) as [kept|]; cbn [mbind option_bind]; [|done].
  destruct (match next_leaf b1 with Some _ => _ | None => _ end) as [[h1 tl]|]; cbn [mbind option_bind]; [|done].
  destruct (if u32 _ >? 0 then _ else _); cbn [mbind option_bind]; [|done]. intros [= <-]. exists a. eexists. split; [done|]. cbn [heap]. apply lookup_insert_eq.
Qed.
End Seqlock.

(** A block of two entries, a writer that inserts between them, relinks and splits
    the block, and a reader whose bracket falls around the relinking. *)
Module Sample.
Definition e (u : Z) (H : entry_ok [u] 1 1 (Some [u]) = true) : entry := Entry [u] 1 1 (Some [u]) H.
Definition b := LeafBlock 6 2 None None (Some (e 97 eq_refl) :: Some (e 99 eq_refl) :: replicate 62 None).
Definition ops := [WInsert (e 98 eq_refl); WLink 7; WSplit 9].
Definition go (x : entry) : bool := compare_ x (e 98 eq_refl) <? 0.
Definition clock (n : nat) : nat := if (n <? 3)%nat then 5%nat else 6%nat.
End Sample.
Lemma bracket_linearizes_witness :
  ∃ h ops1 ops2 s, timeline 6 Sample.ops Sample.b = Some h ∧ seek_bracket ((6, Sample.b) :: h) Sample.clock 3 Sample.go = Some (Some (1, Some (Sample.e 98 eq_refl))) ∧
    Sample.ops = ops1 ++ ops2 ∧ steps ops1 Sample.b = Some s ∧ search 3 Sample.go (slots s) 0 (count s) = Some 1.
Proof.
  assert (match timeline 6 Sample.ops Sample.b with Some h => seek_bracket ((6, Sample.b) :: h) Sample.clock 3 Sample.go | None => None end = Some (Some (1, Some (Sample.e 98 eq_refl)))) as Hs
    by (vm_compute; reflexivity).
  destruct (timeline 6 Sample.ops Sample.b) as [h|] eqn:Hh; [|discriminate].
  destruct (bracket_linearizes 6 Sample.ops Sample.b h Sample.clock 3 Sample.go 1 (Some (Sample.e 98 eq_refl))) as (ops1 & ops2 & s & Ho & Hst & Hse & _);
    [reflexivity|reflexivity|exact Hh|reflexivity| |exact Hs|].
  - intros m n Hmn. unfold Sample.clock. destruct (Nat.ltb_spec m 3), (Nat.ltb_spec n 3); lia.
  - exists h, ops1, ops2, s. auto 10.
Defined.
