(* ===== verification/RocksRaces.v ===== *)
(** * A step across blocks, interrupted by insertions

    [Next] and [Prev] of the cursor validate the block they leave and follow its
    link afterwards.  Here each is cut at that point
    ([src/integrations/rocksdb/src/expanse_memtable.cc], [IteratorImpl::Next] and
    [Prev]), insertions run in between, and the theorems say where the step ends:
    where it should if the block's last entry stays in it, and otherwise at or
    before the entry the cursor was on, which the scan then reports a second time
    ([Next]), or past entries never reported ([Prev]). *)
From stdpp Require Import base numbers list sorting gmap.
From S2P Require Import Prelude SortedAssoc ExpanseApi Sync32 EngineViews RocksKeys RocksTable RocksIter RocksChain RocksEntries RocksLookup RocksCursor RocksBatch.
Open Scope Z_scope.

Section Races.
Context {E : Type} `{KeyComparatorLaws E} {M : Type} `{ExpanseMapPrevLaws M}.
Implicit Types (r : rep (E := E) (M := M)) (nodes : list (node E)) (e x y : E) (it : iter (E := E)).

(** ** The two halves *)
(** Up to [continue] ([None]), [return] ([inl]) or the load of [leaf->next_leaf] ([inr]). *)
Definition next_read r it : option (iter (E := E) + Z * iter (E := E)) :=
  '(ok, it) ← RevalidatePosition r it;
  if negb ok then Some (inl (set_valid false it))
  else
    let it := InvalidateCache it in
    leaf ← current_leaf_ it;
    b ← heap r !! leaf;
    let v := anchor_version_ it in
    let slot := current_slot_ it + 1 in
    entry ← (if slot <? count b then arr_get (slots b) slot else Some None);
    if negb (version b =? v) || (slot <? count b) && match entry with None => true | Some _ => false end then None
    else if slot <? count b then entry ← entry; Some (inl (SetPosition leaf slot v entry it))
    else Some (inr (leaf, it)).
Definition next_follow r (p : Z * iter (E := E)) : option (iter (E := E)) :=
  b ← heap r !! p.1;
  snd <$> PositionAtEdge (size (heap r)) (heap r) (next_leaf b) true p.2.
(** Likewise, up to and with the load of [leaf->prev_leaf]. *)
Definition prev_read r it : option (iter (E := E) + option Z * iter (E := E)) :=
  '(ok, it) ← RevalidatePosition r it;
  if negb ok then Some (inl (set_valid false it))
  else
    let it := InvalidateCache it in
    leaf ← current_leaf_ it;
    b ← heap r !! leaf;
    let v := anchor_version_ it in
    let slot := current_slot_ it - 1 in
    entry ← (if slot >=? 0 then arr_get (slots b) slot else Some None);
    if negb (version b =? v) || (slot >=? 0) && match entry with None => true | Some _ => false end then None
    else if slot >=? 0 then entry ← entry; Some (inl (SetPosition leaf slot v entry it))
    else Some (inr (prev_leaf b, it)).
Definition prev_follow r (p : option Z * iter (E := E)) : option (iter (E := E)) :=
  snd <$> PositionAtEdge (size (heap r)) (heap r) p.1 false p.2.
(** Uninterrupted, they are the operations. *)
Lemma next_halves r it : Next 1 r it = (s ← next_read r it; match s with inl it => Some it | inr p => next_follow r p end).
Proof.
  cbn [Next]. unfold next_read, next_follow. destruct (RevalidatePosition r it) as [[ok it0]|]; cbn [mbind option_bind]; [|done]. destruct ok; cbn [negb]; [|done].
  destruct (current_leaf_ (InvalidateCache it0)) as [leaf|]; cbn [mbind option_bind]; [|done]. destruct (heap r !! leaf) as [b|] eqn:Hb; cbn [mbind option_bind]; [|done].
  destruct (if _ <? _ then _ else _) as [entry|]; cbn [mbind option_bind]; [|done]. destruct (_ || _); [done|]. destruct (_ <? _); [by destruct entry|].
  cbn [mbind option_bind fst snd]. by rewrite Hb.
Qed.
Lemma prev_halves r it : Prev 1 r it = (s ← prev_read r it; match s with inl it => Some it | inr p => prev_follow r p end).
Proof.
  cbn [Prev]. unfold prev_read, prev_follow. destruct (RevalidatePosition r it) as [[ok it0]|]; cbn [mbind option_bind]; [|done]. destruct ok; cbn [negb]; [|done].
  destruct (current_leaf_ (InvalidateCache it0)) as [leaf|]; cbn [mbind option_bind]; [|done]. destruct (heap r !! leaf) as [b|]; cbn [mbind option_bind]; [|done].
  destruct (if _ >=? 0 then _ else _) as [entry|]; cbn [mbind option_bind]; [|done]. destruct (_ || _); [done|]. destruct (_ >=? _); [by destruct entry|done].
Qed.

(** ** Where the first half stops *)
Section Chain.
Context r nodes (Hc : chain_ok r nodes) (Hsm : Forall (λ n : node E, n_ver n < 2 ^ 32) nodes) (Hlt : StronglySorted lt (contents nodes)).
Lemma next_read_spec it e c1 c2 leaf it1 :
  contents nodes = c1 ++ e :: c2 → anchored nodes it e → next_read r it = Some (inr (leaf, it1)) →
  ∃ l n rr a, nodes = l ++ n :: rr ∧ n_addr n = leaf ∧ n_es n = a ++ [e].
Proof.
  intros Hcont Ha. destruct (revalidate_spec r nodes it e c1 c2 Hc Hsm Hcont Hlt Ha) as (it0 & Hrev & l & n & rr & a & b & Hn & Hes & _ & _ & Hl & Hs & _ & Hver & _).
  unfold next_read. rewrite Hrev. cbn [mbind option_bind negb]. cbn [current_leaf_ InvalidateCache]. rewrite Hl. cbn [mbind option_bind].
  pose proof (ch_seg _ _ _ Hc) as Hseg. rewrite Hn in Hseg. rewrite (dlseg_lookup _ _ _ _ _ _ Hseg). cbn [mbind option_bind current_slot_ anchor_version_ count slots version blk InvalidateCache].
  destruct (_ <? _) eqn:Hslot; [destruct (arr_get _ _) as [[x|]|]; cbn [mbind option_bind]; by repeat case_match|].
  cbn [mbind option_bind]. case_match; [done|]. intros [= <- _]. exists l, n, rr, a. split; [done|]. split; [done|]. rewrite Hes. f_equal. f_equal.
  apply Z.ltb_ge in Hslot. rewrite Hs, Hes, length_app in Hslot. destruct b; [done|]. cbn [length] in Hslot. lia.
Qed.
Lemma prev_read_spec it e c1 c2 p it1 :
  contents nodes = c1 ++ e :: c2 → anchored nodes it e → prev_read r it = Some (inr (p, it1)) →
  ∃ l n rr b, nodes = l ++ n :: rr ∧ p = last_addr l None ∧ n_es n = e :: b.
Proof.
  intros Hcont Ha. destruct (revalidate_spec r nodes it e c1 c2 Hc Hsm Hcont Hlt Ha) as (it0 & Hrev & l & n & rr & a & b & Hn & Hes & _ & _ & Hl & Hs & _ & Hver & _).
  unfold prev_read. rewrite Hrev. cbn [mbind option_bind negb]. cbn [current_leaf_ InvalidateCache]. rewrite Hl. cbn [mbind option_bind].
  pose proof (ch_seg _ _ _ Hc) as Hseg. rewrite Hn in Hseg. rewrite (dlseg_lookup _ _ _ _ _ _ Hseg). cbn [mbind option_bind current_slot_ anchor_version_ count slots version prev_leaf blk InvalidateCache].
  destruct (_ >=? 0) eqn:Hslot; [destruct (arr_get _ _) as [[x|]|]; cbn [mbind option_bind]; by repeat case_match|].
  cbn [mbind option_bind]. case_match; [done|]. intros [= <- _]. exists l, n, rr, b. split; [done|]. split; [done|].
  rewrite Z.geb_leb, Z.leb_gt, Hs in Hslot. destruct a; [done|]. cbn [length] in Hslot. lia.
Qed.
End Chain.
(** Where the second half ends, from a block of the chain. *)
Lemma next_follow_spec r nodes l n rr it :
  chain_ok r nodes → nodes = l ++ n :: rr → ∃ it', next_follow r (n_addr n, it) = Some it' ∧
    match contents rr with [] => valid_ it' = false | y :: c => valid_ it' = true ∧ anchor_entry_ it' = Some y ∧ RocksCursor.placed nodes it' y (contents (l ++ [n])) c end.
Proof.
  intros Hc Hn. unfold next_follow. cbn [fst snd]. pose proof (ch_seg _ _ _ Hc) as Hseg. rewrite Hn in Hseg. rewrite (dlseg_lookup _ _ _ _ _ _ Hseg). cbn [mbind option_bind next_leaf blk].
  apply dlseg_app in Hseg as [_ [_ Hseg]]. pose proof (chain_blocks _ _ _ Hc) as Hb. rewrite Hn in Hb. apply Forall_app in Hb as [_ [_ Hb]%Forall_cons].
  assert (length rr <= size (heap r))%nat as Hf by (rewrite (ch_size _ _ _ Hc), Hn, length_app; cbn [length]; lia).
  destruct (edge_fwd _ _ (l ++ [n]) rr _ it Hseg Hb Hf) as (ok & it' & -> & Hm). exists it'. split; [done|].
  destruct (contents rr) as [|y c]; destruct Hm as [_ Hm]; [apply Hm|]. rewrite <- app_assoc in Hm. cbn [app] in Hm. rewrite <- Hn in Hm.
  pose proof Hm as (?&?&?&?&?&_&_&_&_&_&_&->&_&->). done.
Qed.
Lemma prev_follow_spec r nodes l n rr it :
  chain_ok r nodes → nodes = l ++ n :: rr → ∃ it', prev_follow r (Some (n_addr n), it) = Some it' ∧
    match last (contents (l ++ [n])) with None => valid_ it' = false | Some y => valid_ it' = true ∧ anchor_entry_ it' = Some y end.
Proof.
  intros Hc Hn. unfold prev_follow. cbn [fst snd]. pose proof (ch_seg _ _ _ Hc) as Hseg. rewrite Hn in Hseg. rewrite (cons_middle n), app_assoc in Hseg. apply dlseg_app in Hseg as [Hseg _].
  pose proof (chain_blocks _ _ _ Hc) as Hb. rewrite Hn, (cons_middle n), app_assoc in Hb. apply Forall_app in Hb as [Hb _].
  assert (length (l ++ [n]) <= size (heap r))%nat as Hf by (rewrite (ch_size _ _ _ Hc), Hn, !length_app; cbn [length]; lia).
  destruct (edge_back _ _ (l ++ [n]) rr _ it Hseg Hb Hf) as (ok & it' & Hp & Hm). unfold last_addr in Hp. rewrite last_snoc in Hp. rewrite Hp. exists it'. split; [done|].
  destruct (last (contents (l ++ [n]))) as [y|]; destruct Hm as [_ Hm]; [|apply Hm]. destruct Hm as (c1 & _ & Hm). by destruct Hm as (?&?&?&?&?&_&_&_&_&_&_&->&_&->).
Qed.

(** ** Insertions in between *)
Section Window.
Context (new_addr : gmap Z (leaf_block (E := E)) → Z) (Hnew : ∀ h, h !! new_addr h = None).
Lemma slots_of_elem (xs : list E) e : Some e ∈ slots_of xs ↔ e ∈ xs.
Proof.
  unfold slots_of. rewrite elem_of_app, elem_of_replicate, list_elem_of_fmap. split; [intros [(y & [= ->] & ?)|[? _]]; done|]. intros. left. by exists e.
Qed.
Lemma head_least (c : list E) y x : StronglySorted lt (y :: c) → x ∈ y :: c → le y x.
Proof. intros [_ Hs]%StronglySorted_inv [->|Hx]%elem_of_cons; [apply le_refl|]. apply lt_le. by eapply Forall_forall in Hs. Qed.

Lemma irrefl e : ¬ lt e e.
Proof. unfold lt. destruct (flip e e). lia. Qed.
Lemma above_mem (c1 c2 : list E) e x : StronglySorted lt (c1 ++ e :: c2) → x ∈ c1 ++ e :: c2 → lt e x → x ∈ c2.
Proof.
  intros (Hlo & _)%StronglySorted_app [Hx|[->|Hx]%elem_of_cons]%elem_of_app Hex; [|by apply irrefl in Hex|done].
  destruct (irrefl e). apply lt_le_trans with x; [done|]. apply lt_le, Hlo; [done|by left].
Qed.
Lemma below_mem (c1 c2 : list E) e x : StronglySorted lt (c1 ++ e :: c2) → x ∈ c1 ++ e :: c2 → lt x e → x ∈ c1.
Proof.
  intros (_ & _ & [_ Hup]%StronglySorted_inv)%StronglySorted_app [Hx|[->|Hx]%elem_of_cons]%elem_of_app Hex; [done|by apply irrefl in Hex|].
  destruct (irrefl e). apply lt_le_trans with x; [by eapply Forall_forall in Hup|by apply lt_le].
Qed.
Lemma distinct_ne (xs ys : list E) x y : distinct (xs ++ ys) → x ∈ xs → y ∈ ys → compare_ x y ≠ 0.
Proof.
  intros Hd Hx Hy. induction xs as [|z xs IH]; [by apply elem_of_nil in Hx|]. cbn [app] in Hd. inversion_clear Hd as [|? ? Hz Hd'].
  apply elem_of_cons in Hx as [->|Hx]; [|by apply IH]. eapply Forall_forall in Hz; [exact Hz|]. apply elem_of_app. by right.
Qed.
Lemma abs_perm ops (c : list E) pos : (abs_state ops c pos).1 ≡ₚ c ++ inserted ops.
Proof.
  revert c pos. induction ops as [|op ops IH]; intros c pos; cbn [abs_state]; [by rewrite app_nil_r|]. destruct (abs_step op c pos) as [c' pos'] eqn:Ha. rewrite IH.
  destruct op as [e|k|k| | | |]; cbn [abs_step] in Ha; injection Ha as <- <-; try done. cbn. rewrite ins_perm. cbn [app]. apply Permutation_middle.
Qed.
(** The tables before and after, and the block [n] of the first in the second. *)
Lemma window_chain es r nodes l n rr :
  chain_ok r nodes → distinct (es ++ contents nodes) → nodes = l ++ n :: rr →
  ∃ r' nodes' l' n' rr', insert_all new_addr es r = Some r' ∧ chain_ok r' nodes' ∧ StronglySorted lt (contents nodes') ∧ contents nodes' ≡ₚ es ++ contents nodes ∧
    nodes' = l' ++ n' :: rr' ∧ n_addr n' = n_addr n ∧ (∃ b, heap r' !! n_addr n = Some b ∧ ∀ x, Some x ∈ slots b ↔ x ∈ n_es n') ∧
    contents l ⊆ contents l' ∧ contents rr ⊆ contents rr' ∧ contents l' ⊆ es ++ contents l ∧
    ∀ bound, 0 <= bound → Forall (λ n, n_ver n <= bound) nodes → Forall (λ n, n_ver n <= bound + 4 * Z.of_nat (length es)) nodes'.
Proof.
  intros Hc Hd Hn. destruct (insert_all_keeps new_addr Hnew es r nodes Hc) as (r' & nodes' & Hi & Hc' & Hp & Hk & Hver). destruct (Hk l n rr Hn) as (l' & n' & rr' & Hn' & Ha & Hl & Hr & Hs & _).
  exists r', nodes', l', n', rr'. split; [done|]. split; [done|]. split; [apply distinct_sorted; [apply (ch_sorted _ _ _ Hc')|by apply (distinct_perm (es ++ contents nodes))]|].
  split; [done|]. split; [done|]. split; [done|]. split; [|by split_and!]. pose proof (ch_seg _ _ _ Hc') as Hseg. rewrite Hn' in Hseg. eexists. split; [rewrite <- Ha; by apply dlseg_lookup in Hseg|].
  intros x. cbn [slots blk]. apply slots_of_elem.
Qed.
(** [k] uninterrupted steps. *)
Fixpoint next_n (k : nat) r it : option (iter (E := E)) :=
  match k with O => Some it | S k => it ← Next 1 r it; next_n k r it end.
(** From an entry a scan comes to every entry after it. *)
Lemma scan_reaches bound r it c1 y c2 e :
  bound < 2 ^ 32 → sim bound r it (c1 ++ y :: c2) (Some y) → e ∈ y :: c2 →
  ∃ k it', next_n k r it = Some it' ∧ valid_ it' = true ∧ anchor_entry_ it' = Some e.
Proof.
  intros Hb. revert it c1 y. induction c2 as [|z c2 IH]; intros it c1 y Hs He.
  - apply list_elem_of_singleton in He as ->. destruct Hs as (nodes & _ & _ & _ & _ & Ha). exists 0%nat, it. split; [done|]. split; apply Ha.
  - apply elem_of_cons in He as [->|He].
    { destruct Hs as (nodes & _ & _ & _ & _ & Ha). exists 0%nat, it. split; [done|]. split; apply Ha. }
    destruct (next_sim bound r it _ _ Hb Hs) as (it1 & Hn & Hs1). cbn [mbind option_bind] in Hs1.
    assert (StronglySorted lt (c1 ++ y :: z :: c2)) as Hlt by (by destruct Hs as (? & _ & _ & ? & _)).
    rewrite next_head in Hs1 by done. cbn [head] in Hs1. rewrite (cons_middle y), app_assoc in Hs1.
    destruct (IH it1 (c1 ++ [y]) z Hs1 He) as (k & it' & Hk & Hv & Ha). exists (S k), it'. split; [|done]. cbn [next_n]. by rewrite Hn.
Qed.
Lemma next_window_chain bound es e r nodes l n rr a it :
  chain_ok r nodes → StronglySorted lt (contents nodes) → distinct (es ++ contents nodes) →
  0 <= bound → Forall (λ n, n_ver n <= bound) nodes → bound + 4 * Z.of_nat (length es) < 2 ^ 32 → nodes = l ++ n :: rr → n_es n = a ++ [e] →
  ∃ r' b it', insert_all new_addr es r = Some r' ∧ heap r' !! n_addr n = Some b ∧ next_follow r' (n_addr n, it) = Some it' ∧
    (Some e ∈ slots b → (valid_ it' = true → ∀ y, anchor_entry_ it' = Some y → lt e y) ∧
                        (∀ x, x ∈ contents nodes → lt e x → ∃ y, valid_ it' = true ∧ anchor_entry_ it' = Some y ∧ le y x)) ∧
    (Some e ∉ slots b → ∃ y k it'', valid_ it' = true ∧ anchor_entry_ it' = Some y ∧ le y e ∧
                          next_n k r' it' = Some it'' ∧ valid_ it'' = true ∧ anchor_entry_ it'' = Some e).
Proof.
  intros Hc Hlt Hd Hb0 Hver Hlen Hn Hes. destruct (window_chain es r nodes l n rr Hc Hd Hn) as (r' & nodes' & l' & n' & rr' & Hi & Hc' & Hlt' & Hp & Hn' & Ha & (b & Hb & Hbs) & Hl & Hr & Hs & Hv').
  destruct (next_follow_spec r' nodes' l' n' rr' it Hc' Hn') as (it' & Hf & Hm). rewrite Ha in Hf. exists r', b, it'. split; [done|]. split; [done|]. split; [done|]. rewrite Hbs.
  assert (contents nodes = (contents l ++ a) ++ e :: contents rr) as Hcont by (by rewrite Hn, contents_app, contents_cons, Hes, <- !app_assoc).
  rewrite Hcont in Hlt, Hp, Hd |- *. pose proof Hlt' as Hlt0. rewrite Hn', contents_app, contents_cons in Hlt', Hp. pose proof Hlt' as (_ & _ & (Hup' & _ & Hsr)%StronglySorted_app)%StronglySorted_app. split.
  - intros He. split.
    + intros Hv y Hy. destruct (contents rr') as [|y0 c]; [congruence|]. destruct Hm as (_ & Hm & _). rewrite Hm in Hy. injection Hy as <-. apply Hup'; [done|by left].
    + intros x Hx Hex. pose proof (above_mem _ _ _ _ Hlt Hx Hex) as Hxr. apply Hr in Hxr. destruct (contents rr') as [|y c]; [by apply elem_of_nil in Hxr|].
      destruct Hm as (Hv & Hm & _). exists y. split; [done|]. split; [done|]. by eapply head_least.
  - intros He. assert (e ∈ contents rr') as Her.
    { assert (e ∈ contents l' ++ n_es n' ++ contents rr') as Hin by (rewrite Hp; rewrite !elem_of_app; right; right; by left).
      rewrite !elem_of_app in Hin. destruct Hin as [Hin|[?|?]]; [|done..]. apply Hs, elem_of_app in Hin as [Hin|Hin].
      - destruct (distinct_ne _ _ e e Hd Hin); [rewrite !elem_of_app; right; by left|]. destruct (flip e e). lia.
      - apply StronglySorted_app in Hlt as (Hlo & _). assert (lt e e) as Hee by (apply Hlo; [by apply elem_of_app; left|by left]). by apply irrefl in Hee. }
    destruct (contents rr') as [|y c]; [by apply elem_of_nil in Her|]. destruct Hm as (Hv & Hm & Hpl).
    pose proof (sim_moved _ r' nodes' it' _ y c Hc' Hlt0 (Hv' bound Hb0 Hver) Hpl) as Hsim. rewrite (placed_contents _ _ _ _ _ Hpl) in Hsim.
    destruct (scan_reaches _ _ _ _ _ _ e Hlen Hsim Her) as (k & it2 & Hk & Hv2 & Ha2). exists y, k, it2. split; [done|]. split; [done|]. split; [by eapply head_least|done].
Qed.

(** What holds of the table and cursor that operations left. *)
Lemma run_chain cap ops es e r it :
  0 <= cap → distinct (es ++ inserted ops) → Z.of_nat (length ops) < 2 ^ 30 →
  run_state new_addr ops (rep_new (M := M) new_addr cap) IteratorImpl = Some (r, it) → (abs_state ops [] None).2 = Some e →
  ∃ nodes c1 c2, chain_ok r nodes ∧ contents nodes = (abs_state ops [] None).1 ∧ StronglySorted lt (contents nodes) ∧ Forall (λ n : node E, n_ver n < 2 ^ 32) nodes ∧ Forall (λ n : node E, n_ver n <= 4 * Z.of_nat (length ops)) nodes ∧
    contents nodes = c1 ++ e :: c2 ∧ anchored nodes it e ∧ distinct (es ++ contents nodes).
Proof.
  intros Hcap Hd Hlen Hrun Hpos. assert (distinct (inserted ops)) as Hdi by (apply (distinct_app_l _ es), (distinct_perm (es ++ inserted ops)); [apply Permutation_app_comm|done]).
  destruct (run_state_sim new_addr Hnew ops 0 (rep_new new_addr cap) IteratorImpl [] None) as (r' & it' & Hr & Hs); [done|lia|done|by apply new_sim|].
  rewrite Hrun in Hr. injection Hr as <- <-. destruct Hs as (nodes & Hc & Hcont & Hlt & Hv & Hp). rewrite Hpos in Hp. rewrite <- Hcont in Hlt.
  destruct (list_elem_of_split _ _ (proj1 Hp)) as (c1 & c2 & Hc12). exists nodes, c1, c2. split; [done|]. split; [done|]. split; [done|].
  split; [apply (sim_small (0 + 4 * Z.of_nat (length ops))); [lia|done]|]. split; [by rewrite Z.add_0_l in Hv|]. split; [done|]. split; [done|].
  apply (distinct_perm (es ++ inserted ops)); [|done]. by rewrite Hcont, abs_perm.
Qed.

(** C16: a [Next] across blocks that insertions interrupt.  Any operations put the
    cursor on [e], the last entry of its block; [Next] has validated the block and
    is about to load its link when insertions run.  Then if the block still holds
    [e], the step ends after [e] and passes over no entry that was there before.
    If a split has moved [e] out of the block, the step ends on an entry at or
    before [e], and a scan that goes on from there, undisturbed, comes to [e] once
    more: [e], already reported, is reported a second time. *)
Theorem next_window cap ops es e r it leaf it1 :
  0 <= cap → distinct (es ++ inserted ops) → Z.of_nat (length ops + length es) < 2 ^ 30 →
  run_state new_addr ops (rep_new (M := M) new_addr cap) IteratorImpl = Some (r, it) → (abs_state ops [] None).2 = Some e → next_read r it = Some (inr (leaf, it1)) →
  ∃ r' b it', insert_all new_addr es r = Some r' ∧ heap r' !! leaf = Some b ∧ next_follow r' (leaf, it1) = Some it' ∧
    (Some e ∈ slots b → (valid_ it' = true → ∀ y, anchor_entry_ it' = Some y → lt e y) ∧
                        (∀ x, x ∈ (abs_state ops [] None).1 → lt e x → ∃ y, valid_ it' = true ∧ anchor_entry_ it' = Some y ∧ le y x)) ∧
    (Some e ∉ slots b → ∃ y k it'', valid_ it' = true ∧ anchor_entry_ it' = Some y ∧ le y e ∧
                          next_n k r' it' = Some it'' ∧ valid_ it'' = true ∧ anchor_entry_ it'' = Some e).
Proof.
  intros Hcap Hd Hlen Hrun Hpos Hread. destruct (run_chain cap ops es e r it Hcap Hd ltac:(lia) Hrun Hpos) as (nodes & c1 & c2 & Hc & <- & Hlt & Hsm & Hvb & Hcont & Ha & Hd').
  destruct (next_read_spec r nodes Hc Hsm Hlt it e c1 c2 leaf it1 Hcont Ha Hread) as (l & n & rr & a & Hn & <- & Hes). apply (next_window_chain (4 * Z.of_nat (length ops)) es e r nodes l n rr a); try done; lia.
Qed.
Lemma last_greatest (c : list E) y x : StronglySorted lt c → last c = Some y → x ∈ c → le x y.
Proof.
  intros Hs (c0 & ->)%last_Some [Hx| ->%list_elem_of_singleton]%elem_of_app; [|apply le_refl]. apply StronglySorted_app in Hs as (Hs & _). apply lt_le, Hs; [done|by left].
Qed.
(** The predecessor of a block's first entry is in the block before it. *)
Lemma pred_block r l m n rr d :
  chain_ok r ((l ++ [m]) ++ n :: rr) → last (contents (l ++ [m])) = Some d → d ∈ n_es m.
Proof.
  intros Hc Hd. rewrite contents_app, contents_cons, app_nil_r in Hd. apply last_Some_elem_of. rewrite last_app in Hd. destruct (last (n_es m)) eqn:Hm; [done|].
  destruct l as [|n0 l]; [done|]. pose proof (ch_full _ _ _ Hc) as Hf. cbn [app tail] in Hf. rewrite !Forall_app, Forall_cons in Hf. apply last_None in Hm. tauto.
Qed.
Lemma prev_window_chain es e d r nodes l m n rr b it :
  chain_ok r nodes → StronglySorted lt (contents nodes) → distinct (es ++ contents nodes) → nodes = (l ++ [m]) ++ n :: rr → n_es n = e :: b → last (contents (l ++ [m])) = Some d →
  ∃ r' b' it', insert_all new_addr es r = Some r' ∧ heap r' !! n_addr m = Some b' ∧ prev_follow r' (Some (n_addr m), it) = Some it' ∧
    (Some d ∈ slots b' → ∃ y, valid_ it' = true ∧ anchor_entry_ it' = Some y ∧ le d y ∧ lt y e) ∧
    (Some d ∉ slots b' → valid_ it' = true → ∀ y, anchor_entry_ it' = Some y → lt y d).
Proof.
  intros Hc Hlt Hd Hn Hes Hld. pose proof Hn as Hn0. rewrite <- app_assoc in Hn0. cbn [app] in Hn0. rewrite Hn in Hc. pose proof (pred_block _ _ _ _ _ _ Hc Hld) as Hdm. rewrite <- Hn in Hc.
  destruct (window_chain es r nodes l m (n :: rr) Hc Hd Hn0) as (r' & nodes' & l' & m' & rr' & Hi & Hc' & Hlt' & Hp & Hn' & Ha & (b' & Hb & Hbs) & Hl & Hr & Hs & _).
  destruct (prev_follow_spec r' nodes' l' m' rr' it Hc' Hn') as (it' & Hf & Hm). rewrite Ha in Hf. exists r', b', it'. split; [done|]. split; [done|]. split; [done|]. rewrite Hbs.
  rewrite Hn', (cons_middle m'), app_assoc, contents_app in Hlt', Hp. pose proof Hlt' as (Hx & Hsl & _)%StronglySorted_app. rewrite contents_app, contents_cons, app_nil_r in *.
  assert (e ∈ contents rr') as He by (apply Hr; rewrite Hes; by left). split.
  - intros Hdm'. destruct (last (contents l' ++ n_es m')) as [y|] eqn:Hy; [|apply last_None, app_nil in Hy as [_ Hy]; rewrite Hy in Hdm'; by apply elem_of_nil in Hdm'].
    destruct Hm as [Hv Hm]. exists y. split; [done|]. split; [done|]. split; [eapply last_greatest; [exact Hsl|done|]; apply elem_of_app; by right|].
    apply Hx; [by apply last_Some_elem_of|done].
  - intros Hdm' Hv y Hy. destruct (last (contents l' ++ n_es m')) as [y0|] eqn:Hl0; [|congruence]. destruct Hm as [_ Hm]. rewrite Hm in Hy. injection Hy as <-.
    apply Hx; [by apply last_Some_elem_of|]. assert (d ∈ contents nodes) as Hdn by (rewrite Hn0, contents_app, contents_cons; rewrite !elem_of_app; auto).
    assert (d ∈ (contents l' ++ n_es m') ++ contents rr') as Hin by (rewrite Hp; apply elem_of_app; by right). rewrite !elem_of_app in Hin. destruct Hin as [[Hin|?]|?]; [|done..].
    apply Hs, elem_of_app in Hin as [Hin|Hin].
    + destruct (distinct_ne _ _ d d Hd Hin Hdn). destruct (flip d d). lia.
    + rewrite Hn0, contents_app, contents_cons in Hlt. apply StronglySorted_app in Hlt as (Hlo & _). destruct (irrefl d). apply Hlo; [done|]. apply elem_of_app. by left.
Qed.

(** C28: a [Prev] across blocks that insertions interrupt.  The cursor is on [e],
    the first entry of its block; [Prev] has loaded the link to the block before it
    and not yet read that block when insertions run.  If that block still holds the
    entry [d] that was before [e], the step ends on an entry before [e] and not
    before [d].  If a split has moved [d] out of it, the step ends before [d], or
    at no entry at all: a backward scan has passed over an entry. *)
Theorem prev_window cap ops es e d r it p it1 :
  0 <= cap → distinct (es ++ inserted ops) → Z.of_nat (length ops) < 2 ^ 30 →
  run_state new_addr ops (rep_new (M := M) new_addr cap) IteratorImpl = Some (r, it) → (abs_state ops [] None).2 = Some e →
  last (filter (λ x, compare_ x e < 0) (abs_state ops [] None).1) = Some d → prev_read r it = Some (inr (Some p, it1)) →
  ∃ r' b it', insert_all new_addr es r = Some r' ∧ heap r' !! p = Some b ∧ prev_follow r' (Some p, it1) = Some it' ∧
    (Some d ∈ slots b → ∃ y, valid_ it' = true ∧ anchor_entry_ it' = Some y ∧ le d y ∧ lt y e) ∧
    (Some d ∉ slots b → valid_ it' = true → ∀ y, anchor_entry_ it' = Some y → lt y d).
Proof.
  intros Hcap Hd Hlen Hrun Hpos Hld Hread. destruct (run_chain cap ops es e r it Hcap Hd Hlen Hrun Hpos) as (nodes & c1 & c2 & Hc & Hab & Hlt & Hsm & _ & Hcont & Ha & Hd').
  rewrite <- Hab in Hld. destruct (prev_read_spec r nodes Hc Hsm Hlt it e c1 c2 _ it1 Hcont Ha Hread) as (l0 & n & rr & b & Hn & Hp & Hes).
  destruct l0 as [|m l _] using rev_ind; [done|]. unfold last_addr in Hp. rewrite last_snoc in Hp. injection Hp as ->.
  assert (contents nodes = contents (l ++ [m]) ++ e :: b ++ contents rr) as Hcc by (by rewrite Hn, contents_app, contents_cons, Hes).
  rewrite Hcc in Hld. pose proof Hlt as Hlt'. rewrite Hcc in Hlt'. rewrite prev_last in Hld by done. by apply (prev_window_chain es e d r nodes l m n rr b).
Qed.
End Window.
End Races.

(** ** The two interruptions, run: capacity 4, keys in steps of two *)
Module Steps.
Definition e (u : Z) (H : entry_ok [u] 1 1 (Some [u]) = true) : entry := Entry [u] 1 1 (Some [u]) H.
Definition fill := [CInsert (e 92 eq_refl); CInsert (e 94 eq_refl); CInsert (e 96 eq_refl); CInsert (e 98 eq_refl); CInsert (e 95 eq_refl)].
(** On the last entry of the table; on the first entry of its second block. *)
Definition at_end := fill ++ [CLast].
Definition at_start := fill ++ [CSeek (e 96 eq_refl)].
Definition state ops := run_state (M := gmap Z Z) top_addr ops (rep_new top_addr 4) IteratorImpl.
End Steps.
Lemma next_window_witness :
  ∃ r it leaf it1 r' b it', Steps.state Steps.at_end = Some (r, it) ∧ next_read r it = Some (inr (leaf, it1)) ∧
    insert_all (M := gmap Z Z) top_addr [Steps.e 97 eq_refl; Steps.e 99 eq_refl] r = Some r' ∧ heap r' !! leaf = Some b ∧ next_follow r' (leaf, it1) = Some it' ∧
    (Some (Steps.e 98 eq_refl) ∉ slots b → ∃ y k it'', valid_ it' = true ∧ anchor_entry_ it' = Some y ∧ le y (Steps.e 98 eq_refl) ∧
       next_n k r' it' = Some it'' ∧ valid_ it'' = true ∧ anchor_entry_ it'' = Some (Steps.e 98 eq_refl)).
Proof.
  assert (match Steps.state Steps.at_end with Some (r, it) => match next_read r it with Some (inr _) => true | _ => false end | None => false end = true) as Hr by (vm_compute; reflexivity).
  destruct (Steps.state Steps.at_end) as [[r it]|] eqn:Hs; [|discriminate]. destruct (next_read r it) as [[?|[leaf it1]]|] eqn:Hn; [discriminate| |discriminate].
  destruct (next_window (M := gmap Z Z) top_addr top_addr_fresh 4 Steps.at_end [Steps.e 97 eq_refl; Steps.e 99 eq_refl] (Steps.e 98 eq_refl) r it leaf it1)
    as (r' & b & it' & Hi & Hb & Hf & _ & Hback); [lia| |vm_compute; reflexivity|exact Hs|vm_compute; reflexivity|exact Hn|].
  - unfold distinct. repeat constructor; vm_compute; discriminate.
  - exists r, it, leaf, it1, r', b, it'. auto 10.
Defined.
Lemma prev_window_witness :
  ∃ r it p it1 r' b it', Steps.state Steps.at_start = Some (r, it) ∧ prev_read r it = Some (inr (Some p, it1)) ∧
    insert_all (M := gmap Z Z) top_addr [Steps.e 93 eq_refl] r = Some r' ∧ heap r' !! p = Some b ∧ prev_follow r' (Some p, it1) = Some it' ∧
    (Some (Steps.e 95 eq_refl) ∉ slots b → valid_ it' = true → ∀ y, anchor_entry_ it' = Some y → lt y (Steps.e 95 eq_refl)).
Proof.
  assert (match Steps.state Steps.at_start with Some (r, it) => match prev_read r it with Some (inr (Some _, _)) => true | _ => false end | None => false end = true) as Hr by (vm_compute; reflexivity).
  destruct (Steps.state Steps.at_start) as [[r it]|] eqn:Hs; [|discriminate]. destruct (prev_read r it) as [[?|[[p|] it1]]|] eqn:Hn; [discriminate| |discriminate|discriminate].
  destruct (prev_window (M := gmap Z Z) top_addr top_addr_fresh 4 Steps.at_start [Steps.e 93 eq_refl] (Steps.e 96 eq_refl) (Steps.e 95 eq_refl) r it p it1)
    as (r' & b & it' & Hi & Hb & Hf & _ & Hback); [lia| |vm_compute; reflexivity|exact Hs|vm_compute; reflexivity|vm_compute; reflexivity|exact Hn|].
  - unfold distinct. repeat constructor; vm_compute; discriminate.
  - exists r, it, p, it1, r', b, it'. auto 10.
Defined.
(** Both reach the bad case: from 98 the step goes to 98 again and not to 99; from
    96 it goes to 93, past 94 and 95. *)
Example next_goes_back :
  ('(r, it) ← Steps.state Steps.at_end; s ← next_read r it;
   match s with inr p => r ← insert_all top_addr [Steps.e 97 eq_refl; Steps.e 99 eq_refl] r; it ← next_follow r p; Some (e_user <$> anchor_entry_ it) | inl _ => None end) = Some (Some [98]).
Proof. vm_compute. reflexivity. Qed.
Example prev_passes_over :
  ('(r, it) ← Steps.state Steps.at_start; s ← prev_read r it;
   match s with inr p => r ← insert_all top_addr [Steps.e 93 eq_refl] r; it ← prev_follow r p; Some (e_user <$> anchor_entry_ it) | inl _ => None end) = Some (Some [93]).
Proof. vm_compute. reflexivity. Qed.
