(* ===== verification/RocksLocate.v ===== *)
(** * The three lock scopes of a seek

    [FindLeafBlockForSeek] and [FindLeafBlockForSeekOptimistic]
    ([src/integrations/rocksdb/src/expanse_memtable.cc]) find the block a lookup
    starts in.  [kFullLocate] does so under the mutex; [kTrieCall] walks after
    releasing it; [kOptimistic] takes none.  Here insertions run at the points where
    the narrower scopes let them in, which are the program's park points
    [kLocateAfterTailLoad], [kLocateAfterTrieRead] and [kAfterLocate], and the
    lookups are shown to answer as if the table had been still. *)
From stdpp Require Import base numbers list sorting gmap.
From S2P Require Import Prelude SortedAssoc ExpanseApi Sync32 EngineViews RocksKeys RocksTable RocksIter RocksChain RocksEntries RocksLookup RocksCursor.
Open Scope Z_scope.

Section Locate.
Context {E : Type} `{KeyComparatorLaws E} {M : Type} `{ExpanseMapPrevLaws M}.
Implicit Types (r : rep (E := E) (M := M)) (nodes : list (node E)) (k : E) (it : iter (E := E)).

(** The optimistic locate: [head_] and [tail_] are loaded from [r0], the trie is
    read in [r1] and the chain is walked in [r2]; the sync map's answer is that of
    the map as it is in [r1]. *)
Definition FindLeafBlockForSeekOptimistic r0 r1 r2 (internal_key : bytes) (memtable_key : option E) : option Z :=
  if head_ r0 =? tail_ r0 then Some (head_ r0)
  else
    prefix ← SeekPrefix internal_key memtable_key;
    let candidate := match expanse_map_prev_at_or_before (trie_index_ r1) prefix with
                     | Some (_, out_v) => if out_v =? 0 then head_ r0 else out_v
                     | None => head_ r0
                     end in
    SettleSeekCandidate (heap r2) candidate internal_key memtable_key.
(** [kTrieCall]: loads and trie read under one lock, the walk after it. *)
Definition FindLeafBlockForSeekTrieCall r0 r2 (internal_key : bytes) (memtable_key : option E) : option Z :=
  prefix ← SeekPrefix internal_key memtable_key;
  if head_ r0 =? tail_ r0 then Some (head_ r0)
  else SettleSeekCandidate (heap r2) (trie_candidate r0 prefix) internal_key memtable_key.
(** The scopes are one function, with more or fewer moments. *)
Lemma scopes_agree r0 r2 k :
  FindLeafBlockForSeekTrieCall r0 r2 (ikey k) (Some k) = FindLeafBlockForSeekOptimistic r0 r0 r2 (ikey k) (Some k) ∧
  FindLeafBlockForSeek r0 (ikey k) (Some k) = FindLeafBlockForSeekOptimistic r0 r0 r0 (ikey k) (Some k).
Proof.
  unfold FindLeafBlockForSeekTrieCall, FindLeafBlockForSeekOptimistic, FindLeafBlockForSeek, SeekPrefix. rewrite prefix_data. cbn [mbind option_bind].
  by destruct (_ =? _).
Qed.

(** ** A block a lookup of [k] can start in *)
Definition usable nodes k (c : Z) : Prop := ∃ l n rr, nodes = l ++ n :: rr ∧ n_addr n = c ∧ (l = [] ∨ ∃ m, first_of n = Some m ∧ le m k).
Lemma usable_keeps es nodes nodes' k c : keeps es nodes nodes' → usable nodes k c → usable nodes' k c.
Proof.
  intros Hk (l & n & rr & Hn & <- & Hf). destruct (Hk l n rr Hn) as (l' & n' & rr' & Hn' & Ha & _ & _ & _ & Hnil & Hmin). exists l', n', rr'. split; [done|]. split; [done|].
  destruct (decide (l' = [])) as [|Hne]; [by left|right]. destruct Hf as [->|(m & Hm & Hle)]; [by destruct Hne; apply Hnil|].
  destruct (Hmin ltac:(tauto) m Hm) as (m' & Hm' & Hle'). exists m'. split; [done|]. by apply le_trans with m.
Qed.
Lemma addr_keeps es nodes nodes' c : keeps es nodes nodes' → c ∈ n_addr <$> nodes → c ∈ n_addr <$> nodes'.
Proof.
  intros Hk (n & -> & (l & rr & Hn)%list_elem_of_split)%list_elem_of_fmap_1. destruct (Hk l n rr Hn) as (l' & n' & rr' & -> & <- & _).
  apply list_elem_of_fmap_2, elem_of_app. right. by left.
Qed.
Lemma head_first r nodes : chain_ok r nodes → ∃ n rr, nodes = n :: rr ∧ n_addr n = head_ r.
Proof. intros Hc. pose proof (ch_head _ _ _ Hc) as Hh. destruct nodes as [|n rr]; [done|]. injection Hh as ->. by exists n, rr. Qed.
Lemma usable_below nodes k l n rr :
  StronglySorted lt (contents nodes) → nodes = l ++ n :: rr → (l = [] ∨ ∃ m, first_of n = Some m ∧ le m k) → Forall (λ x, lt x k) (contents l).
Proof.
  intros Hlt -> [->|(m & Hm & Hle)]; [done|]. rewrite contents_app, contents_cons in Hlt. apply StronglySorted_app in Hlt as (Hx & _). apply Forall_forall. intros x Hxl.
  apply lt_le_trans with m; [|done]. apply Hx; [done|]. unfold first_of in Hm. destruct (n_es n); [done|]. injection Hm as ->. by left.
Qed.

(** ** The lookups from such a block *)
Definition seen it : option E := if valid_ it then anchor_entry_ it else None.
Lemma scans_from r nodes k c it {T} (cb : E → T → bool * T) arg :
  chain_ok r nodes → StronglySorted lt (contents nodes) → usable nodes k c →
  (∃ it', seek_loop (size (heap r)) (heap r) (ikey k) (Some k) (Some c) it = Some it' ∧ seen it' = head (filter (λ x, 0 <= compare_ x k) (contents nodes))) ∧
  contains_loop (size (heap r)) (heap r) k (Some c) = Some (hit k (contents nodes)) ∧
  get_loop (user k) cb (size (heap r)) (heap r) k (Some c) arg = Some (deliver cb (versions k (contents nodes)) arg).2.
Proof.
  intros Hc Hlt (l & n & rr & Hn & <- & Hf). pose proof (usable_below nodes k l n rr Hlt Hn Hf) as Hbel.
  pose proof (ch_seg _ _ _ Hc) as Hseg. pose proof (chain_blocks _ _ _ Hc) as Hb. pose proof (ch_sorted _ _ _ Hc) as Hs.
  assert (length (n :: rr) <= size (heap r))%nat as Hlen by (rewrite (ch_size _ _ _ Hc), Hn, length_app; cbn [length]; lia).
  rewrite Hn in Hseg, Hb, Hs, Hlt |- *. apply dlseg_app in Hseg as [_ Hseg]. apply Forall_app in Hb as [_ Hb].
  assert (filter (λ x, 0 <= compare_ x k) (contents l) = []) as Hnil by (apply filter_false; eapply Forall_impl; [exact Hbel|]; intros x Hx; unfold lt in Hx; lia).
  rewrite contents_app in Hlt, Hs |- *. apply StronglySorted_app in Hlt as (_ & _ & Hlt), Hs as (_ & _ & Hs). rewrite filter_app, Hnil. cbn [app].
  change (Some (n_addr n)) with (next_addr (n :: rr) None). split; [|split].
  - destruct (seek_scan _ _ [] (n :: rr) _ (ikey k) k it Hseg Hb Hlen) as (it' & -> & Hm). exists it'. split; [done|]. unfold seen.
    destruct Hm as [[[-> _] Hall]|(e & c1 & c2 & Hp & Hc1 & He)].
    + rewrite filter_false; [done|]. eapply Forall_impl; [exact Hall|]. intros x Hx. unfold lt in Hx. lia.
    + pose proof (placed_contents _ _ _ _ _ Hp) as Hcont. cbn [app] in Hcont. change (contents [] ++ c1) with c1 in Hcont. rewrite Hcont, seek_head by done.
      by destruct Hp as (?&?&?&?&?&_&_&_&_&_&_&->&_&->).
  - rewrite (contains_scan _ _ k (n :: rr) _ Hseg Hb Hlen Hs), hit_app. f_equal. assert (hit k (contents l) = false) as ->; [|done].
    apply not_true_is_false. rewrite hit_elem. intros (x & Hx & Hxk). eapply Forall_forall in Hbel; [|exact Hx]. cbn beta in Hbel. unfold lt in Hbel. destruct (flip k x). lia.
  - rewrite (get_scan _ _ _ _ (n :: rr) _ k _ Hseg Hb Hlen Hlt). unfold versions. rewrite filter_app, Hnil. cbn [app]. rewrite take_user_filter; [done| |].
    + by apply strongly_filter.
    + apply Forall_forall. intros x [Hge _]%list_elem_of_filter. unfold le. destruct (flip k x), (flip x k). lia.
Qed.

(** ** Locating among insertions *)
Lemma locate_usable r0 r1 r2 nodes0 nodes1 nodes2 es1 es2 k :
  chain_ok r0 nodes0 → chain_ok r1 nodes1 → chain_ok r2 nodes2 → keeps es1 nodes0 nodes1 → keeps es2 nodes1 nodes2 →
  ∃ c, FindLeafBlockForSeekOptimistic r0 r1 r2 (ikey k) (Some k) = Some c ∧ usable nodes2 k c.
Proof.
  intros Hc0 Hc1 Hc2 Hk1 Hk2. destruct (head_first _ _ Hc0) as (n0 & rr0 & Hn0 & Hh0). unfold FindLeafBlockForSeekOptimistic. destruct (_ =? _).
  - exists (head_ r0). split; [done|]. apply (usable_keeps es2 nodes1), (usable_keeps es1 nodes0); [done..|]. exists [], n0, rr0. auto.
  - unfold SeekPrefix. rewrite prefix_data. cbn [mbind option_bind]. set (prefix := ExtractSlicePrefix64 _). set (cand := match _ with Some _ => _ | None => _ end).
    assert (cand ∈ n_addr <$> nodes1) as Hin.
    { pose proof (trie_candidate_in r1 nodes1 prefix Hc1) as Ht. assert (head_ r0 ∈ n_addr <$> nodes1) as Hh by (apply (addr_keeps es1 nodes0); [done|]; rewrite Hn0, <- Hh0; by left).
      unfold trie_candidate in Ht. unfold cand. destruct (expanse_map_prev_at_or_before _ _) as [[u v]|]; [|done]. by destruct (v =? 0). }
    destruct (settle_spec r2 nodes2 k true cand Hc2) as (l & n & rr & Hs & Hn & [Hf _]); [by eapply addr_keeps|]. exists (n_addr n). split; [exact Hs|]. by exists l, n, rr.
Qed.
Section Scopes.
Context (new_addr : gmap Z (leaf_block (E := E)) → Z) (Hnew : ∀ h, h !! new_addr h = None).

(** C14: a lookup that does not hold the lock finds what is there.  Insertions run
    after the table is built ([es0]), between the loads of its ends and the trie
    read ([es1]), between that and the walk along the chain ([es2]), and between
    the walk and the scan of the blocks ([es3]), any number at each point, with
    distinct keys: the walk ends on a block of the chain, and from it a seek lands
    on the first entry at or after the key, a lookup finds the key exactly if an
    entry compares equal to it, and [Get] delivers exactly the versions of the user
    key at or after it, all as of the table the scan runs on. *)
Theorem locate_stale {T} cap es0 es1 es2 es3 k it (cb : E → T → bool * T) arg :
  0 <= cap → distinct (es0 ++ es1 ++ es2 ++ es3) →
  ∃ r0 r1 r2 r3 c block it',
    insert_all new_addr es0 (rep_new (M := M) new_addr cap) = Some r0 ∧ insert_all new_addr es1 r0 = Some r1 ∧ insert_all new_addr es2 r1 = Some r2 ∧
    insert_all new_addr es3 r2 = Some r3 ∧ table r3 = Some c ∧ c ≡ₚ es0 ++ es1 ++ es2 ++ es3 ∧
    FindLeafBlockForSeekOptimistic r0 r1 r2 (ikey k) (Some k) = Some block ∧
    seek_loop (size (heap r3)) (heap r3) (ikey k) (Some k) (Some block) (InvalidateCache it) = Some it' ∧ seen it' = head (filter (λ x, 0 <= compare_ x k) c) ∧
    contains_loop (size (heap r3)) (heap r3) k (Some block) = Some (hit k c) ∧
    get_loop (user k) cb (size (heap r3)) (heap r3) k (Some block) arg = Some (deliver cb (versions k c) arg).2.
Proof.
  intros Hcap Hd. destruct (insert_all_keeps new_addr Hnew es0 _ _ (new_chain new_addr cap Hcap)) as (r0 & n0 & H0' & Hc0 & Hp0 & _).
  destruct (insert_all_keeps new_addr Hnew es1 r0 n0 Hc0) as (r1 & n1 & H1' & Hc1 & Hp1 & Hk1 & _). destruct (insert_all_keeps new_addr Hnew es2 r1 n1 Hc1) as (r2 & n2 & H2' & Hc2 & Hp2 & Hk2 & _).
  destruct (insert_all_keeps new_addr Hnew es3 r2 n2 Hc2) as (r3 & n3 & H3' & Hc3 & Hp3 & Hk3 & _).
  assert (contents n3 ≡ₚ es0 ++ es1 ++ es2 ++ es3) as Hp.
  { rewrite Hp3, Hp2, Hp1, Hp0. change (contents [Node (new_addr ∅) 0 []]) with (@nil E). rewrite app_nil_r. rewrite (Permutation_app_comm es1), (Permutation_app_comm es2), (Permutation_app_comm es3).
    by rewrite <- !app_assoc. }
  assert (StronglySorted lt (contents n3)) as Hlt by (apply distinct_sorted; [apply (ch_sorted _ _ _ Hc3)|by apply (distinct_perm (es0 ++ es1 ++ es2 ++ es3))]).
  destruct (locate_usable r0 r1 r2 n0 n1 n2 es1 es2 k Hc0 Hc1 Hc2 Hk1 Hk2) as (block & Hf & Hu).
  destruct (scans_from r3 n3 k block (InvalidateCache it) cb arg Hc3 Hlt (usable_keeps _ _ _ _ _ Hk3 Hu)) as ((it' & Hs & Hse) & Hcn & Hg).
  exists r0, r1, r2, r3, (contents n3), block, it'. do 4 (split; [done|]). split; [by eapply table_chain|]. done.
Qed.
End Scopes.
End Locate.
Lemma locate_stale_witness :
  let e u H := Entry [u] 1 1 (Some [u]) H in let k := Entry [98] 9 1 None eq_refl in
  ∃ r0 r1 r2 r3 c block it', insert_all (M := gmap Z Z) top_addr [e 92 eq_refl; e 96 eq_refl; e 99 eq_refl] (rep_new top_addr 2) = Some r0 ∧
    insert_all top_addr [e 97 eq_refl] r0 = Some r1 ∧ insert_all top_addr [e 98 eq_refl; e 91 eq_refl] r1 = Some r2 ∧ insert_all top_addr [e 95 eq_refl] r2 = Some r3 ∧
    table r3 = Some c ∧ FindLeafBlockForSeekOptimistic r0 r1 r2 (ikey k) (Some k) = Some block ∧
    seek_loop (size (heap r3)) (heap r3) (ikey k) (Some k) (Some block) (InvalidateCache IteratorImpl) = Some it' ∧ seen it' = head (filter (λ x, 0 <= compare_ x k) c).
Proof.
  intros e k. destruct (locate_stale (M := gmap Z Z) top_addr top_addr_fresh 2 [e 92 eq_refl; e 96 eq_refl; e 99 eq_refl] [e 97 eq_refl] [e 98 eq_refl; e 91 eq_refl] [e 95 eq_refl] k IteratorImpl
    (λ x (l : list Z), (true, l ++ [e_seq x])) []) as (r0 & r1 & r2 & r3 & c & block & it' & H0 & H1 & H2 & H3 & Ht & _ & Hf & Hs & Hse & _); [lia| |].
  - unfold distinct. repeat constructor; vm_compute; discriminate.
  - exists r0, r1, r2, r3, c, block, it'. auto 10.
Defined.
