(* ===== verification/RocksHandles.v ===== *)
(** * Reader handles of the optimistic scope

    Model of the handle registry and the per-thread cache of
    [src/integrations/rocksdb/src/expanse_memtable.cc] ([OptimisticIndex],
    [ReaderHandleCache], [OptimisticReaderHandle], and the parts of the constructor
    and the destructor that deal with them): a process in which threads start and
    end, representations are built, read and destroyed, and the allocator may hand
    out an address again as soon as it is freed.  The theorem: whatever happened
    before, a thread gets a live handle of the representation it reads, its own and
    no other thread's, and a destructor frees every handle once. *)
From stdpp Require Import base numbers list gmap.
From S2P Require Import Prelude RocksEntries.
Open Scope Z_scope.

Definition kReaderHandleCacheSize : Z := 8.
(** A handle is its address, a thread its id. *)
Record ReaderHandleCache := Cache { cache_entries : list (Z * Z); next_victim : Z }.
(** [constinit thread_local ReaderHandleCache t_reader_handles{}] *)
Definition cache0 : ReaderHandleCache := Cache (replicate (Z.to_nat kReaderHandleCacheSize) (0, 0)) 0.
Record OptimisticIndex := Index { generation : Z; writer_handle : Z; handles : list (Z * Z) }.
(** [live]: the handles that exist, with the generation of their map. *)
Record process := Process { g_next_rep_generation : Z; caches : gmap Z ReaderHandleCache; reps : gmap Z OptimisticIndex; live : gmap Z Z }.
Definition process0 : process := Process 1 ∅ ∅ ∅.

Section Handles.
(** Where the allocator puts the next handle. *)
Context (alloc : gmap Z Z → Z) (Halloc : ∀ l, l !! alloc l = None).
Definition expanse_sync_map_reader_new (g : Z) (l : gmap Z Z) : Z * gmap Z Z := (alloc l, <[alloc l := g]> l).
(** [None]: a free of what is not allocated. *)
Definition expanse_sync_map_reader_free (h : Z) (l : gmap Z Z) : option (gmap Z Z) := _ ← l !! h; Some (delete h l).

(** [for (entry : cache.entries) if (entry.generation == generation) return entry.handle] *)
Fixpoint find_key (k : Z) (l : list (Z * Z)) : option Z := match l with [] => None | (k', h) :: l => if k' =? k then Some h else find_key k l end.
Definition OptimisticReaderHandle (t : Z) (rep : Z) (s : process) : option (Z * process) :=
  opt ← reps s !! rep;
  let cache := default cache0 (caches s !! t) in
  match find_key (generation opt) (cache_entries cache) with
  | Some h => Some (h, s)
  | None =>
      let '(h, opt, l) := match find_key t (handles opt) with
                          | Some h => (h, opt, live s)
                          | None => let '(h, l) := expanse_sync_map_reader_new (generation opt) (live s) in
                                    (h, Index (generation opt) (writer_handle opt) (handles opt ++ [(t, h)]), l)
                          end in
      es ← arr_set (cache_entries cache) (next_victim cache) (generation opt, h);
      let cache := Cache es ((next_victim cache + 1) mod kReaderHandleCacheSize) in
      Some (h, Process (g_next_rep_generation s) (<[t := cache]> (caches s)) (<[rep := opt]> (reps s)) l)
  end.
Definition ReaderHandleCount (rep : Z) (s : process) : option Z := opt ← reps s !! rep; Some (Z.of_nat (length (handles opt))).
(** The constructor at a free address, and the destructor. *)
Definition construct (rep : Z) (s : process) : option process :=
  match reps s !! rep with
  | Some _ => None
  | None =>
      let g := g_next_rep_generation s in
      let '(w, l) := expanse_sync_map_reader_new g (live s) in
      Some (Process (u64 (g + 1)) (caches s) (<[rep := Index g w []]> (reps s)) l)
  end.
Fixpoint free_all (hs : list (Z * Z)) (l : gmap Z Z) : option (gmap Z Z) :=
  match hs with [] => Some l | (_, h) :: hs => l ← expanse_sync_map_reader_free h l; free_all hs l end.
Definition destroy (rep : Z) (s : process) : option process :=
  opt ← reps s !! rep;
  l ← free_all (handles opt) (live s);
  l ← expanse_sync_map_reader_free (writer_handle opt) l;
  Some (Process (g_next_rep_generation s) (caches s) (delete rep (reps s)) l).

(** ** What a process does *)
Inductive event := Build (rep : Z) | Read (t rep : Z) | Drop (rep : Z) | Start (t : Z).
(** A thread that starts, with a new id or one used before, has an empty cache. *)
Definition happens (e : event) (s : process) : option process :=
  match e with
  | Build rep => construct rep s
  | Read t rep => snd <$> OptimisticReaderHandle t rep s
  | Drop rep => destroy rep s
  | Start t => Some (Process (g_next_rep_generation s) (delete t (caches s)) (reps s) (live s))
  end.
(** What the program may do next: build where there is nothing, use what there is. *)
Definition enabled (e : event) (s : process) : bool :=
  match e with Build rep => bool_decide (reps s !! rep = None) | Read _ rep | Drop rep => bool_decide (is_Some (reps s !! rep)) | Start _ => true end.
Inductive reachable : nat → process → Prop :=
  | reach_start : reachable 0 process0
  | reach_step n s e s' : reachable n s → enabled e s = true → happens e s = Some s' → reachable (S n) s'.

(** ** The invariant *)
Definition owned (o : OptimisticIndex) : list Z := writer_handle o :: (handles o).*2.
(** The cache of thread [t]: an entry whose generation is that of a live
    representation holds the handle registered there for [t]. *)
Definition cache_ok (s : process) (t : Z) (c : ReaderHandleCache) : Prop :=
  length (cache_entries c) = Z.to_nat kReaderHandleCacheSize ∧ 0 <= next_victim c < kReaderHandleCacheSize ∧
  ∀ g h, (g, h) ∈ cache_entries c → g < g_next_rep_generation s ∧ ∀ a o, reps s !! a = Some o → generation o = g → (t, h) ∈ handles o.
Record inv (n : nat) (s : process) : Prop := {
  in_next : 1 <= g_next_rep_generation s <= Z.of_nat n + 1;
  in_gen a o : reps s !! a = Some o → 1 <= generation o < g_next_rep_generation s;
  in_inj a a' o o' : reps s !! a = Some o → reps s !! a' = Some o' → generation o = generation o' → a = a';
  in_threads a o : reps s !! a = Some o → NoDup (handles o).*1;
  in_distinct a o : reps s !! a = Some o → NoDup (owned o);
  in_live a o h : reps s !! a = Some o → h ∈ owned o → live s !! h = Some (generation o);
  in_owner h g : live s !! h = Some g → ∃ a o, reps s !! a = Some o ∧ generation o = g ∧ h ∈ owned o;
  in_cache t c : caches s !! t = Some c → cache_ok s t c;
}.
Lemma elem_of_set {A} (l : list A) i x y : y ∈ <[i := x]> l → y = x ∨ y ∈ l.
Proof.
  intros [j Hj]%list_elem_of_lookup_1. destruct (decide (j = i)) as [->|Hne]; [|right; rewrite list_lookup_insert_ne in Hj by done; by eapply list_elem_of_lookup_2].
  left. assert (i < length l)%nat as Hl by (apply lookup_lt_Some in Hj; by rewrite length_insert in Hj). rewrite list_lookup_insert_eq in Hj by done. congruence.
Qed.
Lemma find_key_Some k l h : find_key k l = Some h → (k, h) ∈ l.
Proof. induction l as [|[k' h'] l IH]; [done|]. cbn [find_key]. destruct (Z.eqb_spec k' k) as [->|]; [intros [= ->]; by left|]. intros Hf. right. by apply IH. Qed.
Lemma find_key_None k l : find_key k l = None → k ∉ l.*1.
Proof.
  induction l as [|[k' h'] l IH]; [intros _; apply not_elem_of_nil|]. cbn [find_key fmap list_fmap fst]. destruct (Z.eqb_spec k' k); [done|]. intros Hf%IH. by apply not_elem_of_cons.
Qed.
Lemma free_all_spec hs l :
  NoDup hs.*2 → (∀ h, h ∈ hs.*2 → is_Some (l !! h)) → ∃ l', free_all hs l = Some l' ∧ (∀ h, h ∈ hs.*2 → l' !! h = None) ∧ (∀ h, h ∉ hs.*2 → l' !! h = l !! h).
Proof.
  revert l. induction hs as [|[t h] hs IH]; intros l Hn Hl; [exists l; split; [done|]; split; [by intros h ?%elem_of_nil|done]|].
  cbn [fmap list_fmap snd] in *. apply NoDup_cons in Hn as [Hh Hn]. cbn [free_all]. unfold expanse_sync_map_reader_free.
  destruct (Hl h) as [g Hg]; [by left|]. rewrite Hg. cbn [mbind option_bind]. destruct (IH (delete h l) Hn) as (l' & -> & Hin & Hout).
  { intros h' Hh'. rewrite lookup_delete_ne by (intros ->; done). apply Hl. by right. }
  exists l'. split; [done|]. split.
  - intros h' [->|Hh']%elem_of_cons; [rewrite Hout by done; apply lookup_delete_eq|by apply Hin].
  - intros h' [Hne Hh']%not_elem_of_cons. rewrite Hout by done. by rewrite lookup_delete_ne.
Qed.
Lemma cache0_ok s t : 1 <= g_next_rep_generation s → (∀ a o, reps s !! a = Some o → 1 <= generation o) → cache_ok s t cache0.
Proof.
  intros Hn Hg. split; [done|]. split; [done|]. intros g h Hin. apply elem_of_replicate in Hin as [[= -> ->] _]. split; [lia|]. intros a o Ho He. specialize (Hg a o Ho). lia.
Qed.
(** The cache a thread uses. *)
Lemma cache_used n s t : inv n s → cache_ok s t (default cache0 (caches s !! t)).
Proof.
  intros Hi. destruct (caches s !! t) as [c|] eqn:Hc; [by apply (in_cache _ _ Hi)|]. apply cache0_ok; [apply (in_next _ _ Hi)|].
  intros a o Ho. apply (in_gen _ _ Hi a o Ho).
Qed.
Lemma inv_mono n m s : (n <= m)%nat → inv n s → inv m s.
Proof. intros Hnm [H1 H2 H3 H4 H5 H6 H7 H8]. split; try done. lia. Qed.

(** ** Each event keeps it *)
Lemma inv_build n s rep :
  inv n s → Z.of_nat n + 2 < 2 ^ 64 → reps s !! rep = None → ∃ s', construct rep s = Some s' ∧ inv (S n) s'.
Proof.
  intros Hi Hn Hr. unfold construct. rewrite Hr. cbn [expanse_sync_map_reader_new]. eexists. split; [done|]. pose proof (in_next _ _ Hi) as Hnx.
  set (g := g_next_rep_generation s) in *. assert (u64 (g + 1) = g + 1) as Hu by (apply u64_small; unfold is_u64; lia). rewrite Hu.
  assert (∀ a o, <[rep := Index g (alloc (live s)) []]> (reps s) !! a = Some o → (a = rep ∧ o = Index g (alloc (live s)) []) ∨ a ≠ rep ∧ reps s !! a = Some o) as Hcase.
  { intros a o. destruct (decide (a = rep)) as [->|Hne]; [rewrite lookup_insert_eq; intros [= <-]; by left|rewrite lookup_insert_ne by done; auto]. }
  assert (∀ a o h, reps s !! a = Some o → h ∈ owned o → h ≠ alloc (live s)) as Hfresh.
  { intros a o h Ho Hh ->. pose proof (in_live _ _ Hi a o _ Ho Hh) as Hl. by rewrite Halloc in Hl. }
  split; cbn [g_next_rep_generation caches reps live].
  - lia.
  - intros a o [[-> ->]|[_ Ho]]%Hcase; [cbn; lia|]. pose proof (in_gen _ _ Hi a o Ho). unfold g in *. lia.
  - intros a a' o o' [[-> ->]|[Ha Ho]]%Hcase [[-> ->]|[Ha' Ho']]%Hcase He; [done| | |by eapply (in_inj _ _ Hi)].
    + pose proof (in_gen _ _ Hi a' o' Ho'). cbn in He. unfold g in *. lia.
    + pose proof (in_gen _ _ Hi a o Ho). cbn in He. unfold g in *. lia.
  - intros a o [[-> ->]|[_ Ho]]%Hcase; [constructor|by eapply (in_threads _ _ Hi)].
  - intros a o [[-> ->]|[_ Ho]]%Hcase; [apply NoDup_singleton|by eapply (in_distinct _ _ Hi)].
  - intros a o h [[-> ->]|[_ Ho]]%Hcase Hh; [apply list_elem_of_singleton in Hh as ->; apply lookup_insert_eq|].
    rewrite lookup_insert_ne by (intros <-; by eapply Hfresh). by eapply (in_live _ _ Hi).
  - intros h g'. destruct (decide (h = alloc (live s))) as [->|Hne].
    + rewrite lookup_insert_eq. intros [= <-]. exists rep. eexists. split; [apply lookup_insert_eq|]. split; [done|by left].
    + rewrite lookup_insert_ne by done. intros (a & o & Ho & Hg & Hh)%(in_owner _ _ Hi). exists a, o. split; [|done]. rewrite lookup_insert_ne; [done|]. intros ->. congruence.
  - intros t c Hc. destruct (in_cache _ _ Hi t c Hc) as (Hl & Hv & He). split; [done|]. split; [done|]. intros g' h Hin. destruct (He g' h Hin) as [Hlt Ho].
    cbn [g_next_rep_generation reps]. split; [lia|]. intros a o [[-> ->]|[_ Hao]]%Hcase Hg; [cbn in Hg; unfold g in *; lia|by eapply Ho].
Qed.
Lemma inv_drop n s rep o :
  inv n s → reps s !! rep = Some o → ∃ s', destroy rep s = Some s' ∧ inv n s' ∧ ∀ h, live s' !! h ≠ Some (generation o).
Proof.
  intros Hi Hr. unfold destroy. rewrite Hr. cbn [mbind option_bind]. pose proof (in_distinct _ _ Hi _ _ Hr) as Hnd. apply NoDup_cons in Hnd as [Hw Hnd].
  destruct (free_all_spec (handles o) (live s) Hnd) as (l & -> & Hin & Hout).
  { intros h Hh. exists (generation o). apply (in_live _ _ Hi rep o h Hr). by right. }
  cbn [mbind option_bind]. unfold expanse_sync_map_reader_free. rewrite Hout by done. rewrite (in_live _ _ Hi rep o (writer_handle o) Hr) by (by left). cbn [mbind option_bind].
  set (l' := delete (writer_handle o) l). assert (∀ h, h ∈ owned o → l' !! h = None) as Hgone.
  { intros h [->|Hh]%elem_of_cons; [apply lookup_delete_eq|]. unfold l'. rewrite lookup_delete_ne by (intros <-; done). by apply Hin. }
  assert (∀ h, h ∉ owned o → l' !! h = live s !! h) as Hkeep.
  { intros h [Hne Hh]%not_elem_of_cons. unfold l'. rewrite lookup_delete_ne by done. by apply Hout. }
  assert (∀ a o', delete rep (reps s) !! a = Some o' → a ≠ rep ∧ reps s !! a = Some o') as Hcase by (intros a o' [? ?]%lookup_delete_Some; done).
  assert (∀ a o' h, a ≠ rep → reps s !! a = Some o' → h ∈ owned o' → h ∉ owned o) as Hother.
  { intros a o' h Hne Ho Hh Hh'. pose proof (in_live _ _ Hi a o' h Ho Hh) as H1. pose proof (in_live _ _ Hi rep o h Hr Hh') as H2. apply Hne. apply (in_inj _ _ Hi a rep o' o); congruence. }
  eexists. split; [done|]. split.
  - split; cbn [g_next_rep_generation caches reps live].
    + apply (in_next _ _ Hi).
    + intros a o' [_ Ho]%Hcase. by eapply (in_gen _ _ Hi).
    + intros a a' o1 o2 [_ H1]%Hcase [_ H2]%Hcase. by eapply (in_inj _ _ Hi).
    + intros a o' [_ Ho]%Hcase. by eapply (in_threads _ _ Hi).
    + intros a o' [_ Ho]%Hcase. by eapply (in_distinct _ _ Hi).
    + intros a o' h [Hne Ho]%Hcase Hh. rewrite Hkeep by (by eapply Hother). by eapply (in_live _ _ Hi).
    + intros h g Hl. destruct (decide (h ∈ owned o)) as [Hh|Hh]; [by rewrite Hgone in Hl|]. rewrite Hkeep in Hl by done.
      destruct (in_owner _ _ Hi h g Hl) as (a & o' & Ho & Hg & Ho'). exists a, o'. split; [|done]. apply lookup_delete_Some. split; [|done]. intros <-. congruence.
    + intros t c Hc. destruct (in_cache _ _ Hi t c Hc) as (Hl & Hv & He). split; [done|]. split; [done|]. intros g h Hg. destruct (He g h Hg) as [Hlt Ho]. split; [done|].
      intros a o' [_ Hao]%Hcase Hge. by eapply Ho.
  - cbn [live]. intros h Hl. destruct (decide (h ∈ owned o)) as [Hh|Hh]; [by rewrite Hgone in Hl|]. rewrite Hkeep in Hl by done.
    destruct (in_owner _ _ Hi h _ Hl) as (a & o' & Ho & Hg & Ho'). assert (a = rep) as -> by (by eapply (in_inj _ _ Hi)). congruence.
Qed.
(** A handle registered, and a handle cached. *)
Lemma inv_register n s rep t o :
  inv n s → reps s !! rep = Some o → t ∉ (handles o).*1 → let h := alloc (live s) in
  inv n (Process (g_next_rep_generation s) (caches s) (<[rep := Index (generation o) (writer_handle o) (handles o ++ [(t, h)])]> (reps s)) (<[h := generation o]> (live s))).
Proof.
  intros Hi Hr Ht h. set (o1 := Index _ _ _). pose proof (Halloc (live s)) as Hnone. fold h in Hnone.
  assert (∀ a o', <[rep := o1]> (reps s) !! a = Some o' → (a = rep ∧ o' = o1) ∨ a ≠ rep ∧ reps s !! a = Some o') as Hcase.
  { intros a o'. destruct (decide (a = rep)) as [->|Hne]; [rewrite lookup_insert_eq; intros [= <-]; by left|rewrite lookup_insert_ne by done; auto]. }
  assert (owned o1 = owned o ++ [h]) as Hown by (unfold owned; cbn [o1 handles writer_handle]; by rewrite fmap_app).
  assert (∀ a o' h', reps s !! a = Some o' → h' ∈ owned o' → h' ≠ h) as Hfresh by (intros a o' h' Ho Hh ->; pose proof (in_live _ _ Hi a o' _ Ho Hh); congruence).
  split; cbn [g_next_rep_generation caches reps live].
  - apply (in_next _ _ Hi).
  - intros a o' [[-> ->]|[_ Ho]]%Hcase; [cbn [generation o1]|]; by eapply (in_gen _ _ Hi).
  - intros a a' o' o2 [[-> ->]|[Ha Ho]]%Hcase [[-> ->]|[Ha' Ho']]%Hcase He; [done| | |by eapply (in_inj _ _ Hi)]; cbn [generation o1] in He; by eapply (in_inj _ _ Hi).
  - intros a o' [[-> ->]|[_ Ho]]%Hcase; [|by eapply (in_threads _ _ Hi)]. cbn [handles o1]. rewrite fmap_app. apply NoDup_app. split; [by eapply (in_threads _ _ Hi)|].
    split; [|apply NoDup_singleton]. intros x Hx ->%list_elem_of_singleton. done.
  - intros a o' [[-> ->]|[_ Ho]]%Hcase; [|by eapply (in_distinct _ _ Hi)]. rewrite Hown. apply NoDup_app. split; [by eapply (in_distinct _ _ Hi)|].
    split; [|apply NoDup_singleton]. intros x Hx ->%list_elem_of_singleton. by eapply Hfresh.
  - intros a o' h' [[-> ->]|[_ Ho]]%Hcase Hh.
    + rewrite Hown in Hh. apply elem_of_app in Hh as [Hh| ->%list_elem_of_singleton]; [|apply lookup_insert_eq]. rewrite lookup_insert_ne by (intros <-; by eapply Hfresh). exact (in_live _ _ Hi rep o h' Hr Hh).
    + rewrite lookup_insert_ne by (intros <-; by eapply Hfresh). by eapply (in_live _ _ Hi).
  - intros h' g. destruct (decide (h' = h)) as [->|Hne].
    + rewrite lookup_insert_eq. intros [= <-]. exists rep, o1. split; [apply lookup_insert_eq|]. split; [done|]. rewrite Hown. apply elem_of_app. right. by left.
    + rewrite lookup_insert_ne by done. intros (a & o' & Ho & Hg & Hh)%(in_owner _ _ Hi). destruct (decide (a = rep)) as [->|Har].
      * exists rep, o1. split; [apply lookup_insert_eq|]. assert (o' = o) as -> by congruence. split; [done|]. rewrite Hown. apply elem_of_app. by left.
      * exists a, o'. split; [by rewrite lookup_insert_ne|done].
  - intros t' c Hc. destruct (in_cache _ _ Hi t' c Hc) as (Hl & Hv & He). split; [done|]. split; [done|]. intros g h' Hg. destruct (He g h' Hg) as [Hlt Ho]. split; [done|].
    intros a o' [[-> ->]|[_ Hao]]%Hcase Hge; [|by eapply Ho]. cbn [handles o1]. apply elem_of_app. left. by eapply Ho.
Qed.
Lemma inv_cached n s rep t o h :
  inv n s → reps s !! rep = Some o → (t, h) ∈ handles o → let c := default cache0 (caches s !! t) in
  ∃ es, arr_set (cache_entries c) (next_victim c) (generation o, h) = Some es ∧
    inv n (Process (g_next_rep_generation s) (<[t := Cache es ((next_victim c + 1) mod kReaderHandleCacheSize)]> (caches s)) (reps s) (live s)).
Proof.
  intros Hi Hr Hh c. destruct (cache_used n s t Hi) as (Hl & Hv & He). fold c in Hl, Hv, He. rewrite arr_set_Some by (rewrite Hl; unfold kReaderHandleCacheSize in *; lia).
  eexists. split; [done|]. pose proof Hi as [H1 H2 H3 H4 H5 H6 H7 H8]. split; try done. cbn [caches]. intros t' c'. destruct (decide (t' = t)) as [->|Hne].
  - rewrite lookup_insert_eq. intros [= <-]. split; [cbn [cache_entries]; by rewrite length_insert|]. split; [cbn [next_victim]; by apply Z.mod_pos_bound|].
    cbn [cache_entries g_next_rep_generation reps]. intros g h' Hin. apply elem_of_set in Hin as [[= -> ->]|Hin]; [|by apply He].
    split; [apply (H2 rep o Hr)|]. intros a o' Ho Hg. assert (a = rep) as -> by (by eapply H3). congruence.
  - rewrite lookup_insert_ne by done. apply H8.
Qed.
Lemma inv_read n s rep t o :
  inv n s → reps s !! rep = Some o →
  ∃ h s' o', OptimisticReaderHandle t rep s = Some (h, s') ∧ inv n s' ∧ reps s' !! rep = Some o' ∧ generation o' = generation o ∧ (t, h) ∈ handles o' ∧
    ((t ∈ (handles o).*1 ∧ o' = o) ∨ ((t ∉ ((handles o).*1)) ∧ ((handles o').*1 = ((handles o).*1) ++ [t]))).
Proof.
  intros Hi Hr. unfold OptimisticReaderHandle. rewrite Hr. cbn [mbind option_bind]. set (c := default cache0 (caches s !! t)).
  destruct (cache_used n s t Hi) as (_ & _ & He). fold c in He. destruct (find_key (generation o) (cache_entries c)) as [h|] eqn:Hf.
  - apply find_key_Some in Hf. destruct (He _ _ Hf) as [_ Ho]. specialize (Ho rep o Hr eq_refl). exists h, s, o. split; [done|]. split; [done|]. split; [done|]. split; [done|]. split; [done|].
    left. split; [|done]. by apply (list_elem_of_fmap_2 fst _ (t, h)).
  - destruct (find_key t (handles o)) as [h|] eqn:Hk.
    + apply find_key_Some in Hk. destruct (inv_cached n s rep t o h Hi Hr Hk) as (es & Hes & Hi'). fold c in Hes, Hi'. rewrite Hes. cbn [mbind option_bind]. rewrite (insert_id (reps s)) by done.
      eexists h, _, o. split; [done|]. split; [done|]. split; [done|]. split; [done|]. split; [done|]. left. split; [|done]. by apply (list_elem_of_fmap_2 fst _ (t, h)).
    + apply find_key_None in Hk. cbn [expanse_sync_map_reader_new]. pose proof (inv_register n s rep t o Hi Hr Hk) as Hi1. cbv zeta in Hi1.
      set (h := alloc (live s)) in *. set (o1 := Index _ _ _) in *. set (s1 := Process _ _ _ _) in Hi1. assert ((t, h) ∈ handles o1) as Hth by (apply elem_of_app; right; by left).
      destruct (inv_cached n s1 rep t o1 h Hi1 (lookup_insert_eq _ _ _) Hth) as (es & Hes & Hi'). cbn [s1 caches] in Hes, Hi'. fold c in Hes, Hi'.
      change (generation o, h) with (generation o1, h). rewrite Hes. cbn [mbind option_bind]. eexists h, _, o1. split; [done|]. split; [done|]. split; [apply lookup_insert_eq|].
      split; [done|]. split; [done|]. right. split; [done|]. cbn [handles o1]. by rewrite fmap_app.
Qed.
Lemma handles_inv n s : reachable n s → Z.of_nat n + 2 < 2 ^ 64 → inv n s.
Proof.
  induction 1 as [|n s e s' Hre IH Hen Hs]; intros Hn.
  - split; cbn; try done; lia.
  - specialize (IH ltac:(lia)). destruct e as [rep|t rep|rep|t]; cbn [enabled happens] in *.
    + apply bool_decide_eq_true in Hen. destruct (inv_build n s rep IH ltac:(lia) Hen) as (s1 & Hb & Hi). congruence.
    + apply bool_decide_eq_true in Hen as [o Ho]. destruct (inv_read n s rep t o IH Ho) as (h & s1 & o' & Hr & Hi & _). rewrite Hr in Hs. injection Hs as <-. by apply (inv_mono n); [lia|].
    + apply bool_decide_eq_true in Hen as [o Ho]. destruct (inv_drop n s rep o IH Ho) as (s1 & Hd & Hi & _). apply (inv_mono n); [lia|]. congruence.
    + injection Hs as <-. apply (inv_mono n); [lia|]. destruct IH as [H1 H2 H3 H4 H5 H6 H7 H8]. split; try done. cbn [caches]. intros t' c [_ Hc]%lookup_delete_Some. by apply H8.
Qed.

(** C15: every thread reads through its own live handle.  After any sequence of
    threads starting, representations being built, read and destroyed, with the
    allocator free to reuse every address, a thread that reads a representation
    gets a handle that is allocated, belongs to that representation's map, is
    registered for that thread, and is no other thread's: nothing stale is left in
    the thread's cache of eight.  The registry counts the distinct threads that
    have read.  And destroying the representation frees each of its handles once
    and leaves none.  (Fewer than 2^64 - 2 events, so that no generation is issued
    twice.) *)
Theorem handles_owned n s rep o :
  reachable n s → Z.of_nat n + 2 < 2 ^ 64 → reps s !! rep = Some o →
  (∀ t, ∃ h s' o', OptimisticReaderHandle t rep s = Some (h, s') ∧ reps s' !! rep = Some o' ∧ generation o' = generation o ∧
     (t, h) ∈ handles o' ∧ (∀ t', (t', h) ∈ handles o' → t' = t) ∧ live s' !! h = Some (generation o) ∧
     ReaderHandleCount rep s' = Some (Z.of_nat (size (list_to_set (C := gset Z) (handles o).*1 ∪ {[t]})))) ∧
  (∃ s', destroy rep s = Some s' ∧ ∀ h, live s' !! h ≠ Some (generation o)).
Proof.
  intros Hre Hn Ho. pose proof (handles_inv n s Hre Hn) as Hi. split.
  - intros t. destruct (inv_read n s rep t o Hi Ho) as (h & s' & o' & Hr & Hi' & Ho' & Hg & Hth & Hcase). exists h, s', o'. do 4 (split; [done|]).
    pose proof (in_distinct _ _ Hi' _ _ Ho') as Hnd. apply NoDup_cons in Hnd as [_ Hnd]. pose proof (in_threads _ _ Hi' _ _ Ho') as Hnt. split; [|split].
    + intros t' Ht'. apply list_elem_of_lookup in Hth as [i Hi1], Ht' as [j Hj1]. assert (i = j) as <-; [|congruence].
      apply (NoDup_lookup (handles o').*2 i j h Hnd); by rewrite list_lookup_fmap, ?Hi1, ?Hj1.
    + rewrite <- Hg. apply (in_live _ _ Hi' rep o' h Ho'). right. by apply (list_elem_of_fmap_2 snd _ (t, h)).
    + unfold ReaderHandleCount. rewrite Ho'. cbn [mbind option_bind]. do 2 f_equal. rewrite <- (length_fmap fst), <- (size_list_to_set (C := gset Z) _ Hnt). f_equiv.
      destruct Hcase as [[Hin ->]|[Hin ->]]; [|rewrite list_to_set_app_L; set_solver]. set_solver.
  - destruct (inv_drop n s rep o Hi Ho) as (s' & Hd & _ & Hl). by exists s'.
Qed.
End Handles.

(** A process: two representations, one of them destroyed and its address and its
    handles' addresses taken again. *)
Definition sample : list event := [Build 1; Read 5 1; Read 6 1; Build 2; Read 5 2; Drop 1; Drop 2; Build 1; Start 6; Read 6 1].
Fixpoint unfolds (es : list event) (s : process) : option process :=
  match es with [] => Some s | e :: es => if enabled e s then s ← happens top_addr e s; unfolds es s else None end.
Lemma unfolds_reachable es n s s' : reachable top_addr n s → unfolds es s = Some s' → reachable top_addr (length es + n) s'.
Proof.
  revert n s. induction es as [|e es IH]; intros n s Hr; cbn [unfolds]; [by intros [= <-]|]. destruct (enabled e s) eqn:He; [|done].
  destruct (happens top_addr e s) as [s1|] eqn:Hs; cbn [mbind option_bind]; [|done]. intros Hu. cbn [length]. rewrite Nat.add_succ_comm. by eapply IH; [eapply reach_step|].
Qed.
Lemma handles_owned_witness :
  ∃ s o, unfolds sample process0 = Some s ∧ reps s !! 1 = Some o ∧
    (∃ h s', OptimisticReaderHandle top_addr 5 1 s = Some (h, s') ∧ live s' !! h = Some (generation o)) ∧ ∃ s', destroy 1 s = Some s' ∧ ∀ h, live s' !! h ≠ Some (generation o).
Proof.
  assert ((s ← unfolds sample process0; o ← reps s !! 1; Some (generation o)) = Some 3) as Hc by (vm_compute; reflexivity).
  destruct (unfolds sample process0) as [s|] eqn:Hs; [|discriminate]. cbn [mbind option_bind] in Hc. destruct (reps s !! 1) as [o|] eqn:Ho; [|discriminate]. exists s, o.
  split; [reflexivity|]. split; [exact Ho|].
  destruct (handles_owned top_addr top_addr_fresh 10 s 1 o) as [Hr Hd]; [exact (unfolds_reachable sample 0 process0 s (reach_start top_addr) Hs)|reflexivity|exact Ho|].
  split; [|exact Hd]. destruct (Hr 5) as (h & s' & o' & Hh & _ & _ & _ & _ & Hl & _). exists h, s'. split; [exact Hh|exact Hl].
Defined.
(** Thread 5's cached handle of the first representation has the address of a
    handle of the third, and is not mistaken for it. *)
Example stale_not_used :
  (s ← unfolds sample process0; c ← caches s !! 5; '(h, s') ← OptimisticReaderHandle top_addr 5 1 s; Some (take 2 (cache_entries c), live s !! 2, h, live s' !! h)) =
  Some ([(1, 2); (2, 5)], Some 3, 3, Some 3).
Proof. vm_compute. reflexivity. Qed.
