(* ===== verification/RocksLife.v ===== *)
(** * The end of a memtable

    The destructor's walk over the blocks and [SuggestCompactRange]
    ([src/integrations/rocksdb/src/expanse_memtable.cc]). *)
From stdpp Require Import base numbers list sorting gmap.
From S2P Require Import Prelude SortedAssoc ExpanseApi Sync32 EngineViews RocksKeys RocksTable RocksIter RocksChain RocksEntries RocksLookup.
Open Scope Z_scope.

Section Life.
Context {E : Type} `{KeyComparatorLaws E} {M : Type} `{ExpanseMapPrevLaws M}.
Implicit Types (r : rep (E := E) (M := M)) (nodes : list (node E)) (h : gmap Z (leaf_block (E := E))).

(** [while (curr != nullptr) { next = curr->next_leaf; delete curr; curr = next; }];
    [None]: a freed block is read. *)
Fixpoint delete_blocks (fuel : nat) h (curr : option Z) : option (gmap Z (leaf_block (E := E))) :=
  match curr with
  | None => Some h
  | Some c => match fuel with O => None | S fuel => b ← h !! c; delete_blocks fuel (delete c h) (next_leaf b) end
  end.
(** The keys stored to [*begin] and [*end]; [None] leaves one as it was. *)
Definition SuggestCompactRange r : option (option bytes * option bytes) :=
  h ← heap r !! head_ r; t ← heap r !! tail_ r;
  b ← (if count h >? 0 then e ← arr_get (slots h) 0; x ← e; k ← slice_at x; Some (Some k) else Some None);
  e ← (if count t >? 0 then e ← arr_get (slots t) (count t - 1); x ← e; k ← slice_at x; Some (Some k) else Some None);
  Some (b, e).

Lemma dlseg_delete h c p nodes q : c ∉ n_addr <$> nodes → dlseg h p nodes q → dlseg (delete c h) p nodes q.
Proof.
  revert p. induction nodes as [|n nodes IH]; intros p; [done|]. cbn [fmap list_fmap]. intros [Hne Hc]%not_elem_of_cons [Hn Hd]. split; [by rewrite lookup_delete_ne|by apply IH].
Qed.
Lemma delete_blocks_spec h p nodes fuel :
  dlseg h p nodes None → NoDup (n_addr <$> nodes) → (length nodes <= fuel)%nat →
  ∃ h', delete_blocks fuel h (next_addr nodes None) = Some h' ∧ (size h' + length nodes = size h)%nat.
Proof.
  revert h p fuel. induction nodes as [|n nodes IH]; intros h p fuel Hd Hnd Hf; [exists h; split; [by destruct fuel|cbn; lia]|].
  destruct fuel as [|fuel]; [cbn in Hf; lia|]. destruct Hd as [Hn Hd]. apply NoDup_cons in Hnd as [Hc Hnd]. cbn [next_addr delete_blocks]. rewrite Hn. cbn [mbind option_bind next_leaf blk].
  destruct (IH (delete (n_addr n) h) (Some (n_addr n)) fuel) as (h' & -> & Hs); [by apply dlseg_delete|done|cbn in Hf; lia|]. exists h'. split; [done|].
  assert (size h = S (size (delete (n_addr n) h))) as -> by (rewrite map_size_delete, Hn; pose proof (map_size_ne_0_lookup_2 h (n_addr n) (mk_is_Some _ _ Hn)); lia). cbn [length]. lia.
Qed.
(** The destructor frees every block of the table, each once. *)
Theorem blocks_freed r nodes : chain_ok r nodes → delete_blocks (size (heap r)) (heap r) (Some (head_ r)) = Some ∅.
Proof.
  intros Hc. pose proof (ch_head _ _ _ Hc) as Hh. assert (Some (head_ r) = next_addr nodes None) as -> by (destruct nodes; done).
  destruct (delete_blocks_spec (heap r) None nodes (size (heap r)) (ch_seg _ _ _ Hc) (ch_nodup _ _ _ Hc)) as (h' & -> & Hs); [by rewrite (ch_size _ _ _ Hc)|].
  f_equal. apply map_size_empty_iff. rewrite (ch_size _ _ _ Hc) in Hs. lia.
Qed.
(** The range is from the first block's first key to the last key of the table. *)
Theorem range_spec r nodes : chain_ok r nodes → SuggestCompactRange r = Some (ikey <$> (head nodes ≫= first_of), ikey <$> last (contents nodes)).
Proof.
  intros Hc. pose proof (ch_head _ _ _ Hc) as Hh. pose proof (ch_tail _ _ _ Hc) as Ht. pose proof (chain_len64 _ _ _ Hc) as Hl64. pose proof (ch_seg _ _ _ Hc) as Hseg.
  assert (∀ n, n ∈ nodes → ∃ p q, heap r !! n_addr n = Some (blk p n q)) as Hin.
  { intros n (l & rr & ->)%list_elem_of_split. by eexists _, _; eapply dlseg_lookup. }
  destruct nodes as [|n0 nodes]; [done|]. destruct (exists_last (l := n0 :: nodes)) as (l & n1 & Heq); [done|]. injection Hh as Hh. rewrite Heq, last_snoc in Ht. injection Ht as Ht.
  destruct (Hin n0) as (p0 & q0 & H0'); [by left|]. destruct (Hin n1) as (p1 & q1 & H1'); [rewrite Heq; apply elem_of_app; right; by left|].
  assert (last (contents (n0 :: nodes)) = last (n_es n1)) as Hlast.
  { rewrite Heq, contents_app, contents_cons, app_nil_r, last_app. destruct (last (n_es n1)) eqn:Hx; [done|]. apply last_None in Hx. destruct l as [|n2 l]; [done|].
    pose proof (ch_full _ _ _ Hc) as Hf. rewrite Heq in Hf. cbn [app tail] in Hf. apply Forall_app in Hf as [_ Hf]. by apply Forall_cons in Hf as [? _]. }
  rewrite Hlast. unfold SuggestCompactRange. rewrite Hh, Ht, H0', H1'. cbn [mbind option_bind count slots blk head].
  assert ((if Z.of_nat (length (n_es n0)) >? 0 then e ← arr_get (slots_of (n_es n0)) 0; x ← e; k ← slice_at x; Some (Some k) else Some None) = Some (ikey <$> first_of n0)) as ->.
  { unfold first_of. destruct (n_es n0) as [|x xs]; [done|]. rewrite (proj2 (Z.gtb_lt _ 0)) by (cbn [length]; lia). rewrite slots_get by (cbn [length]; lia). change ((x :: xs) !! Z.to_nat 0) with (Some x). cbn [mbind option_bind]. by rewrite slice_data. }
  cbn [mbind option_bind].
  assert ((if Z.of_nat (length (n_es n1)) >? 0 then e ← arr_get (slots_of (n_es n1)) (Z.of_nat (length (n_es n1)) - 1); x ← e; k ← slice_at x; Some (Some k) else Some None) = Some (ikey <$> last (n_es n1))) as ->; [|done].
  destruct (n_es n1) as [|x xs] eqn:Hx; [done|]. rewrite <- Hx. destruct (exists_last (l := n_es n1)) as (ys & y & Hy); [by rewrite Hx|]. rewrite Hy, last_snoc.
  rewrite (proj2 (Z.gtb_lt _ 0)) by (rewrite length_app; cbn [length]; lia). rewrite slots_get by (rewrite length_app; cbn [length]; lia).
  replace (Z.to_nat (Z.of_nat (length (ys ++ [y])) - 1)) with (length ys) by (rewrite length_app; cbn [length]; lia). rewrite list_lookup_middle by done. cbn [mbind option_bind]. by rewrite slice_data.
Qed.
End Life.
